(* ===== verification/_CoqProject ===== *)
-Q . S2P
Prelude.v
KHeap.v
Buddy.v
BuddyInv.v
BuddyProof.v
PageAlloc.v
Slab.v
SlabInv.v
SlabProof.v
Kmalloc.v
KmallocSpec.v
Paging.v
PagingProof.v
VmMap.v
VmMapProof.v
VmMapSpec.v
Fault.v
FaultProof.v
Fds.v
FdCalls.v
FdProof.v
Process.v
Fork.v
ProcProof.v
Libc.v
LibcProof.v
Env.v
EnvProof.v
LibcAlloc.v
LibcAllocProof.v
Stdio.v
StdioProof.v
Console.v
ConsoleProof.v
UserStack.v
UserStackProof.v
Vfs.v
VfsProof.v
Fat32.v
Fat32Proof.v
FatChains.v
Tui.v
TuiProof.v
TuiScreen.v
TuiSpec.v
TuiText.v
Graphy.v
GraphyProof.v
GraphyText.v
GraphyKeys.v
MachO.v
MachOProof.v
MachOSpace.v
Shell.v
ShellProof.v
SysProc.v
SysProof.v
SysPath.v
SysPathProof.v
Gfx.v
GfxProof.v
Owt.v
OwtProof.v
SysIo.v
SysIoProof.v
SysExec.v
SysExecProof.v
Ports.v
PortsProof.v
ShellExec.v
ShellExecProof.v
