(* ===== verification/Prelude.v ===== *)
(** * TipOS: a verification development of the OvsbMk kernel and its C library

    TipOS is a small x86-64 operating system.  Its kernel, [OvsbMk/], is written
    in C, Zig and assembly; programs run on a C library of its own,
    [src/userland/libc/].  This development translates the C code that carries
    the logic of the kernel, of the library and of the programs into definitions
    that run, and proves what makes them correct.

    ** The program and its models

    - Memory ([OvsbMk/kernel/memory.c]).  One array [frames] of flags, free
      lists threaded through the free blocks, caches of small objects, pools of
      pages and objects, and page tables.  [KHeap] is the state: the memory as
      64-bit words, the globals, the lock.  [Buddy] is the page allocator
      ([buddy_alloc], [buddy_free], [memory_init], [mmap_user], [munmap_user],
      [munmap_all_user]), [Slab] the caches and pools ([kmalloc], [kfree],
      [kcalloc]), [Paging] the page tables ([pml4_create], [split_2mb_pde],
      [map_user_4kb], [map_one_page], [mmap_user_high], ...) and the walk the
      processor makes.
    - Address spaces ([OvsbMk/kernel/vm_map.c]): [VmMap], the linked entries and
      objects in kernel memory, word by word.
    - Interrupts ([OvsbMk/kernel/idt.c], [tss.c]): [Fault] is the gates of the
      interrupt table, the segment descriptor of the task state, and the page
      fault handler, which walks and extends the page tables on demand.
    - Descriptors ([OvsbMk/kernel/syscall.c]): [Fds] is the tables of
      descriptors, pipes and sockets and their ring buffers; [FdCalls] the cases
      of [syscall_handler] on them (read, write, writev, close, lseek, fcntl, dup,
      dup2, dup3, pipe, eventfd, timerfd and the socket calls).  What a file does
      is the class [FileOps].
    - Processes ([OvsbMk/kernel/process.c], [process.h]): [Process] is the table
      of process control blocks, creation, the scheduler, exit and wait; [Fork]
      is fork, clone and the copy of an address space.  They call the allocator
      and the descriptor tables through [on_heap] and [on_fds].  [UserStack] is the
      first stack of a program ([setup_linux_user_stack], and what [SYS_execve] of
      [syscall.c] passes to it) in a program's memory.
    - Programs and the shell ([OvsbMk/kernel/mach_o.c], [shell.c]): [MachO] is the
      loader of Mach-O images and the page tables made for programs, on the words of
      [KHeap]; [Shell] the command line, from characters typed to commands; what
      the commands do outside the console is the class [ShellOps], and [ShellExec]
      instantiates it with [exec], [ls] and [cd] over the kernel.
    - The other system calls ([OvsbMk/kernel/syscall.c]): [SysProc] is the cases of
      [syscall_handler] on processes, the break, the clocks and identity; [SysPath]
      those on paths, over [Fat32] and the class [DiskFiles]; [SysIo] waiting, device
      controls, memory maps and the display; [SysExec] execve and the two spawns, with
      the ELF loader as the class [Loader].  Each extends the state of [Process].
    - Graphics ([OvsbMk/lib/gui/vesa.c], [lib/wm/wm.c], [lib/owt/]): [Gfx] is the
      framebuffer, the back buffer and the drawing of points, rectangles and texts;
      [Owt] the toolkit of windows, buttons, text boxes, lists, menus and dialogs,
      widgets being records by address and callbacks a list of events.
    - Console and environment ([OvsbMk/kernel/console.c], [env.c]): [Console] is the
      text block, the cursor, the drawn cells and the formatter of the kernel;
      [Env] the tables of variables and aliases, rows of characters.
    - File systems: [Fat32] is [OvsbMk/fs/fat32.c] on a disk of sectors; [Vfs]
      is [OvsbMk/fs/vfs.c], with the file systems behind it as the class
      [Backends].
    - Devices behind ports ([OvsbMk/drivers/ata.c], [pci.c], [pci.h], [kernel/serial.c],
      [rtc.c], [pit.c], [pic.c]): [Ports], over the port instructions as the class
      [Ports].
    - Terminal programs: [Tui] is [src/userland/libc/tui.c], windows of cells that
      are composed and sent to a terminal as escape sequences; [Graphy] is the text
      editor [src/userland/progs/graphy.c] on top of it, its globals a record, its
      files the class [Files].
    - The C library: [Libc] is [string.c], [LibcAlloc] is [stdlib.c], [Stdio] is
      [stdio.c] and [ctype.h], over the bytes of a program's memory; the system
      calls and the addresses of static objects are the classes [UserEnv] and
      [Machine].

    ** How code is translated

    A function is a computation of the monad [M] of this file: it takes the state
    and yields a result and a new state, or nothing.  No result stands for what
    has none in C: an access outside an array or to unmapped memory, a lock taken
    twice, a loop that never ends.  Integers are of type [Z] and are cut to their
    width where the C code does arithmetic ([u8], [u16], [u32], [u64], [s32]).
    Pointers are addresses, and null is 0.  Early returns are the branches of the
    definitions, in the order of the code.  Log output, memory barriers and cache
    flushes have no counterpart.

    ** What is proved

    - [BuddyInv], [BuddyProof], [PageAlloc]: the heap is tiled by blocks, free or
      allocated; each operation keeps the tiling and returns; together they
      implement the abstract allocator [pa_step] on the set of live blocks.  In every
      run of the code, of which only what callers were given is noted, live blocks do
      not overlap and the next one overlaps none; their contents are kept, the heap
      coalesces when all is freed, and [mmap_user] hands out zeroed memory.
    - [SlabInv], [SlabProof]: every object of every slab is in one place, the free
      list, the pool or a caller's hands; each operation on slabs and pools keeps
      that and writes to no caller's word.  [Kmalloc], [KmallocSpec]: so [kmalloc],
      [kcalloc] and [kfree] implement an allocator whose state is the set of blocks
      in use, disjoint and aligned, and that fails only when no run of frames that
      would hold the request is free.
    - [VmMapProof], [VmMapSpec]: an address map is an ordered list of disjoint
      ranges, each entry a block of the kernel allocator; adding, finding room,
      removing, protecting and looking up do to that list what they should.  Three
      faults: objects are leaked, lost by a partial unmapping, and ranges wrap.
    - [PagingProof]: splitting a 2 MB mapping keeps every translation; a page
      mapped is reached by the walk.
    - [FaultProof]: a page fault inside the map of a process supplies a fresh
      zeroed frame; outside of it the fault is taken for ever; only the system
      call's gate is open to programs.
    - [FdProof]: a ring buffer is a bounded queue, also when its positions wrap
      around; pipes deliver in order; two faults of [socketpair] and [dup2].
    - [ProcProof]: the scheduler is fair; identifiers stay distinct in every
      run, until they run out; [waitpid] reaps; two faults, of [waitpid] on a reaped
      process and of slots taken for identifiers.
    - [Fat32Proof]: the allocation table is a map; data written along a chain is
      read back; no other file's clusters change; a write fails only on a full
      disk.  [FatChains]: freeing a chain ends on every table, rings included.
    - [MachOProof], [MachOSpace]: an image is loaded completely, at its own addresses,
      and nothing else changes; the entry point of [LC_MAIN] is found, that of
      [LC_UNIXTHREAD] is not; the address space cloned for a program shows it none of the kernel's
      pages; a 2 MB page mapped is reached.
    - [ShellProof]: the shell agrees with a reference shell on every input.
      [ShellExecProof]: exec makes one process for its file or changes none; what its static
      variables do to later programs, a block freed twice, what cd does not do.
    - [UserStackProof]: the start-up code reads back the arguments; an
      environment that is not empty is lost.
    - [SysProof]: exit_group ends the threads of the caller and nothing else, and may
      wake its parent; the random numbers never run dry.  [SysPathProof]: the walk of [resolve_at_path],
      on an array it cuts, is the walk along the parts of the path; the calls with
      [at] leave the current directory alone; what open and openat lose.
      [SysIoProof]: poll tells exactly which descriptors have input, select adds bits
      and takes none away, readv is one read, a flushed rectangle is copied; the
      length of a row is overwritten.  [SysExecProof]: execve builds an image and
      enters it, or changes no process; spawn_shared does not notice a missing directory.
    - [GfxProof]: both drawing files are canvases (class [Canvas]): rectangles and texts
      colour exactly their points, clipped to the screen, and a flush shows the back
      buffer; two overruns.  [OwtProof]: a text box is an editor at a cursor; a tree of
      widgets is drawn inside the buffer; what a click on a combo box selects.
    - [PortsProof]: on the drive of the ATA standard (class [AtaDisk]) whose status is
      valid at once (class [StatusAtOnce]) the driver implements the sectors of [Fat32],
      or gives up on a drive that takes too long; it drops the high bits of a sector's
      number, does not see errors, and misreads a drive whose status is late; without a
      drive it fails.  What the serial port sends, which
      device [pci_find] finds, binary-coded digits.
    - [ConsoleProof]: the console is a terminal of 45 lines of 80 columns;
      redirected output stays in its buffer; [console_printf] against a reference
      formatter; a wrap on the last line does not redraw.
    - [EnvProof]: a table is a finite map with room for 32 keys, no store leaves its
      row, and the arrays keep their type.
    - [VfsProof]: path resolution against a specification by components (the root is
      answered with two slashes), normal forms, and the bounds of the arrays.
    - [LibcProof], [LibcAllocProof]: comparison, search, copying, tokens and
      overlapping moves do what the C standard asks (with two exceptions);
      [atoi] undoes [itoa]; the allocator follows what a program writes.
    - [StdioProof]: [vsnprintf] and [printf] against a reference formatter,
      [sscanf] undoes [vsnprintf], [fgets] reads lines; an overflow of
      [vsnprintf] and the digit loop of [fprintf].
    - [TuiProof], [TuiScreen], [TuiSpec]: every call of the window interface stays in
      its buffers but [tui_win_close], which reads what it has freed; after a refresh a
      terminal shows the topmost window at every place.
      [TuiText]: text in a scrolling window, the line a prompt returns; colours that
      are not sent or sent wrongly.
    - [GraphyProof], [GraphyText], [GraphyKeys]: insertion, deletion and undo; offsets
      and lines; searching, replacing and brackets; the keys refine a text with a
      cursor.  Faults: the arrow keys are exchanged, Enter is taken for another key,
      closing brackets have no match.

    Statements are of total correctness ([wp], or an equation with [Some]): a
    result exists and is right.  [wlp] is used only for invariants over whatever
    an operation returns, and for execve and exec, whose loader is a parameter of which
    nothing is assumed.

    ** Bounds

    [loop] has fuel chosen above the largest number of rounds the code can make:
    16 for the orders of the allocator, 12 for the digits of an [int], 9 for the
    refill of a pool; [for_up] makes exactly the rounds of a counted loop.
    [while_] allows [2 ^ 64] rounds, more than any walk over memory or over a
    chain that ends; its rule [wp_while] asks for a decreasing measure.

    ** What is not modelled

    Zig code (ext2, the ELF loader, keyboard and mouse, the Linux call layer),
    assembly, and the drivers for network, USB and the virtio display, which talk to
    memory-mapped registers; [sleep_ms] and the order of start-up; of the exception
    handler, the dumps.
    The drawing of [Graphy], [mach_o_load_into_pml4], the two spawns beyond the path,
    and the dialogs have no theorems.  Of [VmMap], the wiring of page tables ([vm_map_wire]) and the life of objects
    are modelled without theorems.

    This file: machine integers, little-endian bytes, the monad and its loops, the
    rules of [wp] and [wlp] and the tactics that apply them, and lemmas on bits
    and lists that the components share. *)

From Stdlib Require Import ZArith Lia.
From stdpp Require Import gmap list prelude.

Set Default Goal Selector "!".

Create HintDb kernel.

Declare Scope kernel_scope.
Delimit Scope kernel_scope with K.

Open Scope Z_scope.

(** ** Machine integers *)

(** The C types [uint8_t], [uint16_t], [uint32_t], [uint64_t]/[size_t] are
    integers reduced modulo their width; [int] is reduced to the signed range. *)
Definition u8 (x : Z) : Z := x mod 2 ^ 8.
Definition u16 (x : Z) : Z := x mod 2 ^ 16.
Definition u32 (x : Z) : Z := x mod 2 ^ 32.
Definition u64 (x : Z) : Z := x mod 2 ^ 64.
Definition s32 (x : Z) : Z := (x + 2 ^ 31) mod 2 ^ 32 - 2 ^ 31.

Lemma u8_small x : 0 ≤ x < 2 ^ 8 → u8 x = x.
Proof. apply Z.mod_small. Qed.
Lemma u16_small x : 0 ≤ x < 2 ^ 16 → u16 x = x.
Proof. apply Z.mod_small. Qed.
Lemma u32_small x : 0 ≤ x < 2 ^ 32 → u32 x = x.
Proof. apply Z.mod_small. Qed.
Lemma u64_small x : 0 ≤ x < 2 ^ 64 → u64 x = x.
Proof. apply Z.mod_small. Qed.
Lemma s32_small x : - 2 ^ 31 ≤ x < 2 ^ 31 → s32 x = x.
Proof. intros. unfold s32. rewrite Z.mod_small; lia. Qed.
Lemma u32_s32_succ x : u32 (s32 (u32 x) + 1) = u32 (x + 1).
Proof.
  unfold u32, s32. replace ((x mod 2 ^ 32 + 2 ^ 31) mod 2 ^ 32 - 2 ^ 31 + 1) with ((x mod 2 ^ 32 + 2 ^ 31) mod 2 ^ 32 + (1 - 2 ^ 31)) by lia.
  rewrite Zplus_mod_idemp_l. replace (x mod 2 ^ 32 + 2 ^ 31 + (1 - 2 ^ 31)) with (x mod 2 ^ 32 + 1) by lia. apply Zplus_mod_idemp_l.
Qed.
Lemma u64_range x : 0 ≤ u64 x < 2 ^ 64.
Proof. by apply Z.mod_pos_bound. Qed.
Lemma s32_range x : - 2 ^ 31 ≤ s32 x < 2 ^ 31.
Proof. unfold s32. pose proof (Z.mod_pos_bound (x + 2 ^ 31) (2 ^ 32) ltac:(lia)). lia. Qed.
Lemma u32_range x : 0 ≤ u32 x < 2 ^ 32.
Proof. by apply Z.mod_pos_bound. Qed.

(** A C condition on an integer. *)
Definition nz (x : Z) : bool := negb (x =? 0).

Lemma nz_spec x : nz x = true ↔ x ≠ 0.
Proof. unfold nz. destruct (Z.eqb_spec x 0); naive_solver. Qed.
Lemma nz_false x : nz x = false ↔ x = 0.
Proof. unfold nz. destruct (Z.eqb_spec x 0); naive_solver. Qed.

(** ** Little-endian values *)

Fixpoint le_bytes (n : nat) (v : Z) : list Z :=
  match n with O => [] | S n' => u8 v :: le_bytes n' (Z.shiftr v 8) end.

Fixpoint le_value (bs : list Z) : Z :=
  match bs with [] => 0 | b :: bs' => Z.lor (u8 b) (Z.shiftl (le_value bs') 8) end.

Lemma le_bytes_length n v : length (le_bytes n v) = n.
Proof. revert v. induction n as [|n IH]; intros v; simpl; [done|]. by rewrite IH. Qed.

Lemma le_bytes_range n v : Forall (λ b, 0 ≤ b < 256) (le_bytes n v).
Proof. revert v. induction n as [|n IH]; intros v; constructor; [by apply Z.mod_pos_bound|apply IH]. Qed.

Lemma le_value_bytes n v : le_value (le_bytes n v) = v mod 2 ^ (8 * Z.of_nat n).
Proof.
  revert v. induction n as [|n IH]; intros v; simpl le_value; [by rewrite Z.mod_1_r|].
  rewrite IH. unfold u8. rewrite Z.mod_mod by lia. apply Z.bits_inj'. intros i Hi.
  rewrite Z.lor_spec, Z.shiftl_spec by lia. rewrite !Z.testbit_mod_pow2 by lia.
  destruct (Z.ltb_spec i 8) as [Hlt|Hge].
  - rewrite (Z.testbit_neg_r _ (i - 8)), andb_false_r, orb_false_r by lia.
    rewrite (proj2 (Z.ltb_lt i (8 * Z.of_nat (S n)))) by lia. done.
  - cbn [andb orb]. rewrite Z.shiftr_spec by lia.
    replace (i - 8 + 8) with i by lia.
    destruct (Z.ltb_spec (i - 8) (8 * Z.of_nat n)), (Z.ltb_spec i (8 * Z.of_nat (S n))); lia || done.
Qed.

(** ** The state and failure monad

    A C function is a computation over the globals it can reach.  [None] means
    that the C code has no result: an out-of-range array access, the
    dereference of an object that is not there, or a loop that never ends.  A
    theorem about such a computation states that it does have a result. *)
Definition M (S A : Type) : Type := S → option (A * S).

Definition ret {S A} (a : A) : M S A := λ s, Some (a, s).
Definition bind {S A B} (m : M S A) (k : A → M S B) : M S B := λ s,
  match m s with Some (a, s') => k a s' | None => None end.

Definition gets {S A} (f : S → A) : M S A := λ s, Some (f s, s).
Definition modify {S} (f : S → S) : M S unit := λ s, Some (tt, f s).
Definition stuck {S A} : M S A := λ _, None.
Definition skip {S} : M S unit := ret tt.
Definition assert_ {S} (b : bool) : M S unit := if b then skip else stuck.

(** Run a computation on a part of the state. *)
Definition zoom {S T A} (get : S → T) (set : T → S → S) (m : M T A) : M S A :=
  λ s, match m (get s) with Some (a, t) => Some (a, set t s) | None => None end.

Notation "'let!' x := m 'in' k" := (bind m (λ x, k))
  (at level 10, x pattern, m at level 100, k at level 200,
   format "'[v' 'let!'  x  :=  m  'in' '/' k ']'") : kernel_scope.
Notation "m ;! k" := (bind m (λ _, k))
  (at level 100, k at level 200, right associativity,
   format "'[v' m  ;! '/' k ']'") : kernel_scope.
Open Scope kernel_scope.

(** A C loop: the body yields [inl] of the new loop variables to go round
    again and [inr] of the result on a [break]/[return] or a false guard.  The
    fuel bounds the number of rounds; running out of it is [None]. *)
Fixpoint loop {S A B} (fuel : nat) (body : A → M S (A + B)) (a : A) : M S B :=
  match fuel with
  | O => stuck
  | Datatypes.S fuel' =>
      let! r := body a in
      match r with inl a' => loop fuel' body a' | inr b => ret b end
  end.

(** [for (i = lo; i < lo + n; i++) body(i)] without a [break]. *)
Fixpoint for_up {S} (n : nat) (i : Z) (body : Z → M S unit) : M S unit :=
  match n with
  | O => skip
  | Datatypes.S n' => body i ;! for_up n' (i + 1) body
  end.

(** The same for loops whose number of rounds is not small: up to [2 ^ n]. *)
Fixpoint loop_pow {S A B} (n : nat) (body : A → M S (A + B)) (a : A) : M S (A + B) :=
  match n with
  | O => body a
  | Datatypes.S n' =>
      let! r := loop_pow n' body a in
      match r with inl a' => loop_pow n' body a' | inr b => ret (inr b) end
  end.

(** A C [while] loop: a loop that has not ended after [2 ^ 64] rounds has no
    result. *)
Definition while_ {S A B} (body : A → M S (A + B)) (a : A) : M S B :=
  let! r := loop_pow 64 body a in
  match r with inl _ => stuck | inr b => ret b end.

(** ** Total-correctness assertions *)

Definition wp {S A} (m : M S A) (s : S) (Q : A → S → Prop) : Prop :=
  ∃ a s', m s = Some (a, s') ∧ Q a s'.

Lemma wp_ret {S A} (a : A) (s : S) Q : Q a s → wp (ret a) s Q.
Proof. intros. eexists _, _. split; [reflexivity|done]. Qed.

Lemma wp_bind {S A B} (m : M S A) (k : A → M S B) s Q :
  wp m s (λ a s', wp (k a) s' Q) → wp (bind m k) s Q.
Proof.
  intros (a & s1 & Hm & b & s2 & Hk & HQ). exists b, s2. split; [|done].
  unfold bind. by rewrite Hm.
Qed.

(** Cut a sequence after its first statements. *)
Lemma wp_assoc {S A B C} (m : M S A) (k1 : A → M S B) (k2 : B → M S C) s Q :
  wp (bind (bind m k1) k2) s Q → wp (bind m (λ a, bind (k1 a) k2)) s Q.
Proof. unfold wp, bind. by destruct (m s) as [[a s1]|]. Qed.

Lemma wp_mono {S A} (m : M S A) s (P Q : A → S → Prop) :
  wp m s P → (∀ a s', P a s' → Q a s') → wp m s Q.
Proof. intros (a & s' & ? & ?) HPQ. exists a, s'. auto. Qed.

Lemma wp_gets {S A} (f : S → A) s Q : Q (f s) s → wp (gets f) s Q.
Proof. intros. by eexists _, _. Qed.

Lemma wp_modify {S} (f : S → S) s Q : Q tt (f s) → wp (modify f) s Q.
Proof. intros. by eexists _, _. Qed.

Lemma wp_skip {S} (s : S) Q : Q tt s → wp skip s Q.
Proof. apply wp_ret. Qed.

Lemma wp_assert {S} b (s : S) Q : b = true → Q tt s → wp (assert_ b) s Q.
Proof. intros -> ?. by apply wp_skip. Qed.

Lemma wp_zoom {S T A} (get : S → T) (set : T → S → S) (m : M T A) s Q :
  wp m (get s) (λ a t, Q a (set t s)) → wp (zoom get set m) s Q.
Proof.
  intros (a & t & Hm & HQ). exists a, (set t s). split; [|done].
  unfold zoom. by rewrite Hm.
Qed.

Lemma wp_run {S A} (m : M S A) s a s' (Q : A → S → Prop) :
  m s = Some (a, s') → Q a s' → wp m s Q.
Proof. intros. by exists a, s'. Qed.

(** The loop rule: an invariant on the loop variables and the state, and a
    natural measure that every further round decreases. *)
Lemma wp_loop {S A B} (I : A → S → Prop) (mu : A → S → nat)
    (body : A → M S (A + B)) Q :
  (∀ a s, I a s →
     wp (body a) s (λ r s', match r with
       | inl a' => I a' s' ∧ (mu a' s' < mu a s)%nat
       | inr b => Q b s' end)) →
  ∀ fuel a s, I a s → (mu a s < fuel)%nat → wp (loop fuel body a) s Q.
Proof.
  intros Hbody fuel. induction fuel as [|fuel IH]; intros a s HI Hf; [lia|].
  simpl. apply wp_bind. eapply wp_mono; [by apply Hbody|].
  intros [a'|b] s' Hr; simpl in *.
  - destruct Hr as [HI' Hmu]. apply IH; [done|lia].
  - by apply wp_ret.
Qed.

(** The rule for [while_]: the invariant speaks of a ghost value, on which the
    measure is taken. *)
Section while_rule.
Context {S A B G : Type} (I : G → A → S → Prop) (mu : G → Z) (body : A → M S (A + B)) (Q : B → S → Prop).
Context (Hbody : ∀ g a s, I g a s →
  wp (body a) s (λ r s', match r with
    | inl a' => ∃ g', I g' a' s' ∧ 0 ≤ mu g' < mu g
    | inr b => Q b s' end)).

Lemma wp_loop_pow n g a s :
  I g a s →
  wp (loop_pow n body a) s (λ r s', match r with
    | inl a' => ∃ g', I g' a' s' ∧ 0 ≤ mu g' ≤ mu g - 2 ^ Z.of_nat n
    | inr b => Q b s' end).
Proof.
  revert g a s. induction n as [|n IH]; intros g a s HI.
  - eapply wp_mono; [by apply Hbody|]. intros [a'|b] s' Hr; [|done]. destruct Hr as (g' & ? & ?). exists g'. split; [done|].
    change (2 ^ Z.of_nat 0) with 1. lia.
  - simpl loop_pow. apply wp_bind. eapply wp_mono; [by apply IH|].
    intros [a'|b] s' Hr; [|by apply wp_ret]. destruct Hr as (g' & HI' & Hmu).
    eapply wp_mono; [by apply IH|]. intros [a''|b] s'' Hr; [|done]. destruct Hr as (g'' & HI'' & Hmu').
    exists g''. split; [done|]. rewrite Nat2Z.inj_succ, Z.pow_succ_r by lia. lia.
Qed.

Lemma wp_while_ghost g a s : I g a s → mu g < 2 ^ 64 → wp (while_ body a) s Q.
Proof.
  intros HI Hmu. unfold while_. apply wp_bind. eapply wp_mono; [by apply (wp_loop_pow 64 g)|].
  intros [a'|b] s' Hr; [|by apply wp_ret]. destruct Hr as (g' & _ & Hr). exfalso.
  change (Z.of_nat 64) with 64 in Hr. lia.
Qed.

End while_rule.

Lemma wp_while {S A B} (I : A → S → Prop) (mu : A → S → Z)
    (body : A → M S (A + B)) Q a s :
  (∀ a s, I a s →
     wp (body a) s (λ r s', match r with
       | inl a' => I a' s' ∧ 0 ≤ mu a' s' < mu a s
       | inr b => Q b s' end)) →
  I a s → mu a s < 2 ^ 64 → wp (while_ body a) s Q.
Proof.
  intros Hbody HI Hmu.
  apply (wp_while_ghost (λ g a s, g = (a, s) ∧ I a s) (λ g, mu g.1 g.2) body Q) with (g := (a, s)); [|done|done].
  intros g a0 s0 [-> HI0]. eapply wp_mono; [by apply Hbody|]. intros [a'|b] s' Hr; [|done]. destruct Hr as [? ?]. by exists (a', s').
Qed.

(** A run of a loop, round by round. *)
Inductive rounds {S A B} (body : A → M S (A + B)) (b : B) (s' : S) : nat → A → S → Prop :=
  | rounds_last a s : body a s = Some (inr b, s') → rounds body b s' 1 a s
  | rounds_more k a s a1 s1 :
      body a s = Some (inl a1, s1) → rounds body b s' k a1 s1 → rounds body b s' (Datatypes.S k) a s.

Lemma rounds_loop_pow {S A B} (body : A → M S (A + B)) b s' n :
  ∀ k a s, rounds body b s' k a s →
  if decide (Z.of_nat k ≤ 2 ^ Z.of_nat n) then loop_pow n body a s = Some (inr b, s')
  else ∃ j a1 s1, loop_pow n body a s = Some (inl a1, s1) ∧ rounds body b s' j a1 s1 ∧
    Z.of_nat k = Z.of_nat j + 2 ^ Z.of_nat n.
Proof.
  induction n as [|n IH]; intros k a s Hr.
  - change (2 ^ Z.of_nat 0) with 1. simpl loop_pow. destruct Hr as [a s E|k a s a1 s1 E Hr].
    + by rewrite decide_True by lia.
    + rewrite decide_False by (destruct Hr; lia). exists k, a1, s1. split_and!; [done..|lia].
  - rewrite Nat2Z.inj_succ, Z.pow_succ_r by lia. simpl loop_pow. unfold bind.
    pose proof (IH _ _ _ Hr) as H1. destruct (decide (Z.of_nat k ≤ 2 ^ Z.of_nat n)).
    + rewrite H1, decide_True by lia. done.
    + destruct H1 as (j & a1 & s1 & -> & Hr1 & Hk). pose proof (IH _ _ _ Hr1) as H2.
      destruct (decide (Z.of_nat j ≤ 2 ^ Z.of_nat n)).
      * rewrite H2, decide_True by lia. done.
      * destruct H2 as (j' & a2 & s2 & -> & Hr2 & Hj). rewrite decide_False by lia.
        exists j', a2, s2. split_and!; [done..|lia].
Qed.

Lemma rounds_while {S A B} (body : A → M S (A + B)) b s' k a s :
  rounds body b s' k a s → Z.of_nat k ≤ 2 ^ 64 → while_ body a s = Some (b, s').
Proof.
  intros Hr Hk. pose proof (rounds_loop_pow body b s' 64 k a s Hr) as H.
  rewrite decide_True in H by done. unfold while_, bind. by rewrite H.
Qed.

(** A loop, round by round, up to its end or to a round without a result. *)
Inductive ends {S A B} (body : A → M S (A + B)) (r : option (B * S)) : nat → A → S → Prop :=
  | ends_stuck a s : body a s = None → r = None → ends body r 1 a s
  | ends_last a s b s' : body a s = Some (inr b, s') → r = Some (b, s') → ends body r 1 a s
  | ends_more k a s a1 s1 : body a s = Some (inl a1, s1) → ends body r k a1 s1 → ends body r (Datatypes.S k) a s.

Definition ended {S A B} (r : option (B * S)) : option ((A + B) * S) := (λ '(b, s), (inr b, s)) <$> r.

Lemma ends_loop_pow {S A B} (body : A → M S (A + B)) r n :
  ∀ k a s, ends body r k a s →
  if decide (Z.of_nat k ≤ 2 ^ Z.of_nat n) then loop_pow n body a s = ended r
  else ∃ j a1 s1, loop_pow n body a s = Some (inl a1, s1) ∧ ends body r j a1 s1 ∧
    Z.of_nat k = Z.of_nat j + 2 ^ Z.of_nat n.
Proof.
  induction n as [|n IH]; intros k a s Hr.
  - change (2 ^ Z.of_nat 0) with 1. simpl loop_pow. destruct Hr as [a s E ->|a s b s' E ->|k a s a1 s1 E Hr].
    + by rewrite decide_True by lia.
    + by rewrite decide_True by lia.
    + rewrite decide_False by (destruct Hr; lia). exists k, a1, s1. split_and!; [done..|lia].
  - rewrite Nat2Z.inj_succ, Z.pow_succ_r by lia. simpl loop_pow. unfold bind.
    pose proof (IH _ _ _ Hr) as H1. destruct (decide (Z.of_nat k ≤ 2 ^ Z.of_nat n)).
    + rewrite H1, decide_True by lia. by destruct r as [[b s']|].
    + destruct H1 as (j & a1 & s1 & -> & Hr1 & Hk). pose proof (IH _ _ _ Hr1) as H2.
      destruct (decide (Z.of_nat j ≤ 2 ^ Z.of_nat n)).
      * rewrite H2, decide_True by lia. done.
      * destruct H2 as (j' & a2 & s2 & -> & Hr2 & Hj). rewrite decide_False by lia.
        exists j', a2, s2. split_and!; [done..|lia].
Qed.

Lemma ends_while {S A B} (body : A → M S (A + B)) r k a s :
  ends body r k a s → Z.of_nat k ≤ 2 ^ 64 → while_ body a s = r.
Proof.
  intros Hr Hk. pose proof (ends_loop_pow body r 64 k a s Hr) as E.
  rewrite decide_True in E by done. unfold while_, bind. rewrite E. by destruct r as [[b s']|].
Qed.

(** A loop whose first round has no result has none. *)
Lemma while_stuck {S A B} (body : A → M S (A + B)) a s : body a s = None → while_ body a s = None.
Proof.
  intros E. unfold while_, bind. enough (∀ n, loop_pow n body a s = None) as -> by done.
  induction n as [|n IH]; simpl; [done|]. unfold bind. by rewrite IH.
Qed.

Lemma wp_for_up {S} (I : Z → S → Prop) (body : Z → M S unit) n lo :
  ∀ s, I lo s →
  (∀ i s', lo ≤ i < lo + Z.of_nat n → I i s' →
     wp (body i) s' (λ _ s'', I (i + 1) s'')) →
  wp (for_up n lo body) s (λ _ s', I (lo + Z.of_nat n) s').
Proof.
  revert lo. induction n as [|n IH]; intros lo s HI Hb.
  - simpl. apply wp_skip. by rewrite Z.add_0_r.
  - simpl. apply wp_bind. eapply wp_mono; [apply Hb; [lia|done]|].
    intros [] s' HI'. eapply wp_mono.
    + apply (IH (lo + 1) s' HI'). intros i s'' Hi. apply Hb. lia.
    + intros [] s'' HI''.
      by replace (lo + Z.of_nat (Datatypes.S n)) with (lo + 1 + Z.of_nat n) by lia.
Qed.

(** A loop that always goes round again has no result. *)
Lemma while_diverges {S A B} (I : A → S → Prop) (body : A → M S (A + B)) a s :
  (∀ a s, I a s → ∃ a' s', body a s = Some (inl a', s') ∧ I a' s') →
  I a s → while_ body a s = None.
Proof.
  intros Hb HI. assert (Hn : ∀ n a s, I a s → ∃ a' s', loop_pow n body a s = Some (inl a', s') ∧ I a' s').
  { intros n. induction n as [|n IH]; intros a1 s1 H1; [by apply Hb|].
    destruct (IH a1 s1 H1) as (a2 & s2 & E2 & H2). destruct (IH a2 s2 H2) as (a3 & s3 & E3 & H3).
    exists a3, s3. split; [|done]. simpl loop_pow. unfold bind. by rewrite E2. }
  destruct (Hn 64%nat a s HI) as (a' & s' & E & _). unfold while_, bind. by rewrite E.
Qed.

Lemma wp_and {S A} (m : M S A) s (P Q : A → S → Prop) :
  wp m s P → wp m s Q → wp m s (λ a s', P a s' ∧ Q a s').
Proof. intros (a & s' & E & HP) (a' & s'' & E' & HQ). rewrite E in E'. injection E' as <- <-. by exists a, s'. Qed.


(** One symbolic step through a computation. *)
Ltac wp_step :=
  lazymatch goal with
  | |- wp (bind _ _) _ _ => apply wp_bind
  | |- wp (ret _) _ _ => apply wp_ret
  | |- wp (gets _) _ _ => apply wp_gets
  | |- wp (modify _) _ _ => apply wp_modify
  | |- wp skip _ _ => apply wp_skip
  | |- wp (zoom _ _ _) _ _ => apply wp_zoom
  end; cbv beta iota.
Ltac wp_steps := repeat wp_step.

(** ** Partial-correctness assertions

    For invariants that hold after whatever a computation returns. *)
Definition wlp {S A} (m : M S A) (s : S) (Q : A → S → Prop) : Prop :=
  ∀ a s', m s = Some (a, s') → Q a s'.

Lemma wlp_ret {S A} (a : A) (s : S) (Q : A → S → Prop) : Q a s → wlp (ret a) s Q.
Proof. intros HQ b s' [= <- <-]. done. Qed.
Lemma wlp_bind {S A B} (m : M S A) (k : A → M S B) s Q :
  wlp m s (λ a s', wlp (k a) s' Q) → wlp (bind m k) s Q.
Proof.
  intros Hm b s' Hrun. unfold bind in Hrun. destruct (m s) as [[a s1]|] eqn:E; [|done].
  by apply (Hm a s1).
Qed.
Lemma wlp_mono {S A} (m : M S A) s (P Q : A → S → Prop) :
  wlp m s P → (∀ a s', P a s' → Q a s') → wlp m s Q.
Proof. intros Hm HPQ a s' Hrun. by apply HPQ, Hm. Qed.
Lemma wlp_gets {S A} (f : S → A) s (Q : A → S → Prop) : Q (f s) s → wlp (gets f) s Q.
Proof. intros HQ b s' [= <- <-]. done. Qed.
Lemma wlp_modify {S} (f : S → S) s (Q : unit → S → Prop) : Q tt (f s) → wlp (modify f) s Q.
Proof. intros HQ b s' [= <- <-]. done. Qed.
Lemma wlp_skip {S} (s : S) (Q : unit → S → Prop) : Q tt s → wlp skip s Q.
Proof. apply wlp_ret. Qed.
Lemma wlp_assert {S} b (s : S) (Q : unit → S → Prop) : (b = true → Q tt s) → wlp (assert_ b) s Q.
Proof. intros HQ a s'. destruct b; [|done]. intros [= <- <-]. by apply HQ. Qed.
Lemma wlp_zoom {S T A} (get : S → T) (set : T → S → S) (m : M T A) s (Q : A → S → Prop) :
  (∀ a t, m (get s) = Some (a, t) → Q a (set t s)) → wlp (zoom get set m) s Q.
Proof.
  intros HQ a s' Hrun. unfold zoom in Hrun. destruct (m (get s)) as [[b t]|] eqn:E; [|done].
  injection Hrun as <- <-. by apply HQ.
Qed.
Lemma wlp_for_up {S} (I : Z → S → Prop) (body : Z → M S unit) n lo :
  ∀ s, I lo s → (∀ i s', lo ≤ i < lo + Z.of_nat n → I i s' → wlp (body i) s' (λ _ s'', I (i + 1) s'')) →
  wlp (for_up n lo body) s (λ _ s', I (lo + Z.of_nat n) s').
Proof.
  revert lo. induction n as [|n IH]; intros lo s HI Hb; simpl.
  - apply wlp_skip. by rewrite Z.add_0_r.
  - apply wlp_bind. eapply wlp_mono; [apply Hb; [lia|done]|]. intros [] s' HI'.
    eapply wlp_mono; [apply (IH (lo + 1) s' HI')|].
    + intros i s'' Hi. apply Hb. lia.
    + intros [] s'' HI''. by replace (lo + Z.of_nat (Datatypes.S n)) with (lo + 1 + Z.of_nat n) by lia.
Qed.

Ltac wlp_step :=
  lazymatch goal with
  | |- wlp (bind _ _) _ _ => apply wlp_bind
  | |- wlp (ret _) _ _ => apply wlp_ret
  | |- wlp (gets _) _ _ => apply wlp_gets
  | |- wlp (modify _) _ _ => apply wlp_modify
  | |- wlp skip _ _ => apply wlp_skip
  end; cbv beta iota.

(** ** Word-addressed memory

    Physical memory is seen as 64-bit words at 8-byte aligned byte addresses;
    a word never written is 0. *)
Definition memory : Type := gmap Z Z.
Definition ld (m : gmap Z Z) (a : Z) : Z := default 0 (m !! a).
Definition st (m : gmap Z Z) (a v : Z) : gmap Z Z := <[a := v]> m.

Lemma ld_st_eq m a v : ld (st m a v) a = v.
Proof. unfold ld, st. by rewrite lookup_insert_eq. Qed.
Lemma ld_st_ne m a b v : a ≠ b → ld (st m a v) b = ld m b.
Proof. intros. unfold ld, st. by rewrite lookup_insert_ne. Qed.
Lemma st_st_eq m a v w : st (st m a v) a w = st m a w.
Proof. unfold st. by rewrite insert_insert_eq. Qed.
Lemma ld_st m a b v : ld (st m a v) b = if decide (a = b) then v else ld m b.
Proof. case_decide; subst; [apply ld_st_eq|by apply ld_st_ne]. Qed.

(** ** Doubly linked lists

    [dll nx pv p h l]: following [nx] from [h] visits exactly [l] and ends in
    [NULL]; the [pv] link of every element is its predecessor, [p] for the
    first.  The link functions are the views of a component's store. *)
Fixpoint dll (nx pv : Z → Z) (p h : Z) (l : list Z) : Prop :=
  match l with
  | [] => h = 0
  | x :: l' => h = x ∧ x ≠ 0 ∧ pv x = p ∧ dll nx pv x (nx x) l'
  end.

Lemma dll_ext nx pv nx' pv' p h l :
  (∀ x, x ∈ l → nx' x = nx x) → (∀ x, x ∈ l → pv' x = pv x) →
  dll nx pv p h l → dll nx' pv' p h l.
Proof.
  revert p h. induction l as [|x l IH]; intros p h Hn Hp; [done|].
  simpl. intros (-> & ? & Hpv & Hl). split_and!; try done.
  - rewrite Hp; [done|set_solver].
  - rewrite Hn by set_solver. apply IH; [set_solver..|done].
Qed.

Lemma dll_nonnull nx pv p h l x : dll nx pv p h l → x ∈ l → x ≠ 0.
Proof.
  revert p h. induction l as [|y l IH]; intros p h Hd Hx; [set_solver|].
  destruct Hd as (-> & ? & _ & Hd). apply elem_of_cons in Hx as [->|Hx]; [done|].
  by eapply IH.
Qed.

Lemma dll_nil_iff nx pv p h l : dll nx pv p h l → (h = 0 ↔ l = []).
Proof.
  destruct l; simpl; [by intros ->|]. intros (-> & ? & _). split; [done|discriminate].
Qed.

(** Push at the front: the new node gets the old head as successor and the
    old head, if any, gets the new node as predecessor. *)
Lemma dll_push nx pv nx' pv' h l x :
  dll nx pv 0 h l → NoDup (x :: l) → x ≠ 0 →
  nx' x = h → pv' x = 0 →
  (∀ y, y ∈ l → nx' y = nx y) →
  (∀ y, y ∈ l → pv' y = if decide (y = h) then x else pv y) →
  dll nx' pv' 0 x (x :: l).
Proof.
  intros Hd [Hnin Hnd]%NoDup_cons Hx Hnx Hpx Hn Hp.
  simpl. split_and!; [done..|]. rewrite Hnx.
  destruct l as [|y l]; [done|]. destruct Hd as (-> & Hy & Hpy & Hl).
  apply NoDup_cons in Hnd as [Hyl Hnd]. simpl. split_and!; try done.
  - rewrite Hp, decide_True by set_solver. done.
  - rewrite Hn by set_solver. eapply dll_ext; [..|exact Hl]; intros z Hz.
    + apply Hn. set_solver.
    + rewrite Hp by set_solver. rewrite decide_False by set_solver. done.
Qed.

(** What the links of a node in the middle of a list are. *)
Lemma dll_mid nx pv p h l1 x l2 :
  dll nx pv p h (l1 ++ x :: l2) →
  pv x = default p (last l1) ∧ dll nx pv x (nx x) l2 ∧
  h = default x (head l1) ∧ x ≠ 0.
Proof.
  revert p h. induction l1 as [|y l1 IH]; intros p h; simpl.
  - intros (-> & ? & ? & ?). done.
  - intros (-> & Hy & _ & Hl). destruct (IH _ _ Hl) as (Hpx & Hl2 & _ & Hx).
    split_and!; try done. rewrite Hpx, last_cons. by destruct (last l1).
Qed.

(** Unlink a node: its neighbours are joined, every other link stays. *)
Lemma dll_unlink nx pv nx' pv' p h l1 x l2 :
  dll nx pv p h (l1 ++ x :: l2) → NoDup (p :: l1 ++ x :: l2) →
  (∀ y, y ∈ l1 ++ l2 → nx' y = if decide (y = pv x) then nx x else nx y) →
  (∀ y, y ∈ l1 ++ l2 → pv' y = if decide (y = nx x) then pv x else pv y) →
  dll nx' pv' p (if decide (l1 = []) then nx x else h) (l1 ++ l2).
Proof.
  revert p h. induction l1 as [|y l1 IH]; intros p h Hd Hnd Hn Hp; simpl in *.
  - destruct Hd as (-> & Hx & Hpx & Hl2).
    apply NoDup_cons in Hnd as [Hpn Hnd]. apply NoDup_cons in Hnd as [Hxn Hnd].
    destruct l2 as [|z l2]; [done|]. destruct Hl2 as (Hz & Hz0 & Hpz & Hl2).
    apply NoDup_cons in Hnd as [Hzn Hnd]. rewrite Hpx, Hz in *.
    assert (Hwp : ∀ w, w ∈ z :: l2 → w ≠ p) by (intros w Hw ->; apply Hpn; by right).
    assert (Hwz : ∀ w, w ∈ l2 → w ≠ z) by (by intros w Hw ->).
    simpl. split_and!; try done.
    + rewrite Hp, decide_True by (done || by left). done.
    + rewrite Hn, decide_False by (by auto || by left || (apply Hwp; by left)).
      eapply dll_ext; [..|exact Hl2]; intros w Hw.
      * rewrite Hn, decide_False by ((by right) || (apply Hwp; by right)). done.
      * rewrite Hp, decide_False by (by auto || by right). done.
  - destruct Hd as (-> & Hy & Hpy & Hl). apply NoDup_cons in Hnd as [Hpn Hnd].
    pose proof (dll_mid _ _ _ _ _ _ _ Hl) as (Hpx & Hl2 & Hhd & Hx).
    assert (Hyx : nx x ≠ y).
    { destruct l2 as [|z l2]; simpl in Hl2; [congruence|].
      destruct Hl2 as (-> & _). apply NoDup_cons in Hnd as [Hnd _].
      intros ->. apply Hnd. apply elem_of_app. right. right. left. }
    split_and!; try done.
    + rewrite Hp, decide_False by (by auto || by left). done.
    + specialize (IH y (nx y) Hl Hnd). rewrite Hn by (by left).
      replace (if decide (y = pv x) then nx x else nx y)
        with (if decide (l1 = []) then nx x else nx y).
      { apply IH; intros w Hw; [apply Hn|apply Hp]; by right. }
      destruct l1 as [|z l1]; simpl in Hpx.
      * by rewrite !decide_True.
      * rewrite !decide_False; [done| |done]. intros ->.
        apply NoDup_cons in Hnd as [Hnd _]. apply Hnd. rewrite Hpx at 1.
        rewrite last_cons. destruct (last l1) eqn:E; simpl; [|left].
        apply last_Some_elem_of in E. right. apply elem_of_app. by left.
Qed.

(** The first node of a list. *)
Lemma dll_head nx pv p h l : dll nx pv p h l → h = default 0 (head l).
Proof. destruct l; [done|]. by intros (-> & _). Qed.

(** Insert a node: it is linked between its neighbours, every other link stays. *)
Lemma dll_insert nx pv nx' pv' p h l1 x l2 :
  dll nx pv p h (l1 ++ l2) → NoDup (l1 ++ x :: l2) → x ≠ 0 →
  nx' x = default 0 (head l2) → pv' x = default p (last l1) →
  (∀ y, y ∈ l1 ++ l2 → nx' y = if decide (last l1 = Some y) then x else nx y) →
  (∀ y, y ∈ l1 ++ l2 → pv' y = if decide (head l2 = Some y) then x else pv y) →
  dll nx' pv' p (if decide (l1 = []) then x else h) (l1 ++ x :: l2).
Proof.
  intros Hd Hnd Hx Hnx Hpx Hn Hp. revert p h Hd Hnd Hpx Hn Hp. induction l1 as [|y l1 IH]; intros p h Hd Hnd Hpx Hn Hp; simpl in *.
  - split_and!; [done..|]. rewrite Hnx. destruct l2 as [|z l2]; [done|]. destruct Hd as (-> & Hz & Hpz & Hl).
    apply NoDup_cons in Hnd as [_ [Hzl _]%NoDup_cons]. simpl. split_and!; try done.
    + rewrite Hp, decide_True by (done || by left). done.
    + rewrite Hn by (by left). simpl. eapply dll_ext; [..|exact Hl]; intros w Hw.
      * rewrite Hn by (by right). done.
      * rewrite Hp, decide_False by (by right || (intros [= ->]; done)). done.
  - destruct Hd as (-> & Hy & Hpy & Hl). apply NoDup_cons in Hnd as [Hyn Hnd]. split_and!; try done.
    + rewrite Hp, decide_False by (by left || (intros E; apply Hyn, elem_of_app; right; right; by apply head_Some_elem_of)). done.
    + rewrite Hn by (by left). assert (Hlast : last (y :: l1) = Some (default y (last l1))) by (rewrite last_cons; by destruct (last l1)).
      rewrite Hlast in *. specialize (IH y (nx y) Hl Hnd Hpx).
      replace (if decide (Some (default y (last l1)) = Some y) then x else nx y) with (if decide (l1 = []) then x else nx y).
      { apply IH; intros w Hw.
        - rewrite Hn by (by right). apply decide_ext. destruct (last l1) eqn:E; [done|]. simpl.
          split; [intros [= <-]; exfalso; apply Hyn; rewrite elem_of_app, elem_of_cons in *; tauto|done].
        - apply Hp. by right. }
      destruct l1 as [|z l1]; [by rewrite !decide_True|]. rewrite !decide_False; [done| |done].
      intros [= E]. apply Hyn. apply elem_of_app. left. rewrite <- E. rewrite last_cons.
      destruct (last l1) eqn:El; simpl; [right; by apply last_Some_elem_of|left].
Qed.

#[global] Arguments dll : simpl never.
