(* ===== verification/KHeap.v ===== *)
(** * KHeap: the globals of [OvsbMk/kernel/memory.c]

    The constants, the structures and the global variables of the kernel
    allocator, and the primitive accesses its functions are written with.
    Physical memory is one word-addressed store shared by the free lists, the
    slab headers and objects, the page tables and the pages of processes, so
    that a stale header or a clobbered link is visible to the model.

    [frames], [free_area] and [kmalloc_caches] are arrays of static storage: an
    entry never written is zero, and an access outside the bounds of the array
    has no result.  A pointer to [kmalloc_caches\[i\]] is represented by [i + 1],
    so that it is never [NULL].  The per-CPU pools are stacks: the list holds
    [pages\[count - 1\]], ..., [pages\[0\]], and its length is [count]. *)

From Stdlib Require Import ZArith Lia.
From stdpp Require Import gmap list prelude.
From S2P Require Import Prelude.

Definition HEAP_PHYS : Z := 0xA00000.
Definition HEAP_SIZE : Z := 64 * 1024 * 1024.
Definition FRAME_SIZE : Z := 4096.
Definition FRAME_SHIFT : Z := 12.
Definition FRAME_COUNT : Z := HEAP_SIZE / FRAME_SIZE.
Definition MAX_ORDER : Z := 14.

Definition FRAME_ALLOC : Z := 0x80.
Definition FRAME_USER : Z := 0x40.
Definition FRAME_ORDER : Z := 0x3F.

Definition SLAB_MAGIC : Z := 0x534C4142.
Definition CACHE_COUNT : Z := 8.
Definition PCPU_PAGE_POOL : Z := 32.
Definition PCPU_OBJ_CACHE : Z := 16.
Definition PCPU_OBJ_REFILL : Z := 8.

(** [struct kmem_cache]; [slabs] is the head of the cache's slab list. *)
Record kmem_cache := mkCache {
  obj_size : Z;
  slabs : Z;
  obj_per_slab : Z;
  cache_id : Z }.

Record heap := mkHeap {
  h_mem : gmap Z Z;
  h_frames : gmap Z Z;
  h_free_area : gmap Z Z;
  h_caches : gmap Z kmem_cache;
  h_pcpu_pages : list Z;
  h_pcpu_objects : gmap Z (list Z);
  h_memlock : bool;
  h_user_va_next : Z;
  h_cr3 : Z }.

Definition set_mem (v : gmap Z Z) (h : heap) : heap :=
  mkHeap v (h_frames h) (h_free_area h) (h_caches h) (h_pcpu_pages h)
    (h_pcpu_objects h) (h_memlock h) (h_user_va_next h) (h_cr3 h).
Definition set_frames (v : gmap Z Z) (h : heap) : heap :=
  mkHeap (h_mem h) v (h_free_area h) (h_caches h) (h_pcpu_pages h)
    (h_pcpu_objects h) (h_memlock h) (h_user_va_next h) (h_cr3 h).
Definition set_free_area (v : gmap Z Z) (h : heap) : heap :=
  mkHeap (h_mem h) (h_frames h) v (h_caches h) (h_pcpu_pages h)
    (h_pcpu_objects h) (h_memlock h) (h_user_va_next h) (h_cr3 h).
Definition set_caches (v : gmap Z kmem_cache) (h : heap) : heap :=
  mkHeap (h_mem h) (h_frames h) (h_free_area h) v (h_pcpu_pages h)
    (h_pcpu_objects h) (h_memlock h) (h_user_va_next h) (h_cr3 h).
Definition set_pcpu_pages (v : list Z) (h : heap) : heap :=
  mkHeap (h_mem h) (h_frames h) (h_free_area h) (h_caches h) v
    (h_pcpu_objects h) (h_memlock h) (h_user_va_next h) (h_cr3 h).
Definition set_pcpu_objects (v : gmap Z (list Z)) (h : heap) : heap :=
  mkHeap (h_mem h) (h_frames h) (h_free_area h) (h_caches h) (h_pcpu_pages h)
    v (h_memlock h) (h_user_va_next h) (h_cr3 h).
Definition set_memlock (v : bool) (h : heap) : heap :=
  mkHeap (h_mem h) (h_frames h) (h_free_area h) (h_caches h) (h_pcpu_pages h)
    (h_pcpu_objects h) v (h_user_va_next h) (h_cr3 h).
Definition set_user_va_next (v : Z) (h : heap) : heap :=
  mkHeap (h_mem h) (h_frames h) (h_free_area h) (h_caches h) (h_pcpu_pages h)
    (h_pcpu_objects h) (h_memlock h) v (h_cr3 h).
Definition set_cr3 (v : Z) (h : heap) : heap :=
  mkHeap (h_mem h) (h_frames h) (h_free_area h) (h_caches h) (h_pcpu_pages h)
    (h_pcpu_objects h) (h_memlock h) (h_user_va_next h) v.

(** ** Primitive accesses *)

Definition load (a : Z) : M heap Z := gets (λ h, ld (h_mem h) a).
Definition store (a v : Z) : M heap unit :=
  modify (λ h, set_mem (st (h_mem h) a v) h).

(** 32-bit accesses, in the low or the high half of a word. *)
Definition half (w a : Z) : Z :=
  if a mod 8 =? 0 then Z.land w 0xFFFFFFFF else Z.shiftr w 32.
Definition set_half (w a v : Z) : Z :=
  if a mod 8 =? 0 then Z.lor (Z.shiftl (Z.shiftr w 32) 32) (u32 v)
  else Z.lor (Z.land w 0xFFFFFFFF) (Z.shiftl (u32 v) 32).
Definition load32 (a : Z) : M heap Z :=
  let! w := load (8 * (a / 8)) in ret (half w a).
Definition store32 (a v : Z) : M heap unit :=
  let! w := load (8 * (a / 8)) in store (8 * (a / 8)) (set_half w a v).

Definition in_array (i n : Z) : bool := (0 <=? i) && (i <? n).

Definition frame_get (i : Z) : M heap Z :=
  assert_ (in_array i FRAME_COUNT) ;! gets (λ h, ld (h_frames h) i).
Definition frame_set (i v : Z) : M heap unit :=
  assert_ (in_array i FRAME_COUNT) ;!
  modify (λ h, set_frames (st (h_frames h) i v) h).

Definition area_get (o : Z) : M heap Z :=
  assert_ (in_array o (MAX_ORDER + 1)) ;! gets (λ h, ld (h_free_area h) o).
Definition area_set (o v : Z) : M heap unit :=
  assert_ (in_array o (MAX_ORDER + 1)) ;!
  modify (λ h, set_free_area (st (h_free_area h) o v) h).

(** [mem_lock] spins while the lock is held: with one core nobody else can
    release it, so taking a held lock never returns. *)
Definition mem_lock : M heap unit :=
  let! held := gets h_memlock in
  if held then stuck else modify (set_memlock true).
Definition mem_unlock : M heap unit := modify (set_memlock false).

(** Byte address and frame number. *)
Definition addr_to_frame (addr : Z) : Z :=
  Z.shiftr (u64 (addr - HEAP_PHYS)) FRAME_SHIFT.
Definition frame_to_addr (idx : Z) : Z :=
  u64 (HEAP_PHYS + u64 (Z.shiftl idx FRAME_SHIFT)).

(** ** Facts about the frame numbering *)

Lemma FRAME_COUNT_val : FRAME_COUNT = 16384.
Proof. reflexivity. Qed.

Lemma frame_to_addr_val i :
  0 ≤ i < FRAME_COUNT → frame_to_addr i = HEAP_PHYS + 4096 * i.
Proof.
  rewrite FRAME_COUNT_val. intros Hi. unfold frame_to_addr, FRAME_SHIFT.
  rewrite Z.shiftl_mul_pow2 by lia. unfold HEAP_PHYS.
  rewrite (u64_small (i * _)) by lia. rewrite u64_small; lia.
Qed.

Lemma addr_to_frame_val i :
  0 ≤ i < FRAME_COUNT → addr_to_frame (HEAP_PHYS + 4096 * i) = i.
Proof.
  rewrite FRAME_COUNT_val. intros Hi. unfold addr_to_frame, FRAME_SHIFT.
  rewrite Z.shiftr_div_pow2 by lia. unfold HEAP_PHYS.
  rewrite u64_small by lia.
  replace (0xA00000 + 4096 * i - 0xA00000) with (i * 2 ^ 12) by lia.
  by rewrite Z.div_mul by lia.
Qed.

(** The frame number of a frame's address is the frame. *)
Lemma addr_frame_roundtrip i :
  0 ≤ i < FRAME_COUNT → addr_to_frame (frame_to_addr i) = i.
Proof. intros. rewrite frame_to_addr_val by done. by apply addr_to_frame_val. Qed.

(** ** Steps through the primitive accesses *)

Lemma wp_load a h Q : Q (ld (h_mem h) a) h → wp (load a) h Q.
Proof. intros. by apply wp_gets. Qed.
Lemma wp_store a v h Q :
  Q tt (set_mem (st (h_mem h) a v) h) → wp (store a v) h Q.
Proof. intros. by apply wp_modify. Qed.

Lemma in_array_true i n : 0 ≤ i < n → in_array i n = true.
Proof. unfold in_array. intros. apply andb_true_intro. lia. Qed.

Lemma wp_frame_get i h Q :
  0 ≤ i < FRAME_COUNT → Q (ld (h_frames h) i) h → wp (frame_get i) h Q.
Proof.
  intros Hi HQ. unfold frame_get. wp_step. apply wp_assert; [by apply in_array_true|].
  by apply wp_gets.
Qed.
Lemma wp_frame_set i v h Q :
  0 ≤ i < FRAME_COUNT → Q tt (set_frames (st (h_frames h) i v) h) →
  wp (frame_set i v) h Q.
Proof.
  intros Hi HQ. unfold frame_set. wp_step. apply wp_assert; [by apply in_array_true|].
  by apply wp_modify.
Qed.
Lemma wp_area_get o h Q :
  0 ≤ o ≤ MAX_ORDER → Q (ld (h_free_area h) o) h → wp (area_get o) h Q.
Proof.
  intros Ho HQ. unfold area_get. wp_step.
  apply wp_assert; [apply in_array_true; lia|]. by apply wp_gets.
Qed.
Lemma wp_area_set o v h Q :
  0 ≤ o ≤ MAX_ORDER → Q tt (set_free_area (st (h_free_area h) o v) h) →
  wp (area_set o v) h Q.
Proof.
  intros Ho HQ. unfold area_set. wp_step.
  apply wp_assert; [apply in_array_true; lia|]. by apply wp_modify.
Qed.
Lemma wp_mem_lock h Q :
  h_memlock h = false → Q tt (set_memlock true h) → wp mem_lock h Q.
Proof.
  intros Hl HQ. unfold mem_lock. wp_steps. rewrite Hl. by apply wp_modify.
Qed.
Lemma wp_mem_unlock h Q : Q tt (set_memlock false h) → wp mem_unlock h Q.
Proof. intros. by apply wp_modify. Qed.

(** ** 32-bit fields

    The two halves of a word, and the word with one of them replaced. *)
Definition lo32 (m : gmap Z Z) (a : Z) : Z := Z.land (ld m a) 0xFFFFFFFF.
Definition hi32 (m : gmap Z Z) (a : Z) : Z := Z.shiftr (ld m a) 32.
Definition with_hi (w v : Z) : Z := Z.lor (Z.land w 0xFFFFFFFF) (Z.shiftl (u32 v) 32).
Definition with_lo (w v : Z) : Z := Z.lor (Z.shiftl (Z.shiftr w 32) 32) (u32 v).

Lemma u32_bits v i : 32 ≤ i → Z.testbit (u32 v) i = false.
Proof. intros Hi. unfold u32. rewrite Z.testbit_mod_pow2 by lia. by replace (i <? 32) with false by lia. Qed.

Lemma low_bits x i : 0 ≤ i → Z.testbit (Z.land x 0xFFFFFFFF) i = (i <? 32) && Z.testbit x i.
Proof.
  intros Hi. change 0xFFFFFFFF with (Z.ones 32). rewrite Z.land_ones, Z.testbit_mod_pow2 by lia. done.
Qed.

Lemma with_hi_low w v : Z.land (with_hi w v) 0xFFFFFFFF = Z.land w 0xFFFFFFFF.
Proof.
  apply Z.bits_inj'. intros i Hi. unfold with_hi. rewrite !low_bits, Z.lor_spec, low_bits by done.
  destruct (Z.ltb_spec i 32); [|done]. by rewrite Z.shiftl_spec_low, orb_false_r by lia.
Qed.

Lemma with_hi_high w v : Z.shiftr (with_hi w v) 32 = u32 v.
Proof.
  apply Z.bits_inj'. intros i Hi. unfold with_hi. rewrite Z.shiftr_spec, Z.lor_spec, low_bits, Z.shiftl_spec by lia.
  replace (i + 32 <? 32) with false by lia. by replace (i + 32 - 32) with i by lia.
Qed.

Lemma with_lo_low w v : Z.land (with_lo w v) 0xFFFFFFFF = u32 v.
Proof.
  apply Z.bits_inj'. intros i Hi. unfold with_lo. rewrite low_bits, Z.lor_spec by lia.
  destruct (Z.ltb_spec i 32); [by rewrite Z.shiftl_spec_low by lia|]. by rewrite u32_bits.
Qed.

Lemma with_lo_high w v : Z.shiftr (with_lo w v) 32 = Z.shiftr w 32.
Proof.
  apply Z.bits_inj'. intros i Hi. unfold with_lo. rewrite Z.shiftr_spec, Z.lor_spec, Z.shiftl_spec, u32_bits, orb_false_r by lia.
  by replace (i + 32 - 32) with i by lia.
Qed.

Lemma word_halves a : a mod 8 = 0 → 8 * (a / 8) = a ∧ (a + 4) mod 8 = 4 ∧ 8 * ((a + 4) / 8) = a.
Proof.
  intros E1. assert (E2 : (a + 4) mod 8 = 4) by (rewrite Z.add_mod, E1 by lia; done).
  pose proof (Z.div_mod a 8 ltac:(lia)). pose proof (Z.div_mod (a + 4) 8 ltac:(lia)). lia.
Qed.

Section fields.
Context (a : Z) (h : heap) (Ha : a mod 8 = 0).

Lemma wp_load32_lo Q : Q (lo32 (h_mem h) a) h → wp (load32 a) h Q.
Proof.
  intros HQ. destruct (word_halves a Ha) as (E & _). unfold load32. rewrite E.
  wp_step. apply wp_load. wp_step. unfold half. by rewrite Ha.
Qed.

Lemma wp_store32_lo v (Q : unit → heap → Prop) :
  Q tt (set_mem (st (h_mem h) a (with_lo (ld (h_mem h) a) v)) h) → wp (store32 a v) h Q.
Proof.
  intros HQ. destruct (word_halves a Ha) as (E & _). unfold store32. rewrite E.
  wp_step. apply wp_load. apply wp_store. unfold set_half. by rewrite Ha.
Qed.

Lemma wp_load32_hi Q : Q (hi32 (h_mem h) a) h → wp (load32 (a + 4)) h Q.
Proof.
  intros HQ. destruct (word_halves a Ha) as (_ & E1 & E2). unfold load32. rewrite E2.
  wp_step. apply wp_load. wp_step. unfold half. by rewrite E1.
Qed.

Lemma wp_store32_hi v (Q : unit → heap → Prop) :
  Q tt (set_mem (st (h_mem h) a (with_hi (ld (h_mem h) a) v)) h) → wp (store32 (a + 4) v) h Q.
Proof.
  intros HQ. destruct (word_halves a Ha) as (_ & E1 & E2). unfold store32. rewrite E2.
  wp_step. apply wp_load. apply wp_store. unfold set_half. by rewrite E1.
Qed.

End fields.
