(* ===== verification/Buddy.v ===== *)
(** * Buddy: the page allocator of [OvsbMk/kernel/memory.c]

    [list_add], [list_remove], [buddy_alloc], [buddy_free], [memory_init],
    [mmap_user], [munmap_user] and [munmap_all_user], statement by statement
    over the globals of [KHeap].  Log output on the serial line is left out. *)

From Stdlib Require Import ZArith Lia.
From stdpp Require Import gmap list prelude.
From S2P Require Import Prelude KHeap.

(** ** Intrusive free lists: [next] at offset 0 and [prev] at offset 8 *)

Definition list_add (o : Z) (blk : Z) : M heap unit :=
  let! hd := area_get o in
  store blk hd ;!
  store (blk + 8) 0 ;!
  (if nz hd then store (hd + 8) blk else skip) ;!
  area_set o blk.

Definition list_remove (o : Z) (blk : Z) : M heap unit :=
  let! prev := load (blk + 8) in
  let! next := load blk in
  (if nz prev then store prev next else area_set o next) ;!
  let! next2 := load blk in
  if nz next2 then let! prev2 := load (blk + 8) in store (next2 + 8) prev2
  else skip.

(** ** [buddy_alloc] *)

(** [for (o = order; o <= MAX_ORDER; o++) if (free_area\[o\]) ... break;]: the
    order found, or -1. *)
Definition find_order (order : Z) : M heap Z :=
  loop 16 (λ o,
    if o <=? MAX_ORDER then
      let! hd := area_get o in
      if nz hd then ret (inr o) else ret (inl (o + 1))
    else ret (inr (-1))) order.

(** [for (o = found_order; o > order; o--)]: give the upper halves back. *)
Definition split_down (order block_idx found : Z) : M heap unit :=
  loop 16 (λ o,
    if order <? o then
      let buddy_idx := Z.lxor block_idx (Z.shiftl 1 (o - 1)) in
      let buddy := frame_to_addr buddy_idx in
      frame_set buddy_idx (u8 (o - 1)) ;!
      list_add (o - 1) buddy ;!
      ret (inl (o - 1))
    else ret (inr tt)) found.

Definition buddy_alloc (order : Z) (user : bool) : M heap Z :=
  if (order <? 0) || (MAX_ORDER <? order) then ret 0 else
  mem_lock ;!
  let! found_order := find_order order in
  if found_order <? 0 then mem_unlock ;! ret 0 else
  let! block := area_get found_order in
  list_remove found_order block ;!
  let block_idx := addr_to_frame block in
  split_down order block_idx found_order ;!
  frame_set block_idx (u8 (Z.lor order FRAME_ALLOC)) ;!
  (if user then
     let! f := frame_get block_idx in
     frame_set block_idx (Z.lor f FRAME_USER)
   else skip) ;!
  mem_unlock ;!
  ret (frame_to_addr block_idx).

(** ** [buddy_free] *)

(** [while (order < MAX_ORDER) ...]: merge with the free buddy, upwards. *)
Definition merge_up (idx order : Z) : M heap (Z * Z) :=
  loop 16 (λ '(idx, order),
    if order <? MAX_ORDER then
      let buddy_idx := Z.lxor idx (Z.shiftl 1 order) in
      let! f := frame_get buddy_idx in
      if Z.land f (Z.lor FRAME_ALLOC FRAME_ORDER) =? u8 order then
        let buddy := frame_to_addr buddy_idx in
        list_remove order buddy ;!
        let idx' := if idx <? buddy_idx then idx else buddy_idx in
        frame_set idx' (u8 (order + 1)) ;!
        ret (inl (idx', order + 1))
      else ret (inr (idx, order))
    else ret (inr (idx, order))) (idx, order).

Definition buddy_free (addr order : Z) : M heap unit :=
  if (addr =? 0) || (order <? 0) || (MAX_ORDER <? order) then skip else
  if (addr <? HEAP_PHYS) || (HEAP_PHYS + HEAP_SIZE <=? addr) then skip else
  if nz (Z.land addr (FRAME_SIZE - 1)) then skip else
  mem_lock ;!
  let idx := addr_to_frame addr in
  frame_set idx (u8 order) ;!
  let! r := merge_up idx order in
  let '(idx', order') := r in
  list_add order' (frame_to_addr idx') ;!
  mem_unlock.

(** ** [memory_init] *)

Definition cache_sizes : list Z := [16; 32; 64; 128; 256; 512; 1024; 2048].

(** [sizeof(slab_t)]: two [uint32_t], a padded [uint16_t] and four pointers. *)
Definition SIZEOF_SLAB : Z := 48.

Definition init_cache (i : Z) : M heap unit :=
  match cache_sizes !! Z.to_nat i with
  | Some sz =>
      modify (λ h, set_caches
        (<[i := mkCache sz 0 ((FRAME_SIZE - SIZEOF_SLAB) / sz) i]> (h_caches h)) h)
  | None => stuck
  end.

Definition memory_init : M heap unit :=
  mem_lock ;!
  for_up 15 0 (λ i, area_set i 0) ;!
  for_up (Z.to_nat FRAME_COUNT) 0 (λ i, frame_set i 0) ;!
  store HEAP_PHYS 0 ;!
  store (HEAP_PHYS + 8) 0 ;!
  area_set MAX_ORDER HEAP_PHYS ;!
  frame_set 0 MAX_ORDER ;!
  for_up 8 0 init_cache ;!
  modify (set_pcpu_pages []) ;!
  for_up 8 0 (λ i, modify (λ h, set_pcpu_objects (<[i := []]> (h_pcpu_objects h)) h)) ;!
  mem_unlock.

(** ** Pages for user space *)

(** [while ((1UL << order) < pages) order++;], the order of a page count. *)
Definition order_of_pages (pages : Z) : M heap Z :=
  loop 65 (λ order,
    if u64 (Z.shiftl 1 order) <? pages then ret (inl (order + 1))
    else ret (inr order)) 0.

(** Zero [n] bytes from [a]; [n] is a multiple of the word size. *)
Definition zero_bytes (a n : Z) : M heap unit :=
  for_up (Z.to_nat (n / 8)) 0 (λ i, store (a + 8 * i) 0).

Definition mmap_user (length : Z) : M heap Z :=
  let pages := u64 (length + FRAME_SIZE - 1) / FRAME_SIZE in
  let pages := if pages =? 0 then 1 else pages in
  let! order := order_of_pages pages in
  let! result := buddy_alloc order true in
  (if nz result then zero_bytes result (u64 (pages * FRAME_SIZE)) else skip) ;!
  ret result.

Definition munmap_user (addr : Z) : M heap Z :=
  if addr =? 0 then ret 0 else
  if nz (Z.land addr (FRAME_SIZE - 1)) then ret (-1) else
  let idx := addr_to_frame addr in
  if FRAME_COUNT <=? idx then ret (-1) else
  let! f := frame_get idx in
  if Z.land f FRAME_ALLOC =? 0 then ret 0 else
  buddy_free addr (Z.land f FRAME_ORDER) ;!
  ret 0.

Definition munmap_all_user : M heap unit :=
  mem_lock ;!
  loop (Z.to_nat FRAME_COUNT + 1) (λ i,
    if i <? FRAME_COUNT then
      let! f := frame_get i in
      let both := Z.lor FRAME_ALLOC FRAME_USER in
      if Z.land f both =? both then
        let order := Z.land f FRAME_ORDER in
        frame_set i (u8 order) ;!
        let! r := merge_up i order in
        let '(idx, ord) := r in
        list_add ord (frame_to_addr idx) ;!
        ret (inl (i + Z.shiftl 1 order))
      else ret (inl (i + 1))
    else ret (inr tt)) 0 ;!
  mem_unlock.
