(* ===== verification/BuddyInv.v ===== *)
(** * BuddyInv: what the page allocator maintains

    The abstract state of the allocator is a tiling of the frames of the heap
    by aligned power-of-two blocks, each free or allocated.  This file states
    the tiling, relates it to [frames], [free_area] and the links in memory,
    and proves the lemmas about splitting, merging and the free lists that the
    correctness of [buddy_alloc], [buddy_free] and [munmap_all_user] rests on. *)

From Stdlib Require Import ZArith Lia.
From stdpp Require Import gmap list prelude.
From S2P Require Import Prelude KHeap Buddy.

(** ** Tilings *)

Inductive status := SFree | SAlloc (user : bool).

#[global] Instance status_eq_dec : EqDecision status.
Proof. solve_decision. Defined.

Record tiling (H : gmap Z (Z * status)) : Prop := {
  til_ok : ∀ i o s, H !! i = Some (o, s) →
    0 ≤ o ≤ 14 ∧ 0 ≤ i ∧ i + 2 ^ o ≤ 16384 ∧ (2 ^ o | i);
  til_cover : ∀ f, 0 ≤ f < 16384 →
    ∃ i o s, H !! i = Some (o, s) ∧ i ≤ f < i + 2 ^ o;
  til_disj : ∀ i o s j p t, H !! i = Some (o, s) → H !! j = Some (p, t) →
    i < j → i + 2 ^ o ≤ j }.

(** The index of the buddy of block [i] of order [o]. *)
Definition buddy_of (i o : Z) : Z := Z.lxor i (Z.shiftl 1 o).

(** No two free buddies are left unmerged. *)
Definition coalesced (H : gmap Z (Z * status)) : Prop :=
  ∀ i o, o < 14 → H !! i = Some (o, SFree) → H !! buddy_of i o ≠ Some (o, SFree).

(** ** Arithmetic of buddies *)

Lemma pow2_pos o : 0 ≤ o → 0 < 2 ^ o.
Proof. intros. by apply Z.pow_pos_nonneg. Qed.
Lemma pow2_succ o : 0 ≤ o → 2 ^ (o + 1) = 2 * 2 ^ o.
Proof. intros. by rewrite Z.add_1_r, Z.pow_succ_r. Qed.
Lemma pow2_divide p o : 0 ≤ p ≤ o → (2 ^ p | 2 ^ o).
Proof.
  intros. exists (2 ^ (o - p)). rewrite <- Z.pow_add_r by lia. f_equal. lia.
Qed.

Lemma lxor_1 k : 0 ≤ k → Z.lxor k 1 = if Z.odd k then k - 1 else k + 1.
Proof. destruct k as [|[p|p|]|p]; intros; try done; lia. Qed.

Lemma buddy_cases i o :
  0 ≤ i → 0 ≤ o → (2 ^ o | i) →
  (buddy_of i o = i + 2 ^ o ∧ (2 ^ (o + 1) | i)) ∨
  (buddy_of i o = i - 2 ^ o ∧ (2 ^ (o + 1) | i - 2 ^ o) ∧ 2 ^ o ≤ i).
Proof.
  intros Hi Ho [k ->]. pose proof (pow2_pos o Ho). unfold buddy_of.
  rewrite <- (Z.shiftl_mul_pow2 k), <- Z.shiftl_lxor, lxor_1 by (done || nia).
  rewrite pow2_succ by done. destruct (Z.odd k) eqn:Hk; rewrite !Z.shiftl_mul_pow2 by done.
  - right. apply Z.odd_spec in Hk as [m ->].
    assert (0 ≤ m) by (destruct (Z.le_gt_cases 0 m); [done|nia]).
    split_and!; [lia| |nia]. exists m. lia.
  - left. rewrite <- Z.negb_even in Hk. apply negb_false_iff, Z.even_spec in Hk as [m ->].
    split; [lia|]. exists m. lia.
Qed.

(** An aligned window meeting a larger aligned block lies inside it. *)
Lemma aligned_inside d j e base y :
  0 < d → (d | j) → (d | e) → (d | base) →
  base ≤ y < base + d → j ≤ y < j + e → j ≤ base ∧ base + d ≤ j + e.
Proof.
  intros Hd [a ->] [b ->] [c ->] H1 H2.
  assert (a < c + 1) by (apply (Z.mul_lt_mono_pos_r d); lia).
  assert (c < a + b) by (apply (Z.mul_lt_mono_pos_r d); lia).
  split; nia.
Qed.

(** ** Tilings and blocks *)

Section tilings.
Context (H : gmap Z (Z * status)) (HT : tiling H).

Lemma til_head_bound i o s : H !! i = Some (o, s) → 0 ≤ i < 16384.
Proof.
  intros Hi. destruct (til_ok _ HT _ _ _ Hi) as (? & ? & ? & _).
  pose proof (pow2_pos o). lia.
Qed.

(** Inside a block there is no other head. *)
Lemma til_inside i o s j p t :
  H !! i = Some (o, s) → H !! j = Some (p, t) → i ≤ j < i + 2 ^ o → i = j.
Proof.
  intros Hi Hj Hr. destruct (Z.eq_dec i j) as [|Hne]; [done|].
  pose proof (til_disj _ HT _ _ _ _ _ _ Hi Hj ltac:(lia)). lia.
Qed.

Lemma til_merged_fits i o lo :
  0 ≤ o < 14 → 0 ≤ lo → (2 ^ (o + 1) | lo) → lo ≤ i < 16384 → lo + 2 ^ (o + 1) ≤ 16384.
Proof.
  intros Ho Hlo [k ->] Hi. destruct (pow2_divide (o + 1) 14) as [m Hm]; [lia|].
  change (2 ^ 14) with 16384 in Hm. pose proof (pow2_pos (o + 1) ltac:(lia)).
  assert (k < m) by (apply (Z.mul_lt_mono_pos_r (2 ^ (o + 1))); lia). nia.
Qed.

(** The buddy of a block is itself the head of a block, at most as large. *)
Lemma til_buddy i o s :
  H !! i = Some (o, s) → o < 14 →
  ∃ p t, H !! buddy_of i o = Some (p, t) ∧ p ≤ o ∧ buddy_of i o ≠ i.
Proof.
  intros Hi Ho. destruct (til_ok _ HT _ _ _ Hi) as (Ho' & Hi0 & Hin & Hdiv).
  pose proof (pow2_pos o ltac:(lia)) as Hpos.
  assert (∃ base, (2 ^ (o + 1) | base) ∧ 0 ≤ base ∧ base ≤ i < base + 2 ^ (o + 1) ∧
    base ≤ buddy_of i o < base + 2 ^ (o + 1) ∧ (2 ^ o | buddy_of i o) ∧
    buddy_of i o ≠ i) as (base & Hb & Hb0 & Hib & Hbb & Hbd & Hne).
  { destruct (buddy_cases i o) as [[-> Hd]|[-> [Hd Hle]]]; [lia..|done| |].
    - exists i. rewrite pow2_succ in * by lia. split_and!; try (done || lia).
      apply Z.divide_add_r; [done|apply Z.divide_refl].
    - exists (i - 2 ^ o). rewrite pow2_succ in * by lia. split_and!; try (done || lia).
      apply Z.divide_sub_r; [done|apply Z.divide_refl]. }
  pose proof (til_merged_fits i o base ltac:(lia) Hb0 Hb ltac:(lia)).
  destruct (til_cover _ HT (buddy_of i o)) as (j & p & t & Hj & Hjb); [lia|].
  destruct (til_ok _ HT _ _ _ Hj) as (Hp & Hj0 & _ & Hjd).
  destruct (Z.le_gt_cases p o) as [Hpo|Hpo].
  - destruct (aligned_inside (2 ^ p) (buddy_of i o) (2 ^ p) j (buddy_of i o))
      as [? _]; try (done || lia || apply Z.divide_refl).
    + etrans; [|exact Hbd]. apply pow2_divide. lia.
    + assert (j = buddy_of i o) as -> by lia. eauto 10.
  - exfalso. destruct (aligned_inside (2 ^ (o + 1)) j (2 ^ p) base (buddy_of i o))
      as [? ?]; try (done || lia).
    + etrans; [|exact Hjd]. apply pow2_divide. lia.
    + apply pow2_divide. lia.
    + assert (j = i) as -> by (eapply til_inside; [exact Hj|exact Hi|lia]).
      rewrite Hi in Hj. injection Hj as -> ->. lia.
Qed.

(** Only the status of a block changes. *)
Lemma til_restatus i o s s' : H !! i = Some (o, s) → tiling (<[i := (o, s')]> H).
Proof.
  intros Hi. destruct HT as [Hok Hcov Hdis]. split.
  - intros j p t. rewrite lookup_insert_Some. intros [[-> [=<- <-]]|[_ Hj]]; eauto.
  - intros f Hf. destruct (Hcov f Hf) as (j & p & t & Hj & Hr).
    destruct (Z.eq_dec i j) as [<-|Hne].
    + rewrite Hi in Hj. injection Hj as <- <-. exists i, o, s'. by rewrite lookup_insert_eq.
    + exists j, p, t. by rewrite lookup_insert_ne.
  - intros j p t k q u. rewrite !lookup_insert_Some.
    intros [[-> [=<- <-]]|[_ Hj]] [[-> [=<- <-]]|[_ Hk]] Hlt; eauto; lia.
Qed.

(** Splitting a block into its two halves. *)
Lemma til_split i o s s1 s2 :
  H !! i = Some (o + 1, s) → 0 ≤ o →
  tiling (<[i := (o, s1)]> (<[i + 2 ^ o := (o, s2)]> H)).
Proof.
  intros Hi Ho. pose proof (til_ok _ HT _ _ _ Hi) as (Ho' & Hi0 & Hin & Hdiv).
  pose proof (pow2_pos o Ho). rewrite pow2_succ in * by done.
  destruct HT as [Hok Hcov Hdis]. split.
  - intros j p t. rewrite !lookup_insert_Some.
    assert (2 ^ o | i) by (etrans; [|exact Hdiv]; by exists 2).
    intros [[-> [=<- <-]]|[_ [[<- [=<- <-]]|[_ Hj]]]]; [split_and!; (done || lia)| |eauto].
    split_and!; try lia. apply Z.divide_add_r; [done|apply Z.divide_refl].
  - intros f Hf. destruct (Hcov f Hf) as (j & p & t & Hj & Hr).
    destruct (Z.eq_dec i j) as [<-|Hne].
    + rewrite Hi in Hj. injection Hj as <- <-. rewrite pow2_succ in Hr by done.
      destruct (Z.lt_ge_cases f (i + 2 ^ o)).
      * exists i, o, s1. rewrite lookup_insert_eq. split; [done|lia].
      * exists (i + 2 ^ o), o, s2. rewrite lookup_insert_ne, lookup_insert_eq by lia.
        split; [done|lia].
    + exists j, p, t. rewrite !lookup_insert_ne; [done| |done].
      intros <-. apply Hne. eapply til_inside; [exact Hi|exact Hj|].
      rewrite pow2_succ by done. lia.
  - intros j p t k q u. rewrite !lookup_insert_Some.
    intros [[-> [=<- <-]]|[Hn1 [[<- [=<- <-]]|[Hn2 Hj]]]]
      [[-> [=<- <-]]|[Hn3 [[<- [=<- <-]]|[Hn4 Hk]]]] Hlt; try lia; eauto.
    + pose proof (Hdis _ _ _ _ _ _ Hi Hk Hlt). rewrite pow2_succ in *; lia.
    + pose proof (Hdis _ _ _ _ _ _ Hi Hk ltac:(lia)). rewrite pow2_succ in *; lia.
    + destruct (Z.lt_trichotomy j i) as [Hji|[->|Hji]]; [|congruence|].
      * pose proof (Hdis _ _ _ _ _ _ Hj Hi Hji). lia.
      * pose proof (Hdis _ _ _ _ _ _ Hi Hj Hji). rewrite pow2_succ in *; lia.
Qed.

(** Merging two buddies. *)
Lemma til_merge lo o s s1 s2 :
  H !! lo = Some (o, s1) → H !! (lo + 2 ^ o) = Some (o, s2) →
  o < 14 → (2 ^ (o + 1) | lo) →
  tiling (<[lo := (o + 1, s)]> (delete (lo + 2 ^ o) H)).
Proof.
  intros Hlo Hhi Ho Hdiv. pose proof (til_ok _ HT _ _ _ Hlo) as (Ho' & Hl0 & Hlin & _).
  pose proof (til_ok _ HT _ _ _ Hhi) as (_ & _ & Hhin & _).
  pose proof (pow2_pos o ltac:(lia)). pose proof (pow2_succ o ltac:(lia)) as Hs.
  destruct HT as [Hok Hcov Hdis]. split.
  - intros j p t. rewrite lookup_insert_Some, lookup_delete_Some.
    intros [[-> [=<- <-]]|[_ [_ Hj]]]; [|eauto]. split_and!; (done || lia).
  - intros f Hf. destruct (Hcov f Hf) as (j & p & t & Hj & Hr).
    destruct (decide (j = lo ∨ j = lo + 2 ^ o)) as [Hd|Hd].
    + exists lo, (o + 1), s. rewrite lookup_insert_eq. split; [done|].
      destruct Hd as [-> | ->]; simplify_eq; lia.
    + exists j, p, t. rewrite lookup_insert_ne, lookup_delete_ne by (intros <-; auto). done.
  - intros j p t k q u. rewrite !lookup_insert_Some, !lookup_delete_Some.
    intros [[<- [=<- <-]]|[Hn1 [Hn2 Hj]]] [[<- [=<- <-]]|[Hn3 [Hn4 Hk]]] Hlt;
      try lia; eauto.
    assert (lo + 2 ^ o < k ∨ k < lo + 2 ^ o) as [Hk'|Hk'] by lia.
    + pose proof (Hdis _ _ _ _ _ _ Hhi Hk Hk'). lia.
    + pose proof (Hdis _ _ _ _ _ _ Hlo Hk ltac:(lia)). lia.
Qed.

End tilings.

(** ** Free lists in memory *)

(** The byte address of a frame. *)
Definition fa (i : Z) : Z := HEAP_PHYS + 4096 * i.

#[global] Instance fa_inj : Inj (=) (=) fa.
Proof. intros i j. unfold fa. lia. Qed.

(** [F o i] says that block [i] is on the free list of order [o]. *)
Definition lists_ok (h : heap) (F : Z → Z → Prop) : Prop :=
  ∀ o, 0 ≤ o ≤ 14 → ∃ l : list Z,
    NoDup l ∧ (∀ i, i ∈ l ↔ F o i) ∧
    dll (ld (h_mem h)) (λ a, ld (h_mem h) (a + 8)) 0 (ld (h_free_area h) o) (fa <$> l).

(** Only the first two words of frames in [R] may differ. *)
Definition mem_same (R : Z → Prop) (m m' : gmap Z Z) : Prop :=
  ∀ a, (∀ f, R f → a ≠ fa f ∧ a ≠ fa f + 8) → ld m' a = ld m a.

Lemma mem_same_refl R m : mem_same R m m.
Proof. by intros a _. Qed.
Lemma mem_same_trans R m1 m2 m3 : mem_same R m1 m2 → mem_same R m2 m3 → mem_same R m1 m3.
Proof. intros H1 H2 a Ha. rewrite H2, H1; done. Qed.
Lemma mem_same_st R m a v f : R f → a = fa f ∨ a = fa f + 8 → mem_same R m (st m a v).
Proof. intros Hf Ha b Hb. apply ld_st_ne. destruct (Hb f Hf), Ha; congruence. Qed.

(** What an operation on the free lists may change besides them. *)
Definition same_but_lists (R : Z → Prop) (h h' : heap) : Prop :=
  ∃ m a, h' = set_mem m (set_free_area a h) ∧ mem_same R (h_mem h) m.


(** Loads of a known block's words after a store to another known word. *)
Ltac fa_solve :=
  rewrite ?ld_st; repeat case_decide; subst; try done;
  unfold fa, HEAP_PHYS in *; (lia || congruence).

(** The memory after [list_add] of [x] in front of [hd]. *)
Definition push_mem (m : gmap Z Z) (x hd : Z) : gmap Z Z :=
  let m2 := st (st m (fa x) hd) (fa x + 8) 0 in
  if nz hd then st m2 (hd + 8) (fa x) else m2.

Section push_mem.
Context (m : gmap Z Z) (x hd : Z) (Hx : 0 ≤ x).
Context (Hhd : hd = 0 ∨ ∃ k, 0 ≤ k ∧ hd = fa k ∧ k ≠ x).

Lemma push_self :
  ld (push_mem m x hd) (fa x) = hd ∧ ld (push_mem m x hd) (fa x + 8) = 0.
Proof.
  unfold push_mem. destruct Hhd as [->|(k & Hk & -> & Hne)]; simpl.
  - split; fa_solve.
  - destruct (nz (fa k)); split; fa_solve.
Qed.
Lemma push_next j : j ≠ x → ld (push_mem m x hd) (fa j) = ld m (fa j).
Proof.
  intros. unfold push_mem. destruct Hhd as [->|(k & Hk & -> & Hne)]; simpl; [fa_solve|].
  destruct (nz (fa k)); fa_solve.
Qed.
Lemma push_prev j : 0 ≤ j → j ≠ x →
  ld (push_mem m x hd) (fa j + 8) = if decide (fa j = hd) then fa x else ld m (fa j + 8).
Proof.
  intros. unfold push_mem. destruct Hhd as [->|(k & Hk & -> & Hne)]; simpl.
  - rewrite decide_False by (unfold fa, HEAP_PHYS; lia). fa_solve.
  - replace (nz (fa k)) with true; [fa_solve|].
    symmetry. apply nz_spec. unfold fa, HEAP_PHYS. lia.
Qed.
Lemma push_same R : R x → (∀ k, 0 ≤ k → hd = fa k → R k) → mem_same R m (push_mem m x hd).
Proof.
  intros HRx HRk. unfold push_mem. simpl.
  assert (Hm2 : mem_same R m (st (st m (fa x) hd) (fa x + 8) 0)).
  { apply (mem_same_trans _ _ (st m (fa x) hd)); apply (mem_same_st _ _ _ _ x); auto. }
  destruct Hhd as [->|(k & Hk & -> & Hne)]; [done|]. destruct (nz (fa k)); [|done].
  eapply mem_same_trans; [exact Hm2|]. apply (mem_same_st _ _ _ _ k); auto.
Qed.
End push_mem.

(** The memory after [list_remove] of [x]. *)
Definition unlink_mem (m : gmap Z Z) (x : Z) : gmap Z Z :=
  let p := ld m (fa x + 8) in let n := ld m (fa x) in
  let m1 := if nz p then st m p n else m in
  if nz n then st m1 (n + 8) p else m1.

Section unlink_mem.
Context (m : gmap Z Z) (x : Z).
Context (Hp : ld m (fa x + 8) = 0 ∨ ∃ k, 0 ≤ k ∧ ld m (fa x + 8) = fa k ∧ k ≠ x).
Context (Hn : ld m (fa x) = 0 ∨ ∃ k, 0 ≤ k ∧ ld m (fa x) = fa k ∧ k ≠ x).

Lemma fa_nz k : 0 ≤ k → nz (fa k) = true.
Proof. intros. apply nz_spec. unfold fa, HEAP_PHYS. lia. Qed.

Lemma unlink_next j : 0 ≤ j →
  ld (unlink_mem m x) (fa j) =
    if decide (fa j = ld m (fa x + 8)) then ld m (fa x) else ld m (fa j).
Proof.
  intros Hj. unfold unlink_mem.
  destruct Hp as [->|(k & Hk & -> & Hne)], Hn as [->|(q & Hq & -> & Hne')];
    simpl; rewrite ?fa_nz by done; fa_solve.
Qed.
Lemma unlink_prev j : 0 ≤ j →
  ld (unlink_mem m x) (fa j + 8) =
    if decide (fa j = ld m (fa x)) then ld m (fa x + 8) else ld m (fa j + 8).
Proof.
  intros Hj. unfold unlink_mem.
  destruct Hp as [->|(k & Hk & -> & Hne)], Hn as [->|(q & Hq & -> & Hne')];
    simpl; rewrite ?fa_nz by done; fa_solve.
Qed.
Lemma unlink_same R :
  (∀ k, 0 ≤ k → ld m (fa x + 8) = fa k → R k) →
  (∀ k, 0 ≤ k → ld m (fa x) = fa k → R k) →
  mem_same R m (unlink_mem m x).
Proof.
  intros HRp HRn. unfold unlink_mem.
  destruct Hp as [->|(k & Hk & Ek & Hne)], Hn as [->|(q & Hq & Eq & Hne')];
    simpl; try apply mem_same_refl;
    rewrite ?Ek, ?Eq, ?fa_nz by done.
  - apply (mem_same_st _ _ _ _ q); auto.
  - apply (mem_same_st _ _ _ _ k); auto.
  - apply (mem_same_trans _ _ (st m (fa k) (fa q)));
      [apply (mem_same_st _ _ _ _ k)|apply (mem_same_st _ _ _ _ q)]; auto.
Qed.
End unlink_mem.

(** ** [list_add] and [list_remove] *)

Section free_lists.
Context (F : Z → Z → Prop) (R : Z → Prop).
Context (F_range : ∀ o i, 0 ≤ o ≤ 14 → F o i → 0 ≤ i ∧ R i).
Context (F_fun : ∀ o o' i, F o i → F o' i → o = o').

(** The head of a list and the links of its nodes are blocks of the list. *)
Lemma list_head h o l :
  (∀ i, i ∈ l ↔ F o i) →
  dll (ld (h_mem h)) (λ a, ld (h_mem h) (a + 8)) 0 (ld (h_free_area h) o) (fa <$> l) →
  ld (h_free_area h) o = 0 ∨ ∃ k, ld (h_free_area h) o = fa k ∧ F o k.
Proof.
  intros Hl Hd. destruct l as [|k l]; [by left|right]. destruct Hd as [-> _].
  exists k. split; [done|]. apply Hl. by left.
Qed.

Lemma list_links (m : gmap Z Z) o hd l1 x l2 :
  (∀ i, i ∈ l1 ++ x :: l2 ↔ F o i) → NoDup (l1 ++ x :: l2) →
  dll (ld m) (λ a, ld m (a + 8)) 0 hd (fa <$> l1 ++ x :: l2) →
  (ld m (fa x + 8) = 0 ∨ ∃ k, ld m (fa x + 8) = fa k ∧ F o k ∧ k ≠ x) ∧
  (ld m (fa x) = 0 ∨ ∃ k, ld m (fa x) = fa k ∧ F o k ∧ k ≠ x).
Proof.
  intros Hl Hnd Hd. rewrite fmap_app, fmap_cons in Hd.
  apply dll_mid in Hd as (Hp & Hn & _ & _).
  apply NoDup_app in Hnd as (_ & Hnd1 & Hnd2). apply NoDup_cons in Hnd2 as [Hnd2 _].
  split.
  - rewrite Hp, fmap_last. destruct (last l1) as [k|] eqn:E; simpl; [right|by left].
    apply last_Some_elem_of in E. exists k. split_and!; [done| |].
    + apply Hl, elem_of_app. by left.
    + intros ->. apply (Hnd1 x E). by left.
  - destruct l2 as [|k l2]; [by left|right]. destruct Hn as [-> _]. exists k.
    split_and!; [done| |].
    + apply Hl, elem_of_app. right. right. left.
    + intros ->. apply Hnd2. by left.
Qed.

Section add.
Context (h : heap) (o x : Z).
Context (HL : lists_ok h F) (Ho : 0 ≤ o ≤ 14) (Hx : 0 ≤ x) (HRx : R x).
Context (Hnew : ∀ p, 0 ≤ p ≤ 14 → ¬ F p x).

Let hd := ld (h_free_area h) o.

Lemma add_head : hd = 0 ∨ ∃ k, 0 ≤ k ∧ hd = fa k ∧ k ≠ x ∧ F o k.
Proof.
  destruct (HL o Ho) as (l & _ & Hl & Hd).
  destruct (list_head _ _ _ Hl Hd) as [?|(k & Hhd & Hk)]; [by left|right]. exists k.
  destruct (F_range o k Ho Hk). split_and!; try done. intros ->. by apply (Hnew o).
Qed.

Lemma add_head' : hd = 0 ∨ ∃ k, 0 ≤ k ∧ hd = fa k ∧ k ≠ x.
Proof. destruct add_head as [?|(k & ? & ? & ? & _)]; eauto 10. Qed.

Lemma add_lists :
  lists_ok (set_free_area (st (h_free_area h) o (fa x))
             (set_mem (push_mem (h_mem h) x hd) h))
    (λ p i, F p i ∨ (p = o ∧ i = x)).
Proof.
  assert (Hj : ∀ p j, 0 ≤ p ≤ 14 → F p j → 0 ≤ j ∧ j ≠ x).
  { intros p j Hp Hj. split; [by apply (F_range p)|]. intros ->. by apply (Hnew p). }
  pose proof add_head'. intros p Hp. cbn [h_mem h_free_area set_free_area set_mem].
  destruct (HL p Hp) as (l & Hnd & Hl & Hd). destruct (decide (p = o)) as [->|Hpo].
  - exists (x :: l). rewrite ld_st_eq. split_and!.
    + apply NoDup_cons. split; [|done]. rewrite Hl. auto.
    + intros i. rewrite elem_of_cons, Hl. intuition congruence.
    + rewrite fmap_cons.
      eapply (dll_push _ _ _ _ hd (fa <$> l)); [exact Hd| | |by apply push_self..| |].
      * rewrite <- fmap_cons. apply NoDup_fmap; [apply _|].
        apply NoDup_cons. rewrite Hl. auto.
      * unfold fa, HEAP_PHYS. lia.
      * intros y (j & -> & Hjl)%list_elem_of_fmap. rewrite Hl in Hjl.
        destruct (Hj o j Ho Hjl). by apply push_next.
      * intros y (j & -> & Hjl)%list_elem_of_fmap. rewrite Hl in Hjl.
        destruct (Hj o j Ho Hjl). by apply push_prev.
  - exists l. rewrite ld_st_ne by done. split_and!; [done| |].
    { intros i. rewrite Hl. intuition congruence. }
    eapply dll_ext; [..|exact Hd]; intros y (j & -> & Hjl)%list_elem_of_fmap;
      rewrite Hl in Hjl; destruct (Hj p j Hp Hjl); [by apply push_next|].
    rewrite push_prev by done. rewrite decide_False; [done|]. intros Ej.
    destruct add_head as [Hz|(k & _ & Hk & _ & HFk)].
    + rewrite Hz in Ej. unfold fa, HEAP_PHYS in Ej. lia.
    + rewrite Hk in Ej. apply (inj fa) in Ej as ->. by apply Hpo, (F_fun _ _ k).
Qed.

(** [list_add] puts a block that is on no list in front of list [o]. *)
Lemma list_add_spec :
  wp (list_add o (fa x)) h (λ _ h',
    lists_ok h' (λ p i, F p i ∨ (p = o ∧ i = x)) ∧ same_but_lists R h h').
Proof.
  unfold list_add. wp_step. apply wp_area_get; [unfold MAX_ORDER; lia|]. fold hd.
  wp_step. apply wp_store. wp_step. apply wp_store.
  wp_step. eapply (wp_mono _ _ (λ _ h', h' = set_mem (push_mem (h_mem h) x hd) h)).
  { unfold push_mem. destruct (nz hd); [by apply wp_store|by apply wp_skip]. }
  intros [] _ ->. apply wp_area_set; [unfold MAX_ORDER; lia|]. split.
  - exact add_lists.
  - exists (push_mem (h_mem h) x hd), (st (h_free_area h) o (fa x)). split; [done|].
    apply push_same; [apply add_head'|done|]. intros k Hk0 Hk.
    destruct add_head as [Hz|(k' & _ & Hk' & _ & HFk)].
    + rewrite Hz in Hk. unfold fa, HEAP_PHYS in Hk. lia.
    + rewrite Hk' in Hk. apply (inj fa) in Hk as <-. by apply (F_range o).
Qed.
End add.

Section remove.
Context (h : heap) (o x : Z).
Context (HL : lists_ok h F) (Ho : 0 ≤ o ≤ 14) (HF : F o x).

Let p := ld (h_mem h) (fa x + 8).
Let n := ld (h_mem h) (fa x).
Let area' := if nz p then h_free_area h else st (h_free_area h) o n.

Lemma remove_links :
  (p = 0 ∨ ∃ k, 0 ≤ k ∧ p = fa k ∧ k ≠ x ∧ F o k) ∧
  (n = 0 ∨ ∃ k, 0 ≤ k ∧ n = fa k ∧ k ≠ x ∧ F o k).
Proof.
  destruct (HL o Ho) as (l & Hnd & Hl & Hd).
  apply Hl, list_elem_of_split in HF as (l1 & l2 & ->).
  destruct (list_links _ _ _ _ _ _ Hl Hnd Hd) as [Hp Hn].
  split; [destruct Hp as [?|(k & ? & ? & ?)]|destruct Hn as [?|(k & ? & ? & ?)]];
    (by left) || right; exists k; split_and!; try done; by apply (F_range o).
Qed.
Lemma remove_links' :
  (p = 0 ∨ ∃ k, 0 ≤ k ∧ p = fa k ∧ k ≠ x) ∧ (n = 0 ∨ ∃ k, 0 ≤ k ∧ n = fa k ∧ k ≠ x).
Proof.
  destruct remove_links as [[?|(k & ? & ? & ? & _)] [?|(q & ? & ? & ? & _)]]; split; eauto 10.
Qed.

Lemma remove_same_order l1 l2 :
  NoDup (l1 ++ x :: l2) → (∀ i, i ∈ l1 ++ x :: l2 ↔ F o i) →
  dll (ld (h_mem h)) (λ a, ld (h_mem h) (a + 8)) 0 (ld (h_free_area h) o)
    (fa <$> l1 ++ x :: l2) →
  dll (ld (unlink_mem (h_mem h) x)) (λ a, ld (unlink_mem (h_mem h) x) (a + 8)) 0
    (ld area' o) (fa <$> l1 ++ l2).
Proof.
  intros Hnd Hl Hd. destruct remove_links' as [Hp Hn].
  rewrite !fmap_app, !fmap_cons in *.
  assert (Hin : ∀ y, y ∈ (fa <$> l1) ++ (fa <$> l2) → ∃ j, y = fa j ∧ 0 ≤ j).
  { intros y Hy. rewrite <- fmap_app in Hy. apply list_elem_of_fmap in Hy as (j & -> & Hj).
    exists j. split; [done|]. apply (F_range o); [done|]. apply Hl.
    rewrite elem_of_app in *. destruct Hj; [by left|right; by right]. }
  assert (Ha : ld area' o = if decide (fa <$> l1 = []) then n else ld (h_free_area h) o).
  { pose proof (dll_mid _ _ _ _ _ _ _ Hd) as (Hpx & _). fold p in Hpx.
    unfold area'. destruct l1 as [|k l1].
    - rewrite decide_True by done. simpl in Hpx. rewrite Hpx. simpl. by rewrite ld_st_eq.
    - rewrite decide_False by done.
      destruct (last (fa <$> k :: l1)) as [y|] eqn:E; [|by apply last_None in E].
      simpl in Hpx.
      apply last_Some_elem_of, list_elem_of_fmap in E as (j & -> & Hj).
      rewrite Hpx, fa_nz; [done|]. apply (F_range o); [done|]. apply Hl.
      apply elem_of_app. by left. }
  rewrite Ha. eapply dll_unlink; [exact Hd|..].
  - apply NoDup_cons. split.
    + rewrite <- fmap_cons, <- fmap_app. intros (j & Hj & Hjl)%list_elem_of_fmap.
      apply Hl, F_range in Hjl; [|done]. unfold fa, HEAP_PHYS in Hj. lia.
    + rewrite <- fmap_cons, <- fmap_app. apply NoDup_fmap; [apply _|done].
  - intros y Hy. destruct (Hin y Hy) as (j & -> & Hj). by apply unlink_next.
  - intros y Hy. destruct (Hin y Hy) as (j & -> & Hj). by apply unlink_prev.
Qed.

Lemma remove_lists :
  lists_ok (set_mem (unlink_mem (h_mem h) x) (set_free_area area' h))
    (λ q i, F q i ∧ i ≠ x).
Proof.
  destruct remove_links' as [Hp Hn]. intros q Hq.
  cbn [h_mem h_free_area set_free_area set_mem].
  destruct (HL q Hq) as (l & Hnd & Hl & Hd). destruct (decide (q = o)) as [->|Hqo].
  - pose proof HF as HF'. apply Hl, list_elem_of_split in HF' as (l1 & l2 & ->).
    exists (l1 ++ l2). split_and!.
    + eapply sublist_NoDup; [exact Hnd|]. apply sublist_app; [done|]. by constructor.
    + intros i. rewrite <- Hl, !elem_of_app, elem_of_cons.
      apply NoDup_app in Hnd as (_ & Hnd1 & [Hnd2 _]%NoDup_cons).
      split; [|tauto]. intros Hi. split; [tauto|]. intros ->.
      destruct Hi as [Hi|Hi]; [|done]. apply (Hnd1 x Hi). by left.
    + by apply remove_same_order.
  - exists l. split_and!; [done| |].
    { intros i. rewrite Hl. split; [|tauto]. intros Hi. split; [done|]. intros ->.
      by apply Hqo, (F_fun _ _ x). }
    replace (ld area' q) with (ld (h_free_area h) q)
      by (unfold area'; destruct (nz p); by rewrite ?ld_st_ne).
    destruct remove_links as [Hp' Hn'].
    eapply dll_ext; [..|exact Hd]; intros y (j & -> & Hjl)%list_elem_of_fmap;
      rewrite Hl in Hjl; destruct (F_range q j Hq Hjl) as [Hj _].
    + rewrite unlink_next by done. rewrite decide_False; [done|]. fold p. intros Ej.
      destruct Hp' as [Hz|(k & _ & Hk & _ & HFk)].
      * rewrite Hz in Ej. unfold fa, HEAP_PHYS in Ej. lia.
      * rewrite Hk in Ej. apply (inj fa) in Ej as ->. by apply Hqo, (F_fun _ _ k).
    + rewrite unlink_prev by done. rewrite decide_False; [done|]. fold n. intros Ej.
      destruct Hn' as [Hz|(k & _ & Hk & _ & HFk)].
      * rewrite Hz in Ej. unfold fa, HEAP_PHYS in Ej. lia.
      * rewrite Hk in Ej. apply (inj fa) in Ej as ->. by apply Hqo, (F_fun _ _ k).
Qed.

(** [list_remove] takes a block off its list. *)
Lemma list_remove_spec :
  wp (list_remove o (fa x)) h (λ _ h',
    lists_ok h' (λ q i, F q i ∧ i ≠ x) ∧ same_but_lists R h h').
Proof.
  destruct remove_links' as [Hp Hn]. unfold list_remove.
  wp_step. apply wp_load. fold p. wp_step. apply wp_load. fold n.
  wp_step. set (m1 := if nz p then st (h_mem h) p n else h_mem h).
  eapply (wp_mono _ _ (λ _ h', h' = set_mem m1 (set_free_area area' h))).
  { unfold m1, area'. destruct (nz p); [apply wp_store; by destruct h|].
    apply wp_area_set; [unfold MAX_ORDER; lia|]. by destruct h. }
  intros [] _ ->. wp_step. apply wp_load. cbn [h_mem set_mem].
  assert (Hn2 : ld m1 (fa x) = n).
  { unfold m1. destruct (nz p) eqn:E; [|done]. apply nz_spec in E.
    destruct Hp as [?|(k & ? & Ek & ?)]; [done|].
    rewrite ld_st_ne; [done|]. rewrite Ek. unfold fa in *. lia. }
  assert (Hp2 : ld m1 (fa x + 8) = p).
  { unfold m1. destruct (nz p) eqn:E; [|done]. apply nz_spec in E.
    destruct Hp as [?|(k & ? & Ek & ?)]; [done|].
    rewrite ld_st_ne; [done|]. rewrite Ek. unfold fa in *. lia. }
  eapply (wp_mono _ _ (λ _ h', h' = set_mem (unlink_mem (h_mem h) x) (set_free_area area' h))).
  { unfold unlink_mem. fold p n m1. rewrite Hn2. destruct (nz n); [|by apply wp_skip].
    wp_step. apply wp_load. cbn [h_mem set_mem]. rewrite Hp2. by apply wp_store. }
  intros [] _ ->. split; [exact remove_lists|].
  exists (unlink_mem (h_mem h) x), area'. split; [done|].
  destruct remove_links as [Hp' Hn'].
  apply unlink_same; [done..| |]; intros k Hk0 Hk.
  - fold p in Hk. destruct Hp' as [Hz|(k' & _ & Hk' & _ & HFk)].
    + rewrite Hz in Hk. unfold fa, HEAP_PHYS in Hk. lia.
    + rewrite Hk' in Hk. apply (inj fa) in Hk as <-. by apply (F_range o).
  - fold n in Hk. destruct Hn' as [Hz|(k' & _ & Hk' & _ & HFk)].
    + rewrite Hz in Hk. unfold fa, HEAP_PHYS in Hk. lia.
    + rewrite Hk' in Hk. apply (inj fa) in Hk as <-. by apply (F_range o).
Qed.
End remove.
End free_lists.
