(* ===== verification/BuddyProof.v ===== *)
(** * BuddyProof: correctness of the page allocator

    The invariant relating the globals of the allocator to a tiling, and the
    specifications of [buddy_alloc], [buddy_free], [memory_init], [mmap_user],
    [munmap_user] and [munmap_all_user] against it. *)

From Stdlib Require Import ZArith Lia.
From stdpp Require Import gmap list prelude.
From S2P Require Import Prelude KHeap Buddy BuddyInv.

(** ** The invariant *)

(** The entry of [frames] at the head of a block. *)
Definition enc (o : Z) (s : status) : Z :=
  match s with
  | SFree => o
  | SAlloc u => o + FRAME_ALLOC + (if u then FRAME_USER else 0)
  end.

Definition free_head (H : gmap Z (Z * status)) (o i : Z) : Prop :=
  H !! i = Some (o, SFree).

(** The frames that lie in free blocks. *)
Definition free_frame (H : gmap Z (Z * status)) (f : Z) : Prop :=
  ∃ i o, H !! i = Some (o, SFree) ∧ i ≤ f < i + 2 ^ o.

Record buddy_ok (h : heap) (H : gmap Z (Z * status)) : Prop := {
  bi_til : tiling H;
  bi_coal : coalesced H;
  bi_lists : lists_ok h (free_head H);
  bi_heads : ∀ i o s, H !! i = Some (o, s) → ld (h_frames h) i = enc o s;
  bi_inner : ∀ i, 0 ≤ i < 16384 → H !! i = None →
    Z.land (ld (h_frames h) i) FRAME_ALLOC = 0 }.

(** Between two operations the lock is free. *)
Definition buddy_inv (h : heap) (H : gmap Z (Z * status)) : Prop :=
  buddy_ok h H ∧ h_memlock h = false.

(** The variables of [memory.c] the page allocator does not own. *)
Definition rest_same (h h' : heap) : Prop :=
  h_caches h' = h_caches h ∧ h_pcpu_pages h' = h_pcpu_pages h ∧
  h_pcpu_objects h' = h_pcpu_objects h ∧ h_user_va_next h' = h_user_va_next h ∧
  h_cr3 h' = h_cr3 h.

Definition step_rel (R : Z → Prop) (h h' : heap) : Prop :=
  mem_same R (h_mem h) (h_mem h') ∧ rest_same h h'.

#[global] Instance step_rel_preorder R : PreOrder (step_rel R).
Proof.
  split; [by intros h|]. intros h1 h2 h3 [Hm1 Hr1] [Hm2 Hr2]. split.
  - by eapply mem_same_trans.
  - unfold rest_same in *. destruct_and!. split_and!; congruence.
Qed.

(** While an operation holds the lock it works on one free block [x] that is
    on no list; everything else satisfies the invariant. *)
Record work (R : Z → Prop) (h : heap) (H : gmap Z (Z * status)) (x : Z) : Prop := {
  w_til : tiling H;
  w_lists : lists_ok h (λ o i, free_head H o i ∧ i ≠ x);
  w_heads : ∀ i o s, i ≠ x → H !! i = Some (o, s) → ld (h_frames h) i = enc o s;
  w_inner : ∀ i, 0 ≤ i < 16384 → H !! i = None →
    Z.land (ld (h_frames h) i) FRAME_ALLOC = 0;
  w_reg : ∀ i o, H !! i = Some (o, SFree) → R i;
  w_coal : ∀ i o, o < 14 → i ≠ x → buddy_of i o ≠ x →
    H !! i = Some (o, SFree) → H !! buddy_of i o ≠ Some (o, SFree) }.

(** ** Bit patterns of the [frames] entries *)

Lemma order_ind (P : Z → Prop) :
  P 0 → P 1 → P 2 → P 3 → P 4 → P 5 → P 6 → P 7 → P 8 → P 9 → P 10 → P 11 →
  P 12 → P 13 → P 14 → ∀ o, 0 ≤ o ≤ 14 → P o.
Proof.
  intros. assert (o = 0 ∨ o = 1 ∨ o = 2 ∨ o = 3 ∨ o = 4 ∨ o = 5 ∨ o = 6 ∨ o = 7 ∨
    o = 8 ∨ o = 9 ∨ o = 10 ∨ o = 11 ∨ o = 12 ∨ o = 13 ∨ o = 14) as Ho by lia.
  repeat destruct Ho as [->|Ho]; subst; done.
Qed.

Lemma enc_free_test p t : 0 ≤ p ≤ 14 →
  Z.land (enc p t) (Z.lor FRAME_ALLOC FRAME_ORDER) =
    match t with SFree => p | SAlloc _ => p + 128 end.
Proof. revert p. apply order_ind; by destruct t as [|[]]. Qed.

Lemma enc_alloc_bit p t : 0 ≤ p ≤ 14 →
  Z.land (enc p t) FRAME_ALLOC = match t with SFree => 0 | SAlloc _ => 128 end.
Proof. revert p. apply order_ind; by destruct t as [|[]]. Qed.

Lemma enc_order_bits p t : 0 ≤ p ≤ 14 → Z.land (enc p t) FRAME_ORDER = p.
Proof. revert p. apply order_ind; by destruct t as [|[]]. Qed.

Lemma enc_user_bits p t : 0 ≤ p ≤ 14 →
  Z.land (enc p t) (Z.lor FRAME_ALLOC FRAME_USER) =
    match t with SFree => 0 | SAlloc u => 128 + (if u then 64 else 0) end.
Proof. revert p. apply order_ind; by destruct t as [|[]]. Qed.

Lemma enc_alloc_val o (u : bool) : 0 ≤ o ≤ 14 →
  (if u then Z.lor (u8 (Z.lor o FRAME_ALLOC)) FRAME_USER else u8 (Z.lor o FRAME_ALLOC))
    = enc o (SAlloc u).
Proof. revert o. apply order_ind; by destruct u. Qed.

Lemma buddy_involutive i o : buddy_of (buddy_of i o) o = i.
Proof. unfold buddy_of. by rewrite Z.lxor_assoc, Z.lxor_nilpotent, Z.lxor_0_r. Qed.

(** ** Entering and leaving the working state *)

Lemma lists_ok_iff h (F F' : Z → Z → Prop) :
  (∀ o i, 0 ≤ o ≤ 14 → F o i ↔ F' o i) → lists_ok h F → lists_ok h F'.
Proof.
  intros HF HL o Ho. destruct (HL o Ho) as (l & Hnd & Hl & Hd). exists l.
  split_and!; [done| |done]. intros i. by rewrite Hl, HF.
Qed.

Lemma lists_ok_heap h h' F :
  h_mem h' = h_mem h → h_free_area h' = h_free_area h → lists_ok h F → lists_ok h' F.
Proof. intros Hm Ha. unfold lists_ok. by rewrite Hm, Ha. Qed.

Lemma same_but_lists_step R h h' :
  same_but_lists R h h' →
  step_rel R h h' ∧ h_frames h' = h_frames h ∧ h_memlock h' = h_memlock h.
Proof. by intros (m & a & -> & Hm). Qed.

(** The working block goes back on a list. *)
Lemma work_add R h H x o :
  work R h H x → H !! x = Some (o, SFree) →
  wp (list_add o (frame_to_addr x)) h (λ _ h',
    lists_ok h' (free_head H) ∧ step_rel R h h' ∧
    h_frames h' = h_frames h ∧ h_memlock h' = h_memlock h).
Proof.
  intros [HT HL Hhd Hin Hreg _] Hx.
  destruct (til_ok _ HT _ _ _ Hx) as (Ho & Hx0 & Hxn & _).
  pose proof (til_head_bound _ HT _ _ _ Hx).
  rewrite frame_to_addr_val by (rewrite FRAME_COUNT_val; lia). fold (fa x).
  eapply wp_mono; [eapply (list_add_spec _ R); [..|exact HL|done|done|eauto|]|].
  - intros p i Hp [Hi _]. destruct (til_ok _ HT _ _ _ Hi). split; [lia|eauto].
  - unfold free_head. intros p q i [Hp _] [Hq _]. congruence.
  - intros p _ [_ ?]. done.
  - intros [] h' [HL' Hs]. split; [|by apply same_but_lists_step].
    eapply lists_ok_iff; [|exact HL']. intros p i Hp. unfold free_head.
    destruct (decide (i = x)) as [->|]; [|tauto]. rewrite Hx.
    split; [intros [[_ ?]|[-> _]]|intros [= ->]]; tauto.
Qed.

(** A listed block is taken off its list and becomes the working block. *)
Lemma work_remove R h H x y o :
  work R h H x → H !! y = Some (o, SFree) → y ≠ x →
  wp (list_remove o (frame_to_addr y)) h (λ _ h',
    lists_ok h' (λ p i, free_head H p i ∧ i ≠ x ∧ i ≠ y) ∧ step_rel R h h' ∧
    h_frames h' = h_frames h ∧ h_memlock h' = h_memlock h).
Proof.
  intros [HT HL Hhd Hin Hreg _] Hy Hyx.
  destruct (til_ok _ HT _ _ _ Hy) as (Ho & Hy0 & Hyn & _).
  pose proof (til_head_bound _ HT _ _ _ Hy).
  rewrite frame_to_addr_val by (rewrite FRAME_COUNT_val; lia). fold (fa y).
  eapply wp_mono; [eapply (list_remove_spec _ R); [..|exact HL|done|done]|].
  - intros p i Hp [Hi _]. destruct (til_ok _ HT _ _ _ Hi). split; [lia|eauto].
  - unfold free_head. intros p q i [Hp _] [Hq _]. congruence.
  - intros [] h' [HL' Hs]. split; [|by apply same_but_lists_step].
    eapply lists_ok_iff; [|exact HL']. intros p i Hp. tauto.
Qed.

(** ** Splitting and merging the working block *)

Lemma buddy_of_head H x o s :
  tiling H → H !! x = Some (o, s) → (2 ^ (o + 1) | x) → buddy_of x o = x + 2 ^ o.
Proof.
  intros HT Hx Hd. destruct (til_ok _ HT _ _ _ Hx) as (Ho & Hx0 & _ & Hdiv).
  pose proof (pow2_pos o ltac:(lia)).
  destruct (buddy_cases x o Hx0 ltac:(lia) Hdiv) as [[? _]|[_ [Hd' _]]]; [done|].
  exfalso. assert (2 ^ (o + 1) | 2 ^ o) as Hbad.
  { replace (2 ^ o) with (x - (x - 2 ^ o)) by lia. by apply Z.divide_sub_r. }
  apply Z.divide_pos_le in Hbad; [|done]. rewrite pow2_succ in Hbad by lia. lia.
Qed.

Section split.
Context (R : Z → Prop) (h h' : heap) (H : gmap Z (Z * status)) (x o : Z).
Context (HW : work R h H x) (Hx : H !! x = Some (o + 1, SFree)) (Ho : 0 ≤ o).

Let y := x + 2 ^ o.
Let H' := <[x := (o, SFree)]> (<[y := (o, SFree)]> H).

Lemma split_y_new : H !! y = None ∧ y ≠ x ∧ 0 ≤ y < 16384.
Proof.
  pose proof (w_til _ _ _ _ HW) as HT. destruct (til_ok _ HT _ _ _ Hx) as (? & ? & Hin & _).
  pose proof (pow2_pos o Ho). rewrite pow2_succ in Hin by done.
  split_and!; [|unfold y; lia..]. destruct (H !! y) as [[p t]|] eqn:Hy; [|done].
  assert (x = y); [|unfold y in *; lia].
  eapply til_inside; [exact HT|exact Hx|exact Hy|]. rewrite pow2_succ by done. unfold y; lia.
Qed.

Lemma split_lookup i p s :
  H' !! i = Some (p, s) ↔
    (i = x ∧ p = o ∧ s = SFree) ∨ (i = y ∧ p = o ∧ s = SFree) ∨
    (i ≠ x ∧ i ≠ y ∧ H !! i = Some (p, s)).
Proof.
  destruct split_y_new as (_ & Hyx & _). unfold H'. rewrite !lookup_insert_Some.
  split.
  - intros [[<- [=<- <-]]|[? [[<- [=<- <-]]|[? ?]]]]; auto.
  - intros [(-> & -> & ->)|[(-> & -> & ->)|(? & ? & ?)]]; auto 10.
Qed.

Lemma work_after_split :
  R y → h_frames h' = st (h_frames h) y o →
  lists_ok h' (λ p i, (free_head H p i ∧ i ≠ x) ∨ (p = o ∧ i = y)) →
  work R h' H' x.
Proof.
  intros HRy Hfr HL. destruct split_y_new as (Hyn & Hyx & Hyr).
  destruct HW as [HT _ Hhd Hin Hreg Hco]. split.
  - by apply (til_split _ HT _ _ SFree).
  - eapply lists_ok_iff; [|exact HL]. intros p i Hp. unfold free_head.
    rewrite split_lookup. destruct (decide (i = y)) as [->|]; [|intuition congruence].
    rewrite Hyn. intuition congruence.
  - intros i p s Hi. rewrite split_lookup, Hfr. intros [(? & _)|[(-> & -> & ->)|(? & ? & ?)]].
    + done.
    + by rewrite ld_st_eq.
    + rewrite ld_st_ne by done. eauto.
  - intros i Hi. unfold H'. rewrite !lookup_insert_None, Hfr. intros [[? ?] ?].
    rewrite ld_st_ne by done. eauto.
  - intros i p. rewrite split_lookup.
    intros [(-> & _)|[(-> & _)|(? & ? & ?)]]; eauto.
  - intros i p Hp Hix Hbx. rewrite !split_lookup.
    assert (Hbu : buddy_of x o = y).
    { eapply (buddy_of_head H'); [by apply (til_split _ HT _ _ SFree)| |].
      - apply split_lookup. auto.
      - by apply (til_ok _ HT) in Hx as (_ & _ & _ & ?). }
    intros [(? & _)|[(-> & -> & _)|(? & ? & Hi)]]; [done| |].
    + intros _. apply Hbx. rewrite <- Hbu. apply buddy_involutive.
    + intros [(? & _)|[(Hb & -> & _)|(? & ? & Hb)]]; [done| |exact (Hco i p Hp Hix Hbx Hi Hb)].
      apply Hix. rewrite <- (buddy_involutive i o), Hb, <- Hbu. apply buddy_involutive.
Qed.
End split.

Section merge.
Context (R : Z → Prop) (h h' : heap) (H : gmap Z (Z * status)) (x o : Z).
Context (HW : work R h H x) (Hx : H !! x = Some (o, SFree)) (Ho : o < 14).
Context (Hy : H !! buddy_of x o = Some (o, SFree)).

Let y := buddy_of x o.
Let lo := if x <? y then x else y.
Let H' := <[lo := (o + 1, SFree)]> (delete (lo + 2 ^ o) H).

Lemma merge_pair :
  (2 ^ (o + 1) | lo) ∧ ((lo = x ∧ lo + 2 ^ o = y) ∨ (lo = y ∧ lo + 2 ^ o = x)).
Proof.
  pose proof (w_til _ _ _ _ HW) as HT. destruct (til_ok _ HT _ _ _ Hx) as (? & ? & _ & Hd).
  pose proof (pow2_pos o ltac:(lia)). unfold lo.
  destruct (buddy_cases x o) as [[Hb ?]|[Hb [? ?]]]; [lia..|done| |]; fold y in Hb;
    rewrite Hb; destruct (Z.ltb_spec x (x + 2 ^ o)), (Z.ltb_spec x (x - 2 ^ o));
    (split; [done|]) || lia; lia.
Qed.

Lemma work_after_merge :
  ld (h_frames h) x = o → h_frames h' = st (h_frames h) lo (o + 1) →
  lists_ok h' (λ p i, free_head H p i ∧ i ≠ x ∧ i ≠ y) →
  work R h' H' lo ∧ H' !! lo = Some (o + 1, SFree) ∧ ld (h_frames h') lo = o + 1.
Proof.
  intros Hfx Hfr HL. destruct merge_pair as [Hd Hpair].
  destruct HW as [HT _ Hhd Hin Hreg Hco].
  pose proof (til_ok _ HT _ _ _ Hx) as (Ho' & _). pose proof (pow2_pos o ltac:(lia)).
  pose proof (til_buddy _ HT _ _ _ Hx Ho) as (_ & _ & _ & _ & Hyx). fold y in Hyx.
  assert (Hlo : H !! lo = Some (o, SFree)) by (destruct Hpair as [[-> _]|[-> _]]; done).
  assert (Hhi : H !! (lo + 2 ^ o) = Some (o, SFree))
    by (destruct Hpair as [[_ ->]|[_ ->]]; done).
  split; [|split; [unfold H'; by rewrite lookup_insert_eq|rewrite Hfr; apply ld_st_eq]].
  split.
  - by apply (til_merge _ HT _ _ _ SFree SFree).
  - eapply lists_ok_iff; [|exact HL]. intros p i Hp. unfold free_head, H'.
    rewrite lookup_insert_Some, lookup_delete_Some.
    destruct Hpair as [[E1 E2]|[E1 E2]]; rewrite E2, E1; intuition congruence.
  - intros i p s Hi. unfold H'. rewrite lookup_insert_ne, lookup_delete_Some by done.
    intros [? Hi']. rewrite Hfr, ld_st_ne by done.
    eapply Hhd; [|exact Hi']. destruct Hpair as [[E1 E2]|[E1 E2]]; congruence.
  - intros i Hi. unfold H'. rewrite lookup_insert_None, lookup_delete_None, Hfr.
    intros [[Hdel|Hn] Hne]; rewrite ld_st_ne by done; [subst i|eauto].
    destruct Hpair as [[_ ->]|[_ ->]].
    + rewrite (Hhd y o SFree) by done. by rewrite enc_alloc_bit.
    + rewrite Hfx. by rewrite <- (enc_alloc_bit o SFree).
  - intros i p. unfold H'. rewrite lookup_insert_Some, lookup_delete_Some.
    intros [[<- _]|[_ [_ ?]]]; eauto.
  - intros i p Hp Hil Hbl. unfold H'.
    rewrite !lookup_insert_ne, !lookup_delete_Some by done. intros [? Hi] [? Hb].
    apply (Hco i p Hp); try done; destruct Hpair as [[E1 E2]|[E1 E2]]; congruence.
Qed.
End merge.

(** ** The loops *)

Lemma find_order_spec h order :
  0 ≤ order ≤ 14 →
  wp (find_order order) h (λ r h', h' = h ∧
    ((r = -1 ∧ ∀ o, order ≤ o ≤ 14 → ld (h_free_area h) o = 0) ∨
     (order ≤ r ≤ 14 ∧ ld (h_free_area h) r ≠ 0 ∧
      ∀ o, order ≤ o < r → ld (h_free_area h) o = 0))).
Proof.
  intros Ho. unfold find_order.
  eapply (wp_loop (λ o h', h' = h ∧ order ≤ o ≤ 15 ∧
    ∀ p, order ≤ p < o → ld (h_free_area h) p = 0) (λ o _, Z.to_nat (15 - o))).
  - intros o h' (-> & Hb & Hz). unfold MAX_ORDER. destruct (Z.leb_spec o 14).
    + wp_step. apply wp_area_get; [unfold MAX_ORDER; lia|].
      destruct (nz (ld (h_free_area h) o)) eqn:E; wp_step.
      * apply nz_spec in E. split; [done|]. right. split_and!; (done || lia).
      * apply nz_false in E. split; [|lia]. split_and!; [done|lia..|].
        intros p Hp. destruct (decide (p = o)) as [->|]; [done|]. apply Hz. lia.
    + wp_step. split; [done|]. left. split; [done|]. intros p Hp. apply Hz. lia.
  - split_and!; [done|lia..|]. intros p Hp. lia.
  - lia.
Qed.

(** The allocated blocks of two tilings agree. *)
Definition allocs_same (H H' : gmap Z (Z * status)) : Prop :=
  ∀ i o u, H' !! i = Some (o, SAlloc u) ↔ H !! i = Some (o, SAlloc u).

#[global] Instance allocs_same_equiv : Equivalence allocs_same.
Proof.
  split.
  - by intros H i o u.
  - by intros H H' HH i o u.
  - intros H1 H2 H3 H12 H23 i o u. rewrite (H23 i o u). apply H12.
Qed.

Lemma split_allocs R h H x o :
  work R h H x → H !! x = Some (o + 1, SFree) → 0 ≤ o →
  allocs_same H (<[x := (o, SFree)]> (<[x + 2 ^ o := (o, SFree)]> H)).
Proof.
  intros HW Hx Ho i p u. rewrite (split_lookup R h) by done.
  destruct (split_y_new R h H x o HW Hx Ho) as (Hyn & _).
  split; [intuition congruence|]. intros Hi. right. right.
  split_and!; [intros ->; congruence|intros ->; congruence|done].
Qed.

Lemma split_step R h H x o :
  work R h H x → H !! x = Some (o + 1, SFree) → 0 ≤ o → R (x + 2 ^ o) →
  wp (frame_set (x + 2 ^ o) (u8 o) ;! list_add o (frame_to_addr (x + 2 ^ o))) h (λ _ h',
    work R h' (<[x := (o, SFree)]> (<[x + 2 ^ o := (o, SFree)]> H)) x ∧
    step_rel R h h' ∧ h_memlock h' = h_memlock h).
Proof.
  intros HW Hx Ho HRy. pose proof (w_til _ _ _ _ HW) as HT.
  destruct (split_y_new _ _ _ _ _ HW Hx Ho) as (Hyn & Hyx & Hyr).
  pose proof (til_ok _ HT _ _ _ Hx) as (Ho14 & _).
  rewrite u8_small by lia. wp_step. apply wp_frame_set; [rewrite FRAME_COUNT_val; lia|].
  rewrite frame_to_addr_val by (rewrite FRAME_COUNT_val; lia). fold (fa (x + 2 ^ o)).
  eapply wp_mono; [eapply (list_add_spec (λ p i, free_head H p i ∧ i ≠ x) R)|].
  - intros p i Hp [Hi _]. destruct (til_ok _ HT _ _ _ Hi). split; [lia|].
    by eapply w_reg.
  - unfold free_head. intros p q i [Hp _] [Hq _]. congruence.
  - eapply lists_ok_heap; [..|by eapply w_lists]; done.
  - lia.
  - lia.
  - done.
  - unfold free_head. intros p Hp [? _]. congruence.
  - intros [] h' [HL (m & a & -> & Hm)]. split; [|done].
    by apply (work_after_split _ h).
Qed.

Lemma split_down_spec R h H x order o :
  work R h H x → H !! x = Some (o, SFree) → 0 ≤ order ≤ o →
  (∀ f, x ≤ f < x + 2 ^ o → R f) →
  wp (split_down order x o) h (λ _ h', ∃ H',
    work R h' H' x ∧ H' !! x = Some (order, SFree) ∧ allocs_same H H' ∧
    step_rel R h h' ∧ h_memlock h' = h_memlock h).
Proof.
  intros HW Hx Ho HR. unfold split_down.
  pose proof (til_ok _ (w_til _ _ _ _ HW) _ _ _ Hx) as (Ho14 & _).
  eapply (wp_loop (λ o h', ∃ H', work R h' H' x ∧ H' !! x = Some (o, SFree) ∧
    0 ≤ order ≤ o ∧ (∀ f, x ≤ f < x + 2 ^ o → R f) ∧ allocs_same H H' ∧
    step_rel R h h' ∧ h_memlock h' = h_memlock h) (λ o _, Z.to_nat (o - order)));
    [|exists H; split_and!; done || lia|lia].
  clear o HW Hx Ho HR Ho14. intros o h1 (H1 & HW & Hx & Ho & HR & Hal & Hst & Hlk).
  destruct (Z.ltb_spec order o); [|wp_step; assert (o = order) as -> by lia; by eauto 10].
  pose proof (til_ok _ (w_til _ _ _ _ HW) _ _ _ Hx) as (_ & Hx0 & _ & Hdiv).
  pose proof (pow2_succ (o - 1) ltac:(lia)) as Hpow. pose proof (pow2_pos (o - 1) ltac:(lia)).
  replace (o - 1 + 1) with o in Hpow by lia.
  assert (Hx' : H1 !! x = Some (o - 1 + 1, SFree)) by (rewrite Hx; do 2 f_equal; lia).
  assert (Hb : Z.lxor x (Z.shiftl 1 (o - 1)) = x + 2 ^ (o - 1)).
  { eapply (buddy_of_head (<[x := (o - 1, SFree)]> (<[x + 2 ^ (o - 1) := (o - 1, SFree)]> H1)));
      [eapply til_split; [by eapply w_til|exact Hx'|lia]|by rewrite lookup_insert_eq|].
    by replace (o - 1 + 1) with o by lia. }
  rewrite Hb. apply wp_assoc. wp_step.
  eapply wp_mono; [apply (split_step R h1 H1 x (o - 1)); [done..|lia|apply HR; lia]|].
  intros [] h2 (HW2 & Hst2 & Hlk2). wp_step. split; [|lia].
  eexists. split_and!; [exact HW2|by rewrite lookup_insert_eq|lia..| | | |congruence].
  - intros f Hf. apply HR. lia.
  - etrans; [exact Hal|]. by eapply split_allocs; [exact HW| |lia].
  - by etrans.
Qed.

Lemma merge_allocs R h H x o :
  work R h H x → H !! x = Some (o, SFree) → o < 14 → H !! buddy_of x o = Some (o, SFree) →
  let lo := if x <? buddy_of x o then x else buddy_of x o in
  allocs_same H (<[lo := (o + 1, SFree)]> (delete (lo + 2 ^ o) H)).
Proof.
  intros HW Hx Ho Hy lo i p u. destruct (merge_pair R h H x o HW Hx) as [_ Hpair].
  fold lo in Hpair. rewrite lookup_insert_Some, lookup_delete_Some.
  split; [intuition congruence|]. intros Hi. right.
  destruct Hpair as [[E1 E2]|[E1 E2]]; rewrite E2, E1;
    split_and!; try done; intros <-; congruence.
Qed.

(** [merge_up] ends with a block whose buddy cannot be merged. *)
Lemma merge_up_spec R h H x o :
  work R h H x → H !! x = Some (o, SFree) → ld (h_frames h) x = o →
  wp (merge_up x o) h (λ '(x', o') h', ∃ H',
    work R h' H' x' ∧ H' !! x' = Some (o', SFree) ∧ ld (h_frames h') x' = o' ∧
    (o' < 14 → H' !! buddy_of x' o' ≠ Some (o', SFree)) ∧
    allocs_same H H' ∧ step_rel R h h' ∧ h_memlock h' = h_memlock h).
Proof.
  intros HW Hx Hf. unfold merge_up.
  eapply (wp_loop (λ '(x, o) h', ∃ H', work R h' H' x ∧ H' !! x = Some (o, SFree) ∧
    ld (h_frames h') x = o ∧ allocs_same H H' ∧ step_rel R h h' ∧
    h_memlock h' = h_memlock h) (λ '(x, o) _, Z.to_nat (14 - o))).
  2:{ exists H. by split_and!. }
  2:{ pose proof (til_ok _ (w_til _ _ _ _ HW) _ _ _ Hx). lia. }
  clear x o HW Hx Hf. intros [x o] h1 (H1 & HW & Hx & Hf & Hal & Hst & Hlk).
  pose proof (w_til _ _ _ _ HW) as HT. pose proof (til_ok _ HT _ _ _ Hx) as (Ho & _).
  unfold MAX_ORDER. destruct (Z.ltb_spec o 14) as [Hlt|]; [|wp_step; exists H1; split_and!; lia || done].
  destruct (til_buddy _ HT _ _ _ Hx Hlt) as (p & t & Hy & Hpo & Hyx).
  pose proof (til_head_bound _ HT _ _ _ Hy). fold (buddy_of x o).
  wp_step. apply wp_frame_get; [rewrite FRAME_COUNT_val; lia|].
  pose proof (til_ok _ HT _ _ _ Hy) as (Hp & _).
  rewrite (w_heads _ _ _ _ HW _ _ _ Hyx Hy), enc_free_test, u8_small by lia.
  destruct (Z.eqb_spec (match t with SFree => p | SAlloc _ => p + 128 end) o) as [E|E].
  - assert (t = SFree ∧ p = o) as [-> ->] by (destruct t; [done|lia]).
    wp_step. eapply wp_mono; [by eapply work_remove|].
    intros [] h2 (HL2 & Hst2 & Hf2 & Hlk2). wp_step.
    apply wp_frame_set; [rewrite FRAME_COUNT_val; pose proof (til_head_bound _ HT _ _ _ Hx);
      destruct (x <? _); lia|].
    rewrite u8_small by lia. wp_step.
    set (lo := if x <? buddy_of x o then x else buddy_of x o) in *.
    destruct (work_after_merge R h1 (set_frames (st (h_frames h2) lo (o + 1)) h2) H1 x o)
      as (HW3 & Hlo & Hflo); try done.
    { simpl. by rewrite Hf2. }
    split; [|lia]. eexists. split_and!; [exact HW3|exact Hlo|exact Hflo| | |].
    + etrans; [exact Hal|]. by eapply merge_allocs.
    + etrans; [exact Hst|]. etrans; [exact Hst2|]. done.
    + simpl. congruence.
  - wp_step. exists H1. split_and!; try done. intros _. rewrite Hy. intros [= -> ->]. done.
Qed.

(** ** From the invariant to the working state and back *)

Lemma inv_work h H : buddy_ok h H → work (free_frame H) h H (-1).
Proof.
  intros [HT Hco HL Hhd Hin]. split; eauto.
  - eapply lists_ok_iff; [|exact HL]. intros o i _. split; [|tauto]. intros Hi.
    split; [done|]. pose proof (til_head_bound _ HT _ _ _ Hi). lia.
  - intros i o Hi. exists i, o. split; [done|].
    destruct (til_ok _ HT _ _ _ Hi). pose proof (pow2_pos o). lia.
Qed.

Lemma work_heap R h h' H x :
  h_mem h' = h_mem h → h_free_area h' = h_free_area h → h_frames h' = h_frames h →
  work R h H x → work R h' H x.
Proof.
  intros Hm Ha Hf [? ? ? ? ? ?]. split; try done; rewrite ?Hf; try done.
  by eapply lists_ok_heap.
Qed.

Lemma work_taken R h h' H y :
  work R h H (-1) → lists_ok h' (λ p i, free_head H p i ∧ i ≠ -1 ∧ i ≠ y) →
  h_frames h' = h_frames h → work R h' H y.
Proof.
  intros [HT _ Hhd Hin Hreg Hco] HL Hf. split; rewrite ?Hf; try done.
  - eapply lists_ok_iff; [|exact HL]. intros o i _. unfold free_head.
    split; [tauto|]. intros [Hi ?]. pose proof (til_head_bound _ HT _ _ _ Hi).
    split_and!; (done || lia).
  - intros i o s _ Hi. eapply Hhd; [|exact Hi].
    pose proof (til_head_bound _ HT _ _ _ Hi). lia.
  - intros i o Ho _ _ Hi Hb. eapply (Hco i o Ho); [..|exact Hi|exact Hb].
    + pose proof (til_head_bound _ HT _ _ _ Hi). lia.
    + pose proof (til_head_bound _ HT _ _ _ Hb). lia.
Qed.

Lemma finish_alloc R h h' H x o u :
  work R h H x → H !! x = Some (o, SFree) →
  h_mem h' = h_mem h → h_free_area h' = h_free_area h →
  h_frames h' = st (h_frames h) x (enc o (SAlloc u)) →
  buddy_ok h' (<[x := (o, SAlloc u)]> H).
Proof.
  intros [HT HL Hhd Hin Hreg Hco] Hx Hm Ha Hf. split.
  - by eapply til_restatus.
  - intros i p Hp. rewrite !lookup_insert_Some.
    intros [[_ [=]]|[Hix Hi]] [[_ [=]]|[Hbx Hb]].
    apply (Hco i p Hp); congruence.
  - eapply lists_ok_iff, lists_ok_heap, HL; [|done..]. intros p i Hp. unfold free_head.
    rewrite lookup_insert_Some. intuition congruence.
  - intros i p s. rewrite lookup_insert_Some, Hf.
    intros [[<- [=<- <-]]|[? Hi]]; [apply ld_st_eq|]. rewrite ld_st_ne by done. eauto.
  - intros i Hi. rewrite lookup_insert_None, Hf. intros [? ?]. rewrite ld_st_ne by done. eauto.
Qed.

Lemma finish_free R h h' H x o :
  work R h H x → H !! x = Some (o, SFree) → ld (h_frames h) x = o →
  (o < 14 → H !! buddy_of x o ≠ Some (o, SFree)) →
  lists_ok h' (free_head H) → h_frames h' = h_frames h →
  buddy_ok h' H.
Proof.
  intros [HT _ Hhd Hin Hreg Hco] Hx Hfx Hb HL Hf. split; try done; rewrite ?Hf; try done.
  - intros i p Hp Hi Hbi. destruct (decide (i = x)) as [->|Hix].
    + rewrite Hx in Hi. injection Hi as <-. by apply Hb.
    + destruct (decide (buddy_of i p = x)) as [Ex|Hbx]; [|by apply (Hco i p Hp)].
      rewrite Ex, Hx in Hbi. injection Hbi as ->. apply (Hb Hp).
      by rewrite <- Ex, buddy_involutive.
  - intros i p s Hi. destruct (decide (i = x)) as [->|]; [|eauto].
    rewrite Hx in Hi. by injection Hi as <- <-.
Qed.

(** ** [buddy_alloc] *)

(** What a successful allocation of block [idx] of order [o] establishes. *)
Definition alloc_post (h : heap) (H : gmap Z (Z * status)) (o : Z) (u : bool)
    (idx : Z) (h' : heap) (H' : gmap Z (Z * status)) : Prop :=
  buddy_inv h' H' ∧ H' !! idx = Some (o, SAlloc u) ∧
  (∀ f, idx ≤ f < idx + 2 ^ o → free_frame H f) ∧
  (∀ i p v, H' !! i = Some (p, SAlloc v) ↔
     H !! i = Some (p, SAlloc v) ∨ (i = idx ∧ p = o ∧ v = u)) ∧
  step_rel (free_frame H) h h'.

Lemma allocs_same_insert H H' x o u :
  allocs_same H H' → H' !! x = Some (o, SFree) →
  ∀ i p v, <[x := (o, SAlloc u)]> H' !! i = Some (p, SAlloc v) ↔
    H !! i = Some (p, SAlloc v) ∨ (i = x ∧ p = o ∧ v = u).
Proof.
  intros Hal Hx i p v. rewrite lookup_insert_Some, <- (Hal i p v).
  destruct (decide (i = x)) as [->|]; [|intuition congruence].
  rewrite Hx. intuition congruence.
Qed.

Lemma alloc_finish_spec R h H x o (u : bool) :
  work R h H x → H !! x = Some (o, SFree) →
  wp (frame_set x (u8 (Z.lor o FRAME_ALLOC)) ;!
      (if u then let! f := frame_get x in frame_set x (Z.lor f FRAME_USER) else skip) ;!
      mem_unlock ;! ret (frame_to_addr x)) h
    (λ r h', r = frame_to_addr x ∧ buddy_inv h' (<[x := (o, SAlloc u)]> H) ∧ step_rel R h h').
Proof.
  intros HW Hx. pose proof (w_til _ _ _ _ HW) as HT.
  pose proof (til_head_bound _ HT _ _ _ Hx). pose proof (til_ok _ HT _ _ _ Hx) as (Ho & _).
  assert (0 ≤ x < FRAME_COUNT) as Hxc by (rewrite FRAME_COUNT_val; lia).
  wp_step. apply wp_frame_set; [done|]. wp_step.
  eapply (wp_mono _ _ (λ _ h', h' = set_frames (st (h_frames h) x (enc o (SAlloc u))) h)).
  { rewrite <- enc_alloc_val by done. destruct u; [|by apply wp_skip].
    wp_step. apply wp_frame_get; [done|]. cbn [h_frames set_frames]. rewrite ld_st_eq.
    apply wp_frame_set; [done|]. cbn [h_frames set_frames]. by rewrite st_st_eq. }
  intros [] _ ->. wp_step. apply wp_mem_unlock. wp_step. split_and!; [done| |done].
  split; [|done]. by eapply finish_alloc.
Qed.

Lemma buddy_alloc_spec h H order user :
  buddy_inv h H → 0 ≤ order ≤ 14 →
  wp (buddy_alloc order user) h (λ r h',
    (r = 0 ∧ buddy_inv h' H ∧ step_rel (free_frame H) h h' ∧
     ∀ i o, H !! i = Some (o, SFree) → o < order) ∨
    (∃ idx H', r = frame_to_addr idx ∧ alloc_post h H order user idx h' H')).
Proof.
  intros [HI Hlk] Ho. pose proof (inv_work _ _ HI) as HW. destruct HI as [HT Hco HL Hhd Hin].
  unfold buddy_alloc, MAX_ORDER.
  replace ((order <? 0) || (14 <? order)) with false by lia.
  wp_step. apply wp_mem_lock; [done|]. set (h1 := set_memlock true h).
  wp_step. eapply wp_mono; [by apply find_order_spec|]. intros fo _ [-> Hfo].
  destruct Hfo as [[-> Hz]|(Hfo & Hnz & _)].
  - change (-1 <? 0) with true. cbv iota.
    wp_step. apply wp_mem_unlock. wp_step. left. split_and!; [done|split; [by split|done]|done|].
    intros i o Hi. destruct (Z.lt_ge_cases o order); [done|].
    pose proof (til_ok _ HT _ _ _ Hi) as (Ho' & _). destruct (HL o Ho') as (l & _ & Hl & Hd).
    apply dll_nil_iff in Hd. apply Hl in Hi. destruct l; [by apply elem_of_nil in Hi|].
    destruct Hd as [Hd _]. specialize (Hd (Hz o ltac:(lia))). done.
  - replace (fo <? 0) with false by lia. cbv iota.
    wp_step. apply wp_area_get; [unfold MAX_ORDER; lia|].
    destruct (HL fo ltac:(lia)) as (l & _ & Hl & Hd).
    destruct (list_head _ _ _ _ Hl Hd) as [?|(k & Hk & Hkf)]; [done|].
    pose proof (til_head_bound _ HT _ _ _ Hkf). simpl in Hnz |- *. rewrite Hk.
    assert (Hkc : 0 ≤ k < FRAME_COUNT) by (rewrite FRAME_COUNT_val; lia).
    replace (fa k) with (frame_to_addr k) by (by apply frame_to_addr_val).
    rewrite addr_frame_roundtrip by done. wp_step.
    eapply wp_mono; [eapply (work_remove _ h1); [by apply (work_heap _ h)|exact Hkf|lia]|].
    intros [] h2 (HL2 & Hst2 & Hf2 & Hlk2).
    pose proof (work_taken _ _ _ _ _ HW HL2 Hf2) as HW2.
    wp_step. eapply wp_mono; [apply (split_down_spec _ _ _ _ order fo HW2 Hkf); [lia|]|].
    { intros f Hf. by exists k, fo. }
    intros [] h3 (H3 & HW3 & Hk3 & Hal3 & Hst3 & Hlk3).
    eapply wp_mono; [by apply alloc_finish_spec|]. intros r h4 (-> & HI4 & Hst4).
    right. exists k, (<[k := (order, SAlloc user)]> H3). split; [done|].
    split_and!; [done|by rewrite lookup_insert_eq| | |].
    + intros f Hf. exists k, fo. split; [done|].
      assert (2 ^ order ≤ 2 ^ fo) by (apply Z.pow_le_mono_r; lia). lia.
    + by apply allocs_same_insert.
    + etrans; [exact Hst2|]. by etrans.
Qed.

(** ** [buddy_free] *)

(** What releasing block [idx] of order [o] establishes. *)
Definition free_post (h : heap) (H : gmap Z (Z * status)) (o idx : Z)
    (h' : heap) (H' : gmap Z (Z * status)) : Prop :=
  buddy_ok h' H' ∧ h_memlock h' = h_memlock h ∧
  (∀ i p v, H' !! i = Some (p, SAlloc v) ↔ H !! i = Some (p, SAlloc v) ∧ i ≠ idx) ∧
  step_rel (λ f, free_frame H f ∨ idx ≤ f < idx + 2 ^ o) h h'.

Lemma work_release h H idx o u :
  buddy_ok h H → H !! idx = Some (o, SAlloc u) →
  work (λ f, free_frame H f ∨ idx ≤ f < idx + 2 ^ o)
    (set_frames (st (h_frames h) idx o) h) (<[idx := (o, SFree)]> H) idx.
Proof.
  intros [HT Hco HL Hhd Hin] Hi.
  pose proof (til_ok _ HT _ _ _ Hi) as (Ho & _). pose proof (pow2_pos o ltac:(lia)). split.
  - by eapply til_restatus.
  - eapply lists_ok_iff, lists_ok_heap, HL; [|done..]. intros p i Hp. unfold free_head.
    rewrite lookup_insert_Some. intuition congruence.
  - intros i p s Hne. rewrite lookup_insert_ne by done. intros Hi'. cbn [h_frames set_frames].
    rewrite ld_st_ne by done. eauto.
  - intros i Hr. rewrite lookup_insert_None. intros [Hn Hne]. cbn [h_frames set_frames].
    rewrite ld_st_ne by done. eauto.
  - intros i p. rewrite lookup_insert_Some. intros [[<- _]|[_ Hi']]; [right; lia|left].
    exists i, p. split; [done|]. pose proof (til_ok _ HT _ _ _ Hi') as (? & _).
    pose proof (pow2_pos p). lia.
  - intros i p Hp Hix Hbx. rewrite !lookup_insert_ne by done. by apply Hco.
Qed.

(** The common tail of [buddy_free] and [munmap_all_user]. *)
Lemma release_spec {A} (k : Z → Z → M heap A) h H idx o u Q :
  buddy_ok h H → H !! idx = Some (o, SAlloc u) →
  (∀ idx' o' h' H', free_post h H o idx h' H' → wp (k idx' o') h' Q) →
  wp (frame_set idx (u8 o) ;! let! r := merge_up idx o in
      let '(idx', o') := r in list_add o' (frame_to_addr idx') ;! k idx' o') h Q.
Proof.
  intros HI Hi HQ. pose proof (work_release _ _ _ _ _ HI Hi) as HW.
  pose proof (bi_til _ _ HI) as HT. pose proof (til_ok _ HT _ _ _ Hi) as (Ho & _).
  pose proof (til_head_bound _ HT _ _ _ Hi).
  wp_step. apply wp_frame_set; [rewrite FRAME_COUNT_val; lia|]. rewrite u8_small by lia.
  wp_step. eapply wp_mono; [apply (merge_up_spec _ _ _ _ _ HW)|].
  - by rewrite lookup_insert_eq.
  - apply ld_st_eq.
  - intros [x' o'] h' (H' & HW' & Hx' & Hf' & Hb' & Hal & Hst & Hlk).
    wp_step. eapply wp_mono; [by apply work_add|]. intros [] h2 (HL2 & Hst2 & Hf2 & Hlk2).
    apply (HQ _ _ _ H'). split_and!.
    + by eapply finish_free.
    + by rewrite Hlk2, Hlk.
    + intros i p v. rewrite (Hal i p v), lookup_insert_Some. intuition congruence.
    + etrans; [|exact Hst2]. exact Hst.
Qed.

Lemma frame_addr_checks idx :
  0 ≤ idx < 16384 →
  (frame_to_addr idx =? 0) = false ∧ (frame_to_addr idx <? HEAP_PHYS) = false ∧
  (HEAP_PHYS + HEAP_SIZE <=? frame_to_addr idx) = false ∧
  nz (Z.land (frame_to_addr idx) (FRAME_SIZE - 1)) = false ∧
  addr_to_frame (frame_to_addr idx) = idx ∧ frame_to_addr idx ≠ 0.
Proof.
  intros Hi. assert (Hc : 0 ≤ idx < FRAME_COUNT) by (rewrite FRAME_COUNT_val; lia).
  rewrite addr_frame_roundtrip by done. rewrite frame_to_addr_val by done.
  unfold HEAP_PHYS, HEAP_SIZE. split_and!; try lia.
  apply nz_false. change (FRAME_SIZE - 1) with (Z.ones 12).
  rewrite Z.land_ones by lia. change (2 ^ 12) with 4096.
  replace (10485760 + 4096 * idx) with ((2560 + idx) * 4096) by lia.
  by rewrite Z.mod_mul.
Qed.

Lemma buddy_free_spec h H idx o u :
  buddy_inv h H → H !! idx = Some (o, SAlloc u) →
  wp (buddy_free (frame_to_addr idx) o) h (λ _ h', ∃ H',
    buddy_inv h' H' ∧ free_post h H o idx h' H').
Proof.
  intros [HI Hlk] Hi. pose proof (bi_til _ _ HI) as HT.
  pose proof (til_ok _ HT _ _ _ Hi) as (Ho & _). pose proof (til_head_bound _ HT _ _ _ Hi).
  destruct (frame_addr_checks idx) as (E1 & E2 & E3 & E4 & E5 & E6); [lia|].
  unfold buddy_free. rewrite E1, E2, E3, E4, E5. unfold MAX_ORDER.
  replace (o <? 0) with false by lia. replace (14 <? o) with false by lia. cbn [orb].
  wp_step. apply wp_mem_lock; [done|].
  assert (HI' : buddy_ok (set_memlock true h) H) by (by destruct HI).
  eapply release_spec; [exact HI'|exact Hi|]. intros _ _ h' H' (HI2 & Hlk2 & Hal & Hst).
  apply wp_mem_unlock. exists H'.
  assert (buddy_ok (set_memlock false h') H') by (by destruct HI2).
  split; [done|]. by split_and!.
Qed.

(** ** When nothing is allocated the heap is one block again *)

Lemma all_free_orders H :
  tiling H → coalesced H → (∀ i o u, H !! i ≠ Some (o, SAlloc u)) →
  ∀ n i o s, H !! i = Some (o, s) → (Z.to_nat o < n)%nat → o = 14.
Proof.
  intros HT Hco Hno n. induction n as [|n IH]; intros i o s Hi Hn; [lia|].
  destruct s as [|u]; [|by destruct (Hno _ _ _ Hi)].
  pose proof (til_ok _ HT _ _ _ Hi) as (Ho & _).
  destruct (Z.lt_ge_cases o 14) as [Hlt|]; [exfalso|lia].
  destruct (til_buddy _ HT _ _ _ Hi Hlt) as (p & [|u] & Hb & Hp & _);
    [|by destruct (Hno _ _ _ Hb)].
  pose proof (til_ok _ HT _ _ _ Hb) as (Hp0 & _).
  destruct (decide (p = o)) as [-> | Hne]; [exact (Hco i o Hlt Hi Hb)|].
  assert (p = 14) by (apply (IH _ _ _ Hb); lia). lia.
Qed.

Lemma all_free_single H :
  tiling H → coalesced H → (∀ i o u, H !! i ≠ Some (o, SAlloc u)) →
  H = {[0 := (14, SFree)]}.
Proof.
  intros HT Hco Hno.
  assert (Hall : ∀ i o s, H !! i = Some (o, s) → i = 0 ∧ o = 14 ∧ s = SFree).
  { intros i o s Hi. assert (o = 14) as -> by (eapply all_free_orders; eauto).
    pose proof (til_ok _ HT _ _ _ Hi) as (_ & Hi0 & Hin & _). change (2 ^ 14) with 16384 in Hin.
    destruct s as [|u]; [split_and!; done || lia|by destruct (Hno _ _ _ Hi)]. }
  destruct (til_cover _ HT 0) as (i & o & s & Hi & _); [lia|].
  destruct (Hall _ _ _ Hi) as (-> & -> & ->).
  apply map_eq. intros j. rewrite lookup_singleton. case_decide as Hj; [by subst|].
  destruct (H !! j) as [[p t]|] eqn:E; [|done]. by destruct (Hall _ _ _ E) as (-> & _).
Qed.

(** ** [munmap_user] *)

(** An address the page allocator never hands out: below or beyond the heap,
    or the interior of a page. *)
Lemma addr_cases addr :
  0 ≤ addr < 2 ^ 64 → nz (Z.land addr (FRAME_SIZE - 1)) = false →
  addr_to_frame addr < FRAME_COUNT →
  0 ≤ addr_to_frame addr ∧ addr = frame_to_addr (addr_to_frame addr).
Proof.
  rewrite FRAME_COUNT_val. intros Ha Hal Hlt. apply nz_false in Hal.
  change (FRAME_SIZE - 1) with (Z.ones 12) in Hal. rewrite Z.land_ones in Hal by lia.
  unfold addr_to_frame, FRAME_SHIFT in *. rewrite Z.shiftr_div_pow2 in * by lia.
  pose proof (u64_range (addr - HEAP_PHYS)).
  assert (0 ≤ u64 (addr - HEAP_PHYS) / 2 ^ 12) by (apply Z.div_pos; lia).
  split; [done|]. change (2 ^ 12) with 4096 in *.
  rewrite frame_to_addr_val by (rewrite FRAME_COUNT_val; lia).
  assert (u64 (addr - HEAP_PHYS) = addr - HEAP_PHYS) as E.
  { apply u64_small. unfold u64, HEAP_PHYS in *.
    destruct (Z.le_gt_cases 10485760 addr); [lia|].
    replace (addr - 10485760) with (addr - 10485760 + 2 ^ 64 + (-1) * 2 ^ 64) in Hlt by lia.
    rewrite Z.mod_add, Z.mod_small in Hlt by lia.
    assert (16384 * 4096 ≤ addr - 10485760 + 2 ^ 64) as Hbig by lia.
    apply (Z.div_le_mono _ _ 4096) in Hbig; [|lia]. rewrite Z.div_mul in Hbig by lia. lia. }
  rewrite E in *. unfold HEAP_PHYS in *.
  pose proof (Z.div_mod (addr - 10485760) 4096 ltac:(lia)).
  assert ((addr - 10485760) mod 4096 = 0); [|lia].
  replace (addr - 10485760) with (addr + (-2560) * 4096) by lia. by rewrite Z.mod_add.
Qed.

Lemma munmap_user_spec h H addr :
  buddy_inv h H → 0 ≤ addr < 2 ^ 64 →
  wp (munmap_user addr) h (λ r h',
    (h' = h ∧ (∀ i o u, H !! i = Some (o, SAlloc u) → addr ≠ frame_to_addr i)) ∨
    (∃ idx o u H', addr = frame_to_addr idx ∧ H !! idx = Some (o, SAlloc u) ∧ r = 0 ∧
       buddy_inv h' H' ∧ free_post h H o idx h' H')).
Proof.
  intros HI Ha. pose proof (bi_til _ _ (proj1 HI)) as HT.
  assert (Hck : ∀ i o u, H !! i = Some (o, SAlloc u) →
     (frame_to_addr i =? 0) = false ∧ nz (Z.land (frame_to_addr i) (FRAME_SIZE - 1)) = false ∧
     addr_to_frame (frame_to_addr i) = i ∧ 0 ≤ i < 16384).
  { intros i o u Hi. pose proof (til_head_bound _ HT _ _ _ Hi).
    by destruct (frame_addr_checks i) as (? & _ & _ & ? & ? & _). }
  unfold munmap_user. destruct (addr =? 0) eqn:E0.
  { wp_step. left. split; [done|]. intros i o u Hi ->. destruct (Hck _ _ _ Hi). congruence. }
  destruct (nz _) eqn:E1.
  { wp_step. left. split; [done|]. intros i o u Hi ->. destruct (Hck _ _ _ Hi) as (_ & ? & _).
    congruence. }
  destruct (Z.leb_spec FRAME_COUNT (addr_to_frame addr)) as [E2|E2].
  { wp_step. left. split; [done|]. intros i o u Hi ->.
    destruct (Hck _ _ _ Hi) as (_ & _ & E & ?). rewrite E, FRAME_COUNT_val in E2. lia. }
  destruct (addr_cases addr Ha E1 E2) as [Hidx Haddr].
  set (idx := addr_to_frame addr) in *. rewrite Haddr. rewrite FRAME_COUNT_val in E2.
  wp_step. apply wp_frame_get; [rewrite FRAME_COUNT_val; lia|].
  destruct (H !! idx) as [[o s]|] eqn:Hi.
  - pose proof (til_ok _ HT _ _ _ Hi) as (Ho & _).
    rewrite (bi_heads _ _ (proj1 HI) _ _ _ Hi), enc_alloc_bit, enc_order_bits by done.
    destruct s as [|u]; cbn [Z.eqb].
    + wp_step. left. split; [done|]. intros i p u Hi' E.
      destruct (Hck _ _ _ Hi') as (_ & _ & Ei & _). rewrite <- E in Ei.
      pose proof (addr_frame_roundtrip idx ltac:(rewrite FRAME_COUNT_val; lia)). congruence.
    + wp_step. eapply wp_mono; [by eapply buddy_free_spec|]. intros [] h' (H' & HI' & Hp).
      wp_step. right. by exists idx, o, u, H'.
  - rewrite (bi_inner _ _ (proj1 HI) idx) by (done || lia). cbn [Z.eqb]. wp_step. left. split; [done|].
    intros i p u Hi' E. destruct (Hck _ _ _ Hi') as (_ & _ & Ei & _). rewrite <- E in Ei.
    pose proof (addr_frame_roundtrip idx ltac:(rewrite FRAME_COUNT_val; lia)). congruence.
Qed.

(** ** [munmap_all_user] *)

(** Which blocks are left when the loop has reached frame [i]. *)
Definition swept (H H' : gmap Z (Z * status)) (i : Z) : Prop :=
  ∀ j p u, H' !! j = Some (p, SAlloc u) ↔
    H !! j = Some (p, SAlloc u) ∧ (u = true → i ≤ j).

Lemma user_test f H h i :
  buddy_ok h H → 0 ≤ i < 16384 → f = ld (h_frames h) i →
  let both := Z.lor FRAME_ALLOC FRAME_USER in
  ((Z.land f both =? both) = true ∧
     ∃ o, H !! i = Some (o, SAlloc true) ∧ Z.land f FRAME_ORDER = o ∧ 0 ≤ o ≤ 14) ∨
  ((Z.land f both =? both) = false ∧ ∀ o, H !! i ≠ Some (o, SAlloc true)).
Proof.
  intros HI Hr -> both. destruct (H !! i) as [[o s]|] eqn:Hi.
  - pose proof (til_ok _ (bi_til _ _ HI) _ _ _ Hi) as (Ho & _).
    rewrite (bi_heads _ _ HI _ _ _ Hi), enc_user_bits, enc_order_bits by done.
    destruct s as [|[]]; [right|left|right]; split; try done. eauto.
  - right. split; [|done]. pose proof (bi_inner _ _ HI i Hr Hi) as Hz.
    apply Z.eqb_neq. intros E. assert (Z.land (Z.land (ld (h_frames h) i) both) 0x80 = 0x80) as E'
      by (by rewrite E). rewrite <- Z.land_assoc in E'. change (Z.land both 0x80) with FRAME_ALLOC in E'.
    by rewrite Hz in E'.
Qed.

(** The frames of allocated blocks. *)
Definition alloc_frame (H : gmap Z (Z * status)) (f : Z) : Prop :=
  ∃ i o u, H !! i = Some (o, SAlloc u) ∧ i ≤ f < i + 2 ^ o.

Lemma til_same_frame H i o s j p t f :
  tiling H → H !! i = Some (o, s) → H !! j = Some (p, t) →
  i ≤ f < i + 2 ^ o → j ≤ f < j + 2 ^ p → i = j ∧ o = p ∧ s = t.
Proof.
  intros HT Hi Hj Hf Hg. assert (i = j) as <-.
  { destruct (Z.lt_trichotomy i j) as [Hlt|[?|Hlt]]; [|done|].
    - pose proof (til_disj _ HT _ _ _ _ _ _ Hi Hj Hlt). lia.
    - pose proof (til_disj _ HT _ _ _ _ _ _ Hj Hi Hlt). lia. }
  rewrite Hi in Hj. by injection Hj as <- <-.
Qed.

(** The frames of the heap outside allocated blocks. *)
Definition unalloc (H : gmap Z (Z * status)) (f : Z) : Prop :=
  0 ≤ f < 16384 ∧ ¬ alloc_frame H f.

Lemma free_not_alloc H f : tiling H → free_frame H f → ¬ alloc_frame H f.
Proof.
  intros HT (i & o & Hi & Hf) (j & p & u & Hj & Hg).
  by destruct (til_same_frame _ _ _ _ _ _ _ _ HT Hi Hj Hf Hg) as (_ & _ & ?).
Qed.

Lemma step_rel_mono (R R' : Z → Prop) h h' :
  (∀ f, R f → R' f) → step_rel R h h' → step_rel R' h h'.
Proof. intros HR [Hm Hr]. split; [|done]. intros a Ha. apply Hm. auto. Qed.

(** Freeing leaves the words of the blocks still allocated alone. *)
Lemma free_post_kept h H o idx u h' H' :
  tiling H → H !! idx = Some (o, SAlloc u) → free_post h H o idx h' H' →
  step_rel (unalloc H') h h'.
Proof.
  intros HT Hi (_ & _ & Hal & Hst). eapply step_rel_mono; [|exact Hst].
  intros f Hf. pose proof (til_ok _ HT _ _ _ Hi) as (_ & ? & ? & _). split.
  { destruct Hf as [(j & p & Hj & ?)|?]; [pose proof (til_ok _ HT _ _ _ Hj)|]; lia. }
  intros (j & p & v & [Hj Hne]%Hal & Hg). destruct Hf as [Hf|Hf].
  - apply (free_not_alloc _ _ HT Hf). by exists j, p, v.
  - by destruct (til_same_frame _ _ _ _ _ _ _ _ HT Hi Hj Hf Hg).
Qed.

Lemma munmap_all_user_spec h H :
  buddy_inv h H →
  wp munmap_all_user h (λ _ h', ∃ H', buddy_inv h' H' ∧
    (∀ i o u, H' !! i = Some (o, SAlloc u) ↔ H !! i = Some (o, SAlloc u) ∧ u = false) ∧
    step_rel (unalloc H') h h').
Proof.
  intros [HI Hlk]. unfold munmap_all_user. wp_step. apply wp_mem_lock; [done|]. wp_step.
  eapply wp_mono; [eapply (wp_loop (λ i h', ∃ H', buddy_ok h' H' ∧ h_memlock h' = true ∧
    0 ≤ i ∧ swept H H' i ∧ step_rel (unalloc H') h h') (λ i _, Z.to_nat (FRAME_COUNT - i))
    _ (λ _ h', ∃ H', buddy_ok h' H' ∧ swept H H' FRAME_COUNT ∧
      step_rel (unalloc H') h h'))|].
  - intros i h1 (H1 & HI1 & Hlk1 & Hi0 & Hsw & Hrs).
    destruct (Z.ltb_spec i FRAME_COUNT) as [Hlt|Hge].
    + rewrite FRAME_COUNT_val in Hlt. wp_step. apply wp_frame_get; [rewrite FRAME_COUNT_val; lia|].
      destruct (user_test _ H1 h1 i HI1 ltac:(lia) eq_refl) as [(-> & o & Hi & -> & Ho)|[-> Hno]].
      * apply (release_spec (λ _ _, ret (inl (i + Z.shiftl 1 o))) h1 H1 i o true); [done..|].
        intros _ _ h2 H2 Hpost.
        pose proof (free_post_kept _ _ _ _ _ _ _ (bi_til _ _ HI1) Hi Hpost) as Hrs2.
        destruct Hpost as (HI2 & Hlk2 & Hal & _). rewrite Z.shiftl_1_l. wp_step.
        pose proof (pow2_pos o ltac:(lia)). split; [|rewrite FRAME_COUNT_val; lia].
        exists H2. split_and!; [done|congruence|lia| |].
        -- intros j p u. rewrite (Hal j p u), (Hsw j p u). split.
           ++ intros [[Hj Hu] Hne]. split; [done|]. intros ->. specialize (Hu eq_refl).
              apply (til_disj _ (bi_til _ _ HI1) i o (SAlloc true) j p (SAlloc true)); [done| |lia].
              apply Hsw. auto.
           ++ intros [Hj Hu]. split; [split; [done|]|]; [intros ->; specialize (Hu eq_refl); lia|].
              intros ->. apply Hsw in Hi as [Hi _]. rewrite Hi in Hj. injection Hj as <- <-.
              specialize (Hu eq_refl). lia.
        -- etrans; [|exact Hrs2]. eapply step_rel_mono; [|exact Hrs].
           intros f [? Hf]. split; [done|]. intros (j & p & v & [Hj _]%Hal & Hg).
           apply Hf. by exists j, p, v.
      * wp_step. split; [|rewrite FRAME_COUNT_val; lia]. exists H1. split_and!; [done..|lia| |done].
        intros j p u. rewrite (Hsw j p u). split; intros [Hj Hu]; (split; [done|]); intros ->;
          specialize (Hu eq_refl); [|lia].
        assert (j ≠ i); [|lia]. intros ->. apply (Hno p), Hsw. split; [done|lia].
    + wp_step. exists H1. split_and!; [done| |done]. intros j p u. rewrite (Hsw j p u).
      split; intros [Hj Hu]; (split; [done|]); intros ->; specialize (Hu eq_refl); [lia|].
      pose proof (til_head_bound _ (bi_til _ _ HI) _ _ _ Hj). rewrite FRAME_COUNT_val in *. lia.
  - exists H. split_and!; [by destruct HI|done|lia| |done]. intros j p u.
    split; [|tauto]. intros Hj. split; [done|]. intros _.
    pose proof (til_head_bound _ (bi_til _ _ HI) _ _ _ Hj). lia.
  - lia.
  - intros [] h1 (H1 & HI1 & Hsw & Hrs). apply wp_mem_unlock. exists H1.
    split_and!; [split; [by destruct HI1|done]| |done].
    intros j p u. rewrite (Hsw j p u). split; intros [Hj Hu]; (split; [done|]); [|by intros ->].
    destruct u; [|done]. specialize (Hu eq_refl).
    pose proof (til_head_bound _ (bi_til _ _ HI) _ _ _ Hj). rewrite FRAME_COUNT_val in *. lia.
Qed.
