(* ===== verification/PageAlloc.v ===== *)
(** * PageAlloc: what the page allocator promises

    The initial state, the pages handed to user space, and the abstract
    specification of the page allocator: a set of live blocks.  Every operation
    of [memory.c] on pages simulates one step of that specification, fails only
    when no aligned run of frames is free, and leaves the contents of every
    live block alone. *)

From Stdlib Require Import ZArith Lia.
From stdpp Require Import gmap list prelude.
From S2P Require Import Prelude KHeap Buddy BuddyInv BuddyProof.

(** ** [memory_init] *)

Lemma init_areas h :
  wp (for_up 15 0 (λ i, area_set i 0)) h (λ _ h', ∃ a,
    h' = set_free_area a h ∧ ∀ o, 0 ≤ o ≤ 14 → ld a o = 0).
Proof.
  eapply wp_mono; [apply (wp_for_up (λ i h', ∃ a, h' = set_free_area a h ∧
    ∀ o, 0 ≤ o < i → ld a o = 0))|].
  - exists (h_free_area h). split; [by destruct h|lia].
  - intros i h' Hi (a & -> & Ha). apply wp_area_set; [unfold MAX_ORDER; lia|].
    eexists. split; [reflexivity|]. intros o Ho. rewrite ld_st. case_decide; [done|].
    apply Ha. lia.
  - intros [] h' (a & -> & Ha). exists a. split; [done|]. intros o Ho. apply Ha. lia.
Qed.

Lemma init_frames h :
  wp (for_up (Z.to_nat FRAME_COUNT) 0 (λ i, frame_set i 0)) h (λ _ h', ∃ a,
    h' = set_frames a h ∧ ∀ o, 0 ≤ o < 16384 → ld a o = 0).
Proof.
  eapply wp_mono; [apply (wp_for_up (λ i h', ∃ a, h' = set_frames a h ∧
    ∀ o, 0 ≤ o < i → ld a o = 0))|].
  - exists (h_frames h). split; [by destruct h|lia].
  - intros i h' Hi (a & -> & Ha). apply wp_frame_set; [lia|].
    eexists. split; [reflexivity|]. intros o Ho. rewrite ld_st. case_decide; [done|].
    apply Ha. lia.
  - intros [] h' (a & -> & Ha). exists a. split; [done|]. intros o Ho. apply Ha.
    rewrite FRAME_COUNT_val. lia.
Qed.

(** The caches as [memory_init] leaves them. *)
Definition fresh_caches (h : heap) : Prop :=
  ∀ i, 0 ≤ i < 8 → ∃ sz, cache_sizes !! Z.to_nat i = Some sz ∧
    h_caches h !! i = Some (mkCache sz 0 ((FRAME_SIZE - SIZEOF_SLAB) / sz) i).

Lemma init_caches h :
  wp (for_up 8 0 init_cache) h (λ _ h', ∃ c, h' = set_caches c h ∧ fresh_caches h').
Proof.
  eapply wp_mono; [apply (wp_for_up (λ i h', ∃ c, h' = set_caches c h ∧
    ∀ j, 0 ≤ j < i → ∃ sz, cache_sizes !! Z.to_nat j = Some sz ∧
      c !! j = Some (mkCache sz 0 ((FRAME_SIZE - SIZEOF_SLAB) / sz) j)))|].
  - exists (h_caches h). split; [by destruct h|lia].
  - intros i h' Hi (c & -> & Hc). unfold init_cache.
    destruct (lookup_lt_is_Some_2 cache_sizes (Z.to_nat i)) as [sz Hsz]; [simpl; lia|].
    rewrite Hsz. apply wp_modify. eexists. split; [reflexivity|].
    intros j Hj. destruct (decide (i = j)) as [<-|].
    + exists sz. split; [done|]. apply lookup_insert_eq.
    + destruct (Hc j) as (sz' & ? & ?); [lia|]. exists sz'. split; [done|].
      cbn [h_caches set_caches]. by rewrite lookup_insert_ne.
  - intros [] h' (c & -> & Hc). by exists c.
Qed.

Lemma init_objects h :
  wp (for_up 8 0 (λ i, modify (λ h, set_pcpu_objects (<[i := []]> (h_pcpu_objects h)) h))) h
    (λ _ h', ∃ c, h' = set_pcpu_objects c h ∧ ∀ i, 0 ≤ i < 8 → c !! i = Some []).
Proof.
  eapply wp_mono; [apply (wp_for_up (λ i h', ∃ c, h' = set_pcpu_objects c h ∧
    ∀ j, 0 ≤ j < i → c !! j = Some []))|].
  - exists (h_pcpu_objects h). split; [by destruct h|lia].
  - intros i h' Hi (c & -> & Hc). apply wp_modify. eexists. split; [reflexivity|].
    intros j Hj. destruct (decide (i = j)) as [<-|]; [apply lookup_insert_eq|].
    cbn [h_pcpu_objects set_pcpu_objects]. rewrite lookup_insert_ne by done. apply Hc. lia.
  - intros [] h' (c & -> & Hc). by exists c.
Qed.

(** The tiling of the empty heap: one free block of the largest order. *)
Definition empty_tiling : gmap Z (Z * status) := {[0 := (14, SFree)]}.

Lemma empty_tiling_lookup i o s :
  empty_tiling !! i = Some (o, s) ↔ i = 0 ∧ o = 14 ∧ s = SFree.
Proof.
  unfold empty_tiling. rewrite lookup_singleton_Some. split; [by intros [<- [= <- <-]]|].
  by intros (-> & -> & ->).
Qed.

Lemma empty_tiling_ok : tiling empty_tiling.
Proof.
  split.
  - intros i o s (-> & -> & ->)%empty_tiling_lookup. split_and!; try lia. apply Z.divide_0_r.
  - intros f Hf. exists 0, 14, SFree. by rewrite empty_tiling_lookup.
  - intros i o s j p t (-> & -> & ->)%empty_tiling_lookup (-> & -> & ->)%empty_tiling_lookup. lia.
Qed.

Lemma empty_buddy_ok h :
  (∀ o, 0 ≤ o < 14 → ld (h_free_area h) o = 0) → ld (h_free_area h) 14 = HEAP_PHYS →
  ld (h_mem h) HEAP_PHYS = 0 → ld (h_mem h) (HEAP_PHYS + 8) = 0 →
  ld (h_frames h) 0 = 14 → (∀ i, 0 < i < 16384 → ld (h_frames h) i = 0) →
  buddy_ok h empty_tiling.
Proof.
  intros Ha Ha14 Hn Hp Hf0 Hf. split.
  - apply empty_tiling_ok.
  - intros i o Ho (-> & -> & _)%empty_tiling_lookup. lia.
  - intros o Ho. destruct (decide (o = 14)) as [-> |].
    + exists [0]. split_and!; [apply NoDup_singleton| |].
      * intros i. unfold free_head. rewrite empty_tiling_lookup, list_elem_of_singleton. tauto.
      * rewrite Ha14. by repeat split.
    + exists []. split_and!; [apply NoDup_nil_2| |by apply Ha; lia].
      intros i. unfold free_head. rewrite empty_tiling_lookup, elem_of_nil. tauto.
  - intros i o s (-> & -> & ->)%empty_tiling_lookup. done.
  - intros i Hi Hn'. rewrite Hf; [done|]. destruct (decide (i = 0)) as [-> |]; [done|lia].
Qed.

Lemma memory_init_spec h :
  h_memlock h = false →
  wp memory_init h (λ _ h', buddy_inv h' empty_tiling ∧ fresh_caches h' ∧
    h_pcpu_pages h' = [] ∧ (∀ i, 0 ≤ i < 8 → h_pcpu_objects h' !! i = Some []) ∧
    h_user_va_next h' = h_user_va_next h ∧ h_cr3 h' = h_cr3 h).
Proof.
  intros Hlk. unfold memory_init. wp_step. apply wp_mem_lock; [done|].
  wp_step. eapply wp_mono; [apply init_areas|]. intros [] ? (a & -> & Ha).
  wp_step. eapply wp_mono; [apply init_frames|]. intros [] ? (f & -> & Hf).
  wp_step. apply wp_store. wp_step. apply wp_store.
  wp_step. apply wp_area_set; [unfold MAX_ORDER; lia|].
  wp_step. apply wp_frame_set; [rewrite FRAME_COUNT_val; lia|].
  wp_step. eapply wp_mono; [apply init_caches|]. intros [] ? (c & -> & Hc).
  wp_step. wp_step. wp_step. eapply wp_mono; [apply init_objects|]. intros [] ? (ob & -> & Hob).
  apply wp_mem_unlock. split_and!; try done. split; [|done].
  apply empty_buddy_ok; cbn [h_mem h_frames h_free_area set_mem set_frames set_free_area
    set_caches set_pcpu_pages set_pcpu_objects set_memlock]; unfold MAX_ORDER, HEAP_PHYS.
  - intros o Ho. rewrite ld_st_ne by lia. apply Ha. lia.
  - apply ld_st_eq.
  - rewrite ld_st_ne by lia. apply ld_st_eq.
  - apply ld_st_eq.
  - apply ld_st_eq.
  - intros i Hi. rewrite ld_st_ne by lia. apply Hf. lia.
Qed.

(** ** The allocator fails only when no aligned run of frames is free *)

Lemma free_run_orders H base k :
  tiling H → coalesced H → 0 ≤ k ≤ 14 → (2 ^ k | base) → 0 ≤ base →
  (∀ f, base ≤ f < base + 2 ^ k → ¬ alloc_frame H f) →
  ∀ n i o s, H !! i = Some (o, s) → base ≤ i < base + 2 ^ k → (Z.to_nat o < n)%nat → k ≤ o.
Proof.
  intros HT Hco Hk Hdiv Hb0 Hno n. induction n as [|n IH]; intros i o s Hi Hin Hn; [lia|].
  assert (Hfree : ∀ j p t, H !! j = Some (p, t) → base ≤ j < base + 2 ^ k → t = SFree).
  { intros j p [|u] Hj Hjr; [done|]. exfalso. apply (Hno j Hjr). exists j, p, u.
    pose proof (til_ok _ HT _ _ _ Hj) as (? & _). pose proof (pow2_pos p). split; [done|lia]. }
  rewrite (Hfree _ _ _ Hi Hin) in Hi.
  pose proof (til_ok _ HT _ _ _ Hi) as (Ho & Hi0 & _ & Hid).
  destruct (Z.lt_ge_cases o k) as [Hlt|]; [exfalso|lia].
  destruct (til_buddy _ HT _ _ _ Hi ltac:(lia)) as (p & t & Hb & Hp & _).
  assert (Hbr : base ≤ buddy_of i o < base + 2 ^ k).
  { pose proof (pow2_pos o ltac:(lia)). pose proof (pow2_divide (o + 1) k ltac:(lia)) as Hdk.
    pose proof (pow2_succ o ltac:(lia)). pose proof (pow2_pos k ltac:(lia)).
    destruct (buddy_cases i o Hi0 ltac:(lia) Hid) as [[-> Hd]|[-> [Hd ?]]].
    - assert (2 ^ (o + 1) | base + 2 ^ k - i) as Hd'.
      { apply Z.divide_sub_r; [|done]. apply Z.divide_add_r; [exact (Z.divide_trans _ _ _ Hdk Hdiv)|done]. }
      apply Z.divide_pos_le in Hd'; lia.
    - destruct (Z.le_gt_cases base (i - 2 ^ o)); [lia|].
      assert (2 ^ (o + 1) | base - (i - 2 ^ o)) as Hd'
        by (apply Z.divide_sub_r; [exact (Z.divide_trans _ _ _ Hdk Hdiv)|done]).
      apply Z.divide_pos_le in Hd'; lia. }
  rewrite (Hfree _ _ _ Hb Hbr) in Hb.
  pose proof (til_ok _ HT _ _ _ Hb) as (Hp0 & _).
  destruct (decide (p = o)) as [-> | Hne]; [exact (Hco i o ltac:(lia) Hi Hb)|].
  assert (k ≤ p) by (apply (IH _ _ _ Hb Hbr); lia). lia.
Qed.

(** An aligned run of [2 ^ k] frames without an allocated frame lies in one
    free block of order at least [k]. *)
Lemma free_run_block H base k :
  tiling H → coalesced H → 0 ≤ k ≤ 14 → (2 ^ k | base) → 0 ≤ base → base + 2 ^ k ≤ 16384 →
  (∀ f, base ≤ f < base + 2 ^ k → ¬ alloc_frame H f) →
  ∃ i o, H !! i = Some (o, SFree) ∧ k ≤ o.
Proof.
  intros HT Hco Hk Hdiv Hb0 Hbn Hno. pose proof (pow2_pos k ltac:(lia)).
  destruct (til_cover _ HT base) as (i & o & s & Hi & Hf); [lia|].
  assert (s = SFree) as ->.
  { destruct s as [|u]; [done|]. exfalso. apply (Hno base); [lia|]. by exists i, o, u. }
  exists i, o. split; [done|].
  destruct (decide (i = base)) as [-> |Hne].
  - apply (free_run_orders H base k HT Hco Hk Hdiv Hb0 Hno (S (Z.to_nat o)) base o SFree Hi); lia.
  - pose proof (til_ok _ HT _ _ _ Hi) as (Ho & _ & _ & Hid).
    destruct (Z.le_gt_cases k o); [done|]. exfalso.
    pose proof (pow2_pos o ltac:(lia)). assert (2 ^ o | base - i) as Hd.
    { apply Z.divide_sub_r; [|done]. apply (Z.divide_trans _ (2 ^ k)); [|done].
      apply pow2_divide. lia. }
    apply Z.divide_pos_le in Hd; lia.
Qed.

(** ** The abstract specification *)

(** The live blocks: first frame, order, and whether they belong to user space. *)
Abbreviation pa_state := (gmap Z (Z * bool)).

Definition live_frame (L : pa_state) (f : Z) : Prop :=
  ∃ i o u, L !! i = Some (o, u) ∧ i ≤ f < i + 2 ^ o.

(** [idx] starts an aligned run of [2 ^ o] frames of the heap, none of them live. *)
Definition free_run (L : pa_state) (idx o : Z) : Prop :=
  0 ≤ o ≤ 14 ∧ 0 ≤ idx ∧ idx + 2 ^ o ≤ 16384 ∧ (2 ^ o | idx) ∧
  ∀ f, idx ≤ f < idx + 2 ^ o → ¬ live_frame L f.

(** The blocks that do not belong to user space. *)
Definition kernel_blocks (L : pa_state) : pa_state :=
  filter (λ x : Z * (Z * bool), x.2.2 = false) L.

Inductive pa_op :=
  | PAlloc (order : Z) (user : bool)
  | PFree (idx order : Z)
  | PMunmap (addr : Z)
  | PMunmapAll.

Inductive pa_step (L : pa_state) : pa_op → Z → pa_state → Prop :=
  | pa_alloc order user idx :
      free_run L idx order →
      pa_step L (PAlloc order user) (frame_to_addr idx) (<[idx := (order, user)]> L)
  | pa_alloc_fail order user :
      (∀ idx, ¬ free_run L idx order) →
      pa_step L (PAlloc order user) 0 L
  | pa_free idx order user :
      L !! idx = Some (order, user) →
      pa_step L (PFree idx order) 0 (delete idx L)
  | pa_munmap_hit idx o u :
      L !! idx = Some (o, u) →
      pa_step L (PMunmap (frame_to_addr idx)) 0 (delete idx L)
  | pa_munmap_miss addr r :
      (∀ idx o u, L !! idx = Some (o, u) → addr ≠ frame_to_addr idx) →
      pa_step L (PMunmap addr) r L
  | pa_munmap_all :
      pa_step L PMunmapAll 0 (kernel_blocks L).

(** What the operations run. *)
Definition run_op (op : pa_op) : M heap Z :=
  match op with
  | PAlloc order user => buddy_alloc order user
  | PFree idx order => buddy_free (frame_to_addr idx) order ;! ret 0
  | PMunmap addr => munmap_user addr
  | PMunmapAll => munmap_all_user ;! ret 0
  end.

(** What the callers owe: a block is freed with the order it was taken with,
    and addresses are 64-bit. *)
Definition op_ok (L : pa_state) (op : pa_op) : Prop :=
  match op with
  | PFree idx order => ∃ u, L !! idx = Some (order, u)
  | PMunmap addr => 0 ≤ addr < 2 ^ 64
  | _ => True
  end.

(** The abstraction relation. *)
Definition live_of (H : gmap Z (Z * status)) (L : pa_state) : Prop :=
  ∀ i o u, L !! i = Some (o, u) ↔ H !! i = Some (o, SAlloc u).

Definition pa_rel (h : heap) (L : pa_state) : Prop :=
  ∃ H, buddy_inv h H ∧ live_of H L.

(** The words the allocator must not touch: outside the heap, or in a live
    frame. *)
Definition stable (L : pa_state) (a : Z) : Prop :=
  ∀ f, 0 ≤ f < 16384 → fa f ≤ a < fa f + 4096 → live_frame L f.

Definition contents_kept (L : pa_state) (h h' : heap) : Prop :=
  ∀ a, stable L a → ld (h_mem h') a = ld (h_mem h) a.

Lemma live_frame_alloc H L f : live_of H L → live_frame L f ↔ alloc_frame H f.
Proof.
  intros HL. split; intros (i & o & u & Hi & Hf); exists i, o, u; split; try done; by apply HL.
Qed.

Lemma frame_of_range f : 0 ≤ f < 16384 → frame_to_addr f = fa f.
Proof. intros. apply frame_to_addr_val. by rewrite FRAME_COUNT_val. Qed.

(** Steps that touch only frames that are not live keep the contents. *)
Lemma step_rel_contents L (R : Z → Prop) h h' :
  (∀ f, R f → 0 ≤ f < 16384 ∧ ¬ live_frame L f) → step_rel R h h' → contents_kept L h h'.
Proof.
  intros HR [Hm _] a Ha. apply Hm. intros g Hg. apply HR in Hg as [Hg0 Hg].
  split; intros ->; apply Hg, Ha; (done || lia).
Qed.

Lemma free_frame_bound H f : tiling H → free_frame H f → 0 ≤ f < 16384.
Proof. intros HT (i & o & Hi & ?). pose proof (til_ok _ HT _ _ _ Hi). lia. Qed.

Lemma live_of_free_run H L idx o :
  tiling H → coalesced H → live_of H L → free_run L idx o →
  ∃ i p, H !! i = Some (p, SFree) ∧ o ≤ p.
Proof.
  intros HT Hco HL (Ho & Hi & Hin & Hd & Hno). eapply (free_run_block H idx); try done.
  intros f Hf Ha. apply (Hno f Hf). by eapply live_frame_alloc.
Qed.

(** ** Simulation, operation by operation *)

Lemma live_of_insert H H' L idx o u :
  live_of H L →
  (∀ i p v, H' !! i = Some (p, SAlloc v) ↔
     H !! i = Some (p, SAlloc v) ∨ (i = idx ∧ p = o ∧ v = u)) →
  H' !! idx = Some (o, SAlloc u) →
  live_of H' (<[idx := (o, u)]> L).
Proof.
  intros HL Hal Hidx i p v. rewrite lookup_insert_Some, (HL i p v).
  destruct (decide (i = idx)) as [-> |Hne].
  - rewrite Hidx. split; [intros [[_ ?]|[? _]]; by simplify_eq|]. intros ?. left. by simplify_eq.
  - rewrite (Hal i p v). split; [intros [[? _]|[_ ?]]; [done|by left]|].
    intros [?|(? & _)]; [by right|done].
Qed.

Lemma live_of_delete H H' L idx :
  live_of H L →
  (∀ i p v, H' !! i = Some (p, SAlloc v) ↔ H !! i = Some (p, SAlloc v) ∧ i ≠ idx) →
  live_of H' (delete idx L).
Proof.
  intros HL Hal i p v. rewrite lookup_delete_Some, (HL i p v), (Hal i p v).
  intuition congruence.
Qed.

Lemma sim_alloc h H L o u :
  buddy_inv h H → live_of H L →
  wp (buddy_alloc o u) h (λ r h', ∃ L',
    pa_step L (PAlloc o u) r L' ∧ pa_rel h' L' ∧ contents_kept L h h').
Proof.
  intros HI HL. pose proof (bi_til _ _ (proj1 HI)) as HT.
  pose proof (bi_coal _ _ (proj1 HI)) as Hco.
  assert (HR : ∀ f, free_frame H f → 0 ≤ f < 16384 ∧ ¬ live_frame L f).
  { intros f Hf. split; [by eapply free_frame_bound|].
    intros Hl%(live_frame_alloc _ _ _ HL). by eapply free_not_alloc. }
  destruct (decide (0 ≤ o ≤ 14)) as [Ho|Ho].
  - eapply wp_mono; [by apply buddy_alloc_spec|].
    intros r h' [(-> & HI' & Hst & Hnone)|(idx & H' & -> & HI' & Hidx & Hfr & Hal & Hst)].
    + exists L. split_and!; [|by exists H|by eapply step_rel_contents].
      constructor. intros idx Hrun.
      destruct (live_of_free_run _ _ _ _ HT Hco HL Hrun) as (i & p & Hi & Hp).
      specialize (Hnone _ _ Hi). lia.
    + exists (<[idx := (o, u)]> L). split_and!; [|exists H'; split; [done|]|].
      * constructor. pose proof (til_ok _ (bi_til _ _ (proj1 HI')) _ _ _ Hidx).
        split_and!; try lia; [tauto|]. intros f Hf. by apply HR, Hfr.
      * by eapply live_of_insert.
      * by eapply step_rel_contents.
  - unfold buddy_alloc, MAX_ORDER. replace ((o <? 0) || (14 <? o)) with true by lia. wp_step.
    exists L. split_and!; [|by exists H|done]. constructor. by intros idx [? _].
Qed.

Lemma sim_release h H L o idx u h' H' :
  buddy_inv h H → live_of H L → H !! idx = Some (o, SAlloc u) →
  buddy_inv h' H' → free_post h H o idx h' H' →
  pa_rel h' (delete idx L) ∧ contents_kept (delete idx L) h h'.
Proof.
  intros HI HL Hi HI' Hpost. pose proof (bi_til _ _ (proj1 HI)) as HT.
  destruct Hpost as (_ & _ & Hal & Hst). split.
  - exists H'. split; [done|]. by eapply live_of_delete.
  - eapply step_rel_contents; [|exact Hst]. intros f Hf.
    pose proof (til_ok _ HT _ _ _ Hi) as (_ & ? & ? & _).
    split; [destruct Hf; [by eapply free_frame_bound|lia]|].
    intros (j & p & v & [Hne Hj]%lookup_delete_Some & Hg). apply HL in Hj.
    destruct Hf as [Hf|Hf]; [apply (free_not_alloc _ _ HT Hf); by exists j, p, v|].
    by destruct (til_same_frame _ _ _ _ _ _ _ _ HT Hi Hj Hf Hg).
Qed.

Lemma sim_free h H L o idx u :
  buddy_inv h H → live_of H L → L !! idx = Some (o, u) →
  wp (run_op (PFree idx o)) h (λ r h', ∃ L',
    pa_step L (PFree idx o) r L' ∧ pa_rel h' L' ∧ contents_kept L' h h').
Proof.
  intros HI HL Hi. pose proof (proj1 (HL _ _ _) Hi) as Hi'. simpl. wp_step.
  eapply wp_mono; [by eapply buddy_free_spec|]. intros [] h' (H' & HI' & Hpost). wp_step.
  exists (delete idx L). split; [by econstructor|]. by eapply sim_release.
Qed.

Lemma sim_munmap h H L addr :
  buddy_inv h H → live_of H L → 0 ≤ addr < 2 ^ 64 →
  wp (run_op (PMunmap addr)) h (λ r h', ∃ L',
    pa_step L (PMunmap addr) r L' ∧ pa_rel h' L' ∧ contents_kept L' h h').
Proof.
  intros HI HL Ha. simpl. eapply wp_mono; [by eapply munmap_user_spec|].
  intros r h' [(-> & Hno)|(idx & o & u & H' & -> & Hi & -> & HI' & Hpost)].
  - exists L. split_and!; [|by exists H|done]. constructor. intros idx o u Hi. apply HL in Hi. eauto.
  - exists (delete idx L). split; [apply (pa_munmap_hit _ _ o u); by apply HL|].
    by eapply sim_release.
Qed.

Lemma sim_munmap_all h H L :
  buddy_inv h H → live_of H L →
  wp (run_op PMunmapAll) h (λ r h', ∃ L',
    pa_step L PMunmapAll r L' ∧ pa_rel h' L' ∧ contents_kept L' h h').
Proof.
  intros HI HL. simpl. wp_step. eapply wp_mono; [by eapply munmap_all_user_spec|].
  intros [] h' (H' & HI' & Hal & Hst). wp_step.
  set (L' := kernel_blocks L). assert (HL' : live_of H' L').
  { intros i p v. unfold L', kernel_blocks. rewrite map_lookup_filter_Some, (HL i p v), (Hal i p v). done. }
  exists L'. split_and!; [constructor|by exists H'|].
  eapply step_rel_contents; [|exact Hst]. intros f [? Hf]. split; [done|].
  intros Hl. by apply Hf, (live_frame_alloc _ _ _ HL').
Qed.

(** Every legal operation returns and takes a step of the specification. *)
Lemma sim_op h L op :
  pa_rel h L → op_ok L op →
  wp (run_op op) h (λ r h', ∃ L', pa_step L op r L' ∧ pa_rel h' L' ∧
    ∀ a, stable L a → stable L' a → ld (h_mem h') a = ld (h_mem h) a).
Proof.
  intros (H & HI & HL) Hop. destruct op as [o u|idx o|addr|]; simpl in Hop.
  - eapply wp_mono; [by eapply sim_alloc|]. intros r h' (L' & ? & ? & Hc). exists L'.
    split_and!; eauto.
  - destruct Hop as [u Hop]. eapply wp_mono; [by eapply sim_free|].
    intros r h' (L' & ? & ? & Hc). exists L'. split_and!; eauto.
  - eapply wp_mono; [by eapply sim_munmap|]. intros r h' (L' & ? & ? & Hc). exists L'.
    split_and!; eauto.
  - eapply wp_mono; [by eapply sim_munmap_all|]. intros r h' (L' & ? & ? & Hc). exists L'.
    split_and!; eauto.
Qed.

(** ** Reachable states *)

(** What a client writes down about its blocks from the results alone: an address
    other than 0 is a block of the order asked for, a block given back is gone. *)
Definition noted (L : pa_state) (op : pa_op) (r : Z) : pa_state :=
  match op with
  | PAlloc order user => if r =? 0 then L else <[addr_to_frame r := (order, user)]> L
  | PFree idx _ => delete idx L
  | PMunmap addr => filter (λ x : Z * (Z * bool), frame_to_addr x.1 ≠ addr) L
  | PMunmapAll => kernel_blocks L
  end.

(** Runs of the code, with the client's notes beside them. *)
Inductive reach : heap → pa_state → Prop :=
  | reach_init h0 h :
      h_memlock h0 = false → memory_init h0 = Some (tt, h) → reach h ∅
  | reach_step h L op r h' :
      reach h L → op_ok L op → run_op op h = Some (r, h') → reach h' (noted L op r).

Lemma frame_to_addr_inj i j :
  0 ≤ i < 16384 → 0 ≤ j < 16384 → frame_to_addr i = frame_to_addr j → i = j.
Proof. intros Hi Hj. rewrite !frame_of_range by done. by intros ?%(inj fa). Qed.

Lemma frame_to_addr_nonnull i : 0 ≤ i < 16384 → frame_to_addr i ≠ 0.
Proof. intros Hi. rewrite frame_of_range by done. unfold fa, HEAP_PHYS. lia. Qed.

Lemma free_run_bound L idx o : free_run L idx o → 0 ≤ idx < 16384.
Proof. intros (Ho & ? & ? & _). pose proof (pow2_pos o). lia. Qed.

(** The notes are the next state of the specification. *)
Lemma pa_step_noted L op r L' :
  (∀ i o u, L !! i = Some (o, u) → 0 ≤ i < 16384) → pa_step L op r L' → L' = noted L op r.
Proof.
  intros Hwf Hs. destruct Hs as [order user idx Hf|order user Hno|idx order user Hi|idx o u Hi|addr r Hno|]; simpl; try done.
  - pose proof (free_run_bound _ _ _ Hf). rewrite (proj2 (Z.eqb_neq _ _)) by (by apply frame_to_addr_nonnull).
    by rewrite addr_frame_roundtrip by (rewrite FRAME_COUNT_val; lia).
  - apply map_eq. intros j. destruct (decide (j = idx)) as [-> |Hne].
    + rewrite lookup_delete_eq. symmetry. apply map_lookup_filter_None. right. by intros x _ [].
    + rewrite lookup_delete_ne by done. destruct (L !! j) as [[p v]|] eqn:Ej.
      * symmetry. apply map_lookup_filter_Some. split; [done|]. simpl. intros E. apply Hne. symmetry.
        symmetry. apply frame_to_addr_inj; eauto.
      * symmetry. apply map_lookup_filter_None. by left.
  - symmetry. apply map_filter_id. intros i [o u] Hi. simpl. intros E. by apply (Hno i o u Hi).
Qed.

Lemma pa_rel_bound h L i o u : pa_rel h L → L !! i = Some (o, u) → 0 ≤ i < 16384.
Proof.
  intros (H & HI & HL) Hi. eapply (til_head_bound _ (bi_til _ _ (proj1 HI))), HL, Hi.
Qed.

Lemma reach_rel h L : reach h L → pa_rel h L.
Proof.
  induction 1 as [h0 h Hlk Hrun|h L op r h' _ IH Hop Hrun].
  - destruct (memory_init_spec h0 Hlk) as ([] & h1 & Hrun' & HI & _).
    rewrite Hrun in Hrun'. injection Hrun' as <-. exists empty_tiling. split; [done|].
    intros i o u. rewrite lookup_empty, empty_tiling_lookup. split; [done|]. by intros (_ & _ & ?).
  - destruct (sim_op _ _ _ IH Hop) as (r1 & h1 & Hrun' & L1 & Hstep' & Hrel & _).
    rewrite Hrun in Hrun'. injection Hrun' as <- <-.
    rewrite <- (pa_step_noted _ _ _ _ (λ i o u, pa_rel_bound h L i o u IH) Hstep'). done.
Qed.

Lemma reach_pa_step h L op r h' L' :
  reach h L → op_ok L op → run_op op h = Some (r, h') → pa_step L op r L' → reach h' L'.
Proof.
  intros HR Hop Hrun Hs. rewrite (pa_step_noted L op r L'); [by eapply reach_step| |done].
  intros i o u. apply pa_rel_bound with h. by apply reach_rel.
Qed.

(** ** Page counts and [mmap_user] *)

Lemma order_of_pages_spec h pages :
  1 ≤ pages ≤ 2 ^ 52 →
  wp (order_of_pages pages) h (λ o h', h' = h ∧ 0 ≤ o ≤ 52 ∧ pages ≤ 2 ^ o ∧
    (0 < o → 2 ^ (o - 1) < pages)).
Proof.
  intros Hp. unfold order_of_pages.
  eapply (wp_loop (λ o h', h' = h ∧ 0 ≤ o ≤ 52 ∧ (0 < o → 2 ^ (o - 1) < pages))
    (λ o _, Z.to_nat (52 - o))); [|split_and!; done || lia|lia].
  intros o ? (-> & Ho & Hlow). rewrite Z.shiftl_1_l, u64_small.
  2:{ split; [apply Z.pow_nonneg; lia|]. apply Z.pow_lt_mono_r; lia. }
  destruct (Z.ltb_spec (2 ^ o) pages) as [Hlt|Hge]; wp_step; [|tauto].
  assert (o < 52).
  { destruct (decide (o = 52)) as [-> |]; [|lia]. lia. }
  split_and!; try done; try lia. intros _. by replace (o + 1 - 1) with o by lia.
Qed.

Lemma zero_bytes_spec h a n :
  0 ≤ n → wp (zero_bytes a (8 * n)) h (λ _ h', ∃ m, h' = set_mem m h ∧
    (∀ i, 0 ≤ i < n → ld m (a + 8 * i) = 0) ∧
    (∀ b, (∀ i, 0 ≤ i < n → b ≠ a + 8 * i) → ld m b = ld (h_mem h) b)).
Proof.
  intros Hn. unfold zero_bytes. rewrite (Z.mul_comm 8 n), Z.div_mul by lia.
  eapply wp_mono; [apply (wp_for_up (λ k h', ∃ m, h' = set_mem m h ∧
    (∀ i, 0 ≤ i < k → ld m (a + 8 * i) = 0) ∧
    (∀ b, (∀ i, 0 ≤ i < k → b ≠ a + 8 * i) → ld m b = ld (h_mem h) b)))|].
  - exists (h_mem h). split_and!; [by destruct h|lia|done].
  - intros k ? Hk (m & -> & Hz & Ho). apply wp_store. eexists. split; [reflexivity|].
    cbn [h_mem set_mem]. split.
    + intros i Hi. rewrite ld_st. case_decide; [done|]. apply Hz. lia.
    + intros b Hb. rewrite ld_st_ne; [|intros <-; apply (Hb k); lia].
      apply Ho. intros i Hi. apply Hb. lia.
  - intros [] ? (m & -> & Hz & Ho). rewrite Z.add_0_l, Z2Nat.id in Hz, Ho by done. by exists m.
Qed.

(** ** Writing to allocated frames

    The invariant reads memory only at the first two words of free frames, so
    whoever owns a block may write to it. *)
Lemma buddy_inv_mem h H m :
  buddy_inv h H →
  (∀ f, free_frame H f → ld m (fa f) = ld (h_mem h) (fa f) ∧
     ld m (fa f + 8) = ld (h_mem h) (fa f + 8)) →
  buddy_inv (set_mem m h) H.
Proof.
  intros [[HT Hco HL Hhd Hin] Hlk] Hm. split; [|done]. split; try done.
  intros o Ho. destruct (HL o Ho) as (l & Hnd & Hl & Hd). exists l. split_and!; [done..|].
  assert (Hf : ∀ x, x ∈ fa <$> l → ∃ f, x = fa f ∧ free_frame H f).
  { intros x (f & -> & Hf%Hl)%list_elem_of_fmap. exists f. split; [done|]. exists f, o.
    split; [done|]. pose proof (pow2_pos o). lia. }
  eapply dll_ext; [..|exact Hd]; intros x (f & -> & ?%Hm)%Hf; simpl; tauto.
Qed.

Lemma stable_in L f a : live_frame L f → fa f ≤ a < fa f + 4096 → stable L a.
Proof.
  intros Hf Ha g Hg Hga. assert (g = f) as -> by (unfold fa in *; lia). done.
Qed.

Lemma pa_rel_mem h L m :
  pa_rel h L → (∀ a, ¬ stable L a → ld m a = ld (h_mem h) a) → pa_rel (set_mem m h) L.
Proof.
  intros (H & HI & HL) Hm. exists H. split; [|done]. apply buddy_inv_mem; [done|].
  intros f Hf. pose proof (bi_til _ _ (proj1 HI)) as HT.
  pose proof (free_frame_bound _ _ HT Hf) as Hb.
  assert (¬ live_frame L f) as Hn.
  { intros Hg%(live_frame_alloc _ _ _ HL). by eapply free_not_alloc. }
  split; apply Hm; intros Hs; apply Hn, Hs; (done || lia).
Qed.

(** A write to a word the allocator does not use. *)
Lemma pa_rel_store h L a v :
  pa_rel h L → stable L a → pa_rel (set_mem (st (h_mem h) a v) h) L.
Proof.
  intros HR Ha. apply pa_rel_mem; [done|]. intros b Hb. apply ld_st_ne. by intros ->.
Qed.

(** The variables the page allocator does not own. *)
Lemma pa_rel_objects h L v : pa_rel h L → pa_rel (set_pcpu_objects v h) L.
Proof. intros (H & [HI Hl] & HL). exists H. split; [|done]. split; [by destruct HI|done]. Qed.

Lemma pa_rel_caches h L v : pa_rel h L → pa_rel (set_caches v h) L.
Proof. intros (H & [HI Hl] & HL). exists H. split; [|done]. split; [by destruct HI|done]. Qed.

Lemma pa_rel_pool h L v : pa_rel h L → pa_rel (set_pcpu_pages v h) L.
Proof. intros (H & [HI Hl] & HL). exists H. split; [|done]. split; [by destruct HI|done]. Qed.

Lemma mmap_zero_step h L idx o pages :
  pa_rel h L → L !! idx = Some (o, true) → 1 ≤ pages ≤ 2 ^ o →
  wp (zero_bytes (frame_to_addr idx) (u64 (pages * FRAME_SIZE))) h (λ _ h',
    pa_rel h' L ∧ (∀ i, 0 ≤ i < 512 * pages → ld (h_mem h') (frame_to_addr idx + 8 * i) = 0) ∧
    contents_kept (delete idx L) h h').
Proof.
  intros HR Hi Hp. assert (HR' := HR). destruct HR' as (H & HI & HL).
  pose proof (bi_til _ _ (proj1 HI)) as HT. apply HL in Hi as Hi'.
  pose proof (til_ok _ HT _ _ _ Hi') as (Ho & Hi0 & Hin & _).
  assert (2 ^ o ≤ 2 ^ 14) by (apply Z.pow_le_mono_r; lia). change (2 ^ 14) with 16384 in *.
  rewrite u64_small by (unfold FRAME_SIZE; lia). unfold FRAME_SIZE.
  replace (pages * 4096) with (8 * (512 * pages)) by lia.
  rewrite frame_of_range by lia.
  assert (Hblk : ∀ i, 0 ≤ i < 512 * pages → ∃ f, idx ≤ f < idx + 2 ^ o ∧
    fa f ≤ fa idx + 8 * i < fa f + 4096).
  { intros i Hr. exists (idx + i / 512). unfold fa, HEAP_PHYS.
    pose proof (Z.div_mod i 512 ltac:(lia)). pose proof (Z.mod_pos_bound i 512 ltac:(lia)). lia. }
  eapply wp_mono; [apply zero_bytes_spec; lia|]. intros [] ? (m & -> & Hz & Hout).
  split_and!; [|done|].
  - apply pa_rel_mem; [done|]. intros a Ha. apply Hout. intros i Hr ->.
    destruct (Hblk i Hr) as (f & Hf & Hfa). apply Ha. eapply stable_in; [|done].
    by exists idx, o, true.
  - intros a Ha. apply Hout. intros i Hr ->.
    destruct (Hblk i Hr) as (g & Hgi & Hga).
    destruct (Ha g ltac:(lia) Hga) as (j & p & v & [Hne Hj]%lookup_delete_Some & Hg).
    apply HL in Hj. by destruct (til_same_frame _ _ _ _ _ _ _ _ HT Hi' Hj Hgi Hg).
Qed.

(** The result of a successful [mmap_user]. *)
Definition mmap_post (h : heap) (L : pa_state) (length r : Z) (h' : heap) : Prop :=
  ∃ idx o, r = frame_to_addr idx ∧ free_run L idx o ∧
    pa_rel h' (<[idx := (o, true)]> L) ∧
    length ≤ 4096 * 2 ^ o ∧ (0 < o → 4096 * 2 ^ (o - 1) < length) ∧
    (∀ i, 0 ≤ i → 8 * i < length → ld (h_mem h') (r + 8 * i) = 0) ∧
    contents_kept L h h'.

Lemma contents_kept_trans L L' h h' h'' :
  (∀ f, live_frame L f → live_frame L' f) →
  contents_kept L h h' → contents_kept L' h' h'' → contents_kept L h h''.
Proof.
  intros Hsub H1 H2 a Ha. rewrite (H2 a), (H1 a); [done..|].
  intros f Hf Hr. apply Hsub, (Ha f Hf Hr).
Qed.

(** A run that is free for a large order is free for a smaller one, and no
    block starts in it. *)
Lemma free_run_smaller L idx o p : free_run L idx p → 0 ≤ o ≤ p → free_run L idx o.
Proof.
  intros (Hp & Hi & Hin & Hd & Hno) Ho.
  assert (2 ^ o ≤ 2 ^ p) by (apply Z.pow_le_mono_r; lia). split_and!; try lia.
  - apply (Z.divide_trans _ (2 ^ p)); [|done]. by apply pow2_divide.
  - intros f Hf. apply Hno. lia.
Qed.

Lemma free_run_fresh L h idx o p v :
  pa_rel h L → free_run L idx o → L !! idx = Some (p, v) → False.
Proof.
  intros (H & HI & HL) (Ho & _ & _ & _ & Hno) Hi.
  pose proof (til_ok _ (bi_til _ _ (proj1 HI)) _ _ _ (proj1 (HL _ _ _) Hi)) as (Hp & _).
  pose proof (pow2_pos o ltac:(lia)). pose proof (pow2_pos p ltac:(lia)).
  apply (Hno idx); [lia|]. exists idx, p, v. split; [done|lia].
Qed.

Lemma mmap_user_spec h L length :
  pa_rel h L → 0 ≤ length → length + 4095 < 2 ^ 64 →
  wp (mmap_user length) h (λ r h',
    (r = 0 ∧ pa_rel h' L ∧ contents_kept L h h' ∧
     ∀ idx o, length ≤ 4096 * 2 ^ o → ¬ free_run L idx o) ∨ mmap_post h L length r h').
Proof.
  intros HR Hl0 Hl. unfold mmap_user. rewrite u64_small by (unfold FRAME_SIZE; lia).
  set (q := (length + FRAME_SIZE - 1) / FRAME_SIZE).
  set (pages := if q =? 0 then 1 else q).
  assert (Hpg : 1 ≤ pages ≤ 2 ^ 52 ∧ length ≤ 4096 * pages ∧
    (1 < pages → 4096 * (pages - 1) < length)).
  { unfold pages, q, FRAME_SIZE in *.
    pose proof (Z.div_mod (length + 4096 - 1) 4096 ltac:(lia)).
    pose proof (Z.mod_pos_bound (length + 4096 - 1) 4096 ltac:(lia)).
    destruct (Z.eqb_spec ((length + 4096 - 1) / 4096) 0); lia. }
  clearbody pages. destruct Hpg as (Hp & Hcov & Hmin).
  wp_step. eapply wp_mono; [by apply order_of_pages_spec|]. intros o _ (-> & Ho & Hpo & Hpm).
  wp_step. assert (HR' := HR). destruct HR' as (H & HI & HL).
  eapply wp_mono; [by eapply sim_alloc|]. intros r h1 (L1 & Hstep & HR1 & Hc1).
  inversion Hstep as [? ? idx Hrun| ? ? Hnone | | | | ]; subst.
  - pose proof (free_run_bound _ _ _ Hrun) as Hb.
    pose proof (frame_to_addr_nonnull idx Hb) as Hnz. rewrite (proj2 (nz_spec _) Hnz).
    wp_step. eapply wp_mono; [apply (mmap_zero_step h1 (<[idx := (o, true)]> L) idx o); [done|apply lookup_insert_eq|lia]|].
    intros [] h2 (HR2 & Hz & Hc2). wp_step. right. exists idx, o. split_and!; try done.
    + lia.
    + intros Ho'. specialize (Hpm Ho'). lia.
    + intros i Hi Hil. apply Hz. lia.
    + eapply (contents_kept_trans L); [|exact Hc1|exact Hc2].
      intros f (j & p & v & Hj & Hf). exists j, p, v. split; [|done].
      apply lookup_delete_Some. split; [|rewrite lookup_insert_ne; [done|]];
        intros <-; eapply (free_run_fresh L); eauto.
  - change (nz 0) with false. cbv iota. wp_step. wp_step. wp_step.
    left. split_and!; try done. intros idx p Hlp Hrun.
    apply (Hnone idx). eapply (free_run_smaller _ _ _ p); [done|split; [lia|]].
    destruct (Z.le_gt_cases o p) as [|Hgt]; [done|].
    assert (Hrp : 0 ≤ p) by (destruct Hrun; lia).
    assert (2 ^ p ≤ 2 ^ (o - 1)) by (apply Z.pow_le_mono_r; lia).
    assert (Ho' : 0 < o) by lia. specialize (Hpm Ho'). pose proof (pow2_pos p Hrp). lia.
Qed.

(** ** A booted kernel *)

Definition empty_heap : heap := mkHeap ∅ ∅ ∅ ∅ [] ∅ false 0 0.

Definition boot_heap : heap :=
  match memory_init empty_heap with Some (_, h) => h | None => empty_heap end.

Lemma boot_run : memory_init empty_heap = Some (tt, boot_heap).
Proof.
  destruct (memory_init_spec empty_heap eq_refl) as ([] & h & E & _).
  unfold boot_heap. by rewrite E.
Qed.

Lemma boot_reach : reach boot_heap ∅.
Proof. apply (reach_init empty_heap); [reflexivity|apply boot_run]. Qed.

(** One block of order 3 taken after boot. *)
Lemma boot_alloc : ∃ h i, reach h (<[i := (3, true)]> ∅).
Proof.
  destruct (sim_op boot_heap ∅ (PAlloc 3 true) (reach_rel _ _ boot_reach) I)
    as (r & h & Hrun & L' & Hs & _ & _).
  inversion Hs as [? ? idx Hf| ? ? Hno | | | | ]; subst.
  - exists h, idx. by eapply (reach_pa_step boot_heap ∅ (PAlloc 3 true) _ _ _ boot_reach I Hrun).
  - exfalso. apply (Hno 0). split_and!; [lia..|apply Z.divide_0_r|].
    intros f _ (i & o & u & Hi & _). by rewrite lookup_empty in Hi.
Qed.

(** ** The properties *)

(** C1: in every state reachable from [memory_init] by the page operations,
    every legal call of [buddy_alloc], [buddy_free], [munmap_user] and
    [munmap_all_user] returns, takes a step of the abstract specification (a
    block is handed out exactly when an aligned run of frames of that order is
    free, and then none of its frames was live), leads to a reachable state and
    leaves every word outside the heap and of the blocks that stay live
    unchanged. *)
Theorem page_ops_refine h L op :
  reach h L → op_ok L op →
  ∃ r h' L', run_op op h = Some (r, h') ∧ pa_step L op r L' ∧ reach h' L' ∧
    ∀ a, stable L a → stable L' a → ld (h_mem h') a = ld (h_mem h) a.
Proof.
  intros HR Hop. destruct (sim_op _ _ _ (reach_rel _ _ HR) Hop) as (r & h' & Hrun & L' & Hs & _ & Hc).
  exists r, h', L'. split_and!; try done. by eapply reach_pa_step.
Qed.

Lemma page_ops_refine_witness :
  ∃ r h' L', run_op (PAlloc 3 true) boot_heap = Some (r, h') ∧
    pa_step ∅ (PAlloc 3 true) r L' ∧ reach h' L'.
Proof.
  destruct (page_ops_refine boot_heap ∅ (PAlloc 3 true) boot_reach I) as (r & h' & L' & ? & ? & ? & _).
  exists r, h', L'. split_and!; assumption.
Defined.

(** C2: after any sequence of calls of the page allocator whose callers give back only
    what they have, the blocks that were handed out and not given back lie inside the
    heap, are aligned to their size, and no two of them share a frame; and whatever
    [buddy_alloc] returns next, if not 0, shares no frame with any of them. *)
Theorem live_blocks_disjoint h L :
  reach h L →
  (∀ i o u, L !! i = Some (o, u) →
     0 ≤ o ≤ MAX_ORDER ∧ 0 ≤ i ∧ i + 2 ^ o ≤ FRAME_COUNT ∧ (2 ^ o | i)) ∧
  (∀ i o u j p v, L !! i = Some (o, u) → L !! j = Some (p, v) → i ≠ j →
     i + 2 ^ o ≤ j ∨ j + 2 ^ p ≤ i) ∧
  (∀ o u r h', buddy_alloc o u h = Some (r, h') → r ≠ 0 → ∀ j p v, L !! j = Some (p, v) →
     r + 4096 * 2 ^ o ≤ frame_to_addr j ∨ frame_to_addr j + 4096 * 2 ^ p ≤ r).
Proof.
  intros HR. pose proof (reach_rel _ _ HR) as HP. destruct (reach_rel _ _ HR) as (H & HI & HL).
  pose proof (bi_til _ _ (proj1 HI)) as HT. rewrite FRAME_COUNT_val. split_and!.
  - intros i o u Hi%HL. by apply (til_ok _ HT _ _ _ Hi).
  - intros i o u j p v Hi%HL Hj%HL Hne.
    destruct (Z.lt_ge_cases i j); [left; by eapply til_disj|right].
    eapply til_disj; [done..|lia].
  - intros o u r h' Hrun Hr j p v Hj. destruct (sim_alloc h H L o u HI HL) as (r1 & h1 & Hrun1 & L1 & Hs & _).
    rewrite Hrun in Hrun1. injection Hrun1 as <- <-. inversion Hs as [? ? idx Hf| | | | |]; subst; [|done].
    pose proof (free_run_bound _ _ _ Hf). pose proof (pa_rel_bound _ _ _ _ _ HP Hj) as Hjb.
    rewrite !frame_of_range by lia. unfold fa. destruct Hf as (Ho & _ & _ & _ & Hno). pose proof (pow2_pos o ltac:(lia)).
    apply HL in Hj. pose proof (til_ok _ HT _ _ _ Hj) as (Hp & _). pose proof (pow2_pos p ltac:(lia)).
    apply HL in Hj. destruct (Z.le_gt_cases (idx + 2 ^ o) j); [left; lia|].
    destruct (Z.le_gt_cases (j + 2 ^ p) idx); [right; lia|]. exfalso.
    apply (Hno (Z.max idx j)); [lia|]. exists j, p, v. split; [done|lia].
Qed.

Lemma live_blocks_disjoint_witness :
  ∃ h i, reach h (<[i := (3, true)]> ∅) ∧ i + 2 ^ 3 ≤ FRAME_COUNT.
Proof.
  destruct boot_alloc as (h & i & HR). exists h, i. split; [assumption|].
  apply (proj1 (live_blocks_disjoint h _ HR) i 3 true), lookup_insert_eq.
Defined.

(** When every block has been given back, however the heap was split on
    the way, all of it is one block again: [buddy_alloc] of the largest order
    returns the start of the heap. *)
Theorem heap_coalesces h user :
  reach h ∅ → ∃ h', buddy_alloc MAX_ORDER user h = Some (HEAP_PHYS, h').
Proof.
  intros HR. destruct (reach_rel _ _ HR) as (H & HI & HL).
  assert (HH : H = empty_tiling).
  { apply all_free_single; [apply HI..|]. intros i o u Hi%HL. by rewrite lookup_empty in Hi. }
  destruct (buddy_alloc_spec h H MAX_ORDER user HI) as (r & h' & Hrun & Hpost);
    [unfold MAX_ORDER; lia|].
  exists h'. rewrite Hrun. do 2 f_equal.
  destruct Hpost as [(_ & _ & _ & Hno)|(idx & H' & -> & HI' & Hidx & _)].
  - exfalso. specialize (Hno 0 14). rewrite HH in Hno. specialize (Hno eq_refl).
    unfold MAX_ORDER in Hno. lia.
  - pose proof (til_ok _ (bi_til _ _ (proj1 HI')) _ _ _ Hidx) as (_ & ? & Hin & _).
    change (2 ^ MAX_ORDER) with 16384 in Hin. assert (idx = 0) as -> by lia. reflexivity.
Qed.

Lemma heap_coalesces_witness :
  ∃ h', buddy_alloc MAX_ORDER false boot_heap = Some (HEAP_PHYS, h').
Proof. apply (heap_coalesces boot_heap false boot_reach). Defined.

(** [mmap_user] returns; it fails only when no run of frames large enough
    is free, and otherwise hands out the smallest block that holds the length,
    every word of the requested range zero, without touching any live block. *)
Theorem mmap_user_zeroed h L length :
  reach h L → 0 ≤ length → length + 4095 < 2 ^ 64 →
  ∃ r h', mmap_user length h = Some (r, h') ∧
    ((r = 0 ∧ pa_rel h' L ∧ ∀ idx o, length ≤ 4096 * 2 ^ o → ¬ free_run L idx o) ∨
     mmap_post h L length r h').
Proof.
  intros HR Hl0 Hl. destruct (mmap_user_spec _ _ _ (reach_rel _ _ HR) Hl0 Hl)
    as (r & h' & Hrun & Hpost).
  exists r, h'. split; [done|]. destruct Hpost as [(? & ? & _ & ?)|?]; [left|right]; done.
Qed.

Lemma mmap_user_zeroed_witness :
  ∃ r h', mmap_user 10000 boot_heap = Some (r, h').
Proof.
  destruct (mmap_user_zeroed boot_heap ∅ 10000 boot_reach) as (r & h' & ? & _); [lia..|].
  exists r, h'. assumption.
Defined.

(** The page count of [mmap_user] wraps around: a request within 4095 bytes
    of the end of the address space is served like a request of one byte. *)
Theorem mmap_user_wraps length :
  2 ^ 64 - 4095 ≤ length < 2 ^ 64 → mmap_user length = mmap_user 1.
Proof.
  intros Hl. unfold mmap_user.
  replace (u64 (length + FRAME_SIZE - 1) / FRAME_SIZE) with 0; [reflexivity|].
  unfold u64, FRAME_SIZE. replace (length + 4096 - 1) with (length + 4095 - 2 ^ 64 + 1 * 2 ^ 64) by lia.
  rewrite Z.mod_add, Z.mod_small, Z.div_small; lia.
Qed.

Lemma mmap_user_wraps_witness : mmap_user (2 ^ 64 - 1) = mmap_user 1.
Proof. apply (mmap_user_wraps (2 ^ 64 - 1)). lia. Defined.
