(* ===== verification/Slab.v ===== *)
(** * Slab: [kmalloc], [kfree] and the per-CPU pools of [OvsbMk/kernel/memory.c]

    The slab layer carves pages of the page allocator into objects of eight
    sizes; the per-CPU pools keep freed pages and objects at hand.  A slab page
    starts with a [slab_t] header of 48 bytes, laid out in memory as the
    compiler lays it out:
    [magic] and [in_use] in the word at offset 0, [total] at 8, [freelist] at
    16, [next] at 24, [prev] at 32 and [cache] at 40. *)

From Stdlib Require Import ZArith Lia.
From stdpp Require Import gmap list prelude.
From S2P Require Import Prelude KHeap Buddy.

(** ** Fields of [slab_t] *)

Definition get_magic (s : Z) : M heap Z := load32 s.
Definition set_magic (s v : Z) : M heap unit := store32 s v.
Definition get_in_use (s : Z) : M heap Z := load32 (s + 4).
Definition set_in_use (s v : Z) : M heap unit := store32 (s + 4) v.
Definition set_total (s v : Z) : M heap unit :=
  let! w := load (s + 8) in store (s + 8) (Z.lor (Z.shiftl (Z.shiftr w 16) 16) (u16 v)).
Definition get_freelist (s : Z) : M heap Z := load (s + 16).
Definition set_freelist (s v : Z) : M heap unit := store (s + 16) v.
Definition get_next (s : Z) : M heap Z := load (s + 24).
Definition set_next (s v : Z) : M heap unit := store (s + 24) v.
Definition get_prev (s : Z) : M heap Z := load (s + 32).
Definition set_prev (s v : Z) : M heap unit := store (s + 32) v.
Definition get_cache (s : Z) : M heap Z := load (s + 40).
Definition set_cache (s v : Z) : M heap unit := store (s + 40) v.

(** The page an address lies in: [addr & ~(FRAME_SIZE - 1)].  The constant is a
    32-bit unsigned one, so that the mask clears the upper half as well. *)
Definition page_of (addr : Z) : Z := Z.land addr 0xFFFFF000.

(** ** [kmalloc_caches] and the pools *)

Definition cache_at (c : Z) : M heap kmem_cache :=
  assert_ (in_array (c - 1) CACHE_COUNT) ;!
  gets (λ h, default (mkCache 0 0 0 0) (h_caches h !! (c - 1))).
Definition set_slabs (c v : Z) : M heap unit :=
  let! k := cache_at c in
  modify (λ h, set_caches
    (<[c - 1 := mkCache (obj_size k) v (obj_per_slab k) (cache_id k)]> (h_caches h)) h).

Definition objects_of (id : Z) : M heap (list Z) :=
  assert_ (in_array id CACHE_COUNT) ;! gets (λ h, default [] (h_pcpu_objects h !! id)).
Definition set_objects (id : Z) (l : list Z) : M heap unit :=
  assert_ (in_array id CACHE_COUNT) ;!
  modify (λ h, set_pcpu_objects (<[id := l]> (h_pcpu_objects h)) h).

(** ** Slabs *)

(** The first slab of the list with a free object, or [NULL]. *)
Definition find_slab (s : Z) : M heap Z :=
  loop (Z.to_nat FRAME_COUNT + 1) (λ s,
    if nz s then
      let! fl := get_freelist s in
      if nz fl then ret (inr s) else let! n := get_next s in ret (inl n)
    else ret (inr 0)) s.

(** [obj = s->freelist; s->freelist = *(void ** )obj;] *)
Definition pop_object (s : Z) : M heap Z :=
  let! obj := get_freelist s in
  let! nxt := load obj in
  set_freelist s nxt ;!
  ret obj.

(** [while (data + obj_size <= end)]: thread the objects of a fresh slab. *)
Definition carve (size end_ data : Z) : M heap (Z * Z) :=
  loop 257 (λ '(data, head, count),
    if data + size <=? end_ then
      store data head ;! ret (inl (data + size, data, count + 1))
    else ret (inr (head, count))) (data, 0, 0).

Definition slab_alloc (cache : Z) : M heap Z :=
  if negb (nz cache) then ret 0 else
  let! k := cache_at cache in
  let! s := find_slab (slabs k) in
  if nz s then
    let! obj := pop_object s in
    let! n := get_in_use s in
    set_in_use s (n + 1) ;!
    ret obj
  else
  let! page := buddy_alloc 0 false in
  if negb (nz page) then ret 0 else
  let s := page in
  set_magic s SLAB_MAGIC ;!
  set_in_use s 0 ;!
  let! k := cache_at cache in
  set_total s (obj_per_slab k) ;!
  set_cache s cache ;!
  set_next s (slabs k) ;!
  set_prev s 0 ;!
  (if nz (slabs k) then set_prev (slabs k) s else skip) ;!
  set_slabs cache s ;!
  let! r := carve (obj_size k) (s + FRAME_SIZE) (s + SIZEOF_SLAB) in
  let '(head, count) := r in
  set_freelist s head ;!
  set_total s count ;!
  let! obj := pop_object s in
  set_in_use s 1 ;!
  ret obj.

(** Unlink an empty slab and give its page back. *)
Definition release_slab (s cache : Z) : M heap unit :=
  let! next := get_next s in
  (if nz next then let! p := get_prev s in set_prev next p else skip) ;!
  let! prev := get_prev s in
  (if nz prev then let! n := get_next s in set_next prev n
   else if nz cache then let! n := get_next s in set_slabs cache n else skip) ;!
  buddy_free s 0.

(** [*(void ** )ptr = s->freelist; s->freelist = ptr; s->in_use--;] *)
Definition push_object (s ptr : Z) : M heap unit :=
  let! fl := get_freelist s in
  store ptr fl ;!
  set_freelist s ptr ;!
  let! n := get_in_use s in
  set_in_use s (n - 1).

Definition slab_free (ptr : Z) : M heap unit :=
  if negb (nz ptr) then skip else
  let s := page_of ptr in
  let! mg := get_magic s in
  if negb (mg =? SLAB_MAGIC) then skip else
  push_object s ptr ;!
  let! n := get_in_use s in
  if n =? 0 then let! cache := get_cache s in release_slab s cache else skip.

(** ** Per-CPU pools *)

Definition pcpu_page_alloc : M heap Z :=
  let! pool := gets h_pcpu_pages in
  match pool with
  | p :: pool' => modify (set_pcpu_pages pool') ;! ret p
  | [] => buddy_alloc 0 false
  end.

Definition pcpu_page_free (p : Z) : M heap unit :=
  let! pool := gets h_pcpu_pages in
  if Z.of_nat (length pool) <? PCPU_PAGE_POOL then modify (set_pcpu_pages (p :: pool))
  else buddy_free p 0.

(** The refill loop of [pcpu_slab_alloc]: up to [want] more objects of slab [s]. *)
Definition refill (id s : Z) : M heap unit :=
  loop 9 (λ want,
    if 0 <? want then
      let! fl := get_freelist s in
      if nz fl then
        let! extra := pop_object s in
        let! n := get_in_use s in
        set_in_use s (n + 1) ;!
        let! objs := objects_of id in
        if Z.of_nat (length objs) <? PCPU_OBJ_CACHE then
          set_objects id (extra :: objs) ;! ret (inl (want - 1))
        else ret (inr tt)
      else ret (inr tt)
    else ret (inr tt)) PCPU_OBJ_REFILL.

Definition pcpu_slab_alloc (cache : Z) : M heap Z :=
  let! k := cache_at cache in
  let id := cache_id k in
  let! objs := objects_of id in
  match objs with
  | o :: objs' => set_objects id objs' ;! ret o
  | [] =>
      let! obj := slab_alloc cache in
      if negb (nz obj) then ret 0 else
      refill id (page_of obj) ;!
      ret obj
  end.

(** Put one object back on the free list of its slab, releasing the slab when
    it was the last one out. *)
Definition return_object (ptr s : Z) : M heap unit :=
  push_object s ptr ;!
  let! n := get_in_use s in
  if n =? 0 then let! cache := get_cache s in release_slab s cache else skip.

(** [while (pcpu_objects\[id\].count > 0)]: empty the pool of a cache. *)
Definition drain (id : Z) : M heap unit :=
  loop 17 (λ _ : unit,
    let! objs := objects_of id in
    match objs with
    | [] => ret (inr tt)
    | obj :: objs' =>
        set_objects id objs' ;!
        return_object obj (page_of obj) ;!
        ret (inl tt)
    end) tt.

Definition pcpu_slab_free (ptr s : Z) : M heap unit :=
  let! cache := get_cache s in
  let! k := cache_at cache in
  let id := cache_id k in
  let! objs := objects_of id in
  if Z.of_nat (length objs) <? PCPU_OBJ_CACHE then set_objects id (ptr :: objs) else
  drain id ;!
  push_object s ptr ;!
  let! n := get_in_use s in
  if n =? 0 then release_slab s cache else skip.

(** ** The kernel allocator *)

(** The index of the first cache whose objects hold [size] bytes, or -1. *)
Definition find_cache (size : Z) : M heap Z :=
  loop 9 (λ i,
    if i <? CACHE_COUNT then
      let! k := cache_at (i + 1) in
      if size <=? obj_size k then ret (inr i) else ret (inl (i + 1))
    else ret (inr (-1))) 0.

Definition kmalloc (size : Z) : M heap Z :=
  if size =? 0 then ret 0 else
  let size := if size <? 16 then 16 else size in
  if 2048 <=? size then
    let pages := u64 (size + FRAME_SIZE - 1) / FRAME_SIZE in
    let! order := order_of_pages pages in
    if order =? 0 then pcpu_page_alloc else buddy_alloc order false
  else
  let! i := find_cache size in
  if i <? 0 then ret 0 else pcpu_slab_alloc (i + 1).

Definition kfree (ptr : Z) : M heap unit :=
  if negb (nz ptr) then skip else
  if (ptr <? HEAP_PHYS) || (HEAP_PHYS + HEAP_SIZE <=? ptr) then skip else
  let s := page_of ptr in
  let! mg := get_magic s in
  if mg =? SLAB_MAGIC then
    let! cache := get_cache s in
    if nz cache then pcpu_slab_free ptr s else slab_free ptr
  else
  if nz (Z.land ptr (FRAME_SIZE - 1)) then skip else
  let idx := addr_to_frame ptr in
  if FRAME_COUNT <=? idx then skip else
  let! f := frame_get idx in
  if Z.land f FRAME_ALLOC =? 0 then skip else
  let order := Z.land f FRAME_ORDER in
  if order =? 0 then pcpu_page_free ptr else buddy_free ptr order.

Definition kcalloc (count size : Z) : M heap Z :=
  let total := u64 (count * size) in
  let! p := kmalloc total in
  if negb (nz p) then ret 0 else
  let! alloc_size :=
    (if total <? 2048 then
       let! i := find_cache total in
       if i <? 0 then ret total else let! k := cache_at (i + 1) in ret (obj_size k)
     else
       let pages := u64 (total + FRAME_SIZE - 1) / FRAME_SIZE in
       let! order := order_of_pages pages in
       ret (u64 (u64 (Z.shiftl 1 order) * FRAME_SIZE))) in
  zero_bytes p alloc_size ;!
  ret p.

(** [page_alloc] and [page_free], the allocator of page tables. *)
Definition page_alloc : M heap Z := pcpu_page_alloc.
Definition page_free (p : Z) : M heap unit := pcpu_page_free p.
