(* ===== verification/SlabInv.v ===== *)
(** * SlabInv: the invariant of the slab allocator

    A cache is a list of slabs; a slab is a page of the page allocator, carved
    into objects of one size.  Every object of every slab is in exactly one place:
    on the free list of its slab, in the pool of the cache, or with a caller
    ([live]).  The pages of the page pool and the slabs are blocks of the page
    allocator that no caller holds. *)

From Stdlib Require Import ZArith Lia.
From stdpp Require Import gmap list prelude.
From S2P Require Import Prelude KHeap Buddy BuddyInv BuddyProof PageAlloc Slab.

(** ** Objects of a slab *)

(** The size of the objects of cache [c], and how many a slab has. *)
Definition sz (c : Z) : Z := 2 ^ (c + 4).
Definition per_slab (c : Z) : Z := 4048 / sz c.

Definition objs (c f : Z) : list Z := (λ i, fa f + 48 + sz c * i) <$> seqZ 0 (per_slab c).

Lemma sz_range c : 0 ≤ c < 8 → 16 ≤ sz c ≤ 2048.
Proof.
  intros Hc. unfold sz. change 16 with (2 ^ 4). change 2048 with (2 ^ 11).
  split; apply Z.pow_le_mono_r; lia.
Qed.

Lemma sz_lookup c : 0 ≤ c < 8 → cache_sizes !! Z.to_nat c = Some (sz c).
Proof.
  intros Hc. assert (c = 0 ∨ c = 1 ∨ c = 2 ∨ c = 3 ∨ c = 4 ∨ c = 5 ∨ c = 6 ∨ c = 7) as H by lia.
  by destruct H as [-> |[-> |[-> |[-> |[-> |[-> |[-> | ->]]]]]]].
Qed.

Lemma per_slab_range c : 0 ≤ c < 8 → 1 ≤ per_slab c ≤ 253 ∧ sz c * per_slab c ≤ 4048.
Proof.
  intros Hc. pose proof (sz_range c Hc). unfold per_slab. split; [split|].
  - apply Z.div_le_lower_bound; lia.
  - apply Z.div_le_upper_bound; lia.
  - apply Z.mul_div_le. lia.
Qed.

Lemma objs_length c f : 0 ≤ c < 8 → Z.of_nat (length (objs c f)) = per_slab c.
Proof. intros Hc. pose proof (per_slab_range c Hc). unfold objs. rewrite length_fmap, length_seqZ. lia. Qed.

Lemma objs_elem c f o : o ∈ objs c f ↔ ∃ i, o = fa f + 48 + sz c * i ∧ 0 ≤ i < per_slab c.
Proof.
  unfold objs. rewrite list_elem_of_fmap. split; intros (i & -> & Hi); exists i; (split; [done|]);
    apply elem_of_seqZ in Hi || apply elem_of_seqZ; lia.
Qed.

Lemma objs_bound c f o : 0 ≤ c < 8 → o ∈ objs c f → fa f + 48 ≤ o ∧ o + sz c ≤ fa f + 4096.
Proof.
  intros Hc (i & -> & Hi)%objs_elem. pose proof (sz_range c Hc). pose proof (per_slab_range c Hc) as [_ Hp].
  assert (sz c * (i + 1) ≤ sz c * per_slab c) by (apply Z.mul_le_mono_nonneg_l; lia). nia.
Qed.

Lemma objs_apart c f o o' a :
  0 ≤ c < 8 → o ∈ objs c f → o' ∈ objs c f → o ≤ a < o + sz c → o' ≤ a < o' + sz c → o = o'.
Proof.
  intros Hc (i & -> & Hi)%objs_elem (j & -> & Hj)%objs_elem Ha Ha'. pose proof (sz_range c Hc).
  assert (i = j) as ->; [|done]. nia.
Qed.

Lemma objs_nodup c f : 0 ≤ c < 8 → NoDup (objs c f).
Proof.
  intros Hc. pose proof (sz_range c Hc). apply (NoDup_fmap_2_strong _); [|apply NoDup_seqZ].
  intros i j _ _ E. nia.
Qed.

Lemma objs_page c f g o : 0 ≤ c < 8 → o ∈ objs c f → fa g ≤ o < fa g + 4096 → g = f.
Proof. intros Hc Ho. pose proof (objs_bound c f o Hc Ho). pose proof (sz_range c Hc). unfold fa in *. lia. Qed.

(** The slab of an object from its address. *)
Lemma page_of_in f r : 0 ≤ f < 16384 → 0 ≤ r < 4096 → page_of (fa f + r) = fa f.
Proof.
  intros Hf Hr. unfold page_of. change 0xFFFFF000 with (Z.shiftl (Z.ones 20) 12).
  assert (E : ∀ x y, Z.land x (Z.shiftl y 12) = Z.shiftl (Z.land (Z.shiftr x 12) y) 12).
  { intros x y. apply Z.bits_inj'. intros i Hi. rewrite Z.land_spec.
    destruct (Z.lt_ge_cases i 12); [rewrite !Z.shiftl_spec_low by lia; apply andb_false_r|].
    rewrite !Z.shiftl_spec, Z.land_spec, Z.shiftr_spec by lia. by replace (i - 12 + 12) with i by lia. }
  rewrite E, Z.land_ones, Z.shiftr_div_pow2, Z.shiftl_mul_pow2 by lia. unfold fa, HEAP_PHYS.
  replace (0xA00000 + 4096 * f + r) with (r + (2560 + f) * 2 ^ 12) by lia.
  rewrite Z.div_add, Z.div_small, Z.mod_small by lia. lia.
Qed.

Lemma page_of_obj c f o : 0 ≤ c < 8 → 0 ≤ f < 16384 → o ∈ objs c f → page_of o = fa f.
Proof.
  intros Hc Hf Ho. pose proof (objs_bound c f o Hc Ho). pose proof (sz_range c Hc).
  replace o with (fa f + (o - fa f)) by lia. apply page_of_in; lia.
Qed.

(** ** A slab in memory *)

(** The free list: each object's first word is the next one. *)
Fixpoint chain (m : gmap Z Z) (h : Z) (F : list Z) : Prop :=
  match F with [] => h = 0 | o :: F' => h = o ∧ chain m (ld m o) F' end.

Lemma chain_ext m m' h F : (∀ o, o ∈ F → ld m' o = ld m o) → chain m h F → chain m' h F.
Proof.
  revert h. induction F as [|o F IH]; intros h He; [done|]. simpl. intros [-> Hc]. split; [done|].
  rewrite He by left. apply IH; [|done]. intros x Hx. apply He. by right.
Qed.

Abbreviation magic := lo32.
Abbreviation in_use := hi32.

Record slab_page (m : gmap Z Z) (c f : Z) (F : list Z) : Prop := {
  sp_magic : magic m (fa f) = SLAB_MAGIC;
  sp_use : in_use m (fa f) = per_slab c - Z.of_nat (length F);
  sp_cache : ld m (fa f + 40) = c + 1;
  sp_free : chain m (ld m (fa f + 16)) F;
  sp_sub : F ⊆ objs c f }.

(** The links of the list of slabs are not part of it. *)
Lemma slab_page_ext m m' c f F :
  0 ≤ c < 8 → (∀ a, fa f ≤ a < fa f + 4096 → a ≠ fa f + 24 → a ≠ fa f + 32 → ld m' a = ld m a) →
  slab_page m c f F → slab_page m' c f F.
Proof.
  intros Hc He [H1 H2 H3 H4 H5]. unfold lo32, hi32 in *.
  split; unfold lo32, hi32; rewrite ?He by lia; try done.
  eapply chain_ext; [|exact H4]. intros o Ho. pose proof (objs_bound c f o Hc (H5 o Ho)).
  pose proof (sz_range c Hc). apply He; lia.
Qed.

Definition nx (m : gmap Z Z) (a : Z) : Z := ld m (a + 24).
Definition pv (m : gmap Z Z) (a : Z) : Z := ld m (a + 32).

(** ** The allocator's state *)

(** The slabs of a cache: their frames and free lists, in the order of the list. *)
Abbreviation slab_list := (list (Z * list Z)).

Definition all_objs (c : Z) (l : slab_list) : list Z := l ≫= λ x, objs c x.1.
Definition all_free (l : slab_list) : list Z := l ≫= snd.

(** What the invariant says beyond the page allocator's: [L] is the set of its
    live blocks. *)
Record slabs_ok (h : heap) (L : pa_state) (S : Z → slab_list) (live : Z → list Z) : Prop := {
  so_cache : ∀ c, 0 ≤ c < 8 → ∃ hd, h_caches h !! c = Some (mkCache (sz c) hd (per_slab c) c) ∧
    dll (nx (h_mem h)) (pv (h_mem h)) 0 hd (fa <$> (S c).*1);
  so_slab : ∀ c f F, 0 ≤ c < 8 → (f, F) ∈ S c → L !! f = Some (0, false) ∧ slab_page (h_mem h) c f F;
  so_nodup : ∀ c, 0 ≤ c < 8 → NoDup (S c).*1;
  so_apart : ∀ c c' f F F', 0 ≤ c < 8 → 0 ≤ c' < 8 → (f, F) ∈ S c → (f, F') ∈ S c' → c = c';
  so_objs : ∀ c, 0 ≤ c < 8 → ∃ P, h_pcpu_objects h !! c = Some P ∧ (length P ≤ 16)%nat ∧
    all_objs c (S c) ≡ₚ all_free (S c) ++ P ++ live c;
  so_nodup_pool : NoDup (h_pcpu_pages h);
  so_len_pool : (length (h_pcpu_pages h) ≤ 32)%nat;
  so_pool : ∀ p, p ∈ h_pcpu_pages h → ∃ f, p = fa f ∧ L !! f = Some (0, false) ∧
    ∀ c F, 0 ≤ c < 8 → (f, F) ∉ S c }.

Definition kinv (h : heap) (L : pa_state) (S : Z → slab_list) (live : Z → list Z) : Prop :=
  pa_rel h L ∧ slabs_ok h L S live.

(** The words of callers: in an object they hold, or in no slab and not on a free
    page. *)
Definition outside (L : pa_state) (S : Z → slab_list) (a : Z) : Prop :=
  stable L a ∧ ∀ c f F, 0 ≤ c < 8 → (f, F) ∈ S c → ¬ fa f ≤ a < fa f + 4096.
Definition safe (L : pa_state) (S : Z → slab_list) (live : Z → list Z) (a : Z) : Prop :=
  (∃ c o, 0 ≤ c < 8 ∧ o ∈ live c ∧ o ≤ a < o + sz c) ∨ outside L S a.

Definition slab_frame (S : Z → slab_list) (f : Z) : Prop := ∃ c F, 0 ≤ c < 8 ∧ (f, F) ∈ S c.

(** The blocks that are not slabs are the same. *)
Definition blocks_same (L : pa_state) (S : Z → slab_list) (L' : pa_state) (S' : Z → slab_list) : Prop :=
  ∀ g x, (L' !! g = Some x ∧ ¬ slab_frame S' g) ↔ (L !! g = Some x ∧ ¬ slab_frame S g).

Lemma blocks_same_frames L S S' : (∀ g, slab_frame S' g ↔ slab_frame S g) → blocks_same L S L S'.
Proof. intros He g x. by rewrite He. Qed.

(** *** Consequences *)

Section facts.
Context (h : heap) (L : pa_state) (S : Z → slab_list) (live : Z → list Z).
Context (HR : pa_rel h L) (HS : slabs_ok h L S live).

Lemma block_bound f o u : L !! f = Some (o, u) → 0 ≤ f < 16384.
Proof.
  intros Hf. destruct HR as (H & HI & HL). apply HL in Hf.
  pose proof (til_head_bound _ (bi_til _ _ (proj1 HI)) _ _ _ Hf). lia.
Qed.

Lemma slab_bound c f F : 0 ≤ c < 8 → (f, F) ∈ S c → 0 ≤ f < 16384.
Proof. intros Hc Hf. destruct (so_slab _ _ _ _ HS c f F Hc Hf) as [Hl _]. by eapply block_bound. Qed.

Lemma slab_stable c f F a : 0 ≤ c < 8 → (f, F) ∈ S c → fa f ≤ a < fa f + 4096 → stable L a.
Proof.
  intros Hc Hf Ha. destruct (so_slab _ _ _ _ HS c f F Hc Hf) as [Hl _].
  apply (stable_in L f); [|done]. exists f, 0, false. split; [done|]. simpl. lia.
Qed.

Lemma all_objs_elem c l o : o ∈ all_objs c l ↔ ∃ f F, (f, F) ∈ l ∧ o ∈ objs c f.
Proof.
  unfold all_objs. rewrite list_elem_of_bind. split.
  - intros ([f F] & Ho & Hl). by exists f, F.
  - intros (f & F & Hl & Ho). by exists (f, F).
Qed.

Lemma all_objs_nodup c : 0 ≤ c < 8 → NoDup (all_objs c (S c)).
Proof.
  intros Hc. pose proof (so_nodup _ _ _ _ HS c Hc) as Hnd. unfold all_objs.
  induction (S c) as [|[f F] l IH]; [constructor|]. cbn [fmap list_fmap fst] in Hnd.
  apply NoDup_cons in Hnd as [Hf Hnd]. rewrite bind_cons. apply NoDup_app. split_and!.
  - by apply objs_nodup.
  - intros o Ho Ho'. apply all_objs_elem in Ho' as (g & G & Hg & Ho'). simpl in Ho.
    pose proof (objs_bound c f o Hc Ho) as Hb. pose proof (sz_range c Hc).
    assert (f = g) as <- by (apply (objs_page c g f o Hc Ho'); lia).
    apply Hf, list_elem_of_fmap. by exists (f, G).
  - by apply IH.
Qed.

(** The places of the objects of a cache do not overlap. *)
Lemma places_nodup c P : 0 ≤ c < 8 → h_pcpu_objects h !! c = Some P → NoDup (all_free (S c) ++ P ++ live c).
Proof.
  intros Hc HP. destruct (so_objs _ _ _ _ HS c Hc) as (P' & HP' & _ & Hperm). simplify_eq.
  rewrite <- Hperm. by apply all_objs_nodup.
Qed.

Lemma live_slab c o : 0 ≤ c < 8 → o ∈ live c → ∃ f F, (f, F) ∈ S c ∧ o ∈ objs c f.
Proof.
  intros Hc Ho. destruct (so_objs _ _ _ _ HS c Hc) as (P & _ & _ & Hperm).
  apply all_objs_elem. rewrite Hperm. rewrite !elem_of_app. auto.
Qed.

Lemma all_free_elem l f F o : (f, F) ∈ l → o ∈ F → o ∈ all_free l.
Proof. intros Hf Ho. unfold all_free. apply list_elem_of_bind. by exists (f, F). Qed.

(** A word of a caller is neither in a header nor the link of an object of a slab
    that the caller does not hold. *)
Lemma safe_header c f F k a : safe L S live a → 0 ≤ c < 8 → (f, F) ∈ S c → 0 ≤ k < 48 → a ≠ fa f + k.
Proof.
  intros [(c' & o & Hc' & Ho & Ha)|[_ Hout]] Hc Hf Hk ->.
  - destruct (live_slab c' o Hc' Ho) as (g & G & Hg & Hog). pose proof (objs_bound c' g o Hc' Hog).
    pose proof (sz_range c' Hc'). unfold fa in *. lia.
  - apply (Hout c f F Hc Hf). lia.
Qed.

Lemma safe_object c f F o a :
  safe L S live a → 0 ≤ c < 8 → (f, F) ∈ S c → o ∈ objs c f → o ∉ live c → a ≠ o.
Proof.
  intros [(c' & o' & Hc' & Ho' & Ha)|[_ Hout]] Hc Hf Ho Hn ->.
  - destruct (live_slab c' o' Hc' Ho') as (g & G & Hg & Hog). pose proof (objs_bound c' g o' Hc' Hog).
    pose proof (objs_bound c f o Hc Ho). pose proof (sz_range c Hc).
    assert (g = f) as -> by (apply (objs_page c f g o Hc Ho); lia).
    assert (c' = c) as -> by (by eapply so_apart).
    apply Hn. by rewrite (objs_apart c f o o' o Hc Ho Hog) by lia.
  - apply (Hout c f F Hc Hf). pose proof (objs_bound c f o Hc Ho). pose proof (sz_range c Hc). lia.
Qed.

End facts.

(** ** Steps of the page allocator *)

Lemma alloc_block_spec h L o u :
  pa_rel h L →
  wp (buddy_alloc o u) h (λ r h', rest_same h h' ∧ contents_kept L h h' ∧
    ((r = 0 ∧ pa_rel h' L ∧ ∀ idx, ¬ free_run L idx o) ∨
     ∃ f, r = fa f ∧ free_run L f o ∧ pa_rel h' (<[f := (o, u)]> L))).
Proof.
  intros HR. eapply wp_mono; [apply (wp_and _ _ (λ _ h', rest_same h h'))|].
  - destruct HR as (H & HI & HL). destruct (decide (0 ≤ o ≤ 14)) as [Ho|Ho].
    + eapply wp_mono; [by apply buddy_alloc_spec|].
      intros r h' [(_ & _ & [_ Hr] & _)|(idx & H' & _ & _ & _ & _ & _ & [_ Hr])]; done.
    + unfold buddy_alloc, MAX_ORDER. replace ((o <? 0) || (14 <? o)) with true by lia. by wp_step.
  - destruct HR as (H & HI & HL). by apply sim_alloc with (L := L) (H := H).
  - intros r h' [Hr (L' & Hstep & HR' & Hc)]. split; [done|]. split; [done|].
    inversion Hstep as [? ? idx Hrun| ? ? Hnone | | | | ]; subst; [right|by left].
    exists idx. split_and!; [|done|done]. apply frame_of_range, (free_run_bound _ _ _ Hrun).
Qed.

Lemma free_block_spec h L f o u :
  pa_rel h L → L !! f = Some (o, u) →
  wp (buddy_free (fa f) o) h (λ _ h', rest_same h h' ∧ pa_rel h' (delete f L) ∧ contents_kept (delete f L) h h').
Proof.
  intros (H & HI & HL) Hf. pose proof (proj1 (HL _ _ _) Hf) as Hf'.
  pose proof (til_head_bound _ (bi_til _ _ (proj1 HI)) _ _ _ Hf') as Hb.
  rewrite <- frame_of_range by lia. eapply wp_mono; [by eapply buddy_free_spec|].
  intros [] h' (H' & HI' & Hpost). split; [by destruct Hpost as (_ & _ & _ & _ & ?)|].
  by eapply (sim_release h H L o f u h' H').
Qed.

(** ** Changes of the state *)

Definition at_cache {A} (S : Z → A) (c : Z) (x : A) : Z → A := λ c', if decide (c' = c) then x else S c'.

Lemma at_cache_eq {A} (S : Z → A) c x : at_cache S c x c = x.
Proof. unfold at_cache. by rewrite decide_True. Qed.
Lemma at_cache_ne {A} (S : Z → A) c x c' : c' ≠ c → at_cache S c x c' = S c'.
Proof. intros. unfold at_cache. by rewrite decide_False. Qed.

(** The page allocator works elsewhere. *)
Lemma slabs_ok_frame h L S live h' L' :
  slabs_ok h L S live → rest_same h h' →
  (∀ f, L !! f = Some (0, false) → (∃ c F, 0 ≤ c < 8 ∧ (f, F) ∈ S c) ∨ fa f ∈ h_pcpu_pages h → L' !! f = Some (0, false)) →
  (∀ c f F a, 0 ≤ c < 8 → (f, F) ∈ S c → fa f ≤ a < fa f + 4096 → ld (h_mem h') a = ld (h_mem h) a) →
  slabs_ok h' L' S live.
Proof.
  intros HS (E1 & E2 & E3 & _) HL Hm. split; rewrite ?E1, ?E2, ?E3; try apply HS.
  - intros c Hc. destruct (so_cache _ _ _ _ HS c Hc) as (hd & Hhd & Hd). exists hd. split; [done|].
    eapply dll_ext; [| |exact Hd]; intros x (f & -> & Hf)%list_elem_of_fmap;
      apply list_elem_of_fmap in Hf as ([f' F] & -> & Hf); unfold nx, pv; simpl; apply (Hm c f' F); (done || unfold fa; lia).
  - intros c f F Hc Hf. destruct (so_slab _ _ _ _ HS c f F Hc Hf) as [Hl Hp]. split; [by apply HL; [|left; exists c, F]|].
    eapply slab_page_ext; [done| |exact Hp]. intros a Ha _ _. by apply (Hm c f F).
  - intros p Hp. destruct (so_pool _ _ _ _ HS p Hp) as (f & -> & Hl & Hn). exists f. split_and!; [done| |done].
    apply HL; [done|by right].
Qed.

Section touch.
Context (h : heap) (L : pa_state) (S : Z → slab_list) (live : Z → list Z).
Context (HR : pa_rel h L) (HS : slabs_ok h L S live).
Context (c : Z) (Hc : 0 ≤ c < 8) (l1 l2 : slab_list) (f : Z) (F F' : list Z).
Context (HSc : S c = l1 ++ (f, F) :: l2).

Lemma touch_fst : (at_cache S c (l1 ++ (f, F') :: l2) c).*1 = (S c).*1.
Proof. rewrite at_cache_eq, HSc, !fmap_app. done. Qed.

Lemma touch_elem c' g G : (g, G) ∈ at_cache S c (l1 ++ (f, F') :: l2) c' → ∃ G0, (g, G0) ∈ S c'.
Proof.
  destruct (decide (c' = c)) as [-> |Hne]; [|rewrite at_cache_ne by done; by exists G].
  intros Hin. assert (Hg : g ∈ (S c).*1) by (rewrite <- touch_fst; apply list_elem_of_fmap; by exists (g, G)).
  apply list_elem_of_fmap in Hg as ([g' G0] & -> & ?). by exists G0.
Qed.

Lemma touch_here : (f, F) ∈ S c.
Proof. rewrite HSc. apply elem_of_app. right. left. Qed.

(** The slab [f] is the only one on its page. *)
Lemma touch_other c' g G : 0 ≤ c' < 8 → (g, G) ∈ at_cache S c (l1 ++ (f, F') :: l2) c' →
  (c' = c ∧ g = f ∧ G = F') ∨ (g ≠ f ∧ (g, G) ∈ S c').
Proof.
  intros Hc' Hin. destruct (decide (c' = c)) as [-> |Hne].
  - rewrite at_cache_eq in Hin. pose proof (so_nodup _ _ _ _ HS c Hc) as Hnd. rewrite HSc, fmap_app in Hnd. simpl in Hnd.
    apply NoDup_app in Hnd as (_ & Hn1 & Hnd). apply NoDup_cons in Hnd as [Hn2 _].
    rewrite HSc. apply elem_of_app in Hin as [Hin|Hin]; [|apply elem_of_cons in Hin as [[= -> ->]|Hin]; [by left|]].
    + right. split; [|apply elem_of_app; by left]. intros ->. apply (Hn1 f); [|left]. apply list_elem_of_fmap. by exists (f, G).
    + right. split; [|apply elem_of_app; right; by right]. intros ->. apply Hn2. apply list_elem_of_fmap. by exists (f, G).
  - rewrite at_cache_ne in Hin by done. right. split; [|done]. intros ->.
    apply Hne. eapply (so_apart _ _ _ _ HS c' c f); [done|done|done|apply touch_here].
Qed.

(** One slab's free list and the pool of its cache change; memory changes on the
    slab's page only, its links excepted. *)
Lemma slabs_ok_touch m' P P' live' :
  h_pcpu_objects h !! c = Some P →
  (∀ a, ¬ fa f ≤ a < fa f + 4096 → ld m' a = ld (h_mem h) a) →
  ld m' (fa f + 24) = ld (h_mem h) (fa f + 24) → ld m' (fa f + 32) = ld (h_mem h) (fa f + 32) →
  slab_page m' c f F' → F' ++ P' ++ live' c ≡ₚ F ++ P ++ live c → (length P' ≤ 16)%nat →
  (∀ c', c' ≠ c → live' c' = live c') →
  slabs_ok (set_pcpu_objects (<[c := P']> (h_pcpu_objects h)) (set_mem m' h)) L
    (at_cache S c (l1 ++ (f, F') :: l2)) live'.
Proof.
  intros HP Hout Hn Hp Hpg Hperm HlP Hlive. split; cbn [h_caches h_mem h_pcpu_objects h_pcpu_pages set_pcpu_objects set_mem].
  - intros c' Hc'. destruct (so_cache _ _ _ _ HS c' Hc') as (hd & Hhd & Hd). exists hd. split; [done|].
    assert (Hfst : (at_cache S c (l1 ++ (f, F') :: l2) c').*1 = (S c').*1).
    { destruct (decide (c' = c)) as [-> |]; [apply touch_fst|by rewrite at_cache_ne]. }
    rewrite Hfst. eapply dll_ext; [| |exact Hd]; intros x (g & -> & Hg)%list_elem_of_fmap; unfold nx, pv;
      (destruct (decide (g = f)) as [-> |Hne]; [done|]); apply Hout; unfold fa; lia.
  - intros c' g G Hc' [(-> & -> & ->)|[Hne Hg]]%touch_other; [| |done].
    + split; [|done]. apply (so_slab _ _ _ _ HS c f F Hc touch_here).
    + destruct (so_slab _ _ _ _ HS c' g G Hc' Hg) as [Hl Hgp]. split; [done|].
      eapply slab_page_ext; [done| |exact Hgp]. intros a Ha _ _. apply Hout. unfold fa in *. lia.
  - intros c' Hc'. destruct (decide (c' = c)) as [-> |]; [rewrite touch_fst|rewrite at_cache_ne by done]; by apply (so_nodup _ _ _ _ HS).
  - intros c1 c2 g G1 G2 Hc1 Hc2 [G1' H1]%touch_elem [G2' H2]%touch_elem. by eapply (so_apart _ _ _ _ HS).
  - intros c' Hc'. destruct (decide (c' = c)) as [-> |Hne].
    + exists P'. rewrite lookup_insert_eq, at_cache_eq. split_and!; [done|done|].
      destruct (so_objs _ _ _ _ HS c Hc) as (P0 & HP0 & _ & Hob). simplify_eq. rewrite HSc in Hob.
      unfold all_objs, all_free in *. rewrite !bind_app, !bind_cons in *. simpl in *.
      rewrite Hob. rewrite <- !app_assoc. apply Permutation_app_head.
      rewrite !(Permutation_app_swap_app _ (l2 ≫= snd)). apply Permutation_app_head. by symmetry.
    + rewrite lookup_insert_ne, at_cache_ne, Hlive by done. by apply (so_objs _ _ _ _ HS).
  - apply HS.
  - apply HS.
  - intros p Hpp. destruct (so_pool _ _ _ _ HS p Hpp) as (g & -> & Hl & Hng). exists g. split_and!; [done|done|].
    intros c' G Hc' [G0 HG]%touch_elem. by apply (Hng c' G0).
Qed.

End touch.

(** The pool and the callers exchange objects. *)
Lemma slabs_ok_pool h L S live c P P' live' :
  slabs_ok h L S live → 0 ≤ c < 8 → h_pcpu_objects h !! c = Some P → P' ++ live' c ≡ₚ P ++ live c →
  (length P' ≤ 16)%nat → (∀ c', c' ≠ c → live' c' = live c') →
  slabs_ok (set_pcpu_objects (<[c := P']> (h_pcpu_objects h)) h) L S live'.
Proof.
  intros HS Hc HP Hperm HlP Hlive. split; try apply HS.
  intros c' Hc'. cbn [h_pcpu_objects set_pcpu_objects]. destruct (decide (c' = c)) as [-> |Hne].
  - exists P'. rewrite lookup_insert_eq. split_and!; [done|done|].
    destruct (so_objs _ _ _ _ HS c Hc) as (P0 & HP0 & _ & Hob). simplify_eq. by rewrite Hob, Hperm.
  - rewrite lookup_insert_ne, Hlive by done. by apply (so_objs _ _ _ _ HS).
Qed.

(** A new slab [f] at the front of the list of cache [c]; its object [o] is with
    the caller. *)
Section fresh_slab.
Context (h : heap) (L : pa_state) (S : Z → slab_list) (live : Z → list Z) (HS : slabs_ok h L S live).
Context (c hd f : Z) (F : list Z) (o : Z) (m : gmap Z Z) (Hc : 0 ≤ c < 8).
Context (Hk : h_caches h !! c = Some (mkCache (sz c) hd (per_slab c) c)).
Context (Hd : dll (nx (h_mem h)) (pv (h_mem h)) 0 hd (fa <$> (S c).*1)).
Context (Hf : L !! f = Some (0, false)) (Hf0 : 0 ≤ f) (Hnew : ∀ c' G, 0 ≤ c' < 8 → (f, G) ∉ S c').
Context (Hnp : fa f ∉ h_pcpu_pages h).
Context (Hout : ∀ a, ¬ fa f ≤ a < fa f + 4096 → (hd ≠ 0 → a ≠ hd + 32) → ld m a = ld (h_mem h) a).
Context (Hhd : hd ≠ 0 → ld m (hd + 32) = fa f) (Hn : ld m (fa f + 24) = hd) (Hp : ld m (fa f + 32) = 0).
Context (Hpg : slab_page m c f F) (Hperm : objs c f ≡ₚ o :: F).

Lemma fresh_first : hd = 0 ∨ ∃ g G, hd = fa g ∧ (g, G) ∈ S c.
Proof.
  clear -Hd. destruct (S c) as [|[g G] l] eqn:E; [by left|]. destruct Hd as (-> & _). right. exists g, G. split; [done|left].
Qed.

(** The other slabs keep their words, the link to the new one apart. *)
Lemma fresh_word c' g G k :
  0 ≤ c' < 8 → (g, G) ∈ S c' → 0 ≤ k < 4096 → (k = 32 → hd = 0 ∨ fa g ≠ hd) →
  ld m (fa g + k) = ld (h_mem h) (fa g + k).
Proof.
  intros Hc' Hg Hk' H32. assert (g ≠ f) by (intros ->; by apply (Hnew c' G)). apply Hout; [unfold fa; lia|]. intros Hnz E.
  destruct fresh_first as [|(g' & G' & Eg & _)]; [done|]. rewrite Eg in *. unfold fa, HEAP_PHYS in *. destruct H32; lia.
Qed.

Lemma fresh_elem c' g G : (g, G) ∈ at_cache S c ((f, F) :: S c) c' → (c' = c ∧ g = f ∧ G = F) ∨ (g, G) ∈ S c'.
Proof.
  intros Hg. destruct (decide (c' = c)) as [-> |Hne]; [|rewrite at_cache_ne in Hg by done; by right].
  rewrite at_cache_eq in Hg. apply elem_of_cons in Hg as [[= -> ->]|Hg]; [by left|by right].
Qed.

Lemma fresh_nodup : NoDup (f :: (S c).*1).
Proof.
  apply NoDup_cons. split; [|by apply (so_nodup _ _ _ _ HS)].
  intros ([g G] & -> & Hg)%list_elem_of_fmap. by apply (Hnew c G).
Qed.

(** The list of the cache, and those of the others. *)
Lemma fresh_dll : dll (nx m) (pv m) 0 (fa f) (fa <$> f :: (S c).*1).
Proof.
  cbn [fmap list_fmap]. eapply (dll_push (nx (h_mem h)) (pv (h_mem h)) _ _ hd); [exact Hd| | |done|done| |].
  - pose proof fresh_nodup as Hnd. apply (NoDup_fmap_2 fa) in Hnd. exact Hnd.
  - unfold fa, HEAP_PHYS. lia.
  - intros y (g & -> & Hg)%list_elem_of_fmap. apply list_elem_of_fmap in Hg as ([g' G] & -> & Hg).
    unfold nx. apply (fresh_word c g' G 24); [done|done|lia|lia].
  - intros y Hy. pose proof (dll_nonnull _ _ _ _ _ y Hd Hy) as Hy0. unfold pv.
    case_decide as E; [rewrite E; apply Hhd; congruence|]. apply list_elem_of_fmap in Hy as (g & -> & Hg).
    apply list_elem_of_fmap in Hg as ([g' G] & -> & Hg). apply (fresh_word c g' G 32); [done|done|lia|by right].
Qed.

Lemma fresh_dll_other c' hd' :
  0 ≤ c' < 8 → c' ≠ c → dll (nx (h_mem h)) (pv (h_mem h)) 0 hd' (fa <$> (S c').*1) →
  dll (nx m) (pv m) 0 hd' (fa <$> (S c').*1).
Proof.
  intros Hc' Hne Hd'. eapply dll_ext; [| |exact Hd']; intros y (g & -> & Hg)%list_elem_of_fmap;
    apply list_elem_of_fmap in Hg as ([g' G] & -> & Hg); [apply (fresh_word c' g' G 24)|apply (fresh_word c' g' G 32)]; try done; try lia.
  intros _. destruct fresh_first as [|(g0 & G0 & Eg & Hg0)]; [by left|right]. rewrite Eg. intros E%fa_inj. simpl in E. subst g0.
  by apply Hne, (so_apart _ _ _ _ HS c' c g' G G0).
Qed.

Lemma slabs_ok_new :
  slabs_ok (set_caches (<[c := mkCache (sz c) (fa f) (per_slab c) c]> (h_caches h)) (set_mem m h)) L
    (at_cache S c ((f, F) :: S c)) (at_cache live c (o :: live c)).
Proof.
  split; cbn [h_caches h_mem h_pcpu_objects h_pcpu_pages set_caches set_mem].
  - intros c' Hc'. destruct (decide (c' = c)) as [-> |Hne].
    + exists (fa f). rewrite lookup_insert_eq, at_cache_eq. split; [done|apply fresh_dll].
    + rewrite lookup_insert_ne, at_cache_ne by done. destruct (so_cache _ _ _ _ HS c' Hc') as (hd' & Hhd' & Hd').
      exists hd'. split; [done|by apply fresh_dll_other].
  - intros c' g G Hc' [(-> & -> & ->)|Hg']%fresh_elem; [done|]. destruct (so_slab _ _ _ _ HS c' g G Hc' Hg') as [Hgl Hgp].
    split; [done|]. eapply slab_page_ext; [done| |exact Hgp]. intros a Ha _ H32.
    replace a with (fa g + (a - fa g)) by lia. apply (fresh_word c' g G); [done|done|lia|lia].
  - intros c' Hc'. destruct (decide (c' = c)) as [-> |]; [|rewrite at_cache_ne by done; by apply (so_nodup _ _ _ _ HS)].
    rewrite at_cache_eq. apply fresh_nodup.
  - intros c1 c2 g G1 G2 Hc1 Hc2 [(-> & -> & _)|H1]%fresh_elem [(-> & E & _)|H2]%fresh_elem; try done.
    + by destruct (Hnew c2 G2 Hc2).
    + subst g. by destruct (Hnew c1 G1 Hc1).
    + by eapply (so_apart _ _ _ _ HS).
  - intros c' Hc'. destruct (decide (c' = c)) as [-> |Hne]; [|rewrite !at_cache_ne by done; by apply (so_objs _ _ _ _ HS)].
    rewrite !at_cache_eq. destruct (so_objs _ _ _ _ HS c Hc) as (P & HP & HlP & Hob). exists P. split_and!; [done|done|].
    unfold all_objs, all_free in *. rewrite !bind_cons. simpl. rewrite Hob, Hperm, <- !app_assoc. simpl.
    rewrite <- !Permutation_middle. by rewrite !Permutation_middle.
  - apply HS.
  - apply HS.
  - intros p Hp'. destruct (so_pool _ _ _ _ HS p Hp') as (g & -> & Hgl & Hng). exists g. split_and!; [done|done|].
    intros c' G Hc' [(-> & -> & _)|Hg]%fresh_elem; [done|]. by apply (Hng c' G).
Qed.

End fresh_slab.

(** A slab [f] whose objects are all free leaves the list of cache [c]. *)
Section unlink.
Context (h : heap) (L : pa_state) (S : Z → slab_list) (live : Z → list Z).
Context (HR : pa_rel h L) (HS : slabs_ok h L S live).
Context (c : Z) (Hc : 0 ≤ c < 8) (l1 l2 : slab_list) (f : Z) (F : list Z).
Context (HSc : S c = l1 ++ (f, F) :: l2) (Hall : objs c f ≡ₚ F).
Context (m : gmap Z Z).

Abbreviation next := (nx (h_mem h) (fa f)).
Abbreviation prev := (pv (h_mem h) (fa f)).

Context (Hnx : ∀ c' g G, 0 ≤ c' < 8 → (g, G) ∈ S c' → g ≠ f →
  nx m (fa g) = if decide (fa g = prev) then next else nx (h_mem h) (fa g)).
Context (Hpv : ∀ c' g G, 0 ≤ c' < 8 → (g, G) ∈ S c' → g ≠ f →
  pv m (fa g) = if decide (fa g = next) then prev else pv (h_mem h) (fa g)).
Context (Hsame : ∀ c' g G a, 0 ≤ c' < 8 → (g, G) ∈ S c' → fa g ≤ a < fa g + 4096 →
  a ≠ fa g + 24 → a ≠ fa g + 32 → ld m a = ld (h_mem h) a).

Lemma unlink_elem c' g G : 0 ≤ c' < 8 → (g, G) ∈ at_cache S c (l1 ++ l2) c' → (g, G) ∈ S c' ∧ g ≠ f.
Proof.
  intros Hc' Hg. destruct (decide (c' = c)) as [-> |Hne].
  - rewrite at_cache_eq in Hg. rewrite HSc. split; [apply elem_of_app in Hg as [|]; apply elem_of_app; [by left|right; by right]|].
    pose proof (so_nodup _ _ _ _ HS c Hc) as Hnd. rewrite HSc, fmap_app in Hnd. simpl in Hnd.
    apply NoDup_app in Hnd as (_ & Hn1 & Hnd). apply NoDup_cons in Hnd as [Hn2 _]. intros ->.
    apply elem_of_app in Hg as [Hg|Hg]; [apply (Hn1 f); [|left]|apply Hn2]; apply list_elem_of_fmap; by exists (f, G).
  - rewrite at_cache_ne in Hg by done. split; [done|]. intros ->. apply Hne.
    apply (so_apart _ _ _ _ HS c' c f G F); [done|done|done|]. rewrite HSc. apply elem_of_app. right. left.
Qed.

(** The neighbours of [f] are slabs of its cache. *)
Lemma unlink_neighbour c' g G : 0 ≤ c' < 8 → (g, G) ∈ S c' → c' ≠ c → fa g ≠ prev ∧ fa g ≠ next.
Proof.
  intros Hc' Hg Hne. destruct (so_cache _ _ _ _ HS c Hc) as (hd & _ & Hd). rewrite HSc, fmap_app, fmap_app in Hd.
  assert (Hin : ∀ x, x ∈ fa <$> (l1 ++ l2).*1 → x ≠ fa g).
  { intros x (g' & -> & Hg')%list_elem_of_fmap E%fa_inj. subst g'.
    apply list_elem_of_fmap in Hg' as ([g' G'] & -> & Hg'). apply Hne, (so_apart _ _ _ _ HS c' c g' G G'); [done|done|done|].
    rewrite HSc. apply elem_of_app. apply elem_of_app in Hg' as [|]; [by left|right; by right]. }
  assert (Hz : fa g ≠ 0) by (pose proof (slab_bound h L S live HR HS c' g G Hc' Hg); unfold fa, HEAP_PHYS; lia).
  cbn [fmap list_fmap fst] in Hd. destruct (dll_mid _ _ _ _ _ _ _ Hd) as (Hp & Hn & _). rewrite !fmap_app in Hin. split.
  - rewrite Hp. destruct (last (fa <$> l1.*1)) as [x|] eqn:E; simpl; [|done]. apply not_eq_sym, Hin.
    apply elem_of_app. left. apply last_Some in E as [l' ->]. apply elem_of_app. right. left.
  - destruct l2 as [|[g2 G2] l2']; [unfold dll in Hn; simpl in Hn; by rewrite Hn|].
    destruct Hn as (-> & _). apply not_eq_sym, Hin. apply elem_of_app. right. left.
Qed.

Lemma unlink_dll hd :
  dll (nx (h_mem h)) (pv (h_mem h)) 0 hd (fa <$> (S c).*1) →
  dll (nx m) (pv m) 0 (if decide (l1 = []) then next else hd) (fa <$> (l1 ++ l2).*1).
Proof.
  intros Hd. rewrite HSc in Hd. rewrite !fmap_app in *. cbn [fmap list_fmap fst] in Hd.
  replace (if decide (l1 = []) then next else hd) with (if decide (fa <$> l1.*1 = []) then next else hd)
    by (by destruct l1).
  assert (Hel : ∀ y, y ∈ (fa <$> l1.*1) ++ (fa <$> l2.*1) → ∃ g G, y = fa g ∧ (g, G) ∈ S c ∧ g ≠ f).
  { intros y Hy. rewrite <- fmap_app, <- fmap_app in Hy. apply list_elem_of_fmap in Hy as (g & -> & Hg).
    apply list_elem_of_fmap in Hg as ([g' G] & -> & Hg). exists g', G. split; [done|].
    apply unlink_elem; [done|by rewrite at_cache_eq]. }
  apply (dll_unlink (nx (h_mem h)) (pv (h_mem h)) _ _ 0 hd _ (fa f)); [exact Hd| | |].
  - apply NoDup_cons. split.
    + intros Hin. by apply (dll_nonnull _ _ _ _ _ 0 Hd Hin).
    + pose proof (so_nodup _ _ _ _ HS c Hc) as Hnd. rewrite HSc, fmap_app in Hnd. apply (NoDup_fmap_2 fa) in Hnd.
      by rewrite fmap_app in Hnd.
  - intros y (g & G & -> & Hg & Hgf)%Hel. by apply (Hnx c g G).
  - intros y (g & G & -> & Hg & Hgf)%Hel. by apply (Hpv c g G).
Qed.

Lemma slabs_ok_unlink hd hd' :
  h_caches h !! c = Some (mkCache (sz c) hd (per_slab c) c) →
  hd' = (if decide (l1 = []) then next else hd) →
  slabs_ok (set_caches (<[c := mkCache (sz c) hd' (per_slab c) c]> (h_caches h)) (set_mem m h)) L
    (at_cache S c (l1 ++ l2)) live.
Proof.
  intros Hk ->. split; cbn [h_caches h_mem h_pcpu_objects h_pcpu_pages set_caches set_mem].
  - intros c' Hc'. destruct (so_cache _ _ _ _ HS c' Hc') as (hd' & Hhd' & Hd'). destruct (decide (c' = c)) as [-> |Hne].
    + rewrite lookup_insert_eq, at_cache_eq. simplify_eq. eexists. split; [done|]. by apply unlink_dll.
    + rewrite lookup_insert_ne, at_cache_ne by done. exists hd'. split; [done|].
      eapply dll_ext; [| |exact Hd']; intros x (g & -> & Hg)%list_elem_of_fmap;
        apply list_elem_of_fmap in Hg as ([g' G] & -> & Hg); simpl; destruct (unlink_neighbour c' g' G Hc' Hg Hne);
        (assert (g' ≠ f) by (apply (unlink_elem c' g' G Hc'); by rewrite at_cache_ne)).
      * by rewrite (Hnx c' g' G), decide_False.
      * by rewrite (Hpv c' g' G), decide_False.
  - intros c' g G Hc' Hg. destruct (unlink_elem c' g G Hc' Hg) as [Hg' Hgf].
    destruct (so_slab _ _ _ _ HS c' g G Hc' Hg') as [Hgl Hgp]. split; [done|].
    eapply slab_page_ext; [done| |exact Hgp]. intros a Ha H1 H2. by apply (Hsame c' g G).
  - intros c' Hc'. pose proof (so_nodup _ _ _ _ HS c' Hc') as Hnd. destruct (decide (c' = c)) as [-> |]; [|by rewrite at_cache_ne].
    rewrite at_cache_eq. rewrite HSc, fmap_app in Hnd. rewrite fmap_app. simpl in Hnd.
    rewrite <- Permutation_middle in Hnd. by apply NoDup_cons in Hnd as [_ ?].
  - intros c1 c2 g G1 G2 Hc1 Hc2 [H1 _]%unlink_elem [H2 _]%unlink_elem; try done. by eapply (so_apart _ _ _ _ HS).
  - intros c' Hc'. destruct (so_objs _ _ _ _ HS c' Hc') as (P & HP & HlP & Hob). exists P. split_and!; [done|done|].
    destruct (decide (c' = c)) as [-> |]; [|by rewrite at_cache_ne]. rewrite at_cache_eq. rewrite HSc in Hob.
    unfold all_objs, all_free in *. rewrite !bind_app, !bind_cons in *. simpl in *.
    rewrite Hall in Hob. rewrite !(Permutation_app_swap_app _ F), <- !app_assoc in Hob.
    rewrite <- !app_assoc. by apply Permutation_app_inv_l in Hob.
  - apply HS.
  - apply HS.
  - intros p Hp. destruct (so_pool _ _ _ _ HS p Hp) as (g & -> & Hgl & Hng). exists g. split_and!; [done|done|].
    intros c' G Hc' [Hg _]%unlink_elem; [|done]. by apply (Hng c' G).
Qed.

End unlink.
