(* ===== verification/SlabProof.v ===== *)
(** * SlabProof: [kmalloc] and [kfree] keep the invariant of [SlabInv]

    Each operation of [memory.c] on slabs and pools returns, keeps the invariant,
    moves exactly the objects it should, and writes no word of a caller. *)

From Stdlib Require Import ZArith Lia.
From stdpp Require Import gmap list prelude.
From S2P Require Import Prelude KHeap Buddy BuddyInv BuddyProof PageAlloc Slab SlabInv.

(** ** The header of a slab *)

Lemma fa_word f : fa f mod 8 = 0.
Proof.
  assert (H : fa f = (0x140000 + 512 * f) * 8) by (unfold fa, HEAP_PHYS; lia). rewrite H. by apply Z.mod_mul.
Qed.

Lemma wp_get_magic f h Q : Q (magic (h_mem h) (fa f)) h → wp (get_magic (fa f)) h Q.
Proof. apply wp_load32_lo, fa_word. Qed.

Lemma wp_set_magic f v h Q :
  Q tt (set_mem (st (h_mem h) (fa f) (with_lo (ld (h_mem h) (fa f)) v)) h) → wp (set_magic (fa f) v) h Q.
Proof. apply wp_store32_lo, fa_word. Qed.

Lemma wp_get_in_use f h Q : Q (in_use (h_mem h) (fa f)) h → wp (get_in_use (fa f)) h Q.
Proof. apply wp_load32_hi, fa_word. Qed.

Lemma wp_set_in_use f v h Q :
  Q tt (set_mem (st (h_mem h) (fa f) (with_hi (ld (h_mem h) (fa f)) v)) h) → wp (set_in_use (fa f) v) h Q.
Proof. apply wp_store32_hi, fa_word. Qed.

(** ** One object *)

Lemma sub_length c f F : 0 ≤ c < 8 → NoDup F → F ⊆ objs c f → Z.of_nat (length F) ≤ per_slab c.
Proof.
  intros Hc Hnd Hs. rewrite <- (objs_length c f Hc). apply Nat2Z.inj_le.
  apply submseteq_length, NoDup_submseteq; [done|]. intros x Hx. by apply Hs.
Qed.

Lemma obj_not_header c f o k : 0 ≤ c < 8 → o ∈ objs c f → k < 48 → o ≠ fa f + k.
Proof. intros Hc Ho Hk ->. pose proof (objs_bound c f _ Hc Ho). lia. Qed.

(** Take the first object of the free list of slab [f]. *)
Lemma wp_take {A} c f o F h (k : Z → M heap A) Q :
  0 ≤ c < 8 → slab_page (h_mem h) c f (o :: F) → NoDup (o :: F) →
  (∀ m', slab_page m' c f F → (∀ a, a ≠ fa f → a ≠ fa f + 16 → ld m' a = ld (h_mem h) a) →
    wp (k o) (set_mem m' h) Q) →
  wp (let! obj := pop_object (fa f) in let! n := get_in_use (fa f) in set_in_use (fa f) (n + 1) ;! k obj) h Q.
Proof.
  intros Hc [Hm Hu Hca Hch Hsub] Hnd HQ. destruct Hch as [Eo Hch]. simpl length in Hu.
  pose proof (sub_length c f (o :: F) Hc Hnd Hsub) as Hlen. pose proof (per_slab_range c Hc) as [Hper _]. simpl length in Hlen.
  unfold pop_object, get_freelist, set_freelist. wp_step. wp_step. apply wp_load. rewrite Eo.
  wp_step. apply wp_load. wp_step. apply wp_store. wp_step. wp_step. apply wp_get_in_use. wp_step. apply wp_set_in_use.
  cbn [h_mem set_mem]. unfold hi32. rewrite ld_st_ne by lia. fold (in_use (h_mem h) (fa f)). rewrite Hu.
  apply HQ.
  - split; unfold lo32, hi32; rewrite ?ld_st_eq; rewrite ?(ld_st_ne _ (fa f)) by lia.
    + by rewrite with_hi_low.
    + rewrite with_hi_high, u32_small by lia. lia.
    + by rewrite ld_st_ne by lia.
    + rewrite ld_st_eq. eapply chain_ext; [|exact Hch]. intros x Hx.
      assert (Hxo : x ∈ objs c f) by (apply Hsub; by right).
      pose proof (obj_not_header c f x 0 Hc Hxo). pose proof (obj_not_header c f x 16 Hc Hxo).
      rewrite !ld_st_ne by lia. done.
    + intros x Hx. apply Hsub. by right.
  - intros a H1 H2. by rewrite !ld_st_ne by lia.
Qed.

(** Put an object on the free list of slab [f]. *)
Lemma wp_push c f o F h Q :
  0 ≤ c < 8 → slab_page (h_mem h) c f F → NoDup (o :: F) → o ∈ objs c f →
  (∀ m', slab_page m' c f (o :: F) → (∀ a, a ≠ fa f → a ≠ fa f + 16 → a ≠ o → ld m' a = ld (h_mem h) a) →
    Q tt (set_mem m' h)) →
  wp (push_object (fa f) o) h Q.
Proof.
  intros Hc [Hm Hu Hca Hch Hsub] Hnd Ho HQ.
  assert (Hsub' : o :: F ⊆ objs c f) by (intros x [-> |Hx]%elem_of_cons; [done|by apply Hsub]).
  pose proof (sub_length c f (o :: F) Hc Hnd Hsub') as Hlen. pose proof (per_slab_range c Hc) as [Hper _]. simpl length in Hlen.
  pose proof (obj_not_header c f o 0 Hc Ho ltac:(lia)). pose proof (obj_not_header c f o 16 Hc Ho ltac:(lia)).
  pose proof (obj_not_header c f o 40 Hc Ho ltac:(lia)).
  unfold push_object, get_freelist, set_freelist. wp_step. apply wp_load. wp_step. apply wp_store.
  wp_step. apply wp_store. wp_step. apply wp_get_in_use. apply wp_set_in_use. cbn [h_mem set_mem].
  unfold hi32. rewrite !ld_st_ne by lia. fold (in_use (h_mem h) (fa f)). rewrite Hu.
  apply HQ.
  - split; unfold lo32, hi32; rewrite ?ld_st_eq; rewrite ?(ld_st_ne _ (fa f)) by lia.
    + by rewrite with_hi_low.
    + rewrite with_hi_high, u32_small by lia. simpl length. lia.
    + by rewrite !ld_st_ne by lia.
    + rewrite ld_st_eq. split; [done|]. rewrite (ld_st_ne _ (fa f)), (ld_st_ne _ (fa f + 16)), ld_st_eq by lia.
      eapply chain_ext; [|exact Hch]. intros x Hx. assert (Hxo : x ∈ objs c f) by (by apply Hsub).
      pose proof (obj_not_header c f x 0 Hc Hxo). pose proof (obj_not_header c f x 16 Hc Hxo).
      assert (x ≠ o) by (intros ->; by apply NoDup_cons in Hnd as [? _]). by rewrite !ld_st_ne by lia.
    + done.
  - intros a Ha1 Ha2 Ha3. by rewrite !ld_st_ne by lia.
Qed.

(** ** One object, in the allocator *)

Lemma objects_id h c P m :
  h_pcpu_objects h !! c = Some P → set_pcpu_objects (<[c := P]> (h_pcpu_objects h)) (set_mem m h) = set_mem m h.
Proof. intros HP. rewrite insert_id by done. by destruct h. Qed.

Lemma touch_pages h L S live c f F m' :
  pa_rel h L → slabs_ok h L S live → 0 ≤ c < 8 → (f, F) ∈ S c →
  (∀ a, ¬ fa f ≤ a < fa f + 4096 → ld m' a = ld (h_mem h) a) → pa_rel (set_mem m' h) L.
Proof.
  intros HR HS Hc Hf Hout. apply pa_rel_mem; [done|]. intros a Ha. apply Hout. intros Hin.
  by apply Ha, (slab_stable h L S live HS c f F).
Qed.

(** From a caller to the free list of slab [f]. *)
Lemma kinv_push h L S live c l1 f o F l2 rest m' :
  kinv h L S live → 0 ≤ c < 8 → S c = l1 ++ (f, F) :: l2 → live c ≡ₚ o :: rest → o ∈ objs c f → slab_page m' c f (o :: F) →
  (∀ a, a ≠ fa f → a ≠ fa f + 16 → a ≠ o → ld m' a = ld (h_mem h) a) →
  let S' := at_cache S c (l1 ++ (f, o :: F) :: l2) in let live' := at_cache live c rest in
  kinv (set_mem m' h) L S' live' ∧ (∀ a, safe L S' live' a → ld m' a = ld (h_mem h) a).
Proof.
  intros [HR HS] Hc HSc Hlive Ho Hpg Hm S' live'. destruct (so_objs _ _ _ _ HS c Hc) as (P & HP & HlP & _).
  assert (Hf : (f, F) ∈ S c) by (rewrite HSc; apply elem_of_app; right; left).
  pose proof (objs_bound c f o Hc Ho). pose proof (sz_range c Hc).
  assert (HS' : slabs_ok (set_mem m' h) L S' live').
  { rewrite <- (objects_id h c P m') by done. apply (slabs_ok_touch h L S live HS c Hc l1 l2 f F (o :: F) HSc m' P P); try done.
    - intros a Ha. apply Hm; lia.
    - apply Hm; lia.
    - apply Hm; lia.
    - unfold live'. rewrite at_cache_eq, Hlive. simpl. by rewrite <- !Permutation_middle.
    - intros c' Hne. unfold live'. by rewrite at_cache_ne. }
  assert (Hf' : (f, o :: F) ∈ S' c) by (unfold S'; rewrite at_cache_eq; apply elem_of_app; right; left).
  split; [split; [|done]|].
  - eapply touch_pages; [done|done|done|exact Hf|]. intros a Ha. apply Hm; lia.
  - intros a Ha. apply Hm.
    + replace (fa f) with (fa f + 0) by lia. by apply (safe_header _ L S' live' HS' c f (o :: F)).
    + by apply (safe_header _ L S' live' HS' c f (o :: F)).
    + apply (safe_object _ L S' live' HS' c f (o :: F)); try done. intros Hin.
      pose proof (places_nodup _ L S' live' HS' c P Hc HP) as Hnd.
      apply NoDup_app in Hnd as (_ & Hd & _). apply (Hd o); [by apply (all_free_elem _ f (o :: F)); [|left]|].
      apply elem_of_app. by right.
Qed.

(** ** Search *)

Lemma slab_count h L S live c : kinv h L S live → 0 ≤ c < 8 → Z.of_nat (length (S c)) ≤ 16384.
Proof.
  intros [HR HS] Hc. rewrite <- (length_fmap fst). transitivity (Z.of_nat (length (seqZ 0 16384))); [|by rewrite length_seqZ].
  apply Nat2Z.inj_le, submseteq_length, NoDup_submseteq; [by apply (so_nodup _ _ _ _ HS)|].
  intros f ([f' F] & -> & Hf)%list_elem_of_fmap. apply elem_of_seqZ. pose proof (slab_bound h L S live HR HS c f' F Hc Hf). simpl. lia.
Qed.

Lemma find_slab_run h L S live c hd :
  kinv h L S live → 0 ≤ c < 8 → dll (nx (h_mem h)) (pv (h_mem h)) 0 hd (fa <$> (S c).*1) →
  wp (find_slab hd) h (λ r h', h' = h ∧
    ((r = 0 ∧ ∀ x, x ∈ S c → x.2 = []) ∨
     ∃ l1 f o F l2, S c = l1 ++ (f, o :: F) :: l2 ∧ r = fa f ∧ r ≠ 0)).
Proof.
  intros HK Hc Hd. pose proof (slab_count h L S live c HK Hc) as Hcount. destruct HK as [HR HS].
  set (m := h_mem h) in *. set (sized := λ s (l2 : slab_list), ∃ p, dll (nx m) (pv m) p s (fa <$> l2.*1)).
  enough (Hgen : ∀ fuel l1 l2 s, S c = l1 ++ l2 → sized s l2 → (∀ x, x ∈ l1 → x.2 = []) → (length l2 < fuel)%nat →
    wp (loop fuel (λ s, if nz s then let! fl := get_freelist s in
      if nz fl then ret (inr s) else let! n := get_next s in ret (inl n) else ret (inr 0)) s) h (λ r h', h' = h ∧
      ((r = 0 ∧ ∀ x, x ∈ S c → x.2 = []) ∨ ∃ l1 f o F l2, S c = l1 ++ (f, o :: F) :: l2 ∧ r = fa f ∧ r ≠ 0))).
  { unfold find_slab. apply (Hgen _ [] (S c)); [done|by exists 0|by intros x ?%elem_of_nil|]. rewrite FRAME_COUNT_val. lia. }
  induction fuel as [|fuel IH]; intros l1 l2 s HSc [p Hs] Hl1 Hfuel; [lia|]. cbn [loop]. wp_step.
  destruct l2 as [|[f F] l2].
  - simpl in Hs. unfold dll in Hs. subst s. change (nz 0) with false. cbv iota. wp_step. wp_step. split; [done|]. left.
    split; [done|]. rewrite HSc, app_nil_r. done.
  - destruct Hs as (-> & Hnz & _ & Hs). rewrite (proj2 (nz_spec _) Hnz). unfold get_freelist, get_next.
    assert (Hf : (f, F) ∈ S c) by (rewrite HSc; apply elem_of_app; right; left).
    destruct (so_slab _ _ _ _ HS c f F Hc Hf) as [_ [_ _ _ Hch Hsub]].
    wp_step. apply wp_load. fold m. destruct F as [|o F].
    + simpl in Hch. fold m in Hch. simpl fst. rewrite Hch. change (nz 0) with false. cbv iota. wp_step. apply wp_load. wp_step.
      apply (IH (l1 ++ [(f, [])]) l2); [by rewrite <- app_assoc|by exists (fa f)| |simpl in Hfuel; lia].
      intros x [Hx|Hx%list_elem_of_singleton]%elem_of_app; [by apply Hl1|by subst].
    + destruct Hch as [Eo _]. fold m in Eo. simpl fst. rewrite Eo.
      assert (Ho : o ≠ 0). { pose proof (objs_bound c f o Hc (Hsub o ltac:(left))).
        pose proof (slab_bound h L S live HR HS c f (o :: F) Hc Hf). unfold fa, HEAP_PHYS in *. lia. }
      rewrite (proj2 (nz_spec _) Ho). wp_step. wp_step. split; [done|]. right. by exists l1, f, o, F, l2.
Qed.

(** ** Giving a slab back *)

Lemma safe_stable h L S live a : slabs_ok h L S live → safe L S live a → stable L a.
Proof.
  intros HS [(c & o & Hc & Ho & Ha)|[Hst _]]; [|done].
  destruct (live_slab h L S live HS c o Hc Ho) as (f & F & Hf & Hof).
  pose proof (objs_bound c f o Hc Hof). apply (slab_stable h L S live HS c f F); [done|done|lia].
Qed.

Lemma wp_cache_at c k h Q : 0 ≤ c < 8 → h_caches h !! c = Some k → Q k h → wp (cache_at (c + 1)) h Q.
Proof.
  intros Hc Hk HQ. unfold cache_at. replace (c + 1 - 1) with c by lia. wp_step.
  apply wp_assert; [by apply in_array_true|]. apply wp_gets. by rewrite Hk.
Qed.

Lemma wp_set_slabs c k v h Q :
  0 ≤ c < 8 → h_caches h !! c = Some k →
  Q tt (set_caches (<[c := mkCache (obj_size k) v (obj_per_slab k) (cache_id k)]> (h_caches h)) h) →
  wp (set_slabs (c + 1) v) h Q.
Proof.
  intros Hc Hk HQ. unfold set_slabs. wp_step. apply (wp_cache_at c k); [done|done|].
  apply wp_modify. by replace (c + 1 - 1) with c by lia.
Qed.

(** The links of a slab in the list of its cache. *)
Lemma slab_links h L S live c l1 f F l2 hd :
  kinv h L S live → 0 ≤ c < 8 → S c = l1 ++ (f, F) :: l2 →
  dll (nx (h_mem h)) (pv (h_mem h)) 0 hd (fa <$> (S c).*1) →
  (pv (h_mem h) (fa f) = 0 ∧ l1 = [] ∨ ∃ g G, pv (h_mem h) (fa f) = fa g ∧ (g, G) ∈ l1 ++ l2 ∧ g ≠ f ∧ 0 ≤ g ∧ l1 ≠ []) ∧
  (nx (h_mem h) (fa f) = 0 ∨ ∃ g G, nx (h_mem h) (fa f) = fa g ∧ (g, G) ∈ l1 ++ l2 ∧ g ≠ f ∧ 0 ≤ g).
Proof.
  intros [HR HS] Hc HSc Hd. pose proof Hd as Hd0. rewrite HSc, !fmap_app in Hd. cbn [fmap list_fmap fst] in Hd.
  destruct (dll_mid _ _ _ _ _ _ _ Hd) as (Hp & Hn & _).
  assert (Hel : ∀ g G, (g, G) ∈ l1 ++ l2 → (g, G) ∈ l1 ++ l2 ∧ g ≠ f ∧ 0 ≤ g).
  { intros g G Hg. destruct (unlink_elem h L S live HS c Hc l1 l2 f F HSc c g G Hc) as [H1 H2]; [by rewrite at_cache_eq|].
    pose proof (slab_bound h L S live HR HS c g G Hc H1). split_and!; [done|done|lia]. }
  split.
  - destruct (decide (l1 = [])) as [-> |Hne]; [by left|right].
    destruct (last l1) as [[g G]|] eqn:E; [|by apply last_None in E].
    apply last_Some in E as [l' ->]. exists g, G. rewrite Hp, !fmap_app. cbn [fmap list_fmap fst]. rewrite last_snoc. split; [done|].
    destruct (Hel g G) as (? & ? & ?); [apply elem_of_app; left; apply elem_of_app; right; left|done].
  - destruct l2 as [|[g G] l2']; [by left|right]. destruct Hn as (-> & _). exists g, G. split; [done|].
    apply Hel. apply elem_of_app. right. left.
Qed.

(** Memory after the neighbours [n] and [p] of a slab are joined. *)
Definition joined (m : gmap Z Z) (n p : Z) : gmap Z Z :=
  let m1 := if nz n then st m (n + 32) p else m in if nz p then st m1 (p + 24) n else m1.

Lemma joined_other m n p a : (n ≠ 0 → a ≠ n + 32) → (p ≠ 0 → a ≠ p + 24) → ld (joined m n p) a = ld m a.
Proof.
  intros H1 H2. unfold joined. destruct (nz p) eqn:Ep; [apply nz_spec in Ep; rewrite ld_st_ne by (apply H2 in Ep; congruence)|];
    (destruct (nz n) eqn:En; [apply nz_spec in En; by rewrite ld_st_ne by (apply H1 in En; congruence)|done]).
Qed.

Lemma joined_next m n p : p ≠ 0 → ld (joined m n p) (p + 24) = n.
Proof. intros Hp. unfold joined. rewrite (proj2 (nz_spec _) Hp). apply ld_st_eq. Qed.

Lemma joined_prev m n p : n ≠ 0 → (p ≠ 0 → n + 32 ≠ p + 24) → ld (joined m n p) (n + 32) = p.
Proof.
  intros Hn Hp. unfold joined. rewrite (proj2 (nz_spec _) Hn).
  destruct (nz p) eqn:Ep; [apply nz_spec in Ep; rewrite ld_st_ne by (apply Hp in Ep; congruence)|]; apply ld_st_eq.
Qed.

Section release.
Context (h : heap) (L : pa_state) (S : Z → slab_list) (live : Z → list Z) (HK : kinv h L S live).
Context (c : Z) (Hc : 0 ≤ c < 8) (l1 l2 : slab_list) (f : Z) (F : list Z).
Context (HSc : S c = l1 ++ (f, F) :: l2) (Hall : objs c f ≡ₚ F).

Let HR : pa_rel h L := proj1 HK.
Let HS : slabs_ok h L S live := proj2 HK.
Let S' : Z → slab_list := at_cache S c (l1 ++ l2).
Let n : Z := nx (h_mem h) (fa f).
Let p : Z := pv (h_mem h) (fa f).

Lemma rest_slab g G : (g, G) ∈ l1 ++ l2 → (g, G) ∈ S c.
Proof. rewrite HSc, !elem_of_app, elem_of_cons. tauto. Qed.

Lemma neighbour (hd : Z) :
  dll (nx (h_mem h)) (pv (h_mem h)) 0 hd (fa <$> (S c).*1) →
  (p = 0 ∧ l1 = [] ∨ ∃ g G, p = fa g ∧ (g, G) ∈ l1 ++ l2 ∧ g ≠ f ∧ 0 ≤ g ∧ l1 ≠ []) ∧
  (n = 0 ∨ ∃ g G, n = fa g ∧ (g, G) ∈ l1 ++ l2 ∧ g ≠ f ∧ 0 ≤ g).
Proof. intros Hd. by apply (slab_links h L S live c l1 f F l2 hd). Qed.

Lemma kinv_unlink hd hd' :
  h_caches h !! c = Some (mkCache (sz c) hd (per_slab c) c) →
  dll (nx (h_mem h)) (pv (h_mem h)) 0 hd (fa <$> (S c).*1) →
  hd' = (if decide (l1 = []) then n else hd) →
  kinv (set_caches (<[c := mkCache (sz c) hd' (per_slab c) c]> (h_caches h)) (set_mem (joined (h_mem h) n p) h)) L S' live.
Proof.
  intros Hhd Hd ->. destruct (neighbour hd Hd) as [Hp Hn].
  assert (Hb : ∀ c' g G, 0 ≤ c' < 8 → (g, G) ∈ S c' → 0 ≤ g) by (intros c' g G H1 H2; by apply (slab_bound h L S live HR HS c' g G)).
  assert (Hoff : ∀ g k, 0 ≤ g → 0 ≤ k < 4096 → (n ≠ 0 → fa g + k = n + 32 → k = 32) ∧ (p ≠ 0 → fa g + k = p + 24 → k = 24)).
  { intros g k Hg Hk. destruct Hp as [[-> _]|(g1 & _ & -> & _)], Hn as [-> |(g2 & _ & -> & _)]; unfold fa, HEAP_PHYS; lia. }
  split.
  - apply pa_rel_caches, pa_rel_mem; [done|]. intros a Ha. apply joined_other; intros H0 ->; apply Ha.
    + destruct Hn as [|(g & G & -> & Hg & _)]; [done|]. apply (slab_stable h L S live HS c g G); [done|by apply rest_slab|lia].
    + destruct Hp as [[? _]|(g & G & -> & Hg & _)]; [done|]. apply (slab_stable h L S live HS c g G); [done|by apply rest_slab|lia].
  - apply (slabs_ok_unlink h L S live HR HS c Hc l1 l2 f F HSc Hall (joined (h_mem h) n p)) with (hd := hd); [| | |done|done].
    + intros c' g G Hc' Hg Hgf. specialize (Hb c' g G Hc' Hg). fold n p. unfold nx. destruct (Hoff g 24 Hb ltac:(lia)).
      case_decide as E; [rewrite E; apply joined_next; rewrite <- E; unfold fa, HEAP_PHYS; lia|].
      apply joined_other; lia.
    + intros c' g G Hc' Hg Hgf. specialize (Hb c' g G Hc' Hg). fold n p. unfold pv. destruct (Hoff g 32 Hb ltac:(lia)).
      case_decide as E; [rewrite E; apply joined_prev; rewrite <- E; [unfold fa, HEAP_PHYS; lia|lia]|].
      apply joined_other; lia.
    + intros c' g G a Hc' Hg Ha H24 H32. specialize (Hb c' g G Hc' Hg). destruct (Hoff g (a - fa g) Hb ltac:(lia)).
      apply joined_other; lia.
Qed.

(** Unlinking writes only to headers of other slabs of the cache. *)
Lemma unlink_safe hd h2 a :
  dll (nx (h_mem h)) (pv (h_mem h)) 0 hd (fa <$> (S c).*1) → slabs_ok h2 L S' live →
  safe L S' live a → ld (joined (h_mem h) n p) a = ld (h_mem h) a.
Proof.
  intros Hd HS2 Ha. destruct (neighbour hd Hd) as [Hp Hn].
  assert (Hh : ∀ g G k, (g, G) ∈ l1 ++ l2 → 0 ≤ k < 48 → a ≠ fa g + k).
  { intros g G k Hg Hk. apply (safe_header h2 L S' live HS2 c g G); [done|done|unfold S'; by rewrite at_cache_eq|done]. }
  apply joined_other; intros H0.
  - destruct Hn as [|(g & G & -> & Hg & _)]; [done|]. apply (Hh g G); [done|lia].
  - destruct Hp as [[? _]|(g & G & -> & Hg & _)]; [done|]. apply (Hh g G); [done|lia].
Qed.

Lemma unlink_run (Q : unit → heap → Prop) :
  (∀ h', kinv h' L S' live → h_pcpu_objects h' = h_pcpu_objects h → h_pcpu_pages h' = h_pcpu_pages h →
    (∀ a, safe L S' live a → ld (h_mem h') a = ld (h_mem h) a) → wp (buddy_free (fa f) 0) h' Q) →
  wp (release_slab (fa f) (c + 1)) h Q.
Proof.
  intros HQ. destruct (so_cache _ _ _ _ HS c Hc) as (hd & Hhd & Hd). pose proof (neighbour hd Hd) as [Hp Hn].
  assert (Hfn : n ≠ 0 → fa f + 32 ≠ n + 32 ∧ fa f + 24 ≠ n + 32).
  { intros _. destruct Hn as [-> |(g2 & _ & -> & _ & ? & _)]; unfold fa, HEAP_PHYS; [pose proof (slab_bound h L S live HR HS c f F Hc ltac:(rewrite HSc; apply elem_of_app; right; left))|]; lia. }
  unfold release_slab, get_next, get_prev, set_prev, set_next. wp_step. apply wp_load. change (ld (h_mem h) (fa f + 24)) with n.
  set (m1 := if nz n then st (h_mem h) (n + 32) p else h_mem h).
  assert (E1 : ld m1 (fa f + 32) = p ∧ ld m1 (fa f + 24) = n).
  { unfold m1. destruct (nz n) eqn:En; [|done]. apply nz_spec in En. by rewrite !ld_st_ne by (symmetry; by apply Hfn). }
  wp_step. eapply (wp_mono _ _ (λ _ h1, h1 = set_mem m1 h)).
  { unfold m1. destruct (nz n); [wp_step; apply wp_load; by apply wp_store|apply wp_skip; by destruct h]. }
  intros [] _ ->. wp_step. apply wp_load. cbn [h_mem set_mem]. destruct E1 as [-> E1].
  assert (Hj : joined (h_mem h) n p = if nz p then st m1 (p + 24) n else m1) by done.
  assert (Hfin : ∀ hd' h', hd' = (if decide (l1 = []) then n else hd) →
    h' = set_caches (<[c := mkCache (sz c) hd' (per_slab c) c]> (h_caches h)) (set_mem (joined (h_mem h) n p) h) →
    wp (buddy_free (fa f) 0) h' Q).
  { intros hd' h' Ehd ->. pose proof (kinv_unlink hd hd' Hhd Hd Ehd) as HK'. apply HQ; [done|done|done|].
    intros a Ha. by apply (unlink_safe hd _ a Hd (proj2 HK')). }
  destruct Hp as [[Hp0 Hl1]|(g & G & Hpg & _ & _ & Hg & Hl1)].
  - rewrite Hp0 in Hj |- *. change (nz 0) with false in Hj |- *. cbv iota in Hj |- *.
    replace (nz (c + 1)) with true by (symmetry; apply nz_spec; lia). cbv iota. wp_step. wp_step. apply wp_load.
    cbn [h_mem set_mem]. rewrite E1. eapply wp_set_slabs; [done|exact Hhd|]. cbn [obj_size obj_per_slab cache_id h_caches set_mem].
    apply (Hfin n); [by rewrite decide_True|]. rewrite Hp0, <- Hj at 1. done.
  - assert (Hp0 : p ≠ 0) by (rewrite Hpg; unfold fa, HEAP_PHYS; lia). rewrite (proj2 (nz_spec _) Hp0) in Hj |- *.
    wp_step. wp_step. apply wp_load. cbn [h_mem set_mem]. rewrite E1. apply wp_store. cbn [h_mem set_mem].
    apply (Hfin hd); [by rewrite decide_False|]. rewrite Hj, (insert_id (h_caches h)) by done. by destruct h.
Qed.

Lemma release_run :
  wp (release_slab (fa f) (c + 1)) h (λ _ h', kinv h' (delete f L) S' live ∧
    h_pcpu_objects h' = h_pcpu_objects h ∧ h_pcpu_pages h' = h_pcpu_pages h ∧
    ∀ a, safe (delete f L) S' live a → ld (h_mem h') a = ld (h_mem h) a).
Proof.
  assert (Hfin : (f, F) ∈ S c) by (rewrite HSc; apply elem_of_app; right; left).
  destruct (so_slab _ _ _ _ HS c f F Hc Hfin) as [HLf _].
  apply unlink_run. intros h1 [HR1 HS1] Ho Hp Hsafe.
  eapply wp_mono; [by apply (free_block_spec h1 L f 0 false)|]. intros [] h2 (Hrest & HR2 & Hkept).
  assert (Hne : ∀ c' g G, 0 ≤ c' < 8 → (g, G) ∈ S' c' → g ≠ f).
  { intros c' g G Hc' Hg. by apply (unlink_elem h L S live HS c Hc l1 l2 f F HSc c' g G). }
  assert (HS2 : slabs_ok h2 (delete f L) S' live).
  { apply (slabs_ok_frame h1 L S' live); [done|done| |].
    - intros g Hg [(c' & G & Hc' & Hg')|Hg']; rewrite lookup_delete_ne; try done.
      + apply not_eq_sym. by apply (Hne c' g G).
      + intros <-. rewrite Hp in Hg'. destruct (so_pool _ _ _ _ HS _ Hg') as (g' & E%fa_inj & _ & Hno). subst g'.
        by apply (Hno c F).
    - intros c' g G a Hc' Hg Ha. apply Hkept. destruct (so_slab _ _ _ _ HS1 c' g G Hc' Hg) as [Hgl _].
      apply (stable_in _ g); [|done]. exists g, 0, false. rewrite lookup_delete_ne by (apply not_eq_sym; by apply (Hne c' g G)).
      split; [done|]. simpl. lia. }
  destruct Hrest as (_ & E2 & E3 & _). split_and!; [by split|congruence|congruence|].
  intros a Ha. rewrite Hkept by (by eapply safe_stable). apply Hsafe.
  destruct Ha as [Ha|[Hst Hout]]; [by left|right]. split; [|done]. intros g Hg Hga.
  destruct (Hst g Hg Hga) as (i & o & u & [_ Hi]%lookup_delete_Some & Hr). by exists i, o, u.
Qed.

End release.

(** ** Freeing objects *)

(** What an operation that frees leaves: the invariant, and every word of the
    callers that are left. *)
Record freed_to (h : heap) (L : pa_state) (S : Z → slab_list) (live : Z → list Z)
    (h' : heap) (L' : pa_state) (S' : Z → slab_list) (live' : Z → list Z) : Prop := {
  ft_inv : kinv h' L' S' live';
  ft_live : ∀ c o, 0 ≤ c < 8 → o ∈ live' c → o ∈ live c;
  ft_outside : ∀ a, outside L' S' a → outside L S a;
  ft_blocks : blocks_same L S L' S';
  ft_mem : ∀ a, safe L' S' live' a → ld (h_mem h') a = ld (h_mem h) a }.

Lemma freed_to_trans h0 L0 S0 live0 h1 L1 S1 live1 h2 L2 S2 live2 :
  freed_to h0 L0 S0 live0 h1 L1 S1 live1 → freed_to h1 L1 S1 live1 h2 L2 S2 live2 →
  freed_to h0 L0 S0 live0 h2 L2 S2 live2.
Proof.
  intros [_ Hl1 Ho1 Hb1 Hm1] [HK Hl2 Ho2 Hb2 Hm2]. split; [done|by auto|by auto| |].
  { intros g x. by rewrite (Hb2 g x). }
  intros a Ha. rewrite Hm2 by done. apply Hm1.
  destruct Ha as [(c & o & Hc & Ho & Ha)|Ha]; [left; exists c, o; auto|right; auto].
Qed.

Lemma wp_objects_of c P h Q : 0 ≤ c < 8 → h_pcpu_objects h !! c = Some P → Q P h → wp (objects_of c) h Q.
Proof.
  intros Hc HP HQ. unfold objects_of. wp_step. apply wp_assert; [by apply in_array_true|]. apply wp_gets. by rewrite HP.
Qed.
Lemma wp_set_objects c P h Q :
  0 ≤ c < 8 → Q tt (set_pcpu_objects (<[c := P]> (h_pcpu_objects h)) h) → wp (set_objects c P) h Q.
Proof. intros Hc HQ. unfold set_objects. wp_step. apply wp_assert; [by apply in_array_true|]. by apply wp_modify. Qed.

(** A frame given back lies in no live block. *)
Lemma stable_deleted h L f o u a :
  pa_rel h L → L !! f = Some (o, u) → stable (delete f L) a → ¬ fa f ≤ a < fa f + 4096.
Proof.
  intros HR Hf Hst Ha. destruct HR as (H & HI & HL). pose proof (bi_til _ _ (proj1 HI)) as HT.
  pose proof (proj1 (HL _ _ _) Hf) as Hf'. pose proof (til_head_bound _ HT _ _ _ Hf') as Hb.
  pose proof (til_ok _ HT _ _ _ Hf') as (Ho & _). pose proof (pow2_pos o ltac:(lia)).
  destruct (Hst f ltac:(lia) Ha) as (i & p & v & [Hne Hi]%lookup_delete_Some & Hr).
  apply Hne. by destruct (til_same_frame _ _ _ _ _ _ _ f HT Hf' (proj1 (HL _ _ _) Hi) ltac:(lia) Hr).
Qed.

Lemma live_sub (live : Z → list Z) c (rest : list Z) o a' c' : live c ≡ₚ o :: rest → a' ∈ at_cache live c rest c' → a' ∈ live c'.
Proof.
  intros Hl. unfold at_cache. case_decide as E; [subst c'|done]. intros Ha. rewrite Hl. by right.
Qed.

Lemma full_slab c f F : 0 ≤ c < 8 → NoDup F → F ⊆ objs c f → per_slab c - Z.of_nat (length F) = 0 → objs c f ≡ₚ F.
Proof.
  intros Hc Hnd Hsub Hlen. symmetry. apply submseteq_length_Permutation.
  - apply NoDup_submseteq; [done|]. intros x Hx. by apply Hsub.
  - pose proof (objs_length c f Hc). lia.
Qed.

Lemma released_blocks h L S live (HS : slabs_ok h L S live) c (Hc : 0 ≤ c < 8) l1 l2 f F :
  S c = l1 ++ (f, F) :: l2 → blocks_same L S (delete f L) (at_cache S c (l1 ++ l2)).
Proof.
  intros HSc g x. rewrite lookup_delete_Some. destruct (decide (g = f)) as [-> |Hne].
  - split; [by intros [[? _] _]|]. intros [_ Hn]. exfalso. apply Hn. exists c, F. split; [done|].
    rewrite HSc. apply elem_of_app. right. left.
  - assert (Hiff : slab_frame (at_cache S c (l1 ++ l2)) g ↔ slab_frame S g).
    { split; intros (c' & G & Hc' & Hg); exists c', G; (split; [done|]).
      - by apply (unlink_elem h L S live HS c Hc l1 l2 f F HSc).
      - destruct (decide (c' = c)) as [-> |]; [|by rewrite at_cache_ne]. rewrite at_cache_eq. rewrite HSc in Hg.
        apply elem_of_app in Hg as [Hg|Hg]; [apply elem_of_app; by left|].
        apply elem_of_cons in Hg as [[= -> ->]|Hg]; [done|apply elem_of_app; by right]. }
    rewrite Hiff. split; [by intros [[_ ?] ?]|by intros [? ?]].
Qed.

Lemma slab_nodup h L S live c f F : slabs_ok h L S live → 0 ≤ c < 8 → (f, F) ∈ S c → NoDup F.
Proof.
  intros HS Hc Hf. destruct (so_objs _ _ _ _ HS c Hc) as (P & HP & _).
  pose proof (places_nodup h L S live HS c P Hc HP) as Hnd. apply NoDup_app in Hnd as (Hnd & _).
  apply list_elem_of_split in Hf as (l1 & l2 & E). unfold all_free in Hnd. rewrite E, bind_app, bind_cons in Hnd.
  apply NoDup_app in Hnd as (_ & _ & Hnd). by apply NoDup_app in Hnd as (? & _).
Qed.

Section give_back.
Context (h : heap) (L : pa_state) (S : Z → slab_list) (live : Z → list Z) (HK : kinv h L S live).
Context (c : Z) (Hc : 0 ≤ c < 8) (f : Z) (F : list Z) (Hf : (f, F) ∈ S c).
Context (o : Z) (rest : list Z) (Ho : o ∈ objs c f) (Hlive : live c ≡ₚ o :: rest).

Lemma free_nodup : NoDup (o :: F).
Proof.
  destruct HK as [HR HS]. destruct (so_objs _ _ _ _ HS c Hc) as (P & HP & _).
  pose proof (places_nodup h L S live HS c P Hc HP) as Hnd. apply NoDup_app in Hnd as (_ & Hd & _).
  apply NoDup_cons. split; [|by apply (slab_nodup h L S live c f F)].
  intros Hin. apply (Hd o); [by apply (all_free_elem _ f F)|]. apply elem_of_app. right. rewrite Hlive. left.
Qed.

(** Push the object, and release the slab if it was the last one out. *)
Lemma give_back_run (get : M heap Z) (Hget : ∀ h' Q, slab_page (h_mem h') c f (o :: F) → Q (c + 1) h' → wp get h' Q) :
  wp (push_object (fa f) o ;!
      let! n := get_in_use (fa f) in
      if n =? 0 then let! cache := get in release_slab (fa f) cache else skip) h
    (λ _ h', h_pcpu_objects h' = h_pcpu_objects h ∧ h_pcpu_pages h' = h_pcpu_pages h ∧
      ∃ L' S', freed_to h L S live h' L' S' (at_cache live c rest)).
Proof.
  pose proof free_nodup as Hnd. pose proof HK as [HR HS]. pose proof (list_elem_of_split _ _ Hf) as (l1 & l2 & HSc).
  destruct (so_slab _ _ _ _ HS c f F Hc Hf) as [HLf Hpg].
  wp_step. apply (wp_push c f o F); [done|done|done|done|]. intros m' Hpg' Hm'. wp_step. apply wp_get_in_use. cbn [h_mem set_mem].
  destruct (kinv_push h L S live c l1 f o F l2 rest m' HK Hc HSc Hlive Ho Hpg' Hm') as [HK1 Hs1].
  set (S1 := at_cache S c (l1 ++ (f, o :: F) :: l2)) in *. set (live' := at_cache live c rest) in *.
  assert (Hlsub : ∀ c' x, 0 ≤ c' < 8 → x ∈ live' c' → x ∈ live c') by (intros c' x _; by apply (live_sub live c rest o)).
  assert (HS1in : ∀ c' g G, (g, G) ∈ S c' → ∃ G', (g, G') ∈ S1 c').
  { intros c' g G Hg. destruct (decide (c' = c)) as [-> |]; [|exists G; unfold S1; by rewrite at_cache_ne].
    unfold S1. rewrite at_cache_eq. rewrite HSc in Hg. apply elem_of_app in Hg as [Hg|Hg]; [exists G; apply elem_of_app; by left|].
    apply elem_of_cons in Hg as [[= -> ->]|Hg]; [exists (o :: F); apply elem_of_app; right; left|].
    exists G. apply elem_of_app. right. by right. }
  assert (Hstep1 : freed_to h L S live (set_mem m' h) L S1 live').
  { split; [done|done| | |done].
    - intros a [Hst Hout]. split; [done|]. intros c' g G Hc' Hg. destruct (HS1in c' g G Hg) as [G' ?]. by apply (Hout c' g G').
    - apply blocks_same_frames. intros g. split; intros (c' & G & Hc' & Hg); exists c'.
      + destruct (touch_elem S c l1 l2 f F (o :: F) HSc c' g G Hg) as [G0 ?]. by exists G0.
      + destruct (HS1in c' g G Hg) as [G' ?]. by exists G'. }
  rewrite (sp_use _ _ _ _ Hpg'). destruct (Z.eqb_spec (per_slab c - Z.of_nat (length (o :: F))) 0) as [E|E].
  - wp_step. apply Hget; [exact Hpg'|].
    assert (Hall : objs c f ≡ₚ o :: F) by (apply full_slab; [done|done|apply Hpg'|done]).
    assert (HS1c : S1 c = l1 ++ (f, o :: F) :: l2) by (unfold S1; by rewrite at_cache_eq).
    eapply wp_mono; [apply (release_run (set_mem m' h) L S1 live' HK1 c Hc l1 l2 f (o :: F) HS1c Hall)|].
    intros [] h2 (HK2 & E2 & E3 & Hs2). split_and!; [done|done|]. eexists _, _.
    eapply freed_to_trans; [exact Hstep1|]. split; [exact HK2|done| | |exact Hs2].
    2: { by apply (released_blocks (set_mem m' h) L S1 live' (proj2 HK1) c Hc l1 l2 f (o :: F)). }
    intros a [Hst Hout]. pose proof (stable_deleted h L f 0 false a HR HLf Hst) as Hnf. split.
    + intros g Hg Hga. destruct (Hst g Hg Hga) as (i & p & u & [_ Hi]%lookup_delete_Some & Hr). by exists i, p, u.
    + intros c' g G Hc' Hg Ha. destruct (decide (g = f)) as [-> |Hne]; [done|]. apply (Hout c' g G Hc'); [|done].
      destruct (decide (c' = c)) as [-> |]; [|by rewrite at_cache_ne]. rewrite at_cache_eq. rewrite HS1c in Hg.
      apply elem_of_app in Hg as [Hg|Hg]; [apply elem_of_app; by left|].
      apply elem_of_cons in Hg as [[= -> ->]|Hg]; [done|apply elem_of_app; by right].
  - wp_step. split_and!; [done|done|]. by exists L, S1.
Qed.

End give_back.

Lemma kinv_live h L S live live' : (∀ c, 0 ≤ c < 8 → live' c = live c) → kinv h L S live → kinv h L S live'.
Proof.
  intros He [HR HS]. split; [done|]. split; try apply HS. intros c Hc. rewrite He by done. by apply (so_objs _ _ _ _ HS).
Qed.

(** The free word of an object's slab from its address. *)
Lemma live_page h L S live c o : kinv h L S live → 0 ≤ c < 8 → o ∈ live c →
  ∃ f F, (f, F) ∈ S c ∧ o ∈ objs c f ∧ page_of o = fa f ∧ 0 ≤ f < 16384.
Proof.
  intros [HR HS] Hc Ho. destruct (live_slab h L S live HS c o Hc Ho) as (f & F & Hf & Hof).
  pose proof (slab_bound h L S live HR HS c f F Hc Hf). exists f, F. split_and!; [done|done|by apply (page_of_obj c)|lia|lia].
Qed.

Lemma return_run h L S live c o rest :
  kinv h L S live → 0 ≤ c < 8 → live c ≡ₚ o :: rest →
  wp (return_object o (page_of o)) h (λ _ h',
    h_pcpu_objects h' = h_pcpu_objects h ∧ h_pcpu_pages h' = h_pcpu_pages h ∧
    ∃ L' S', freed_to h L S live h' L' S' (at_cache live c rest)).
Proof.
  intros HK Hc Hl. destruct (live_page h L S live c o HK Hc) as (f & F & Hf & Ho & -> & _); [rewrite Hl; left|].
  apply (give_back_run h L S live HK c Hc f F Hf o rest Ho Hl).
  intros h' Q Hpg HQ. apply wp_load. by rewrite (sp_cache _ _ _ _ Hpg).
Qed.

(** [while (pcpu_objects\[id\].count > 0)]: the pool goes back to the slabs. *)
Lemma drain_run h L S live c P :
  kinv h L S live → 0 ≤ c < 8 → h_pcpu_objects h !! c = Some P →
  wp (drain c) h (λ _ h', h_pcpu_objects h' = <[c := []]> (h_pcpu_objects h) ∧ h_pcpu_pages h' = h_pcpu_pages h ∧
    ∃ L' S', freed_to h L S live h' L' S' live).
Proof.
  intros HK Hc HP. assert (HlP : (length P ≤ 16)%nat).
  { destruct (so_objs _ _ _ _ (proj2 HK) c Hc) as (P' & HP' & ? & _). by simplify_eq. }
  unfold drain. assert (Hgen : ∀ fuel h1 L1 S1 P1, (length P1 < fuel)%nat → freed_to h L S live h1 L1 S1 live →
    h_pcpu_objects h1 = <[c := P1]> (h_pcpu_objects h) →
    h_pcpu_pages h1 = h_pcpu_pages h →
    wp (loop fuel (λ _ : unit, let! objs := objects_of c in match objs with [] => ret (inr tt)
      | obj :: objs' => set_objects c objs' ;! return_object obj (page_of obj) ;! ret (inl tt) end) tt) h1
      (λ _ h', h_pcpu_objects h' = <[c := []]> (h_pcpu_objects h) ∧ h_pcpu_pages h' = h_pcpu_pages h ∧
        ∃ L' S', freed_to h L S live h' L' S' live)).
  { induction fuel as [|fuel IH]; intros h1 L1 S1 P1 Hfuel Hft Hob Hpg; [lia|]. cbn [loop]. wp_step.
    assert (HP1 : h_pcpu_objects h1 !! c = Some P1) by (by rewrite Hob, lookup_insert_eq).
    wp_step. apply (wp_objects_of c P1); [done|done|]. destruct P1 as [|o P1].
    - wp_step. wp_step. split_and!; [done|done|]. by exists L1, S1.
    - wp_step. apply wp_set_objects; [done|]. wp_step. pose proof (ft_inv _ _ _ _ _ _ _ _ Hft) as HK1.
      set (live1 := at_cache live c (o :: live c)).
      assert (HK2 : kinv (set_pcpu_objects (<[c := P1]> (h_pcpu_objects h1)) h1) L1 S1 live1).
      { destruct HK1 as [HR1 HS1]. split; [by apply pa_rel_objects|].
        apply (slabs_ok_pool h1 L1 S1 live c (o :: P1)); [done|done|done| | |].
        - unfold live1. rewrite at_cache_eq. simpl. by rewrite <- Permutation_middle.
        - destruct (so_objs _ _ _ _ HS1 c Hc) as (P' & HP' & Hl' & _). simplify_eq. simpl in Hl'. lia.
        - intros c' Hne. unfold live1. by rewrite at_cache_ne. }
      eapply wp_mono; [apply (return_run _ L1 S1 live1 c o (live c) HK2 Hc); unfold live1; by rewrite at_cache_eq|].
      intros [] h2 (Eo & Ep & L2 & S2 & [HK3 _ Ho3 Hb3 Hm3]). wp_step. cbn [h_pcpu_objects h_pcpu_pages set_pcpu_objects] in Eo, Ep.
      assert (Hback : ∀ c', at_cache live1 c (live c) c' = live c').
      { intros c'. unfold live1, at_cache. repeat case_decide; subst; done. }
      apply (IH h2 L2 S2 P1); [simpl in Hfuel; lia| |rewrite Eo, Hob; apply insert_insert_eq|congruence].
      eapply freed_to_trans; [exact Hft|]. split; [|done|done|done|].
      + eapply kinv_live; [|exact HK3]. intros c' _. by rewrite Hback.
      + intros a Ha. rewrite Hm3; [done|]. destruct Ha as [(c' & x & Hc' & Hx & Ha)|Ha]; [left|by right].
        exists c', x. by rewrite Hback. }
  apply (Hgen 17%nat h L S P); [lia| |by rewrite insert_id|done]. split; done.
Qed.

Lemma pcpu_free_run h L S live c o rest :
  kinv h L S live → 0 ≤ c < 8 → live c ≡ₚ o :: rest →
  wp (pcpu_slab_free o (page_of o)) h (λ _ h', h_pcpu_pages h' = h_pcpu_pages h ∧
    ∃ L' S', freed_to h L S live h' L' S' (at_cache live c rest)).
Proof.
  intros HK Hc Hl. destruct (live_page h L S live c o HK Hc) as (f & F & Hf & Ho & Hpage & _); [rewrite Hl; left|].
  pose proof HK as [HR HS]. destruct (so_cache _ _ _ _ HS c Hc) as (hd & Hhd & _).
  destruct (so_objs _ _ _ _ HS c Hc) as (P & HP & HlP & _). destruct (so_slab _ _ _ _ HS c f F Hc Hf) as [_ Hpg].
  unfold pcpu_slab_free, get_cache. rewrite Hpage. wp_step. apply wp_load. rewrite (sp_cache _ _ _ _ Hpg).
  wp_step. eapply wp_cache_at; [done|exact Hhd|]. cbn [cache_id]. wp_step. apply (wp_objects_of c P); [done|done|].
  unfold PCPU_OBJ_CACHE. destruct (Z.ltb_spec (Z.of_nat (length P)) 16) as [Hlt|Hge].
  - apply wp_set_objects; [done|]. split; [done|]. exists L, S. split; try done.
    + split; [by apply pa_rel_objects|]. apply (slabs_ok_pool h L S live c P); [done|done|done| |simpl; lia|].
      * rewrite at_cache_eq, Hl. simpl. by rewrite <- Permutation_middle.
      * intros c' Hne. by rewrite at_cache_ne.
    + intros c' x _. by apply (live_sub live c rest o).
  - wp_step. eapply wp_mono; [by apply (drain_run h L S live c P)|]. intros [] h1 (_ & Ep & L1 & S1 & Hft).
    pose proof (ft_inv _ _ _ _ _ _ _ _ Hft) as HK1.
    destruct (live_page h1 L1 S1 live c o HK1 Hc) as (f1 & F1 & Hf1 & Ho1 & Hpage1 & _); [rewrite Hl; left|].
    rewrite Hpage in Hpage1. apply fa_inj in Hpage1 as <-.
    eapply wp_mono; [apply (give_back_run h1 L1 S1 live HK1 c Hc f F1 Hf1 o rest Ho1 Hl (ret (c + 1)))|].
    + intros h' Q _ HQ. by wp_step.
    + intros [] h2 (_ & Ep2 & L2 & S2 & Hft2). split; [congruence|]. exists L2, S2. by eapply freed_to_trans.
Qed.

(** ** Allocating objects *)

Record grown_to (h : heap) (L : pa_state) (S : Z → slab_list) (live : Z → list Z)
    (h' : heap) (L' : pa_state) (S' : Z → slab_list) (live' : Z → list Z) : Prop := {
  gt_inv : kinv h' L' S' live';
  gt_live : ∀ c o, 0 ≤ c < 8 → o ∈ live c → o ∈ live' c;
  gt_outside : ∀ a, outside L S a → outside L' S' a;
  gt_blocks : blocks_same L S L' S';
  gt_mem : ∀ a, safe L S live a → ld (h_mem h') a = ld (h_mem h) a }.

Lemma grown_to_trans h0 L0 S0 live0 h1 L1 S1 live1 h2 L2 S2 live2 :
  grown_to h0 L0 S0 live0 h1 L1 S1 live1 → grown_to h1 L1 S1 live1 h2 L2 S2 live2 →
  grown_to h0 L0 S0 live0 h2 L2 S2 live2.
Proof.
  intros [_ Hl1 Ho1 Hb1 Hm1] [HK Hl2 Ho2 Hb2 Hm2]. split; [done|by auto|by auto| |].
  { intros g x. by rewrite (Hb2 g x). }
  intros a Ha. rewrite Hm2; [by apply Hm1|].
  destruct Ha as [(c & o & Hc & Ho & Ha)|Ha]; [left; exists c, o; auto|right; auto].
Qed.

(** The first object of a free list goes to the pool or to a caller. *)
Lemma take_grown h L S live c l1 f o F l2 m' P P' live' :
  kinv h L S live → 0 ≤ c < 8 → S c = l1 ++ (f, o :: F) :: l2 → slab_page m' c f F →
  (∀ a, a ≠ fa f → a ≠ fa f + 16 → ld m' a = ld (h_mem h) a) →
  h_pcpu_objects h !! c = Some P → P' ++ live' c ≡ₚ o :: P ++ live c → (length P' ≤ 16)%nat →
  (∀ c', c' ≠ c → live' c' = live c') → (∀ x, x ∈ live c → x ∈ live' c) →
  grown_to h L S live (set_pcpu_objects (<[c := P']> (h_pcpu_objects h)) (set_mem m' h)) L
    (at_cache S c (l1 ++ (f, F) :: l2)) live'.
Proof.
  intros [HR HS] Hc HSc Hpg Hm HP Hperm HlP Hlive Hsub.
  assert (Hf : (f, o :: F) ∈ S c) by (rewrite HSc; apply elem_of_app; right; left).
  assert (Hfr : ∀ c' g G, (g, G) ∈ at_cache S c (l1 ++ (f, F) :: l2) c' → ∃ G0, (g, G0) ∈ S c')
    by (by apply (touch_elem S c l1 l2 f (o :: F) F HSc)).
  assert (Hfr' : ∀ c' g G, (g, G) ∈ S c' → ∃ G0, (g, G0) ∈ at_cache S c (l1 ++ (f, F) :: l2) c').
  { intros c' g G Hg. assert (HSc' : at_cache S c (l1 ++ (f, F) :: l2) c = l1 ++ (f, F) :: l2) by apply at_cache_eq.
    apply (touch_elem _ c l1 l2 f F (o :: F) HSc' c' g G). unfold at_cache at 1. case_decide as E; [by rewrite <- HSc, <- E|].
    by rewrite at_cache_ne. }
  split; [split| | | |].
  - apply pa_rel_objects. eapply touch_pages; [done|done|done|exact Hf|]. intros a Ha. apply Hm; lia.
  - apply (slabs_ok_touch h L S live HS c Hc l1 l2 f (o :: F) F HSc m' P P'); try done.
    + intros a Ha. apply Hm; lia.
    + apply Hm; lia.
    + apply Hm; lia.
    + rewrite Hperm. simpl. by rewrite <- Permutation_middle.
  - intros c' x _ Hx. destruct (decide (c' = c)) as [-> |Hne]; [by apply Hsub|by rewrite Hlive].
  - intros a [Hst Hout]. split; [done|]. intros c' g G Hc' Hg. destruct (Hfr c' g G Hg) as [G0 ?]. by apply (Hout c' g G0).
  - apply blocks_same_frames. intros g. split; intros (c' & G & Hc' & Hg); exists c';
      [destruct (Hfr c' g G Hg) as [G0 ?]|destruct (Hfr' c' g G Hg) as [G0 ?]]; by exists G0.
  - intros a Ha. apply Hm; [replace (fa f) with (fa f + 0) by lia|]; by apply (safe_header h L S live HS c f (o :: F)).
Qed.

(** ** A new slab *)

Definition first_objs (c f k : Z) : list Z := (λ i, fa f + 48 + sz c * i) <$> seqZ 0 k.

Lemma first_objs_succ c f k : 0 ≤ k → first_objs c f (k + 1) = first_objs c f k ++ [fa f + 48 + sz c * k].
Proof. intros Hk. unfold first_objs. rewrite seqZ_app by lia. by rewrite fmap_app. Qed.

Lemma carve_run c f h :
  0 ≤ c < 8 →
  wp (carve (sz c) (fa f + FRAME_SIZE) (fa f + SIZEOF_SLAB)) h (λ r h', ∃ m, h' = set_mem m h ∧
    chain m r.1 (reverse (objs c f)) ∧ ∀ a, a ∉ objs c f → ld m a = ld (h_mem h) a).
Proof.
  intros Hc. pose proof (sz_range c Hc) as Hsz. pose proof (per_slab_range c Hc) as [Hper Hmul].
  unfold carve, FRAME_SIZE, SIZEOF_SLAB.
  eapply (wp_loop (λ '(data, head, k) h', ∃ m, h' = set_mem m h ∧ data = fa f + 48 + sz c * k ∧ 0 ≤ k ≤ per_slab c ∧
    chain m head (reverse (first_objs c f k)) ∧ ∀ a, a ∉ objs c f → ld m a = ld (h_mem h) a)
    (λ '(_, _, k) _, Z.to_nat (per_slab c - k))).
  - intros [[data head] k] h1 (m & -> & -> & Hk & Hch & Hm).
    destruct (Z.leb_spec (fa f + 48 + sz c * k + sz c) (fa f + 4096)) as [Hle|Hgt].
    + assert (Hk1 : k + 1 ≤ per_slab c) by (unfold per_slab; apply Z.div_le_lower_bound; lia).
      assert (Hin : ∀ x, x ∈ first_objs c f k → x < fa f + 48 + sz c * k).
      { intros x (i & -> & Hi%elem_of_seqZ)%list_elem_of_fmap. nia. }
      wp_step. apply wp_store. wp_step. split; [|lia]. eexists. split; [done|]. cbn [h_mem set_mem].
      split_and!; [lia|lia|lia| |].
      * rewrite first_objs_succ, reverse_snoc by lia. split; [done|]. rewrite ld_st_eq.
        eapply chain_ext; [|exact Hch]. intros x Hx. rewrite elem_of_reverse in Hx. apply ld_st_ne. specialize (Hin x Hx). lia.
      * intros a Ha. rewrite ld_st_ne; [by apply Hm|]. intros <-. apply Ha, objs_elem. exists k. split; [done|lia].
    + wp_step. exists m. split; [done|]. split; [|done]. cbn [fst].
      replace (objs c f) with (first_objs c f k); [done|]. unfold objs, first_objs. do 2 f_equal.
      apply Z.le_antisymm; [lia|]. apply Z.lt_succ_r. unfold per_slab. apply Z.div_lt_upper_bound; lia.
  - exists (h_mem h). split; [by destruct h|]. split_and!; [lia|lia|lia| |done]. done.
  - lia.
Qed.

(** The header of a new slab [f] at the front of a list that starts with [hd]. *)
Record header (m0 m : gmap Z Z) (c f hd : Z) : Prop := {
  hr_magic : magic m (fa f) = SLAB_MAGIC;
  hr_cache : ld m (fa f + 40) = c + 1;
  hr_next : ld m (fa f + 24) = hd;
  hr_prev : ld m (fa f + 32) = 0;
  hr_back : hd ≠ 0 → ld m (hd + 32) = fa f;
  hr_out : ∀ a, ¬ fa f ≤ a < fa f + 4096 → (hd ≠ 0 → a ≠ hd + 32) → ld m a = ld m0 a }.

Lemma wp_set_total f v h Q :
  (∀ w, Q tt (set_mem (st (h_mem h) (fa f + 8) w) h)) → wp (set_total (fa f) v) h Q.
Proof. intros HQ. unfold set_total. wp_step. apply wp_load. by apply wp_store. Qed.

Lemma header_run c f k h (R : kmem_cache → M heap Z) Q :
  0 ≤ c < 8 → h_caches h !! c = Some k → (slabs k = 0 ∨ ∃ g, slabs k = fa g ∧ g ≠ f) →
  (∀ m, header (h_mem h) m c f (slabs k) → wp (R k) (set_mem m h) Q) →
  wp (set_magic (fa f) SLAB_MAGIC ;! set_in_use (fa f) 0 ;!
      let! k := cache_at (c + 1) in
      set_total (fa f) (obj_per_slab k) ;! set_cache (fa f) (c + 1) ;! set_next (fa f) (slabs k) ;! set_prev (fa f) 0 ;!
      (if nz (slabs k) then set_prev (slabs k) (fa f) else skip) ;! R k) h Q.
Proof.
  intros Hc Hk Hhd HQ. unfold set_cache, set_next, set_prev.
  assert (Hoff : slabs k ≠ 0 → ∀ j, 0 ≤ j < 4096 → fa f + j ≠ slabs k + 32).
  { intros H0 j Hj. destruct Hhd as [|(g & -> & Hg)]; [done|]. unfold fa. lia. }
  wp_step. apply wp_set_magic. wp_step. apply wp_set_in_use. wp_step. apply (wp_cache_at c k); [done|done|].
  wp_step. apply wp_set_total. intros w. wp_step. apply wp_store. wp_step. apply wp_store. wp_step. apply wp_store.
  cbn [h_mem set_mem]. match goal with |- context [set_mem ?m _] => set (m5 := m) end.
  set (m6 := if nz (slabs k) then st m5 (slabs k + 32) (fa f) else m5).
  assert (H6 : ∀ a, (slabs k ≠ 0 → a ≠ slabs k + 32) → ld m6 a = ld m5 a).
  { intros a Ha. unfold m6. destruct (nz (slabs k)) eqn:E; [|done]. apply nz_spec in E. rewrite ld_st_ne; [done|].
    apply not_eq_sym. by apply Ha. }
  wp_step. eapply (wp_mono _ _ (λ _ h', h' = set_mem m6 h)).
  { unfold m6. destruct (nz (slabs k)); [by apply wp_store|by apply wp_skip]. }
  intros [] _ ->. apply HQ. split.
  - unfold lo32. rewrite H6 by (intros H0; specialize (Hoff H0 0); lia). unfold m5. rewrite !ld_st_ne by lia. rewrite ld_st_eq, with_hi_low, ld_st_eq, with_lo_low. done.
  - rewrite H6 by (intros H0; by apply Hoff). unfold m5. rewrite !ld_st_ne by lia. apply ld_st_eq.
  - rewrite H6 by (intros H0; by apply Hoff). unfold m5. rewrite !ld_st_ne by lia. apply ld_st_eq.
  - rewrite H6 by (intros H0; by apply Hoff). apply ld_st_eq.
  - intros H0. unfold m6. rewrite (proj2 (nz_spec _) H0). apply ld_st_eq.
  - intros a Ha Hb. rewrite H6 by done. unfold m5. by rewrite !ld_st_ne by lia.
Qed.

(** The objects of the new slab, the first of them taken. *)
Lemma fill_run c f k h m0 hd Q :
  0 ≤ c < 8 → h_caches h !! c = Some k → obj_size k = sz c → obj_per_slab k = per_slab c → cache_id k = c →
  (hd = 0 ∨ ∃ g, hd = fa g ∧ g ≠ f) → header m0 (h_mem h) c f hd →
  (∀ m o F, header m0 m c f hd → slab_page m c f F → objs c f ≡ₚ o :: F →
    Q o (set_caches (<[c := mkCache (sz c) (fa f) (per_slab c) c]> (h_caches h)) (set_mem m h))) →
  wp (set_slabs (c + 1) (fa f) ;!
      let! r := carve (obj_size k) (fa f + FRAME_SIZE) (fa f + SIZEOF_SLAB) in
      let '(head, count) := r in
      set_freelist (fa f) head ;! set_total (fa f) count ;!
      let! obj := pop_object (fa f) in
      set_in_use (fa f) 1 ;! ret obj) h Q.
Proof.
  intros Hc Hk Hsz Hper Hid Hhd [Hm Hca Hn Hp Hb Hout] HQ. pose proof (sz_range c Hc) as Hszr.
  wp_step. apply (wp_set_slabs c k); [done|done|]. rewrite Hsz, Hper, Hid. wp_step.
  eapply wp_mono; [apply (carve_run c f); done|]. intros [head count] ? (m1 & -> & Hch & Hm1). cbn [fst] in Hch.
  unfold set_freelist, pop_object, get_freelist. wp_step. apply wp_store. wp_step. apply wp_set_total. intros w.
  destruct (reverse (objs c f)) as [|o F] eqn:Er.
  { apply (f_equal length) in Er. rewrite length_reverse in Er. pose proof (objs_length c f Hc). pose proof (per_slab_range c Hc). simpl in Er. lia. }
  destruct Hch as [-> Hch]. assert (Hperm : objs c f ≡ₚ o :: F) by (by rewrite <- Er, reverse_Permutation).
  assert (Hhdr : ∀ j, j < 48 → fa f + j ∉ objs c f).
  { intros j Hj Hin. pose proof (objs_bound c f _ Hc Hin). lia. }
  assert (Hob : ∀ x, x ∈ o :: F → fa f + 48 ≤ x) by (intros x Hx; rewrite <- Hperm in Hx; by apply (objs_bound c f x Hc)).
  pose proof (Hob o ltac:(left)) as Ho.
  wp_step. wp_step. apply wp_load. cbn [h_mem set_mem set_caches]. rewrite (ld_st_ne _ (fa f + 8)), ld_st_eq by lia.
  wp_step. apply wp_load. cbn [h_mem set_mem set_caches]. rewrite !ld_st_ne by lia.
  wp_step. apply wp_store. wp_step. wp_step. apply wp_set_in_use. wp_step. cbn [h_mem set_mem set_caches].
  match goal with |- Q o ?h' => set (h2 := h') end.
  match goal with h2 := context [set_mem (st ?a ?b ?v) _] |- _ => set (m2 := st a b v) in h2 end.
  assert (H2 : ∀ a, a ≠ fa f → a ≠ fa f + 16 → a ≠ fa f + 8 → ld m2 a = ld m1 a) by (intros a ? ? ?; unfold m2; by rewrite !ld_st_ne by lia).
  assert (Hh : ∀ j, 16 < j < 48 → ld m2 (fa f + j) = ld (h_mem h) (fa f + j)).
  { intros j Hj. rewrite H2 by lia. apply Hm1, Hhdr. lia. }
  apply (HQ m2 o F); [split|split|done]; unfold lo32, hi32.
  - unfold m2. rewrite ld_st_eq, with_hi_low, !ld_st_ne by lia. rewrite Hm1; [exact Hm|]. replace (fa f) with (fa f + 0) by lia. apply Hhdr. lia.
  - by rewrite Hh by lia.
  - by rewrite Hh by lia.
  - by rewrite Hh by lia.
  - intros H0. destruct Hhd as [|(g & -> & Hg)]; [done|]. rewrite H2 by (unfold fa; lia). rewrite Hm1; [by apply Hb|].
    intros Hin. apply Hg. symmetry. apply (objs_page c f g _ Hc) in Hin; [done|]. lia.
  - intros a Ha Hb'. rewrite H2 by lia. rewrite Hm1; [by apply Hout|]. intros Hin. pose proof (objs_bound c f a Hc Hin). lia.
  - unfold m2. rewrite ld_st_eq, with_hi_low, !ld_st_ne by lia. rewrite Hm1; [exact Hm|]. replace (fa f) with (fa f + 0) by lia. apply Hhdr. lia.
  - unfold m2. rewrite ld_st_eq, with_hi_high. change (u32 1) with 1. apply (f_equal length) in Er. rewrite length_reverse in Er.
    pose proof (objs_length c f Hc). simpl in Er. lia.
  - by rewrite Hh by lia.
  - assert (E16 : ld m2 (fa f + 16) = ld m1 o) by (unfold m2; rewrite (ld_st_ne _ (fa f)) by lia; apply ld_st_eq).
    rewrite E16. eapply chain_ext; [|exact Hch]. intros x Hx. pose proof (Hob x ltac:(by right)). apply H2; lia.
  - intros x Hx. rewrite Hperm. by right.
Qed.

(** A frame in no live block. *)
Lemma fresh_frame h L f :
  pa_rel h L → free_run L f 0 → 0 ≤ f < 16384 ∧ L !! f = None ∧ ∀ a, stable L a → ¬ fa f ≤ a < fa f + 4096.
Proof.
  intros HR Hrun. pose proof (free_run_bound _ _ _ Hrun) as Hb. split; [done|]. split.
  - destruct (L !! f) as [[o u]|] eqn:E; [|done]. by destruct (free_run_fresh L h f 0 o u HR Hrun).
  - intros a Hst Ha. destruct Hrun as (_ & _ & _ & _ & Hno). apply (Hno f); [simpl; lia|]. by apply Hst.
Qed.

Lemma kinv_fresh h L S live h1 L1 :
  kinv h L S live → rest_same h h1 → contents_kept L h h1 → pa_rel h1 L1 →
  (∀ g x, L !! g = Some x → L1 !! g = Some x) → kinv h1 L1 S live.
Proof.
  intros [HR HS] Hrest Hkept HR1 Hsub. split; [done|]. apply (slabs_ok_frame h L S live); [done|done| |].
  - intros g Hg _. by apply Hsub.
  - intros c f F a Hc Hf Ha. apply Hkept. by apply (slab_stable h L S live HS c f F).
Qed.

Lemma new_slab_grown h L S live h1 c f F o m hd :
  kinv h L S live → 0 ≤ c < 8 → free_run L f 0 → rest_same h h1 → contents_kept L h h1 →
  pa_rel h1 (<[f := (0, false)]> L) → h_caches h !! c = Some (mkCache (sz c) hd (per_slab c) c) →
  dll (nx (h_mem h)) (pv (h_mem h)) 0 hd (fa <$> (S c).*1) → header (h_mem h1) m c f hd → slab_page m c f F →
  objs c f ≡ₚ o :: F →
  grown_to h L S live (set_caches (<[c := mkCache (sz c) (fa f) (per_slab c) c]> (h_caches h1)) (set_mem m h1))
    (<[f := (0, false)]> L) (at_cache S c ((f, F) :: S c)) (at_cache live c (o :: live c)).
Proof.
  intros HK Hc Hrun Hrest Hkept HR1 Hk Hd Hhdr Hpg Hperm. pose proof HK as [HR HS].
  destruct (fresh_frame h L f HR Hrun) as (Hfb & HLf & Hfree).
  assert (Hnew : ∀ c' G, 0 ≤ c' < 8 → (f, G) ∉ S c').
  { intros c' G Hc' Hg. destruct (so_slab _ _ _ _ HS c' f G Hc' Hg) as [E _]. congruence. }
  assert (HK1 : kinv h1 (<[f := (0, false)]> L) S live).
  { apply (kinv_fresh h L); try done. intros g x Hg. rewrite lookup_insert_ne; [done|]. intros <-. congruence. }
  destruct Hrest as (Ec & Ep & Eo & _). destruct Hhdr as [Hm Hca Hn Hp Hb Hout].
  assert (Hd1 : dll (nx (h_mem h1)) (pv (h_mem h1)) 0 hd (fa <$> (S c).*1)).
  { destruct (so_cache _ _ _ _ (proj2 HK1) c Hc) as (hd1 & E1 & Hd1). rewrite Ec, Hk in E1. by simplify_eq. }
  split.
  - split.
    + apply pa_rel_caches, pa_rel_mem; [done|]. intros a Ha. apply Hout.
      * intros Hin. apply Ha. apply (stable_in _ f); [|done]. exists f, 0, false. rewrite lookup_insert_eq. split; [done|simpl; lia].
      * intros H0 ->. apply Ha. destruct (S c) as [|[g G] l] eqn:ES; [by destruct H0|]. destruct Hd1 as (-> & _). simpl fst.
        apply (slab_stable h1 _ S live (proj2 HK1) c g G); [done|rewrite ES; left|lia].
    + apply (slabs_ok_new h1 (<[f := (0, false)]> L) S live (proj2 HK1) c hd f F o m); try done; try lia; [by rewrite Ec|apply lookup_insert_eq|].
      rewrite Ep. intros Hin. destruct (so_pool _ _ _ _ HS _ Hin) as (g & E%fa_inj & Hg & _). subst g. congruence.
  - intros c' x _ Hx. unfold at_cache. case_decide; [subst; by right|done].
  - intros a [Hst Hout']. split.
    + intros g Hg Hga. destruct (Hst g Hg Hga) as (i & p & u & Hi & Hr). exists i, p, u. split; [|done].
      rewrite lookup_insert_ne; [done|]. intros <-. congruence.
    + intros c' g G Hc' Hg. destruct (decide (c' = c)) as [-> |]; [|rewrite at_cache_ne in Hg by done; by apply (Hout' c' g G)].
      rewrite at_cache_eq in Hg. apply elem_of_cons in Hg as [[= -> ->]|Hg]; [by apply Hfree|by apply (Hout' c g G)].
  - assert (Hiff : ∀ g, g ≠ f → slab_frame (at_cache S c ((f, F) :: S c)) g ↔ slab_frame S g).
    { intros g Hne. split; intros (c' & G & Hc' & Hg); exists c', G; (split; [done|]); unfold at_cache in *; case_decide; subst; try done.
      - by apply elem_of_cons in Hg as [[= -> ->]|?].
      - by right. }
    intros g x. destruct (decide (g = f)) as [-> |Hne]; [|rewrite lookup_insert_ne by done; by rewrite Hiff].
    split; [|intros [E _]; congruence]. intros [_ Hn']. exfalso. apply Hn'. exists c, F. split; [done|]. rewrite at_cache_eq. left.
  - intros a Ha. cbn [h_mem set_caches set_mem]. pose proof (safe_stable h L S live a HS Ha) as Hst.
    rewrite Hout; [by apply Hkept|by apply Hfree|]. intros H0. destruct (S c) as [|[g G] l] eqn:ES; [by destruct H0|].
    destruct Hd1 as (-> & _). apply (safe_header h L S live HS c g G); [done|done|rewrite ES; left|lia].
Qed.

Lemma slab_alloc_run h L S live c :
  kinv h L S live → 0 ≤ c < 8 →
  wp (slab_alloc (c + 1)) h (λ r h', h_pcpu_objects h' = h_pcpu_objects h ∧ h_pcpu_pages h' = h_pcpu_pages h ∧
    ((r = 0 ∧ grown_to h L S live h' L S live ∧ ∀ f, ¬ free_run L f 0) ∨
     (r ≠ 0 ∧ ∃ L' S', grown_to h L S live h' L' S' (at_cache live c (r :: live c))))).
Proof.
  intros HK Hc. pose proof HK as [HR HS]. destruct (so_cache _ _ _ _ HS c Hc) as (hd & Hhd & Hd).
  unfold slab_alloc. replace (nz (c + 1)) with true by (symmetry; apply nz_spec; lia). cbn [negb].
  wp_step. eapply wp_cache_at; [done|exact Hhd|]. cbn [slabs]. wp_step.
  eapply wp_mono; [by apply (find_slab_run h L S live c hd)|].
  intros s ? [-> [(-> & _)|(l1 & f & o & F & l2 & HSc & -> & Hs0)]].
  - change (nz 0) with false. cbv iota. wp_step. eapply wp_mono; [by apply (alloc_block_spec h L 0 false)|].
    intros r h1 (Hrest & Hkept & [(-> & HR1 & Hnone)|(f & -> & Hrun & HR1)]).
    + change (nz 0) with false. cbn [negb]. wp_step. pose proof Hrest as (_ & E1 & E2 & _). split_and!; [done|done|]. left.
      split; [done|]. split; [|done]. split; [by apply (kinv_fresh h L)|done|done|done|]. intros a Ha. apply Hkept. by eapply safe_stable.
    + destruct (fresh_frame h L f HR Hrun) as (Hfb & HLf & _).
      assert (Hf0 : fa f ≠ 0) by (unfold fa, HEAP_PHYS; lia). rewrite (proj2 (nz_spec _) Hf0). cbn [negb].
      assert (Hh : hd = 0 ∨ ∃ g, hd = fa g ∧ g ≠ f).
      { destruct (S c) as [|[g G] l] eqn:ES; [by left|]. destruct Hd as (-> & _). right. exists g. split; [done|]. intros ->.
        destruct (so_slab _ _ _ _ HS c f G Hc) as [E _]; [rewrite ES; left|congruence]. }
      pose proof Hrest as (Ec & Ep & Eo & _).
      eapply header_run; [done|rewrite Ec; exact Hhd|done|]. intros m Hhdr. cbn [slabs] in Hhdr.
      eapply (fill_run c f _ (set_mem m h1)); [done|cbn [h_caches set_mem]; rewrite Ec; exact Hhd|done|done|done|exact Hh|exact Hhdr|].
      intros m2 o F Hhdr2 Hpg Hperm. cbn [h_pcpu_objects h_pcpu_pages set_caches set_mem h_caches].
      split_and!; [done|done|]. right. split.
      * pose proof (objs_bound c f o Hc) as Hb. rewrite Hperm in Hb. specialize (Hb ltac:(left)). unfold fa, HEAP_PHYS in Hb. lia.
      * eexists _, _. by apply (new_slab_grown h L S live h1 c f F o m2 hd).
  - rewrite (proj2 (nz_spec _) Hs0).
    assert (Hf : (f, o :: F) ∈ S c) by (rewrite HSc; apply elem_of_app; right; left).
    destruct (so_slab _ _ _ _ HS c f _ Hc Hf) as [_ Hpg].
    pose proof (slab_nodup h L S live c f _ HS Hc Hf) as Hnd.
    apply (wp_take c f o F); [done|done|done|]. intros m' Hpg' Hm'. wp_step. split_and!; [done|done|]. right. split.
    + pose proof (objs_bound c f o Hc (sp_sub _ _ _ _ Hpg o ltac:(left))). pose proof (slab_bound h L S live HR HS c f _ Hc Hf).
      unfold fa, HEAP_PHYS in *. lia.
    + destruct (so_objs _ _ _ _ HS c Hc) as (P & HP & HlP & _). eexists _, _. rewrite <- (objects_id h c P m') by done.
      apply (take_grown h L S live c l1 f o F l2 m' P P); try done.
      * rewrite at_cache_eq. by rewrite <- Permutation_middle.
      * intros c' Hne. by rewrite at_cache_ne.
      * intros x Hx. rewrite at_cache_eq. by right.
Qed.

(** ** Filling the pool *)

Lemma refill_run h L S live c f F :
  kinv h L S live → 0 ≤ c < 8 → (f, F) ∈ S c → h_pcpu_objects h !! c = Some [] →
  wp (refill c (fa f)) h (λ _ h', h_pcpu_pages h' = h_pcpu_pages h ∧ ∃ S', grown_to h L S live h' L S' live).
Proof.
  intros HK Hc Hf HP. unfold refill, PCPU_OBJ_REFILL.
  eapply (wp_loop (λ want h1, ∃ S1 P1 F1, grown_to h L S live h1 L S1 live ∧ h_pcpu_objects h1 !! c = Some P1 ∧
    Z.of_nat (length P1) ≤ 8 - want ∧ 0 ≤ want ∧ (f, F1) ∈ S1 c ∧ h_pcpu_pages h1 = h_pcpu_pages h) (λ want _, Z.to_nat want)).
  - intros want h1 (S1 & P1 & F1 & Hg & HP1 & Hlen & Hw & Hf1 & Hpg).
    destruct (Z.ltb_spec 0 want) as [Hlt|Hge]; [|wp_step; split; [done|by exists S1]].
    pose proof (gt_inv _ _ _ _ _ _ _ _ Hg) as HK1. pose proof HK1 as [HR1 HS1].
    destruct (so_slab _ _ _ _ HS1 c f F1 Hc Hf1) as [_ Hpage]. unfold get_freelist. wp_step. apply wp_load.
    destruct F1 as [|o F1]; pose proof (sp_free _ _ _ _ Hpage) as Hch; simpl in Hch.
    + rewrite Hch. change (nz 0) with false. cbv iota. wp_step. split; [done|]. by exists S1.
    + destruct Hch as [Eo _]. rewrite Eo.
      assert (Ho : o ≠ 0). { pose proof (objs_bound c f o Hc (sp_sub _ _ _ _ Hpage o ltac:(left))).
        pose proof (slab_bound h1 L S1 live HR1 HS1 c f _ Hc Hf1). unfold fa, HEAP_PHYS in *. lia. }
      rewrite (proj2 (nz_spec _) Ho). apply (wp_take c f o F1); [done|done|by apply (slab_nodup h1 L S1 live c f)|].
      intros m' Hpage' Hm'. pose proof (list_elem_of_split _ _ Hf1) as (l1 & l2 & HSc).
      wp_step. apply (wp_objects_of c P1); [done|done|]. unfold PCPU_OBJ_CACHE.
      replace (Z.of_nat (length P1) <? 16) with true by lia. wp_step. apply wp_set_objects; [done|]. wp_step.
      split; [|lia]. eexists _, (o :: P1), F1. split_and!; [|cbn [h_pcpu_objects set_pcpu_objects set_mem]; by rewrite lookup_insert_eq|simpl; lia|lia| |done].
      * eapply grown_to_trans; [exact Hg|]. by apply (take_grown h1 L S1 live c l1 f o F1 l2 m' P1); [..|simpl; lia| |].
      * rewrite at_cache_eq. apply elem_of_app. right. left.
  - exists S, [], F. split_and!; [split; done|done|simpl; lia|lia|done|done].
  - simpl. lia.
Qed.

Lemma pcpu_alloc_run h L S live c :
  kinv h L S live → 0 ≤ c < 8 →
  wp (pcpu_slab_alloc (c + 1)) h (λ r h', h_pcpu_pages h' = h_pcpu_pages h ∧
    ((r = 0 ∧ grown_to h L S live h' L S live ∧ ∀ f, ¬ free_run L f 0) ∨
     (r ≠ 0 ∧ ∃ L' S', grown_to h L S live h' L' S' (at_cache live c (r :: live c))))).
Proof.
  intros HK Hc. pose proof HK as [HR HS]. destruct (so_cache _ _ _ _ HS c Hc) as (hd & Hhd & _).
  destruct (so_objs _ _ _ _ HS c Hc) as (P & HP & HlP & Hperm).
  unfold pcpu_slab_alloc. wp_step. eapply wp_cache_at; [done|exact Hhd|]. cbn [cache_id].
  wp_step. apply (wp_objects_of c P); [done|done|]. destruct P as [|o P].
  - wp_step. eapply wp_mono; [by apply (slab_alloc_run h L S live c)|].
    intros r h1 (Eo & Ep & [(-> & Hg & Hnone)|(Hr & L1 & S1 & Hg)]).
    + change (nz 0) with false. cbn [negb]. wp_step. split; [done|]. by left.
    + rewrite (proj2 (nz_spec _) Hr). cbn [negb]. pose proof (gt_inv _ _ _ _ _ _ _ _ Hg) as HK1.
      destruct (live_page h1 L1 S1 _ c r HK1 Hc) as (f & F & Hf & _ & Hpage & _); [rewrite at_cache_eq; left|].
      rewrite Hpage. wp_step. eapply wp_mono; [apply (refill_run h1 L1 S1 _ c f F HK1 Hc Hf); by rewrite Eo|].
      intros [] h2 (Ep2 & S2 & Hg2). wp_step. split; [congruence|]. right. split; [done|]. exists L1, S2.
      by eapply grown_to_trans.
  - wp_step. apply wp_set_objects; [done|]. wp_step. split; [done|]. right. split.
    + assert (Ho : o ∈ all_objs c (S c)) by (rewrite Hperm, !elem_of_app; right; left; left).
      apply all_objs_elem in Ho as (f & F & Hf & Ho). pose proof (objs_bound c f o Hc Ho).
      pose proof (slab_bound h L S live HR HS c f F Hc Hf). unfold fa, HEAP_PHYS in *. lia.
    + exists L, S. split; try done.
      * split; [by apply pa_rel_objects|]. apply (slabs_ok_pool h L S live c (o :: P)); [done|done|done| |simpl in HlP; lia|].
        -- rewrite at_cache_eq. simpl. by rewrite <- Permutation_middle.
        -- intros c' Hne. by rewrite at_cache_ne.
      * intros c' x _ Hx. unfold at_cache. case_decide; [subst; by right|done].
Qed.
