(* ===== verification/Kmalloc.v ===== *)
(** * Kmalloc: what the kernel allocator promises its callers

    The abstract state is the set of blocks in use: address, size and whether the
    block belongs to user space.  [kmalloc] adds a block that is disjoint from all
    the others, [kfree] takes one away, and neither changes a word of a block that
    stays in use.  Slabs, free lists and pools do not show. *)

From Stdlib Require Import ZArith Lia.
From stdpp Require Import gmap list prelude.
From S2P Require Import Prelude KHeap Buddy BuddyInv BuddyProof PageAlloc Slab SlabInv SlabProof.

(** ** Blocks *)

Abbreviation blocks := (gmap Z (Z * bool)).

(** A block of a caller: an object of a slab, or a block of pages that is neither
    a slab nor in the pool. *)
Definition owned (pool : list Z) (L : pa_state) (S : Z → slab_list) (live : Z → list Z) (p n : Z) (u : bool) : Prop :=
  (∃ c, 0 ≤ c < 8 ∧ p ∈ live c ∧ n = sz c ∧ u = false) ∨
  (∃ f o, p = fa f ∧ L !! f = Some (o, u) ∧ n = 4096 * 2 ^ o ∧ ¬ slab_frame S f ∧ p ∉ pool).

Definition krel (h : heap) (L : pa_state) (B : blocks) : Prop :=
  ∃ S live, kinv h L S live ∧ ∀ p n u, B !! p = Some (n, u) ↔ owned (h_pcpu_pages h) L S live p n u.

(** The words the allocator has no business with: outside the heap, or in a
    block in use. *)
Definition kept (B : blocks) (h h' : heap) : Prop :=
  ∀ a, (a < HEAP_PHYS ∨ HEAP_PHYS + HEAP_SIZE ≤ a ∨ ∃ p n u, B !! p = Some (n, u) ∧ p ≤ a < p + n) →
    ld (h_mem h') a = ld (h_mem h) a.

(** [n] bytes at [p], in the heap, aligned, apart from the blocks of [B]. *)
Definition fresh_block (B : blocks) (p n : Z) : Prop :=
  HEAP_PHYS ≤ p ∧ p + n ≤ HEAP_PHYS + HEAP_SIZE ∧ (16 | p) ∧ B !! p = None ∧
  ∀ q m u, B !! q = Some (m, u) → p + n ≤ q ∨ q + m ≤ p.

(** *** Blocks are apart *)

Section owned.
Context (h : heap) (L : pa_state) (S : Z → slab_list) (live : Z → list Z) (HK : kinv h L S live).
Context (pool : list Z).

Lemma object_place c o : 0 ≤ c < 8 → o ∈ live c →
  ∃ f F, (f, F) ∈ S c ∧ o ∈ objs c f ∧ 0 ≤ f < 16384 ∧ fa f + 48 ≤ o ∧ o + sz c ≤ fa f + 4096.
Proof.
  intros Hc Ho. destruct (live_page h L S live c o HK Hc Ho) as (f & F & Hf & Hof & _ & Hb).
  pose proof (objs_bound c f o Hc Hof). exists f, F. split_and!; tauto || lia.
Qed.

Lemma page_place f o u : L !! f = Some (o, u) → 0 ≤ o ≤ 14 ∧ 0 ≤ f ∧ f + 2 ^ o ≤ 16384.
Proof.
  intros Hf. destruct (proj1 HK) as (H & HI & HL). apply HL in Hf.
  pose proof (til_ok _ (bi_til _ _ (proj1 HI)) _ _ _ Hf). lia.
Qed.

Lemma pages_apart f o u g p v :
  L !! f = Some (o, u) → L !! g = Some (p, v) → f = g ∨ f + 2 ^ o ≤ g ∨ g + 2 ^ p ≤ f.
Proof.
  intros Hf Hg. pose proof (page_place f o u Hf). pose proof (page_place g p v Hg).
  destruct (proj1 HK) as (T & HI & HL). apply HL in Hf, Hg.
  destruct (decide (f = g)); [by left|right].
  destruct (Z.le_gt_cases (f + 2 ^ o) g); [by left|]. destruct (Z.le_gt_cases (g + 2 ^ p) f); [by right|]. exfalso.
  pose proof (pow2_pos o ltac:(lia)). pose proof (pow2_pos p ltac:(lia)).
  by destruct (til_same_frame _ _ _ _ _ _ _ (Z.max f g) (bi_til _ _ (proj1 HI)) Hf Hg); [lia..|].
Qed.

Lemma owned_bound p n u : owned pool L S live p n u → HEAP_PHYS ≤ p ∧ 0 < n ∧ p + n ≤ HEAP_PHYS + HEAP_SIZE ∧ (16 | p).
Proof.
  intros [(c & Hc & Ho & -> & _)|(f & o & -> & Hf & -> & _)].
  - destruct (object_place c p Hc Ho) as (f & F & _ & Hof & Hb & Hp). pose proof (sz_range c Hc).
    unfold fa, HEAP_PHYS, HEAP_SIZE in *. split_and!; try lia. apply objs_elem in Hof as (i & -> & _).
    unfold sz, fa, HEAP_PHYS. rewrite Z.pow_add_r by lia. exists (655360 + 256 * f + 3 + 2 ^ c * i). lia.
  - pose proof (page_place f o u Hf). pose proof (pow2_pos o ltac:(lia)). unfold fa, HEAP_PHYS, HEAP_SIZE.
    split_and!; try lia. exists (655360 + 256 * f). lia.
Qed.

(** An object is not in a block of pages. *)
Lemma object_outside c o f k u :
  0 ≤ c < 8 → o ∈ live c → L !! f = Some (k, u) → ¬ slab_frame S f → o + sz c ≤ fa f ∨ fa f + 4096 * 2 ^ k ≤ o.
Proof.
  intros Hc Ho Hf Hns. destruct (object_place c o Hc Ho) as (g & G & Hg & _ & Hb & Hlo & Hhi).
  destruct (so_slab _ _ _ _ (proj2 HK) c g G Hc Hg) as [Hl _].
  destruct (pages_apart f k u g 0 false Hf Hl) as [-> |[H|H]].
  - exfalso. apply Hns. by exists c, G.
  - right. unfold fa in *. lia.
  - left. change (2 ^ 0) with 1 in H. unfold fa in *. lia.
Qed.

Lemma objects_apart c o c' o' :
  0 ≤ c < 8 → 0 ≤ c' < 8 → o ∈ live c → o' ∈ live c' → (o = o' ∧ c = c') ∨ o + sz c ≤ o' ∨ o' + sz c' ≤ o.
Proof.
  intros Hc Hc' Ho Ho'. destruct (object_place c o Hc Ho) as (f & F & Hf & Hof & Hb & Hlo & Hhi).
  destruct (object_place c' o' Hc' Ho') as (g & G & Hg & Hog & Hb' & Hlo' & Hhi').
  destruct (decide (f = g)) as [-> |Hne]; [|right; unfold fa in *; lia].
  assert (c = c') as -> by (by apply (so_apart _ _ _ _ (proj2 HK) c c' g F G)).
  pose proof (sz_range c' Hc').
  destruct (Z.le_gt_cases (o + sz c') o'); [by right; left|]. destruct (Z.le_gt_cases (o' + sz c') o); [by right; right|].
  left. split; [|done]. by apply (objs_apart c' g o o' (Z.max o o') Hc' Hof Hog); lia.
Qed.

Lemma owned_apart p n u q m v :
  owned pool L S live p n u → owned pool L S live q m v → (p = q ∧ n = m ∧ u = v) ∨ p + n ≤ q ∨ q + m ≤ p.
Proof.
  intros [(c & Hc & Ho & -> & ->)|(f & o & -> & Hf & -> & Hns & _)] [(c' & Hc' & Ho' & -> & ->)|(g & k & -> & Hg & -> & Hns' & _)].
  - destruct (objects_apart c p c' q Hc Hc' Ho Ho') as [[-> ->]|]; [by left|by right].
  - right. by apply (object_outside c p g k v).
  - destruct (object_outside c' q f o u Hc' Ho' Hf Hns); [by right; right|by right; left].
  - destruct (pages_apart f o u g k v Hf Hg) as [-> |[|]]; [left; by simplify_eq|right; left|right; right]; unfold fa; lia.
Qed.

(** The words of a block, and those outside the heap, are the callers'. *)
Lemma owned_safe p n u a : owned pool L S live p n u → p ≤ a < p + n → safe L S live a.
Proof.
  intros [(c & Hc & Ho & -> & _)|(f & o & -> & Hf & -> & Hns & _)] Ha; [left; by exists c, p|right].
  pose proof (page_place f o u Hf) as Hp. split.
  - intros g Hg Hga. exists f, o, u. split; [done|]. unfold fa in *. lia.
  - intros c g G Hc Hg Hga. destruct (so_slab _ _ _ _ (proj2 HK) c g G Hc Hg) as [Hl _].
    destruct (pages_apart f o u g 0 false Hf Hl) as [-> |[H|H]];
      [by apply Hns; exists c, G|unfold fa in *; lia|change (2 ^ 0) with 1 in H; unfold fa in *; lia].
Qed.

Lemma far_safe a : a < HEAP_PHYS ∨ HEAP_PHYS + HEAP_SIZE ≤ a → safe L S live a.
Proof.
  intros Ha. right. split.
  - intros f Hf Hfa. unfold fa, HEAP_PHYS, HEAP_SIZE in *. lia.
  - intros c f F Hc Hf Hfa. pose proof (slab_bound h L S live (proj1 HK) (proj2 HK) c f F Hc Hf).
    unfold fa, HEAP_PHYS, HEAP_SIZE in *. lia.
Qed.

End owned.

Lemma safe_kept h0 h L S live B h' :
  kinv h0 L S live → (∀ p n u, B !! p = Some (n, u) → ∃ pool, owned pool L S live p n u) →
  (∀ a, safe L S live a → ld (h_mem h') a = ld (h_mem h) a) → kept B h h'.
Proof.
  intros HK HB Hm a Ha. apply Hm. destruct Ha as [Ha|[Ha|(p & n & u & Hp & Ha)]].
  - eapply far_safe; [done|by left].
  - eapply far_safe; [done|by right].
  - destruct (HB p n u Hp) as [pool Ho]. by apply (owned_safe h0 L S live HK pool p n u).
Qed.

(** *** One block more, one block less *)

(** The blocks [O'] are the blocks [O] and one more. *)
Definition one_more (O O' : Z → Z → bool → Prop) (p n : Z) (u : bool) : Prop :=
  (∀ q m v, O' q m v ↔ O q m v ∨ (q = p ∧ m = n ∧ v = u)) ∧ ∀ m v, ¬ O p m v.

Lemma krel_add h L B S live h' L' S' live' p n u :
  (∀ q m v, B !! q = Some (m, v) ↔ owned (h_pcpu_pages h) L S live q m v) → kinv h' L' S' live' →
  one_more (owned (h_pcpu_pages h) L S live) (owned (h_pcpu_pages h') L' S' live') p n u →
  krel h' L' (<[p := (n, u)]> B) ∧ fresh_block B p n.
Proof.
  intros HB HK' [Hown Hnew].
  assert (Hp : owned (h_pcpu_pages h') L' S' live' p n u) by (apply Hown; by right).
  assert (HBp : B !! p = None) by (destruct (B !! p) as [[m v]|] eqn:E; [apply HB in E; by destruct (Hnew m v)|done]).
  split.
  - exists S', live'. split; [done|]. intros q m v. rewrite Hown, <- HB, lookup_insert_Some.
    destruct (decide (p = q)) as [<-|Hne]; [rewrite HBp|]; intuition congruence.
  - pose proof (owned_bound h' L' S' live' HK' _ p n u Hp) as (H1 & H2 & H3 & H4). split_and!; try done.
    intros q m v Hq. assert (Hq' : owned (h_pcpu_pages h') L' S' live' q m v) by (apply Hown; left; by apply HB).
    destruct (owned_apart h' L' S' live' HK' _ p n u q m v Hp Hq') as [(-> & _)|?]; [congruence|done].
Qed.

Lemma krel_del h L B S live h' L' S' live' p n u :
  (∀ q m v, B !! q = Some (m, v) ↔ owned (h_pcpu_pages h) L S live q m v) → kinv h' L' S' live' →
  one_more (owned (h_pcpu_pages h') L' S' live') (owned (h_pcpu_pages h) L S live) p n u →
  (∀ a, safe L' S' live' a → ld (h_mem h') a = ld (h_mem h) a) →
  krel h' L' (delete p B) ∧ kept (delete p B) h h'.
Proof.
  intros HB HK' [Hown Hnew] Hm.
  assert (HB' : ∀ q m v, delete p B !! q = Some (m, v) ↔ owned (h_pcpu_pages h') L' S' live' q m v).
  { intros q m v. rewrite lookup_delete_Some, HB, Hown. destruct (decide (p = q)) as [<-|Hne]; [|intuition congruence].
    specialize (Hnew m v). tauto. }
  split; [by exists S', live'|]. eapply safe_kept; [done| |done]. intros q m v Hq. eexists. by apply HB'.
Qed.

Lemma kept_old h L B S live h' :
  kinv h L S live → (∀ q m v, B !! q = Some (m, v) ↔ owned (h_pcpu_pages h) L S live q m v) →
  (∀ a, safe L S live a → ld (h_mem h') a = ld (h_mem h) a) → kept B h h'.
Proof. intros HK HB Hm. eapply safe_kept; [done| |done]. intros q m v Hq. eexists. by apply HB. Qed.

(** What makes an object of a caller a block of its own. *)
Lemma object_alone h L S live c r :
  kinv h L S live → 0 ≤ c < 8 → r ∈ live c →
  NoDup (live c) ∧ (∀ c', 0 ≤ c' < 8 → c' ≠ c → r ∉ live c') ∧ ∀ f, r ≠ fa f.
Proof.
  intros HK Hc Hr. destruct (so_objs _ _ _ _ (proj2 HK) c Hc) as (P & HP & _ & _).
  pose proof (places_nodup h L S live (proj2 HK) c P Hc HP) as Hnd. rewrite !app_assoc in Hnd.
  apply NoDup_app in Hnd as (_ & _ & Hnd). split_and!; [done| |].
  - intros c' Hc' Hne Hr'. pose proof (sz_range c Hc). pose proof (sz_range c' Hc').
    destruct (objects_apart h L S live HK c r c' r Hc Hc' Hr Hr') as [[_ ?]|]; [congruence|lia].
  - intros f ->. destruct (object_place h L S live HK c _ Hc Hr) as (g & G & _ & _ & _ & Hlo & Hhi).
    pose proof (sz_range c Hc). unfold fa in *. lia.
Qed.

(** The state with [r] in the hands of a caller has one block more. *)
Lemma owned_objects pool h L S live L' S' live' c r :
  kinv h L' S' live' → 0 ≤ c < 8 → blocks_same L S L' S' → live' c ≡ₚ r :: live c → (∀ c', c' ≠ c → live' c' = live c') →
  one_more (owned pool L S live) (owned pool L' S' live') r (sz c) false.
Proof.
  intros HK Hc Hb Hl Hoth. assert (Hr : r ∈ live' c) by (rewrite Hl; left).
  destruct (object_alone h L' S' live' c r HK Hc Hr) as (Hnd & Hother & Hfa).
  rewrite Hl in Hnd. apply NoDup_cons in Hnd as [Hrl _]. split.
  - intros q m v. split.
    + intros [(c' & Hc' & Hq & -> & ->)|(f & o & -> & Hf & -> & Hns & Hp)].
      * destruct (decide (c' = c)) as [-> |Hne]; [|left; left; exists c'; by rewrite <- Hoth].
        rewrite Hl in Hq. apply elem_of_cons in Hq as [-> |Hq]; [by right|left; left; by exists c].
      * destruct (proj1 (Hb f (o, v)) (conj Hf Hns)) as [Hf' Hns']. left. right. by exists f, o.
    + intros [[(c' & Hc' & Hq & -> & ->)|(f & o & -> & Hf & -> & Hns & Hp)]|(-> & -> & ->)]; [| |left; by exists c].
      * left. exists c'. split; [done|]. split; [|done]. destruct (decide (c' = c)) as [-> |Hne]; [rewrite Hl; by right|by rewrite Hoth].
      * destruct (proj2 (Hb f (o, v)) (conj Hf Hns)) as [Hf' Hns']. right. by exists f, o.
  - intros m v [(c' & Hc' & Hq & _)|(f & o & E & _)]; [|by apply (Hfa f)].
    destruct (decide (c' = c)) as [-> |Hne]; [done|]. apply (Hother c' Hc' Hne). by rewrite Hoth.
Qed.

(** ** Objects *)

Lemma object_alloc h L B c :
  krel h L B → 0 ≤ c < 8 →
  wp (pcpu_slab_alloc (c + 1)) h (λ r h', kept B h h' ∧
    ((r = 0 ∧ krel h' L B ∧ ∀ f, ¬ free_run L f 0) ∨
     (r ≠ 0 ∧ fresh_block B r (sz c) ∧ ∃ L', krel h' L' (<[r := (sz c, false)]> B)))).
Proof.
  intros (S & live & HK & HB) Hc. eapply wp_mono; [by apply (pcpu_alloc_run h L S live c)|].
  intros r h' (Ep & [(-> & Hg & Hnone)|(Hr & L' & S' & Hg)]).
  - split; [by apply (kept_old h L B S live); [..|apply Hg]|]. left. split_and!; [done| |done].
    exists S, live. rewrite Ep. split; [apply Hg|done].
  - split; [by apply (kept_old h L B S live); [..|apply Hg]|]. right. split; [done|].
    pose proof (gt_inv _ _ _ _ _ _ _ _ Hg) as HK'.
    destruct (krel_add h L B S live h' L' S' (at_cache live c (r :: live c)) r (sz c) false) as [H1 H2]; [done|done| |by eauto].
    rewrite Ep. apply (owned_objects _ h' L S live L' S' _ c r HK' Hc); [apply Hg|by rewrite at_cache_eq|].
    intros c' Hne. by rewrite at_cache_ne.
Qed.

Lemma object_free h L B p n :
  krel h L B → B !! p = Some (n, false) → n < 4096 →
  ∃ f c, page_of p = fa f ∧ magic (h_mem h) (fa f) = SLAB_MAGIC ∧ ld (h_mem h) (fa f + 40) = c + 1 ∧ 0 ≤ c ∧
  wp (pcpu_slab_free p (fa f)) h (λ _ h', ∃ L', krel h' L' (delete p B) ∧ kept (delete p B) h h').
Proof.
  intros (S & live & HK & HB) Hp Hn. apply HB in Hp as [(c & Hc & Hr & -> & _)|(f & o & -> & Hf & -> & _)].
  2:{ pose proof (page_place h L S live HK f o false Hf). pose proof (pow2_pos o ltac:(lia)). lia. }
  destruct (live_page h L S live c p HK Hc Hr) as (f & F & Hf & _ & Hpage & _).
  destruct (so_slab _ _ _ _ (proj2 HK) c f F Hc Hf) as [_ Hpg]. exists f, c.
  split_and!; [done|apply Hpg|apply Hpg|lia|].
  apply elem_of_Permutation in Hr as [rest Hl]. rewrite <- Hpage.
  eapply wp_mono; [by apply (pcpu_free_run h L S live c p rest)|]. intros [] h' (Ep & L' & S' & Hft). exists L'.
  pose proof (ft_inv _ _ _ _ _ _ _ _ Hft) as HK'.
  apply (krel_del h L B S live h' L' S' (at_cache live c rest) p (sz c) false); [done|done| |apply Hft].
  rewrite Ep. apply (owned_objects _ h L' S' _ L S live c p HK Hc).
  - intros g x. symmetry. apply (ft_blocks _ _ _ _ _ _ _ _ Hft).
  - by rewrite at_cache_eq.
  - intros c' Hne. by rewrite at_cache_ne.
Qed.

(** ** Pages *)

(** Slabs and pages of the pool are blocks of order 0. *)
Lemma inner_block h L S live f :
  kinv h L S live → slab_frame S f ∨ fa f ∈ h_pcpu_pages h → L !! f = Some (0, false).
Proof.
  intros [HR HS] [(c & F & Hc & Hf)|Hf]; [apply (so_slab _ _ _ _ HS c f F Hc Hf)|].
  destruct (so_pool _ _ _ _ HS _ Hf) as (g & ->%fa_inj & Hg & _). done.
Qed.

(** Adding a block of pages that is neither a slab nor in the pool. *)
Lemma owned_page pool L S live f o u :
  L !! f = None → ¬ slab_frame S f → fa f ∉ pool → (∀ c, 0 ≤ c < 8 → fa f ∉ live c) →
  one_more (owned pool L S live) (owned pool (<[f := (o, u)]> L) S live) (fa f) (4096 * 2 ^ o) u.
Proof.
  intros HL Hns Hp Hob. split.
  - intros q m v. split.
    + intros [Hq|(g & k & -> & [(<- & [= <- <-])|[Hne Hg]]%lookup_insert_Some & -> & Hg1 & Hg2)]; [by left; left|by right|].
      left. right. by exists g, k.
    + intros [[Hq|(g & k & -> & Hg & -> & Hg1 & Hg2)]|(-> & -> & ->)]; [by left| |].
      * right. exists g, k. split_and!; try done. rewrite lookup_insert_ne; [done|congruence].
      * right. exists f, o. split_and!; try done. apply lookup_insert_eq.
  - intros m v [(c & Hc & Hq & _)|(g & k & ->%fa_inj & Hg & _)]; [by apply (Hob c)|congruence].
Qed.

(** Page addresses are not objects. *)
Lemma page_not_object h L S live f c : kinv h L S live → 0 ≤ c < 8 → fa f ∉ live c.
Proof. intros HK Hc Hin. destruct (object_alone h L S live c _ HK Hc Hin) as (_ & _ & Hf). by apply (Hf f). Qed.

Definition alloc_post (h : heap) (L : pa_state) (B : blocks) (o : Z) (n : Z) (u : bool) (r : Z) (h' : heap) : Prop :=
  kept B h h' ∧
  ((r = 0 ∧ krel h' L B ∧ ∀ f, ¬ free_run L f o) ∨
   (r ≠ 0 ∧ fresh_block B r n ∧ ∃ L', krel h' L' (<[r := (n, u)]> B))).

Lemma pages_alloc h L B o u : krel h L B → wp (buddy_alloc o u) h (alloc_post h L B o (4096 * 2 ^ o) u).
Proof.
  intros (S & live & HK & HB). eapply wp_mono; [by apply (alloc_block_spec h L o u); apply HK|].
  intros r h' (Hrest & Hkept & Hr). pose proof Hrest as (_ & Ep & _).
  assert (Hmem : ∀ a, safe L S live a → ld (h_mem h') a = ld (h_mem h) a).
  { intros a Ha. apply Hkept. eapply safe_stable; [apply HK|done]. }
  split; [by apply (kept_old h L B S live)|]. destruct Hr as [(-> & HR' & Hnone)|(f & -> & Hrun & HR')].
  - left. split_and!; [done| |done]. exists S, live. rewrite Ep. split; [by apply (kinv_fresh h L)|done].
  - pose proof (free_run_bound _ _ _ Hrun) as Hb. right. split; [unfold fa, HEAP_PHYS; lia|].
    assert (HLf : L !! f = None).
    { destruct (L !! f) as [[k v]|] eqn:E; [|done]. by destruct (free_run_fresh L h f o k v (proj1 HK) Hrun). }
    assert (HK' : kinv h' (<[f := (o, u)]> L) S live).
    { apply (kinv_fresh h L); try done. intros g x Hg. rewrite lookup_insert_ne; [done|congruence]. }
    destruct (krel_add h L B S live h' (<[f := (o, u)]> L) S live (fa f) (4096 * 2 ^ o) u) as [H1 H2]; [done|done| |by eauto].
    rewrite Ep. apply owned_page; [done| | |intros c Hc; by apply (page_not_object h L S live)];
      intros Hin; [assert (slab_frame S f ∨ fa f ∈ h_pcpu_pages h) as Hin' by (by left)
                  |assert (slab_frame S f ∨ fa f ∈ h_pcpu_pages h) as Hin' by (by right)];
      apply (inner_block h L S live f HK) in Hin'; congruence.
Qed.

(** A page moves between the pool and a caller. *)
Lemma pool_blocks L S live p pool :
  p ∉ pool → (∃ f, p = fa f ∧ L !! f = Some (0, false) ∧ ¬ slab_frame S f) → (∀ c, 0 ≤ c < 8 → p ∉ live c) →
  one_more (owned (p :: pool) L S live) (owned pool L S live) p 4096 false.
Proof.
  intros Hnd (f & -> & Hf & Hns) Hob. split.
  - intros q m v. split.
    + intros [Hq|(g & k & -> & Hg & -> & Hg1 & Hg2)]; [by left; left|].
      destruct (decide (g = f)) as [-> |Hne]; [right; by simplify_eq|left; right].
      exists g, k. split_and!; try done. rewrite elem_of_cons. intros [E%fa_inj|?]; done.
    + intros [[Hq|(g & k & -> & Hg & -> & Hg1 & Hg2)]|(-> & -> & ->)]; [by left| |].
      * right. exists g, k. split_and!; try done. intros Hin. apply Hg2. by right.
      * right. by exists f, 0.
  - intros m v [(c & Hc & Hq & _)|(g & k & _ & _ & _ & _ & Hn)]; [by apply (Hob c)|apply Hn; left].
Qed.

Lemma page_alloc_run h L B : krel h L B → wp pcpu_page_alloc h (alloc_post h L B 0 4096 false).
Proof.
  intros HR. pose proof HR as (S & live & HK & HB). unfold pcpu_page_alloc. wp_step. apply wp_gets.
  destruct (h_pcpu_pages h) as [|p pool] eqn:Ep; [by apply (pages_alloc h L B 0 false)|].
  wp_step. apply wp_modify. wp_step. split; [by apply (kept_old h L B S live); [|rewrite Ep|]|]. right.
  destruct (so_pool _ _ _ _ (proj2 HK) p) as (f & -> & Hf & Hn); [rewrite Ep; left|].
  pose proof (so_nodup_pool _ _ _ _ (proj2 HK)) as Hnd. rewrite Ep in Hnd. apply NoDup_cons in Hnd as [Hnp Hnd].
  pose proof (so_len_pool _ _ _ _ (proj2 HK)) as Hlen. rewrite Ep in Hlen. simpl in Hlen.
  pose proof (page_place h L S live HK f 0 false Hf). split; [unfold fa, HEAP_PHYS; lia|].
  assert (HK' : kinv (set_pcpu_pages pool h) L S live).
  { split; [apply pa_rel_pool, HK|]. destruct HK as [_ HS]. split; try apply HS; try done; [cbn; lia|].
    intros q Hq. apply (so_pool _ _ _ _ HS). rewrite Ep. by right. }
  destruct (krel_add h L B S live (set_pcpu_pages pool h) L S live (fa f) 4096 false) as [H1 H2]; [by rewrite Ep|done| |by eauto].
  rewrite Ep. apply pool_blocks; [done| |intros c Hc; by apply (page_not_object h L S live)].
  exists f. split_and!; [done|done|]. intros (c & F & Hc & HF). by apply (Hn c F).
Qed.

Lemma pages_free h L B f o u :
  krel h L B → B !! fa f = Some (4096 * 2 ^ o, u) → 0 ≤ o →
  wp (buddy_free (fa f) o) h (λ _ h', ∃ L', krel h' L' (delete (fa f) B) ∧ kept (delete (fa f) B) h h').
Proof.
  intros (S & live & HK & HB) Hp Ho. apply HB in Hp as [(c & Hc & Hq & _)|(g & k & <-%fa_inj & Hf & E & Hns & Hpool)];
    [by apply page_not_object with (h := h) (L := L) (S := S) in Hq|].
  assert (k = o) as -> by (pose proof (page_place h L S live HK f k u Hf); apply (Z.pow_inj_r 2); lia).
  eapply wp_mono; [by apply (free_block_spec h L f o u (proj1 HK))|]. intros [] h' (Hrest & HR' & Hkept).
  pose proof Hrest as (_ & Ep & _). exists (delete f L).
  assert (Hsub : ∀ g, slab_frame S g ∨ fa g ∈ h_pcpu_pages h → delete f L !! g = Some (0, false)).
  { intros g Hg. pose proof (inner_block h L S live g HK Hg). rewrite lookup_delete_ne; [done|].
    intros <-. destruct Hg as [Hg|Hg]; [by apply Hns|by apply Hpool]. }
  assert (HK' : kinv h' (delete f L) S live).
  { split; [done|]. apply (slabs_ok_frame h L S live); [apply HK|done|intros g _ Hg; by apply Hsub|].
    intros c g G a Hc Hg Ha. apply Hkept. apply (stable_in _ g); [|done]. exists g, 0, false.
    split; [apply Hsub; left; by exists c, G|simpl; lia]. }
  apply (krel_del h L B S live h' (delete f L) S live (fa f) (4096 * 2 ^ o) u); [done|done| |].
  - rewrite Ep. replace (owned (h_pcpu_pages h) L S live) with (owned (h_pcpu_pages h) (<[f := (o, u)]> (delete f L)) S live)
      by (by rewrite insert_delete_eq, insert_id).
    apply owned_page; [apply lookup_delete_eq|done|done|]. intros c Hc. by apply (page_not_object h L S live).
  - intros a Ha. apply Hkept. eapply safe_stable; [apply HK'|done].
Qed.

Lemma page_free_run h L B f :
  krel h L B → B !! fa f = Some (4096, false) →
  wp (pcpu_page_free (fa f)) h (λ _ h', ∃ L', krel h' L' (delete (fa f) B) ∧ kept (delete (fa f) B) h h').
Proof.
  intros HR Hp. pose proof HR as (S & live & HK & HB). unfold pcpu_page_free. wp_step. apply wp_gets.
  unfold PCPU_PAGE_POOL. destruct (Z.ltb_spec (Z.of_nat (length (h_pcpu_pages h))) 32) as [Hlt|Hge];
    [|by apply (pages_free h L B f 0 false)].
  apply wp_modify. exists L.
  destruct (proj1 (HB _ _ _) Hp) as [(c & Hc & Hq & _)|(g & k & Eg%fa_inj & Hf & E & Hns & Hpool)];
    [by apply page_not_object with (h := h) (L := L) (S := S) in Hq|]. subst g.
  assert (k = 0) as -> by (pose proof (page_place h L S live HK f k false Hf); apply (Z.pow_inj_r 2); lia).
  apply (krel_del h L B S live _ L S live (fa f) 4096 false); [done| | |done].
  - split; [apply pa_rel_pool, HK|]. destruct HK as [_ HS]. split; try apply HS; try done; cbn [h_pcpu_pages set_pcpu_pages].
    + apply NoDup_cons. split; [done|apply HS].
    + simpl. lia.
    + intros p [-> |Hin]%elem_of_cons; [|by apply (so_pool _ _ _ _ HS)]. exists f. split_and!; [done|done|].
      intros c F Hc HF. apply Hns. by exists c, F.
  - apply pool_blocks; [done| |intros c Hc; by apply (page_not_object h L S live)]. by exists f.
Qed.

(** ** [kmalloc] *)

Definition cache_sized (h : heap) : Prop :=
  ∀ c, 0 ≤ c < 8 → ∃ k, h_caches h !! c = Some k ∧ obj_size k = sz c.

Lemma krel_sized h L B : krel h L B → cache_sized h.
Proof.
  intros (S & live & HK & _) c Hc. destruct (so_cache _ _ _ _ (proj2 HK) c Hc) as (hd & Hhd & _). by eexists.
Qed.

(** The cache of a request: the first whose objects are large enough. *)
Lemma find_cache_run h size :
  cache_sized h → size ≤ 2048 →
  wp (find_cache size) h (λ c h', h' = h ∧ 0 ≤ c < 8 ∧ size ≤ sz c ∧ ∀ c', 0 ≤ c' < c → sz c' < size).
Proof.
  intros Hk Hs. unfold find_cache, CACHE_COUNT.
  eapply (wp_loop (λ c h', h' = h ∧ 0 ≤ c < 8 ∧ ∀ c', 0 ≤ c' < c → sz c' < size) (λ c _, Z.to_nat (8 - c)));
    [|split_and!; lia || done|simpl; lia].
  intros c ? (-> & Hc & Hlow). replace (c <? 8) with true by lia. destruct (Hk c Hc) as (k & Hck & Ek).
  wp_step. apply (wp_cache_at c k); [done|done|]. rewrite Ek. destruct (Z.leb_spec size (sz c)) as [Hle|Hgt]; wp_step; [done|].
  assert (c ≠ 7) by (intros ->; unfold sz in Hgt; simpl in Hgt; lia).
  split_and!; try done; try lia. intros c' Hc'. destruct (decide (c' = c)) as [-> |]; [lia|]. apply Hlow. lia.
Qed.

Lemma page_count size :
  1 ≤ size → size + 4095 < 2 ^ 64 →
  let pages := u64 (size + FRAME_SIZE - 1) / FRAME_SIZE in
  1 ≤ pages ≤ 2 ^ 52 ∧ size ≤ 4096 * pages ∧ (1 < pages → 4096 * (pages - 1) < size).
Proof.
  intros H1 H2 pages. unfold pages, FRAME_SIZE. rewrite u64_small by lia.
  pose proof (Z.div_mod (size + 4096 - 1) 4096 ltac:(lia)).
  pose proof (Z.mod_pos_bound (size + 4096 - 1) 4096 ltac:(lia)). lia.
Qed.

(** The order of a request is the smallest that holds it. *)
Lemma order_fits L size pages o :
  size ≤ 4096 * pages → (1 < pages → 4096 * (pages - 1) < size) → 0 ≤ o → (0 < o → 2 ^ (o - 1) < pages) → o ≤ 52 →
  (∀ f, ¬ free_run L f o) → ∀ f p, size ≤ 4096 * 2 ^ p → ¬ free_run L f p.
Proof.
  intros H1 H2 Ho Hmin Ho' Hnone f p Hp Hrun. apply (Hnone f). eapply (free_run_smaller _ _ _ p); [done|].
  split; [done|]. destruct (Z.le_gt_cases o p); [done|]. destruct Hrun as (Hp0 & _).
  assert (2 ^ p ≤ 2 ^ (o - 1)) by (apply Z.pow_le_mono_r; lia). pose proof (pow2_pos p ltac:(lia)). lia.
Qed.

Lemma order_zero_fits L size : (∀ f, ¬ free_run L f 0) → ∀ f p, size ≤ 4096 * 2 ^ p → ¬ free_run L f p.
Proof.
  intros Hnone f p _ Hrun. apply (Hnone f). eapply (free_run_smaller _ _ _ p); [done|]. destruct Hrun as (? & _). lia.
Qed.

(** The size of the block a request gets: the smallest there is. *)
Definition block_size (size n : Z) : Prop :=
  if size <? 2048 then ∃ c, 0 ≤ c < 8 ∧ n = sz c ∧ size ≤ n ∧ ∀ c', 0 ≤ c' < c → sz c' < size
  else ∃ o, 0 ≤ o ≤ 52 ∧ n = 4096 * 2 ^ o ∧ size ≤ n ∧ (0 < o → 4096 * 2 ^ (o - 1) < size).

(** The size of a block is a function of the request. *)
Lemma block_size_unique size n n' : block_size size n → block_size size n' → n = n'.
Proof.
  unfold block_size. destruct (size <? 2048).
  - intros (c & Hc & -> & Hle & Hmin) (c' & Hc' & -> & Hle' & Hmin'). f_equal.
    destruct (Z.lt_trichotomy c c') as [Hlt|[->|Hgt]]; [specialize (Hmin' c)|done|specialize (Hmin c')]; lia.
  - intros (o & Ho & -> & Hle & Hmin) (o' & Ho' & -> & Hle' & Hmin').
    destruct (Z.lt_trichotomy o o') as [Hlt|[->|Hgt]]; [|done|]; exfalso.
    + assert (2 ^ o ≤ 2 ^ (o' - 1)) by (apply Z.pow_le_mono_r; lia). lia.
    + assert (2 ^ o' ≤ 2 ^ (o - 1)) by (apply Z.pow_le_mono_r; lia). lia.
Qed.

Definition kmalloc_post (h : heap) (L : pa_state) (B : blocks) (size : Z) (r : Z) (h' : heap) : Prop :=
  kept B h h' ∧
  ((r = 0 ∧ krel h' L B ∧ (size = 0 ∨ ∀ f o, size ≤ 4096 * 2 ^ o → ¬ free_run L f o)) ∨
   (∃ n L', r ≠ 0 ∧ size ≠ 0 ∧ block_size size n ∧ fresh_block B r n ∧ krel h' L' (<[r := (n, false)]> B))).

Lemma kmalloc_run h L B size :
  krel h L B → 0 ≤ size → size + 4095 < 2 ^ 64 → wp (kmalloc size) h (kmalloc_post h L B size).
Proof.
  intros HR Hs0 Hs. unfold kmalloc. destruct (Z.eqb_spec size 0) as [-> |Hnz].
  { wp_step. split; [by intros a|]. left. split_and!; [done|done|by left]. }
  set (size' := if size <? 16 then 16 else size).
  assert (Hs' : size' = Z.max 16 size) by (unfold size'; destruct (Z.ltb_spec size 16); lia). clearbody size'.
  destruct (Z.leb_spec 2048 size') as [Hbig|Hsmall].
  - assert (size' = size) as -> by lia. destruct (page_count size ltac:(lia) Hs) as (Hp & Hcov & Hmin).
    set (pages := u64 (size + FRAME_SIZE - 1) / FRAME_SIZE) in *. clearbody pages.
    wp_step. eapply wp_mono; [by apply order_of_pages_spec|]. intros o ? (-> & Ho & Hpo & Hpm).
    enough (Hpost : wp (if o =? 0 then pcpu_page_alloc else buddy_alloc o false) h (alloc_post h L B o (4096 * 2 ^ o) false)).
    { eapply wp_mono; [exact Hpost|]. intros r h' (Hk & [(-> & HR' & Hno)|(Hr & Hf & L' & HR')]); (split; [done|]).
      - left. split_and!; [done|done|]. right. by apply (order_fits L size pages o); try lia.
      - right. exists (4096 * 2 ^ o), L'. split_and!; try done. unfold block_size. replace (size <? 2048) with false by lia.
        exists o. split_and!; try done; lia. }
    destruct (Z.eqb_spec o 0) as [-> |]; [by apply page_alloc_run|by apply pages_alloc].
  - wp_step. eapply wp_mono; [apply find_cache_run; [by eapply krel_sized|lia]|]. intros c ? (-> & Hc & Hfit & Hlow).
    replace (c <? 0) with false by lia. eapply wp_mono; [by apply (object_alloc h L B c)|].
    intros r h' (Hk & [(-> & HR' & Hno)|(Hr & Hf & L' & HR')]); (split; [done|]).
    + left. split_and!; [done|done|]. right. by apply order_zero_fits.
    + right. exists (sz c), L'. split_and!; try done. unfold block_size. replace (size <? 2048) with true by lia.
      exists c. split_and!; try done; try lia. intros c' Hc'. pose proof (sz_range c' ltac:(lia)). specialize (Hlow c' Hc'). lia.
Qed.

(** ** [kfree] *)

(** What a caller owes: a kernel block it holds, whose first word, if it is a
    block of pages, is not the one that marks a slab. *)
Definition may_free (h : heap) (B : blocks) (p : Z) : Prop :=
  ∃ n, B !! p = Some (n, false) ∧ (n < 4096 ∨ magic (h_mem h) p ≠ SLAB_MAGIC).

Lemma owned_page_inv h L B p n u :
  krel h L B → B !! p = Some (n, u) → 4096 ≤ n →
  ∃ f o, p = fa f ∧ n = 4096 * 2 ^ o ∧ 0 ≤ o ≤ 14 ∧ 0 ≤ f < 16384 ∧ ld (h_frames h) f = enc o (SAlloc u).
Proof.
  intros (S & live & HK & HB) Hp Hn. apply HB in Hp as [(c & Hc & _ & -> & _)|(f & o & -> & Hf & -> & _)].
  - pose proof (sz_range c Hc). lia.
  - pose proof (page_place h L S live HK f o u Hf). pose proof (pow2_pos o ltac:(lia)). exists f, o. split_and!; try done; try lia.
    destruct (proj1 HK) as (T & HI & HL). apply (bi_heads _ _ (proj1 HI)). by apply HL.
Qed.

Lemma krel_block h L B p n u :
  krel h L B → B !! p = Some (n, u) → HEAP_PHYS ≤ p ∧ 0 < n ∧ p + n ≤ HEAP_PHYS + HEAP_SIZE ∧ (16 | p).
Proof. intros (S & live & HK & HB) Hp. eapply owned_bound; [done|by apply HB]. Qed.

Lemma kfree_run h L B p :
  krel h L B → may_free h B p →
  wp (kfree p) h (λ _ h', ∃ L', krel h' L' (delete p B) ∧ kept (delete p B) h h').
Proof.
  intros HR (n & Hp & Hmg). pose proof (krel_block h L B p n false HR Hp) as (Hlo & Hn & Hhi & _). unfold kfree.
  rewrite (proj2 (nz_spec p)) by (unfold HEAP_PHYS in Hlo; lia). cbn [negb].
  replace ((p <? HEAP_PHYS) || (HEAP_PHYS + HEAP_SIZE <=? p)) with false by lia.
  destruct (Z.lt_ge_cases n 4096) as [Hsm|Hbig].
  - destruct (object_free h L B p n HR Hp Hsm) as (f & c & -> & Hm & Hca & Hc & Hrun).
    wp_step. apply wp_get_magic. rewrite Hm. change (SLAB_MAGIC =? SLAB_MAGIC) with true. cbv iota.
    wp_step. unfold get_cache. apply wp_load. rewrite Hca, (proj2 (nz_spec (c + 1))) by lia. exact Hrun.
  - destruct Hmg as [?|Hmg]; [lia|].
    destruct (owned_page_inv h L B p n false HR Hp Hbig) as (f & o & -> & -> & Ho & Hf & Hw).
    replace (page_of (fa f)) with (fa f) by (symmetry; rewrite <- (Z.add_0_r (fa f)) at 1; by apply page_of_in).
    wp_step. apply wp_get_magic. rewrite (proj2 (Z.eqb_neq _ _) Hmg).
    destruct (frame_addr_checks f Hf) as (_ & _ & _ & E4 & E5 & _). rewrite frame_of_range in E4, E5 by done.
    rewrite E4, E5, FRAME_COUNT_val. replace (16384 <=? f) with false by lia.
    wp_step. apply wp_frame_get; [rewrite FRAME_COUNT_val; lia|]. rewrite Hw, enc_alloc_bit, enc_order_bits by done. cbn.
    destruct (Z.eqb_spec o 0) as [-> |]; [by apply (page_free_run h L B f)|]. by apply (pages_free h L B f o false); [..|lia].
Qed.

(** ** [kcalloc] *)

(** Callers write to their blocks: no header and no link of a free object is there. *)
Lemma slabs_ok_write h L S live m :
  slabs_ok h L S live → (∀ a, ¬ safe L S live a → ld m a = ld (h_mem h) a) → slabs_ok (set_mem m h) L S live.
Proof.
  intros HS Hm.
  assert (Hhdr : ∀ c f F k, 0 ≤ c < 8 → (f, F) ∈ S c → 0 ≤ k < 48 → ld m (fa f + k) = ld (h_mem h) (fa f + k)).
  { intros c f F k Hc Hf Hk. apply Hm. intros Ha. by apply (safe_header h L S live HS c f F k _ Ha). }
  split; try apply HS.
  - intros c Hc. destruct (so_cache _ _ _ _ HS c Hc) as (hd & Hhd & Hd). exists hd. split; [done|].
    eapply dll_ext; [| |exact Hd]; intros x (f & -> & Hf)%list_elem_of_fmap;
      apply list_elem_of_fmap in Hf as ([f' F] & -> & Hf); unfold nx, pv; cbn [fst]; apply (Hhdr c f' F); (done || lia).
  - intros c f F Hc Hf. destruct (so_slab _ _ _ _ HS c f F Hc Hf) as [Hl [H1 H2 H3 H4 H5]]. split; [done|].
    pose proof (Hhdr c f F 0 Hc Hf ltac:(lia)) as E. rewrite Z.add_0_r in E.
    split; unfold lo32, hi32 in *; cbn [h_mem set_mem]; rewrite ?E, ?(Hhdr c f F) by (done || lia); try done.
    eapply chain_ext; [|exact H4]. intros o Ho. apply Hm. intros Ha.
    apply (safe_object h L S live HS c f F o o Ha Hc Hf (H5 o Ho)); [|done]. intros Hlive.
    destruct (so_objs _ _ _ _ HS c Hc) as (P & HP & _ & _). pose proof (places_nodup h L S live HS c P Hc HP) as Hnd.
    apply NoDup_app in Hnd as (_ & Hd & _). apply (Hd o); [by apply (all_free_elem _ f F)|]. apply elem_of_app. by right.
Qed.

Lemma krel_writes h L B m :
  krel h L B → (∀ a, (∀ p n u, B !! p = Some (n, u) → ¬ p ≤ a < p + n) → ld m a = ld (h_mem h) a) → krel (set_mem m h) L B.
Proof.
  intros (S & live & HK & HB) Hm. exists S, live. split; [|done].
  assert (Hsafe : ∀ a, ¬ safe L S live a → ld m a = ld (h_mem h) a).
  { intros a Ha. apply Hm. intros p n u Hp Hin. apply Ha.
    apply (owned_safe h L S live HK (h_pcpu_pages h) p n u); [by apply HB|done]. }
  split.
  - apply pa_rel_mem; [apply HK|]. intros a Ha. apply Hsafe. intros Hin. apply Ha. eapply safe_stable; [apply HK|done].
  - by apply slabs_ok_write; [apply HK|].
Qed.

Lemma krel_write h L B m p n u :
  krel h L B → B !! p = Some (n, u) → (∀ a, ¬ p ≤ a < p + n → ld m a = ld (h_mem h) a) → krel (set_mem m h) L B.
Proof. intros HR Hp Hm. apply krel_writes; [done|]. intros a Ha. by apply Hm, (Ha p n u). Qed.

(** The order that [kcalloc] computes again is the one of the block. *)
Lemma order_unique total pages o o' :
  total ≤ 4096 * pages → (1 < pages → 4096 * (pages - 1) < total) → 0 ≤ o → 0 ≤ o' →
  total ≤ 4096 * 2 ^ o → (0 < o → 4096 * 2 ^ (o - 1) < total) → pages ≤ 2 ^ o' → (0 < o' → 2 ^ (o' - 1) < pages) → o' = o.
Proof.
  intros H1 H2 Ho Ho' H3 H4 H5 H6. destruct (Z.lt_trichotomy o o') as [Hlt|[->|Hgt]]; [|done|]; exfalso.
  - assert (2 ^ o ≤ 2 ^ (o' - 1)) by (apply Z.pow_le_mono_r; lia). pose proof (pow2_pos o Ho). lia.
  - assert (2 ^ o' ≤ 2 ^ (o - 1)) by (apply Z.pow_le_mono_r; lia). lia.
Qed.

(** [kcalloc] clears the whole block. *)
Lemma kcalloc_run h L B count size :
  krel h L B → 0 ≤ count → 0 ≤ size → u64 (count * size) + 4095 < 2 ^ 64 →
  wp (kcalloc count size) h (λ r h', kmalloc_post h L B (u64 (count * size)) r h' ∧
    (r ≠ 0 → ∀ i, 0 ≤ i → 8 * i < u64 (count * size) → ld (h_mem h') (r + 8 * i) = 0)).
Proof.
  intros HR Hc0 Hs0 Hs. unfold kcalloc. set (total := u64 (count * size)) in *.
  assert (Ht : 0 ≤ total) by (apply Z.mod_pos_bound; done). clearbody total.
  wp_step. eapply wp_mono; [by apply (kmalloc_run h L B total)|]. intros r h1 Hpost.
  destruct (Z.eq_dec r 0) as [-> |Hr].
  { change (nz 0) with false. cbn [negb]. wp_step. by split. }
  rewrite (proj2 (nz_spec r) Hr). cbn [negb]. destruct Hpost as (Hk & [(-> & _)|(n & L' & _ & Ht0 & Hn & Hf & HR')]); [done|].
  wp_step. apply (wp_mono _ _ (λ n' h', h' = h1 ∧ n' = n)).
  - unfold block_size in Hn. destruct (Z.ltb_spec total 2048) as [Hsm|Hbig].
    + destruct Hn as (c & Hc & -> & Hle & Hmin). wp_step.
      eapply wp_mono; [apply find_cache_run; [by eapply krel_sized|lia]|]. intros c' ? (-> & Hc' & Hle' & Hlow).
      replace (c' <? 0) with false by lia. destruct (krel_sized _ _ _ HR' c' Hc') as (k & Hk' & Ek).
      wp_step. apply (wp_cache_at c' k); [done|done|]. wp_step. split; [done|]. rewrite Ek. f_equal.
      destruct (Z.lt_trichotomy c c') as [Hlt|[->|Hgt]]; [|done|].
      * specialize (Hlow c ltac:(lia)). lia.
      * specialize (Hmin c' ltac:(lia)). lia.
    + destruct Hn as (o & Ho & -> & Hle & Hmin). destruct (page_count total ltac:(lia) Hs) as (Hp & Hcov & Hpm).
      wp_step. eapply wp_mono; [by apply order_of_pages_spec|]. intros o' ? (-> & Ho' & Hpo & Hpm').
      wp_step. split; [done|]. rewrite (order_unique total _ o o' Hcov Hpm) by lia.
      destruct Hf as (Hlo & Hhi & _). unfold HEAP_SIZE, HEAP_PHYS, FRAME_SIZE in *. pose proof (pow2_pos o ltac:(lia)).
      rewrite Z.shiftl_1_l, (u64_small (2 ^ o)), u64_small by lia. lia.
  - intros n' ? (-> & ->). assert (Hn8 : ∃ k, n = 8 * k ∧ 0 ≤ k).
    { unfold block_size in Hn. destruct (total <? 2048).
      - destruct Hn as (c & Hc & -> & _). exists (2 * 2 ^ c). unfold sz. rewrite Z.pow_add_r by lia. pose proof (pow2_pos c ltac:(lia)). lia.
      - destruct Hn as (o & Ho & -> & _). exists (512 * 2 ^ o). pose proof (pow2_pos o ltac:(lia)). lia. }
    destruct Hn8 as (k & -> & Hk0). wp_step. eapply wp_mono; [by apply zero_bytes_spec|].
    intros [] ? (m & -> & Hz & Ho). wp_step. split.
    + split.
      * intros a Ha. cbn [h_mem set_mem]. rewrite Ho; [by apply Hk|]. intros i Hi ->. destruct Hf as (Hlo & Hhi & _ & _ & Hap).
        destruct Ha as [Ha|[Ha|(p & n & u & Hp & Ha)]]; [lia..|]. specialize (Hap p n u Hp). lia.
      * right. exists (8 * k), L'. split_and!; try done. eapply (krel_write _ _ _ m r (8 * k) false); [done|apply lookup_insert_eq|].
        intros a Ha. apply Ho. intros i Hi ->. lia.
    + intros _ i Hi Hit. cbn [h_mem set_mem]. apply Hz. unfold block_size in Hn.
      destruct (total <? 2048); destruct Hn as (x & _ & _ & Hle & _); lia.
Qed.
