(* ===== verification/KmallocSpec.v ===== *)
(** * KmallocSpec: the kernel allocator refines a set of disjoint blocks

    Every sequence of [kmalloc], [kcalloc], [kfree] and writes of callers to their
    own blocks, from [memory_init] on, behaves like an allocator whose only state
    is the set of blocks in use. *)

From Stdlib Require Import ZArith Lia.
From stdpp Require Import gmap list prelude.
From S2P Require Import Prelude KHeap Buddy BuddyInv BuddyProof PageAlloc Slab SlabInv SlabProof Kmalloc.

(** ** The specification *)

Inductive kop :=
  | KMalloc (size : Z)
  | KCalloc (count size : Z)
  | KFree (p : Z)
  | KWrite (a v : Z).

(** What the operations run; a caller's write is a store. *)
Definition run_kop (op : kop) : M heap Z :=
  match op with
  | KMalloc size => kmalloc size
  | KCalloc count size => kcalloc count size
  | KFree p => kfree p ;! ret 0
  | KWrite a v => store a v ;! ret 0
  end.

(** What the callers owe. *)
Definition kop_ok (h : heap) (B : blocks) (op : kop) : Prop :=
  match op with
  | KMalloc size => 0 ≤ size ∧ size + 4095 < 2 ^ 64
  | KCalloc count size => 0 ≤ count ∧ 0 ≤ size ∧ count * size + 4095 < 2 ^ 64
  | KFree p => may_free h B p
  | KWrite a _ => ∃ p n u, B !! p = Some (n, u) ∧ p ≤ a < p + n
  end.

Definition request (op : kop) : option Z :=
  match op with KMalloc size => Some size | KCalloc count size => Some (count * size) | _ => None end.

Inductive kstep (B : blocks) : kop → Z → blocks → Prop :=
  | ks_alloc op size p n :
      request op = Some size → size ≠ 0 → p ≠ 0 → block_size size n → fresh_block B p n →
      kstep B op p (<[p := (n, false)]> B)
  | ks_null op size : request op = Some size → kstep B op 0 B
  | ks_free p n : B !! p = Some (n, false) → kstep B (KFree p) 0 (delete p B)
  | ks_write a v : kstep B (KWrite a v) 0 B.

(** What a caller writes down from the results alone: an address other than 0 is a block
    of the size that its request is rounded to, a freed block is gone. *)
Inductive noted_blocks (B : blocks) : kop → Z → blocks → Prop :=
  | nb_alloc op size p n :
      request op = Some size → p ≠ 0 → block_size size n → noted_blocks B op p (<[p := (n, false)]> B)
  | nb_null op size : request op = Some size → noted_blocks B op 0 B
  | nb_free p r : noted_blocks B (KFree p) r (delete p B)
  | nb_write a v r : noted_blocks B (KWrite a v) r B.

Lemma kstep_noted B op r B' : kstep B op r B' → noted_blocks B op r B'.
Proof. intros []; by econstructor. Qed.
Lemma noted_det B op r B1 B2 : noted_blocks B op r B1 → noted_blocks B op r B2 → B1 = B2.
Proof.
  intros H1 H2. inversion H1; subst; inversion H2; subst; simplify_eq; try done.
  by erewrite (block_size_unique _ n n0).
Qed.

(** ** Start-up *)

Lemma memory_init_krel h :
  h_memlock h = false → wp memory_init h (λ _ h', krel h' ∅ ∅).
Proof.
  intros Hlk. eapply wp_mono; [by apply memory_init_spec|]. intros [] h' (HI & Hca & Hpg & Hob & _ & _).
  exists (λ _, []), (λ _, []). split.
  - split.
    + exists empty_tiling. split; [done|]. intros i o u. rewrite lookup_empty, empty_tiling_lookup. split; [done|].
      by intros (_ & _ & ?).
    + split.
      * intros c Hc. destruct (Hca c Hc) as (s & Hs & Hk). rewrite sz_lookup in Hs by done. injection Hs as <-.
        exists 0. split; [exact Hk|done].
      * by intros c f F _ ?%elem_of_nil.
      * intros c _. constructor.
      * by intros c c' f F F' _ _ ?%elem_of_nil.
      * intros c Hc. exists []. rewrite Hob by done. split_and!; [done|simpl; lia|done].
      * rewrite Hpg. constructor.
      * rewrite Hpg. simpl. lia.
      * rewrite Hpg. by intros p ?%elem_of_nil.
  - intros p n u. rewrite lookup_empty. split; [done|].
    intros [(c & _ & ?%elem_of_nil & _)|(f & o & _ & Hf & _)]; [done|by rewrite lookup_empty in Hf].
Qed.

(** ** One operation *)

(** Every word outside the heap and of a block that stays in use is the same, the
    word a caller writes apart. *)
Definition words_kept (op : kop) (B B' : blocks) (h h' : heap) : Prop :=
  ∀ a, match op with KWrite b _ => a ≠ b | _ => True end →
    (a < HEAP_PHYS ∨ HEAP_PHYS + HEAP_SIZE ≤ a ∨
     ∃ p n u, B !! p = Some (n, u) ∧ B' !! p = Some (n, u) ∧ p ≤ a < p + n) →
    ld (h_mem h') a = ld (h_mem h) a.

Lemma kept_words op B B' C h h' :
  kept C h h' → (∀ p x, B !! p = Some x → B' !! p = Some x → C !! p = Some x) → words_kept op B B' h h'.
Proof.
  intros Hk HC a _ Ha. apply Hk. destruct Ha as [Ha|[Ha|(p & n & u & Hp & Hp' & Ha)]]; [by left|by right; left|].
  right. right. exists p, n, u. auto.
Qed.

(** A request is refused only when no run of frames that would hold it is free. *)
Definition exhausted (L : pa_state) (size : Z) : Prop :=
  size = 0 ∨ ∀ f o, size ≤ 4096 * 2 ^ o → ¬ free_run L f o.

(** What an operation does, seen from outside. *)
Definition kop_post (h : heap) (L : pa_state) (B : blocks) (op : kop) (r : Z) (h' : heap) : Prop :=
  ∃ L' B', kstep B op r B' ∧ krel h' L' B' ∧ words_kept op B B' h h' ∧
    ∀ size, request op = Some size → r = 0 → exhausted L size.

Lemma kmalloc_step h L B op size r h' :
  kmalloc_post h L B size r h' → request op = Some size → kop_post h L B op r h'.
Proof.
  intros (Hk & Hpost) Hreq. destruct Hpost as [(-> & HR & Hex)|(n & L' & Hr & Hs & Hn & Hf & HR)].
  - exists L, B. split_and!; [by econstructor|done|by eapply kept_words|]. intros s Es _. by simplify_eq.
  - exists L', (<[r := (n, false)]> B). split_and!; [by econstructor|done|by eapply kept_words|done].
Qed.

Lemma kop_run h L B op : krel h L B → kop_ok h B op → wp (run_kop op) h (kop_post h L B op).
Proof.
  intros HR Hok. destruct op as [size|count size|p|a v]; simpl in Hok |- *.
  - destruct Hok as [H1 H2]. eapply wp_mono; [by apply (kmalloc_run h L B size)|]. intros r h' Hp. by eapply kmalloc_step.
  - destruct Hok as (H1 & H2 & H3). assert (E : u64 (count * size) = count * size) by (apply u64_small; nia).
    eapply wp_mono; [apply (kcalloc_run h L B count size); [done..|by rewrite E]|].
    intros r h' [Hp _]. rewrite E in Hp. by eapply kmalloc_step.
  - wp_step. eapply wp_mono; [by apply (kfree_run h L B p)|]. intros [] h' (L' & HR' & Hk). wp_step.
    destruct Hok as (n & Hn & _). exists L', (delete p B). split_and!; [by econstructor|done| |done].
    by eapply kept_words; [exact Hk|].
  - destruct Hok as (p & n & u & Hp & Ha). wp_step. apply wp_store. wp_step. exists L, B. split_and!; [constructor| | |done].
    + apply (krel_write h L B _ p n u); [done|done|]. intros b Hb. apply ld_st_ne. intros ->. done.
    + intros b Hb _. cbn [h_mem set_mem]. by apply ld_st_ne.
Qed.

(** ** Reachable states *)

(** Runs of the code, with the callers' notes beside them. *)
Inductive kreach : heap → blocks → Prop :=
  | kr_init h0 h : h_memlock h0 = false → memory_init h0 = Some (tt, h) → kreach h ∅
  | kr_step h B op r h' B' :
      kreach h B → kop_ok h B op → run_kop op h = Some (r, h') → noted_blocks B op r B' → kreach h' B'.

Lemma kreach_rel h B : kreach h B → ∃ L, krel h L B.
Proof.
  induction 1 as [h0 h Hlk Hrun|h B op r h' B' _ [L IH] Hok Hrun Hstep].
  - destruct (memory_init_krel h0 Hlk) as ([] & h1 & Hrun' & HR). rewrite Hrun in Hrun'. injection Hrun' as <-. by exists ∅.
  - destruct (kop_run h L B op IH Hok) as (r1 & h1 & Hrun' & L1 & B1 & Hstep1 & HR1 & _).
    rewrite Hrun in Hrun'. injection Hrun' as <- <-. exists L1.
    by rewrite (noted_det B op r B' B1 Hstep (kstep_noted _ _ _ _ Hstep1)).
Qed.

Lemma kr_kstep h B op r h' B' :
  kreach h B → kop_ok h B op → run_kop op h = Some (r, h') → kstep B op r B' → kreach h' B'.
Proof. intros Hre Hok Hrun Hs. eapply kr_step; [done..|]. by apply kstep_noted. Qed.

(** The page allocator's blocks can be read off its table. *)
Lemma pa_rel_det h L L' : pa_rel h L → pa_rel h L' → L = L'.
Proof.
  assert (Hsub : ∀ L L' i o u, pa_rel h L → pa_rel h L' → L !! i = Some (o, u) → L' !! i = Some (o, u)).
  { clear L L'. intros L L' i o u (H & HI & HL) (H' & HI' & HL') Hi. apply HL in Hi.
    pose proof (til_ok _ (bi_til _ _ (proj1 HI)) _ _ _ Hi) as (Ho & Hb0 & Hb1 & _). pose proof (pow2_pos o ltac:(lia)).
    pose proof (bi_heads _ _ (proj1 HI) _ _ _ Hi) as Hw. apply HL'.
    destruct (H' !! i) as [[o' s]|] eqn:E.
    - pose proof (til_ok _ (bi_til _ _ (proj1 HI')) _ _ _ E) as (Ho' & _).
      rewrite (bi_heads _ _ (proj1 HI') _ _ _ E) in Hw.
      pose proof (f_equal (λ w, Z.land w FRAME_ORDER) Hw) as E1. cbv beta in E1. rewrite !enc_order_bits in E1 by done.
      pose proof (f_equal (λ w, Z.land w (Z.lor FRAME_ALLOC FRAME_USER)) Hw) as E2. cbv beta in E2. rewrite !enc_user_bits in E2 by done.
      rewrite E1. destruct s as [|u']; [exfalso; destruct u; lia|]. f_equal. f_equal. f_equal. destruct u, u'; lia.
    - pose proof (bi_inner _ _ (proj1 HI') i ltac:(lia) E) as E1. rewrite Hw, enc_alloc_bit in E1 by done. lia. }
  intros HR HR'. apply map_eq. intros i. destruct (L !! i) as [[o u]|] eqn:E; [symmetry; by apply (Hsub L L')|].
  destruct (L' !! i) as [[o u]|] eqn:E'; [|done]. rewrite <- E. by apply (Hsub L' L).
Qed.

(** ** A kernel that has used its allocator *)

Lemma boot_kreach : kreach boot_heap ∅.
Proof. apply (kr_init empty_heap); [reflexivity|apply boot_run]. Qed.

Lemma empty_run f o : 0 ≤ o ≤ 14 → 0 ≤ f → f + 2 ^ o ≤ 16384 → (2 ^ o | f) → free_run ∅ f o.
Proof. intros. split_and!; try lia; [done|]. intros g _ (i & k & u & Hi & _). by rewrite lookup_empty in Hi. Qed.

Lemma boot_pa_rel : pa_rel boot_heap ∅.
Proof. apply reach_rel, boot_reach. Qed.

(** The first block after boot. *)
Lemma first_kmalloc h : kreach h ∅ → pa_rel h ∅ → ∃ h' p n, kreach h' {[p := (n, false)]} ∧ 100 ≤ n < 4096.
Proof.
  intros Hre Hpa. destruct (kreach_rel _ _ Hre) as [L HR]. assert (Hok : kop_ok h ∅ (KMalloc 100)) by (simpl; lia).
  destruct (kop_run h L ∅ (KMalloc 100) HR Hok) as (r & h' & Hrun & L' & B' & Hstep & _ & _ & Hex).
  assert (L = ∅) as -> by (destruct HR as (S & live & [HR _] & _); by eapply pa_rel_det).
  inversion Hstep as [? size p n Hreq Hs Hp Hn Hf|? size Hreq| |]; subst.
  - injection Hreq as <-. exists h', r, n. split; [by eapply (kr_kstep h ∅ (KMalloc 100) r h')|].
    destruct Hn as (c & Hc & -> & Hle & _). pose proof (sz_range c Hc). lia.
  - exfalso. destruct (Hex 100 eq_refl eq_refl) as [?|Hno]; [done|]. apply (Hno 0 0); [lia|].
    apply empty_run; lia || apply Z.divide_0_r.
Qed.

(** A request that is answered adds its block. *)
Lemma kmalloc_adds h B size p h' :
  kreach h B → 0 ≤ size → size + 4095 < 2 ^ 64 → kmalloc size h = Some (p, h') → p ≠ 0 →
  ∃ n, kreach h' (<[p := (n, false)]> B) ∧ size ≤ n ∧ B !! p = None ∧ block_size size n.
Proof.
  intros Hre H1 H2 Hrun Hp. destruct (kreach_rel _ _ Hre) as [L HR]. assert (Hok : kop_ok h B (KMalloc size)) by done.
  destruct (kop_run h L B (KMalloc size) HR Hok) as (r & h1 & Hrun' & L' & B' & Hstep & _).
  change (kmalloc size h = Some (r, h1)) in Hrun'. rewrite Hrun in Hrun'. injection Hrun' as <- <-.
  inversion Hstep as [? size' p' n Hreq Hs Hp' Hn Hf|? size' Hreq| |]; subst; [|done].
  injection Hreq as <-. exists n. split_and!; [by eapply (kr_kstep h B (KMalloc size) p h')| |apply Hf|done].
  unfold block_size in Hn. destruct (size <? 2048); destruct Hn as (x & _ & _ & Hle & _); lia.
Qed.

(** Two blocks after boot. *)
Definition kmalloc2 (h : heap) : option (Z * Z) :=
  match kmalloc 100 h with
  | Some (p, h1) => match kmalloc 3000 h1 with Some (q, _) => Some (p, q) | None => None end
  | None => None
  end.

Lemma boot_kmalloc2 : kmalloc2 boot_heap = Some (0xA00F30, 0xA01000).
Proof. vm_compute. reflexivity. Qed.

Lemma boot_two_blocks : ∃ h p q n m, kreach h (<[q := (m, false)]> {[p := (n, false)]}) ∧ p ≠ q.
Proof.
  pose proof boot_kmalloc2 as E. pose proof boot_kreach as Hre. revert E Hre. generalize boot_heap. intros h0 E Hre.
  unfold kmalloc2 in E. destruct (kmalloc 100 h0) as [[p h1]|] eqn:E1; [|done].
  destruct (kmalloc 3000 h1) as [[q h2]|] eqn:E2; [|done]. injection E as -> ->.
  destruct (kmalloc_adds h0 ∅ 100 0xA00F30 h1 Hre) as (n & Hre1 & _); [lia|lia|done|done|].
  destruct (kmalloc_adds h1 _ 3000 0xA01000 h2 Hre1) as (m & Hre2 & _); [lia|lia|done|done|].
  by exists h2, 0xA00F30, 0xA01000, n, m.
Qed.

(** The hypothesis of [kfree] on blocks of pages is needed: with the mark of a slab
    in its first word a block is taken for a slab and stays allocated. *)
Lemma kfree_magic_leaks :
  (let! p := kmalloc 5000 in store p SLAB_MAGIC ;! kfree p ;!
   let! w := frame_get (addr_to_frame p) in ret (p, Z.land w FRAME_ALLOC)) boot_heap ≫= (λ x, Some x.1) =
  Some (HEAP_PHYS, FRAME_ALLOC).
Proof. vm_compute. reflexivity. Qed.

(** ** The properties *)

(** C3: in every state reachable from [memory_init] by [kmalloc], [kcalloc],
    [kfree] and writes of callers to their blocks, a legal call returns and takes
    a step of the specification: a request is answered with the smallest block
    that holds it, in the heap, aligned to 16 bytes and disjoint from every block
    in use, or with 0; a freed block is gone.  Every word outside the heap and of
    the blocks that stay in use is unchanged, and the new state is reachable. *)
Theorem kernel_ops_refine h B op :
  kreach h B → kop_ok h B op →
  ∃ r h' B', run_kop op h = Some (r, h') ∧ kstep B op r B' ∧ words_kept op B B' h h' ∧ kreach h' B'.
Proof.
  intros Hre Hok. destruct (kreach_rel h B Hre) as [L HR].
  destruct (kop_run h L B op HR Hok) as (r & h' & Hrun & L' & B' & Hstep & _ & Hk & _).
  exists r, h', B'. split_and!; try done. by eapply kr_kstep.
Qed.

Lemma kernel_ops_refine_witness :
  ∃ h p n r h' B', kreach h {[p := (n, false)]} ∧ run_kop (KFree p) h = Some (r, h') ∧
    kstep {[p := (n, false)]} (KFree p) r B' ∧ kreach h' B'.
Proof.
  destruct (first_kmalloc boot_heap boot_kreach boot_pa_rel) as (h & p & n & Hre & Hn).
  destruct (kernel_ops_refine h {[p := (n, false)]} (KFree p) Hre) as (r & h' & B' & H1 & H2 & _ & H4).
  - exists n. split; [apply lookup_singleton_eq|left; lia].
  - by exists h, p, n, r, h', B'.
Defined.

(** C4: after any sequence of [kmalloc], [kcalloc], [kfree] and writes of callers to their
    own blocks, the blocks that were handed out and not freed lie inside the heap, are
    aligned to 16 bytes and do not overlap; and whatever [kmalloc] returns next, if not
    0, overlaps none of them. *)
Theorem kernel_blocks_apart h B :
  kreach h B →
  (∀ p n u, B !! p = Some (n, u) → HEAP_PHYS ≤ p ∧ p + n ≤ HEAP_PHYS + HEAP_SIZE ∧ (16 | p) ∧ 0 < n) ∧
  (∀ p n u q m v, B !! p = Some (n, u) → B !! q = Some (m, v) → p ≠ q → p + n ≤ q ∨ q + m ≤ p) ∧
  (∀ size r h', 0 ≤ size → size + 4095 < 2 ^ 64 → kmalloc size h = Some (r, h') → r ≠ 0 →
     ∀ p n u, B !! p = Some (n, u) → r + size ≤ p ∨ p + n ≤ r).
Proof.
  intros Hre. destruct (kreach_rel h B Hre) as (L & S & live & HK & HB). split_and!.
  - intros p n u Hp%HB. by destruct (owned_bound h L S live HK _ p n u Hp) as (H1 & H2 & H3 & H4).
  - intros p n u q m v Hp%HB Hq%HB Hne. destruct (owned_apart h L S live HK _ p n u q m v Hp Hq) as [(? & _)|?]; done.
  - intros size r h' H1 H2 Hrun Hr p n u Hp. destruct (kmalloc_adds h B size r h' Hre H1 H2 Hrun Hr) as (m & Hre' & Hs & Hf & _).
    destruct (kreach_rel h' _ Hre') as (L' & S' & live' & HK' & HB').
    assert (r ≠ p) as Hne by (intros ->; by rewrite Hf in Hp).
    assert (Hp' : <[r := (m, false)]> B !! p = Some (n, u)) by by rewrite lookup_insert_ne.
    pose proof (lookup_insert_eq B r (m, false)) as Hr'. apply HB' in Hp', Hr'.
    destruct (owned_apart h' L' S' live' HK' _ r m false p n u Hr' Hp') as [(? & _)|?]; [done|lia].
Qed.

Lemma kernel_blocks_apart_witness :
  ∃ h p q n m, kreach h (<[q := (m, false)]> {[p := (n, false)]}) ∧ (p + n ≤ q ∨ q + m ≤ p).
Proof.
  destruct boot_two_blocks as (h & p & q & n & m & Hre & Hne). exists h, p, q, n, m. split; [done|].
  apply (proj1 (proj2 (kernel_blocks_apart h _ Hre)) p n false q m false); [|apply lookup_insert_eq|done].
  rewrite lookup_insert_ne by done. apply lookup_singleton_eq.
Defined.

(** C35: as long as an aligned run of frames that holds the request is free,
    [kmalloc] serves it: the only failure is exhaustion. *)
Theorem kmalloc_serves h B L size f o :
  kreach h B → pa_rel h L → free_run L f o → 0 < size ≤ 4096 * 2 ^ o →
  ∃ p n h', kmalloc size h = Some (p, h') ∧ p ≠ 0 ∧ block_size size n ∧ fresh_block B p n ∧
    kreach h' (<[p := (n, false)]> B).
Proof.
  intros Hre Hpa Hrun Hs. destruct (kreach_rel h B Hre) as [L' HR].
  assert (L' = L) as -> by (destruct HR as (S & live & [HR _] & _); by eapply pa_rel_det).
  assert (Hok : kop_ok h B (KMalloc size)).
  { destruct Hrun as (Ho & _ & Hb & _). assert (2 ^ o ≤ 2 ^ 14) by (apply Z.pow_le_mono_r; lia). simpl. lia. }
  destruct (kop_run h L B (KMalloc size) HR Hok) as (r & h' & Hr & L' & B' & Hstep & _ & _ & Hex).
  inversion Hstep as [? size' p n Hreq Hs0 Hp Hn Hf|? size' Hreq| |]; subst; injection Hreq as <-.
  - exists r, n, h'. split_and!; try done. by eapply (kr_kstep h B (KMalloc size) r h').
  - exfalso. destruct (Hex size eq_refl eq_refl) as [?|Hno]; [lia|]. by apply (Hno f o); [lia|].
Qed.

Lemma kmalloc_serves_witness : ∃ p n h', kmalloc 5000 boot_heap = Some (p, h') ∧ p ≠ 0 ∧ fresh_block ∅ p n.
Proof.
  destruct (kmalloc_serves boot_heap ∅ ∅ 5000 0 1 boot_kreach boot_pa_rel) as (p & n & h' & H1 & H2 & _ & H4 & _).
  - apply empty_run; lia || apply Z.divide_0_r.
  - lia.
  - exists p, n, h'. split; [exact H1|]. split; [exact H2|exact H4].
Defined.

(** [kcalloc] returns 0 or a fresh block of at least [count * size] bytes whose
    words are zero, whatever was in memory before. *)
Theorem kcalloc_zeroed h B count size :
  kreach h B → 0 ≤ count → 0 ≤ size → count * size + 4095 < 2 ^ 64 →
  ∃ p h', kcalloc count size h = Some (p, h') ∧
    (p = 0 ∨ ∃ n, count * size ≤ n ∧ fresh_block B p n ∧
      ∀ i, 0 ≤ i → 8 * i < count * size → ld (h_mem h') (p + 8 * i) = 0).
Proof.
  intros Hre Hc Hs Hov. destruct (kreach_rel h B Hre) as [L HR].
  assert (E : u64 (count * size) = count * size) by (apply u64_small; nia).
  destruct (kcalloc_run h L B count size HR Hc Hs) as (p & h' & Hrun & [_ Hpost] & Hz); [by rewrite E|].
  rewrite E in *. exists p, h'. split; [done|]. destruct Hpost as [(-> & _)|(n & L' & Hp & _ & Hn & Hf & _)]; [by left|right].
  exists n. split_and!; [|done|by apply Hz]. unfold block_size in Hn.
  destruct (count * size <? 2048); destruct Hn as (x & _ & _ & Hle & _); lia.
Qed.

Lemma kcalloc_zeroed_witness : ∃ p h', kcalloc 10 24 boot_heap = Some (p, h').
Proof.
  destruct (kcalloc_zeroed boot_heap ∅ 10 24 boot_kreach) as (p & h' & H & _); [lia..|]. exists p, h'. exact H.
Defined.
