(* ===== verification/Paging.v ===== *)
(** * Paging: the page tables of [OvsbMk/kernel/memory.c]

    The kernel runs with physical memory mapped at its own addresses, so page
    tables are arrays of 64-bit words of [h_mem] at their physical address.
    [invlpg], memory barriers and the log output have no counterpart here; the
    register CR3 is the field [h_cr3]. *)

From Stdlib Require Import ZArith Lia.
From stdpp Require Import gmap list prelude.
From S2P Require Import Prelude KHeap Buddy Slab.

(** ** Indices and entries *)

Definition pml4_index (va : Z) : Z := Z.land (Z.shiftr va 39) 0x1FF.
Definition pdpt_index (va : Z) : Z := Z.land (Z.shiftr va 30) 0x1FF.
Definition pd_index (va : Z) : Z := Z.land (Z.shiftr va 21) 0x1FF.
Definition pt_index (va : Z) : Z := Z.land (Z.shiftr va 12) 0x1FF.

(** [table\[i\]] for a [uint64_t *table]. *)
Definition entry (table i : Z) : M heap Z := load (table + 8 * i).
Definition set_entry (table i v : Z) : M heap unit := store (table + 8 * i) v.

(** [e & ~0xFFFULL], the table an entry points to. *)
Definition table_of (e : Z) : Z := Z.ldiff e 0xFFF.
Definition present (e : Z) : bool := nz (Z.land e 1).
Definition huge (e : Z) : bool := nz (Z.land e 0x80).

(** ** CR3 *)

Definition pml4_get_current : M heap Z := gets h_cr3.
Definition pml4_load (pml4_pa : Z) : M heap unit := modify (set_cr3 pml4_pa).
Definition pml4_restore (pml4_pa : Z) : M heap unit := pml4_load pml4_pa.

Definition pml4_create : M heap Z :=
  let! current := pml4_get_current in
  let! new_pml4 := page_alloc in
  if negb (nz new_pml4) then ret 0 else
  for_up 512 0 (λ i, let! e := entry current i in set_entry new_pml4 i e) ;!
  ret new_pml4.

Definition pml4_destroy (pml4_pa : Z) : M heap unit := page_free pml4_pa.

(** ** Growing the tables *)

(** A page for a table, or [NULL]. *)
Definition table_page : M heap Z := mmap_user 4096.

Definition clear_table (t : Z) : M heap unit := for_up 512 0 (λ i, set_entry t i 0).

(** Make entry [idx] present: allocate, clear and link a table. *)
Definition ensure_pml4_entry (table idx : Z) : M heap Z :=
  let! e := entry table idx in
  if present e then ret 0 else
  let! page := table_page in
  if negb (nz page) then ret (-1) else
  clear_table page ;!
  set_entry table idx (Z.lor page 0x07) ;!
  ret 0.

(** The 512 entries that map what a 2 MB entry maps. *)
Definition fill_split (pt pde : Z) : M heap unit :=
  let phys_base := Z.ldiff pde 0x1FFFFF in
  let flags := Z.ldiff (Z.land pde 0x1FF) 0x80 in
  for_up 512 0 (λ i, set_entry pt i (Z.lor (u64 (phys_base + i * 0x1000)) flags)).

Definition pml4_add_user (pml4_pa vaddr : Z) : M heap Z :=
  let! e4 := entry pml4_pa (pml4_index vaddr) in
  if negb (present e4) then ret (-1) else
  let pdpt := table_of e4 in
  let! e3 := entry pdpt (pdpt_index vaddr) in
  if negb (present e3) then ret (-1) else
  let pd := table_of e3 in
  let! e2 := entry pd (pd_index vaddr) in
  (if negb (present e2) then
     set_entry pd (pd_index vaddr) (Z.lor (Z.ldiff vaddr 0x1FFFFF) 0x87)
   else set_entry pd (pd_index vaddr) (Z.lor e2 0x04)) ;!
  ret 0.

Definition split_2mb_pde (pml4_pa vaddr : Z) : M heap Z :=
  let! e4 := entry pml4_pa (pml4_index vaddr) in
  if negb (present e4) then ret (-1) else
  let pdpt := table_of e4 in
  let! e3 := entry pdpt (pdpt_index vaddr) in
  if negb (present e3) then ret (-1) else
  let pd := table_of e3 in
  let! pde := entry pd (pd_index vaddr) in
  if negb (present pde) then ret (-1) else
  if negb (huge pde) then ret 0 else
  let! pt := table_page in
  if negb (nz pt) then ret (-1) else
  fill_split pt pde ;!
  set_entry pd (pd_index vaddr) (Z.lor pt 0x07) ;!
  ret 0.

Definition pml4_add_user_4kb (pml4_pa vaddr : Z) : M heap Z :=
  let! r := split_2mb_pde pml4_pa (Z.ldiff vaddr 0x1FFFFF) in
  if r <? 0 then ret (-1) else
  let! e4 := entry pml4_pa (pml4_index vaddr) in
  let! e3 := entry (table_of e4) (pdpt_index vaddr) in
  let! e2 := entry (table_of e3) (pd_index vaddr) in
  let pt := table_of e2 in
  let! e1 := entry pt (pt_index vaddr) in
  set_entry pt (pt_index vaddr) (Z.lor e1 0x04) ;!
  ret 0.

Definition map_user_4kb (pml4_pa va : Z) : M heap Z :=
  let! r4 := ensure_pml4_entry pml4_pa (pml4_index va) in
  if r4 <? 0 then ret (-1) else
  let! e4 := entry pml4_pa (pml4_index va) in
  let pdpt := table_of e4 in
  let! r3 := ensure_pml4_entry pdpt (pdpt_index va) in
  if r3 <? 0 then ret (-1) else
  let! e3 := entry pdpt (pdpt_index va) in
  let pd := table_of e3 in
  let! e2 := entry pd (pd_index va) in
  if huge e2 then ret 0 else
  let! r2 := ensure_pml4_entry pd (pd_index va) in
  if r2 <? 0 then ret (-1) else
  let! e2 := entry pd (pd_index va) in
  let pt := table_of e2 in
  let! e1 := entry pt (pt_index va) in
  if present e1 then ret 0 else
  let! frame := table_page in
  if negb (nz frame) then ret (-1) else
  set_entry pt (pt_index va) (Z.lor frame 0x07) ;!
  ret 0.

(** [for (offset = 0; offset < size; offset += 0x200000)]; the result is -1
    when a table could not be allocated. *)
Definition pml4_map_phys (pml4_pa virt_addr phys_addr size : Z) (writable : bool) : M heap Z :=
  let entry_flags := Z.lor (Z.lor 0x81 0x04) (if writable then 0x02 else 0) in
  let! r := loop (Z.to_nat (size / 0x200000) + 2) (λ offset,
    if offset <? size then
      let va := u64 (virt_addr + offset) in
      let pa := u64 (phys_addr + offset) in
      let! r4 := ensure_pml4_entry pml4_pa (pml4_index va) in
      if r4 <? 0 then ret (inr (-1)) else
      let! e4 := entry pml4_pa (pml4_index va) in
      let pdpt := table_of e4 in
      let! r3 := ensure_pml4_entry pdpt (pdpt_index va) in
      if r3 <? 0 then ret (inr (-1)) else
      let! e3 := entry pdpt (pdpt_index va) in
      set_entry (table_of e3) (pd_index va) (Z.lor pa entry_flags) ;!
      ret (inl (u64 (offset + 0x200000)))
    else ret (inr 0)) 0 in
  if r <? 0 then ret (-1) else
  pml4_load pml4_pa ;!
  ret 0.

(** Make directory entry [idx], now [e2], point to a table: a missing one is
    created, a 2 MB mapping is split. *)
Definition ensure_pt (pd idx e2 : Z) : M heap Z :=
  if negb (present e2) then ensure_pml4_entry pd idx
  else if huge e2 then
    let! pt := table_page in
    if negb (nz pt) then ret (-1) else
    fill_split pt e2 ;!
    set_entry pd idx (Z.lor pt 0x07) ;!
    ret 0
  else ret 0.

Definition map_one_page (va pa cr3 : Z) : M heap Z :=
  let! r4 := ensure_pml4_entry cr3 (pml4_index va) in
  if r4 <? 0 then ret (-1) else
  let! e4 := entry cr3 (pml4_index va) in
  let pdpt := table_of e4 in
  let! r3 := ensure_pml4_entry pdpt (pdpt_index va) in
  if r3 <? 0 then ret (-1) else
  let! e3 := entry pdpt (pdpt_index va) in
  let pd := table_of e3 in
  let! e2 := entry pd (pd_index va) in
  let! r2 := ensure_pt pd (pd_index va) e2 in
  if r2 <? 0 then ret (-1) else
  let! e2 := entry pd (pd_index va) in
  let pt := table_of e2 in
  set_entry pt (pt_index va) (Z.lor pa 0x67) ;!
  ret 0.

(** ** Mappings at high user addresses *)

Definition USER_VA_BASE : Z := 0x70000000.
Definition USER_VA_END : Z := 0x7F000000.
Definition N_GUARD : Z := 4.

(** [buddy_free] of every block taken so far. *)
Fixpoint free_all (blocks : list (Z * Z)) : M heap unit :=
  match blocks with
  | [] => skip
  | (a, o) :: rest => buddy_free a o ;! free_all rest
  end.

(** [for (i = 0; i < n_total; i++) if (map_one_page(...) < 0) ...]: -1 when a
    page could not be mapped. *)
Definition map_pages (va pa cr3 n : Z) : M heap Z :=
  loop (Z.to_nat n + 1) (λ i,
    if i <? n then
      let! r := map_one_page (u64 (va + i * FRAME_SIZE)) (u64 (pa + i * FRAME_SIZE)) cr3 in
      if r <? 0 then ret (inr (-1)) else ret (inl (i + 1))
    else ret (inr 0)) 0.

Definition mmap_user_high (length : Z) : M heap Z :=
  let pages := u64 (length + FRAME_SIZE - 1) / FRAME_SIZE in
  let pages := if pages <? 64 then 64 else pages in
  let! order := order_of_pages pages in
  let n_total := u64 (Z.shiftl 1 order) in
  let! phys := buddy_alloc order true in
  if negb (nz phys) then ret 0 else
  let! guard := buddy_alloc 0 true in
  if negb (nz guard) then free_all [(phys, order)] ;! ret 0 else
  let! guard2 := buddy_alloc 0 true in
  if negb (nz guard2) then free_all [(phys, order); (guard, 0)] ;! ret 0 else
  let! guard3 := buddy_alloc 0 true in
  if negb (nz guard3) then free_all [(phys, order); (guard, 0); (guard2, 0)] ;! ret 0 else
  let! guard4 := buddy_alloc 0 true in
  if negb (nz guard4) then
    free_all [(phys, order); (guard, 0); (guard2, 0); (guard3, 0)] ;! ret 0 else
  let all := [(phys, order); (guard, 0); (guard2, 0); (guard3, 0); (guard4, 0)] in
  let! va := gets h_user_va_next in
  let total_size := u64 ((n_total + N_GUARD) * FRAME_SIZE) in
  if USER_VA_END <? u64 (va + total_size) then free_all all ;! ret 0 else
  let! cr3 := pml4_get_current in
  let! r := map_pages va phys cr3 n_total in
  if r <? 0 then free_all all ;! ret 0 else
  let! r1 := map_one_page (u64 (va + n_total * FRAME_SIZE)) guard cr3 in
  if r1 <? 0 then free_all all ;! ret 0 else
  let! r2 := map_one_page (u64 (va + (n_total + 1) * FRAME_SIZE)) guard2 cr3 in
  if r2 <? 0 then free_all all ;! ret 0 else
  let! r3 := map_one_page (u64 (va + (n_total + 2) * FRAME_SIZE)) guard3 cr3 in
  if r3 <? 0 then free_all all ;! ret 0 else
  let! r4 := map_one_page (u64 (va + (n_total + 3) * FRAME_SIZE)) guard4 cr3 in
  if r4 <? 0 then free_all all ;! ret 0 else
  pml4_load cr3 ;!
  modify (set_user_va_next (u64 (va + (n_total + N_GUARD) * FRAME_SIZE))) ;!
  ret va.

(** ** The processor's translation *)

(** The physical page number of an entry: bits 51 to 12. *)
Definition hw_table (e : Z) : Z := e / 2 ^ 12 mod 2 ^ 40 * 2 ^ 12.

(** Writable and user-accessible when every level says so. *)
Definition perms (es : list Z) : bool * bool :=
  (forallb (λ e, Z.testbit e 1) es, forallb (λ e, Z.testbit e 2) es).

Definition walk (m : gmap Z Z) (cr3 va : Z) : option (Z * (bool * bool)) :=
  let e4 := ld m (cr3 + 8 * pml4_index va) in
  if negb (present e4) then None else
  let e3 := ld m (hw_table e4 + 8 * pdpt_index va) in
  if negb (present e3) then None else
  if huge e3 then Some (e3 / 2 ^ 30 mod 2 ^ 22 * 2 ^ 30 + va mod 2 ^ 30, perms [e4; e3]) else
  let e2 := ld m (hw_table e3 + 8 * pd_index va) in
  if negb (present e2) then None else
  if huge e2 then Some (e2 / 2 ^ 21 mod 2 ^ 31 * 2 ^ 21 + va mod 2 ^ 21, perms [e4; e3; e2]) else
  let e1 := ld m (hw_table e2 + 8 * pt_index va) in
  if negb (present e1) then None else
  Some (hw_table e1 + va mod 2 ^ 12, perms [e4; e3; e2; e1]).
