(* ===== verification/PagingProof.v ===== *)
(** * PagingProof: what the page-table operations do to address translation

    [walk] is the processor's four-level translation.  Splitting a 2 MB mapping
    changes no translation of its region, and a page mapped by [map_one_page]
    or [map_user_4kb] is translated as asked. *)

From Stdlib Require Import ZArith Lia.
From stdpp Require Import gmap list prelude.
From S2P Require Import Prelude KHeap Buddy BuddyInv BuddyProof PageAlloc Slab Paging.

(** ** Bits of entries *)

Lemma nz_land_bit e n : 0 ≤ n → nz (Z.land e (2 ^ n)) = Z.testbit e n.
Proof.
  intros Hn. assert (Z.land e (2 ^ n) = if Z.testbit e n then 2 ^ n else 0) as ->.
  { apply Z.bits_inj'. intros k Hk. rewrite Z.land_spec, Z.pow2_bits_eqb by done.
    destruct (Z.eqb_spec n k) as [-> |].
    - destruct (Z.testbit e k) eqn:E; rewrite ?Z.pow2_bits_true, ?Z.bits_0 by done; done.
    - rewrite andb_false_r. destruct (Z.testbit e n); [|by rewrite Z.bits_0].
      by rewrite Z.pow2_bits_false. }
  pose proof (pow2_pos n Hn). destruct (Z.testbit e n); [|done]. apply nz_spec. lia.
Qed.

Lemma present_bit e : present e = Z.testbit e 0.
Proof. apply (nz_land_bit e 0). lia. Qed.
Lemma huge_bit e : huge e = Z.testbit e 7.
Proof. apply (nz_land_bit e 7). lia. Qed.

Lemma table_of_val e : table_of e = e / 2 ^ 12 * 2 ^ 12.
Proof.
  unfold table_of. change 0xFFF with (Z.ones 12). rewrite Z.ldiff_ones_r by lia.
  by rewrite Z.shiftr_div_pow2, Z.shiftl_mul_pow2 by lia.
Qed.

(** An entry without bits above 51 points where the kernel thinks it does. *)
Lemma hw_table_of e : 0 ≤ e < 2 ^ 52 → hw_table e = table_of e.
Proof.
  intros He. rewrite table_of_val. unfold hw_table. rewrite Z.mod_small; [done|].
  split; [apply Z.div_pos; lia|]. apply Z.div_lt_upper_bound; lia.
Qed.

(** A page address with flags in its low bits. *)
Section entry_word.
Context (q fl : Z) (Hfl : 0 ≤ fl < 2 ^ 12).

Lemma entry_lor : Z.lor (q * 2 ^ 12) fl = q * 2 ^ 12 + fl.
Proof.
  symmetry. apply Z.bits_inj'. intros k Hk. rewrite Z.lor_spec.
  destruct (Z.lt_ge_cases k 12) as [Hlt|Hge].
  - rewrite Z.mul_pow2_bits_low, orb_false_l by lia.
    rewrite <- (Z.mod_pow2_bits_low _ 12 k), Z.add_comm, Z.mod_add by lia.
    by rewrite Z.mod_pow2_bits_low.
  - rewrite Z.mul_pow2_bits by lia.
    replace (Z.testbit fl k) with false.
    2:{ destruct (decide (fl = 0)) as [-> |]; [by rewrite Z.bits_0|].
        symmetry. apply Z.bits_above_log2; [lia|]. apply Z.log2_lt_pow2; [lia|].
        apply (Z.lt_le_trans _ (2 ^ 12)); [lia|]. apply Z.pow_le_mono_r; lia. }
    rewrite orb_false_r. replace k with (k - 12 + 12) at 1 by lia.
    rewrite <- Z.div_pow2_bits by lia. f_equal.
    rewrite Z.add_comm, Z.div_add, Z.div_small by lia. done.
Qed.

Lemma entry_div : Z.lor (q * 2 ^ 12) fl / 2 ^ 12 = q.
Proof. rewrite entry_lor, Z.add_comm, Z.div_add, Z.div_small by lia. done. Qed.

Lemma entry_bit k : 0 ≤ k < 12 → Z.testbit (Z.lor (q * 2 ^ 12) fl) k = Z.testbit fl k.
Proof. intros. by rewrite Z.lor_spec, Z.mul_pow2_bits_low by lia. Qed.
End entry_word.

Lemma index_val n va : 0 ≤ n → Z.land (Z.shiftr va n) 0x1FF = va / 2 ^ n mod 512.
Proof. intros. rewrite Z.shiftr_div_pow2 by done. by apply (Z.land_ones _ 9). Qed.

(** Addresses of one 2 MB region take the same path down to the directory. *)
Lemma same_region va va' n :
  21 ≤ n → va' / 2 ^ 21 = va / 2 ^ 21 → Z.land (Z.shiftr va' n) 0x1FF = Z.land (Z.shiftr va n) 0x1FF.
Proof.
  intros Hn E. rewrite !index_val by lia. replace (2 ^ n) with (2 ^ 21 * 2 ^ (n - 21)).
  2:{ rewrite <- Z.pow_add_r by lia. f_equal. lia. }
  rewrite <- !Z.div_div by (try apply Z.pow_pos_nonneg; lia). by rewrite E.
Qed.

Lemma offset_split va : va mod 2 ^ 21 = pt_index va * 2 ^ 12 + va mod 2 ^ 12.
Proof.
  unfold pt_index. rewrite index_val by lia. change (2 ^ 21) with (2 ^ 12 * 512).
  rewrite Z.rem_mul_r by lia. lia.
Qed.

Lemma index_range n va : 0 ≤ n → 0 ≤ Z.land (Z.shiftr va n) 0x1FF < 512.
Proof. intros. rewrite index_val by done. by apply Z.mod_pos_bound. Qed.

(** ** Fresh tables *)

Lemma fill_table_spec h t (f : Z → Z) :
  wp (for_up 512 0 (λ i, set_entry t i (f i))) h (λ _ h', ∃ m, h' = set_mem m h ∧
    (∀ i, 0 ≤ i < 512 → ld m (t + 8 * i) = f i) ∧
    (∀ b, (∀ i, 0 ≤ i < 512 → b ≠ t + 8 * i) → ld m b = ld (h_mem h) b)).
Proof.
  eapply wp_mono; [apply (wp_for_up (λ k h', ∃ m, h' = set_mem m h ∧
    (∀ i, 0 ≤ i < k → ld m (t + 8 * i) = f i) ∧
    (∀ b, (∀ i, 0 ≤ i < k → b ≠ t + 8 * i) → ld m b = ld (h_mem h) b)))|].
  - exists (h_mem h). split_and!; [by destruct h|lia|done].
  - intros k ? Hk (m & -> & Hz & Ho). apply wp_store. eexists. split; [reflexivity|].
    cbn [h_mem set_mem]. split.
    + intros i Hi. rewrite ld_st. case_decide; [f_equal; lia|]. apply Hz. lia.
    + intros b Hb. rewrite ld_st_ne; [|intros <-; apply (Hb k); lia].
      apply Ho. intros i Hi. apply Hb. lia.
  - intros [] ? (m & -> & Hz & Ho). by exists m.
Qed.

(** What [table_page] returns: a zeroed page nobody holds, or [NULL] when no
    frame is left. *)
Definition fresh_page (h : heap) (L : pa_state) (idx : Z) (h' : heap) : Prop :=
  0 ≤ idx < 16384 ∧ ¬ live_frame L idx ∧ pa_rel h' (<[idx := (0, true)]> L) ∧
  (∀ i, 0 ≤ i < 512 → ld (h_mem h') (fa idx + 8 * i) = 0) ∧ contents_kept L h h'.

Lemma table_page_spec h L :
  pa_rel h L →
  wp table_page h (λ r h',
    (r = 0 ∧ pa_rel h' L ∧ contents_kept L h h' ∧ ∀ idx, ¬ free_run L idx 0) ∨
    ∃ idx, r = fa idx ∧ fresh_page h L idx h').
Proof.
  intros HR. eapply wp_mono; [apply (mmap_user_spec _ _ 4096 HR); lia|].
  intros r h' [(-> & HR' & Hc & Hno)|(idx & o & -> & Hrun & HR' & Hlen & Hmin & Hz & Hc)].
  - left. split_and!; try done. intros idx. apply Hno. lia.
  - right. exists idx. pose proof (free_run_bound _ _ _ Hrun).
    assert (o = 0) as ->.
    { destruct Hrun as (Ho & _). destruct (Z.lt_ge_cases 0 o) as [Hlt|]; [|lia].
      specialize (Hmin Hlt). pose proof (pow2_pos (o - 1)). lia. }
    rewrite frame_of_range in * by done. split; [done|]. split_and!; try lia; try done.
    + destruct Hrun as (_ & _ & _ & _ & Hno). apply Hno. lia.
    + intros i Hi. apply Hz; lia.
Qed.

Lemma stable_not_fresh L idx a :
  0 ≤ idx < 16384 → ¬ live_frame L idx → stable L a → ¬ (fa idx ≤ a < fa idx + 4096).
Proof. intros Hi Hn Ha Hr. by apply Hn, Ha. Qed.

Lemma stable_insert L idx o u a :
  L !! idx = None → stable L a → stable (<[idx := (o, u)]> L) a.
Proof.
  intros Hn Ha f Hf Hr. destruct (Ha f Hf Hr) as (i & p & v & Hi & Hif).
  exists i, p, v. split; [|done]. rewrite lookup_insert_ne; [done|]. congruence.
Qed.

Lemma fresh_not_in h L idx : pa_rel h L → 0 ≤ idx < 16384 → ¬ live_frame L idx → L !! idx = None.
Proof.
  intros (H & HI & HL) Hr Hn. destruct (L !! idx) as [[o u]|] eqn:E; [|done].
  exfalso. apply Hn. exists idx, o, u. split; [done|]. apply HL in E.
  pose proof (til_ok _ (bi_til _ _ (proj1 HI)) _ _ _ E) as (? & _). pose proof (pow2_pos o). lia.
Qed.

(** The state after a table filled with [f] was linked at word [slot]. *)
Definition linked (h : heap) (L : pa_state) (slot : Z) (f : Z → Z) (idx : Z) (h' : heap) : Prop :=
  0 ≤ idx < 16384 ∧ ¬ live_frame L idx ∧ pa_rel h' (<[idx := (0, true)]> L) ∧
  ld (h_mem h') slot = Z.lor (fa idx) 0x07 ∧
  (∀ i, 0 ≤ i < 512 → ld (h_mem h') (fa idx + 8 * i) = f i) ∧
  (∀ a, stable L a → a ≠ slot → ld (h_mem h') a = ld (h_mem h) a).

Lemma link_table_spec h L t i (f : Z → Z) :
  pa_rel h L → stable L (t + 8 * i) →
  wp (let! page := table_page in
      if negb (nz page) then ret (-1) else
      for_up 512 0 (λ k, set_entry page k (f k)) ;!
      set_entry t i (Z.lor page 0x07) ;!
      ret 0) h (λ r h',
    (r = -1 ∧ pa_rel h' L ∧ contents_kept L h h' ∧ ∀ idx, ¬ free_run L idx 0) ∨
    (r = 0 ∧ ∃ idx, linked h L (t + 8 * i) f idx h')).
Proof.
  intros HR Hst. wp_step. eapply wp_mono; [by apply table_page_spec|].
  intros r h1 [(-> & HR1 & Hc & Hno)|(idx & -> & Hi & Hn & HR1 & Hz & Hc)].
  { change (negb (nz 0)) with true. cbv iota. wp_step. left. by split_and!. }
  rewrite (fa_nz idx) by lia. cbn [negb]. wp_step.
  eapply wp_mono; [apply fill_table_spec|]. intros [] ? (m & -> & Hf & Ho).
  wp_step. unfold set_entry at 1. apply wp_store. wp_step. right. split; [done|].
  exists idx. set (L' := <[idx := (0, true)]> L) in *.
  assert (HL' : live_frame L' idx).
  { exists idx, 0, true. split; [apply lookup_insert_eq|]. change (2 ^ 0) with 1. lia. }
  pose proof (stable_not_fresh _ _ _ Hi Hn Hst) as Hslot.
  assert (Hout : ∀ a, stable L a → ∀ k, 0 ≤ k < 512 → a ≠ fa idx + 8 * k).
  { intros a Ha k Hk ->. apply (stable_not_fresh _ _ _ Hi Hn Ha). lia. }
  split_and!; try lia; try done; cbn [h_mem set_mem].
  - apply (pa_rel_store (set_mem m h1)).
    + apply pa_rel_mem; [done|]. intros a Ha. apply Ho. intros k Hk ->. apply Ha.
      apply (stable_in _ idx); [done|lia].
    + apply stable_insert; [by eapply fresh_not_in|done].
  - apply ld_st_eq.
  - intros k Hk. rewrite ld_st_ne; [by apply Hf|]. by apply Hout.
  - intros a Ha Hne. rewrite ld_st_ne by done. rewrite Ho; [by apply Hc|]. by apply Hout.
Qed.

(** The entry of a fresh table. *)
Lemma linked_entry idx :
  0 ≤ idx < 16384 →
  present (Z.lor (fa idx) 0x07) = true ∧ huge (Z.lor (fa idx) 0x07) = false ∧
  hw_table (Z.lor (fa idx) 0x07) = fa idx ∧ table_of (Z.lor (fa idx) 0x07) = fa idx ∧
  Z.testbit (Z.lor (fa idx) 0x07) 1 = true ∧ Z.testbit (Z.lor (fa idx) 0x07) 2 = true.
Proof.
  intros Hi. rewrite present_bit, huge_bit, table_of_val. unfold hw_table.
  replace (fa idx) with ((2560 + idx) * 2 ^ 12) by (unfold fa, HEAP_PHYS; lia).
  rewrite entry_div, !entry_bit by lia. split_and!; try done.
  rewrite Z.mod_small; lia.
Qed.

(** ** Splitting a 2 MB mapping *)

(** The tables down to the directory entry of [va] are in place, and the
    allocator does not use the words of the path. *)
Record pd_path (m : gmap Z Z) (L : pa_state) (cr3 va e4 e3 : Z) : Prop := {
  pp_e4 : ld m (cr3 + 8 * pml4_index va) = e4;
  pp_e3 : ld m (table_of e4 + 8 * pdpt_index va) = e3;
  pp_r4 : 0 ≤ e4 < 2 ^ 52;
  pp_r3 : 0 ≤ e3 < 2 ^ 52;
  pp_p4 : present e4 = true;
  pp_p3 : present e3 = true;
  pp_h3 : huge e3 = false;
  pp_s4 : stable L (cr3 + 8 * pml4_index va);
  pp_s3 : stable L (table_of e4 + 8 * pdpt_index va);
  pp_s2 : stable L (table_of e3 + 8 * pd_index va);
  pp_n4 : cr3 + 8 * pml4_index va ≠ table_of e3 + 8 * pd_index va;
  pp_n3 : table_of e4 + 8 * pdpt_index va ≠ table_of e3 + 8 * pd_index va }.

Definition split_entry (pde i : Z) : Z :=
  Z.lor (u64 (Z.ldiff pde 0x1FFFFF + i * 0x1000)) (Z.ldiff (Z.land pde 0x1FF) 0x80).

Lemma split_flags_range pde : 0 ≤ Z.ldiff (Z.land pde 0x1FF) 0x80 < 2 ^ 12.
Proof.
  assert (Z.ldiff (Z.land pde 0x1FF) 0x80 = Z.land (Z.ldiff pde 0x80) (Z.ones 9)) as ->.
  { apply Z.bits_inj'. intros k Hk. rewrite !Z.ldiff_spec, !Z.land_spec, Z.ldiff_spec.
    change (Z.ones 9) with 0x1FF. by destruct (Z.testbit pde k), (Z.testbit 0x1FF k),
      (Z.testbit 0x80 k). }
  rewrite Z.land_ones by lia. pose proof (Z.mod_pos_bound (Z.ldiff pde 0x80) (2 ^ 9)). lia.
Qed.

Lemma split_entry_word pde i :
  0 ≤ pde < 2 ^ 64 → 0 ≤ i < 512 →
  split_entry pde i =
    Z.lor ((pde / 2 ^ 21 * 512 + i) * 2 ^ 12) (Z.ldiff (Z.land pde 0x1FF) 0x80).
Proof.
  intros Hp Hi. unfold split_entry. f_equal.
  change 0x1FFFFF with (Z.ones 21). rewrite Z.ldiff_ones_r by lia.
  rewrite Z.shiftr_div_pow2, Z.shiftl_mul_pow2 by lia.
  assert (0 ≤ pde / 2 ^ 21 < 2 ^ 43).
  { split; [apply Z.div_pos; lia|]. apply Z.div_lt_upper_bound; lia. }
  rewrite u64_small; lia.
Qed.

Lemma split_flags_bit pde k :
  0 ≤ k < 3 → Z.testbit (Z.ldiff (Z.land pde 0x1FF) 0x80) k = Z.testbit pde k.
Proof.
  intros Hk. rewrite Z.ldiff_spec, Z.land_spec.
  assert (k = 0 ∨ k = 1 ∨ k = 2) as [-> | [-> | ->]] by lia;
    by rewrite andb_true_r, andb_true_r.
Qed.

Lemma split_entry_bit pde i k :
  0 ≤ pde < 2 ^ 64 → 0 ≤ i < 512 → 0 ≤ k < 3 →
  Z.testbit (split_entry pde i) k = Z.testbit pde k.
Proof.
  intros Hp Hi Hk. rewrite split_entry_word by done.
  rewrite entry_bit by (apply split_flags_range || lia). by apply split_flags_bit.
Qed.

Lemma split_entry_table pde i :
  0 ≤ pde < 2 ^ 64 → 0 ≤ i < 512 →
  hw_table (split_entry pde i) = pde / 2 ^ 21 mod 2 ^ 31 * 2 ^ 21 + i * 2 ^ 12.
Proof.
  intros Hp Hi. rewrite split_entry_word by done. unfold hw_table.
  rewrite entry_div by apply split_flags_range.
  change (2 ^ 40) with (512 * 2 ^ 31). rewrite Z.rem_mul_r by lia.
  rewrite (Z.add_comm (_ * 512) i), Z.mod_add, Z.div_add by lia.
  rewrite (Z.mod_small i 512), (Z.div_small i 512), Z.add_0_l by lia.
  change (2 ^ 21) with (512 * 2 ^ 12). set (q := _ mod 2 ^ 31). lia.
Qed.

(** What [walk] makes of directory entry [e2] for [va]. *)
Definition walk_pd (m : gmap Z Z) (es : list Z) (e2 va : Z) : option (Z * (bool * bool)) :=
  if negb (present e2) then None else
  if huge e2 then
    Some (e2 / 2 ^ 21 mod 2 ^ 31 * 2 ^ 21 + va mod 2 ^ 21, perms (es ++ [e2])) else
  let e1 := ld m (hw_table e2 + 8 * pt_index va) in
  if negb (present e1) then None else
  Some (hw_table e1 + va mod 2 ^ 12, perms (es ++ [e2; e1])).

Lemma walk_to_pd m cr3 va e4 e3 :
  ld m (cr3 + 8 * pml4_index va) = e4 → ld m (table_of e4 + 8 * pdpt_index va) = e3 →
  0 ≤ e4 < 2 ^ 52 → 0 ≤ e3 < 2 ^ 52 → present e4 = true → present e3 = true → huge e3 = false →
  ∀ va', va' / 2 ^ 21 = va / 2 ^ 21 →
  walk m cr3 va' = walk_pd m [e4; e3] (ld m (table_of e3 + 8 * pd_index va)) va'.
Proof.
  intros E4 E3 R4 R3 P4 P3 H3 va' Hva. unfold walk, pml4_index, pdpt_index, pd_index in *.
  rewrite !(same_region va va') by (lia || done). rewrite E4, P4, hw_table_of by done. cbn [negb].
  rewrite E3, P3, H3, hw_table_of by done. reflexivity.
Qed.

(** A directory entry replaced by the split table translates alike. *)
Lemma walk_pd_split m m' es pde idx va :
  0 ≤ pde < 2 ^ 64 → present pde = true → huge pde = true → 0 ≤ idx < 16384 →
  (∀ i, 0 ≤ i < 512 → ld m' (fa idx + 8 * i) = split_entry pde i) →
  walk_pd m' es (Z.lor (fa idx) 0x07) va = walk_pd m es pde va.
Proof.
  intros Hr Hp Hh Hi Hpt. unfold walk_pd. rewrite Hp, Hh.
  destruct (linked_entry idx Hi) as (-> & -> & -> & _ & B1 & B2). cbn [negb].
  assert (Hpi : 0 ≤ pt_index va < 512) by (apply index_range; lia).
  rewrite Hpt by done. rewrite present_bit, split_entry_bit, <- present_bit, Hp by (done || lia).
  cbn [negb]. rewrite split_entry_table, offset_split by done. do 2 f_equal; [lia|].
  unfold perms. rewrite !forallb_app. cbn [forallb].
  rewrite !split_entry_bit, B1, B2 by (done || lia). by rewrite !andb_true_l.
Qed.

Lemma split_run h L cr3 va e4 e3 :
  pa_rel h L → pd_path (h_mem h) L cr3 va e4 e3 →
  let slot := table_of e3 + 8 * pd_index va in
  let pde := ld (h_mem h) slot in
  present pde = true → huge pde = true →
  wp (split_2mb_pde cr3 va) h (λ r h',
    (r = -1 ∧ pa_rel h' L ∧ contents_kept L h h' ∧ ∀ idx, ¬ free_run L idx 0) ∨
    (r = 0 ∧ ∃ idx, linked h L slot (split_entry pde) idx h')).
Proof.
  intros HR [E4 E3 R4 R3 P4 P3 H3 S4 S3 S2 N4 N3] slot pde Hp Hh.
  unfold split_2mb_pde, entry. wp_step. apply wp_load. rewrite E4, P4. cbn [negb].
  wp_step. apply wp_load. rewrite E3, P3. cbn [negb].
  wp_step. apply wp_load. fold slot pde. rewrite Hp, Hh. cbn [negb].
  by apply (link_table_spec h L (table_of e3) (pd_index va) (split_entry pde)).
Qed.

(** ** Mapping one page *)

(** A present entry on the way: a user-writable table whose next slot is a word
    the allocator leaves alone and none of [used]. *)
Definition entry_ok (L : pa_state) (used : list Z) (e next : Z) : Prop :=
  0 ≤ e < 2 ^ 52 ∧ Z.testbit e 1 = true ∧ Z.testbit e 2 = true ∧ huge e = false ∧
  stable L (table_of e + 8 * next) ∧ table_of e + 8 * next ∉ used.

(** The allocator's state has only grown. *)
Definition grows (L L' : pa_state) : Prop := ∀ a, stable L a → stable L' a.

Lemma entry_ok_grows L L' used e next :
  grows L L' → entry_ok L used e next → entry_ok L' used e next.
Proof. intros Hg (? & ? & ? & ? & ? & ?). split_and!; try done; try lia. by apply Hg. Qed.

(** A freshly linked table is such an entry. *)
Lemma linked_entry_ok h L slot f idx h' used next :
  pa_rel h L → linked h L slot f idx h' → 0 ≤ next < 512 → (∀ a, a ∈ used → stable L a) →
  grows L (<[idx := (0, true)]> L) ∧
  entry_ok (<[idx := (0, true)]> L) used (Z.lor (fa idx) 0x07) next.
Proof.
  intros HR (Hi & Hn & _) Hnx Hu. pose proof (fresh_not_in _ _ _ HR Hi Hn) as Hnone.
  destruct (linked_entry idx Hi) as (_ & Hh & _ & Ht & B1 & B2).
  split; [intros a; by apply stable_insert|]. unfold entry_ok. rewrite Ht.
  assert (fa idx = (2560 + idx) * 2 ^ 12) as Hfa by (unfold fa, HEAP_PHYS; lia).
  split_and!; try done.
  - apply Z.lor_nonneg. unfold fa, HEAP_PHYS. lia.
  - rewrite Hfa, entry_lor; lia.
  - apply (stable_in _ idx); [|lia]. exists idx, 0, true. split; [apply lookup_insert_eq|].
    change (2 ^ 0) with 1. lia.
  - intros Hin. apply (stable_not_fresh _ _ _ Hi Hn (Hu _ Hin)). lia.
Qed.

(** One level: afterwards the entry is present and usable, and of the words in
    use only its slot may have changed. *)
Definition level_post (h : heap) (L : pa_state) (used : list Z) (slot next : Z)
    (h' : heap) (L' : pa_state) (e' : Z) : Prop :=
  pa_rel h' L' ∧ grows L L' ∧ ld (h_mem h') slot = e' ∧ present e' = true ∧
  entry_ok L' used e' next ∧
  (∀ a, stable L a → a ≠ slot → ld (h_mem h') a = ld (h_mem h) a).

(** No frame is left. *)
Definition exhausted (h : heap) (L : pa_state) : Prop := pa_rel h L ∧ ∀ idx, ¬ free_run L idx 0.

Lemma ensure_step h L t i next used :
  pa_rel h L → (∀ a, a ∈ used → stable L a) → stable L (t + 8 * i) → 0 ≤ next < 512 →
  let e := ld (h_mem h) (t + 8 * i) in
  (present e = true → entry_ok L used e next) →
  wp (ensure_pml4_entry t i) h (λ r h', (r = -1 ∧ exhausted h' L) ∨ (r = 0 ∧ ∃ L' e',
    level_post h L used (t + 8 * i) next h' L' e' ∧
    (present e = true → L' = L ∧ h' = h) ∧
    (present e = false → ld (h_mem h') (table_of e' + 8 * next) = 0))).
Proof.
  intros HR Hu Hs Hnx e He. unfold ensure_pml4_entry, entry. wp_step. apply wp_load. fold e.
  destruct (present e) eqn:Hp.
  - wp_step. right. split; [done|]. exists L, e. split_and!; try done.
    split_and!; try done; [by intros ?|by apply He].
  - eapply wp_mono; [by apply (link_table_spec h L t i (λ _, 0))|].
    intros r h' [(-> & HR' & _ & Hno)|(-> & idx & Hl)]; [by left|right]. split; [done|].
    exists (<[idx := (0, true)]> L), (Z.lor (fa idx) 0x07).
    destruct (linked_entry_ok _ _ _ _ _ _ used next HR Hl Hnx Hu) as [Hg Hok].
    destruct Hl as (Hi & Hn & HR' & Hsl & Hpt & Ho).
    destruct (linked_entry idx Hi) as (Hpr & _ & _ & Ht & _).
    split_and!; try done. intros _. rewrite Ht. by apply Hpt.
Qed.

(** The tables on the way to [va] that exist already are usable. *)
Record map_path (m : gmap Z Z) (L : pa_state) (cr3 va : Z) : Prop := {
  mp_s4 : stable L (cr3 + 8 * pml4_index va);
  mp_e4 :
    let s4 := cr3 + 8 * pml4_index va in
    present (ld m s4) = true → entry_ok L [s4] (ld m s4) (pdpt_index va);
  mp_e3 :
    let s4 := cr3 + 8 * pml4_index va in
    let s3 := table_of (ld m s4) + 8 * pdpt_index va in
    present (ld m s4) = true → present (ld m s3) = true →
    entry_ok L [s3; s4] (ld m s3) (pd_index va);
  mp_e2 :
    let s4 := cr3 + 8 * pml4_index va in
    let s3 := table_of (ld m s4) + 8 * pdpt_index va in
    let s2 := table_of (ld m s3) + 8 * pd_index va in
    present (ld m s4) = true → present (ld m s3) = true → present (ld m s2) = true →
    huge (ld m s2) = false →
    entry_ok L [s2; s3; s4] (ld m s2) (pt_index va) }.

(** The directory of [va] is in place, reached through [e4] and [e3]. *)
Record upper (h : heap) (L : pa_state) (cr3 va e4 e3 : Z) : Prop := {
  up_rel : pa_rel h L;
  up_s4 : stable L (cr3 + 8 * pml4_index va);
  up_e4 : ld (h_mem h) (cr3 + 8 * pml4_index va) = e4;
  up_p4 : present e4 = true;
  up_ok4 : entry_ok L [cr3 + 8 * pml4_index va] e4 (pdpt_index va);
  up_e3 : ld (h_mem h) (table_of e4 + 8 * pdpt_index va) = e3;
  up_p3 : present e3 = true;
  up_ok3 : entry_ok L [table_of e4 + 8 * pdpt_index va; cr3 + 8 * pml4_index va] e3 (pd_index va);
  up_ok2 :
    let s2 := table_of e3 + 8 * pd_index va in
    present (ld (h_mem h) s2) = true → huge (ld (h_mem h) s2) = false →
    entry_ok L [s2; table_of e4 + 8 * pdpt_index va; cr3 + 8 * pml4_index va]
      (ld (h_mem h) s2) (pt_index va) }.

(** The directory slot of [va], as the tables of [m] have it. *)
Definition dir_slot (m : gmap Z Z) (cr3 va : Z) : Z :=
  table_of (ld m (table_of (ld m (cr3 + 8 * pml4_index va)) + 8 * pdpt_index va)) + 8 * pd_index va.

Lemma upper_levels {A} (fail : M heap A) (k : Z → M heap A) h L cr3 va Q :
  pa_rel h L → map_path (h_mem h) L cr3 va →
  (∀ h' L', exhausted h' L' → grows L L' → wp fail h' Q) →
  (∀ h' L' e4 e3, upper h' L' cr3 va e4 e3 → grows L L' →
     (huge (ld (h_mem h') (table_of e3 + 8 * pd_index va)) = true →
      huge (ld (h_mem h) (dir_slot (h_mem h) cr3 va)) = true) → wp (k (table_of e3)) h' Q) →
  wp (let! r4 := ensure_pml4_entry cr3 (pml4_index va) in
      if r4 <? 0 then fail else
      let! e4 := entry cr3 (pml4_index va) in
      let! r3 := ensure_pml4_entry (table_of e4) (pdpt_index va) in
      if r3 <? 0 then fail else
      let! e3 := entry (table_of e4) (pdpt_index va) in
      k (table_of e3)) h Q.
Proof.
  intros HR [S4 M4 M3 M2] Hfail Hk. set (s4 := cr3 + 8 * pml4_index va) in *.
  assert (Hi3 : 0 ≤ pdpt_index va < 512) by (apply index_range; lia).
  assert (Hi2 : 0 ≤ pd_index va < 512) by (apply index_range; lia).
  wp_step. eapply wp_mono; [apply (ensure_step h L _ _ (pdpt_index va) [s4]); try done|].
  { by intros a ->%list_elem_of_singleton. }
  intros r4 h1 [[-> Hex]|(-> & L1 & e4 & (HR1 & Hg1 & He4 & Hp4 & Hok4 & Hk1) & Hold & Hnew)];
    [by apply (Hfail h1 L); [done|intros a]|]. cbn [Z.ltb Z.compare].
  wp_step. apply wp_load. fold s4 in He4, Hk1, Hold, Hnew |- *. rewrite He4.
  set (s3 := table_of e4 + 8 * pdpt_index va) in *.
  assert (HS3 : stable L1 s3) by (by destruct Hok4 as (_ & _ & _ & _ & ? & _)).
  assert (Hu1 : ∀ a, a ∈ [s3; s4] → stable L1 a).
  { intros a [-> | ->%list_elem_of_singleton]%elem_of_cons; [done|by apply Hg1]. }
  assert (Hsame : present (ld (h_mem h) s4) = true → L1 = L ∧ h1 = h ∧ e4 = ld (h_mem h) s4).
  { intros Hp. destruct (Hold Hp) as [-> ->]. done. }
  wp_step. eapply wp_mono; [apply (ensure_step h1 L1 _ _ (pd_index va) [s3; s4]); try done|].
  { fold s3. intros Hp3. destruct (present (ld (h_mem h) s4)) eqn:Hp.
    - destruct (Hsame eq_refl) as (-> & -> & E4). unfold s3. rewrite E4. apply M3; [done|].
      by rewrite <- E4.
    - by rewrite (Hnew eq_refl) in Hp3. }
  intros r3 h2 [[-> Hex]|(-> & L2 & e3 & (HR2 & Hg2 & He3 & Hp3 & Hok3 & Hk2) & Hold2 & Hnew2)];
    [by apply (Hfail h2 L1)|]. cbn [Z.ltb Z.compare].
  wp_step. apply wp_load. fold s3 in He3, Hk2, Hold2, Hnew2 |- *. rewrite He3.
  apply (Hk h2 L2 e4 e3); [|intros a Ha; by apply Hg2, Hg1|].
  2:{ intros Hh. destruct (present (ld (h_mem h1) s3)) eqn:Hp3'; [|by rewrite (Hnew2 eq_refl) in Hh].
      destruct (Hold2 eq_refl) as [-> ->]. destruct (present (ld (h_mem h) s4)) eqn:Hp.
      - destruct (Hsame eq_refl) as (-> & -> & E4). unfold dir_slot. fold s4. rewrite <- E4. fold s3. by rewrite He3.
      - by rewrite (Hnew eq_refl) in Hp3'. }
  assert (Hne : s4 ≠ s3).
  { destruct Hok4 as (_ & _ & _ & _ & _ & Hn). intros ->. apply Hn. by left. }
  assert (ld (h_mem h2) s4 = e4) as He4' by (rewrite Hk2; [done|by apply Hg1|done]).
  split; fold s4 s3; try done.
  - by apply Hg2, Hg1.
  - by eapply entry_ok_grows.
  - intros s2 Hp2 Hh2. destruct (present (ld (h_mem h1) s3)) eqn:Hp3'.
    + destruct (Hold2 eq_refl) as [-> ->]. destruct (present (ld (h_mem h) s4)) eqn:Hp.
      * destruct (Hsame eq_refl) as (-> & -> & E4). unfold s2, s3 in *. rewrite E4 in *.
        rewrite <- He3 in *. by apply M2.
      * by rewrite (Hnew eq_refl) in Hp3'.
    + unfold s2 in Hp2. by rewrite (Hnew2 eq_refl) in Hp2.
Qed.

(** The translation once the four entries are there. *)
Lemma walk_4kb m cr3 va e4 e3 e2 e1 (L : pa_state) u4 u3 u2 :
  ld m (cr3 + 8 * pml4_index va) = e4 → present e4 = true → entry_ok L u4 e4 (pdpt_index va) →
  ld m (table_of e4 + 8 * pdpt_index va) = e3 → present e3 = true → entry_ok L u3 e3 (pd_index va) →
  ld m (table_of e3 + 8 * pd_index va) = e2 → present e2 = true → entry_ok L u2 e2 (pt_index va) →
  ld m (table_of e2 + 8 * pt_index va) = e1 →
  walk m cr3 va =
    if present e1 then Some (hw_table e1 + va mod 2 ^ 12, (Z.testbit e1 1, Z.testbit e1 2))
    else None.
Proof.
  intros E4 P4 (R4 & W4 & U4 & _) E3 P3 (R3 & W3 & U3 & H3 & _) E2 P2 (R2 & W2 & U2 & H2 & _) E1.
  rewrite (walk_to_pd m cr3 va e4 e3) by done. unfold walk_pd.
  rewrite E2, P2, H2, hw_table_of, E1 by done. cbn [negb]. destruct (present e1); [|done]. cbn [negb].
  unfold perms. cbn [app forallb]. by rewrite W4, W3, W2, U4, U3, U2, !andb_true_r.
Qed.

(** The table of [va] is in place below the directory. *)
Definition lower (h : heap) (L : pa_state) (cr3 va e4 e3 e2 : Z) : Prop :=
  let s4 := cr3 + 8 * pml4_index va in
  let s3 := table_of e4 + 8 * pdpt_index va in
  let s2 := table_of e3 + 8 * pd_index va in
  pa_rel h L ∧
  (ld (h_mem h) s4 = e4 ∧ present e4 = true ∧ entry_ok L [s4] e4 (pdpt_index va)) ∧
  (ld (h_mem h) s3 = e3 ∧ present e3 = true ∧ entry_ok L [s3; s4] e3 (pd_index va)) ∧
  (ld (h_mem h) s2 = e2 ∧ present e2 = true ∧ entry_ok L [s2; s3; s4] e2 (pt_index va)).

Lemma upper_slots h L cr3 va e4 e3 :
  upper h L cr3 va e4 e3 →
  let s4 := cr3 + 8 * pml4_index va in
  let s3 := table_of e4 + 8 * pdpt_index va in
  let s2 := table_of e3 + 8 * pd_index va in
  (∀ a, a ∈ [s2; s3; s4] → stable L a) ∧ s2 ≠ s3 ∧ s2 ≠ s4 ∧ s3 ≠ s4.
Proof.
  intros [_ S4 _ _ (_ & _ & _ & _ & S3 & N3) _ _ (_ & _ & _ & _ & S2 & N2) _] s4 s3 s2.
  apply not_elem_of_cons in N2 as [? N2]. apply not_elem_of_cons in N2 as [? _].
  apply not_elem_of_cons in N3 as [? _]. split_and!; try done.
  intros a Ha. rewrite !elem_of_cons in Ha. destruct Ha as [-> | [-> | [-> |Ha]]]; try done.
  by apply elem_of_nil in Ha.
Qed.

Lemma level_lower h L cr3 va e4 e3 h' L' e2 :
  upper h L cr3 va e4 e3 →
  let s2 := table_of e3 + 8 * pd_index va in
  level_post h L [s2; table_of e4 + 8 * pdpt_index va; cr3 + 8 * pml4_index va] s2 (pt_index va) h' L' e2 →
  lower h' L' cr3 va e4 e3 e2.
Proof.
  intros HU s2 (HR & Hg & He2 & Hp2 & Hok2 & Hk). pose proof (upper_slots _ _ _ _ _ _ HU) as (Hu & N3 & N4 & _).
  destruct HU as [_ _ E4 P4 K4 E3 P3 K3 _]. unfold lower. fold s2 in N3, N4, Hu |- *. split_and!; try done.
  - rewrite Hk; [done|apply Hu; do 2 right; by left|done].
  - by eapply entry_ok_grows.
  - rewrite Hk; [done|apply Hu; right; by left|done].
  - by eapply entry_ok_grows.
Qed.

(** The directory entry of [va], made to point to a table. *)
Lemma lower_level h L cr3 va e4 e3 :
  upper h L cr3 va e4 e3 →
  let pd := table_of e3 in
  let e2 := ld (h_mem h) (pd + 8 * pd_index va) in
  wp (ensure_pt pd (pd_index va) e2) h (λ r h',
    (r = -1 ∧ exhausted h' L) ∨ (r = 0 ∧ ∃ L' e2, lower h' L' cr3 va e4 e3 e2 ∧ grows L L')).
Proof.
  intros HU pd e2. pose proof (upper_slots _ _ _ _ _ _ HU) as (Hu & _). pose proof (up_rel _ _ _ _ _ _ HU) as HR.
  set (s2 := pd + 8 * pd_index va) in *. assert (S2 : stable L s2) by (apply Hu; by left).
  assert (Hi1 : 0 ≤ pt_index va < 512) by (apply index_range; lia).
  unfold ensure_pt. destruct (present e2) eqn:Hp; cbn [negb]; [destruct (huge e2) eqn:Hh|].
  - eapply wp_mono; [by apply (link_table_spec h L pd (pd_index va) (split_entry e2))|].
    intros r h' [(-> & HR' & _ & Hno)|(-> & idx & Hl)]; [by left|right]. split; [done|].
    destruct (linked_entry_ok _ _ _ _ _ _ _ (pt_index va) HR Hl Hi1 Hu) as [Hg Hok].
    destruct Hl as (Hi & Hn & HR' & Hsl & _ & Ho). destruct (linked_entry idx Hi) as (Hpr & _).
    exists (<[idx := (0, true)]> L), (Z.lor (fa idx) 0x07). split; [|done].
    eapply level_lower; [exact HU|]. by split_and!.
  - wp_step. right. split; [done|]. exists L, e2. split; [|by intros a].
    eapply level_lower; [exact HU|]. split_and!; try done; [by intros a|].
    by apply (up_ok2 _ _ _ _ _ _ HU).
  - eapply wp_mono; [apply (ensure_step h L pd (pd_index va) (pt_index va) _ HR Hu S2 Hi1)|].
    { fold s2 e2. congruence. }
    intros r h' [[-> Hex]|(-> & L' & e2' & Hl & _)]; [by left|right]. split; [done|]. exists L', e2'.
    split; [by eapply level_lower|]. by destruct Hl as (_ & ? & _).
Qed.

(** The last entry is written: what [va] translates to. *)
Lemma lower_store h L cr3 va e4 e3 e2 v :
  lower h L cr3 va e4 e3 e2 →
  let s1 := table_of e2 + 8 * pt_index va in
  let h' := set_mem (st (h_mem h) s1 v) h in
  pa_rel h' L ∧
  walk (h_mem h') cr3 va =
    if present v then Some (hw_table v + va mod 2 ^ 12, (Z.testbit v 1, Z.testbit v 2)) else None.
Proof.
  intros (HR & (E4 & P4 & K4) & (E3 & P3 & K3) & (E2 & P2 & K2)) s1 h'.
  pose proof K2 as (_ & _ & _ & _ & S1 & N1). rewrite !not_elem_of_cons in N1.
  destruct N1 as (N2 & N3 & N4 & _). split; [by apply pa_rel_store|].
  eapply walk_4kb; [|exact P4|exact K4| |exact P3|exact K3| |exact P2|exact K2|]; unfold h';
    cbn [h_mem set_mem]; [rewrite ld_st_ne by done..|apply ld_st_eq]; done.
Qed.

Lemma map_one_page_spec h L cr3 va pa :
  pa_rel h L → map_path (h_mem h) L cr3 va → 0 ≤ pa < 2 ^ 52 → (2 ^ 12 | pa) →
  wp (map_one_page va pa cr3) h (λ r h', (r = -1 ∧ ∃ L', exhausted h' L' ∧ grows L L') ∨ (r = 0 ∧
    (∃ L', pa_rel h' L' ∧ grows L L') ∧
    walk (h_mem h') cr3 va = Some (pa + va mod 2 ^ 12, (true, true)))).
Proof.
  intros HR HM Hpa [q ->]. unfold map_one_page.
  apply (upper_levels (ret (-1)) (λ pd,
    let! e2 := entry pd (pd_index va) in let! r2 := ensure_pt pd (pd_index va) e2 in if r2 <? 0 then ret (-1) else
    let! e2 := entry pd (pd_index va) in
    set_entry (table_of e2) (pt_index va) (Z.lor (q * 2 ^ 12) 0x67) ;! ret 0) h L); try done.
  { intros h' L' Hex Hg. wp_step. left. split; [done|]. by exists L'. }
  intros h1 L1 e4 e3 HU Hg1 _. wp_step. apply wp_load. wp_step.
  eapply wp_mono; [by eapply lower_level|].
  intros r h2 [[-> Hex]|(-> & L2 & e2 & HL & Hg2)]; cbn [Z.ltb Z.compare].
  { wp_step. left. split; [done|]. by exists L1. }
  wp_step. apply wp_load. replace (ld (h_mem h2) _) with e2 by (symmetry; apply HL).
  wp_step. apply wp_store. wp_step. right. split; [done|].
  destruct (lower_store _ _ _ _ _ _ _ (Z.lor (q * 2 ^ 12) 0x67) HL) as [HR3 Hw].
  split; [exists L2; split; [done|]; intros a Ha; by apply Hg2, Hg1|].
  rewrite Hw, present_bit, !entry_bit by lia. cbn [Z.testbit Pos.testbit].
  unfold hw_table. rewrite entry_div, Z.mod_small by lia. done.
Qed.

(** ** A small address space for the examples *)

(** Tables at 0x1000, 0x2000 and 0x3000 with the first 2 MB mapped at 0. *)
Definition demo_heap : heap :=
  set_mem (st (st (st (h_mem boot_heap) 0x1000 0x2007) 0x2000 0x3007) 0x3000 0x87) boot_heap.

Lemma outside_stable L a : 0 ≤ a < HEAP_PHYS → stable L a.
Proof. intros Ha f Hf Hr. unfold fa, HEAP_PHYS in *. lia. Qed.

Lemma demo_rel : pa_rel demo_heap ∅.
Proof.
  unfold demo_heap. apply pa_rel_mem; [apply reach_rel, boot_reach|].
  intros a Ha. rewrite !ld_st_ne; [done|..];
    intros <-; apply Ha, outside_stable; unfold HEAP_PHYS; lia.
Qed.

Lemma demo_words :
  ld (h_mem demo_heap) 0x1000 = 0x2007 ∧ ld (h_mem demo_heap) 0x2000 = 0x3007 ∧
  ld (h_mem demo_heap) 0x3000 = 0x87.
Proof.
  unfold demo_heap. cbn [h_mem set_mem]. split_and!.
  - rewrite !ld_st_ne by lia. apply ld_st_eq.
  - rewrite ld_st_ne by lia. apply ld_st_eq.
  - apply ld_st_eq.
Qed.

Lemma demo_pd_path : pd_path (h_mem demo_heap) ∅ 0x1000 0 0x2007 0x3007.
Proof.
  destruct demo_words as (E1 & E2 & _).
  assert (HS : ∀ a, 0 ≤ a < HEAP_PHYS → stable ∅ a) by (intros; by apply outside_stable).
  split; change (pml4_index 0) with 0; change (pdpt_index 0) with 0; change (pd_index 0) with 0;
    change (0x1000 + 8 * 0) with 0x1000; change (table_of 0x2007 + 8 * 0) with 0x2000;
    change (table_of 0x3007 + 8 * 0) with 0x3000.
  1: exact E1. 1: exact E2. 1,2: lia. 1-3: reflexivity.
  1-3: apply HS; unfold HEAP_PHYS; lia. all: lia.
Qed.

Lemma demo_map_path : map_path (h_mem demo_heap) ∅ 0x1000 0.
Proof.
  destruct demo_words as (E1 & E2 & E3).
  assert (HS : ∀ a, 0 ≤ a < HEAP_PHYS → stable ∅ a) by (intros; by apply outside_stable).
  split; change (pml4_index 0) with 0; change (pdpt_index 0) with 0; change (pd_index 0) with 0;
    change (0x1000 + 8 * 0) with 0x1000; cbv zeta; rewrite ?E1;
    change (table_of 0x2007 + 8 * 0) with 0x2000; rewrite ?E2;
    change (table_of 0x3007 + 8 * 0) with 0x3000; rewrite ?E3.
  all: clear E1 E2 E3.
  - apply HS. unfold HEAP_PHYS. lia.
  - intros _. split_and!; [lia..|reflexivity|reflexivity|reflexivity| |].
    + apply HS. change (table_of 0x2007) with 0x2000. unfold HEAP_PHYS. lia.
    + change (table_of 0x2007 + 8 * 0) with 0x2000. rewrite not_elem_of_cons, elem_of_nil. lia.
  - intros _ _. split_and!; [lia..|reflexivity|reflexivity|reflexivity| |].
    + apply HS. change (table_of 0x3007) with 0x3000. unfold HEAP_PHYS. lia.
    + change (table_of 0x3007 + 8 * 0) with 0x3000. rewrite !not_elem_of_cons, elem_of_nil. lia.
  - intros _ _ _ Hh. discriminate Hh.
Qed.

(** ** The properties *)

(** C34: when [split_2mb_pde] splits the 2 MB mapping of [va], it either fails
    because no frame is left, changing no word in use, or replaces the mapping
    by a table of 4 KB entries under which every address of the region has the
    physical address and the permissions it had before, without touching any
    other word in use. *)
Theorem split_keeps_translation h L cr3 va e4 e3 :
  pa_rel h L → pd_path (h_mem h) L cr3 va e4 e3 →
  let slot := table_of e3 + 8 * pd_index va in
  let pde := ld (h_mem h) slot in
  present pde = true → huge pde = true → 0 ≤ pde < 2 ^ 64 →
  ∃ r h', split_2mb_pde cr3 va h = Some (r, h') ∧
    ((r = -1 ∧ contents_kept L h h' ∧ ∀ idx, ¬ free_run L idx 0) ∨
     (r = 0 ∧ huge (ld (h_mem h') slot) = false ∧
      (∀ va', va' / 2 ^ 21 = va / 2 ^ 21 → walk (h_mem h') cr3 va' = walk (h_mem h) cr3 va') ∧
      (∀ a, stable L a → a ≠ slot → ld (h_mem h') a = ld (h_mem h) a))).
Proof.
  intros HR HP slot pde Hp Hh Hr.
  destruct (split_run _ _ _ _ _ _ HR HP Hp Hh) as (r & h' & Hrun & Hpost).
  exists r, h'. split; [done|]. destruct Hpost as [(-> & _ & Hc & Hno)|(-> & idx & Hl)]; [by left|right].
  destruct Hl as (Hi & Hn & HR' & Hsl & Hpt & Ho). destruct HP as [E4 E3 R4 R3 P4 P3 H3 S4 S3 S2 N4 N3].
  fold slot in N4, N3, Hsl, Ho |- *. split_and!; try done.
  - rewrite Hsl. by apply linked_entry.
  - intros va' Hva. rewrite (walk_to_pd (h_mem h) cr3 va e4 e3) by done.
    rewrite (walk_to_pd (h_mem h') cr3 va e4 e3); [|by rewrite Ho|by rewrite Ho|done..].
    fold slot. rewrite Hsl. by apply walk_pd_split.
Qed.

Lemma split_keeps_translation_witness :
  ∃ r h', split_2mb_pde 0x1000 0 demo_heap = Some (r, h').
Proof.
  destruct (split_keeps_translation demo_heap ∅ 0x1000 0 0x2007 0x3007 demo_rel demo_pd_path)
    as (r & h' & Hrun & _);
    try (change (table_of 0x3007 + 8 * pd_index 0) with 0x3000;
         rewrite (proj2 (proj2 demo_words)); (reflexivity || lia)).
  exists r, h'. exact Hrun.
Defined.

(** When the tables that exist on the way to [va] are user-writable tables,
    [map_one_page] returns; either no frame is left, or [va] then translates to
    the page asked for, writable from user space, the tables it had to create
    being frames nobody held. *)
Theorem map_one_page_maps h L cr3 va pa :
  pa_rel h L → map_path (h_mem h) L cr3 va → 0 ≤ pa < 2 ^ 52 → (2 ^ 12 | pa) →
  ∃ r h', map_one_page va pa cr3 h = Some (r, h') ∧
    ((r = -1 ∧ ∃ L', exhausted h' L' ∧ grows L L') ∨ (r = 0 ∧ (∃ L', pa_rel h' L' ∧ grows L L') ∧
      walk (h_mem h') cr3 va = Some (pa + va mod 2 ^ 12, (true, true)))).
Proof. intros. by apply map_one_page_spec. Qed.

Lemma map_one_page_maps_witness :
  ∃ r h', map_one_page 0 0x5000 0x1000 demo_heap = Some (r, h').
Proof.
  destruct (map_one_page_maps demo_heap ∅ 0x1000 0 0x5000 demo_rel demo_map_path)
    as (r & h' & Hrun & _); [lia|exists 5; reflexivity|].
  exists r, h'. exact Hrun.
Defined.
