(* ===== verification/VmMap.v ===== *)
(** * VmMap: the address maps of [OvsbMk/kernel/vm_map.c]

    Maps, map entries and memory objects are structures allocated with
    [kmalloc]; they are accessed in physical memory at the offsets the compiler
    gives their fields.  The process whose map an operation works on comes in as
    the pair of its [vm_map] and [pml4] fields ([None] when there is no current
    process); log output is left out. *)

From Stdlib Require Import ZArith Lia.
From stdpp Require Import gmap list prelude.
From S2P Require Import Prelude KHeap Buddy Slab Paging.

(** ** Structures *)

Definition MAP_ANON : Z := 0x1000.
Definition MAP_FIXED : Z := 0x0010.

(** [struct vm_object]: [type] 0, [refcnt] 4, [size] 8, [pages] 16, [page_count] 24. *)
Definition SIZEOF_OBJECT : Z := 32.
Definition VM_OBJ_ANON : Z := 0.
Definition obj_refcnt (o : Z) : M heap Z := let! v := load32 (o + 4) in ret (s32 v).
Definition obj_pages (o : Z) : M heap Z := load (o + 16).
Definition obj_page_count (o : Z) : M heap Z := let! v := load32 (o + 24) in ret (s32 v).

(** [struct vm_map_entry]: [prev] 0, [next] 8, [start] 16, [end] 24, [object]
    32, [offset] 40, [prot] 48, [flags] 52. *)
Definition SIZEOF_ENTRY : Z := 56.
Definition e_prev (e : Z) : M heap Z := load e.
Definition e_next (e : Z) : M heap Z := load (e + 8).
Definition e_start (e : Z) : M heap Z := load (e + 16).
Definition e_end (e : Z) : M heap Z := load (e + 24).
Definition e_object (e : Z) : M heap Z := load (e + 32).
Definition e_offset (e : Z) : M heap Z := load (e + 40).
Definition e_flags (e : Z) : M heap Z := load32 (e + 52).

(** [struct vm_map]: [head] 0, [nentries] 8, [min_offset] 16, [max_offset] 24;
    [struct vmspace] adds [pml4] at 32 and [stack_top] at 40. *)
Definition SIZEOF_VMSPACE : Z := 48.
Definition map_head (map : Z) : M heap Z := load map.
Definition map_nentries (map : Z) : M heap Z := let! v := load32 (map + 8) in ret (s32 v).
Definition set_nentries (map v : Z) : M heap unit := store32 (map + 8) v.

(** [(x + 0xFFF) & ~0xFFFULL] *)
Definition page_round (x : Z) : Z := Z.ldiff (u64 (x + 0xFFF)) 0xFFF.

(** ** Memory objects *)

Definition vm_alloc_page : M heap Z := mmap_user 4096.
Definition vm_free_page (pa : Z) : M heap unit := let! _ := munmap_user pa in skip.
Definition entry_alloc : M heap Z := kmalloc SIZEOF_ENTRY.
Definition entry_free (e : Z) : M heap unit := kfree e.

Definition vm_object_create (size : Z) : M heap Z :=
  let! obj := kmalloc SIZEOF_OBJECT in
  if negb (nz obj) then ret 0 else
  let npages := s32 (Z.shiftr (u64 (size + 0xFFF)) 12) in
  let npages := if npages =? 0 then 1 else npages in
  store32 obj VM_OBJ_ANON ;!
  store32 (obj + 4) 1 ;!
  store (obj + 8) (u64 (Z.shiftl (u64 npages) 12)) ;!
  let! pages := kcalloc (u64 npages) 8 in
  store (obj + 16) pages ;!
  store32 (obj + 24) npages ;!
  if negb (nz pages) then kfree obj ;! ret 0 else
  for_up (Z.to_nat npages) 0 (λ i, let! p := obj_pages obj in store (p + 8 * i) 0) ;!
  ret obj.

Definition vm_object_share (obj : Z) : M heap Z :=
  if negb (nz obj) then ret 0 else
  let! n := obj_refcnt obj in
  store32 (obj + 4) (n + 1) ;!
  ret obj.

Definition vm_object_destroy (obj : Z) : M heap unit :=
  if negb (nz obj) then skip else
  let! n := obj_refcnt obj in
  store32 (obj + 4) (n - 1) ;!
  if 0 <? s32 (n - 1) then skip else
  while_ (λ i,
    let! count := obj_page_count obj in
    if i <? count then
      let! pages := obj_pages obj in
      let! p := load (pages + 8 * i) in
      (if nz p then vm_free_page p else skip) ;!
      ret (inl (i + 1))
    else ret (inr tt)) 0 ;!
  let! pages := obj_pages obj in
  kfree pages ;!
  kfree obj.

Definition obj_get_page (obj idx : Z) : M heap Z :=
  let! count := obj_page_count obj in
  if u64 count <=? idx then ret 0 else
  let! pages := obj_pages obj in
  let! p := load (pages + 8 * idx) in
  if nz p then ret p else
  let! pa := vm_alloc_page in
  if negb (nz pa) then ret 0 else
  store (pages + 8 * idx) pa ;!
  load (pages + 8 * idx).

(** ** Maps *)

Definition vm_map_init (map min max : Z) : M heap unit :=
  store map 0 ;!
  set_nentries map 0 ;!
  store (map + 16) min ;!
  store (map + 24) max.

Definition vm_map_find_entry (map addr : Z) : M heap Z :=
  let! hd := map_head map in
  while_ (λ e,
    if nz e then
      let! s := e_start e in
      let! t := e_end e in
      if (s <=? addr) && (addr <? t) then ret (inr e)
      else let! n := e_next e in ret (inl n)
    else ret (inr 0)) hd.

Definition overlap (map start end_ : Z) : M heap bool :=
  let! hd := map_head map in
  while_ (λ e,
    if nz e then
      let! s := e_start e in
      let! t := e_end e in
      if (s <? end_) && (start <? t) then ret (inr true)
      else let! n := e_next e in ret (inl n)
    else ret (inr false)) hd.

(** The position for a new entry: the predecessor ([NULL] at the front) and
    the successor. *)
Definition insert_point (map addr : Z) : M heap (Z * Z) :=
  let! hd := map_head map in
  while_ (λ '(prev, cur),
    if nz cur then
      let! s := e_start cur in
      if s <? addr then let! n := e_next cur in ret (inl (cur, n))
      else ret (inr (prev, cur))
    else ret (inr (prev, cur))) (0, hd).

Definition vm_map_fixed (map obj offset addr size prot flags : Z) : M heap Z :=
  let size := page_round size in
  if (size =? 0) || nz (Z.land addr 0xFFF) then ret (-1) else
  let! ov := overlap map addr (u64 (addr + size)) in
  if ov then ret (-1) else
  let! e := entry_alloc in
  if negb (nz e) then ret (-1) else
  store (e + 16) addr ;!
  store (e + 24) (u64 (addr + size)) ;!
  let! o := (if nz obj then vm_object_share obj else ret 0) in
  store (e + 32) o ;!
  store (e + 40) offset ;!
  store32 (e + 48) prot ;!
  store32 (e + 52) flags ;!
  let! r := insert_point map addr in
  let '(prev, cur) := r in
  store (e + 8) cur ;!
  store e prev ;!
  (if nz cur then store cur e else skip) ;!
  (if nz prev then store (prev + 8) e else store map e) ;!
  let! n := map_nentries map in
  set_nentries map (n + 1) ;!
  ret 0.

(** [vm_map_find]: the result and the new value of [*addr]. *)
Definition vm_map_find (map obj offset addr size prot flags : Z) : M heap (Z * Z) :=
  let size := page_round size in
  if size =? 0 then ret (-1, addr) else
  let candidate := if nz addr then addr else 0x70000000 in
  let! min := load (map + 16) in
  let candidate := if candidate <? min then min else candidate in
  let candidate := page_round candidate in
  let! found := loop 101 (λ '(candidate, tries),
    let! max := load (map + 24) in
    if (u64 (candidate + size) <=? max) && (tries <? 100) then
      let! ov := overlap map candidate (u64 (candidate + size)) in
      if ov then ret (inl (u64 (candidate + 0x100000), tries + 1))
      else ret (inr (Some candidate))
    else ret (inr None)) (candidate, 0) in
  match found with
  | None => ret (-1, addr)
  | Some c => let! r := vm_map_fixed map obj offset c size prot flags in ret (r, c)
  end.

Definition vm_map_remove (map start end_ : Z) : M heap Z :=
  let! hd := map_head map in
  while_ (λ e,
    if nz e then
      let! next := e_next e in
      let! s := e_start e in
      let! t := e_end e in
      (if (start <=? s) && (t <=? end_) then
         let! p := e_prev e in
         let! n := e_next e in
         (if nz p then store (p + 8) n else store map n) ;!
         let! n2 := e_next e in
         (if nz n2 then let! p2 := e_prev e in store n2 p2 else skip) ;!
         let! o := e_object e in
         (if nz o then vm_object_destroy o else skip) ;!
         entry_free e ;!
         let! k := map_nentries map in
         set_nentries map (k - 1)
       else skip) ;!
      ret (inl next)
    else ret (inr tt)) hd ;!
  ret 0.

Definition vm_map_protect (map start end_ prot : Z) : M heap Z :=
  let! hd := map_head map in
  while_ (λ e,
    if nz e then
      let! s := e_start e in
      let! t := e_end e in
      (if (s <? end_) && (start <? t) then store32 (e + 48) prot else skip) ;!
      let! n := e_next e in
      ret (inl n)
    else ret (inr tt)) hd ;!
  ret 0.

Definition covers_round (va e : Z) : M heap (Z + bool) :=
  if nz e then
    let! s := e_start e in
    let! t := e_end e in
    if (s <=? va) && (va <? t) then ret (inr true)
    else let! n := e_next e in ret (inl n)
  else ret (inr false).

Definition vm_map_covers (map va : Z) : M heap bool :=
  if negb (nz map) then ret false else
  let! hd := map_head map in
  while_ (covers_round va) hd.

Definition vm_map_count_entries (map : Z) : M heap Z :=
  if negb (nz map) then ret (-1) else
  let! hd := map_head map in
  while_ (λ '(e, n),
    if nz e then let! nx := e_next e in ret (inl (nx, s32 (n + 1)))
    else ret (inr n)) (hd, 0).

(** ** Wiring: giving the pages of a range their frames *)

(** [for (i = 0; i < 512; i++)] with a body that can fail with -1. *)
Definition for_entries (body : Z → M heap Z) : M heap Z :=
  loop 513 (λ i,
    if i <? 512 then
      let! r := body i in
      if r <? 0 then ret (inr (-1)) else ret (inl (i + 1))
    else ret (inr 0)) 0.

(** [pt\[i\] = obj_get_page(...) | 0x07], the frame of page [va] of entry [e]. *)
Definition wire_pte (e obj pt i va : Z) : M heap Z :=
  let! s := e_start e in
  let! off := e_offset e in
  let pg := Z.shiftr (u64 (va - s + off)) 12 in
  let! pa := obj_get_page obj pg in
  if negb (nz pa) then ret (-1) else
  set_entry pt i (Z.lor pa 0x07) ;!
  ret 0.

(** A 2 MB mapping is split; its pages inside the range get frames of the
    object, the others keep the old mapping. *)
Definition wire_huge (e obj ws we chunk pd pd_idx old : Z) : M heap Z :=
  let old_phys := Z.ldiff old 0x1FFFFF in
  let old_flags := Z.ldiff (Z.land old 0x1FF) 0x80 in
  let! pt := table_page in
  if negb (nz pt) then ret (-1) else
  let! r := for_entries (λ i,
    let va := u64 (chunk + i * 0x1000) in
    if (ws <=? va) && (va <? we) then wire_pte e obj pt i va
    else set_entry pt i (Z.lor (u64 (old_phys + i * 0x1000)) old_flags) ;! ret 0) in
  if r <? 0 then ret (-1) else
  set_entry pd pd_idx (Z.lor pt 0x07) ;!
  ret 0.

(** A table is created when missing; its absent pages inside the range get
    frames of the object, mapped pages are left alone. *)
Definition wire_table (e obj ws we chunk pd pd_idx old : Z) : M heap Z :=
  let! pt :=
    (if negb (present old) then
       let! pt := table_page in
       if negb (nz pt) then ret 0 else
       clear_table pt ;!
       set_entry pd pd_idx (Z.lor pt 0x07) ;!
       ret pt
     else ret (table_of old)) in
  if negb (present old) && negb (nz pt) then ret (-1) else
  for_entries (λ i,
    let va := u64 (chunk + i * 0x1000) in
    if (ws <=? va) && (va <? we) then
      let! pte := entry pt i in
      if negb (present pte) then wire_pte e obj pt i va else ret 0
    else ret 0).

Definition wire_chunk (e obj ws we chunk pml4 : Z) : M heap Z :=
  let! r4 := ensure_pml4_entry pml4 (pml4_index chunk) in
  if r4 <? 0 then ret (-1) else
  let! e4 := entry pml4 (pml4_index chunk) in
  let pdpt := table_of e4 in
  let! r3 := ensure_pml4_entry pdpt (pdpt_index chunk) in
  if r3 <? 0 then ret (-1) else
  let! e3 := entry pdpt (pdpt_index chunk) in
  let pd := table_of e3 in
  let! old := entry pd (pd_index chunk) in
  if present old && huge old then wire_huge e obj ws we chunk pd (pd_index chunk) old
  else wire_table e obj ws we chunk pd (pd_index chunk) old.

(** The 2 MB chunks from [ws] to [we]. *)
Definition wire_range (e obj ws we pml4 : Z) : M heap Z :=
  let a_start := Z.ldiff ws 0x1FFFFF in
  let a_end := Z.ldiff (u64 (we + 0x1FFFFF)) 0x1FFFFF in
  while_ (λ chunk,
    if chunk <? a_end then
      let! r := wire_chunk e obj ws we chunk pml4 in
      if r <? 0 then ret (inr (-1)) else ret (inl (u64 (chunk + 0x200000)))
    else ret (inr 0)) a_start.

(** The object of an entry, created for an anonymous entry without one; [None]
    when that fails. *)
Definition entry_object (e : Z) : M heap (option Z) :=
  let! obj := e_object e in
  let! flags := e_flags e in
  if negb (nz obj) && nz (Z.land flags MAP_ANON) then
    let! t := e_end e in
    let! s := e_start e in
    let! obj := vm_object_create (u64 (t - s)) in
    if negb (nz obj) then ret None else store (e + 32) obj ;! ret (Some obj)
  else ret (Some obj).

Definition vm_map_wire (map start size pml4 : Z) : M heap Z :=
  let end_ := u64 (start + size) in
  let! hd := map_head map in
  let! r := while_ (λ e,
    if nz e then
      let! s := e_start e in
      let! t := e_end e in
      let! r :=
        (if (s <? end_) && (start <? t) then
           let ws := if start <? s then s else start in
           let we := if t <? end_ then t else end_ in
           let! o := entry_object e in
           match o with
           | None => ret (-1)
           | Some obj => if nz obj then wire_range e obj ws we pml4 else ret 0
           end
         else ret 0) in
      if r <? 0 then ret (inr (-1)) else let! n := e_next e in ret (inl n)
    else ret (inr 0)) hd in
  if r <? 0 then ret (-1) else
  pml4_load pml4 ;!
  ret 0.

(** ** Address spaces *)

Definition vmspace_create : M heap Z :=
  let! vs := kmalloc SIZEOF_VMSPACE in
  if negb (nz vs) then ret 0 else
  vm_map_init vs 0x10000 0x7FFFF000 ;!
  let! p := pml4_create in
  store (vs + 32) p ;!
  store (vs + 40) 0 ;!
  ret vs.

Definition vmspace_destroy (vs : Z) : M heap unit :=
  if negb (nz vs) then skip else
  let! min := load (vs + 16) in
  let! max := load (vs + 24) in
  let! _ := vm_map_remove vs min max in
  let! p := load (vs + 32) in
  pml4_destroy p ;!
  kfree vs.

Definition vmspace_swap_pml4 (vs new_pml4 : Z) : M heap unit := store (vs + 32) new_pml4.

(** ** Page-table entries of a range *)

(** [fn] gets the address of the entry and the virtual address. *)
Definition pml4_walk_ptes (pml4 start end_ : Z) (fn : Z → Z → M heap unit) : M heap Z :=
  while_ (λ chunk,
    if chunk <? end_ then
      let next := u64 (chunk + 0x200000) in
      let! e4 := entry pml4 (pml4_index chunk) in
      if negb (present e4) then ret (inl next) else
      let pdpt := table_of e4 in
      let! e3 := entry pdpt (pdpt_index chunk) in
      if negb (present e3) then ret (inl next) else
      let pd := table_of e3 in
      let! pde := entry pd (pd_index chunk) in
      if negb (present pde) then ret (inl next) else
      let! r := (if huge pde then split_2mb_pde pml4 chunk else ret 0) in
      if r <? 0 then ret (inr (-1)) else
      let! e3' := entry pdpt (pdpt_index chunk) in
      let pd := if huge pde then table_of e3' else pd in
      let! e2 := entry pd (pd_index chunk) in
      let pt := table_of e2 in
      for_up 512 0 (λ i,
        let va := u64 (chunk + i * 0x1000) in
        let! pte := entry pt i in
        if (start <=? va) && (va <? end_) && present pte then fn (pt + 8 * i) va else skip) ;!
      ret (inl next)
    else ret (inr 0)) (Z.ldiff start 0x1FFFFF).

Definition NX_BIT : Z := 0x8000000000000000.

(** The entry [pte_set_prot] computes. *)
Definition prot_bits (prot f : Z) : Z :=
  let f := if nz (Z.land prot 2) then Z.lor f 0x02 else Z.ldiff f 0x02 in
  let f := Z.lor f 0x04 in
  let f := if negb (nz (Z.land prot 1)) then Z.ldiff f 0x02 else f in
  if negb (nz (Z.land prot 4)) then Z.lor f NX_BIT else Z.ldiff f NX_BIT.

Definition pte_set_prot (prot : Z) (pte va : Z) : M heap unit :=
  let! f := load pte in store pte (prot_bits prot f).

Definition pte_clear (pte va : Z) : M heap unit := store pte 0.

(** ** Operations of the current process *)

(** The frames of [\[addr, end_)] that belong to entry [e] go back. *)
Definition unmap_entry (e addr end_ : Z) : M heap unit :=
  let! s := e_start e in
  let! t := e_end e in
  let! obj := e_object e in
  if (s <? end_) && (addr <? t) && nz obj then
    let ws := if addr <? s then s else addr in
    let we := if t <? end_ then t else end_ in
    while_ (λ va,
      if va <? we then
        let pg := Z.shiftr (u64 (va - s)) 12 in
        let! count := obj_page_count obj in
        (if pg <? u64 count then
           let! pages := obj_pages obj in
           let! p := load (pages + 8 * pg) in
           if nz p then
             vm_free_page p ;! let! pages2 := obj_pages obj in store (pages2 + 8 * pg) 0
           else skip
         else skip) ;!
        ret (inl (u64 (va + 0x1000)))
      else ret (inr tt)) (Z.ldiff ws 0xFFF) ;!
    vm_object_destroy obj ;!
    store (e + 32) 0
  else skip.

Definition vm_munmap (cur : option (Z * Z)) (addr size : Z) : M heap Z :=
  match cur with
  | None => ret (-1)
  | Some (map, pml4) =>
      if negb (nz map) then ret (-1) else
      let size := page_round size in
      if size =? 0 then ret 0 else
      let end_ := u64 (addr + size) in
      let! hd := map_head map in
      while_ (λ e,
        if nz e then unmap_entry e addr end_ ;! let! n := e_next e in ret (inl n)
        else ret (inr tt)) hd ;!
      let! _ := pml4_walk_ptes pml4 addr end_ pte_clear in
      let! _ := vm_map_remove map addr end_ in
      ret 0
  end.

Definition vm_mprotect (cur : option (Z * Z)) (addr size prot : Z) : M heap Z :=
  match cur with
  | None => ret (-1)
  | Some (map, pml4) =>
      if negb (nz map) then ret (-1) else
      let size := page_round size in
      if size =? 0 then ret 0 else
      let end_ := u64 (addr + size) in
      let! r := vm_map_protect map addr end_ prot in
      if r <? 0 then ret (-1) else
      let! _ := pml4_walk_ptes pml4 addr end_ (pte_set_prot prot) in
      ret 0
  end.

(** [vm_mmap]: the result and the new value of [*addr]. *)
Definition vm_mmap (cur : option (Z * Z)) (addr size prot flags : Z) : M heap (Z * Z) :=
  match cur with
  | None => ret (-1, addr)
  | Some (map, pml4) =>
      if negb (nz map) then ret (-1, addr) else
      let size := page_round size in
      if size =? 0 then ret (-1, addr) else
      let! obj := (if nz (Z.land flags MAP_ANON) then vm_object_create size else ret 0) in
      if nz (Z.land flags MAP_ANON) && negb (nz obj) then ret (-1, addr) else
      let! r :=
        (if nz (Z.land flags MAP_FIXED) then
           let! r := vm_map_fixed map obj 0 addr size prot flags in ret (r, addr)
         else vm_map_find map obj 0 addr size prot flags) in
      let '(res, map_addr) := r in
      if res <? 0 then
        (if nz obj then vm_object_destroy obj else skip) ;! ret (-1, addr)
      else
      let! w := vm_map_wire map map_addr size pml4 in
      if w <? 0 then
        let! _ := vm_map_remove map map_addr (u64 (map_addr + size)) in ret (-1, addr)
      else ret (0, map_addr)
  end.
