(* ===== verification/VmMapProof.v ===== *)
(** * VmMapProof: an address map is an ordered list of disjoint ranges

    The entries of a map are blocks of the kernel allocator, linked in the order of
    their addresses.  Lookups search the ranges; [vm_map_fixed] and [vm_map_find]
    add a range exactly when it is free; no operation disturbs another block. *)

From Stdlib Require Import ZArith Lia.
From stdpp Require Import gmap list prelude.
From S2P Require Import Prelude KHeap Buddy BuddyInv BuddyProof PageAlloc Slab SlabInv SlabProof Kmalloc Paging VmMap.

(** ** Entries *)

Record ent := Ent { x_at : Z; x_lo : Z; x_hi : Z; x_obj : Z; x_off : Z; x_prot : Z; x_flags : Z }.

(** The fields of an entry in memory. *)
Record ent_ok (m : gmap Z Z) (x : ent) : Prop := {
  en_lo : ld m (x_at x + 16) = x_lo x;
  en_hi : ld m (x_at x + 24) = x_hi x;
  en_obj : ld m (x_at x + 32) = x_obj x;
  en_off : ld m (x_at x + 40) = x_off x;
  en_prot : lo32 m (x_at x + 48) = u32 (x_prot x);
  en_flags : hi32 m (x_at x + 48) = u32 (x_flags x) }.

(** Ranges from [lo] on, none empty, in order. *)
Fixpoint ordered (lo : Z) (l : list ent) : Prop :=
  match l with [] => True | x :: l' => lo ≤ x_lo x ∧ x_lo x < x_hi x ∧ ordered (x_hi x) l' end.

Definition e_links (m : gmap Z Z) : Z → Z := λ a, ld m (a + 8).

Record vmap (m : gmap Z Z) (B : blocks) (map : Z) (l : list ent) : Prop := {
  vm_block : ∃ n, B !! map = Some (n, false) ∧ 32 ≤ n;
  vm_blocks : ∀ x, x ∈ l → B !! x_at x = Some (64, false);
  vm_nodup : NoDup (map :: (x_at <$> l));
  vm_list : dll (e_links m) (ld m) 0 (ld m map) (x_at <$> l);
  vm_ents : ∀ x, x ∈ l → ent_ok m x;
  vm_count : lo32 m (map + 8) = u32 (Z.of_nat (length l));
  vm_order : ordered 0 l }.

(** *** Blocks *)

Lemma krel_apart h L B p n u q k v :
  krel h L B → B !! p = Some (n, u) → B !! q = Some (k, v) → p ≠ q → p + n ≤ q ∨ q + k ≤ p.
Proof.
  intros (S & live & HK & HB) Hp Hq Hne. apply HB in Hp, Hq.
  by destruct (owned_apart h L S live HK _ _ _ _ _ _ _ Hp Hq) as [(? & _)|?].
Qed.

Lemma block_aligned h L B p n u : krel h L B → B !! p = Some (n, u) → p mod 8 = 0 ∧ p ≠ 0.
Proof.
  intros HR Hp. destruct (krel_block h L B p n u HR Hp) as (Hlo & _ & _ & [k ->]). split; [|unfold HEAP_PHYS in *; lia].
  replace (k * 16) with (k * 2 * 8) by lia. by apply Z.mod_mul.
Qed.

(** The map sees only its own blocks. *)
Lemma ent_ok_ext m m' x : (∀ a, x_at x ≤ a < x_at x + 56 → ld m' a = ld m a) → ent_ok m x → ent_ok m' x.
Proof. intros He [H1 H2 H3 H4 H5 H6]. split; unfold lo32, hi32 in *; rewrite He by lia; done. Qed.

Lemma vmap_frame m m' B B' map l :
  vmap m B map l → (∀ p x, B !! p = Some x → B' !! p = Some x) →
  (∀ a, map ≤ a < map + 32 → ld m' a = ld m a) → (∀ x a, x ∈ l → x_at x ≤ a < x_at x + 56 → ld m' a = ld m a) →
  vmap m' B' map l.
Proof.
  intros [(n & Hn & Hn') H2 H3 H4 H5 H6 H7] HB Hm He. split; try done.
  - exists n. split; [by apply HB|done].
  - intros x Hx. by apply HB, H2.
  - rewrite Hm by lia. eapply dll_ext; [| |exact H4]; intros y (x & -> & Hx)%list_elem_of_fmap; unfold e_links; apply (He x); (done || lia).
  - intros x Hx. eapply ent_ok_ext; [|by apply H5]. intros a. by apply He.
  - unfold lo32 in *. by rewrite Hm by lia.
Qed.

(** There are fewer entries than the heap has bytes. *)
Lemma vmap_length h L B map l : krel h L B → vmap (h_mem h) B map l → Z.of_nat (length l) ≤ HEAP_SIZE.
Proof.
  intros HR HV. rewrite <- (length_fmap x_at). transitivity (Z.of_nat (length (seqZ HEAP_PHYS HEAP_SIZE)));
    [|rewrite length_seqZ; unfold HEAP_SIZE; lia].
  apply Nat2Z.inj_le, submseteq_length, NoDup_submseteq; [by destruct (proj1 (NoDup_cons _ _) (vm_nodup _ _ _ _ HV))|].
  intros p (x & -> & Hx)%list_elem_of_fmap. pose proof (vm_blocks _ _ _ _ HV x Hx) as Hb.
  destruct (krel_block h L B _ _ _ HR Hb) as (H1 & H2 & H3 & _). apply elem_of_seqZ. lia.
Qed.

(** ** Lookups *)

(** The search all lookups share: the first entry whose range passes a test. *)
Definition walk {A} (test : Z → Z → bool) (found : Z → A) (none : A) (e : Z) : M heap (Z + A) :=
  if nz e then
    let! s := e_start e in
    let! t := e_end e in
    if test s t then ret (inr (found e)) else let! n := e_next e in ret (inl n)
  else ret (inr none).

(** The first entry whose range passes a test. *)
Definition first_ent (test : Z → Z → bool) (l : list ent) : option ent := List.find (λ x, test (x_lo x) (x_hi x)) l.

(** A walk over the entries from [e] on, the rest of the list as a ghost. *)
Definition rest_at (m : gmap Z Z) (l2 : list ent) (e : Z) : Prop := ∃ p, dll (e_links m) (ld m) p e (x_at <$> l2).

Lemma rest_at_cons m x l2 e : rest_at m (x :: l2) e → e = x_at x ∧ nz e = true ∧ rest_at m l2 (ld m (e + 8)).
Proof. intros (p & -> & Hx & _ & Hd). split_and!; [done|by apply nz_spec|]. by exists (x_at x). Qed.

Lemma rest_at_nil m e : rest_at m [] e → e = 0.
Proof. by intros (p & ->). Qed.

Section lookups.
Context (h : heap) (L : pa_state) (B : blocks) (map : Z) (l : list ent).
Context (HR : krel h L B) (HV : vmap (h_mem h) B map l).

Lemma rest_at_head : rest_at (h_mem h) l (ld (h_mem h) map).
Proof. exists 0. apply HV. Qed.

Lemma rest_fuel : Z.of_nat (length l) < 2 ^ 64.
Proof. pose proof (vmap_length h L B map l HR HV). unfold HEAP_SIZE in *. lia. Qed.

Lemma walk_run {A} test (found : Z → A) none :
  wp (let! hd := map_head map in while_ (walk test found none) hd) h (λ r h', h' = h ∧
    r = match first_ent test l with Some x => found (x_at x) | None => none end).
Proof.
  unfold map_head. wp_step. apply wp_load.
  apply (wp_while_ghost (λ l2 e h', h' = h ∧ rest_at (h_mem h) l2 e ∧ (∀ x, x ∈ l2 → x ∈ l) ∧ first_ent test l2 = first_ent test l)
    (λ l2, Z.of_nat (length l2))) with (g := l); [|split_and!; [done|apply rest_at_head|done|done]|by apply rest_fuel].
  intros [|x l2] e ? (-> & Hd & Hin & Hf); unfold walk.
  - rewrite (rest_at_nil _ _ Hd). change (nz 0) with false. cbv iota. wp_step. split; [done|]. by rewrite <- Hf.
  - apply rest_at_cons in Hd as (-> & -> & Hd). destruct (vm_ents _ _ _ _ HV x) as [Hlo Hhi _ _ _ _]; [apply Hin; left|].
    unfold e_start, e_end, e_next. wp_step. apply wp_load. wp_step. apply wp_load. rewrite Hlo, Hhi.
    unfold first_ent in *. simpl in Hf. destruct (test (x_lo x) (x_hi x)).
    + wp_step. split; [done|]. by rewrite <- Hf.
    + wp_step. apply wp_load. wp_step. exists l2. split_and!; try done; [|simpl; lia..]. intros y Hy. apply Hin. by right.
Qed.

(** The entry of an address. *)
Lemma find_entry_run addr :
  wp (vm_map_find_entry map addr) h (λ r h', h' = h ∧
    r = match first_ent (λ s t, (s <=? addr) && (addr <? t)) l with Some x => x_at x | None => 0 end).
Proof. apply (walk_run (λ s t, (s <=? addr) && (addr <? t)) (λ e, e) 0). Qed.

Definition clashes (start end_ : Z) : Prop := ∃ x, x ∈ l ∧ x_lo x < end_ ∧ start < x_hi x.

Lemma first_ent_spec test :
  match first_ent test l with
  | Some x => x ∈ l ∧ test (x_lo x) (x_hi x) = true
  | None => ∀ x, x ∈ l → test (x_lo x) (x_hi x) = false
  end.
Proof.
  unfold first_ent. destruct (List.find _ l) as [x|] eqn:E.
  - apply find_some in E as [E1 E2]. split; [by apply list_elem_of_In|done].
  - intros x Hx. apply (find_none _ _ E). by apply list_elem_of_In.
Qed.

Lemma overlap_run start end_ :
  wp (overlap map start end_) h (λ r h', h' = h ∧ (r = true ↔ clashes start end_)).
Proof.
  eapply wp_mono; [apply (walk_run (λ s t, (s <? end_) && (start <? t)) (λ _, true) false)|].
  intros r ? (-> & ->). split; [done|]. pose proof (first_ent_spec (λ s t, (s <? end_) && (start <? t))) as Hf.
  destruct (first_ent _ l) as [x|].
  - split; [intros _|done]. destruct Hf as [Hx Ht]. exists x. split; [done|]. lia.
  - split; [done|]. intros (x & Hx & Ht). specialize (Hf x Hx). lia.
Qed.

Lemma covers_run va :
  wp (vm_map_covers map va) h (λ r h', h' = h ∧ (r = true ↔ ∃ x, x ∈ l ∧ x_lo x ≤ va < x_hi x)).
Proof.
  destruct (vm_block _ _ _ _ HV) as (n & Hn & _). destruct (block_aligned h L B map _ _ HR Hn) as [_ Hnz].
  unfold vm_map_covers. rewrite (proj2 (nz_spec map) Hnz). cbn [negb].
  eapply wp_mono; [apply (walk_run (λ s t, (s <=? va) && (va <? t)) (λ _, true) false)|].
  intros r ? (-> & ->). split; [done|]. pose proof (first_ent_spec (λ s t, (s <=? va) && (va <? t))) as Hf.
  destruct (first_ent _ l) as [x|].
  - split; [intros _|done]. destruct Hf as [Hx Ht]. exists x. split; [done|]. lia.
  - split; [done|]. intros (x & Hx & Ht). specialize (Hf x Hx). lia.
Qed.

(** The place of a new range: behind the entries that start below it. *)
Lemma insert_point_run addr :
  wp (insert_point map addr) h (λ r h', h' = h ∧ ∃ l1 l2, l = l1 ++ l2 ∧
    r = (default 0 (last (x_at <$> l1)), default 0 (head (x_at <$> l2))) ∧
    (∀ x, x ∈ l1 → x_lo x < addr) ∧ (∀ x, head l2 = Some x → addr ≤ x_lo x)).
Proof.
  unfold insert_point, map_head. wp_step. apply wp_load.
  apply (wp_while_ghost (λ l2 a h', h' = h ∧ rest_at (h_mem h) l2 a.2 ∧ ∃ l1, l = l1 ++ l2 ∧
      a.1 = default 0 (last (x_at <$> l1)) ∧ ∀ x, x ∈ l1 → x_lo x < addr)
    (λ l2, Z.of_nat (length l2))) with (g := l);
    [|split_and!; [done|apply rest_at_head|]; exists []; split_and!; [done|done|by intros x ?%elem_of_nil]|by apply rest_fuel].
  intros l2 [prev cur] ? (-> & Hd & l1 & Hl & Hp & Hlt). cbn [fst snd] in *. destruct l2 as [|x l2].
  - rewrite (rest_at_nil _ _ Hd). change (nz 0) with false. cbv iota. wp_step. split; [done|]. exists l1, [].
    rewrite Hp. split_and!; done.
  - apply rest_at_cons in Hd as (-> & -> & Hd). destruct (vm_ents _ _ _ _ HV x) as [Hlo _ _ _ _ _];
      [rewrite Hl; apply elem_of_app; right; left|].
    unfold e_start, e_next. wp_step. apply wp_load. rewrite Hlo. destruct (Z.ltb_spec (x_lo x) addr) as [Hx|Hx].
    + wp_step. apply wp_load. wp_step. exists l2. split; [|simpl; lia]. split_and!; [done|done|]. exists (l1 ++ [x]).
      rewrite <- app_assoc, fmap_app, last_app. split_and!; [done|done|].
      intros y [Hy|Hy%list_elem_of_singleton]%elem_of_app; [by apply Hlt|by subst].
    + wp_step. split; [done|]. exists l1, (x :: l2). rewrite Hp. split_and!; [done|done|done|]. by intros y [= <-].
Qed.

End lookups.

(** ** Insertion *)

Lemma ordered_insert lo l1 x l2 :
  ordered lo (l1 ++ l2) → lo ≤ x_lo x → x_lo x < x_hi x → (∀ y, y ∈ l1 → x_lo y < x_lo x) →
  (∀ y, head l2 = Some y → x_lo x ≤ x_lo y) → ¬ clashes (l1 ++ l2) (x_lo x) (x_hi x) → ordered lo (l1 ++ x :: l2).
Proof.
  intros Ho Hlo Hx Hlt Hge Hno. revert lo Ho Hlo. induction l1 as [|y l1 IH]; intros lo Ho Hlo; simpl in *.
  - split_and!; [done|done|]. destruct l2 as [|y l2]; [done|]. destruct Ho as (H1 & H2 & H3). specialize (Hge y eq_refl).
    simpl. split_and!; [|done|done]. destruct (Z.le_gt_cases (x_hi x) (x_lo y)); [done|]. exfalso. apply Hno.
    exists y. split; [left|lia].
  - destruct Ho as (H1 & H2 & H3). specialize (Hlt y ltac:(left)) as Hy. split_and!; [done|done|]. apply IH; [| |done|].
    + intros z Hz. apply Hlt. by right.
    + intros (z & Hz & Hc). apply Hno. exists z. split; [by right|done].
    + destruct (Z.le_gt_cases (x_hi y) (x_lo x)); [done|]. exfalso. apply Hno. exists y. split; [left|lia].
Qed.

(** Memory after the links of a new entry are set. *)
Definition linked (m : gmap Z Z) (map e prev cur : Z) : gmap Z Z :=
  let m1 := st (st m (e + 8) cur) e prev in
  let m2 := if nz cur then st m1 cur e else m1 in
  if nz prev then st m2 (prev + 8) e else st m2 map e.

Lemma linked_ld m map e prev cur a :
  ld (linked m map e prev cur) a =
    if decide (a = if nz prev then prev + 8 else map) then e
    else if decide (cur ≠ 0 ∧ a = cur) then e
    else if decide (a = e) then prev else if decide (a = e + 8) then cur else ld m a.
Proof.
  unfold linked. assert (Hcur : ∀ m1, ld (if nz cur then st m1 cur e else m1) a = if decide (cur ≠ 0 ∧ a = cur) then e else ld m1 a).
  { intros m1. destruct (nz cur) eqn:Ec.
    - apply nz_spec in Ec. rewrite ld_st. apply decide_ext. intuition congruence.
    - apply nz_false in Ec. by rewrite decide_False by (intros [? _]; done). }
  assert (Hlast : ∀ b m2, ld (st m2 b e) a = if decide (a = b) then e else ld m2 a).
  { intros b m2. rewrite ld_st. apply decide_ext. intuition congruence. }
  destruct (nz prev); rewrite Hlast, Hcur, !ld_st; clear Hlast Hcur; repeat case_decide; congruence.
Qed.

Lemma link_run {A} map e prev cur h (R : M heap A) Q :
  wp R (set_mem (linked (h_mem h) map e prev cur) h) Q →
  wp (store (e + 8) cur ;! store e prev ;! (if nz cur then store cur e else skip) ;!
      (if nz prev then store (prev + 8) e else store map e) ;! R) h Q.
Proof.
  intros HQ. unfold linked in HQ. wp_step. apply wp_store. wp_step. apply wp_store. wp_step.
  destruct (nz cur); [apply wp_store|wp_step]; wp_step; destruct (nz prev); apply wp_store; exact HQ.
Qed.

(** The fields of a new entry. *)
Lemma fill_entry {A} x h (R : M heap A) Q :
  x_at x mod 8 = 0 → (x_obj x ≠ 0 → x_obj x mod 8 = 0 ∧ (x_obj x < x_at x ∨ x_at x + 56 ≤ x_obj x)) →
  (∀ m, ent_ok m x → (∀ a, ¬ x_at x + 16 ≤ a < x_at x + 56 → (x_obj x ≠ 0 → a ≠ x_obj x) → ld m a = ld (h_mem h) a) →
     (x_obj x ≠ 0 → hi32 m (x_obj x) = u32 (s32 (hi32 (h_mem h) (x_obj x)) + 1) ∧ lo32 m (x_obj x) = lo32 (h_mem h) (x_obj x)) →
     wp R (set_mem m h) Q) →
  wp (store (x_at x + 16) (x_lo x) ;! store (x_at x + 24) (x_hi x) ;!
      let! o := (if nz (x_obj x) then vm_object_share (x_obj x) else ret 0) in
      store (x_at x + 32) o ;! store (x_at x + 40) (x_off x) ;!
      store32 (x_at x + 48) (x_prot x) ;! store32 (x_at x + 52) (x_flags x) ;! R) h Q.
Proof.
  intros Hal Hob HQ. destruct x as [e lo hi obj off prot flags]; cbn [x_at x_lo x_hi x_obj x_off x_prot x_flags] in *.
  assert (Hal48 : (e + 48) mod 8 = 0) by (rewrite Z.add_mod, Hal by lia; done).
  wp_step. apply wp_store. wp_step. apply wp_store. wp_step.
  set (m2 := st (st (h_mem h) (e + 16) lo) (e + 24) hi).
  apply (wp_mono _ _ (λ o h', o = obj ∧ ∃ m, h' = set_mem m h ∧ (∀ a, (obj ≠ 0 → a ≠ obj) → ld m a = ld m2 a) ∧
    (obj ≠ 0 → hi32 m obj = u32 (s32 (hi32 (h_mem h) obj) + 1) ∧ lo32 m obj = lo32 (h_mem h) obj))).
  - unfold vm_object_share, obj_refcnt. destruct (nz obj) eqn:Eo.
    + apply nz_spec in Eo. destruct (Hob Eo) as [Ho8 Hap]. cbn [negb]. assert (Em : ld m2 obj = ld (h_mem h) obj)
        by (unfold m2; rewrite !ld_st_ne by lia; done).
      wp_step. wp_step. apply wp_load32_hi; [done|]. wp_step. wp_step. apply wp_store32_hi; [done|]. wp_step. split; [done|].
      cbn [h_mem set_mem]. fold m2. eexists. split; [reflexivity|]. split.
      * intros a Ha. specialize (Ha Eo). by rewrite ld_st_ne by congruence.
      * intros _. unfold hi32, lo32. rewrite ld_st_eq, with_hi_high, with_hi_low. unfold hi32. by rewrite Em.
    + apply nz_false in Eo as ->. wp_step. split; [done|]. exists m2. by split_and!.
  - intros o ? (-> & m & -> & Hm & Hsh). wp_step. apply wp_store. wp_step. apply wp_store. wp_step. apply wp_store32_lo; [done|].
    wp_step. replace (e + 52) with (e + 48 + 4) by lia. apply wp_store32_hi; [done|]. cbn [h_mem set_mem].
    assert (Hob' : obj ≠ 0 → obj < e ∨ e + 56 ≤ obj) by (intros Hz; by apply Hob).
    apply HQ.
    + split; cbn [x_at x_lo x_hi x_obj x_off x_prot x_flags]; unfold lo32, hi32; rewrite ?(ld_st_ne _ (e + 48)) by lia.
      * rewrite !ld_st_ne, Hm by lia. unfold m2. by rewrite ld_st_ne, ld_st_eq by lia.
      * rewrite !ld_st_ne, Hm by lia. apply ld_st_eq.
      * rewrite ld_st_ne by lia. apply ld_st_eq.
      * apply ld_st_eq.
      * by rewrite ld_st_eq, with_hi_low, ld_st_eq, with_lo_low.
      * by rewrite ld_st_eq, with_hi_high.
    + intros a Ha Hao. rewrite !ld_st_ne, Hm by (done || lia). unfold m2. by rewrite !ld_st_ne by lia.
    + intros Hz. unfold lo32, hi32. specialize (Hob' Hz). rewrite !ld_st_ne by lia. by apply Hsh.
Qed.

(** The request for an entry gets a block of 64 bytes. *)
Lemma entry_block n : block_size SIZEOF_ENTRY n → n = 64.
Proof.
  intros Hn. apply (block_size_unique SIZEOF_ENTRY n 64 Hn). exists 2. split_and!; [lia|lia|done|done|].
  intros c Hc. assert (c = 0 ∨ c = 1) as [-> | ->] by lia; done.
Qed.

Section link.
Context (m m0 m' : gmap Z Z) (B : blocks) (map : Z) (l1 l2 : list ent) (x : ent).
Context (HV : vmap m B map (l1 ++ l2)).
Context (Hfresh : ∀ p n u, B !! p = Some (n, u) → x_at x + 64 ≤ p ∨ p + n ≤ x_at x).
Context (Hapart : ∀ y, y ∈ l1 ++ l2 → map + 32 ≤ x_at y ∨ x_at y + 64 ≤ map).
Context (Heach : ∀ y z, y ∈ l1 ++ l2 → z ∈ l1 ++ l2 → x_at y ≠ x_at z → x_at y + 64 ≤ x_at z ∨ x_at z + 64 ≤ x_at y).
Context (Hx0 : x_at x ≠ 0) (Hmap8 : map mod 8 = 0).
Context (Hfill : ent_ok m0 x) (Hm0 : ∀ y a, y ∈ l1 ++ l2 → x_at y ≤ a < x_at y + 56 → ld m0 a = ld m a).
Context (Hm0map : ∀ a, map ≤ a < map + 32 → ld m0 a = ld m a).

Abbreviation prev := (default 0 (last (x_at <$> l1))).
Abbreviation cur := (default 0 (head (x_at <$> l2))).
Abbreviation mk := (linked m0 map (x_at x) prev cur).

Lemma link_apart y : y ∈ l1 ++ l2 → x_at x + 64 ≤ x_at y ∨ x_at y + 64 ≤ x_at x.
Proof. intros Hy. by apply (Hfresh _ _ false), (vm_blocks _ _ _ _ HV). Qed.

Lemma link_map_apart : x_at x + 64 ≤ map ∨ map + 32 ≤ x_at x.
Proof. destruct (vm_block _ _ _ _ HV) as (n & Hn & Hle). specialize (Hfresh _ _ _ Hn). lia. Qed.

(** The neighbours are entries, or there are none. *)
Lemma link_prev : prev = 0 ∧ l1 = [] ∨ ∃ y, last l1 = Some y ∧ prev = x_at y ∧ y ∈ l1 ++ l2 ∧ prev ≠ 0.
Proof.
  rewrite fmap_last. destruct (last l1) as [y|] eqn:E; [right|left; split; [done|by apply last_None]].
  exists y. assert (Hy : y ∈ l1 ++ l2) by (apply elem_of_app; left; by apply last_Some_elem_of).
  split_and!; try done. cbn. eapply dll_nonnull; [apply HV|]. by apply list_elem_of_fmap_2.
Qed.

Lemma link_cur : cur = 0 ∧ l2 = [] ∨ ∃ y, head l2 = Some y ∧ cur = x_at y ∧ y ∈ l1 ++ l2 ∧ cur ≠ 0.
Proof.
  destruct l2 as [|y l]; [by left|right]. exists y. assert (Hy : y ∈ l1 ++ y :: l) by (apply elem_of_app; right; left).
  split_and!; try done. cbn. eapply dll_nonnull; [apply HV|]. by apply list_elem_of_fmap_2.
Qed.

(** What the links change. *)
Lemma link_same a :
  (∀ y, y ∈ l1 ++ l2 → a ≠ x_at y ∧ a ≠ x_at y + 8) → a ≠ x_at x → a ≠ x_at x + 8 → a ≠ map → ld mk a = ld m0 a.
Proof.
  intros Hy H1 H2 H3. rewrite linked_ld.
  rewrite decide_False; [|destruct link_prev as [[-> _]|(y & _ & -> & Hyl & Hy0)]; [done|]; rewrite (proj2 (nz_spec _) Hy0); by apply Hy].
  rewrite decide_False; [by rewrite !decide_False|]. intros [Hc ->].
  destruct link_cur as [[? _]|(z & _ & E & Hz & _)]; [done|]. by destruct (Hy z Hz).
Qed.

Context (Hcount : lo32 m' (map + 8) = u32 (Z.of_nat (length (l1 ++ l2)) + 1)).
Context (Hm' : ∀ a, a ≠ map + 8 → ld m' a = ld mk a).

Lemma link_other a :
  (∀ y, y ∈ l1 ++ l2 → a ≠ x_at y ∧ a ≠ x_at y + 8) → a ≠ x_at x → a ≠ x_at x + 8 → a ≠ map → a ≠ map + 8 → ld m' a = ld m0 a.
Proof. intros Hy H1 H2 H3 H4. rewrite Hm' by done. by apply link_same. Qed.

Lemma link_entry_fields y a : y ∈ l1 ++ l2 → x_at y + 16 ≤ a < x_at y + 56 → ld m' a = ld m a.
Proof.
  intros Hy Ha. rewrite <- (Hm0 y) by (done || lia). pose proof (link_apart y Hy). pose proof link_map_apart. pose proof (Hapart y Hy).
  apply link_other; try lia. intros z Hz. destruct (decide (x_at y = x_at z)) as [E|E]; [lia|]. specialize (Heach y z Hy Hz E). lia.
Qed.

(** The links of the old entries. *)
Lemma link_next y : y ∈ l1 ++ l2 → ld m' (x_at y + 8) = if decide (last (x_at <$> l1) = Some (x_at y)) then x_at x else ld m (x_at y + 8).
Proof.
  intros Hy. pose proof (link_apart y Hy). pose proof link_map_apart. pose proof (Hapart y Hy). rewrite Hm', linked_ld by lia.
  rewrite (decide_False (P := cur ≠ 0 ∧ _)).
  2:{ intros [Hc E]. destruct link_cur as [[? _]|(z & _ & Ez & Hz & _)]; [done|]. rewrite Ez in E.
      destruct (decide (x_at y = x_at z)) as [E'|E']; [lia|]. specialize (Heach y z Hy Hz E'). lia. }
  rewrite (decide_False (P := x_at y + 8 = x_at x)), (decide_False (P := x_at y + 8 = x_at x + 8)), (Hm0 y) by (done || lia).
  destruct link_prev as [[Hp ->]|(z & El & Ez & Hz & Hz0)].
  - cbn. rewrite (decide_False (P := None = _)) by done. rewrite decide_False by lia. done.
  - rewrite (proj2 (nz_spec _) Hz0), Ez. rewrite fmap_last, El. cbn. apply decide_ext. split; [intros; f_equal; lia|intros [= E]; lia].
Qed.

Lemma link_back y : y ∈ l1 ++ l2 → ld m' (x_at y) = if decide (head (x_at <$> l2) = Some (x_at y)) then x_at x else ld m (x_at y).
Proof.
  intros Hy. pose proof (link_apart y Hy). pose proof link_map_apart. pose proof (Hapart y Hy). rewrite Hm', linked_ld by lia.
  rewrite decide_False.
  2:{ destruct link_prev as [[-> _]|(z & _ & Ez & Hz & Hz0)]; [change (nz 0) with false; cbv iota; lia|].
      rewrite (proj2 (nz_spec _) Hz0), Ez. destruct (decide (x_at y = x_at z)) as [E'|E']; [lia|]. specialize (Heach y z Hy Hz E'). lia. }
  rewrite (decide_False (P := x_at y = x_at x)), (decide_False (P := x_at y = x_at x + 8)), (Hm0 y) by (done || lia).
  destruct link_cur as [[Hp ->]|(z & El & Ez & Hz & Hz0)].
  - cbn. rewrite !decide_False; [done|done|]. by intros [? _].
  - rewrite Ez in *. destruct l2 as [|w l]; [done|]. injection El as ->. cbn. apply decide_ext.
    split; [intros [_ E]; by rewrite E|intros [= E]; by rewrite E in *].
Qed.

Lemma link_elem y : y ∈ l1 ++ x :: l2 → y = x ∨ y ∈ l1 ++ l2.
Proof. rewrite !elem_of_app, elem_of_cons. tauto. Qed.

Lemma link_nodup : NoDup (map :: (x_at <$> l1 ++ x :: l2)).
Proof.
  pose proof link_map_apart as Hma. pose proof (vm_nodup _ _ _ _ HV) as [Hn Hnd]%NoDup_cons. apply NoDup_cons. split.
  - intros (y & E & [->|Hy]%link_elem)%list_elem_of_fmap; [lia|]. apply Hn. rewrite E. by apply list_elem_of_fmap_2.
  - rewrite fmap_app in *. cbn [fmap list_fmap]. rewrite <- Permutation_middle. apply NoDup_cons. split; [|done].
    rewrite <- fmap_app. intros (y & E & Hy)%list_elem_of_fmap. pose proof (link_apart y Hy). lia.
Qed.

Lemma link_dll : dll (e_links m') (ld m') 0 (ld m' map) (x_at <$> l1 ++ x :: l2).
Proof.
  pose proof link_map_apart as Hma. rewrite fmap_app. cbn [fmap list_fmap].
  assert (Hself : ∀ a, a = x_at x ∨ a = x_at x + 8 → ld m' a = if decide (a = x_at x) then prev else cur).
  { intros a Ha. rewrite Hm', linked_ld by lia. rewrite decide_False.
    2:{ destruct link_prev as [[-> _]|(z & _ & Ez & Hz & Hz0)]; [change (nz 0) with false; cbv iota; lia|].
        rewrite (proj2 (nz_spec _) Hz0), Ez. pose proof (link_apart z Hz). lia. }
    rewrite decide_False.
    2:{ intros [Hc E]. destruct link_cur as [[? _]|(z & _ & Ez & Hz & _)]; [done|]. pose proof (link_apart z Hz). lia. }
    destruct Ha as [->| ->]; [by rewrite !decide_True|].
    by rewrite !(decide_False (P := x_at x + 8 = x_at x)), decide_True by lia. }
  replace (ld m' map) with (if decide (x_at <$> l1 = []) then x_at x else ld m map).
  - eapply (dll_insert (e_links m) (ld m)); [rewrite <- fmap_app; apply HV| |done| | | |].
    + pose proof link_nodup as [_ Hnd]%NoDup_cons. by rewrite fmap_app in Hnd.
    + unfold e_links. rewrite Hself by lia. by rewrite decide_False by lia.
    + rewrite Hself by lia. by rewrite decide_True.
    + rewrite <- fmap_app. intros a (y & -> & Hy)%list_elem_of_fmap. by apply link_next.
    + rewrite <- fmap_app. intros a (y & -> & Hy)%list_elem_of_fmap. by apply link_back.
  - rewrite Hm', linked_ld by lia. destruct link_prev as [[-> ->]|(z & El & Ez & Hz & Hz0)].
    + change (nz 0) with false. cbv iota. by rewrite !decide_True.
    + rewrite (proj2 (nz_spec _) Hz0), Ez. pose proof (Hapart z Hz). rewrite !decide_False; [by rewrite Hm0map by lia|lia|lia| |lia|].
      * intros [Hc E]. destruct link_cur as [[? _]|(w & _ & Ew & Hw & _)]; [done|]. pose proof (Hapart w Hw). lia.
      * intros E. by destruct l1.
Qed.

Lemma link_vmap : ordered 0 (l1 ++ x :: l2) → vmap m' (<[x_at x := (64, false)]> B) map (l1 ++ x :: l2).
Proof.
  intros Hord. pose proof link_map_apart as Hma. split; try done.
  - destruct (vm_block _ _ _ _ HV) as (n & Hn & Hle). exists n. split; [|done]. rewrite lookup_insert_ne; [done|]. lia.
  - intros y [-> |Hy]%link_elem; [apply lookup_insert_eq|]. pose proof (link_apart y Hy).
    rewrite lookup_insert_ne by lia. by apply (vm_blocks _ _ _ _ HV).
  - apply link_nodup.
  - apply link_dll.
  - intros y [-> |Hy]%link_elem.
    + destruct Hfill as [H1 H2 H3 H4 H5 H6]. assert (He : ∀ a, x_at x + 16 ≤ a < x_at x + 56 → ld m' a = ld m0 a).
      { intros a Ha. apply link_other; try lia. intros y Hy. pose proof (link_apart y Hy). lia. }
      split; unfold lo32, hi32 in *; rewrite He by lia; done.
    + destruct (vm_ents _ _ _ _ HV y Hy) as [H1 H2 H3 H4 H5 H6].
      split; unfold lo32, hi32 in *; rewrite (link_entry_fields y) by (done || lia); done.
  - rewrite Hcount. f_equal. rewrite !length_app. simpl. lia.
Qed.

End link.

(** ** [vm_map_fixed] *)

Definition obj_ok (B : blocks) (map obj : Z) : Prop := obj = 0 ∨ (B !! obj = Some (32, false) ∧ obj ≠ map).

(** Blocks that are none of the map's are left alone. *)
Definition others_kept (B : blocks) (map obj : Z) (l : list ent) (h h' : heap) : Prop :=
  ∀ p n u a, B !! p = Some (n, u) → p ≤ a < p + n → p ≠ map → p ≠ obj → p ∉ x_at <$> l → ld (h_mem h') a = ld (h_mem h) a.

Lemma page_round_nonneg x : 0 ≤ page_round x.
Proof. apply Z.ldiff_nonneg. left. apply u64_range. Qed.

(** The limits of the map, which nothing changes. *)
Definition limits_kept (map : Z) (h h' : heap) : Prop :=
  ∀ a, map + 16 ≤ a < map + 32 → ld (h_mem h') a = ld (h_mem h) a.

(** What [vm_map_fixed] leaves when it succeeds. *)
Definition inserted (h : heap) (B : blocks) (map : Z) (l : list ent) (lo hi obj off prot flags : Z) (h' : heap) : Prop :=
  ∃ e l1 l2 L', l = l1 ++ l2 ∧ B !! e = None ∧ krel h' L' (<[e := (64, false)]> B) ∧
    vmap (h_mem h') (<[e := (64, false)]> B) map (l1 ++ Ent e lo hi obj off prot flags :: l2) ∧
    others_kept B map obj l h h' ∧ limits_kept map h h' ∧
    (obj ≠ 0 → hi32 (h_mem h') obj = u32 (s32 (hi32 (h_mem h) obj) + 1)).

Section insert_run.
Context (h : heap) (L : pa_state) (B : blocks) (map : Z) (l : list ent).
Context (HR : krel h L B) (HV : vmap (h_mem h) B map l).
Context (h1 : heap) (L1 : pa_state) (x : ent) (Hobj : obj_ok B map (x_obj x)).
Context (HR1 : krel h1 L1 (<[x_at x := (64, false)]> B)) (Hk : kept B h h1) (Hf : fresh_block B (x_at x) 64).
Context (Hno : ¬ clashes l (x_lo x) (x_hi x)) (Hlo : 0 ≤ x_lo x < x_hi x).

Lemma old_apart y : y ∈ l → map + 32 ≤ x_at y ∨ x_at y + 64 ≤ map.
Proof.
  intros Hy. destruct (vm_block _ _ _ _ HV) as (n & Hn & Hle). pose proof (vm_blocks _ _ _ _ HV y Hy) as Hb.
  pose proof (vm_nodup _ _ _ _ HV) as [Hnin _]%NoDup_cons.
  assert (map ≠ x_at y) as Hne by (intros E; apply Hnin; rewrite E; by apply list_elem_of_fmap_2).
  destruct (krel_apart h L B map n false (x_at y) 64 false HR Hn Hb Hne); lia.
Qed.

Lemma old_each y z : y ∈ l → z ∈ l → x_at y ≠ x_at z → x_at y + 64 ≤ x_at z ∨ x_at z + 64 ≤ x_at y.
Proof. intros Hy Hz Hne. by apply (krel_apart h L B _ 64 false _ 64 false HR); [apply (vm_blocks _ _ _ _ HV)..|]. Qed.

(** An object is a block of its own. *)
Lemma obj_apart p n u : x_obj x ≠ 0 → B !! p = Some (n, u) → p ≠ x_obj x → x_obj x + 32 ≤ p ∨ p + n ≤ x_obj x.
Proof.
  intros Hz Hp Hne. destruct Hobj as [?|[Ho _]]; [done|].
  destruct (krel_apart h L B p n u (x_obj x) 32 false HR Hp Ho Hne); [by right|by left].
Qed.

Lemma obj_not_entry y : x_obj x ≠ 0 → y ∈ l → x_at y ≠ x_obj x.
Proof.
  intros Hz Hy E. destruct Hobj as [?|[Ho _]]; [done|]. pose proof (vm_blocks _ _ _ _ HV y Hy) as Hb. rewrite E in Hb. congruence.
Qed.

Lemma map_not_obj : map ≠ x_obj x.
Proof.
  destruct Hobj as [E|[_ E]]; [|done]. rewrite E. destruct (vm_block _ _ _ _ HV) as (n & Hn & _). by apply (block_aligned h L B map n false).
Qed.

Abbreviation B1 := (<[x_at x := (64, false)]> B).

Lemma new_blocks p y : B !! p = Some y → B1 !! p = Some y.
Proof. intros Hp. destruct Hf as (_ & _ & _ & Hn & _). rewrite lookup_insert_ne; [done|congruence]. Qed.

Lemma new_apart p n u : B !! p = Some (n, u) → x_at x + 64 ≤ p ∨ p + n ≤ x_at x.
Proof. apply Hf. Qed.

(** The second half: with the fields in memory [m], the entry is linked. *)
Section links.
Context (m : gmap Z Z) (Hent : ent_ok m x).
Context (Hm : ∀ a, ¬ x_at x + 16 ≤ a < x_at x + 56 → (x_obj x ≠ 0 → a ≠ x_obj x) → ld m a = ld (h_mem h1) a).
Context (Hrc : x_obj x ≠ 0 → hi32 m (x_obj x) = u32 (s32 (hi32 (h_mem h1) (x_obj x)) + 1)).

Lemma filled_other p n u a : B !! p = Some (n, u) → p ≠ x_obj x → p ≤ a < p + n → ld m a = ld (h_mem h1) a.
Proof.
  intros Hp Hne Ha. pose proof (new_apart p n u Hp). apply Hm; [lia|]. intros Hz ->. destruct (obj_apart p n u Hz Hp Hne); lia.
Qed.

Lemma filled_old p n u a : B !! p = Some (n, u) → p ≠ x_obj x → p ≤ a < p + n → ld m a = ld (h_mem h) a.
Proof.
  intros Hp Hne Ha. rewrite (filled_other p n u) by done. apply Hk. right. right. by exists p, n, u.
Qed.

Lemma filled_vmap B2 : (∀ p y, B !! p = Some y → B2 !! p = Some y) → vmap m B2 map l.
Proof.
  intros HB. apply (vmap_frame (h_mem h) _ B); [done|done| |].
  - destruct (vm_block _ _ _ _ HV) as (n & Hn & Hle). intros a Ha. apply (filled_old map n false); [done|apply map_not_obj|lia].
  - intros y a Hy Ha. pose proof (vm_blocks _ _ _ _ HV y Hy) as Hb. apply (filled_old (x_at y) 64 false); [done| |lia].
    destruct (decide (x_obj x = 0)) as [E|E]; [|by apply obj_not_entry].
    rewrite E. by apply (block_aligned h L B _ 64 false).
Qed.

Lemma filled_krel : krel (set_mem m h1) L1 B1.
Proof.
  apply krel_writes; [done|]. intros a Ha. apply Hm.
  - intros Hin. apply (Ha (x_at x) 64 false); [apply lookup_insert_eq|lia].
  - intros Hz ->. destruct Hobj as [?|[Ho _]]; [done|]. apply (Ha (x_obj x) 32 false); [by apply new_blocks|lia].
Qed.

(** The memory that linking the entry between [l1] and [l2] leaves. *)
Definition counted (mk : gmap Z Z) : gmap Z Z := st mk (map + 8) (with_lo (ld mk (map + 8)) (s32 (lo32 mk (map + 8)) + 1)).

Section final.
Context (l1 l2 : list ent) (El : l = l1 ++ l2).

Abbreviation mk := (linked m map (x_at x) (default 0 (last (x_at <$> l1))) (default 0 (head (x_at <$> l2)))).

Lemma mk_same a : (∀ y, y ∈ l → a ≠ x_at y ∧ a ≠ x_at y + 8) → a ≠ x_at x → a ≠ x_at x + 8 → a ≠ map → ld mk a = ld m a.
Proof.
  pose proof (filled_vmap B (λ _ _ H, H)) as HVm. pose proof old_apart as Hap. pose proof old_each as Hea.
  clear HV. subst l. apply (link_same m m B map l1 l2 x HVm); done || apply new_apart.
Qed.

Lemma final_keep a : (∀ y, y ∈ l → ¬ x_at y ≤ a < x_at y + 64) → ¬ x_at x ≤ a < x_at x + 64 → ¬ map ≤ a < map + 32 → ld (counted mk) a = ld m a.
Proof.
  intros Hy H1 H2. unfold counted. rewrite ld_st_ne by lia. apply mk_same; try lia. intros y Hy'. specialize (Hy y Hy'). lia.
Qed.

Lemma final_block p n u a : B !! p = Some (n, u) → p ≤ a < p + n → p ≠ map → p ∉ x_at <$> l → ld (counted mk) a = ld m a.
Proof.
  intros Hp Ha H1 H3. pose proof (new_apart p n u Hp) as Hpx. apply final_keep; [|lia|].
  - intros y Hy Hin. assert (p ≠ x_at y) as Hne by (intros ->; apply H3; by apply list_elem_of_fmap_2).
    destruct (krel_apart h L B p n u (x_at y) 64 false HR Hp (vm_blocks _ _ _ _ HV y Hy) Hne); lia.
  - intros Hin. destruct (vm_block _ _ _ _ HV) as (nm & Hnm & Hnm32).
    destruct (krel_apart h L B p n u map nm false HR Hp Hnm H1); lia.
Qed.

Lemma final_limits : limits_kept map h (set_mem (counted mk) h1).
Proof.
  intros a Ha. cbn [h_mem set_mem]. destruct (vm_block _ _ _ _ HV) as (n & Hn & Hle). pose proof (new_apart _ _ _ Hn).
  unfold counted. rewrite ld_st_ne, mk_same by lia || (intros; pose proof (old_apart y); intuition lia).
  apply (filled_old map n false); [done|apply map_not_obj|lia].
Qed.

Lemma final_krel : krel (set_mem (counted mk) h1) L1 B1.
Proof.
  apply (krel_writes (set_mem m h1) L1 B1 (counted mk)); [apply filled_krel|]. intros a Ha. apply final_keep.
  - intros y Hy Hin. apply (Ha (x_at y) 64 false); [by apply new_blocks, (vm_blocks _ _ _ _ HV)|done].
  - apply (Ha (x_at x) 64 false). apply lookup_insert_eq.
  - intros Hin. destruct (vm_block _ _ _ _ HV) as (nm & Hnm & ?). apply (Ha map nm false); [by apply new_blocks|lia].
Qed.

Lemma final_vmap :
  (∀ y, y ∈ l1 → x_lo y < x_lo x) → (∀ y, head l2 = Some y → x_lo x ≤ x_lo y) → vmap (counted mk) B1 map (l1 ++ x :: l2).
Proof.
  intros Hlt Hge. pose proof (filled_vmap B (λ _ _ H, H)) as HVm. pose proof old_apart as Hap. pose proof old_each as Hea.
  pose proof mk_same as Hsame. destruct (vm_block _ _ _ _ HV) as (nm & Hnm & Hnm').
  destruct (block_aligned h L B _ _ _ HR Hnm) as [Hm8 _]. pose proof (new_apart _ _ _ Hnm) as Hma.
  destruct (block_aligned h1 L1 B1 (x_at x) 64 false HR1 (lookup_insert_eq _ _ _)) as [_ Hx0].
  clear HV. subst l. apply (link_vmap m m (counted mk) B map l1 l2 x HVm); try done.
  - apply new_apart.
  - unfold counted, lo32. rewrite ld_st_eq, with_lo_low, Hsame; [|intros y Hy; specialize (Hap y Hy); lia|lia..].
    pose proof (vm_count _ _ _ _ HVm) as Hc. unfold lo32 in Hc. rewrite Hc. apply u32_s32_succ.
  - intros a Ha. unfold counted. by rewrite ld_st_ne.
  - apply ordered_insert; try done; [apply HVm|lia|lia].
Qed.

Lemma final_refcount : x_obj x ≠ 0 → hi32 (counted mk) (x_obj x) = u32 (s32 (hi32 (h_mem h) (x_obj x)) + 1).
Proof.
  intros Hz. destruct Hobj as [?|[Ho Hom]]; [done|]. assert (Hin : x_obj x ≤ x_obj x < x_obj x + 32) by lia.
  assert (Hne : x_obj x ∉ x_at <$> l) by (intros (y & E & Hy)%list_elem_of_fmap; by apply (obj_not_entry y Hz Hy)).
  unfold hi32 in *. rewrite (final_block _ _ _ _ Ho Hin Hom Hne), Hrc by done. do 4 f_equal.
  apply Hk. right. right. by exists (x_obj x), 32, false.
Qed.

End final.

Lemma insert_links :
  wp (let! r := insert_point map (x_lo x) in
      let '(prev, cur) := r in
      store (x_at x + 8) cur ;! store (x_at x) prev ;! (if nz cur then store cur (x_at x) else skip) ;!
      (if nz prev then store (prev + 8) (x_at x) else store map (x_at x)) ;!
      let! n := map_nentries map in set_nentries map (n + 1) ;! ret 0) (set_mem m h1)
    (λ r h', r = 0 ∧ inserted h B map l (x_lo x) (x_hi x) (x_obj x) (x_off x) (x_prot x) (x_flags x) h').
Proof.
  wp_step. eapply wp_mono; [by apply (insert_point_run _ L1 B1 map l); [apply filled_krel|apply (filled_vmap B1 new_blocks)]|].
  intros ? ? (-> & l1 & l2 & El & -> & Hlt & Hge). apply link_run. cbn [h_mem set_mem].
  destruct (vm_block _ _ _ _ HV) as (nm & Hnm & Hnm'). destruct (block_aligned h L B _ _ _ HR Hnm) as [Hm8 _].
  assert (Hm88 : (map + 8) mod 8 = 0) by (rewrite Z.add_mod, Hm8 by lia; done).
  unfold map_nentries, set_nentries. wp_step. wp_step. apply wp_load32_lo; [done|]. wp_step. wp_step. apply wp_store32_lo; [done|]. wp_step.
  split; [done|]. exists (x_at x), l1, l2, L1. split_and!; [done|apply Hf|by apply final_krel| | |by apply final_limits|].
  - replace (Ent (x_at x) (x_lo x) (x_hi x) (x_obj x) (x_off x) (x_prot x) (x_flags x)) with x by (by destruct x).
    by apply final_vmap.
  - intros p n u a Hp Ha H1 H2 H3. rewrite <- (filled_old p n u) by done. by apply (final_block l1 l2 El p n u).
  - by apply final_refcount.
Qed.

End links.

Lemma insert_run :
  wp (store (x_at x + 16) (x_lo x) ;! store (x_at x + 24) (x_hi x) ;!
      let! o := (if nz (x_obj x) then vm_object_share (x_obj x) else ret 0) in
      store (x_at x + 32) o ;! store (x_at x + 40) (x_off x) ;!
      store32 (x_at x + 48) (x_prot x) ;! store32 (x_at x + 52) (x_flags x) ;!
      let! r := insert_point map (x_lo x) in
      let '(prev, cur) := r in
      store (x_at x + 8) cur ;! store (x_at x) prev ;! (if nz cur then store cur (x_at x) else skip) ;!
      (if nz prev then store (prev + 8) (x_at x) else store map (x_at x)) ;!
      let! n := map_nentries map in set_nentries map (n + 1) ;! ret 0) h1
    (λ r h', r = 0 ∧ inserted h B map l (x_lo x) (x_hi x) (x_obj x) (x_off x) (x_prot x) (x_flags x) h').
Proof.
  assert (Hxb : B1 !! x_at x = Some (64, false)) by apply lookup_insert_eq.
  apply fill_entry; [by apply (block_aligned h1 L1 B1 _ _ _ HR1 Hxb)| |].
  - intros Hz. destruct Hobj as [?|[Ho _]]; [done|]. split; [by apply (block_aligned h L B _ _ _ HR Ho)|].
    pose proof (new_apart _ _ _ Ho). lia.
  - intros m Hent Hm Hrc. apply insert_links; [done|done|]. intros Hz. by apply Hrc.
Qed.

End insert_run.

(** Rounding to pages. *)
Lemma page_round_val x : 0 ≤ x → x + 4095 < 2 ^ 64 → page_round x = 4096 * ((x + 4095) / 4096).
Proof.
  intros H0 H1. unfold page_round. rewrite u64_small by lia. change (x + 0xFFF) with (x + 4095). generalize (x + 4095). intros y.
  change 0xFFF with (Z.ones 12). rewrite Z.ldiff_ones_r, Z.shiftr_div_pow2, Z.shiftl_mul_pow2 by lia. apply Z.mul_comm.
Qed.

Lemma page_round_bounds x : 0 ≤ x → x + 4095 < 2 ^ 64 → x ≤ page_round x < x + 4096.
Proof.
  intros H0 H1. rewrite page_round_val by done. pose proof (Z.div_mod (x + 4095) 4096). pose proof (Z.mod_pos_bound (x + 4095) 4096). lia.
Qed.

Lemma page_aligned k : Z.land (4096 * k) 0xFFF = 0.
Proof. change 0xFFF with (Z.ones 12). rewrite Z.land_ones, Z.mul_comm by lia. by apply Z.mod_mul. Qed.

Lemma page_round_again x : 0 ≤ x → x + 8191 < 2 ^ 64 → page_round (page_round x) = page_round x.
Proof.
  intros H0 H1. pose proof (page_round_bounds x H0 ltac:(lia)). rewrite page_round_val by lia. rewrite page_round_val by lia.
  replace (4096 * ((x + 4095) / 4096) + 4095) with (4095 + (x + 4095) / 4096 * 4096) by lia. by rewrite Z.div_add, Z.div_small by lia.
Qed.

(** Out of memory: the map is as before. *)
Definition refused (h : heap) (L : pa_state) (B : blocks) (map : Z) (l : list ent) (h' : heap) : Prop :=
  krel h' L B ∧ kept B h h' ∧ vmap (h_mem h') B map l ∧ ∀ f o, 0 ≤ o → ¬ free_run L f o.

Lemma fixed_run h L B map l obj off addr size prot flags :
  krel h L B → vmap (h_mem h) B map l → obj_ok B map obj → 0 ≤ addr → addr + page_round size < 2 ^ 64 →
  wp (vm_map_fixed map obj off addr size prot flags) h (λ r h', let hi := addr + page_round size in
    (r = -1 ∧ h' = h ∧ (page_round size = 0 ∨ Z.land addr 0xFFF ≠ 0 ∨ clashes l addr hi)) ∨
    (Z.land addr 0xFFF = 0 ∧ 0 < page_round size ∧ ¬ clashes l addr hi ∧
     (r = -1 ∧ refused h L B map l h' ∨ r = 0 ∧ inserted h B map l addr hi obj off prot flags h'))).
Proof.
  intros HR HV Hobj Ha Hov. pose proof (page_round_nonneg size) as Hp. unfold vm_map_fixed. set (sz' := page_round size) in *. clearbody sz'.
  rewrite u64_small by lia. destruct (Z.eqb_spec sz' 0) as [-> |Hsz]; cbn [orb].
  { wp_step. left. split_and!; [done|done|by left]. }
  destruct (nz (Z.land addr 0xFFF)) eqn:Eal.
  { apply nz_spec in Eal. wp_step. left. split_and!; [done|done|by right; left]. }
  apply nz_false in Eal. wp_step. eapply wp_mono; [by apply (overlap_run h L B map l)|]. intros ov ? (-> & Hov').
  destruct ov.
  { wp_step. left. split_and!; [done|done|]. right. right. by apply Hov'. }
  assert (Hno : ¬ clashes l addr (addr + sz')) by (intros Hc; by apply Hov' in Hc).
  wp_step. unfold entry_alloc. eapply wp_mono; [apply (kmalloc_run h L B SIZEOF_ENTRY HR); unfold SIZEOF_ENTRY; lia|].
  intros e h1 (Hk & [(-> & HR1 & Hex)|(n & L1 & He & _ & Hn & Hf & HR1)]).
  - change (nz 0) with false. cbn [negb]. wp_step. right. split_and!; [done|lia|done|]. left. split; [done|]. split_and!; [done|done| |].
    + apply (vmap_frame (h_mem h) _ B B); [done|done| |].
      * intros a Ha'. apply Hk. right. right. destruct (vm_block _ _ _ _ HV) as (k & Hk' & ?). exists map, k, false. split; [done|lia].
      * intros y a Hy Ha'. apply Hk. right. right. exists (x_at y), 64, false. split; [by apply (vm_blocks _ _ _ _ HV)|lia].
    + intros f o Ho. destruct Hex as [?|Hex]; [done|]. apply Hex. unfold SIZEOF_ENTRY. pose proof (pow2_pos o Ho). lia.
  - rewrite (proj2 (nz_spec e) He). cbn [negb]. apply entry_block in Hn as ->.
    eapply wp_mono; [apply (insert_run h L B map l HR HV h1 L1 (Ent e addr (addr + sz') obj off prot flags)); try done; cbn; lia|].
    cbn [x_at x_lo x_hi x_obj x_off x_prot x_flags]. intros r h2 (-> & Hins). right. split_and!; [done|lia|done|]. right. done.
Qed.

(** ** [vm_map_find] *)

(** The candidates are tried from the hint on, in steps of 1 MB. *)
Definition first_candidate (min addr : Z) : Z :=
  let c := if nz addr then addr else 0x70000000 in page_round (if c <? min then min else c).

(** The loop of [vm_map_find]. *)
Definition candidates (map size candidate : Z) : M heap (option Z) :=
  loop 101 (λ '(candidate, tries),
    let! max := load (map + 24) in
    if (u64 (candidate + size) <=? max) && (tries <? 100) then
      let! ov := overlap map candidate (u64 (candidate + size)) in
      if ov then ret (inl (u64 (candidate + 0x100000), tries + 1))
      else ret (inr (Some candidate))
    else ret (inr None)) (candidate, 0).

Lemma candidates_run h L B map l c0 n :
  let max := ld (h_mem h) (map + 24) in let cand k := c0 + k * 0x100000 in
  krel h L B → vmap (h_mem h) B map l → 0 ≤ c0 < 2 ^ 63 → 0 ≤ n < 2 ^ 63 - 2 ^ 32 →
  wp (candidates map n c0) h (λ r h', h' = h ∧ match r with
    | Some c => ∃ k, 0 ≤ k < 100 ∧ c = cand k ∧ c + n ≤ max ∧ ¬ clashes l c (c + n)
    | None => ∀ k, 0 ≤ k < 100 → (∀ j, 0 ≤ j ≤ k → cand j + n ≤ max) → clashes l (cand k) (cand k + n) end).
Proof.
  intros max cand HR HV Hc0 Hn.
  set (I := λ (a : Z * Z) (h' : heap), h' = h ∧ 0 ≤ a.2 ≤ 100 ∧ a.1 = cand a.2 ∧ ∀ k, 0 ≤ k < a.2 → clashes l (cand k) (cand k + n)).
  apply (wp_loop I (λ a _, Z.to_nat (100 - a.2))).
  - intros [c1 k] ? (-> & Hk & Ec & Hcl). cbn [fst snd] in *. subst c1. wp_step. apply wp_load. fold max.
    rewrite (u64_small (cand k + n)) by (unfold cand; lia).
    destruct (Z.leb_spec (cand k + n) max) as [Hle|Hgt]; [destruct (Z.ltb_spec k 100) as [Hlt|Hge]|]; cbn [andb].
    + wp_step. eapply wp_mono; [by apply (overlap_run h L B map l)|]. intros ov ? (-> & Hov). destruct ov; wp_step.
      * split; [|cbn; lia]. split_and!; [done|cbn; lia|cbn; lia|cbn; rewrite u64_small; unfold cand; lia|].
        intros j Hj. cbn in Hj. destruct (decide (j = k)) as [-> |]; [by apply Hov|apply Hcl; lia].
      * split; [done|]. exists k. split_and!; [lia|lia|done|done|]. intros Hcc. by apply Hov in Hcc.
    + wp_step. split; [done|]. intros j Hj _. apply Hcl. lia.
    + wp_step. split; [done|]. intros j Hj Hall. destruct (Z.lt_ge_cases j k); [apply Hcl; lia|]. specialize (Hall k). lia.
  - split_and!; [done|cbn; lia|cbn; lia|cbn; unfold cand; lia|]. cbn. lia.
  - cbn. lia.
Qed.

Lemma first_candidate_spec min addr :
  0 ≤ addr < 2 ^ 62 → 0 ≤ min < 2 ^ 62 →
  min ≤ first_candidate min addr < 2 ^ 62 + 4096 ∧ ∃ q, first_candidate min addr = 4096 * q.
Proof.
  intros Ha Hmin. unfold first_candidate. set (c := if nz addr then addr else 0x70000000).
  assert (Hc : 0 ≤ c < 2 ^ 62) by (unfold c; destruct (nz addr); lia).
  set (c' := if c <? min then min else c). assert (Hc' : min ≤ c' < 2 ^ 62) by (unfold c'; destruct (Z.ltb_spec c min); lia).
  pose proof (page_round_bounds c' ltac:(lia) ltac:(lia)). split; [lia|]. eexists. apply (page_round_val c'); lia.
Qed.

Lemma find_run h L B map l obj off addr size prot flags :
  let min := ld (h_mem h) (map + 16) in let max := ld (h_mem h) (map + 24) in
  let c0 := first_candidate min addr in let n := page_round size in
  krel h L B → vmap (h_mem h) B map l → obj_ok B map obj →
  0 ≤ addr < 2 ^ 62 → 0 ≤ size < 2 ^ 62 → 0 ≤ min < 2 ^ 62 →
  wp (vm_map_find map obj off addr size prot flags) h (λ r h',
    (r = (-1, addr) ∧ h' = h ∧ (n = 0 ∨ ∀ k, 0 ≤ k < 100 → (∀ j, 0 ≤ j ≤ k → c0 + j * 0x100000 + n ≤ max) →
       clashes l (c0 + k * 0x100000) (c0 + k * 0x100000 + n))) ∨
    (∃ k, 0 ≤ k < 100 ∧ 0 < n ∧ r.2 = c0 + k * 0x100000 ∧ r.2 + n ≤ max ∧ min ≤ r.2 ∧ Z.land r.2 0xFFF = 0 ∧
       ¬ clashes l r.2 (r.2 + n) ∧
       (r.1 = -1 ∧ refused h L B map l h' ∨ r.1 = 0 ∧ inserted h B map l r.2 (r.2 + n) obj off prot flags h'))).
Proof.
  intros min max c0 n HR HV Hobj Ha Hs Hmin. pose proof (page_round_bounds size ltac:(lia) ltac:(lia)) as Hn. fold n in Hn.
  destruct (first_candidate_spec min addr Ha Hmin) as [Hc0 Hal]. fold c0 in Hc0, Hal.
  unfold vm_map_find. fold n. destruct (Z.eqb_spec n 0) as [En|En].
  { wp_step. left. split_and!; [done|done|by left]. }
  wp_step. apply wp_load. fold min. change (page_round _) with c0. wp_step.
  eapply wp_mono; [apply (candidates_run h L B map l c0 n HR HV); lia|].
  intros [c1|] ? (-> & Hr); [|wp_step; left; split_and!; [done|done|by right]].
  destruct Hr as (k & Hk & -> & Hmx & Hno). wp_step.
  assert (Hpr : page_round n = n) by (apply page_round_again; lia).
  eapply wp_mono; [apply (fixed_run h L B map l); [done|done|done|lia|rewrite Hpr; lia]|].
  rewrite Hpr. intros r h1 Hpost. wp_step. right. exists k. cbn [fst snd].
  assert (Hal' : Z.land (c0 + k * 0x100000) 0xFFF = 0).
  { destruct Hal as [q ->]. replace (4096 * q + k * 0x100000) with (4096 * (q + k * 256)) by lia. apply page_aligned. }
  split_and!; [lia|lia|lia|done|done|lia|done|done|].
  destruct Hpost as [(_ & _ & [?|[?|?]])|(_ & _ & _ & Hpost)]; [done..|exact Hpost].
Qed.
