(* ===== verification/VmMapSpec.v ===== *)
(** * VmMapSpec: removal and protection, and what address maps promise *)

From Stdlib Require Import ZArith Lia.
From stdpp Require Import gmap list prelude.
From S2P Require Import Prelude KHeap Buddy BuddyInv BuddyProof PageAlloc Slab SlabInv SlabProof Kmalloc KmallocSpec Paging VmMap VmMapProof.

(** ** [vm_map_init] *)

Lemma init_vmap h L B map n lo hi :
  krel h L B → B !! map = Some (n, false) → 32 ≤ n →
  wp (vm_map_init map lo hi) h (λ _ h', krel h' L B ∧ vmap (h_mem h') B map [] ∧
    ld (h_mem h') (map + 16) = lo ∧ ld (h_mem h') (map + 24) = hi ∧
    (∀ a, ¬ map ≤ a < map + 32 → ld (h_mem h') a = ld (h_mem h) a)).
Proof.
  intros HR Hn Hle. destruct (block_aligned h L B map n false HR Hn) as [Hm8 Hm0].
  assert (Hm88 : (map + 8) mod 8 = 0) by (rewrite Z.add_mod, Hm8 by lia; done).
  unfold vm_map_init, set_nentries. wp_step. apply wp_store. wp_step. apply wp_store32_lo; [done|].
  wp_step. apply wp_store. apply wp_store. cbn [h_mem set_mem].
  set (m := st (st (st (st _ _ _) _ _) _ _) _ _).
  assert (Hm : ∀ a, ¬ map ≤ a < map + 32 → ld m a = ld (h_mem h) a) by (intros a Ha; unfold m; by rewrite !ld_st_ne by lia).
  split_and!; [| | | |done].
  - apply (krel_write h L B m map n false); [done|done|]. intros a Ha. apply Hm. lia.
  - split; try done.
    + by exists n.
    + by intros x ?%elem_of_nil.
    + apply NoDup_singleton.
    + cbn. unfold m. rewrite !ld_st_ne by lia. rewrite ld_st_eq. done.
    + by intros x ?%elem_of_nil.
    + unfold m, lo32. rewrite !(ld_st_ne _ (map + 24)), !(ld_st_ne _ (map + 16)) by lia. rewrite ld_st_eq. apply with_lo_low.
  - unfold m. rewrite ld_st_ne by lia. apply ld_st_eq.
  - apply ld_st_eq.
Qed.

(** ** Unlinking an entry *)

Definition unlinked (m : gmap Z Z) (map p n : Z) : gmap Z Z :=
  let m1 := if nz p then st m (p + 8) n else st m map n in if nz n then st m1 n p else m1.

Lemma unlinked_ld m map p n a :
  ld (unlinked m map p n) a =
    if decide (n ≠ 0 ∧ a = n) then p else if decide (a = if nz p then p + 8 else map) then n else ld m a.
Proof.
  unfold unlinked. assert (Hlast : ∀ b m2, ld (st m2 b n) a = if decide (a = b) then n else ld m2 a).
  { intros b m2. rewrite ld_st. apply decide_ext. intuition congruence. }
  destruct (nz n) eqn:En.
  - apply nz_spec in En. rewrite ld_st. destruct (nz p); rewrite Hlast; clear Hlast; repeat case_decide; intuition congruence.
  - apply nz_false in En. rewrite decide_False by (intros [? _]; done). destruct (nz p); by rewrite Hlast.
Qed.

Lemma ordered_weaken lo lo' l : lo' ≤ lo → ordered lo l → ordered lo' l.
Proof. intros Hle. destruct l; [done|]. simpl. intros (? & ? & ?). split_and!; [lia|done|done]. Qed.

Lemma ordered_remove lo l1 x l2 : ordered lo (l1 ++ x :: l2) → ordered lo (l1 ++ l2).
Proof.
  revert lo. induction l1 as [|y l1 IH]; intros lo; simpl.
  - intros (? & ? & ?). eapply ordered_weaken; [|done]. lia.
  - intros (? & ? & ?). split_and!; [done|done|by apply IH].
Qed.

Section unlink.
Context (m m' : gmap Z Z) (B : blocks) (map : Z) (l1 l2 : list ent) (x : ent).
Context (HV : vmap m B map (l1 ++ x :: l2)).
Context (Hapart : ∀ y, y ∈ l1 ++ x :: l2 → map + 32 ≤ x_at y ∨ x_at y + 64 ≤ map).
Context (Heach : ∀ y z, y ∈ l1 ++ x :: l2 → z ∈ l1 ++ x :: l2 → x_at y ≠ x_at z → x_at y + 64 ≤ x_at z ∨ x_at z + 64 ≤ x_at y).

Abbreviation p := (ld m (x_at x)).
Abbreviation n := (ld m (x_at x + 8)).
Abbreviation mu := (unlinked m map p n).

Lemma unlink_old y : y ∈ l1 ++ l2 → y ∈ l1 ++ x :: l2 ∧ x_at y ≠ x_at x.
Proof.
  intros Hy. split; [rewrite !elem_of_app, !elem_of_cons in *; tauto|].
  pose proof (vm_nodup _ _ _ _ HV) as [_ Hnd]%NoDup_cons. rewrite fmap_app in Hnd. cbn [fmap list_fmap] in Hnd.
  rewrite <- Permutation_middle, <- fmap_app in Hnd. apply NoDup_cons in Hnd as [Hn _]. intros E. apply Hn. rewrite <- E.
  by apply list_elem_of_fmap_2.
Qed.

Lemma unlink_nonnull y : y ∈ l1 ++ l2 → x_at y ≠ 0.
Proof.
  intros Hy. apply (dll_nonnull _ _ _ _ _ (x_at y) (vm_list _ _ _ _ HV)). apply list_elem_of_fmap_2. by apply unlink_old.
Qed.

Lemma gap_prev : p = 0 ∧ l1 = [] ∨ ∃ y, y ∈ l1 ++ l2 ∧ p = x_at y ∧ p ≠ 0 ∧ l1 ≠ [].
Proof.
  pose proof (vm_list _ _ _ _ HV) as Hd. rewrite fmap_app in Hd. cbn [fmap list_fmap] in Hd.
  destruct (dll_mid _ _ _ _ _ _ _ Hd) as (Hp & _). rewrite fmap_last in Hp.
  destruct (last l1) as [y|] eqn:E; [right|left; by apply last_None in E as ->].
  exists y. assert (Hy : y ∈ l1) by (by apply last_Some_elem_of). cbn in Hp. split_and!; [by apply elem_of_app; left|done| |by intros ->].
  rewrite Hp. eapply dll_nonnull; [exact Hd|]. apply elem_of_app. left. by apply list_elem_of_fmap_2.
Qed.

Lemma gap_next : n = 0 ∨ ∃ y, y ∈ l1 ++ l2 ∧ n = x_at y ∧ n ≠ 0.
Proof.
  pose proof (vm_list _ _ _ _ HV) as Hd. rewrite fmap_app in Hd. cbn [fmap list_fmap] in Hd.
  destruct (dll_mid _ _ _ _ _ _ _ Hd) as (_ & Hn & _). destruct l2 as [|y l]; [by left|right].
  unfold e_links in Hn. destruct Hn as (Hn & Hz & _). exists y. split_and!; [apply elem_of_app; right; left|done|congruence].
Qed.

(** What unlinking leaves alone. *)
Lemma unlinked_same a :
  (∀ y, y ∈ l1 ++ l2 → a ≠ x_at y ∧ a ≠ x_at y + 8) → a ≠ map → ld mu a = ld m a.
Proof.
  intros Hy Hm. rewrite unlinked_ld. rewrite !decide_False; [done| |].
  - destruct gap_prev as [[-> _]|(y & Hy' & -> & Hz & _)]; [done|]. rewrite (proj2 (nz_spec _) Hz). by apply Hy.
  - intros [Hz E]. destruct gap_next as [?|(y & Hy' & En & _)]; [done|]. destruct (Hy y Hy'). congruence.
Qed.

(** Afterwards: memory [m'] agrees on the map and the other entries, the count
    apart. *)
Context (B' : blocks) (HB' : ∀ q y, B !! q = Some y → q ≠ x_at x → B' !! q = Some y).
Context (Hm' : ∀ a, map ≤ a < map + 32 → a ≠ map + 8 → ld m' a = ld mu a).
Context (He' : ∀ y a, y ∈ l1 ++ l2 → x_at y ≤ a < x_at y + 56 → ld m' a = ld mu a).
Context (Hcount : lo32 m' (map + 8) = u32 (Z.of_nat (length (l1 ++ x :: l2)) - 1)).

Lemma unlink_entry_next y : y ∈ l1 ++ l2 → ld m' (x_at y + 8) = if decide (x_at y = p) then n else ld m (x_at y + 8).
Proof.
  intros Hy. destruct (unlink_old y Hy) as [Hy1 Hyx]. pose proof (Hapart y Hy1). rewrite (He' y), unlinked_ld by (done || lia).
  rewrite (decide_False (P := n ≠ 0 ∧ _)).
  2:{ intros [Hz E]. destruct gap_next as [?|(z & Hz' & En & _)]; [done|]. rewrite En in E.
      destruct (decide (x_at y = x_at z)) as [E'|E']; [lia|]. specialize (Heach y z Hy1 (proj1 (unlink_old z Hz')) E'). lia. }
  apply decide_ext. destruct gap_prev as [[-> _]|(z & Hz' & Ep & Hz & _)].
  - change (nz 0) with false. cbv iota. split; [lia|]. intros E. by destruct (unlink_nonnull y Hy).
  - rewrite (proj2 (nz_spec _) Hz). lia.
Qed.

Lemma unlink_entry_prev y : y ∈ l1 ++ l2 → ld m' (x_at y) = if decide (x_at y = n) then p else ld m (x_at y).
Proof.
  intros Hy. destruct (unlink_old y Hy) as [Hy1 Hyx]. pose proof (Hapart y Hy1). rewrite (He' y), unlinked_ld by (done || lia).
  rewrite (decide_False (P := x_at y = if nz p then _ else _)).
  2:{ destruct gap_prev as [[-> _]|(z & Hz' & Ep & Hz & _)]; [change (nz 0) with false; cbv iota; lia|].
      rewrite (proj2 (nz_spec _) Hz), Ep. destruct (decide (x_at y = x_at z)) as [E'|E']; [lia|].
      specialize (Heach y z Hy1 (proj1 (unlink_old z Hz')) E'). lia. }
  apply decide_ext. split; [tauto|]. intros E. split; [|done]. rewrite <- E. by apply unlink_nonnull.
Qed.

Lemma unlink_map_dll : dll (e_links m') (ld m') 0 (ld m' map) (x_at <$> l1 ++ l2).
Proof.
  pose proof (vm_list _ _ _ _ HV) as Hd. rewrite fmap_app in *. cbn [fmap list_fmap] in Hd.
  replace (ld m' map) with (if decide (x_at <$> l1 = []) then e_links m (x_at x) else ld m map).
  - apply (dll_unlink (e_links m) (ld m) (e_links m') (ld m') 0 (ld m map) (x_at <$> l1) (x_at x) (x_at <$> l2)); [exact Hd| | |].
    + apply NoDup_cons. split; [intros Hin; by apply (dll_nonnull _ _ _ _ _ 0 Hd Hin)|].
      pose proof (vm_nodup _ _ _ _ HV) as [_ Hnd]%NoDup_cons. by rewrite fmap_app in Hnd.
    + rewrite <- fmap_app. intros a (y & -> & Hy)%list_elem_of_fmap. by apply unlink_entry_next.
    + rewrite <- fmap_app. intros a (y & -> & Hy)%list_elem_of_fmap. by apply unlink_entry_prev.
  - assert (Hx : x ∈ l1 ++ x :: l2) by (apply elem_of_app; right; left). pose proof (Hapart x Hx).
    rewrite Hm', unlinked_ld by lia. rewrite (decide_False (P := n ≠ 0 ∧ _)).
    2:{ intros [Hz E]. destruct gap_next as [?|(z & Hz' & En & _)]; [done|]. pose proof (Hapart z (proj1 (unlink_old z Hz'))). lia. }
    destruct gap_prev as [[-> ->]|(z & Hz' & Ep & Hz & Hl1)].
    + change (nz 0) with false. cbv iota. by rewrite !decide_True.
    + rewrite (proj2 (nz_spec _) Hz). pose proof (Hapart z (proj1 (unlink_old z Hz'))). rewrite !decide_False; [done|lia|].
      intros E. by destruct l1.
Qed.

Lemma unlink_vmap : vmap m' B' map (l1 ++ l2).
Proof.
  assert (Hx : x ∈ l1 ++ x :: l2) by (apply elem_of_app; right; left). pose proof (Hapart x Hx) as Hmx. split.
  - destruct (vm_block _ _ _ _ HV) as (k & Hk & Hle). exists k. split; [|done]. apply HB'; [done|lia].
  - intros y Hy. destruct (unlink_old y Hy) as [Hy1 Hyx]. apply HB'; [|done]. by apply (vm_blocks _ _ _ _ HV).
  - pose proof (vm_nodup _ _ _ _ HV) as Hnd. rewrite fmap_app in Hnd. cbn [fmap list_fmap] in Hnd.
    rewrite <- Permutation_middle, Permutation_swap, <- fmap_app in Hnd. by apply NoDup_cons in Hnd as [_ ?].
  - apply unlink_map_dll.
  - intros y Hy. destruct (unlink_old y Hy) as [Hy1 Hyx]. pose proof (Hapart y Hy1) as Hmy.
    destruct (vm_ents _ _ _ _ HV y Hy1) as [H1 H2 H3 H4 H5 H6].
    assert (He : ∀ a, x_at y + 16 ≤ a < x_at y + 56 → ld m' a = ld m a).
    { intros a Ha. rewrite (He' y) by (done || lia). apply unlinked_same; [|lia]. intros z Hz.
      destruct (decide (x_at y = x_at z)) as [E'|E']; [lia|]. specialize (Heach y z Hy1 (proj1 (unlink_old z Hz)) E'). lia. }
    split; unfold lo32, hi32 in *; rewrite He by lia; done.
  - rewrite Hcount. f_equal. rewrite !length_app. simpl. lia.
  - eapply ordered_remove. apply HV.
Qed.

End unlink.

(** ** [vm_map_remove] *)

(** Words of blocks that do not belong to the map stay, and so do its limits. *)
Definition rest_kept (B : blocks) (map : Z) (l : list ent) (h h' : heap) : Prop :=
  limits_kept map h h' ∧ ∀ q k u a, B !! q = Some (k, u) → q ≤ a < q + k → q ≠ map → q ∉ x_at <$> l → ld (h_mem h') a = ld (h_mem h) a.

Lemma gap_run {A} map e h (R : M heap A) Q :
  (ld (h_mem h) e ≠ 0 → ld (h_mem h) e + 8 ≠ e ∧ ld (h_mem h) e + 8 ≠ e + 8) → map ≠ e → map ≠ e + 8 →
  wp R (set_mem (unlinked (h_mem h) map (ld (h_mem h) e) (ld (h_mem h) (e + 8))) h) Q →
  wp (let! p := e_prev e in let! n := e_next e in
      (if nz p then store (p + 8) n else store map n) ;!
      let! n2 := e_next e in (if nz n2 then let! p2 := e_prev e in store n2 p2 else skip) ;! R) h Q.
Proof.
  intros Hp Hm1 Hm2 HQ. unfold e_prev, e_next, unlinked in *. wp_step. apply wp_load. wp_step. apply wp_load.
  set (p := ld (h_mem h) e) in *. set (n := ld (h_mem h) (e + 8)) in *. wp_step.
  set (m1 := if nz p then st (h_mem h) (p + 8) n else st (h_mem h) map n) in *.
  assert (H1 : ld m1 e = p ∧ ld m1 (e + 8) = n).
  { unfold m1. destruct (nz p) eqn:Ep; [apply nz_spec in Ep; destruct (Hp Ep)|]; by rewrite !ld_st_ne by lia. }
  apply (wp_mono _ _ (λ _ h', h' = set_mem m1 h)).
  - unfold m1. destruct (nz p); by apply wp_store.
  - intros [] ? ->. wp_step. apply wp_load. cbn [h_mem set_mem]. rewrite (proj2 H1). wp_step.
    destruct (nz n); [|by wp_step]. wp_step. apply wp_load. cbn [h_mem set_mem]. rewrite (proj1 H1). by apply wp_store.
Qed.

Lemma u32_s32_pred x : u32 (s32 (u32 x) - 1) = u32 (x - 1).
Proof.
  unfold u32, s32. replace ((x mod 2 ^ 32 + 2 ^ 31) mod 2 ^ 32 - 2 ^ 31 - 1) with ((x mod 2 ^ 32 + 2 ^ 31) mod 2 ^ 32 + (- 1 - 2 ^ 31)) by lia.
  rewrite Zplus_mod_idemp_l. replace (x mod 2 ^ 32 + 2 ^ 31 + (- 1 - 2 ^ 31)) with (x mod 2 ^ 32 + - 1) by lia. apply Zplus_mod_idemp_l.
Qed.

Section remove_step.
Context (h : heap) (L : pa_state) (B : blocks) (map : Z) (l1 l2 : list ent) (x : ent).
Context (HR : krel h L B) (HV : vmap (h_mem h) B map (l1 ++ x :: l2)) (Hobj : x_obj x = 0).

Abbreviation e := (x_at x).

Let m : gmap Z Z := h_mem h.
Let mu : gmap Z Z := unlinked m map (ld m e) (ld m (e + 8)).
Let Hx : x ∈ l1 ++ x :: l2 := proj2 (elem_of_app _ _ _) (or_intror (list_elem_of_here _ _)).
Let Hap := old_apart h L B map _ HR HV.
Let Hea := old_each h L B map _ HR HV.

(** Unlinking writes to the map and to other entries only. *)
Lemma mu_same a :
  (∀ y, y ∈ l1 ++ l2 → a ≠ x_at y ∧ a ≠ x_at y + 8) → a ≠ map → ld mu a = ld m a.
Proof. apply (unlinked_same m B map l1 l2 x HV Hap Hea). Qed.

Lemma mu_block q k u a : B !! q = Some (k, u) → q ≤ a < q + k → q ≠ map → q ∉ x_at <$> l1 ++ l2 → ld mu a = ld m a.
Proof.
  intros Hq Ha Hqm Hql. apply mu_same.
  - intros y Hy. destruct (unlink_old m B map l1 l2 x HV y Hy) as [Hy1 _].
    assert (Hne : q ≠ x_at y) by (intros ->; apply Hql; by apply list_elem_of_fmap_2).
    destruct (krel_apart h L B q k u _ 64 false HR Hq (vm_blocks _ _ _ _ HV y Hy1) Hne); lia.
  - intros ->. destruct (vm_block _ _ _ _ HV) as (nm & Hnm & Hle). destruct (krel_apart h L B q k u _ _ _ HR Hq Hnm Hqm); lia.
Qed.

Lemma mu_krel : krel (set_mem mu h) L B.
Proof.
  apply krel_writes; [done|]. intros a Ha. apply mu_same.
  - intros y Hy. destruct (unlink_old m B map l1 l2 x HV y Hy) as [Hy1 _].
    pose proof (Ha _ _ _ (vm_blocks _ _ _ _ HV y Hy1)). lia.
  - intros ->. destruct (vm_block _ _ _ _ HV) as (nm & Hnm & Hle). apply (Ha _ _ _ Hnm). lia.
Qed.

Lemma gone_from : e ∉ x_at <$> l1 ++ l2.
Proof. intros (y & E & Hy)%list_elem_of_fmap. by destruct (unlink_old m B map l1 l2 x HV y Hy). Qed.

(** After the entry is freed and the count lowered. *)
Section freed.
Context (h2 : heap) (L2 : pa_state) (HR2 : krel h2 L2 (delete e B)) (Hk2 : kept (delete e B) (set_mem mu h) h2).

Let m3 : gmap Z Z := st (h_mem h2) (map + 8) (with_lo (ld (h_mem h2) (map + 8)) (s32 (lo32 (h_mem h2) (map + 8)) - 1)).

Lemma freed_same q k u a : B !! q = Some (k, u) → q ≠ e → q ≤ a < q + k → ld (h_mem h2) a = ld mu a.
Proof.
  intros Hq Hne Ha. apply Hk2. right. right. exists q, k, u. split; [|done]. by apply lookup_delete_Some.
Qed.

Lemma map_word a : map + 8 ≤ a < map + 32 → ld (h_mem h2) a = ld m a.
Proof.
  intros Ha. destruct (vm_block _ _ _ _ HV) as (nm & Hnm & Hle). pose proof (Hap x Hx).
  rewrite (freed_same map nm false) by (done || lia). apply mu_same; [|lia].
  intros y Hy. destruct (unlink_old m B map l1 l2 x HV y Hy) as [Hy1 _]. pose proof (Hap y Hy1). lia.
Qed.

Lemma freed_vmap : vmap m3 (delete e B) map (l1 ++ l2).
Proof.
  destruct (vm_block _ _ _ _ HV) as (nm & Hnm & Hle). pose proof (Hap x Hx).
  apply (unlink_vmap m m3 B map l1 l2 x HV Hap Hea).
  - intros q y Hq Hne. by apply lookup_delete_Some.
  - intros a Ha Hne. unfold m3. rewrite ld_st_ne by lia. apply (freed_same map nm false); [done|lia|lia].
  - intros y a Hy Ha. destruct (unlink_old m B map l1 l2 x HV y Hy) as [Hy1 Hyx]. pose proof (Hap y Hy1).
    unfold m3. rewrite ld_st_ne by lia. apply (freed_same (x_at y) 64 false); [by apply (vm_blocks _ _ _ _ HV)|done|lia].
  - unfold m3, lo32. rewrite ld_st_eq, with_lo_low, map_word by lia.
    pose proof (vm_count _ _ _ _ HV) as Hc. unfold lo32 in Hc. fold m in Hc. rewrite Hc. apply u32_s32_pred.
Qed.

Lemma freed_rest : rest_kept B map (l1 ++ x :: l2) h (set_mem m3 h2).
Proof.
  destruct (vm_block _ _ _ _ HV) as (nm & Hnm & Hle). split.
  - intros a Ha. cbn [h_mem set_mem]. unfold m3. rewrite ld_st_ne by lia. apply map_word. lia.
  - intros q k u a Hq Ha Hqm Hql. cbn [h_mem set_mem]. assert (Hqe : q ≠ e) by (intros ->; apply Hql; by apply list_elem_of_fmap_2).
    unfold m3. rewrite ld_st_ne by (destruct (krel_apart h L B q k u map nm false HR Hq Hnm Hqm); lia).
    rewrite (freed_same q k u) by done. apply (mu_block q k u); try done. intros (y & -> & Hy)%list_elem_of_fmap.
    apply Hql, list_elem_of_fmap_2. by apply (unlink_old m B map l1 l2 x HV).
Qed.

Lemma freed_krel : krel (set_mem m3 h2) L2 (delete e B).
Proof.
  destruct (vm_block _ _ _ _ HV) as (nm & Hnm & Hle). pose proof (Hap x Hx).
  apply (krel_write h2 L2 (delete e B) m3 map nm false); [done|apply lookup_delete_Some; split; [lia|done]|].
  intros a Ha. unfold m3. by rewrite ld_st_ne by lia.
Qed.

End freed.

Lemma remove_step :
  wp (let! p := e_prev e in let! n := e_next e in
      (if nz p then store (p + 8) n else store map n) ;!
      let! n2 := e_next e in (if nz n2 then let! p2 := e_prev e in store n2 p2 else skip) ;!
      let! o := e_object e in (if nz o then vm_object_destroy o else skip) ;!
      entry_free e ;! let! k := map_nentries map in set_nentries map (k - 1)) h
    (λ _ h', ∃ L', krel h' L' (delete e B) ∧ vmap (h_mem h') (delete e B) map (l1 ++ l2) ∧
       rest_kept B map (l1 ++ x :: l2) h h').
Proof.
  pose proof (Hap x Hx) as Hxm. pose proof (vm_blocks _ _ _ _ HV x Hx) as Hxb.
  destruct (vm_block _ _ _ _ HV) as (nm & Hnm & Hle). destruct (block_aligned h L B _ _ _ HR Hnm) as [Hm8 _].
  assert (Hm88 : (map + 8) mod 8 = 0) by (rewrite Z.add_mod, Hm8 by lia; done).
  apply gap_run; [|lia|lia|].
  { intros Hz. destruct (gap_prev m B map l1 l2 x HV Hap Hea) as [[? _]|(y & Hy & Ey & _)]; [done|]. fold m. rewrite Ey.
    destruct (unlink_old m B map l1 l2 x HV y Hy) as [Hy1 Hyx]. destruct (Hea y x Hy1 Hx Hyx); lia. }
  fold m mu. unfold e_object. wp_step. apply wp_load. cbn [h_mem set_mem].
  rewrite (mu_block e 64 false) by (done || lia || apply gone_from).
  unfold m. rewrite (en_obj _ _ (vm_ents _ _ _ _ HV x Hx)), Hobj. change (nz 0) with false. cbv iota. wp_step. wp_step. wp_step.
  unfold entry_free. eapply wp_mono; [apply (kfree_run _ L B e mu_krel)|].
  { exists 64. split; [done|]. left. lia. }
  intros [] h2 (L2 & HR2 & Hk2). unfold map_nentries, set_nentries. wp_step. wp_step. apply wp_load32_lo; [done|].
  wp_step. apply wp_store32_lo; [done|]. exists L2. split_and!; [by apply freed_krel|by apply freed_vmap|by apply freed_rest].
Qed.

End remove_step.

(** The part of the list a walk has left starts where the list says. *)
Lemma vmap_suffix m B map l1 l2 : vmap m B map (l1 ++ l2) → rest_at m l2 (default 0 (head (x_at <$> l2))).
Proof.
  intros HV. pose proof (vm_list _ _ _ _ HV) as Hd. rewrite fmap_app in Hd. destruct l2 as [|x l2]; [by exists 0|].
  cbn [fmap list_fmap] in Hd. destruct (dll_mid _ _ _ _ _ _ _ Hd) as (Hp & Hn & _ & Hx).
  exists (ld m (x_at x)). by split_and!.
Qed.

Definition inside (start end_ : Z) (x : ent) : bool := (start <=? x_lo x) && (x_hi x <=? end_).

(** The blocks of [B] without those of the entries [gone]. *)
Definition without (B : blocks) (gone : list ent) (B' : blocks) : Prop :=
  ∀ q, B' !! q = if decide (q ∈ x_at <$> gone) then None else B !! q.

Lemma without_delete B gone B' x : without B gone B' → without B (gone ++ [x]) (delete (x_at x) B').
Proof.
  intros HB q. destruct (decide (q = x_at x)) as [-> |Hne].
  - rewrite lookup_delete_eq, decide_True; [done|]. rewrite fmap_app. apply elem_of_app. right. left.
  - rewrite lookup_delete_ne, HB by done. apply decide_ext. rewrite fmap_app, elem_of_app. cbn. rewrite list_elem_of_singleton. tauto.
Qed.

Section remove.
Context (h : heap) (L : pa_state) (B : blocks) (map : Z) (l : list ent) (start end_ : Z).
Context (HR : krel h L B) (HV : vmap (h_mem h) B map l).
Context (Hobj : ∀ x, x ∈ l → inside start end_ x = true → x_obj x = 0).

Abbreviation in_range := (λ x, inside start end_ x = true).
Abbreviation out_of_range := (λ x, inside start end_ x = false).

(** After the entries [l1] were visited. *)
Definition removing (l2 : list ent) (e : Z) (h' : heap) : Prop :=
  ∃ l1 L' B', l = l1 ++ l2 ∧ e = default 0 (head (x_at <$> l2)) ∧ krel h' L' B' ∧
    vmap (h_mem h') B' map (filter out_of_range l1 ++ l2) ∧ without B (filter in_range l1) B' ∧ rest_kept B map l h h'.

Lemma rest_kept_step l1 x l2 B' h1 h2 :
  l = l1 ++ x :: l2 → without B (filter in_range l1) B' → rest_kept B map l h h1 →
  rest_kept B' map (filter out_of_range l1 ++ x :: l2) h1 h2 → rest_kept B map l h h2.
Proof.
  intros -> HB [Hl1 H1] [Hl2 H2]. split; [intros a Ha; rewrite Hl2, Hl1; done|].
  intros q k u a Hq Ha Hqm Hql. rewrite <- (H1 q k u a) by done. apply (H2 q k u); [|done|done|].
  - rewrite HB, decide_False; [done|]. intros (y & -> & Hy)%list_elem_of_fmap. apply Hql, list_elem_of_fmap_2.
    apply list_elem_of_filter in Hy as [_ Hy]. apply elem_of_app. by left.
  - intros (y & -> & Hy)%list_elem_of_fmap. apply Hql, list_elem_of_fmap_2. apply elem_of_app in Hy as [Hy|Hy]; apply elem_of_app;
      [left; by apply list_elem_of_filter in Hy as [_ Hy]|by right].
Qed.

Lemma remove_run :
  wp (vm_map_remove map start end_) h (λ r h', r = 0 ∧ ∃ L' B', krel h' L' B' ∧
    vmap (h_mem h') B' map (filter out_of_range l) ∧ without B (filter in_range l) B' ∧ rest_kept B map l h h').
Proof.
  unfold vm_map_remove, map_head. wp_step. apply wp_load. wp_step.
  eapply (wp_mono _ _ (λ _ h', ∃ L' B', krel h' L' B' ∧ vmap (h_mem h') B' map (filter out_of_range l) ∧
    without B (filter in_range l) B' ∧ rest_kept B map l h h')); [|by intros [] h' Hp; wp_step].
  apply (wp_while_ghost removing (λ l2, Z.of_nat (length l2))) with (g := l).
  - intros [|x l2] e h1 (l1 & L1 & B1 & El & -> & HR1 & HV1 & HB1 & Hk1).
    + cbn. change (nz 0) with false. cbv iota. wp_step. rewrite app_nil_r in El, HV1. subst l1. by exists L1, B1.
    + assert (Hx : x ∈ filter out_of_range l1 ++ x :: l2) by (apply elem_of_app; right; left).
      destruct (rest_at_cons _ _ _ _ (vmap_suffix _ _ _ _ _ HV1)) as (_ & Enz & Hrest).
      change (default 0 (head (x_at <$> x :: l2))) with (x_at x) in *.
      rewrite Enz. unfold e_next at 1, e_start, e_end. wp_step. apply wp_load.
      assert (En : ld (h_mem h1) (x_at x + 8) = default 0 (head (x_at <$> l2))).
      { destruct Hrest as [p Hd]. by apply dll_head in Hd. }
      rewrite En. destruct (vm_ents _ _ _ _ HV1 x Hx) as [Hlo Hhi Hob _ _ _].
      wp_step. apply wp_load. wp_step. apply wp_load. rewrite Hlo, Hhi. fold (inside start end_ x).
      destruct (inside start end_ x) eqn:Ein.
      * wp_step. eapply wp_mono; [apply (remove_step h1 L1 B1 map (filter out_of_range l1) l2 x HR1 HV1)|].
        { apply Hobj; [|done]. rewrite El. apply elem_of_app. right. left. }
        intros [] h2 (L2 & HR2 & HV2 & Hk2). wp_step. exists l2. split; [|simpl; lia].
        exists (l1 ++ [x]), L2, (delete (x_at x) B1). rewrite !filter_app, (filter_cons_True in_range), filter_nil, (filter_cons_False out_of_range) by (cbv beta; congruence).
        rewrite filter_nil, app_nil_r, <- app_assoc. split_and!; [done|done|done|done|by apply without_delete|].
        by apply (rest_kept_step l1 x l2 B1 h1).
      * wp_step. wp_step. wp_step. exists l2. split; [|simpl; lia]. exists (l1 ++ [x]), L1, B1.
        rewrite !filter_app, (filter_cons_True out_of_range), (filter_cons_False in_range) by (cbv beta; congruence). rewrite !filter_nil, app_nil_r, <- !app_assoc.
        by split_and!.
  - exists [], L, B. split_and!; try done. by apply (dll_head _ _ _ _ _ (vm_list _ _ _ _ HV)).
  - pose proof (vmap_length h L B map l HR HV). unfold HEAP_SIZE in *. lia.
Qed.

End remove.

(** ** [vm_map_protect] *)

Definition hits (start end_ : Z) (x : ent) : bool := (x_lo x <? end_) && (start <? x_hi x).
Definition reprot (start end_ prot : Z) (x : ent) : ent :=
  if hits start end_ x then Ent (x_at x) (x_lo x) (x_hi x) (x_obj x) (x_off x) prot (x_flags x) else x.

Lemma ordered_same lo l l' : (λ x, (x_lo x, x_hi x)) <$> l = (λ x, (x_lo x, x_hi x)) <$> l' → ordered lo l → ordered lo l'.
Proof.
  revert lo l'. induction l as [|x l IH]; intros lo [|y l'] E Ho; try done. simpl in *. injection E as E1 E2 E.
  destruct Ho as (H1 & H2 & H3). rewrite <- E1, <- E2. split_and!; [done|done|]. by apply IH.
Qed.

Lemma protect_step h L B map l1 x l2 prot :
  krel h L B → vmap (h_mem h) B map (l1 ++ x :: l2) →
  let m' := st (h_mem h) (x_at x + 48) (with_lo (ld (h_mem h) (x_at x + 48)) prot) in
  krel (set_mem m' h) L B ∧
  vmap m' B map (l1 ++ Ent (x_at x) (x_lo x) (x_hi x) (x_obj x) (x_off x) prot (x_flags x) :: l2) ∧
  rest_kept B map (l1 ++ x :: l2) h (set_mem m' h).
Proof.
  intros HR HV m'. set (x' := Ent _ _ _ _ _ _ _). assert (Hx : x ∈ l1 ++ x :: l2) by (apply elem_of_app; right; left).
  pose proof (vm_blocks _ _ _ _ HV x Hx) as Hxb. pose proof (old_apart h L B map _ HR HV) as Hap. pose proof (Hap x Hx) as Hxm.
  pose proof (old_each h L B map _ HR HV) as Hea. destruct (vm_block _ _ _ _ HV) as (nm & Hnm & Hle).
  assert (Hm : ∀ a, a ≠ x_at x + 48 → ld m' a = ld (h_mem h) a) by (intros a Ha; unfold m'; by rewrite ld_st_ne).
  assert (Eat : x_at <$> l1 ++ x' :: l2 = x_at <$> l1 ++ x :: l2) by (by rewrite !fmap_app).
  split_and!.
  - apply (krel_write h L B m' (x_at x) 64 false); [done|done|]. intros a Ha. apply Hm. lia.
  - destruct HV as [H1 H2 H3 H4 H5 H6 H7]. split; rewrite ?Eat; try done.
    + intros y Hy. assert (Hy' : x_at y ∈ x_at <$> l1 ++ x :: l2) by (rewrite <- Eat; by apply list_elem_of_fmap_2).
      apply list_elem_of_fmap in Hy' as (z & -> & Hz). by apply H2.
    + rewrite Hm by lia. eapply dll_ext; [| |exact H4]; intros a (y & -> & Hy)%list_elem_of_fmap; unfold e_links; apply Hm;
        (destruct (decide (x_at y = x_at x)) as [->|E]; [lia|]; destruct (Hea y x Hy Hx E); lia).
    + intros y Hy. assert (y = x' ∨ (y ∈ l1 ++ x :: l2 ∧ x_at y ≠ x_at x)) as [-> |[Hy' Hne]].
      { pose proof (unlink_old (h_mem h) B map l1 l2 x) as Hold. rewrite elem_of_app, elem_of_cons in Hy.
        destruct Hy as [Hy|[->|Hy]]; [right|by left|right]; (apply Hold; [by split|apply elem_of_app; tauto]). }
      * destruct (H5 x Hx) as [Ha Hb Hc Hd He Hf]. split; unfold lo32, hi32 in *; cbn [x_at x_lo x_hi x_obj x_off x_prot x_flags x'];
          rewrite ?Hm by lia; try done; unfold m'; rewrite ld_st_eq; [apply with_lo_low|by rewrite with_lo_high].
      * eapply ent_ok_ext; [|by apply H5]. intros a Ha. apply Hm. destruct (Hea y x Hy' Hx Hne); lia.
    + unfold lo32 in *. rewrite Hm, H6, !length_app by lia. done.
    + eapply ordered_same; [|exact H7]. by rewrite !fmap_app.
  - split; [intros a Ha; apply Hm; lia|]. intros q k u a Hq Ha Hqm Hql. apply Hm.
    assert (Hne : q ≠ x_at x) by (intros ->; apply Hql; by apply list_elem_of_fmap_2).
    destruct (krel_apart h L B q k u _ 64 false HR Hq Hxb Hne); lia.
Qed.

Section protect.
Context (h : heap) (L : pa_state) (B : blocks) (map : Z) (l : list ent) (start end_ prot : Z).
Context (HR : krel h L B) (HV : vmap (h_mem h) B map l).

Definition protecting (l2 : list ent) (e : Z) (h' : heap) : Prop :=
  ∃ l1, l = l1 ++ l2 ∧ e = default 0 (head (x_at <$> l2)) ∧ krel h' L B ∧
    vmap (h_mem h') B map ((reprot start end_ prot <$> l1) ++ l2) ∧ rest_kept B map l h h'.

Lemma reprot_at (k : list ent) : x_at <$> (reprot start end_ prot <$> k) = x_at <$> k.
Proof. rewrite <- list_fmap_compose. apply list_fmap_ext. intros i x _. unfold compose, reprot. by destruct (hits start end_ x). Qed.

Lemma protect_next l1 x l2 h2 :
  l = l1 ++ x :: l2 → krel h2 L B → vmap (h_mem h2) B map ((reprot start end_ prot <$> l1) ++ reprot start end_ prot x :: l2) →
  rest_kept B map l h h2 → ld (h_mem h2) (x_at x + 8) = default 0 (head (x_at <$> l2)) →
  wp (let! n := load (x_at x + 8) in ret (@inl Z unit n)) h2 (λ r s', match r with
    | inl a' => ∃ g', protecting g' a' s' ∧ 0 ≤ Z.of_nat (length g') < Z.of_nat (length (x :: l2))
    | inr _ => krel s' L B ∧ vmap (h_mem s') B map (reprot start end_ prot <$> l) ∧ rest_kept B map l h s' end).
Proof.
  intros El HR2 HV2 Hk2 En. wp_step. apply wp_load. wp_step. exists l2. split; [|simpl; lia]. exists (l1 ++ [x]).
  rewrite <- app_assoc, fmap_app, <- app_assoc. by split_and!.
Qed.

Lemma protect_run :
  wp (vm_map_protect map start end_ prot) h (λ r h', r = 0 ∧ krel h' L B ∧
    vmap (h_mem h') B map (reprot start end_ prot <$> l) ∧ rest_kept B map l h h').
Proof.
  unfold vm_map_protect, map_head. wp_step. apply wp_load. wp_step.
  eapply (wp_mono _ _ (λ _ h', krel h' L B ∧ vmap (h_mem h') B map (reprot start end_ prot <$> l) ∧ rest_kept B map l h h'));
    [|by intros [] h' Hp; wp_step].
  apply (wp_while_ghost protecting (λ l2, Z.of_nat (length l2))) with (g := l).
  - intros [|x l2] e h1 (l1 & El & -> & HR1 & HV1 & Hk1).
    + cbn. change (nz 0) with false. cbv iota. wp_step. rewrite app_nil_r in El, HV1. subst l1. done.
    + destruct (rest_at_cons _ _ _ _ (vmap_suffix _ _ _ _ _ HV1)) as (_ & Enz & p & Hd).
      change (default 0 (head (x_at <$> x :: l2))) with (x_at x) in *. apply dll_head in Hd.
      assert (Hx : x ∈ (reprot start end_ prot <$> l1) ++ x :: l2) by (apply elem_of_app; right; left).
      destruct (block_aligned h1 L B _ _ _ HR1 (vm_blocks _ _ _ _ HV1 x Hx)) as [H8 _].
      assert (H48 : (x_at x + 48) mod 8 = 0) by (rewrite Z.add_mod, H8 by lia; done).
      destruct (vm_ents _ _ _ _ HV1 x Hx) as [Hlo Hhi _ _ _ _]. rewrite Enz. unfold e_start, e_end, e_next.
      wp_step. apply wp_load. wp_step. apply wp_load. rewrite Hlo, Hhi. fold (hits start end_ x).
      assert (Hat : x_at <$> (reprot start end_ prot <$> l1) ++ x :: l2 = x_at <$> l) by (rewrite El, !fmap_app, reprot_at; done).
      wp_step. destruct (hits start end_ x) eqn:Eh.
      * apply wp_store32_lo; [done|]. destruct (protect_step h1 L B map _ x l2 prot HR1 HV1) as (HR2 & HV2 & Hk2).
        apply (protect_next l1); [done|done|by unfold reprot; rewrite Eh| |cbn [h_mem set_mem]; rewrite ld_st_ne by lia; exact Hd].
        destruct Hk1 as [Ha Hb], Hk2 as [Hc He]. split; [intros a Ha'; by rewrite Hc, Ha|].
        intros q k u a Hq Hin Hqm Hql. rewrite (He q k u a), (Hb q k u a); try done. by rewrite Hat.
      * wp_step. apply (protect_next l1); [done|done|by unfold reprot; rewrite Eh|done|exact Hd].
  - exists []. split_and!; try done. by apply (dll_head _ _ _ _ _ (vm_list _ _ _ _ HV)).
  - pose proof (vmap_length h L B map l HR HV). unfold HEAP_SIZE in *. lia.
Qed.

End protect.

(** ** The specification: an ordered list of disjoint ranges *)

Definition mstate (h : heap) (B : blocks) (map lo hi : Z) (l : list ent) : Prop :=
  (∃ L, krel h L B) ∧ vmap (h_mem h) B map l ∧ ld (h_mem h) (map + 16) = lo ∧ ld (h_mem h) (map + 24) = hi.

Inductive mop :=
  | MFixed (obj off addr size prot flags : Z)
  | MFind (obj off addr size prot flags : Z)
  | MRemove (start end_ : Z)
  | MProtect (start end_ prot : Z).

(** What the operations run: the result and the address it is about. *)
Definition run_mop (map : Z) (op : mop) : M heap (Z * Z) :=
  match op with
  | MFixed obj off addr size prot flags => let! r := vm_map_fixed map obj off addr size prot flags in ret (r, addr)
  | MFind obj off addr size prot flags => vm_map_find map obj off addr size prot flags
  | MRemove start end_ => let! r := vm_map_remove map start end_ in ret (r, start)
  | MProtect start end_ prot => let! r := vm_map_protect map start end_ prot in ret (r, start)
  end.

(** What the callers owe: objects are blocks of their own, ranges do not reach
    beyond the address space, and entries are removed after their object was. *)
Definition mop_ok (B : blocks) (map lo : Z) (l : list ent) (op : mop) : Prop :=
  match op with
  | MFixed obj _ addr size _ _ => obj_ok B map obj ∧ 0 ≤ addr ∧ addr + page_round size < 2 ^ 64
  | MFind obj _ addr size _ _ => obj_ok B map obj ∧ 0 ≤ addr < 2 ^ 62 ∧ 0 ≤ size < 2 ^ 62 ∧ 0 ≤ lo < 2 ^ 62
  | MRemove start end_ => ∀ x, x ∈ l → inside start end_ x = true → x_obj x = 0
  | MProtect _ _ _ => True
  end.

(** A range is added at its place, when it is free. *)
Definition added (l : list ent) (addr size obj off prot flags : Z) (l' : list ent) : Prop :=
  ∃ e l1 l2, l = l1 ++ l2 ∧ l' = l1 ++ Ent e addr (addr + page_round size) obj off prot flags :: l2 ∧
    Z.land addr 0xFFF = 0 ∧ 0 < page_round size ∧ ¬ clashes l addr (addr + page_round size).

Inductive mstep (lo hi : Z) (l : list ent) : mop → Z * Z → list ent → Prop :=
  | ms_fixed obj off addr size prot flags l' :
      added l addr size obj off prot flags l' → mstep lo hi l (MFixed obj off addr size prot flags) (0, addr) l'
  | ms_fixed_no obj off addr size prot flags :
      mstep lo hi l (MFixed obj off addr size prot flags) (-1, addr) l
  | ms_find obj off addr size prot flags c l' :
      lo ≤ c → c + page_round size ≤ hi → added l c size obj off prot flags l' →
      mstep lo hi l (MFind obj off addr size prot flags) (0, c) l'
  | ms_find_no obj off addr size prot flags c :
      mstep lo hi l (MFind obj off addr size prot flags) (-1, c) l
  | ms_remove start end_ :
      mstep lo hi l (MRemove start end_) (0, start) (filter (λ x, inside start end_ x = false) l)
  | ms_protect start end_ prot :
      mstep lo hi l (MProtect start end_ prot) (0, start) (reprot start end_ prot <$> l).

Lemma inserted_state h B map lo hi l addr n obj off prot flags h' :
  mstate h B map lo hi l → inserted h B map l addr (addr + n) obj off prot flags h' →
  ∃ e l1 l2 B', l = l1 ++ l2 ∧ mstate h' B' map lo hi (l1 ++ Ent e addr (addr + n) obj off prot flags :: l2).
Proof.
  intros (_ & _ & <- & <-) (e & l1 & l2 & L' & El & _ & HR & HV & _ & Hlim & _).
  exists e, l1, l2, (<[e := (64, false)]> B). split; [done|]. split_and!; [by exists L'|done| |]; apply Hlim; lia.
Qed.

Lemma refused_state h L B map lo hi l h' : mstate h B map lo hi l → refused h L B map l h' → mstate h' B map lo hi l.
Proof.
  intros (_ & HV & <- & <-) (HR & Hk & HV' & _). destruct (vm_block _ _ _ _ HV) as (n & Hn & Hle).
  split_and!; [by exists L|done| |]; apply Hk; right; right; exists map, n, false; (split; [done|lia]).
Qed.

Lemma mop_run h B map lo hi l op :
  mstate h B map lo hi l → mop_ok B map lo l op →
  wp (run_mop map op) h (λ r h', ∃ B' l', mstep lo hi l op r l' ∧ mstate h' B' map lo hi l').
Proof.
  intros HM Hok. pose proof HM as ((L & HR) & HV & Elo & Ehi). destruct op as [obj off addr size prot flags|obj off addr size prot flags|start end_|start end_ prot]; simpl in Hok |- *.
  - destruct Hok as (Ho & Ha & Hov). wp_step. eapply wp_mono; [by apply (fixed_run h L B map l)|].
    intros r h' [(-> & -> & _)|(Hal & Hsz & Hno & [[-> Href]|[-> Hins]])]; wp_step.
    + exists B, l. split; [constructor|done].
    + exists B, l. split; [constructor|by eapply refused_state].
    + destruct (inserted_state _ _ _ _ _ _ _ _ _ _ _ _ _ HM Hins) as (e & l1 & l2 & B' & -> & HM').
      eexists B', _. split; [|exact HM']. constructor. by exists e, l1, l2.
  - destruct Hok as (Ho & Ha & Hs & Hlo). eapply wp_mono; [apply (find_run h L B map l); try done; by rewrite Elo|]. cbv zeta.
    intros [r c] h' [(E & -> & _)|(k & _ & Hn & _ & Hhi & Hmin & Hal & Hno & Hres)]; cbn [fst snd] in *.
    + injection E as -> ->. exists B, l. split; [constructor|done].
    + destruct Hres as [[-> Href]|[-> Hins]]; [exists B, l; split; [constructor|by eapply refused_state]|].
      pose proof (inserted_state _ _ _ _ _ _ _ _ _ _ _ _ _ HM Hins) as (e & l1 & l2 & B' & -> & HM').
      eexists B', _. split; [|exact HM']. constructor; [lia|lia|]. exists e, l1, l2. split_and!; try done.
  - wp_step. eapply wp_mono; [by apply (remove_run h L B map l start end_)|]. intros r h' (-> & L' & B' & HR' & HV' & _ & Hk & _). wp_step.
    exists B', (filter (λ x, inside start end_ x = false) l). split; [constructor|].
    split_and!; [by exists L'|done| |]; [rewrite <- Elo|rewrite <- Ehi]; apply Hk; lia.
  - wp_step. eapply wp_mono; [by apply (protect_run h L B map l start end_ prot)|]. intros r h' (-> & HR' & HV' & Hk & _). wp_step.
    exists B, (reprot start end_ prot <$> l). split; [constructor|].
    split_and!; [by exists L|done| |]; [rewrite <- Elo|rewrite <- Ehi]; apply Hk; lia.
Qed.

(** ** Start-up *)

Lemma init_state h L B map n lo hi h' :
  krel h L B → B !! map = Some (n, false) → 32 ≤ n → vm_map_init map lo hi h = Some (tt, h') → mstate h' B map lo hi [].
Proof.
  intros HR Hn Hle Hrun. destruct (init_vmap h L B map n lo hi HR Hn Hle) as ([] & h1 & Hrun' & HR1 & HV1 & E1 & E2 & _).
  rewrite Hrun in Hrun'. injection Hrun' as <-. split_and!; [by exists L|done..].
Qed.

(** A map after boot, and the same with a page in it. *)
Lemma boot_map : ∃ h B map, mstate h B map 0x10000 0x7FFFF000 [].
Proof.
  destruct (first_kmalloc boot_heap boot_kreach boot_pa_rel) as (h & p & n & Hre & Hn). destruct (kreach_rel _ _ Hre) as [L HR].
  assert (Hp : ({[p := (n, false)]} : blocks) !! p = Some (n, false)) by apply lookup_singleton_eq.
  destruct (init_vmap h L _ p n 0x10000 0x7FFFF000 HR Hp ltac:(lia)) as ([] & h1 & _ & HR1 & HV1 & E1 & E2 & _).
  exists h1, {[p := (n, false)]}, p. split_and!; [by exists L|done..].
Qed.

(** ** Faults *)

(** A process's map and page table, made after boot. *)
Definition with_space {A} (k : Z → Z → M heap A) : M heap A :=
  let! map := kmalloc 32 in vm_map_init map 0x10000 0x7FFFF000 ;! let! p := pml4_create in k map p.

(** The creator's reference to an object is never given back: after its only page
    is unmapped the map is empty and the object still has one. *)
Lemma munmap_leaks_object :
  with_space (λ map p,
    let! r := vm_mmap (Some (map, p)) 0 4096 3 MAP_ANON in
    let! e := map_head map in let! o := e_object e in
    let! r' := vm_munmap (Some (map, p)) r.2 4096 in
    let! e' := map_head map in let! n := obj_refcnt o in ret (r.1, r', e', n)) boot_heap ≫= (λ x, Some x.1) =
  Some (0, 0, 0, 1).
Proof. vm_compute. reflexivity. Qed.

(** Unmapping the first of two pages takes the object from the whole entry, which
    still covers the second. *)
Lemma munmap_part_drops_object :
  with_space (λ map p,
    let! r := vm_mmap (Some (map, p)) 0 8192 3 MAP_ANON in
    let! r' := vm_munmap (Some (map, p)) r.2 4096 in
    let! c := vm_map_covers map (r.2 + 4096) in
    let! e := map_head map in let! o := e_object e in ret (r.1, r', c, o)) boot_heap ≫= (λ x, Some x.1) =
  Some (0, 0, true, 0).
Proof. vm_compute. reflexivity. Qed.

(** The end of a range wraps: the entry ends below its start, and covers nothing. *)
Lemma fixed_range_wraps :
  with_space (λ map _,
    let! r := vm_map_fixed map 0 0 (2 ^ 64 - 4096) 8192 3 MAP_ANON in
    let! e := map_head map in let! s := e_start e in let! t := e_end e in ret (r, s, t)) boot_heap ≫= (λ x, Some x.1) =
  Some (0, 2 ^ 64 - 4096, 4096).
Proof. vm_compute. reflexivity. Qed.

(** ** The properties *)

(** C18: starting from [vm_map_init], every legal [vm_map_fixed], [vm_map_find],
    [vm_map_remove] and [vm_map_protect] returns and takes a step of the
    specification on the ordered list of ranges: a page-aligned range is added at
    its place only when it is free (by [vm_map_find] also within the limits), the
    ranges inside the removed one go, the protection of the ranges hit changes;
    and the result is such a list again, linked in memory in blocks of its own. *)
Theorem map_ops_refine h B map lo hi l op :
  mstate h B map lo hi l → mop_ok B map lo l op →
  ∃ r h' B' l', run_mop map op h = Some (r, h') ∧ mstep lo hi l op r l' ∧ mstate h' B' map lo hi l'.
Proof.
  intros HM Hok. destruct (mop_run h B map lo hi l op HM Hok) as (r & h' & Hrun & B' & l' & Hs & HM').
  by exists r, h', B', l'.
Qed.

Lemma map_ops_refine_witness :
  ∃ h B map r h' B' l', mstate h B map 0x10000 0x7FFFF000 [] ∧
    run_mop map (MFind 0 0 0 5000 3 0x1000) h = Some (r, h') ∧
    mstep 0x10000 0x7FFFF000 [] (MFind 0 0 0 5000 3 0x1000) r l' ∧ mstate h' B' map 0x10000 0x7FFFF000 l'.
Proof.
  destruct boot_map as (h & B & map & HM).
  destruct (map_ops_refine h B map 0x10000 0x7FFFF000 [] (MFind 0 0 0 5000 3 0x1000) HM) as (r & h' & B' & l' & H1 & H2 & H3).
  - split; [by left|]. lia.
  - by exists h, B, map, r, h', B', l'.
Defined.

Lemma ordered_apart lo l i j x y :
  ordered lo l → l !! i = Some x → l !! j = Some y → (i < j)%nat → lo ≤ x_lo x ∧ x_lo x < x_hi x ∧ x_hi x ≤ x_lo y ∧ x_lo y < x_hi y.
Proof.
  revert lo i j. induction l as [|z l IH]; intros lo [|i] [|j] Ho Hi Hj Hij; try (done || lia); simpl in *.
  - injection Hi as ->. destruct Ho as (H1 & H2 & H3). split_and!; [done|done| |].
    + clear IH Hij. revert H3 j Hj. generalize (x_hi x). induction l as [|w l IH]; intros b H3 j Hj; [done|]. destruct H3 as (H4 & H5 & H6).
      destruct j as [|j]; [by injection Hj as ->|]. specialize (IH _ H6 j Hj). lia.
    + revert H3 j Hj Hij. generalize (x_hi x). clear IH. induction l as [|w l IH]; intros b H3 j Hj Hij; [done|]. destruct H3 as (H4 & H5 & H6).
      destruct j as [|j]; [by injection Hj as ->|]. by apply (IH _ H6 j); [|lia].
  - destruct Ho as (H1 & H2 & H3). destruct (IH _ i j H3 Hi Hj ltac:(lia)) as (? & ? & ? & ?). split_and!; lia.
Qed.

(** Looking up an address finds the one entry whose range contains it:
    [vm_map_find_entry] returns its address and [vm_map_covers] says yes; when no
    range contains it they return null and no.  Neither changes anything. *)
Theorem map_lookup h B map lo hi l addr :
  mstate h B map lo hi l →
  (vm_map_find_entry map addr h = Some (0, h) ∧ vm_map_covers map addr h = Some (false, h) ∧
   ∀ x, x ∈ l → ¬ x_lo x ≤ addr < x_hi x) ∨
  (∃ x, x ∈ l ∧ x_lo x ≤ addr < x_hi x ∧ x_at x ≠ 0 ∧
     vm_map_find_entry map addr h = Some (x_at x, h) ∧ vm_map_covers map addr h = Some (true, h) ∧
     ∀ y, y ∈ l → x_lo y ≤ addr < x_hi y → y = x).
Proof.
  intros ((L & HR) & HV & _ & _).
  destruct (find_entry_run h L B map l HR HV addr) as (r & ? & Hr & -> & Er).
  destruct (covers_run h L B map l HR HV addr) as (b & ? & Hb & -> & Eb).
  pose proof (first_ent_spec l (λ s t, (s <=? addr) && (addr <? t))) as Hf.
  destruct (first_ent _ l) as [x|]; [right|left].
  - destruct Hf as [Hx Ht]. assert (Hin : x_lo x ≤ addr < x_hi x) by lia. exists x. subst r.
    assert (b = true) as -> by (apply Eb; eauto). split_and!; try (done || lia).
    + eapply dll_nonnull; [apply HV|]. by apply list_elem_of_fmap_2.
    + intros y Hy Hiny. apply list_elem_of_lookup in Hx as [i Hi], Hy as [j Hj]. pose proof (vm_order _ _ _ _ HV) as Ho.
      destruct (Nat.lt_total i j) as [Hlt|[->|Hlt]]; [|congruence|].
      * pose proof (ordered_apart _ _ _ _ _ _ Ho Hi Hj Hlt). lia.
      * pose proof (ordered_apart _ _ _ _ _ _ Ho Hj Hi Hlt). lia.
  - subst r. assert (b = false) as -> by (destruct b; [|done]; destruct (proj1 Eb eq_refl) as (x & Hx & ?); specialize (Hf x Hx); lia).
    split_and!; [done|done|]. intros x Hx Hin. specialize (Hf x Hx). lia.
Qed.

Lemma map_lookup_witness :
  ∃ h B map, mstate h B map 0x10000 0x7FFFF000 [] ∧ vm_map_covers map 0x20000 h = Some (false, h).
Proof.
  destruct boot_map as (h & B & map & HM). exists h, B, map. split; [done|].
  destruct (map_lookup h B map 0x10000 0x7FFFF000 [] 0x20000 HM) as [(_ & H & _)|(x & Hx & _)]; [done|by apply elem_of_nil in Hx].
Defined.
