(* ===== verification/Fault.v ===== *)
(** * Fault: descriptor tables and the page-fault handler

    [OvsbMk/kernel/idt.c] and [OvsbMk/kernel/tss.c].  The addresses of the entry
    points in assembly are the fields of a class.  The registers CR2 and CR3 are
    an argument and the field [h_cr3]; [lidt], [ltr], [invlpg] and the output on
    the serial line have no counterpart. *)

From Stdlib Require Import ZArith Lia.
From stdpp Require Import gmap list prelude.
From S2P Require Import Prelude KHeap Buddy Slab Paging VmMap.

(** ** The interrupt descriptor table *)

Record idt_entry := mkGate {
  offset_low : Z;
  selector : Z;
  ist : Z;
  type_attr : Z;
  offset_mid : Z;
  offset_high : Z }.

Definition IDT_PRESENT : Z := 0x80.
Definition IDT_INT_GATE : Z := 0x0E.
Definition IDT_TRAP_GATE : Z := 0x0F.
Definition IRQ0 : Z := 32.
Definition IRQ1 : Z := 33.

Definition idt_set_entry (num handler sel flags : Z) (idt : gmap Z idt_entry) : gmap Z idt_entry :=
  <[num := mkGate (Z.land handler 0xFFFF) (u16 sel) 0 (u8 flags)
             (Z.land (Z.shiftr handler 16) 0xFFFF) (Z.land (Z.shiftr handler 32) 0xFFFFFFFF)]> idt.

(** The entry points. *)
Class Vectors := { isr : Z → Z; irq0 : Z; keyboard_irq_handler : Z; mouse_irq_handler : Z; syscall_isr : Z }.

(** [for (i = lo; i < lo + n; i++) idt_set_entry(i, ...)] *)
Fixpoint set_gates (n : nat) (i : Z) (handler : Z → Z) (skip : Z → bool) (idt : gmap Z idt_entry) :
    gmap Z idt_entry :=
  match n with
  | O => idt
  | S n' =>
      set_gates n' (i + 1) handler skip
        (if skip i then idt else idt_set_entry i (handler i) 0x08 (Z.lor IDT_PRESENT IDT_INT_GATE) idt)
  end.

Section vectors.
Context `{Vectors}.

Definition idt_init (idt : gmap Z idt_entry) : gmap Z idt_entry :=
  let idt := set_gates 32 0 isr (λ _, false) idt in
  let idt := idt_set_entry IRQ0 irq0 0x08 (Z.lor IDT_PRESENT IDT_INT_GATE) idt in
  let idt := set_gates 223 33 (λ _, irq0) (λ i, i =? 128) idt in
  idt_set_entry 128 syscall_isr 0x08 (Z.lor (Z.lor IDT_PRESENT IDT_TRAP_GATE) 0x60) idt.

Definition idt_set_irq1 : gmap Z idt_entry → gmap Z idt_entry :=
  idt_set_entry IRQ1 keyboard_irq_handler 0x08 (Z.lor IDT_PRESENT IDT_INT_GATE).
Definition idt_set_irq12 : gmap Z idt_entry → gmap Z idt_entry :=
  idt_set_entry (IRQ0 + 12) mouse_irq_handler 0x08 (Z.lor IDT_PRESENT IDT_INT_GATE).
End vectors.

(** ** The task state segment *)

Definition SIZEOF_TSS : Z := 104.

(** The sixteen bytes of the descriptor, for the segment at [base]. *)
Definition tss_descriptor (base : Z) : list Z :=
  let limit := SIZEOF_TSS - 1 in
  [Z.land limit 0xFF; Z.land (Z.shiftr limit 8) 0xFF;
   Z.land base 0xFF; Z.land (Z.shiftr base 8) 0xFF; Z.land (Z.shiftr base 16) 0xFF;
   0x89; Z.land (Z.shiftr limit 16) 0x0F; Z.land (Z.shiftr base 24) 0xFF;
   Z.land (Z.shiftr base 32) 0xFF; Z.land (Z.shiftr base 40) 0xFF;
   Z.land (Z.shiftr base 48) 0xFF; Z.land (Z.shiftr base 56) 0xFF; 0; 0; 0; 0].

(** ** Page faults *)

Definition mmap_user_k (len : Z) : M heap Z := mmap_user (u64 len).

(** [if (!(table\[i\] & 1)) { t = mmap_user_k(4096); ...; table\[i\] = t | 7; }] *)
Definition fault_table (table i : Z) : M heap Z :=
  let! e := entry table i in
  if present e then ret 0 else
  let! t := mmap_user_k 4096 in
  if negb (nz t) then ret (-1) else
  clear_table t ;!
  set_entry table i (Z.lor t 0x07) ;!
  ret 0.

(** The page of [cr2] gets a fresh frame; [false] on [goto pf_dump]. *)
Definition demand_page (cr2 : Z) : M heap bool :=
  let! p4 := gets h_cr3 in
  let! r4 := fault_table p4 (pml4_index cr2) in
  if r4 <? 0 then ret false else
  let! e4 := entry p4 (pml4_index cr2) in
  let p3 := table_of e4 in
  let! r3 := fault_table p3 (pdpt_index cr2) in
  if r3 <? 0 then ret false else
  let! e3 := entry p3 (pdpt_index cr2) in
  let p2 := table_of e3 in
  let! r2 := fault_table p2 (pd_index cr2) in
  if r2 <? 0 then ret false else
  let! e2 := entry p2 (pd_index cr2) in
  let p1 := table_of e2 in
  let! fr := mmap_user_k 4096 in
  if negb (nz fr) then ret false else
  set_entry p1 (pt_index cr2) (Z.lor fr 0x07) ;!
  ret true.

(** Exception 14, with the map of the current process ([NULL] if it has none):
    whether a page was supplied.  The handler returns in both cases. *)
Definition page_fault (vm_map cr2 err_code : Z) : M heap bool :=
  let! covered := (if nz vm_map then vm_map_covers vm_map cr2 else ret false) in
  if covered && nz (Z.land (Z.shiftr err_code 2) 1) then demand_page cr2 else ret false.

(** The handler returns to the faulting instruction, or stops the machine. *)
Inductive outcome := Retry (fixed : bool) | Halt.

Definition idt_handler (exc_num err_code cr2 vm_map : Z) : M heap outcome :=
  if exc_num =? 14 then
    let! fixed := page_fault vm_map cr2 err_code in ret (Retry fixed)
  else ret Halt.
