(* ===== verification/FaultProof.v ===== *)
(** * FaultProof: gates, and what a page fault does

    The processor reads back the handler that [idt_set_entry] was given; user
    programs can raise only the system-call vector.  A fault on a page of the
    process's map supplies a zeroed frame; a fault anywhere else is answered by
    running the same instruction again, in the same state, for ever; and a fault
    under a 2 MB mapping writes a page-table entry into the mapped data. *)

From Stdlib Require Import ZArith Lia.
From stdpp Require Import gmap list prelude.
From S2P Require Import Prelude KHeap Buddy BuddyInv BuddyProof PageAlloc Slab Paging PagingProof VmMap Fault.

(** ** Gates *)

(** What the processor takes from a gate: the handler and the lowest privilege
    that may raise the vector. *)
Definition gate_offset (g : idt_entry) : Z :=
  offset_low g + offset_mid g * 2 ^ 16 + offset_high g * 2 ^ 32.
Definition gate_dpl (g : idt_entry) : Z := type_attr g / 2 ^ 5 mod 4.

Lemma land_field x k n : 0 ≤ k → 0 ≤ n → Z.land (Z.shiftr x k) (Z.ones n) = x / 2 ^ k mod 2 ^ n.
Proof. intros. by rewrite Z.land_ones, Z.shiftr_div_pow2 by lia. Qed.

(** A 64-bit number is its fields. *)
Lemma split_word x a b : 0 ≤ a → 0 ≤ b → x mod 2 ^ (a + b) = x mod 2 ^ a + x / 2 ^ a mod 2 ^ b * 2 ^ a.
Proof.
  intros Ha Hb. rewrite Z.pow_add_r by done. rewrite Z.rem_mul_r by (apply Z.pow_nonzero || apply Z.pow_pos_nonneg; lia).
  lia.
Qed.

Lemma gate_offset_set num handler sel flags idt :
  0 ≤ handler < 2 ^ 64 →
  ∃ g, idt_set_entry num handler sel flags idt !! num = Some g ∧ gate_offset g = handler ∧
    type_attr g = u8 flags.
Proof.
  intros Hh. eexists. split; [apply lookup_insert_eq|]. split; [|done].
  unfold gate_offset. cbn [offset_low offset_mid offset_high].
  change 0xFFFF with (Z.ones 16). change 0xFFFFFFFF with (Z.ones 32).
  rewrite Z.land_ones, !land_field by lia.
  pose proof (split_word handler 16 16 ltac:(lia) ltac:(lia)). pose proof (split_word handler 32 32 ltac:(lia) ltac:(lia)).
  change (16 + 16) with 32 in *. change (32 + 32) with 64 in *. rewrite (Z.mod_small handler (2 ^ 64)) in * by lia. lia.
Qed.

Lemma set_gates_lookup n i handler skip idt v :
  set_gates n i handler skip idt !! v =
    if decide (i ≤ v < i + Z.of_nat n ∧ skip v = false)
    then idt_set_entry v (handler v) 0x08 (Z.lor IDT_PRESENT IDT_INT_GATE) idt !! v else idt !! v.
Proof.
  revert i idt. induction n as [|n IH]; intros i idt; simpl; [by rewrite decide_False by lia|].
  rewrite IH. destruct (decide (v = i)) as [-> |Hne].
  - rewrite decide_False by lia. destruct (skip i) eqn:E.
    + rewrite decide_False; [done|]. intros [_ ?]. congruence.
    + by rewrite decide_True by (split; [lia|done]).
  - set (idt' := if skip i then _ else _). assert (Hsame : idt' !! v = idt !! v).
    { unfold idt'. destruct (skip i); [done|]. unfold idt_set_entry. by rewrite lookup_insert_ne. }
    unfold idt_set_entry. rewrite !lookup_insert_eq, Hsame.
    destruct (skip v); repeat case_decide; (done || lia || naive_solver lia).
Qed.

Section vectors.
Context `{Vectors}.

(** What [idt_init] leaves in the table, vector by vector. *)
Lemma idt_init_lookup idt v :
  0 ≤ v < 256 →
  idt_init idt !! v =
    if decide (v = 128) then idt_set_entry 128 syscall_isr 0x08 0xEF idt !! 128
    else idt_set_entry v (if decide (v < 32) then isr v else irq0) 0x08 0x8E idt !! v.
Proof.
  intros Hv. unfold idt_init, IRQ0. case_decide as E.
  - subst v. unfold idt_set_entry at 1 3. by rewrite !lookup_insert_eq.
  - unfold idt_set_entry. rewrite lookup_insert_ne by done. rewrite set_gates_lookup.
    unfold idt_set_entry. rewrite !lookup_insert_eq.
    destruct (decide (33 ≤ v < 33 + Z.of_nat 223 ∧ (v =? 128) = false)) as [Hin|Hout].
    + by rewrite (decide_False (P := v < 32)) by lia.
    + destruct (decide (v = 32)) as [-> |Hne].
      * rewrite lookup_insert_eq. by rewrite (decide_False (P := 32 < 32)) by lia.
      * rewrite lookup_insert_ne by done. rewrite set_gates_lookup, decide_True by (split; [lia|done]).
        unfold idt_set_entry. rewrite lookup_insert_eq. by rewrite (decide_True (P := v < 32)) by lia.
Qed.
End vectors.

(** ** The task state segment *)

(** The base and the limit the processor reads from a system descriptor. *)
Definition desc_base (d : list Z) : Z := le_value (take 3 (drop 2 d) ++ take 1 (drop 7 d) ++ take 4 (drop 8 d)).
Definition desc_limit (d : list Z) : Z := le_value (take 2 d).

Lemma tss_base_decoded base : 0 ≤ base < 2 ^ 64 → desc_base (tss_descriptor base) = base.
Proof.
  intros Hb. assert (Hl : take 3 (drop 2 (tss_descriptor base)) ++ take 1 (drop 7 (tss_descriptor base)) ++
    take 4 (drop 8 (tss_descriptor base)) = le_bytes 8 base).
  { unfold tss_descriptor. cbn [take drop app le_bytes]. change 0xFF with (Z.ones 8). unfold u8.
    rewrite <- !Z.land_ones by lia. rewrite !Z.shiftr_shiftr by lia. done. }
  unfold desc_base. rewrite Hl, le_value_bytes. change (2 ^ (8 * Z.of_nat 8)) with (2 ^ 64). by apply Z.mod_small.
Qed.

(** ** Page faults *)

Lemma mmap_user_k_page : mmap_user_k 4096 = table_page.
Proof. done. Qed.

Lemma fault_table_ensure t i : fault_table t i = ensure_pml4_entry t i.
Proof. done. Qed.

(** A fresh frame becomes the page of [va]; its bytes are zero. *)
Definition supplied (h : heap) (L : pa_state) (cr3 va : Z) (h' : heap) : Prop :=
  ∃ idx L', 0 ≤ idx < 16384 ∧ ¬ live_frame L idx ∧ pa_rel h' L' ∧ grows L L' ∧
    walk (h_mem h') cr3 va = Some (fa idx + va mod 2 ^ 12, (true, true)) ∧
    (∀ i, 0 ≤ i < 512 → ld (h_mem h') (fa idx + 8 * i) = 0).

Lemma live_frame_grows h L L' idx :
  pa_rel h L → grows L L' → 0 ≤ idx < 16384 → ¬ live_frame L' idx → ¬ live_frame L idx.
Proof.
  intros HR Hg Hi Hn Hl. apply Hn. assert (Hst : stable L (fa idx)).
  { apply (stable_in _ idx); [done|lia]. }
  apply (Hg _ Hst); [done|lia].
Qed.

Lemma demand_last h L0 L cr3 va e4 e3 e2 :
  lower h L cr3 va e4 e3 e2 → stable L (cr3 + 8 * pml4_index va) → pa_rel h L → grows L0 L →
  (∀ i, 0 ≤ i < 16384 → ¬ live_frame L i → ¬ live_frame L0 i) →
  wp (let! fr := mmap_user_k 4096 in
      if negb (nz fr) then ret false else
      set_entry (table_of e2) (pt_index va) (Z.lor fr 0x07) ;! ret true) h
    (λ r h', (r = false ∧ ∃ L', exhausted h' L' ∧ grows L0 L') ∨ (r = true ∧ supplied h L0 cr3 va h')).
Proof.
  intros HL HS4 HR Hg Hlive. rewrite mmap_user_k_page. wp_step. eapply wp_mono; [by apply table_page_spec|].
  intros r h1 [(-> & HR1 & _ & Hno)|(idx & -> & Hi & Hn & HR1 & Hz & Hc)].
  { change (negb (nz 0)) with true. cbv iota. wp_step. left. split; [done|]. by exists L. }
  rewrite (fa_nz idx) by lia. cbn [negb]. wp_step. apply wp_store. wp_step. right. split; [done|].
  pose proof (fresh_not_in _ _ _ HR Hi Hn) as Hnone. set (L1 := <[idx := (0, true)]> L) in *.
  assert (Hg1 : grows L L1) by (intros a; by apply stable_insert).
  assert (HL1 : lower h1 L1 cr3 va e4 e3 e2).
  { destruct HL as (_ & (E4 & P4 & K4) & (E3 & P3 & K3) & (E2 & P2 & K2)).
    pose proof K4 as (_ & _ & _ & _ & S3 & N3). pose proof K3 as (_ & _ & _ & _ & S2 & _).
    split_and!; try done; try (by eapply entry_ok_grows); by rewrite Hc. }
  destruct (lower_store _ _ _ _ _ _ _ (Z.lor (fa idx) 0x07) HL1) as [HR2 Hw].
  destruct (linked_entry idx Hi) as (Hp & _ & Hhw & _ & B1 & B2).
  exists idx, L1. split_and!; try done; try lia.
  - by apply Hlive.
  - intros a Ha. by apply Hg1, Hg.
  - rewrite Hw, Hp, Hhw, B1, B2. done.
  - intros i Hi'. cbn [h_mem set_mem]. rewrite ld_st_ne; [by apply Hz|].
    destruct HL as (_ & _ & _ & (_ & _ & (_ & _ & _ & _ & S1 & _))).
    intros E. apply (stable_not_fresh _ _ _ Hi Hn S1). lia.
Qed.

Lemma demand_page_spec h L va :
  pa_rel h L → map_path (h_mem h) L (h_cr3 h) va →
  huge (ld (h_mem h) (dir_slot (h_mem h) (h_cr3 h) va)) = false →
  wp (demand_page va) h (λ r h', (r = false ∧ ∃ L', exhausted h' L' ∧ grows L L') ∨
    (r = true ∧ supplied h L (h_cr3 h) va h')).
Proof.
  intros HR HM Hnh. unfold demand_page. wp_step. wp_step. set (cr3 := h_cr3 h) in *.
  apply (upper_levels (ret false) (λ pd,
    let! r2 := fault_table pd (pd_index va) in if r2 <? 0 then ret false else
    let! e2 := entry pd (pd_index va) in
    let! fr := mmap_user_k 4096 in
    if negb (nz fr) then ret false else
    set_entry (table_of e2) (pt_index va) (Z.lor fr 0x07) ;! ret true) h L); try done.
  { intros h' L' Hex Hg. wp_step. left. split; [done|]. by exists L'. }
  intros h1 L1 e4 e3 HU Hg1 Hdir. pose proof (upper_slots _ _ _ _ _ _ HU) as (Hu & _).
  pose proof (up_rel _ _ _ _ _ _ HU) as HR1. set (s2 := table_of e3 + 8 * pd_index va) in *.
  assert (S2 : stable L1 s2) by (apply Hu; by left).
  assert (Hh2 : huge (ld (h_mem h1) s2) = false).
  { destruct (huge (ld (h_mem h1) s2)) eqn:E; [|done]. by rewrite (Hdir eq_refl) in Hnh. }
  rewrite fault_table_ensure. wp_step.
  eapply wp_mono; [apply (ensure_step h1 L1 _ (pd_index va) (pt_index va) _ HR1 Hu S2); [apply index_range; lia|]|].
  { fold s2. intros Hp. by apply (up_ok2 _ _ _ _ _ _ HU). }
  intros r2 h2 [[-> Hex]|(-> & L2 & e2 & Hl & _)]; cbn [Z.ltb Z.compare].
  { wp_step. left. split; [done|]. by exists L1. }
  pose proof (level_lower _ _ _ _ _ _ _ _ _ HU Hl) as HL. destruct Hl as (HR2 & Hg2 & He2 & _).
  fold s2 in He2. wp_step. apply wp_load. fold s2. rewrite He2.
  assert (Hg : grows L L2) by (intros a Ha; by apply Hg2, Hg1).
  eapply wp_mono; [eapply (demand_last h2 L); [exact HL| |done|done|]|].
  - by apply Hg2, (up_s4 _ _ _ _ _ _ HU).
  - intros i Hi Hn. by eapply live_frame_grows.
  - intros r h3 [Hex|[-> Hs]]; [by left|right]. split; [done|]. exact Hs.
Qed.

(** ** The map of a process *)

(** The entries of a map, in the order of their links. *)
Fixpoint entries (m : gmap Z Z) (e : Z) (l : list Z) : Prop :=
  match l with [] => e = 0 | x :: l' => e = x ∧ x ≠ 0 ∧ entries m (ld m (x + 8)) l' end.

Definition in_entry (m : gmap Z Z) (va e : Z) : bool :=
  (ld m (e + 16) <=? va) && (va <? ld m (e + 24)).

Lemma vm_map_covers_run h map va l :
  nz map = true → entries (h_mem h) (ld (h_mem h) map) l → Z.of_nat (length l) < 2 ^ 64 →
  vm_map_covers map va h = Some (existsb (in_entry (h_mem h) va) l, h).
Proof.
  intros Hmap Hl Hlen. unfold vm_map_covers. rewrite Hmap. cbn [negb].
  unfold bind, map_head, load, gets. set (m := h_mem h) in *.
  enough (Hrounds : ∀ l e, entries m e l → ∃ k, (k ≤ S (length l))%nat ∧
    rounds (covers_round va) (existsb (in_entry m va) l) h k e h).
  { destruct (Hrounds l _ Hl) as (k & Hk & Hr). eapply rounds_while; [exact Hr|lia]. }
  intros l'. induction l' as [|x l' IH]; intros e He.
  - exists 1%nat. split; [lia|]. simpl in He. subst e. by apply rounds_last.
  - destruct He as (-> & Hx & He). assert (Hnz : nz x = true) by (by apply nz_spec).
    assert (Hbody : covers_round va x h = Some (if in_entry m va x then inr true else inl (ld m (x + 8)), h)).
    { unfold covers_round. rewrite Hnz. unfold e_start, e_end, e_next, load, bind, gets, in_entry, ret. fold m.
      by case_match. }
    simpl existsb. destruct (in_entry m va x) eqn:Ein; cbn [orb].
    + exists 1%nat. split; [simpl; lia|]. by apply rounds_last.
    + destruct (IH _ He) as (k & Hk & Hr). exists (S k). split; [simpl; lia|].
      eapply rounds_more; [exact Hbody|exact Hr].
Qed.

(** ** An address space for the examples *)

(** The tables of [demo_heap], and a map at 0x5000 with one entry, at 0x6000, for
    the addresses from 0x200000 to 0x400000. *)
Definition fault_heap : heap :=
  set_cr3 0x1000 (set_mem (st (st (st (st (h_mem demo_heap) 0x5000 0x6000) 0x6008 0) 0x6010 0x200000) 0x6018 0x400000)
    demo_heap).

Lemma pa_rel_cr3 h L c : pa_rel h L → pa_rel (set_cr3 c h) L.
Proof. intros (H & [[H1 H2 H3 H4 H5] Hlk] & HL). exists H. split; [|done]. split; [|done]. by split. Qed.

Lemma fault_rel : pa_rel fault_heap ∅.
Proof.
  apply pa_rel_cr3. apply pa_rel_mem; [apply demo_rel|]. intros a Ha.
  rewrite !ld_st_ne; [done|..]; intros <-; apply Ha, outside_stable; unfold HEAP_PHYS; lia.
Qed.

Lemma fault_words a : a < 0x5000 → ld (h_mem fault_heap) a = ld (h_mem demo_heap) a.
Proof. intros Ha. unfold fault_heap. cbn [h_mem set_mem set_cr3]. by rewrite !ld_st_ne by lia. Qed.

Lemma fault_entries : entries (h_mem fault_heap) (ld (h_mem fault_heap) 0x5000) [0x6000].
Proof.
  assert (E1 : ld (h_mem fault_heap) 0x5000 = 0x6000).
  { unfold fault_heap. cbn [h_mem set_mem set_cr3]. rewrite !ld_st_ne by lia. apply ld_st_eq. }
  assert (E2 : ld (h_mem fault_heap) 0x6008 = 0).
  { unfold fault_heap. cbn [h_mem set_mem set_cr3]. rewrite !ld_st_ne by lia. apply ld_st_eq. }
  rewrite E1. cbn [entries]. change (0x6000 + 8) with 0x6008. rewrite E2. split_and!; [reflexivity|lia|reflexivity].
Qed.

Lemma fault_in_entry va :
  in_entry (h_mem fault_heap) va 0x6000 = (0x200000 <=? va) && (va <? 0x400000).
Proof.
  unfold in_entry. assert (E1 : ld (h_mem fault_heap) 0x6010 = 0x200000).
  { unfold fault_heap. cbn [h_mem set_mem set_cr3]. rewrite ld_st_ne by lia. apply ld_st_eq. }
  assert (E2 : ld (h_mem fault_heap) 0x6018 = 0x400000) by apply ld_st_eq.
  by change (0x6000 + 16) with 0x6010; change (0x6000 + 24) with 0x6018; rewrite E1, E2.
Qed.

(** The second directory slot: nothing there yet. *)
Lemma fault_dir : ld (h_mem fault_heap) 0x3008 = 0.
Proof.
  rewrite fault_words by lia. unfold demo_heap. cbn [h_mem set_mem]. rewrite !ld_st_ne by lia.
  vm_compute. reflexivity.
Qed.

Lemma fault_slots :
  ld (h_mem fault_heap) 0x1000 = 0x2007 ∧ ld (h_mem fault_heap) 0x2000 = 0x3007.
Proof. rewrite !fault_words by lia. split; apply demo_words. Qed.

Lemma fault_path : map_path (h_mem fault_heap) ∅ 0x1000 0x200000.
Proof.
  destruct fault_slots as (E1 & E2). pose proof fault_dir as E3.
  assert (HS : ∀ a, 0 ≤ a < HEAP_PHYS → stable ∅ a) by (intros; by apply outside_stable).
  split; change (pml4_index 0x200000) with 0; change (pdpt_index 0x200000) with 0;
    change (pd_index 0x200000) with 1; change (0x1000 + 8 * 0) with 0x1000; cbv zeta; rewrite ?E1;
    change (table_of 0x2007 + 8 * 0) with 0x2000; rewrite ?E2;
    change (table_of 0x3007 + 8 * 1) with 0x3008; rewrite ?E3; clear E1 E2 E3.
  - apply HS. unfold HEAP_PHYS. lia.
  - intros _. split_and!; [lia..|reflexivity|reflexivity|reflexivity| |].
    + apply HS. change (table_of 0x2007) with 0x2000. unfold HEAP_PHYS. lia.
    + change (table_of 0x2007 + 8 * 0) with 0x2000. rewrite not_elem_of_cons, elem_of_nil. lia.
  - intros _ _. split_and!; [lia..|reflexivity|reflexivity|reflexivity| |].
    + apply HS. change (table_of 0x3007) with 0x3000. unfold HEAP_PHYS. lia.
    + change (table_of 0x3007 + 8 * 1) with 0x3008. rewrite !not_elem_of_cons, elem_of_nil. lia.
  - intros _ _ Hp. discriminate Hp.
Qed.

(** ** The properties *)

(** C11: demand paging. A fault from user mode on an address of the process's map
    supplies a page: unless no frame is left, the address then translates to a
    frame that nobody held, writable from user mode and full of zeros (there being
    no 2 MB mapping in the way). *)
Theorem page_fault_supplies h L map va err l :
  pa_rel h L → map_path (h_mem h) L (h_cr3 h) va →
  huge (ld (h_mem h) (dir_slot (h_mem h) (h_cr3 h) va)) = false →
  nz map = true → entries (h_mem h) (ld (h_mem h) map) l → Z.of_nat (length l) < 2 ^ 64 →
  existsb (in_entry (h_mem h) va) l = true → Z.testbit err 2 = true →
  ∃ r h', page_fault map va err h = Some (r, h') ∧
    ((r = false ∧ ∃ L', exhausted h' L' ∧ grows L L') ∨ (r = true ∧ supplied h L (h_cr3 h) va h')).
Proof.
  intros HR HM Hnh Hmap Hl Hlen Hcov Herr. unfold page_fault, bind. rewrite Hmap.
  rewrite (vm_map_covers_run h map va l) by done. rewrite Hcov. cbn [andb].
  replace (nz (Z.land (Z.shiftr err 2) 1)) with true.
  2:{ change 1 with (2 ^ 0). rewrite nz_land_bit, Z.shiftr_spec by lia. done. }
  by apply demand_page_spec.
Qed.

Lemma page_fault_supplies_witness :
  ∃ r h', page_fault 0x5000 0x200000 4 fault_heap = Some (r, h').
Proof.
  destruct (page_fault_supplies fault_heap ∅ 0x5000 0x200000 4 [0x6000]) as (r & h' & E & _).
  - exact fault_rel.
  - exact fault_path.
  - change (h_cr3 fault_heap) with 0x1000. unfold dir_slot. change (pml4_index 0x200000) with 0.
    change (0x1000 + 8 * 0) with 0x1000. rewrite (proj1 fault_slots).
    change (table_of 0x2007 + 8 * pdpt_index 0x200000) with 0x2000. rewrite (proj2 fault_slots).
    change (table_of 0x3007 + 8 * pd_index 0x200000) with 0x3008. rewrite fault_dir. reflexivity.
  - reflexivity.
  - exact fault_entries.
  - reflexivity.
  - cbn [existsb]. rewrite fault_in_entry. reflexivity.
  - reflexivity.
  - exists r, h'. exact E.
Defined.

(** The handler called again and again for the same instruction. *)
Fixpoint faults (n : nat) (err va map : Z) : M heap (list outcome) :=
  match n with
  | O => ret []
  | S n' => let! o := idt_handler 14 err va map in let! os := faults n' err va map in ret (o :: os)
  end.

(** A fault on an address outside the process's map is never resolved nor
    reported: the handler returns with nothing changed, so that the instruction
    faults again, any number of times. *)
Theorem fault_retries_for_ever h map va err l n :
  nz map = true → entries (h_mem h) (ld (h_mem h) map) l → Z.of_nat (length l) < 2 ^ 64 →
  existsb (in_entry (h_mem h) va) l = false →
  faults n err va map h = Some (replicate n (Retry false), h).
Proof.
  intros Hmap Hl Hlen Hcov. induction n as [|n IH]; [done|]. simpl. unfold bind at 1, idt_handler.
  cbn [Z.eqb Pos.eqb]. unfold page_fault, bind. rewrite Hmap, (vm_map_covers_run h map va l) by done.
  rewrite Hcov. cbn [andb ret]. by rewrite IH.
Qed.

Lemma fault_retries_for_ever_witness :
  faults 3 4 0x800000 0x5000 fault_heap = Some ([Retry false; Retry false; Retry false], fault_heap).
Proof.
  apply (fault_retries_for_ever fault_heap 0x5000 0x800000 4 [0x6000] 3).
  - reflexivity.
  - exact fault_entries.
  - reflexivity.
  - cbn [existsb]. rewrite fault_in_entry. reflexivity.
Defined.

(** C39: after [idt_init] every one of the 256 vectors is present and leads to the
    handler it was given; user programs (privilege 3) can raise exactly one of
    them, the system call. *)
Theorem only_syscall_gate_is_user `{Vectors} idt v :
  (∀ i, 0 ≤ isr i < 2 ^ 64) → 0 ≤ irq0 < 2 ^ 64 → 0 ≤ syscall_isr < 2 ^ 64 → 0 ≤ v < 256 →
  ∃ g, idt_init idt !! v = Some g ∧ Z.testbit (type_attr g) 7 = true ∧
    gate_offset g = (if decide (v = 128) then syscall_isr else if decide (v < 32) then isr v else irq0) ∧
    (gate_dpl g = 3 ↔ v = 128).
Proof.
  intros Hisr Hirq Hsys Hv. rewrite idt_init_lookup by done. case_decide as E.
  - subst v. destruct (gate_offset_set 128 syscall_isr 0x08 0xEF idt Hsys) as (g & Eg & Ho & Ht).
    exists g. split; [done|]. unfold gate_dpl. rewrite Ht. split_and!; [done|done|]. split; done.
  - set (hd := if decide (v < 32) then isr v else irq0) in *.
    destruct (gate_offset_set v hd 0x08 0x8E idt) as (g & Eg & Ho & Ht).
    { unfold hd. case_decide; [apply Hisr|done]. }
    exists g. split; [done|]. unfold gate_dpl. rewrite Ht. split_and!; [done|done|].
    split; [|done]. intros Hd. vm_compute in Hd. discriminate Hd.
Qed.

#[local] Instance demo_vectors : Vectors :=
  {| isr i := 0x100000 + 16 * (i mod 32); irq0 := 0x101000; keyboard_irq_handler := 0x102000;
     mouse_irq_handler := 0x103000; syscall_isr := 0x104000 |}.

Lemma only_syscall_gate_is_user_witness :
  ∃ g, idt_init ∅ !! 128 = Some g ∧ gate_offset g = 0x104000 ∧ gate_dpl g = 3.
Proof.
  destruct (only_syscall_gate_is_user ∅ 128) as (g & E & _ & Ho & Hd).
  - intros i. unfold isr, demo_vectors. pose proof (Z.mod_pos_bound i 32 ltac:(lia)). lia.
  - unfold irq0, demo_vectors. lia.
  - unfold syscall_isr, demo_vectors. lia.
  - lia.
  - exists g. split_and!; [exact E|exact Ho|apply Hd; reflexivity].
Defined.

(** A fault under a 2 MB mapping takes the mapped memory for a page table: the
    new entry lands in the data. *)
Lemma fault_writes_into_huge_page h L va e4 e3 :
  pa_rel h L → pd_path (h_mem h) L (h_cr3 h) va e4 e3 →
  let pde := ld (h_mem h) (table_of e3 + 8 * pd_index va) in
  present pde = true → huge pde = true →
  wp (demand_page va) h (λ r h', (r = false ∧ exhausted h' L) ∨
    (r = true ∧ ∃ idx, ld (h_mem h') (table_of pde + 8 * pt_index va) = Z.lor (fa idx) 0x07)).
Proof.
  intros HR [E4 E3 R4 R3 P4 P3 H3 S4 S3 S2 N4 N3] pde Hp Hh.
  assert (Hpt : ∀ t i, present (ld (h_mem h) (t + 8 * i)) = true → fault_table t i h = Some (0, h)).
  { intros t i Hpr. unfold fault_table, entry, load, bind, gets. by rewrite Hpr. }
  unfold demand_page, entry. wp_step. wp_step.
  wp_step. eapply wp_run; [apply Hpt; by rewrite E4|]. cbn [Z.ltb Z.compare]. wp_step. apply wp_load. rewrite E4.
  wp_step. eapply wp_run; [apply Hpt; by rewrite E3|]. cbn [Z.ltb Z.compare]. wp_step. apply wp_load. rewrite E3.
  wp_step. eapply wp_run; [by apply Hpt|]. cbn [Z.ltb Z.compare]. wp_step. apply wp_load. fold pde.
  rewrite mmap_user_k_page. wp_step.
  eapply wp_mono; [by apply table_page_spec|].
  intros r h1 [(-> & HR1 & _ & Hno)|(idx & -> & Hi & _)].
  { change (negb (nz 0)) with true. cbv iota. wp_step. by left. }
  rewrite (fa_nz idx) by lia. cbn [negb]. wp_step. apply wp_store. wp_step. right. split; [done|].
  exists idx. apply ld_st_eq.
Qed.
