(* ===== verification/Fds.v ===== *)
(** * Fds: file descriptors, pipes and sockets of [OvsbMk/kernel/syscall.c]

    The per-process descriptor tables, the pipe and socket buffers and the
    cases of [syscall_handler] that work on them.  A pointer to a descriptor
    table is 0 for [NULL], [k + 1] for [&fd_tables\[k\]] and 65 for [&boot_fds].
    Strings are lists of bytes without the terminating zero.  The device queues
    hold the bytes the keyboard and the mouse have delivered; waiting on an
    empty queue has no result.  Regular files are reached through the interface
    [FileOps].  Log output is left out. *)

From Stdlib Require Import ZArith Lia.
From stdpp Require Import gmap list prelude.
From S2P Require Import Prelude.

Definition MAX_PROC : Z := 64.
Definition MAX_FDS : Z := 16.
Definition MAX_PIPES : Z := 8.
Definition MAX_SOCKS : Z := 16.
Definition SOCK_QUEUE : Z := 8.
Definition O_NONBLOCK : Z := 0x800.
Definition O_CLOEXEC : Z := 0x80000.
Definition FD_FB : Z := 5.
Definition FD_TTY : Z := 6.
Definition FD_MICE : Z := 7.
Definition AF_UNIX : Z := 1.
Definition BOOT_FDS : Z := 65.

(** ** Ring buffers

    Pipes and sockets keep 4096 bytes and two 32-bit positions that only grow. *)
Record ring := mkRing { r_buf : gmap Z Z; r_rpos : Z; r_wpos : Z }.

Definition ring_used (r : ring) : Z := u32 (r_wpos r - r_rpos r).

(** [while (n < count && wpos - rpos < 4096) buf\[wpos++ & 4095\] = ...]: the
    number of bytes taken. *)
Fixpoint ring_push (data : list Z) (r : ring) : Z * ring :=
  match data with
  | [] => (0, r)
  | b :: data' =>
      if ring_used r <? 4096 then
        let r' := mkRing (<[Z.land (r_wpos r) 4095 := b]> (r_buf r)) (r_rpos r)
                    (u32 (r_wpos r + 1)) in
        let '(n, r'') := ring_push data' r' in (n + 1, r'')
      else (0, r)
  end.

(** [while (n < count && rpos != wpos) buf\[n++\] = ...\[rpos++ & 4095\]]. *)
Fixpoint ring_pop (count : nat) (r : ring) : list Z * ring :=
  match count with
  | O => ([], r)
  | S count' =>
      if r_rpos r =? r_wpos r then ([], r) else
      let b := ld (r_buf r) (Z.land (r_rpos r) 4095) in
      let '(bs, r') := ring_pop count' (mkRing (r_buf r) (u32 (r_rpos r + 1)) (r_wpos r)) in
      (b :: bs, r')
  end.

(** ** Tables *)

Record fdent := mkFd {
  fd_used : Z; fd_type : Z; fd_flags : Z; fd_pipe : Z; fd_sock : Z;
  fd_name : list Z; fd_pos : Z; fd_wend : Z; fd_counter : Z }.

Definition zero_fd : fdent := mkFd 0 0 0 0 0 [] 0 0 0.

Definition set_used (v : Z) (e : fdent) : fdent :=
  mkFd v (fd_type e) (fd_flags e) (fd_pipe e) (fd_sock e) (fd_name e) (fd_pos e) (fd_wend e) (fd_counter e).
Definition set_type (v : Z) (e : fdent) : fdent :=
  mkFd (fd_used e) v (fd_flags e) (fd_pipe e) (fd_sock e) (fd_name e) (fd_pos e) (fd_wend e) (fd_counter e).
Definition set_flags (v : Z) (e : fdent) : fdent :=
  mkFd (fd_used e) (fd_type e) v (fd_pipe e) (fd_sock e) (fd_name e) (fd_pos e) (fd_wend e) (fd_counter e).
Definition set_pipe (v : Z) (e : fdent) : fdent :=
  mkFd (fd_used e) (fd_type e) (fd_flags e) v (fd_sock e) (fd_name e) (fd_pos e) (fd_wend e) (fd_counter e).
Definition set_sock (v : Z) (e : fdent) : fdent :=
  mkFd (fd_used e) (fd_type e) (fd_flags e) (fd_pipe e) v (fd_name e) (fd_pos e) (fd_wend e) (fd_counter e).
Definition set_name (v : list Z) (e : fdent) : fdent :=
  mkFd (fd_used e) (fd_type e) (fd_flags e) (fd_pipe e) (fd_sock e) v (fd_pos e) (fd_wend e) (fd_counter e).
Definition set_pos (v : Z) (e : fdent) : fdent :=
  mkFd (fd_used e) (fd_type e) (fd_flags e) (fd_pipe e) (fd_sock e) (fd_name e) v (fd_wend e) (fd_counter e).
Definition set_wend (v : Z) (e : fdent) : fdent :=
  mkFd (fd_used e) (fd_type e) (fd_flags e) (fd_pipe e) (fd_sock e) (fd_name e) (fd_pos e) v (fd_counter e).
Definition set_counter (v : Z) (e : fdent) : fdent :=
  mkFd (fd_used e) (fd_type e) (fd_flags e) (fd_pipe e) (fd_sock e) (fd_name e) (fd_pos e) (fd_wend e) v.

Record pipe := mkPipe { p_used : Z; p_ring : ring }.

Record sock := mkSock {
  s_used : Z; s_path : list Z; s_listening : Z; s_peer : Z; s_nonblock : Z;
  s_pending : list Z; s_ring : ring }.

Definition zero_ring : ring := mkRing ∅ 0 0.
Definition zero_pipe : pipe := mkPipe 0 zero_ring.
Definition zero_sock : sock := mkSock 0 [] 0 0 0 [] zero_ring.

(** The regular files, as [syscall.c] uses them. *)
Class FileOps (F : Type) := {
  use_ext2 : F → bool;
  stat_size : list Z → F → option Z;
  create_file : list Z → F → Z * F;
  write_at : list Z → list Z → Z → F → Z * F;
  read_at : list Z → Z → Z → F → Z * list Z;
  fat_create : list Z → F → Z * F;
  fat_write : list Z → list Z → F → Z * F }.

Record fdstate (F : Type) := mkFdState {
  fs_tables : gmap Z (gmap Z fdent);
  fs_fdtab : Z;
  fs_pipes : gmap Z pipe;
  fs_socks : gmap Z sock;
  fs_kbd : list Z;
  fs_kbd_raw : list Z;
  fs_mice : list Z;
  fs_console : list Z;
  fs_files : F }.
Arguments mkFdState {F}.
Arguments fs_tables {F}.
Arguments fs_fdtab {F}.
Arguments fs_pipes {F}.
Arguments fs_socks {F}.
Arguments fs_kbd {F}.
Arguments fs_kbd_raw {F}.
Arguments fs_mice {F}.
Arguments fs_console {F}.
Arguments fs_files {F}.

(** The first index of a list that satisfies a test, or -1. *)
Fixpoint find_first (f : Z → bool) (l : list Z) : Z :=
  match l with [] => -1 | i :: l' => if f i then i else find_first f l' end.

Definition str_equal (a b : list Z) : bool := bool_decide (a = b).

(** [strncmp(s, p, strlen(p)) == 0] *)
Fixpoint has_prefix (p s : list Z) : bool :=
  match p, s with
  | [], _ => true
  | x :: p', y :: s' => (x =? y) && has_prefix p' s'
  | _ :: _, [] => false
  end.

(** [k_strstr]: the rest of [h] from the first occurrence of [n]. *)
Fixpoint k_strstr (h n : list Z) : option (list Z) :=
  match n with
  | [] => Some h
  | _ :: _ =>
      match h with
      | [] => None
      | _ :: h' => if has_prefix n h then Some h else k_strstr h' n
      end
  end.

Section fds.
Context {F : Type} `{FileOps F}.

Abbreviation FM := (M (fdstate F)).

Definition set_tables (v : gmap Z (gmap Z fdent)) (s : fdstate F) : fdstate F :=
  mkFdState v (fs_fdtab s) (fs_pipes s) (fs_socks s) (fs_kbd s) (fs_kbd_raw s) (fs_mice s) (fs_console s) (fs_files s).
Definition set_fdtab (v : Z) (s : fdstate F) : fdstate F :=
  mkFdState (fs_tables s) v (fs_pipes s) (fs_socks s) (fs_kbd s) (fs_kbd_raw s) (fs_mice s) (fs_console s) (fs_files s).
Definition set_pipes (v : gmap Z pipe) (s : fdstate F) : fdstate F :=
  mkFdState (fs_tables s) (fs_fdtab s) v (fs_socks s) (fs_kbd s) (fs_kbd_raw s) (fs_mice s) (fs_console s) (fs_files s).
Definition set_socks (v : gmap Z sock) (s : fdstate F) : fdstate F :=
  mkFdState (fs_tables s) (fs_fdtab s) (fs_pipes s) v (fs_kbd s) (fs_kbd_raw s) (fs_mice s) (fs_console s) (fs_files s).
Definition set_kbd (v : list Z) (s : fdstate F) : fdstate F :=
  mkFdState (fs_tables s) (fs_fdtab s) (fs_pipes s) (fs_socks s) v (fs_kbd_raw s) (fs_mice s) (fs_console s) (fs_files s).
Definition set_kbd_raw (v : list Z) (s : fdstate F) : fdstate F :=
  mkFdState (fs_tables s) (fs_fdtab s) (fs_pipes s) (fs_socks s) (fs_kbd s) v (fs_mice s) (fs_console s) (fs_files s).
Definition set_mice (v : list Z) (s : fdstate F) : fdstate F :=
  mkFdState (fs_tables s) (fs_fdtab s) (fs_pipes s) (fs_socks s) (fs_kbd s) (fs_kbd_raw s) v (fs_console s) (fs_files s).
Definition set_console (v : list Z) (s : fdstate F) : fdstate F :=
  mkFdState (fs_tables s) (fs_fdtab s) (fs_pipes s) (fs_socks s) (fs_kbd s) (fs_kbd_raw s) (fs_mice s) v (fs_files s).
Definition set_files (v : F) (s : fdstate F) : fdstate F :=
  mkFdState (fs_tables s) (fs_fdtab s) (fs_pipes s) (fs_socks s) (fs_kbd s) (fs_kbd_raw s) (fs_mice s) (fs_console s) v.

(** ** Accesses *)

Definition tab_of (s : fdstate F) (t : Z) : gmap Z fdent := default ∅ (fs_tables s !! t).
Definition fd_of (s : fdstate F) (t i : Z) : fdent := default zero_fd (tab_of s t !! i).
Definition upd_fd (t i : Z) (f : fdent → fdent) (s : fdstate F) : fdstate F :=
  set_tables (<[t := <[i := f (fd_of s t i)]> (tab_of s t)]> (fs_tables s)) s.

(** [fds\[i\]], an access to the current table. *)
Definition fds (i : Z) : FM fdent :=
  assert_ ((0 <=? i) && (i <? MAX_FDS)) ;! gets (λ s, fd_of s (fs_fdtab s) i).
Definition fds_upd (i : Z) (f : fdent → fdent) : FM unit :=
  assert_ ((0 <=? i) && (i <? MAX_FDS)) ;! modify (λ s, upd_fd (fs_fdtab s) i f s).

Definition pipe_at (p : Z) : FM pipe :=
  assert_ ((0 <=? p) && (p <? MAX_PIPES)) ;! gets (λ s, default zero_pipe (fs_pipes s !! p)).
Definition pipe_set (p : Z) (v : pipe) : FM unit :=
  assert_ ((0 <=? p) && (p <? MAX_PIPES)) ;! modify (λ s, set_pipes (<[p := v]> (fs_pipes s)) s).
Definition sock_at (p : Z) : FM sock :=
  assert_ ((0 <=? p) && (p <? MAX_SOCKS)) ;! gets (λ s, default zero_sock (fs_socks s !! p)).
Definition sock_set (p : Z) (v : sock) : FM unit :=
  assert_ ((0 <=? p) && (p <? MAX_SOCKS)) ;! modify (λ s, set_socks (<[p := v]> (fs_socks s)) s).

(** ** Tables of processes *)

Definition fds_tab_addr (slot : Z) : Z :=
  if (slot <? 0) || (MAX_PROC <=? slot) then 0 else slot + 1.

(** The part of [fds_bind_current] that works on the tables: [tab] is the
    process's [fds_tab] and [slot] its slot; the result is its [fds_tab] after. *)
Definition fds_bind (tab slot : Z) : FM Z :=
  if nz tab then modify (set_fdtab tab) ;! ret tab else
  if (slot <? 0) || (MAX_PROC <=? slot) then ret tab else
  let t := slot + 1 in
  for_up 16 0 (λ i, modify (upd_fd t i (λ e, set_type 0 (set_used 0 e)))) ;!
  for_up 3 0 (λ i, modify (upd_fd t i (λ e, set_type 6 (set_used 1 e)))) ;!
  modify (set_fdtab t) ;!
  ret t.

Definition fds_dup_into_slot (child_slot : Z) : FM unit :=
  if (child_slot <? 0) || (MAX_PROC <=? child_slot) then skip else
  modify (λ s, set_tables (<[child_slot + 1 := tab_of s (fs_fdtab s)]> (fs_tables s)) s).

Definition fds_close_exec (tab : Z) : FM unit :=
  if negb (nz tab) then skip else
  for_up 13 3 (λ i, modify (upd_fd tab i (set_used 0))).

Definition syscall_init : FM unit :=
  for_up 16 0 (λ i, fds_upd i (set_used 0)) ;!
  for_up 8 0 (λ i, let! p := pipe_at i in pipe_set i (mkPipe 0 (p_ring p))) ;!
  for_up 16 0 (λ i, let! k := sock_at i in
    sock_set i (mkSock 0 (s_path k) (s_listening k) (-1) (s_nonblock k) [] (s_ring k))).

Definition fds_cleanup : FM unit := for_up 13 3 (λ i, fds_upd i (set_used 0)).

Definition fd_candidates : list Z := [3; 4; 5; 6; 7; 8; 9; 10; 11; 12; 13; 14; 15].

Definition alloc_fd : FM Z :=
  gets (λ s, find_first (λ i, fd_used (fd_of s (fs_fdtab s) i) =? 0) fd_candidates).

(** The names of the device files, ["/dev/fb0"] and so on. *)
Definition dev_fb0 : list Z := [47; 100; 101; 118; 47; 102; 98; 48].
Definition dev_mice : list Z := [47; 100; 101; 118; 47; 105; 110; 112; 117; 116; 47; 109; 105; 99; 101].
Definition dev_tty : list Z := [47; 100; 101; 118; 47; 116; 116; 121].

Definition dev_type (path : list Z) : Z :=
  if str_equal path dev_fb0 then FD_FB
  else if str_equal path dev_mice then FD_MICE
  else if has_prefix dev_tty path then
    match drop 8 path with [c] => if (48 <=? c) && (c <=? 57) then FD_TTY else -1 | _ => -1 end
  else -1.

Definition open_dev (path : list Z) : FM Z :=
  match path with
  | [] => ret (-1)
  | _ =>
      let type := dev_type path in
      if type <? 0 then ret (-1) else
      let! fd := alloc_fd in
      if fd <? 0 then ret (-1) else
      fds_upd fd (λ e, set_used 1 (set_pos 0 (set_flags O_NONBLOCK
        (set_type type (set_name (take 255 path) e))))) ;!
      ret fd
  end.

Definition close_fd (fd : Z) : FM unit :=
  if (3 <=? fd) && (fd <? MAX_FDS) then
    let! e := fds fd in
    if nz (fd_used e) then
      (if fd_type e =? 4 then
         let s := fd_sock e in
         if (0 <=? s) && (s <? MAX_SOCKS) then
           let! k := sock_at s in
           sock_set s (mkSock 0 (s_path k) (s_listening k) (s_peer k) (s_nonblock k)
             (s_pending k) (s_ring k))
         else skip
       else skip) ;!
      fds_upd fd (set_used 0)
    else skip
  else skip.

(** ** Sockets *)

Definition sock_candidates : list Z := [0; 1; 2; 3; 4; 5; 6; 7; 8; 9; 10; 11; 12; 13; 14; 15].

Definition sock_alloc : FM Z :=
  gets (λ s, find_first (λ i, s_used (default zero_sock (fs_socks s !! i)) =? 0) sock_candidates).

Definition sock_by_path (path : list Z) : FM Z :=
  gets (λ s, find_first (λ i,
    let k := default zero_sock (fs_socks s !! i) in
    nz (s_used k) && nz (s_listening k) && str_equal (s_path k) path) sock_candidates).

Definition with_ring (k : sock) (r : ring) : sock :=
  mkSock (s_used k) (s_path k) (s_listening k) (s_peer k) (s_nonblock k) (s_pending k) r.

Definition sock_push (s : Z) (data : list Z) : FM Z :=
  if (s <? 0) || (MAX_SOCKS <=? s) then ret (-1) else
  let! k := sock_at s in
  if negb (nz (s_used k)) then ret (-1) else
  if 4096 <=? ring_used (s_ring k) then
    (if nz (s_nonblock k) then ret (-11) else ret (-1)) else
  let '(n, r) := ring_push data (s_ring k) in
  sock_set s (with_ring k r) ;!
  ret n.

(** The result and the bytes read. *)
Definition sock_pop (s count : Z) : FM (Z * list Z) :=
  if (s <? 0) || (MAX_SOCKS <=? s) then ret (-1, []) else
  let! k := sock_at s in
  if negb (nz (s_used k)) then ret (-1, []) else
  if r_rpos (s_ring k) =? r_wpos (s_ring k) then
    (if nz (s_nonblock k) then ret (-11, []) else ret (0, [])) else
  let '(bs, r) := ring_pop (Z.to_nat count) (s_ring k) in
  sock_set s (with_ring k r) ;!
  ret (Z.of_nat (length bs), bs).

Definition fd_readable (fd : Z) : FM bool :=
  if (3 <=? fd) && (fd <? MAX_FDS) then
    let! e := fds fd in
    if negb (nz (fd_used e)) then ret false else
    if fd_type e =? FD_TTY then gets (λ s, negb (bool_decide (fs_kbd_raw s = []))) else
    if fd_type e =? FD_MICE then gets (λ s, negb (bool_decide (fs_mice s = []))) else
    if fd_type e =? 4 then
      let s := fd_sock e in
      if (0 <=? s) && (s <? MAX_SOCKS) then
        let! k := sock_at s in
        ret (negb (r_rpos (s_ring k) =? r_wpos (s_ring k)) || (0 <? Z.of_nat (length (s_pending k))))
      else ret false
    else ret false
  else ret false.

(** [tabs]: the [fds_tab] of every process that is not [EMPTY]. *)
Definition pipe_writers_alive (tabs : list Z) (p : Z) : FM bool :=
  gets (λ s, existsb (λ t, nz t && existsb (λ j,
    let e := fd_of s t j in
    nz (fd_used e) && (fd_type e =? 3) && (fd_pipe e =? p) && nz (fd_wend e))
    [0; 1; 2; 3; 4; 5; 6; 7; 8; 9; 10; 11; 12; 13; 14; 15]) tabs).
End fds.
