(* ===== verification/FdCalls.v ===== *)
(** * FdCalls: the descriptor system calls of [OvsbMk/kernel/syscall.c]

    [do_write_fd] and the cases of [syscall_handler] for [write], [writev],
    [read], [close], [lseek], [fcntl], [dup], [dup2], [dup3], [pipe], [pipe2],
    eventfd, timerfd, epoll and the AF_UNIX sockets.  Buffers of the caller come
    in as lists of bytes and go out as lists of bytes. *)

From Stdlib Require Import ZArith Lia.
From stdpp Require Import gmap list prelude.
From S2P Require Import Prelude Fds.

Section calls.
Context {F : Type} `{FileOps F}.

Abbreviation FM := (M (fdstate F)).

Definition in_fds (fd : Z) : bool := (0 <=? fd) && (fd <? MAX_FDS).

(** [fd >= 3 && fd < MAX_FDS && fds\[fd\].used] *)
Definition open_high (fd : Z) : FM bool :=
  if (3 <=? fd) && (fd <? MAX_FDS) then let! e := fds fd in ret (nz (fd_used e)) else ret false.

(** ** Writing *)

Definition pipe_write (fd : Z) (e : fdent) (data : list Z) : FM Z :=
  let p := fd_pipe e in
  if (p <? 0) || (MAX_PIPES <=? p) then ret (-1) else
  let! k := pipe_at p in
  if negb (nz (p_used k)) then ret (-1) else
  if 4096 <=? ring_used (p_ring k) then
    (if nz (Z.land (fd_flags e) O_NONBLOCK) then ret (-11) else ret (-1)) else
  let '(n, r) := ring_push data (p_ring k) in
  pipe_set p (mkPipe (p_used k) r) ;!
  ret n.

(** The branch for regular files. *)
Definition file_write (fd : Z) (e : fdent) (data : list Z) : FM Z :=
  let count := Z.of_nat (length data) in
  let! st := gets fs_files in
  if use_ext2 st then
    let size := stat_size (fd_name e) st in
    let '(created, st) :=
      match size with Some _ => (0, st) | None => create_file (fd_name e) st end in
    modify (set_files st) ;!
    if nz created then ret (-1) else
    let cursz := default 0 size in
    let pos := if fd_pos e =? 0 then cursz else fd_pos e in
    fds_upd fd (set_pos pos) ;!
    let '(r, st) := write_at (fd_name e) data pos st in
    modify (set_files st) ;!
    if r <? 0 then ret (-1) else
    fds_upd fd (set_pos (u32 (pos + count))) ;!
    ret count
  else
  let '(r, st) := fat_write (fd_name e) data st in
  let '(r, st) :=
    if r <? 0 then
      let '(c, st) := fat_create (fd_name e) st in
      if c =? 0 then fat_write (fd_name e) data st else (r, st)
    else (r, st) in
  modify (set_files st) ;!
  ret (if 0 <=? r then count else -1).

Definition do_write_fd (fd : Z) (data : list Z) : FM Z :=
  let count := Z.of_nat (length data) in
  let! e := (if in_fds fd then fds fd else ret zero_fd) in
  if in_fds fd && nz (fd_used e) && (fd_type e =? 3) then pipe_write fd e data else
  let! high := open_high fd in
  if high && (fd_type e =? 1) then
    (if 8 <=? count then
       fds_upd fd (set_counter (u64 (fd_counter e + le_value (take 8 data))))
     else skip) ;!
    ret count
  else
  if high && (fd_type e =? 4) then
    let s := fd_sock e in
    if (0 <=? s) && (s <? MAX_SOCKS) then
      let! k := sock_at s in sock_push (s_peer k) data
    else sock_push (-1) data
  else
  if high then file_write fd e data else
  if (fd =? 1) || (fd =? 2) then
    modify (λ s, set_console (fs_console s ++ data) s) ;! ret count
  else ret (-1).

(** [SYS_writev]: the buffers in turn, up to the first error. *)
Fixpoint writev_loop (fd : Z) (iov : list (list Z)) (total : Z) : FM (Z * bool) :=
  match iov with
  | [] => ret (total, false)
  | b :: iov' =>
      let! r := do_write_fd fd b in
      if r <? 0 then ret (total, true) else writev_loop fd iov' (u64 (total + r))
  end.

Definition sys_writev (fd : Z) (iov : list (list Z)) : FM Z :=
  let! r := writev_loop fd iov 0 in
  let '(total, err) := r in
  ret (if err && (total =? 0) then -1 else total).

(** ** Reading *)

(** A read returns a result and bytes, or has to wait for another process. *)
Inductive read_result := RDone (r : Z) (bs : list Z) | RBlock.

Definition pipe_read (tabs : list Z) (e : fdent) (count : Z) : FM read_result :=
  let p := fd_pipe e in
  if (p <? 0) || (MAX_PIPES <=? p) then ret (RDone (-1) []) else
  let! k := pipe_at p in
  if negb (nz (p_used k)) then ret (RDone (-1) []) else
  let empty := r_rpos (p_ring k) =? r_wpos (p_ring k) in
  let! alive := pipe_writers_alive tabs p in
  if nz (Z.land (fd_flags e) O_NONBLOCK) && empty then ret (RDone (-11) []) else
  if negb (nz (Z.land (fd_flags e) O_NONBLOCK)) && empty && alive then ret RBlock else
  let '(bs, r) := ring_pop (Z.to_nat count) (p_ring k) in
  pipe_set p (mkPipe (p_used k) r) ;!
  ret (RDone (Z.of_nat (length bs)) bs).

(** The keyboard line: up to and with a newline, up to and without a ^C. *)
Fixpoint kbd_line (count : nat) (acc : list Z) : FM (list Z) :=
  match count with
  | O => ret acc
  | S count' =>
      let! q := gets fs_kbd in
      match q with
      | [] => stuck
      | c :: q' =>
          modify (set_kbd q') ;!
          if c =? 10 then ret (acc ++ [c])
          else if c =? 3 then ret acc
          else kbd_line count' (acc ++ [c])
      end
  end.

(** A device queue: what is there, else -EAGAIN, else one byte when it comes. *)
Definition device_read (get : fdstate F → list Z) (set : list Z → fdstate F → fdstate F)
    (flags count : Z) : FM read_result :=
  let! q := gets get in
  let bs := take (Z.to_nat count) q in
  modify (set (drop (Z.to_nat count) q)) ;!
  match bs with
  | _ :: _ => ret (RDone (Z.of_nat (length bs)) bs)
  | [] =>
      if nz (Z.land flags O_NONBLOCK) then ret (RDone (-11) []) else
      let! q := gets get in
      match q with
      | [] => stuck
      | c :: q' => modify (set q') ;! ret (RDone 1 [c])
      end
  end.

(** [has_buf]: the caller's buffer pointer is not [NULL]. *)
Definition sys_read (tabs : list Z) (fd count : Z) (has_buf : bool) : FM read_result :=
  let! e := (if in_fds fd then fds fd else ret zero_fd) in
  if in_fds fd && nz (fd_used e) && (fd_type e =? 3) then pipe_read tabs e count else
  if (fd =? 0) && has_buf && (0 <? count) then
    let! q := gets fs_kbd in
    if nz (Z.land (fd_flags e) O_NONBLOCK) && bool_decide (q = []) then ret (RDone (-11) []) else
    let! bs := kbd_line (Z.to_nat count) [] in
    ret (RDone (Z.of_nat (length bs)) bs)
  else
  let! high := open_high fd in
  if negb high then ret (RDone (-1) []) else
  if fd_type e =? FD_TTY then device_read fs_kbd_raw set_kbd_raw (fd_flags e) count else
  if fd_type e =? FD_MICE then device_read fs_mice set_mice (fd_flags e) count else
  if fd_type e =? FD_FB then ret (RDone (-1) []) else
  if fd_type e =? 1 then
    if 8 <=? count then
      fds_upd fd (set_counter 0) ;! ret (RDone count (le_bytes 8 (fd_counter e)))
    else ret (RDone count [])
  else
  if fd_type e =? 2 then
    ret (RDone count (if 8 <=? count then le_bytes 8 1 else []))
  else
  if fd_type e =? 4 then
    let! r := sock_pop (fd_sock e) count in
    let '(n, bs) := r in ret (RDone n bs)
  else
  let! st := gets fs_files in
  let '(r, bs) := read_at (fd_name e) count (fd_pos e) st in
  if r <? 0 then ret (RDone (-1) []) else
  fds_upd fd (set_pos (u32 (fd_pos e + r))) ;!
  ret (RDone r bs).

(** ** Descriptors *)

Definition sys_close (fd : Z) : FM Z := close_fd fd ;! ret 0.

Definition sys_lseek (fd off whence : Z) : FM Z :=
  let! high := open_high fd in
  if negb high then ret (-1) else
  let! e := fds fd in
  if whence =? 0 then fds_upd fd (set_pos (u32 off)) ;! ret (u32 off) else
  if whence =? 1 then
    fds_upd fd (set_pos (u32 (fd_pos e + off))) ;! ret (u32 (fd_pos e + off)) else
  if whence =? 2 then
    let! st := gets fs_files in
    match stat_size (fd_name e) st with
    | Some size => fds_upd fd (set_pos (u32 (size + off))) ;! ret (u32 (size + off))
    | None => ret (fd_pos e)
    end
  else ret (-1).

Definition sys_fcntl (fd cmd arg : Z) : FM Z :=
  if negb (in_fds fd) then ret (-1) else
  let! e := fds fd in
  if cmd =? 1 then ret (if nz (Z.land (fd_flags e) O_CLOEXEC) then 1 else 0) else
  if cmd =? 2 then
    fds_upd fd (set_flags (Z.lor (Z.ldiff (fd_flags e) O_CLOEXEC) (Z.land arg O_CLOEXEC))) ;! ret 0 else
  if cmd =? 3 then ret (fd_flags e) else
  if cmd =? 4 then fds_upd fd (set_flags arg) ;! ret 0 else
  ret (-1).

(** [oldfd < 0 || oldfd >= MAX_FDS || (!fds\[oldfd\].used && oldfd >= 3)] *)
Definition bad_oldfd (oldfd : Z) : FM bool :=
  if negb (in_fds oldfd) then ret true else
  let! e := fds oldfd in ret (negb (nz (fd_used e)) && (3 <=? oldfd)).

Definition sys_dup (oldfd : Z) : FM Z :=
  let! bad := bad_oldfd oldfd in
  if bad then ret (-1) else
  let! nfd := alloc_fd in
  if nfd <? 0 then ret (-1) else
  let! e := fds oldfd in
  fds_upd nfd (λ _, e) ;!
  ret nfd.

(** What [dup2] and [dup3] do to an open target. *)
Definition dup_close (newfd : Z) : FM unit :=
  let! high := open_high newfd in
  if negb high then skip else
  let! e := fds newfd in
  (if fd_type e =? 3 then
     let p := fd_pipe e in
     if (0 <=? p) && (p <? MAX_PIPES) then
       let! k := pipe_at p in pipe_set p (mkPipe 0 (p_ring k))
     else skip
   else skip) ;!
  fds_upd newfd (set_used 0).

Definition sys_dup2 (oldfd newfd : Z) : FM Z :=
  let! bad := bad_oldfd oldfd in
  if bad then ret (-1) else
  if negb (in_fds newfd) then ret (-1) else
  dup_close newfd ;!
  let! e := fds oldfd in
  fds_upd newfd (λ _, e) ;!
  ret newfd.

Definition sys_dup3 (oldfd newfd flags : Z) : FM Z :=
  let! bad := bad_oldfd oldfd in
  if bad then ret (-1) else
  if negb (in_fds newfd) then ret (-1) else
  dup_close newfd ;!
  let! e := fds oldfd in
  fds_upd newfd (λ _, set_flags flags e) ;!
  ret newfd.

Definition pipe_candidates : list Z := [0; 1; 2; 3; 4; 5; 6; 7].

(** [SYS_pipe2]; [SYS_pipe] is the same with [flags] 0.  The result carries the
    pair stored in the caller's array. *)
Definition sys_pipe2 (has_out : bool) (flags : Z) : FM (Z * option (Z * Z)) :=
  if negb has_out then ret (-1, None) else
  let! pi := gets (λ s, find_first
    (λ i, p_used (default zero_pipe (fs_pipes s !! i)) =? 0) pipe_candidates) in
  if pi <? 0 then ret (-1, None) else
  let! rfd := alloc_fd in
  if rfd <? 0 then ret (-1, None) else
  fds_upd rfd (set_used 1) ;!
  let! wfd := alloc_fd in
  if wfd <? 0 then fds_upd rfd (set_used 0) ;! ret (-1, None) else
  fds_upd wfd (set_used 1) ;!
  pipe_set pi (mkPipe 1 zero_ring) ;!
  fds_upd rfd (λ e, set_wend 0 (set_flags flags (set_pipe pi (set_type 3 e)))) ;!
  fds_upd wfd (λ e, set_wend 1 (set_flags flags (set_pipe pi (set_type 3 e)))) ;!
  ret (0, Some (rfd, wfd)).

Definition sys_pipe (has_out : bool) : FM (Z * option (Z * Z)) := sys_pipe2 has_out 0.

(** ** eventfd, timerfd, epoll *)

Definition sys_eventfd (initval : Z) : FM Z :=
  if (initval =? 0) || (initval =? 1) then
    let! fd := alloc_fd in
    if fd <? 0 then ret (-1) else
    fds_upd fd (λ e, set_counter initval (set_type 1 (set_used 1 e))) ;!
    ret fd
  else ret (-1).

Definition sys_timerfd_create : FM Z :=
  let! fd := alloc_fd in
  if fd <? 0 then ret (-1) else
  fds_upd fd (λ e, set_counter 0 (set_type 2 (set_used 1 e))) ;!
  ret fd.

(** [spec]: the four words of the new [itimerspec], or [NULL]. *)
Definition sys_timerfd_settime (fd : Z) (spec : option (Z * Z * Z * Z)) : FM Z :=
  let! high := open_high fd in
  if negb high then ret 0 else
  let! e := fds fd in
  if negb (fd_type e =? 2) then ret 0 else
  let ms := match spec with
    | None => 0
    | Some (isec, insec, vsec, vnsec) =>
        let sec := u64 (u64 (isec * 1000) + insec / 1000000) in
        let value := u64 (u64 (vsec * 1000) + vnsec / 1000000) in
        if nz value then value else sec
    end in
  fds_upd fd (set_counter (if nz ms then ms else 1)) ;!
  ret 0.

Definition sys_timerfd_gettime (fd : Z) (has_out : bool) : FM (Z * option (Z * Z * Z * Z)) :=
  let! high := open_high fd in
  if negb high then ret (0, None) else
  let! e := fds fd in
  if (fd_type e =? 2) && has_out then
    ret (0, Some (0, 0, fd_counter e / 1000, u64 (fd_counter e mod 1000 * 1000000)))
  else ret (0, None).

Definition sys_epoll_create : FM Z :=
  let! fd := alloc_fd in
  if fd <? 0 then ret (-1) else
  fds_upd fd (λ e, set_name [] (set_type 0 (set_used 1 e))) ;!
  ret fd.

(** ** AF_UNIX sockets *)

(** A socket as [socket], [accept] and [socketpair] set it up. *)
Definition fresh_sock (k : sock) (peer : Z) : sock :=
  mkSock 1 [] 0 peer 0 [] (mkRing (r_buf (s_ring k)) 0 0).

Definition sys_socket (domain type : Z) : FM Z :=
  if negb (domain =? AF_UNIX) then ret (-1) else
  let! s := sock_alloc in
  if s <? 0 then ret (-1) else
  let! fd := alloc_fd in
  let! k := sock_at s in
  if fd <? 0 then
    sock_set s (mkSock 0 (s_path k) (s_listening k) (s_peer k) (s_nonblock k) (s_pending k) (s_ring k)) ;!
    ret (-1)
  else
  sock_set s (fresh_sock k (-1)) ;!
  fds_upd fd (λ e, set_flags (if nz (Z.land type O_NONBLOCK) then O_NONBLOCK else 0)
    (set_sock s (set_type 4 (set_used 1 e)))) ;!
  ret fd.

(** The socket index of a socket descriptor. *)
Definition sock_fd (fd : Z) : FM (option Z) :=
  let! high := open_high fd in
  if negb high then ret None else
  let! e := fds fd in
  ret (if fd_type e =? 4 then Some (fd_sock e) else None).

Definition sock_ok (s : Z) : bool := (0 <=? s) && (s <? MAX_SOCKS).

(** [path]: [sun_path] of the address, [None] for a missing address. *)
Definition sys_bind (fd : Z) (path : option (list Z)) : FM Z :=
  let! so := sock_fd fd in
  match so, path with
  | Some s, Some path =>
      if negb (sock_ok s) then ret (-1) else
      let! k := sock_at s in
      sock_set s (mkSock (s_used k) (take 255 path) (s_listening k) (s_peer k) (s_nonblock k)
        (s_pending k) (s_ring k)) ;!
      ret 0
  | _, _ => ret (-1)
  end.

Definition sys_listen (fd : Z) : FM Z :=
  let! so := sock_fd fd in
  match so with
  | None => ret (-1)
  | Some s =>
      (if sock_ok s then
         let! k := sock_at s in
         sock_set s (mkSock (s_used k) (s_path k) 1 (s_peer k) (s_nonblock k) (s_pending k) (s_ring k))
       else skip) ;!
      ret 0
  end.

Definition sys_connect (fd : Z) (path : option (list Z)) : FM Z :=
  let! so := sock_fd fd in
  match so, path with
  | Some s, Some path =>
      let! srv := sock_by_path path in
      if negb (sock_ok s) || (srv <? 0) then ret (-1) else
      let! k := sock_at srv in
      if SOCK_QUEUE <=? Z.of_nat (length (s_pending k)) then ret (-1) else
      let! c := sock_at s in
      sock_set s (mkSock (s_used c) (s_path c) (s_listening c) srv (s_nonblock c) (s_pending c) (s_ring c)) ;!
      let! k := sock_at srv in
      sock_set srv (mkSock (s_used k) (s_path k) (s_listening k) (s_peer k) (s_nonblock k)
        (s_pending k ++ [s]) (s_ring k)) ;!
      ret 0
  | _, _ => ret (-1)
  end.

(** [SYS_accept] and [SYS_accept4]; [flags] is 0 for the former. *)
Definition sys_accept (fd flags : Z) : FM Z :=
  let! so := sock_fd fd in
  match so with
  | None => ret (-1)
  | Some s =>
      if negb (sock_ok s) then ret (-1) else
      let! k := sock_at s in
      match s_pending k with
      | [] => ret (-1)
      | cli :: rest =>
          sock_set s (mkSock (s_used k) (s_path k) (s_listening k) (s_peer k) (s_nonblock k)
            rest (s_ring k)) ;!
          let! nfd := alloc_fd in
          if nfd <? 0 then ret (-1) else
          let! ns := sock_alloc in
          if ns <? 0 then ret (-1) else
          let! n := sock_at ns in
          sock_set ns (fresh_sock n cli) ;!
          let! c := sock_at cli in
          sock_set cli (mkSock (s_used c) (s_path c) (s_listening c) ns (s_nonblock c) (s_pending c) (s_ring c)) ;!
          fds_upd nfd (λ e, set_flags (if nz (Z.land flags O_NONBLOCK) then O_NONBLOCK else 0)
            (set_sock ns (set_type 4 (set_used 1 e)))) ;!
          ret nfd
      end
  end.

Definition sys_sendto (fd : Z) (data : list Z) : FM Z :=
  let! so := sock_fd fd in
  match so with
  | None => ret (-1)
  | Some s =>
      if negb (sock_ok s) then ret (-1) else
      let! k := sock_at s in sock_push (s_peer k) data
  end.

Definition sys_recvfrom (fd count : Z) : FM (Z * list Z) :=
  let! so := sock_fd fd in
  match so with
  | None => ret (-1, [])
  | Some s => if negb (sock_ok s) then ret (-1, []) else sock_pop s count
  end.

(** The result and the pair stored in the caller's array. *)
Definition sys_socketpair (domain : Z) (has_out : bool) : FM (Z * option (Z * Z)) :=
  if negb (domain =? AF_UNIX) || negb has_out then ret (-1, None) else
  let! s1 := sock_alloc in
  let! s2 := sock_alloc in
  let! fd1 := alloc_fd in
  if fd1 <? 0 then ret (-1, None) else
  fds_upd fd1 (set_used 1) ;!
  let! fd2 := alloc_fd in
  if fd2 <? 0 then fds_upd fd1 (set_used 0) ;! ret (-1, None) else
  fds_upd fd2 (set_used 1) ;!
  if (s1 <? 0) || (s2 <? 0) then ret (-1, None) else
  let! k1 := sock_at s1 in
  sock_set s1 (fresh_sock k1 s2) ;!
  let! k2 := sock_at s2 in
  sock_set s2 (fresh_sock k2 s1) ;!
  fds_upd fd1 (λ e, set_flags 0 (set_sock s1 (set_type 4 (set_used 1 e)))) ;!
  fds_upd fd2 (λ e, set_flags 0 (set_sock s2 (set_type 4 (set_used 1 e)))) ;!
  ret (0, Some (fd1, fd2)).

Definition sys_shutdown (fd : Z) : FM Z := ret 0.

(** The bytes written to the caller's address buffer. *)
Definition sys_getsockname (fd : Z) (has_out : bool) : FM (Z * list Z) :=
  let! so := sock_fd fd in
  match so with
  | None => ret (-1, [])
  | Some s =>
      if has_out && sock_ok s then
        let! k := sock_at s in
        ret (0, [AF_UNIX; 0] ++ take 254 (s_path k) ++ [0])
      else ret (0, [])
  end.
End calls.
