(* ===== verification/FdProof.v ===== *)
(** * FdProof: pipes and sockets are queues

    The ring buffers behind pipes and sockets implement a bounded queue of
    bytes, across the wrap-around of their 32-bit positions; a pipe delivers
    what was written to it; and the exact behaviour of [socketpair] and of
    [dup2] on its own descriptor. *)

From Stdlib Require Import ZArith Lia.
From stdpp Require Import gmap list prelude.
From S2P Require Import Prelude Fds FdCalls.

(** ** The abstract queue of a ring buffer *)

Record ring_ok (r : ring) : Prop := {
  ro_r : 0 ≤ r_rpos r < 2 ^ 32;
  ro_w : 0 ≤ r_wpos r < 2 ^ 32;
  ro_used : ring_used r ≤ 4096 }.

Definition ring_byte (r : ring) (i : Z) : Z := ld (r_buf r) ((r_rpos r + i) mod 4096).

Definition contents (r : ring) : list Z := ring_byte r <$> seqZ 0 (ring_used r).

Lemma land_4095 x : Z.land x 4095 = x mod 4096.
Proof. apply (Z.land_ones x 12). lia. Qed.

Lemma mod_mod_4096 x : u32 x mod 4096 = x mod 4096.
Proof.
  unfold u32. change (2 ^ 32) with (4096 * 2 ^ 20). rewrite Z.rem_mul_r by lia.
  rewrite Z.mul_comm, Z.mod_add by lia. by rewrite Z.mod_mod.
Qed.

Lemma u32_shift x y d : 0 ≤ u32 (x - y) → u32 (x + d - y) = u32 (u32 (x - y) + d).
Proof.
  intros _. unfold u32. rewrite Zplus_mod_idemp_l. f_equal. lia.
Qed.

Lemma u32_u32 x y : u32 (u32 x - y) = u32 (x - y).
Proof. unfold u32. by rewrite Zminus_mod_idemp_l. Qed.
Lemma u32_u32_r x y : u32 (x - u32 y) = u32 (x - y).
Proof. unfold u32. by rewrite Zminus_mod_idemp_r. Qed.

Lemma contents_length r : Z.of_nat (length (contents r)) = ring_used r.
Proof.
  unfold contents. rewrite length_fmap, length_seqZ. pose proof (u32_range (r_wpos r - r_rpos r)).
  unfold ring_used in *. lia.
Qed.

(** ** One byte in *)

Definition push1 (b : Z) (r : ring) : ring :=
  mkRing (<[Z.land (r_wpos r) 4095 := b]> (r_buf r)) (r_rpos r) (u32 (r_wpos r + 1)).

Lemma push1_used b r : ring_ok r → ring_used r < 4096 → ring_used (push1 b r) = ring_used r + 1.
Proof.
  intros [Hr Hw Hu] Hlt. pose proof (u32_range (r_wpos r - r_rpos r)).
  unfold ring_used, push1 in *. cbn [r_wpos r_rpos]. rewrite u32_u32.
  rewrite u32_shift by lia. rewrite u32_small; lia.
Qed.

Lemma wpos_mod r : ring_ok r → r_wpos r mod 4096 = (r_rpos r + ring_used r) mod 4096.
Proof.
  intros _. unfold ring_used. rewrite <- (Z.mod_mod (r_rpos r + _)) by lia.
  rewrite <- Zplus_mod_idemp_r, mod_mod_4096, Zplus_mod_idemp_r.
  rewrite Z.mod_mod by lia. f_equal. lia.
Qed.

Lemma push1_ok b r : ring_ok r → ring_used r < 4096 → ring_ok (push1 b r).
Proof.
  intros Hok Hlt. pose proof (push1_used b r Hok Hlt) as Hu. destruct Hok as [Hr Hw _].
  split; [done|apply u32_range|lia].
Qed.

Lemma push1_contents b r :
  ring_ok r → ring_used r < 4096 → contents (push1 b r) = contents r ++ [b].
Proof.
  intros Hok Hlt. unfold contents. rewrite push1_used by done.
  pose proof (u32_range (r_wpos r - r_rpos r)) as Hn. fold (ring_used r) in Hn.
  rewrite seqZ_app by lia. rewrite fmap_app. f_equal.
  - apply list_fmap_ext. intros k i Hi%list_elem_of_lookup_2%elem_of_seqZ.
    unfold ring_byte, push1, ld. cbn [r_buf r_rpos]. rewrite lookup_insert_ne; [done|].
    rewrite land_4095, wpos_mod by done. intros E.
    pose proof (Z.div_mod (r_rpos r + ring_used r) 4096 ltac:(lia)).
    pose proof (Z.div_mod (r_rpos r + i) 4096 ltac:(lia)). rewrite E in *. lia.
  - change (seqZ (0 + ring_used r) 1) with [0 + ring_used r]. cbn [fmap list_fmap]. f_equal.
    unfold ring_byte, push1, ld. cbn [r_buf r_rpos].
    rewrite land_4095, wpos_mod, Z.add_0_l, lookup_insert_eq by done. done.
Qed.

(** ** One byte out *)

Definition pop1 (r : ring) : ring := mkRing (r_buf r) (u32 (r_rpos r + 1)) (r_wpos r).

Lemma used_zero r : ring_ok r → r_rpos r = r_wpos r ↔ ring_used r = 0.
Proof.
  intros [Hr Hw _]. unfold ring_used. split; [by intros -> ; rewrite Z.sub_diag|].
  intros E. unfold u32 in E. apply Z.mod_divide in E as [k Hk]; [|lia]. lia.
Qed.

Lemma pop1_used r : ring_ok r → 0 < ring_used r → ring_used (pop1 r) = ring_used r - 1.
Proof.
  intros [Hr Hw Hu] Hlt. pose proof (u32_range (r_wpos r - r_rpos r)).
  unfold ring_used, pop1 in *. cbn [r_wpos r_rpos]. rewrite u32_u32_r.
  replace (r_wpos r - (r_rpos r + 1)) with (r_wpos r + (-1) - r_rpos r) by lia.
  rewrite u32_shift by lia. rewrite u32_small; lia.
Qed.

Lemma pop1_ok r : ring_ok r → 0 < ring_used r → ring_ok (pop1 r).
Proof.
  intros Hok Hlt. pose proof (pop1_used r Hok Hlt) as Hu. destruct Hok as [Hr Hw ?].
  split; [apply u32_range|done|lia].
Qed.

Lemma pop1_contents r :
  ring_ok r → 0 < ring_used r →
  contents r = ld (r_buf r) (Z.land (r_rpos r) 4095) :: contents (pop1 r).
Proof.
  intros Hok Hlt. unfold contents. rewrite pop1_used by done. rewrite seqZ_cons by lia.
  cbn [fmap list_fmap]. f_equal.
  - unfold ring_byte. by rewrite Z.add_0_r, land_4095.
  - replace (seqZ (Z.succ 0) (Z.pred (ring_used r)))
      with (Z.add 1 <$> seqZ 0 (ring_used r - 1)) by (rewrite fmap_add_seqZ; f_equal; lia).
    rewrite <- list_fmap_compose. apply list_fmap_ext. intros k i _. simpl.
    unfold ring_byte, pop1. cbn [r_buf r_rpos]. f_equal.
    rewrite <- (Zplus_mod_idemp_l (u32 _)), mod_mod_4096, Zplus_mod_idemp_l. f_equal. lia.
Qed.

(** ** Runs of bytes *)

Lemma ring_push_spec data r :
  ring_ok r →
  let '(n, r') := ring_push data r in
  n = Z.min (Z.of_nat (length data)) (4096 - ring_used r) ∧ ring_ok r' ∧
  contents r' = contents r ++ take (Z.to_nat n) data.
Proof.
  revert r. induction data as [|b data IH]; intros r Hok; simpl.
  - destruct Hok as [? ? Hu]. split_and!; [lia|done|by rewrite app_nil_r].
  - destruct (Z.ltb_spec (ring_used r) 4096) as [Hlt|Hge].
    + fold (push1 b r). specialize (IH (push1 b r) (push1_ok b r Hok Hlt)).
      destruct (ring_push data (push1 b r)) as [n r'].
      rewrite push1_used, push1_contents in IH by done. destruct IH as (-> & Hok' & Hc).
      split_and!; [lia|done|]. rewrite Hc, <- app_assoc. f_equal.
      replace (Z.to_nat (_ + 1)) with (S (Z.to_nat (Z.min (Z.of_nat (length data)) (4096 - (ring_used r + 1))))) by lia.
      done.
    + destruct Hok as [? ? Hu]. split_and!; [lia|done|by rewrite app_nil_r].
Qed.

Lemma ring_pop_spec count r :
  ring_ok r →
  let '(bs, r') := ring_pop count r in
  ring_ok r' ∧ bs = take count (contents r) ∧ contents r' = drop count (contents r).
Proof.
  revert r. induction count as [|count IH]; intros r Hok; simpl.
  - by rewrite drop_0.
  - pose proof (u32_range (r_wpos r - r_rpos r)) as Hn. fold (ring_used r) in Hn.
    destruct (Z.eqb_spec (r_rpos r) (r_wpos r)) as [E|E].
    + apply used_zero in E; [|done]. assert (contents r = []) as ->; [|done].
      unfold contents. by rewrite E.
    + assert (Hlt : 0 < ring_used r).
      { destruct (decide (ring_used r = 0)) as [E'|]; [|lia]. by apply used_zero in E'. }
      fold (pop1 r). specialize (IH (pop1 r) (pop1_ok r Hok Hlt)).
      destruct (ring_pop count (pop1 r)) as [bs r']. destruct IH as (Hok' & -> & Hc).
      rewrite (pop1_contents r) by done. by split_and!.
Qed.

(** ** Sequences of operations against the abstract queue *)

Inductive qop := QPush (data : list Z) | QPop (count : nat).

(** The bounded queue: what an operation answers, and the queue after it. *)
Definition queue_step (op : qop) (q : list Z) : (Z * list Z) * list Z :=
  match op with
  | QPush data =>
      let n := Z.min (Z.of_nat (length data)) (4096 - Z.of_nat (length q)) in
      ((n, []), q ++ take (Z.to_nat n) data)
  | QPop count => ((Z.of_nat (length (take count q)), take count q), drop count q)
  end.

Definition ring_step (op : qop) (r : ring) : (Z * list Z) * ring :=
  match op with
  | QPush data => let '(n, r') := ring_push data r in ((n, []), r')
  | QPop count => let '(bs, r') := ring_pop count r in ((Z.of_nat (length bs), bs), r')
  end.

Fixpoint run_ops {S} (step : qop → S → (Z * list Z) * S) (ops : list qop) (s : S) : list (Z * list Z) * S :=
  match ops with
  | [] => ([], s)
  | op :: ops' =>
      let '(out, s') := step op s in
      let '(outs, s'') := run_ops step ops' s' in (out :: outs, s'')
  end.

Lemma ring_step_sim op r :
  ring_ok r →
  let '(out, r') := ring_step op r in
  ring_ok r' ∧ queue_step op (contents r) = (out, contents r').
Proof.
  intros Hok. destruct op as [data|count]; simpl.
  - pose proof (ring_push_spec data r Hok) as Hp. destruct (ring_push data r) as [n r'].
    destruct Hp as (-> & Hok' & ->). split; [done|]. by rewrite contents_length.
  - pose proof (ring_pop_spec count r Hok) as Hp. destruct (ring_pop count r) as [bs r'].
    destruct Hp as (Hok' & -> & ->). done.
Qed.

(** ** Descriptor tables *)

Section tables.
Context {F : Type} `{FileOps F}.
Implicit Types s : fdstate F.

Lemma fd_of_upd t i f s t' j :
  fd_of (upd_fd t i f s) t' j = if decide (t = t' ∧ i = j) then f (fd_of s t i) else fd_of s t' j.
Proof.
  unfold fd_of, upd_fd, tab_of. cbn [fs_tables set_tables].
  destruct (decide (t = t')) as [<-|Hne].
  - rewrite lookup_insert_eq. simpl. destruct (decide (i = j)) as [<-|].
    + by rewrite lookup_insert_eq, decide_True.
    + rewrite lookup_insert_ne, decide_False by tauto. done.
  - rewrite lookup_insert_ne, decide_False by tauto. done.
Qed.

Lemma fdtab_upd t i f s : fs_fdtab (upd_fd t i f s) = fs_fdtab s.
Proof. done. Qed.

Lemma fdtab_set_pipes v s : fs_fdtab (set_pipes v s) = fs_fdtab s.
Proof. done. Qed.
Lemma fdtab_set_socks v s : fs_fdtab (set_socks v s) = fs_fdtab s.
Proof. done. Qed.
Lemma fd_of_set_pipes v s t i : fd_of (set_pipes v s) t i = fd_of s t i.
Proof. done. Qed.
Lemma fd_of_set_socks v s t i : fd_of (set_socks v s) t i = fd_of s t i.
Proof. done. Qed.

Lemma find_first_spec (f : Z → bool) l :
  (find_first f l = -1 ∧ ∀ i, i ∈ l → f i = false) ∨
  (find_first f l ∈ l ∧ f (find_first f l) = true).
Proof.
  induction l as [|i l IH]; simpl; [left; split; [done|]; by intros i ?%elem_of_nil|].
  destruct (f i) eqn:Hf; [right; split; [by left|done]|].
  destruct IH as [[E Hno]|[Hin Hf']]; [left|right].
  - split; [done|]. intros j [-> |Hj]%elem_of_cons; [done|by apply Hno].
  - split; [by right|done].
Qed.

Lemma candidate_range i : i ∈ fd_candidates → 3 ≤ i < 16.
Proof.
  unfold fd_candidates. rewrite !elem_of_cons, elem_of_nil. lia.
Qed.

(** [alloc_fd] finds a free descriptor of the current table, or there is none. *)
Lemma wp_alloc_fd s (Q : Z → fdstate F → Prop) :
  ((∀ i, i ∈ fd_candidates → fd_used (fd_of s (fs_fdtab s) i) ≠ 0) → Q (-1) s) →
  (∀ i, 3 ≤ i < 16 → fd_used (fd_of s (fs_fdtab s) i) = 0 → Q i s) →
  wp alloc_fd s Q.
Proof.
  intros Hnone Hsome. apply wp_gets.
  destruct (find_first_spec (λ i, fd_used (fd_of s (fs_fdtab s) i) =? 0) fd_candidates)
    as [[-> Hno]|[Hin Hf]].
  - apply Hnone. intros i Hi. specialize (Hno i Hi). by apply Z.eqb_neq.
  - apply Hsome; [by apply candidate_range|by apply Z.eqb_eq].
Qed.

Lemma wp_fds i s (Q : fdent → fdstate F → Prop) :
  0 ≤ i < 16 → Q (fd_of s (fs_fdtab s) i) s → wp (fds i) s Q.
Proof.
  intros Hi HQ. unfold fds, MAX_FDS. wp_step. apply wp_assert; [lia|]. by apply wp_gets.
Qed.
Lemma wp_fds_upd i f s (Q : unit → fdstate F → Prop) :
  0 ≤ i < 16 → Q tt (upd_fd (fs_fdtab s) i f s) → wp (fds_upd i f) s Q.
Proof.
  intros Hi HQ. unfold fds_upd, MAX_FDS. wp_step. apply wp_assert; [lia|]. by apply wp_modify.
Qed.
Lemma wp_pipe_at p s (Q : pipe → fdstate F → Prop) :
  0 ≤ p < 8 → Q (default zero_pipe (fs_pipes s !! p)) s → wp (pipe_at p) s Q.
Proof.
  intros Hp HQ. unfold pipe_at, MAX_PIPES. wp_step. apply wp_assert; [lia|]. by apply wp_gets.
Qed.
Lemma wp_pipe_set p v s (Q : unit → fdstate F → Prop) :
  0 ≤ p < 8 → Q tt (set_pipes (<[p := v]> (fs_pipes s)) s) → wp (pipe_set p v) s Q.
Proof.
  intros Hp HQ. unfold pipe_set, MAX_PIPES. wp_step. apply wp_assert; [lia|]. by apply wp_modify.
Qed.
Lemma wp_sock_at p s (Q : sock → fdstate F → Prop) :
  0 ≤ p < 16 → Q (default zero_sock (fs_socks s !! p)) s → wp (sock_at p) s Q.
Proof.
  intros Hp HQ. unfold sock_at, MAX_SOCKS. wp_step. apply wp_assert; [lia|]. by apply wp_gets.
Qed.
Lemma wp_sock_set p v s (Q : unit → fdstate F → Prop) :
  0 ≤ p < 16 → Q tt (set_socks (<[p := v]> (fs_socks s)) s) → wp (sock_set p v) s Q.
Proof.
  intros Hp HQ. unfold sock_set, MAX_SOCKS. wp_step. apply wp_assert; [lia|]. by apply wp_modify.
Qed.

Lemma wp_open_high i s (Q : bool → fdstate F → Prop) :
  3 ≤ i < 16 → Q (nz (fd_used (fd_of s (fs_fdtab s) i))) s → wp (open_high i) s Q.
Proof.
  intros Hi HQ. unfold open_high, MAX_FDS. replace ((3 <=? i) && (i <? 16)) with true by lia.
  wp_step. apply wp_fds; [lia|]. by wp_step.
Qed.

(** ** Pipes *)

(** The two ends of pipe [p] in the current table. *)
Definition pipe_ends (s : fdstate F) (p rfd wfd flags : Z) : Prop :=
  0 ≤ p < 8 ∧ 3 ≤ rfd < 16 ∧ 3 ≤ wfd < 16 ∧ rfd ≠ wfd ∧
  (let e := fd_of s (fs_fdtab s) rfd in
   fd_used e = 1 ∧ fd_type e = 3 ∧ fd_pipe e = p ∧ fd_flags e = flags ∧ fd_wend e = 0) ∧
  (let e := fd_of s (fs_fdtab s) wfd in
   fd_used e = 1 ∧ fd_type e = 3 ∧ fd_pipe e = p ∧ fd_flags e = flags ∧ fd_wend e = 1).

Definition pipe_holds (s : fdstate F) (p : Z) (q : list Z) : Prop :=
  ∃ k, fs_pipes s !! p = Some k ∧ p_used k = 1 ∧ ring_ok (p_ring k) ∧ contents (p_ring k) = q.

Lemma sys_pipe2_spec s flags :
  wp (sys_pipe2 true flags) s (λ r s',
    (r = (-1, None)) ∨
    ∃ p rfd wfd, r = (0, Some (rfd, wfd)) ∧ pipe_ends s' p rfd wfd flags ∧ pipe_holds s' p [] ∧
      fs_fdtab s' = fs_fdtab s ∧
      fd_used (fd_of s (fs_fdtab s) rfd) = 0 ∧ fd_used (fd_of s (fs_fdtab s) wfd) = 0).
Proof.
  unfold sys_pipe2. cbn [negb]. wp_step. wp_step.
  destruct (find_first_spec (λ i, p_used (default zero_pipe (fs_pipes s !! i)) =? 0) pipe_candidates)
    as [[-> _]|[Hin _]]; [cbn [Z.ltb Z.compare]; wp_step; by left|].
  set (p := find_first _ _) in *. assert (Hp : 0 ≤ p < 8).
  { revert Hin. unfold pipe_candidates. rewrite !elem_of_cons, elem_of_nil. lia. }
  clearbody p. replace (p <? 0) with false by lia.
  wp_step. apply wp_alloc_fd; [intros _; cbn [Z.ltb Z.compare]; wp_step; by left|]. intros rfd Hr Hru.
  replace (rfd <? 0) with false by lia. wp_step. apply wp_fds_upd; [lia|].
  wp_step. apply wp_alloc_fd.
  { intros _. cbn [Z.ltb Z.compare]. wp_step. apply wp_fds_upd; [lia|]. wp_step. by left. }
  intros wfd Hw. rewrite fdtab_upd, fd_of_upd. intros Hwu. replace (wfd <? 0) with false by lia.
  assert (Hne : rfd ≠ wfd).
  { intros ->. rewrite decide_True in Hwu by done. done. }
  rewrite decide_False in Hwu by tauto.
  wp_step. apply wp_fds_upd; [lia|]. wp_step. apply wp_pipe_set; [done|].
  wp_step. apply wp_fds_upd; [lia|]. wp_step. apply wp_fds_upd; [lia|]. wp_step.
  right. exists p, rfd, wfd. split; [done|]. unfold pipe_ends, pipe_holds.
  rewrite !fdtab_upd, !fdtab_set_pipes, !fdtab_upd.
  rewrite !fd_of_upd, !fd_of_set_pipes, !fd_of_upd.
  rewrite !(decide_True (P := fs_fdtab s = fs_fdtab s ∧ rfd = rfd)) by done.
  rewrite !(decide_True (P := fs_fdtab s = fs_fdtab s ∧ wfd = wfd)) by done.
  rewrite !(decide_False (P := fs_fdtab s = fs_fdtab s ∧ rfd = wfd)) by tauto.
  rewrite !(decide_False (P := fs_fdtab s = fs_fdtab s ∧ wfd = rfd)) by (intros [_ E]; congruence).
  split_and!; try done; try lia.
  exists (mkPipe 1 zero_ring). cbn. rewrite lookup_insert_eq. split_and!; done.
Qed.

Lemma pipe_write_spec s p rfd wfd flags q data :
  pipe_ends s p rfd wfd flags → pipe_holds s p q → Z.of_nat (length q) < 4096 →
  let n := Z.min (Z.of_nat (length data)) (4096 - Z.of_nat (length q)) in
  wp (do_write_fd wfd data) s (λ r s', r = n ∧ pipe_ends s' p rfd wfd flags ∧
    pipe_holds s' p (q ++ take (Z.to_nat n) data)).
Proof.
  intros (Hp & Hr & Hw & Hne & He & Hu & Ht & Hpi & Hfl & Hwe) (k & Hk & Hku & Hok & <-) Hlt n.
  unfold do_write_fd, in_fds, MAX_FDS. replace ((0 <=? wfd) && (wfd <? 16)) with true by lia.
  wp_step. apply wp_fds; [lia|]. rewrite Hu, Ht. cbn [andb nz Z.eqb negb Pos.eqb].
  unfold pipe_write, MAX_PIPES. rewrite Hpi. replace ((p <? 0) || (8 <=? p)) with false by lia.
  wp_step. apply wp_pipe_at; [done|]. rewrite Hk. cbn [default from_option id]. rewrite Hku.
  cbn [nz Z.eqb negb]. rewrite contents_length in Hlt. replace (4096 <=? ring_used (p_ring k)) with false by lia.
  pose proof (ring_push_spec data (p_ring k) Hok) as Hpush. rewrite <- contents_length in Hpush. fold n in Hpush.
  destruct (ring_push data (p_ring k)) as [m r']. destruct Hpush as (-> & Hok' & Hc).
  wp_step. apply wp_pipe_set; [done|]. wp_step. split_and!; try done.
  exists (mkPipe 1 r'). cbn. rewrite lookup_insert_eq. by split_and!.
Qed.

Lemma pipe_read_spec s p rfd wfd flags q count tabs :
  pipe_ends s p rfd wfd flags → pipe_holds s p q → q ≠ [] →
  let bs := take (Z.to_nat count) q in
  wp (sys_read tabs rfd count true) s (λ r s', r = RDone (Z.of_nat (length bs)) bs ∧
    pipe_ends s' p rfd wfd flags ∧ pipe_holds s' p (drop (Z.to_nat count) q)).
Proof.
  intros (Hp & Hr & Hw & Hne & (Hu & Ht & Hpi & Hfl & Hwe) & He) (k & Hk & Hku & Hok & <-) Hq bs.
  unfold sys_read, in_fds, MAX_FDS. replace ((0 <=? rfd) && (rfd <? 16)) with true by lia.
  wp_step. apply wp_fds; [lia|]. rewrite Hu, Ht. cbn [andb nz Z.eqb negb Pos.eqb].
  unfold pipe_read, MAX_PIPES. rewrite Hpi. replace ((p <? 0) || (8 <=? p)) with false by lia.
  wp_step. apply wp_pipe_at; [done|]. rewrite Hk. cbn [default from_option id]. rewrite Hku.
  cbn [nz Z.eqb negb]. wp_step. apply wp_gets.
  assert ((r_rpos (p_ring k) =? r_wpos (p_ring k)) = false) as ->.
  { apply Z.eqb_neq. rewrite used_zero by done. rewrite <- contents_length. by destruct (contents _). }
  rewrite !andb_false_r. cbn [andb].
  pose proof (ring_pop_spec (Z.to_nat count) (p_ring k) Hok) as Hpop.
  destruct (ring_pop (Z.to_nat count) (p_ring k)) as [bs' r']. destruct Hpop as (Hok' & -> & Hc).
  wp_step. apply wp_pipe_set; [done|]. wp_step. split_and!; try done.
  exists (mkPipe 1 r'). cbn. rewrite lookup_insert_eq. by split_and!.
Qed.

(** ** [socketpair] *)

Lemma sock_candidate_range i : i ∈ sock_candidates → 0 ≤ i < 16.
Proof. unfold sock_candidates. rewrite !elem_of_cons, elem_of_nil. lia. Qed.

Lemma wp_sock_alloc s (Q : Z → fdstate F → Prop) :
  Q (-1) s → (∀ i, 0 ≤ i < 16 → sock_alloc s = Some (i, s) → Q i s) → wp sock_alloc s Q.
Proof.
  intros Hnone Hsome. apply wp_gets. set (f := λ i : Z, _).
  destruct (find_first_spec f sock_candidates) as [[-> _]|[Hin _]]; [done|].
  apply Hsome; [by apply sock_candidate_range|done].
Qed.

Lemma socketpair_spec s :
  wp (sys_socketpair AF_UNIX true) s (λ r s',
    r = (-1, None) ∨ ∃ fd1 fd2 k, r = (0, Some (fd1, fd2)) ∧ fd1 ≠ fd2 ∧
      3 ≤ fd1 < 16 ∧ 3 ≤ fd2 < 16 ∧ 0 ≤ k < 16 ∧
      (∀ fd, fd = fd1 ∨ fd = fd2 → let e := fd_of s' (fs_fdtab s') fd in
        fd_used e = 1 ∧ fd_type e = 4 ∧ fd_sock e = k) ∧
      ∃ b, fs_socks s' !! k = Some (mkSock 1 [] 0 k 0 [] (mkRing b 0 0))).
Proof.
  unfold sys_socketpair. cbn [negb orb Z.eqb AF_UNIX Pos.eqb]. wp_step.
  apply wp_sock_alloc; [|intros k Hk Ek].
  - (* no free socket: the descriptors are taken but no pair is made *)
    wp_step. apply wp_gets. set (s2 := find_first _ _). wp_step.
    apply wp_alloc_fd; [intros _; cbn [Z.ltb Z.compare]; wp_step; by left|]. intros fd1 H1 _.
    replace (fd1 <? 0) with false by lia. wp_step. apply wp_fds_upd; [lia|]. wp_step.
    apply wp_alloc_fd.
    { intros _. cbn [Z.ltb Z.compare]. wp_step. apply wp_fds_upd; [lia|]. wp_step. by left. }
    intros fd2 H2 _. replace (fd2 <? 0) with false by lia. wp_step. apply wp_fds_upd; [lia|].
    cbn [Z.ltb Z.compare orb]. wp_step. by left.
  - wp_step. eapply wp_run; [exact Ek|]. wp_step.
    apply wp_alloc_fd; [intros _; cbn [Z.ltb Z.compare]; wp_step; by left|]. intros fd1 H1 _.
    replace (fd1 <? 0) with false by lia. wp_step. apply wp_fds_upd; [lia|]. wp_step.
    apply wp_alloc_fd.
    { intros _. cbn [Z.ltb Z.compare]. wp_step. apply wp_fds_upd; [lia|]. wp_step. by left. }
    intros fd2 H2. rewrite fdtab_upd, fd_of_upd. intros Hu2. replace (fd2 <? 0) with false by lia.
    assert (Hne : fd1 ≠ fd2) by (intros ->; by rewrite decide_True in Hu2).
    wp_step. apply wp_fds_upd; [lia|]. replace ((k <? 0) || (k <? 0)) with false by lia.
    wp_step. apply wp_sock_at; [done|]. wp_step. apply wp_sock_set; [done|].
    wp_step. apply wp_sock_at; [done|]. wp_step. apply wp_sock_set; [done|].
    wp_step. apply wp_fds_upd; [lia|]. wp_step. apply wp_fds_upd; [lia|]. wp_step.
    right. exists fd1, fd2, k. split_and!; try done; try lia.
    + intros fd Hfd. rewrite !fdtab_upd, !fdtab_set_socks, !fdtab_upd.
      rewrite !fd_of_upd, !fd_of_set_socks, !fd_of_upd.
      repeat case_decide; try done; exfalso; intuition congruence.
    + cbn. rewrite lookup_insert_eq. by eexists.
Qed.
End tables.

(** A file system without files, for the examples. *)
#[export] Instance no_files : FileOps unit := {|
  use_ext2 := λ _, false;
  stat_size := λ _ _, None;
  create_file := λ _ f, (-1, f);
  write_at := λ _ _ _ f, (-1, f);
  read_at := λ _ _ _ _, (-1, []);
  fat_create := λ _ f, (-1, f);
  fat_write := λ _ _ f, (-1, f) |}.

Definition empty_fds : fdstate unit := mkFdState ∅ BOOT_FDS ∅ ∅ [] [] [] [] tt.

(** ** The properties *)

(** C9: every sequence of writes and reads on a ring buffer gives the answers of
    a queue bounded to 4096 bytes, whatever the 32-bit positions are and
    however often they wrap around. *)
Theorem ring_refines_queue ops r :
  ring_ok r →
  let '(outs, r') := run_ops ring_step ops r in
  ring_ok r' ∧ run_ops queue_step ops (contents r) = (outs, contents r').
Proof.
  revert r. induction ops as [|op ops IH]; intros r Hok; simpl; [done|].
  pose proof (ring_step_sim op r Hok) as Hs. destruct (ring_step op r) as [out r'].
  destruct Hs as [Hok' Hs]. rewrite Hs. specialize (IH r' Hok').
  destruct (run_ops ring_step ops r') as [outs r'']. destruct IH as [Hok'' Hr]. by rewrite Hr.
Qed.

Lemma ring_refines_queue_witness :
  run_ops queue_step [QPush [1; 2; 3]; QPop 2; QPush [4]] [] =
    ((run_ops ring_step [QPush [1; 2; 3]; QPop 2; QPush [4]] (mkRing ∅ 4294967294 4294967294)).1, [3; 4]).
Proof.
  assert (Hok : ring_ok (mkRing ∅ 4294967294 4294967294))
    by (split; vm_compute; intuition discriminate).
  exact (proj2 (ring_refines_queue [QPush [1; 2; 3]; QPop 2; QPush [4]]
    (mkRing ∅ 4294967294 4294967294) Hok)).
Defined.

(** C10: [pipe] gives two different descriptors that were free, and what is
    written to the second (up to 4096 bytes) is what the first reads, in order. *)
Theorem pipe_delivers {F} `{FileOps F} (s s1 : fdstate F) rfd wfd data count tabs :
  sys_pipe true s = Some ((0, Some (rfd, wfd)), s1) →
  data ≠ [] → Z.of_nat (length data) ≤ 4096 →
  rfd ≠ wfd ∧ fd_used (fd_of s (fs_fdtab s) rfd) = 0 ∧ fd_used (fd_of s (fs_fdtab s) wfd) = 0 ∧
  ∃ s2 s3, do_write_fd wfd data s1 = Some (Z.of_nat (length data), s2) ∧
    sys_read tabs rfd count true s2 =
      Some (RDone (Z.of_nat (length (take (Z.to_nat count) data))) (take (Z.to_nat count) data), s3).
Proof.
  intros Hrun Hd Hlen. destruct (sys_pipe2_spec s 0) as (r & s1' & Hrun' & Hpost).
  unfold sys_pipe in Hrun. rewrite Hrun in Hrun'. injection Hrun' as <- <-.
  destruct Hpost as [[=]|(p & rfd' & wfd' & [= <- <-] & He & Hh & _ & Hr & Hw)].
  split_and!; [apply He|done..|].
  destruct (pipe_write_spec _ _ _ _ _ _ data He Hh) as (n & s2 & Hwr & -> & He2 & Hh2); [simpl; lia|].
  change (Z.of_nat (length [])) with 0 in Hwr, Hh2. rewrite Z.min_l in Hwr, Hh2 by lia.
  rewrite Nat2Z.id, firstn_all in Hh2.
  destruct (pipe_read_spec _ _ _ _ _ _ count tabs He2 Hh2 Hd) as (r & s3 & Hrd & -> & _).
  by exists s2, s3.
Qed.

Lemma pipe_delivers_witness :
  match sys_pipe true empty_fds with
  | Some ((0, Some (rfd, wfd)), s1) => rfd ≠ wfd
  | _ => False
  end.
Proof.
  destruct (sys_pipe true empty_fds) as [[[r [[a b]|]] s1]|] eqn:E; vm_compute in E;
    try discriminate E.
  injection E as <- <- <- <-.
  apply (pipe_delivers empty_fds _ 3 4 [65] 1 [] eq_refl); [discriminate|simpl; lia].
Defined.

(** Both descriptors of a successful [socketpair] refer to one and the same
    socket, which is its own peer: what is sent on the first descriptor is
    received on the first descriptor, not only on the second. *)
Theorem socketpair_one_socket {F} `{FileOps F} (s s1 : fdstate F) fd1 fd2 :
  sys_socketpair AF_UNIX true s = Some ((0, Some (fd1, fd2)), s1) →
  fd1 ≠ fd2 ∧
  fd_sock (fd_of s1 (fs_fdtab s1) fd1) = fd_sock (fd_of s1 (fs_fdtab s1) fd2) ∧
  s_peer (default zero_sock (fs_socks s1 !! fd_sock (fd_of s1 (fs_fdtab s1) fd1))) =
    fd_sock (fd_of s1 (fs_fdtab s1) fd1).
Proof.
  intros Hrun. destruct (socketpair_spec s) as (r & s1' & Hrun' & Hpost).
  rewrite Hrun in Hrun'. injection Hrun' as <- <-.
  destruct Hpost as [[=]|(a & b & k & [= <- <-] & Hne & _ & _ & _ & He & bf & Hs)].
  destruct (He fd1 (or_introl eq_refl)) as (_ & _ & ->).
  destruct (He fd2 (or_intror eq_refl)) as (_ & _ & ->). by rewrite Hs.
Qed.

Lemma socketpair_one_socket_witness :
  match sys_socketpair AF_UNIX true empty_fds with
  | Some ((0, Some (fd1, fd2)), s1) =>
      fd_sock (fd_of s1 (fs_fdtab s1) fd1) = fd_sock (fd_of s1 (fs_fdtab s1) fd2)
  | _ => False
  end.
Proof.
  destruct (sys_socketpair AF_UNIX true empty_fds) as [[[r [[a b]|]] s1]|] eqn:E;
    [|vm_compute in E; discriminate E..].
  assert (Hr : r = 0) by (vm_compute in E; congruence). subst r.
  apply (socketpair_one_socket empty_fds s1 a b E).
Defined.

(** [dup2] of an open descriptor onto itself reports success and leaves the
    descriptor closed. *)
Theorem dup2_self_closes {F} `{FileOps F} (s : fdstate F) fd :
  3 ≤ fd < MAX_FDS → fd_used (fd_of s (fs_fdtab s) fd) ≠ 0 →
  fd_type (fd_of s (fs_fdtab s) fd) ≠ 3 →
  ∃ s', sys_dup2 fd fd s = Some (fd, s') ∧ fd_used (fd_of s' (fs_fdtab s') fd) = 0.
Proof.
  unfold MAX_FDS. intros Hfd Hu Ht.
  enough (Hwp : wp (sys_dup2 fd fd) s (λ r s', r = fd ∧ fd_used (fd_of s' (fs_fdtab s') fd) = 0)).
  { destruct Hwp as (r & s' & Hrun & -> & Hz). by exists s'. }
  unfold sys_dup2, bad_oldfd, in_fds, MAX_FDS. replace ((0 <=? fd) && (fd <? 16)) with true by lia.
  cbn [negb]. wp_step. wp_step. apply wp_fds; [lia|]. wp_step.
  rewrite (proj2 (nz_spec _) Hu). cbn [negb andb]. wp_step. unfold dup_close. wp_step.
  apply wp_open_high; [lia|]. rewrite (proj2 (nz_spec _) Hu). cbn [negb]. wp_step.
  apply wp_fds; [lia|]. replace (fd_type _ =? 3) with false by lia. wp_step. wp_step.
  apply wp_fds_upd; [lia|]. wp_step. apply wp_fds; [lia|]. wp_step. apply wp_fds_upd; [lia|].
  wp_step. split; [done|]. rewrite !fdtab_upd, !fd_of_upd, !decide_True by done. done.
Qed.

Lemma dup2_self_closes_witness :
  ∃ s', sys_dup2 4 4 (upd_fd BOOT_FDS 4 (set_used 1) empty_fds) = Some (4, s') ∧
    fd_used (fd_of s' (fs_fdtab s') 4) = 0.
Proof.
  apply (dup2_self_closes (upd_fd BOOT_FDS 4 (set_used 1) empty_fds) 4);
    [unfold MAX_FDS; lia|vm_compute; discriminate|vm_compute; discriminate].
Defined.
