(* ===== verification/Process.v ===== *)
(** * Process: the process table and the scheduler of [OvsbMk/kernel/process.c]

    The PCB table, process creation, [fork], thread creation, exit, wait and the
    round-robin scheduler, over the kernel heap ([KHeap]) and the descriptor
    tables ([Fds]).  A pointer to a PCB is its slot, -1 for [NULL].

    [context_switch] and [context_switch_kern] are assembly: a function that
    switches yields the pair of slots it switches between, and everything the C
    code did before the switch is in the state.  The address of [idle_entry],
    the user stack pointer saved by the system call entry and the live FS base
    register are inputs.  User memory is written through the translation of the
    current CR3.  Log output is left out. *)

From Stdlib Require Import ZArith Lia.
From stdpp Require Import gmap list prelude.
From S2P Require Import Prelude KHeap Buddy Slab Paging VmMap Fds.

Definition STACK_SIZE : Z := 8192.
Definition PROC_NAME_MAX : Z := 32.
Definition PROC_EMPTY : Z := 0.
Definition PROC_READY : Z := 1.
Definition PROC_RUNNING : Z := 2.
Definition PROC_BLOCKED : Z := 3.
Definition PROC_ZOMBIE : Z := 4.

(** [pcb_t]; [name] and [cwd] are the raw arrays, [saved] the six saved
    registers. *)
Record pcb := mkPcb {
  pid : Z;
  state : Z;
  name : list Z;
  is_user : Z;
  kernel_rsp : Z;
  rsp0 : Z;
  pml4 : Z;
  user_rsp : Z;
  user_rip : Z;
  saved : list Z;
  parent_pid : Z;
  exit_code : Z;
  program_break : Z;
  heap_start : Z;
  vm_map : Z;
  vmspace : Z;
  fs_base : Z;
  cwd : list Z;
  fds_tab : Z;
  in_kern : Z;
  th_parent_pid : Z;
  clear_tid : Z }.

Definition with_pid (v : Z) (p : pcb) : pcb :=
  mkPcb v (state p) (name p) (is_user p) (kernel_rsp p) (rsp0 p) (pml4 p) (user_rsp p) (user_rip p) (saved p) (parent_pid p) (exit_code p) (program_break p) (heap_start p) (vm_map p) (vmspace p) (fs_base p) (cwd p) (fds_tab p) (in_kern p) (th_parent_pid p) (clear_tid p).
Definition with_state (v : Z) (p : pcb) : pcb :=
  mkPcb (pid p) v (name p) (is_user p) (kernel_rsp p) (rsp0 p) (pml4 p) (user_rsp p) (user_rip p) (saved p) (parent_pid p) (exit_code p) (program_break p) (heap_start p) (vm_map p) (vmspace p) (fs_base p) (cwd p) (fds_tab p) (in_kern p) (th_parent_pid p) (clear_tid p).
Definition with_name (v : list Z) (p : pcb) : pcb :=
  mkPcb (pid p) (state p) v (is_user p) (kernel_rsp p) (rsp0 p) (pml4 p) (user_rsp p) (user_rip p) (saved p) (parent_pid p) (exit_code p) (program_break p) (heap_start p) (vm_map p) (vmspace p) (fs_base p) (cwd p) (fds_tab p) (in_kern p) (th_parent_pid p) (clear_tid p).
Definition with_is_user (v : Z) (p : pcb) : pcb :=
  mkPcb (pid p) (state p) (name p) v (kernel_rsp p) (rsp0 p) (pml4 p) (user_rsp p) (user_rip p) (saved p) (parent_pid p) (exit_code p) (program_break p) (heap_start p) (vm_map p) (vmspace p) (fs_base p) (cwd p) (fds_tab p) (in_kern p) (th_parent_pid p) (clear_tid p).
Definition with_kernel_rsp (v : Z) (p : pcb) : pcb :=
  mkPcb (pid p) (state p) (name p) (is_user p) v (rsp0 p) (pml4 p) (user_rsp p) (user_rip p) (saved p) (parent_pid p) (exit_code p) (program_break p) (heap_start p) (vm_map p) (vmspace p) (fs_base p) (cwd p) (fds_tab p) (in_kern p) (th_parent_pid p) (clear_tid p).
Definition with_rsp0 (v : Z) (p : pcb) : pcb :=
  mkPcb (pid p) (state p) (name p) (is_user p) (kernel_rsp p) v (pml4 p) (user_rsp p) (user_rip p) (saved p) (parent_pid p) (exit_code p) (program_break p) (heap_start p) (vm_map p) (vmspace p) (fs_base p) (cwd p) (fds_tab p) (in_kern p) (th_parent_pid p) (clear_tid p).
Definition with_pml4 (v : Z) (p : pcb) : pcb :=
  mkPcb (pid p) (state p) (name p) (is_user p) (kernel_rsp p) (rsp0 p) v (user_rsp p) (user_rip p) (saved p) (parent_pid p) (exit_code p) (program_break p) (heap_start p) (vm_map p) (vmspace p) (fs_base p) (cwd p) (fds_tab p) (in_kern p) (th_parent_pid p) (clear_tid p).
Definition with_user_rsp (v : Z) (p : pcb) : pcb :=
  mkPcb (pid p) (state p) (name p) (is_user p) (kernel_rsp p) (rsp0 p) (pml4 p) v (user_rip p) (saved p) (parent_pid p) (exit_code p) (program_break p) (heap_start p) (vm_map p) (vmspace p) (fs_base p) (cwd p) (fds_tab p) (in_kern p) (th_parent_pid p) (clear_tid p).
Definition with_user_rip (v : Z) (p : pcb) : pcb :=
  mkPcb (pid p) (state p) (name p) (is_user p) (kernel_rsp p) (rsp0 p) (pml4 p) (user_rsp p) v (saved p) (parent_pid p) (exit_code p) (program_break p) (heap_start p) (vm_map p) (vmspace p) (fs_base p) (cwd p) (fds_tab p) (in_kern p) (th_parent_pid p) (clear_tid p).
Definition with_saved (v : list Z) (p : pcb) : pcb :=
  mkPcb (pid p) (state p) (name p) (is_user p) (kernel_rsp p) (rsp0 p) (pml4 p) (user_rsp p) (user_rip p) v (parent_pid p) (exit_code p) (program_break p) (heap_start p) (vm_map p) (vmspace p) (fs_base p) (cwd p) (fds_tab p) (in_kern p) (th_parent_pid p) (clear_tid p).
Definition with_parent_pid (v : Z) (p : pcb) : pcb :=
  mkPcb (pid p) (state p) (name p) (is_user p) (kernel_rsp p) (rsp0 p) (pml4 p) (user_rsp p) (user_rip p) (saved p) v (exit_code p) (program_break p) (heap_start p) (vm_map p) (vmspace p) (fs_base p) (cwd p) (fds_tab p) (in_kern p) (th_parent_pid p) (clear_tid p).
Definition with_exit_code (v : Z) (p : pcb) : pcb :=
  mkPcb (pid p) (state p) (name p) (is_user p) (kernel_rsp p) (rsp0 p) (pml4 p) (user_rsp p) (user_rip p) (saved p) (parent_pid p) v (program_break p) (heap_start p) (vm_map p) (vmspace p) (fs_base p) (cwd p) (fds_tab p) (in_kern p) (th_parent_pid p) (clear_tid p).
Definition with_program_break (v : Z) (p : pcb) : pcb :=
  mkPcb (pid p) (state p) (name p) (is_user p) (kernel_rsp p) (rsp0 p) (pml4 p) (user_rsp p) (user_rip p) (saved p) (parent_pid p) (exit_code p) v (heap_start p) (vm_map p) (vmspace p) (fs_base p) (cwd p) (fds_tab p) (in_kern p) (th_parent_pid p) (clear_tid p).
Definition with_heap_start (v : Z) (p : pcb) : pcb :=
  mkPcb (pid p) (state p) (name p) (is_user p) (kernel_rsp p) (rsp0 p) (pml4 p) (user_rsp p) (user_rip p) (saved p) (parent_pid p) (exit_code p) (program_break p) v (vm_map p) (vmspace p) (fs_base p) (cwd p) (fds_tab p) (in_kern p) (th_parent_pid p) (clear_tid p).
Definition with_vm_map (v : Z) (p : pcb) : pcb :=
  mkPcb (pid p) (state p) (name p) (is_user p) (kernel_rsp p) (rsp0 p) (pml4 p) (user_rsp p) (user_rip p) (saved p) (parent_pid p) (exit_code p) (program_break p) (heap_start p) v (vmspace p) (fs_base p) (cwd p) (fds_tab p) (in_kern p) (th_parent_pid p) (clear_tid p).
Definition with_vmspace (v : Z) (p : pcb) : pcb :=
  mkPcb (pid p) (state p) (name p) (is_user p) (kernel_rsp p) (rsp0 p) (pml4 p) (user_rsp p) (user_rip p) (saved p) (parent_pid p) (exit_code p) (program_break p) (heap_start p) (vm_map p) v (fs_base p) (cwd p) (fds_tab p) (in_kern p) (th_parent_pid p) (clear_tid p).
Definition with_fs_base (v : Z) (p : pcb) : pcb :=
  mkPcb (pid p) (state p) (name p) (is_user p) (kernel_rsp p) (rsp0 p) (pml4 p) (user_rsp p) (user_rip p) (saved p) (parent_pid p) (exit_code p) (program_break p) (heap_start p) (vm_map p) (vmspace p) v (cwd p) (fds_tab p) (in_kern p) (th_parent_pid p) (clear_tid p).
Definition with_cwd (v : list Z) (p : pcb) : pcb :=
  mkPcb (pid p) (state p) (name p) (is_user p) (kernel_rsp p) (rsp0 p) (pml4 p) (user_rsp p) (user_rip p) (saved p) (parent_pid p) (exit_code p) (program_break p) (heap_start p) (vm_map p) (vmspace p) (fs_base p) v (fds_tab p) (in_kern p) (th_parent_pid p) (clear_tid p).
Definition with_fds_tab (v : Z) (p : pcb) : pcb :=
  mkPcb (pid p) (state p) (name p) (is_user p) (kernel_rsp p) (rsp0 p) (pml4 p) (user_rsp p) (user_rip p) (saved p) (parent_pid p) (exit_code p) (program_break p) (heap_start p) (vm_map p) (vmspace p) (fs_base p) (cwd p) v (in_kern p) (th_parent_pid p) (clear_tid p).
Definition with_in_kern (v : Z) (p : pcb) : pcb :=
  mkPcb (pid p) (state p) (name p) (is_user p) (kernel_rsp p) (rsp0 p) (pml4 p) (user_rsp p) (user_rip p) (saved p) (parent_pid p) (exit_code p) (program_break p) (heap_start p) (vm_map p) (vmspace p) (fs_base p) (cwd p) (fds_tab p) v (th_parent_pid p) (clear_tid p).
Definition with_th_parent_pid (v : Z) (p : pcb) : pcb :=
  mkPcb (pid p) (state p) (name p) (is_user p) (kernel_rsp p) (rsp0 p) (pml4 p) (user_rsp p) (user_rip p) (saved p) (parent_pid p) (exit_code p) (program_break p) (heap_start p) (vm_map p) (vmspace p) (fs_base p) (cwd p) (fds_tab p) (in_kern p) v (clear_tid p).
Definition with_clear_tid (v : Z) (p : pcb) : pcb :=
  mkPcb (pid p) (state p) (name p) (is_user p) (kernel_rsp p) (rsp0 p) (pml4 p) (user_rsp p) (user_rip p) (saved p) (parent_pid p) (exit_code p) (program_break p) (heap_start p) (vm_map p) (vmspace p) (fs_base p) (cwd p) (fds_tab p) (in_kern p) (th_parent_pid p) v.

Definition zero_pcb : pcb :=
  mkPcb 0 0 (replicate 32 0) 0 0 0 0 0 0 (replicate 6 0) 0 0 0 0 0 0 0 (replicate 256 0) 0 0 0 0.

(** Bytes written at the start of an array. *)
Definition overlay (bytes arr : list Z) : list Z := bytes ++ drop (length bytes) arr.

(** The string in an array. *)
Fixpoint cstr (arr : list Z) : list Z :=
  match arr with [] => [] | c :: arr' => if c =? 0 then [] else c :: cstr arr' end.

Record kstate (F : Type) := mkK {
  k_heap : heap;
  k_fds : fdstate F;
  k_pcb : gmap Z pcb;
  k_current : Z;
  k_count : Z;
  k_next_pid : Z;
  k_tss_rsp0 : Z;
  k_in_syscall : bool }.
Arguments mkK {F}.
Arguments k_heap {F}.
Arguments k_fds {F}.
Arguments k_pcb {F}.
Arguments k_current {F}.
Arguments k_count {F}.
Arguments k_next_pid {F}.
Arguments k_tss_rsp0 {F}.
Arguments k_in_syscall {F}.

Section process.
Context {F : Type} `{FileOps F}.

Abbreviation KM := (M (kstate F)).

Definition set_heap (v : heap) (s : kstate F) : kstate F :=
  mkK v (k_fds s) (k_pcb s) (k_current s) (k_count s) (k_next_pid s) (k_tss_rsp0 s) (k_in_syscall s).
Definition set_fds (v : fdstate F) (s : kstate F) : kstate F :=
  mkK (k_heap s) v (k_pcb s) (k_current s) (k_count s) (k_next_pid s) (k_tss_rsp0 s) (k_in_syscall s).
Definition set_pcb (v : gmap Z pcb) (s : kstate F) : kstate F :=
  mkK (k_heap s) (k_fds s) v (k_current s) (k_count s) (k_next_pid s) (k_tss_rsp0 s) (k_in_syscall s).
Definition set_current (v : Z) (s : kstate F) : kstate F :=
  mkK (k_heap s) (k_fds s) (k_pcb s) v (k_count s) (k_next_pid s) (k_tss_rsp0 s) (k_in_syscall s).
Definition set_count (v : Z) (s : kstate F) : kstate F :=
  mkK (k_heap s) (k_fds s) (k_pcb s) (k_current s) v (k_next_pid s) (k_tss_rsp0 s) (k_in_syscall s).
Definition set_next_pid (v : Z) (s : kstate F) : kstate F :=
  mkK (k_heap s) (k_fds s) (k_pcb s) (k_current s) (k_count s) v (k_tss_rsp0 s) (k_in_syscall s).
Definition set_tss_rsp0 (v : Z) (s : kstate F) : kstate F :=
  mkK (k_heap s) (k_fds s) (k_pcb s) (k_current s) (k_count s) (k_next_pid s) v (k_in_syscall s).

(** Calls into the allocator and into the descriptor tables. *)
Definition on_heap {A} (m : M heap A) : KM A := zoom k_heap set_heap m.
Definition on_fds {A} (m : M (fdstate F) A) : KM A := zoom k_fds set_fds m.

(** [pcb_table\[i\]] *)
Definition pcb_of (s : kstate F) (i : Z) : pcb := default zero_pcb (k_pcb s !! i).
Definition pcb_get (i : Z) : KM pcb :=
  assert_ ((0 <=? i) && (i <? MAX_PROC)) ;! gets (λ s, pcb_of s i).
Definition pcb_upd (i : Z) (f : pcb → pcb) : KM unit :=
  assert_ ((0 <=? i) && (i <? MAX_PROC)) ;!
  modify (λ s, set_pcb (<[i := f (pcb_of s i)]> (k_pcb s)) s).

(** The slots in order. *)
Definition slots : list Z := seqZ 0 64.

(** ** Looking for processes *)

Definition alloc_pcb : KM Z :=
  let! n := gets k_count in
  if MAX_PROC <=? n then ret (-1) else modify (set_count (n + 1)) ;! ret n.

Definition find_pid (p : Z) : KM Z := gets (λ s, find_first (λ i, pid (pcb_of s i) =? p) slots).

Definition process_current : KM Z :=
  gets (λ s, find_first (λ i,
    negb (state (pcb_of s i) =? PROC_EMPTY) && (pid (pcb_of s i) =? k_current s)) slots).

Definition process_current_pid : KM Z := gets k_current.

(** The first slot that is [EMPTY]. *)
Definition free_slot : KM Z :=
  gets (λ s, find_first (λ i, state (pcb_of s i) =? PROC_EMPTY) slots).

Definition take_pid : KM Z :=
  let! p := gets k_next_pid in modify (set_next_pid (s32 (p + 1))) ;! ret p.

(** ** Stack frames *)

(** [*--sp = w], for the words in turn. *)
Fixpoint push_words (sp : Z) (ws : list Z) : M heap Z :=
  match ws with
  | [] => ret sp
  | w :: ws' => store (u64 (sp - 8)) w ;! push_words (u64 (sp - 8)) ws'
  end.

(** The frame [context_switch] returns through: SS, RSP, RFLAGS, CS, RIP and
    fifteen cleared registers. *)
Definition user_frame (entry user_rsp : Z) : list Z :=
  [0x23; user_rsp; 0x202; 0x1B; entry] ++ replicate 15 0.

Definition setup_user_stack (slot entry ustack ustack_size : Z) : KM unit :=
  let! p := pcb_get slot in
  let! sp := on_heap (push_words (kernel_rsp p) (user_frame entry (u64 (ustack + ustack_size)))) in
  pcb_upd slot (with_kernel_rsp sp).

(** ** Creation *)

Definition idle_name : list Z := [105; 100; 108; 101].

(** The state of a PCB cleared by [process_init]. *)
Definition cleared_pcb : pcb := with_state PROC_EMPTY (with_th_parent_pid (-1) (with_pid (-1) zero_pcb)).

Definition process_init (idle_entry : Z) : KM unit :=
  on_fds fds_cleanup ;!
  for_up 64 0 (λ i, pcb_upd i (λ _, cleared_pcb)) ;!
  modify (set_count 0) ;!
  modify (set_current 0) ;!
  modify (set_next_pid 1) ;!
  let! idle := alloc_pcb in
  if idle <? 0 then skip else
  let! kstack := on_heap (kmalloc STACK_SIZE) in
  if negb (nz kstack) then skip else
  pcb_upd idle (λ p, with_name (overlay idle_name (name p)) (with_is_user 0
    (with_state PROC_READY (with_pid 0 p)))) ;!
  let sp := u64 (kstack + STACK_SIZE) in
  let! sp := on_heap (push_words sp [idle_entry]) in
  let! cr3 := on_heap pml4_get_current in
  pcb_upd idle (λ p, with_exit_code 0 (with_parent_pid 0 (with_pml4 cr3
    (with_rsp0 sp (with_kernel_rsp sp p))))).

(** [sizeof(struct vm_map)] *)
Definition SIZEOF_VM_MAP : Z := 32.

(** [p->vm_map = kmalloc(...); if (p->vm_map) vm_map_init(...)] *)
Definition new_vm_map : M heap Z :=
  let! m := kmalloc SIZEOF_VM_MAP in
  (if nz m then vm_map_init m 0x10000 0x7FFFF000 else skip) ;!
  ret m.

Definition process_create_user (pname : list Z) (entry user_stack user_stack_size : Z) : KM Z :=
  let! slot := alloc_pcb in
  if slot <? 0 then ret (-1) else
  let! kstack := on_heap (kmalloc STACK_SIZE) in
  if negb (nz kstack) then ret (-1) else
  let! np := take_pid in
  let ksp := u64 (kstack + STACK_SIZE) in
  let! cr3 := on_heap pml4_get_current in
  let! cur := gets k_current in
  pcb_upd slot (λ p, with_heap_start 0x201000 (with_program_break 0x201000 (with_exit_code 0
    (with_parent_pid cur (with_pml4 cr3 (with_rsp0 ksp (with_kernel_rsp ksp
    (with_name (overlay (take 31 pname) (name p)) (with_is_user 1
    (with_state PROC_READY (with_pid np p))))))))))) ;!
  let! m := on_heap new_vm_map in
  pcb_upd slot (λ p, with_cwd (overlay [47; 0] (cwd p)) (with_clear_tid 0
    (with_th_parent_pid (-1) (with_fs_base 0 (with_vm_map m p))))) ;!
  setup_user_stack slot entry user_stack user_stack_size ;!
  ret np.

(** [if (slot >= pcb_count) pcb_count = slot + 1;] *)
Definition raise_count (slot : Z) : KM unit :=
  let! n := gets k_count in
  if n <=? slot then modify (set_count (slot + 1)) else skip.

Definition proc_spawn (pname : list Z) (entry user_stack_top : Z) : KM Z :=
  let! slot := free_slot in
  if slot <? 0 then ret (-1) else
  let! kstack := on_heap (mmap_user STACK_SIZE) in
  if negb (nz kstack) then ret (-1) else
  let! my_pml4 := on_heap pml4_create in
  if negb (nz my_pml4) then let! _ := on_heap (munmap_user kstack) in ret (-1) else
  let! np := take_pid in
  let! cur := gets k_current in
  let rsp := u64 (kstack + STACK_SIZE) in
  pcb_upd slot (λ p, with_heap_start 0x201000 (with_program_break 0x201000 (with_exit_code 0
    (with_parent_pid cur (with_pml4 my_pml4 (with_rsp0 rsp
    (with_name (overlay (take 31 pname ++ [0]) (name p)) (with_is_user 1
    (with_state PROC_READY (with_pid np p)))))))))) ;!
  let! m := on_heap new_vm_map in
  pcb_upd slot (λ p, with_cwd (overlay [47; 0] (cwd p)) (with_clear_tid 0
    (with_th_parent_pid (-1) (with_fs_base 0 (with_vm_map m p))))) ;!
  raise_count slot ;!
  let! sp := on_heap (push_words rsp (user_frame entry user_stack_top)) in
  pcb_upd slot (λ p, with_saved (replicate 6 0) (with_kernel_rsp sp p)) ;!
  ret np.

(** ** The scheduler *)

(** [(start + i) % MAX_PROC] for [i] from 1 to [MAX_PROC]: the next slot that is
    READY, or -1. *)
Definition next_order (start : Z) : list Z := (λ i, Z.rem (start + i) MAX_PROC) <$> seqZ 1 64.

Definition find_next_ready : KM Z :=
  let! start := gets k_current in
  assert_ (forallb (λ i, (0 <=? i) && (i <? MAX_PROC)) (next_order start)) ;!
  gets (λ s, find_first (λ i, state (pcb_of s i) =? PROC_READY) (next_order start)).

(** A switch: from a slot to a slot, keeping the kernel flow or not. *)
Record switch := mkSwitch { sw_from : Z; sw_to : Z; sw_kern : bool }.

(** The part of [schedule] after the choice. *)
Definition switch_slots (prev next_idx : Z) : KM (option switch) :=
  pcb_upd prev (with_in_kern 0) ;!
  let! p := pcb_get prev in
  (if state p =? PROC_RUNNING then pcb_upd prev (with_state PROC_READY) else skip) ;!
  pcb_upd next_idx (with_state PROC_RUNNING) ;!
  modify (set_current next_idx) ;!
  let! n := pcb_get next_idx in
  modify (set_tss_rsp0 (rsp0 n)) ;!
  let! in_sys := gets k_in_syscall in
  let! p := pcb_get prev in
  ret (Some (mkSwitch prev next_idx (in_sys && nz (is_user p)))).

Definition schedule : KM (option switch) :=
  let! next_idx := find_next_ready in
  let! prev := gets k_current in
  if (next_idx =? -1) || (next_idx =? prev) then ret None else switch_slots prev next_idx.

Definition proc_yield : KM (option switch) := schedule.

Definition process_switch_to (p : Z) : KM (option switch) :=
  let! current := process_current in
  if current <? 0 then ret None else
  let! next := gets (λ s, find_first (λ i,
    negb (state (pcb_of s i) =? PROC_EMPTY) && (pid (pcb_of s i) =? p)) slots) in
  if next <? 0 then ret None else
  let! cur := gets k_current in
  pcb_upd cur (with_state PROC_BLOCKED) ;!
  modify (set_current p) ;!
  pcb_upd next (with_state PROC_RUNNING) ;!
  let! n := pcb_get next in
  modify (set_tss_rsp0 (rsp0 n)) ;!
  ret (Some (mkSwitch current next false)).

(** ** Exit and wait *)

(** The first BLOCKED process that is the parent of [child] becomes READY. *)
Definition is_parent_of (s : kstate F) (child i : Z) : bool :=
  existsb (λ j, (pid (pcb_of s j) =? child) && (parent_pid (pcb_of s j) =? pid (pcb_of s i))) slots.

Definition proc_wake_parent (child : Z) : KM unit :=
  let! i := gets (λ s, find_first (λ i,
    (state (pcb_of s i) =? PROC_BLOCKED) && is_parent_of s child i) slots) in
  if i <? 0 then skip else pcb_upd i (with_state PROC_READY).

Definition process_exit_current (code : Z) : KM (option switch) :=
  let! me := process_current in
  if me <? 0 then ret None else
  let! p := pcb_get me in
  on_fds (fds_close_exec (fds_tab p)) ;!
  pcb_upd me (λ p, with_state PROC_ZOMBIE (with_exit_code code p)) ;!
  proc_wake_parent (pid p) ;!
  let parent := if (parent_pid p <? 0) || (MAX_PROC <=? parent_pid p) then 0 else parent_pid p in
  let! q := pcb_get parent in
  (if (state q =? PROC_BLOCKED) || (state q =? PROC_READY)
   then pcb_upd parent (with_state PROC_READY) else skip) ;!
  modify (set_current parent) ;!
  let! q := pcb_get parent in
  modify (set_tss_rsp0 (rsp0 q)) ;!
  ret (Some (mkSwitch me parent false)).

(** [proc_exit] ends in a loop of [hlt]: it has no return value besides the
    switch. *)
Definition proc_exit (code : Z) : KM (option switch) :=
  let! cur := gets k_current in
  if (cur <? 0) || (MAX_PROC <=? cur) then ret None else
  on_fds fds_cleanup ;!
  pcb_upd cur (λ p, with_state PROC_ZOMBIE (with_exit_code code p)) ;!
  let! p := pcb_get cur in
  proc_wake_parent (pid p) ;!
  schedule.

(** One round of the loop of [proc_waitpid]: the child is gone ([-1]), was
    reaped, or the caller yielded and looks again. *)
Inductive wait_result := WNone | WReaped (p code : Z) | WAgain (sw : option switch).

Definition proc_waitpid_round (p : Z) : KM wait_result :=
  let! i := find_pid p in
  if i <? 0 then ret WNone else
  let! c := pcb_get i in
  if state c =? PROC_ZOMBIE then
    let! _ := on_heap (munmap_user (u64 (rsp0 c - STACK_SIZE))) in
    on_heap (pml4_destroy (pml4 c)) ;!
    pcb_upd i (with_state PROC_EMPTY) ;!
    ret (WReaped p (exit_code c))
  else let! sw := schedule in ret (WAgain sw).
End process.
