(* ===== verification/Fork.v ===== *)
(** * Fork: [fork], [clone] and thread exit of [OvsbMk/kernel/process.c]

    Copying the user half of an address space page by page, the child's stack
    frame, and the PCB of a forked process and of a thread.  [parent_kframe] is
    the address of the register frame of the system call; [user_rsp_now] is the
    variable [current_rsp0] of the entry code and [live_fs] the FS base register. *)

From Stdlib Require Import ZArith Lia.
From stdpp Require Import gmap list prelude.
From S2P Require Import Prelude KHeap Buddy Slab Paging VmMap Fds Process.

(** ** Copying an address space *)

(** [e & 0x000FFFFFFFFFF000ULL] *)
Definition frame_bits (e : Z) : Z := Z.land e 0x000FFFFFFFFFF000.

(** Present and accessible from user space. *)
Definition user_entry (e : Z) : bool := nz (Z.land e 1) && nz (Z.land e 4).

Definition child_frame_for (child_pml4 va : Z) : M heap Z :=
  let! _ := split_2mb_pde child_pml4 (Z.ldiff va 0x1FFFFF) in
  let! r := map_user_4kb child_pml4 va in
  if r <? 0 then ret 0 else
  let! e4 := entry child_pml4 (pml4_index va) in
  let! e3 := entry (table_of e4) (pdpt_index va) in
  let! e2 := entry (table_of e3) (pd_index va) in
  let! pte := entry (table_of e2) (pt_index va) in
  if negb (present pte) then ret 0 else ret (frame_bits pte).

(** The 4096 bytes of a page, word by word. *)
Definition copy_page (dst src : Z) : M heap unit :=
  for_up 512 0 (λ b, let! w := load (src + 8 * b) in store (dst + 8 * b) w).

(** One page of the source goes to a page of the child at the same address. *)
Definition copy_one (dst_pml4 va src : Z) : M heap unit :=
  let! fr := child_frame_for dst_pml4 va in
  if negb (nz fr) then skip else copy_page fr src.

(** The mask applied to a 2 MB entry. *)
Definition HUGE_MASK : Z := 0x000FFFFFE00000.

Definition copy_pd_entry (dst_pml4 base e2 : Z) : M heap unit :=
  if huge e2 then
    let pa2 := Z.land e2 HUGE_MASK in
    for_up 512 0 (λ n, copy_one dst_pml4 (u64 (base + Z.shiftl n 12)) (u64 (pa2 + Z.shiftl n 12)))
  else
    let spt := frame_bits e2 in
    for_up 512 0 (λ n,
      let! e1 := entry spt n in
      if user_entry e1 then copy_one dst_pml4 (u64 (base + Z.shiftl n 12)) (frame_bits e1) else skip).

Definition copy_user_space (src_pml4 dst_pml4 : Z) : M heap unit :=
  for_up 512 0 (λ i,
    let! e4 := entry src_pml4 i in
    if negb (user_entry e4) then skip else
    let sp3 := frame_bits e4 in
    for_up 512 0 (λ j,
      let! e3 := entry sp3 j in
      if negb (user_entry e3) then skip else
      if huge e3 then skip else
      let sp2 := frame_bits e3 in
      for_up 512 0 (λ k,
        let! e2 := entry sp2 k in
        if negb (user_entry e2) then skip else
        let base := Z.lor (Z.lor (Z.shiftl i 39) (Z.shiftl j 30)) (Z.shiftl k 21) in
        copy_pd_entry dst_pml4 base e2))).

(** The regions of a map, without their objects. *)
Definition vm_map_copy_to (dst src : Z) : M heap unit :=
  let! hd := map_head src in
  while_ (λ e,
    if nz e then
      let! s := e_start e in
      let! t := e_end e in
      let size := if s <? t then u64 (t - s) else 0 in
      let! prot := load32 (e + 48) in
      let! flags := e_flags e in
      (if nz size then let! _ := vm_map_fixed dst 0 0 s size prot flags in skip else skip) ;!
      let! n := e_next e in
      ret (inl n)
    else ret (inr tt)) hd.

(** ** The child's frame *)

(** Fifteen registers of the parent with RAX cleared, then RIP, CS, RFLAGS, RSP
    and SS. *)
Definition child_frame (kframe sp user_rsp : Z) : M heap unit :=
  for_up 15 0 (λ q, let! w := load (kframe + 8 * q) in store (sp + 8 * q) w) ;!
  store (sp + 8 * 14) 0 ;!
  let! rip := load (kframe + 8 * 15) in
  store (sp + 8 * 15) rip ;!
  store (sp + 8 * 16) 0x1B ;!
  let! rflags := load (kframe + 8 * 16) in
  store (sp + 8 * 17) rflags ;!
  store (sp + 8 * 18) user_rsp ;!
  store (sp + 8 * 19) 0x23.

Section fork.
Context {F : Type} `{FileOps F}.

Abbreviation KM := (M (kstate F)).

Definition proc_fork (parent_kframe user_rsp_now live_fs : Z) : KM Z :=
  let! par := process_current in
  if (par <? 0) || negb (nz parent_kframe) then ret (-1) else
  let! slot := free_slot in
  if slot <? 0 then ret (-1) else
  let! kstack := on_heap (kmalloc STACK_SIZE) in
  if negb (nz kstack) then ret (-1) else
  let! child_pml4 := on_heap pml4_create in
  if negb (nz child_pml4) then on_heap (kfree kstack) ;! ret (-1) else
  let! np := take_pid in
  let! q := pcb_get par in
  let rsp := u64 (kstack + STACK_SIZE) in
  pcb_upd slot (λ p, with_heap_start (heap_start q) (with_program_break (program_break q)
    (with_exit_code 0 (with_parent_pid (pid q) (with_pml4 child_pml4 (with_rsp0 rsp
    (with_name (overlay (take 27 (cstr (name q)) ++ [102; 107; 0]) (name p)) (with_is_user 1
    (with_state PROC_READY (with_pid np p)))))))))) ;!
  let! m := on_heap (
    let! m := kmalloc SIZEOF_VM_MAP in
    (if nz m then
       vm_map_init m 0x10000 0x7FFFF000 ;!
       (if nz (vm_map q) then vm_map_copy_to m (vm_map q) else skip)
     else skip) ;!
    ret m) in
  pcb_upd slot (λ p, with_cwd (cwd q) (with_fs_base (fs_base q) (with_vmspace 0 (with_vm_map m p)))) ;!
  raise_count slot ;!
  on_heap (copy_user_space (pml4 q) child_pml4) ;!
  on_fds (fds_dup_into_slot slot) ;!
  pcb_upd slot (with_fds_tab (fds_tab_addr slot)) ;!
  pcb_upd slot (with_fs_base (if nz live_fs then live_fs else fs_base q)) ;!
  let sp := u64 (rsp - 8 * 20) in
  on_heap (child_frame parent_kframe sp user_rsp_now) ;!
  let! rip := on_heap (load (parent_kframe + 8 * 15)) in
  pcb_upd slot (λ p, with_user_rip rip (with_user_rsp user_rsp_now (with_kernel_rsp sp p))) ;!
  ret np.

(** ** Threads *)

Definition CLONE_VM : Z := 0x00000100.
Definition CLONE_THREAD : Z := 0x00010000.
Definition CLONE_SETTLS : Z := 0x00080000.
Definition CLONE_PARENT_SETTID : Z := 0x00100000.
Definition CLONE_CHILD_CLEARTID : Z := 0x00200000.
Definition CLONE_CHILD_SETTID : Z := 0x01000000.

(** A store through the translation of the current CR3; a page fault has no
    result. *)
Definition user_store32 (va v : Z) : M heap unit :=
  let! cr3 := pml4_get_current in
  let! tr := gets (λ h, walk (h_mem h) cr3 va) in
  match tr with Some (pa, _) => store32 pa v | None => stuck end.
Definition user_store64 (va v : Z) : M heap unit :=
  let! cr3 := pml4_get_current in
  let! tr := gets (λ h, walk (h_mem h) cr3 va) in
  match tr with Some (pa, _) => store pa v | None => stuck end.

Definition proc_clone_thread (flags newsp ptid ctid tls parent_kframe : Z) : KM Z :=
  let! par := process_current in
  if (par <? 0) || negb (nz parent_kframe) then ret (-1) else
  if negb (nz (Z.land flags CLONE_THREAD)) || negb (nz (Z.land flags CLONE_VM)) then ret (-22) else
  let! slot := free_slot in
  if slot <? 0 then ret (-1) else
  let! kstack := on_heap (kmalloc STACK_SIZE) in
  if negb (nz kstack) then ret (-1) else
  let! np := take_pid in
  let! q := pcb_get par in
  let rsp := u64 (kstack + STACK_SIZE) in
  pcb_upd slot (λ _, with_cwd (cwd q) (with_in_kern 0 (with_vmspace 0 (with_th_parent_pid (pid q)
    (with_parent_pid (pid q) (with_heap_start (heap_start q) (with_program_break (program_break q)
    (with_fds_tab (fds_tab q) (with_vm_map (vm_map q) (with_pml4 (pml4 q) (with_rsp0 rsp
    (with_name (overlay (take 28 (cstr (name q)) ++ [116; 104; 0]) (replicate 32 0)) (with_is_user 1
    (with_state PROC_READY (with_pid np zero_pcb))))))))))))))) ;!
  raise_count slot ;!
  pcb_upd slot (λ p, with_clear_tid (if nz (Z.land flags CLONE_CHILD_CLEARTID) then ctid else 0)
    (with_fs_base (if nz (Z.land flags CLONE_SETTLS) then tls else fs_base q) p)) ;!
  (if nz (Z.land flags CLONE_PARENT_SETTID) && nz ptid then on_heap (user_store32 ptid np) else skip) ;!
  (if nz (Z.land flags CLONE_CHILD_SETTID) && nz ctid then on_heap (user_store32 ctid np) else skip) ;!
  let sp := u64 (rsp - 8 * 20) in
  let! parent_rsp := on_heap (load (parent_kframe + 8 * 18)) in
  let user_sp := if nz newsp then newsp else parent_rsp in
  on_heap (child_frame parent_kframe sp user_sp) ;!
  let! rip := on_heap (load (sp + 8 * 15)) in
  pcb_upd slot (λ p, with_user_rip rip (with_user_rsp user_sp (with_kernel_rsp sp p))) ;!
  ret np.

(** [proc_thread_exit] ends in a loop of [hlt] after the switch. *)
Definition proc_thread_exit (code : Z) : KM (option switch) :=
  let! me := process_current in
  if me <? 0 then ret None else
  let! p := pcb_get me in
  (if nz (clear_tid p) then on_heap (user_store64 (clear_tid p) 0) else skip) ;!
  pcb_upd me (λ p, with_state PROC_EMPTY (with_exit_code code p)) ;!
  schedule.
End fork.
