(* ===== verification/ProcProof.v ===== *)
(** * ProcProof: the scheduler and the process table

    Round-robin scheduling is fair; process identifiers of live processes stay
    distinct through every operation on the table; what [waitpid] does on a
    zombie and on a process reaped before; and what happens when a slot and the
    identifier of its process differ. *)

From Stdlib Require Import ZArith Lia.
From stdpp Require Import gmap list prelude.
From S2P Require Import Prelude KHeap Buddy BuddyProof PageAlloc Slab Paging VmMap Fds FdProof Process Fork.

(** The first element of a list that satisfies a test, and those before it. *)
Lemma find_first_lookup (f : Z → bool) l :
  (find_first f l = -1 ∧ ∀ i, i ∈ l → f i = false) ∨
  (∃ k, l !! k = Some (find_first f l) ∧ f (find_first f l) = true ∧
     ∀ j y, (j < k)%nat → l !! j = Some y → f y = false).
Proof.
  induction l as [|x l IH]; simpl; [left; split; [done|]; by intros i ?%elem_of_nil|].
  destruct (f x) eqn:Hf; [right; exists 0%nat; split_and!; [done..|lia]|].
  destruct IH as [[E Hno]|(k & Hk & Hf' & Hb)]; [left|right].
  - split; [done|]. intros j [-> |Hj]%elem_of_cons; [done|by apply Hno].
  - exists (S k). split_and!; [done..|]. intros [|j] y Hj; simpl; [by intros [= <-]|].
    apply Hb. lia.
Qed.

Section proc.
Context {F : Type} `{FileOps F}.
Implicit Types s : kstate F.

(** ** Accesses to the table *)

Lemma pcb_of_upd i (f : pcb → pcb) s j :
  pcb_of (set_pcb (<[i := f (pcb_of s i)]> (k_pcb s)) s) j =
    if decide (i = j) then f (pcb_of s i) else pcb_of s j.
Proof.
  unfold pcb_of. cbn [k_pcb set_pcb]. case_decide as Hij.
  - subst. by rewrite lookup_insert_eq.
  - by rewrite lookup_insert_ne.
Qed.

Lemma wp_pcb_get i s (Q : pcb → kstate F → Prop) :
  0 ≤ i < 64 → Q (pcb_of s i) s → wp (pcb_get i) s Q.
Proof.
  intros Hi HQ. unfold pcb_get, MAX_PROC. wp_step. apply wp_assert; [lia|]. by apply wp_gets.
Qed.
Lemma wp_pcb_upd i f s (Q : unit → kstate F → Prop) :
  0 ≤ i < 64 → Q tt (set_pcb (<[i := f (pcb_of s i)]> (k_pcb s)) s) → wp (pcb_upd i f) s Q.
Proof.
  intros Hi HQ. unfold pcb_upd, MAX_PROC. wp_step. apply wp_assert; [lia|]. by apply wp_modify.
Qed.
Lemma wlp_pcb_get i s (Q : pcb → kstate F → Prop) :
  (0 ≤ i < 64 → Q (pcb_of s i) s) → wlp (pcb_get i) s Q.
Proof.
  intros HQ. unfold pcb_get, MAX_PROC. wlp_step. apply wlp_assert. intros Hi.
  apply wlp_gets, HQ. lia.
Qed.
Lemma wlp_pcb_upd i f s (Q : unit → kstate F → Prop) :
  (0 ≤ i < 64 → Q tt (set_pcb (<[i := f (pcb_of s i)]> (k_pcb s)) s)) → wlp (pcb_upd i f) s Q.
Proof.
  intros HQ. unfold pcb_upd, MAX_PROC. wlp_step. apply wlp_assert. intros Hi.
  apply wlp_modify, HQ. lia.
Qed.

Lemma slots_elem i : i ∈ slots ↔ 0 ≤ i < 64.
Proof. unfold slots. rewrite elem_of_seqZ. lia. Qed.

(** ** The scheduler *)

Lemma next_order_lookup start k x :
  0 ≤ start < 64 → next_order start !! k = Some x →
  x = (start + Z.of_nat k + 1) mod 64 ∧ (k < 64)%nat.
Proof.
  intros Hs. unfold next_order, MAX_PROC. rewrite list_lookup_fmap.
  destruct (seqZ 1 64 !! k) as [y|] eqn:E; [|done]. simpl. intros [= <-].
  apply lookup_seqZ in E as [-> Hk]. split; [|lia]. rewrite Z.rem_mod_nonneg by lia. f_equal. lia.
Qed.

Lemma next_order_bound start i : 0 ≤ start < 64 → i ∈ next_order start → 0 ≤ i < 64.
Proof.
  intros Hs [k Hk]%list_elem_of_lookup. apply next_order_lookup in Hk as [-> _]; [|done].
  by apply Z.mod_pos_bound.
Qed.

Lemma next_order_all start j : 0 ≤ start < 64 → 0 ≤ j < 64 → j ∈ next_order start.
Proof.
  intros Hs Hj. unfold next_order, MAX_PROC. apply list_elem_of_fmap.
  exists (if j <=? start then j - start + 64 else j - start).
  destruct (Z.leb_spec j start); rewrite elem_of_seqZ, Z.rem_mod_nonneg by lia; split; try lia.
  - replace (start + (j - start + 64)) with (j + 1 * 64) by lia. rewrite Z.mod_add, Z.mod_small; lia.
  - replace (start + (j - start)) with j by lia. rewrite Z.mod_small; lia.
Qed.

(** [find_next_ready] finds the READY slot that comes first after the current
    one, and -1 only when no slot is READY. *)
Lemma find_next_ready_spec s :
  0 ≤ k_current s < 64 →
  wp find_next_ready s (λ n s', s' = s ∧
    ((n = -1 ∧ ∀ j, 0 ≤ j < 64 → state (pcb_of s j) ≠ PROC_READY) ∨
     (∃ d, 1 ≤ d ≤ 64 ∧ n = (k_current s + d) mod 64 ∧ state (pcb_of s n) = PROC_READY ∧
        ∀ e, 1 ≤ e < d → state (pcb_of s ((k_current s + e) mod 64)) ≠ PROC_READY))).
Proof.
  intros Hc. unfold find_next_ready. wp_step. wp_step. wp_step. apply wp_assert.
  { apply Is_true_eq_true, forallb_True, Forall_forall. intros i Hi%next_order_bound; [|done].
    unfold MAX_PROC. apply Is_true_eq_left. lia. }
  apply wp_gets. split; [done|]. set (f := λ i, state (pcb_of s i) =? PROC_READY).
  destruct (find_first_lookup f (next_order (k_current s))) as [[-> Hno]|(k & Hk & Hf & Hb)].
  - left. split; [done|]. intros j Hj. apply Z.eqb_neq. by apply Hno, next_order_all.
  - right. apply next_order_lookup in Hk as [Hn Hk]; [|done]. exists (Z.of_nat k + 1).
    split_and!; [lia|lia|rewrite Hn; f_equal; lia|by apply Z.eqb_eq|].
    intros e He. apply Z.eqb_neq, (Hb (Z.to_nat (e - 1))); [lia|].
    unfold next_order, MAX_PROC. rewrite list_lookup_fmap.
    rewrite (proj2 (lookup_seqZ 1 64 (Z.to_nat (e - 1)) e)) by lia. simpl.
    by rewrite Z.rem_mod_nonneg by lia.
Qed.

(** What a switch to [n] leaves. *)
Definition switched (s : kstate F) (n : Z) (s' : kstate F) : Prop :=
  k_current s' = n ∧ state (pcb_of s' n) = PROC_RUNNING ∧
  (∀ j, j ≠ n → j ≠ k_current s → pcb_of s' j = pcb_of s j) ∧
  (n ≠ k_current s → state (pcb_of s' (k_current s)) =
     if state (pcb_of s (k_current s)) =? PROC_RUNNING then PROC_READY
     else state (pcb_of s (k_current s))) ∧
  (∀ j, pid (pcb_of s' j) = pid (pcb_of s j)) ∧
  k_tss_rsp0 s' = rsp0 (pcb_of s n) ∧
  k_heap s' = k_heap s ∧ k_fds s' = k_fds s ∧ k_count s' = k_count s ∧ k_next_pid s' = k_next_pid s.

(** The slot table after the two updates of [switch_slots]. *)
Lemma switch_table s c n (f : pcb → pcb) :
  n ≠ c →
  let s1 := set_pcb (<[c := f (pcb_of s c)]> (k_pcb s)) s in
  let s2 := set_pcb (<[n := with_state PROC_RUNNING (pcb_of s1 n)]> (k_pcb s1)) s1 in
  ∀ j, pcb_of s2 j = if decide (n = j) then with_state PROC_RUNNING (pcb_of s n)
                     else if decide (c = j) then f (pcb_of s c) else pcb_of s j.
Proof.
  intros Hne s1 s2 j. unfold s2. rewrite (pcb_of_upd n (with_state PROC_RUNNING) s1).
  unfold s1. rewrite !pcb_of_upd. repeat case_decide; congruence.
Qed.

Lemma switched_intro s c n f (v : Z) :
  c = k_current s → n ≠ c →
  (∀ p, pid (f p) = pid p) →
  state (f (pcb_of s c)) = (if state (pcb_of s c) =? PROC_RUNNING then PROC_READY else state (pcb_of s c)) →
  v = rsp0 (pcb_of s n) →
  let s1 := set_pcb (<[c := f (pcb_of s c)]> (k_pcb s)) s in
  let s2 := set_pcb (<[n := with_state PROC_RUNNING (pcb_of s1 n)]> (k_pcb s1)) s1 in
  switched s n (set_tss_rsp0 v (set_current n s2)).
Proof.
  intros -> Hne Hpid Hst -> s1 s2. pose proof (switch_table s (k_current s) n f Hne) as Ht.
  cbv zeta in Ht. fold s1 in Ht. fold s2 in Ht.
  assert (Hp : ∀ v j, pcb_of (set_tss_rsp0 v (set_current n s2)) j = pcb_of s2 j) by done.
  unfold switched. split_and!; try done.
  - by rewrite Hp, Ht, decide_True.
  - intros j Hj Hjc. by rewrite Hp, Ht, !decide_False.
  - intros _. by rewrite Hp, Ht, decide_False, decide_True.
  - intros j. rewrite Hp, Ht. repeat case_decide; subst; [done|apply Hpid|done].
Qed.

Lemma switch_slots_spec s n :
  0 ≤ k_current s < 64 → 0 ≤ n < 64 → n ≠ k_current s →
  wp (switch_slots (k_current s) n) s (λ r s', ∃ b,
    r = Some (mkSwitch (k_current s) n b) ∧ switched s n s').
Proof.
  intros Hc Hn Hne. unfold switch_slots. set (c := k_current s) in *.
  wp_step. apply wp_pcb_upd; [lia|]. wp_step. apply wp_pcb_get; [lia|].
  rewrite pcb_of_upd, decide_True by done. cbn [state with_in_kern]. wp_step.
  set (f := λ p, if state (pcb_of s c) =? PROC_RUNNING then with_state PROC_READY (with_in_kern 0 p)
                 else with_in_kern 0 p).
  eapply (wp_mono _ _ (λ _ s1, s1 = set_pcb (<[c := f (pcb_of s c)]> (k_pcb s)) s)).
  { unfold f. destruct (state (pcb_of s c) =? PROC_RUNNING); [|by apply wp_skip].
    apply wp_pcb_upd; [lia|]. rewrite pcb_of_upd, decide_True by done.
    cbn [k_pcb set_pcb]. by rewrite insert_insert_eq. }
  intros [] s1 ->. wp_step. apply wp_pcb_upd; [lia|]. wp_step. wp_step. wp_step.
  apply wp_pcb_get; [lia|]. wp_step. wp_step. wp_step. wp_step. wp_step.
  apply wp_pcb_get; [lia|]. wp_step. eexists. split; [reflexivity|].
  apply (switched_intro s c n f); try done.
  - intros p. unfold f. by destruct (_ =? _).
  - unfold f. by destruct (_ =? _).
  - change (rsp0 (pcb_of (set_current n ?x) n)) with (rsp0 (pcb_of x n)).
    rewrite (switch_table s c n f Hne), decide_True by done. done.
Qed.

(** Going all the way round leads back to the start. *)
Lemma full_circle c d n :
  0 ≤ c < 64 → 1 ≤ d ≤ 64 → n = (c + d) mod 64 → (n = c ↔ d = 64).
Proof.
  intros Hc Hd ->. split.
  - intros E. pose proof (Z.div_mod (c + d) 64 ltac:(lia)). lia.
  - intros ->. replace (c + 64) with (c + 1 * 64) by lia. rewrite Z.mod_add, Z.mod_small; lia.
Qed.

Lemma circle_reach c j : 0 ≤ c < 64 → 0 ≤ j < 64 → (c + (j - c) mod 64) mod 64 = j.
Proof.
  intros Hc Hj. rewrite Zplus_mod_idemp_r. replace (c + (j - c)) with j by lia. by apply Z.mod_small.
Qed.

Lemma circle_dist c j : 0 ≤ c < 64 → 0 ≤ j < 64 → j ≠ c → 1 ≤ (j - c) mod 64 < 64.
Proof.
  intros Hc Hj Hne. pose proof (Z.mod_pos_bound (j - c) 64 ltac:(lia)).
  destruct (decide ((j - c) mod 64 = 0)) as [E|]; [|lia]. apply Z.mod_divide in E as [q Hq]; lia.
Qed.

Lemma schedule_spec s :
  0 ≤ k_current s < 64 →
  wp schedule s (λ r s',
    (r = None ∧ s' = s ∧ ∀ j, 0 ≤ j < 64 → j ≠ k_current s → state (pcb_of s j) ≠ PROC_READY) ∨
    (∃ d b, 1 ≤ d < 64 ∧ let n := (k_current s + d) mod 64 in
       r = Some (mkSwitch (k_current s) n b) ∧ n ≠ k_current s ∧ switched s n s' ∧
       state (pcb_of s n) = PROC_READY ∧
       ∀ e, 1 ≤ e < d → state (pcb_of s ((k_current s + e) mod 64)) ≠ PROC_READY)).
Proof.
  intros Hc. unfold schedule. wp_step. eapply wp_mono; [by apply find_next_ready_spec|].
  intros n ? [-> Hn]. wp_step. wp_step.
  destruct Hn as [[-> Hno]|(d & Hd & Hnd & Hrd & Hb)].
  { cbn [Z.eqb Pos.eqb orb]. wp_step. left. split_and!; [done..|]. auto. }
  assert (Hn : 0 ≤ n < 64) by (rewrite Hnd; by apply Z.mod_pos_bound).
  pose proof (full_circle _ _ _ Hc Hd Hnd) as Hfull.
  replace (n =? -1) with false by lia. cbn [orb]. destruct (Z.eqb_spec n (k_current s)) as [Enc|Hne].
  - wp_step. left. split_and!; [done..|]. intros j Hj Hjc. apply Hfull in Enc as ->.
    rewrite <- (circle_reach (k_current s) j) by done. by apply Hb, circle_dist.
  - eapply wp_mono; [by apply switch_slots_spec|]. intros r s' (b & -> & Hsw). right. exists d, b.
    split; [lia|]. rewrite <- Hnd. by split_and!.
Qed.

(** ** Fairness *)

(** [k] calls of [schedule] in a row. *)
Fixpoint run_schedule (k : nat) : M (kstate F) unit :=
  match k with O => skip | S k' => let! _ := schedule in run_schedule k' end.

Lemma ready_runs n s j :
  0 ≤ k_current s < 64 → 0 ≤ j < 64 → state (pcb_of s j) = PROC_READY → j ≠ k_current s →
  (Z.to_nat ((j - k_current s) mod 64) ≤ n)%nat →
  ∃ k s', (k ≤ n)%nat ∧ run_schedule k s = Some (tt, s') ∧ k_current s' = j ∧
    state (pcb_of s' j) = PROC_RUNNING.
Proof.
  revert s. induction n as [|n IH]; intros s Hc Hj Hst Hne Hdist.
  { pose proof (circle_dist _ _ Hc Hj Hne). lia. }
  pose proof (circle_dist _ _ Hc Hj Hne) as Hdj.
  destruct (schedule_spec s Hc) as (r & s1 & Hrun & [(_ & _ & Hno)|(d & b & Hd & -> & Hnc & Hsw & Hr & Hb)]).
  { by destruct (Hno j Hj Hne). }
  set (m := (k_current s + d) mod 64) in *. destruct Hsw as (Hcur & Hrunn & Hoth & _).
  destruct (decide (m = j)) as [Emj|Hmj].
  - exists 1%nat, s1. simpl. unfold bind. rewrite Hrun. split_and!; [lia|done|congruence|by rewrite <- Emj].
  - assert (Hdlt : d < (j - k_current s) mod 64).
    { destruct (Z.lt_trichotomy d ((j - k_current s) mod 64)) as [|[E|Hgt]]; [done|exfalso..].
      - apply Hmj. unfold m. rewrite E. by apply circle_reach.
      - apply (Hb ((j - k_current s) mod 64)); [lia|]. by rewrite circle_reach. }
    assert (Hm : 0 ≤ m < 64) by (by apply Z.mod_pos_bound).
    assert (Hd' : (j - m) mod 64 = (j - k_current s) mod 64 - d).
    { unfold m. rewrite Zminus_mod_idemp_r. rewrite <- (Z.mod_small ((j - k_current s) mod 64 - d) 64) by lia.
      rewrite Zminus_mod_idemp_l. f_equal. lia. }
    destruct (IH s1) as (k & s' & Hk & Hrun' & Hres); try rewrite Hcur; try done.
    + by rewrite Hoth.
    + rewrite Hd'. lia.
    + exists (S k), s'. split; [lia|]. simpl. unfold bind. by rewrite Hrun.
Qed.

(** ** Process identifiers *)

(** Live processes have distinct identifiers below [next_pid], and the slots
    from [pcb_count] on are EMPTY. *)
Record table_ok (s : kstate F) : Prop := {
  to_next : 1 ≤ k_next_pid s;
  to_count0 : 0 ≤ k_count s;
  to_count : ∀ i, k_count s ≤ i < 64 → state (pcb_of s i) = PROC_EMPTY;
  to_bound : ∀ i, 0 ≤ i < 64 → state (pcb_of s i) ≠ PROC_EMPTY → 0 ≤ pid (pcb_of s i) < k_next_pid s;
  to_inj : ∀ i j, 0 ≤ i < 64 → 0 ≤ j < 64 →
    state (pcb_of s i) ≠ PROC_EMPTY → state (pcb_of s j) ≠ PROC_EMPTY →
    pid (pcb_of s i) = pid (pcb_of s j) → i = j }.

(** Operations that neither revive a slot nor change an identifier. *)
Definition calmer (s s' : kstate F) : Prop :=
  (∀ i, pid (pcb_of s' i) = pid (pcb_of s i)) ∧
  (∀ i, state (pcb_of s' i) ≠ PROC_EMPTY → state (pcb_of s i) ≠ PROC_EMPTY) ∧
  k_count s ≤ k_count s' ∧ k_next_pid s' = k_next_pid s.

#[local] Instance calmer_preorder : PreOrder calmer.
Proof.
  split; [by intros s; split_and!|].
  intros s1 s2 s3 (A1 & B1 & C1 & D1) (A2 & B2 & C2 & D2). split_and!;
    [intros i; by rewrite A2|intros i Hi; by apply B1, B2|lia|congruence].
Qed.

Lemma table_ok_calmer s s' : table_ok s → calmer s s' → table_ok s'.
Proof.
  intros [Hn H0 Hc Hb Hi] (Hp & Hs & Hcnt & Hnx). split; rewrite ?Hnx; try done; try lia.
  - intros i Hr. destruct (decide (state (pcb_of s' i) = PROC_EMPTY)) as [|Hne]; [done|].
    exfalso. apply (Hs i Hne), Hc. lia.
  - intros i Hr Hne. rewrite Hp. by apply Hb, Hs.
  - intros i j Hri Hrj Hsi Hsj. rewrite !Hp. apply Hi; auto.
Qed.

Lemma wlp_calmer_upd s0 s i f (Q : unit → kstate F → Prop) :
  calmer s0 s → (∀ p, pid (f p) = pid p) →
  (state (f (pcb_of s i)) ≠ PROC_EMPTY → state (pcb_of s0 i) ≠ PROC_EMPTY) →
  (∀ s', calmer s0 s' → Q tt s') → wlp (pcb_upd i f) s Q.
Proof.
  intros (Hp & Hs & Hc & Hn) Hpf Hsf HQ. apply wlp_pcb_upd. intros _. apply HQ.
  split_and!; [| |done..]; intros j; rewrite pcb_of_upd; case_decide as Hij; auto; subst j.
  - by rewrite Hpf.
  - done.
Qed.

(** A process is made in slot [i]: the slot was EMPTY and gets the next
    identifier; no other slot changes. *)
Definition making (s0 : kstate F) (i : Z) (s : kstate F) : Prop :=
  (∀ j, j ≠ i → pcb_of s j = pcb_of s0 j) ∧
  state (pcb_of s i) = PROC_READY ∧ pid (pcb_of s i) = k_next_pid s0 ∧
  k_next_pid s = k_next_pid s0 + 1 ∧ k_count s0 ≤ k_count s.

Lemma table_ok_made s0 i s :
  table_ok s0 → state (pcb_of s0 i) = PROC_EMPTY → making s0 i s → i < k_count s → table_ok s.
Proof.
  intros [Hn H0 Hc Hb Hi] He (Ho & Hst & Hpid & Hnx & Hcnt) Hlt. split; rewrite ?Hnx; try lia.
  - intros j Hj. rewrite Ho by lia. apply Hc. lia.
  - intros j Hj Hne. destruct (decide (j = i)) as [-> |Hji]; [lia|].
    rewrite Ho in * by done. specialize (Hb j Hj Hne). lia.
  - assert (Hnew : ∀ k, 0 ≤ k < 64 → k ≠ i → state (pcb_of s k) ≠ PROC_EMPTY →
      pid (pcb_of s k) ≠ k_next_pid s0).
    { intros k Hk Hki Hsk. rewrite Ho in * by done. specialize (Hb k Hk Hsk). lia. }
    intros j k Hj Hk Hsj Hsk E. destruct (decide (j = i)) as [-> |Hji], (decide (k = i)) as [-> |Hki]; try done.
    + rewrite Hpid in E. symmetry in E. by apply Hnew in E.
    + rewrite Hpid in E. by apply Hnew in E.
    + rewrite !Ho in * by done. by apply Hi.
Qed.

Lemma wlp_making_upd s0 i s f (Q : unit → kstate F → Prop) :
  making s0 i s → (∀ p, pid (f p) = pid p) → (∀ p, state (f p) = state p) →
  (∀ s', making s0 i s' → k_count s' = k_count s → Q tt s') → wlp (pcb_upd i f) s Q.
Proof.
  intros (Ho & Hst & Hpid & Hnx & Hcnt) Hp Hs HQ. apply wlp_pcb_upd. intros _. apply HQ; [|done].
  split_and!; try done.
  - intros j Hj. rewrite pcb_of_upd. case_decide; [congruence|by apply Ho].
  - rewrite pcb_of_upd, decide_True by done. by rewrite Hs.
  - rewrite pcb_of_upd, decide_True by done. by rewrite Hp.
Qed.

Lemma wlp_making_heap {A} s0 i s (m : M heap A) (Q : A → kstate F → Prop) :
  making s0 i s → (∀ a s', making s0 i s' → k_count s' = k_count s → Q a s') → wlp (on_heap m) s Q.
Proof. intros Hm HQ. apply wlp_zoom. intros a t _. apply HQ; [exact Hm|done]. Qed.

Lemma wlp_making_fds {A} s0 i s (m : M (fdstate F) A) (Q : A → kstate F → Prop) :
  making s0 i s → (∀ a s', making s0 i s' → k_count s' = k_count s → Q a s') → wlp (on_fds m) s Q.
Proof. intros Hm HQ. apply wlp_zoom. intros a t _. apply HQ; [exact Hm|done]. Qed.

Lemma wlp_making_raise s0 i s (Q : unit → kstate F → Prop) :
  making s0 i s → (∀ s', making s0 i s' → i < k_count s' → Q tt s') → wlp (raise_count i) s Q.
Proof.
  intros (Ho & Hst & Hpid & Hnx & Hcnt) HQ. unfold raise_count. wlp_step. wlp_step.
  destruct (Z.leb_spec (k_count s) i); wlp_step; apply HQ; try lia;
    cbn [k_count set_count]; try lia; split_and!; try done; cbn [k_count set_count]; lia.
Qed.

(** The first update of the new slot. *)
Lemma wlp_making_start s0 t v i f (Q : unit → kstate F → Prop) :
  k_next_pid s0 < 2 ^ 31 - 1 → 1 ≤ k_next_pid s0 → k_count s0 ≤ v →
  (∀ p, pid (f p) = k_next_pid s0) → (∀ p, state (f p) = PROC_READY) →
  (∀ s', making s0 i s' → k_count s' = v → Q tt s') →
  wlp (pcb_upd i f) (set_next_pid (s32 (k_next_pid s0 + 1)) (set_heap t (set_count v s0))) Q.
Proof.
  intros Hlt H1 Hv Hp Hs HQ. apply wlp_pcb_upd. intros _. apply HQ; [|done].
  split_and!; try done.
  - intros j Hj. rewrite pcb_of_upd. by case_decide.
  - by rewrite pcb_of_upd, decide_True.
  - by rewrite pcb_of_upd, decide_True.
  - cbn. apply s32_small. lia.
Qed.

Lemma free_slot_empty s i :
  i = find_first (λ i, state (pcb_of s i) =? PROC_EMPTY) slots → (i <? 0) = false →
  state (pcb_of s i) = PROC_EMPTY ∧ 0 ≤ i < 64.
Proof.
  intros -> Hi. destruct (find_first_spec (λ i, state (pcb_of s i) =? PROC_EMPTY) slots)
    as [[E _]|[Hin Hf]]; [by rewrite E in Hi|]. split; [by apply Z.eqb_eq|by apply slots_elem].
Qed.

Lemma table_ok_heap s t : table_ok s → table_ok (set_heap t s).
Proof. intros HT. by apply (table_ok_calmer s). Qed.
Lemma table_ok_fds s t : table_ok s → table_ok (set_fds t s).
Proof. intros HT. by apply (table_ok_calmer s). Qed.

(** What creation promises: no slot changes and the result is -1, or a process with the
    next identifier is made in an EMPTY slot. *)
Definition creates (s : kstate F) (r : Z) (s' : kstate F) : Prop :=
  (r = -1 ∧ k_pcb s' = k_pcb s ∧ table_ok s') ∨
  (r = k_next_pid s ∧ ∃ i, 0 ≤ i < 64 ∧ state (pcb_of s i) = PROC_EMPTY ∧ making s i s' ∧ i < k_count s').

Lemma creates_table s r s' : table_ok s → creates s r s' → table_ok s'.
Proof. intros HT [(_ & _ & ?)|(_ & i & _ & ? & ? & ?)]; [done|]. by apply (table_ok_made s i). Qed.

Lemma spawn_creates s n e u :
  table_ok s → k_next_pid s < 2 ^ 31 - 1 → wlp (proc_spawn n e u) s (creates s).
Proof.
  intros HT Hlt. unfold proc_spawn, free_slot. wlp_step. wlp_step.
  destruct (find_first _ _ <? 0) eqn:Ei; [wlp_step; by left|].
  destruct (free_slot_empty s _ eq_refl Ei) as [He Hi]. set (i := find_first _ _) in *. clearbody i.
  wlp_step. apply wlp_zoom. intros kst t1 _. destruct (nz kst); cbn [negb]; [|wlp_step; left; split_and!; [done..|by apply table_ok_heap]].
  wlp_step. apply wlp_zoom. intros pm t2 _. destruct (nz pm); cbn [negb].
  2:{ wlp_step. apply wlp_zoom. intros ? t3 _. wlp_step. left. split_and!; [done..|]. by repeat apply table_ok_heap. }
  wlp_step. unfold take_pid. wlp_step. wlp_step. wlp_step. wlp_step. wlp_step. wlp_step. wlp_step. wlp_step.
  pose proof (to_next _ HT). cbn [k_next_pid set_heap].
  replace (set_heap t2 (set_heap t1 s)) with (set_heap t2 (set_count (k_count s) s)) by (by destruct s).
  apply wlp_making_start; try done. intros s1 Hm1 _.
  wlp_step. eapply wlp_making_heap; [done|]. intros m s2 Hm2 _. wlp_step.
  eapply wlp_making_upd; [done..|]. intros s3 Hm3 _. wlp_step.
  eapply wlp_making_raise; [done|]. intros s4 Hm4 Hc4. wlp_step.
  eapply wlp_making_heap; [done|]. intros sp s5 Hm5 Hc5. wlp_step.
  eapply wlp_making_upd; [done..|]. intros s6 Hm6 Hc6. wlp_step.
  right. split; [done|]. exists i. split_and!; [lia..|done|done|lia].
Qed.

Lemma spawn_table s n e u :
  table_ok s → k_next_pid s < 2 ^ 31 - 1 → wlp (proc_spawn n e u) s (λ _ s', table_ok s').
Proof. intros HT Hlt. eapply wlp_mono; [by apply spawn_creates|]. intros r s'. by apply creates_table. Qed.

Lemma table_ok_count s v : table_ok s → k_count s ≤ v → table_ok (set_count v s).
Proof. intros HT Hv. by apply (table_ok_calmer s). Qed.

Lemma create_creates s n e u z :
  table_ok s → k_next_pid s < 2 ^ 31 - 1 → wlp (process_create_user n e u z) s (creates s).
Proof.
  intros HT Hlt. pose proof (to_count0 _ HT) as Hc0. unfold process_create_user, alloc_pcb, MAX_PROC. wlp_step. wlp_step. wlp_step.
  destruct (Z.leb_spec 64 (k_count s)) as [|Hc]; [wlp_step; cbn [Z.ltb Z.compare]; wlp_step; by left|].
  wlp_step. wlp_step. wlp_step. replace (k_count s <? 0) with false by lia.
  wlp_step. apply wlp_zoom. intros kst t1 _. destruct (nz kst); cbn [negb].
  2:{ wlp_step. left. split_and!; [done..|]. apply table_ok_heap, table_ok_count; [done|lia]. }
  wlp_step. unfold take_pid. wlp_step. wlp_step. wlp_step. wlp_step. wlp_step. wlp_step.
  apply wlp_zoom. intros cr t2 _. wlp_step. wlp_step. wlp_step.
  pose proof (to_next _ HT). cbn [k_next_pid set_heap set_count].
  change (set_heap t2 (set_next_pid ?x (set_heap t1 ?y))) with (set_next_pid x (set_heap t2 y)).
  apply wlp_making_start; try done; [lia|]. intros s1 Hm1 Hc1.
  wlp_step. eapply wlp_making_heap; [done|]. intros m s2 Hm2 Hc2. wlp_step.
  eapply wlp_making_upd; [done..|]. intros s3 Hm3 Hc3. wlp_step.
  unfold setup_user_stack. wlp_step. apply wlp_pcb_get. intros _. wlp_step.
  eapply wlp_making_heap; [done|]. intros sp s4 Hm4 Hc4.
  eapply wlp_making_upd; [done..|]. intros s5 Hm5 Hc5. wlp_step.
  right. split; [done|]. exists (k_count s). split_and!; [lia..|apply (to_count _ HT); lia|done|lia].
Qed.

Lemma create_table s n e u z :
  table_ok s → k_next_pid s < 2 ^ 31 - 1 →
  wlp (process_create_user n e u z) s (λ _ s', table_ok s').
Proof. intros HT Hlt. eapply wlp_mono; [by apply create_creates|]. intros r s'. by apply creates_table. Qed.

Lemma process_current_live s i :
  i = find_first (λ i, negb (state (pcb_of s i) =? PROC_EMPTY) && (pid (pcb_of s i) =? k_current s)) slots →
  (i <? 0) = false → state (pcb_of s i) ≠ PROC_EMPTY ∧ 0 ≤ i < 64 ∧ pid (pcb_of s i) = k_current s.
Proof.
  intros -> Hi. set (f := λ i : Z, _) in *.
  destruct (find_first_spec f slots) as [[E _]|[Hin Hf]]; [by rewrite E in Hi|].
  apply andb_true_iff in Hf as [Hf Hp]. apply negb_true_iff, Z.eqb_neq in Hf. apply Z.eqb_eq in Hp.
  split_and!; try done; by apply slots_elem.
Qed.

Lemma fork_table s kf ur fs :
  table_ok s → k_next_pid s < 2 ^ 31 - 1 → wlp (proc_fork kf ur fs) s (λ _ s', table_ok s').
Proof.
  intros HT Hlt. unfold proc_fork, process_current, free_slot. wlp_step. wlp_step.
  destruct (_ || _); [by wlp_step|]. wlp_step. wlp_step.
  destruct (find_first _ _ <? 0) eqn:Ei in |- *; [by wlp_step|].
  destruct (free_slot_empty s _ eq_refl Ei) as [He Hi].
  set (i := find_first (λ i, state (pcb_of s i) =? PROC_EMPTY) slots) in *. clearbody i.
  wlp_step. apply wlp_zoom. intros kst t1 _. destruct (nz kst); cbn [negb]; [|wlp_step; by apply table_ok_heap].
  wlp_step. apply wlp_zoom. intros pm t2 _. destruct (nz pm); cbn [negb].
  2:{ wlp_step. apply wlp_zoom. intros ? t3 _. wlp_step. by repeat apply table_ok_heap. }
  wlp_step. unfold take_pid. wlp_step. wlp_step. wlp_step. wlp_step. wlp_step. wlp_step.
  apply wlp_pcb_get. intros _. wlp_step. pose proof (to_next _ HT). cbn [k_next_pid set_heap].
  replace (set_heap t2 (set_heap t1 s)) with (set_heap t2 (set_count (k_count s) s)) by (by destruct s).
  apply wlp_making_start; try done. intros s1 Hm1 _.
  wlp_step. eapply wlp_making_heap; [done|]. intros m s2 Hm2 _. wlp_step.
  eapply wlp_making_upd; [done..|]. intros s3 Hm3 _. wlp_step.
  eapply wlp_making_raise; [done|]. intros s4 Hm4 Hc4. wlp_step.
  eapply wlp_making_heap; [done|]. intros [] s5 Hm5 Hc5. wlp_step.
  eapply wlp_making_fds; [done|]. intros [] s6 Hm6 Hc6. wlp_step.
  eapply wlp_making_upd; [done..|]. intros s7 Hm7 Hc7. wlp_step.
  eapply wlp_making_upd; [done..|]. intros s8 Hm8 Hc8. wlp_step.
  eapply wlp_making_heap; [done|]. intros [] s9 Hm9 Hc9. wlp_step.
  eapply wlp_making_heap; [done|]. intros rip sa Hma Hca. wlp_step.
  eapply wlp_making_upd; [done..|]. intros sb Hmb Hcb. wlp_step.
  eapply table_ok_made; [done..|]. lia.
Qed.

Lemma clone_table s fl nsp pt ct tl kf :
  table_ok s → k_next_pid s < 2 ^ 31 - 1 → wlp (proc_clone_thread fl nsp pt ct tl kf) s (λ _ s', table_ok s').
Proof.
  intros HT Hlt. unfold proc_clone_thread, process_current, free_slot. wlp_step. wlp_step.
  destruct (_ || _); [by wlp_step|]. destruct (_ || _); [by wlp_step|]. wlp_step. wlp_step.
  destruct (find_first _ _ <? 0) eqn:Ei in |- *; [by wlp_step|].
  destruct (free_slot_empty s _ eq_refl Ei) as [He Hi].
  set (i := find_first (λ i, state (pcb_of s i) =? PROC_EMPTY) slots) in *. clearbody i.
  wlp_step. apply wlp_zoom. intros kst t1 _. destruct (nz kst); cbn [negb]; [|wlp_step; by apply table_ok_heap].
  wlp_step. unfold take_pid. wlp_step. wlp_step. wlp_step. wlp_step. wlp_step. wlp_step.
  apply wlp_pcb_get. intros _. wlp_step. pose proof (to_next _ HT). cbn [k_next_pid set_heap].
  replace (set_heap t1 s) with (set_heap t1 (set_count (k_count s) s)) by (by destruct s).
  apply wlp_making_start; try done. intros s1 Hm1 _.
  wlp_step. eapply wlp_making_raise; [done|]. intros s2 Hm2 Hc2. wlp_step.
  eapply wlp_making_upd; [done..|]. intros s3 Hm3 Hc3. wlp_step.
  eapply (wlp_mono _ _ (λ _ s', making s i s' ∧ k_count s' = k_count s3)).
  { destruct (_ && _); [|by wlp_step]. eapply wlp_making_heap; [done|]. by intros [] s'. }
  intros [] s4 [Hm4 Hc4]. wlp_step.
  eapply (wlp_mono _ _ (λ _ s', making s i s' ∧ k_count s' = k_count s4)).
  { destruct (_ && _); [|by wlp_step]. eapply wlp_making_heap; [done|]. by intros [] s'. }
  intros [] s5 [Hm5 Hc5]. wlp_step.
  eapply wlp_making_heap; [done|]. intros prsp s6 Hm6 Hc6. wlp_step.
  eapply wlp_making_heap; [done|]. intros [] s7 Hm7 Hc7. wlp_step.
  eapply wlp_making_heap; [done|]. intros rip s8 Hm8 Hc8. wlp_step.
  eapply wlp_making_upd; [done..|]. intros s9 Hm9 Hc9. wlp_step.
  eapply table_ok_made; [done..|]. lia.
Qed.

Lemma switch_slots_calmer s0 s p n :
  calmer s0 s → state (pcb_of s0 n) ≠ PROC_EMPTY →
  wlp (switch_slots p n) s (λ _ s', calmer s0 s').
Proof.
  intros Hc Hn. unfold switch_slots. wlp_step.
  eapply (wlp_calmer_upd s0); [done|done|by apply Hc|]. intros s1 Hc1. wlp_step.
  apply wlp_pcb_get. intros _. wlp_step. eapply (wlp_mono _ _ (λ _ s', calmer s0 s')).
  { destruct (Z.eqb_spec (state (pcb_of s1 p)) PROC_RUNNING) as [E|]; [|by wlp_step].
    eapply (wlp_calmer_upd s0); [done|done| |done]. intros _. apply Hc1. by rewrite E. }
  intros [] s2 Hc2. wlp_step. eapply (wlp_calmer_upd s0); [done|done|done|]. intros s3 Hc3.
  wlp_step. wlp_step. wlp_step. apply wlp_pcb_get. intros _. wlp_step. wlp_step. wlp_step. wlp_step.
  wlp_step. apply wlp_pcb_get. intros _. wlp_step. exact Hc3.
Qed.

Lemma schedule_calmer s0 s : calmer s0 s → wlp schedule s (λ _ s', calmer s0 s').
Proof.
  intros Hc. unfold schedule, find_next_ready. wlp_step. wlp_step. wlp_step. wlp_step.
  apply wlp_assert. intros _. wlp_step. wlp_step. wlp_step.
  set (f := λ i, state (pcb_of s i) =? PROC_READY).
  destruct (find_first_spec f (next_order (k_current s))) as [[-> _]|[_ Hf]].
  { cbn [Z.eqb Pos.eqb orb]. wlp_step. done. }
  destruct (_ || _); [by wlp_step|]. apply switch_slots_calmer; [done|].
  apply Hc. apply Z.eqb_eq in Hf. by rewrite Hf.
Qed.

Lemma wake_calmer s0 s c : calmer s0 s → wlp (proc_wake_parent c) s (λ _ s', calmer s0 s').
Proof.
  intros Hc. unfold proc_wake_parent. wlp_step. wlp_step.
  set (f := λ i : Z, _). destruct (find_first_spec f slots) as [[-> _]|[_ Hf]].
  { cbn [Z.ltb Z.compare]. by wlp_step. }
  destruct (_ <? 0); [by wlp_step|]. eapply (wlp_calmer_upd s0); [done|done| |done].
  intros _. apply Hc. apply andb_true_iff in Hf as [Hf _]. apply Z.eqb_eq in Hf. by rewrite Hf.
Qed.

Lemma exit_current_calmer s c : wlp (process_exit_current c) s (λ _ s', calmer s s').
Proof.
  unfold process_exit_current, process_current. wlp_step. wlp_step.
  destruct (find_first _ _ <? 0) eqn:Ei; [by wlp_step|].
  destruct (process_current_live s _ eq_refl Ei) as (He & Hi & _). set (i := find_first _ _) in *. clearbody i.
  wlp_step. apply wlp_pcb_get. intros _. wlp_step. apply wlp_zoom. intros [] t _. wlp_step.
  eapply (wlp_calmer_upd s); [done|done|done|]. intros s1 Hc1. wlp_step.
  eapply wlp_mono; [by apply wake_calmer|]. intros [] s2 Hc2. cbv zeta. wlp_step.
  apply wlp_pcb_get. intros _. wlp_step. eapply (wlp_mono _ _ (λ _ s', calmer s s')).
  { destruct (_ || _) eqn:E; [|by wlp_step]. eapply (wlp_calmer_upd s); [done|done| |done].
    intros _. apply Hc2. apply orb_true_iff in E as [E|E]; apply Z.eqb_eq in E; by rewrite E. }
  intros [] s3 Hc3. wlp_step. wlp_step. wlp_step. apply wlp_pcb_get. intros _.
  wlp_step. wlp_step. wlp_step. exact Hc3.
Qed.

Lemma exit_calmer s c :
  state (pcb_of s (k_current s)) ≠ PROC_EMPTY → wlp (proc_exit c) s (λ _ s', calmer s s').
Proof.
  intros He. unfold proc_exit. wlp_step. wlp_step. destruct (_ || _); [by wlp_step|].
  wlp_step. apply wlp_zoom. intros [] t _. wlp_step.
  eapply (wlp_calmer_upd s); [done|done|done|]. intros s1 Hc1. wlp_step.
  apply wlp_pcb_get. intros _. wlp_step. eapply wlp_mono; [by apply wake_calmer|].
  intros [] s2 Hc2. by apply schedule_calmer.
Qed.

Lemma switch_to_calmer s p :
  state (pcb_of s (k_current s)) ≠ PROC_EMPTY → wlp (process_switch_to p) s (λ _ s', calmer s s').
Proof.
  intros He. unfold process_switch_to, process_current. wlp_step. wlp_step.
  destruct (_ <? 0); [by wlp_step|]. wlp_step. wlp_step. set (f := λ i : Z, _ && (_ =? p)).
  destruct (find_first_spec f slots) as [[-> _]|[_ Hf]]; [cbn [Z.ltb Z.compare]; by wlp_step|].
  apply andb_true_iff in Hf as [Hf _]. apply negb_true_iff, Z.eqb_neq in Hf.
  destruct (_ <? 0); [by wlp_step|]. wlp_step. wlp_step. wlp_step.
  eapply (wlp_calmer_upd s); [done|done|done|]. intros s1 Hc1. wlp_step. wlp_step. wlp_step.
  eapply (wlp_calmer_upd s); [exact Hc1|done|done|]. intros s2 Hc2. wlp_step.
  apply wlp_pcb_get. intros _. wlp_step. wlp_step. wlp_step. exact Hc2.
Qed.

Lemma wait_calmer s p : wlp (proc_waitpid_round p) s (λ _ s', calmer s s').
Proof.
  unfold proc_waitpid_round, find_pid. wlp_step. wlp_step. destruct (_ <? 0); [by wlp_step|].
  wlp_step. apply wlp_pcb_get. intros _. destruct (_ =? _).
  - wlp_step. apply wlp_zoom. intros ? t _. wlp_step. apply wlp_zoom. intros [] t' _. wlp_step.
    eapply (wlp_calmer_upd s); [done|done|done|]. intros s1 Hc1. by wlp_step.
  - wlp_step. eapply wlp_mono; [by apply (schedule_calmer s)|]. intros sw s1 Hc1. by wlp_step.
Qed.

Lemma thread_exit_calmer s c : wlp (proc_thread_exit c) s (λ _ s', calmer s s').
Proof.
  unfold proc_thread_exit, process_current. wlp_step. wlp_step. destruct (_ <? 0); [by wlp_step|].
  wlp_step. apply wlp_pcb_get. intros _. wlp_step. eapply (wlp_mono _ _ (λ _ s', calmer s s')).
  { destruct (nz _); [|by wlp_step]. apply wlp_zoom. by intros [] t _. }
  intros [] s1 Hc1. wlp_step. eapply (wlp_calmer_upd s); [done|done|done|]. intros s2 Hc2.
  by apply schedule_calmer.
Qed.

(** ** Reachable process tables *)

(** An operation on the table. *)
Inductive kop :=
  | KCreate (n : list Z) (e u z : Z) | KSpawn (n : list Z) (e u : Z)
  | KFork (kf ur fs : Z) | KClone (fl nsp pt ct tl kf : Z)
  | KSchedule | KSwitchTo (p : Z) | KExitCurrent (c : Z) | KExit (c : Z)
  | KWait (p : Z) | KThreadExit (c : Z).

Definition run_kop (op : kop) : M (kstate F) unit :=
  match op with
  | KCreate n e u z => let! _ := process_create_user n e u z in skip
  | KSpawn n e u => let! _ := proc_spawn n e u in skip
  | KFork kf ur fs => let! _ := proc_fork kf ur fs in skip
  | KClone fl nsp pt ct tl kf => let! _ := proc_clone_thread fl nsp pt ct tl kf in skip
  | KSchedule => let! _ := schedule in skip
  | KSwitchTo p => let! _ := process_switch_to p in skip
  | KExitCurrent c => let! _ := process_exit_current c in skip
  | KExit c => let! _ := proc_exit c in skip
  | KWait p => let! _ := proc_waitpid_round p in skip
  | KThreadExit c => let! _ := proc_thread_exit c in skip
  end.

(** [process_switch_to] and [proc_exit] take [current_pid] for a slot: they are
    called when that slot is in use. *)
Definition kop_ok (s : kstate F) (op : kop) : Prop :=
  match op with
  | KSwitchTo _ | KExit _ => state (pcb_of s (k_current s)) ≠ PROC_EMPTY
  | _ => True
  end.

(** States reached from [process_init], before the identifiers run out. *)
Inductive kreach : kstate F → Prop :=
  | kreach_init idle s0 s : process_init idle s0 = Some (tt, s) → kreach s
  | kreach_step s op s' :
      kreach s → k_next_pid s < 2 ^ 31 - 1 → kop_ok s op → run_kop op s = Some (tt, s') → kreach s'.

Lemma wlp_pcb_upd_abs i f s (Q : unit → kstate F → Prop) :
  (∀ s', (∀ j, pcb_of s' j = if decide (i = j) then f (pcb_of s i) else pcb_of s j) →
     k_next_pid s' = k_next_pid s → k_count s' = k_count s → Q tt s') →
  wlp (pcb_upd i f) s Q.
Proof. intros HQ. apply wlp_pcb_upd. intros _. apply HQ; [|done|done]. intros j. by rewrite pcb_of_upd. Qed.

Lemma init_table idle s : wlp (process_init idle) s (λ _ s', table_ok s').
Proof.
  unfold process_init. wlp_step. apply wlp_zoom. intros [] t _. wlp_step.
  eapply wlp_mono; [apply (wlp_for_up (λ i s', ∀ j, 0 ≤ j < i → state (pcb_of s' j) = PROC_EMPTY)); [lia|]|].
  { intros i s' Hi HI. apply wlp_pcb_upd. intros _ j Hj.
    rewrite (pcb_of_upd i (λ _, cleared_pcb)). case_decide; [done|]. apply HI. lia. }
  intros [] s1 He. change (0 + Z.of_nat 64) with 64 in He.
  wlp_step. wlp_step. wlp_step. wlp_step. wlp_step. wlp_step. wlp_step.
  unfold alloc_pcb, MAX_PROC. wlp_step. wlp_step. cbn [k_count set_next_pid set_current set_count].
  cbn [Z.leb Z.compare]. wlp_step. wlp_step. wlp_step. cbn [Z.ltb Z.compare].
  assert (H0 : ∀ s2, (∀ j, 0 < j < 64 → state (pcb_of s2 j) = PROC_EMPTY) →
    k_next_pid s2 = 1 → k_count s2 = 1 →
    (state (pcb_of s2 0) ≠ PROC_EMPTY → pid (pcb_of s2 0) = 0) → table_ok s2).
  { intros s2 Hs Hn Hc Hp. split; rewrite ?Hn, ?Hc; try lia.
    - intros i Hi. apply Hs. lia.
    - intros i Hi Hne. assert (i = 0) as -> by (destruct (decide (i = 0)); [done|]; exfalso; apply Hne, Hs; lia).
      rewrite Hp by done. lia.
    - intros i j Hi Hj Hsi Hsj _. assert (i = 0) as ->
        by (destruct (decide (i = 0)); [done|]; exfalso; apply Hsi, Hs; lia).
      destruct (decide (j = 0)); [done|]. exfalso. apply Hsj, Hs. lia. }
  wlp_step. apply wlp_zoom. intros kst t1 _. destruct (nz kst); cbn [negb].
  2:{ wlp_step. apply H0; try done; [intros j Hj; apply He; lia|]. intros Hne. exfalso. apply Hne, He. lia. }
  wlp_step. apply wlp_pcb_upd_abs. intros s2 Hp2 Hn2 Hc2. wlp_step. apply wlp_zoom. intros sp t2 _.
  wlp_step. apply wlp_zoom. intros cr t3 _. apply wlp_pcb_upd_abs. intros s3 Hp3 Hn3 Hc3.
  assert (H3 : ∀ j, pcb_of (set_heap t3 (set_heap t2 s2)) j = pcb_of s2 j) by done.
  apply H0.
  - intros j Hj. rewrite Hp3, decide_False, H3, Hp2, decide_False by lia. apply He. lia.
  - rewrite Hn3. exact Hn2.
  - rewrite Hc3. exact Hc2.
  - intros _. by rewrite Hp3, decide_True, H3, Hp2, decide_True.
Qed.

Lemma kop_table op s :
  table_ok s → k_next_pid s < 2 ^ 31 - 1 → kop_ok s op → wlp (run_kop op) s (λ _ s', table_ok s').
Proof.
  intros HT Hlt Hok.
  assert (Hc : ∀ A (m : M (kstate F) A), wlp m s (λ _ s', calmer s s') →
    wlp (let! _ := m in skip) s (λ _ s', table_ok s')).
  { intros A m Hm. wlp_step. eapply wlp_mono; [exact Hm|]. intros a s' Hcal. wlp_step.
    by eapply table_ok_calmer. }
  assert (Ht : ∀ A (m : M (kstate F) A), wlp m s (λ _ s', table_ok s') →
    wlp (let! _ := m in skip) s (λ _ s', table_ok s')).
  { intros A m Hm. wlp_step. eapply wlp_mono; [exact Hm|]. intros a s' Hcal. by wlp_step. }
  destruct op; simpl in *.
  - by apply Ht, create_table.
  - by apply Ht, spawn_table.
  - by apply Ht, fork_table.
  - by apply Ht, clone_table.
  - by apply Hc, schedule_calmer.
  - by apply Hc, switch_to_calmer.
  - by apply Hc, exit_current_calmer.
  - by apply Hc, exit_calmer.
  - by apply Hc, wait_calmer.
  - by apply Hc, thread_exit_calmer.
Qed.

Lemma kreach_table s : kreach s → table_ok s.
Proof.
  induction 1 as [idle s0 s Hrun|s op s' _ IH Hlt Hok Hrun].
  - by eapply init_table.
  - by eapply kop_table.
Qed.

(** ** Identifiers under every operation *)

(** States reached by operations without any condition on the current slot. *)
Inductive kruns : kstate F → Prop :=
  | kruns_init idle s0 s : process_init idle s0 = Some (tt, s) → kruns s
  | kruns_step s op s' :
      kruns s → k_next_pid s < 2 ^ 31 - 1 → run_kop op s = Some (tt, s') → kruns s'.

Lemma kreach_runs s : kreach s → kruns s.
Proof. induction 1; [by eapply kruns_init|by eapply kruns_step]. Qed.

(** A slot has -1, or an identifier that was given out and that no other slot has. *)
Record ids_ok (s : kstate F) : Prop := {
  io_next : 1 ≤ k_next_pid s;
  io_bound : ∀ i, 0 ≤ i < 64 → -1 ≤ pid (pcb_of s i) < k_next_pid s;
  io_inj : ∀ i j, 0 ≤ i < 64 → 0 ≤ j < 64 → 0 ≤ pid (pcb_of s i) → pid (pcb_of s i) = pid (pcb_of s j) → i = j }.

Definition same_ids (s s' : kstate F) : Prop :=
  (∀ i, pid (pcb_of s' i) = pid (pcb_of s i)) ∧ k_next_pid s' = k_next_pid s.
(** One slot has got the identifier [np]. *)
Definition got_id (np : Z) (s s' : kstate F) : Prop :=
  (∃ i, pid (pcb_of s' i) = np ∧ ∀ j, j ≠ i → pid (pcb_of s' j) = pid (pcb_of s j)) ∧ k_next_pid s' = k_next_pid s.

#[local] Instance same_ids_preorder : PreOrder same_ids.
Proof. split; [done|]. intros s1 s2 s3 [A1 B1] [A2 B2]. split; [intros i; by rewrite A2|congruence]. Qed.

Lemma ids_same s s' : ids_ok s → same_ids s s' → ids_ok s'.
Proof. intros [Hn Hb Hi] [Hp Hx]. split; rewrite ?Hx; [done|..]; [intros i|intros i j]; rewrite !Hp; auto. Qed.
Lemma ids_got s s' : ids_ok s → got_id (k_next_pid s) (set_next_pid (k_next_pid s + 1) s) s' → ids_ok s'.
Proof.
  intros [Hn Hb Hi] [(i & Hp & Ho) Hx]. cbn in Hx.
  assert (Hold : ∀ j, j ≠ i → pid (pcb_of s' j) = pid (pcb_of s j)) by exact Ho. split; rewrite ?Hx; [lia|..].
  - intros j Hj. destruct (decide (j = i)) as [-> |Hne]; [lia|]. rewrite Hold by done. specialize (Hb j Hj). lia.
  - intros j k Hj Hk. destruct (decide (j = i)) as [-> |Hji], (decide (k = i)) as [-> |Hki]; try done;
      rewrite ?Hp, ?Hold by done; [pose proof (Hb k Hk)|pose proof (Hb j Hj)|by apply Hi]; lia.
Qed.

Definition keeps {A} (m : M (kstate F) A) : Prop := ∀ s, wlp m s (λ _ s', same_ids s s').
Definition gives {A} (np : Z) (m : M (kstate F) A) : Prop := ∀ s, wlp m s (λ _ s', got_id np s s').
(** A computation that keeps the identifiers or gives out the next one. *)
Definition allots {A} (m : M (kstate F) A) : Prop := ∀ s, ids_ok s → k_next_pid s < 2 ^ 31 - 1 → wlp m s (λ _ s', ids_ok s').

Lemma keeps_bind {A B} (m : M (kstate F) A) (n : A → M (kstate F) B) : keeps m → (∀ a, keeps (n a)) → keeps (let! a := m in n a).
Proof.
  intros Hm Hn s. apply wlp_bind. eapply wlp_mono; [apply Hm|]. intros a s1 H1. eapply wlp_mono; [apply Hn|].
  intros b s2 H2. exact (PreOrder_Transitive _ _ _ H1 H2).
Qed.
Lemma keeps_ret {A} (a : A) : keeps (ret a).
Proof. intros s. by apply wlp_ret. Qed.
Lemma keeps_stuck {A} : keeps (stuck : M (kstate F) A).
Proof. done. Qed.
Lemma keeps_assert b : keeps (assert_ b).
Proof. intros s. by apply wlp_assert. Qed.
Lemma keeps_gets {A} (f : kstate F → A) : keeps (gets f).
Proof. intros s. by apply wlp_gets. Qed.
Lemma keeps_heap {A} (m : M heap A) : keeps (on_heap m).
Proof. intros s. apply wlp_zoom. by intros. Qed.
Lemma keeps_fds {A} (m : M (fdstate F) A) : keeps (on_fds m).
Proof. intros s. apply wlp_zoom. by intros. Qed.
Lemma keeps_modify f : (∀ s, same_ids s (f s)) → keeps (modify f).
Proof. intros Hf s. apply wlp_modify, Hf. Qed.
Lemma keeps_get i : keeps (pcb_get i).
Proof. intros s. by apply wlp_pcb_get. Qed.
Lemma keeps_upd i f : (∀ p, pid (f p) = pid p) → keeps (pcb_upd i f).
Proof. intros Hf s. apply wlp_pcb_upd. intros _. split; [|done]. intros j. rewrite pcb_of_upd. case_decide; [subst; apply Hf|done]. Qed.

Lemma gives_bind {A B} np (m : M (kstate F) A) (n : A → M (kstate F) B) : keeps m → (∀ a, gives np (n a)) → gives np (let! a := m in n a).
Proof.
  intros Hm Hn s. apply wlp_bind. eapply wlp_mono; [apply Hm|]. intros a s1 [H1 X1]. eapply wlp_mono; [apply Hn|].
  intros b s2 [(i & Hp & Ho) X2]. split; [|congruence]. exists i. split; [done|]. intros j Hj. by rewrite Ho, H1.
Qed.
Lemma gives_upd {A} np i f (m : M (kstate F) A) : (∀ p, pid (f p) = np) → keeps m → gives np (pcb_upd i f ;! m).
Proof.
  intros Hf Hm s. apply wlp_bind, wlp_pcb_upd. intros _. eapply wlp_mono; [apply Hm|]. intros a s2 [H2 X2]. split; [|done].
  exists i. split; [by rewrite H2, pcb_of_upd, decide_True|]. intros j Hj. rewrite H2, pcb_of_upd. by case_decide.
Qed.
Lemma allots_keeps {A} (m : M (kstate F) A) : keeps m → allots m.
Proof. intros Hm s Hs _. eapply wlp_mono; [apply Hm|]. intros a s'. by apply ids_same. Qed.
Lemma allots_bind {A B} (m : M (kstate F) A) (n : A → M (kstate F) B) : keeps m → (∀ a, allots (n a)) → allots (let! a := m in n a).
Proof.
  intros Hm Hn s Hs Hx. apply wlp_bind. eapply wlp_mono; [apply Hm|]. intros a s1 Hs1. apply Hn; [by eapply ids_same|].
  by rewrite (proj2 Hs1).
Qed.
Lemma allots_take {B} (n : Z → M (kstate F) B) : (∀ np, gives np (n np)) → allots (let! np := take_pid in n np).
Proof.
  intros Hn s Hs Hx. unfold take_pid. wlp_step. wlp_step. wlp_step. wlp_step. wlp_step. wlp_step.
  eapply wlp_mono; [apply Hn|]. intros a s' Hg. apply (ids_got s s' Hs).
  rewrite (s32_small (k_next_pid s + 1)) in Hg by (destruct Hs; lia). exact Hg.
Qed.

Lemma allots_done {A} (m : M (kstate F) A) : allots m → allots (let! _ := m in skip).
Proof. intros Hm s Hs Hx. apply wlp_bind. eapply wlp_mono; [by apply Hm|]. intros a s' Hs'. by apply wlp_skip. Qed.

Ltac keeps := repeat match goal with
  | |- keeps (bind _ _) => apply keeps_bind; [|intros ?]
  | |- keeps (ret _) => apply keeps_ret
  | |- keeps skip => apply keeps_ret
  | |- keeps stuck => apply keeps_stuck
  | |- keeps (assert_ _) => apply keeps_assert
  | |- keeps (gets _) => apply keeps_gets
  | |- keeps (on_heap _) => apply keeps_heap
  | |- keeps (on_fds _) => apply keeps_fds
  | |- keeps (modify _) => apply keeps_modify; done
  | |- keeps (pcb_get _) => apply keeps_get
  | |- keeps (pcb_upd _ _) => apply keeps_upd; done
  | |- keeps (if _ then _ else _) => case_match
  end.
Ltac gives := repeat match goal with
  | |- gives _ (bind (pcb_upd _ _) _) => apply gives_upd; [done|keeps]
  | |- gives _ (bind _ _) => apply gives_bind; [solve [keeps]|intros ?]
  end.
Ltac allots := repeat match goal with
  | |- allots (bind take_pid _) => apply allots_take; intros ?; solve [gives]
  | |- allots (bind _ _) => apply allots_bind; [solve [keeps]|intros ?]
  | |- allots (ret _) => apply allots_keeps, keeps_ret
  | |- allots (if _ then _ else _) => case_match
  end.

Lemma keeps_schedule : keeps schedule.
Proof. unfold schedule, find_next_ready, switch_slots. keeps. Qed.
Lemma keeps_wake c : keeps (proc_wake_parent c).
Proof. unfold proc_wake_parent. keeps. Qed.
(** The rest of [process_init], once the idle process has its identifier. *)
Lemma keeps_idle sp idle_entry i : keeps (
  let! sp := on_heap (push_words sp [idle_entry]) in
  let! cr3 := on_heap pml4_get_current in
  pcb_upd i (λ p, with_exit_code 0 (with_parent_pid 0 (with_pml4 cr3 (with_rsp0 sp (with_kernel_rsp sp p)))))).
Proof. keeps. Qed.
Lemma allots_kop op : allots (run_kop op).
Proof.
  destruct op; cbn [run_kop].
  - apply allots_done. unfold process_create_user, alloc_pcb, setup_user_stack. allots.
  - apply allots_done. unfold proc_spawn, free_slot, raise_count. allots.
  - apply allots_done. unfold proc_fork, free_slot, raise_count, process_current. allots.
  - apply allots_done. unfold proc_clone_thread, free_slot, raise_count, process_current. allots.
  - apply allots_keeps. keeps. apply keeps_schedule.
  - apply allots_keeps. unfold process_switch_to, process_current. keeps.
  - apply allots_keeps. unfold process_exit_current, process_current. keeps; apply keeps_wake.
  - apply allots_keeps. unfold proc_exit. keeps; first [apply keeps_wake|apply keeps_schedule].
  - apply allots_keeps. unfold proc_waitpid_round, find_pid. keeps. apply keeps_schedule.
  - apply allots_keeps. unfold proc_thread_exit, process_current. keeps; apply keeps_schedule.
Qed.

Lemma init_ids idle s : wlp (process_init idle) s (λ _ s', ids_ok s').
Proof.
  unfold process_init. wlp_step. apply wlp_zoom. intros [] t _. wlp_step.
  eapply wlp_mono; [apply (wlp_for_up (λ i s', ∀ j, 0 ≤ j < i → pid (pcb_of s' j) = -1)); [lia|]|].
  { intros i s' Hi HI. apply wlp_pcb_upd. intros _ j Hj.
    rewrite (pcb_of_upd i (λ _, cleared_pcb)). case_decide; [done|]. apply HI. lia. }
  intros [] s1 He. change (0 + Z.of_nat 64) with 64 in He.
  wlp_step. wlp_step. wlp_step. wlp_step. wlp_step. wlp_step. wlp_step.
  unfold alloc_pcb, MAX_PROC. wlp_step. wlp_step. cbn [k_count set_next_pid set_current set_count].
  cbn [Z.leb Z.compare]. wlp_step. wlp_step. wlp_step. cbn [Z.ltb Z.compare].
  assert (H0 : ∀ s2, (∀ j, 0 < j < 64 → pid (pcb_of s2 j) = -1) → k_next_pid s2 = 1 → -1 ≤ pid (pcb_of s2 0) ≤ 0 → ids_ok s2).
  { intros s2 Hs Hn H0. assert (Hz : ∀ i, 0 ≤ i < 64 → i = 0 ∨ pid (pcb_of s2 i) = -1).
    { intros i Hi. destruct (decide (i = 0)); [by left|right; apply Hs; lia]. }
    split; rewrite ?Hn; [done|..].
    - intros i Hi. destruct (Hz i Hi) as [-> | ->]; lia.
    - intros i j Hi Hj Hp E. destruct (Hz i Hi) as [-> |Ei], (Hz j Hj) as [-> |Ej]; lia. }
  wlp_step. apply wlp_zoom. intros kst t1 _. destruct (nz kst); cbn [negb].
  2:{ wlp_step. apply H0; try done; [intros j Hj; apply He; lia|]. change (-1 ≤ pid (pcb_of s1 0) ≤ 0). rewrite (He 0); lia. }
  wlp_step. apply wlp_pcb_upd_abs. intros s2 Hp2 Hn2 Hc2.
  assert (H2 : ids_ok s2).
  { apply H0; [|done|rewrite Hp2, decide_True by done; simpl; lia]. intros j Hj. rewrite Hp2, decide_False by lia. apply He. lia. }
  eapply (wlp_mono _ _ (λ _ s', same_ids s2 s')); [|intros a s'; by apply ids_same]. apply keeps_idle.
Qed.

Lemma kruns_ids s : kruns s → ids_ok s.
Proof. induction 1 as [idle s0 s Hrun|s op s' _ IH Hlt Hrun]; [by eapply init_ids|by eapply allots_kop]. Qed.

(** ** [waitpid] *)

Lemma find_pid_spec s p :
  wp (find_pid p) s (λ i s', s' = s ∧
    ((i = -1 ∧ ∀ j, 0 ≤ j < 64 → pid (pcb_of s j) ≠ p) ∨ (0 ≤ i < 64 ∧ pid (pcb_of s i) = p))).
Proof.
  unfold find_pid. wp_step. split; [done|]. set (f := λ i, pid (pcb_of s i) =? p).
  destruct (find_first_spec f slots) as [[-> Hno]|[Hin Hf]]; [left|right].
  - split; [done|]. intros j Hj. apply Z.eqb_neq. by apply Hno, slots_elem.
  - split; [by apply slots_elem|by apply Z.eqb_eq].
Qed.
End proc.

(** ** A booted kernel *)

Definition after {S A} (m : M S A) (s : S) : S := match m s with Some (_, s') => s' | None => s end.

Lemma after_run {S} (m : M S unit) (s : S) :
  match m s with Some _ => true | None => false end = true → m s = Some (tt, after m s).
Proof. unfold after. by destruct (m s) as [[[] s']|]. Qed.

(** Page tables at 0x1000, below the heap. *)
Definition raw_kernel : kstate unit := mkK (set_cr3 0x1000 boot_heap) empty_fds ∅ 0 0 0 0 false.
Definition booted : kstate unit := after (process_init 0x200000) raw_kernel.

Fixpoint run_kops (ops : list kop) (s : kstate unit) : kstate unit :=
  match ops with [] => s | op :: ops' => run_kops ops' (after (run_kop op) s) end.

(** Every operation of a list is legal and returns. *)
Fixpoint kops_run (ops : list kop) (s : kstate unit) : bool :=
  match ops with
  | [] => true
  | op :: ops' =>
      (k_next_pid s <? 2 ^ 31 - 1) &&
      match op with
      | KSwitchTo _ | KExit _ => negb (state (pcb_of s (k_current s)) =? PROC_EMPTY)
      | _ => true
      end &&
      match run_kop op s with Some _ => true | None => false end &&
      kops_run ops' (after (run_kop op) s)
  end.

Lemma kops_reach ops s : kreach s → kops_run ops s = true → kreach (run_kops ops s).
Proof.
  revert s. induction ops as [|op ops IH]; intros s HR Hr; [done|]. cbn [kops_run run_kops] in *.
  apply andb_prop in Hr as [Hr H4]. apply andb_prop in Hr as [Hr H3]. apply andb_prop in Hr as [H1 H2].
  apply IH; [|exact H4]. eapply kreach_step; [exact HR| |  |by apply (after_run _ _ H3)].
  - by apply Z.ltb_lt.
  - destruct op; try exact I; apply negb_true_iff, Z.eqb_neq in H2; exact H2.
Qed.

Lemma booted_reach : kreach booted.
Proof.
  refine (kreach_init 0x200000 raw_kernel booted (after_run (process_init 0x200000) raw_kernel _)).
  vm_compute. reflexivity.
Qed.

(** ** The properties *)

(** C7: the scheduler is fair: a READY process runs after at most 63 calls of
    [schedule], whatever else is READY, and the call that runs it makes its slot
    the current one. *)
Theorem schedule_fair {F} `{FileOps F} (s : kstate F) j :
  0 ≤ k_current s < 64 → 0 ≤ j < 64 → j ≠ k_current s → state (pcb_of s j) = PROC_READY →
  ∃ k s', (k ≤ 63)%nat ∧ run_schedule k s = Some (tt, s') ∧ k_current s' = j ∧
    state (pcb_of s' j) = PROC_RUNNING.
Proof.
  intros Hc Hj Hne Hst. apply ready_runs; try done. pose proof (circle_dist _ _ Hc Hj Hne). lia.
Qed.

(** Three processes beside the idle one. *)
Definition three_procs : kstate unit :=
  run_kops [KCreate [97] 0x400000 0x500000 4096; KCreate [98] 0x400000 0x510000 4096;
            KCreate [99] 0x400000 0x520000 4096] booted.

Lemma schedule_fair_witness :
  ∃ k s', (k ≤ 63)%nat ∧ run_schedule k three_procs = Some (tt, s') ∧ k_current s' = 3.
Proof.
  destruct (schedule_fair three_procs 3) as (k & s' & Hk & Hr & Hc & _);
    [vm_compute; split; congruence|lia|vm_compute; congruence|vm_compute; reflexivity|].
  exists k, s'. split_and!; assumption.
Defined.

(** C8: whatever sequence of process operations is run after [process_init] (creating,
    spawning, forking, cloning, switching, exiting, waiting), with no condition on which
    slot is the current one, a slot's process identifier is -1, which is no process's,
    or one that was given out, below the next one; and no two of the 64 slots, in use or
    EMPTY, have the same identifier that was given out. *)
Theorem pids_unique {F} `{FileOps F} (s : kstate F) :
  kruns s →
  (∀ i, 0 ≤ i < 64 → -1 ≤ pid (pcb_of s i) < k_next_pid s) ∧
  (∀ i j, 0 ≤ i < 64 → 0 ≤ j < 64 → 0 ≤ pid (pcb_of s i) → pid (pcb_of s i) = pid (pcb_of s j) → i = j).
Proof. intros HR. destruct (kruns_ids s HR) as [_ Hb Hi]. by split. Qed.

Lemma pids_unique_witness :
  kruns three_procs ∧ (pid (pcb_of three_procs 1) = pid (pcb_of three_procs 2) → 1 = 2).
Proof.
  assert (HR : kruns three_procs) by (apply kreach_runs, kops_reach; [exact booted_reach|vm_compute; reflexivity]).
  split; [exact HR|]. apply (proj2 (pids_unique three_procs HR)); [lia|lia|vm_compute; congruence..].
Defined.

(** The slot [waitpid] looks at, when one slot only has the identifier. *)
Lemma find_pid_only {F} `{FileOps F} (s : kstate F) p i :
  0 ≤ i < 64 → pid (pcb_of s i) = p → (∀ j, 0 ≤ j < 64 → pid (pcb_of s j) = p → j = i) →
  find_pid p s = Some (i, s).
Proof.
  intros Hi Hp Honly. destruct (find_pid_spec s p) as (r & s' & E & -> & [[_ Hno]|[Hr Hrp]]).
  - by destruct (Hno i Hi).
  - by rewrite E, (Honly r Hr Hrp).
Qed.

(** [munmap_user] leaves the pool of pages alone. *)
Lemma munmap_user_pool h L addr :
  pa_rel h L → 0 ≤ addr < 2 ^ 64 →
  wp (munmap_user addr) h (λ r h', (∃ L', pa_step L (PMunmap addr) r L' ∧ pa_rel h' L') ∧
    h_pcpu_pages h' = h_pcpu_pages h).
Proof.
  intros HP Ha. apply wp_and.
  - eapply wp_mono; [apply (sim_op h L (PMunmap addr) HP Ha)|]. intros r h' (L' & ? & ? & _). by exists L'.
  - destruct HP as (H & HI & _). eapply wp_mono; [by apply munmap_user_spec|].
    intros r h' [[-> _]|(idx & o & u & H' & _ & _ & _ & _ & Hpost)]; [done|].
    by destruct Hpost as (_ & _ & _ & _ & _ & Hpg & _).
Qed.

(** [waitpid] on a zombie returns: it yields the identifier and the exit
    code, makes the slot EMPTY, changes no other slot, gives the kernel stack back
    with [munmap_user] (a step of the page allocator's specification) and the top
    page table to the pool of pages. *)
Theorem waitpid_reaps {F} `{FileOps F} (s : kstate F) L p i :
  pa_rel (k_heap s) L → Z.of_nat (length (h_pcpu_pages (k_heap s))) < PCPU_PAGE_POOL →
  0 ≤ i < 64 → pid (pcb_of s i) = p → (∀ j, 0 ≤ j < 64 → pid (pcb_of s j) = p → j = i) →
  state (pcb_of s i) = PROC_ZOMBIE →
  ∃ s' r L', proc_waitpid_round p s = Some (WReaped p (exit_code (pcb_of s i)), s') ∧
    state (pcb_of s' i) = PROC_EMPTY ∧ (∀ j, j ≠ i → pcb_of s' j = pcb_of s j) ∧
    pa_step L (PMunmap (u64 (rsp0 (pcb_of s i) - STACK_SIZE))) r L' ∧ pa_rel (k_heap s') L' ∧
    h_pcpu_pages (k_heap s') = pml4 (pcb_of s i) :: h_pcpu_pages (k_heap s).
Proof.
  intros HP Hpool Hi Hp Honly Hz.
  assert (Hw : wp (proc_waitpid_round p) s (λ a s', a = WReaped p (exit_code (pcb_of s i)) ∧ ∃ r L',
    state (pcb_of s' i) = PROC_EMPTY ∧ (∀ j, j ≠ i → pcb_of s' j = pcb_of s j) ∧
    pa_step L (PMunmap (u64 (rsp0 (pcb_of s i) - STACK_SIZE))) r L' ∧ pa_rel (k_heap s') L' ∧
    h_pcpu_pages (k_heap s') = pml4 (pcb_of s i) :: h_pcpu_pages (k_heap s))).
  { unfold proc_waitpid_round. wp_step. exists i, s. split; [by apply find_pid_only|].
    replace (i <? 0) with false by lia. wp_step. apply wp_pcb_get; [lia|]. rewrite Hz.
    change (PROC_ZOMBIE =? PROC_ZOMBIE) with true. cbv iota.
    wp_step. apply wp_zoom. eapply wp_mono; [apply (munmap_user_pool _ L); [done|apply Z.mod_pos_bound; lia]|].
    intros r h' [(L' & Hstep & HP') Hpg]. wp_step. apply wp_zoom.
    unfold pml4_destroy, page_free, pcpu_page_free. cbn [k_heap set_heap]. wp_step. wp_step.
    rewrite Hpg. replace (_ <? PCPU_PAGE_POOL) with true by lia. wp_step. wp_step.
    apply wp_pcb_upd; [lia|]. wp_step. split; [done|]. exists r, L'.
    split_and!; [| |done|by apply pa_rel_pool|done].
    - by rewrite (pcb_of_upd i), decide_True.
    - intros j Hj. by rewrite (pcb_of_upd i), decide_False. }
  destruct Hw as (a & s' & Hrun & -> & r & L' & Hres). by exists s', r, L'.
Qed.

(** Process 1 has run and exited. *)
Definition one_exited : kstate unit :=
  run_kops [KSpawn [97] 0x400000 0x500000; KSchedule; KExitCurrent 7] booted.

(** The page allocator as [memory_init] leaves it, with the table of [one_exited]. *)
Definition zombie_kernel : kstate unit := set_heap boot_heap one_exited.

Lemma only_slot (s : kstate unit) p i :
  forallb (λ j, negb (pid (pcb_of s j) =? p) || (j =? i)) slots = true →
  ∀ j, 0 ≤ j < 64 → pid (pcb_of s j) = p → j = i.
Proof.
  intros Hf j Hj Hp. rewrite forallb_forall in Hf.
  specialize (Hf j ltac:(apply list_elem_of_In, slots_elem, Hj)). cbn beta in Hf.
  apply Z.eqb_eq in Hp. rewrite Hp in Hf. by apply Z.eqb_eq.
Qed.

Lemma waitpid_reaps_witness :
  ∃ s' r L', proc_waitpid_round 1 zombie_kernel = Some (WReaped 1 7, s') ∧
    pa_step ∅ (PMunmap (u64 (rsp0 (pcb_of zombie_kernel 1) - STACK_SIZE))) r L'.
Proof.
  destruct (waitpid_reaps zombie_kernel ∅ 1 1) as (s' & r & L' & Hr & _ & _ & Hs & _).
  - exact (reach_rel _ _ boot_reach).
  - vm_compute. reflexivity.
  - lia.
  - vm_compute. reflexivity.
  - apply only_slot. vm_compute. reflexivity.
  - vm_compute. reflexivity.
  - exists s', r, L'. split; [|assumption].
    replace 7 with (exit_code (pcb_of zombie_kernel 1)) by (vm_compute; reflexivity). assumption.
Defined.

(** Waiting a second time for a process never answers: the slot of a reaped
    process keeps its identifier with state EMPTY, so a round of [waitpid] yields
    the processor and finds the slot the same way the next time. *)
Theorem waitpid_twice_waits {F} `{FileOps F} (s : kstate F) p i :
  0 ≤ k_current s < 64 → 0 ≤ i < 64 → pid (pcb_of s i) = p →
  (∀ j, 0 ≤ j < 64 → pid (pcb_of s j) = p → j = i) →
  state (pcb_of s i) = PROC_EMPTY → k_current s ≠ i →
  ∃ sw s', proc_waitpid_round p s = Some (WAgain sw, s') ∧
    0 ≤ k_current s' < 64 ∧ k_current s' ≠ i ∧ state (pcb_of s' i) = PROC_EMPTY ∧
    ∀ j, pid (pcb_of s' j) = pid (pcb_of s j).
Proof.
  intros Hc Hi Hp Honly He Hci.
  destruct (schedule_spec s Hc) as (sw & s' & Hrun & Hsw). exists sw, s'. split.
  - unfold proc_waitpid_round, bind. rewrite (find_pid_only s p i) by done.
    replace (i <? 0) with false by lia. unfold pcb_get, bind, assert_, gets, MAX_PROC.
    replace ((0 <=? i) && (i <? 64)) with true by lia. cbn. rewrite He. cbn. by rewrite Hrun.
  - destruct Hsw as [(_ & -> & _)|(d & b & Hd & _ & Hnc & (Hcur & _ & Hoth & _ & Hpid & _) & Hr & _)]; [done|].
    set (n := (k_current s + d) mod 64) in *. assert (n ≠ i) by (intros E; rewrite E, He in Hr; discriminate).
    rewrite Hcur. split_and!; [apply Z.mod_pos_bound; lia|apply Z.mod_pos_bound; lia|done| |done].
    by rewrite Hoth.
Qed.

(** Process 1 has been reaped. *)
Definition one_reaped : kstate unit := run_kops [KWait 1] one_exited.

Lemma waitpid_twice_waits_witness :
  ∃ sw s', proc_waitpid_round 1 one_reaped = Some (WAgain sw, s').
Proof.
  destruct (waitpid_twice_waits one_reaped 1 1) as (sw & s' & Hr & _).
  - vm_compute. split; congruence.
  - lia.
  - vm_compute. reflexivity.
  - apply only_slot. vm_compute. reflexivity.
  - vm_compute. reflexivity.
  - vm_compute. congruence.
  - exists sw, s'. assumption.
Defined.

(** [schedule] records the slot it switched to in [current_pid], where the
    rest of the kernel expects an identifier. In a reachable state (a process was
    reaped and its slot taken by the next one) a process is running and
    [process_current] finds none. *)
Theorem slot_reuse_loses_current :
  ∃ s : kstate unit, kreach s ∧ state (pcb_of s (k_current s)) = PROC_RUNNING ∧
    pid (pcb_of s (k_current s)) ≠ k_current s ∧ process_current s = Some (-1, s).
Proof.
  exists (run_kops [KSpawn [98] 0x400000 0x500000; KSchedule] one_reaped).
  set (s := run_kops _ _). split; [unfold s|split_and!].
  2:{ vm_compute. reflexivity. }
  2:{ vm_compute. congruence. }
  2:{ apply (f_equal (λ r, Some (r, s))). vm_compute. reflexivity. }
  apply kops_reach; [|vm_compute; reflexivity]. apply kops_reach; [|vm_compute; reflexivity].
  apply kops_reach; [exact booted_reach|vm_compute; reflexivity].
Qed.
