(* ===== verification/Libc.v ===== *)
(** * Libc: [src/userland/libc/string.c]

    The memory of a user program is a map from addresses to bytes; an access to
    an address that is not mapped has no result (a fault).  [char] is signed;
    [int] counters wrap at 32 bits.  The static variables of the library
    ([next] of [strtok], [_hinit] and [freep] of the allocator) are fields of
    the state. *)

From Stdlib Require Import ZArith Lia.
From stdpp Require Import gmap list prelude.
From S2P Require Import Prelude.

Record libc := mkLibc {
  l_mem : gmap Z Z;
  l_next : Z;
  l_hinit : Z;
  l_freep : Z }.

Definition set_mem (m : gmap Z Z) (s : libc) : libc := mkLibc m (l_next s) (l_hinit s) (l_freep s).
Definition set_next (v : Z) (s : libc) : libc := mkLibc (l_mem s) v (l_hinit s) (l_freep s).
Definition set_hinit (v : Z) (s : libc) : libc := mkLibc (l_mem s) (l_next s) v (l_freep s).
Definition set_freep (v : Z) (s : libc) : libc := mkLibc (l_mem s) (l_next s) (l_hinit s) v.

Abbreviation L := (M libc).

(** [*(unsigned char * )a], and a store to it. *)
Definition lb (a : Z) : L Z := λ s, match l_mem s !! a with Some b => Some (b, s) | None => None end.
Definition sb (a v : Z) : L unit := λ s,
  match l_mem s !! a with Some _ => Some (tt, set_mem (<[a := u8 v]> (l_mem s)) s) | None => None end.

(** A byte as a [char]. *)
Definition schar (b : Z) : Z := if 128 <=? b then b - 256 else b.

(** ** Lengths and comparisons *)

Definition strlen (str : Z) : L Z :=
  while_ (λ n, let! c := lb (str + n) in ret (if nz c then inl (s32 (n + 1)) else inr n)) 0.

Definition strcmp (a b : Z) : L Z :=
  while_ (λ '(a, b),
    let! x := lb a in
    let! y := lb b in
    ret (if nz x && (x =? y) then inl (a + 1, b + 1) else inr (x - y))) (a, b).

Definition strncmp (a b n : Z) : L Z :=
  while_ (λ i,
    if i <? n then
      let! x := lb (a + i) in
      let! y := lb (b + i) in
      ret (if negb (x =? y) then inr (x - y) else if x =? 0 then inr 0 else inl (s32 (i + 1)))
    else ret (inr 0)) 0.

(** ** Copies *)

(** [while (( *p++ = *src++ ));] *)
Definition copy_string (p src : Z) : L unit :=
  while_ (λ '(p, src),
    let! c := lb src in
    sb p c ;!
    ret (if nz c then inl (p + 1, src + 1) else inr tt)) (p, src).

Definition strcpy (dst src : Z) : L Z := copy_string dst src ;! ret dst.

Definition strncpy (dst src n : Z) : L Z :=
  while_ (λ '(p, src, n),
    if nz n then
      let! c := lb src in
      sb p c ;!
      ret (if nz c then inl (p + 1, src + 1, s32 (n - 1)) else inr tt)
    else ret (inr tt)) (dst, src, n) ;!
  ret dst.

Definition strcat (dst src : Z) : L Z :=
  let! n := strlen dst in copy_string (dst + n) src ;! ret dst.

(** ** Searches *)

Definition strchr (str c : Z) : L Z :=
  while_ (λ p,
    let! x := lb p in
    ret (if nz x then (if schar x =? c then inr p else inl (p + 1)) else inr 0)) str.

Definition strrchr (str c : Z) : L Z :=
  while_ (λ '(p, last),
    let! x := lb p in
    ret (if nz x then inl (p + 1, if schar x =? c then p else last) else inr last)) (str, 0).

Definition strstr (haystack needle : Z) : L Z :=
  let! nl := strlen needle in
  if negb (nz nl) then ret haystack else
  while_ (λ h,
    let! x := lb h in
    if nz x then
      let! r := strncmp h needle nl in
      ret (if r =? 0 then inr h else inl (h + 1))
    else ret (inr 0)) haystack.

(** The two loops of [strtok]: skip the characters that are (or are not) in
    [delim]; [next] moves along. *)
Definition strtok_skip (delim : Z) (member : bool) : L unit :=
  while_ (λ _ : unit,
    let! p := gets l_next in
    let! x := lb p in
    if nz x then
      let! r := strchr delim (schar x) in
      if eqb (nz r) member then modify (set_next (p + 1)) ;! ret (inl tt) else ret (inr tt)
    else ret (inr tt)) tt.

Definition strtok (str delim : Z) : L Z :=
  (if nz str then modify (set_next str) else skip) ;!
  let! p := gets l_next in
  if negb (nz p) then ret 0 else
  strtok_skip delim true ;!
  let! p := gets l_next in
  let! x := lb p in
  if negb (nz x) then ret 0 else
  let start := p in
  strtok_skip delim false ;!
  let! p := gets l_next in
  let! x := lb p in
  (if nz x then sb p 0 ;! modify (set_next (p + 1)) else skip) ;!
  ret start.

(** ** Blocks of memory *)

Definition memset (p c n : Z) : L Z := for_up (Z.to_nat n) 0 (λ i, sb (p + i) (u8 c)) ;! ret p.

Definition memcpy (dst src n : Z) : L Z :=
  for_up (Z.to_nat n) 0 (λ i, let! x := lb (src + i) in sb (dst + i) x) ;! ret dst.

Definition memmove (dst src n : Z) : L Z :=
  (if dst <? src then for_up (Z.to_nat n) 0 (λ i, let! x := lb (src + i) in sb (dst + i) x)
   else if negb (src =? dst) then
     for_up (Z.to_nat n) 0 (λ k, let i := n - 1 - k in let! x := lb (src + i) in sb (dst + i) x)
   else skip) ;!
  ret dst.
