(* ===== verification/LibcProof.v ===== *)
(** * LibcProof: the string library does what the C standard asks

    A C string is a list of bytes that are not zero, followed by a zero. *)

From Stdlib Require Import ZArith Lia.
From stdpp Require Import gmap list prelude.
From S2P Require Import Prelude Libc.

Implicit Types s : libc.
Implicit Types m : gmap Z Z.

(** ** Bytes in memory *)

Definition bytes_at m (a : Z) (l : list Z) : Prop :=
  ∀ i : nat, (i < length l)%nat → m !! (a + Z.of_nat i) = l !! i.

(** [n] bytes are mapped from [a] on. *)
Definition mapped m (a n : Z) : Prop := ∀ x, a ≤ x < a + n → ∃ b, m !! x = Some b ∧ 0 ≤ b < 256.

Definition nonzero (l : list Z) : Prop := Forall (λ b, 0 < b < 256) l.

Definition cstr_at m (a : Z) (l : list Z) : Prop := bytes_at m a (l ++ [0]) ∧ nonzero l.

Lemma wp_lb a b s Q : l_mem s !! a = Some b → Q b s → wp (lb a) s Q.
Proof. intros E HQ. exists b, s. split; [|done]. unfold lb. by rewrite E. Qed.

Lemma wp_sb a v s Q :
  is_Some (l_mem s !! a) → Q tt (set_mem (<[a := u8 v]> (l_mem s)) s) → wp (sb a v) s Q.
Proof. intros [b E] HQ. eexists _, _. split; [|exact HQ]. unfold sb. by rewrite E. Qed.

(** Reading a string: the byte at an index up to the length. *)
Definition chr (l : list Z) (i : Z) : Z := default 0 (l !! Z.to_nat i).

Lemma cstr_get m a l i :
  cstr_at m a l → 0 ≤ i ≤ Z.of_nat (length l) → m !! (a + i) = Some (chr l i).
Proof.
  intros [Hb _] Hi. specialize (Hb (Z.to_nat i)). rewrite Z2Nat.id in Hb by lia.
  rewrite Hb by (rewrite length_app; simpl; lia). unfold chr.
  destruct (decide (i = Z.of_nat (length l))) as [-> |Hne].
  - rewrite Nat2Z.id. rewrite lookup_app_r by lia. rewrite Nat.sub_diag.
    by rewrite (lookup_ge_None_2 l) by lia.
  - rewrite lookup_app_l by lia. destruct (lookup_lt_is_Some_2 l (Z.to_nat i)) as [b Hb']; [lia|].
    by rewrite Hb'.
Qed.

Lemma chr_nz l i : nonzero l → 0 ≤ i < Z.of_nat (length l) → 0 < chr l i < 256.
Proof.
  intros Hn Hi. unfold chr. destruct (lookup_lt_is_Some_2 l (Z.to_nat i)) as [b Hb]; [lia|].
  rewrite Hb. simpl. by eapply (Forall_lookup_1 _ _ _ _ Hn).
Qed.

Lemma chr_end l i : Z.of_nat (length l) ≤ i → chr l i = 0.
Proof. intros. unfold chr. by rewrite lookup_ge_None_2 by lia. Qed.

Lemma chr_range l i : nonzero l → 0 ≤ i → 0 ≤ chr l i < 256.
Proof.
  intros Hn Hi. destruct (Z.lt_ge_cases i (Z.of_nat (length l))).
  - pose proof (chr_nz l i Hn). lia.
  - rewrite chr_end; lia.
Qed.

Lemma chr_zero l i : nonzero l → 0 ≤ i → chr l i = 0 → Z.of_nat (length l) ≤ i.
Proof.
  intros Hn Hi E. destruct (Z.lt_ge_cases i (Z.of_nat (length l))); [|done].
  pose proof (chr_nz l i Hn). lia.
Qed.

Lemma chr_drop l k i : 0 ≤ k → 0 ≤ i → chr (drop (Z.to_nat k) l) i = chr l (k + i).
Proof. intros. unfold chr. rewrite lookup_drop. by rewrite Z2Nat.inj_add by lia. Qed.

Lemma cstr_drop m a l k :
  cstr_at m a l → 0 ≤ k ≤ Z.of_nat (length l) → cstr_at m (a + k) (drop (Z.to_nat k) l).
Proof.
  intros [Hb Hn] Hk. split; [|by apply Forall_drop].
  intros i Hi. rewrite length_app, length_drop in Hi. simpl in Hi.
  specialize (Hb (Z.to_nat k + i)%nat). rewrite Nat2Z.inj_add, Z2Nat.id in Hb by lia.
  rewrite <- Z.add_assoc, Hb by (rewrite length_app; simpl; lia).
  rewrite <- lookup_drop, drop_app. f_equal. by replace (Z.to_nat k - length l)%nat with 0%nat by lia.
Qed.

Lemma chr_eq l1 l2 :
  nonzero l1 → nonzero l2 → (∀ i, 0 ≤ i → chr l1 i = chr l2 i) → l1 = l2.
Proof.
  intros H1 H2 HE. assert (Hlen : length l1 = length l2).
  { pose proof (HE (Z.of_nat (length l1)) ltac:(lia)) as E1. rewrite chr_end in E1 by lia.
    symmetry in E1. apply chr_zero in E1; [|done|lia].
    pose proof (HE (Z.of_nat (length l2)) ltac:(lia)) as E2. rewrite (chr_end l2) in E2 by lia.
    apply chr_zero in E2; [|done|lia]. lia. }
  apply (list_eq_same_length _ _ _ eq_refl); [done|].
  intros i x y Hi Hx Hy. specialize (HE (Z.of_nat i) ltac:(lia)). unfold chr in HE.
  rewrite Nat2Z.id, Hx, Hy in HE. done.
Qed.

(** ** Lengths and comparisons *)

Lemma strlen_run s a l :
  cstr_at (l_mem s) a l → Z.of_nat (length l) < 2 ^ 31 →
  strlen a s = Some (Z.of_nat (length l), s).
Proof.
  intros Hs Hlen.
  enough (wp (strlen a) s (λ n s', n = Z.of_nat (length l) ∧ s' = s)) as (n & s' & E & -> & ->) by done.
  unfold strlen.
  eapply (wp_while (λ i s', 0 ≤ i ≤ Z.of_nat (length l) ∧ s' = s) (λ i _, Z.of_nat (length l) - i));
    [|split; [lia|done]|lia].
  intros i ? [Hi ->]. wp_step. eapply wp_lb; [by apply (cstr_get _ _ l)|]. wp_step.
  destruct (decide (i = Z.of_nat (length l))) as [-> |Hne].
  - rewrite chr_end by lia. done.
  - pose proof (chr_nz l i (proj2 Hs)). destruct (nz (chr l i)) eqn:E; [|apply nz_false in E; lia].
    rewrite s32_small by lia. split; [split; [lia|done]|lia].
Qed.

(** The lexicographic order of C strings. *)
Fixpoint lex (l1 l2 : list Z) : comparison :=
  match l1, l2 with
  | [], [] => Eq
  | [], _ :: _ => Lt
  | _ :: _, [] => Gt
  | x :: l1', y :: l2' => match x ?= y with Eq => lex l1' l2' | c => c end
  end.

Lemma lex_eq l1 l2 : lex l1 l2 = Eq ↔ l1 = l2.
Proof.
  revert l2. induction l1 as [|x l1 IH]; intros [|y l2]; simpl; try done.
  destruct (Z.compare_spec x y) as [-> |H|H]; [|split; [done|intros [= -> ->]; lia]..].
  rewrite IH. split; [by intros ->|by intros [= ->]].
Qed.

(** Strings that agree on the bytes before [i], and differ or end there. *)
Lemma lex_at l1 l2 i :
  nonzero l1 → nonzero l2 → 0 ≤ i → (∀ j, 0 ≤ j < i → chr l1 j = chr l2 j) →
  (∀ j, 0 ≤ j < i → chr l1 j ≠ 0) → chr l1 i ≠ chr l2 i ∨ chr l1 i = 0 →
  lex l1 l2 = (chr l1 i - chr l2 i ?= 0).
Proof.
  intros H1 H2 Hi. revert l1 l2 H1 H2. pattern i. apply natlike_ind; [| |done]; clear i Hi.
  - intros [|x l1] [|y l2] H1 H2 _ _ Hd; unfold chr in *; simpl in *; try done.
    + apply Forall_cons in H2 as [Hy _]. symmetry. apply Z.compare_lt_iff. lia.
    + apply Forall_cons in H1 as [Hx _]. symmetry. apply Z.compare_gt_iff. lia.
    + apply Forall_cons in H1 as [Hx _]. destruct Hd as [Hd|]; [|lia].
      destruct (Z.compare_spec x y); symmetry; [done|apply Z.compare_lt_iff|apply Z.compare_gt_iff]; lia.
  - intros i Hi IH l1 l2 H1 H2 Heq Hnz Hd.
    pose proof (Heq 0 ltac:(lia)) as E0. pose proof (Hnz 0 ltac:(lia)) as N0.
    destruct l1 as [|x l1]; [done|]. destruct l2 as [|y l2]; [done|].
    unfold chr in E0, N0; simpl in E0, N0. subst y. simpl. rewrite Z.compare_refl.
    assert (Hc : ∀ z l j, 0 ≤ j → chr (z :: l) (Z.succ j) = chr l j).
    { intros z l j Hj. unfold chr. by rewrite Z2Nat.inj_succ. }
    apply Forall_cons in H1 as [_ H1]. apply Forall_cons in H2 as [_ H2].
    rewrite !Hc by done. rewrite !Hc in Hd by done. apply IH; try done.
    + intros j Hj. specialize (Heq (Z.succ j) ltac:(lia)). by rewrite !Hc in Heq by lia.
    + intros j Hj. specialize (Hnz (Z.succ j) ltac:(lia)). by rewrite !Hc in Hnz by lia.
Qed.

Lemma strcmp_run s a b l1 l2 :
  cstr_at (l_mem s) a l1 → cstr_at (l_mem s) b l2 → Z.of_nat (length l1) < 2 ^ 31 →
  ∃ r, strcmp a b s = Some (r, s) ∧ (r ?= 0) = lex l1 l2.
Proof.
  intros Hs1 Hs2 Hlen. pose proof (proj2 Hs1) as Hn1. pose proof (proj2 Hs2) as Hn2.
  enough (wp (strcmp a b) s (λ r s', s' = s ∧ (r ?= 0) = lex l1 l2)) as (r & s' & E & -> & Hr) by (by exists r).
  unfold strcmp.
  eapply (wp_while (λ '(a', b') s', s' = s ∧ ∃ i, a' = a + i ∧ b' = b + i ∧
      0 ≤ i ≤ Z.of_nat (length l1) ∧ i ≤ Z.of_nat (length l2) ∧
      ∀ j, 0 ≤ j < i → chr l1 j = chr l2 j ∧ chr l1 j ≠ 0)
    (λ '(a', _) _, a + Z.of_nat (length l1) - a')); [|split; [done|exists 0; split_and!; lia]|lia].
  intros [a' b'] ? [-> (i & -> & -> & Hi1 & Hi2 & Hall)].
  wp_step. eapply wp_lb; [by apply (cstr_get _ _ l1)|]. wp_step.
  eapply wp_lb; [apply (cstr_get _ _ l2); [done|lia]|]. wp_step.
  destruct (nz (chr l1 i)) eqn:E1; [apply nz_spec in E1|apply nz_false in E1]; cbn [andb].
  - assert (i < Z.of_nat (length l1)).
    { destruct (Z.lt_ge_cases i (Z.of_nat (length l1))); [done|]. by rewrite chr_end in E1. }
    destruct (Z.eqb_spec (chr l1 i) (chr l2 i)) as [E|Hne].
    + split; [split; [done|]|lia]. exists (i + 1).
      assert (i < Z.of_nat (length l2)).
      { destruct (Z.lt_ge_cases i (Z.of_nat (length l2))); [done|]. rewrite (chr_end l2) in E by done. lia. }
      split_and!; try lia. intros j Hj. destruct (decide (j = i)) as [-> |]; [done|]. apply Hall. lia.
    + split; [done|]. symmetry. apply lex_at; try done; [lia|apply Hall..|by left].
  - split; [done|]. symmetry. apply lex_at; try done; [lia|apply Hall..|by right].
Qed.

Lemma chr_take l n i : 0 ≤ i < n → chr (take (Z.to_nat n) l) i = chr l i.
Proof. intros Hi. unfold chr. by rewrite lookup_take_lt by lia. Qed.

Lemma strncmp_run s a b l1 l2 n :
  cstr_at (l_mem s) a l1 → cstr_at (l_mem s) b l2 → 0 ≤ n < 2 ^ 31 →
  ∃ r, strncmp a b n s = Some (r, s) ∧ (r ?= 0) = lex (take (Z.to_nat n) l1) (take (Z.to_nat n) l2).
Proof.
  intros Hs1 Hs2 Hn. pose proof (proj2 Hs1) as Hn1. pose proof (proj2 Hs2) as Hn2.
  set (t1 := take (Z.to_nat n) l1). set (t2 := take (Z.to_nat n) l2).
  assert (Ht1 : nonzero t1) by (by apply Forall_take). assert (Ht2 : nonzero t2) by (by apply Forall_take).
  enough (wp (strncmp a b n) s (λ r s', s' = s ∧ (r ?= 0) = lex t1 t2)) as (r & s' & E & -> & Hr) by (by exists r).
  unfold strncmp.
  eapply (wp_while (λ i s', s' = s ∧ 0 ≤ i ≤ n ∧
      i ≤ Z.of_nat (length l1) ∧ i ≤ Z.of_nat (length l2) ∧
      ∀ j, 0 ≤ j < i → chr t1 j = chr t2 j ∧ chr t1 j ≠ 0)
    (λ i _, n - i)); [|split_and!; [done|lia..]|lia].
  intros i ? (-> & Hi & Hi1 & Hi2 & Hall). destruct (Z.ltb_spec i n) as [Hlt|Hge].
  - wp_step. eapply wp_lb; [apply (cstr_get _ _ l1); [done|lia]|]. wp_step.
    eapply wp_lb; [apply (cstr_get _ _ l2); [done|lia]|]. wp_step.
    rewrite <- (chr_take l1 n), <- (chr_take l2 n) by lia. fold t1 t2.
    destruct (Z.eqb_spec (chr t1 i) (chr t2 i)) as [E|Hne]; cbn [negb].
    + destruct (Z.eqb_spec (chr t1 i) 0) as [E0|Hnz].
      * split; [done|]. symmetry. erewrite lex_at; [by rewrite <- E, E0| | |apply Hi|apply Hall..|by right]; done.
      * rewrite s32_small by lia. split; [split_and!|]; try done; try lia.
        -- destruct (Z.lt_ge_cases i (Z.of_nat (length l1))); [lia|]. unfold t1 in Hnz.
           rewrite chr_take, chr_end in Hnz by lia. done.
        -- destruct (Z.lt_ge_cases i (Z.of_nat (length l2))); [lia|]. rewrite E in Hnz. unfold t2 in Hnz.
           rewrite chr_take, chr_end in Hnz by lia. done.
        -- intros j Hj. destruct (decide (j = i)) as [-> |]; [done|]. apply Hall. lia.
    + split; [done|]. symmetry. apply lex_at; try done; [lia|apply Hall..|by left].
  - wp_step. split; [done|]. assert (i = n) as -> by lia.
    assert (He : ∀ l, chr (take (Z.to_nat n) l) n = 0).
    { intros l. apply chr_end. rewrite length_take. lia. }
    symmetry. erewrite (lex_at t1 t2 n); [unfold t1, t2; by rewrite !He|done|done|lia|apply Hall..|].
    right. apply He.
Qed.

(** ** Copies *)

(** Every byte of [\[a, a + n)] is that of [f], the others are as before. *)
Definition filled m (a n : Z) (f : Z → Z) m' : Prop :=
  ∀ x, m' !! x = if decide (a ≤ x < a + n) then Some (f (x - a)) else m !! x.

Lemma filled_app m a l m' :
  filled m a (Z.of_nat (length l) + 1) (chr l) m' → nonzero l → cstr_at m' a l.
Proof.
  intros Hf Hn. split; [|done]. intros i Hi. rewrite length_app in Hi. simpl in Hi.
  rewrite Hf, decide_True by lia. replace (a + Z.of_nat i - a) with (Z.of_nat i) by lia.
  unfold chr. rewrite Nat2Z.id. destruct (decide (i = length l)) as [-> |].
  - rewrite lookup_app_r, Nat.sub_diag by lia. by rewrite (lookup_ge_None_2 l) by lia.
  - rewrite lookup_app_l by lia. destruct (lookup_lt_is_Some_2 l i) as [b Hb]; [lia|]. by rewrite Hb.
Qed.

Lemma filled_next m a i f m' :
  0 ≤ i → filled m a i f m' → filled m a (i + 1) f (<[a + i := f i]> m').
Proof.
  intros Hi Hf x. destruct (decide (x = a + i)) as [-> |].
  - rewrite lookup_insert_eq, decide_True by lia. do 2 f_equal. lia.
  - rewrite lookup_insert_ne by done. rewrite Hf. repeat case_decide; try done; lia.
Qed.

(** The copy loop, when the destination does not overlap the source. *)
Lemma copy_string_run s p src l :
  cstr_at (l_mem s) src l → Z.of_nat (length l) < 2 ^ 31 →
  mapped (l_mem s) p (Z.of_nat (length l) + 1) →
  (p + Z.of_nat (length l) < src ∨ src + Z.of_nat (length l) < p) →
  wp (copy_string p src) s (λ _ s', ∃ m', s' = set_mem m' s ∧
    filled (l_mem s) p (Z.of_nat (length l) + 1) (chr l) m').
Proof.
  intros Hs Hlen Hmap Hdis. pose proof (proj2 Hs) as Hn. unfold copy_string.
  eapply (wp_while (λ '(p', src') s', ∃ i m', p' = p + i ∧ src' = src + i ∧
      0 ≤ i ≤ Z.of_nat (length l) ∧ s' = set_mem m' s ∧ filled (l_mem s) p i (chr l) m')
    (λ '(p', _) _, p + Z.of_nat (length l) - p')); [| |lia].
  2:{ exists 0, (l_mem s). split_and!; [lia..|by destruct s|]. intros x. by rewrite decide_False by lia. }
  intros [p' src'] ? (i & m' & -> & -> & Hi & -> & Hf). wp_step.
  assert (Hrd : m' !! (src + i) = Some (chr l i)).
  { rewrite Hf, decide_False by lia. by apply cstr_get. }
  eapply wp_lb; [exact Hrd|]. wp_step. apply wp_sb.
  { cbn [l_mem set_mem]. rewrite Hf, decide_False by lia.
    destruct (Hmap (p + i)) as (b & Hb & _); [lia|]. by exists b. }
  rewrite u8_small by (apply chr_range; [done|lia]). wp_step.
  pose proof (filled_next _ _ _ _ _ (proj1 Hi) Hf) as Hf'.
  destruct (nz (chr l i)) eqn:E.
  - apply nz_spec in E. assert (i < Z.of_nat (length l)).
    { destruct (Z.lt_ge_cases i (Z.of_nat (length l))); [done|]. by rewrite chr_end in E. }
    split; [|lia]. exists (i + 1), (<[p + i := chr l i]> m'). split_and!; try lia; try done.
  - apply nz_false, chr_zero in E; [|done|lia]. assert (i = Z.of_nat (length l)) as -> by lia.
    by exists (<[p + Z.of_nat (length l) := chr l (Z.of_nat (length l))]> m').
Qed.

Lemma strcat_run s d src l1 l2 :
  cstr_at (l_mem s) d l1 → cstr_at (l_mem s) src l2 →
  Z.of_nat (length l1) < 2 ^ 31 → Z.of_nat (length l2) < 2 ^ 31 →
  mapped (l_mem s) d (Z.of_nat (length (l1 ++ l2)) + 1) →
  (d + Z.of_nat (length (l1 ++ l2)) < src ∨ src + Z.of_nat (length l2) < d) →
  ∃ m', strcat d src s = Some (d, set_mem m' s) ∧ cstr_at m' d (l1 ++ l2) ∧
    ∀ x, ¬ d ≤ x ≤ d + Z.of_nat (length (l1 ++ l2)) → m' !! x = l_mem s !! x.
Proof.
  intros H1 H2 Hl1 Hl2 Hmap Hdis. rewrite length_app in *. set (n := Z.of_nat (length l1)) in *.
  enough (wp (strcat d src) s (λ r s', r = d ∧ ∃ m', s' = set_mem m' s ∧
    filled (l_mem s) (d + n) (Z.of_nat (length l2) + 1) (chr l2) m')) as (r & s' & E & -> & m' & -> & Hf).
  2:{ unfold strcat. wp_step. exists n, s. split; [by apply strlen_run|]. wp_step.
      eapply wp_mono; [apply (copy_string_run _ _ _ l2); try done|].
      - intros x Hx. apply Hmap. lia.
      - lia.
      - intros [] s' Hs'. by wp_step. }
  exists m'. split; [done|]. split; [split|].
  - intros i Hi. rewrite !length_app in Hi. simpl in Hi. rewrite Hf.
    destruct (decide (d + n ≤ _ < _)) as [Hin|Hout].
    + rewrite <- app_assoc, lookup_app_r by lia.
      pose proof (proj1 (filled_app _ _ _ _ Hf (proj2 H2)) (i - length l1)%nat) as Hb.
      rewrite length_app in Hb. specialize (Hb ltac:(simpl; lia)). rewrite <- Hb, Hf.
      rewrite decide_True by lia. do 2 f_equal. lia.
    + rewrite (proj1 H1 i) by (rewrite length_app; simpl; lia).
      rewrite <- app_assoc, !lookup_app_l by lia. done.
  - apply Forall_app. split; [apply H1|apply H2].
  - intros x Hx. rewrite Hf. rewrite decide_False by lia. done.
Qed.

Lemma strncpy_run s d src l n :
  cstr_at (l_mem s) src l → 0 ≤ n < 2 ^ 31 → Z.of_nat (length l) < 2 ^ 31 →
  mapped (l_mem s) d (n `min` (Z.of_nat (length l) + 1)) →
  (d + Z.of_nat (length l) < src ∨ src + Z.of_nat (length l) < d) →
  ∃ m', strncpy d src n s = Some (d, set_mem m' s) ∧
    filled (l_mem s) d (n `min` (Z.of_nat (length l) + 1)) (chr l) m'.
Proof.
  intros Hs Hn Hlen Hmap Hdis. pose proof (proj2 Hs) as Hnz.
  enough (wp (strncpy d src n) s (λ r s', r = d ∧ ∃ m', s' = set_mem m' s ∧
    filled (l_mem s) d (n `min` (Z.of_nat (length l) + 1)) (chr l) m'))
    as (r & s' & E & -> & m' & -> & Hf) by (by exists m').
  unfold strncpy. wp_step.
  eapply (wp_while (λ '(p', src', n') s', ∃ i m', p' = d + i ∧ src' = src + i ∧ n' = n - i ∧
      0 ≤ i ≤ n ∧ i ≤ Z.of_nat (length l) ∧ s' = set_mem m' s ∧ filled (l_mem s) d i (chr l) m')
    (λ '(p', _, _) _, d + n - p')); [| |lia].
  2:{ exists 0, (l_mem s). split_and!; [lia..|by destruct s|]. intros x. by rewrite decide_False by lia. }
  intros [[p' src'] n'] ? (i & m' & -> & -> & -> & Hi & Hil & -> & Hf).
  destruct (nz (n - i)) eqn:En; [apply nz_spec in En|apply nz_false in En].
  2:{ wp_step. wp_step. split; [done|]. exists m'. split; [done|]. by replace (n `min` _) with i by lia. }
  wp_step. eapply (wp_lb _ (chr l i)).
  { cbn [l_mem set_mem]. rewrite Hf, decide_False by lia. apply cstr_get; [done|lia]. }
  wp_step. apply wp_sb.
  { cbn [l_mem set_mem]. rewrite Hf, decide_False by lia.
    destruct (Hmap (d + i)) as (b & Hb & _); [lia|]. by exists b. }
  rewrite u8_small by (apply chr_range; [done|lia]). wp_step.
  pose proof (filled_next _ _ _ _ _ (proj1 Hi) Hf) as Hf'.
  destruct (nz (chr l i)) eqn:E.
  - apply nz_spec in E. assert (i < Z.of_nat (length l)).
    { destruct (Z.lt_ge_cases i (Z.of_nat (length l))); [done|]. by rewrite chr_end in E. }
    split; [|lia]. exists (i + 1), (<[d + i := chr l i]> m').
    rewrite s32_small by lia. split_and!; try lia; try done.
  - apply nz_false, chr_zero in E; [|done|lia]. wp_step. split; [done|].
    exists (<[d + i := chr l i]> m'). split; [done|]. by replace (n `min` _) with (i + 1) by lia.
Qed.

(** ** Blocks *)

(** Writing one more byte of a block. *)
Lemma wp_copy_byte s m' d x v (Q : unit → libc → Prop) :
  m' !! x = Some v → 0 ≤ v < 256 → is_Some (m' !! d) →
  Q tt (set_mem (<[d := v]> m') s) →
  wp (let! y := lb x in sb d y) (set_mem m' s) Q.
Proof.
  intros Hx Hv Hd HQ. wp_step. eapply wp_lb; [exact Hx|]. apply wp_sb; [exact Hd|].
  by rewrite u8_small by lia.
Qed.

Lemma memmove_run s d src n :
  mapped (l_mem s) d n → mapped (l_mem s) src n → 0 ≤ n →
  ∃ m', memmove d src n s = Some (d, set_mem m' s) ∧
    ∀ x, m' !! x = if decide (d ≤ x < d + n) then l_mem s !! (src + (x - d)) else l_mem s !! x.
Proof.
  intros Hd Hs Hn.
  enough (wp (memmove d src n) s (λ r s', r = d ∧ ∃ m', s' = set_mem m' s ∧
    ∀ x, m' !! x = if decide (d ≤ x < d + n) then l_mem s !! (src + (x - d)) else l_mem s !! x))
    as (r & s' & E & -> & m' & -> & Hm) by (by exists m').
  unfold memmove. wp_step.
  eapply (wp_mono _ _ (λ _ s', ∃ m', s' = set_mem m' s ∧
    ∀ x, m' !! x = if decide (d ≤ x < d + n) then l_mem s !! (src + (x - d)) else l_mem s !! x));
    [|intros [] s' Hs'; by wp_step].
  assert (Hset : set_mem (l_mem s) s = s) by (by destruct s).
  destruct (Z.ltb_spec d src) as [Hlt|Hge]; [|destruct (Z.eqb_spec src d) as [-> |Hne]; cbn [negb]].
  - pose (I := λ i s', ∃ m', s' = set_mem m' s ∧
      ∀ x, m' !! x = if decide (d ≤ x < d + i) then l_mem s !! (src + (x - d)) else l_mem s !! x).
    eapply wp_mono; [apply (wp_for_up I)|].
    + exists (l_mem s). split; [done|]. intros x. by rewrite decide_False by lia.
    + intros i s' Hi (m' & -> & Hm). destruct (Hs (src + i)) as (v & Hv & Hvr); [lia|].
      eapply (wp_copy_byte s m' _ _ v); [| done | |].
      * by rewrite Hm, decide_False by lia.
      * rewrite Hm, decide_False by lia. destruct (Hd (d + i)) as (b & Hb & _); [lia|]. by exists b.
      * exists (<[d + i := v]> m'). split; [done|]. intros x. destruct (decide (x = d + i)) as [-> |].
        -- rewrite lookup_insert_eq, decide_True by lia. rewrite <- Hv. f_equal. lia.
        -- rewrite lookup_insert_ne, Hm by done. repeat case_decide; try done; lia.
    + intros [] s' Hs'. unfold I in Hs'. by rewrite Z.add_0_l, Z2Nat.id in Hs' by lia.
  - apply wp_skip. exists (l_mem s). split; [done|]. intros x. case_decide; [|done]. f_equal. lia.
  - pose (I := λ k s', ∃ m', s' = set_mem m' s ∧
      ∀ x, m' !! x = if decide (d + n - k ≤ x < d + n) then l_mem s !! (src + (x - d)) else l_mem s !! x).
    eapply wp_mono; [apply (wp_for_up I)|].
    + exists (l_mem s). split; [done|]. intros x. by rewrite decide_False by lia.
    + intros k s' Hk (m' & -> & Hm). cbv zeta. destruct (Hs (src + (n - 1 - k))) as (v & Hv & Hvr); [lia|].
      eapply (wp_copy_byte s m' _ _ v); [| done | |].
      * by rewrite Hm, decide_False by lia.
      * rewrite Hm, decide_False by lia. destruct (Hd (d + (n - 1 - k))) as (b & Hb & _); [lia|]. by exists b.
      * exists (<[d + (n - 1 - k) := v]> m'). split; [done|]. intros x.
        destruct (decide (x = d + (n - 1 - k))) as [-> |].
        -- rewrite lookup_insert_eq, decide_True by lia. rewrite <- Hv. f_equal. lia.
        -- rewrite lookup_insert_ne, Hm by done. repeat case_decide; try done; lia.
    + intros [] s' (m' & -> & Hm). exists m'. split; [done|]. intros x. rewrite Hm.
      rewrite Z.add_0_l, Z2Nat.id by lia. by replace (d + n - n) with d by lia.
Qed.

(** ** Searches *)

(** The first index at or after [k] whose byte satisfies [f], or the length. *)
Fixpoint first_idx (f : Z → bool) (l : list Z) : Z :=
  match l with [] => 0 | x :: l' => if f x then 0 else 1 + first_idx f l' end.

Lemma first_idx_bound f l : 0 ≤ first_idx f l ≤ Z.of_nat (length l).
Proof. induction l as [|x l IH]; simpl; [lia|]. destruct (f x); lia. Qed.

Lemma first_idx_before f l j : 0 ≤ j < first_idx f l → f (chr l j) = false.
Proof.
  revert j. induction l as [|x l IH]; intros j; simpl; [lia|]. destruct (f x) eqn:E; [lia|]. intros Hj.
  destruct (decide (j = 0)) as [-> |]; [done|]. specialize (IH (j - 1) ltac:(lia)).
  unfold chr in *. replace (Z.to_nat j) with (S (Z.to_nat (j - 1))) by lia. done.
Qed.

Lemma first_idx_at f l : first_idx f l < Z.of_nat (length l) → f (chr l (first_idx f l)) = true.
Proof.
  induction l as [|x l IH]; simpl; [lia|]. destruct (f x) eqn:E; [done|]. intros Hlt.
  pose proof (first_idx_bound f l). specialize (IH ltac:(lia)).
  unfold chr in *. by replace (Z.to_nat (1 + first_idx f l)) with (S (Z.to_nat (first_idx f l))) by lia.
Qed.

(** Scanning to that index. *)
Lemma first_idx_eq f l i :
  0 ≤ i ≤ Z.of_nat (length l) → (∀ j, 0 ≤ j < i → f (chr l j) = false) →
  i = Z.of_nat (length l) ∨ f (chr l i) = true → first_idx f l = i.
Proof.
  intros Hi Hb He. pose proof (first_idx_bound f l).
  destruct (Z.lt_trichotomy (first_idx f l) i) as [Hlt|[E|Hgt]]; [|done|].
  - specialize (Hb (first_idx f l) ltac:(lia)). rewrite first_idx_at in Hb by lia. done.
  - destruct He as [He|He]; [lia|]. rewrite first_idx_before in He by lia. done.
Qed.

Definition strchr_result (a : Z) (l : list Z) (c : Z) : Z :=
  let i := first_idx (λ x, schar x =? c) l in
  if i =? Z.of_nat (length l) then 0 else a + i.

Lemma strchr_run s a l c :
  cstr_at (l_mem s) a l → Z.of_nat (length l) < 2 ^ 31 →
  strchr a c s = Some (strchr_result a l c, s).
Proof.
  intros Hs Hlen. pose proof (proj2 Hs) as Hn. set (f := λ x, schar x =? c).
  enough (wp (strchr a c) s (λ r s', s' = s ∧ r = strchr_result a l c)) as (r & s' & E & -> & ->) by done.
  unfold strchr.
  eapply (wp_while (λ p s', s' = s ∧ ∃ i, p = a + i ∧ 0 ≤ i ≤ Z.of_nat (length l) ∧
      ∀ j, 0 ≤ j < i → f (chr l j) = false)
    (λ p _, a + Z.of_nat (length l) - p)); [|split; [done|exists 0; split_and!; lia]|lia].
  intros p ? [-> (i & -> & Hi & Hall)]. wp_step. eapply wp_lb; [by apply (cstr_get _ _ l)|]. wp_step.
  unfold strchr_result. fold f.
  destruct (nz (chr l i)) eqn:E; [apply nz_spec in E|apply nz_false, chr_zero in E; [|done|lia]].
  - assert (i < Z.of_nat (length l)).
    { destruct (Z.lt_ge_cases i (Z.of_nat (length l))); [done|]. by rewrite chr_end in E. }
    change (schar (chr l i) =? c) with (f (chr l i)). destruct (f (chr l i)) eqn:Ef.
    + split; [done|]. rewrite (first_idx_eq f l i) by auto. by replace (i =? _) with false by lia.
    + split; [split; [done|]|lia]. exists (i + 1). split_and!; [lia..|].
      intros j Hj. destruct (decide (j = i)) as [-> |]; [done|]. apply Hall. lia.
  - split; [done|]. assert (i = Z.of_nat (length l)) as -> by lia.
    rewrite (first_idx_eq f l (Z.of_nat (length l))) by auto. by rewrite Z.eqb_refl.
Qed.

(** [l2] occurs in [l1] at [i]. *)
Definition occurs (l2 l1 : list Z) (i : Z) : Prop :=
  0 ≤ i ≤ Z.of_nat (length l1) ∧ take (length l2) (drop (Z.to_nat i) l1) = l2.

Lemma strstr_run s a b l1 l2 :
  cstr_at (l_mem s) a l1 → cstr_at (l_mem s) b l2 →
  Z.of_nat (length l1) < 2 ^ 31 → Z.of_nat (length l2) < 2 ^ 31 →
  ∃ r, strstr a b s = Some (r, s) ∧
    ((∃ i, r = a + i ∧ occurs l2 l1 i ∧ ∀ j, j < i → ¬ occurs l2 l1 j) ∨
     (r = 0 ∧ ∀ i, ¬ occurs l2 l1 i)).
Proof.
  intros H1 H2 Hl1 Hl2. pose proof (proj2 H1) as Hn1. pose proof (proj2 H2) as Hn2.
  enough (wp (strstr a b) s (λ r s', s' = s ∧
    ((∃ i, r = a + i ∧ occurs l2 l1 i ∧ ∀ j, j < i → ¬ occurs l2 l1 j) ∨
     (r = 0 ∧ ∀ i, ¬ occurs l2 l1 i)))) as (r & s' & E & -> & Hr) by (by exists r).
  unfold strstr. wp_step. eapply wp_run; [by apply (strlen_run s b l2)|].
  destruct (nz (Z.of_nat (length l2))) eqn:Enl; cbn [negb].
  2:{ apply nz_false in Enl. wp_step. split; [done|]. left. exists 0. destruct l2; [|done].
      split_and!; [lia|split; [lia|done]|]. intros j Hj [? _]. lia. }
  apply nz_spec in Enl.
  eapply (wp_while (λ h s', s' = s ∧ ∃ i, h = a + i ∧ 0 ≤ i ≤ Z.of_nat (length l1) ∧
      ∀ j, j < i → ¬ occurs l2 l1 j)
    (λ h _, a + Z.of_nat (length l1) - h));
    [|split; [done|exists 0; split_and!; [lia..|intros j Hj [? _]; lia]]|lia].
  intros h ? [-> (i & -> & Hi & Hall)]. wp_step. eapply wp_lb; [by apply (cstr_get _ _ l1)|].
  destruct (nz (chr l1 i)) eqn:E; [apply nz_spec in E|apply nz_false, chr_zero in E; [|done|lia]].
  - assert (i < Z.of_nat (length l1)).
    { destruct (Z.lt_ge_cases i (Z.of_nat (length l1))); [done|]. by rewrite chr_end in E. }
    wp_step. destruct (strncmp_run s (a + i) b (drop (Z.to_nat i) l1) l2 (Z.of_nat (length l2)))
      as (r & Hr & Hlex); [by apply cstr_drop|done|lia|].
    eapply wp_run; [exact Hr|]. wp_step. rewrite Nat2Z.id, firstn_all in Hlex.
    destruct (Z.eqb_spec r 0) as [-> |Hr0].
    + split; [done|]. left. exists i. split_and!; [done| |done]. split; [lia|]. by apply lex_eq.
    + split; [split; [done|]|lia]. exists (i + 1). split_and!; [lia..|].
      intros j Hj [Hj1 Hj2]. destruct (decide (j = i)) as [-> |]; [|by apply (Hall j); [lia|split]].
      apply lex_eq in Hj2. rewrite Hj2 in Hlex. by apply Z.compare_eq in Hlex.
  - wp_step. split; [done|]. right. split; [done|]. intros j [Hj1 Hj2].
    destruct (Z.lt_ge_cases j i) as [|Hge]; [by apply (Hall j); [|split]|].
    rewrite drop_ge, take_nil in Hj2 by lia. subst l2. done.
Qed.

(** ** Tokens *)

Lemma schar_inj x y : 0 ≤ x < 256 → 0 ≤ y < 256 → schar x = schar y → x = y.
Proof. intros Hx Hy. unfold schar. destruct (Z.leb_spec 128 x), (Z.leb_spec 128 y); lia. Qed.

Lemma chr_elem l x : x ∈ l → ∃ i, 0 ≤ i < Z.of_nat (length l) ∧ chr l i = x.
Proof.
  intros [i Hi]%list_elem_of_lookup_1. exists (Z.of_nat i). pose proof (lookup_lt_Some _ _ _ Hi).
  split; [lia|]. unfold chr. by rewrite Nat2Z.id, Hi.
Qed.

Lemma elem_chr l i : 0 ≤ i < Z.of_nat (length l) → chr l i ∈ l.
Proof.
  intros Hi. destruct (lookup_lt_is_Some_2 l (Z.to_nat i)) as [b Hb]; [lia|].
  unfold chr. rewrite Hb. by eapply list_elem_of_lookup_2.
Qed.

(** [strchr] as a membership test. *)
Lemma strchr_member a l x :
  0 < a → nonzero l → 0 < x < 256 → nz (strchr_result a l (schar x)) = bool_decide (x ∈ l).
Proof.
  intros Ha Hn Hx. unfold strchr_result. set (f := λ y, schar y =? schar x).
  pose proof (first_idx_bound f l). destruct (Z.eqb_spec (first_idx f l) (Z.of_nat (length l))) as [E|Hne].
  - rewrite bool_decide_eq_false_2; [done|]. intros (i & Hi & Hc)%chr_elem.
    pose proof (first_idx_before f l i ltac:(lia)) as Hf. unfold f in Hf. rewrite Hc in Hf. lia.
  - pose proof (first_idx_at f l ltac:(lia)) as Hf. unfold f in Hf at 1. apply Z.eqb_eq in Hf.
    pose proof (chr_nz l (first_idx f l) Hn ltac:(lia)).
    apply schar_inj in Hf; [|lia..]. rewrite bool_decide_eq_true_2.
    + apply nz_spec. lia.
    + rewrite <- Hf. apply elem_chr. lia.
Qed.

(** What stops the loops of [strtok]. *)
Definition stops (dl : list Z) (member : bool) (x : Z) : bool := negb (eqb (bool_decide (x ∈ dl)) member).

Lemma strtok_skip_run s d dl p l member :
  0 < d → cstr_at (l_mem s) d dl → Z.of_nat (length dl) < 2 ^ 31 →
  l_next s = p → cstr_at (l_mem s) p l → Z.of_nat (length l) < 2 ^ 31 →
  strtok_skip d member s = Some (tt, set_next (p + first_idx (stops dl member) l) s).
Proof.
  intros Hd Hdl Hdlen Hp Hl Hlen. pose proof (proj2 Hl) as Hn. set (f := stops dl member).
  enough (wp (strtok_skip d member) s (λ r s', s' = set_next (p + first_idx f l) s))
    as ([] & s' & E & ->) by done.
  unfold strtok_skip.
  eapply (wp_while (λ _ s', ∃ i, s' = set_next (p + i) s ∧ 0 ≤ i ≤ Z.of_nat (length l) ∧
      ∀ j, 0 ≤ j < i → f (chr l j) = false)
    (λ _ s', p + Z.of_nat (length l) - l_next s')).
  3:{ lia. }
  2:{ exists 0. split_and!; [|lia..]. rewrite Z.add_0_r, <- Hp. by destruct s. }
  intros [] ? (i & -> & Hi & Hall). cbn [l_next set_next]. wp_step. wp_step. wp_step.
  eapply wp_lb; [by apply (cstr_get _ _ l)|].
  destruct (nz (chr l i)) eqn:E; [apply nz_spec in E|apply nz_false, chr_zero in E; [|done|lia]].
  - assert (i < Z.of_nat (length l)).
    { destruct (Z.lt_ge_cases i (Z.of_nat (length l))); [done|]. by rewrite chr_end in E. }
    wp_step. eapply wp_run; [by apply (strchr_run _ _ dl)|].
    rewrite strchr_member; [|done|apply Hdl|apply chr_nz; [done|lia]].
    destruct (eqb (bool_decide (chr l i ∈ dl)) member) eqn:Ef.
    + wp_step. wp_step. wp_step. cbn [l_next set_next]. split; [|lia]. exists (i + 1).
      split_and!; [by rewrite Z.add_assoc|lia..|]. intros j Hj.
      destruct (decide (j = i)) as [-> |]; [|apply Hall; lia]. unfold f, stops. by rewrite Ef.
    + wp_step. rewrite (first_idx_eq f l i); [done|lia|done|]. right. unfold f, stops. by rewrite Ef.
  - wp_step. assert (i = Z.of_nat (length l)) as -> by lia.
    by rewrite (first_idx_eq f l (Z.of_nat (length l))) by auto.
Qed.

Lemma head_drop_chr l k :
  0 ≤ k < Z.of_nat (length l) → head (drop (Z.to_nat k) l) = Some (chr l k).
Proof.
  intros Hk. rewrite head_lookup, lookup_drop, Nat.add_0_r. unfold chr.
  destruct (lookup_lt_is_Some_2 l (Z.to_nat k)) as [b Hb]; [lia|]. by rewrite Hb.
Qed.

Lemma tail_drop_next {A} (l : list A) k : 0 ≤ k → tail (drop (Z.to_nat k) l) = drop (Z.to_nat (k + 1)) l.
Proof.
  intros Hk. replace (Z.to_nat (k + 1)) with (Z.to_nat k + 1)%nat by lia. rewrite <- drop_drop.
  by destruct (drop (Z.to_nat k) l).
Qed.

Lemma Forall_first f l : Forall (λ x, f x = false) (take (Z.to_nat (first_idx f l)) l).
Proof.
  pose proof (first_idx_bound f l). apply Forall_forall. intros x (i & Hi & <-)%chr_elem.
  rewrite length_take in Hi. rewrite chr_take by lia. apply first_idx_before. lia.
Qed.

(** A string cut short by a zero. *)
Lemma cstr_cut m a l i :
  cstr_at m a l → 0 ≤ i < Z.of_nat (length l) →
  cstr_at (<[a + i := 0]> m) a (take (Z.to_nat i) l) ∧
  cstr_at (<[a + i := 0]> m) (a + i + 1) (drop (Z.to_nat (i + 1)) l).
Proof.
  intros Hl Hi. split.
  - split; [|by apply Forall_take, Hl]. intros k Hk. rewrite length_app, length_take in Hk. simpl in Hk.
    destruct (decide (Z.of_nat k = i)) as [<-|Hne].
    + rewrite lookup_insert_eq, lookup_app_r by (rewrite length_take; lia).
      rewrite length_take. by replace (k - _)%nat with 0%nat by lia.
    + rewrite lookup_insert_ne by lia. rewrite (proj1 Hl k) by (rewrite length_app; simpl; lia).
      rewrite !lookup_app_l by (rewrite ?length_take; lia). by rewrite lookup_take_lt by lia.
  - pose proof (cstr_drop _ _ _ (i + 1) Hl ltac:(lia)) as [Hb Hn]. rewrite Z.add_assoc in Hb. split; [|done].
    intros k Hk. rewrite lookup_insert_ne by lia. by apply Hb.
Qed.

Lemma strtok_run s str d dl p l :
  0 < d → cstr_at (l_mem s) d dl → Z.of_nat (length dl) < 2 ^ 31 →
  p = (if nz str then str else l_next s) → 0 < p → cstr_at (l_mem s) p l → Z.of_nat (length l) < 2 ^ 31 →
  let i := first_idx (stops dl true) l in
  let j := i + first_idx (stops dl false) (drop (Z.to_nat i) l) in
  strtok str d s = Some (
    if i =? Z.of_nat (length l) then (0, set_next (p + i) s)
    else if j =? Z.of_nat (length l) then (p + i, set_next (p + j) s)
    else (p + i, set_next (p + j + 1) (set_mem (<[p + j := 0]> (l_mem s)) s))).
Proof.
  intros Hd Hdl Hdlen Hp Hp0 Hl Hlen i j. pose proof (proj2 Hl) as Hn.
  pose proof (first_idx_bound (stops dl true) l) as Hi. fold i in Hi.
  pose proof (first_idx_bound (stops dl false) (drop (Z.to_nat i) l)) as Hj. rewrite length_drop in Hj.
  unfold strtok, bind.
  assert (E0 : (if nz str then modify (set_next str) else skip) s = Some (tt, set_next p s)).
  { rewrite Hp. destruct (nz str); [done|]. by destruct s. }
  rewrite E0. cbn [gets l_next set_next]. replace (nz p) with true by (symmetry; apply nz_spec; lia).
  cbn [negb]. rewrite (strtok_skip_run (set_next p s) d dl p l true) by done. fold i.
  cbn [l_next set_next]. change (set_next (p + i) (set_next p s)) with (set_next (p + i) s).
  unfold lb at 1. cbn [l_mem set_next]. rewrite (cstr_get _ _ l) by done.
  destruct (Z.eqb_spec i (Z.of_nat (length l))) as [E|Hne].
  { rewrite E, chr_end by lia. done. }
  pose proof (chr_nz l i Hn ltac:(lia)).
  replace (nz (chr l i)) with true by (symmetry; apply nz_spec; lia). cbn [negb].
  rewrite (strtok_skip_run (set_next (p + i) s) d dl (p + i) (drop (Z.to_nat i) l) false);
    [|done|done|done|done|apply cstr_drop; [done|lia]|rewrite length_drop; lia].
  rewrite <- Z.add_assoc. fold j. cbn [l_next set_next l_mem].
  unfold lb at 1. cbn [l_mem set_next]. rewrite (cstr_get _ _ l) by (done || lia).
  destruct (Z.eqb_spec j (Z.of_nat (length l))) as [E|Hnej].
  { rewrite E, chr_end by lia. done. }
  pose proof (chr_nz l j Hn ltac:(lia)).
  replace (nz (chr l j)) with true by (symmetry; apply nz_spec; lia).
  unfold sb. cbn [l_mem set_next]. rewrite (cstr_get _ _ l) by (done || lia). done.
Qed.

Lemma stops_true dl x : stops dl true x = false ↔ x ∈ dl.
Proof. unfold stops. by case_bool_decide. Qed.
Lemma stops_false dl x : stops dl false x = false ↔ x ∉ dl.
Proof. unfold stops. by case_bool_decide. Qed.

(** ** The properties *)

(** Memory holding some bytes from an address on, for the examples. *)
Definition mem_of (a : Z) (l : list Z) : gmap Z Z := list_to_map (zip (seqZ a (Z.of_nat (length l))) l).

Lemma bytes_at_dec m a l :
  forallb (λ i, bool_decide (m !! (a + Z.of_nat i) = l !! i)) (seq 0 (length l)) = true → bytes_at m a l.
Proof.
  intros Hf i Hi. rewrite forallb_forall in Hf. eapply bool_decide_eq_true_1, Hf, in_seq. lia.
Qed.

Lemma mapped_dec m a n :
  forallb (λ x, match m !! x with Some b => (0 <=? b) && (b <? 256) | None => false end) (seqZ a n) = true →
  mapped m a n.
Proof.
  intros Hf x Hx. rewrite forallb_forall in Hf.
  specialize (Hf x ltac:(apply list_elem_of_In, elem_of_seqZ; lia)). cbn beta in Hf.
  destruct (m !! x) as [b|]; [|done]. exists b. split; [done|]. lia.
Qed.

(** "abc" at 16 and "ab" at 32. *)
Definition two_strings : libc :=
  mkLibc (mem_of 16 [97; 98; 99; 0; 7; 7; 7; 7] ∪ mem_of 32 [97; 98; 0]) 0 0 0.

Lemma two_strings_1 : cstr_at (l_mem two_strings) 16 [97; 98; 99].
Proof. split; [apply bytes_at_dec; vm_compute; reflexivity|repeat constructor]. Qed.
Lemma two_strings_2 : cstr_at (l_mem two_strings) 32 [97; 98].
Proof. split; [apply bytes_at_dec; vm_compute; reflexivity|repeat constructor]. Qed.

(** [strcmp] on two strings returns, changes nothing, and the sign of its
    result is their lexicographic order. *)
Theorem strcmp_orders s a b l1 l2 :
  cstr_at (l_mem s) a l1 → cstr_at (l_mem s) b l2 → Z.of_nat (length l1) < 2 ^ 31 →
  ∃ r, strcmp a b s = Some (r, s) ∧ (r ?= 0) = lex l1 l2 ∧ (r = 0 ↔ l1 = l2).
Proof.
  intros H1 H2 Hl. destruct (strcmp_run s a b l1 l2 H1 H2 Hl) as (r & E & Hr). exists r.
  split_and!; [done..|]. by rewrite <- lex_eq, <- Hr, Z.compare_eq_iff.
Qed.

Lemma strcmp_orders_witness : ∃ r, strcmp 16 32 two_strings = Some (r, two_strings) ∧ (r ?= 0) = Gt.
Proof.
  destruct (strcmp_orders two_strings 16 32 _ _ two_strings_1 two_strings_2) as (r & E & Hr & _);
    [simpl; lia|]. exists r. split; assumption.
Defined.

(** [strcat] with room in the destination and no overlap returns the
    destination, which then holds the two strings one after the other; no byte
    outside the destination changes. *)
Theorem strcat_appends s d src l1 l2 :
  cstr_at (l_mem s) d l1 → cstr_at (l_mem s) src l2 →
  Z.of_nat (length l1) < 2 ^ 31 → Z.of_nat (length l2) < 2 ^ 31 →
  mapped (l_mem s) d (Z.of_nat (length (l1 ++ l2)) + 1) →
  (d + Z.of_nat (length (l1 ++ l2)) < src ∨ src + Z.of_nat (length l2) < d) →
  ∃ m', strcat d src s = Some (d, set_mem m' s) ∧ cstr_at m' d (l1 ++ l2) ∧
    ∀ x, ¬ d ≤ x ≤ d + Z.of_nat (length (l1 ++ l2)) → m' !! x = l_mem s !! x.
Proof. apply strcat_run. Qed.

Lemma strcat_appends_witness :
  ∃ m', strcat 16 32 two_strings = Some (16, set_mem m' two_strings) ∧ cstr_at m' 16 [97; 98; 99; 97; 98].
Proof.
  destruct (strcat_appends two_strings 16 32 _ _ two_strings_1 two_strings_2) as (m' & E & Hc & _);
    [simpl; lia|simpl; lia|apply mapped_dec; vm_compute; reflexivity|left; simpl; lia|].
  exists m'. split; assumption.
Defined.

(** [memmove] copies right whether or not the blocks overlap: every byte of
    the destination gets the byte the source had before the call, and no other
    byte changes. *)
Theorem memmove_overlap s d src n :
  mapped (l_mem s) d n → mapped (l_mem s) src n → 0 ≤ n →
  ∃ m', memmove d src n s = Some (d, set_mem m' s) ∧
    ∀ x, m' !! x = if decide (d ≤ x < d + n) then l_mem s !! (src + (x - d)) else l_mem s !! x.
Proof. apply memmove_run. Qed.

Lemma memmove_overlap_witness :
  ∃ m', memmove 17 16 3 two_strings = Some (17, set_mem m' two_strings) ∧ m' !! 19 = Some 99.
Proof.
  destruct (memmove_overlap two_strings 17 16 3) as (m' & E & Hm);
    [apply mapped_dec; vm_compute; reflexivity|apply mapped_dec; vm_compute; reflexivity|lia|].
  exists m'. split; [exact E|]. rewrite (Hm 19). vm_compute. reflexivity.
Defined.

(** [strstr] finds the first occurrence of the second string in the first,
    and returns 0 exactly when there is none. *)
Theorem strstr_first s a b l1 l2 :
  cstr_at (l_mem s) a l1 → cstr_at (l_mem s) b l2 →
  Z.of_nat (length l1) < 2 ^ 31 → Z.of_nat (length l2) < 2 ^ 31 →
  ∃ r, strstr a b s = Some (r, s) ∧
    ((∃ i, r = a + i ∧ occurs l2 l1 i ∧ ∀ j, j < i → ¬ occurs l2 l1 j) ∨
     (r = 0 ∧ ∀ i, ¬ occurs l2 l1 i)).
Proof. apply strstr_run. Qed.

Lemma strstr_first_witness : ∃ r, strstr 16 32 two_strings = Some (r, two_strings).
Proof.
  destruct (strstr_first two_strings 16 32 _ _ two_strings_1 two_strings_2) as (r & E & _);
    [simpl; lia|simpl; lia|]. exists r. exact E.
Defined.

(** The three parts of a string [strtok] looks at: delimiters, a token, the rest. *)
Lemma token_parts dl l (i := first_idx (stops dl true) l) (l' := drop (Z.to_nat i) l)
    (k := first_idx (stops dl false) l') :
  Forall (λ x, x ∈ dl) (take (Z.to_nat i) l) ∧
  (i ≠ Z.of_nat (length l) →
    l = take (Z.to_nat i) l ++ take (Z.to_nat k) l' ++ drop (Z.to_nat k) l' ∧
    take (Z.to_nat k) l' ≠ [] ∧ Forall (λ x, x ∉ dl) (take (Z.to_nat k) l') ∧
    (∀ x, head (drop (Z.to_nat k) l') = Some x → x ∈ dl)).
Proof.
  pose proof (first_idx_bound (stops dl true) l) as Hi. fold i in Hi.
  assert (Hll' : length l' = (length l - Z.to_nat i)%nat) by (unfold l'; apply length_drop).
  pose proof (first_idx_bound (stops dl false) l') as Hk. fold k in Hk.
  split. { eapply Forall_impl; [apply Forall_first|]. intros x. apply stops_true. }
  intros Hni. assert (Hk0 : 0 < k).
  { destruct (decide (k = 0)) as [E|]; [|lia]. pose proof (first_idx_at (stops dl true) l ltac:(lia)) as Ha.
    pose proof (first_idx_at (stops dl false) l' ltac:(lia)) as Hb. fold i in Ha. fold k in Hb.
    rewrite E in Hb. unfold l' in Hb. rewrite chr_drop, Z.add_0_r in Hb by lia.
    unfold stops in Ha, Hb. by case_bool_decide. }
  split_and!.
  - rewrite take_drop. unfold l'. by rewrite take_drop.
  - intros E%(f_equal length). rewrite length_take in E. simpl in E. lia.
  - eapply Forall_impl; [apply Forall_first|]. intros x. apply stops_false.
  - intros x Hx. destruct (decide (k = Z.of_nat (length l'))) as [E|]; [by rewrite drop_ge in Hx by lia|].
    pose proof (first_idx_at (stops dl false) l' ltac:(lia)) as Hb. fold k in Hb.
    rewrite head_drop_chr in Hx by lia. injection Hx as <-. unfold stops in Hb. by case_bool_decide.
Qed.

(** A call of [strtok] returns 0 when only delimiters are left; otherwise it
    returns the first longest run of characters that are not delimiters, as a
    string of its own, and leaves [next] at the string of what follows the
    delimiter after it. *)
Theorem strtok_token s str d dl p l :
  0 < d → cstr_at (l_mem s) d dl → Z.of_nat (length dl) < 2 ^ 31 →
  p = (if nz str then str else l_next s) → 0 < p → cstr_at (l_mem s) p l → Z.of_nat (length l) < 2 ^ 31 →
  ∃ r s', strtok str d s = Some (r, s') ∧
    ((r = 0 ∧ Forall (λ x, x ∈ dl) l ∧ l_mem s' = l_mem s) ∨
     (∃ pre tok rest, l = pre ++ tok ++ rest ∧ Forall (λ x, x ∈ dl) pre ∧
        tok ≠ [] ∧ Forall (λ x, x ∉ dl) tok ∧ (∀ x, head rest = Some x → x ∈ dl) ∧
        r = p + Z.of_nat (length pre) ∧ cstr_at (l_mem s') r tok ∧
        cstr_at (l_mem s') (l_next s') (tail rest))).
Proof.
  intros Hd Hdl Hdlen Hp Hp0 Hl Hlen. pose proof (strtok_run s str d dl p l Hd Hdl Hdlen Hp Hp0 Hl Hlen) as Hrun.
  destruct (token_parts dl l) as [Hpre Hparts]. cbv zeta in Hrun. set (i := first_idx (stops dl true) l) in *.
  set (l' := drop (Z.to_nat i) l) in *. set (k := first_idx (stops dl false) l') in *.
  pose proof (first_idx_bound (stops dl true) l) as Hi. fold i in Hi.
  assert (Hll' : length l' = (length l - Z.to_nat i)%nat) by (unfold l'; apply length_drop).
  pose proof (first_idx_bound (stops dl false) l') as Hk. fold k in Hk.
  destruct (Z.eqb_spec i (Z.of_nat (length l))) as [Ei|Hni].
  { eexists _, _. split; [exact Hrun|]. left. split_and!; [done| |done]. by rewrite take_ge in Hpre by lia. }
  destruct (Hparts Hni) as (Hcut & Hne & Htok & Hhead).
  assert (Hl' : cstr_at (l_mem s) (p + i) l') by (apply cstr_drop; [done|lia]).
  match type of Hrun with _ = Some ?x => rewrite (surjective_pairing x) in Hrun end.
  eexists _, _. split; [exact Hrun|]. right.
  exists (take (Z.to_nat i) l), (take (Z.to_nat k) l'), (drop (Z.to_nat k) l').
  split_and!; try done.
  - rewrite length_take. destruct (i + k =? _); cbn [fst]; lia.
  - destruct (Z.eqb_spec (i + k) (Z.of_nat (length l))); cbn [fst snd l_mem set_next set_mem].
    + by rewrite take_ge by lia.
    + rewrite Z.add_assoc. apply cstr_cut; [done|lia].
  - destruct (Z.eqb_spec (i + k) (Z.of_nat (length l))); cbn [fst snd l_mem l_next set_next set_mem].
    + pose proof (cstr_drop _ _ _ k Hl' ltac:(lia)) as Hend. rewrite drop_ge in * by lia.
      by rewrite Z.add_assoc.
    + rewrite Z.add_assoc, tail_drop_next by lia. apply cstr_cut; [done|lia].
Qed.

Lemma strtok_token_witness :
  ∃ r s', strtok 16 32 two_strings = Some (r, s').
Proof.
  destruct (strtok_token two_strings 16 32 _ 16 _ ltac:(lia) two_strings_2 ltac:(simpl; lia)
    eq_refl ltac:(lia) two_strings_1 ltac:(simpl; lia)) as (r & s' & E & _).
  exists r, s'. exact E.
Defined.

(** [strncpy] with [n] copies the bytes of the string and its terminator, but
    at most [n], and changes no other byte: in particular the destination is not
    filled with zeros up to [n]. *)
Theorem strncpy_copies s d src l n :
  cstr_at (l_mem s) src l → 0 ≤ n < 2 ^ 31 → Z.of_nat (length l) < 2 ^ 31 →
  mapped (l_mem s) d (n `min` (Z.of_nat (length l) + 1)) →
  (d + Z.of_nat (length l) < src ∨ src + Z.of_nat (length l) < d) →
  ∃ m', strncpy d src n s = Some (d, set_mem m' s) ∧
    filled (l_mem s) d (n `min` (Z.of_nat (length l) + 1)) (chr l) m'.
Proof. apply strncpy_run. Qed.

Lemma strncpy_copies_witness :
  ∃ m', strncpy 16 32 6 two_strings = Some (16, set_mem m' two_strings) ∧ m' !! 20 = Some 7.
Proof.
  destruct (strncpy_copies two_strings 16 32 _ 6 two_strings_2) as (m' & E & Hf);
    [lia|simpl; lia|apply mapped_dec; vm_compute; reflexivity|left; simpl; lia|].
  exists m'. split; [exact E|]. rewrite (Hf 20). vm_compute. reflexivity.
Defined.

(** [strchr] returns the address of the first occurrence of a character, and
    0 when there is none; the terminator is never found. *)
Theorem strchr_first s a l c :
  cstr_at (l_mem s) a l → Z.of_nat (length l) < 2 ^ 31 →
  ∃ r, strchr a c s = Some (r, s) ∧
    ((∃ i, r = a + i ∧ 0 ≤ i < Z.of_nat (length l) ∧ schar (chr l i) = c ∧
        ∀ j, 0 ≤ j < i → schar (chr l j) ≠ c) ∨
     (r = 0 ∧ ∀ j, 0 ≤ j < Z.of_nat (length l) → schar (chr l j) ≠ c)) ∧
    (c = 0 → r = 0).
Proof.
  intros Hl Hlen. rewrite (strchr_run s a l) by done. exists (strchr_result a l c). split; [done|].
  unfold strchr_result. set (f := λ x, schar x =? c). pose proof (first_idx_bound f l).
  assert (Hb : ∀ j, 0 ≤ j < first_idx f l → schar (chr l j) ≠ c).
  { intros j Hj. apply Z.eqb_neq. by apply (first_idx_before f l). }
  destruct (Z.eqb_spec (first_idx f l) (Z.of_nat (length l))) as [E|Hne].
  - split; [|done]. right. split; [done|]. by rewrite <- E.
  - pose proof (first_idx_at f l ltac:(lia)) as Hat. apply Z.eqb_eq in Hat. split.
    + left. exists (first_idx f l). split_and!; [done|lia..|done|done].
    + intros ->. pose proof (chr_nz l (first_idx f l) (proj2 Hl) ltac:(lia)). unfold schar in Hat.
      destruct (Z.leb_spec 128 (chr l (first_idx f l))); lia.
Qed.

Lemma strchr_first_witness : ∃ r, strchr 16 99 two_strings = Some (r, two_strings).
Proof.
  destruct (strchr_first two_strings 16 _ 99 two_strings_1) as (r & E & _); [simpl; lia|].
  exists r. exact E.
Defined.
