(* ===== verification/Env.v ===== *)
(** * Env: environment variables and aliases of [OvsbMk/kernel/env.c]

    The four static arrays are lists of rows of characters, [char name\[32\]\[32\]]
    and its like; a string argument is the list of its characters, without the
    terminator.  The string functions are those of [OvsbMk/kernel/utils.c]; past
    the end of an argument they read its terminator.  A store past the end of a row or
    into a row that is not there has no result.  [env_get] returns the row the value is
    in. *)

From Stdlib Require Import ZArith Lia.
From Stdlib Require Ascii.
From Stdlib Require Import String.
From stdpp Require Import gmap list prelude.
From S2P Require Import Prelude Libc.

Open Scope list_scope.

(** ** [utils.c] on arrays of characters *)

(** [while ( *a && *a == *b) { a++; b++; } return *a - *b;] *)
Fixpoint strcmp (a b : list Z) : Z :=
  match a with
  | x :: a' => if nz x && (x =? hd 0 b) then strcmp a' (tl b) else schar x - schar (hd 0 b)
  | [] => 0 - schar (hd 0 b)
  end.

(** [while (n-- > 0 && ( *d++ = *s++)); while (n-- > 0) *d++ = 0;] *)
Fixpoint strncpy (n : nat) (d s : list Z) : option (list Z) :=
  match n, d with
  | O, _ => Some d
  | S n', _ :: d' => cons (hd 0 s) <$> strncpy n' d' (if nz (hd 0 s) then tl s else [])
  | S _, [] => None
  end.

(** [while (( *d++ = *s++));] *)
Fixpoint strcpy (d s : list Z) : option (list Z) :=
  match d with
  | [] => None
  | _ :: d' => if nz (hd 0 s) then cons (hd 0 s) <$> strcpy d' (tl s) else Some (hd 0 s :: d')
  end.

(** The string an array holds: the characters before the first zero. *)
Fixpoint cstr (r : list Z) : list Z :=
  match r with [] => [] | b :: r' => if nz b then b :: cstr r' else [] end.

(** ** Tables *)

Definition ENV_MAX : nat := 32.
Definition ALIAS_MAX : nat := 32.

(** A pair of arrays and their count. *)
Record table := mkTable { t_name : list (list Z); t_val : list (list Z); t_count : nat }.

(** [for (i = 0; i < count; i++) if (strcmp(name\[i\], name) == 0) ...] *)
Definition find (name : list Z) (t : table) : option nat :=
  fst <$> list_find (λ r, strcmp r name = 0) (take (t_count t) (t_name t)).

Definition get (name : list Z) (t : table) : option (list Z) :=
  match find name t with Some i => t_val t !! i | None => None end.

(** A copy into row [i]. *)
Definition into_row (copy : list Z → option (list Z)) (i : nat) (rows : list (list Z)) : option (list (list Z)) :=
  match rows !! i with Some r => (λ r', <[i := r']> rows) <$> copy r | None => None end.

(** [width] is the number of characters of a name: 31 or 63. *)
Definition set_ (max width : nat) (name val : list Z) (t : table) : option table :=
  match find name t with
  | Some i =>
      vals ← into_row (λ r, strncpy 255 r val) i (t_val t);
      Some (mkTable (t_name t) vals (t_count t))
  | None =>
      if decide (t_count t < max)%nat then
        names ← into_row (λ r, strncpy width r name) (t_count t) (t_name t);
        vals ← into_row (λ r, strncpy 255 r val) (t_count t) (t_val t);
        Some (mkTable names vals (S (t_count t)))
      else Some t
  end.

(** [for (j = i; j < count - 1; j++) strcpy(rows\[j\], rows\[j + 1\]);] *)
Fixpoint shift_rows (n j : nat) (rows : list (list Z)) : option (list (list Z)) :=
  match n with
  | O => Some rows
  | S n' =>
      from ← rows !! S j;
      rows' ← into_row (λ r, strcpy r from) j rows;
      shift_rows n' (S j) rows'
  end.

(** ** [env.c] *)

Definition env_get (name : list Z) (t : table) : option (list Z) := get name t.
Definition env_set (name val : list Z) (t : table) : option table := set_ ENV_MAX 31 name val t.

Definition str (s : String.string) : list Z := map (λ a, Z.of_nat (Ascii.nat_of_ascii a)) (String.list_ascii_of_string s).

Definition env_init (t : table) : option table :=
  t ← env_set (str "PATH"%string) (str "/BIN:/USR/BIN:/LOCAL/BIN"%string) t;
  t ← env_set (str "HOME"%string) (str "/"%string) t;
  t ← env_set (str "EDITOR"%string) (str "edit"%string) t;
  t ← env_set (str "SHELL"%string) (str "Mk"%string) t;
  env_set (str "PS1"%string) (str "[\w]\$ "%string) t.

Definition alias_get (name : list Z) (t : table) : option (list Z) := get name t.
Definition alias_set (name val : list Z) (t : table) : option table := set_ ALIAS_MAX 63 name val t.

Definition alias_unset (name : list Z) (t : table) : option (Z * table) :=
  match find name t with
  | Some i =>
      let n := (t_count t - 1 - i)%nat in
      names ← shift_rows n i (t_name t);
      vals ← shift_rows n i (t_val t);
      Some (1, mkTable names vals (t_count t - 1))
  | None => Some (0, t)
  end.

Definition env_count_get (t : table) : nat := t_count t.
Definition env_name_get (i : nat) (t : table) : option (list Z) := t_name t !! i.
Definition env_val_get (i : nat) (t : table) : option (list Z) := t_val t !! i.
Definition alias_count_get (t : table) : nat := t_count t.
Definition alias_name_get (i : nat) (t : table) : option (list Z) := t_name t !! i.
Definition alias_val_get (i : nat) (t : table) : option (list Z) := t_val t !! i.

(** The arrays before the first call: zeros. *)
Definition empty_table (width : nat) : table :=
  mkTable (replicate 32 (replicate (S width) 0)) (replicate 32 (replicate 256 0)) 0.
