(* ===== verification/EnvProof.v ===== *)
(** * EnvProof: the tables of [env.c] are finite maps

    For names of at most [width] characters and values of at most 255, every
    operation of a table is the operation of a map with room for 32 keys.  A
    longer name is stored cut and never found again. *)

From Stdlib Require Import ZArith Lia.
From Stdlib Require Import String.
From stdpp Require Import gmap list prelude.
From S2P Require Import Prelude Libc LibcProof Env.

Open Scope list_scope.
Arguments str s%_string.

Implicit Types t : table.
Implicit Types name val : list Z.

(** ** Strings in rows *)

Lemma cstr_app l r : nonzero l → cstr (l ++ 0 :: r) = l.
Proof.
  induction l as [|b l IH]; intros Hl; [done|]. apply Forall_cons in Hl as [Hb Hl]. simpl.
  rewrite (proj2 (nz_spec b)) by lia. by rewrite IH.
Qed.

Lemma cstr_nonzero l : nonzero l → cstr l = l.
Proof.
  induction l as [|b l IH]; intros Hl; [done|]. apply Forall_cons in Hl as [Hb Hl]. simpl.
  rewrite (proj2 (nz_spec b)) by lia. by rewrite IH.
Qed.

Definition chars (r : list Z) : Prop := Forall (λ b, 0 ≤ b < 256) r.

Lemma schar_diff x y : 0 ≤ x < 256 → 0 ≤ y < 256 → schar x - schar y = 0 → x = y.
Proof. unfold schar. intros. repeat case_match; lia. Qed.

(** Comparison of the strings two arrays hold. *)
Lemma strcmp_zero a b : chars a → chars b → strcmp a b = 0 ↔ cstr a = cstr b.
Proof.
  revert b. induction a as [|x a IH]; intros b Ha Hb.
  - simpl. destruct b as [|y b]; simpl; [done|]. apply Forall_cons in Hb as [Hy _].
    destruct (nz y) eqn:E; [apply nz_spec in E|apply nz_false in E; subst y; done].
    split; [intros H; exfalso; apply E; symmetry; apply (schar_diff 0 y); [lia|lia|exact H]|done].
  - apply Forall_cons in Ha as [Hx Ha]. simpl. destruct b as [|y b].
    + simpl. destruct (nz x) eqn:E; [apply nz_spec in E|apply nz_false in E; subst x; done].
      replace (x =? 0) with false by lia. cbn [andb]. split; [|done].
      intros H. exfalso. apply E, (schar_diff x 0); [lia|lia|exact H].
    + apply Forall_cons in Hb as [Hy Hb]. simpl.
      destruct (nz x) eqn:E; [apply nz_spec in E|apply nz_false in E].
      * cbn [andb]. destruct (Z.eqb_spec x y) as [<-|Hne].
        -- rewrite (proj2 (nz_spec x) E), IH by done. split; [by intros ->|by intros [= ->]].
        -- split; [intros H; by apply schar_diff in H|]. destruct (nz y); [intros [= ? _]; done|done].
      * subst x. cbn [andb]. destruct (nz y) eqn:Ey; [apply nz_spec in Ey|apply nz_false in Ey; by subst y].
        split; [intros H; exfalso; apply Ey; symmetry; by apply (schar_diff 0 y)|done].
Qed.

Lemma strncpy_nil n d : (n ≤ length d)%nat → strncpy n d [] = Some (replicate n 0 ++ drop n d).
Proof.
  revert d. induction n as [|n IH]; intros [|x d] Hn; simpl in *; [done|done|lia|]. rewrite IH by lia. done.
Qed.

(** What [strncpy] leaves in an array of at least [n] characters. *)
Lemma strncpy_val n d s :
  nonzero s → (n ≤ length d)%nat → strncpy n d s = Some (take n s ++ replicate (n - length s) 0 ++ drop n d).
Proof.
  revert d s. induction n as [|n IH]; intros d s Hs Hn; [done|].
  destruct d as [|x d]; [simpl in Hn; lia|]. simpl in Hn. destruct s as [|b s].
  - simpl. rewrite strncpy_nil by lia. done.
  - apply Forall_cons in Hs as [Hb Hs]. simpl. rewrite (proj2 (nz_spec b)) by lia. by rewrite IH by (done || lia).
Qed.

(** A row of [S w] characters whose last one is zero. *)
Definition row_ok (w : nat) (r : list Z) : Prop := chars r ∧ length r = S w ∧ r !! w = Some 0.

Lemma row_last w r : row_ok w r → drop w r = [0].
Proof.
  intros (_ & Hl & H0). rewrite (drop_S _ _ _ H0). by rewrite drop_ge by lia.
Qed.

Lemma chars_nonzero l : nonzero l → chars l.
Proof. intros Hl. eapply Forall_impl; [exact Hl|]. simpl. lia. Qed.

Lemma strncpy_row w r s :
  row_ok w r → nonzero s → ∃ r', strncpy w r s = Some r' ∧ row_ok w r' ∧ cstr r' = take w s.
Proof.
  intros Hr Hs. pose proof Hr as (Hc & Hl & H0). rewrite strncpy_val, (row_last w r Hr) by (done || lia).
  eexists. split; [done|]. split; [split_and!|].
  - apply Forall_app. split; [by apply Forall_take, chars_nonzero|].
    apply Forall_app. split; [by apply Forall_replicate|by repeat constructor].
  - rewrite !length_app, length_take, length_replicate. simpl. lia.
  - rewrite app_assoc, lookup_app_r; rewrite length_app, length_take, length_replicate; [|lia].
    by replace (w - _)%nat with 0%nat by lia.
  - assert (Hz : ∃ k, replicate (w - length s) 0 ++ [0] = 0 :: replicate k 0).
    { exists (w - length s)%nat. by rewrite <- replicate_S_end. }
    destruct Hz as [k ->]. apply cstr_app. by apply Forall_take.
Qed.

(** A row holds its string and then a zero. *)
Lemma row_split w r : row_ok w r → ∃ r', r = cstr r ++ 0 :: r' ∧ nonzero (cstr r).
Proof.
  intros (Hc & _ & H0). revert w H0. induction Hc as [|b r Hb Hc IH]; intros w H0; [done|]. simpl.
  destruct (nz b) eqn:E; [apply nz_spec in E|apply nz_false in E; subst b; exists r; split; [done|constructor]].
  destruct w as [|w]; [by injection H0 as ->|]. destruct (IH w H0) as (r' & Hr & Hn).
  exists r'. split; [by rewrite Hr at 1|]. apply Forall_cons; split; [simpl; lia|done].
Qed.

Lemma strcpy_val d s s' :
  nonzero s → (length s < length d)%nat → strcpy d (s ++ 0 :: s') = Some (s ++ 0 :: drop (S (length s)) d).
Proof.
  revert d. induction s as [|b s IH]; intros [|x d] Hs Hl; simpl in Hl; [lia|done|lia|].
  apply Forall_cons in Hs as [Hb Hs]. simpl. rewrite (proj2 (nz_spec b)) by lia.
  by rewrite IH by (done || lia).
Qed.

Lemma cstr_length w r : row_ok w r → (length (cstr r) ≤ w)%nat.
Proof.
  intros Hr. pose proof Hr as (_ & Hl & _). destruct (row_split w r Hr) as (r' & He & _).
  apply (f_equal length) in He. rewrite length_app in He. simpl in He. lia.
Qed.

Lemma strcpy_row w d r :
  row_ok w d → row_ok w r → ∃ r', strcpy d r = Some r' ∧ row_ok w r' ∧ cstr r' = cstr r.
Proof.
  intros (Hc & Hl & H0) Hr. pose proof (cstr_length w r Hr). destruct (row_split w r Hr) as (r' & He & Hn).
  exists (cstr r ++ 0 :: drop (S (length (cstr r))) d). split; [rewrite He at 1; by rewrite strcpy_val by (done || lia)|].
  rewrite cstr_app by done. split; [|done]. split_and!.
  - apply Forall_app. split; [by apply chars_nonzero|]. apply Forall_cons. split; [lia|by apply Forall_drop].
  - rewrite length_app. simpl. rewrite length_drop. lia.
  - destruct (decide (w = length (cstr r))) as [Hw|]; [by rewrite Hw, list_lookup_middle|].
    rewrite lookup_app_r by lia. replace (w - length (cstr r))%nat with (S (w - S (length (cstr r)))) by lia.
    simpl. rewrite lookup_drop. by replace (S _ + _)%nat with w by lia.
Qed.

(** ** What a table holds *)

(** The arrays keep their sizes, every row is terminated and the count is in
    range: what the C declarations and the terminators promise. *)
Definition wf_table (w : nat) (t : table) : Prop :=
  length (t_name t) = 32%nat ∧ length (t_val t) = 32%nat ∧ (t_count t ≤ 32)%nat ∧
  Forall (row_ok w) (t_name t) ∧ Forall (row_ok 255) (t_val t).

Definition entries (t : table) : list (list Z * list Z) :=
  zip (cstr <$> take (t_count t) (t_name t)) (cstr <$> take (t_count t) (t_val t)).

Lemma entries_lookup w t i k v :
  wf_table w t → entries t !! i = Some (k, v) ↔
  (i < t_count t)%nat ∧ cstr <$> t_name t !! i = Some k ∧ cstr <$> t_val t !! i = Some v.
Proof.
  intros (Hn & Hv & Hc & _ & _). unfold entries. rewrite lookup_zip_Some, !list_lookup_fmap.
  destruct (decide (i < t_count t)%nat).
  - rewrite !lookup_take_lt by done. by split; [intros [? ?]|intros (_ & ? & ?)].
  - rewrite !lookup_take_ge by lia. split; [by intros [? ?]|intros (? & _); lia].
Qed.

Lemma entries_length w t : wf_table w t → length (entries t) = t_count t.
Proof.
  intros (Hn & Hv & Hc & _ & _). unfold entries. rewrite length_zip_with, !length_fmap, !length_take. lia.
Qed.

Lemma entries_keys w t : wf_table w t → (entries t).*1 = cstr <$> take (t_count t) (t_name t).
Proof.
  intros (Hn & Hv & Hc & _ & _). unfold entries. apply fst_zip. rewrite !length_fmap, !length_take. lia.
Qed.

Lemma wf_rows w t i :
  wf_table w t → (i < 32)%nat → ∃ r v, t_name t !! i = Some r ∧ t_val t !! i = Some v ∧ row_ok w r ∧ row_ok 255 v.
Proof.
  intros (Hn & Hv & _ & Fn & Fv) Hi.
  destruct (lookup_lt_is_Some_2 (t_name t) i) as [r Hr]; [lia|].
  destruct (lookup_lt_is_Some_2 (t_val t) i) as [v Hv']; [lia|]. exists r, v.
  split_and!; [done|done|by apply (Forall_lookup_1 _ _ _ _ Fn Hr)|by apply (Forall_lookup_1 _ _ _ _ Fv Hv')].
Qed.

(** The search returns the first entry with the name. *)
Lemma find_some w t name i :
  wf_table w t → nonzero name → find name t = Some i → ∃ v, entries t !! i = Some (name, v).
Proof.
  intros Hw Hn. unfold find. destruct (list_find _ _) as [[i' r]|] eqn:E; [|done]. intros [= ->].
  apply list_find_Some in E as (Hr & Hc & _).
  apply lookup_take_Some in Hr as [Hr Hi]. pose proof Hw as (_ & _ & H32 & _).
  destruct (wf_rows w t i Hw) as (r' & v & Hr' & Hv & Hok & _); [lia|]. simplify_eq.
  apply strcmp_zero in Hc; [|by apply Hok|by apply chars_nonzero]. rewrite (cstr_nonzero name Hn) in Hc.
  exists (cstr v). apply (entries_lookup w t i name (cstr v) Hw). rewrite Hr, Hv. simpl. by rewrite Hc.
Qed.

Lemma find_none w t name :
  wf_table w t → nonzero name → find name t = None → name ∉ (entries t).*1.
Proof.
  intros Hw Hn. unfold find. destruct (list_find _ _) as [[i' r]|] eqn:E; [done|]. intros _.
  apply list_find_None in E. rewrite (entries_keys w t Hw). intros Hin.
  apply list_elem_of_fmap in Hin as (r & Hr & Hin). rewrite Forall_forall in E. apply (E r Hin).
  pose proof Hw as (_ & _ & _ & Fn & _). rewrite Forall_forall in Fn.
  assert (Hin' : r ∈ t_name t). { apply list_elem_of_lookup in Hin as [i Hi]. apply lookup_take_Some in Hi as [Hi _].
    by apply list_elem_of_lookup_2 with i. }
  apply strcmp_zero; [by apply (Fn r Hin')|by apply chars_nonzero|]. by rewrite <- Hr, (cstr_nonzero name Hn).
Qed.

(** *** Storing *)

(** A copy into a row that is there, and fits. *)
Lemma into_row_run w copy v i rows :
  Forall (row_ok w) rows → (i < length rows)%nat →
  (∀ r, row_ok w r → ∃ r', copy r = Some r' ∧ row_ok w r' ∧ cstr r' = v) →
  ∃ rows', into_row copy i rows = Some rows' ∧ Forall (row_ok w) rows' ∧ length rows' = length rows ∧
    ∀ j, cstr <$> rows' !! j = if decide (i = j) then Some v else cstr <$> rows !! j.
Proof.
  intros Hr Hi Hc. destruct (lookup_lt_is_Some_2 rows i Hi) as [r E]. destruct (Hc r (Forall_lookup_1 _ _ _ _ Hr E)) as (r' & Er & Hok & Hv).
  exists (<[i := r']> rows). unfold into_row. rewrite E, Er. split_and!; [done|by apply Forall_insert|by rewrite length_insert|].
  intros j. case_decide as Hj; [subst j; rewrite list_lookup_insert_eq by done; simpl; by rewrite Hv|].
  by rewrite list_lookup_insert_ne.
Qed.

Lemma store_row_run w s i rows :
  Forall (row_ok w) rows → (i < length rows)%nat → nonzero s →
  ∃ rows', into_row (λ r, strncpy w r s) i rows = Some rows' ∧ Forall (row_ok w) rows' ∧ length rows' = length rows ∧
    ∀ j, cstr <$> rows' !! j = if decide (i = j) then Some (take w s) else cstr <$> rows !! j.
Proof. intros Hr Hi Hs. apply into_row_run; [done|done|]. intros r Hok. by apply strncpy_row. Qed.

(** What a call of [set_] leaves. *)
Definition put_entry (max w : nat) (name val : list Z) (t : table) : list (list Z * list Z) :=
  match find name t with
  | Some i => <[i := (name, take 255 val)]> (entries t)
  | None => if decide (t_count t < max)%nat then entries t ++ [(take w name, take 255 val)] else entries t
  end.

Lemma entries_ext w t l :
  wf_table w t → length l = t_count t →
  (∀ i k v, l !! i = Some (k, v) → cstr <$> t_name t !! i = Some k ∧ cstr <$> t_val t !! i = Some v) →
  entries t = l.
Proof.
  intros Hw Hl Hx. apply list_eq_same_length with (t_count t); [done|by apply entries_length with w|].
  intros i [k v] [k' v'] Hi H1 H2. apply (entries_lookup w t i k v Hw) in H1 as (_ & E1 & E2).
  destruct (Hx i k' v' H2) as [E3 E4]. rewrite E1 in E3. rewrite E2 in E4. by simplify_eq.
Qed.

Lemma find_lt w t name i : wf_table w t → find name t = Some i → (i < t_count t ≤ 32)%nat.
Proof.
  intros (_ & _ & Hc & _). unfold find. destruct (list_find _ _) as [[i' r]|] eqn:E; [|done]. intros [= ->].
  apply list_find_Some in E as (Hr & _). apply lookup_take_Some in Hr as [_ Hi]. lia.
Qed.

(** [set_] has a result; the arrays keep their type, and the entries are as said. *)
Lemma set_run max w name val t :
  (max ≤ 32)%nat → wf_table w t → nonzero name → nonzero val →
  ∃ t', set_ max w name val t = Some t' ∧ wf_table w t' ∧ entries t' = put_entry max w name val t.
Proof.
  intros Hmax Hw Hs Hval. pose proof (entries_length w t Hw) as Hlen. pose proof Hw as (Hn & Hv & Hc & Fn & Fv).
  unfold set_, put_entry. destruct (find name t) as [i|] eqn:Hf; [|case_decide; [|by exists t]].
  - pose proof (find_lt w t name i Hw Hf) as Hi'. destruct (find_some w t name i Hw Hs Hf) as [v0 Hi].
    destruct (store_row_run 255 val i (t_val t)) as (vals & -> & Fv' & Lv & Ev); [done|lia|done|]. cbn [mbind option_bind].
    assert (Hw' : wf_table w (mkTable (t_name t) vals (t_count t))) by (split_and!; simpl; congruence || done || lia).
    eexists. split_and!; [done|done|]. apply (entries_ext w _ _ Hw'); cbn [t_name t_val t_count]; [by rewrite length_insert|].
    intros j k v Hj. rewrite Ev. pose proof (proj1 (entries_lookup w t i name v0 Hw) Hi) as (_ & Ek & _).
    apply list_lookup_insert_Some in Hj as [(<- & [= <- <-] & _)|[Hne Hj]]; [by rewrite decide_True|].
    rewrite decide_False by done. by apply (entries_lookup w t j k v Hw) in Hj as (_ & ? & ?).
  - destruct (store_row_run w name (t_count t) (t_name t)) as (names & -> & Fn' & Ln & En); [done|lia|done|]. cbn [mbind option_bind].
    destruct (store_row_run 255 val (t_count t) (t_val t)) as (vals & -> & Fv' & Lv & Ev); [done|lia|done|]. cbn [mbind option_bind].
    assert (Hw' : wf_table w (mkTable names vals (S (t_count t)))) by (split_and!; simpl; congruence || done || lia).
    eexists. split_and!; [done|done|]. apply (entries_ext w _ _ Hw'); cbn [t_name t_val t_count]; [rewrite length_app; simpl; lia|].
    intros j k v Hj. rewrite En, Ev. apply lookup_app_Some in Hj as [Hj|[Hge Hj]].
    + pose proof (lookup_lt_Some _ _ _ Hj). rewrite !decide_False by lia.
      by apply (entries_lookup w t j k v Hw) in Hj as (_ & ? & ?).
    + apply list_lookup_singleton_Some in Hj as [Hj [= <- <-]]. by rewrite !decide_True by lia.
Qed.

(** *** Removing *)

Lemma shift_rows_spec w n : ∀ j rows,
  Forall (row_ok w) rows → (j + n < length rows)%nat →
  ∃ rows', shift_rows n j rows = Some rows' ∧ Forall (row_ok w) rows' ∧ length rows' = length rows ∧
  ∀ k, cstr <$> rows' !! k = cstr <$> rows !! (if decide (j ≤ k < j + n)%nat then S k else k).
Proof.
  induction n as [|n IH]; intros j rows Hr Hl; cbn [shift_rows].
  { exists rows. split_and!; [done|done|done|]. intros k. by rewrite decide_False by lia. }
  destruct (lookup_lt_is_Some_2 rows (S j)) as [r Er]; [lia|]. rewrite Er. simpl.
  pose proof (Forall_lookup_1 _ _ _ _ Hr Er) as Hok.
  destruct (into_row_run w (λ x, strcpy x r) (cstr r) j rows) as (rows1 & -> & F1 & L1 & E1); [done|lia| |].
  { intros x Hx. by apply (strcpy_row w x r). }
  simpl. destruct (IH (S j) rows1 F1) as (rows2 & -> & F2 & L2 & E2); [lia|].
  exists rows2. split_and!; [done|done|lia|]. intros k. rewrite E2, E1. destruct (decide (j = k)) as [<-|Hne].
  - rewrite (decide_False (P := (S j ≤ j < S j + n)%nat)), (decide_True (P := (j ≤ j < j + S n)%nat)) by lia.
    by rewrite decide_True, Er by done.
  - rewrite (decide_False (P := j = _)) by (case_decide; lia). repeat case_decide; done || lia.
Qed.

Lemma unset_run w name t :
  wf_table w t → nonzero name →
  ∃ t', alias_unset name t = Some (if decide (is_Some (find name t)) then 1 else 0, t') ∧ wf_table w t' ∧
    entries t' = match find name t with Some i => delete i (entries t) | None => entries t end.
Proof.
  intros Hw Hs. pose proof (entries_length w t Hw) as Hlen. pose proof Hw as (Hn & Hv & Hc & Fn & Fv). unfold alias_unset.
  destruct (find name t) as [i|] eqn:Hf; [|exists t; by rewrite decide_False by (intros [? ?]; done)].
  rewrite decide_True by by eexists. pose proof (find_lt w t name i Hw Hf) as Hi'.
  destruct (find_some w t name i Hw Hs Hf) as [v0 Hi].
  destruct (shift_rows_spec w (t_count t - 1 - i) i (t_name t)) as (names & -> & Fn' & Ln & En); [done|lia|]. cbn [mbind option_bind].
  destruct (shift_rows_spec 255 (t_count t - 1 - i) i (t_val t)) as (vals & -> & Fv' & Lv & Ev); [done|lia|]. cbn [mbind option_bind].
  assert (Hw' : wf_table w (mkTable names vals (t_count t - 1))) by (split_and!; simpl; congruence || done || lia).
  eexists. split_and!; [done|done|]. apply (entries_ext w _ _ Hw'); cbn [t_name t_val t_count]; [rewrite length_delete by eauto; lia|].
  intros j k v Hj. rewrite En, Ev. pose proof (lookup_lt_Some _ _ _ Hj) as Hj'. rewrite length_delete in Hj' by eauto.
  destruct (decide (j < i)%nat).
  - rewrite list_lookup_delete_lt in Hj by done. rewrite !decide_False by lia.
    by apply (entries_lookup w t j k v Hw) in Hj as (_ & ? & ?).
  - rewrite list_lookup_delete_ge in Hj by lia. rewrite !decide_True by lia.
    by apply (entries_lookup w t (S j) k v Hw) in Hj as (_ & ? & ?).
Qed.

(** ** The map a table stands for *)

Abbreviation dict := (gmap (list Z) (list Z)).

Lemma list_to_map_at (l : list (list Z * list Z)) i k v :
  NoDup l.*1 → l !! i = Some (k, v) →
  ∃ l', l ≡ₚ ((k, v) :: l') ∧ delete i l = l' ∧ (∀ v', (<[i := (k, v')]> l) ≡ₚ ((k, v') :: l')) ∧ (k ∉ l'.*1) ∧ NoDup (l'.*1).
Proof.
  intros Hnd Hi. apply list_elem_of_split_length in Hi as (l1 & l2 & -> & ->).
  rewrite fmap_app in Hnd. cbn [fmap list_fmap fst] in Hnd. exists (l1 ++ l2).
  rewrite delete_middle. apply NoDup_app in Hnd as (N1 & N2 & N3). apply NoDup_cons in N3 as [N3 N4].
  rewrite fmap_app. split_and!; [by rewrite Permutation_middle|done| | |].
  - intros v'. rewrite insert_app_r_alt, Nat.sub_diag by lia. simpl. by rewrite Permutation_middle.
  - rewrite not_elem_of_app. split; [|done]. intros Hin. apply (N2 k Hin). left.
  - apply NoDup_app. split_and!; [done| |done]. intros x H1 H2. apply (N2 x H1). by right.
Qed.

Definition denotes (t : table) (m : dict) : Prop := NoDup (entries t).*1 ∧ m = list_to_map (entries t).

Lemma denotes_count w t m : wf_table w t → denotes t m → size m = t_count t.
Proof.
  intros Hw [Hnd ->]. rewrite <- (entries_length w t Hw), <- length_map_to_list.
  by rewrite (map_to_list_to_map (M := gmap (list Z))).
Qed.

Lemma get_denotes w t m name :
  wf_table w t → denotes t m → nonzero name → cstr <$> get name t = m !! name.
Proof.
  intros Hw [Hnd ->] Hs. unfold get. destruct (find name t) as [i|] eqn:Hf.
  - destruct (find_some w t name i Hw Hs Hf) as [v Hi]. pose proof Hi as Hi'.
    apply (entries_lookup w t i name v Hw) in Hi' as (_ & _ & ->). symmetry.
    apply elem_of_list_to_map; [done|]. by apply list_elem_of_lookup_2 with i.
  - symmetry. apply not_elem_of_list_to_map. by apply (find_none w).
Qed.

(** Storing into a map with room for [max] keys. *)
Definition put (max : nat) (name val : list Z) (m : dict) : dict :=
  match m !! name with
  | Some _ => <[name := val]> m
  | None => if decide (size m < max)%nat then <[name := val]> m else m
  end.

Lemma set_denotes max w t m name val :
  (max ≤ 32)%nat → wf_table w t → denotes t m → nonzero name → nonzero val →
  (length name ≤ w)%nat → (length val ≤ 255)%nat →
  ∃ t', set_ max w name val t = Some t' ∧ wf_table w t' ∧ denotes t' (put max name val m).
Proof.
  intros Hmax Hw Hd Hs Hval Hl1 Hl2. pose proof (denotes_count w t m Hw Hd) as Hsz.
  destruct (set_run max w name val t Hmax Hw Hs Hval) as (t' & Et & Hw' & He). destruct Hd as [Hnd ->].
  exists t'. split_and!; [done|done|]. unfold put_entry in He. rewrite !take_ge in He by done. unfold denotes, put. rewrite He, Hsz.
  destruct (find name t) as [i|] eqn:Hf.
  - destruct (find_some w t name i Hw Hs Hf) as [v0 Hi].
    rewrite (proj1 (elem_of_list_to_map _ name v0 Hnd)) by (by apply list_elem_of_lookup_2 with i).
    destruct (list_to_map_at _ i name v0 Hnd Hi) as (l' & Hp & _ & Hins & Hk & Hnd').
    assert (Hnd2 : NoDup ((name, val) :: l').*1) by (by apply NoDup_cons).
    split; [by rewrite (Hins val)|].
    rewrite (list_to_map_proper _ _ Hnd Hp). symmetry in Hins.
    rewrite <- (list_to_map_proper _ _ Hnd2 (Hins val)). by rewrite !list_to_map_cons, insert_insert_eq.
  - pose proof (find_none w t name Hw Hs Hf) as Hk. rewrite (proj1 (not_elem_of_list_to_map _ name) Hk).
    case_decide; [|done]. split; [|by rewrite list_to_map_snoc].
    rewrite fmap_app. apply NoDup_app. split_and!; [done| |by apply NoDup_singleton].
    intros x Hx Hx'. by apply list_elem_of_singleton in Hx' as ->.
Qed.

Lemma unset_denotes w t m name :
  wf_table w t → denotes t m → nonzero name →
  ∃ t', alias_unset name t = Some (if decide (is_Some (m !! name)) then 1 else 0, t') ∧ wf_table w t' ∧ denotes t' (delete name m).
Proof.
  intros Hw Hd Hs. destruct (unset_run w name t Hw Hs) as (t' & Et & Hw' & He). destruct Hd as [Hnd ->].
  exists t'. rewrite Et. unfold denotes. rewrite He. destruct (find name t) as [i|] eqn:Hf.
  - destruct (find_some w t name i Hw Hs Hf) as [v0 Hi].
    rewrite (proj1 (elem_of_list_to_map _ name v0 Hnd)) by (by apply list_elem_of_lookup_2 with i).
    destruct (list_to_map_at _ i name v0 Hnd Hi) as (l' & Hp & -> & _ & Hk & Hnd').
    rewrite !decide_True by by eexists. split_and!; [done|done|done|]. rewrite (list_to_map_proper _ _ Hnd Hp).
    rewrite list_to_map_cons, delete_insert_id; [done|]. by apply not_elem_of_list_to_map.
  - pose proof (find_none w t name Hw Hs Hf) as Hk. rewrite (proj1 (not_elem_of_list_to_map _ name) Hk).
    rewrite !decide_False by (intros [? ?]; done). split_and!; [done|done|done|].
    by rewrite delete_id by (by apply not_elem_of_list_to_map).
Qed.

(** ** Sequences of calls *)

Inductive call := CGet (name : list Z) | CSet (name val : list Z) | CUnset (name : list Z).

(** What a call returns: a string or NULL, nothing, or an integer. *)
Inductive answer := AStr (s : option (list Z)) | ANone | AInt (z : Z).

Definition alias_call (c : call) (t : table) : option (answer * table) :=
  match c with
  | CGet name => Some (AStr (cstr <$> alias_get name t), t)
  | CSet name val => (λ t', (ANone, t')) <$> alias_set name val t
  | CUnset name => (λ '(z, t'), (AInt z, t')) <$> alias_unset name t
  end.

Definition env_call (c : call) (t : table) : option (answer * table) :=
  match c with
  | CGet name => Some (AStr (cstr <$> env_get name t), t)
  | CSet name val => (λ t', (ANone, t')) <$> env_set name val t
  | CUnset _ => Some (ANone, t)
  end.

Definition dict_call (c : call) (m : dict) : option (answer * dict) :=
  Some match c with
  | CGet name => (AStr (m !! name), m)
  | CSet name val => (ANone, put 32 name val m)
  | CUnset name => (AInt (if decide (is_Some (m !! name)) then 1 else 0), delete name m)
  end.

Fixpoint calls {S : Type} (f : call → S → option (answer * S)) (cs : list call) (s : S) : option (list answer * S) :=
  match cs with
  | [] => Some ([], s)
  | c :: cs' => '(a, s1) ← f c s; '(l, s2) ← calls f cs' s1; Some (a :: l, s2)
  end.

(** The strings of a call are C strings; [fits] bounds their length too. *)
Definition call_ok (c : call) : Prop :=
  match c with CGet n | CUnset n => nonzero n | CSet n v => nonzero n ∧ nonzero v end.

Definition fits (w : nat) (c : call) : Prop :=
  match c with CSet n v => (length n ≤ w)%nat ∧ (length v ≤ 255)%nat | _ => True end.

Definition env_only (c : call) : Prop := match c with CUnset _ => False | _ => True end.

Lemma empty_wf w : wf_table w (empty_table w).
Proof.
  split_and!; [done|done|simpl; lia| |].
  - apply Forall_replicate. split_and!; [by apply Forall_replicate|by rewrite length_replicate|].
    by apply lookup_replicate_2; lia.
  - apply Forall_replicate. split_and!; [by apply Forall_replicate|done|done].
Qed.

Lemma empty_denotes w : denotes (empty_table w) ∅.
Proof. split; [constructor|done]. Qed.

Lemma alias_call_sim c t m a m' :
  wf_table 63 t → denotes t m → call_ok c → fits 63 c → dict_call c m = Some (a, m') →
  ∃ t', alias_call c t = Some (a, t') ∧ wf_table 63 t' ∧ denotes t' m'.
Proof.
  intros Hw Hd Hc Hf. destruct c as [n|n v|n]; intros [= <- <-]; simpl.
  - exists t. split_and!; [|done|done]. do 3 f_equal. by apply (get_denotes 63).
  - destruct Hc, Hf. destruct (set_denotes ALIAS_MAX 63 t m n v) as (t' & E & ? & ?); [unfold ALIAS_MAX; lia|done..|].
    exists t'. unfold alias_set. by rewrite E.
  - destruct (unset_denotes 63 t m n Hw Hd Hc) as (t' & -> & ? & ?). by exists t'.
Qed.

Lemma call_wf w f c t :
  (w = 63%nat ∧ f = alias_call) ∨ (w = 31%nat ∧ f = env_call) →
  wf_table w t → call_ok c → ∃ a t', f c t = Some (a, t') ∧ wf_table w t'.
Proof.
  intros Hk Hw Hc. destruct Hk as [[-> ->]|[-> ->]], c as [n|n v|n]; simpl; try by eexists _, _.
  - destruct Hc. destruct (set_run ALIAS_MAX 63 n v t) as (t' & E & ? & _); [unfold ALIAS_MAX; lia|done..|].
    exists ANone, t'. unfold alias_set. by rewrite E.
  - destruct (unset_run 63 n t Hw Hc) as (t' & -> & ? & _). by eexists _, t'.
  - destruct Hc. destruct (set_run ENV_MAX 31 n v t) as (t' & E & ? & _); [unfold ENV_MAX; lia|done..|].
    exists ANone, t'. unfold env_set. by rewrite E.
Qed.

(** C38: under every sequence of calls with C strings of any length no store leaves its
    row or its array, and the arrays of both tables keep their type: 32 rows of the
    declared size, each ended by a zero byte, with characters for elements, and a count
    of at most 32. *)
Theorem tables_keep_type (cs : list call) :
  Forall call_ok cs →
  (∃ l t, calls alias_call cs (empty_table 63) = Some (l, t) ∧ wf_table 63 t) ∧
  (∃ l t, calls env_call cs (empty_table 31) = Some (l, t) ∧ wf_table 31 t).
Proof.
  assert (Hrun : ∀ w f t, (w = 63%nat ∧ f = alias_call) ∨ (w = 31%nat ∧ f = env_call) →
    wf_table w t → Forall call_ok cs → ∃ l t', calls f cs t = Some (l, t') ∧ wf_table w t').
  { intros w f t Hk Hw Hc. revert t Hw. induction Hc as [|c cs Hc1 Hc IH]; intros t Hw; [by eexists _, _|]. cbn [calls].
    destruct (call_wf w f c t Hk Hw Hc1) as (a & t1 & -> & Hw1). destruct (IH t1 Hw1) as (l & t2 & E & Hw2).
    simpl. rewrite E. by eexists _, t2. }
  intros Hc. split; apply Hrun; auto using empty_wf.
Qed.

(** A call whose name does not fit. *)
Definition long_call : call := CSet (replicate 40 65) (replicate 300 66).

Lemma tables_keep_type_witness :
  (λ r, t_count (snd r)) <$> calls env_call [long_call; long_call] (empty_table 31) = Some 2%nat ∧
  (∃ l t, calls alias_call [long_call; long_call] (empty_table 63) = Some (l, t) ∧ wf_table 63 t) ∧
  (∃ l t, calls env_call [long_call; long_call] (empty_table 31) = Some (l, t) ∧ wf_table 31 t).
Proof.
  split; [vm_compute; reflexivity|]. apply (tables_keep_type [long_call; long_call]).
  repeat (apply Forall_cons; split); try apply Forall_nil_2; (split; apply Forall_replicate; lia).
Defined.

(** A name that does not fit is stored cut: it is not found afterwards, and
    each call takes another row. *)
Lemma long_name_lost max w name val t :
  (max ≤ 32)%nat → wf_table w t → nonzero name → nonzero val → (w < length name)%nat →
  (t_count t < max)%nat →
  ∃ t', set_ max w name val t = Some t' ∧ get name t' = None ∧ t_count t' = S (t_count t).
Proof.
  intros Hmax Hw Hs Hv Hl Hc.
  assert (Hnone : ∀ t', wf_table w t' → find name t' = None).
  { intros t' Hw'. destruct (find name t') as [i|] eqn:Hf; [|done]. exfalso.
    destruct (find_some w t' name i Hw' Hs Hf) as [v Hi].
    apply (entries_lookup w t' i name v Hw') in Hi as (Hi & Hk & _). pose proof Hw' as (_ & _ & H32 & _).
    destruct (wf_rows w t' i Hw') as (r & v' & Hr & _ & Hok & _); [lia|]. rewrite Hr in Hk.
    pose proof (cstr_length w r Hok). injection Hk as Hk. rewrite Hk in *. lia. }
  destruct (set_run max w name val t Hmax Hw Hs Hv) as (t' & E & Hw' & He). exists t'. split; [done|].
  unfold get. rewrite (Hnone _ Hw'). split; [done|]. rewrite <- (entries_length w t' Hw'), He. unfold put_entry.
  rewrite (Hnone t Hw), decide_True by done. rewrite length_app, (entries_length w t Hw). simpl. lia.
Qed.

(** Any sequence of [alias_get], [alias_set] and [alias_unset] with names of
    at most 63 characters and values of at most 255, started on the zeroed arrays,
    answers call by call as a finite map with room for 32 names does. *)
Theorem alias_refines_map (cs : list call) :
  Forall call_ok cs → Forall (fits 63) cs →
  fst <$> calls alias_call cs (empty_table 63) = fst <$> calls dict_call cs ∅.
Proof.
  pose proof (empty_wf 63) as Hw. pose proof (empty_denotes 63) as Hd. revert Hw Hd.
  generalize (empty_table 63), (∅ : dict). induction cs as [|c cs IH]; intros t m Hw Hd Hc Hf; [done|].
  apply Forall_cons in Hc as [Hc1 Hc]. apply Forall_cons in Hf as [Hf1 Hf]. cbn [calls].
  destruct (dict_call c m) as [[a m']|] eqn:E; [|done].
  destruct (alias_call_sim c t m a m' Hw Hd Hc1 Hf1 E) as (t' & -> & Hw' & Hd').
  specialize (IH t' m' Hw' Hd' Hc Hf). simpl. destruct (calls alias_call cs t') as [[? ?]|], (calls dict_call cs m') as [[? ?]|];
    simpl in *; by simplify_eq.
Qed.

Definition demo_calls : list call :=
  [CSet (str "ll") (str "ls -l"); CSet (str "q") (str "quit"); CGet (str "ll");
   CUnset (str "ll"); CGet (str "ll"); CGet (str "q"); CUnset (str "ll")].

Lemma str_ok s : forallb (λ b, (0 <? b) && (b <? 256)) (str s) = true → nonzero (str s).
Proof.
  intros H. apply Forall_forall. intros b Hb. rewrite forallb_forall in H.
  apply list_elem_of_In in Hb. specialize (H b Hb). lia.
Qed.

Lemma alias_refines_map_witness :
  fst <$> calls dict_call demo_calls ∅ =
    Some [ANone; ANone; AStr (Some (str "ls -l")); AInt 1; AStr None; AStr (Some (str "quit")); AInt 0] ∧
  fst <$> calls alias_call demo_calls (empty_table 63) = fst <$> calls dict_call demo_calls ∅.
Proof.
  split; [vm_compute; reflexivity|]. apply (alias_refines_map demo_calls).
  - unfold demo_calls. do 7 (apply Forall_cons; split; [unfold call_ok; try split; apply str_ok; reflexivity|]).
    apply Forall_nil_2.
  - unfold demo_calls. repeat (apply Forall_cons; split); try apply Forall_nil_2; try exact I;
      vm_compute; lia.
Defined.
