(* ===== verification/LibcAlloc.v ===== *)
(** * LibcAlloc: [src/userland/libc/stdlib.c]

    Number conversions, the allocator of user programs and [strdup].  The
    allocator works on the bytes of the user's memory: a word is eight of them,
    in little-endian order.  The address of the static array [_heap] and the two
    system calls the library makes are the fields of a class.  Signed overflow
    wraps, as the compiled code does. *)

From Stdlib Require Import ZArith Lia.
From stdpp Require Import gmap list prelude.
From S2P Require Import Prelude Libc.

(** [_heap], and [_syscall] with the numbers 197 and 73 on the user's memory. *)
Class UserEnv := {
  heap_base : Z;
  sys_mmap : Z → gmap Z Z → Z * gmap Z Z;
  sys_munmap : Z → Z → gmap Z Z → Z * gmap Z Z }.

(** ** Conversions *)

Definition atoi_digits (p : Z) : L Z :=
  while_ (λ '(p, n),
    let! c := lb p in
    ret (if (48 <=? schar c) && (schar c <=? 57)
         then inl (p + 1, s32 (s32 (n * 10) + (schar c - 48))) else inr n)) (p, 0).

Definition atoi (str : Z) : L Z :=
  let! p := while_ (λ p, let! c := lb p in ret (if c =? 32 then inl (p + 1) else inr p)) str in
  let! c := lb p in
  let '(sign, p) := if c =? 45 then (-1, p + 1) else if c =? 43 then (1, p + 1) else (1, p) in
  let! n := atoi_digits p in
  ret (s32 (sign * n)).

(** The digits pushed on [tmp\[12\]], the last one first; more than twelve would
    overrun the array. *)
Definition itoa_digits (u : Z) : L (list Z) :=
  loop 12 (λ '(t, u),
    let t' := (48 + u mod 10) :: t in
    ret (if nz (u / 10) then inl (t', u / 10) else inr t')) ([], u).

(** Store bytes one after the other. *)
Fixpoint store_bytes (p : Z) (bs : list Z) : L unit :=
  match bs with [] => skip | b :: bs' => sb p b ;! store_bytes (p + 1) bs' end.

Definition itoa (n buf : Z) : L Z :=
  let! r := (if n <? 0 then sb buf 45 ;! ret (buf + 1, u32 (- n)) else ret (buf, u32 n)) in
  let '(p, u) := r in
  let! t := itoa_digits u in
  store_bytes p t ;!
  sb (p + Z.of_nat (length t)) 0 ;!
  ret buf.

(** ** The allocator *)

(** An [unsigned long] in memory. *)
Fixpoint load_bytes (n : nat) (a : Z) : L (list Z) :=
  match n with
  | O => ret []
  | S n' => let! b := lb a in let! bs := load_bytes n' (a + 1) in ret (b :: bs)
  end.
Definition lw (a : Z) : L Z := let! bs := load_bytes 8 a in ret (le_value bs).
Definition sw (a v : Z) : L unit := store_bytes a (le_bytes 8 v).

Definition HEAP_SIZE : Z := 65536.
Definition HDR_SZ : Z := 8.
Definition USED : Z := 1.
Definition MMAP_THRESH : Z := 2048.
Definition amask (w : Z) : Z := Z.ldiff w USED.
Definition ALIGN8 (n : Z) : Z := Z.ldiff (s32 (n + 7)) 7.
Definition page_up (n : Z) : Z := Z.ldiff (s32 (n + 4095)) 4095.

(** [NEXT(b)] *)
Definition get_next (b : Z) : L Z := lw (b + HDR_SZ).
Definition put_next (b v : Z) : L unit := sw (b + HDR_SZ) v.

Section alloc.
Context `{UserEnv}.

Definition hinit : L unit :=
  let! i := gets l_hinit in
  if nz i then skip else
  modify (set_hinit 1) ;!
  sw heap_base (HEAP_SIZE - HDR_SZ) ;!
  put_next heap_base heap_base ;!
  modify (set_freep heap_base).

(** The system calls. *)
Definition call_mmap (total : Z) : L Z := λ s,
  let '(r, m) := sys_mmap total (l_mem s) in Some (r, set_mem m s).
Definition call_munmap (a total : Z) : L Z := λ s,
  let '(r, m) := sys_munmap a total (l_mem s) in Some (r, set_mem m s).

(** A block of at least [need] bytes is found after [prev]. *)
Definition malloc_take (prev curr csize need : Z) : L Z :=
  (if need + HDR_SZ + 16 <=? csize then
     let new := curr + need in
     sw new (csize - need) ;!
     let! nx := get_next curr in
     put_next new nx ;!
     sw curr (Z.lor need USED) ;!
     put_next prev new
   else
     let! w := lw curr in
     sw curr (Z.lor w USED) ;!
     let! nx := get_next curr in
     put_next prev nx) ;!
  modify (set_freep prev) ;!
  ret (curr + HDR_SZ).

Definition malloc (n : Z) : L Z :=
  if n <=? 0 then ret 0 else
  let! i := gets l_hinit in
  (if nz i then skip else hinit) ;!
  if MMAP_THRESH <=? n then
    let total := page_up (s32 (n + HDR_SZ)) in
    let! h := call_mmap total in
    if negb (nz h) then ret 0 else sw h (Z.lor total USED) ;! ret (h + HDR_SZ)
  else
  let n := ALIGN8 n in
  let need := n + HDR_SZ in
  let! prev := gets l_freep in
  let! curr := get_next prev in
  while_ (λ '(prev, curr),
    let! w := lw curr in
    let csize := s32 (amask w) in
    if need <=? csize then
      let! r := malloc_take prev curr csize need in ret (inr r)
    else
    let! nx := get_next curr in
    let! fp := gets l_freep in
    ret (if nx =? fp then inr 0 else inl (curr, nx))) (prev, curr).

(** The place of a block in the list, by address. *)
Definition free_place (h prev curr : Z) : L (Z * Z) :=
  while_ (λ '(prev, curr),
    if (prev <? h) && (h <? curr) then ret (inr (prev, curr)) else
    if (curr <? prev) && ((prev <? h) || (h <? curr)) then ret (inr (prev, curr)) else
    let! nx := get_next curr in
    let! fp := gets l_freep in
    ret (if curr =? fp then inr (curr, nx) else inl (curr, nx))) (prev, curr).

(** Join [b] with the block [c] when it follows at once. *)
Definition free_join (b c : Z) : L unit :=
  let! wb := lw b in
  if b + s32 (amask wb) =? c then
    let! wc := lw c in
    sw b (u64 (amask wb + amask wc)) ;!
    let! nx := get_next c in
    put_next b nx
  else skip.

Definition free (p : Z) : L unit :=
  if negb (nz p) then skip else
  let h := p - HDR_SZ in
  if (h <? heap_base) || (heap_base + HEAP_SIZE <=? h) then
    let! w := lw h in
    let! _ := call_munmap h (s32 (amask w)) in skip
  else
  let! w := lw h in
  sw h (amask w) ;!
  let! prev := gets l_freep in
  let! curr := get_next prev in
  let! r := free_place h prev curr in
  let '(prev, curr) := r in
  put_next h curr ;!
  put_next prev h ;!
  free_join h curr ;!
  free_join prev h ;!
  modify (set_freep prev).

Definition calloc (n size : Z) : L Z :=
  let total := s32 (n * size) in
  let! p := malloc total in
  (if nz p then for_up (Z.to_nat total) 0 (λ i, sb (p + i) 0) else skip) ;!
  ret p.

Definition realloc (p n : Z) : L Z :=
  if negb (nz p) then malloc n else
  if n <=? 0 then free p ;! ret 0 else
  let! w := lw (p - HDR_SZ) in
  let old := s32 (s32 (amask w) - HDR_SZ) in
  if n <=? old then ret p else
  let! new := malloc n in
  if negb (nz new) then ret 0 else
  let copy := if old <? n then old else n in
  for_up (Z.to_nat copy) 0 (λ i, let! x := lb (p + i) in sb (new + i) x) ;!
  free p ;!
  ret new.

Definition mmap (length : Z) : L Z := call_mmap (page_up length).
Definition munmap (addr length : Z) : L Z :=
  let! r := call_munmap addr (page_up length) in ret (s32 r).

(** From [string.c]. *)
Definition strdup (str : Z) : L Z :=
  if negb (nz str) then ret 0 else
  let! n := strlen str in
  let! p := malloc (s32 (n + 1)) in
  if negb (nz p) then ret 0 else
  for_up (Z.to_nat (n + 1)) 0 (λ i, let! x := lb (str + i) in sb (p + i) x) ;!
  ret p.
End alloc.
