(* ===== verification/LibcAllocProof.v ===== *)
(** * LibcAllocProof: conversions and the allocator of the C library

    [itoa] followed by [atoi] is the identity on every [int].  The allocator
    keeps a pointer to a block it has handed out: its next call follows whatever
    the program wrote there. *)

From Stdlib Require Import ZArith Lia.
From stdpp Require Import gmap list prelude.
From S2P Require Import Prelude Libc LibcProof LibcAlloc.

Implicit Types s : libc.
Implicit Types m : gmap Z Z.

(** ** Bytes and words *)

Definition bytes (bs : list Z) : Prop := Forall (λ b, 0 ≤ b < 256) bs.

Lemma chr_byte bs i : bytes bs → 0 ≤ i < Z.of_nat (length bs) → 0 ≤ chr bs i < 256.
Proof.
  intros Hb Hi. unfold chr. destruct (lookup_lt_is_Some_2 bs (Z.to_nat i)) as [b E]; [lia|].
  rewrite E. simpl. by eapply (Forall_lookup_1 _ _ _ _ Hb).
Qed.

Lemma bytes_at_filled m a bs m' :
  filled m a (Z.of_nat (length bs)) (chr bs) m' → bytes_at m' a bs.
Proof.
  intros Hf i Hi. rewrite Hf, decide_True by lia. unfold chr.
  replace (a + Z.of_nat i - a) with (Z.of_nat i) by lia. rewrite Nat2Z.id.
  destruct (lookup_lt_is_Some_2 bs i Hi) as [b E]. by rewrite E.
Qed.

(** What is away from a write stays. *)
Lemma bytes_at_away m a n f m' x bs :
  filled m a n f m' → x + Z.of_nat (length bs) ≤ a ∨ a + n ≤ x → bytes_at m x bs → bytes_at m' x bs.
Proof. intros Hf Hd Hb i Hi. rewrite Hf, decide_False by lia. by apply Hb. Qed.

Lemma mapped_filled m a bs m' x n :
  filled m a (Z.of_nat (length bs)) (chr bs) m' → bytes bs → mapped m x n → mapped m' x n.
Proof.
  intros Hf Hb Hm y Hy. rewrite Hf. case_decide; [|by apply Hm].
  eexists. split; [done|]. apply chr_byte; [done|lia].
Qed.

Lemma store_bytes_run s a bs :
  mapped (l_mem s) a (Z.of_nat (length bs)) → bytes bs →
  ∃ m', store_bytes a bs s = Some (tt, set_mem m' s) ∧
    filled (l_mem s) a (Z.of_nat (length bs)) (chr bs) m'.
Proof.
  revert s a. induction bs as [|b bs IH]; intros s a Hm Hb.
  - exists (l_mem s). split; [by destruct s|]. intros x. simpl. by rewrite decide_False by lia.
  - apply Forall_cons in Hb as [Hb Hbs]. cbn [length] in *. simpl store_bytes. unfold bind, sb.
    destruct (Hm a) as (b0 & E & _); [lia|]. rewrite E, u8_small by lia.
    set (m1 := <[a := b]> (l_mem s)).
    destruct (IH (set_mem m1 s) (a + 1)) as (m' & Hrun & Hf); [|done|].
    { intros x Hx. cbn [l_mem set_mem]. unfold m1. rewrite lookup_insert_ne by lia. apply Hm. lia. }
    exists m'. split; [rewrite Hrun; by destruct s|]. intros x. rewrite Hf. cbn [l_mem set_mem]. unfold m1.
    destruct (decide (x = a)) as [-> |Hne].
    + rewrite decide_False, lookup_insert_eq, decide_True by lia. by rewrite Z.sub_diag.
    + rewrite lookup_insert_ne by done.
      destruct (decide (a + 1 ≤ x < a + 1 + Z.of_nat (length bs))).
      * rewrite decide_True by lia. f_equal. unfold chr.
        by replace (Z.to_nat (x - a)) with (S (Z.to_nat (x - (a + 1)))) by lia.
      * by rewrite decide_False by lia.
Qed.

Lemma load_bytes_run s a bs : bytes_at (l_mem s) a bs → load_bytes (length bs) a s = Some (bs, s).
Proof.
  revert a. induction bs as [|b bs IH]; intros a Hb; [done|]. simpl. unfold bind, lb.
  pose proof (Hb 0%nat ltac:(simpl; lia)) as H0. rewrite Z.add_0_r in H0. rewrite H0. simpl.
  rewrite IH; [done|]. intros i Hi. specialize (Hb (S i) ltac:(simpl; lia)).
  by replace (a + 1 + Z.of_nat i) with (a + Z.of_nat (S i)) by lia.
Qed.

Definition word_at m (a w : Z) : Prop := bytes_at m a (le_bytes 8 w).

Lemma lw_run s a w : word_at (l_mem s) a w → 0 ≤ w < 2 ^ 64 → lw a s = Some (w, s).
Proof.
  intros Hw Hr. unfold lw, bind. change 8%nat with (length (le_bytes 8 w)) at 1.
  rewrite load_bytes_run by done. unfold ret. rewrite le_value_bytes.
  change (2 ^ (8 * Z.of_nat 8)) with (2 ^ 64). by rewrite Z.mod_small.
Qed.

(** Storing a word: it is there, words elsewhere stay, and so does what is mapped. *)
Definition stored m (a w : Z) m' : Prop :=
  word_at m' a w ∧ (∀ x v, x + 8 ≤ a ∨ a + 8 ≤ x → word_at m x v → word_at m' x v) ∧
  (∀ x n, mapped m x n → mapped m' x n).

Lemma sw_run s a w :
  mapped (l_mem s) a 8 → ∃ m', sw a w s = Some (tt, set_mem m' s) ∧ stored (l_mem s) a w m'.
Proof.
  intros Hm. destruct (store_bytes_run s a (le_bytes 8 w)) as (m' & Hrun & Hf);
    [by rewrite le_bytes_length|apply le_bytes_range|].
  exists m'. split; [done|]. split; [by eapply bytes_at_filled|]. rewrite le_bytes_length in Hf. split.
  - intros x v Hd. eapply bytes_at_away; [done|]. rewrite le_bytes_length. lia.
  - intros x n. eapply mapped_filled; [|apply le_bytes_range]. rewrite le_bytes_length. done.
Qed.

(** ** A block being written *)

(** The buffer starts with [d]; nothing else has changed. *)
Definition wrote m (buf : Z) (d : list Z) m' : Prop := filled m buf (Z.of_nat (length d)) (chr d) m'.

(** [buf] has [n] bytes; [k] bytes from [a] on are outside it. *)
Definition apart (buf n a k : Z) : Prop := a + k ≤ buf ∨ buf + n ≤ a.

Lemma wrote_nil m buf : wrote m buf [] m.
Proof. intros x. simpl. by rewrite decide_False by lia. Qed.

Lemma chr_app_l d1 d2 i : 0 ≤ i < Z.of_nat (length d1) → chr (d1 ++ d2) i = chr d1 i.
Proof. intros. unfold chr. by rewrite lookup_app_l by lia. Qed.

Lemma chr_snoc d c : chr (d ++ [c]) (Z.of_nat (length d)) = c.
Proof. unfold chr. rewrite Nat2Z.id, lookup_app_r, Nat.sub_diag by lia. done. Qed.

Lemma wrote_snoc m buf d c m' :
  wrote m buf d m' → wrote m buf (d ++ [c]) (<[buf + Z.of_nat (length d) := c]> m').
Proof.
  intros Hw x. rewrite length_app. cbn [length].
  destruct (decide (x = buf + Z.of_nat (length d))) as [-> |Hne].
  - rewrite lookup_insert_eq, decide_True by lia. f_equal.
    replace (buf + _ - buf) with (Z.of_nat (length d)) by lia. by rewrite chr_snoc.
  - rewrite lookup_insert_ne by done. rewrite Hw. repeat case_decide; try lia; [|done].
    by rewrite chr_app_l by lia.
Qed.

Lemma wrote_away m buf d m' n x :
  wrote m buf d m' → Z.of_nat (length d) ≤ n → apart buf n x 1 → m' !! x = m !! x.
Proof. intros Hw Hn Ha. unfold apart in Ha. by rewrite Hw, decide_False by lia. Qed.

(** One byte more. *)
Lemma wrote_sb s m buf n d c m' :
  wrote m buf d m' → mapped m buf n → Z.of_nat (length d) < n →
  sb (buf + Z.of_nat (length d)) c (set_mem m' s) =
    Some (tt, set_mem (<[buf + Z.of_nat (length d) := u8 c]> m') s).
Proof.
  intros Hw Hm Hl. unfold sb. cbn [l_mem set_mem]. rewrite Hw, decide_False by lia.
  destruct (Hm (buf + Z.of_nat (length d))) as (b & -> & _); [lia|done].
Qed.

(** Bytes put in front of those already written. *)
Lemma wrote_front m a c m1 bs m2 :
  wrote m a c m1 → filled m1 (a - Z.of_nat (length bs)) (Z.of_nat (length bs)) (chr bs) m2 →
  wrote m (a - Z.of_nat (length bs)) (bs ++ c) m2.
Proof.
  intros Hw Hf x. rewrite Hf, length_app, Hw. repeat case_decide; try done; try lia.
  - by rewrite chr_app_l by lia.
  - unfold chr. rewrite lookup_app_r by lia. do 3 f_equal. lia.
Qed.

Lemma wrote_bytes m a c m' : wrote m a c m' → bytes_at m' a c.
Proof. apply bytes_at_filled. Qed.

Lemma bytes_at_app m a l1 l2 :
  bytes_at m a (l1 ++ l2) ↔ bytes_at m a l1 ∧ bytes_at m (a + Z.of_nat (length l1)) l2.
Proof.
  split.
  - intros Hb. split; intros i Hi.
    + rewrite (Hb i) by (rewrite length_app; lia). by apply lookup_app_l.
    + rewrite <- Z.add_assoc, <- Nat2Z.inj_add, (Hb (length l1 + i)%nat) by (rewrite length_app; lia).
      rewrite lookup_app_r by lia. f_equal. lia.
  - intros [H1 H2] i Hi. rewrite length_app in Hi. destruct (decide (i < length l1)%nat).
    + rewrite lookup_app_l by done. by apply H1.
    + rewrite lookup_app_r by lia. rewrite <- H2 by lia. f_equal. lia.
Qed.

(** A counted copy between places that do not overlap. *)
Lemma copy_bytes_run s d src bs :
  bytes_at (l_mem s) src bs → bytes bs → mapped (l_mem s) d (Z.of_nat (length bs)) →
  apart d (Z.of_nat (length bs)) src (Z.of_nat (length bs)) →
  ∃ m', for_up (length bs) 0 (λ j, let! c := lb (src + j) in sb (d + j) c) s = Some (tt, set_mem m' s) ∧
    filled (l_mem s) d (Z.of_nat (length bs)) (chr bs) m'.
Proof.
  intros Hs Hb Hm Ha. unfold apart in Ha.
  enough (wp (for_up (length bs) 0 (λ j, let! c := lb (src + j) in sb (d + j) c)) s (λ _ s', ∃ m',
    s' = set_mem m' s ∧ filled (l_mem s) d (0 + Z.of_nat (length bs)) (chr bs) m')) as ([] & s' & E & m' & -> & Hf).
  { by exists m'. }
  apply (wp_for_up (λ i s', ∃ m', s' = set_mem m' s ∧ filled (l_mem s) d i (chr bs) m')).
  { exists (l_mem s). split; [by destruct s|]. intros x. by rewrite decide_False by lia. }
  intros i s' Hi (m' & -> & Hf). wp_step. eapply (wp_lb _ (chr bs i)).
  { cbn [l_mem set_mem]. rewrite Hf, decide_False by lia.
    specialize (Hs (Z.to_nat i) ltac:(lia)). rewrite Z2Nat.id in Hs by lia. rewrite Hs. unfold chr.
    by destruct (lookup_lt_is_Some_2 bs (Z.to_nat i)) as [b ->]; [lia|]. }
  apply wp_sb.
  { cbn [l_mem set_mem]. rewrite Hf, decide_False by lia.
    destruct (Hm (d + i)) as (b & Hb' & _); [lia|]. by exists b. }
  rewrite u8_small by (apply chr_byte; [done|lia]). eexists. split; [reflexivity|].
  apply filled_next; [lia|done].
Qed.

(** ** Numbers *)

Lemma s32_mod x : s32 x mod 2 ^ 32 = x mod 2 ^ 32.
Proof.
  unfold s32. rewrite Zminus_mod_idemp_l. f_equal. lia.
Qed.

Lemma s32_congr x y : x mod 2 ^ 32 = y mod 2 ^ 32 → s32 x = s32 y.
Proof. intros E. unfold s32. f_equal. rewrite <- Zplus_mod_idemp_l, E. by rewrite Zplus_mod_idemp_l. Qed.

Lemma s32_add x y : s32 (s32 x + y) = s32 (x + y).
Proof. apply s32_congr. rewrite <- Zplus_mod_idemp_l, s32_mod. by rewrite Zplus_mod_idemp_l. Qed.

Lemma s32_mul x y : s32 (x * s32 y) = s32 (x * y).
Proof. apply s32_congr. rewrite <- Zmult_mod_idemp_r, s32_mod. by rewrite Zmult_mod_idemp_r. Qed.

(** The value of a list of decimal digits, after a number already read. *)
Fixpoint dec (acc : Z) (ds : list Z) : Z :=
  match ds with [] => acc | d :: ds' => dec (acc * 10 + (d - 48)) ds' end.

Definition digit (d : Z) : Prop := 48 ≤ d ≤ 57.

Lemma dec_app acc a b : dec acc (a ++ b) = dec (dec acc a) b.
Proof. revert acc. induction a as [|d a IH]; intros acc; [done|]. apply IH. Qed.

Lemma itoa_digits_run s u :
  0 ≤ u < 2 ^ 32 →
  ∃ t, itoa_digits u s = Some (t, s) ∧ Forall digit t ∧ dec 0 t = u ∧ (1 ≤ length t ≤ 10)%nat.
Proof.
  intros Hu.
  enough (wp (itoa_digits u) s (λ t s', s' = s ∧ Forall digit t ∧ dec 0 t = u ∧ (1 ≤ length t ≤ 10)%nat))
    as (t & s' & E & -> & Ht) by (by exists t).
  unfold itoa_digits.
  eapply (wp_loop (λ '(t, v) s', s' = s ∧ Forall digit t ∧ 0 ≤ v < 10 ^ (10 - Z.of_nat (length t)) ∧
      dec v t = u ∧ (length t ≤ 9)%nat) (λ '(t, _) _, 10 - length t)%nat); [| |simpl; lia].
  2:{ split_and!; simpl; try done; lia. }
  intros [t v] ? (-> & Hd & Hv & Hdec & Hlen). cbv zeta. wp_step.
  pose proof (Z.mod_pos_bound v 10 ltac:(lia)) as Hm. pose proof (Z.div_mod v 10 ltac:(lia)) as Hdm.
  assert (Hd' : Forall digit ((48 + v mod 10) :: t)) by (constructor; [unfold digit; lia|done]).
  destruct (nz (v / 10)) eqn:E; [apply nz_spec in E|apply nz_false in E].
  - assert (Hl : (length t < 9)%nat).
    { destruct (Nat.lt_ge_cases (length t) 9) as [|Hge]; [done|].
      replace (10 - Z.of_nat (length t)) with 1 in Hv by lia. lia. }
    assert (Hp : 10 ^ (10 - Z.of_nat (length t)) = 10 * 10 ^ (10 - Z.of_nat (length ((48 + v mod 10) :: t)))).
    { rewrite <- Z.pow_succ_r by (cbn [length]; lia). f_equal. cbn [length]. lia. }
    split; [split_and!; try done|cbn [length]; lia].
    + apply Z.div_pos; lia.
    + apply Z.div_lt_upper_bound; lia.
    + simpl. rewrite <- Hdec. f_equal. lia.
  - split_and!; try done; [|cbn [length]; lia..]. simpl. rewrite <- Hdec. f_equal. lia.
Qed.

Lemma digit_chr ds i : Forall digit ds → 0 ≤ i < Z.of_nat (length ds) → digit (chr ds i).
Proof.
  intros Hd Hi. unfold chr. destruct (lookup_lt_is_Some_2 ds (Z.to_nat i)) as [b E]; [lia|].
  rewrite E. simpl. by eapply (Forall_lookup_1 _ _ _ _ Hd).
Qed.

Lemma digits_nonzero ds : Forall digit ds → nonzero ds.
Proof. intros Hd. eapply Forall_impl; [done|]. unfold digit. intros d. simpl. lia. Qed.

Lemma schar_digit d : digit d → schar d = d.
Proof. unfold digit, schar. intros. by replace (128 <=? d) with false by lia. Qed.

Lemma atoi_digits_run s p ds :
  cstr_at (l_mem s) p ds → Forall digit ds → Z.of_nat (length ds) < 2 ^ 31 →
  atoi_digits p s = Some (s32 (dec 0 ds), s).
Proof.
  intros Hs Hd Hlen.
  enough (wp (atoi_digits p) s (λ r s', s' = s ∧ r = s32 (dec 0 ds))) as (r & s' & E & -> & ->) by done.
  unfold atoi_digits.
  eapply (wp_while (λ '(q, n) s', s' = s ∧ ∃ i, q = p + i ∧ 0 ≤ i ≤ Z.of_nat (length ds) ∧
      n = s32 (dec 0 (take (Z.to_nat i) ds)))
    (λ '(q, _) _, p + Z.of_nat (length ds) - q)); [|split; [done|exists 0; split_and!; [lia..|done]]|lia].
  intros [q n] ? [-> (i & -> & Hi & ->)]. wp_step. eapply wp_lb; [by apply (cstr_get _ _ ds)|]. wp_step.
  destruct (Z.lt_ge_cases i (Z.of_nat (length ds))) as [Hlt|Hge].
  - pose proof (digit_chr ds i Hd ltac:(lia)) as Hc. rewrite schar_digit by done. unfold digit in Hc.
    replace (_ && _) with true by lia. split; [split; [done|]|lia]. exists (i + 1). split_and!; [lia..|].
    destruct (lookup_lt_is_Some_2 ds (Z.to_nat i)) as [d Ed]; [lia|].
    replace (Z.to_nat (i + 1)) with (S (Z.to_nat i)) by lia.
    rewrite (take_S_r _ _ _ Ed), dec_app. simpl. unfold chr. rewrite Ed. simpl.
    rewrite s32_add, Z.mul_comm, <- s32_add, s32_mul, s32_add. f_equal. lia.
  - rewrite chr_end by lia. cbn. split; [done|]. by rewrite take_ge by lia.
Qed.

Lemma while_done {A B} (body : A → M libc (A + B)) a s (b : B) s' :
  body a s = Some (inr b, s') → while_ body a s = Some (b, s').
Proof.
  intros E. enough (wp (while_ body a) s (λ b' s'', b' = b ∧ s'' = s')) as (b' & s'' & E' & -> & ->) by done.
  eapply (wp_while (λ a' s'', a' = a ∧ s'' = s) (λ _ _, 0)); [|done|lia].
  intros a' s'' [-> ->]. eapply wp_run; [exact E|]. done.
Qed.

(** [atoi] of an optional sign and digits. *)
Lemma atoi_run s str neg ds :
  cstr_at (l_mem s) str (if neg : bool then 45 :: ds else ds) → Forall digit ds → ds ≠ [] →
  Z.of_nat (length ds) < 2 ^ 31 - 1 →
  atoi str s = Some (s32 (if neg then - dec 0 ds else dec 0 ds), s).
Proof.
  intros Hs Hd Hne Hlen. set (l := if neg then _ else _) in Hs.
  assert (Hl0 : 0 < Z.of_nat (length l)) by (destruct neg, ds; simpl in *; try done; lia).
  pose proof (cstr_get _ _ _ 0 Hs ltac:(lia)) as E0. rewrite Z.add_0_r in E0.
  assert (Hc : if neg then chr l 0 = 45 else digit (chr l 0)).
  { unfold l. destruct neg; [done|]. apply digit_chr; [done|]. unfold l in Hl0. lia. }
  assert (H32 : (chr l 0 =? 32) = false) by (destruct neg; unfold digit in Hc; lia).
  unfold atoi, bind. rewrite (while_done _ str s str s).
  2:{ unfold lb. rewrite E0. by rewrite H32. }
  unfold lb at 1. rewrite E0. destruct neg.
  - rewrite Hc. cbn [Z.eqb Pos.eqb].
    rewrite (atoi_digits_run s (str + 1) ds); [|apply (cstr_drop _ _ _ 1 Hs); simpl; lia|done|lia].
    unfold ret. rewrite s32_mul. by replace (-1 * dec 0 ds) with (- dec 0 ds) by lia.
  - unfold digit in Hc. replace (chr l 0 =? 45) with false by lia. replace (chr l 0 =? 43) with false by lia.
    rewrite (atoi_digits_run s str ds) by (done || lia). unfold ret. by rewrite s32_mul, Z.mul_1_l.
Qed.

Lemma store_bytes_app p b1 b2 s :
  store_bytes p (b1 ++ b2) s = (store_bytes p b1 ;! store_bytes (p + Z.of_nat (length b1)) b2) s.
Proof.
  revert p s. induction b1 as [|b b1 IH]; intros p s; simpl; unfold bind in *; [by rewrite Z.add_0_r|].
  destruct (sb p b s) as [[[] s']|]; [|done]. rewrite IH.
  by replace (p + 1 + Z.of_nat (length b1)) with (p + Z.of_nat (S (length b1))) by lia.
Qed.

Lemma store_bytes_snoc p bs b s :
  store_bytes p (bs ++ [b]) s = (store_bytes p bs ;! sb (p + Z.of_nat (length bs)) b) s.
Proof.
  rewrite store_bytes_app. unfold bind. destruct (store_bytes p bs s) as [[[] s']|]; [|done]. simpl.
  unfold bind, skip, ret. by destruct (sb _ b s') as [[[] s'']|].
Qed.

(** [itoa] writes a sign and digits in one go. *)
Lemma itoa_stores s n buf :
  - 2 ^ 31 ≤ n < 2 ^ 31 → mapped (l_mem s) buf 12 →
  ∃ ds, itoa n buf s = (store_bytes buf ((if n <? 0 then 45 :: ds else ds) ++ [0]) ;! ret buf) s ∧
    Forall digit ds ∧ dec 0 ds = Z.abs n ∧ (1 ≤ length ds ≤ 10)%nat.
Proof.
  intros Hn Hmap. unfold itoa. destruct (Z.ltb_spec n 0) as [Hlt|Hge].
  - destruct (sb buf 45 s) as [[[] s1]|] eqn:E1.
    2:{ destruct (Hmap buf ltac:(lia)) as (b & Eb & _). unfold sb in E1. by rewrite Eb in E1. }
    destruct (itoa_digits_run s1 (Z.abs n)) as (ds & E & Hds); [lia|]. exists ds. split; [|done].
    unfold bind. rewrite E1. cbn [ret]. rewrite u32_small by lia. replace (- n) with (Z.abs n) by lia.
    rewrite E. simpl. unfold bind at 1. rewrite E1, store_bytes_snoc. unfold bind.
    by destruct (store_bytes (buf + 1) ds s1) as [[[] s2]|].
  - destruct (itoa_digits_run s (Z.abs n)) as (ds & E & Hds); [lia|]. exists ds. split; [|done].
    unfold bind at 1. cbn [ret]. rewrite u32_small by lia. replace n with (Z.abs n) at 1 by lia.
    unfold bind. rewrite E, store_bytes_snoc. unfold bind. by destruct (store_bytes buf ds s) as [[[] s2]|].
Qed.

(** What [itoa] writes. *)
Lemma itoa_run s n buf :
  - 2 ^ 31 ≤ n < 2 ^ 31 → mapped (l_mem s) buf 12 →
  ∃ m' ds, itoa n buf s = Some (buf, set_mem m' s) ∧
    cstr_at m' buf (if n <? 0 then 45 :: ds else ds) ∧ Forall digit ds ∧ dec 0 ds = Z.abs n ∧
    (1 ≤ length ds ≤ 10)%nat ∧ ∀ x, ¬ buf ≤ x < buf + 12 → m' !! x = l_mem s !! x.
Proof.
  intros Hn Hmap. destruct (itoa_stores s n buf Hn Hmap) as (ds & E & Hd & Hdec & Hlen).
  set (l := if n <? 0 then 45 :: ds else ds) in *. pose proof (digits_nonzero ds Hd) as Hnz.
  assert (Hl : nonzero l) by (unfold l; destruct (n <? 0); [constructor; [lia|done]|done]).
  assert (Hb : bytes (l ++ [0])).
  { apply Forall_app. split; [|by repeat constructor]. eapply Forall_impl; [exact Hl|]. simpl. lia. }
  assert (Hlenl : (length l ≤ 11)%nat) by (unfold l; destruct (n <? 0); simpl; lia).
  destruct (store_bytes_run s buf (l ++ [0])) as (m' & Hst & Hf); [|done|].
  { rewrite length_app. simpl. intros x Hx. apply Hmap. lia. }
  exists m', ds. split_and!; try done; try lia.
  - rewrite E. unfold bind. by rewrite Hst.
  - split; [by eapply bytes_at_filled|done].
  - intros x Hx. rewrite Hf, decide_False; [done|]. rewrite length_app. simpl. lia.
Qed.

(** ** The first call of [malloc] *)

Section alloc.
Context `{UserEnv}.

Lemma align8_bound n : 0 < n < 2048 → n ≤ ALIGN8 n ≤ 2048 ∧ 8 ≤ ALIGN8 n.
Proof.
  intros Hn. unfold ALIGN8. rewrite s32_small by lia. change 7 with (Z.ones 3) at 2 4 6.
  rewrite !Z.ldiff_ones_r, Z.shiftl_mul_pow2, Z.shiftr_div_pow2 by lia. change (2 ^ 3) with 8.
  pose proof (Z.div_mod (n + 7) 8 ltac:(lia)). pose proof (Z.mod_pos_bound (n + 7) 8 ltac:(lia)). lia.
Qed.

Lemma hinit_run s :
  l_hinit s = 0 → mapped (l_mem s) heap_base HEAP_SIZE →
  ∃ m1, hinit s = Some (tt, mkLibc m1 (l_next s) 1 heap_base) ∧
    word_at m1 heap_base (HEAP_SIZE - HDR_SZ) ∧ word_at m1 (heap_base + 8) heap_base ∧
    mapped m1 heap_base HEAP_SIZE.
Proof.
  intros Hi Hm. set (s1 := set_hinit 1 s). unfold HEAP_SIZE in Hm.
  destruct (sw_run s1 heap_base (HEAP_SIZE - HDR_SZ)) as (ma & Ea & Ha1 & Ha2 & Ha3).
  { intros x Hx. apply Hm. lia. }
  destruct (sw_run (set_mem ma s1) (heap_base + 8) heap_base) as (mb & Eb & Hb1 & Hb2 & Hb3).
  { intros x Hx. apply (Ha3 heap_base 65536); [done|lia]. }
  exists mb. split_and!; [|apply Hb2; [lia|done]|done|by apply Hb3, Ha3].
  unfold hinit, bind, gets, put_next, HDR_SZ in *. rewrite Hi. cbn [nz negb Z.eqb modify].
  fold s1. rewrite Ea, Eb. done.
Qed.

(** The whole heap is one free block: it is split, and the list starts at the
    block handed out. *)
Lemma malloc_take_first s H0 need :
  word_at (l_mem s) (H0 + 8) H0 → 0 ≤ H0 < 2 ^ 63 → 16 ≤ need ≤ 2056 → mapped (l_mem s) H0 HEAP_SIZE →
  ∃ m', malloc_take H0 H0 65528 need s = Some (H0 + 8, set_freep H0 (set_mem m' s)) ∧
    mapped m' H0 HEAP_SIZE ∧ word_at m' (H0 + 8) (H0 + need).
Proof.
  intros Hnext Hr Hneed Hm. unfold HEAP_SIZE in *.
  destruct (sw_run s (H0 + need) (65528 - need)) as (ma & Ea & Ha1 & Ha2 & Ha3).
  { intros x Hx. apply Hm. lia. }
  destruct (sw_run (set_mem ma s) (H0 + need + 8) H0) as (mb & Eb & Hb1 & Hb2 & Hb3).
  { intros x Hx. apply (Ha3 H0 65536); [done|lia]. }
  destruct (sw_run (set_mem mb s) H0 (Z.lor need USED)) as (mc & Ec & Hc1 & Hc2 & Hc3).
  { intros x Hx. apply (Hb3 H0 65536); [by apply Ha3|lia]. }
  destruct (sw_run (set_mem mc s) (H0 + 8) (H0 + need)) as (md & Ed & Hd1 & Hd2 & Hd3).
  { intros x Hx. apply (Hc3 H0 65536); [by apply Hb3, Ha3|lia]. }
  exists md. split_and!; [|by apply Hd3, Hc3, Hb3, Ha3|done].
  assert (Hnx : lw (H0 + 8) (set_mem ma s) = Some (H0, set_mem ma s)).
  { apply lw_run; [|lia]. apply Ha2; [lia|done]. }
  unfold malloc_take, bind, get_next, put_next, HDR_SZ.
  replace (need + 8 + 16 <=? 65528) with true by lia.
  rewrite Ea, Hnx, Eb. change (set_mem mb (set_mem ma s)) with (set_mem mb s). rewrite Ec.
  change (set_mem mc (set_mem mb s)) with (set_mem mc s). rewrite Ed. done.
Qed.

Lemma malloc_first s n :
  l_hinit s = 0 → 0 ≤ heap_base < 2 ^ 63 → mapped (l_mem s) heap_base HEAP_SIZE → 0 < n < 2048 →
  ∃ m', malloc n s = Some (heap_base + 8, mkLibc m' (l_next s) 1 heap_base) ∧
    word_at m' (heap_base + 8) (heap_base + (ALIGN8 n + 8)) ∧ mapped m' heap_base HEAP_SIZE.
Proof.
  intros Hi Hr Hm Hn. destruct (hinit_run s Hi Hm) as (m1 & E1 & Hw1 & Hw2 & Hm1).
  pose proof (align8_bound n Hn). set (s1 := mkLibc m1 (l_next s) 1 heap_base) in *.
  destruct (malloc_take_first s1 heap_base (ALIGN8 n + 8)) as (m2 & E2 & Hm2 & Hw); [done|done|lia|done|].
  exists m2. split; [|done]. unfold malloc.
  replace (n <=? 0) with false by lia. unfold bind at 1, gets at 1.
  rewrite Hi. cbn [nz negb Z.eqb]. unfold bind at 1. rewrite E1. unfold MMAP_THRESH.
  replace (2048 <=? n) with false by lia. unfold bind, gets, get_next, HDR_SZ. cbv zeta.
  change (l_freep s1) with heap_base. rewrite (lw_run s1 _ heap_base) by (done || lia).
  rewrite (while_done _ _ s1 (heap_base + 8) (set_freep heap_base (set_mem m2 s1))); [done|].
  rewrite (lw_run s1 _ (HEAP_SIZE - HDR_SZ)) by done. cbv zeta.
  change (s32 (amask (HEAP_SIZE - HDR_SZ))) with 65528.
  replace (ALIGN8 n + 8 <=? 65528) with true by lia. by rewrite E2.
Qed.

(** The next call reads the link in the block handed out. *)
Lemma malloc_follows s n w :
  l_hinit s = 1 → word_at (l_mem s) (l_freep s + 8) w → 0 ≤ w < 2 ^ 64 → l_mem s !! w = None → 0 < n < 2048 →
  malloc n s = None.
Proof.
  intros Hi Hw Hr Hnone Hn. unfold malloc. replace (n <=? 0) with false by lia.
  unfold bind, gets, get_next, HDR_SZ, MMAP_THRESH. rewrite Hi. cbn [nz negb Z.eqb skip ret].
  replace (2048 <=? n) with false by lia. cbv zeta. rewrite (lw_run s _ w) by done.
  unfold while_, bind. match goal with |- match ?x with _ => _ end = None => assert (x = None) as -> end; [|done].
  generalize 64%nat as k. induction k as [|k IH]; simpl.
  - unfold bind, lw, bind at 1, lb. simpl. unfold bind, lb. by rewrite Hnone.
  - unfold bind at 1. by rewrite IH.
Qed.
End alloc.

(** ** The properties *)

(** A machine whose [_heap] is at 0x1000, with 64 KiB there and 16 bytes at 0x100. *)
#[local] Instance small_env : UserEnv :=
  {| heap_base := 0x1000; sys_mmap _ m := (0, m); sys_munmap _ _ m := (0, m) |}.

Fixpoint zeros (n : nat) (a : Z) (m : gmap Z Z) : gmap Z Z :=
  match n with O => m | S n' => zeros n' (a + 1) (<[a := 0]> m) end.

Lemma zeros_lookup n a m x :
  zeros n a m !! x = if decide (a ≤ x < a + Z.of_nat n) then Some 0 else m !! x.
Proof.
  revert a m. induction n as [|n IH]; intros a m; simpl; [by rewrite decide_False by lia|].
  rewrite IH. destruct (decide (x = a)) as [-> |].
  - by rewrite decide_False, lookup_insert_eq, decide_True by lia.
  - rewrite lookup_insert_ne by done. repeat case_decide; try done; lia.
Qed.

Lemma zeros_mapped n a m : mapped (zeros n a m) a (Z.of_nat n).
Proof. intros x Hx. exists 0. rewrite zeros_lookup, decide_True by lia. done. Qed.

(** [atoi] reads back the number [itoa] wrote, for every [int], INT_MIN
    included; [itoa] needs twelve bytes and writes no others. *)
Theorem atoi_itoa s n buf :
  - 2 ^ 31 ≤ n < 2 ^ 31 → mapped (l_mem s) buf 12 →
  ∃ m', itoa n buf s = Some (buf, set_mem m' s) ∧
    atoi buf (set_mem m' s) = Some (n, set_mem m' s) ∧
    ∀ x, ¬ buf ≤ x < buf + 12 → m' !! x = l_mem s !! x.
Proof.
  intros Hn Hm. destruct (itoa_run s n buf Hn Hm) as (m' & ds & E & Hc & Hd & Hdec & Hlen & Hx).
  exists m'. split_and!; [done| |done].
  rewrite (atoi_run (set_mem m' s) buf (n <? 0) ds); [|done|done|by destruct ds; simpl in *; [lia|]|lia].
  rewrite Hdec. do 2 f_equal. destruct (Z.ltb_spec n 0); rewrite s32_small; lia.
Qed.

Lemma atoi_itoa_witness :
  ∃ m', itoa (-2147483648) 16 (mkLibc (zeros 12 16 ∅) 0 0 0) = Some (16, mkLibc m' 0 0 0) ∧
    atoi 16 (mkLibc m' 0 0 0) = Some (-2147483648, mkLibc m' 0 0 0).
Proof.
  destruct (atoi_itoa (mkLibc (zeros 12 16 ∅) 0 0 0) (-2147483648) 16) as (m' & E & E' & _);
    [lia|apply zeros_mapped|]. exists m'. split; assumption.
Defined.

(** The first block [malloc] hands out stays on the list of free blocks: its
    link is the first word of the block. When the program writes its own block,
    the next call of [malloc] takes the word written for the address of a block,
    and faults if nothing is mapped there. *)
Theorem malloc_trusts_payload `{UserEnv} s n :
  l_hinit s = 0 → 0 ≤ heap_base < 2 ^ 63 → mapped (l_mem s) heap_base HEAP_SIZE → 8 ≤ n < 2048 →
  ∃ p s1, malloc n s = Some (p, s1) ∧ l_freep s1 = p - HDR_SZ ∧
    ∀ w s2 k, 0 ≤ w < 2 ^ 64 → sw p w s1 = Some (tt, s2) → l_mem s2 !! w = None → 0 < k < 2048 →
      malloc k s2 = None.
Proof.
  intros Hi Hr Hm Hn. destruct (malloc_first s n Hi Hr Hm) as (m1 & E & _ & Hm1); [lia|].
  exists (heap_base + 8). eexists. split; [exact E|]. split; [simpl; unfold HDR_SZ; lia|].
  intros w s2 k Hw Est Hnone Hk. set (s1 := mkLibc m1 (l_next s) 1 heap_base) in *.
  destruct (sw_run s1 (heap_base + 8) w) as (m2 & E2 & Hw2 & _).
  { intros x Hx. apply Hm1. unfold HEAP_SIZE. lia. }
  rewrite E2 in Est. injection Est as <-. by apply (malloc_follows _ k w).
Qed.

(** A heap of zero bytes. *)
Definition fresh_heap : libc := mkLibc (zeros (Z.to_nat HEAP_SIZE) 0x1000 ∅) 0 0 0.

Lemma malloc_trusts_payload_witness :
  ∃ p s1, malloc 16 fresh_heap = Some (p, s1) ∧ l_freep s1 = p - HDR_SZ.
Proof.
  destruct (malloc_trusts_payload fresh_heap 16) as (p & s1 & E & Hf & _).
  - reflexivity.
  - unfold heap_base, small_env. lia.
  - unfold fresh_heap, heap_base, small_env. cbn [l_mem].
    replace HEAP_SIZE with (Z.of_nat (Z.to_nat HEAP_SIZE)) at 2 by reflexivity. apply zeros_mapped.
  - lia.
  - exists p, s1. split; assumption.
Defined.
