(* ===== verification/Stdio.v ===== *)
(** * Stdio: [src/userland/libc/stdio.c] and [include/ctype.h]

    Formatted output and input, and the buffered-looking file functions, which
    make one system call per character.  A system call is a function of the
    user's memory and of the kernel's state, the two fields of a class; the
    addresses of the objects the linker places ([stdin] and its like, the
    [static FILE f] of [fopen], a local [char c] whose address is taken) are
    fields of the class too.

    A [va_list] is the list of the 64-bit argument slots still to be read;
    reading past its end has no result.  The local digit buffers ([tmp\[24\]],
    [buf\[20\]], [buf\[12\]]) are lists, the last digit pushed first; pushing
    more digits than the array has room for has no result. *)

From Stdlib Require Import ZArith Lia.
From stdpp Require Import gmap list prelude.
From S2P Require Import Prelude Libc LibcAlloc.

(** ** [ctype.h] *)

Definition isspace (c : Z) : bool := (c =? 32) || (c =? 9) || (c =? 10) || (c =? 13).
Definition isdigit (c : Z) : bool := (48 <=? c) && (c <=? 57).
Definition isalpha (c : Z) : bool := (65 <=? c) && (c <=? 90) || (97 <=? c) && (c <=? 122).
Definition isalnum (c : Z) : bool := isalpha c || isdigit c.
Definition isprint (c : Z) : bool := (32 <=? c) && (c <=? 126).
Definition islower (c : Z) : bool := (97 <=? c) && (c <=? 122).
Definition isupper (c : Z) : bool := (65 <=? c) && (c <=? 90).
Definition tolower (c : Z) : Z := if isupper c then c + 32 else c.
Definition toupper (c : Z) : Z := if islower c then c - 32 else c.

(** ** Arguments *)

Definition s64 (x : Z) : Z := (x + 2 ^ 63) mod 2 ^ 64 - 2 ^ 63.

(** [va_arg] of one slot. *)
Definition va_arg (ap : list Z) : L (Z * list Z) :=
  match ap with [] => stuck | w :: ap' => ret (w, ap') end.

(** ** Digits *)

(** [do { *t++ = '0' + (u % 10); u /= 10; } while (u);] into [size] bytes. *)
Definition dec_digits {S} (size : nat) (u : Z) : M S (list Z) :=
  loop size (λ '(t, u),
    let t' := (48 + u mod 10) :: t in
    ret (if nz (u / 10) then inl (t', u / 10) else inr t')) ([], u).

(** [hex\[d\]] of "0123456789abcdef". *)
Definition hex_char (d : Z) : Z := if d <? 10 then 48 + d else 87 + d.

Definition hex_digits {S} (size : nat) (u : Z) : M S (list Z) :=
  loop size (λ '(t, u),
    let t' := hex_char (Z.land u 15) :: t in
    ret (if nz (Z.shiftr u 4) then inl (t', Z.shiftr u 4) else inr t')) ([], u).

(** ** [vsnprintf]

    The index [p] stays at most [n], so that it does not overflow. *)

(** [while (t > tmp && p < n - 1) buf\[p++\] = *--t;] *)
Fixpoint put_digits (buf n p : Z) (t : list Z) : L Z :=
  match t with
  | [] => ret p
  | c :: t' => if p <? n - 1 then sb (buf + p) c ;! put_digits buf n (p + 1) t' else ret p
  end.

(** [while ( *s && p < n - 1) buf\[p++\] = *s++;] *)
Definition put_string (buf n p s : Z) : L Z :=
  while_ (λ '(s, p),
    let! c := lb s in
    if nz c && (p <? n - 1) then sb (buf + p) c ;! ret (inl (s + 1, p + 1)) else ret (inr p)) (s, p).

(** "(null)" *)
Definition null_text : list Z := [40; 110; 117; 108; 108; 41].

(** [while ( *f == 'l') { lflag = 1; f++; }] *)
Definition skip_l (f : Z) : L (Z * bool) :=
  while_ (λ '(f, lflag),
    let! c := lb f in
    ret (if c =? 108 then inl (f + 1, true) else inr (f, lflag))) (f, false).

(** The [switch]: the conversion [c] at index [p]; the new index and the
    arguments left. *)
Definition vsnprintf_conv (buf n p : Z) (lflag : bool) (c : Z) (ap : list Z) : L (Z * list Z) :=
  if c =? 100 then
    let! r := va_arg ap in let '(w, ap) := r in
    let v := if lflag then s64 w else s32 w in
    let! r := (if v <? 0 then sb (buf + p) 45 ;! ret (p + 1, u64 (- v)) else ret (p, u64 v)) in
    let '(p, uv) := r in
    let! t := dec_digits 24 uv in
    let! p := put_digits buf n p t in
    ret (p, ap)
  else if c =? 117 then
    let! r := va_arg ap in let '(w, ap) := r in
    let! t := dec_digits 24 (if lflag then u64 w else u32 w) in
    let! p := put_digits buf n p t in
    ret (p, ap)
  else if (c =? 120) || (c =? 88) then
    let! r := va_arg ap in let '(w, ap) := r in
    let! t := hex_digits 24 (if lflag then u64 w else u32 w) in
    let! p := put_digits buf n p t in
    ret (p, ap)
  else if c =? 115 then
    let! r := va_arg ap in let '(s, ap) := r in
    let! p := (if nz s then put_string buf n p s else put_digits buf n p null_text) in
    ret (p, ap)
  else if c =? 99 then
    let! r := va_arg ap in let '(w, ap) := r in
    sb (buf + p) w ;!
    ret (p + 1, ap)
  else if c =? 37 then
    sb (buf + p) 37 ;!
    ret (p + 1, ap)
  else
    sb (buf + p) 37 ;!
    (if nz c then sb (buf + (p + 1)) c ;! ret (p + 2, ap) else ret (p + 1, ap)).

(** One round of the loop over the format. *)
Definition vsnprintf_round (buf n : Z) : Z * Z * list Z → L (Z * Z * list Z + Z) := λ '(f, p, ap),
  let! c := lb f in
  if nz c && (p <? n - 1) then
    if negb (c =? 37) then sb (buf + p) c ;! ret (inl (f + 1, p + 1, ap)) else
    let! r := skip_l (f + 1) in let '(f, lflag) := r in
    let! c := lb f in
    let! r := vsnprintf_conv buf n p lflag c ap in let '(p, ap) := r in
    ret (inl (f + 1, p, ap))
  else ret (inr p).

Definition vsnprintf (buf n fmt : Z) (ap : list Z) : L Z :=
  if negb (nz buf) || (n <=? 0) then ret 0 else
  let! p := while_ (vsnprintf_round buf n) (fmt, 0, ap) in
  sb (buf + p) 0 ;!
  ret p.

Definition sprintf (buf fmt : Z) (ap : list Z) : L Z := vsnprintf buf 4096 fmt ap.

(** ** [sscanf] *)

(** Store an [int]. *)
Definition store_int (a v : Z) : L unit := store_bytes a (le_bytes 4 v).
Definition load_int (a : Z) : L Z := let! bs := load_bytes 4 a in ret (s32 (le_value bs)).

(** The digits at [s], and the place after them. *)
Definition scan_digits (s : Z) : L (Z * Z) :=
  while_ (λ '(s, n),
    let! c := lb s in
    ret (if isdigit (schar c) then inl (s + 1, s32 (s32 (n * 10) + (schar c - 48))) else inr (s, n))) (s, 0).

Definition scan_int (s : Z) : L (Z * Z) :=
  let! s := while_ (λ s, let! c := lb s in ret (if c =? 32 then inl (s + 1) else inr s)) s in
  let! c := lb s in
  let '(sign, s) := if c =? 45 then (-1, s + 1) else if c =? 43 then (1, s + 1) else (1, s) in
  let! r := scan_digits s in
  let '(s, n) := r in
  ret (s, s32 (sign * n)).

Definition sscanf (s fmt : Z) (ap : list Z) : L Z :=
  while_ (λ '(s, fmt, ap, matched),
    let! c := lb fmt in
    if negb (nz c) then ret (inr matched) else
    if c =? 32 then ret (inl (s, fmt + 1, ap, matched)) else
    if negb (c =? 37) then
      let! x := lb s in
      ret (if x =? c then inl (s + 1, fmt + 1, ap, matched) else inr matched)
    else
    let fmt := fmt + 1 in
    let! c := lb fmt in
    if c =? 100 then
      let! r := va_arg ap in let '(v, ap) := r in
      let! r := scan_int s in let '(s, n) := r in
      store_int v n ;!
      ret (inl (s, fmt + 1, ap, s32 (matched + 1)))
    else if c =? 99 then
      let! r := va_arg ap in let '(v, ap) := r in
      let! x := lb s in
      sb v x ;!
      ret (inl (s + 1, fmt + 1, ap, s32 (matched + 1)))
    else ret (inl (s, fmt + 1, ap, matched))) (s, fmt, ap, 0).

(** ** System calls *)

(** What the library finds around it.  [trap n a1 a2 a3 a4] is [int 0x80]. *)
Class Machine := {
  os : Type;
  trap : Z → Z → Z → Z → Z → gmap Z Z * os → Z * (gmap Z Z * os);
  stdin_file : Z;
  stdout_file : Z;
  stderr_file : Z;
  fopen_f : Z;
  local_c : Z }.

Section files.
Context `{Machine}.

Abbreviation U := (M (libc * os)).

(** A function of the library that makes no system call. *)
Definition lib {A} (m : L A) : U A := zoom fst (λ l s, (l, snd s)) m.

Definition _syscall (num a1 a2 a3 a4 : Z) : U Z := λ s,
  let '(r, (m, o)) := trap num a1 a2 a3 a4 (l_mem (fst s), snd s) in
  Some (r, (set_mem m (fst s), o)).

Definition int_call (num a1 a2 a3 a4 : Z) : U Z := let! r := _syscall num a1 a2 a3 a4 in ret (s32 r).

Definition open (path flags : Z) : U Z := int_call 5 path flags 0 0.
Definition close (fd : Z) : U Z := int_call 6 fd 0 0 0.
Definition read (fd buf count : Z) : U Z := int_call 3 fd buf count 0.
Definition write (fd buf count : Z) : U Z := int_call 4 fd buf count 0.
Definition lseek (fd offset whence : Z) : U Z := int_call 199 fd offset whence 0.
Definition unlink (path : Z) : U Z := int_call 10 path 0 0 0.
Definition mkdir (path : Z) : U Z := int_call 136 path 0 0 0.
Definition rmdir (path : Z) : U Z := int_call 137 path 0 0 0.
Definition stat (path buf : Z) : U Z := int_call 188 path buf 0 0.
Definition fstat (fd buf : Z) : U Z := int_call 189 fd buf 0 0.
Definition kbhit : U Z := int_call 198 0 0 0 0.

(** ** Characters and lines *)

(** [write(fd, &c, 1)] of a local [c]. *)
Definition write_char (fd c : Z) : U Z := lib (sb local_c c) ;! write fd local_c 1.

Definition putchar (c : Z) : U unit := write_char 1 c ;! ret tt.

Definition puts (s : Z) : U unit :=
  let! n := lib (strlen s) in
  write 1 s n ;!
  write_char 1 10 ;!
  ret tt.

Definition getchar : U Z := read 0 local_c 1 ;! let! c := lib (lb local_c) in ret (schar c).

Definition gets_line (buf : Z) : U Z :=
  let! i := while_ (λ i,
    let! c := getchar in
    if c =? 10 then ret (inr i) else
    if c =? 8 then ret (inl (if 0 <? i then i - 1 else i)) else
    lib (sb (buf + i) c) ;! ret (inl (s32 (i + 1)))) 0 in
  lib (sb (buf + i) 0) ;!
  ret buf.

(** ** [FILE], a structure of one [int] *)

Definition fd_of (f : Z) : U Z := lib (load_int f).

Definition fopen (path mode : Z) : U Z :=
  let! fd := open path 0 in
  if fd <? 0 then ret 0 else
  lib (store_int fopen_f fd) ;!
  ret fopen_f.

Definition fclose (f : Z) : U Z := let! fd := fd_of f in close fd.

Definition fread (buf size count f : Z) : U Z :=
  let! fd := fd_of f in
  let! r := read fd buf (s32 (size * count)) in
  if r <=? 0 then ret 0 else assert_ (nz size) ;! ret (Z.quot r size).

Definition fwrite (buf size count f : Z) : U Z :=
  let! fd := fd_of f in
  let! r := write fd buf (s32 (size * count)) in
  if r <=? 0 then ret 0 else assert_ (nz size) ;! ret (Z.quot r size).

Definition fgets_round (buf n f i : Z) : U (Z + Z) :=
  if i <? s32 (n - 1) then
    let! fd := fd_of f in
    let! r := read fd local_c 1 in
    if r <=? 0 then ret (inr i) else
    let! c := lib (lb local_c) in
    lib (sb (buf + i) c) ;!
    ret (if c =? 10 then inr (s32 (i + 1)) else inl (s32 (i + 1)))
  else ret (inr i).

Definition fgets (buf n f : Z) : U Z :=
  let! i := while_ (fgets_round buf n f) 0 in
  lib (sb (buf + i) 0) ;!
  ret (if 0 <? i then buf else 0).

Definition fputs (s f : Z) : U Z :=
  let! fd := fd_of f in
  let! n := lib (strlen s) in
  let! r := write fd s n in
  ret (if 0 <? r then 0 else -1).

Definition fputc (c f : Z) : U Z :=
  let! fd := fd_of f in
  let! r := write_char fd c in
  ret (if r =? 1 then c else -1).

(** ** [printf] and [fprintf] *)

Fixpoint put_chars (put : Z → U unit) (t : list Z) : U unit :=
  match t with [] => skip | c :: t' => put c ;! put_chars put t' end.

(** [while ( *s) put( *s++);] *)
Definition put_cstring (put : Z → U unit) (s : Z) : U unit :=
  while_ (λ s, let! c := lib (lb s) in if nz c then put (schar c) ;! ret (inl (s + 1)) else ret (inr tt)) s.

Definition print_dec (n : Z) : U unit := let! t := dec_digits 20 n in put_chars putchar t.
Definition print_hex (n : Z) : U unit := let! t := hex_digits 20 n in put_chars putchar t.

Definition printf_conv (c : Z) (ap : list Z) : U (list Z) :=
  if c =? 100 then
    let! r := lib (va_arg ap) in let '(w, ap) := r in
    let v := s32 w in
    (if v <? 0 then putchar 45 ;! print_dec (u32 (- v)) else print_dec (u32 v)) ;!
    ret ap
  else if c =? 117 then
    let! r := lib (va_arg ap) in let '(w, ap) := r in print_dec (u32 w) ;! ret ap
  else if (c =? 120) || (c =? 88) then
    let! r := lib (va_arg ap) in let '(w, ap) := r in print_hex (u32 w) ;! ret ap
  else if c =? 115 then
    let! r := lib (va_arg ap) in let '(s, ap) := r in put_cstring putchar s ;! ret ap
  else if c =? 99 then
    let! r := lib (va_arg ap) in let '(w, ap) := r in putchar w ;! ret ap
  else if c =? 37 then putchar 37 ;! ret ap
  else ret ap.

Definition printf_round : Z * list Z → U (Z * list Z + Z) := λ '(p, ap),
  let! c := lib (lb p) in
  if negb (nz c) then ret (inr 0) else
  if negb (c =? 37) then putchar (schar c) ;! ret (inl (p + 1, ap)) else
  let! c := lib (lb (p + 1)) in
  let! ap := printf_conv c ap in
  ret (inl (p + 2, ap)).

Definition printf (fmt : Z) (ap : list Z) : U Z := while_ printf_round (fmt, ap).

(** [do { *b++ = '0' + (u % 10); u /= 10; } while (b > buf);] on [buf\[12\]]: the
    guard compares the pointers, not the number. *)
Definition fprintf_digits {S} (u : Z) : M S (list Z) :=
  loop 12 (λ '(t, u),
    let t' := (48 + u mod 10) :: t in
    ret (if (0 <? Z.of_nat (length t')) then inl (t', u / 10) else inr t')) ([], u).

Definition fprintf_conv (f c : Z) (ap : list Z) : U (list Z) :=
  if c =? 100 then
    let! r := lib (va_arg ap) in let '(w, ap) := r in
    let v := s32 w in
    let! u := (if v <? 0 then fputc 45 f ;! ret (u32 (- v)) else ret (u32 v)) in
    let! t := fprintf_digits u in
    put_chars (λ c, fputc c f ;! skip) t ;!
    ret ap
  else if c =? 115 then
    let! r := lib (va_arg ap) in let '(s, ap) := r in
    put_cstring (λ c, fputc c f ;! skip) s ;! ret ap
  else if c =? 99 then
    let! r := lib (va_arg ap) in let '(w, ap) := r in fputc (s32 w) f ;! ret ap
  else if c =? 37 then fputc 37 f ;! ret ap
  else ret ap.

Definition fprintf (f fmt : Z) (ap : list Z) : U Z :=
  while_ (λ '(p, ap),
    let! c := lib (lb p) in
    if negb (nz c) then ret (inr 0) else
    if negb (c =? 37) then fputc (schar c) f ;! ret (inl (p + 1, ap)) else
    let! c := lib (lb (p + 1)) in
    let! ap := fprintf_conv f c ap in
    ret (inl (p + 2, ap))) (fmt, ap).
End files.
