(* ===== verification/StdioProof.v ===== *)
(** * StdioProof: the formatter against a reference, and what it gets wrong

    [render] is the text a format stands for.  [vsnprintf] writes the part of it
    that fits, for every buffer size; [printf] sends all of it, one byte per
    system call; [sscanf] reads back a number [vsnprintf] wrote.  Outside the
    conversions the library knows, [vsnprintf] writes one byte too many;
    [fprintf] cannot print a number at all; two open files share one [FILE]. *)

From Stdlib Require Import ZArith Lia.
From stdpp Require Import gmap list prelude.
From S2P Require Import Prelude Libc LibcProof LibcAlloc LibcAllocProof Stdio.

Implicit Types s : libc.
Implicit Types m : gmap Z Z.

(** ** Numbers in a base *)

(** The digits of [u], the most significant first; [fuel] digits are enough. *)
Fixpoint digits (fuel : nat) (b u : Z) : list Z :=
  match fuel with
  | O => []
  | S fuel' => if u <? b then [u] else digits fuel' b (u / b) ++ [u mod b]
  end.

(** The number a list of digits stands for. *)
Definition number (b : Z) (ds : list Z) : Z := fold_left (λ acc d, acc * b + d) ds 0.

Definition dec_text (u : Z) : list Z := map (λ d, 48 + d) (digits 24 10 u).
Definition hex_text (u : Z) : list Z := map hex_char (digits 24 16 u).
Definition sdec_text (v : Z) : list Z := if v <? 0 then 45 :: dec_text (- v) else dec_text v.

Lemma number_app b ds d : number b (ds ++ [d]) = number b ds * b + d.
Proof. unfold number. by rewrite fold_left_app. Qed.

(** Enough digits: the value, the range of each digit, no leading zero. *)
Lemma digits_spec fuel b u :
  2 ≤ b → 0 ≤ u < b ^ Z.of_nat fuel →
  number b (digits fuel b u) = u ∧ Forall (λ d, 0 ≤ d < b) (digits fuel b u) ∧
  (∀ ds, digits fuel b u = 0 :: ds → u = 0 ∧ ds = []).
Proof.
  intros Hb. revert u. induction fuel as [|fuel IH]; intros u Hu.
  - change (b ^ Z.of_nat 0) with 1 in Hu. split_and!; [unfold number; simpl; lia|constructor|done].
  - rewrite Nat2Z.inj_succ, Z.pow_succ_r in Hu by lia. simpl. destruct (Z.ltb_spec u b) as [Hlt|Hge].
    + split_and!; [unfold number; simpl; lia|repeat constructor; lia|by intros ds [= -> <-]].
    + pose proof (Z.mod_pos_bound u b ltac:(lia)). pose proof (Z.div_mod u b ltac:(lia)).
      assert (1 ≤ u / b) by (apply Z.div_le_lower_bound; lia).
      destruct (IH (u / b)) as (Hn & Hf & Hz).
      { split; [lia|]. apply Z.div_lt_upper_bound; lia. }
      split_and!.
      * rewrite number_app, Hn. lia.
      * apply Forall_app. split; [done|]. repeat constructor; lia.
      * intros ds E. destruct (digits fuel b (u / b)) as [|d ds'] eqn:Ed; simpl in E.
        -- unfold number in Hn. simpl in Hn. lia.
        -- injection E as -> _. destruct (Hz ds' eq_refl). lia.
Qed.

Lemma digits_nonempty fuel b u : (0 < fuel)%nat → digits fuel b u ≠ [].
Proof. destruct fuel; simpl; [lia|]. intros _. case_match; [done|]. by destruct (digits fuel b (u / b)). Qed.

(** More fuel than digits changes nothing. *)
Lemma digits_fuel fuel k b u : 2 ≤ b → 0 ≤ u < b ^ Z.of_nat fuel → (1 ≤ fuel)%nat →
  digits (fuel + k) b u = digits fuel b u.
Proof.
  intros Hb. revert u. induction fuel as [|fuel IH]; intros u Hu Hf; [lia|].
  rewrite Nat2Z.inj_succ, Z.pow_succ_r in Hu by lia. simpl. destruct (Z.ltb_spec u b); [done|].
  destruct fuel as [|fuel].
  - change (b ^ Z.of_nat 0) with 1 in Hu. lia.
  - f_equal. apply IH; [|lia]. split; [apply Z.div_pos; lia|]. apply Z.div_lt_upper_bound; lia.
Qed.

Lemma digits_length fuel b u : (length (digits fuel b u) ≤ fuel)%nat.
Proof.
  revert u. induction fuel as [|fuel IH]; intros u; simpl; [lia|].
  case_match; simpl; [lia|]. rewrite length_app. simpl. specialize (IH (u / b)). lia.
Qed.

(** The digit loops of the source, run on a stack of digits already pushed. *)
Lemma dec_loop {S} size u t (st : S) :
  0 ≤ u < 10 ^ Z.of_nat size → (1 ≤ size)%nat →
  loop size (λ '(t, u),
    let t' := (48 + u mod 10) :: t in
    ret (if nz (u / 10) then inl (t', u / 10) else inr t')) (t, u) st =
  Some (map (λ d, 48 + d) (digits size 10 u) ++ t, st).
Proof.
  revert u t. induction size as [|size IH]; intros u t Hu Hs; [lia|].
  rewrite Nat2Z.inj_succ, Z.pow_succ_r in Hu by lia.
  cbn [loop digits]. unfold bind, ret at 1. destruct (Z.ltb_spec u 10) as [Hlt|Hge].
  - rewrite Z.div_small by lia. cbn [nz negb Z.eqb]. rewrite Z.mod_small by lia. done.
  - assert (1 ≤ u / 10) by (apply Z.div_le_lower_bound; lia).
    replace (nz (u / 10)) with true by (symmetry; apply nz_spec; lia).
    destruct size as [|size]; [change (10 ^ Z.of_nat 0) with 1 in Hu; lia|].
    rewrite IH; [|split; [lia|apply Z.div_lt_upper_bound; lia]|lia].
    rewrite map_app, <- app_assoc. done.
Qed.

Lemma hex_loop {S} size u t (st : S) :
  0 ≤ u < 16 ^ Z.of_nat size → (1 ≤ size)%nat →
  loop size (λ '(t, u),
    let t' := hex_char (Z.land u 15) :: t in
    ret (if nz (Z.shiftr u 4) then inl (t', Z.shiftr u 4) else inr t')) (t, u) st =
  Some (map hex_char (digits size 16 u) ++ t, st).
Proof.
  revert u t. induction size as [|size IH]; intros u t Hu Hs; [lia|].
  rewrite Nat2Z.inj_succ, Z.pow_succ_r in Hu by lia.
  cbn [loop digits]. unfold bind, ret at 1. change 15 with (Z.ones 4).
  rewrite Z.land_ones, Z.shiftr_div_pow2 by lia. change (2 ^ 4) with 16.
  destruct (Z.ltb_spec u 16) as [Hlt|Hge].
  - rewrite Z.div_small by lia. cbn [nz negb Z.eqb]. rewrite Z.mod_small by lia. done.
  - assert (1 ≤ u / 16) by (apply Z.div_le_lower_bound; lia).
    replace (nz (u / 16)) with true by (symmetry; apply nz_spec; lia).
    destruct size as [|size]; [change (16 ^ Z.of_nat 0) with 1 in Hu; lia|].
    rewrite IH; [|split; [lia|apply Z.div_lt_upper_bound; lia]|lia].
    rewrite map_app, <- app_assoc. done.
Qed.

(** Every 64-bit number fits the arrays of 20 and of 24 digits. *)
Lemma dec_digits_run {S} k u (st : S) :
  0 ≤ u < 2 ^ 64 → dec_digits (20 + k) u st = Some (dec_text u, st).
Proof.
  intros Hu. unfold dec_digits. rewrite dec_loop; [|split; [lia|]|lia].
  - rewrite app_nil_r. unfold dec_text. rewrite digits_fuel by lia.
    change 24%nat with (20 + 4)%nat. by rewrite digits_fuel by lia.
  - apply Z.lt_le_trans with (10 ^ 20); [lia|]. apply Z.pow_le_mono_r; lia.
Qed.

Lemma hex_digits_run {S} k u (st : S) :
  0 ≤ u < 2 ^ 64 → hex_digits (20 + k) u st = Some (hex_text u, st).
Proof.
  intros Hu. unfold hex_digits. rewrite hex_loop; [|split; [lia|]|lia].
  - rewrite app_nil_r. unfold hex_text. rewrite digits_fuel by lia.
    change 24%nat with (20 + 4)%nat. by rewrite digits_fuel by lia.
  - apply Z.lt_le_trans with (16 ^ 20); [lia|]. apply Z.pow_le_mono_r; lia.
Qed.

Lemma dec_text_digits u : 0 ≤ u < 2 ^ 64 → Forall digit (dec_text u) ∧ dec 0 (dec_text u) = u.
Proof.
  intros Hu. destruct (digits_spec 24 10 u) as (Hn & Hf & _); [lia|lia|]. unfold dec_text. split.
  - apply Forall_map. eapply Forall_impl; [exact Hf|]. intros d. unfold digit. simpl. lia.
  - rewrite <- Hn at 2. unfold number. generalize 0 as acc. clear.
    induction (digits 24 10 u) as [|d ds IH]; intros acc; simpl; [done|].
    replace (acc * 10 + (48 + d - 48)) with (acc * 10 + d) by lia. apply IH.
Qed.

Lemma dec_text_nonempty u : dec_text u ≠ [].
Proof. unfold dec_text. pose proof (digits_nonempty 24 10 u ltac:(lia)). by destruct (digits 24 10 u). Qed.

Lemma dec_text_length u : (length (dec_text u) ≤ 24)%nat.
Proof. unfold dec_text. rewrite length_map. apply digits_length. Qed.

Lemma sdec_text_short v : - 2 ^ 31 ≤ v < 2 ^ 31 → (length (sdec_text v) ≤ 11)%nat.
Proof.
  intros Hv. assert (Hl : ∀ u, 0 ≤ u < 2 ^ 32 → (length (dec_text u) ≤ 10)%nat).
  { intros u Hu. unfold dec_text. rewrite length_map. change 24%nat with (10 + 14)%nat.
    rewrite digits_fuel by lia. apply digits_length. }
  unfold sdec_text. destruct (Z.ltb_spec v 0); cbn [length];
    [pose proof (Hl (- v) ltac:(lia))|pose proof (Hl v ltac:(lia))]; lia.
Qed.

Lemma sdec_text_nonzero v : - 2 ^ 31 ≤ v < 2 ^ 31 → nonzero (sdec_text v).
Proof.
  intros Hv. unfold sdec_text. destruct (Z.ltb_spec v 0).
  - constructor; [lia|]. apply digits_nonzero, dec_text_digits. lia.
  - apply digits_nonzero, dec_text_digits. lia.
Qed.

(** ** The text of a format *)

(** An argument: a number in its slot, or a string with its address. *)
Inductive arg := Num (w : Z) | Str (p : Z) (l : list Z).

Definition slot (a : arg) : Z := match a with Num w => w | Str p _ => p end.

(** One conversion: its text and the arguments left; [None] if the library does
    not know it or the argument is of the wrong kind. *)
Definition conv (lflag : bool) (c : Z) (args : list arg) : option (list Z * list arg) :=
  if c =? 37 then Some ([37], args) else
  match args with
  | Num w :: args' =>
      if c =? 100 then Some (sdec_text (if lflag then s64 w else s32 w), args') else
      if c =? 117 then Some (dec_text (if lflag then u64 w else u32 w), args') else
      if (c =? 120) || (c =? 88) then Some (hex_text (if lflag then u64 w else u32 w), args') else
      if c =? 99 then Some ([u8 w], args') else None
  | Str p l :: args' => if c =? 115 then Some (if nz p then l else null_text, args') else None
  | [] => None
  end.

(** [render long st fmt args]: [st] is [None] in plain text and [Some lflag] after
    a percent sign; [long] tells whether the flag [l] is known. *)
Fixpoint render (long : bool) (st : option bool) (fmt : list Z) (args : list arg) : option (list Z) :=
  match fmt with
  | [] => match st with None => Some [] | Some _ => None end
  | c :: fmt' =>
      match st with
      | None =>
          if c =? 37 then render long (Some false) fmt' args
          else (λ r, c :: r) <$> render long None fmt' args
      | Some lflag =>
          if c =? 108 then if long then render long (Some true) fmt' args else None else
          match conv lflag c args with
          | Some (t, args') => (λ r, t ++ r) <$> render long None fmt' args'
          | None => None
          end
      end
  end.

(** ** Writing into the buffer *)

(** What fits of [t] after [d]. *)
Definition fit (n : Z) (d t : list Z) : list Z := d ++ take (Z.to_nat (n - 1) - length d) t.

Lemma fit_length n d t : Z.of_nat (length d) ≤ n - 1 → Z.of_nat (length (fit n d t)) ≤ n - 1.
Proof. intros. unfold fit. rewrite length_app, length_take. lia. Qed.

Lemma fit_cons n d c t :
  Z.of_nat (length d) < n - 1 → fit n d (c :: t) = fit n (d ++ [c]) t.
Proof.
  intros. unfold fit. rewrite length_app. cbn [length].
  replace (Z.to_nat (n - 1) - length d)%nat with (S (Z.to_nat (n - 1) - (length d + 1)))%nat by lia.
  simpl. by rewrite <- app_assoc.
Qed.

Lemma fit_full n d t : Z.of_nat (length d) = n - 1 → fit n d t = d.
Proof.
  intros. unfold fit. replace (Z.to_nat (n - 1) - length d)%nat with 0%nat by lia.
  by rewrite take_0, app_nil_r.
Qed.

(** Fitting in two steps. *)
Lemma fit_fit n d t r : Z.of_nat (length d) ≤ n - 1 → fit n (fit n d t) r = fit n d (t ++ r).
Proof.
  intros. unfold fit. rewrite <- app_assoc, length_app, length_take. f_equal.
  set (k := (Z.to_nat (n - 1) - length d)%nat). rewrite take_app. f_equal. f_equal. lia.
Qed.

Lemma put_digits_run s m buf n d t m' :
  wrote m buf d m' → mapped m buf n → Z.of_nat (length d) ≤ n - 1 → bytes t →
  ∃ m'', put_digits buf n (Z.of_nat (length d)) t (set_mem m' s) =
      Some (Z.of_nat (length (fit n d t)), set_mem m'' s) ∧ wrote m buf (fit n d t) m''.
Proof.
  revert d m'. induction t as [|c t IH]; intros d m' Hw Hm Hl Hb.
  - exists m'. unfold fit. rewrite take_nil, app_nil_r. done.
  - apply Forall_cons in Hb as [Hc Hb]. simpl put_digits.
    destruct (Z.ltb_spec (Z.of_nat (length d)) (n - 1)) as [Hlt|Hge].
    + rewrite fit_cons by done. unfold bind. rewrite (wrote_sb s m buf n) by (done || lia).
      rewrite u8_small by lia.
      destruct (IH (d ++ [c]) _ (wrote_snoc _ _ _ c _ Hw) Hm) as (m'' & E & Hw'');
        [rewrite length_app; simpl; lia|done|].
      exists m''. split; [|done]. rewrite <- E. f_equal. rewrite length_app. simpl. lia.
    + rewrite fit_full by lia. by exists m'.
Qed.

Lemma nonzero_bytes l : nonzero l → bytes l.
Proof. intros Hl. eapply Forall_impl; [exact Hl|]. simpl. lia. Qed.

Lemma put_string_run s m buf n d a l m' :
  wrote m buf d m' → mapped m buf n → Z.of_nat (length d) ≤ n - 1 →
  cstr_at m a l → apart buf n a (Z.of_nat (length l) + 1) → Z.of_nat (length l) < 2 ^ 31 →
  ∃ m'', put_string buf n (Z.of_nat (length d)) a (set_mem m' s) =
      Some (Z.of_nat (length (fit n d l)), set_mem m'' s) ∧ wrote m buf (fit n d l) m''.
Proof.
  intros Hw Hm Hl Hs Hap Hlen.
  enough (wp (put_string buf n (Z.of_nat (length d)) a) (set_mem m' s) (λ r s', ∃ m'',
    r = Z.of_nat (length (fit n d l)) ∧ s' = set_mem m'' s ∧ wrote m buf (fit n d l) m''))
    as (r & s' & E & m'' & -> & -> & Hw'') by (by exists m'').
  unfold put_string.
  eapply (wp_while (λ '(a', p) s', ∃ (i : nat) d' m'', a' = a + Z.of_nat i ∧ (i ≤ length l)%nat ∧
      p = Z.of_nat (length d') ∧ p ≤ n - 1 ∧ s' = set_mem m'' s ∧ wrote m buf d' m'' ∧
      fit n d' (drop i l) = fit n d l)
    (λ '(a', _) _, a + Z.of_nat (length l) - a')); [| |lia].
  2:{ exists 0%nat, d, m'. split_and!; try done; lia. }
  intros [a' p] ? (i & d' & m'' & -> & Hi & -> & Hp & -> & Hw' & Hfit). wp_step.
  eapply (wp_lb _ (chr l (Z.of_nat i))).
  { cbn [l_mem set_mem]. rewrite (wrote_away m buf d' m'' n) by (done || unfold apart in *; lia).
    apply cstr_get; [done|lia]. }
  destruct (nz (chr l (Z.of_nat i))) eqn:E; cbn [andb].
  - apply nz_spec in E. assert (Hlt : (i < length l)%nat).
    { destruct (Nat.lt_ge_cases i (length l)); [done|]. by rewrite chr_end in E by lia. }
    pose proof (chr_nz l (Z.of_nat i) (proj2 Hs) ltac:(lia)) as Hc.
    assert (Hdrop : drop i l = chr l (Z.of_nat i) :: drop (S i) l).
    { destruct (lookup_lt_is_Some_2 l i Hlt) as [c Ec]. rewrite (drop_S _ _ _ Ec).
      unfold chr. by rewrite Nat2Z.id, Ec. }
    destruct (Z.ltb_spec (Z.of_nat (length d')) (n - 1)) as [Hlt'|Hge].
    + wp_step. eapply wp_run; [apply (wrote_sb s m buf n); [done..|lia]|]. rewrite u8_small by lia. wp_step.
      split; [|lia]. exists (S i), (d' ++ [chr l (Z.of_nat i)]). eexists.
      rewrite length_app. cbn [length]. split_and!; [lia..|reflexivity|by apply wrote_snoc|].
      rewrite <- Hfit, Hdrop. by rewrite fit_cons by lia.
    + wp_step. exists m''. rewrite <- Hfit, fit_full by lia. done.
  - apply nz_false, chr_zero in E; [|apply Hs|lia]. wp_step. exists m''.
    rewrite <- Hfit. rewrite drop_ge by lia. unfold fit. rewrite take_nil, app_nil_r. done.
Qed.

(** ** One conversion *)

(** A string argument is a string outside the buffer (or [NULL]). *)
Definition arg_ok m (buf n : Z) (a : arg) : Prop :=
  match a with
  | Num _ => True
  | Str p l => nz p = true →
      cstr_at m p l ∧ apart buf n p (Z.of_nat (length l) + 1) ∧ Z.of_nat (length l) < 2 ^ 31
  end.

Lemma s64_range x : - 2 ^ 63 ≤ s64 x < 2 ^ 63.
Proof. unfold s64. pose proof (Z.mod_pos_bound (x + 2 ^ 63) (2 ^ 64) ltac:(lia)). lia. Qed.

Lemma dec_text_bytes u : 0 ≤ u < 2 ^ 64 → bytes (dec_text u).
Proof. intros Hu. by apply nonzero_bytes, digits_nonzero, dec_text_digits. Qed.

Lemma hex_text_bytes u : 0 ≤ u < 2 ^ 64 → bytes (hex_text u).
Proof.
  intros Hu. destruct (digits_spec 24 16 u) as (_ & Hf & _); [lia|lia|].
  apply Forall_map. eapply Forall_impl; [exact Hf|]. intros d Hd. cbv beta in Hd |- *. unfold compose, hex_char.
  case_match; lia.
Qed.

(** Digits pushed on a stack and then written: the common end of four conversions. *)
Lemma put_number_run s m buf n d (ds : L (list Z)) t m' (ap : list Z) :
  wrote m buf d m' → mapped m buf n → Z.of_nat (length d) ≤ n - 1 → bytes t →
  ds (set_mem m' s) = Some (t, set_mem m' s) →
  ∃ m'', (let! t := ds in let! p := put_digits buf n (Z.of_nat (length d)) t in ret (p, ap)) (set_mem m' s) =
      Some ((Z.of_nat (length (fit n d t)), ap), set_mem m'' s) ∧ wrote m buf (fit n d t) m''.
Proof.
  intros Hw Hm Hl Hb E. destruct (put_digits_run s m buf n d t m' Hw Hm Hl Hb) as (m'' & E' & Hw').
  exists m''. split; [|done]. unfold bind. by rewrite E, E'.
Qed.

Lemma sdec_run s m buf n d v m' (ap : list Z) :
  wrote m buf d m' → mapped m buf n → Z.of_nat (length d) < n - 1 → - 2 ^ 63 ≤ v < 2 ^ 63 →
  ∃ m'', (let! r := (if v <? 0 then sb (buf + Z.of_nat (length d)) 45 ;!
                       ret (Z.of_nat (length d) + 1, u64 (- v))
                     else ret (Z.of_nat (length d), u64 v)) in
          let '(p, uv) := r in
          let! t := dec_digits 24 uv in let! p := put_digits buf n p t in ret (p, ap)) (set_mem m' s) =
      Some ((Z.of_nat (length (fit n d (sdec_text v))), ap), set_mem m'' s) ∧
    wrote m buf (fit n d (sdec_text v)) m''.
Proof.
  intros Hw Hm Hl Hv. unfold sdec_text. destruct (Z.ltb_spec v 0) as [Hlt|Hge].
  - rewrite fit_cons by lia. unfold bind at 1 2. rewrite (wrote_sb s m buf n) by (done || lia).
    cbn [ret]. rewrite u64_small, u8_small by lia. pose proof (wrote_snoc _ _ _ 45 _ Hw) as Hw1.
    replace (Z.of_nat (length d) + 1) with (Z.of_nat (length (d ++ [45]))) by (rewrite length_app; simpl; lia).
    apply (put_number_run s m buf n); [done..| |apply dec_text_bytes; lia|].
    { rewrite length_app; simpl; lia. }
    by rewrite (dec_digits_run 4) by lia.
  - unfold bind at 1. cbn [ret]. rewrite u64_small by lia.
    apply (put_number_run s m buf n); [done..|lia|apply dec_text_bytes; lia|].
    by rewrite (dec_digits_run 4) by lia.
Qed.

Lemma fit_one n d c : Z.of_nat (length d) < n - 1 → fit n d [c] = d ++ [c].
Proof. intros. rewrite fit_cons by done. unfold fit. by rewrite take_nil, app_nil_r. Qed.

Lemma put_one_run s m buf n d c m' (ap : list Z) :
  wrote m buf d m' → mapped m buf n → Z.of_nat (length d) < n - 1 →
  ∃ m'', (sb (buf + Z.of_nat (length d)) c ;! ret (Z.of_nat (length d) + 1, ap)) (set_mem m' s) =
      Some ((Z.of_nat (length (fit n d [u8 c])), ap), set_mem m'' s) ∧ wrote m buf (fit n d [u8 c]) m''.
Proof.
  intros Hw Hm Hl. rewrite fit_one by done. eexists. split; [|by apply wrote_snoc].
  unfold bind. rewrite (wrote_sb s m buf n) by (done || lia). unfold ret.
  rewrite length_app. simpl. do 3 f_equal. lia.
Qed.

Lemma u64_of_32 (lflag : bool) w : 0 ≤ (if lflag then u64 w else u32 w) < 2 ^ 64.
Proof. destruct lflag; [apply u64_range|]. pose proof (u32_range w). lia. Qed.

Lemma conv_run s m buf n d lflag c args t args' m' :
  wrote m buf d m' → mapped m buf n → Z.of_nat (length d) < n - 1 →
  Forall (arg_ok m buf n) args → conv lflag c args = Some (t, args') →
  ∃ m'', vsnprintf_conv buf n (Z.of_nat (length d)) lflag c (map slot args) (set_mem m' s) =
      Some ((Z.of_nat (length (fit n d t)), map slot args'), set_mem m'' s) ∧
    wrote m buf (fit n d t) m'' ∧ Forall (arg_ok m buf n) args'.
Proof.
  intros Hw Hm Hl Hargs Hconv. unfold conv in Hconv. unfold vsnprintf_conv.
  destruct (Z.eqb_spec c 37) as [-> |H37].
  { injection Hconv as <- <-. cbn [Z.eqb Pos.eqb orb].
    destruct (put_one_run s m buf n d 37 m' (map slot args) Hw Hm Hl) as (m'' & E & Hw'). by exists m''. }
  destruct args as [|[w|p l] args]; [done| |]; apply Forall_cons in Hargs as [Ha Hargs]; cbn [map slot va_arg].
  - destruct (Z.eqb_spec c 100) as [-> |]; [injection Hconv as <- <-|].
    { destruct (sdec_run s m buf n d (if lflag then s64 w else s32 w) m' (map slot args) Hw Hm Hl)
        as (m'' & E & Hw'); [|by exists m''].
      pose proof (s64_range w). pose proof (s32_range w). destruct lflag; lia. }
    pose proof (u64_of_32 lflag w).
    destruct (Z.eqb_spec c 117) as [-> |]; [injection Hconv as <- <-|].
    { set (u := if lflag then u64 w else u32 w) in *.
      destruct (put_number_run s m buf n d (dec_digits 24 u) (dec_text u) m' (map slot args))
        as (m'' & E & Hw'); [done..|lia|by apply dec_text_bytes|by apply (dec_digits_run 4)|by exists m'']. }
    destruct ((c =? 120) || (c =? 88)) eqn:Ex; [injection Hconv as <- <-|].
    { set (u := if lflag then u64 w else u32 w) in *.
      destruct (put_number_run s m buf n d (hex_digits 24 u) (hex_text u) m' (map slot args))
        as (m'' & E & Hw'); [done..|lia|by apply hex_text_bytes|by apply (hex_digits_run 4)|by exists m'']. }
    destruct (Z.eqb_spec c 99) as [-> |]; [injection Hconv as <- <-|done].
    destruct (put_one_run s m buf n d w m' (map slot args) Hw Hm Hl) as (m'' & E & Hw'). by exists m''.
  - destruct (Z.eqb_spec c 115) as [-> |]; [injection Hconv as <- <-|done]. cbn [Z.eqb Pos.eqb orb].
    unfold bind. cbn [ret]. destruct (nz p) eqn:Ep.
    + destruct (Ha Ep) as (Hs & Hap & Hlen).
      destruct (put_string_run s m buf n d p l m') as (m'' & E & Hw'); [done..|lia|done|done|done|].
      exists m''. by rewrite E.
    + destruct (put_digits_run s m buf n d null_text m') as (m'' & E & Hw'); [done..|lia|by repeat constructor|].
      exists m''. by rewrite E.
Qed.

(** ** The whole format *)

Lemma drop_chr (l : list Z) (i : nat) :
  (i < length l)%nat → drop i l = chr l (Z.of_nat i) :: drop (S i) l.
Proof.
  intros Hi. destruct (lookup_lt_is_Some_2 l i Hi) as [c Ec]. rewrite (drop_S _ _ _ Ec).
  unfold chr. by rewrite Nat2Z.id, Ec.
Qed.

(** After a percent sign: what the reference goes on with. *)
Lemma skip_l_run s fmt F i args r :
  cstr_at (l_mem s) fmt F → Z.of_nat (length F) < 2 ^ 31 →
  render true (Some false) (drop i F) args = Some r →
  ∃ (j : nat) l' t args' r', skip_l (fmt + Z.of_nat i) s = Some ((fmt + Z.of_nat j, l'), s) ∧
    (i ≤ j < length F)%nat ∧ conv l' (chr F (Z.of_nat j)) args = Some (t, args') ∧
    render true None (drop (S j) F) args' = Some r' ∧ r = t ++ r'.
Proof.
  intros Hs Hlen Hr.
  enough (wp (skip_l (fmt + Z.of_nat i)) s (λ p s', s' = s ∧ ∃ (j : nat) l' t args' r',
    p = (fmt + Z.of_nat j, l') ∧ (i ≤ j < length F)%nat ∧ conv l' (chr F (Z.of_nat j)) args = Some (t, args') ∧
    render true None (drop (S j) F) args' = Some r' ∧ r = t ++ r'))
    as (p & s' & E & -> & j & l' & t & args' & r' & -> & H) by (by exists j, l', t, args', r').
  unfold skip_l.
  eapply (wp_while (λ '(f, l) s', s' = s ∧ ∃ j : nat, f = fmt + Z.of_nat j ∧ (i ≤ j)%nat ∧
      render true (Some l) (drop j F) args = Some r)
    (λ '(f, _) _, 0 `max` (fmt + Z.of_nat (length F) - f))); [|split; [done|by exists i]|lia].
  intros [f l] ? (-> & j & -> & Hj & Hrj).
  assert (Hlt : (j < length F)%nat).
  { destruct (Nat.lt_ge_cases j (length F)); [done|]. by rewrite drop_ge in Hrj by lia. }
  wp_step. eapply wp_lb; [apply (cstr_get _ _ F); [done|lia]|]. wp_step.
  rewrite (drop_chr F j Hlt) in Hrj. cbn [render] in Hrj.
  destruct (Z.eqb_spec (chr F (Z.of_nat j)) 108) as [E|Hne].
  - split; [|lia]. split; [done|]. exists (S j). split_and!; [lia..|done].
  - split; [done|]. destruct (conv l _ args) as [[t args']|] eqn:Ec; [|done].
    destruct (render true None _ args') as [r'|] eqn:Er; [|done]. injection Hrj as <-.
    by exists j, l, t, args', r'.
Qed.

Lemma cstr_wrote m buf n d m' a l :
  wrote m buf d m' → Z.of_nat (length d) ≤ n → cstr_at m a l →
  apart buf n a (Z.of_nat (length l) + 1) → cstr_at m' a l.
Proof.
  intros Hw Hn [Hb Hz] Ha. split; [|done]. intros i Hi. pose proof Hi as Hi'.
  rewrite length_app in Hi'. cbn [length] in Hi'.
  rewrite (wrote_away m buf d m' n) by (done || unfold apart in *; lia). by apply Hb.
Qed.

(** The loop over the format: [d] is in the buffer, [r] is still to come. *)
Definition fmt_inv s buf n fmt F out : Z * Z * list Z → libc → Prop := λ '(f, p, ap) s',
  ∃ (i : nat) args d r m', f = fmt + Z.of_nat i ∧ (i ≤ length F)%nat ∧ ap = map slot args ∧
    Forall (arg_ok (l_mem s) buf n) args ∧ p = Z.of_nat (length d) ∧ p ≤ n - 1 ∧ s' = set_mem m' s ∧
    wrote (l_mem s) buf d m' ∧ render true None (drop i F) args = Some r ∧ fit n d r = out.
Definition fmt_left fmt (F : list Z) : Z * Z * list Z → libc → Z :=
  λ '(f, _, _) _, fmt + Z.of_nat (length F) - f.
Definition fmt_done s buf out (p : Z) s' : Prop :=
  ∃ m', p = Z.of_nat (length out) ∧ s' = set_mem m' s ∧ wrote (l_mem s) buf out m'.

Lemma vsnprintf_round_run s buf n fmt F out a s' :
  cstr_at (l_mem s) fmt F → Z.of_nat (length F) < 2 ^ 31 → apart buf n fmt (Z.of_nat (length F) + 1) →
  mapped (l_mem s) buf n → fmt_inv s buf n fmt F out a s' →
  wp (vsnprintf_round buf n a) s' (λ r s'', match r with
    | inl a' => fmt_inv s buf n fmt F out a' s'' ∧ 0 ≤ fmt_left fmt F a' s'' < fmt_left fmt F a s'
    | inr p => fmt_done s buf out p s'' end).
Proof.
  intros Hs Hlen Hap Hm. destruct a as [[f p] ap].
  intros (i & args & d & r & m' & -> & Hi & -> & Hargs & -> & Hp & -> & Hw & Hr & Hd).
  set (m := l_mem s) in *. unfold vsnprintf_round, fmt_left.
  assert (Hs' : cstr_at m' fmt F) by (eapply (cstr_wrote m buf n); try done; lia).
  wp_step. eapply wp_lb; [apply (cstr_get _ _ F); [done|lia]|].
  destruct (nz (chr F (Z.of_nat i))) eqn:E; cbn [andb].
  2:{ apply nz_false, chr_zero in E; [|apply Hs|lia]. wp_step. exists m'. rewrite <- Hd.
      rewrite drop_ge in Hr by lia. injection Hr as <-. unfold fit. by rewrite take_nil, app_nil_r. }
  apply nz_spec in E. assert (Hlt : (i < length F)%nat).
  { destruct (Nat.lt_ge_cases i (length F)); [done|]. by rewrite chr_end in E by lia. }
  destruct (Z.ltb_spec (Z.of_nat (length d)) (n - 1)) as [Hpn|Hpn].
  2:{ wp_step. exists m'. by rewrite <- Hd, fit_full by lia. }
  rewrite (drop_chr F i Hlt) in Hr. cbn [render] in Hr.
  destruct (Z.eqb_spec (chr F (Z.of_nat i)) 37) as [E37|Hne]; cbn [negb].
  - destruct (skip_l_run (set_mem m' s) fmt F (S i) args r) as (j & l' & t & args' & r' & Esk & Hj & Hc & Hr' & ->);
      [exact Hs'|exact Hlen|exact Hr|].
    wp_step. replace (fmt + Z.of_nat i + 1) with (fmt + Z.of_nat (S i)) by lia.
    eapply wp_run; [exact Esk|]. cbv iota beta.
    wp_step. eapply wp_lb; [apply (cstr_get _ _ F); [done|lia]|].
    destruct (conv_run s m buf n d l' _ args t args' m' Hw Hm Hpn Hargs Hc) as (m'' & Ec & Hw' & Hargs').
    wp_step. eapply wp_run; [exact Ec|]. cbv iota beta. wp_step. split; [|lia].
    exists (S j), args', (fit n d t), r', m''. split_and!; try done; try lia.
    + apply fit_length. lia.
    + by rewrite fit_fit by lia.
  - destruct (render true None (drop (S i) F) args) as [r'|] eqn:Er; [|done]. injection Hr as <-.
    wp_step. eapply wp_run; [apply (wrote_sb s m buf n); [done..|lia]|]. wp_step. split; [|lia].
    rewrite u8_small by (apply chr_range; [apply Hs|lia]).
    exists (S i), args, (d ++ [chr F (Z.of_nat i)]), r'. eexists. rewrite length_app. cbn [length].
    split_and!; try done; [lia..|by apply wrote_snoc|]. rewrite <- Hd. by rewrite fit_cons by lia.
Qed.

Lemma vsnprintf_run s buf n fmt F args out :
  cstr_at (l_mem s) fmt F → Z.of_nat (length F) < 2 ^ 31 → apart buf n fmt (Z.of_nat (length F) + 1) →
  mapped (l_mem s) buf n → buf ≠ 0 → 0 < n → Forall (arg_ok (l_mem s) buf n) args →
  render true None F args = Some out →
  ∃ m', vsnprintf buf n fmt (map slot args) s = Some (Z.of_nat (length out) `min` (n - 1), set_mem m' s) ∧
    wrote (l_mem s) buf (take (Z.to_nat (n - 1)) out ++ [0]) m'.
Proof.
  intros Hs Hlen Hap Hm Hbuf Hn Hargs Hr.
  assert (Hfit : fit n [] out = take (Z.to_nat (n - 1)) out).
  { unfold fit. simpl. by rewrite Nat.sub_0_r. }
  enough (wp (vsnprintf buf n fmt (map slot args)) s (λ r s', ∃ m', r = Z.of_nat (length (fit n [] out)) ∧
    s' = set_mem m' s ∧ wrote (l_mem s) buf (fit n [] out ++ [0]) m')) as (r & s' & E & m' & -> & -> & Hw).
  { exists m'. rewrite Hfit in E, Hw. split; [|done]. rewrite E, length_take. do 2 f_equal. lia. }
  unfold vsnprintf. replace (negb (nz buf) || (n <=? 0)) with false
    by (symmetry; apply orb_false_iff; split; [apply negb_false_iff, nz_spec; done|lia]).
  wp_step. eapply wp_mono.
  { eapply (wp_while (fmt_inv s buf n fmt F (fit n [] out)) (fmt_left fmt F)); [|
      exists 0%nat, args, [], out, (l_mem s);
      split_and!; try done; [lia..|by destruct s|apply wrote_nil]|unfold fmt_left; lia].
    intros a s' HI. by apply vsnprintf_round_run. }
  intros p s' (m' & -> & -> & Hw). wp_step.
  assert (Z.of_nat (length (fit n [] out)) ≤ n - 1) by (apply fit_length; simpl; lia).
  eapply wp_run; [apply (wrote_sb s (l_mem s) buf n); [done..|lia]|]. wp_step. eexists. split_and!; [done..|].
  by apply wrote_snoc.
Qed.

(** ** [sscanf] *)

(** The digits at the head of a string, and where they end. *)
Lemma scan_digits_run s p ds rest :
  cstr_at (l_mem s) p (ds ++ rest) → Forall digit ds → Z.of_nat (length ds) < 2 ^ 31 →
  isdigit (schar (chr rest 0)) = false →
  scan_digits p s = Some ((p + Z.of_nat (length ds), s32 (dec 0 ds)), s).
Proof.
  intros Hs Hd Hlen Hend.
  enough (wp (scan_digits p) s (λ r s', s' = s ∧ r = (p + Z.of_nat (length ds), s32 (dec 0 ds))))
    as (r & s' & E & -> & ->) by done.
  unfold scan_digits.
  eapply (wp_while (λ '(q, n) s', s' = s ∧ ∃ i : nat, q = p + Z.of_nat i ∧ (i ≤ length ds)%nat ∧
      n = s32 (dec 0 (take i ds)))
    (λ '(q, _) _, p + Z.of_nat (length ds) - q)); [|split; [done|exists 0%nat; split_and!; [lia..|done]]|lia].
  intros [q n] ? [-> (i & -> & Hi & ->)]. wp_step.
  eapply wp_lb; [apply (cstr_get _ _ (ds ++ rest)); [done|rewrite length_app; lia]|]. wp_step.
  destruct (decide (i = length ds)) as [-> |Hne].
  - replace (chr (ds ++ rest) (Z.of_nat (length ds))) with (chr rest 0).
    2:{ unfold chr. rewrite Nat2Z.id, lookup_app_r by lia. by rewrite Nat.sub_diag. }
    rewrite Hend. split; [done|]. by rewrite take_ge by lia.
  - rewrite chr_app_l by lia. pose proof (digit_chr ds (Z.of_nat i) Hd ltac:(lia)) as Hc.
    rewrite schar_digit by done. unfold digit in Hc. unfold isdigit. replace (_ && _) with true by lia.
    split; [|lia]. split; [done|]. exists (S i). split_and!; [lia..|].
    destruct (lookup_lt_is_Some_2 ds i) as [d Ed]; [lia|].
    rewrite (take_S_r _ _ _ Ed), dec_app. simpl. unfold chr. rewrite Nat2Z.id, Ed. simpl.
    rewrite s32_add, Z.mul_comm, <- s32_add, s32_mul, s32_add. f_equal. lia.
Qed.

(** [%d] reads a number written in decimal, with what comes after it left. *)
Lemma scan_int_run s p v rest :
  cstr_at (l_mem s) p (sdec_text v ++ rest) → - 2 ^ 31 ≤ v < 2 ^ 31 →
  isdigit (schar (chr rest 0)) = false →
  scan_int p s = Some ((p + Z.of_nat (length (sdec_text v)), v), s).
Proof.
  intros Hs Hv Hend. set (ds := dec_text (Z.abs v)).
  destruct (dec_text_digits (Z.abs v)) as [Hd Hval]; [lia|]. fold ds in Hd, Hval.
  assert (Hne : ds ≠ []) by apply dec_text_nonempty.
  assert (Hlen : (length ds ≤ 24)%nat) by apply dec_text_length.
  assert (Htext : sdec_text v = if v <? 0 then 45 :: ds else ds).
  { unfold sdec_text, ds. destruct (Z.ltb_spec v 0); do 2 f_equal; lia. }
  rewrite Htext in Hs |- *. set (l := (if v <? 0 then 45 :: ds else ds) ++ rest) in *.
  assert (Hc0 : if v <? 0 then chr l 0 = 45 else digit (chr l 0)).
  { unfold l. destruct (v <? 0); [done|]. assert (0 < length ds)%nat by (destruct ds; simpl; [done|lia]).
    rewrite chr_app_l by lia. apply digit_chr; [done|]. lia. }
  pose proof (cstr_get _ _ _ 0 Hs ltac:(lia)) as E0. rewrite Z.add_0_r in E0.
  unfold scan_int, bind. rewrite (while_done _ p s p s).
  2:{ unfold lb. rewrite E0. replace (chr l 0 =? 32) with false; [done|]. destruct (v <? 0); unfold digit in Hc0; lia. }
  unfold lb at 1. rewrite E0. unfold l in Hs. destruct (Z.ltb_spec v 0).
  - rewrite Hc0. cbn [Z.eqb Pos.eqb].
    rewrite (scan_digits_run s (p + 1) ds rest); [|apply (cstr_drop _ _ _ 1 Hs); simpl; lia|done|lia|done].
    unfold ret. rewrite s32_mul, Hval. cbn [length]. do 2 f_equal. f_equal; [lia|].
    rewrite s32_small; lia.
  - unfold digit in Hc0. replace (chr l 0 =? 45) with false by lia. replace (chr l 0 =? 43) with false by lia.
    rewrite (scan_digits_run s p ds rest) by (done || lia). unfold ret.
    rewrite s32_mul, Hval. do 3 f_equal. rewrite s32_small; lia.
Qed.

Lemma store_int_run s a v :
  mapped (l_mem s) a 4 → ∃ m', store_int a v s = Some (tt, set_mem m' s) ∧
    filled (l_mem s) a 4 (chr (le_bytes 4 v)) m'.
Proof. intros Hm. apply store_bytes_run; [done|apply le_bytes_range]. Qed.

Lemma load_int_run s a v :
  bytes_at (l_mem s) a (le_bytes 4 v) → - 2 ^ 31 ≤ v < 2 ^ 31 → load_int a s = Some (v, s).
Proof.
  intros Hb Hv. unfold load_int, bind. change 4%nat with (length (le_bytes 4 v)) at 1.
  rewrite load_bytes_run by done. unfold ret. rewrite le_value_bytes.
  change (2 ^ (8 * Z.of_nat 4)) with (2 ^ 32). do 2 f_equal.
  rewrite <- (s32_small v) at 2 by lia. apply s32_congr. by rewrite Z.mod_mod by lia.
Qed.

(** [sscanf(s, "%d", x)] *)
Lemma sscanf_int_run s str fmt x v :
  cstr_at (l_mem s) str (sdec_text v) → - 2 ^ 31 ≤ v < 2 ^ 31 →
  cstr_at (l_mem s) fmt [37; 100] → mapped (l_mem s) x 4 → apart x 4 fmt 3 →
  ∃ m', sscanf str fmt [x] s = Some (1, set_mem m' s) ∧ load_int x (set_mem m' s) = Some (v, set_mem m' s) ∧
    ∀ y, ¬ x ≤ y < x + 4 → m' !! y = l_mem s !! y.
Proof.
  intros Hs Hv Hf Hx Hap. destruct (store_int_run s x v Hx) as (m' & Est & Hm').
  exists m'. split_and!.
  - assert (H0 : l_mem s !! fmt = Some 37) by (rewrite <- (Z.add_0_r fmt); by apply (cstr_get _ _ _ 0 Hf)).
    assert (H1 : l_mem s !! (fmt + 1) = Some 100) by (by apply (cstr_get _ _ _ 1 Hf)).
    assert (H2 : l_mem s !! (fmt + 2) = Some 0) by (by apply (cstr_get _ _ _ 2 Hf)).
    unfold sscanf. eapply (rounds_while _ _ _ 2); [|done].
    eapply (rounds_more _ _ _ _ _ _ (_, _, _, _)); [|apply rounds_last].
    + unfold bind at 1, lb at 1. rewrite H0. cbn -[scan_int store_int lb Z.add].
      unfold bind at 1, lb at 1. rewrite H1. cbn -[scan_int store_int lb Z.add]. unfold bind, ret at 1.
      rewrite (scan_int_run s str v []) by (rewrite ?app_nil_r; done).
      cbv iota beta. rewrite Est. unfold ret. reflexivity.
    + unfold bind, lb. cbn [l_mem set_mem]. rewrite Hm', decide_False by (unfold apart in Hap; lia).
      replace (fmt + 1 + 1) with (fmt + 2) by lia. by rewrite H2.
  - apply load_int_run; [|done]. apply (bytes_at_filled (l_mem s)). exact Hm'.
  - intros y Hy. by rewrite Hm', decide_False by lia.
Qed.

(** ** [printf] *)

Lemma u8_schar c : 0 ≤ c < 256 → u8 (schar c) = c.
Proof.
  intros Hc. unfold schar, u8. destruct (Z.leb_spec 128 c); [|apply Z.mod_small; lia].
  rewrite <- (Z_mod_plus_full (c - 256) 1), Z.mod_small; lia.
Qed.

(** What a program relies on when it prints: [write(1, &c, 1)] sends the byte [c]. *)
Class Console `{Machine} := {
  emit : Z → os → os;
  write_emits m o b : m !! local_c = Some b → trap 4 1 local_c 1 0 (m, o) = (1, (m, emit b o)) }.

Section console.
Context `{Console}.
Implicit Types st : libc * os.

Lemma wp_va_arg w ap st Q : Q (w, ap) st → wp (lib (va_arg (w :: ap))) st Q.
Proof. intros HQ. destruct st as [l o]. exists (w, ap), (l, o). by split. Qed.

Lemma wp_lib {A} (m : L A) st Q : wp m (fst st) (λ a l, Q a (l, snd st)) → wp (lib m) st Q.
Proof. intros Hm. unfold lib. by apply wp_zoom. Qed.

Definition emits (t : list Z) (o : os) : os := fold_left (λ o b, emit b o) t o.

(** Only the local [c] has changed in memory; [t] has been sent. *)
Definition sent s (o : os) (t : list Z) st : Prop :=
  ∃ m', st = (set_mem m' s, emits t o) ∧ is_Some (m' !! local_c) ∧
    ∀ x, x ≠ local_c → m' !! x = l_mem s !! x.

Lemma emits_app t1 t2 o : emits (t1 ++ t2) o = emits t2 (emits t1 o).
Proof. unfold emits. by rewrite fold_left_app. Qed.

Lemma sent_nil s o : is_Some (l_mem s !! local_c) → sent s o [] (s, o).
Proof. intros Hc. exists (l_mem s). split_and!; [by destruct s|done|done]. Qed.

Lemma putchar_run s o t c st :
  sent s o t st → wp (putchar c) st (λ _ st', sent s o (t ++ [u8 c]) st').
Proof.
  intros (m' & -> & Hc & Hx). unfold putchar, write_char, write, int_call. repeat wp_step.
  apply wp_lib, wp_sb; [done|]. cbn [fst snd]. wp_step.
  eapply wp_run.
  { unfold _syscall. cbn [fst snd l_mem set_mem].
    rewrite (write_emits _ _ (u8 c)) by apply lookup_insert_eq. reflexivity. }
  wp_step. wp_step. exists (<[local_c := u8 c]> m'). split_and!.
  - by rewrite emits_app.
  - rewrite lookup_insert_eq. by eexists.
  - intros x Hne. rewrite lookup_insert_ne by done. by apply Hx.
Qed.

Lemma put_chars_run s o t ds st :
  sent s o t st → bytes ds → wp (put_chars putchar ds) st (λ _ st', sent s o (t ++ ds) st').
Proof.
  revert t st. induction ds as [|c ds IH]; intros t st Hs Hb; simpl.
  - wp_step. by rewrite app_nil_r.
  - apply Forall_cons in Hb as [Hc Hb]. wp_step. eapply wp_mono; [by apply putchar_run|].
    intros [] s'' Hs''. rewrite u8_small in Hs'' by lia.
    eapply wp_mono; [by apply IH|]. intros [] s3. by rewrite <- app_assoc.
Qed.

Lemma put_cstring_run s o t a l st :
  sent s o t st → cstr_at (l_mem s) a l → apart local_c 1 a (Z.of_nat (length l) + 1) →
  Z.of_nat (length l) < 2 ^ 31 →
  wp (put_cstring putchar a) st (λ _ st', sent s o (t ++ l) st').
Proof.
  intros Hsent Hs Hap Hlen. unfold put_cstring.
  eapply (wp_while (λ a' st, ∃ i : nat, a' = a + Z.of_nat i ∧ (i ≤ length l)%nat ∧ sent s o (t ++ take i l) st)
    (λ a' _, a + Z.of_nat (length l) - a')); [| |lia].
  2:{ exists 0%nat. rewrite take_0, app_nil_r. split_and!; [lia..|done]. }
  intros a' s1 (i & -> & Hi & (m1 & -> & Hc & Hx)). wp_step. apply wp_lib.
  eapply (wp_lb _ (chr l (Z.of_nat i))).
  { cbn [fst l_mem set_mem]. rewrite Hx by (unfold apart in Hap; lia). apply cstr_get; [done|lia]. }
  cbn [fst snd]. destruct (nz (chr l (Z.of_nat i))) eqn:E.
  - apply nz_spec in E. assert (Hlt : (i < length l)%nat).
    { destruct (Nat.lt_ge_cases i (length l)); [done|]. by rewrite chr_end in E by lia. }
    wp_step. eapply wp_mono; [apply (putchar_run s o (t ++ take i l)); by exists m1|].
    intros [] s2 Hs2. wp_step. split; [|lia]. exists (S i). split_and!; [lia..|].
    rewrite u8_schar in Hs2 by (apply chr_range; [apply Hs|lia]). rewrite <- app_assoc in Hs2.
    destruct (lookup_lt_is_Some_2 l i Hlt) as [c Ec]. rewrite (take_S_r _ _ _ Ec).
    unfold chr in Hs2. by rewrite Nat2Z.id, Ec in Hs2.
  - apply nz_false, chr_zero in E; [|apply Hs|lia]. wp_step. rewrite take_ge by lia. by exists m1.
Qed.

Lemma print_dec_run s o t u st :
  sent s o t st → 0 ≤ u < 2 ^ 64 → wp (print_dec u) st (λ _ st', sent s o (t ++ dec_text u) st').
Proof.
  intros Hs Hu. unfold print_dec. wp_step. eapply wp_run; [by apply (dec_digits_run 0)|].
  apply put_chars_run; [done|by apply dec_text_bytes].
Qed.

Lemma print_hex_run s o t u st :
  sent s o t st → 0 ≤ u < 2 ^ 64 → wp (print_hex u) st (λ _ st', sent s o (t ++ hex_text u) st').
Proof.
  intros Hs Hu. unfold print_hex. wp_step. eapply wp_run; [by apply (hex_digits_run 0)|].
  apply put_chars_run; [done|by apply hex_text_bytes].
Qed.

(** [printf] does not test for [NULL]. *)
Definition not_null (a : arg) : Prop := match a with Num _ => True | Str p _ => p ≠ 0 end.
Definition printable m (a : arg) : Prop := arg_ok m local_c 1 a ∧ not_null a.

Lemma printf_conv_run s o t c args x args' st :
  sent s o t st → Forall (printable (l_mem s)) args → conv false c args = Some (x, args') →
  wp (printf_conv c (map slot args)) st (λ ap st',
    ap = map slot args' ∧ sent s o (t ++ x) st' ∧ Forall (printable (l_mem s)) args').
Proof.
  intros Hs Hargs Hconv. unfold conv in Hconv. unfold printf_conv.
  destruct (Z.eqb_spec c 37) as [-> |H37].
  { injection Hconv as <- <-. cbn [Z.eqb Pos.eqb orb]. wp_step.
    eapply wp_mono; [by apply putchar_run|]. intros [] s'' Hs''. by wp_step. }
  destruct args as [|[w|p l] args]; [done| |]; apply Forall_cons in Hargs as [[Ha Hnn] Hargs];
    cbn [map slot].
  - pose proof (u32_range w). pose proof (s32_range w).
    destruct (Z.eqb_spec c 100) as [-> |]; [injection Hconv as <- <-|].
    { wp_step. apply wp_va_arg. wp_step. unfold sdec_text. destruct (Z.ltb_spec (s32 w) 0).
      - wp_step. eapply wp_mono; [by apply putchar_run|]. intros [] s1 Hs1.
        rewrite u32_small by lia. eapply wp_mono; [apply print_dec_run; [done|lia]|].
        intros [] s2 Hs2. wp_step. rewrite <- app_assoc in Hs2. done.
      - rewrite u32_small by lia. eapply wp_mono; [apply print_dec_run; [done|lia]|].
        intros [] s2 Hs2. by wp_step. }
    destruct (Z.eqb_spec c 117) as [-> |]; [injection Hconv as <- <-|].
    { wp_step. apply wp_va_arg. wp_step.
      eapply wp_mono; [apply print_dec_run; [done|lia]|]. intros [] s2 Hs2. by wp_step. }
    destruct ((c =? 120) || (c =? 88)) eqn:Ex; [injection Hconv as <- <-|].
    { wp_step. apply wp_va_arg. wp_step.
      eapply wp_mono; [apply print_hex_run; [done|lia]|]. intros [] s2 Hs2. by wp_step. }
    destruct (Z.eqb_spec c 99) as [-> |]; [injection Hconv as <- <-|done].
    cbn [Z.eqb Pos.eqb]. wp_step. apply wp_va_arg. wp_step.
    eapply wp_mono; [by apply putchar_run|]. intros [] s2 Hs2. by wp_step.
  - destruct (Z.eqb_spec c 115) as [-> |]; [injection Hconv as <- <-|done]. cbn [Z.eqb Pos.eqb orb].
    assert (Ep : nz p = true) by (by apply nz_spec). rewrite Ep. destruct (Ha Ep) as (Hcs & Hap & Hlen).
    wp_step. apply wp_va_arg. wp_step.
    eapply wp_mono; [by apply put_cstring_run|]. intros [] s2 Hs2. by wp_step.
Qed.

Definition printf_inv s o fmt F out : Z * list Z → libc * os → Prop := λ '(p, ap) st,
  ∃ (i : nat) args t r, p = fmt + Z.of_nat i ∧ (i ≤ length F)%nat ∧ ap = map slot args ∧
    Forall (printable (l_mem s)) args ∧ sent s o t st ∧ render false None (drop i F) args = Some r ∧ t ++ r = out.
Definition printf_left fmt (F : list Z) : Z * list Z → libc * os → Z :=
  λ '(p, _) _, fmt + Z.of_nat (length F) - p.

Lemma printf_round_run s o fmt F out a st :
  cstr_at (l_mem s) fmt F → apart local_c 1 fmt (Z.of_nat (length F) + 1) → printf_inv s o fmt F out a st →
  wp (printf_round a) st (λ r st', match r with
    | inl a' => printf_inv s o fmt F out a' st' ∧ 0 ≤ printf_left fmt F a' st' < printf_left fmt F a st
    | inr x => x = 0 ∧ sent s o out st' end).
Proof.
  intros Hs Hap. destruct a as [p ap]. intros (i & args & t & r & -> & Hi & -> & Hargs & Hsent & Hr & Hout).
  unfold printf_round, printf_left.
  assert (Hget : ∀ j : nat, (j ≤ length F)%nat → l_mem (fst st) !! (fmt + Z.of_nat j) = Some (chr F (Z.of_nat j))).
  { intros j Hj. destruct Hsent as (m1 & -> & _ & Hx). cbn [fst l_mem set_mem].
    rewrite Hx by (unfold apart in Hap; lia). apply cstr_get; [done|lia]. }
  wp_step. apply wp_lib. eapply wp_lb; [apply Hget; lia|]. rewrite <- surjective_pairing.
  destruct (nz (chr F (Z.of_nat i))) eqn:E; cbn [negb].
  2:{ apply nz_false, chr_zero in E; [|apply Hs|lia]. wp_step. split; [done|].
      rewrite drop_ge in Hr by lia. injection Hr as <-. rewrite app_nil_r in Hout. by subst t. }
  apply nz_spec in E. assert (Hlt : (i < length F)%nat).
  { destruct (Nat.lt_ge_cases i (length F)); [done|]. by rewrite chr_end in E by lia. }
  rewrite (drop_chr F i Hlt) in Hr. cbn [render] in Hr.
  destruct (Z.eqb_spec (chr F (Z.of_nat i)) 37) as [E37|Hne]; cbn [negb].
  - assert (Hlt2 : (S i < length F)%nat).
    { destruct (Nat.lt_ge_cases (S i) (length F)); [done|]. by rewrite drop_ge in Hr by lia. }
    rewrite (drop_chr F (S i) Hlt2) in Hr. cbn [render] in Hr.
    replace (fmt + Z.of_nat i + 1) with (fmt + Z.of_nat (S i)) by lia.
    wp_step. apply wp_lib. eapply wp_lb; [apply Hget; lia|]. rewrite <- surjective_pairing.
    destruct (chr F (Z.of_nat (S i)) =? 108); [done|].
    destruct (conv false _ args) as [[x args']|] eqn:Ec; [|done].
    destruct (render false None _ args') as [r'|] eqn:Er; [|done]. injection Hr as <-.
    wp_step. eapply wp_mono; [by eapply printf_conv_run|].
    intros ap st' (-> & Hsent' & Hargs'). wp_step. split; [|lia].
    exists (S (S i)), args', (t ++ x), r'. split_and!; try done; try lia. by rewrite <- app_assoc.
  - destruct (render false None (drop (S i) F) args) as [r'|] eqn:Er; [|done]. injection Hr as <-.
    wp_step. eapply wp_mono; [by apply putchar_run|]. intros [] st' Hsent'. wp_step. split; [|lia].
    rewrite u8_schar in Hsent' by (apply chr_range; [apply Hs|lia]).
    exists (S i), args, (t ++ [chr F (Z.of_nat i)]), r'. split_and!; try done; try lia. by rewrite <- app_assoc.
Qed.

Lemma printf_run s o fmt F args out :
  cstr_at (l_mem s) fmt F → Z.of_nat (length F) < 2 ^ 31 → apart local_c 1 fmt (Z.of_nat (length F) + 1) →
  is_Some (l_mem s !! local_c) → Forall (printable (l_mem s)) args →
  render false None F args = Some out →
  wp (printf fmt (map slot args)) (s, o) (λ r st, r = 0 ∧ sent s o out st).
Proof.
  intros Hs Hlen Hap Hc Hargs Hr. unfold printf.
  eapply (wp_while (printf_inv s o fmt F out) (printf_left fmt F)); [| |unfold printf_left; lia].
  - intros a st HI. by apply printf_round_run.
  - exists 0%nat, args, [], out. split_and!; try done; [lia..|by apply sent_nil].
Qed.
End console.

(** ** [fgets] *)

(** [read(fd, &c, 1)] takes one byte of what is left to read, or returns 0. *)
Class Input `{Machine} := {
  input : Z → os → list Z;
  read_byte fd m o b rest :
    input fd o = b :: rest → is_Some (m !! local_c) →
    ∃ o', trap 3 fd local_c 1 0 (m, o) = (1, (<[local_c := b]> m, o')) ∧ input fd o' = rest;
  read_end fd m o : input fd o = [] → trap 3 fd local_c 1 0 (m, o) = (0, (m, o)) }.

(** The next line, newline included, cut after [k] bytes. *)
Fixpoint line (k : nat) (inp : list Z) : list Z :=
  match k, inp with
  | S k', b :: inp' => b :: (if b =? 10 then [] else line k' inp')
  | _, _ => []
  end.

Section input.
Context `{Input}.

(** [buf] starts with [d]; besides, only the local [c] has changed. *)
Definition got m buf d m' : Prop :=
  is_Some (m' !! local_c) ∧ ∀ x, x ≠ local_c →
    m' !! x = if decide (buf ≤ x < buf + Z.of_nat (length d)) then Some (chr d (x - buf)) else m !! x.

Lemma got_snoc m buf d b c m' :
  got m buf d m' → local_c ≠ buf + Z.of_nat (length d) →
  got m buf (d ++ [b]) (<[buf + Z.of_nat (length d) := b]> (<[local_c := c]> m')).
Proof.
  intros [Hc Hx] Hne. split.
  { rewrite lookup_insert_ne, lookup_insert_eq by done. by eexists. }
  intros x Hxc. rewrite length_app. cbn [length].
  destruct (decide (x = buf + Z.of_nat (length d))) as [-> |].
  - rewrite lookup_insert_eq, decide_True by lia. f_equal.
    replace (buf + _ - buf) with (Z.of_nat (length d)) by lia. by rewrite chr_snoc.
  - rewrite !lookup_insert_ne by done. rewrite Hx by done. repeat case_decide; try lia; [|done].
    by rewrite chr_app_l by lia.
Qed.

(** A file whose descriptor is [fd], away from the buffer and from [c]. *)
Definition file_at m (buf n f fd : Z) : Prop :=
  bytes_at m f (le_bytes 4 fd) ∧ - 2 ^ 31 ≤ fd < 2 ^ 31 ∧ apart buf n f 4 ∧ apart local_c 1 f 4.

Lemma fd_of_run s o m buf n f fd d :
  got m buf d (l_mem s) → file_at m buf n f fd → Z.of_nat (length d) ≤ n →
  fd_of f (s, o) = Some (fd, (s, o)).
Proof.
  intros [_ Hx] (Hb & Hfd & Ha & Hc) Hd. unfold apart in *. unfold fd_of, lib, zoom. cbn [fst snd].
  rewrite (load_int_run s f fd); [done| |done].
  intros i Hi. rewrite <- Hb by done. rewrite le_bytes_length in Hi.
  rewrite Hx by lia. by rewrite decide_False by lia.
Qed.

Lemma got_sb s m buf n d m' c :
  got m buf d m' → mapped m buf n → apart buf n local_c 1 → Z.of_nat (length d) < n →
  sb (buf + Z.of_nat (length d)) c (set_mem m' s) =
    Some (tt, set_mem (<[buf + Z.of_nat (length d) := u8 c]> m') s).
Proof.
  intros [_ Hx] Hm Hap Hd. unfold sb. cbn [l_mem set_mem].
  rewrite Hx, decide_False by (unfold apart in Hap; lia).
  destruct (Hm (buf + Z.of_nat (length d))) as (b & -> & _); [lia|done].
Qed.

Lemma got_local m buf d m' c : got m buf d m' → got m buf d (<[local_c := c]> m').
Proof.
  intros [Hg Hx]. split; [rewrite lookup_insert_eq; by eexists|].
  intros x Hxc. rewrite lookup_insert_ne by done. by apply Hx.
Qed.

(** [d] has been read so far. *)
Definition fgets_inv s o buf n fd l (i : Z) st : Prop :=
  ∃ d m' o', i = Z.of_nat (length d) ∧ i ≤ n - 1 ∧ st = (set_mem m' s, o') ∧ got (l_mem s) buf d m' ∧
    input fd o = d ++ input fd o' ∧ d ++ line (Z.to_nat (n - 1) - length d) (input fd o') = l.
Definition fgets_done s o buf n fd l (i : Z) st : Prop :=
  ∃ m' o', i = Z.of_nat (length l) ∧ i ≤ n - 1 ∧ st = (set_mem m' s, o') ∧ got (l_mem s) buf l m' ∧
    input fd o = l ++ input fd o'.

Lemma fgets_round_run s o buf n f fd l i st :
  file_at (l_mem s) buf n f fd → mapped (l_mem s) buf n → apart buf n local_c 1 →
  0 < n < 2 ^ 31 → bytes (input fd o) → fgets_inv s o buf n fd l i st →
  wp (fgets_round buf n f i) st (λ r st', match r with
    | inl i' => fgets_inv s o buf n fd l i' st' ∧ 0 ≤ n - 1 - i' < n - 1 - i
    | inr i' => fgets_done s o buf n fd l i' st' end).
Proof.
  intros Hf Hm Hap Hn Hb (d & m1 & o1 & -> & Hi & -> & Hg & Hin & Hl). set (m := l_mem s) in *.
  unfold fgets_round. rewrite s32_small by lia.
  destruct (Z.ltb_spec (Z.of_nat (length d)) (n - 1)) as [Hlt|Hge].
  2:{ wp_step. exists m1, o1. replace (Z.to_nat (n - 1) - length d)%nat with 0%nat in Hl by lia.
      simpl in Hl. rewrite app_nil_r in Hl. by subst d. }
  wp_step. eapply wp_run; [eapply (fd_of_run _ _ m); [exact Hg|exact Hf|lia]|]. unfold read, int_call.
  replace (Z.to_nat (n - 1) - length d)%nat with (S (Z.to_nat (n - 1) - S (length d))) in Hl by lia.
  wp_step. wp_step. destruct (input fd o1) as [|b rest] eqn:Ein; simpl in Hl.
  { eapply wp_run; [unfold _syscall; cbn [fst snd l_mem set_mem]; by rewrite read_end|].
    wp_step. change (s32 0 <=? 0) with true. cbv iota. wp_step. exists m1, o1.
    rewrite app_nil_r in Hl. subst d. by rewrite Ein. }
  destruct (read_byte fd m1 o1 b rest Ein (proj1 Hg)) as (o2 & E2 & Hin2).
  eapply wp_run; [unfold _syscall; cbn [fst snd l_mem set_mem]; by rewrite E2|].
  wp_step. change (s32 1 <=? 0) with false. cbv iota. wp_step. apply wp_lib. cbn [fst snd].
  eapply wp_lb; [apply lookup_insert_eq|]. wp_step. apply wp_lib. cbn [fst snd].
  change (set_mem _ (set_mem m1 s)) with (set_mem (<[local_c := b]> m1) s).
  assert (Hb8 : 0 ≤ b < 256).
  { rewrite Hin in Hb. apply Forall_app in Hb as [_ Hb]. by apply Forall_cons in Hb as [Hb _]. }
  pose proof (got_snoc m buf d b b m1 Hg ltac:(unfold apart in Hap; lia)) as Hg2.
  eapply wp_run; [apply (got_sb s m buf n); [by apply got_local|done|done|lia]|].
  rewrite u8_small by lia. wp_step. rewrite s32_small by lia.
  assert (Happ : input fd o = (d ++ [b]) ++ rest) by (by rewrite <- app_assoc).
  assert (Hlen : Z.of_nat (length d) + 1 = Z.of_nat (length (d ++ [b]))).
  { rewrite length_app. cbn [length]. lia. }
  destruct (Z.eqb_spec b 10) as [-> |Hne].
  - cbv iota. eexists _, o2. rewrite <- Hl, Hin2. split_and!; try done; lia.
  - split; [|lia]. exists (d ++ [b]). eexists _, o2. split_and!; try done; try lia.
    + by rewrite Hin2.
    + rewrite <- Hl, Hin2, <- app_assoc. simpl. rewrite length_app. simpl. do 3 f_equal. lia.
Qed.

Lemma fgets_run s o buf n f fd :
  file_at (l_mem s) buf n f fd → mapped (l_mem s) buf n → apart buf n local_c 1 →
  is_Some (l_mem s !! local_c) → 0 < n < 2 ^ 31 → bytes (input fd o) →
  let l := line (Z.to_nat (n - 1)) (input fd o) in
  ∃ m' o', fgets buf n f (s, o) = Some (if decide (l = []) then 0 else buf, (set_mem m' s, o')) ∧
    got (l_mem s) buf (l ++ [0]) m' ∧ input fd o' = drop (length l) (input fd o).
Proof.
  intros Hf Hm Hap Hc Hn Hb l.
  enough (wp (fgets buf n f) (s, o) (λ r st, ∃ m' o', r = (if decide (l = []) then 0 else buf) ∧
    st = (set_mem m' s, o') ∧ got (l_mem s) buf (l ++ [0]) m' ∧ input fd o' = drop (length l) (input fd o)))
    as (r & st & E & m' & o' & -> & -> & Hg) by (by exists m', o').
  unfold fgets. wp_step. eapply wp_mono.
  { eapply (wp_while (fgets_inv s o buf n fd l) (λ i _, n - 1 - i)); [|
      exists [], (l_mem s), o; split_and!; try done; [simpl; lia|by destruct s| |simpl; by rewrite Nat.sub_0_r]|lia].
    - intros i st HI. by eapply fgets_round_run.
    - split; [done|]. intros x _. simpl. by rewrite decide_False by lia. }
  intros i st (m1 & o1 & -> & Hi & -> & Hg & Hin). wp_step. apply wp_lib. cbn [fst snd].
  eapply wp_run; [apply (got_sb s (l_mem s) buf n); [done..|lia]|]. wp_step. do 2 eexists.
  split_and!; [|done| |by rewrite Hin, drop_app_length].
  - destruct (decide (l = [])) as [E|Hne]; [by rewrite E|].
    destruct (Z.ltb_spec 0 (Z.of_nat (length l))); [done|]. destruct l; [done|simpl in *; lia].
  - replace (<[buf + Z.of_nat (length l) := u8 0]> m1)
      with (<[buf + Z.of_nat (length l) := 0]> (<[local_c := default 0 (m1 !! local_c)]> m1)).
    { apply got_snoc; [done|]. unfold apart in Hap. lia. }
    f_equal. apply insert_id. by destruct (proj1 Hg) as [c ->].
Qed.
End input.

(** ** Outside the known conversions *)

(** Plain text is copied byte by byte. *)
Lemma copy_plain s buf n fmt pre F m' (i : nat) ap :
  cstr_at (l_mem s) fmt F → apart buf (n + 1) fmt (Z.of_nat (length F) + 1) → mapped (l_mem s) buf (n + 1) →
  pre `prefix_of` F → Forall (λ c, c ≠ 37) pre → Z.of_nat (length pre) ≤ n - 1 →
  (i < length pre)%nat → wrote (l_mem s) buf (take i pre) m' →
  ∃ m'', vsnprintf_round buf n (fmt + Z.of_nat i, Z.of_nat i, ap) (set_mem m' s) =
      Some (inl (fmt + Z.of_nat (S i), Z.of_nat (S i), ap), set_mem m'' s) ∧
    wrote (l_mem s) buf (take (S i) pre) m''.
Proof.
  intros Hs Hap Hm [post ->] Hpre Hn Hi Hw.
  destruct (lookup_lt_is_Some_2 pre i Hi) as [c Ec]. pose proof (Forall_lookup_1 _ _ _ _ Hpre Ec) as Hc. cbv beta in Hc.
  assert (Hchr : chr (pre ++ post) (Z.of_nat i) = c).
  { rewrite chr_app_l by lia. unfold chr. by rewrite Nat2Z.id, Ec. }
  assert (Hlen : length (take i pre) = i) by (rewrite length_take; lia).
  pose proof (chr_nz _ (Z.of_nat i) (proj2 Hs)) as Hnz. rewrite length_app, Hchr in Hnz.
  eexists. split; [|rewrite (take_S_r _ _ _ Ec); by apply wrote_snoc].
  unfold vsnprintf_round, bind, lb. cbn [l_mem set_mem].
  rewrite (cstr_get m' fmt (pre ++ post)), Hchr.
  3:{ rewrite length_app. lia. }
  2:{ eapply (cstr_wrote (l_mem s) buf (n + 1)); try done. lia. }
  replace (nz c) with true by (symmetry; apply nz_spec; lia).
  replace (Z.of_nat i <? n - 1) with true by lia. replace (c =? 37) with false by lia. cbn [andb negb].
  rewrite <- Hlen at 1. rewrite (wrote_sb s (l_mem s) buf (n + 1)) by (done || lia).
  rewrite u8_small by lia. unfold ret. rewrite Hlen.
  by replace (fmt + Z.of_nat i + 1) with (fmt + Z.of_nat (S i)) by lia;
    replace (Z.of_nat i + 1) with (Z.of_nat (S i)) by lia.
Qed.

Definition unknown (c : Z) : Prop := c ∉ [100; 117; 120; 88; 115; 99; 37; 108].

Lemma unknown_ne c x : unknown c → x ∈ [100; 117; 120; 88; 115; 99; 37; 108] → (c =? x) = false.
Proof. intros Hc Hx. apply Z.eqb_neq. by intros ->. Qed.

Lemma unknown_conv buf n p lflag c ap :
  unknown c → nz c = true → vsnprintf_conv buf n p lflag c ap =
    (sb (buf + p) 37 ;! sb (buf + (p + 1)) c ;! ret (p + 2, ap)).
Proof.
  intros Hc Hz. unfold vsnprintf_conv. rewrite !(unknown_ne c) by (done || set_solver). cbn [orb]. by rewrite Hz.
Qed.

(** The last round: an unknown conversion with one byte of room. *)
Lemma round_unknown s buf n fmt pre c m' ap :
  cstr_at (l_mem s) fmt (pre ++ [37; c]) → apart buf (n + 1) fmt (Z.of_nat (length pre) + 3) →
  mapped (l_mem s) buf (n + 1) → unknown c → n = Z.of_nat (length pre) + 2 → wrote (l_mem s) buf pre m' →
  ∃ m'', vsnprintf_round buf n (fmt + Z.of_nat (length pre), Z.of_nat (length pre), ap) (set_mem m' s) =
      Some (inl (fmt + n, n, ap), set_mem m'' s) ∧ wrote (l_mem s) buf (pre ++ [37; c]) m''.
Proof.
  intros Hs Hap Hm Hc Hn Hw. set (k := Z.of_nat (length pre)) in *.
  assert (Hs' : cstr_at m' fmt (pre ++ [37; c])).
  { eapply (cstr_wrote (l_mem s) buf (n + 1)); try done; [lia|]. rewrite length_app. simpl.
    unfold apart in *. lia. }
  assert (Hc37 : chr (pre ++ [37; c]) k = 37).
  { unfold chr, k. by rewrite Nat2Z.id, lookup_app_r, Nat.sub_diag by lia. }
  assert (Hcc : chr (pre ++ [37; c]) (k + 1) = c).
  { unfold chr, k. rewrite lookup_app_r by lia.
    by replace (Z.to_nat (Z.of_nat (length pre) + 1) - length pre)%nat with 1%nat by lia. }
  assert (Hcb : 0 < c < 256).
  { destruct Hs as [_ Hz]. apply Forall_app in Hz as [_ Hz]. by inversion_clear Hz as [|? ? _ Hz']; inversion Hz'. }
  assert (Hr0 : m' !! (fmt + k) = Some 37).
  { rewrite (cstr_get m' fmt (pre ++ [37; c])), Hc37; [done|done|]. rewrite length_app. lia. }
  assert (Hr1 : m' !! (fmt + k + 1) = Some c).
  { rewrite <- Z.add_assoc, (cstr_get m' fmt (pre ++ [37; c])), Hcc; [done|done|].
    rewrite length_app. simpl. lia. }
  assert (Hnl : (c =? 108) = false) by (apply unknown_ne; [done|by repeat constructor]).
  pose proof (wrote_snoc _ _ _ 37 _ Hw) as Hw1. pose proof (wrote_snoc _ _ _ c _ Hw1) as Hw2.
  rewrite <- app_assoc in Hw2. eexists. split; [|exact Hw2].
  unfold vsnprintf_round, bind at 1, lb at 1. cbn [l_mem set_mem]. rewrite Hr0.
  change (nz 37) with true. replace (k <? n - 1) with true by lia.
  change (true && true) with true. change (negb (37 =? 37)) with false. cbv iota.
  unfold bind at 1. unfold skip_l at 1.
  rewrite (while_done _ (fmt + k + 1, false) (set_mem m' s) (fmt + k + 1, false) (set_mem m' s)).
  2:{ unfold bind, lb. cbn [l_mem set_mem]. rewrite Hr1. by rewrite Hnl. }
  cbv iota beta. unfold bind at 1, lb at 1. cbn [l_mem set_mem]. rewrite Hr1. rewrite unknown_conv.
  2:{ done. } 2:{ apply nz_spec; lia. }
  unfold bind. change (buf + k) with (buf + Z.of_nat (length pre)).
  rewrite (wrote_sb s (l_mem s) buf (n + 1)) by (done || lia). rewrite u8_small by lia.
  replace (buf + (k + 1)) with (buf + Z.of_nat (length (pre ++ [37]))) by (rewrite length_app; simpl; lia).
  rewrite (wrote_sb s (l_mem s) buf (n + 1)) by (done || (rewrite length_app; simpl; lia)).
  rewrite u8_small by lia. unfold ret.
  by replace (fmt + k + 1 + 1) with (fmt + n) by lia; replace (k + 2) with n by lia.
Qed.

(** Loops, one round at a time. *)
Lemma vsnprintf_unknown_run s buf n fmt pre c ap :
  cstr_at (l_mem s) fmt (pre ++ [37; c]) → apart buf (n + 1) fmt (Z.of_nat (length pre) + 3) →
  mapped (l_mem s) buf (n + 1) → buf ≠ 0 → Forall (λ c, c ≠ 37) pre → unknown c →
  n = Z.of_nat (length pre) + 2 → n < 2 ^ 31 →
  ∃ m', vsnprintf buf n fmt ap s = Some (n, set_mem m' s) ∧ wrote (l_mem s) buf (pre ++ [37; c; 0]) m'.
Proof.
  intros Hs Hap Hm Hbuf Hpre Hc Hn Hlt.
  assert (Hap' : apart buf (n + 1) fmt (Z.of_nat (length (pre ++ [37; c])) + 1)).
  { rewrite length_app. simpl. unfold apart in *. lia. }
  assert (Hrounds : ∃ m', rounds (vsnprintf_round buf n) n (set_mem m' s) (length pre + 2) (fmt, 0, ap) s ∧
    wrote (l_mem s) buf (pre ++ [37; c]) m').
  { enough (∀ j i m1, (i + j = length pre)%nat → wrote (l_mem s) buf (take i pre) m1 →
      ∃ m', rounds (vsnprintf_round buf n) n (set_mem m' s) (j + 2)
        (fmt + Z.of_nat i, Z.of_nat i, ap) (set_mem m1 s) ∧ wrote (l_mem s) buf (pre ++ [37; c]) m') as Hgo.
    { destruct (Hgo (length pre) 0%nat (l_mem s)) as (m' & Hr & Hw); [lia|apply wrote_nil|].
      exists m'. rewrite Z.add_0_r in Hr. replace (set_mem (l_mem s) s) with s in Hr by (by destruct s). done. }
    induction j as [|j IH]; intros i m1 Hij Hw.
    - rewrite take_ge in Hw by lia. replace i with (length pre) by lia.
      destruct (round_unknown s buf n fmt pre c m1 ap) as (m2 & E & Hw2); [done..|].
      exists m2. split; [|done]. eapply rounds_more; [exact E|]. apply rounds_last.
      unfold vsnprintf_round, bind, lb. cbn [l_mem set_mem].
      rewrite (wrote_away _ _ _ _ (n + 1) (fmt + n) Hw2).
      2:{ rewrite length_app. simpl. lia. } 2:{ unfold apart in *. lia. }
      rewrite (cstr_get _ _ _ n Hs), chr_end by (rewrite length_app; simpl; lia). done.
    - destruct (copy_plain s buf n fmt pre (pre ++ [37; c]) m1 i ap) as (m2 & E & Hw2);
        [done..|by exists [37; c]|done|lia|lia|done|].
      destruct (IH (S i) m2) as (m' & Hr & Hw'); [lia|done|].
      exists m'. split; [|done]. simpl. eapply rounds_more; [exact E|done]. }
  destruct Hrounds as (m' & Hr & Hw). exists (<[buf + n := 0]> m'). split.
  - unfold vsnprintf. replace (negb (nz buf) || (n <=? 0)) with false
      by (symmetry; apply orb_false_iff; split; [apply negb_false_iff, nz_spec; done|lia]).
    unfold bind. rewrite (rounds_while _ _ _ _ _ _ Hr) by lia.
    replace (buf + n) with (buf + Z.of_nat (length (pre ++ [37; c]))) by (rewrite length_app; simpl; lia).
    rewrite (wrote_sb s (l_mem s) buf (n + 1)) by (done || (rewrite length_app; simpl; lia)). done.
  - replace (buf + n) with (buf + Z.of_nat (length (pre ++ [37; c]))) by (rewrite length_app; simpl; lia).
    pose proof (wrote_snoc _ _ _ 0 _ Hw) as Hw1. by rewrite <- app_assoc in Hw1.
Qed.

(** ** The properties *)

(** A machine with a console, a keyboard and an [open] that returns the path it
    gets as a descriptor. *)
Definition demo_trap (n a1 a2 a3 a4 : Z) : gmap Z Z * (list Z * list Z) → Z * (gmap Z Z * (list Z * list Z)) :=
  λ '(m, (inp, out)),
    if n =? 4 then (1, (m, (inp, out ++ [default 0 (m !! a2)]))) else
    if n =? 3 then
      match inp with [] => (0, (m, (inp, out))) | b :: inp' => (1, (<[a2 := b]> m, (inp', out))) end else
    if n =? 5 then (a1, (m, (inp, out))) else (0, (m, (inp, out))).

#[local] Instance demo : Machine :=
  {| os := list Z * list Z; trap := demo_trap; stdin_file := 0x700; stdout_file := 0x704; stderr_file := 0x708;
     fopen_f := 0x600; local_c := 0x500 |}.

Definition demo_os_with (inp : list Z) : @os demo := (inp, []).
Definition demo_os : @os demo := demo_os_with [].

#[local] Instance demo_console : Console.
Proof.
  refine {| emit b o := (fst o, snd o ++ [b]) |}. intros m [inp out] b Hb.
  change local_c with 0x500 in Hb. unfold trap, demo, demo_trap, local_c. simpl. by rewrite Hb.
Defined.

#[local] Instance demo_input : Input.
Proof.
  refine {| input _ o := fst o |}.
  - intros fd m [inp out] b rest E _. simpl in E. subst inp. exists (rest, out). by split.
  - intros fd m [inp out] E. simpl in E. by subst inp.
Defined.

(** "%d=%s" at 16, "%d" at 48, "ok" at 64, a buffer of 16 bytes at 32, an [int]
    at 80, a [FILE] of descriptor 3 at 96 and the two static objects. *)
Definition demo_libc : libc :=
  mkLibc (mem_of 16 [37; 100; 61; 37; 115; 0] ∪ mem_of 32 (replicate 16 7) ∪ mem_of 48 [37; 100; 0] ∪
    mem_of 64 [111; 107; 0] ∪ mem_of 80 [9; 9; 9; 9] ∪ mem_of 96 [3; 0; 0; 0] ∪
    mem_of 0x500 [0] ∪ mem_of 0x600 [0; 0; 0; 0]) 0 0 0.

Ltac demo_cstr := split; [apply bytes_at_dec; vm_compute; reflexivity|repeat constructor].

(** C12: [vsnprintf] is the reference formatter cut to the buffer. For every format
    made of plain text and known conversions, every argument list and every size
    [n > 0], it writes the first [n - 1] bytes of the rendered text and a zero,
    returns how many bytes of text it wrote, and changes no byte outside the
    buffer. *)
Theorem vsnprintf_renders s buf n fmt F args out :
  cstr_at (l_mem s) fmt F → Z.of_nat (length F) < 2 ^ 31 → apart buf n fmt (Z.of_nat (length F) + 1) →
  mapped (l_mem s) buf n → buf ≠ 0 → 0 < n → Forall (arg_ok (l_mem s) buf n) args →
  render true None F args = Some out →
  ∃ m', vsnprintf buf n fmt (map slot args) s = Some (Z.of_nat (length out) `min` (n - 1), set_mem m' s) ∧
    wrote (l_mem s) buf (take (Z.to_nat (n - 1)) out ++ [0]) m'.
Proof. apply vsnprintf_run. Qed.

Lemma vsnprintf_renders_witness :
  ∃ m', vsnprintf 32 6 16 [2 ^ 32 - 12; 64] demo_libc = Some (5, set_mem m' demo_libc) ∧
    wrote (l_mem demo_libc) 32 [45; 49; 50; 61; 111; 0] m'.
Proof.
  destruct (vsnprintf_renders demo_libc 32 6 16 [37; 100; 61; 37; 115] [Num (2 ^ 32 - 12); Str 64 [111; 107]]
    [45; 49; 50; 61; 111; 107]) as (m' & E & Hw).
  - demo_cstr.
  - simpl; lia.
  - unfold apart; simpl; lia.
  - apply mapped_dec; vm_compute; reflexivity.
  - lia.
  - lia.
  - constructor; [exact I|constructor; [intros _|constructor]].
    split_and!; [demo_cstr|unfold apart; simpl; lia|simpl; lia].
  - vm_compute. reflexivity.
  - exists m'. split; [exact E|exact Hw].
Defined.

(** [printf] sends exactly the text of the reference formatter to the console,
    one byte per call of [write], and returns 0; in memory only its local [c]
    changes. *)
Theorem printf_renders `{Console} s o fmt F args out :
  cstr_at (l_mem s) fmt F → Z.of_nat (length F) < 2 ^ 31 → apart local_c 1 fmt (Z.of_nat (length F) + 1) →
  is_Some (l_mem s !! local_c) → Forall (printable (l_mem s)) args →
  render false None F args = Some out →
  wp (printf fmt (map slot args)) (s, o) (λ r st, r = 0 ∧ sent s o out st).
Proof. apply printf_run. Qed.

Lemma printf_renders_witness :
  wp (printf 16 [2 ^ 32 - 12; 64]) (demo_libc, demo_os)
    (λ r st, r = 0 ∧ snd (snd st : list Z * list Z) = [45; 49; 50; 61; 111; 107]).
Proof.
  eapply wp_mono.
  - apply (printf_renders demo_libc demo_os 16 [37; 100; 61; 37; 115] [Num (2 ^ 32 - 12); Str 64 [111; 107]]
      [45; 49; 50; 61; 111; 107]).
    + demo_cstr.
    + simpl; lia.
    + unfold apart; simpl; lia.
    + eexists; vm_compute; reflexivity.
    + constructor; [split; exact I|constructor; [split; [intros _|simpl; lia]|constructor]].
      split_and!; [demo_cstr|unfold apart; simpl; lia|simpl; lia].
    + vm_compute. reflexivity.
  - intros r st [-> (m' & -> & _)]. split; reflexivity.
Defined.

(** What [vsnprintf] writes for [%d], [sscanf] reads back: for every [int] and
    a buffer of at least 12 bytes, the round trip stores the same number, and
    [sscanf] reports one match. *)
Theorem sscanf_reads_back s buf n fmt x v :
  cstr_at (l_mem s) fmt [37; 100] → apart buf n fmt 3 → apart x 4 fmt 3 → apart buf n x 4 →
  mapped (l_mem s) buf n → mapped (l_mem s) x 4 → buf ≠ 0 → 12 ≤ n → - 2 ^ 31 ≤ v < 2 ^ 31 →
  ∃ p m1 m2, vsnprintf buf n fmt [u64 v] s = Some (p, set_mem m1 s) ∧
    sscanf buf fmt [x] (set_mem m1 s) = Some (1, set_mem m2 s) ∧
    load_int x (set_mem m2 s) = Some (v, set_mem m2 s).
Proof.
  intros Hf Hbf Hxf Hbx Hm Hx Hbuf Hn Hv.
  assert (Hv32 : s32 (u64 v) = v).
  { rewrite <- (s32_small v) at 2 by lia. apply s32_congr. unfold u64.
    apply Z.mod_mod_divide. by exists (2 ^ 32). }
  assert (Hr : render true None [37; 100] [Num (u64 v)] = Some (sdec_text v)).
  { simpl. rewrite Hv32. by rewrite app_nil_r. }
  destruct (vsnprintf_run s buf n fmt [37; 100] [Num (u64 v)] _ Hf ltac:(simpl; lia) Hbf Hm Hbuf ltac:(lia)
    ltac:(repeat constructor) Hr) as (m1 & E1 & Hw1).
  assert (Hlen : (length (sdec_text v) ≤ 11)%nat) by (apply sdec_text_short; lia).
  rewrite take_ge in Hw1 by lia.
  assert (Hnz : nonzero (sdec_text v)) by (apply sdec_text_nonzero; lia).
  destruct (sscanf_int_run (set_mem m1 s) buf fmt x v) as (m2 & E2 & El & _).
  - split; [|done]. by apply (bytes_at_filled (l_mem s)).
  - done.
  - eapply (cstr_wrote (l_mem s) buf n); [done|rewrite length_app; simpl; lia|done|done].
  - intros y Hy. cbn [l_mem set_mem]. rewrite (wrote_away _ _ _ _ n y Hw1); [by apply Hx| |].
    + rewrite length_app. simpl. lia.
    + unfold apart in *. lia.
  - done.
  - exists (Z.of_nat (length (sdec_text v)) `min` (n - 1)), m1, m2. done.
Qed.

Lemma sscanf_reads_back_witness :
  ∃ p m1 m2, vsnprintf 32 16 48 [u64 (-2147483648)] demo_libc = Some (p, set_mem m1 demo_libc) ∧
    sscanf 32 48 [80] (set_mem m1 demo_libc) = Some (1, set_mem m2 demo_libc) ∧
    load_int 80 (set_mem m2 demo_libc) = Some (-2147483648, set_mem m2 demo_libc).
Proof.
  apply (sscanf_reads_back demo_libc 32 16 48 80 (-2147483648)).
  - demo_cstr.
  - unfold apart; lia.
  - unfold apart; lia.
  - unfold apart; lia.
  - apply mapped_dec; vm_compute; reflexivity.
  - apply mapped_dec; vm_compute; reflexivity.
  - lia.
  - lia.
  - lia.
Defined.

(** [fgets] stores the next line: the bytes up to and with the first newline,
    at most [n - 1] of them, then a zero; it returns [NULL] exactly when there was
    nothing to read; the rest of the input stays for the next call; in memory only
    the buffer and the local [c] change. *)
Theorem fgets_reads_line `{Input} s o buf n f fd :
  file_at (l_mem s) buf n f fd → mapped (l_mem s) buf n → apart buf n local_c 1 →
  is_Some (l_mem s !! local_c) → 0 < n < 2 ^ 31 → bytes (input fd o) →
  let l := line (Z.to_nat (n - 1)) (input fd o) in
  ∃ m' o', fgets buf n f (s, o) = Some (if decide (l = []) then 0 else buf, (set_mem m' s, o')) ∧
    got (l_mem s) buf (l ++ [0]) m' ∧ input fd o' = drop (length l) (input fd o).
Proof. apply fgets_run. Qed.

Lemma fgets_reads_line_witness :
  ∃ m' o', fgets 32 16 96 (demo_libc, demo_os_with [104; 105; 10; 120]) = Some (32, (set_mem m' demo_libc, o')) ∧
    got (l_mem demo_libc) 32 [104; 105; 10; 0] m' ∧ input 3 o' = [120].
Proof.
  destruct (fgets_reads_line demo_libc (demo_os_with [104; 105; 10; 120]) 32 16 96 3) as (m' & o' & E & Hg & Ho).
  - split_and!; [apply bytes_at_dec; vm_compute; reflexivity|lia|lia|unfold apart; lia|unfold apart; simpl; lia].
  - apply mapped_dec; vm_compute; reflexivity.
  - unfold apart; simpl; lia.
  - eexists; vm_compute; reflexivity.
  - lia.
  - repeat constructor; lia.
  - exists m', o'. split_and!; [exact E|exact Hg|exact Ho].
Defined.

(** A conversion [vsnprintf] does not know, met with one byte of room left,
    makes it write past the buffer: the percent sign, the character and the zero
    take three bytes, and the zero lands at [buf + n]. *)
Theorem vsnprintf_overflows s buf n fmt pre c ap :
  cstr_at (l_mem s) fmt (pre ++ [37; c]) → apart buf (n + 1) fmt (Z.of_nat (length pre) + 3) →
  mapped (l_mem s) buf (n + 1) → buf ≠ 0 → Forall (λ c, c ≠ 37) pre → unknown c →
  n = Z.of_nat (length pre) + 2 → n < 2 ^ 31 →
  ∃ m', vsnprintf buf n fmt ap s = Some (n, set_mem m' s) ∧ wrote (l_mem s) buf (pre ++ [37; c; 0]) m' ∧
    m' !! (buf + n) = Some 0.
Proof.
  intros Hs Hap Hm Hbuf Hpre Hc Hn Hlt.
  destruct (vsnprintf_unknown_run s buf n fmt pre c ap) as (m' & E & Hw); [done..|].
  exists m'. split_and!; [done..|]. rewrite Hw, decide_True by (rewrite length_app; simpl; lia).
  f_equal. unfold chr. rewrite lookup_app_r by lia.
  by replace (Z.to_nat (buf + n - buf) - length pre)%nat with 2%nat by lia.
Qed.

Lemma vsnprintf_overflows_witness :
  ∃ m', vsnprintf 32 2 48 [] (mkLibc (mem_of 32 [7; 7; 7] ∪ mem_of 48 [37; 113; 0]) 0 0 0) =
      Some (2, mkLibc m' 0 0 0) ∧ m' !! 34 = Some 0.
Proof.
  destruct (vsnprintf_overflows (mkLibc (mem_of 32 [7; 7; 7] ∪ mem_of 48 [37; 113; 0]) 0 0 0) 32 2 48 [] 113 [])
    as (m' & E & _ & H34).
  - demo_cstr.
  - unfold apart; simpl; lia.
  - apply mapped_dec; vm_compute; reflexivity.
  - lia.
  - constructor.
  - unfold unknown. rewrite list_elem_of_In. simpl. lia.
  - reflexivity.
  - lia.
  - exists m'. split; [exact E|exact H34].
Defined.

(** [fprintf] has no result on a format that starts with [%d]: its digit loop
    ends on a comparison of pointers that is always true, and runs over the end
    of [buf\[12\]], for every number and every file. *)
Theorem fprintf_number_faults `{Machine} f fmt w ap (s : libc) (o : os) :
  l_mem s !! fmt = Some 37 → l_mem s !! (fmt + 1) = Some 100 → fprintf f fmt (w :: ap) (s, o) = None.
Proof.
  intros H0 H1. unfold fprintf. apply while_stuck. unfold bind at 1, lib at 1, zoom at 1, lb at 1. cbn [fst snd].
  rewrite H0. cbn [nz negb Z.eqb Pos.eqb]. unfold bind at 1, lib at 1, zoom at 1, lb at 1. cbn [fst snd].
  rewrite H1. unfold fprintf_conv. cbn [Z.eqb Pos.eqb]. unfold bind at 1 2, lib at 1, zoom at 1. cbn [va_arg ret].
  assert (Hd : ∀ u (st : libc * os), fprintf_digits u st = None) by (intros u st; vm_compute; reflexivity).
  unfold bind at 1. destruct (_ <? 0).
  - unfold bind at 1. destruct (fputc 45 f _) as [[r st]|]; [|done]. cbn [ret]. unfold bind. by rewrite Hd.
  - cbn [ret]. unfold bind. by rewrite Hd.
Qed.

Lemma fprintf_number_faults_witness : fprintf 96 48 [5] (demo_libc, demo_os) = None.
Proof. apply (fprintf_number_faults 96 48 5 [] demo_libc demo_os); vm_compute; reflexivity. Defined.

(** The second of two open files takes the place of the first: both pointers are
    the address of the one static [FILE], and closing the first file closes the
    descriptor of the second. *)
Lemma fopen_shared `{Machine} path1 mode1 path2 mode2 st f1 st1 fd2 (s2 : libc) (o2 : os) :
  fopen path1 mode1 st = Some (f1, st1) → f1 ≠ 0 →
  open path2 0 st1 = Some (fd2, (s2, o2)) → 0 ≤ fd2 < 2 ^ 31 → mapped (l_mem s2) fopen_f 4 →
  ∃ st2, fopen path2 mode2 st1 = Some (f1, st2) ∧ fclose f1 st2 = close fd2 st2.
Proof.
  intros E1 Hf1 E2 Hfd Hm.
  assert (f1 = fopen_f) as ->.
  { unfold fopen, bind in E1. destruct (open path1 0 st) as [[fd st']|]; [|done].
    destruct (fd <? 0); [by injection E1 as <- _|].
    destruct (lib (store_int fopen_f fd) st') as [[[] st'']|]; [|done]. by injection E1. }
  destruct (store_int_run s2 fopen_f fd2 Hm) as (m' & Est & Hf).
  exists (set_mem m' s2, o2). split.
  - unfold fopen, bind. rewrite E2. replace (fd2 <? 0) with false by lia.
    unfold lib, zoom. cbn [fst snd]. by rewrite Est.
  - unfold fclose, fd_of, bind, lib, zoom. cbn [fst snd].
    rewrite (load_int_run _ _ fd2); [done| |lia]. by apply (bytes_at_filled (l_mem s2)).
Qed.
