(* ===== verification/Console.v ===== *)
(** * Console: the text console of [OvsbMk/kernel/console.c]

    The globals of the file are the fields of [console].  [scrollback] is one
    block of 200 times 80 characters, so that an index one past the end of a row
    is the first character of the next row, as in memory; an access outside the
    block has no result.  What is on the screen is the last call of
    [vesa_draw_cell] for each place ([c_screen], at the pixel coordinates of the
    call) over the colour of the last [vesa_fill_screen]; the pixels of a cell are
    not modelled.  [c_serial] is what went to the serial port.  A [char] is its
    signed value. *)

From Stdlib Require Import ZArith Lia.
From stdpp Require Import gmap list prelude.
From S2P Require Import Prelude Libc.

Open Scope Z_scope.

Definition CONSOLE_COLS : Z := 80.
Definition CONSOLE_ROWS : Z := 45.
Definition SCROLLBACK : Z := 200.
Definition col_w : Z := 8.
Definition row_h : Z := 16.

(** A cell as it was drawn: its character, foreground and background. *)
Definition cell : Type := Z * Z * Z.

Record console := mkConsole {
  c_text : gmap Z Z;
  cursor_row : Z;
  cursor_col : Z;
  scroll_start : Z;
  fg_color : Z;
  bg_color : Z;
  cursor_visible : Z;
  term_out_buf : option (gmap Z Z);
  term_out_len : option Z;
  term_out_max : Z;
  c_screen : gmap (Z * Z) cell;
  c_fill : Z;
  c_serial : list Z }.

Definition set_text t (s : console) := mkConsole t (cursor_row s) (cursor_col s) (scroll_start s) (fg_color s)
  (bg_color s) (cursor_visible s) (term_out_buf s) (term_out_len s) (term_out_max s) (c_screen s) (c_fill s) (c_serial s).
Definition set_cursor r c (s : console) := mkConsole (c_text s) r c (scroll_start s) (fg_color s)
  (bg_color s) (cursor_visible s) (term_out_buf s) (term_out_len s) (term_out_max s) (c_screen s) (c_fill s) (c_serial s).
Definition set_scroll v (s : console) := mkConsole (c_text s) (cursor_row s) (cursor_col s) v (fg_color s)
  (bg_color s) (cursor_visible s) (term_out_buf s) (term_out_len s) (term_out_max s) (c_screen s) (c_fill s) (c_serial s).
Definition set_colors fg bg (s : console) := mkConsole (c_text s) (cursor_row s) (cursor_col s) (scroll_start s) fg
  bg (cursor_visible s) (term_out_buf s) (term_out_len s) (term_out_max s) (c_screen s) (c_fill s) (c_serial s).
Definition set_visible v (s : console) := mkConsole (c_text s) (cursor_row s) (cursor_col s) (scroll_start s) (fg_color s)
  (bg_color s) v (term_out_buf s) (term_out_len s) (term_out_max s) (c_screen s) (c_fill s) (c_serial s).
Definition set_term b l m (s : console) := mkConsole (c_text s) (cursor_row s) (cursor_col s) (scroll_start s) (fg_color s)
  (bg_color s) (cursor_visible s) b l m (c_screen s) (c_fill s) (c_serial s).
Definition set_screen d f (s : console) := mkConsole (c_text s) (cursor_row s) (cursor_col s) (scroll_start s) (fg_color s)
  (bg_color s) (cursor_visible s) (term_out_buf s) (term_out_len s) (term_out_max s) d f (c_serial s).
Definition set_serial o (s : console) := mkConsole (c_text s) (cursor_row s) (cursor_col s) (scroll_start s) (fg_color s)
  (bg_color s) (cursor_visible s) (term_out_buf s) (term_out_len s) (term_out_max s) (c_screen s) (c_fill s) o.

Abbreviation C := (M console).

(** [scrollback\[i\]\[j\]]. *)
Definition load_cell (i j : Z) : C Z := λ s,
  match c_text s !! (i * CONSOLE_COLS + j) with Some b => Some (b, s) | None => None end.
Definition store_cell (i j b : Z) : C unit := λ s,
  match c_text s !! (i * CONSOLE_COLS + j) with
  | Some _ => Some (tt, set_text (<[i * CONSOLE_COLS + j := b]> (c_text s)) s)
  | None => None
  end.

Definition vesa_draw_cell (x y c fg bg : Z) : C unit :=
  modify (λ s, set_screen (<[(x, y) := (c, fg, bg)]> (c_screen s)) (c_fill s) s).
Definition vesa_fill_screen (color : Z) : C unit := modify (set_screen ∅ color).
Definition serial_putc (c : Z) : C unit := modify (λ s, set_serial (c_serial s ++ [c]) s).

(** ** Rows *)

Definition blank_all : C unit :=
  for_up (Z.to_nat SCROLLBACK) 0 (λ i, for_up (Z.to_nat CONSOLE_COLS) 0 (λ j, store_cell i j 32)).

Definition console_clear : C unit :=
  blank_all ;!
  modify (λ s, set_scroll 0 (set_cursor 0 0 s)) ;!
  let! bg := gets bg_color in
  vesa_fill_screen bg.

(** The size of the screen is read from the framebuffer and not used. *)
Definition console_init : C unit := console_clear.

Definition console_set_fg (color : Z) : C unit := modify (λ s, set_colors color (bg_color s) s).
Definition console_set_bg (color : Z) : C unit := modify (λ s, set_colors (fg_color s) color s).

Definition scroll : C unit :=
  for_up (Z.to_nat (SCROLLBACK - 1)) 0 (λ i,
    for_up (Z.to_nat CONSOLE_COLS) 0 (λ j, let! b := load_cell (i + 1) j in store_cell i j b)) ;!
  for_up (Z.to_nat CONSOLE_COLS) 0 (λ j, store_cell (SCROLLBACK - 1) j 32).

Definition newline : C unit :=
  modify (λ s, set_cursor (cursor_row s + 1) 0 s) ;!
  let! r := gets cursor_row in
  if CONSOLE_ROWS <=? r then
    modify (λ s, set_cursor (CONSOLE_ROWS - 1) (cursor_col s) s) ;!
    scroll ;!
    modify (set_scroll 0)
  else skip.

Definition abs_row (r : Z) : C Z := gets (λ s, scroll_start s + r).

Definition render_row (r : Z) : C unit :=
  let! ar := abs_row r in
  if (ar <? 0) || (SCROLLBACK <=? ar) then skip else
  let y := r * row_h in
  for_up (Z.to_nat CONSOLE_COLS) 0 (λ c,
    let! b := load_cell ar c in
    let! fg := gets fg_color in
    let! bg := gets bg_color in
    vesa_draw_cell (c * col_w) y b fg bg).

Definition render_all : C unit := for_up (Z.to_nat CONSOLE_ROWS) 0 render_row.

(** ** Characters *)

(** Into the buffer set by [console_set_output_buffer]. *)
Definition put_term (buf : gmap Z Z) (len c : Z) : C unit := λ s,
  if len <? term_out_max s - 1 then
    match buf !! len, buf !! (len + 1) with
    | Some _, Some _ => Some (tt, set_term (Some (<[len + 1 := 0]> (<[len := c]> buf))) (Some (len + 1)) (term_out_max s) s)
    | _, _ => None
    end
  else Some (tt, s).

(** The three cases of a character on the screen. *)
Definition put_newline : C unit :=
  let! r := gets cursor_row in
  let! ar := abs_row r in
  let! c := gets cursor_col in
  store_cell ar c 32 ;!
  newline ;!
  render_all.

Definition put_backspace : C unit :=
  let! c := gets cursor_col in
  if 0 <? c then
    modify (λ s, set_cursor (cursor_row s) (c - 1) s) ;!
    let! r := gets cursor_row in
    let! ar := abs_row r in
    store_cell ar (c - 1) 32 ;!
    render_row r
  else skip.

Definition put_glyph (b : Z) : C unit :=
  let! c := gets cursor_col in
  (if CONSOLE_COLS <=? c then newline else skip) ;!
  let! r := gets cursor_row in
  let! ar := abs_row r in
  let! c := gets cursor_col in
  store_cell ar c b ;!
  render_row r ;!
  modify (λ s, set_cursor (cursor_row s) (cursor_col s + 1) s).

Definition console_putchar (c : Z) : C unit :=
  let! buf := gets term_out_buf in
  let! len := gets term_out_len in
  match buf, len with
  | Some b, Some n => put_term b n c ;! serial_putc c
  | _, _ =>
      (if c =? 10 then put_newline
       else if c =? 8 then put_backspace
       else if 32 <=? c then put_glyph c
       else skip) ;!
      serial_putc c
  end.

(** The string is the list of its characters. *)
Fixpoint console_write (s : list Z) : C unit :=
  match s with [] => skip | c :: s' => console_putchar c ;! console_write s' end.

Definition console_set_output_buffer (buf : option (gmap Z Z)) (len : option Z) (max : Z) : C unit :=
  modify (set_term buf len max).

Definition console_show_cursor (show : Z) : C unit := modify (set_visible show).

(** ** [console_printf] *)

Inductive parg := PStr (s : list Z) | PInt (v : Z).

(** [char buf\[256\]]: what was written so far; [n] is its length. *)
Definition emit (out : list Z) (b : Z) : C (list Z) :=
  assert_ (Z.of_nat (length out) <? 256) ;! ret (out ++ [b]).
Fixpoint emits (out bs : list Z) : C (list Z) :=
  match bs with [] => ret out | b :: bs' => let! out := emit out b in emits out bs' end.

(** [while (v > 0) { tmp\[ti++\] = digit(v % base); v /= base; }] then
    [while (ti > 0) buf\[n++\] = tmp\[--ti\];]: the digits, first the highest. *)
Fixpoint rev_digits (fuel : nat) (base : Z) (digit : Z → Z) (v : Z) (acc : list Z) : list Z :=
  match fuel with
  | O => acc
  | S fuel' => if 0 <? v then rev_digits fuel' base digit (v / base) (digit (v mod base) :: acc) else acc
  end.

Definition dec_char (d : Z) : Z := 48 + d.
Definition low_hex (d : Z) : Z := if d <? 10 then 48 + d else 97 + d - 10.

Definition dec_tmp (v : Z) : list Z := rev_digits 16 10 dec_char v (if v =? 0 then [48] else []).
Definition hex_tmp (v : Z) : list Z := rev_digits 16 16 low_hex v (if v =? 0 then [48] else []).

Definition printf_conversion (c : Z) (args : list parg) (out : list Z) : C (list Z * list parg) :=
  if c =? 115 then
    match args with
    | PStr t :: args => let! out := emits out t in ret (out, args)
    | _ => stuck
    end
  else if c =? 100 then
    match args with
    | PInt v :: args =>
        let! r := (if s32 v <? 0 then let! out := emit out 45 in ret (out, s32 (- s32 v)) else ret (out, s32 v)) in
        let '(out, v) := r in
        let! out := emits out (dec_tmp v) in
        ret (out, args)
    | _ => stuck
    end
  else if (c =? 120) || (c =? 88) then
    match args with
    | PInt v :: args =>
        let! out := emits out [48; 120] in
        let! out := emits out (hex_tmp (u32 v)) in
        ret (out, args)
    | _ => stuck
    end
  else ret (out, args).

(** A format that ends in [%] is read past its end, unless the buffer is nearly
    full. *)
Fixpoint printf_fmt (fmt : list Z) (args : list parg) (out : list Z) : C (list Z) :=
  match fmt with
  | [] => ret out
  | c :: fmt' =>
      if negb (c =? 37) then let! out := emit out c in printf_fmt fmt' args out else
      match fmt' with
      | [] => if 250 <=? Z.of_nat (length out) then ret out else stuck
      | k :: fmt'' =>
          let! r := printf_conversion k args out in
          let '(out, args) := r in
          if 250 <=? Z.of_nat (length out) then ret out else printf_fmt fmt'' args out
      end
  end.

Definition console_printf (fmt : list Z) (args : list parg) : C unit :=
  let! out := printf_fmt fmt args [] in
  assert_ (Z.of_nat (length out) <? 256) ;!
  console_write out.
