(* ===== verification/ConsoleProof.v ===== *)
(** * ConsoleProof: the console shows the last 45 lines of what was written

    The reference is a terminal without a screen: the lines already ended and the
    line being written ([page]).  The text block, the cursor and the scrolling of
    [console.c] implement it; the drawn screen follows it at every newline. *)

From Stdlib Require Import ZArith Lia.
From stdpp Require Import gmap list prelude.
From S2P Require Import Prelude Libc StdioProof Console.

Open Scope Z_scope.

(** ** The text block *)

(** The character of row [i] and column [j] is [f i j]. *)
Definition cells (m : gmap Z Z) (f : Z → Z → Z) : Prop :=
  ∀ i j, 0 ≤ i < 200 → 0 ≤ j < 80 → m !! (i * 80 + j) = Some (f i j).

Definition upd (f : Z → Z → Z) (i j b : Z) : Z → Z → Z :=
  λ i' j', if decide (i' = i ∧ j' = j) then b else f i' j'.

Lemma cells_ext m f g : (∀ i j, 0 ≤ i < 200 → 0 ≤ j < 80 → f i j = g i j) → cells m f → cells m g.
Proof. intros He Hm i j Hi Hj. rewrite <- He by done. by apply Hm. Qed.

Lemma cell_index i j i' j' : 0 ≤ j < 80 → 0 ≤ j' < 80 → i * 80 + j = i' * 80 + j' → i = i' ∧ j = j'.
Proof. lia. Qed.

Lemma cells_upd m f i j b : 0 ≤ j < 80 → cells m f → cells (<[i * 80 + j := b]> m) (upd f i j b).
Proof.
  intros Hj Hm i' j' Hi' Hj'. unfold upd. case_decide as H; [destruct H; subst; by rewrite lookup_insert_eq|].
  rewrite lookup_insert_ne; [by apply Hm|]. intros E. apply cell_index in E; [|done|done]. lia.
Qed.

Lemma set_text_text m m' s : set_text m (set_text m' s) = set_text m s.
Proof. done. Qed.
Lemma set_text_self s : set_text (c_text s) s = s.
Proof. by destruct s. Qed.

Lemma store_cell_run m f i j b s :
  cells m f → 0 ≤ i < 200 → 0 ≤ j < 80 →
  ∃ m', store_cell i j b (set_text m s) = Some (tt, set_text m' s) ∧ cells m' (upd f i j b).
Proof.
  intros Hm Hi Hj. exists (<[i * 80 + j := b]> m). unfold store_cell, CONSOLE_COLS. cbn [c_text set_text].
  rewrite (Hm i j Hi Hj). split; [done|by apply cells_upd].
Qed.

Lemma load_cell_run m f i j s :
  cells m f → 0 ≤ i < 200 → 0 ≤ j < 80 → load_cell i j (set_text m s) = Some (f i j, set_text m s).
Proof. intros Hm Hi Hj. unfold load_cell, CONSOLE_COLS. cbn [c_text set_text]. by rewrite (Hm i j Hi Hj). Qed.

(** A loop over the columns of row [i] that stores [g j] in column [j]. *)
Lemma columns_run m f i (g : Z → Z) (body : Z → C unit) s :
  cells m f → 0 ≤ i < 200 →
  (∀ m1 f1 j, cells m1 f1 → (∀ i' j', i' ≠ i → f1 i' j' = f i' j') → 0 ≤ j < 80 →
    ∃ m2, body j (set_text m1 s) = Some (tt, set_text m2 s) ∧ cells m2 (upd f1 i j (g j))) →
  ∃ m', for_up 80 0 body (set_text m s) = Some (tt, set_text m' s) ∧
    cells m' (λ i' j', if decide (i' = i) then g j' else f i' j').
Proof.
  intros Hm Hi Hb.
  set (I := λ (k : Z) (s' : console), ∃ m', s' = set_text m' s ∧
    cells m' (λ i' j', if decide (i' = i ∧ j' < k) then g j' else f i' j')).
  enough (wp (for_up 80 0 body) (set_text m s) (λ _ s', I 80 s')) as ([] & s' & E & m' & -> & H).
  { exists m'. split; [done|]. eapply cells_ext; [|exact H]. intros i' j' _ Hj. simpl. repeat case_decide; done || lia. }
  apply (wp_for_up I body 80 0).
  - exists m. split; [done|]. eapply cells_ext; [|exact Hm]. intros. rewrite decide_False by lia. done.
  - intros k ? Hk (m1 & -> & H1). destruct (Hb m1 _ k H1) as (m2 & E2 & H2); [|lia|].
    { intros i' j' Hne. rewrite decide_False by lia. done. }
    eapply wp_run; [exact E2|]. exists m2. split; [done|]. eapply cells_ext; [|exact H2].
    intros i' j' _ Hj'. unfold upd. repeat case_decide; try done; try lia. by destruct H as [_ ->].
Qed.

(** A loop over the first [n] rows that replaces row [i] by [g i]. *)
Lemma rows_run (n : nat) m f (g : Z → Z → Z) (body : Z → C unit) s :
  cells m f → (n ≤ 200)%nat →
  (∀ m1 f1 i, cells m1 f1 → (∀ i' j', i ≤ i' → f1 i' j' = f i' j') → 0 ≤ i < Z.of_nat n →
    ∃ m2, body i (set_text m1 s) = Some (tt, set_text m2 s) ∧
      cells m2 (λ i' j', if decide (i' = i) then g i j' else f1 i' j')) →
  ∃ m', for_up n 0 body (set_text m s) = Some (tt, set_text m' s) ∧
    cells m' (λ i' j', if decide (i' < Z.of_nat n) then g i' j' else f i' j').
Proof.
  intros Hm Hn Hb.
  set (I := λ (k : Z) (s' : console), ∃ m', s' = set_text m' s ∧
    cells m' (λ i' j', if decide (i' < k) then g i' j' else f i' j')).
  enough (wp (for_up n 0 body) (set_text m s) (λ _ s', I (0 + Z.of_nat n) s')) as ([] & s' & E & m' & -> & H)
    by (by exists m').
  apply (wp_for_up I body n 0).
  - exists m. split; [done|]. eapply cells_ext; [|exact Hm]. intros. rewrite decide_False by lia. done.
  - intros k ? Hk (m1 & -> & H1). destruct (Hb m1 _ k H1) as (m2 & E2 & H2); [|lia|].
    { intros i' j' Hle. rewrite decide_False by lia. done. }
    eapply wp_run; [exact E2|]. exists m2. split; [done|]. eapply cells_ext; [|exact H2].
    intros i' j' _ _. simpl. repeat case_decide; try done; try lia. by subst.
Qed.

Lemma scroll_run m f s :
  cells m f → ∃ m', scroll (set_text m s) = Some (tt, set_text m' s) ∧
    cells m' (λ i j, if decide (i = 199) then 32 else f (i + 1) j).
Proof.
  intros Hm. unfold scroll. change (Z.to_nat (SCROLLBACK - 1)) with 199%nat.
  change (Z.to_nat CONSOLE_COLS) with 80%nat. change (SCROLLBACK - 1) with 199.
  set (inner := λ i, for_up 80 0 (λ j, let! b := load_cell (i + 1) j in store_cell i j b)).
  destruct (rows_run 199 m f (λ i j, f (i + 1) j) inner s Hm) as (m1 & E1 & H1); [lia| |].
  { intros m1 f1 i H1 Hsame Hi.
    apply (columns_run m1 f1 i (λ j, f (i + 1) j)); [done|lia|]. intros m2 f2 j H2 Hf2 Hj.
    unfold bind. rewrite (load_cell_run m2 f2) by (done || lia). rewrite Hf2, Hsame by lia.
    apply store_cell_run; done || lia. }
  destruct (columns_run m1 _ 199 (λ _, 32) (λ j, store_cell 199 j 32) s H1) as (m2 & E2 & H2); [lia| |].
  { intros m2 f2 j H2 _ Hj. apply store_cell_run; done || lia. }
  exists m2. unfold bind. rewrite E1. split; [exact E2|]. eapply cells_ext; [|exact H2].
  intros i j Hi Hj. simpl. repeat case_decide; done || lia.
Qed.

Lemma blank_run m f s :
  cells m f → ∃ m', blank_all (set_text m s) = Some (tt, set_text m' s) ∧ cells m' (λ _ _, 32).
Proof.
  intros Hm. unfold blank_all. change (Z.to_nat SCROLLBACK) with 200%nat.
  change (Z.to_nat CONSOLE_COLS) with 80%nat.
  destruct (rows_run 200 m f (λ _ _, 32) (λ i, for_up 80 0 (λ j, store_cell i j 32)) s Hm) as (m1 & E1 & H1); [lia| |].
  { intros m1 f1 i H1 _ Hi. apply (columns_run m1 f1 i (λ _, 32)); [done|lia|].
    intros m2 f2 j H2 _ Hj. apply store_cell_run; done || lia. }
  exists m1. split; [done|]. eapply cells_ext; [|exact H1]. intros i j Hi _. simpl. by rewrite decide_True by lia.
Qed.

(** ** The screen *)

(** The cell drawn at a row and a column. *)
Definition at_ (d : gmap (Z * Z) cell) (r c : Z) : option cell := d !! (c * 8, r * 16).

Lemma at_insert d r c r' c' x :
  at_ (<[(c' * 8, r' * 16) := x]> d) r c = if decide (r = r' ∧ c = c') then Some x else at_ d r c.
Proof.
  unfold at_. case_decide as H; [destruct H; subst; by rewrite lookup_insert_eq|].
  rewrite lookup_insert_ne; [done|]. intros [= ? ?]. lia.
Qed.

Lemma render_row_run f r s :
  cells (c_text s) f → scroll_start s = 0 → 0 ≤ r < 200 →
  ∃ d, render_row r s = Some (tt, set_screen d (c_fill s) s) ∧
    ∀ r' c', 0 ≤ c' < 80 →
      at_ d r' c' = if decide (r' = r) then Some (f r c', fg_color s, bg_color s) else at_ (c_screen s) r' c'.
Proof.
  intros Hc Hs Hr. unfold render_row, abs_row, bind at 1, gets at 1. rewrite Hs, Z.add_0_l.
  replace ((r <? 0) || (SCROLLBACK <=? r)) with false by (unfold SCROLLBACK; lia).
  change (Z.to_nat CONSOLE_COLS) with 80%nat. unfold col_w, row_h.
  set (I := λ (k : Z) (s' : console), ∃ d, s' = set_screen d (c_fill s) s ∧ ∀ r' c', 0 ≤ c' < 80 →
    at_ d r' c' = if decide (r' = r ∧ c' < k) then Some (f r c', fg_color s, bg_color s) else at_ (c_screen s) r' c').
  match goal with |- ∃ d, for_up 80 0 ?b s = _ ∧ _ => enough (wp (for_up 80 0 b) s (λ _ s', I 80 s')) as ([] & s' & E & d & -> & H) end.
  { exists d. split; [done|]. intros r' c' Hc'. rewrite H by done. repeat case_decide; done || lia. }
  eapply (wp_for_up I _ 80 0).
  - exists (c_screen s). split; [by destruct s|]. intros. by rewrite decide_False by lia.
  - intros k ? Hk (d & -> & Hd). wp_step.
    eapply wp_run; [unfold load_cell, CONSOLE_COLS; cbn [c_text set_screen]; by rewrite Hc by lia|].
    wp_step. wp_step. wp_step. wp_step. unfold vesa_draw_cell. wp_step.
    exists (<[(k * 8, r * 16) := (f r k, fg_color s, bg_color s)]> d). split; [done|].
    intros r' c' Hc'. rewrite at_insert, Hd by done. repeat case_decide; try done; try lia.
    by destruct H as [_ ->].
Qed.

(** Every row of the screen shows the text block. *)
Definition redrawn (f : Z → Z → Z) (s : console) : Prop :=
  ∀ r c, 0 ≤ r < 45 → 0 ≤ c < 80 → at_ (c_screen s) r c = Some (f r c, fg_color s, bg_color s).

Lemma render_all_run f s :
  cells (c_text s) f → scroll_start s = 0 →
  ∃ d, render_all s = Some (tt, set_screen d (c_fill s) s) ∧ redrawn f (set_screen d (c_fill s) s).
Proof.
  intros Hc Hs. unfold render_all. change (Z.to_nat CONSOLE_ROWS) with 45%nat.
  set (I := λ (k : Z) (s' : console), ∃ d, s' = set_screen d (c_fill s) s ∧ ∀ r c, 0 ≤ r < k → 0 ≤ c < 80 →
    at_ d r c = Some (f r c, fg_color s, bg_color s)).
  enough (wp (for_up 45 0 render_row) s (λ _ s', I 45 s')) as ([] & s' & E & d & -> & H) by (by exists d).
  eapply (wp_for_up I _ 45 0).
  - exists (c_screen s). split; [by destruct s|]. lia.
  - intros k ? Hk (d & -> & Hd).
    destruct (render_row_run f k (set_screen d (c_fill s) s)) as (d' & E & Hd'); [done|done|lia|].
    eapply wp_run; [exact E|]. exists d'. split; [done|]. intros r c Hr Hc'. rewrite Hd' by done.
    case_decide as Hrk; [by rewrite Hrk|]. apply Hd; lia.
Qed.

(** ** The reference terminal *)

(** The lines already ended, and the line being written. *)
Record page := mkPage { p_done : list (list Z); p_cur : list Z }.

Definition p_put (t : page) (c : Z) : page :=
  if c =? 10 then mkPage (p_done t ++ [p_cur t]) []
  else if c =? 8 then mkPage (p_done t) (take (length (p_cur t) - 1) (p_cur t))
  else if 32 <=? c then
    if decide (length (p_cur t) < 80)%nat then mkPage (p_done t) (p_cur t ++ [c])
    else mkPage (p_done t ++ [p_cur t]) [c]
  else t.

(** The first line on the screen, and the character at a row and a column. *)
Definition top (t : page) : nat := (length (p_done t) - 44)%nat.
Definition p_lines (t : page) : list (list Z) := p_done t ++ [p_cur t].
Definition shown (t : page) (r c : Z) : Z :=
  default 32 (p_lines t !! (top t + Z.to_nat r)%nat ≫= (.!! Z.to_nat c)).

Definition p_row (t : page) : Z := Z.of_nat (length (p_done t) `min` 44).

Lemma shown_newline t r c :
  0 ≤ r → shown (mkPage (p_done t ++ [p_cur t]) []) r c =
    shown t (if decide (length (p_done t) < 44)%nat then r else r + 1) c.
Proof.
  intros Hr. unfold shown, p_lines, top. cbn [p_done p_cur]. rewrite length_app. cbn [length].
  set (L := p_done t ++ [p_cur t]). assert (HL : length L = S (length (p_done t))) by (unfold L; rewrite length_app; simpl; lia).
  case_decide as Hd.
  - replace (length (p_done t) + 1 - 44)%nat with (length (p_done t) - 44)%nat by lia.
    set (i := (_ + _)%nat). destruct (decide (i < length L)%nat).
    + by rewrite lookup_app_l.
    + rewrite lookup_app_r by lia. rewrite (lookup_ge_None_2 L i) by lia. by destruct (i - length L)%nat.
  - replace (length (p_done t) + 1 - 44 + Z.to_nat r)%nat with (length (p_done t) - 44 + Z.to_nat (r + 1))%nat by lia.
    set (i := (_ + _)%nat). destruct (decide (i < length L)%nat).
    + by rewrite lookup_app_l.
    + rewrite lookup_app_r by lia. rewrite (lookup_ge_None_2 L i) by lia. by destruct (i - length L)%nat.
Qed.

(** A change of the line being written. *)
Lemma shown_line D l l' k b r c :
  (∀ j, default 32 (l' !! j) = if decide (j = k) then b else default 32 (l !! j)) → 0 ≤ r → 0 ≤ c →
  shown (mkPage D l') r c = upd (shown (mkPage D l)) (p_row (mkPage D l)) (Z.of_nat k) b r c.
Proof.
  intros Hl Hr Hc. unfold upd, shown, p_lines, p_row, top. cbn [p_done p_cur].
  set (i := (length D - 44 + Z.to_nat r)%nat).
  destruct (decide (i = length D)) as [Ei|Hi].
  - rewrite Ei, !list_lookup_middle by done. cbn [mbind option_bind]. rewrite Hl.
    repeat case_decide; try done; lia.
  - rewrite decide_False by lia. destruct (decide (i < length D)%nat); [by rewrite !lookup_app_l by lia|].
    rewrite !(lookup_ge_None_2 (D ++ _)); [done|rewrite length_app; simpl; lia..].
Qed.

(** The rest of the line and the rows below it are blank. *)
Lemma shown_blank t r c :
  0 ≤ r → 0 ≤ c → (r = p_row t ∧ Z.of_nat (length (p_cur t)) ≤ c) ∨ p_row t < r → shown t r c = 32.
Proof.
  intros Hr Hc H. unfold shown, p_lines, p_row, top in *. set (i := (_ + _)%nat).
  destruct H as [[Hrow Hlen]|Hrow].
  - assert (Hi : i = length (p_done t)) by lia. rewrite Hi, list_lookup_middle by done. simpl.
    by rewrite lookup_ge_None_2 by lia.
  - by rewrite lookup_ge_None_2 by (rewrite length_app; simpl; lia).
Qed.

(** ** The console implements it *)

Definition shows (s : console) (t : page) : Prop :=
  cells (c_text s) (shown t) ∧ cursor_row s = p_row t ∧ cursor_col s = Z.of_nat (length (p_cur t)) ∧
  (length (p_cur t) ≤ 80)%nat ∧ scroll_start s = 0.

(** The fields a character on the screen does not touch. *)
Definition kept (s s' : console) : Prop :=
  fg_color s' = fg_color s ∧ bg_color s' = bg_color s ∧ term_out_buf s' = term_out_buf s ∧
  term_out_len s' = term_out_len s ∧ c_serial s' = c_serial s.

Lemma p_row_newline t :
  p_row (mkPage (p_done t ++ [p_cur t]) []) = if decide (length (p_done t) < 44)%nat then p_row t + 1 else 44.
Proof. unfold p_row. cbn [p_done]. rewrite length_app. simpl. case_decide; lia. Qed.

Lemma newline_run s t :
  shows s t →
  ∃ s', newline s = Some (tt, s') ∧ shows s' (mkPage (p_done t ++ [p_cur t]) []) ∧ kept s s' ∧ c_screen s' = c_screen s.
Proof.
  intros (Hc & Hr & _ & _ & Hs). pose proof (p_row_newline t) as Hrow.
  unfold newline, bind at 1, modify at 1, bind at 1, gets at 1. cbn [cursor_row set_cursor]. rewrite Hr.
  case_decide as Hd.
  - replace (CONSOLE_ROWS <=? p_row t + 1) with false by (symmetry; apply Z.leb_gt; unfold CONSOLE_ROWS, p_row; lia).
    eexists. split; [done|]. split; [|done]. split_and!; cbn; [|by rewrite Hrow|done|lia|done].
    eapply cells_ext; [|exact Hc]. intros i j Hi _. rewrite shown_newline by lia. by rewrite decide_True.
  - replace (CONSOLE_ROWS <=? p_row t + 1) with true by (symmetry; apply Z.leb_le; unfold CONSOLE_ROWS, p_row; lia).
    unfold bind at 1, modify at 1. set (s1 := set_cursor _ _ _).
    destruct (scroll_run (c_text s1) (shown t) s1) as (m & E & Hm); [done|]. rewrite set_text_self in E.
    unfold bind. rewrite E. eexists. split; [done|]. split; [|done]. split_and!; cbn; [|by rewrite Hrow|done|lia|done].
    eapply cells_ext; [|exact Hm]. intros i j Hi Hj. simpl. rewrite shown_newline, (decide_False (P := (_ < 44)%nat)) by (done || lia).
    case_decide as Hl; [|done]. symmetry. apply shown_blank; [lia|lia|]. right. unfold p_row. lia.
Qed.

Lemma store_shown s t i j b t' :
  cells (c_text s) (shown t) → 0 ≤ i < 200 → 0 ≤ j < 80 →
  (∀ r c, 0 ≤ r < 200 → 0 ≤ c < 80 → upd (shown t) i j b r c = shown t' r c) →
  ∃ m, store_cell i j b s = Some (tt, set_text m s) ∧ cells m (shown t').
Proof.
  intros Hc Hi Hj He. destruct (store_cell_run (c_text s) (shown t) i j b s Hc Hi Hj) as (m & E & Hm).
  rewrite set_text_self in E. exists m. split; [done|]. by eapply cells_ext.
Qed.

Lemma p_row_bound t : 0 ≤ p_row t < 45.
Proof. unfold p_row. lia. Qed.

Lemma put_newline_run s t :
  shows s t → ∃ s', put_newline s = Some (tt, s') ∧ shows s' (p_put t 10) ∧ kept s s' ∧ redrawn (shown (p_put t 10)) s'.
Proof.
  intros Hsh. pose proof Hsh as (Hc & Hr & Hcol & Hlen & Hs). pose proof (p_row_bound t) as Hrb.
  unfold put_newline, abs_row, bind at 1, gets at 1, bind at 1, gets at 1, bind at 1, gets at 1. rewrite Hs, Hr, Hcol, Z.add_0_l.
  set (k := Z.of_nat (length (p_cur t))).
  assert (Hst : ∃ m, store_cell (p_row t) k 32 s = Some (tt, set_text m s) ∧ cells m (shown t)).
  { destruct (decide (k = 80)) as [->|Hk].
    - change (∃ m, store_cell (p_row t) 80 32 s = Some (tt, set_text m s) ∧ cells m (shown t)).
      replace (store_cell (p_row t) 80 32 s) with (store_cell (p_row t + 1) 0 32 s)
        by (unfold store_cell, CONSOLE_COLS; by replace ((p_row t + 1) * 80 + 0) with (p_row t * 80 + 80) by lia).
      apply (store_shown s t); [done|lia|lia|]. intros r c Hr' Hc'. unfold upd. case_decide as H; [|done].
      symmetry. apply shown_blank; lia.
    - apply (store_shown s t); [done|lia|lia|]. intros r c Hr' Hc'. unfold upd. case_decide as H; [|done].
      symmetry. apply shown_blank; lia. }
  destruct Hst as (m & E & Hm). unfold bind at 1. rewrite E.
  destruct (newline_run (set_text m s) t) as (s1 & E1 & Hsh1 & Hk1 & _); [split_and!; done|].
  unfold bind. rewrite E1. destruct (render_all_run _ s1 (proj1 Hsh1)) as (d & E2 & Hd); [apply Hsh1|].
  eexists. split; [exact E2|]. split; [exact Hsh1|]. split; [exact Hk1|exact Hd].
Qed.

Lemma take_init_lookup (l : list Z) j :
  (0 < length l)%nat → default 32 (take (length l - 1) l !! j) = if decide (j = (length l - 1)%nat) then 32 else default 32 (l !! j).
Proof.
  intros Hl. destruct (decide (j < length l - 1)%nat); [rewrite lookup_take_lt, decide_False by lia; done|].
  rewrite lookup_take_ge by lia. case_decide; [done|]. by rewrite lookup_ge_None_2 by lia.
Qed.

Lemma put_backspace_run s t :
  shows s t → ∃ s', put_backspace s = Some (tt, s') ∧ shows s' (p_put t 8) ∧ kept s s'.
Proof.
  intros Hsh. pose proof Hsh as (Hc & Hr & Hcol & Hlen & Hs). pose proof (p_row_bound t) as Hrb.
  unfold put_backspace, bind at 1, gets at 1. rewrite Hcol. unfold p_put. simpl.
  destruct (Z.ltb_spec 0 (Z.of_nat (length (p_cur t)))) as [Hpos|Hz].
  - unfold bind at 1, modify at 1, bind at 1, gets at 1, abs_row, bind at 1, gets at 1.
    cbn [cursor_row set_cursor scroll_start]. rewrite Hs, Hr, Z.add_0_l. set (s1 := set_cursor _ _ _).
    destruct (store_shown s1 t (p_row t) (Z.of_nat (length (p_cur t)) - 1) 32 (mkPage (p_done t) (take (length (p_cur t) - 1) (p_cur t))))
      as (m & E & Hm); [done|lia|lia| |].
    { intros r c Hr' Hc'. replace (_ - 1) with (Z.of_nat (length (p_cur t) - 1)) by lia. symmetry.
      destruct t as [D l]. cbn [p_done p_cur] in *. apply shown_line; [|lia|lia]. intros j. apply take_init_lookup. lia. }
    unfold bind. rewrite E.
    destruct (render_row_run _ (p_row t) (set_text m s1) Hm) as (d & E2 & _); [done|lia|].
    eexists. split; [exact E2|]. split; [|done]. split_and!; [exact Hm|done| | |exact Hs]; cbn [p_cur cursor_col set_screen set_text set_cursor s1].
    + unfold s1. cbn. rewrite length_take. lia.
    + rewrite length_take. lia.
  - eexists. split; [done|]. split; [|done]. destruct t as [D [|x l]]; [|simpl in Hz; lia]. done.
Qed.

Lemma snoc_lookup (l : list Z) b j :
  default 32 ((l ++ [b]) !! j) = if decide (j = length l) then b else default 32 (l !! j).
Proof.
  case_decide as H; [subst; by rewrite list_lookup_middle|]. destruct (decide (j < length l)%nat).
  - by rewrite lookup_app_l.
  - rewrite (lookup_ge_None_2 l j), lookup_ge_None_2; [done|rewrite length_app; simpl; lia|lia].
Qed.

(** Storing a character in a line that has room, and drawing its row. *)
Lemma put_in_line_run s t b :
  shows s t → (length (p_cur t) < 80)%nat →
  ∃ m d, let s' := set_screen d (c_fill s) (set_text m s) in
    (let! r := gets cursor_row in let! ar := abs_row r in let! c := gets cursor_col in
     store_cell ar c b ;! render_row r ;! modify (λ s, set_cursor (cursor_row s) (cursor_col s + 1) s)) s =
      Some (tt, set_cursor (cursor_row s) (cursor_col s + 1) s') ∧
    cells m (shown (mkPage (p_done t) (p_cur t ++ [b]))) ∧
    ∀ r c, 0 ≤ c < 80 → r ≠ p_row t → at_ d r c = at_ (c_screen s) r c.
Proof.
  intros (Hc & Hr & Hcol & Hlen & Hs) Hlt. pose proof (p_row_bound t) as Hrb.
  unfold abs_row, bind at 1, gets at 1, bind at 1, gets at 1, bind at 1, gets at 1. rewrite Hs, Hr, Hcol, Z.add_0_l.
  destruct (store_shown s t (p_row t) (Z.of_nat (length (p_cur t))) b (mkPage (p_done t) (p_cur t ++ [b])))
    as (m & E & Hm); [done|lia|lia| |].
  { intros r c Hr' Hc'. symmetry. destruct t as [D l]. cbn [p_done p_cur] in *. apply shown_line; [|lia|lia].
    intros j. apply snoc_lookup. }
  unfold bind at 1. rewrite E. destruct (render_row_run _ (p_row t) (set_text m s) Hm) as (d & E2 & Hd); [done|lia|].
  exists m, d. unfold bind. rewrite E2. split; [unfold modify; cbn; by rewrite Hr, Hcol|]. split; [done|].
  intros r c Hc' Hne. rewrite Hd by done. by rewrite decide_False.
Qed.

Lemma put_glyph_run s t b :
  shows s t → 32 ≤ b → ∃ s', put_glyph b s = Some (tt, s') ∧ shows s' (p_put t b) ∧ kept s s' ∧
    ∀ r c, 0 ≤ c < 80 → r ≠ p_row (p_put t b) → at_ (c_screen s') r c = at_ (c_screen s) r c.
Proof.
  intros Hsh Hb. pose proof Hsh as (Hc & Hr & Hcol & Hlen & Hs).
  unfold put_glyph, bind at 1, gets at 1. rewrite Hcol.
  assert (Hput : p_put t b = if decide (length (p_cur t) < 80)%nat then mkPage (p_done t) (p_cur t ++ [b])
    else mkPage (p_done t ++ [p_cur t]) [b]).
  { unfold p_put. replace (b =? 10) with false by lia. replace (b =? 8) with false by lia.
    by replace (32 <=? b) with true by lia. }
  rewrite Hput. case_decide as Hlt.
  - replace (CONSOLE_COLS <=? Z.of_nat (length (p_cur t))) with false by (unfold CONSOLE_COLS; lia).
    unfold bind at 1, skip, ret. destruct (put_in_line_run s t b Hsh Hlt) as (m & d & E & Hm & Hd).
    eexists. split; [exact E|]. split; [|split; [done|exact Hd]].
    split_and!; [exact Hm|exact Hr| | |exact Hs]; cbn; rewrite ?length_app; cbn; lia.
  - replace (CONSOLE_COLS <=? Z.of_nat (length (p_cur t))) with true by (unfold CONSOLE_COLS; lia).
    destruct (newline_run s t Hsh) as (s1 & E1 & Hsh1 & Hk1 & Hsc1). unfold bind at 1. rewrite E1.
    destruct (put_in_line_run s1 _ b Hsh1) as (m & d & E & Hm & Hd); [simpl; lia|].
    pose proof Hsh1 as (_ & Hr1 & Hcol1 & _ & Hs1). cbn [p_cur p_done length] in *.
    eexists. split; [exact E|]. split; [|split; [exact Hk1|]].
    + split_and!; [exact Hm|exact Hr1| | |exact Hs1]; cbn; lia.
    + intros r c Hc' Hne. cbn [c_screen set_cursor set_screen]. rewrite <- Hsc1. by apply Hd.
Qed.

(** ** Whole strings *)

Definition on_screen (s : console) : Prop := term_out_buf s = None ∨ term_out_len s = None.

Lemma on_screen_kept s s' : kept s s' → on_screen s → on_screen s'.
Proof. unfold kept, on_screen. intros (_ & _ & -> & -> & _). done. Qed.

Lemma putchar_screen c s :
  on_screen s → console_putchar c s =
    ((if c =? 10 then put_newline else if c =? 8 then put_backspace else if 32 <=? c then put_glyph c else skip) ;!
     serial_putc c) s.
Proof.
  intros Ht. unfold console_putchar at 1, bind at 1, gets at 1, bind at 1, gets at 1.
  destruct Ht as [-> | ->]; [done|by destruct (term_out_buf s)].
Qed.

Lemma serial_shows c s t : shows s t → shows (set_serial (c_serial s ++ [c]) s) t.
Proof. done. Qed.

Lemma console_putchar_run c s t :
  shows s t → on_screen s →
  ∃ s', console_putchar c s = Some (tt, s') ∧ shows s' (p_put t c) ∧ on_screen s' ∧ c_serial s' = c_serial s ++ [c].
Proof.
  intros Hsh Ht. rewrite putchar_screen by done. unfold bind.
  assert (Hrun : ∃ s1, (if c =? 10 then put_newline else if c =? 8 then put_backspace
      else if 32 <=? c then put_glyph c else skip) s = Some (tt, s1) ∧ shows s1 (p_put t c) ∧ kept s s1).
  { destruct (Z.eqb_spec c 10) as [-> |H10]; [destruct (put_newline_run s t Hsh) as (s1 & ? & ? & ? & _); by exists s1|].
    destruct (Z.eqb_spec c 8) as [-> |H8]; [by apply put_backspace_run|].
    destruct (Z.leb_spec 32 c) as [Hc|Hc]; [destruct (put_glyph_run s t c Hsh Hc) as (s1 & ? & ? & ? & _); by exists s1|].
    exists s. split; [done|]. split; [|done]. unfold p_put. replace (c =? 10) with false by lia.
    replace (c =? 8) with false by lia. by replace (32 <=? c) with false by lia. }
  destruct Hrun as (s1 & -> & Hsh1 & Hk). eexists. split; [done|]. split; [exact Hsh1|].
  split; [exact (on_screen_kept s s1 Hk Ht)|]. cbn. by destruct Hk as (_ & _ & _ & _ & ->).
Qed.

Lemma write_run cs : ∀ s t, shows s t → on_screen s →
  ∃ s', console_write cs s = Some (tt, s') ∧ shows s' (fold_left p_put cs t) ∧ on_screen s' ∧ c_serial s' = c_serial s ++ cs.
Proof.
  induction cs as [|c cs IH]; intros s t Hsh Ht; [exists s; by rewrite app_nil_r|].
  destruct (console_putchar_run c s t Hsh Ht) as (s1 & E1 & Hsh1 & Ht1 & Hser1).
  destruct (IH s1 _ Hsh1 Ht1) as (s2 & E2 & Hsh2 & Ht2 & Hser2). exists s2. cbn [console_write]. unfold bind. rewrite E1.
  split_and!; [done|done|done|]. by rewrite Hser2, Hser1, <- app_assoc.
Qed.

Lemma clear_run s f :
  cells (c_text s) f →
  ∃ s', console_clear s = Some (tt, s') ∧ shows s' (mkPage [] []) ∧ term_out_buf s' = term_out_buf s ∧
    term_out_len s' = term_out_len s ∧ c_serial s' = c_serial s.
Proof.
  intros Hc. destruct (blank_run (c_text s) f s Hc) as (m & E & Hm). rewrite set_text_self in E.
  unfold console_clear, bind at 1. rewrite E. eexists. split; [done|]. split; [|done].
  split_and!; [|done|done|cbn; lia|done]. eapply cells_ext; [|exact Hm]. intros i j Hi Hj. symmetry. apply shown_blank; [lia|lia|].
  change (p_row (mkPage [] [])) with 0. cbn. lia.
Qed.

(** C17: from [console_init] on, writing any text keeps every access inside the
    scrollback block, and leaves in its rows and in the cursor what a terminal
    shows: the last 45 lines, wrapped at 80 columns, backspace applied, with the
    whole text on the serial port. *)
Theorem console_refines_page (s : console) (f : Z → Z → Z) (cs : list Z) :
  cells (c_text s) f → term_out_buf s = None →
  ∃ s', (console_init ;! console_write cs) s = Some (tt, s') ∧
    let t := fold_left p_put cs (mkPage [] []) in
    cells (c_text s') (shown t) ∧ cursor_row s' = p_row t ∧ cursor_col s' = Z.of_nat (length (p_cur t)) ∧
    0 ≤ cursor_row s' < 45 ∧ 0 ≤ cursor_col s' ≤ 80 ∧ c_serial s' = c_serial s ++ cs.
Proof.
  intros Hc Ht. destruct (clear_run s f Hc) as (s1 & E1 & Hsh1 & Ht1 & _ & Hser1).
  destruct (write_run cs s1 (mkPage [] []) Hsh1) as (s2 & E2 & (Hc2 & Hr2 & Hcol2 & Hlen2 & _) & _ & Hser2); [left; congruence|].
  exists s2. unfold console_init, bind. rewrite E1. split; [done|]. cbv zeta.
  split_and!; [done|done|done| | | | |by rewrite Hser2, Hser1]; rewrite ?Hr2, ?Hcol2; try lia; apply p_row_bound.
Qed.

(** The globals as the loader leaves them: zeros and the two colours. *)
Definition zero_text : gmap Z Z := list_to_map (zip (seqZ 0 16000) (replicate (Z.to_nat 16000) 0)).
Definition boot_console : console :=
  mkConsole zero_text 0 0 0 0xFFC0C0C0 0xFF0A0A1A 1 None None 0 ∅ 0 [].

Lemma zero_text_cells : cells zero_text (λ _ _, 0).
Proof.
  intros i j Hi Hj. unfold zero_text. apply elem_of_list_to_map.
  - rewrite fst_zip by (rewrite length_seqZ, length_replicate; lia). apply NoDup_seqZ.
  - apply list_elem_of_lookup. exists (Z.to_nat (i * 80 + j)). apply lookup_zip_Some. split.
    + apply lookup_seqZ. lia.
    + apply lookup_replicate. split; [done|lia].
Qed.

(** 46 lines, the last of them with a character taken back. *)
Definition demo_text : list Z := concat (replicate 45 [65; 10]) ++ [66; 67; 8].

Lemma console_refines_page_witness :
  ∃ s', (console_init ;! console_write demo_text) boot_console = Some (tt, s') ∧
    let t := fold_left p_put demo_text (mkPage [] []) in
    cells (c_text s') (shown t) ∧ cursor_row s' = p_row t ∧ cursor_col s' = Z.of_nat (length (p_cur t)) ∧
    0 ≤ cursor_row s' < 45 ∧ 0 ≤ cursor_col s' ≤ 80 ∧ c_serial s' = [] ++ demo_text.
Proof. apply (console_refines_page boot_console (λ _ _, 0) demo_text zero_text_cells eq_refl). Defined.

(** A newline redraws: afterwards every cell of the 45 rows on the screen is
    the character of the reference terminal there, in the current colours. *)
Theorem newline_redraws (s : console) (t : page) :
  shows s t → on_screen s →
  ∃ s', console_putchar 10 s = Some (tt, s') ∧ shows s' (p_put t 10) ∧ redrawn (shown (p_put t 10)) s'.
Proof.
  intros Hsh Ht. rewrite putchar_screen by done. cbn [Z.eqb Pos.eqb].
  destruct (put_newline_run s t Hsh) as (s1 & E & Hsh1 & _ & Hd). unfold bind. rewrite E.
  eexists. split; [done|]. split; [exact Hsh1|exact Hd].
Qed.

(** The console after [console_init]. *)
Definition clean_text : gmap Z Z := list_to_map (zip (seqZ 0 16000) (replicate (Z.to_nat 16000) 32)).
Definition clean_console : console :=
  mkConsole clean_text 0 0 0 0xFFC0C0C0 0xFF0A0A1A 1 None None 0 ∅ 0xFF0A0A1A [].

Lemma clean_shows : shows clean_console (mkPage [] []).
Proof.
  split_and!; [|done|done|cbn; lia|done]. intros i j Hi Hj. cbn [c_text clean_console]. unfold clean_text.
  rewrite shown_blank by (change (p_row (mkPage [] [])) with 0; cbn; lia). apply elem_of_list_to_map.
  - rewrite fst_zip by (rewrite length_seqZ, length_replicate; lia). apply NoDup_seqZ.
  - apply list_elem_of_lookup. exists (Z.to_nat (i * 80 + j)). apply lookup_zip_Some. split.
    + apply lookup_seqZ. lia.
    + apply lookup_replicate. split; [done|lia].
Qed.

Lemma newline_redraws_witness :
  ∃ s', console_putchar 10 clean_console = Some (tt, s') ∧ shows s' (p_put (mkPage [] []) 10) ∧
    redrawn (shown (p_put (mkPage [] []) 10)) s'.
Proof. apply (newline_redraws clean_console (mkPage [] []) clean_shows). left. reflexivity. Defined.

(** A character that wraps on the bottom line scrolls the text up by one row
    but draws only the bottom row: on the 44 rows above, the text is now that of
    the row below and the screen still shows what it showed. *)
Theorem wrap_leaves_screen (s : console) (t : page) (b : Z) :
  shows s t → on_screen s → 32 ≤ b → (44 ≤ length (p_done t))%nat → length (p_cur t) = 80%nat →
  ∃ s', console_putchar b s = Some (tt, s') ∧
    ∀ r c, 0 ≤ r < 44 → 0 ≤ c < 80 →
      c_text s' !! (r * 80 + c) = c_text s !! ((r + 1) * 80 + c) ∧
      c_screen s' !! (c * 8, r * 16) = c_screen s !! (c * 8, r * 16).
Proof.
  intros Hsh Ht Hb HD Hl. rewrite putchar_screen by done. replace (b =? 10) with false by lia.
  replace (b =? 8) with false by lia. replace (32 <=? b) with true by lia.
  destruct (put_glyph_run s t b Hsh Hb) as (s1 & E & (Hc1 & _) & _ & Hscr). unfold bind. rewrite E.
  eexists. split; [done|]. intros r c Hr Hc. cbn [c_text c_screen set_serial].
  assert (Hput : p_put t b = mkPage (p_done t ++ [p_cur t]) [b]).
  { unfold p_put. replace (b =? 10) with false by lia. replace (b =? 8) with false by lia.
    replace (32 <=? b) with true by lia. by rewrite decide_False by lia. }
  assert (Hrow : p_row (p_put t b) = 44) by (rewrite Hput; unfold p_row; cbn [p_done]; rewrite length_app; simpl; lia).
  split; [|by apply Hscr; [|lia]]. rewrite Hc1 by lia. destruct Hsh as (Hc0 & _). rewrite Hc0 by lia. f_equal.
  rewrite Hput. rewrite (shown_line _ [] _ 0 b) by (lia || (intros [|[|j]]; done)).
  unfold upd. rewrite decide_False.
  - rewrite shown_newline by lia. by rewrite decide_False by lia.
  - rewrite Hput in Hrow. unfold p_row in *. cbn [p_done] in *. lia.
Qed.

Definition full_text : list Z := replicate 44 10 ++ replicate 80 65.

Lemma wrap_leaves_screen_witness :
  ∃ s t, shows s t ∧ length (p_cur t) = 80%nat ∧
  ∃ s', console_putchar 66 s = Some (tt, s') ∧
    ∀ r c, 0 ≤ r < 44 → 0 ≤ c < 80 →
      c_text s' !! (r * 80 + c) = c_text s !! ((r + 1) * 80 + c) ∧
      c_screen s' !! (c * 8, r * 16) = c_screen s !! (c * 8, r * 16).
Proof.
  destruct (write_run full_text clean_console (mkPage [] []) clean_shows (or_introl eq_refl)) as (s & _ & Hsh & Ht & _).
  exists s, (fold_left p_put full_text (mkPage [] [])). split; [exact Hsh|]. split; [reflexivity|].
  apply (wrap_leaves_screen s (fold_left p_put full_text (mkPage [] [])) 66 Hsh Ht); [lia| |reflexivity].
  vm_compute. lia.
Defined.

(** ** Redirected output *)

(** The buffer has [max] bytes. *)
Definition buffer (b : gmap Z Z) (max : Z) : Prop := ∀ k, 0 ≤ k < max → is_Some (b !! k).

Lemma buffer_insert b max k x : buffer b max → buffer (<[k := x]> b) max.
Proof. intros Hb i Hi. rewrite lookup_insert. case_decide; [done|]. by apply Hb. Qed.

(** What the buffer holds after [text] was appended at [len]. *)
Fixpoint append (b : gmap Z Z) (len : Z) (text : list Z) : gmap Z Z :=
  match text with [] => b | c :: text' => append (<[len + 1 := 0]> (<[len := c]> b)) (len + 1) text' end.

Lemma append_before text : ∀ b len k, k < len → append b len text !! k = b !! k.
Proof.
  induction text as [|c text IH]; intros b len k Hk; [done|]. simpl. rewrite IH by lia.
  by rewrite !lookup_insert_ne by lia.
Qed.

Lemma append_after text : ∀ b len k, len + Z.of_nat (length text) < k → append b len text !! k = b !! k.
Proof.
  induction text as [|c text IH]; intros b len k Hk; [done|]. simpl in *. rewrite IH by lia.
  by rewrite !lookup_insert_ne by lia.
Qed.

Lemma append_text text : ∀ b len j c, text !! j = Some c → append b len text !! (len + Z.of_nat j) = Some c.
Proof.
  induction text as [|x text IH]; intros b len [|j] c Hj; simpl in *; [done|done| |].
  - injection Hj as ->. rewrite append_before by lia. rewrite lookup_insert_ne by lia.
    by rewrite Z.add_0_r, lookup_insert_eq.
  - replace (len + Z.of_nat (S j)) with (len + 1 + Z.of_nat j) by lia. by apply IH.
Qed.

Lemma append_end text : ∀ b len, text ≠ [] → append b len text !! (len + Z.of_nat (length text)) = Some 0.
Proof.
  induction text as [|x text IH]; intros b len Hne; [done|]. simpl.
  replace (len + Z.of_nat (S (length text))) with (len + 1 + Z.of_nat (length text)) by lia.
  destruct text as [|y text]; [simpl; by rewrite Z.add_0_r, lookup_insert_eq|]. by apply IH.
Qed.

Lemma put_term_run cs : ∀ s b len max,
  term_out_buf s = Some b → term_out_len s = Some len → term_out_max s = max → buffer b max → 0 ≤ len < max →
  let text := take (Z.to_nat (max - 1 - len)) cs in
  ∃ s', console_write cs s = Some (tt, s') ∧ term_out_buf s' = Some (append b len text) ∧
    term_out_len s' = Some (len + Z.of_nat (length text)) ∧ c_text s' = c_text s ∧ c_serial s' = c_serial s ++ cs.
Proof.
  induction cs as [|c cs IH]; intros s b len max Hb Hl Hm Hbuf Hlen; cbv zeta.
  { exists s. rewrite take_nil. simpl. rewrite Z.add_0_r, app_nil_r. done. }
  cbn [console_write]. unfold console_putchar, bind, gets. rewrite Hb, Hl. unfold put_term. rewrite Hm.
  destruct (Z.ltb_spec len (max - 1)) as [Hlt|Hge].
  - destruct (Hbuf len) as [x Ex]; [lia|]. destruct (Hbuf (len + 1)) as [y Ey]; [lia|]. rewrite Ex, Ey. cbn [serial_putc modify].
    destruct (IH (set_serial (c_serial s ++ [c]) (set_term (Some (<[len + 1 := 0]> (<[len := c]> b))) (Some (len + 1)) max s))
      (<[len + 1 := 0]> (<[len := c]> b)) (len + 1) max) as (s' & E & H1 & H2 & H3 & H4); [done|done|done|by do 2 apply buffer_insert|lia|].
    exists s'. replace (Z.to_nat (max - 1 - len)) with (S (Z.to_nat (max - 1 - (len + 1)))) by lia. simpl.
    split_and!; [exact E|exact H1|rewrite H2; f_equal; lia|exact H3|rewrite H4; cbn; by rewrite <- app_assoc].
  - cbn [serial_putc modify]. destruct (IH (set_serial (c_serial s ++ [c]) s) b len max) as (s' & E & H1 & H2 & H3 & H4); [done..|lia|].
    exists s'. replace (Z.to_nat (max - 1 - len)) with 0%nat in * by lia. simpl in *.
    split_and!; [exact E|exact H1|exact H2|exact H3|rewrite H4; cbn; by rewrite <- app_assoc].
Qed.

(** With the output redirected to a buffer of [max] bytes, writing a text
    appends as much of it as fits, ended by a zero, changes no byte before the
    old length or from [max] on and leaves the screen's text alone; the serial
    port gets all of it. *)
Theorem redirect_stays_in_buffer (s : console) (b : gmap Z Z) (len max : Z) (cs : list Z) :
  buffer b max → 0 ≤ len < max → b !! len = Some 0 →
  let text := take (Z.to_nat (max - 1 - len)) cs in
  ∃ s' b', (console_set_output_buffer (Some b) (Some len) max ;! console_write cs) s = Some (tt, s') ∧
    term_out_buf s' = Some b' ∧ term_out_len s' = Some (len + Z.of_nat (length text)) ∧
    (∀ j c, text !! j = Some c → b' !! (len + Z.of_nat j) = Some c) ∧
    b' !! (len + Z.of_nat (length text)) = Some 0 ∧
    (∀ k, k < len ∨ max ≤ k → b' !! k = b !! k) ∧ c_text s' = c_text s ∧ c_serial s' = c_serial s ++ cs.
Proof.
  intros Hbuf Hlen H0. cbv zeta. set (text := take _ cs).
  destruct (put_term_run cs (set_term (Some b) (Some len) max s) b len max eq_refl eq_refl eq_refl Hbuf Hlen)
    as (s' & E & H1 & H2 & H3 & H4). fold text in H1, H2. exists s', (append b len text).
  assert (Hfit : Z.of_nat (length text) ≤ max - 1 - len) by (unfold text; rewrite length_take; lia).
  split_and!; [exact E|done|done|intros; by apply append_text| | |exact H3|exact H4].
  - destruct (decide (text = [])) as [Hn|Hn]; [rewrite Hn; simpl; by rewrite Z.add_0_r|by apply append_end].
  - intros k [Hk|Hk]; [by apply append_before|]. apply append_after. lia.
Qed.

Definition demo_buffer : gmap Z Z := list_to_map (zip (seqZ 0 4) (replicate 4 0)).

Lemma redirect_stays_in_buffer_witness :
  ∃ s' b', (console_set_output_buffer (Some demo_buffer) (Some 1) 4 ;! console_write [65; 66; 67; 68]) clean_console = Some (tt, s') ∧
    term_out_buf s' = Some b' ∧ term_out_len s' = Some 3 ∧ b' !! 3 = Some 0.
Proof.
  assert (Hb : buffer demo_buffer 4).
  { intros k Hk. assert (k = 0 ∨ k = 1 ∨ k = 2 ∨ k = 3) as [-> |[-> |[-> | ->]]] by lia; vm_compute; eauto. }
  destruct (redirect_stays_in_buffer clean_console demo_buffer 1 4 [65; 66; 67; 68] Hb ltac:(lia) eq_refl)
    as (s' & b' & E & H1 & H2 & _ & H3 & _).
  exists s', b'. split; [exact E|]. split; [exact H1|]. split; [exact H2|exact H3].
Defined.

(** ** Formatted output *)

Lemma rev_digits_zero n b g acc : rev_digits n b g 0 acc = acc.
Proof. by destruct n. Qed.

Lemma rev_digits_text n b g v acc :
  2 ≤ b → 0 < v < b ^ Z.of_nat n → rev_digits n b g v acc = map g (digits n b v) ++ acc.
Proof.
  intros Hb. revert v acc. induction n as [|n IH]; intros v acc Hv; [change (b ^ Z.of_nat 0) with 1 in Hv; lia|].
  rewrite Nat2Z.inj_succ, Z.pow_succ_r in Hv by lia. simpl. replace (0 <? v) with true by lia.
  destruct (Z.ltb_spec v b) as [Hlt|Hge].
  - rewrite Z.div_small, Z.mod_small by lia. by rewrite rev_digits_zero.
  - rewrite IH, map_app, <- app_assoc; [done|].
    split; [apply Z.div_str_pos; lia|apply Z.div_lt_upper_bound; lia].
Qed.

Lemma tmp_text b g v :
  2 ≤ b → 0 ≤ v < 2 ^ 32 → 2 ^ 32 ≤ b ^ 16 → g 0 = 48 →
  rev_digits 16 b g v (if v =? 0 then [48] else []) = map g (digits 24 b v).
Proof.
  intros Hb Hv Hpow H0. destruct (Z.eqb_spec v 0) as [-> |Hne].
  - cbn [rev_digits digits Z.ltb Z.compare]. replace (0 <? b) with true by lia. cbn [map]. by rewrite H0.
  - rewrite rev_digits_text, app_nil_r by (change (Z.of_nat 16) with 16; lia).
    rewrite (digits_fuel 16 8); [done|done|change (Z.of_nat 16) with 16; lia|lia].
Qed.

Lemma dec_tmp_text v : 0 ≤ v < 2 ^ 32 → dec_tmp v = dec_text v.
Proof. intros Hv. apply (tmp_text 10 dec_char); [lia|done|lia|done]. Qed.

Lemma hex_tmp_text v : 0 ≤ v < 2 ^ 32 → hex_tmp v = hex_text v.
Proof.
  intros Hv. unfold hex_tmp. rewrite (tmp_text 16 low_hex) by (lia || done). unfold hex_text. apply map_ext.
  intros d. unfold low_hex, Stdio.hex_char. case_match; lia.
Qed.

(** The text of one conversion, and the arguments left. *)
Definition piece (k : Z) (args : list parg) : option (list Z * list parg) :=
  if k =? 115 then match args with PStr t :: args => Some (t, args) | _ => None end
  else if k =? 100 then match args with PInt v :: args => Some (sdec_text (s32 v), args) | _ => None end
  else if (k =? 120) || (k =? 88) then
    match args with PInt v :: args => Some ([48; 120] ++ hex_text (u32 v), args) | _ => None end
  else Some ([], args).

(** The text of a format and its arguments. *)
Fixpoint p_render (fmt : list Z) (args : list parg) : option (list Z) :=
  match fmt with
  | [] => Some []
  | c :: fmt' =>
      if negb (c =? 37) then (c ::.) <$> p_render fmt' args else
      match fmt' with
      | [] => None
      | k :: fmt'' =>
          match piece k args with Some (t, args') => (t ++.) <$> p_render fmt'' args' | None => None end
      end
  end.

(** Every [int] but the smallest has a negation. *)
Definition negatable (a : parg) : Prop := match a with PInt v => s32 v ≠ - 2 ^ 31 | _ => True end.

Lemma emits_run bs : ∀ out s, Z.of_nat (length (out ++ bs)) < 256 → emits out bs s = Some (out ++ bs, s).
Proof.
  induction bs as [|b bs IH]; intros out s Hl; [by rewrite app_nil_r|]. rewrite length_app in Hl. simpl in Hl.
  cbn [emits]. unfold emit, bind. replace (Z.of_nat (length out) <? 256) with true by lia. cbn [assert_ skip ret].
  rewrite IH; [by rewrite <- app_assoc|]. rewrite !length_app. simpl. lia.
Qed.

Lemma conversion_run k args out t args' s :
  piece k args = Some (t, args') → Forall negatable args → Z.of_nat (length (out ++ t)) < 250 →
  printf_conversion k args out s = Some ((out ++ t, args'), s) ∧ Forall negatable args'.
Proof.
  unfold piece. intros Hk Hn Hl. unfold printf_conversion. rewrite length_app in Hl.
  destruct (k =? 115); [|destruct (k =? 100); [|destruct ((k =? 120) || (k =? 88))]].
  - destruct args as [|[t0|v] args]; [done| |done]. injection Hk as -> ->. apply Forall_cons in Hn as [_ Hn].
    unfold bind. rewrite emits_run by (rewrite length_app; lia). done.
  - destruct args as [|[t0|v] args]; [done|done|]. injection Hk as <- ->. apply Forall_cons in Hn as [Hv Hn].
    simpl in Hv. unfold sdec_text in *. pose proof (s32_range v) as Hr. split; [|done].
    destruct (Z.ltb_spec (s32 v) 0) as [Hneg|Hpos]; unfold bind at 1.
    + cbn [length] in Hl. unfold bind at 1, emit, bind at 1. replace (Z.of_nat (length out) <? 256) with true by lia.
      cbn [assert_ skip ret]. rewrite (s32_small (- s32 v)), dec_tmp_text by lia.
      unfold bind. rewrite emits_run by (rewrite !length_app; simpl; lia). by rewrite <- app_assoc.
    + cbn [ret]. rewrite dec_tmp_text by lia. unfold bind. by rewrite emits_run by (rewrite length_app; lia).
  - destruct args as [|[t0|v] args]; [done|done|]. injection Hk as <- ->. apply Forall_cons in Hn as [_ Hn].
    cbn [length app] in Hl. split; [|done].
    rewrite hex_tmp_text by apply u32_range. unfold bind. rewrite emits_run by (rewrite length_app; simpl; lia).
    rewrite emits_run by (rewrite !length_app; simpl; lia). by rewrite <- app_assoc.
  - injection Hk as <- ->. by rewrite app_nil_r.
Qed.

Lemma printf_fmt_run n : ∀ fmt args out0 out s,
  (length fmt ≤ n)%nat → p_render fmt args = Some out → Forall negatable args →
  Z.of_nat (length (out0 ++ out)) < 250 → printf_fmt fmt args out0 s = Some (out0 ++ out, s).
Proof.
  induction n as [|n IH]; intros fmt args out0 out s Hf Hr Hn Hl.
  { destruct fmt; [|simpl in Hf; lia]. injection Hr as <-. by rewrite app_nil_r. }
  destruct fmt as [|c fmt']; [injection Hr as <-; by rewrite app_nil_r|]. simpl in Hf.
  destruct (decide (c = 37)) as [-> |Hc].
  - destruct fmt' as [|k fmt'']; [done|]. simpl in Hf. rewrite length_app in Hl.
    cbn [p_render negb Z.eqb Pos.eqb] in Hr. destruct (piece k args) as [[t args']|] eqn:Hk; [|done].
    destruct (p_render fmt'' args') as [rest|] eqn:Hrest; [|done]. injection Hr as <-. rewrite length_app in Hl.
    destruct (conversion_run k args out0 t args' s Hk Hn) as (E & Hn'); [rewrite length_app; lia|].
    cbn [printf_fmt negb Z.eqb Pos.eqb]. unfold bind. rewrite E.
    replace (250 <=? Z.of_nat (length (out0 ++ t))) with false by (symmetry; apply Z.leb_gt; rewrite length_app; lia).
    rewrite (IH fmt'' args' (out0 ++ t) rest); [by rewrite <- app_assoc|lia|done|done|]. rewrite !length_app. lia.
  - assert (Hb : negb (c =? 37) = true) by lia. cbn [p_render] in Hr. rewrite Hb in Hr.
    destruct (p_render fmt' args) as [rest|] eqn:Hrest; [|done]. injection Hr as <-.
    rewrite length_app in Hl. simpl in Hl. cbn [printf_fmt]. rewrite Hb. unfold emit, bind.
    replace (Z.of_nat (length out0) <? 256) with true by lia. cbn [assert_ skip ret].
    rewrite (IH fmt' args (out0 ++ [c]) rest); [by rewrite <- app_assoc|lia|done|done|].
    rewrite !length_app. simpl. lia.
Qed.

(** [console_printf] writes the text its format and arguments stand for
    (strings, decimal and hexadecimal numbers, conversions it does not know left
    out), for every text of less than 250 characters and every [int] but the
    smallest. *)
Theorem console_printf_writes (fmt : list Z) (args : list parg) (out : list Z) (s : console) :
  p_render fmt args = Some out → Forall negatable args → Z.of_nat (length out) < 250 →
  console_printf fmt args s = console_write out s.
Proof.
  intros Hr Hn Hl. unfold console_printf, bind at 1.
  rewrite (printf_fmt_run (length fmt) fmt args [] out s) by done. unfold bind.
  by replace (Z.of_nat (length ([] ++ out)) <? 256) with true by (simpl; lia).
Qed.

(** "a%d %x" *)
Lemma console_printf_writes_witness :
  console_printf [97; 37; 100; 32; 37; 120] [PInt (-17); PInt 255] clean_console =
  console_write [97; 45; 49; 55; 32; 48; 120; 102; 102] clean_console.
Proof.
  apply (console_printf_writes [97; 37; 100; 32; 37; 120] [PInt (-17); PInt 255] [97; 45; 49; 55; 32; 48; 120; 102; 102]).
  - vm_compute. reflexivity.
  - repeat (apply Forall_cons; split); [vm_compute; congruence|vm_compute; congruence|apply Forall_nil_2].
  - vm_compute. reflexivity.
Defined.

(** The smallest [int] is printed as a sign alone. *)
Lemma printf_smallest_int s : console_printf [37; 100] [PInt (- 2 ^ 31)] s = console_write [45] s.
Proof. reflexivity. Qed.

Lemma printf_plain fmt : ∀ out s, Forall (λ c, c ≠ 37) fmt →
  printf_fmt fmt [] out s = if decide (Z.of_nat (length (out ++ fmt)) ≤ 256) then Some (out ++ fmt, s) else
    if decide (256 < Z.of_nat (length out)) then printf_fmt fmt [] out s else None.
Proof.
  induction fmt as [|c fmt IH]; intros out s Hf; [rewrite app_nil_r; repeat case_decide; done || lia|].
  apply Forall_cons in Hf as [Hc Hf]. rewrite length_app. simpl length. case_decide as Hd.
  - cbn [printf_fmt]. replace (negb (c =? 37)) with true by lia. unfold emit, bind.
    replace (Z.of_nat (length out) <? 256) with true by lia. cbn [assert_ skip ret].
    rewrite IH by done. rewrite decide_True by (rewrite !length_app; simpl; lia). by rewrite <- app_assoc.
  - case_decide as Hd2; [done|]. cbn [printf_fmt]. replace (negb (c =? 37)) with true by lia. unfold emit, bind.
    destruct (Z.ltb_spec (Z.of_nat (length out)) 256); [|done]. cbn [assert_ skip ret].
    rewrite IH by done. rewrite !decide_False; [done|rewrite !length_app; simpl; lia..].
Qed.

(** [console_printf] does not bound the characters outside conversions: a
    format of 256 or more of them writes past the end of its buffer. *)
Theorem console_printf_overruns (fmt : list Z) (s : console) :
  Forall (λ c, c ≠ 37) fmt → 256 ≤ Z.of_nat (length fmt) → console_printf fmt [] s = None.
Proof.
  intros Hf Hl. unfold console_printf, bind at 1. rewrite printf_plain by done. simpl.
  case_decide; [|done]. unfold bind.
  by replace (Z.of_nat (length fmt) <? 256) with false by lia.
Qed.

Lemma console_printf_overruns_witness : console_printf (replicate 256 65) [] clean_console = None.
Proof. apply (console_printf_overruns (replicate 256 65)); [apply Forall_replicate; lia|vm_compute; congruence]. Defined.
