(* ===== verification/UserStack.v ===== *)
(** * UserStack: the stack a new program starts on

    [setup_linux_user_stack] of [OvsbMk/kernel/process.c], which lays out the
    argument and environment strings, the auxiliary vector and the two vectors of
    pointers below the top of the stack, and the copy of the caller's vectors that
    [execve] in [OvsbMk/kernel/syscall.c] makes first.  Memory is a map of bytes;
    the stack is written with no regard to alignment, a word being eight bytes in
    little-endian order.  The local arrays [str_ptrs\[8\]] and [env_ptrs\[8\]] are
    lists; a store to a ninth place has no result. *)

From Stdlib Require Import ZArith Lia.
From stdpp Require Import gmap list prelude.
From S2P Require Import Prelude Libc LibcAlloc.

(** ** The stack *)

(** [while (s\[len\]) len++;] *)
Definition scan (s : Z) : L Z :=
  while_ (λ len, let! c := lb (s + len) in ret (if nz c then inl (len + 1) else inr len)) 0.

(** [sp -= len + 1; for (j = 0; j <= len; j++) sp\[j\] = s\[j\];]; a null pointer
    stands for the empty string. *)
Definition push_string (sp s : Z) : L Z :=
  if nz s then
    let! len := scan s in
    let sp := sp - (len + 1) in
    for_up (Z.to_nat (len + 1)) 0 (λ j, let! c := lb (s + j) in sb (sp + j) c) ;!
    ret sp
  else
    let sp := sp - 1 in
    sb sp 0 ;!
    ret sp.

(** The loops over [argv] and [envp], the last string first; the addresses of the
    strings, the first one first. *)
Fixpoint push_strings (n : nat) (v sp : Z) (ptrs : list Z) : L (Z * list Z) :=
  match n with
  | O => ret (sp, ptrs)
  | S i =>
      let! s := (if nz v then lw (v + 8 * Z.of_nat i) else ret 0) in
      let! sp := push_string sp s in
      assert_ (Z.of_nat i <? 8) ;!
      push_strings i v sp (sp :: ptrs)
  end.

(** [*--sp = w;] *)
Definition push (sp w : Z) : L Z := sw (sp - 8) w ;! ret (sp - 8).

Fixpoint pushes (sp : Z) (ws : list Z) : L Z :=
  match ws with [] => ret sp | w :: ws' => let! sp := push sp w in pushes sp ws' end.

Definition setup_linux_user_stack
    (user_stack_top phdr phent phnum elf_base argv argc envp envc : Z) : L Z :=
  let sp := user_stack_top in
  let! r := push_strings (Z.to_nat argc) argv sp [] in
  let '(sp, str_ptrs) := r in
  let! r := push_strings (Z.to_nat envc) envp sp [] in
  let '(sp, env_ptrs) := r in
  let sp := sp - 16 in
  sw sp 0xBAADF00DBEEFCACE ;!
  sw (sp + 8) 0xDEADBEEFCAFEBABE ;!
  let random_addr := sp in
  let! sp := pushes sp [0; 0] in
  let! sp := (if nz phnum then pushes sp [phdr; 3; phent; 4; phnum; 5] else ret sp) in
  let! sp := pushes sp [0; 23; 0x1000; 6; elf_base; 7; random_addr; 15] in
  let! sp := pushes sp (rev env_ptrs) in
  let! sp := push sp 0 in
  if (0 <? argc) && nz argv then
    let! sp := push sp 0 in
    let! sp := pushes sp (rev str_ptrs) in
    push sp (u64 argc)
  else pushes sp [0; 0].

Definition setup_linux_user_stack_dyn
    (user_stack_top phdr phent phnum elf_base argv argc envp envc interp_base main_entry is_dynamic : Z) : L Z :=
  let at_base := if nz is_dynamic then interp_base else elf_base in
  setup_linux_user_stack user_stack_top phdr phent phnum at_base argv argc envp envc.

(** ** The vectors [execve] copies *)

(** [while (s\[j\] && j < 255) { dst\[j\] = s\[j\]; j++; } dst\[j\] = 0;] *)
Definition copy_arg (dst s : Z) : L unit :=
  let! j := while_ (λ j,
    let! c := lb (s + j) in
    if nz c && (j <? 255) then sb (dst + j) c ;! ret (inl (j + 1)) else ret (inr j)) 0 in
  sb (dst + j) 0.

(** [if (uv) while (k < max && uv\[k\]) ...; kv\[k\] = 0;] with the strings in rows
    of 256 bytes from [ks] on: the number of strings copied. *)
Definition copy_vector (max uv ks kv : Z) : L Z :=
  let! k :=
    (if nz uv then
       while_ (λ k,
         if k <? max then
           let! s := lw (uv + 8 * k) in
           if nz s then
             copy_arg (ks + 256 * k) s ;!
             sw (kv + 8 * k) (ks + 256 * k) ;!
             ret (inl (k + 1))
           else ret (inr k)
         else ret (inr k)) 0
     else ret 0) in
  sw (kv + 8 * k) 0 ;!
  ret k.

(** The static arrays of [execve]. *)
Class ExecArea := { kargs : Z; kargv : Z; kenvs : Z; kenvp : Z }.

(** Steps 1 and 8 of [execve]: copy the vectors, later build the stack. *)
Definition execve_vectors `{ExecArea} (uargv uenvp : Z) : L (Z * Z) :=
  let! kargc := copy_vector 16 uargv kargs kargv in
  let! kenvc := copy_vector 32 uenvp kenvs kenvp in
  ret (kargc, kenvc).

Definition execve_stack `{ExecArea} (newtop elf_phdr phentsize phnum elf_base uargv uenvp : Z) : L Z :=
  let! r := execve_vectors uargv uenvp in
  let '(kargc, kenvc) := r in
  setup_linux_user_stack newtop elf_phdr phentsize phnum elf_base kargv kargc kenvp kenvc.
