(* ===== verification/UserStackProof.v ===== *)
(** * UserStackProof: what a program finds on its stack

    [setup_linux_user_stack] lays out exactly the image below, inside the stack
    and nowhere else; a program that reads the image finds its arguments, its
    environment and the auxiliary vector.  More than eight strings overrun the
    local arrays, and [execve] passes up to sixteen. *)

From Stdlib Require Import ZArith Lia.
From stdpp Require Import gmap list prelude.
From S2P Require Import Prelude Libc LibcProof LibcAlloc LibcAllocProof UserStack.

Implicit Types m : gmap Z Z.
Implicit Types ss : list (list Z).

(** ** The image *)

Definition strings ss : list Z := concat (map (λ l, l ++ [0]) ss).
Definition words (ws : list Z) : list Z := concat (map (le_bytes 8) ws).

(** The addresses of strings laid out one after the other. *)
Fixpoint addrs (a : Z) ss : list Z :=
  match ss with [] => [] | l :: ss' => a :: addrs (a + Z.of_nat (length l) + 1) ss' end.

Definition auxv (phdr phent phnum base random : Z) : list (Z * Z) :=
  [(15, random); (7, base); (6, 0x1000); (23, 0)] ++
  if nz phnum then [(5, phnum); (4, phent); (3, phdr)] else [].

Definition flat (ps : list (Z * Z)) : list Z := concat (map (λ '(k, v), [k; v]) ps).

Definition random_bytes : list Z := words [0xBAADF00DBEEFCACE; 0xDEADBEEFCAFEBABE].

Section image.
Context (top phdr phent phnum base : Z) (args envs : list (list Z)).

Definition random_at : Z := top - Z.of_nat (length (strings envs ++ strings args)) - 16.
Definition env_at : list Z := addrs (random_at + 16) envs.
Definition arg_at : list Z := addrs (random_at + 16 + Z.of_nat (length (strings envs))) args.

Definition start_words : list Z :=
  [Z.of_nat (length args)] ++ arg_at ++ [0] ++ [0] ++ env_at ++
  flat (auxv phdr phent phnum base random_at) ++ [0; 0].

Definition image : list Z := words start_words ++ random_bytes ++ strings envs ++ strings args.
End image.

Lemma strings_app s1 s2 : strings (s1 ++ s2) = strings s1 ++ strings s2.
Proof. unfold strings. by rewrite map_app, concat_app. Qed.
Lemma strings_snoc ss l : strings (ss ++ [l]) = strings ss ++ l ++ [0].
Proof. rewrite strings_app. unfold strings. simpl. by rewrite app_nil_r. Qed.
Lemma words_app w1 w2 : words (w1 ++ w2) = words w1 ++ words w2.
Proof. unfold words. by rewrite map_app, concat_app. Qed.
Lemma words_length ws : length (words ws) = (8 * length ws)%nat.
Proof.
  unfold words. induction ws as [|w ws IH]; [done|]. cbn [map concat].
  rewrite length_app, le_bytes_length, IH. simpl. lia.
Qed.

Lemma addrs_app a s1 s2 : addrs a (s1 ++ s2) = addrs a s1 ++ addrs (a + Z.of_nat (length (strings s1))) s2.
Proof.
  revert a. induction s1 as [|l s1 IH]; intros a; simpl; [by rewrite Z.add_0_r|].
  rewrite IH. unfold strings. cbn [map concat]. rewrite !length_app. cbn [length]. do 3 f_equal. lia.
Qed.
Lemma addrs_length a ss : length (addrs a ss) = length ss.
Proof. revert a. induction ss as [|l ss IH]; intros a; simpl; [done|]. by rewrite IH. Qed.

(** Each address is that of its string. *)
Lemma addrs_strings m a ss :
  bytes_at m a (strings ss) → Forall nonzero ss → Forall2 (cstr_at m) (addrs a ss) ss.
Proof.
  revert a. induction ss as [|l ss IH]; intros a Hb Hn; simpl; [constructor|].
  apply Forall_cons in Hn as [Hl Hn]. unfold strings in Hb. simpl in Hb.
  apply bytes_at_app in Hb as [Hb1 Hb2]. constructor; [by split|].
  apply IH; [|done]. rewrite length_app in Hb2. simpl in Hb2. unfold strings.
  by replace (a + Z.of_nat (length l) + 1) with (a + Z.of_nat (length l + 1)) by lia.
Qed.

Lemma addrs_ge a ss : Forall (λ p, a ≤ p) (addrs a ss).
Proof.
  revert a. induction ss as [|l ss IH]; intros a; simpl; constructor; [lia|].
  eapply Forall_impl; [apply IH|]. simpl. lia.
Qed.

Lemma words_bytes ws : bytes (words ws).
Proof.
  unfold words. induction ws as [|w ws IH]; [constructor|]. cbn [map concat].
  apply Forall_app. split; [apply le_bytes_range|exact IH].
Qed.

Lemma pushes_app a b sp st : pushes sp (a ++ b) st = (let! sp := pushes sp a in pushes sp b) st.
Proof.
  revert sp st. induction a as [|w a IH]; intros sp st; [done|]. simpl. unfold bind.
  destruct (push sp w st) as [[sp' st']|]; [|done]. by rewrite IH.
Qed.

(** ** Building it *)

Section build.
Context (s : libc) (low top : Z).
Let m0 := l_mem s.
Hypothesis room : mapped m0 low (top - low).

(** The stack holds [c], down to [sp]. *)
Definition holds_down (sp : Z) (c : list Z) m : Prop :=
  sp = top - Z.of_nat (length c) ∧ wrote m0 sp c m.

Lemma room_below sp c m n :
  holds_down sp c m → 0 ≤ n → low ≤ sp - n → mapped m (sp - n) n.
Proof.
  intros [Hsp Hw] Hn Hl x Hx. rewrite Hw, decide_False by lia. apply room. lia.
Qed.

Lemma holds_front sp c m bs m' :
  holds_down sp c m → filled m (sp - Z.of_nat (length bs)) (Z.of_nat (length bs)) (chr bs) m' →
  holds_down (sp - Z.of_nat (length bs)) (bs ++ c) m'.
Proof.
  intros [Hsp Hw] Hf. split; [rewrite length_app; lia|]. by eapply wrote_front.
Qed.

Lemma push_run sp c m w :
  holds_down sp c m → low ≤ sp - 8 →
  ∃ m', push sp w (set_mem m s) = Some (sp - 8, set_mem m' s) ∧ holds_down (sp - 8) (le_bytes 8 w ++ c) m'.
Proof.
  intros Hh Hl. pose proof (le_bytes_length 8 w) as Hlen.
  destruct (store_bytes_run (set_mem m s) (sp - 8) (le_bytes 8 w)) as (m' & E & Hf).
  { rewrite Hlen. by apply (room_below sp c). }
  { apply le_bytes_range. }
  exists m'. split; [unfold push, bind, sw; by rewrite E|].
  pose proof (holds_front sp c m (le_bytes 8 w) m' Hh) as H. rewrite Hlen in H, Hf. by apply H.
Qed.

Lemma pushes_run ws sp c m :
  holds_down sp c m → low ≤ sp - 8 * Z.of_nat (length ws) →
  ∃ m', pushes sp ws (set_mem m s) = Some (sp - 8 * Z.of_nat (length ws), set_mem m' s) ∧
    holds_down (sp - 8 * Z.of_nat (length ws)) (words (rev ws) ++ c) m'.
Proof.
  revert sp c m. induction ws as [|w ws IH]; intros sp c m Hh Hl; cbn [length] in *.
  - exists m. replace (sp - 8 * Z.of_nat 0) with sp by lia. done.
  - destruct (push_run sp c m w Hh) as (m1 & E1 & H1); [lia|].
    destruct (IH (sp - 8) _ m1 H1) as (m2 & E2 & H2); [lia|].
    exists m2. replace (sp - 8 * Z.of_nat (S (length ws))) with (sp - 8 - 8 * Z.of_nat (length ws)) by lia.
    split; [simpl; unfold bind; by rewrite E1|].
    simpl. rewrite words_app, <- app_assoc. unfold words at 2. simpl. done.
Qed.

(** ** Strings *)

Definition string_arg (p : Z) (l : list Z) : Prop :=
  if nz p then cstr_at m0 p l ∧ Z.of_nat (length l) < 2 ^ 31 ∧ apart low (top - low) p (Z.of_nat (length l) + 1)
  else l = [].

Lemma nonzero_byte l : nonzero l → bytes (l ++ [0]).
Proof.
  intros Hn. apply Forall_app. split; [|by repeat constructor].
  eapply Forall_impl; [exact Hn|]. simpl. lia.
Qed.

Lemma scan_run s1 p l :
  cstr_at (l_mem s1) p l → Z.of_nat (length l) < 2 ^ 31 → scan p s1 = Some (Z.of_nat (length l), s1).
Proof.
  intros Hs Hlen.
  enough (wp (scan p) s1 (λ n s', n = Z.of_nat (length l) ∧ s' = s1)) as (n & s' & E & -> & ->) by done.
  unfold scan.
  eapply (wp_while (λ i s', 0 ≤ i ≤ Z.of_nat (length l) ∧ s' = s1) (λ i _, Z.of_nat (length l) - i));
    [|split; [lia|done]|lia].
  intros i ? [Hi ->]. wp_step. eapply wp_lb; [by apply (cstr_get _ _ l)|]. wp_step.
  destruct (decide (i = Z.of_nat (length l))) as [-> |Hne].
  - rewrite chr_end by lia. done.
  - pose proof (chr_nz l i (proj2 Hs)). destruct (nz (chr l i)) eqn:E; [|apply nz_false in E; lia].
    split; [split; [lia|done]|lia].
Qed.

(** What lies outside the stack is as at the start. *)
Lemma outside sp c m a bs :
  holds_down sp c m → low ≤ sp → apart low (top - low) a (Z.of_nat (length bs)) →
  bytes_at m0 a bs → bytes_at m a bs.
Proof.
  intros [Hsp Hw] Hl Ha Hb i Hi. rewrite Hw, decide_False by (unfold apart in Ha; lia). by apply Hb.
Qed.

Lemma push_string_run sp c m p l :
  holds_down sp c m → string_arg p l → low ≤ sp - (Z.of_nat (length l) + 1) →
  ∃ m', push_string sp p (set_mem m s) = Some (sp - (Z.of_nat (length l) + 1), set_mem m' s) ∧
    holds_down (sp - (Z.of_nat (length l) + 1)) (l ++ [0] ++ c) m'.
Proof.
  intros Hh Hs Hl. unfold push_string, string_arg in *. destruct (nz p).
  - destruct Hs as ([Hb Hn] & Hlen & Ha).
    assert (Hb' : bytes_at m p (l ++ [0])).
    { eapply outside; [done|lia| |done]. rewrite length_app. simpl. unfold apart in *. lia. }
    unfold bind at 1. rewrite (scan_run (set_mem m s) p l) by done.
    assert (Hlen1 : Z.of_nat (length l) + 1 = Z.of_nat (length (l ++ [0]))) by (rewrite length_app; simpl; lia).
    rewrite Hlen1 in *.
    destruct (copy_bytes_run (set_mem m s) (sp - Z.of_nat (length (l ++ [0]))) p (l ++ [0])) as (m' & E & Hf).
    { done. } { by apply nonzero_byte. } { by apply (room_below sp c); [|lia|]. }
    { destruct Hh as [Hsp _]. unfold apart in *. lia. }
    rewrite Nat2Z.id. unfold bind at 1. rewrite E. exists m'. split; [done|].
    rewrite app_assoc. by eapply holds_front.
  - subst l. simpl in *. replace (sp - (0 + 1)) with (sp - 1) in * by lia.
    destruct (store_bytes_run (set_mem m s) (sp - 1) [0]) as (m' & E & Hf).
    { by apply (room_below sp c); [|simpl|]. } { by repeat constructor. }
    simpl in E. unfold bind, skip, ret in E |- *. destruct (sb (sp - 1) 0 (set_mem m s)) as [[[] s1]|]; [|done].
    injection E as ->. exists m'. split; [done|]. by apply (holds_front sp c m [0]).
Qed.

Definition vector (v : Z) ss : Prop :=
  if nz v then
    (∀ i l, ss !! i = Some l → ∃ p, 0 ≤ p < 2 ^ 64 ∧ word_at m0 (v + 8 * Z.of_nat i) p ∧ string_arg p l) ∧
    apart low (top - low) v (8 * Z.of_nat (length ss))
  else Forall (λ l, l = []) ss.

(** The pointer in slot [i] of a vector. *)
Lemma vector_get sp c m v ss i l :
  holds_down sp c m → low ≤ sp → vector v ss → ss !! i = Some l →
  ∃ p, string_arg p l ∧
    (if nz v then lw (v + 8 * Z.of_nat i) else ret 0) (set_mem m s) = Some (p, set_mem m s).
Proof.
  intros Hh Hl Hv Hi. unfold vector in Hv. destruct (nz v).
  - destruct Hv as [Hv Ha]. destruct (Hv i l Hi) as (p & Hp & Hw & Hs). exists p. split; [done|].
    apply lw_run; [|done]. eapply outside; [done|done| |done].
    apply lookup_lt_Some in Hi. rewrite le_bytes_length. unfold apart in *. lia.
  - exists 0. split; [|done]. by apply (Forall_lookup_1 _ _ _ _ Hv Hi).
Qed.

Lemma push_strings_run n v ss sp c m ptrs :
  holds_down sp c m → vector v ss → (n ≤ length ss)%nat → (n ≤ 8)%nat →
  low ≤ sp - Z.of_nat (length (strings (take n ss))) →
  ∃ m', push_strings n v sp ptrs (set_mem m s) =
      Some ((sp - Z.of_nat (length (strings (take n ss))),
             addrs (sp - Z.of_nat (length (strings (take n ss)))) (take n ss) ++ ptrs), set_mem m' s) ∧
    holds_down (sp - Z.of_nat (length (strings (take n ss)))) (strings (take n ss) ++ c) m'.
Proof.
  revert sp c m ptrs. induction n as [|n IH]; intros sp c m ptrs Hh Hv Hn Hn8 Hl.
  - exists m. rewrite take_0. replace (sp - Z.of_nat (length (strings []))) with sp by (simpl; lia). done.
  - destruct (lookup_lt_is_Some_2 ss n) as [l El]; [lia|].
    rewrite (take_S_r _ _ _ El), strings_snoc, !length_app in *. cbn [length] in *.
    destruct (vector_get sp c m v ss n l) as (p & Hp & Ep); [done|lia|done|done|].
    destruct (push_string_run sp c m p l) as (m1 & E1 & H1); [done|done|lia|].
    set (sp1 := sp - (Z.of_nat (length l) + 1)) in *.
    destruct (IH sp1 (l ++ [0] ++ c) m1 (sp1 :: ptrs)) as (m2 & E2 & H2); [done|done|lia|lia|lia|].
    exists m2. assert (Hsp : sp1 - Z.of_nat (length (strings (take n ss))) =
      sp - Z.of_nat (length (strings (take n ss)) + (length l + 1))) by lia.
    rewrite Hsp in E2, H2. rewrite addrs_app. simpl addrs at 2.
    replace (sp - _ + _) with sp1 by lia. rewrite <- !app_assoc in *. split; [|done].
    cbn [push_strings]. unfold bind at 1. rewrite Ep. unfold bind at 1. rewrite E1.
    unfold bind. replace (Z.of_nat n <? 8) with true by lia. cbn [assert_ skip ret]. by rewrite E2.
Qed.

(** The two words of [AT_RANDOM], the lower one first. *)
Lemma random_run sp c m :
  holds_down sp c m → low ≤ sp - 16 →
  ∃ m', (sw (sp - 16) 0xBAADF00DBEEFCACE ;! sw (sp - 16 + 8) 0xDEADBEEFCAFEBABE) (set_mem m s) =
      Some (tt, set_mem m' s) ∧ holds_down (sp - 16) (random_bytes ++ c) m'.
Proof.
  intros Hh Hl. destruct (store_bytes_run (set_mem m s) (sp - 16) random_bytes) as (m' & E & Hf).
  { by apply (room_below sp c). } { apply words_bytes. }
  exists m'. split; [|by apply (holds_front sp c m random_bytes)].
  change random_bytes with (le_bytes 8 0xBAADF00DBEEFCACE ++ le_bytes 8 0xDEADBEEFCAFEBABE) in E.
  rewrite store_bytes_app in E. exact E.
Qed.
End build.

(** ** The whole stack *)

Section setup.
Context (s : libc) (low top phdr phent phnum base argv envp : Z) (args envs : list (list Z)).
Hypothesis room : mapped (l_mem s) low (top - low).
Hypothesis args_at : vector s low top argv args.
Hypothesis envs_at : vector s low top envp envs.
Hypothesis argv_null : nz argv = false → args = [].
Hypothesis few : (length args ≤ 8)%nat ∧ (length envs ≤ 8)%nat.

(** Below the strings the code pushes the words of the image, the last one first. *)
Lemma tail_pushes sp random ap ep st :
  (let! sp := pushes sp [0; 0] in
   let! sp := (if nz phnum then pushes sp [phdr; 3; phent; 4; phnum; 5] else ret sp) in
   let! sp := pushes sp [0; 23; 0x1000; 6; base; 7; random; 15] in
   let! sp := pushes sp (rev ep) in
   let! sp := push sp 0 in
   if (0 <? Z.of_nat (length args)) && nz argv then
     let! sp := push sp 0 in
     let! sp := pushes sp (rev ap) in
     push sp (u64 (Z.of_nat (length args)))
   else pushes sp [0; 0]) st =
  pushes sp (rev ([Z.of_nat (length args)] ++ (if decide (args = []) then [] else ap) ++ [0] ++ [0] ++ ep ++
    flat (auxv phdr phent phnum base random) ++ [0; 0])) st.
Proof.
  assert (Hrev : ∀ ap, rev ([Z.of_nat (length args)] ++ ap ++ [0] ++ [0] ++ ep ++
      flat (auxv phdr phent phnum base random) ++ [0; 0]) =
    [0; 0] ++ (if nz phnum then [phdr; 3; phent; 4; phnum; 5] else []) ++
    [0; 23; 0x1000; 6; base; 7; random; 15] ++ rev ep ++ [0] ++ [0] ++ rev ap ++ [Z.of_nat (length args)]).
  { intros ap'. rewrite !rev_app_distr. unfold auxv. destruct (nz phnum); simpl; by rewrite <- ?app_assoc. }
  rewrite Hrev. clear Hrev.
  rewrite pushes_app. unfold bind. destruct (pushes sp [0; 0] st) as [[sp1 st1]|]; [|done].
  rewrite pushes_app. unfold bind. replace (pushes sp1 (if nz phnum then _ else _) st1)
    with ((if nz phnum then pushes sp1 [phdr; 3; phent; 4; phnum; 5] else ret sp1) st1) by (by destruct (nz phnum)).
  set (r2 := (if nz phnum then pushes sp1 _ else _) st1). clearbody r2. destruct r2 as [[sp2 st2]|]; [|done].
  rewrite pushes_app. unfold bind. destruct (pushes sp2 _ st2) as [[sp3 st3]|]; [|done].
  rewrite pushes_app. unfold bind. destruct (pushes sp3 _ st3) as [[sp4 st4]|]; [|done].
  rewrite pushes_app. simpl. unfold bind, ret. destruct (push sp4 0 st4) as [[sp5 st5]|]; [|done].
  pose proof few as [Hfew _]. case_decide as Ha.
  - rewrite Ha. simpl. unfold bind. destruct (push sp5 0 st5) as [[sp6 st6]|]; [|done].
    change (Z.of_nat 0) with 0. unfold ret. by destruct (push sp6 0 st6) as [[sp7 st7]|].
  - destruct (nz argv); [|by destruct Ha; apply argv_null].
    assert (Hpos : length args ≠ 0%nat) by (by intros E%nil_length_inv).
    replace (0 <? Z.of_nat (length args)) with true by lia. cbn [andb].
    unfold bind. destruct (push sp5 0 st5) as [[sp6 st6]|]; [|done].
    rewrite pushes_app. unfold bind. destruct (pushes sp6 _ st6) as [[sp7 st7]|]; [|done].
    rewrite u64_small by lia. simpl. unfold bind, ret. by destruct (push sp7 _ st7) as [[sp8 st8]|].
Qed.

Let img := image top phdr phent phnum base args envs.

Lemma setup_run :
  low ≤ top - Z.of_nat (length img) →
  ∃ m', setup_linux_user_stack top phdr phent phnum base argv (Z.of_nat (length args)) envp
      (Z.of_nat (length envs)) s = Some (top - Z.of_nat (length img), set_mem m' s) ∧
    wrote (l_mem s) (top - Z.of_nat (length img)) img m'.
Proof.
  intros Hfits. unfold img, image in Hfits. rewrite !length_app, words_length in Hfits.
  set (sw := start_words top phdr phent phnum base args envs) in *.
  change (length random_bytes) with 16%nat in Hfits. pose proof few as [Ha He].
  assert (H0 : holds_down s top top [] (l_mem s)) by (split; [simpl; lia|apply wrote_nil]).
  destruct (push_strings_run s low top room (length args) argv args top [] _ [] H0 args_at) as (m1 & E1 & H1);
    [lia|lia|rewrite firstn_all; lia|]. rewrite firstn_all in E1, H1. rewrite !app_nil_r in *.
  edestruct (push_strings_run s low top room (length envs) envp envs) as (m2 & E2 & H2);
    [exact H1|exact envs_at|lia|lia|rewrite firstn_all; lia|]. rewrite firstn_all in E2, H2.
  set (sp2 := top - _ - _) in *. edestruct (random_run s low top room) as (m3 & E3 & H3); [exact H2|lia|].
  edestruct (pushes_run s low top room (rev sw)) as (m4 & E4 & H4); [exact H3|rewrite length_rev; lia|].
  rewrite rev_involutive in H4. rewrite length_rev in E4, H4.
  assert (Hlen : sp2 - 16 - 8 * Z.of_nat (length sw) = top - Z.of_nat (length img)).
  { unfold img, image. fold sw. rewrite !length_app, words_length. change (length random_bytes) with 16%nat. lia. }
  rewrite Hlen in E4, H4. exists m4. split; [|apply H4].
  unfold setup_linux_user_stack. rewrite !Nat2Z.id. unfold bind at 1.
  replace s with (set_mem (l_mem s) s) at 1 by (by destruct s). rewrite E1. unfold bind at 1. rewrite E2.
  unfold bind in E3 |- * at 1. destruct (LibcAlloc.sw (sp2 - 16) _ _) as [[[] s1]|]; [|done].
  unfold bind at 1. rewrite E3. rewrite tail_pushes, app_nil_r. rewrite <- E4. f_equal. f_equal.
  unfold sw, start_words. f_equal. unfold arg_at, env_at, random_at. rewrite length_app.
  replace (top - Z.of_nat (length (strings envs) + length (strings args)) - 16 + 16) with sp2 by lia.
  replace (sp2 - 16) with (top - Z.of_nat (length (strings envs) + length (strings args)) - 16) by lia.
  replace (sp2 + Z.of_nat (length (strings envs))) with (top - Z.of_nat (length (strings args))) by lia.
  case_decide as Hnil; [|done]. by rewrite Hnil.
Qed.
End setup.

(** ** Too many strings *)

Lemma push_strings_overrun n v sp ptrs st : (8 < n)%nat → push_strings n v sp ptrs st = None.
Proof.
  intros Hn. destruct n as [|i]; [lia|]. cbn [push_strings]. unfold bind at 1.
  set (r := (if nz v then lw _ else _) st). clearbody r. destruct r as [[p st1]|]; [|done].
  unfold bind at 1. destruct (push_string sp p st1) as [[sp' st2]|]; [|done].
  replace (Z.of_nat i <? 8) with false by lia. done.
Qed.

Lemma setup_overrun top phdr phent phnum base argv argc envp envc st :
  8 < argc → setup_linux_user_stack top phdr phent phnum base argv argc envp envc st = None.
Proof.
  intros Ha. unfold setup_linux_user_stack, bind at 1. by rewrite push_strings_overrun by lia.
Qed.

(** ** The vectors of [execve] *)

Section vectors.
Context (s : libc) (max uv ks kv : Z) (ss : list (list Z)) (ps : list Z).
Let m0 := l_mem s.
Hypothesis max_small : 0 < max ≤ 32.
Hypothesis ks_mapped : mapped m0 ks (256 * max).
Hypothesis kv_mapped : mapped m0 kv (8 * (max + 1)).
Hypothesis areas : apart ks (256 * max) kv (8 * (max + 1)).

(** [n] bytes from [a] on are the caller's: outside both areas. *)
Definition users (a n : Z) : Prop := apart ks (256 * max) a n ∧ apart kv (8 * (max + 1)) a n.

(** The caller's vector: pointers to strings, and a null pointer after the last. *)
Hypothesis uv_ptr : nz uv = true.
Hypothesis ptrs_words : bytes_at m0 uv (words (ps ++ [0])).
Hypothesis ptrs_users : users uv (8 * (Z.of_nat (length ps) + 1)).
Hypothesis ptrs_range : Forall (λ p, 0 < p < 2 ^ 64) ps.
Hypothesis strs : Forall2 (λ p l, cstr_at m0 p l ∧ Z.of_nat (length l) < 2 ^ 31 ∧
  users p (Z.of_nat (length l) + 1)) ps ss.

Definition cut (l : list Z) : list Z := take 255 l.

(** [k] strings are in the rows, their addresses in [kv]; the caller's memory is as before. *)
Record copied (k : nat) m : Prop := {
  copied_rows i l : (i < k)%nat → ss !! i = Some l →
    cstr_at m (ks + 256 * Z.of_nat i) (cut l) ∧ word_at m (kv + 8 * Z.of_nat i) (ks + 256 * Z.of_nat i);
  copied_users x : users x 1 → m !! x = m0 !! x;
  copied_mapped x n : mapped m0 x n → mapped m x n }.

Lemma cut_spec l : nonzero l → nonzero (cut l) ∧ Z.of_nat (length (cut l)) ≤ 255 ∧
  ∀ i, 0 ≤ i < Z.of_nat (length (cut l)) → chr (cut l) i = chr l i.
Proof.
  intros Hl. unfold cut. split_and!; [by apply Forall_take|rewrite length_take; lia|].
  intros i Hi. rewrite length_take in Hi. unfold chr. by rewrite lookup_take_lt by lia.
Qed.

Lemma copy_arg_run s1 dst p l :
  cstr_at (l_mem s1) p l → Z.of_nat (length l) < 2 ^ 31 → mapped (l_mem s1) dst 256 →
  apart dst 256 p (Z.of_nat (length l) + 1) →
  ∃ m', copy_arg dst p s1 = Some (tt, set_mem m' s1) ∧
    filled (l_mem s1) dst (Z.of_nat (length (cut l ++ [0]))) (chr (cut l ++ [0])) m'.
Proof.
  intros Hs Hlen Hm Ha. destruct (cut_spec l (proj2 Hs)) as (Hn & Hc & Hchr).
  enough (wp (copy_arg dst p) s1 (λ _ s', ∃ m', s' = set_mem m' s1 ∧ wrote (l_mem s1) dst (cut l ++ [0]) m'))
    as ([] & s' & E & m' & -> & Hf) by (by exists m').
  unfold copy_arg. wp_step. eapply wp_mono; [eapply (wp_while (λ j s', ∃ (i : nat) m',
      j = Z.of_nat i ∧ (i ≤ length (cut l))%nat ∧ s' = set_mem m' s1 ∧ wrote (l_mem s1) dst (take i (cut l)) m')
    (λ j _, 256 - j) _ (λ j s', ∃ m', j = Z.of_nat (length (cut l)) ∧ s' = set_mem m' s1 ∧
      wrote (l_mem s1) dst (cut l) m')); [|exists 0%nat, (l_mem s1); split_and!; [lia..|by destruct s1|apply wrote_nil]|lia]|].
  - intros j s' (i & m' & -> & Hi & -> & Hw).
    assert (Hlt : length (take i (cut l)) = i) by (rewrite length_take; lia).
    wp_step. eapply (wp_lb _ (chr l (Z.of_nat i))).
    { cbn [l_mem set_mem]. rewrite (wrote_away _ _ _ _ 256 _ Hw) by (rewrite ?length_take; unfold apart in *;
        unfold cut in Hi; rewrite length_take in Hi; lia).
      apply cstr_get; [done|]. unfold cut in Hi. rewrite length_take in Hi. lia. }
    destruct (nz (chr l (Z.of_nat i))) eqn:Ez; cbn [andb].
    + apply nz_spec in Ez. assert (Hil : (i < length l)%nat).
      { destruct (Nat.lt_ge_cases i (length l)); [done|]. by rewrite chr_end in Ez by lia. }
      destruct (Z.ltb_spec (Z.of_nat i) 255) as [Hlt'|Hge].
      * assert (Hic : (i < length (cut l))%nat) by (unfold cut; rewrite length_take; lia).
        wp_step. pose proof (wrote_sb s1 (l_mem s1) dst 256 _ (chr l (Z.of_nat i)) m' Hw Hm) as Est.
        rewrite Hlt in Est. eapply wp_run; [apply Est; lia|]. wp_step. split; [|lia].
        exists (S i). eexists. split_and!; [lia|lia|reflexivity|].
        destruct (lookup_lt_is_Some_2 (cut l) i Hic) as [c Ec]. rewrite (take_S_r _ _ _ Ec).
        pose proof (chr_nz l (Z.of_nat i) (proj2 Hs) ltac:(lia)). rewrite u8_small by lia.
        pose proof (Hchr (Z.of_nat i) ltac:(lia)) as Hci. unfold chr in Hci at 1. rewrite Nat2Z.id, Ec in Hci.
        simpl in Hci. rewrite <- Hci. rewrite <- Hlt at 2. by apply wrote_snoc.
      * wp_step. assert (i = length (cut l)) as -> by (unfold cut in *; rewrite length_take in *; lia).
        exists m'. rewrite firstn_all in Hw. done.
    + apply nz_false, chr_zero in Ez; [|apply Hs|lia]. wp_step.
      assert (i = length (cut l)) as -> by (unfold cut in *; rewrite length_take in *; lia).
      exists m'. rewrite firstn_all in Hw. done.
  - intros j s' (m' & -> & -> & Hw). eapply wp_run; [apply (wrote_sb s1 (l_mem s1) dst 256); [done..|lia]|].
    eexists. split; [reflexivity|]. by apply wrote_snoc.
Qed.

(** Bytes of the caller are still readable. *)
Lemma copied_bytes k m a bs :
  copied k m → users a (Z.of_nat (length bs)) → bytes_at m0 a bs → bytes_at m a bs.
Proof.
  intros Hc [H1 H2] Hb i Hi. rewrite (copied_users _ _ Hc); [by apply Hb|].
  unfold users, apart in *. lia.
Qed.

Lemma copied_ptr k m i p :
  copied k m → (ps ++ [0]) !! i = Some p → lw (uv + 8 * Z.of_nat i) (set_mem m s) = Some (p, set_mem m s).
Proof.
  intros Hc Hi. pose proof (lookup_lt_Some _ _ _ Hi) as Hlt. rewrite length_app in Hlt. simpl in Hlt.
  apply lw_run.
  - cbn [l_mem set_mem]. eapply copied_bytes; [done| |].
    + rewrite le_bytes_length. destruct ptrs_users. split; unfold apart in *; lia.
    + rewrite <- (take_drop_middle _ _ _ Hi), words_app in ptrs_words.
      apply bytes_at_app in ptrs_words as [_ Hb]. unfold words in Hb at 2. simpl in Hb.
      apply (bytes_at_app _ _ (le_bytes 8 p)) in Hb as [Hb _]. rewrite words_length, length_take, length_app in Hb.
      simpl in Hb. by replace (Z.of_nat _) with (8 * Z.of_nat i) in Hb by lia.
  - apply lookup_app_Some in Hi as [Hi|[_ Hi]].
    + pose proof (Forall_lookup_1 _ _ _ _ ptrs_range Hi). simpl in *. lia.
    + apply list_lookup_singleton_Some in Hi as [_ <-]. lia.
Qed.

Lemma copied_round k m p l :
  copied k m → Z.of_nat k < max → ps !! k = Some p → ss !! k = Some l →
  ∃ m', (copy_arg (ks + 256 * Z.of_nat k) p ;!
         sw (kv + 8 * Z.of_nat k) (ks + 256 * Z.of_nat k)) (set_mem m s) = Some (tt, set_mem m' s) ∧
    copied (S k) m'.
Proof.
  intros Hc Hk Ep El. pose proof (Forall2_lookup_lr _ _ _ _ _ _ strs Ep El) as (Hs & Hlen & Hu).
  set (row := ks + 256 * Z.of_nat k) in *. set (cell := kv + 8 * Z.of_nat k) in *.
  assert (Hrow : mapped m row 256) by (apply (copied_mapped _ _ Hc); intros x Hx; apply ks_mapped; lia).
  assert (Hs' : cstr_at m p l).
  { split; [|apply Hs]. eapply copied_bytes; [done| |apply Hs]. rewrite length_app. simpl.
    by replace (Z.of_nat (length l + 1)) with (Z.of_nat (length l) + 1) by lia. }
  destruct (copy_arg_run (set_mem m s) row p l Hs' Hlen Hrow) as (m1 & E1 & Hf1).
  { destruct Hu as [Hu _]. unfold apart in *. lia. }
  destruct (cut_spec l (proj2 Hs)) as (Hn & Hcut & _).
  assert (Hlc : Z.of_nat (length (cut l ++ [0])) ≤ 256) by (rewrite length_app; simpl; lia).
  assert (Hbc : bytes (cut l ++ [0])) by (by apply nonzero_byte).
  assert (Hcell : mapped m1 cell 8).
  { eapply mapped_filled; [exact Hf1|done|]. apply (copied_mapped _ _ Hc). intros x Hx. apply kv_mapped. lia. }
  destruct (store_bytes_run (set_mem m1 s) cell (le_bytes 8 row)) as (m2 & E2 & Hf2);
    [by rewrite le_bytes_length|apply le_bytes_range|]. rewrite le_bytes_length in Hf2.
  cbn [l_mem set_mem] in Hf1, Hf2. change (Z.of_nat 8) with 8 in Hf2.
  exists m2. split; [unfold bind; rewrite E1; exact E2|]. split.
  - intros i l' Hi El'. assert (Hcase : (i < k)%nat ∨ i = k) by lia. destruct Hcase as [Hik| ->].
    + destruct (copied_rows _ _ Hc i l' Hik El') as [[Hb Hz] Hw].
      assert (Hl' : Z.of_nat (length (cut l' ++ [0])) ≤ 256).
      { unfold cut. rewrite length_app, length_take. cbn [length]. lia. }
      split; [split; [|done]|].
      * eapply bytes_at_away; [exact Hf2|unfold apart in *; lia|]. eapply bytes_at_away; [exact Hf1|lia|exact Hb].
      * eapply bytes_at_away; [exact Hf2|rewrite le_bytes_length; lia|].
        eapply bytes_at_away; [exact Hf1|rewrite le_bytes_length; unfold apart in *; lia|exact Hw].
    + assert (l' = l) as -> by congruence. fold row cell. split; [split; [|done]|].
      * eapply bytes_at_away; [exact Hf2|unfold apart in *; lia|]. eapply bytes_at_filled, Hf1.
      * apply (bytes_at_filled m1). by rewrite le_bytes_length.
  - intros x [Hx1 Hx2]. rewrite Hf2, decide_False by (unfold apart in *; lia).
    rewrite Hf1, decide_False by (unfold apart in *; lia). apply (copied_users _ _ Hc). by split.
  - intros x n Hx. apply (mapped_filled m1 cell (le_bytes 8 row)); [by rewrite le_bytes_length|apply le_bytes_range|].
    eapply mapped_filled; [exact Hf1|done|]. by apply (copied_mapped _ _ Hc).
Qed.

(** [copy_vector] copies [max] strings at most, each cut to 255 bytes. *)
Lemma copy_vector_run :
  let k := Nat.min (Z.to_nat max) (length ss) in
  ∃ m', copy_vector max uv ks kv s = Some (Z.of_nat k, set_mem m' s) ∧ copied k m'.
Proof.
  intros k. pose proof (Forall2_length _ _ _ strs) as Hlen.
  enough (wp (copy_vector max uv ks kv) s (λ r s', ∃ m', r = Z.of_nat k ∧ s' = set_mem m' s ∧ copied k m'))
    as (r & s' & E & m' & -> & -> & Hc) by (by exists m').
  unfold copy_vector. rewrite uv_ptr. wp_step.
  eapply wp_mono; [eapply (wp_while (λ i s', ∃ (j : nat) m', i = Z.of_nat j ∧ (j ≤ k)%nat ∧
      s' = set_mem m' s ∧ copied j m') (λ i _, 64 - i) _
    (λ i s', ∃ m', i = Z.of_nat k ∧ s' = set_mem m' s ∧ copied k m')); [| |lia]|].
  - intros i s' (j & m' & -> & Hj & -> & Hc). destruct (Z.ltb_spec (Z.of_nat j) max) as [Hlt|Hge].
    2:{ wp_step. assert (j = k) as -> by lia. by exists m'. }
    destruct (decide (j < length ps)%nat) as [Hin|Hout].
    + destruct (lookup_lt_is_Some_2 ps j Hin) as [p Ep]. destruct (lookup_lt_is_Some_2 ss j) as [l El]; [lia|].
      wp_step. eapply wp_run; [eapply copied_ptr; [done|by apply lookup_app_l_Some]|].
      pose proof (Forall_lookup_1 _ _ _ _ ptrs_range Ep) as Hp. cbv beta in Hp.
      replace (nz p) with true by (symmetry; apply nz_spec; lia).
      destruct (copied_round j m' p l Hc Hlt Ep El) as (m2 & E2 & Hc2).
      apply wp_assoc. wp_step. eapply wp_run; [exact E2|]. wp_step. split; [|lia].
      exists (S j), m2. split_and!; [lia|lia|done|done].
    + wp_step. eapply wp_run; [eapply (copied_ptr j m' j 0); [done|]|].
      { rewrite lookup_app_r by lia. by replace (j - length ps)%nat with 0%nat by lia. }
      cbn [nz Z.eqb negb]. wp_step. assert (j = k) as -> by lia. by exists m'.
  - exists 0%nat, m0. split_and!; [lia..|by destruct s|]. split; [lia|done|done].
  - intros i s' (m' & -> & -> & Hc). wp_step. assert (Hk : Z.of_nat k ≤ max) by lia.
    destruct (store_bytes_run (set_mem m' s) (kv + 8 * Z.of_nat k) (le_bytes 8 0)) as (m2 & E2 & Hf2).
    { rewrite le_bytes_length. intros x Hx. apply (copied_mapped _ _ Hc _ _ kv_mapped). lia. }
    { apply le_bytes_range. }
    eapply wp_run; [exact E2|]. wp_step. exists m2. split_and!; [done..|].
    rewrite le_bytes_length in Hf2. cbn [l_mem set_mem] in Hf2. split.
    + intros i l Hi El. destruct (copied_rows _ _ Hc i l Hi El) as [[Hb Hz] Hw].
      assert (Hl : Z.of_nat (length (cut l ++ [0])) ≤ 256) by (unfold cut; rewrite length_app, length_take; cbn [length]; lia).
      split; [split; [|done]|]; (eapply bytes_at_away; [exact Hf2| |done]);
        rewrite ?le_bytes_length; unfold apart in *; lia.
    + intros x Hx. rewrite Hf2, decide_False by (destruct Hx; unfold apart in *; lia). by apply (copied_users _ _ Hc).
    + intros x n Hx. apply (mapped_filled m' (kv + 8 * Z.of_nat k) (le_bytes 8 0)); [by rewrite le_bytes_length|apply le_bytes_range|].
      by apply (copied_mapped _ _ Hc).
Qed.
End vectors.

(** ** Reading the stack *)

(** The words before the first zero, and those after it. *)
Fixpoint until0 (ws : list Z) : list Z * list Z :=
  match ws with
  | [] => ([], [])
  | w :: ws' => if w =? 0 then ([], ws') else let '(a, b) := until0 ws' in (w :: a, b)
  end.

Fixpoint pairs (ws : list Z) : list (Z * Z) :=
  match ws with
  | k :: v :: ws' => if k =? 0 then [] else (k, v) :: pairs ws'
  | _ => []
  end.

(** What the start-up code of a program takes from its stack: [argc], [argv],
    [envp] and the auxiliary vector. *)
Definition parse_start (ws : list Z) : Z * list Z * list Z * list (Z * Z) :=
  match ws with
  | [] => (0, [], [], [])
  | argc :: ws' =>
      let '(av, ws') := until0 ws' in
      let '(ev, ws') := until0 ws' in
      (argc, av, ev, pairs ws')
  end.

Lemma until0_app l ws : Forall (λ w, w ≠ 0) l → until0 (l ++ 0 :: ws) = (l, ws).
Proof.
  induction l as [|w l IH]; intros Hl; [done|]. apply Forall_cons in Hl as [Hw Hl]. simpl.
  rewrite (proj2 (Z.eqb_neq w 0) Hw), IH by done. done.
Qed.

Lemma vector_nonzero s low top v ss : vector s low top v ss → Forall nonzero ss.
Proof.
  unfold vector. destruct (nz v).
  - intros [Hv _]. apply Forall_lookup. intros i l Hi. destruct (Hv i l Hi) as (p & _ & _ & Hs).
    unfold string_arg in Hs. destruct (nz p); [apply Hs|subst l; constructor].
  - intros Hv. eapply Forall_impl; [exact Hv|]. intros l ->. constructor.
Qed.

Lemma parse_start_words top phdr phent phnum base args envs :
  0 < random_at top args envs →
  parse_start (start_words top phdr phent phnum base args envs) =
    (Z.of_nat (length args), arg_at top args envs, [],
     pairs (env_at top args envs ++ flat (auxv phdr phent phnum base (random_at top args envs)) ++ [0; 0])).
Proof.
  intros Hr. unfold start_words, parse_start. simpl.
  rewrite until0_app; [done|]. unfold arg_at. eapply Forall_impl; [apply addrs_ge|]. simpl. lia.
Qed.

Lemma pairs_auxv phdr phent phnum base random :
  pairs (flat (auxv phdr phent phnum base random) ++ [0; 0]) = auxv phdr phent phnum base random.
Proof. unfold auxv. by destruct (nz phnum). Qed.

(** The strings and the random bytes in a memory that holds the image. *)
Lemma image_strings m sp top phdr phent phnum base args envs :
  sp = top - Z.of_nat (length (image top phdr phent phnum base args envs)) →
  bytes_at m sp (image top phdr phent phnum base args envs) → Forall nonzero args →
  bytes_at m sp (words (start_words top phdr phent phnum base args envs)) ∧
  bytes_at m (random_at top args envs) random_bytes ∧ Forall2 (cstr_at m) (arg_at top args envs) args.
Proof.
  intros Hsp Hb Hn. unfold image in *. set (ws := words _) in *.
  rewrite !length_app in Hsp. change (length random_bytes) with 16%nat in Hsp.
  apply bytes_at_app in Hb as [H1 Hb]. apply bytes_at_app in Hb as [H2 Hb]. apply bytes_at_app in Hb as [_ H4].
  change (length random_bytes) with 16%nat in H4.
  assert (Hr : sp + Z.of_nat (length ws) = random_at top args envs) by (unfold random_at; rewrite length_app; lia).
  rewrite Hr in *. split_and!; [done|done|]. by apply addrs_strings.
Qed.

(** ** The properties *)

(** C36: the stack of a new program. For up to eight arguments and eight environment
    strings (and a stack with room) [setup_linux_user_stack] returns; nothing
    outside [\[sp, top)] changes; the start-up code finds at [sp] the number of
    arguments and the vector of their addresses, each address holds its string,
    and [AT_RANDOM]'s sixteen bytes are in place.  Without environment strings the
    start-up code reads an empty environment and exactly the auxiliary vector that was
    meant; with some it finds neither, see [environment_lost]. *)
Theorem setup_stack_read s low top phdr phent phnum base argv envp args envs :
  let img := image top phdr phent phnum base args envs in
  let ws := start_words top phdr phent phnum base args envs in
  let random := random_at top args envs in
  mapped (l_mem s) low (top - low) → 0 < low →
  vector s low top argv args → vector s low top envp envs → (nz argv = false → args = []) →
  (length args ≤ 8)%nat → (length envs ≤ 8)%nat → low ≤ top - Z.of_nat (length img) →
  ∃ sp m', setup_linux_user_stack top phdr phent phnum base argv (Z.of_nat (length args)) envp
      (Z.of_nat (length envs)) s = Some (sp, set_mem m' s) ∧
    low ≤ sp ∧ (∀ x, ¬ sp ≤ x < top → m' !! x = l_mem s !! x) ∧ bytes_at m' sp (words ws) ∧
    (∃ av ev aux, parse_start ws = (Z.of_nat (length args), av, ev, aux) ∧ Forall2 (cstr_at m') av args ∧
      (envs = [] → ev = [] ∧ aux = auxv phdr phent phnum base random)) ∧
    bytes_at m' random random_bytes.
Proof.
  intros img ws random Hm Hlow Ha He Hnull Hna Hne Hfit.
  assert (Hr : 0 < random).
  { unfold random, random_at. unfold img, image in Hfit. rewrite length_app. rewrite !length_app in Hfit.
    change (length random_bytes) with 16%nat in Hfit. lia. }
  destruct (setup_run s low top phdr phent phnum base argv envp args envs Hm Ha He Hnull (conj Hna Hne) Hfit)
    as (m' & E & Hw). fold img in E, Hw. set (sp := top - Z.of_nat (length img)) in *.
  destruct (image_strings m' sp top phdr phent phnum base args envs) as (H1 & H2 & H3);
    [done|by apply (wrote_bytes (l_mem s))|by eapply vector_nonzero|].
  exists sp, m'. split_and!; try done.
  - intros x Hx. rewrite Hw, decide_False; [done|]. fold img. lia.
  - eexists _, _, _. split_and!; [by apply parse_start_words|done|]. intros ->. split; [done|]. by apply pairs_auxv.
Qed.

(** "hi" at 16, its address in a vector at 24, a stack from 256 to 512. *)
Definition demo_stack : libc := mkLibc (mem_of 16 [104; 105; 0] ∪ mem_of 24 (words [16; 0]) ∪ zeros 256 256 ∅) 0 0 0.

Lemma setup_stack_read_witness :
  ∃ sp m' av, setup_linux_user_stack 512 0 0 0 0 24 1 0 0 demo_stack = Some (sp, set_mem m' demo_stack) ∧
    parse_start (start_words 512 0 0 0 0 [[104; 105]] []) = (1, av, [], auxv 0 0 0 0 493) ∧
    Forall2 (cstr_at m') av [[104; 105]].
Proof.
  destruct (setup_stack_read demo_stack 256 512 0 0 0 0 24 0 [[104; 105]] [])
    as (sp & m' & E & _ & _ & _ & (av & ev & aux & Hp & Hs & Haux) & _).
  - apply mapped_dec. vm_compute. reflexivity.
  - lia.
  - unfold vector. change (nz 24) with true. cbv iota. split; [|unfold apart; cbn [length]; lia].
    intros [|i] l Hi; [|discriminate].
    injection Hi as <-. exists 16. split; [lia|]. split; [apply bytes_at_dec; vm_compute; reflexivity|].
    unfold string_arg. change (nz 16) with true. cbv iota. split; [|unfold apart; cbn [length]; lia].
    split; [apply bytes_at_dec; vm_compute; reflexivity|repeat constructor].
  - constructor.
  - discriminate.
  - simpl; lia.
  - simpl; lia.
  - vm_compute. discriminate.
  - exists sp, m', av. destruct (Haux eq_refl) as [-> ->]. split_and!; [exact E|exact Hp|exact Hs].
Defined.

(** The environment does not arrive. The null word that should follow the
    addresses of the environment strings is pushed after them, so that it lies
    below them: whatever environment is passed, the start-up code reads an empty
    one; and with one environment string the auxiliary vector is read one word
    off, so that no [AT_RANDOM] is found. *)
Theorem environment_lost top phdr phent phnum base args envs :
  let ws := start_words top phdr phent phnum base args envs in
  15 < random_at top args envs → base ≠ 15 →
  (parse_start ws).1.2 = [] ∧
  (length envs = 1%nat → ∀ v, (15, v) ∉ (parse_start ws).2).
Proof.
  intros ws Hr Hbase. unfold ws. rewrite parse_start_words by lia. split; [done|].
  intros H1 v. destruct envs as [|e [|e' envs]]; [done| |done]. cbn [snd].
  set (r := random_at _ _ _) in *. unfold env_at. fold r. cbn [addrs app].
  intros Hin. unfold auxv in Hin. cbn -[Z.eqb Z.add] in Hin.
  repeat match goal with
  | H : (0 =? 0) = false |- _ => discriminate H
  | H : context [if ?b then _ else _] |- _ => destruct b eqn:?
  | H : _ ∈ [] |- _ => by apply not_elem_of_nil in H
  | H : _ ∈ _ :: _ |- _ => let E := fresh in apply elem_of_cons in H as [E|H]; [apply (f_equal fst) in E; cbn [fst] in E; lia|]
  end.
Qed.

Lemma environment_lost_witness :
  (parse_start (start_words 4096 0 0 0 0 [] [[65]])).1.2 = [] ∧
  ∀ v, (15, v) ∉ (parse_start (start_words 4096 0 0 0 0 [] [[65]])).2.
Proof.
  destruct (environment_lost 4096 0 0 0 0 [] [[65]]) as [H1 H2].
  - vm_compute. reflexivity.
  - lia.
  - split; [exact H1|exact (H2 eq_refl)].
Defined.

(** [execve] passes the stack builder more than it has room for. A caller's
    vector of nine strings or more is copied (up to sixteen), and then the ninth
    address is stored outside [str_ptrs\[8\]], on the kernel's own stack. *)
Theorem execve_overruns `{ExecArea} s newtop phdr phent phnum base uargv uenvp ss ps :
  mapped (l_mem s) kargs (256 * 16) → mapped (l_mem s) kargv (8 * (16 + 1)) →
  apart kargs (256 * 16) kargv (8 * (16 + 1)) → nz uargv = true →
  bytes_at (l_mem s) uargv (words (ps ++ [0])) →
  users 16 kargs kargv uargv (8 * (Z.of_nat (length ps) + 1)) →
  Forall (λ p, 0 < p < 2 ^ 64) ps →
  Forall2 (λ p l, cstr_at (l_mem s) p l ∧ Z.of_nat (length l) < 2 ^ 31 ∧
    users 16 kargs kargv p (Z.of_nat (length l) + 1)) ps ss →
  (8 < length ss)%nat →
  (∃ k m', copy_vector 16 uargv kargs kargv s = Some (k, set_mem m' s) ∧ 8 < k ≤ 16) ∧
  execve_stack newtop phdr phent phnum base uargv uenvp s = None.
Proof.
  intros Hks Hkv Har Huv Hw Hu Hp Hs Hn.
  destruct (copy_vector_run s 16 uargv kargs kargv ss ps) as (m' & E & Hc); try done.
  split; [eexists _, m'; split; [exact E|lia]|].
  unfold execve_stack, execve_vectors, bind at 1 2. rewrite E. unfold bind.
  destruct (copy_vector 32 uenvp kenvs kenvp (set_mem m' s)) as [[kenvc s2]|]; [|done].
  cbn [ret]. apply setup_overrun. lia.
Qed.

(** Nine times "hi", with the static arrays at 0x1000 and 0x2000. *)
#[local] Instance demo_area : ExecArea := {| kargs := 0x1000; kargv := 0x2000; kenvs := 0x3000; kenvp := 0x5000 |}.
Definition demo_exec : libc :=
  mkLibc (mem_of 16 [104; 105; 0] ∪ mem_of 24 (words (replicate 9 16 ++ [0])) ∪ zeros 4096 0x1000 ∅ ∪
    zeros 136 0x2000 ∅) 0 0 0.

Lemma execve_overruns_witness : execve_stack 0 0 0 0 0 24 0 demo_exec = None.
Proof.
  apply (execve_overruns demo_exec 0 0 0 0 0 24 0 (replicate 9 [104; 105]) (replicate 9 16)).
  - apply mapped_dec. vm_compute. reflexivity.
  - apply mapped_dec. vm_compute. reflexivity.
  - unfold apart. simpl. lia.
  - reflexivity.
  - apply bytes_at_dec. vm_compute. reflexivity.
  - split; unfold apart; simpl; lia.
  - repeat constructor; lia.
  - repeat (constructor; [split_and!; [split; [apply bytes_at_dec; vm_compute; reflexivity|repeat constructor]|
      cbn [length]; lia|split; unfold apart; simpl; lia]|]). constructor.
  - simpl. lia.
Defined.
