(* ===== verification/Vfs.v ===== *)
(** * Vfs: [OvsbMk/fs/vfs.c]

    Path resolution and the dispatch to a file system. Strings are lists of
    bytes that are not zero; [None] is a write outside an array. The two file
    systems behind the layer are the fields of a class: ext2 is written in Zig,
    FAT32 is a component of its own. *)

From Stdlib Require Import ZArith Lia.
From stdpp Require Import gmap list prelude.
From S2P Require Import Prelude.

Definition VFS_MAX_PATH : Z := 512.
Definition SLASH : Z := 47.
Definition DOT : Z := 46.

(** ** [vfs_abs_path] *)

(** The characters a copy loop takes while [i < VFS_MAX_PATH - 1]. *)
Definition room (i : Z) : nat := Z.to_nat (VFS_MAX_PATH - 1 - i).

(** The array [base], before its terminator. *)
Definition vfs_base (cwd : option (list Z)) (path : list Z) : list Z :=
  if bool_decide (head path = Some SLASH) then take (room 0) path
  else
    let b := take (room 0) (default [SLASH] cwd) in
    let b := if (0 <? Z.of_nat (length b)) && negb (bool_decide (last b = Some SLASH))
             then b ++ [SLASH] else b in
    b ++ take (room (Z.of_nat (length b))) path.

(** The arrays [comps\[32\]\[64\]], [depths\[32\]] and [cur\[64\]] hold [comps] and
    [cur]: the number of rows and of characters is [n] and [ci].  Index [k] is in an
    array of [size] elements. *)
Definition within (k : nat) (size : Z) : bool := Z.of_nat k <? size.

(** [for (j = 0; j <= ci; j++) comps\[n\]\[j\] = cur\[j\]; depths\[n\] = ...; n++;] *)
Definition vfs_push (comps : list (list Z)) (cur : list Z) : option (list (list Z)) :=
  if within (length comps) 32 && within (length cur) 64 then Some (comps ++ [cur]) else None.

(** The end of a component, [cur\[ci\] = '\0'] first: "" and "." are dropped, ".." goes
    up, anything else is pushed if there are fewer than 32. *)
Definition vfs_component (comps : list (list Z)) (cur : list Z) : option (list (list Z)) :=
  if negb (within (length cur) 64) then None
  else if bool_decide (cur = []) || bool_decide (cur = [DOT]) then Some comps
  else if bool_decide (cur = [DOT; DOT]) then Some (removelast comps)
  else if Z.of_nat (length comps) <? 32 then vfs_push comps cur else Some comps.

(** [if (ci < 63) cur\[ci++\] = ch;] *)
Definition vfs_char (cur : list Z) (ch : Z) : option (list Z) :=
  if Z.of_nat (length cur) <? 63 then (if within (length cur) 64 then Some (cur ++ [ch]) else None) else Some cur.

(** The loop over [base]. *)
Fixpoint vfs_split (base : list Z) (comps : list (list Z)) (cur : list Z) : option (list (list Z)) :=
  match base with
  | [] => vfs_component comps cur
  | ch :: base' =>
      if ch =? SLASH then
        match vfs_component comps cur with Some comps' => vfs_split base' comps' [] | None => None end
      else match vfs_char cur ch with Some cur' => vfs_split base' comps cur' | None => None end
  end.

(** [if (pos < outlen - 2) out\[pos++\] = c;] *)
Definition vfs_put (outlen : Z) (out : list Z) (c : Z) : list Z :=
  if Z.of_nat (length out) <? outlen - 2 then out ++ [c] else out.

(** The components, with a slash between two. *)
Fixpoint vfs_join (outlen : Z) (out : list Z) (comps : list (list Z)) : list Z :=
  match comps with
  | [] => out
  | [c] => foldl (vfs_put outlen) out c
  | c :: comps' => vfs_join outlen (vfs_put outlen (foldl (vfs_put outlen) out c) SLASH) comps'
  end.

(** The result is -1, or 0 with the string in [out]. *)
Definition vfs_abs_path (cwd : option (list Z)) (path : list Z) (outlen : Z) : option (Z * list Z) :=
  if bool_decide (path = []) then Some (-1, []) else
  let base := vfs_base cwd path in
  if VFS_MAX_PATH <=? Z.of_nat (length base) then None else
  match vfs_split base [] [] with
  | None => None
  | Some comps =>
      let out := vfs_join outlen [SLASH] comps in
      let out := if Z.of_nat (length out) =? 1 then out ++ [SLASH] else out in
      if outlen <=? Z.of_nat (length out) then None else Some (0, out)
  end.

(** ** The dispatch *)

(** The two file systems, on the state [B] of the disk. *)
Class Backends (B : Type) := {
  ext2new_mount : B → Z * B;
  ext2new_read_at : list Z → Z → Z → B → Z * list Z;
  ext2new_stat : list Z → B → option (Z * bool);
  ext2_create_file : list Z → B → Z * B;
  ext2_write_at : list Z → list Z → Z → B → Z * B;
  fat32_read_file : list Z → Z → B → Z * list Z;
  fat32_stat : list Z → B → option (Z * Z);
  fat32_create_file : list Z → B → Z * B;
  fat32_write_file : list Z → list Z → B → Z * B;
  fat32_delete_file : list Z → B → Z * B;
  fat32_mkdir : list Z → B → Z * B }.

(** [g_vfs_backend] and the disk. *)
Record vfs (B : Type) := mkVfs { g_vfs_backend : Z; v_disk : B }.
Arguments mkVfs {B}.
Arguments g_vfs_backend {B}.
Arguments v_disk {B}.

Section vfs.
Context {B : Type} `{Backends B}.

Abbreviation VM := (M (vfs B)).

(** A call that changes the disk. *)
Definition on_disk {A} (f : B → A * B) : VM A := λ s,
  let '(r, d) := f (v_disk s) in Some (r, mkVfs (g_vfs_backend s) d).

Definition vfs_mount : VM Z :=
  let! r := on_disk ext2new_mount in
  let b := if r =? 0 then 0 else 1 in
  modify (λ s, mkVfs b (v_disk s)) ;!
  ret b.

Definition vfs_read_at (abs : list Z) (count offset : Z) : VM (Z * list Z) :=
  gets (λ s, if g_vfs_backend s =? 0 then ext2new_read_at abs count offset (v_disk s)
             else fat32_read_file abs count (v_disk s)).

Definition vfs_read_file (abs : list Z) (count : Z) : VM (Z * list Z) := vfs_read_at abs count 0.

(** The size and the attributes, when the result is 0. *)
Definition vfs_stat_size_attr (abs : list Z) : VM (option (Z * Z)) :=
  gets (λ s, if g_vfs_backend s =? 0
    then (λ '(sz, is_dir), (sz, if is_dir : bool then 0x10 else 0x20)) <$> ext2new_stat abs (v_disk s)
    else fat32_stat abs (v_disk s)).

Definition vfs_write_at (abs data : list Z) (offset : Z) : VM Z :=
  let! b := gets g_vfs_backend in
  if b =? 0 then on_disk (ext2_write_at abs data offset) else
  (if nz offset then let! _ := on_disk (fat32_create_file abs) in skip else skip) ;!
  on_disk (fat32_write_file abs data).

Definition vfs_create_file (abs : list Z) : VM Z :=
  let! b := gets g_vfs_backend in
  if b =? 0 then on_disk (ext2_create_file abs) else on_disk (fat32_create_file abs).

Definition vfs_unlink (abs : list Z) : VM Z :=
  let! b := gets g_vfs_backend in
  if b =? 0 then ret (-1) else on_disk (fat32_delete_file abs).

Definition vfs_mkdir (abs : list Z) : VM Z :=
  let! b := gets g_vfs_backend in
  if b =? 0 then ret (-1) else on_disk (fat32_mkdir abs).

Definition vfs_chdir_isdir (abs : list Z) : VM Z :=
  let! st := vfs_stat_size_attr abs in
  let! b := gets g_vfs_backend in
  ret (match st with
       | None => 0
       | Some (_, at_) => if b =? 0 then 1 else if nz (Z.land at_ 0x10) then 1 else 0
       end).
End vfs.
