(* ===== verification/VfsProof.v ===== *)
(** * VfsProof: path resolution

    The loop of [vfs_abs_path] computes the resolution of a path: split at the
    slashes, drop "" and ".", let ".." undo the component before it, and join
    again. *)

From Stdlib Require Import ZArith Lia.
From stdpp Require Import gmap list prelude.
From S2P Require Import Prelude Vfs.

(** ** The specification *)

(** The parts of a path between slashes. *)
Fixpoint split_path (l : list Z) : list (list Z) :=
  match l with
  | [] => [[]]
  | c :: l' =>
      if c =? SLASH then [] :: split_path l'
      else match split_path l' with p :: ps => (c :: p) :: ps | [] => [[c]] end
  end.

(** One part after those already resolved. *)
Definition resolve1 (st : list (list Z)) (p : list Z) : list (list Z) :=
  if decide (p = [] ∨ p = [DOT]) then st
  else if decide (p = [DOT; DOT]) then removelast st else st ++ [p].

Definition resolve (parts : list (list Z)) : list (list Z) := foldl resolve1 [] parts.

Definition join_path (comps : list (list Z)) : list Z := mjoin ((λ c, SLASH :: c) <$> comps).

(** The string for a list of components, a slash for the root. *)
Definition render (comps : list (list Z)) : list Z :=
  match comps with [] => [SLASH] | _ => join_path comps end.
(** What the code answers: two slashes for the root. *)
Definition answer (comps : list (list Z)) : list Z :=
  if decide (comps = []) then [SLASH; SLASH] else render comps.

(** A component that stands for itself. *)
Definition plain (p : list Z) : Prop :=
  p ≠ [] ∧ p ≠ [DOT] ∧ p ≠ [DOT; DOT] ∧ Forall (λ c, c ≠ SLASH) p.

(** ** Splitting *)

Lemma split_path_nonnil l : split_path l ≠ [].
Proof. destruct l as [|c l]; simpl; [done|]. destruct (c =? SLASH); [done|]. by destruct (split_path l). Qed.

(** [cur] put before the first part. *)
Definition glue (cur : list Z) (parts : list (list Z)) : list (list Z) :=
  match parts with p :: ps => (cur ++ p) :: ps | [] => [cur] end.

(** The limits of the arrays: components of 63 characters, and 32 of them. *)
Definition fits (comps parts : list (list Z)) : Prop :=
  Forall (λ p, (length p ≤ 63)%nat) parts ∧ (length comps + length (filter (.≠ []) parts) ≤ 32)%nat.

Lemma component_resolve1 comps cur :
  cur = [] ∨ (length comps < 32)%nat → (length cur ≤ 63)%nat → vfs_component comps cur = Some (resolve1 comps cur).
Proof.
  intros Hl Hc. unfold vfs_component, resolve1, vfs_push, within. replace (Z.of_nat (length cur) <? 64) with true by lia. cbn [negb].
  destruct (decide (cur = [] ∨ cur = [DOT])) as [[-> | ->]|Hn]; [done..|].
  rewrite !bool_decide_eq_false_2 by tauto. simpl.
  case_decide; [by rewrite bool_decide_eq_true_2|]. rewrite bool_decide_eq_false_2 by done.
  replace (Z.of_nat (length comps) <? 32) with true; [done|]. destruct Hl; [tauto|lia].
Qed.

Lemma char_pushed cur ch : (length cur < 63)%nat → vfs_char cur ch = Some (cur ++ [ch]).
Proof. intros Hl. unfold vfs_char, within. by rewrite !(proj2 (Z.ltb_lt _ _)) by lia. Qed.

Lemma resolve1_length st p : (length (resolve1 st p) ≤ length st + length (filter (.≠ []) [p]))%nat.
Proof.
  unfold resolve1. destruct (decide (p = [] ∨ p = [DOT])) as [|Hn]; [lia|].
  rewrite filter_cons_True by tauto. simpl. case_decide; [|rewrite length_app; simpl; lia].
  destruct st as [|x st _] using rev_ind; [simpl; lia|]. rewrite removelast_last, length_app. simpl. lia.
Qed.

Lemma fits_cons comps p parts :
  fits comps (p :: parts) →
  (p = [] ∨ (length comps < 32)%nat) ∧ fits (resolve1 comps p) parts.
Proof.
  intros [Hl Hn]. apply Forall_cons in Hl as [_ Hl]. pose proof (resolve1_length comps p) as Hr.
  destruct (decide (p = [])) as [-> |Hp].
  - rewrite filter_cons_False in Hn by naive_solver. rewrite filter_cons_False in Hr by naive_solver.
    split; [by left|]. split; [done|]. simpl in Hr. lia.
  - rewrite filter_cons_True in Hn by done. rewrite filter_cons_True in Hr by done. simpl in *.
    split; [right; lia|]. split; [done|lia].
Qed.

Lemma vfs_split_spec base comps cur :
  fits comps (glue cur (split_path base)) →
  vfs_split base comps cur = Some (foldl resolve1 comps (glue cur (split_path base))).
Proof.
  revert comps cur. induction base as [|ch base IH]; intros comps cur Hf; simpl in *.
  - rewrite app_nil_r in *. pose proof (proj1 (proj1 (Forall_cons _ _ _) (proj1 Hf))) as H63.
    apply fits_cons in Hf as [Hc _]. by apply component_resolve1.
  - destruct (ch =? SLASH).
    + simpl in *. rewrite app_nil_r in *. pose proof (proj1 (proj1 (Forall_cons _ _ _) (proj1 Hf))) as H63.
      apply fits_cons in Hf as [Hc Hf].
      assert (Hg : glue [] (split_path base) = split_path base).
      { by destruct (split_path base) eqn:E; [by apply split_path_nonnil in E|]. }
      rewrite component_resolve1 by done. rewrite IH, Hg; [done|]. by rewrite Hg.
    + destruct (split_path base) as [|p ps] eqn:E; [by apply split_path_nonnil in E|].
      simpl in *. assert (Hcur : (length cur < 63)%nat).
      { destruct Hf as [Hl _]. apply Forall_cons in Hl as [Hl _]. rewrite length_app in Hl. simpl in Hl. lia. }
      rewrite char_pushed by done.
      rewrite IH; simpl; rewrite <- ?app_assoc; done.
Qed.

(** ** Joining *)

Lemma foldl_put outlen out l :
  (1 ≤ length out)%nat → Z.of_nat (length out) ≤ outlen - 2 →
  foldl (vfs_put outlen) out l = take (Z.to_nat (outlen - 2)) (out ++ l).
Proof.
  revert out. induction l as [|c l IH]; intros out H1 H2; simpl.
  - by rewrite app_nil_r, take_ge by lia.
  - unfold vfs_put at 2. destruct (Z.ltb_spec (Z.of_nat (length out)) (outlen - 2)).
    + rewrite IH, <- app_assoc; [done|rewrite length_app; simpl; lia..].
    + rewrite IH by lia. by rewrite !take_app_le by lia.
Qed.

Lemma put_foldl outlen out c l :
  vfs_put outlen (foldl (vfs_put outlen) out l) c = foldl (vfs_put outlen) out (l ++ [c]).
Proof. by rewrite foldl_app. Qed.

(** The loop is one pass of [vfs_put] over the joined components. *)
Lemma vfs_join_foldl outlen comps out :
  vfs_join outlen out comps = foldl (vfs_put outlen) out (tail (join_path comps)).
Proof.
  revert out. induction comps as [|c comps IH]; intros out; [done|].
  destruct comps as [|c' comps].
  - simpl. by rewrite app_nil_r.
  - change (vfs_join outlen out (c :: c' :: comps))
      with (vfs_join outlen (vfs_put outlen (foldl (vfs_put outlen) out c) SLASH) (c' :: comps)).
    rewrite IH, put_foldl, <- foldl_app. f_equal. unfold join_path. simpl. by rewrite <- app_assoc.
Qed.

Lemma join_path_head comps : comps ≠ [] → join_path comps = SLASH :: tail (join_path comps).
Proof. by destruct comps. Qed.

(** ** What the arrays hold *)

(** [cwd] and [path] as one path. *)
Definition full_path (cwd : option (list Z)) (path : list Z) : list Z :=
  if decide (head path = Some SLASH) then path else
  let c := default [SLASH] cwd in
  (if decide (c = [] ∨ last c = Some SLASH) then c else c ++ [SLASH]) ++ path.

Lemma vfs_base_full cwd path :
  Z.of_nat (length (full_path cwd path)) < VFS_MAX_PATH → vfs_base cwd path = full_path cwd path.
Proof.
  unfold vfs_base, full_path, room, VFS_MAX_PATH. intros Hl. case_decide as Hh.
  - rewrite bool_decide_eq_true_2 by done. by rewrite take_ge by lia.
  - rewrite bool_decide_eq_false_2 by done. set (c := default [SLASH] cwd) in *.
    assert (Hc : (length c ≤ 511)%nat).
    { rewrite length_app in Hl. case_decide; rewrite ?length_app in Hl; lia. }
    rewrite (take_ge c) by lia. cbv zeta. destruct (decide (c = [] ∨ last c = Some SLASH)) as [Hs|Hs].
    + replace (_ && _) with false.
      * rewrite length_app in Hl. by rewrite take_ge by lia.
      * destruct Hs as [-> | ->]; [done|]. rewrite bool_decide_eq_true_2 by done. by rewrite andb_false_r.
    + rewrite bool_decide_eq_false_2 by tauto.
      assert (length c ≠ 0%nat) by (intros ?%nil_length_inv; tauto).
      replace (0 <? Z.of_nat (length c)) with true by lia. simpl.
      rewrite !length_app in Hl. rewrite take_ge by (rewrite length_app; lia). done.
Qed.

(** The string built from the components. *)
Definition vfs_output (outlen : Z) (comps : list (list Z)) : list Z :=
  let out := vfs_join outlen [SLASH] comps in
  if Z.of_nat (length out) =? 1 then out ++ [SLASH] else out.

Lemma vfs_join_take outlen comps :
  3 ≤ outlen → comps ≠ [] → vfs_join outlen [SLASH] comps = take (Z.to_nat (outlen - 2)) (join_path comps).
Proof. intros Ho Hc. rewrite vfs_join_foldl, foldl_put by (simpl; lia). by rewrite (join_path_head comps). Qed.

Lemma join_path_long comps : Forall (.≠ []) comps → comps ≠ [] → (2 ≤ length (join_path comps))%nat.
Proof.
  intros Hp Hc. destruct comps as [|c comps]; [done|]. apply Forall_cons in Hp as [Hp _].
  unfold join_path. simpl. rewrite length_app. destruct c; [done|]. simpl. lia.
Qed.

Lemma vfs_output_whole outlen comps :
  Forall (.≠ []) comps → Z.of_nat (length (answer comps)) ≤ outlen - 2 →
  vfs_output outlen comps = answer comps.
Proof.
  intros Hp Hl. unfold vfs_output. cbv zeta. destruct (decide (comps = [])) as [-> |Hc]; [done|].
  pose proof (join_path_long comps Hp Hc) as H2.
  assert (Hr : answer comps = join_path comps) by (unfold answer; rewrite decide_False by done; by destruct comps). rewrite Hr in *.
  rewrite vfs_join_take by (done || lia). rewrite take_ge by lia.
  by replace (Z.of_nat (length (join_path comps)) =? 1) with false by lia.
Qed.

(** An output shorter than the limit is not cut off. *)
Lemma vfs_output_short outlen comps :
  Forall (.≠ []) comps → Z.of_nat (length (vfs_output outlen comps)) < outlen - 2 →
  vfs_output outlen comps = answer comps.
Proof.
  intros Hp Hl. destruct (decide (comps = [])) as [-> |Hc]; [done|].
  pose proof (join_path_long comps Hp Hc) as H2.
  assert (Hr : answer comps = join_path comps) by (unfold answer; rewrite decide_False by done; by destruct comps).
  apply vfs_output_whole; [done|]. rewrite Hr. unfold vfs_output in Hl. cbv zeta in Hl.
  rewrite vfs_join_take in Hl by (done || (destruct (_ =? _); rewrite ?length_app in Hl; lia)).
  destruct (Z.eqb_spec (Z.of_nat (length (take (Z.to_nat (outlen - 2)) (join_path comps)))) 1) as [E|E];
    rewrite ?length_app in Hl; rewrite ?length_take in *; simpl in Hl; lia.
Qed.

(** The components found are plain, at most 32, and of at most 63 characters. *)
Definition comps_ok (comps : list (list Z)) : Prop :=
  Forall plain comps ∧ Forall (λ p, (length p ≤ 63)%nat) comps ∧ (length comps ≤ 32)%nat.

Lemma component_ok comps cur :
  comps_ok comps → Forall (λ c, c ≠ SLASH) cur → (length cur ≤ 63)%nat →
  ∃ comps', vfs_component comps cur = Some comps' ∧ comps_ok comps'.
Proof.
  intros (H1 & H2 & H3) Hs Hl. unfold vfs_component, vfs_push, within.
  replace (Z.of_nat (length cur) <? 64) with true by lia. cbn [negb].
  destruct (bool_decide (cur = []) || bool_decide (cur = [DOT])) eqn:E1; [by exists comps|].
  apply orb_false_iff in E1 as [E1%bool_decide_eq_false E2%bool_decide_eq_false]. case_bool_decide as E3.
  - eexists. split; [done|]. destruct comps as [|c comps _] using rev_ind; [done|]. rewrite removelast_last.
    apply Forall_app in H1 as [H1 _]. apply Forall_app in H2 as [H2 _]. rewrite length_app in H3.
    split_and!; [done..|lia].
  - destruct (Z.ltb_spec (Z.of_nat (length comps)) 32); [|by exists comps]. eexists. split; [done|]. unfold comps_ok.
    rewrite !Forall_app, length_app. split_and!; try done; [|by constructor|simpl; lia].
    constructor; [|done]. by split_and!.
Qed.

(** The loop stays inside its arrays, whatever it reads. *)
Lemma vfs_split_ok base comps cur :
  comps_ok comps → Forall (λ c, c ≠ SLASH) cur → (length cur ≤ 63)%nat →
  ∃ comps', vfs_split base comps cur = Some comps' ∧ comps_ok comps'.
Proof.
  revert comps cur. induction base as [|ch base IH]; intros comps cur Hc Hs Hl; simpl.
  - by apply component_ok.
  - destruct (Z.eqb_spec ch SLASH) as [-> |Hne].
    + destruct (component_ok comps cur Hc Hs Hl) as (comps' & -> & Hc'). apply IH; [done|done|simpl; lia].
    + unfold vfs_char, within. destruct (Z.ltb_spec (Z.of_nat (length cur)) 63); [|by apply IH].
      replace (Z.of_nat (length cur) <? 64) with true by lia. apply IH; [done| |].
      * apply Forall_app. split; [done|]. by constructor.
      * rewrite length_app. simpl. lia.
Qed.

Lemma vfs_split_starts base : ∃ comps, vfs_split base [] [] = Some comps ∧ comps_ok comps.
Proof. apply vfs_split_ok; [split_and!; simpl; [done..|lia]|done|simpl; lia]. Qed.

(** ** Paths in normal form *)

Lemma split_path_plain p l :
  Forall (λ c, c ≠ SLASH) p → split_path (p ++ SLASH :: l) = p :: split_path l ∧ split_path p = [p].
Proof.
  induction 1 as [|c p Hc Hp [IH1 IH2]]; simpl; [done|].
  destruct (Z.eqb_spec c SLASH); [done|]. by rewrite IH1, IH2.
Qed.

Lemma split_join comps :
  Forall plain comps → comps ≠ [] → split_path (join_path comps) = [] :: comps.
Proof.
  induction comps as [|c comps IH]; intros Hp Hc; [done|]. apply Forall_cons in Hp as [(_ & _ & _ & Hs) Hp].
  unfold join_path. simpl. f_equal. destruct comps as [|c' comps].
  - simpl. rewrite app_nil_r. by apply (split_path_plain c []).
  - specialize (IH Hp ltac:(done)). unfold join_path in IH. simpl in IH. injection IH as IH.
    simpl. rewrite (proj1 (split_path_plain c _ Hs)). by rewrite IH.
Qed.

Lemma resolve_plain st comps : Forall plain comps → foldl resolve1 st comps = st ++ comps.
Proof.
  intros Hp. revert st. induction Hp as [|c comps (H1 & H2 & H3 & _) _ IH]; intros st; simpl; [by rewrite app_nil_r|].
  rewrite IH. unfold resolve1. rewrite !decide_False by tauto. by rewrite <- app_assoc.
Qed.

Lemma plain_nonnil comps : Forall plain comps → Forall (.≠ []) comps.
Proof. intros Hp. eapply Forall_impl; [done|]. by intros p [? _]. Qed.

Lemma resolve_nonnil st parts : Forall (.≠ []) st → Forall (.≠ []) (foldl resolve1 st parts).
Proof.
  revert st. induction parts as [|p parts IH]; intros st Hs; [done|]. apply IH. unfold resolve1.
  destruct (decide (p = [] ∨ p = [DOT])) as [|Hn]; [done|]. case_decide.
  - destruct st as [|c st _] using rev_ind; [done|]. rewrite removelast_last. by apply Forall_app in Hs as [? _].
  - apply Forall_app. split; [done|]. constructor; [tauto|done].
Qed.

Lemma vfs_abs_path_output cwd path outlen comps :
  path ≠ [] → Z.of_nat (length (vfs_base cwd path)) < VFS_MAX_PATH → vfs_split (vfs_base cwd path) [] [] = Some comps →
  Z.of_nat (length (vfs_output outlen comps)) < outlen →
  vfs_abs_path cwd path outlen = Some (0, vfs_output outlen comps).
Proof.
  intros Hp Hb Hs Ho. unfold vfs_abs_path. rewrite bool_decide_eq_false_2 by done. cbv zeta.
  replace (VFS_MAX_PATH <=? _) with false by lia. rewrite Hs.
  fold (vfs_output outlen comps). by replace (outlen <=? _) with false by lia.
Qed.

Lemma vfs_resolves_run cwd path outlen :
  path ≠ [] → Z.of_nat (length (full_path cwd path)) < VFS_MAX_PATH →
  fits [] (split_path (full_path cwd path)) →
  Z.of_nat (length (answer (resolve (split_path (full_path cwd path))))) ≤ outlen - 2 →
  vfs_abs_path cwd path outlen = Some (0, answer (resolve (split_path (full_path cwd path)))).
Proof.
  intros Hp Hl Hf Ho. pose proof (vfs_base_full cwd path Hl) as Hb.
  assert (Hg : glue [] (split_path (full_path cwd path)) = split_path (full_path cwd path)).
  { by destruct (split_path _) eqn:E; [by apply split_path_nonnil in E|]. }
  assert (Hs : vfs_split (full_path cwd path) [] [] = Some (resolve (split_path (full_path cwd path)))).
  { rewrite vfs_split_spec; rewrite Hg; done. }
  assert (Hout := vfs_output_whole outlen _ (resolve_nonnil [] (split_path (full_path cwd path)) ltac:(done)) Ho).
  fold (resolve (split_path (full_path cwd path))) in Hout.
  rewrite (vfs_abs_path_output cwd path outlen (resolve (split_path (full_path cwd path)))); rewrite ?Hb, ?Hs, ?Hout; [done..|lia].
Qed.

(** ** The properties *)

(** C37: [vfs_abs_path] resolves.  Take a path and a directory that together have less
    than 512 bytes, in at most 32 parts of at most 63 characters, and a buffer of at
    least two bytes more than the answer.  The components of the directory followed by
    the path, without "" and "." and with every ".." undoing the component before it, are
    joined with a slash before each; the root alone is answered with two slashes where
    [render] and the comment in the code have one. *)
Theorem vfs_resolves cwd path outlen :
  let comps := resolve (split_path (full_path cwd path)) in
  path ≠ [] → Z.of_nat (length (full_path cwd path)) < 512 →
  fits [] (split_path (full_path cwd path)) →
  Z.of_nat (length (render comps)) + 2 ≤ outlen → 4 ≤ outlen →
  vfs_abs_path cwd path outlen = Some (0, if decide (comps = []) then [SLASH; SLASH] else render comps).
Proof.
  intros comps Hp Hl Hf Ho H4. apply vfs_resolves_run; [done|done|done|]. fold comps. unfold answer. case_decide; [simpl; lia|lia].
Qed.

Lemma vfs_resolves_witness :
  vfs_abs_path (Some [47; 97]) [98; 47; 46; 46; 47; 46; 47; 99] 256 = Some (0, [47; 97; 47; 99]).
Proof.
  apply (vfs_resolves (Some [47; 97]) [98; 47; 46; 46; 47; 46; 47; 99] 256).
  - done.
  - vm_compute. reflexivity.
  - split; [repeat constructor; simpl; lia|vm_compute; lia].
  - vm_compute. congruence.
  - lia.
Defined.

(** The resolved path is in normal form: resolving it again, from whatever
    directory, gives it back, when it was not cut off at the end of the buffer. *)
Theorem vfs_idempotent cwd cwd' path outlen r :
  vfs_abs_path cwd path outlen = Some (0, r) →
  Z.of_nat (length r) < outlen - 2 → Z.of_nat (length r) < VFS_MAX_PATH →
  vfs_abs_path cwd' r outlen = Some (0, r).
Proof.
  intros Hrun Hlen Hmax. destruct (vfs_split_starts (vfs_base cwd path)) as (comps & Hcs & Hplain & H63 & H32). pose proof (plain_nonnil comps Hplain) as Hnn.
  assert (Hr : r = vfs_output outlen comps).
  { unfold vfs_abs_path in Hrun. case_bool_decide; [done|]. cbv zeta in Hrun.
    destruct (VFS_MAX_PATH <=? _); [done|]. rewrite Hcs in Hrun. destruct (outlen <=? _); [done|]. by injection Hrun as <-. }
  assert (Hrr : r = answer comps) by (rewrite Hr; apply vfs_output_short; [done|by rewrite <- Hr]).
  assert (Hhead : head r = Some SLASH) by (rewrite Hrr; unfold answer; case_decide; by destruct comps).
  assert (Hfull : full_path cwd' r = r) by (unfold full_path; by rewrite decide_True).
  assert (Hres : fits [] (split_path r) ∧ resolve (split_path r) = comps).
  { rewrite Hrr. destruct (decide (comps = [])) as [-> |Hc].
    - split; [split; [by repeat constructor; simpl; lia|simpl; lia]|done].
    - replace (answer comps) with (join_path comps) by (unfold answer; rewrite decide_False by done; by destruct comps). rewrite split_join by done. split.
      + split; [by constructor; [simpl; lia|]|]. rewrite filter_cons_False by naive_solver. simpl.
        etrans; [apply length_filter|done].
      + exact (resolve_plain (resolve1 [] []) comps Hplain). }
  destruct Hres as [Hf Hcomps].
  rewrite (vfs_resolves_run cwd' r outlen); rewrite ?Hfull, ?Hcomps, <- ?Hrr; try done; [|lia].
  intros ->. done.
Qed.

Lemma vfs_idempotent_witness : vfs_abs_path None [47; 97; 47; 99] 256 = Some (0, [47; 97; 47; 99]).
Proof.
  apply (vfs_idempotent (Some [47; 97]) None [98; 47; 46; 46; 47; 99] 256).
  - vm_compute. reflexivity.
  - vm_compute. reflexivity.
  - vm_compute. reflexivity.
Defined.

Lemma vfs_put_length outlen out c :
  (length out ≤ length (vfs_put outlen out c))%nat ∧
  Z.of_nat (length (vfs_put outlen out c)) ≤ Z.max (Z.of_nat (length out)) (outlen - 2).
Proof.
  unfold vfs_put. destruct (Z.ltb_spec (Z.of_nat (length out)) (outlen - 2)); rewrite ?length_app; simpl; lia.
Qed.

(** C40: whatever the path, from a directory of at most 255 characters (what the field of
    a process holds) and into a buffer of four bytes or more, [vfs_abs_path] stores
    nothing outside [base\[512\]], [cur\[64\]], [comps\[32\]\[64\]], [depths\[32\]] or the
    buffer: it has a result, and the string and its terminator fit. *)
Theorem vfs_in_bounds cwd path outlen :
  4 ≤ outlen → (∀ c, cwd = Some c → (length c ≤ 255)%nat) →
  ∃ r out, vfs_abs_path cwd path outlen = Some (r, out) ∧ Z.of_nat (length out) + 1 ≤ outlen.
Proof.
  intros Ho Hc. destruct (decide (path = [])) as [-> |Hp]; [exists (-1), []; simpl; split; [done|lia]|].
  assert (Hb : Z.of_nat (length (vfs_base cwd path)) < VFS_MAX_PATH).
  { unfold vfs_base, room, VFS_MAX_PATH. case_bool_decide; [rewrite length_take; lia|].
    assert (Hd : (length (default [SLASH] cwd) ≤ 255)%nat) by (destruct cwd; simpl; [by apply Hc|lia]).
    cbv zeta. set (c := take _ _). assert (length c ≤ 255)%nat by (unfold c; rewrite length_take; lia).
    destruct (_ && _); rewrite length_app, length_take, ?length_app; simpl; lia. }
  destruct (vfs_split_starts (vfs_base cwd path)) as (comps & Hcs & _).
  assert (Hj : ∀ l out, Z.of_nat (length out) ≤ outlen - 2 →
    Z.of_nat (length (foldl (vfs_put outlen) out l)) ≤ outlen - 2).
  { induction l as [|x l IH]; intros out Hout; [done|]. apply IH. pose proof (vfs_put_length outlen out x). lia. }
  exists 0, (vfs_output outlen comps). assert (Z.of_nat (length (vfs_output outlen comps)) < outlen) as Hlt.
  { unfold vfs_output. cbv zeta. rewrite vfs_join_foldl.
    pose proof (Hj (tail (join_path comps)) [SLASH] ltac:(simpl; lia)).
    destruct (Z.eqb_spec (Z.of_nat (length (foldl (vfs_put outlen) [SLASH] (tail (join_path comps))))) 1);
      rewrite ?length_app; simpl; lia. }
  split; [by apply vfs_abs_path_output|lia].
Qed.

Lemma vfs_in_bounds_witness :
  ∃ r out, vfs_abs_path (Some [47; 97]) [98] 4 = Some (r, out) ∧ Z.of_nat (length out) + 1 ≤ 4.
Proof. apply (vfs_in_bounds (Some [47; 97]) [98] 4); [lia|]. intros c [= <-]. simpl. lia. Defined.
