(* ===== verification/Fat32.v ===== *)
(** * Fat32: [OvsbMk/fs/fat32.c]

    The FAT32 file system. The disk is a map from sector numbers to sectors of
    512 bytes: reading or writing a sector that is not there is the error the
    disk driver reports. Structures are read from and written to the bytes of a
    sector at their packed offsets. A chain of clusters may be cyclic: a walk
    along it that never ends has no result. *)

From Stdlib Require Import ZArith Lia.
From stdpp Require Import gmap list prelude.
From S2P Require Import Prelude.

Record fat := mkFat {
  f_disk : gmap Z (list Z);
  total_sectors_32 : Z;
  root_cluster : Z;
  first_data_sector : Z;
  sectors_per_cluster : Z;
  current_dir_cluster : Z;
  fat_start_sector : Z }.

Definition set_disk (d : gmap Z (list Z)) (s : fat) : fat :=
  mkFat d (total_sectors_32 s) (root_cluster s) (first_data_sector s) (sectors_per_cluster s)
    (current_dir_cluster s) (fat_start_sector s).
Definition set_cwd (c : Z) (s : fat) : fat :=
  mkFat (f_disk s) (total_sectors_32 s) (root_cluster s) (first_data_sector s) (sectors_per_cluster s)
    c (fat_start_sector s).

Abbreviation T := (M fat).

Definition FAT_ERR_NOTFOUND : Z := -1.
Definition FAT_ERR_EXISTS : Z := -2.
Definition FAT_ERR_IO : Z := -3.
Definition FAT_ERR_NOSPACE : Z := -4.
Definition FAT_ERR_NOTDIR : Z := -5.
Definition FAT_ERR_NOTEMPTY : Z := -6.
Definition EOC : Z := 0x0FFFFFF8.
Definition EOC_MARK : Z := 0x0FFFFFFF.

(** The disk driver: a sector's contents, or an error. *)
Definition read_sector (lba : Z) : T (option (list Z)) := gets (λ s, f_disk s !! lba).
Definition write_sector (lba : Z) (buf : list Z) : T bool := λ s,
  match f_disk s !! lba with
  | Some _ => Some (true, set_disk (<[lba := buf]> (f_disk s)) s)
  | None => Some (false, s)
  end.

(** ** Bytes of a sector *)

Definition byte_at (buf : list Z) (off : Z) : Z := default 0 (buf !! Z.to_nat off).
Definition slice (buf : list Z) (off n : Z) : list Z := take (Z.to_nat n) (drop (Z.to_nat off) buf).
Definition u16_at (buf : list Z) (off : Z) : Z := le_value (slice buf off 2).
Definition u32_at (buf : list Z) (off : Z) : Z := le_value (slice buf off 4).
Definition splice (buf : list Z) (off : Z) (bs : list Z) : list Z :=
  take (Z.to_nat off) buf ++ bs ++ drop (Z.to_nat off + length bs) buf.

(** [entries\[i\]] of a directory sector. *)
Definition e_off (i : Z) : Z := 32 * i.
Definition e_name (buf : list Z) (i : Z) : list Z := slice buf (e_off i) 11.
Definition e_name0 (buf : list Z) (i : Z) : Z := byte_at buf (e_off i).
Definition e_attr (buf : list Z) (i : Z) : Z := byte_at buf (e_off i + 11).
Definition e_size (buf : list Z) (i : Z) : Z := u32_at buf (e_off i + 28).

(** [first_cluster_of] *)
Definition first_cluster_of (buf : list Z) (i : Z) : Z :=
  Z.lor (Z.shiftl (u16_at buf (e_off i + 20)) 16) (u16_at buf (e_off i + 26)).

Definition put_name (i : Z) (n : list Z) (buf : list Z) : list Z := splice buf (e_off i) n.
Definition put_attr (i a : Z) (buf : list Z) : list Z := splice buf (e_off i + 11) [u8 a].
Definition put_size (i v : Z) (buf : list Z) : list Z := splice buf (e_off i + 28) (le_bytes 4 v).
Definition put_cluster (i c : Z) (buf : list Z) : list Z :=
  splice (splice buf (e_off i + 26) (le_bytes 2 (Z.land c 0xFFFF)))
    (e_off i + 20) (le_bytes 2 (Z.land (Z.shiftr c 16) 0xFFFF)).

(** ** Names *)

Definition upper (c : Z) : Z := if (97 <=? c) && (c <=? 122) then c - 0x20 else c.

(** The part of a name before the first dot, and the part after it. *)
Fixpoint cut_dot (name : list Z) : list Z * option (list Z) :=
  match name with
  | [] => ([], None)
  | c :: name' =>
      if c =? 46 then ([], Some name') else let '(b, e) := cut_dot name' in (c :: b, e)
  end.

Definition pad (n : nat) (l : list Z) : list Z := l ++ replicate (n - length l) 32.

Definition name_to_83 (name : list Z) : list Z :=
  if bool_decide (name = [46]) || bool_decide (name = [46; 46]) then pad 11 name
  else
    let '(b, e) := cut_dot name in
    pad 8 (upper <$> take 8 b) ++ pad 3 (upper <$> take 3 (default [] e)).

(** ** The allocation table *)

Definition cluster_to_sector (cluster : Z) : T Z :=
  gets (λ s, u32 (first_data_sector s + u32 (u32 (cluster - 2) * sectors_per_cluster s))).

Definition fat_sector_of (s : fat) (cluster : Z) : Z :=
  u32 (fat_start_sector s + u32 (cluster * 4) / 512).
Definition fat_offset_of (cluster : Z) : Z := u32 (cluster * 4) mod 512.

Definition fat_read_entry (cluster : Z) : T Z :=
  let! lba := gets (λ s, fat_sector_of s cluster) in
  let! r := read_sector lba in
  ret (match r with
       | None => 0
       | Some sector => Z.land (u32_at sector (fat_offset_of cluster)) 0x0FFFFFFF
       end).

Definition fat_write_entry (cluster value : Z) : T Z :=
  let! lba := gets (λ s, fat_sector_of s cluster) in
  let! r := read_sector lba in
  match r with
  | None => ret (-1)
  | Some sector =>
      let off := fat_offset_of cluster in
      let v := Z.lor (Z.land (u32_at sector off) 0xF0000000) (Z.land value 0x0FFFFFFF) in
      let! ok := write_sector lba (splice sector off (le_bytes 4 v)) in
      ret (if ok then 0 else -1)
  end.

(** The first cluster whose entry is 0, or 0; a disk of no clusters per sector
    is a division by zero. *)
Definition fat_find_free : T Z :=
  let! s := gets id in
  assert_ (negb (sectors_per_cluster s =? 0)) ;!
  let total := u32 (total_sectors_32 s - first_data_sector s) / sectors_per_cluster s in
  while_ (λ c,
    if c <? u32 (total + 2) then
      let! e := fat_read_entry c in
      ret (if e =? 0 then inr c else inl (u32 (c + 1)))
    else ret (inr 0)) 2.

Definition fat_chain_last (start : Z) : T Z :=
  while_ (λ c,
    let! next := fat_read_entry c in
    ret (if EOC <=? next then inr c else if next =? 0 then inr c else inl next)) start.

(** ** Chains of clusters *)

(** A loop over a list that may end early. *)
Fixpoint each {X A R} (l : list X) (step : X → A → T (A + R)) (a : A) : T (A + R) :=
  match l with
  | [] => ret (inl a)
  | x :: l' =>
      let! r := step x a in
      match r with inl a' => each l' step a' | inr b => ret (inr b) end
  end.

Definition in_chain (c : Z) : bool := (2 <=? c) && (c <? EOC).

(** The whole sectors of a cluster, read one after the other into the buffer. *)
Definition read_sectors (sector n : Z) (acc : list Z) : T (list Z + list Z) :=
  each (seqZ 0 n) (λ i acc,
    let! r := read_sector (u32 (sector + i)) in
    ret (match r with Some b => inl (acc ++ b) | None => inr acc end)) acc.

(** The result and the bytes stored in the buffer. *)
Definition read_chain (start size : Z) : T (Z * list Z) :=
  let! spc := gets sectors_per_cluster in
  let cluster_bytes := u32 (spc * 512) in
  while_ (λ '(cluster, offset, acc),
    if in_chain cluster && (offset <? size) then
      let! sector := cluster_to_sector cluster in
      let to_read := if cluster_bytes <? u32 (size - offset) then cluster_bytes else u32 (size - offset) in
      let num_sectors := to_read / 512 in
      let! r := read_sectors sector num_sectors acc in
      match r with
      | inr acc => ret (inr (-1, acc))
      | inl acc =>
          let remainder := to_read mod 512 in
          let! r := (if 0 <? remainder then
                       let! t := read_sector (u32 (sector + num_sectors)) in
                       ret ((λ b, acc ++ slice b 0 remainder) <$> t)
                     else ret (Some acc)) in
          match r with
          | None => ret (inr (-1, acc))
          | Some acc =>
              let! next := fat_read_entry cluster in
              ret (inl (next, u32 (offset + to_read), acc))
          end
      end
    else ret (inr (s32 offset, acc))) (start, 0, []).

(** Whole sectors of [data], from a sector on. *)
Definition write_sectors (sector n offset : Z) (data : list Z) : T bool :=
  let! r := each (seqZ 0 n) (λ i (_ : unit),
    let! ok := write_sector (u32 (sector + i)) (slice data (offset + i * 512) 512) in
    ret (if ok then inl tt else inr tt)) tt in
  ret (match r with inl _ => true | inr _ => false end).

(** The last, partial sector. *)
Definition write_rest (sector remainder offset : Z) (data : list Z) : T bool :=
  if 0 <? remainder then
    let! t := read_sector sector in
    match t with
    | None => ret false
    | Some b => write_sector sector (splice b 0 (slice data offset remainder))
    end
  else ret true.

(** The cluster after [cluster]: the next of the chain, or a fresh one. *)
Definition next_cluster (cluster : Z) : T (option Z) :=
  let! next := fat_read_entry cluster in
  if (next =? 0) || (EOC <=? next) then
    let! free := fat_find_free in
    if free =? 0 then ret None else
    let! r := fat_write_entry cluster free in
    if nz r then ret None else
    let! r := fat_write_entry free EOC_MARK in
    if nz r then ret None else ret (Some free)
  else ret (Some next).

Definition write_chain (start : Z) (data : list Z) (size : Z) : T Z :=
  let! spc := gets sectors_per_cluster in
  let cluster_bytes := u32 (spc * 512) in
  while_ (λ '(cluster, offset, size),
    if 0 <? size then
      let! sector := cluster_to_sector cluster in
      let to_write := if size <? cluster_bytes then size else cluster_bytes in
      let num_sectors := to_write / 512 in
      let! ok := write_sectors sector num_sectors offset data in
      if negb ok then ret (inr (-1)) else
      let! ok := write_rest (u32 (sector + num_sectors)) (to_write mod 512) (offset + num_sectors * 512) data in
      if negb ok then ret (inr (-1)) else
      let offset := u32 (offset + to_write) in
      let size := u32 (size - to_write) in
      if 0 <? size then
        let! n := next_cluster cluster in
        match n with None => ret (inr (-1)) | Some c => ret (inl (c, offset, size)) end
      else ret (inl (cluster, offset, size))
    else ret (inr (s32 offset))) (start, 0, size).

Definition alloc_clusters (start count : Z) : T Z :=
  let! r := each (seqZ 0 count) (λ _ prev,
    let! free := fat_find_free in
    if free =? 0 then ret (inr tt) else
    let! r := fat_write_entry prev free in
    if nz r then ret (inr tt) else
    let! r := fat_write_entry free EOC_MARK in
    if nz r then ret (inr tt) else ret (inl free)) start in
  ret (match r with inl _ => 0 | inr _ => -1 end).

(** ** Directories *)

(** The loops over the clusters of a directory, the sectors of a cluster and the
    sixteen entries of a sector that the functions below share: [io] is the
    result when a sector cannot be read, [step] sees a sector's number, its
    bytes and an entry, [fin] is the result at the end of the chain. *)
Definition scan {A R} (io : A → R) (step : Z → list Z → Z → A → T (A + R)) (fin : A → R)
    (dir : Z) (a : A) : T R :=
  while_ (λ '(cluster, a),
    if in_chain cluster then
      let! sector := cluster_to_sector cluster in
      let! spc := gets sectors_per_cluster in
      let! r := each (seqZ 0 spc) (λ i a,
        let lba := u32 (sector + i) in
        let! b := read_sector lba in
        match b with
        | None => ret (inr (io a))
        | Some buf => each (seqZ 0 16) (λ e a, step lba buf e a) a
        end) a in
      match r with
      | inr res => ret (inr res)
      | inl a => let! next := fat_read_entry cluster in ret (inl (next, a))
      end
    else ret (inr (fin a))) (dir, a).

(** *** Long names *)

(** The offsets of the thirteen characters in an entry of a long name. *)
Definition lofs : list Z := [1; 3; 5; 7; 9; 14; 16; 18; 20; 22; 24; 28; 30].

Record lfn := mkLfn { l_chars : gmap Z Z; l_len : Z; l_seq : Z }.

(** The characters of one entry, up to a zero or 0xFFFF. *)
Fixpoint lfn_chars (buf : list Z) (i pos k : Z) (ofs : list Z) (l : lfn) : lfn :=
  match ofs with
  | [] => l
  | o :: ofs' =>
      let u := u16_at buf (e_off i + o) in
      if (u =? 0) || (u =? 0xFFFF) then l else
      lfn_chars buf i pos (k + 1) ofs'
        (mkLfn (<[pos + k := Z.land u 0xFF]> (l_chars l))
           (if l_len l <? pos + k + 1 then pos + k + 1 else l_len l) (l_seq l))
  end.

Definition lfn_entry (buf : list Z) (i : Z) (l : lfn) : lfn :=
  let seq := e_name0 buf i in
  let l := if nz (Z.land seq 0x40) then mkLfn (l_chars l) 0 (Z.land seq 0x3F) else l in
  let e := l_seq l in
  if (1 <=? e) && (Z.land seq 0x3F =? e) && ((e - 1) * 13 + 13 <? 264) then
    let l := lfn_chars buf i ((e - 1) * 13) 0 lofs l in mkLfn (l_chars l) (l_len l) (e - 1)
  else mkLfn (l_chars l) 0 0.

(** Case does not matter; a character of the array that was never set has no
    value. *)
Fixpoint lfn_prefix (chars : gmap Z Z) (i : Z) (n : nat) (name : list Z) : option bool :=
  match n with
  | O => Some (bool_decide (name = []))
  | S n' =>
      match chars !! i with
      | None => None
      | Some lc =>
          match name with
          | [] => Some false
          | nc :: name' => if upper lc =? upper nc then lfn_prefix chars (i + 1) n' name' else Some false
          end
      end
  end.
Definition lfn_match (l : lfn) (name : list Z) : option bool :=
  lfn_prefix (l_chars l) 0 (Z.to_nat (l_len l)) name.

(** The sector of the entry, and the 32 bytes of the entry. *)
Definition find_entry (dir : Z) (name : list Z) : T (Z * list Z) :=
  scan (λ _, (-1, []))
    (λ lba buf i l,
      if e_name0 buf i =? 0 then ret (inr (-1, [])) else
      if e_name0 buf i =? 0xE5 then ret (inl (mkLfn (l_chars l) 0 (l_seq l))) else
      if e_attr buf i =? 0x0F then ret (inl (lfn_entry buf i l)) else
      let! long := (if 0 <? l_len l then
                      match lfn_match l name with Some b => ret b | None => stuck end
                    else ret false) in
      if long : bool then ret (inr (s32 lba, slice buf (e_off i) 32)) else
      if bool_decide (e_name buf i = name_to_83 name)
      then ret (inr (s32 lba, slice buf (e_off i) 32))
      else ret (inl (mkLfn (l_chars l) 0 (l_seq l))))
    (λ _, (-1, [])) dir (mkLfn ∅ 0 0).

Definition create_entry_at (dir : Z) (name : list Z) (attr : Z) : T Z :=
  scan (λ _, FAT_ERR_IO)
    (λ lba buf i (a : unit),
      if (e_name0 buf i =? 0) || (e_name0 buf i =? 0xE5) then
        let! ok := write_sector lba
          (put_cluster i 0 (put_size i 0 (put_attr i attr (put_name i (name_to_83 name) buf)))) in
        ret (inr (if ok then 0 else FAT_ERR_IO))
      else ret (inl a))
    (λ _, FAT_ERR_NOSPACE) dir tt.

Definition delete_entry_at (dir : Z) (name : list Z) : T Z :=
  scan (λ _, -1)
    (λ lba buf i (a : unit),
      if e_name0 buf i =? 0 then ret (inr (-1)) else
      if e_name0 buf i =? 0xE5 then ret (inl a) else
      if e_attr buf i =? 0x0F then ret (inl a) else
      if bool_decide (e_name buf i = name_to_83 name) then
        let! ok := write_sector lba (splice buf (e_off i) [0xE5]) in
        ret (inr (if ok then 0 else -1))
      else ret (inl a))
    (λ _, -1) dir tt.

(** What [list_dir_at] prints for an entry, but for the colours. *)
Definition two_digits (n : Z) : list Z := [48 + n / 10; 48 + n mod 10].
Definition dir_line (buf : list Z) (i : Z) : list Z :=
  let mt := u16_at buf (e_off i + 22) in
  let md := u16_at buf (e_off i + 24) in
  filter (.≠ 32) (e_name buf i) ++
  (if nz (Z.land (e_attr buf i) 0x10) then [47] else []) ++
  (if nz md then
     32 :: two_digits (Z.land (Z.shiftr md 5) 0x0F) ++ 45 :: two_digits (Z.land md 0x1F) ++
     32 :: two_digits (Z.land (Z.shiftr mt 11) 0x1F) ++ 58 :: two_digits (Z.land (Z.shiftr mt 5) 0x3F)
   else []) ++ [10].

(** The count, and the characters printed. *)
Definition list_dir_at (dir : Z) : T (Z * list Z) :=
  scan (λ a, (-1, snd a))
    (λ lba buf i a,
      if e_name0 buf i =? 0 then ret (inr a) else
      if e_name0 buf i =? 0xE5 then ret (inl a) else
      if e_attr buf i =? 0x0F then ret (inl a) else
      ret (inl (fst a + 1, snd a ++ dir_line buf i)))
    (λ a, a) dir (0, []).

(** The name of an entry as "BASE.EXT". *)
Fixpoint until_space (l : list Z) : list Z :=
  match l with [] => [] | c :: l' => if c =? 32 then [] else c :: until_space l' end.
Definition dotted_name (n83 : list Z) : list Z :=
  let b := until_space (take 8 n83) in
  let e := drop 8 n83 in
  if existsb (λ c, negb (c =? 32)) e && (0 <? Z.of_nat (length b))
  then b ++ 46 :: until_space e else b.

(** The state is the list of the names found, in order. *)
Definition fat32_match_prefix (prefix : list Z) (dir max_entries : Z) : T (list (list Z * Z)) :=
  while_ (λ '(cluster, a),
    if in_chain cluster && (Z.of_nat (length a) <? max_entries) then
      let! sector := cluster_to_sector cluster in
      let! spc := gets sectors_per_cluster in
      let! r := each (seqZ 0 spc) (λ i a,
        if Z.of_nat (length a) <? max_entries then
          let! b := read_sector (u32 (sector + i)) in
          match b with
          | None => ret (inr a)
          | Some buf => each (seqZ 0 16) (λ e a,
              if Z.of_nat (length a) <? max_entries then
                if e_name0 buf e =? 0 then ret (inr a) else
                if e_name0 buf e =? 0xE5 then ret (inl a) else
                if e_attr buf e =? 0x0F then ret (inl a) else
                let n := dotted_name (e_name buf e) in
                ret (inl (if bool_decide (prefix = []) || bool_decide (take (length prefix) n = prefix)
                          then a ++ [(take 63 n, e_attr buf e)] else a))
              else ret (inl a)) a
          end
        else ret (inl a)) a in
      match r with
      | inr res => ret (inr res)
      | inl a => let! next := fat_read_entry cluster in ret (inl (next, a))
      end
    else ret (inr a)) (dir, []).

(** ** The operations *)

Definition fat32_init : T Z :=
  let! r := read_sector 0 in
  match r with
  | None => ret (-1)
  | Some b =>
      modify (λ s, mkFat (f_disk s) (u32_at b 32) (u32_at b 44) (first_data_sector s)
        (sectors_per_cluster s) (current_dir_cluster s) (fat_start_sector s)) ;!
      if negb (u16_at b 510 =? 0xAA55) then ret (-1) else
      modify (λ s, mkFat (f_disk s) (total_sectors_32 s) (root_cluster s)
        (u32 (u16_at b 14 + u32 (byte_at b 16 * u32_at b 36))) (byte_at b 13) (root_cluster s)
        (u16_at b 14)) ;!
      ret 0
  end.

Definition fat32_create_file (name : list Z) : T Z :=
  let! d := gets current_dir_cluster in create_entry_at d name 0x20.

Definition fat32_delete_file (name : list Z) : T Z :=
  let! d := gets current_dir_cluster in delete_entry_at d name.

Definition fat32_list_dir : T (Z * list Z) :=
  let! d := gets current_dir_cluster in list_dir_at d.

Definition fat32_get_cwd : T Z := gets current_dir_cluster.
Definition fat32_set_cwd (cluster : Z) : T unit := modify (set_cwd cluster).

Definition fat32_change_dir (name : list Z) : T Z :=
  let! root := gets root_cluster in
  if bool_decide (name = []) || bool_decide (name = [47]) then modify (set_cwd root) ;! ret 0 else
  let! n := (if bool_decide (head name = Some 47) then modify (set_cwd root) ;! ret (tail name)
             else ret name) in
  let! d := gets current_dir_cluster in
  let! r := find_entry d n in
  if fst r <? 0 then ret FAT_ERR_NOTFOUND else
  if negb (nz (Z.land (e_attr (snd r) 0) 0x10)) then ret FAT_ERR_NOTDIR else
  let c := first_cluster_of (snd r) 0 in
  modify (set_cwd (if c =? 0 then root else c)) ;!
  ret 0.

(** The parts of a path between slashes. *)
Fixpoint parts (l : list Z) : list (list Z) :=
  match l with
  | [] => [[]]
  | c :: l' =>
      if c =? 47 then [] :: parts l'
      else match parts l' with p :: ps => (c :: p) :: ps | [] => [[c]] end
  end.

(** [fat32_walk]: go to the directory of a path; the result is the last part, cut
    to the buffer, or [None] for -1. *)
Definition fat32_walk (path : list Z) (outlen : Z) : T (option (list Z)) :=
  if bool_decide (path = []) then ret None else
  let tmp := take 511 path in
  let! root := gets root_cluster in
  let! cur := (if bool_decide (head tmp = Some 47) then modify (set_cwd root) ;! ret (tail tmp)
               else ret tmp) in
  let ps := parts cur in
  let file := default [] (last ps) in
  let! r := each (removelast ps) (λ w (_ : unit),
    if bool_decide (w = []) || bool_decide (w = [46]) then ret (inl tt) else
    let! r := fat32_change_dir w in
    ret (if r <? 0 then inr tt else inl tt)) tt in
  ret (match r with
       | inr _ => None
       | inl _ => if bool_decide (file = []) then None else Some (take (Z.to_nat (outlen - 1)) file)
       end).

Definition fat32_read_file (name : list Z) (size : Z) : T (Z * list Z) :=
  let! saved := gets current_dir_cluster in
  let! base := fat32_walk name 256 in
  match base with
  | None => modify (set_cwd saved) ;! ret (-1, [])
  | Some base =>
      let! d := gets current_dir_cluster in
      let! r := find_entry d base in
      modify (set_cwd saved) ;!
      if fst r <? 0 then ret (-1, []) else
      let cluster := first_cluster_of (snd r) 0 in
      if cluster =? 0 then ret (0, []) else
      let esize := e_size (snd r) 0 in
      read_chain cluster (if size <? esize then size else esize)
  end.

(** Write the size and the first cluster in the entry of the file. *)
Definition update_entry (dir : Z) (name : list Z) (cluster result : Z) : T Z :=
  scan (λ _, result)
    (λ lba buf i (a : unit),
      if e_name0 buf i =? 0xE5 then ret (inl a) else
      if e_attr buf i =? 0x0F then ret (inl a) else
      if bool_decide (e_name buf i = name_to_83 name) then
        let! ok := write_sector lba (put_cluster i cluster (put_size i result buf)) in
        ret (inr (if ok then result else -1))
      else ret (inl a))
    (λ _, result) dir tt.

Definition fat32_write_file (name data : list Z) (size : Z) : T Z :=
  let! d := gets current_dir_cluster in
  let! r := find_entry d name in
  if fst r <? 0 then ret (-1) else
  let! cluster := (let c := first_cluster_of (snd r) 0 in
    if c =? 0 then
      let! f := fat_find_free in
      if f =? 0 then ret 0 else
      let! r := fat_write_entry f EOC_MARK in
      ret (if nz r then 0 else f)
    else ret c) in
  if cluster =? 0 then ret (-1) else
  let! result := write_chain cluster data size in
  if result <? 0 then ret result else update_entry d name cluster result.

(** *** The name of the current directory *)

(** The cluster of "..", from the first sector of a directory. *)
Definition parent_of (c : Z) : T Z :=
  let! root := gets root_cluster in
  let! sector := cluster_to_sector c in
  let! b := read_sector sector in
  match b with
  | None => ret root
  | Some buf =>
      let i := list_find (λ i, e_name0 buf i ≠ 0xE5 ∧ e_attr buf i ≠ 0x0F ∧
        slice buf (e_off i) 3 = [46; 46; 32]) (seqZ 0 16) in
      ret (match i with
           | None => root
           | Some (_, i) => let p := first_cluster_of buf i in if p =? 0 then root else p
           end)
  end.

(** The name by which a directory lists a cluster. *)
Definition name_in (dir c : Z) : T (option (list Z)) :=
  while_ (λ pc,
    if in_chain pc then
      let! sector := cluster_to_sector pc in
      let! spc := gets sectors_per_cluster in
      let! r := each (seqZ 0 spc) (λ i (_ : unit),
        let! b := read_sector (u32 (sector + i)) in
        match b with
        | None => ret (inr None)
        | Some buf =>
            match list_find (λ i, e_name0 buf i ≠ 0 ∧ e_name0 buf i ≠ 0xE5 ∧ e_attr buf i ≠ 0x0F ∧
              first_cluster_of buf i = c) (seqZ 0 16) with
            | Some (_, i) => ret (inr (Some (e_name buf i)))
            | None => ret (inl tt)
            end
        end) tt in
      match r with
      | inr (Some n) => ret (inr (Some n))
      | _ => let! next := fat_read_entry pc in ret (inl next)
      end
    else ret (inr None)) dir.

Definition cwd_put (maxlen : Z) (out : list Z) (c : Z) : list Z :=
  if Z.of_nat (length out) <? maxlen - 1 then out ++ [c] else out.

(** The names, the innermost first, written from the last one on. *)
Fixpoint cwd_join (maxlen : Z) (names : list (list Z)) (out : list Z) : list Z :=
  match names with
  | [] => out
  | [n] => foldl (cwd_put maxlen) out (until_space n)
  | n :: names' =>
      cwd_join maxlen names' (cwd_put maxlen (foldl (cwd_put maxlen) out (until_space n)) 47)
  end.

(** More than sixteen names overrun [stack]. *)
Definition fat32_get_cwd_name (maxlen : Z) : T (list Z) :=
  let! root := gets root_cluster in
  let! cwd := gets current_dir_cluster in
  if cwd =? root then assert_ (1 <? maxlen) ;! ret [47] else
  let! stack := while_ (λ '(c, stack),
    if c =? root then ret (inr stack) else
    let! p := parent_of c in
    let! n := name_in p c in
    match n with
    | None => ret (inl (p, stack))
    | Some n => assert_ (Z.of_nat (length stack) <? 16) ;! ret (inl (p, n :: stack))
    end) (cwd, []) in
  let out := cwd_join maxlen stack [47] in
  assert_ (Z.of_nat (length out) <? maxlen) ;! ret out.

(** *** Making, renaming and removing *)

(** The first sector of a new directory. *)
Definition dot_sector (new cwd : Z) : list Z :=
  put_cluster 1 cwd (put_attr 1 0x10 (put_name 1 (pad 11 [46; 46])
  (put_cluster 0 new (put_attr 0 0x10 (put_name 0 (pad 11 [46]) (replicate 512 0)))))).

Definition fat32_mkdir (name : list Z) : T Z :=
  let! new := fat_find_free in
  if new =? 0 then ret FAT_ERR_NOSPACE else
  let! d := gets current_dir_cluster in
  let! r := find_entry d name in
  if 0 <=? fst r then ret FAT_ERR_EXISTS else
  let! r := create_entry_at d name 0x10 in
  if nz r then ret r else
  scan (λ _, FAT_ERR_IO)
    (λ lba buf i (a : unit),
      if e_name0 buf i =? 0xE5 then ret (inl a) else
      if e_attr buf i =? 0x0F then ret (inl a) else
      if bool_decide (e_name buf i = name_to_83 name) && nz (Z.land (e_attr buf i) 0x10) then
        let! ok := write_sector lba (put_cluster i new buf) in
        if negb ok then ret (inr FAT_ERR_IO) else
        let! ds := cluster_to_sector new in
        let! r := fat_write_entry new EOC_MARK in
        if nz r then ret (inr FAT_ERR_IO) else
        let! ok := write_sector ds (dot_sector new d) in
        ret (inr (if ok then 0 else FAT_ERR_IO))
      else ret (inl a))
    (λ _, -1) d tt.

Definition fat32_rename (oldname newname : list Z) : T Z :=
  let! d := gets current_dir_cluster in
  scan (λ _, FAT_ERR_IO)
    (λ lba buf i (a : unit),
      if (e_name0 buf i =? 0) || (e_name0 buf i =? 0xE5) then ret (inl a) else
      if e_attr buf i =? 0x0F then ret (inl a) else
      if bool_decide (e_name buf i = name_to_83 oldname) then
        let! ok := write_sector lba (put_name i (name_to_83 newname) buf) in
        ret (inr (if ok then 0 else FAT_ERR_IO))
      else ret (inl a))
    (λ _, FAT_ERR_NOTFOUND) d tt.

(** Free the clusters of a chain. *)
Definition free_chain (cl : Z) : T unit :=
  while_ (λ cl,
    let! next := fat_read_entry cl in
    let! _ := fat_write_entry cl 0 in
    ret (if in_chain next then inl next else inr tt)) cl.

(** The entries of a sector after the first two are free. *)
Definition looks_empty (buf : list Z) : bool :=
  forallb (λ i, (e_name0 buf i =? 0) || (e_name0 buf i =? 0xE5)) (seqZ 2 14).

Definition fat32_rmdir (name : list Z) : T Z :=
  let! d := gets current_dir_cluster in
  scan (λ _, FAT_ERR_IO)
    (λ lba buf i (a : unit),
      if (e_name0 buf i =? 0) || (e_name0 buf i =? 0xE5) then ret (inl a) else
      if e_attr buf i =? 0x0F then ret (inl a) else
      if bool_decide (e_name buf i = name_to_83 name) then
        if negb (nz (Z.land (e_attr buf i) 0x10)) then ret (inr FAT_ERR_NOTDIR) else
        let cl := first_cluster_of buf i in
        let! full := (if nz cl then
            let! ds := cluster_to_sector cl in
            let! b := read_sector ds in
            if match b with Some db => negb (looks_empty db) | None => false end then ret true
            else free_chain cl ;! ret false
          else ret false) in
        if full : bool then ret (inr FAT_ERR_NOTEMPTY) else
        let! ok := write_sector lba (splice buf (e_off i) [0xE5]) in
        ret (inr (if ok then 0 else FAT_ERR_IO))
      else ret (inl a))
    (λ _, FAT_ERR_NOTFOUND) d tt.

(** The size, the attributes and the modification time and date. *)
Definition fat32_stat (name : list Z) : T (Z * option (Z * Z * Z * Z)) :=
  let! saved := gets current_dir_cluster in
  let! base := fat32_walk name 256 in
  match base with
  | None => modify (set_cwd saved) ;! ret (FAT_ERR_NOTFOUND, None)
  | Some base =>
      let! d := gets current_dir_cluster in
      let! r := find_entry d base in
      modify (set_cwd saved) ;!
      if fst r <? 0 then ret (FAT_ERR_NOTFOUND, None) else
      ret (0, Some (e_size (snd r) 0, e_attr (snd r) 0, u16_at (snd r) 22, u16_at (snd r) 24))
  end.
