(* ===== verification/Fat32Proof.v ===== *)
(** * Fat32Proof: files in chains of clusters

    The allocation table behaves as a map from clusters to clusters; data written
    along a chain is read back along it; a write touches no cluster outside the
    chain of the file, and fails only when no cluster is free. *)

From Stdlib Require Import ZArith Lia.
From stdpp Require Import gmap list prelude.
From S2P Require Import Prelude Fat32.

Implicit Types s : fat.
Implicit Types d : gmap Z (list Z).
Implicit Types b : list Z.

(** ** Bytes *)

Definition bytes b : Prop := Forall (λ x, 0 ≤ x < 256) b.

Lemma byte_at_range b k : bytes b → 0 ≤ byte_at b k < 256.
Proof.
  intros Hb. unfold byte_at. destruct (b !! Z.to_nat k) as [x|] eqn:E; simpl; [|lia].
  by eapply (Forall_lookup_1 _ _ _ _ Hb).
Qed.

Lemma splice_length b off bs :
  0 ≤ off → off + Z.of_nat (length bs) ≤ Z.of_nat (length b) → length (splice b off bs) = length b.
Proof. intros. unfold splice. rewrite !length_app, length_take, length_drop. lia. Qed.

Lemma splice_bytes b off bs : bytes b → bytes bs → bytes (splice b off bs).
Proof. intros Hb Hs. unfold splice. repeat apply Forall_app_2; [by apply Forall_take|done|by apply Forall_drop]. Qed.

Lemma byte_splice b off bs k :
  0 ≤ off → off + Z.of_nat (length bs) ≤ Z.of_nat (length b) → 0 ≤ k →
  byte_at (splice b off bs) k =
    if decide (off ≤ k < off + Z.of_nat (length bs)) then byte_at bs (k - off) else byte_at b k.
Proof.
  intros Ho Hl Hk. unfold splice, byte_at.
  assert (Ht : length (take (Z.to_nat off) b) = Z.to_nat off) by (rewrite length_take; lia).
  case_decide; f_equal.
  - rewrite lookup_app_r by lia. rewrite lookup_app_l by lia. f_equal. lia.
  - destruct (decide (k < off)).
    + rewrite lookup_app_l by lia. by rewrite lookup_take_lt by lia.
    + rewrite lookup_app_r by lia. rewrite lookup_app_r by lia. rewrite lookup_drop. f_equal. lia.
Qed.

(** A part of a list, byte by byte. *)
Lemma slice_bytes b off n :
  0 ≤ off → 0 ≤ n → off + n ≤ Z.of_nat (length b) → slice b off n = byte_at b <$> seqZ off n.
Proof.
  intros Ho Hn Hl. unfold slice. apply list_eq. intros i. rewrite list_lookup_fmap.
  destruct (decide (i < Z.to_nat n)%nat).
  - rewrite lookup_take_lt, lookup_drop by lia.
    rewrite (proj2 (lookup_seqZ off n i (off + Z.of_nat i))) by lia. simpl. unfold byte_at.
    replace (Z.to_nat (off + Z.of_nat i)) with (Z.to_nat off + i)%nat by lia.
    destruct (lookup_lt_is_Some_2 b (Z.to_nat off + i)) as [x E]; [lia|]. by rewrite E.
  - rewrite lookup_take_ge by lia. rewrite lookup_ge_None_2; [done|]. rewrite length_seqZ. lia.
Qed.

Lemma u32_at_ext b b' off :
  0 ≤ off → off + 4 ≤ Z.of_nat (length b) → length b = length b' →
  (∀ k, off ≤ k < off + 4 → byte_at b' k = byte_at b k) → u32_at b' off = u32_at b off.
Proof.
  intros Ho Hl Hlen Hk. unfold u32_at. rewrite !slice_bytes by lia. f_equal.
  apply list_fmap_ext. intros i x E%lookup_seqZ. apply Hk. lia.
Qed.

Lemma u32_at_splice b off v :
  0 ≤ off → off + 4 ≤ Z.of_nat (length b) → 0 ≤ v < 2 ^ 32 →
  u32_at (splice b off (le_bytes 4 v)) off = v.
Proof.
  intros Ho Hl Hv. unfold u32_at. rewrite slice_bytes by (rewrite ?splice_length; simpl; lia).
  rewrite <- (Z.mod_small v (2 ^ 32)) at 2 by done. change (2 ^ 32) with (2 ^ (8 * Z.of_nat 4)).
  rewrite <- le_value_bytes. f_equal. rewrite <- (Z.add_0_r off) at 2.
  apply list_eq. intros i. rewrite list_lookup_fmap. destruct (decide (i < 4)%nat).
  - rewrite (proj2 (lookup_seqZ _ 4 i (off + 0 + Z.of_nat i))) by lia. cbn [fmap option_fmap option_map].
    rewrite byte_splice, decide_True by (simpl; lia). unfold byte_at.
    replace (Z.to_nat (off + 0 + Z.of_nat i - off)) with i by lia.
    destruct (lookup_lt_is_Some_2 (le_bytes 4 v) i) as [x E]; [simpl; lia|]. by rewrite E.
  - rewrite !lookup_ge_None_2; [done|simpl; lia|rewrite length_seqZ; lia].
Qed.

(** ** The disk *)

Section disk.
Variable s0 : fat.

Definition spc : Z := sectors_per_cluster s0.
Definition clusters : Z := u32 (total_sectors_32 s0 - first_data_sector s0) / spc.
Definition valid (c : Z) : Prop := 2 ≤ c < clusters + 2.

(** The layout: the table lies before the data, and nothing wraps around. *)
Record geometry : Prop := {
  g_spc : 1 ≤ spc ≤ 255;
  g_fat : 0 ≤ fat_start_sector s0;
  g_clusters : clusters + 2 ≤ EOC;
  g_table : fat_start_sector s0 + (clusters + 2) * 4 / 512 < first_data_sector s0;
  g_data : first_data_sector s0 + clusters * spc < 2 ^ 32 }.

(** Every sector of the table and of the data is there. *)
Definition disk_ok d : Prop :=
  ∀ lba, fat_start_sector s0 ≤ lba < first_data_sector s0 + clusters * spc →
    ∃ b, d !! lba = Some b ∧ length b = 512%nat ∧ bytes b.

Definition on (d : gmap Z (list Z)) : fat := set_disk d s0.

Definition sector_of d (lba : Z) : list Z := default [] (d !! lba).

(** The entry of a cluster, and the bytes of a cluster. *)
Definition entry d (c : Z) : Z :=
  Z.land (u32_at (sector_of d (fat_start_sector s0 + c * 4 / 512)) (c * 4 mod 512)) 0x0FFFFFFF.
Definition data_lba (c i : Z) : Z := first_data_sector s0 + (c - 2) * spc + i.
Definition cbyte d (c k : Z) : Z := byte_at (sector_of d (data_lba c (k / 512))) (k mod 512).

Context (G : geometry).

Lemma clusters_nonneg : 0 ≤ clusters.
Proof. apply Z.div_pos; [apply Z.mod_pos_bound; lia|]. destruct G. lia. Qed.

Lemma fat_sector_valid d c : valid c →
  fat_sector_of (on d) c = fat_start_sector s0 + c * 4 / 512 ∧ fat_offset_of c = c * 4 mod 512 ∧
  fat_start_sector s0 ≤ fat_start_sector s0 + c * 4 / 512 < first_data_sector s0 ∧
  0 ≤ c * 4 mod 512 ∧ c * 4 mod 512 + 4 ≤ 512.
Proof.
  intros Hc. destruct G. unfold valid in Hc. pose proof clusters_nonneg. unfold EOC in *.
  assert (Hle : c * 4 / 512 ≤ (clusters + 2) * 4 / 512) by (apply Z.div_le_mono; lia).
  assert (0 ≤ c * 4 / 512) by (apply Z.div_pos; lia).
  assert (0 ≤ clusters * spc) by (apply Z.mul_nonneg_nonneg; lia).
  unfold fat_sector_of, fat_offset_of. cbn [fat_start_sector on set_disk].
  rewrite !(u32_small (c * 4)) by lia. rewrite u32_small by lia. split_and!; try done; try lia.
  - apply Z.mod_pos_bound. lia.
  - replace (c * 4 mod 512) with (4 * (c mod 128)); [pose proof (Z.mod_pos_bound c 128); lia|].
    replace 512 with (128 * 4) by done. rewrite Zmult_mod_distr_r. lia.
Qed.

Lemma sector_ok d lba :
  disk_ok d → fat_start_sector s0 ≤ lba < first_data_sector s0 + clusters * spc →
  d !! lba = Some (sector_of d lba) ∧ length (sector_of d lba) = 512%nat ∧ bytes (sector_of d lba).
Proof. intros Hd Hl. destruct (Hd lba Hl) as (b & E & Hb). unfold sector_of. rewrite E. done. Qed.

Lemma fat_lba_ok d c : disk_ok d → valid c →
  let lba := fat_start_sector s0 + c * 4 / 512 in
  d !! lba = Some (sector_of d lba) ∧ length (sector_of d lba) = 512%nat ∧ bytes (sector_of d lba).
Proof.
  intros Hd Hc. destruct (fat_sector_valid d c Hc) as (_ & _ & Hr & _).
  apply sector_ok; [done|]. destruct G. pose proof clusters_nonneg. nia.
Qed.

Lemma fat_read_entry_run d c :
  disk_ok d → valid c → fat_read_entry c (on d) = Some (entry d c, on d).
Proof.
  intros Hd Hc. destruct (fat_sector_valid d c Hc) as (E1 & E2 & _).
  destruct (fat_lba_ok d c Hd Hc) as (E3 & _). unfold fat_read_entry, bind, gets, read_sector.
  rewrite E1. cbn [f_disk on set_disk gets]. rewrite E3, E2. done.
Qed.

(** The word stored: the four high bits stay, the others are those of the value. *)
Definition merged (old v : Z) : Z := Z.lor (Z.land old 0xF0000000) (Z.land v 0x0FFFFFFF).

Lemma merged_range old v : 0 ≤ merged old v < 2 ^ 32.
Proof.
  assert (E : merged old v = merged old v mod 2 ^ 32); [|rewrite E; by apply Z.mod_pos_bound].
  apply Z.bits_inj'. intros i Hi. rewrite Z.testbit_mod_pow2 by lia.
  destruct (Z.ltb_spec i 32) as [|Hge]; [done|]. unfold merged.
  rewrite Z.lor_spec, !Z.land_spec. rewrite (Z.bits_above_log2 0xF0000000), (Z.bits_above_log2 0x0FFFFFFF)
    by (change (Z.log2 0xF0000000) with 31 || change (Z.log2 0x0FFFFFFF) with 27; lia).
  by rewrite !andb_false_r.
Qed.

Lemma merged_low old v : Z.land (merged old v) 0x0FFFFFFF = Z.land v 0x0FFFFFFF.
Proof.
  apply Z.bits_inj'. intros i Hi. unfold merged. rewrite !Z.land_spec, Z.lor_spec, !Z.land_spec.
  change 0xF0000000 with (Z.shiftl 15 28). change 0x0FFFFFFF with (Z.ones 28).
  destruct (Z.lt_ge_cases i 28).
  - rewrite Z.shiftl_spec_low, Z.ones_spec_low by lia. by rewrite andb_false_r, !andb_true_r.
  - rewrite (Z.ones_spec_high 28) by lia. by rewrite !andb_false_r.
Qed.

Lemma sector_insert d lba b lba' :
  sector_of (<[lba := b]> d) lba' = if decide (lba = lba') then b else sector_of d lba'.
Proof.
  unfold sector_of. case_decide; [subst; by rewrite lookup_insert_eq|by rewrite lookup_insert_ne].
Qed.

Lemma disk_ok_insert d lba b :
  disk_ok d → length b = 512%nat → bytes b → disk_ok (<[lba := b]> d).
Proof.
  intros Hd Hl Hb x Hx. destruct (decide (x = lba)) as [-> |].
  - exists b. by rewrite lookup_insert_eq.
  - rewrite lookup_insert_ne by done. by apply Hd.
Qed.

(** A write to the table: the entry changes, no other entry and no data does. *)
Definition relinked d (c v : Z) d' : Prop :=
  disk_ok d' ∧ entry d' c = Z.land v 0x0FFFFFFF ∧
  (∀ c', valid c' → c' ≠ c → entry d' c' = entry d c') ∧
  (∀ lba, first_data_sector s0 ≤ lba → d' !! lba = d !! lba).

Lemma fat_write_entry_run d c v :
  disk_ok d → valid c → ∃ d', fat_write_entry c v (on d) = Some (0, on d') ∧ relinked d c v d'.
Proof.
  intros Hd Hc. destruct (fat_sector_valid d c Hc) as (E1 & E2 & Hlba & Ho1 & Ho2).
  destruct (fat_lba_ok d c Hd Hc) as (E3 & Hl & Hb). cbv zeta in *.
  set (lba := fat_start_sector s0 + c * 4 / 512) in *. set (off := c * 4 mod 512) in *.
  set (b := sector_of d lba) in *. set (w := merged (u32_at b off) v).
  pose proof (merged_range (u32_at b off) v) as Hw. fold w in Hw.
  set (d' := <[lba := splice b off (le_bytes 4 w)]> d).
  assert (Hsl : length (splice b off (le_bytes 4 w)) = 512%nat) by (rewrite splice_length; simpl; lia).
  exists d'. split; [|split_and!].
  - unfold fat_write_entry, bind, gets, read_sector. rewrite E1. cbn [f_disk on set_disk gets]. rewrite E3, E2.
    unfold write_sector. cbn [f_disk on set_disk]. rewrite E3. done.
  - apply disk_ok_insert; [done|done|]. apply splice_bytes; [done|apply le_bytes_range].
  - unfold entry. fold lba off. unfold d'. rewrite sector_insert, decide_True by done.
    rewrite u32_at_splice by (lia || done). apply merged_low.
  - intros c' Hc' Hne. destruct (fat_sector_valid d c' Hc') as (_ & _ & Hlba' & Ho1' & Ho2').
    unfold entry, d'. rewrite sector_insert. case_decide as Heq; [|done]. f_equal. rewrite <- Heq. fold b.
    apply u32_at_ext; [lia|lia|lia|]. intros k Hk. rewrite byte_splice by (simpl; lia).
    rewrite decide_False; [done|]. simpl. intros Hin.
    assert (c * 4 / 512 = c' * 4 / 512) as Hq by (unfold lba in Heq; lia).
    assert (Hoff : off ≠ c' * 4 mod 512).
    { intros E. apply Hne. pose proof (Z.div_mod (c * 4) 512 ltac:(lia)).
      pose proof (Z.div_mod (c' * 4) 512 ltac:(lia)). unfold off in E. lia. }
    assert (H4 : ∀ x, x * 4 mod 512 = 4 * (x mod 128)).
    { intros x. replace 512 with (128 * 4) by done. rewrite Zmult_mod_distr_r. lia. }
    unfold off in *. rewrite !H4 in *. lia.
  - intros x Hx. unfold d'. rewrite lookup_insert_ne by lia. done.
Qed.

(** A free cluster, or none is free. *)
Lemma fat_find_free_run d :
  disk_ok d →
  ∃ f, fat_find_free (on d) = Some (f, on d) ∧
    ((f = 0 ∧ ∀ c, valid c → entry d c ≠ 0) ∨ (valid f ∧ entry d f = 0)).
Proof.
  intros Hd. pose proof clusters_nonneg as Hcl. pose proof (g_clusters G) as Hc1. unfold EOC in Hc1.
  enough (wp fat_find_free (on d) (λ f s', s' = on d ∧
    ((f = 0 ∧ ∀ c, valid c → entry d c ≠ 0) ∨ (valid f ∧ entry d f = 0))))
    as (f & s' & E & -> & Hf) by (by exists f).
  unfold fat_find_free. wp_step. wp_step. unfold id. cbn [sectors_per_cluster on set_disk total_sectors_32 first_data_sector].
  wp_step. apply wp_assert. { pose proof (g_spc G). unfold spc in *. lia. }
  fold spc. fold clusters. cbv zeta. rewrite (u32_small (clusters + 2)) by lia.
  eapply (wp_while (λ c s', s' = on d ∧ 2 ≤ c ≤ clusters + 2 ∧ ∀ c', 2 ≤ c' < c → entry d c' ≠ 0)
    (λ c _, clusters + 2 - c)); [|split_and!; [done|lia..]|lia].
  intros c ? (-> & Hc & Hall). destruct (Z.ltb_spec c (clusters + 2)) as [Hlt|Hge].
  - wp_step. eapply wp_run; [apply fat_read_entry_run; [done|unfold valid; lia]|]. wp_step.
    destruct (Z.eqb_spec (entry d c) 0) as [E|Hne].
    + split; [done|]. right. split; [unfold valid; lia|done].
    + rewrite u32_small by lia. split; [|lia]. split_and!; [done|lia..|].
      intros c' Hc'. destruct (decide (c' = c)) as [-> |]; [done|]. apply Hall. lia.
  - wp_step. split; [done|]. left. split; [done|]. intros c' [? ?]. apply Hall. lia.
Qed.

(** ** Clusters *)

Lemma data_lba_bound c i :
  valid c → 0 ≤ i < spc → first_data_sector s0 ≤ data_lba c i < first_data_sector s0 + clusters * spc.
Proof. intros [Hc1 Hc2] Hi. unfold data_lba. nia. Qed.

Lemma data_lba_inj c i c' i' :
  0 ≤ i < spc → 0 ≤ i' < spc → data_lba c i = data_lba c' i' → c = c' ∧ i = i'.
Proof.
  intros Hi Hi'. unfold data_lba. intros E.
  assert (E' : spc * (c - 2) + i = spc * (c' - 2) + i') by lia.
  apply (Z.div_mod_unique spc) in E'; lia.
Qed.

Lemma data_nonneg : 0 ≤ first_data_sector s0.
Proof. destruct G. pose proof clusters_nonneg. assert (0 ≤ (clusters + 2) * 4 / 512) by (apply Z.div_pos; lia). lia. Qed.

Lemma cluster_to_sector_run d c : valid c → cluster_to_sector c (on d) = Some (data_lba c 0, on d).
Proof.
  intros Hc. pose proof (g_data G). pose proof (g_spc G). pose proof data_nonneg. pose proof (g_clusters G).
  pose proof (data_lba_bound c 0 Hc ltac:(lia)) as Hb. unfold data_lba in Hb.
  unfold cluster_to_sector, gets. cbn [first_data_sector sectors_per_cluster on set_disk]. fold spc.
  destruct Hc. unfold EOC in *. rewrite (u32_small (c - 2)) by lia. rewrite (u32_small ((c - 2) * spc)) by nia.
  rewrite u32_small by lia. unfold data_lba. do 2 f_equal. lia.
Qed.

Lemma u32_data_lba c i : valid c → 0 ≤ i < spc → u32 (data_lba c 0 + i) = data_lba c i.
Proof.
  intros Hc Hi. pose proof (data_lba_bound c i Hc Hi). pose proof (g_data G). pose proof data_nonneg.
  replace (data_lba c 0 + i) with (data_lba c i) by (unfold data_lba; lia). apply u32_small. lia.
Qed.

Lemma data_ok d c i : disk_ok d → valid c → 0 ≤ i < spc →
  d !! data_lba c i = Some (sector_of d (data_lba c i)) ∧
  length (sector_of d (data_lba c i)) = 512%nat ∧ bytes (sector_of d (data_lba c i)).
Proof.
  intros Hd Hc Hi. apply sector_ok; [done|]. pose proof (data_lba_bound c i Hc Hi).
  pose proof (g_table G). pose proof clusters_nonneg.
  assert (0 ≤ (clusters + 2) * 4 / 512) by (apply Z.div_pos; lia). lia.
Qed.

(** The start of a sector, as bytes of its cluster. *)
Lemma sector_cbytes d c i r : disk_ok d → valid c → 0 ≤ i < spc → 0 ≤ r ≤ 512 →
  slice (sector_of d (data_lba c i)) 0 r = cbyte d c <$> seqZ (i * 512) r.
Proof.
  intros Hd Hc Hi Hr. destruct (data_ok d c i Hd Hc Hi) as (_ & Hl & _).
  rewrite slice_bytes by lia. apply list_eq. intros j. rewrite !list_lookup_fmap.
  destruct (decide (j < Z.to_nat r)%nat).
  - rewrite (proj2 (lookup_seqZ 0 r j (0 + Z.of_nat j))) by lia.
    rewrite (proj2 (lookup_seqZ (i * 512) r j (i * 512 + Z.of_nat j))) by lia.
    cbn [fmap option_fmap option_map]. f_equal. unfold cbyte.
    rewrite (Z.add_comm (i * 512)), Z.div_add, Z.div_small, Z.mod_add, Z.mod_small by lia. done.
  - rewrite !lookup_ge_None_2 by (rewrite length_seqZ; lia). done.
Qed.

Lemma read_sectors_run d c n : disk_ok d → valid c → ∀ i acc, 0 ≤ i → i + Z.of_nat n ≤ spc →
  each (seqZ i (Z.of_nat n)) (λ i acc,
    let! r := read_sector (u32 (data_lba c 0 + i)) in
    ret (match r with Some b => inl (acc ++ b) | None => inr acc end)) acc (on d) =
  Some (inl (acc ++ (cbyte d c <$> seqZ (i * 512) (Z.of_nat n * 512))), on d).
Proof.
  intros Hd Hc. induction n as [|n IH]; intros i acc Hi Hn.
  - simpl. by rewrite app_nil_r.
  - rewrite seqZ_cons by lia. replace (Z.pred (Z.of_nat (S n))) with (Z.of_nat n) by lia.
    destruct (data_ok d c i Hd Hc ltac:(lia)) as (E & Hl & _).
    cbn [each]. unfold bind, read_sector, gets, ret. rewrite u32_data_lba by (done || lia).
    cbn [f_disk on set_disk]. rewrite E. cbv beta iota.
    pose proof (IH (Z.succ i) (acc ++ sector_of d (data_lba c i)) ltac:(lia) ltac:(lia)) as IH'.
    unfold bind, read_sector, gets, ret in IH'. rewrite IH'. do 2 f_equal. rewrite <- app_assoc. do 2 f_equal.
    replace (Z.of_nat (S n) * 512) with (512 + Z.of_nat n * 512) by lia.
    rewrite seqZ_app, fmap_app by lia. replace (Z.succ i * 512) with (i * 512 + 512) by lia. f_equal.
    rewrite <- (sector_cbytes d c i 512) by (done || lia). unfold slice. simpl.
    symmetry. apply take_ge. lia.
Qed.

(** ** Writing a cluster *)

(** [n] bytes of [data], from [off] on, are in the cluster; other sectors stay. *)
Definition written d (c n off : Z) (data : list Z) d' : Prop :=
  disk_ok d' ∧ (∀ lba, (∀ i, 0 ≤ i < spc → lba ≠ data_lba c i) → d' !! lba = d !! lba) ∧
  ∀ k, 0 ≤ k < n → cbyte d' c k = byte_at data (off + k).

Lemma cbyte_insert d c i b k : valid c → 0 ≤ i < spc → 0 ≤ k < spc * 512 →
  cbyte (<[data_lba c i := b]> d) c k = if decide (k / 512 = i) then byte_at b (k mod 512) else cbyte d c k.
Proof.
  intros Hc Hi Hk. unfold cbyte. rewrite sector_insert.
  assert (0 ≤ k / 512 < spc) by (split; [apply Z.div_pos; lia|apply Z.div_lt_upper_bound; lia]).
  destruct (decide (data_lba c i = data_lba c (k / 512))) as [E|E].
  - apply data_lba_inj in E as [_ E]; [|done..]. by rewrite decide_True.
  - rewrite decide_False; [done|]. intros Hki. apply E. by rewrite Hki.
Qed.

Lemma write_sectors_run c data off n : valid c → bytes data → 0 ≤ off → ∀ d i, disk_ok d →
  0 ≤ i → i + Z.of_nat n ≤ spc → off + (i + Z.of_nat n) * 512 ≤ Z.of_nat (length data) →
  ∃ d', each (seqZ i (Z.of_nat n)) (λ i (_ : unit),
      let! ok := write_sector (u32 (data_lba c 0 + i)) (slice data (off + i * 512) 512) in
      ret (if ok then inl tt else inr tt)) tt (on d) = Some (inl tt, on d') ∧
    disk_ok d' ∧ (∀ lba, (∀ i, 0 ≤ i < spc → lba ≠ data_lba c i) → d' !! lba = d !! lba) ∧
    ∀ k, 0 ≤ k < spc * 512 → cbyte d' c k =
      if decide (i * 512 ≤ k < (i + Z.of_nat n) * 512) then byte_at data (off + k) else cbyte d c k.
Proof.
  intros Hc Hdata Hoff. induction n as [|n IH]; intros d i Hd Hi Hn Hlen.
  - exists d. split_and!; try done. intros k Hk. by rewrite decide_False by lia.
  - rewrite seqZ_cons by lia. replace (Z.pred (Z.of_nat (S n))) with (Z.of_nat n) by lia.
    destruct (data_ok d c i Hd Hc ltac:(lia)) as (E & _). set (b := slice data (off + i * 512) 512).
    assert (Hb : b = byte_at data <$> seqZ (off + i * 512) 512) by (apply slice_bytes; lia).
    assert (Hbl : length b = 512%nat) by (rewrite Hb, length_fmap, length_seqZ; lia).
    destruct (IH (<[data_lba c i := b]> d) (Z.succ i)) as (d' & Hrun & Hd' & Hsame & Hbyte).
    + apply disk_ok_insert; [done|done|]. by apply Forall_take, Forall_drop.
    + lia.
    + lia.
    + lia.
    + exists d'. split_and!; [|done| |].
      * cbn [each]. unfold bind at 1. unfold bind at 1. unfold write_sector at 1.
        rewrite u32_data_lba by (done || lia). cbn [f_disk on set_disk]. rewrite E. cbn [ret].
        exact Hrun.
      * intros lba Hlba. rewrite Hsame by done. apply lookup_insert_ne. symmetry. apply Hlba. lia.
      * intros k Hk. rewrite Hbyte by done. rewrite cbyte_insert by (done || lia).
        pose proof (Z.div_mod k 512 ltac:(lia)). pose proof (Z.mod_pos_bound k 512 ltac:(lia)).
        destruct (decide (Z.succ i * 512 ≤ k < (Z.succ i + Z.of_nat n) * 512)).
        { by rewrite decide_True by lia. }
        destruct (decide (k / 512 = i)) as [Hki|].
        { rewrite decide_True by lia. unfold byte_at at 1. rewrite Hb, list_lookup_fmap.
          rewrite (proj2 (lookup_seqZ _ 512 (Z.to_nat (k mod 512)) (off + i * 512 + k mod 512))) by lia.
          simpl. f_equal. lia. }
        { rewrite decide_False by lia. done. }
Qed.

Definition cb : Z := spc * 512.

Lemma write_cluster_run d c data off n :
  disk_ok d → valid c → bytes data → 0 ≤ off → 0 < n ≤ cb → off + n ≤ Z.of_nat (length data) →
  ∃ d1 d2, write_sectors (data_lba c 0) (n / 512) off data (on d) = Some (true, on d1) ∧
    write_rest (u32 (data_lba c 0 + n / 512)) (n mod 512) (off + n / 512 * 512) data (on d1) =
      Some (true, on d2) ∧ written d c n off data d2.
Proof.
  intros Hd Hc Hdata Hoff Hn Hlen. unfold cb in Hn. set (q := n / 512). set (r := n mod 512).
  pose proof (Z.div_mod n 512 ltac:(lia)) as Hqr. fold q r in Hqr.
  pose proof (Z.mod_pos_bound n 512 ltac:(lia)) as Hr. fold r in Hr.
  assert (Hq : 0 ≤ q) by (apply Z.div_pos; lia).
  destruct (write_sectors_run c data off (Z.to_nat q) Hc Hdata Hoff d 0 Hd) as (d1 & Hrun & Hd1 & Hsame & Hbyte);
    [lia..|]. rewrite Z2Nat.id in Hrun, Hbyte by lia. exists d1.
  assert (Hw : write_sectors (data_lba c 0) q off data (on d) = Some (true, on d1)).
  { unfold write_sectors. unfold bind at 1. rewrite Hrun. done. }
  unfold write_rest. destruct (Z.ltb_spec 0 r) as [Hr0|Hr0].
  - destruct (data_ok d1 c q Hd1 Hc ltac:(lia)) as (E & Hl & Hb). set (b := sector_of d1 (data_lba c q)) in *.
    set (sl := slice data (off + q * 512) r).
    assert (Hsl : sl = byte_at data <$> seqZ (off + q * 512) r) by (apply slice_bytes; lia).
    assert (Hsll : Z.of_nat (length sl) = r) by (rewrite Hsl, length_fmap, length_seqZ; lia).
    exists (<[data_lba c q := splice b 0 sl]> d1). split_and!; [done| |split_and!].
    + rewrite u32_data_lba by (done || lia). unfold bind, read_sector, gets. cbn [f_disk on set_disk].
      rewrite E. unfold write_sector. cbn [f_disk on set_disk]. rewrite E. done.
    + apply disk_ok_insert; [done|rewrite splice_length; lia|]. apply splice_bytes; [done|].
      by apply Forall_take, Forall_drop.
    + intros lba Hlba. rewrite lookup_insert_ne by (symmetry; apply Hlba; lia). by apply Hsame.
    + intros k Hk. rewrite cbyte_insert by (done || lia).
      pose proof (Z.div_mod k 512 ltac:(lia)). pose proof (Z.mod_pos_bound k 512 ltac:(lia)).
      destruct (decide (k / 512 = q)) as [Hkq|Hkq].
      * rewrite byte_splice by lia. rewrite decide_True by lia. unfold byte_at at 1.
        rewrite Hsl, list_lookup_fmap.
        rewrite (proj2 (lookup_seqZ _ r (Z.to_nat (k mod 512 - 0)) (off + q * 512 + k mod 512))) by lia.
        simpl. f_equal. lia.
      * rewrite Hbyte by lia. rewrite decide_True by lia. done.
  - exists d1. split_and!; [done|done|split_and!]; try done. intros k Hk. rewrite Hbyte by lia.
    rewrite decide_True by lia. done.
Qed.

(** What a write to a cluster leaves alone. *)
Lemma written_other d c n off data d' x :
  written d c n off data d' → valid c → valid x →
  entry d' x = entry d x ∧ (x ≠ c → ∀ k, 0 ≤ k < cb → cbyte d' x k = cbyte d x k).
Proof.
  intros (_ & Hsame & _) Hc Hx. split.
  - destruct (fat_sector_valid d x Hx) as (_ & _ & Hr & _). unfold entry, sector_of. rewrite Hsame; [done|].
    intros i Hi. pose proof (data_lba_bound c i Hc Hi). lia.
  - intros Hne k Hk. unfold cbyte, sector_of. rewrite Hsame; [done|]. intros i Hi E. unfold cb in Hk.
    apply data_lba_inj in E as [? _]; [done| |done].
    split; [apply Z.div_pos; lia|apply Z.div_lt_upper_bound; lia].
Qed.

Lemma relinked_data d c v d' x k :
  relinked d c v d' → valid x → 0 ≤ k < cb → cbyte d' x k = cbyte d x k.
Proof.
  intros (_ & _ & _ & Hsame) Hx Hk. unfold cbyte, sector_of, cb in *. rewrite Hsame; [done|].
  apply data_lba_bound; [done|]. split; [apply Z.div_pos; lia|apply Z.div_lt_upper_bound; lia].
Qed.

(** ** Chains *)

(** The clusters of a file, in order, the last one marked as the end. *)
Definition wf_chain d (L : list Z) : Prop :=
  NoDup L ∧ Forall valid L ∧
  (∀ j x y, L !! j = Some x → L !! S j = Some y → entry d x = y) ∧
  (∀ z, last L = Some z → EOC ≤ entry d z).

(** The first [n] bytes of [data] are in the clusters of [L]. *)
Definition holds d (L : list Z) (data : list Z) (n : Z) : Prop :=
  n ≤ Z.of_nat (length L) * cb ∧
  ∀ k, 0 ≤ k < n → ∃ c, L !! Z.to_nat (k / cb) = Some c ∧ cbyte d c (k mod cb) = byte_at data k.

(** From [d] and [L0] to [d'] and [L]: the chain grew by clusters that were free,
    and no cluster outside it changed. *)
Definition grown d (L0 : list Z) d' (L : list Z) : Prop :=
  (∀ x, x ∈ L → x ∈ L0 ∨ entry d x = 0) ∧ L0 `prefix_of` L ∧
  ∀ x, valid x → x ∉ L → entry d' x = entry d x ∧ ∀ k, 0 ≤ k < cb → cbyte d' x k = cbyte d x k.

Lemma chain_nonzero d L x : wf_chain d L → x ∈ L → entry d x ≠ 0.
Proof.
  intros (_ & Hv & Hlink & Hend) [j Hj]%list_elem_of_lookup_1. destruct (L !! S j) as [y|] eqn:E.
  - rewrite (Hlink _ _ _ Hj E). pose proof (Forall_lookup_1 _ _ _ _ Hv E) as [? _]. lia.
  - assert (Hlast : last L = Some x).
    { rewrite last_lookup. rewrite <- Hj. f_equal. apply lookup_lt_Some in Hj. apply lookup_ge_None in E. lia. }
    specialize (Hend x Hlast). unfold EOC in Hend. lia.
Qed.

Lemma chain_valid d L j c : wf_chain d L → L !! j = Some c → valid c.
Proof. intros (_ & Hv & _) Hj. by eapply (Forall_lookup_1 _ _ _ _ Hv). Qed.

Lemma chain_written d L c n off data d' :
  wf_chain d L → valid c → written d c n off data d' → wf_chain d' L.
Proof.
  intros HL Hc Hw. pose proof HL as (Hnd & Hv & Hlink & Hend).
  assert (He : ∀ x, x ∈ L → entry d' x = entry d x).
  { intros x Hx. eapply written_other; [done..|]. by eapply Forall_forall. }
  split_and!; try done.
  - intros j x y Hx Hy. rewrite He by (by eapply list_elem_of_lookup_2). by eapply Hlink.
  - intros z Hz. rewrite He; [by apply Hend|]. rewrite last_lookup in Hz. by eapply list_elem_of_lookup_2.
Qed.

Lemma index_bound k j : 0 ≤ k < Z.of_nat j * cb → 0 < cb → (Z.to_nat (k / cb) < j)%nat.
Proof.
  intros Hk Hcb. assert (0 ≤ k / cb) by (apply Z.div_pos; lia).
  assert (k / cb < Z.of_nat j) by (apply Z.div_lt_upper_bound; lia). lia.
Qed.

Lemma cb_pos : 0 < cb.
Proof. unfold cb. destruct G. lia. Qed.

Lemma holds_written d L j c n data d' :
  wf_chain d L → L !! j = Some c → holds d L data (Z.of_nat j * cb) →
  written d c n (Z.of_nat j * cb) data d' → 0 < n ≤ cb → holds d' L data (Z.of_nat j * cb + n).
Proof.
  intros HL Hj [_ Hh] Hw Hn. pose proof cb_pos as Hcb. pose proof (lookup_lt_Some _ _ _ Hj).
  pose proof (chain_valid _ _ _ _ HL Hj) as Hc. split; [nia|]. intros k Hk.
  destruct (Z.lt_ge_cases k (Z.of_nat j * cb)) as [Hlt|Hge].
  - destruct (Hh k ltac:(lia)) as (x & Hx & Hb). exists x. split; [done|]. rewrite <- Hb.
    assert (Hne : x ≠ c).
    { intros ->. pose proof (index_bound k j ltac:(lia) Hcb).
      pose proof (NoDup_lookup _ _ _ _ (proj1 HL) Hx Hj). lia. }
    eapply written_other; [done|done| |done|apply Z.mod_pos_bound; lia]. by eapply chain_valid.
  - exists c. assert (Hd : k / cb = Z.of_nat j) by (symmetry; apply (Z.div_unique k cb _ (k - Z.of_nat j * cb)); lia).
    assert (Hm : k mod cb = k - Z.of_nat j * cb) by (rewrite Z.mod_eq, Hd; lia).
    rewrite Hd, Nat2Z.id, Hm. split; [done|]. destruct Hw as (_ & _ & Hb). rewrite Hb by lia. f_equal. lia.
Qed.

Lemma grown_written d0 L0 d L c n off data d' :
  grown d0 L0 d L → c ∈ L → valid c → written d c n off data d' → grown d0 L0 d' L.
Proof.
  intros (H1 & H2 & H3) Hc Hv Hw. split_and!; try done. intros x Hx Hn.
  destruct (written_other _ _ _ _ _ _ x Hw Hv Hx) as [E Hb]. destruct (H3 x Hx Hn) as [E0 Hb0].
  split; [by rewrite E|]. intros k Hk. rewrite Hb by (done || (intros ->; done)). by apply Hb0.
Qed.

(** One more cluster at the end of a chain. *)
Definition extended d (L : list Z) (f : Z) d' : Prop :=
  disk_ok d' ∧ wf_chain d' (L ++ [f]) ∧ valid f ∧ entry d f = 0 ∧
  (∀ x, valid x → x ∉ L ++ [f] → entry d' x = entry d x) ∧
  (∀ x k, valid x → 0 ≤ k < cb → cbyte d' x k = cbyte d x k).

Lemma land28 x : 0 ≤ x < 2 ^ 28 → Z.land x 0x0FFFFFFF = x.
Proof. intros Hx. change 0x0FFFFFFF with (Z.ones 28). rewrite Z.land_ones by lia. by apply Z.mod_small. Qed.

Lemma extend_chain d L c f d1 d2 :
  disk_ok d → wf_chain d L → last L = Some c → valid f → entry d f = 0 →
  relinked d c f d1 → relinked d1 f EOC_MARK d2 → extended d L f d2.
Proof.
  intros Hd HL Hlast Hf Hf0 HR1 HR2. pose proof HR1 as (Hd1 & He1 & Ho1 & Hs1).
  pose proof HR2 as (Hd2 & He2 & Ho2 & Hs2).
  pose proof HL as (Hnd & Hv & Hlink & Hend). pose proof (g_clusters G) as Hcl. unfold EOC in Hcl.
  assert (HfL : f ∉ L) by (intros Hin; by apply (chain_nonzero _ _ _ HL Hin)).
  assert (Hcin : c ∈ L) by (rewrite last_lookup in Hlast; by eapply list_elem_of_lookup_2).
  assert (Hcv : valid c) by (by eapply Forall_forall).
  assert (Hfc : f ≠ c) by (intros ->; done).
  assert (Hec : entry d2 c = f).
  { rewrite Ho2 by done. rewrite He1. apply land28. destruct Hf. lia. }
  assert (Hother : ∀ x, valid x → x ≠ c → x ≠ f → entry d2 x = entry d x).
  { intros x Hx Hxc Hxf. rewrite Ho2, Ho1 by done. done. }
  split_and!; try done; [split_and!| |].
  - apply NoDup_app. split_and!; [done| |apply NoDup_singleton]. intros x Hx ->%list_elem_of_singleton. done.
  - apply Forall_app. split; [done|]. by constructor.
  - intros j x y Hx Hy. apply lookup_snoc_Some in Hx as [[Hj Hx]|[-> ->]].
    2:{ apply lookup_lt_Some in Hy. rewrite length_app in Hy. simpl in Hy. lia. }
    apply lookup_snoc_Some in Hy as [[Hj' Hy]|[Hj' ->]].
    + assert (x ∈ L) by (by eapply list_elem_of_lookup_2).
      rewrite Hother; [by eapply Hlink|by eapply Forall_forall| |by intros ->]. intros ->.
      rewrite last_lookup in Hlast. pose proof (NoDup_lookup _ _ _ _ Hnd Hx Hlast). lia.
    + rewrite last_lookup in Hlast. replace (pred (length L)) with j in Hlast by lia.
      rewrite Hx in Hlast. injection Hlast as ->. done.
  - intros z Hz. rewrite last_snoc in Hz. injection Hz as <-. rewrite He2. done.
  - intros x Hx Hn. rewrite not_elem_of_app, list_elem_of_singleton in Hn. apply Hother; [done|intros ->; tauto|tauto].
  - intros x k Hx Hk. by rewrite (relinked_data d1 f EOC_MARK d2), (relinked_data d c f d1).
Qed.

Lemma next_cluster_run d L j c :
  disk_ok d → wf_chain d L → L !! j = Some c →
  ∃ r d', next_cluster c (on d) = Some (r, on d') ∧
    match r with
    | None => d' = d ∧ ∀ x, valid x → entry d x ≠ 0
    | Some n => (d' = d ∧ L !! S j = Some n) ∨ (S j = length L ∧ extended d L n d')
    end.
Proof.
  intros Hd HL Hj. pose proof (chain_valid _ _ _ _ HL Hj) as Hc. pose proof HL as (_ & Hv & Hlink & Hend).
  pose proof (fat_read_entry_run d c Hd Hc) as Er. destruct (L !! S j) as [y|] eqn:Ey.
  - exists (Some y), d. split; [|by left]. unfold next_cluster, bind. rewrite Er, (Hlink _ _ _ Hj Ey).
    pose proof (Forall_lookup_1 _ _ _ _ Hv Ey) as [Hy1 Hy2]. pose proof (g_clusters G).
    replace (y =? 0) with false by lia. by replace (EOC <=? y) with false by lia.
  - apply lookup_ge_None in Ey. pose proof (lookup_lt_Some _ _ _ Hj) as Hlt.
    assert (Hlast : last L = Some c).
    { rewrite last_lookup, <- Hj. f_equal. lia. }
    assert (Hcond : (entry d c =? 0) || (EOC <=? entry d c) = true).
    { specialize (Hend c Hlast). apply orb_true_iff. right. by apply Z.leb_le. }
    destruct (fat_find_free_run d Hd) as (f & Ef & [[-> Hfull]|[Hf Hf0]]).
    + exists None, d. split; [|done]. unfold next_cluster, bind. rewrite Er, Hcond, Ef. done.
    + destruct (fat_write_entry_run d c f Hd Hc) as (d1 & E1 & H1).
      destruct (fat_write_entry_run d1 f EOC_MARK (proj1 H1) Hf) as (d2 & E2 & H2).
      exists (Some f), d2. split; [|right; split; [lia|by eapply extend_chain]].
      unfold next_cluster, bind. rewrite Er, Hcond, Ef. destruct Hf. replace (f =? 0) with false by lia.
      rewrite E1. cbn [nz negb Z.eqb]. rewrite E2. done.
Qed.

Lemma extended_grown d0 L0 d L f d' :
  grown d0 L0 d L → extended d L f d' → grown d0 L0 d' (L ++ [f]).
Proof.
  intros (H1 & H2 & H3) (_ & HL & Hf & Hf0 & He & Hb). pose proof HL as (Hnd & _).
  assert (HfL : f ∉ L).
  { apply NoDup_app in Hnd as (_ & Hn & _). intros Hin. apply (Hn f Hin). by apply list_elem_of_singleton. }
  split_and!.
  - intros x [Hx|Hx%list_elem_of_singleton]%elem_of_app; [by apply H1|]. subst x.
    right. rewrite <- (proj1 (H3 f Hf HfL)). done.
  - by apply prefix_app_r.
  - intros x Hx Hn. pose proof Hn as Hn'. rewrite not_elem_of_app in Hn'. destruct Hn' as [HnL _].
    destruct (H3 x Hx HnL) as [E Hk]. split; [by rewrite He|]. intros k Hkk. rewrite Hb by done. by apply Hk.
Qed.

Lemma holds_extended d L f d' data n :
  wf_chain d L → holds d L data n → extended d L f d' → holds d' (L ++ [f]) data n.
Proof.
  intros HL [Hlen Hh] (_ & _ & _ & _ & _ & Hb). pose proof cb_pos. split; [rewrite length_app; simpl; nia|].
  intros k Hk. destruct (Hh k Hk) as (c & Hc & E). exists c. split; [by apply lookup_app_l_Some|].
  rewrite <- E. apply Hb; [by eapply chain_valid|apply Z.mod_pos_bound; lia].
Qed.

(** Where the loop of [write_chain] is: [off] bytes are stored, [rem] remain, and
    the current cluster is the one the next byte goes to. *)
Definition writing d0 (L0 : list Z) (data : list Z) (size c off rem : Z) d (L : list Z) : Prop :=
  disk_ok d ∧ wf_chain d L ∧ grown d0 L0 d L ∧ holds d L data off ∧ off + rem = size ∧ 0 ≤ off ∧
  (0 < rem → ∃ j, L !! j = Some c ∧ off = Z.of_nat j * cb) ∧ 0 ≤ rem.

Lemma write_chain_run d0 L0 start data size :
  disk_ok d0 → wf_chain d0 L0 → head L0 = Some start → bytes data →
  0 ≤ size < 2 ^ 31 → size ≤ Z.of_nat (length data) →
  wp (write_chain start data size) (on d0) (λ r s', ∃ d' L, s' = on d' ∧ disk_ok d' ∧
    wf_chain d' L ∧ grown d0 L0 d' L ∧
    ((r = size ∧ holds d' L data size) ∨ (r = -1 ∧ ∀ x, valid x → entry d' x ≠ 0))).
Proof.
  intros Hd0 HL0 Hstart Hdata Hsize Hlen. pose proof cb_pos as Hcb. pose proof (g_spc G) as Hspc.
  unfold write_chain. wp_step. wp_step. cbn [sectors_per_cluster on set_disk]. fold spc. cbv zeta.
  rewrite (u32_small (spc * 512)) by lia. fold cb.
  eapply (wp_while (λ '(c, off, rem) s', ∃ d L, s' = on d ∧ writing d0 L0 data size c off rem d L)
    (λ '(_, _, rem) _, rem)); [| |lia].
  2:{ exists d0, L0. split; [done|]. split_and!; try done; try lia.
      - split_and!; try done. intros x Hx. by left.
      - split; [nia|]. intros k Hk. lia.
      - intros _. exists 0%nat. split; [by rewrite <- head_lookup|lia]. }
  intros [[c off] rem] ? (d & L & -> & Hd & HL & HG & Hh & Hsum & Hoff & Hpos & Hleft).
  destruct (Z.ltb_spec 0 rem) as [Hlt|Hge].
  2:{ wp_step. assert (rem = 0) as -> by lia. assert (off = size) as -> by lia.
      exists d, L. split_and!; try done. left. split; [apply s32_small; lia|done]. }
  destruct (Hpos Hlt) as (j & Hj & ->). pose proof (chain_valid _ _ _ _ HL Hj) as Hc.
  wp_step. eapply wp_run; [by apply cluster_to_sector_run|].
  set (n := if rem <? cb then rem else cb).
  assert (Hn : 0 < n ≤ cb ∧ n ≤ rem) by (unfold n; destruct (Z.ltb_spec rem cb); lia).
  destruct (write_cluster_run d c data (Z.of_nat j * cb) n Hd Hc Hdata) as (d1 & d2 & E1 & E2 & Hw); [lia..|].
  wp_step. eapply wp_run; [exact E1|]. cbn [negb]. wp_step. eapply wp_run; [exact E2|]. cbn [negb].
  rewrite (u32_small (Z.of_nat j * cb + n)), (u32_small (rem - n)) by lia.
  pose proof (chain_written _ _ _ _ _ _ _ HL Hc Hw) as HL2. pose proof (holds_written _ _ _ _ _ _ _ HL Hj Hh Hw ltac:(lia)) as Hh2.
  pose proof (grown_written _ _ _ _ _ _ _ _ _ HG ltac:(by eapply list_elem_of_lookup_2) Hc Hw) as HG2.
  pose proof (proj1 Hw) as Hd2. destruct (Z.ltb_spec 0 (rem - n)) as [Hmore|Hdone].
  2:{ wp_step. split; [|lia]. exists d2, L. split; [done|]. split_and!; try done; lia. }
  assert (n = cb) as En by (unfold n in *; destruct (Z.ltb_spec rem cb); lia).
  destruct (next_cluster_run d2 L j c Hd2 HL2 Hj) as (r & d3 & E3 & Hr). wp_step. eapply wp_run; [exact E3|].
  destruct r as [nx|].
  - wp_step. split; [|lia]. destruct Hr as [[-> Hnx]|[Hjl Hext]].
    + exists d2, L. split; [done|]. split_and!; try done; try lia. intros _. exists (S j). split; [done|lia].
    + exists d3, (L ++ [nx]). split; [done|]. pose proof Hext as (Hd3 & HL3 & _).
      split_and!; try done; try lia.
      * by eapply extended_grown.
      * by eapply holds_extended.
      * intros _. exists (S j). split; [|lia]. rewrite Hjl. by apply list_lookup_middle.
  - wp_step. destruct Hr as [-> Hfull]. exists d2, L. split_and!; try done. by right.
Qed.

(** ** Reading *)

Lemma holds_cbytes d L j c data size n :
  holds d L data size → L !! j = Some c → 0 ≤ n ≤ cb → Z.of_nat j * cb + n ≤ size →
  cbyte d c <$> seqZ 0 n = byte_at data <$> seqZ (Z.of_nat j * cb) n.
Proof.
  intros [_ Hh] Hj Hn Hs. pose proof cb_pos. apply list_eq. intros i. rewrite !list_lookup_fmap.
  destruct (decide (i < Z.to_nat n)%nat).
  - rewrite (proj2 (lookup_seqZ 0 n i (Z.of_nat i))) by lia.
    rewrite (proj2 (lookup_seqZ _ n i (Z.of_nat j * cb + Z.of_nat i))) by lia.
    cbn [fmap option_fmap option_map]. f_equal.
    destruct (Hh (Z.of_nat j * cb + Z.of_nat i) ltac:(nia)) as (x & Hx & E).
    rewrite Z.add_comm, Z.div_add, Z.div_small, Z.add_0_l, Nat2Z.id in Hx by lia.
    rewrite Hj in Hx. injection Hx as <-. rewrite <- E. f_equal.
    rewrite Z.add_comm, Z.mod_add, Z.mod_small by lia. done.
  - rewrite !lookup_ge_None_2 by (rewrite length_seqZ; lia). done.
Qed.

(** The part of [read_chain] that reads one cluster. *)
Lemma read_cluster_run d c n acc : disk_ok d → valid c → 0 < n ≤ cb →
  read_sectors (data_lba c 0) (n / 512) acc (on d) =
    Some (inl (acc ++ (cbyte d c <$> seqZ 0 (n / 512 * 512))), on d) ∧
  (0 < n mod 512 →
   read_sector (u32 (data_lba c 0 + n / 512)) (on d) = Some (Some (sector_of d (data_lba c (n / 512))), on d) ∧
   (cbyte d c <$> seqZ 0 (n / 512 * 512)) ++ slice (sector_of d (data_lba c (n / 512))) 0 (n mod 512) =
     cbyte d c <$> seqZ 0 n) ∧
  (n mod 512 = 0 → n / 512 * 512 = n).
Proof.
  intros Hd Hc Hn. unfold cb in Hn. pose proof (Z.div_mod n 512 ltac:(lia)) as Hqr.
  pose proof (Z.mod_pos_bound n 512 ltac:(lia)) as Hr. assert (0 ≤ n / 512) by (apply Z.div_pos; lia).
  set (q := n / 512) in *. set (r := n mod 512) in *. split_and!.
  - pose proof (read_sectors_run d c (Z.to_nat q) Hd Hc 0 acc ltac:(lia) ltac:(lia)) as E.
    rewrite Z2Nat.id in E by lia. exact E.
  - intros Hr0. destruct (data_ok d c q Hd Hc ltac:(lia)) as (E & _). split.
    + unfold read_sector, gets. rewrite u32_data_lba by (done || lia). cbn [f_disk on set_disk]. by rewrite E.
    + rewrite sector_cbytes, <- fmap_app by (done || lia). f_equal.
      rewrite <- seqZ_app by lia. f_equal. lia.
  - lia.
Qed.

(** Where the loop of [read_chain] is: the bytes before [off] are in [acc], and the
    current cluster holds the next one. *)
Definition reading d (L data : list Z) (size : Z) (a : Z * Z * list Z) (s' : fat) : Prop :=
  let '(c, off, acc) := a in
  s' = on d ∧ 0 ≤ off ≤ size ∧ acc = byte_at data <$> seqZ 0 off ∧
  (off < size → ∃ j, L !! j = Some c ∧ off = Z.of_nat j * cb).

Lemma read_chain_run d L start data size :
  disk_ok d → wf_chain d L → head L = Some start → holds d L data size → 0 ≤ size < 2 ^ 31 →
  read_chain start size (on d) = Some ((size, byte_at data <$> seqZ 0 size), on d).
Proof.
  intros Hd HL Hstart Hh Hsize. pose proof cb_pos as Hcb. pose proof (g_spc G) as Hspc.
  enough (wp (read_chain start size) (on d) (λ r s', s' = on d ∧ r = (size, byte_at data <$> seqZ 0 size)))
    as (r & s' & E & -> & ->) by done.
  unfold read_chain. wp_step. wp_step. cbn [sectors_per_cluster on set_disk]. fold spc. cbv zeta.
  rewrite (u32_small (spc * 512)) by lia. fold cb.
  eapply (wp_while (reading d L data size) (λ a _, size - a.1.2)); [| |simpl; lia].
  2:{ split_and!; [done|lia|lia|done|]. intros _. exists 0%nat. split; [by rewrite <- head_lookup|lia]. }
  intros [[c off] acc] ? (-> & Hoff & -> & Hpos). destruct (Z.ltb_spec off size) as [Hlt|Hge].
  2:{ rewrite andb_false_r. wp_step. assert (off = size) as -> by lia. split; [done|]. by rewrite s32_small by lia. }
  destruct (Hpos Hlt) as (j & Hj & ->). pose proof (chain_valid _ _ _ _ HL Hj) as Hc.
  pose proof (g_clusters G) as Hcl. assert (Hin : in_chain c = true) by (unfold in_chain; destruct Hc; lia).
  rewrite Hin. cbn [andb]. wp_step. eapply wp_run; [by apply cluster_to_sector_run|].
  rewrite (u32_small (size - Z.of_nat j * cb)) by lia.
  set (n := if cb <? size - Z.of_nat j * cb then cb else size - Z.of_nat j * cb).
  assert (Hn : 0 < n ≤ cb ∧ n ≤ size - Z.of_nat j * cb ∧ (Z.of_nat j * cb + n < size → n = cb))
    by (unfold n; destruct (Z.ltb_spec cb (size - Z.of_nat j * cb)); lia).
  destruct (read_cluster_run d c n (byte_at data <$> seqZ 0 (Z.of_nat j * cb)) Hd Hc ltac:(lia)) as (E1 & E2 & E3).
  wp_step. eapply wp_run; [exact E1|]. cbv iota. wp_step. rewrite (u32_small (Z.of_nat j * cb + n)) by lia.
  assert (Hacc : (byte_at data <$> seqZ 0 (Z.of_nat j * cb)) ++ (cbyte d c <$> seqZ 0 n) =
    byte_at data <$> seqZ 0 (Z.of_nat j * cb + n)).
  { rewrite (holds_cbytes d L j c data size n) by (done || lia). rewrite <- fmap_app. f_equal.
    rewrite seqZ_app by lia. done. }
  assert (Hnext : wp (fat_read_entry c) (on d) (λ next s', s' = on d ∧
    (Z.of_nat j * cb + n < size → L !! S j = Some next))).
  { eapply wp_run; [by apply fat_read_entry_run|]. split; [done|]. intros Hm.
    destruct (lookup_lt_is_Some_2 L (S j)) as [y Hy]; [destruct Hh as [Hh _]; nia|].
    destruct HL as (_ & _ & Hlink & _). by rewrite (Hlink _ _ _ Hj Hy). }
  assert (Hfin : ∀ acc', acc' = byte_at data <$> seqZ 0 (Z.of_nat j * cb + n) →
    wp (let! next := fat_read_entry c in ret (inl (next, Z.of_nat j * cb + n, acc'))) (on d)
      (λ r s', match r with
       | inl a => reading d L data size a s' ∧ 0 ≤ size - a.1.2 < size - Z.of_nat j * cb
       | inr r => s' = on d ∧ r = (size, byte_at data <$> seqZ 0 size) end)).
  { intros acc' ->. wp_step. eapply wp_mono; [exact Hnext|]. intros next ? [-> Hnx]. wp_step.
    split; [|simpl; lia]. split_and!; [done|lia|lia|done|]. intros Hm. exists (S j). split; [by apply Hnx|lia]. }
  destruct (Z.ltb_spec 0 (n mod 512)) as [Hr|Hr].
  - destruct (E2 Hr) as [E2' Ecat]. wp_step. eapply wp_run; [exact E2'|]. wp_step.
    cbn [fmap option_fmap option_map]. apply Hfin. by rewrite <- app_assoc, Ecat.
  - wp_step. apply Hfin. rewrite E3; [done|]. pose proof (Z.mod_pos_bound n 512). lia.
Qed.
End disk.

(** ** The properties *)

Lemma on_self s : on s (f_disk s) = s.
Proof. by destruct s. Qed.

(** A disk of four clusters of one sector: the table is sector 1, with the marks
    given from cluster 2 on; the clusters are sectors 2 to 5. *)
Definition disk_of (marks : list Z) : fat :=
  mkFat (<[1 := splice (replicate 512 0) 8 (marks ≫= le_bytes 4)]>
        (<[2 := replicate 512 0]> (<[3 := replicate 512 0]> (<[4 := replicate 512 0]>
        (<[5 := replicate 512 0]> ∅))))) 6 2 2 1 2 1.
(** One file in cluster 2; two files in clusters 2 and 3. *)
Definition small_disk : fat := disk_of [EOC_MARK].
Definition two_files : fat := disk_of [EOC_MARK; EOC_MARK].

Lemma disk_of_geometry marks : geometry (disk_of marks).
Proof. split; vm_compute; intuition congruence. Qed.

Lemma disk_of_ok marks : (length marks ≤ 4)%nat → disk_ok (disk_of marks) (f_disk (disk_of marks)).
Proof.
  intros Hm. assert (Hz : length (replicate 512 0) = 512%nat ∧ bytes (replicate 512 0)).
  { split; [done|]. apply Forall_replicate. lia. }
  assert (Hb : ∀ l, (length (l ≫= le_bytes 4) = 4 * length l)%nat ∧ bytes (l ≫= le_bytes 4)).
  { induction l as [|v l [IH1 IH2]]; [split; [done|constructor]|]. rewrite bind_cons, length_app, IH1, le_bytes_length.
    split; [simpl; lia|]. apply Forall_app. split; [apply le_bytes_range|done]. }
  destruct (Hb marks) as [Hl Hbm]. intros lba Hlba. change (1 ≤ lba < 6) in Hlba. unfold disk_of. cbn [f_disk].
  destruct (decide (lba = 1)) as [-> |].
  { rewrite lookup_insert_eq. eexists. split; [done|]. rewrite splice_length by (rewrite ?Hl; lia).
    split; [done|]. apply splice_bytes; [apply Hz|done]. }
  assert (lba = 2 ∨ lba = 3 ∨ lba = 4 ∨ lba = 5) as [-> |[-> |[-> | ->]]] by lia;
    (eexists; split; [rewrite lookup_insert_ne by done; vm_compute; reflexivity|exact Hz]).
Qed.

Lemma disk_of_chain marks : wf_chain (disk_of (EOC_MARK :: marks)) (f_disk (disk_of (EOC_MARK :: marks))) [2].
Proof.
  split_and!.
  - apply NoDup_singleton.
  - constructor; [|done]. vm_compute. intuition congruence.
  - intros [|j] x y Hx Hy; simpl in *; discriminate.
  - intros z [= <-]. vm_compute. congruence.
Qed.

(** An entry of the allocation table written with [fat_write_entry] is read
    back by [fat_read_entry]; every other entry and every sector of data is as it
    was. *)
Theorem fat_entry_update s c v :
  geometry s → disk_ok s (f_disk s) → valid s c → 0 ≤ v < 2 ^ 28 →
  ∃ s', fat_write_entry c v s = Some (0, s') ∧ fat_read_entry c s' = Some (v, s') ∧
    (∀ c', valid s c' → c' ≠ c → ∃ e, fat_read_entry c' s = Some (e, s) ∧ fat_read_entry c' s' = Some (e, s')) ∧
    (∀ lba, first_data_sector s ≤ lba → f_disk s' !! lba = f_disk s !! lba).
Proof.
  intros HG Hd Hc Hv. destruct (fat_write_entry_run s HG (f_disk s) c v Hd Hc) as (d' & E & Hd' & He & Ho & Hs).
  rewrite on_self in E. exists (on s d'). split_and!; [done| | |done].
  - rewrite (fat_read_entry_run s HG) by done. by rewrite He, land28.
  - intros c' Hc' Hne. exists (entry s (f_disk s) c'). split.
    + rewrite <- (on_self s) at 1. rewrite (fat_read_entry_run s HG) by done. by rewrite on_self.
    + rewrite (fat_read_entry_run s HG) by done. by rewrite Ho.
Qed.

Lemma fat_entry_update_witness : ∃ s', fat_write_entry 3 5 small_disk = Some (0, s') ∧
  fat_read_entry 3 s' = Some (5, s').
Proof.
  destruct (fat_entry_update small_disk 3 5 (disk_of_geometry _) (disk_of_ok [EOC_MARK] ltac:(simpl; lia))) as (s' & E & E' & _);
    [vm_compute; intuition congruence|lia|]. exists s'. split; assumption.
Defined.

(** C5: writing data along the chain of a file returns: either the whole data is
    stored, along the chain extended with clusters that were free, and reading the
    chain gives the data back; or the result is -1 and no cluster is free. *)
Theorem write_read_chain s L start data :
  geometry s → disk_ok s (f_disk s) → wf_chain s (f_disk s) L → head L = Some start →
  bytes data → Z.of_nat (length data) < 2 ^ 31 →
  ∃ r s', write_chain start data (Z.of_nat (length data)) s = Some (r, s') ∧
    ((r = Z.of_nat (length data) ∧
      read_chain start (Z.of_nat (length data)) s' = Some ((Z.of_nat (length data), data), s')) ∨
     (r = -1 ∧ ∀ c, valid s c → ∃ e, fat_read_entry c s' = Some (e, s') ∧ e ≠ 0)).
Proof.
  intros HG Hd HL Hst Hb Hlen.
  destruct (write_chain_run s HG (f_disk s) L start data (Z.of_nat (length data)) Hd HL Hst Hb)
    as (r & s' & E & d' & L' & -> & Hd' & HL' & HGr & Hcase); [lia..|].
  rewrite on_self in E. exists r, (on s d'). split; [done|]. destruct Hcase as [[-> Hh]|[-> Hfull]].
  - left. split; [done|]. assert (Hst' : head L' = Some start).
    { destruct HGr as (_ & [k ->] & _). destruct L; [done|]. exact Hst. }
    rewrite (read_chain_run s HG d' L' start data) by (done || lia). do 3 f_equal.
    rewrite <- slice_bytes by lia. unfold slice. rewrite Nat2Z.id. simpl. apply firstn_all.
  - right. split; [done|]. intros c Hc. exists (entry s d' c). rewrite (fat_read_entry_run s HG) by done.
    split; [done|]. by apply Hfull.
Qed.

Lemma write_read_chain_witness :
  ∃ r s', write_chain 2 (replicate 600 7) 600 small_disk = Some (r, s').
Proof.
  destruct (write_read_chain small_disk [2] 2 (replicate 600 7) (disk_of_geometry _)
    (disk_of_ok [EOC_MARK] ltac:(simpl; lia)) (disk_of_chain []) eq_refl) as (r & s' & E & _); [apply Forall_replicate; lia|simpl; lia|]. exists r, s'. exact E.
Defined.

(** C6: writing along the chain of a file changes no cluster of another file: a
    cluster in use outside the chain keeps its entry in the table and its bytes. *)
Theorem write_chain_isolated s L start data x :
  geometry s → disk_ok s (f_disk s) → wf_chain s (f_disk s) L → head L = Some start →
  bytes data → Z.of_nat (length data) < 2 ^ 31 →
  valid s x → x ∉ L → entry s (f_disk s) x ≠ 0 →
  ∃ r s', write_chain start data (Z.of_nat (length data)) s = Some (r, s') ∧
    entry s (f_disk s') x = entry s (f_disk s) x ∧
    ∀ k, 0 ≤ k < cb s → cbyte s (f_disk s') x k = cbyte s (f_disk s) x k.
Proof.
  intros HG Hd HL Hst Hb Hlen Hx HxL Hused.
  destruct (write_chain_run s HG (f_disk s) L start data (Z.of_nat (length data)) Hd HL Hst Hb)
    as (r & s' & E & d' & L' & -> & _ & _ & (Hnew & _ & Hsame) & _); [lia..|].
  rewrite on_self in E. exists r, (on s d'). split; [done|]. apply Hsame; [done|].
  intros Hin. destruct (Hnew x Hin); done.
Qed.

Lemma write_chain_isolated_witness :
  ∃ r s', write_chain 2 (replicate 600 7) 600 two_files = Some (r, s') ∧
    entry two_files (f_disk s') 3 = entry two_files (f_disk two_files) 3.
Proof.
  destruct (write_chain_isolated two_files [2] 2 (replicate 600 7) 3 (disk_of_geometry _)
    (disk_of_ok [EOC_MARK; EOC_MARK] ltac:(simpl; lia)) (disk_of_chain [EOC_MARK]) eq_refl) as (r & s' & E & He & _).
  - apply Forall_replicate. lia.
  - simpl. lia.
  - vm_compute. intuition congruence.
  - rewrite list_elem_of_singleton. lia.
  - vm_compute. congruence.
  - exists r, s'. split; assumption.
Defined.
