(* ===== verification/FatChains.v ===== *)
(** * FatChains: freeing a chain of clusters ends on every table

    [fat32_rmdir] of [OvsbMk/fs/fat32.c] follows the links of the allocation
    table while it clears them.  Nothing on the disk promises that the links form
    a chain; the loop ends all the same, because a cluster met again has the
    entry 0. *)

From Stdlib Require Import ZArith Lia.
From stdpp Require Import gmap list prelude.
From S2P Require Import Prelude Fat32 Fat32Proof.

Open Scope Z_scope.

Section links.
Variable s0 : fat.

(** The clusters the links lead to from [c]. *)
Inductive reach (d : gmap Z (list Z)) (c : Z) : Z → Prop :=
  | reach_refl : reach d c c
  | reach_step y : reach d c y → in_chain (entry s0 d y) = true → reach d c (entry s0 d y).

Lemma in_chain_spec c : in_chain c = true ↔ 2 ≤ c < EOC.
Proof. unfold in_chain. rewrite andb_true_iff, Z.leb_le, Z.ltb_lt. done. Qed.

(** The clusters in use: what a round of the loop makes fewer. *)
Definition in_use (d : gmap Z (list Z)) : list Z :=
  filter (λ c, entry s0 d c ≠ 0) (seqZ 2 (clusters s0)).

Lemma elem_of_in_use d c : c ∈ in_use d ↔ valid s0 c ∧ entry s0 d c ≠ 0.
Proof. unfold in_use, valid. rewrite list_elem_of_filter, elem_of_seqZ. lia. Qed.

Lemma in_use_length d : (length (in_use d) ≤ Z.to_nat (clusters s0))%nat.
Proof. unfold in_use. etransitivity; [apply length_filter|]. by rewrite length_seqZ. Qed.

Context (G : geometry s0).

Lemma in_use_cleared d c d' :
  valid s0 c → entry s0 d c ≠ 0 → relinked s0 d c 0 d' → (length (in_use d') < length (in_use d))%nat.
Proof.
  intros Hc Hne (_ & H0 & Ho & _).
  assert (Hc' : c ∉ in_use d') by (rewrite elem_of_in_use, H0; intros [_ H]; by apply H).
  change (length (c :: in_use d') ≤ length (in_use d))%nat.
  apply submseteq_length, NoDup_submseteq.
  - apply NoDup_cons. split; [done|]. apply NoDup_filter, NoDup_seqZ.
  - intros x [-> |Hx]%elem_of_cons; apply elem_of_in_use; [done|].
    apply elem_of_in_use in Hx as [Hx Hex]. split; [done|].
    destruct (decide (x = c)) as [-> |]; [done|]. by rewrite <- Ho.
Qed.

(** A link followed and cut: what was reachable is cut off or still ahead. *)
Lemma reach_cut d cl d' x :
  (∀ y, reach d cl y → valid s0 y) → relinked s0 d cl 0 d' → reach d cl x →
  entry s0 d' x = 0 ∨ (in_chain (entry s0 d cl) = true ∧ reach d' (entry s0 d cl) x).
Proof.
  intros Hv (_ & H0 & Ho & _) Hx. induction Hx as [|y Hy IH Hin]; [left; done|].
  destruct (decide (y = cl)) as [-> |Hne]; [right; split; [done|constructor]|].
  right. destruct IH as [E|[Hcl IH]].
  - rewrite Ho in E by eauto. rewrite E in Hin. done.
  - split; [done|]. rewrite <- (Ho y) by eauto. apply reach_step; [done|]. by rewrite Ho by eauto.
Qed.

(** The loop at cluster [cl] with the disk [d], started at [c] on [d0]. *)
Record freeing (d0 : gmap Z (list Z)) (c cl : Z) (d : gmap Z (list Z)) : Prop := {
  fr_ok : disk_ok s0 d;
  fr_here : reach d0 c cl;
  fr_old : ∀ x, valid s0 x → entry s0 d x = entry s0 d0 x ∨ (entry s0 d x = 0 ∧ reach d0 c x);
  fr_ahead : ∀ x, reach d0 c x → entry s0 d x = 0 ∨ reach d cl x;
  fr_back : ∀ x, reach d cl x → reach d0 c x;
  fr_data : ∀ lba, first_data_sector s0 ≤ lba → d !! lba = d0 !! lba }.

Definition freed (d0 : gmap Z (list Z)) (c : Z) (d : gmap Z (list Z)) : Prop :=
  disk_ok s0 d ∧
  (∀ x, reach d0 c x → entry s0 d x = 0) ∧
  (∀ x, valid s0 x → ¬ reach d0 c x → entry s0 d x = entry s0 d0 x) ∧
  (∀ lba, first_data_sector s0 ≤ lba → d !! lba = d0 !! lba).

Lemma reach_trans d a b x : reach d a b → reach d b x → reach d a x.
Proof. intros Hab Hbx. induction Hbx; [done|]. by apply reach_step. Qed.

Lemma reach_cut_back d cl d' n x :
  (∀ y, reach d cl y → valid s0 y) → relinked s0 d cl 0 d' → reach d cl n →
  reach d' n x → reach d cl x.
Proof.
  intros Hv (_ & H0 & Ho & _) Hn Hx. induction Hx as [|y Hy IH Hin]; [done|].
  destruct (decide (y = cl)) as [-> |Hne]; [by rewrite H0 in Hin|].
  rewrite Ho in * by eauto. by apply reach_step.
Qed.

Lemma freeing_round d0 c cl d d' :
  (∀ x, reach d0 c x → valid s0 x) → freeing d0 c cl d → relinked s0 d cl 0 d' →
  if in_chain (entry s0 d cl) then freeing d0 c (entry s0 d cl) d' else freed d0 c d'.
Proof.
  intros Hv [Hok Hhere Hold Hahead Hback Hdata] Hr. pose proof Hr as (Hok' & H0 & Ho & Hs).
  assert (Hv' : ∀ y, reach d cl y → valid s0 y) by eauto.
  assert (Hold' : ∀ x, valid s0 x → entry s0 d' x = entry s0 d0 x ∨ (entry s0 d' x = 0 ∧ reach d0 c x)).
  { intros x Hx. destruct (decide (x = cl)) as [-> |]; [by right|]. rewrite Ho by done. by apply Hold. }
  assert (Hzero : ∀ x, reach d0 c x → entry s0 d x = 0 → entry s0 d' x = 0).
  { intros x Hx E. destruct (decide (x = cl)) as [-> |]; [done|]. rewrite Ho by eauto. done. }
  assert (Hdata' : ∀ lba, first_data_sector s0 ≤ lba → d' !! lba = d0 !! lba).
  { intros lba Hl. by rewrite Hs, Hdata. }
  destruct (in_chain (entry s0 d cl)) eqn:Hin.
  - assert (Hnext : reach d cl (entry s0 d cl)) by (apply reach_step; [constructor|done]).
    split; [done|by apply Hback|done| | |done].
    + intros x Hx. destruct (Hahead x Hx) as [E|Hrx]; [left; by apply Hzero|].
      destruct (reach_cut d cl d' x Hv' Hr Hrx) as [E|[_ E]]; [by left|by right].
    + intros x Hx. apply Hback. by apply (reach_cut_back d cl d' (entry s0 d cl)).
  - split_and!; [done| | |done].
    + intros x Hx. destruct (Hahead x Hx) as [E|Hrx]; [by apply Hzero|].
      destruct (reach_cut d cl d' x Hv' Hr Hrx) as [E|[E _]]; [done|]. by rewrite Hin in E.
    + intros x Hx Hnr. destruct (Hold' x Hx) as [E|[_ E]]; [done|]. by destruct Hnr.
Qed.

Lemma free_chain_run d c :
  disk_ok s0 d → (∀ x, reach d c x → valid s0 x) →
  ∃ d', free_chain c (on s0 d) = Some (tt, on s0 d') ∧ freed d c d'.
Proof.
  intros Hok Hv.
  enough (wp (free_chain c) (on s0 d) (λ _ s', ∃ d', s' = on s0 d' ∧ freed d c d'))
    as ([] & s' & E & d' & -> & H) by (by exists d').
  unfold free_chain.
  eapply (wp_while (λ cl s, ∃ d1, s = on s0 d1 ∧ freeing d c cl d1)
    (λ _ s, Z.of_nat (length (in_use (f_disk s))))).
  - intros cl s (d1 & -> & Hf). pose proof (Hv cl (fr_here _ _ _ _ Hf)) as Hcl.
    wp_step. eapply wp_run; [apply (fat_read_entry_run s0 G); [apply Hf|done]|].
    destruct (fat_write_entry_run s0 G d1 cl 0 (fr_ok _ _ _ _ Hf) Hcl) as (d2 & E2 & Hr).
    wp_step. eapply wp_run; [exact E2|]. wp_step.
    pose proof (freeing_round d c cl d1 d2 Hv Hf Hr) as Hnext.
    destruct (in_chain (entry s0 d1 cl)) eqn:Hin; [|by exists d2].
    split; [by exists d2|]. cbn [f_disk on set_disk].
    assert (Hne : entry s0 d1 cl ≠ 0) by (apply in_chain_spec in Hin; lia).
    pose proof (in_use_cleared d1 cl d2 Hcl Hne Hr). lia.
  - exists d. split; [done|]. split; [done|constructor|by left|by right|done|done].
  - cbn [f_disk on set_disk]. pose proof (in_use_length d). pose proof (g_clusters s0 G). unfold EOC in *. lia.
Qed.

(** ** Walks that do not clear the links *)

Lemma each_goes_on {X A R} (l : list X) (step : X → A → T (A + R)) s a :
  (∀ x a, x ∈ l → ∃ a', step x a s = Some (inl a', s)) → ∃ a', each l step a s = Some (inl a', s).
Proof.
  revert a. induction l as [|x l IH]; intros a Hs; [by exists a|]. simpl. unfold bind.
  destruct (Hs x a ltac:(left)) as [a1 ->]. apply IH. intros y b Hy. apply Hs. by right.
Qed.

(** A directory whose links form a ring: a search that finds nothing in it never
    ends. *)
Lemma scan_ring_hangs {A R} (io : A → R) (step : Z → list Z → Z → A → T (A + R)) fin d dir a :
  disk_ok s0 d → (∀ x, reach d dir x → valid s0 x ∧ in_chain (entry s0 d x) = true) → in_chain dir = true →
  (∀ lba buf e a, ∃ a', step lba buf e a (on s0 d) = Some (inl a', on s0 d)) →
  scan io step fin dir a (on s0 d) = None.
Proof.
  intros Hok Hring Hdir Hstep. unfold scan.
  apply (while_diverges (λ '(c, _) s, s = on s0 d ∧ reach d dir c ∧ in_chain c = true)); [|split; [done|split; [constructor|done]]].
  intros [c a1] s (-> & Hc & Hin). destruct (Hring c Hc) as [Hvalid Hnext]. rewrite Hin. unfold bind at 1.
  rewrite (cluster_to_sector_run s0 G) by done. unfold bind at 1, gets at 1. cbn [sectors_per_cluster on set_disk]. unfold bind at 1.
  match goal with |- context [each ?l ?f a1 ?s] => destruct (each_goes_on l f s a1) as [a2 E2]; [|rewrite E2] end.
  { intros i b Hi%elem_of_seqZ. unfold bind. rewrite (u32_data_lba s0 G) by (done || unfold spc; lia).
    destruct (data_ok s0 G d c i Hok Hvalid) as (E & _); [unfold spc; lia|].
    unfold read_sector, gets. cbn [f_disk on set_disk]. rewrite E. apply each_goes_on. intros e b' _. apply Hstep. }
  unfold bind. rewrite (fat_read_entry_run s0 G) by done. exists (entry s0 d c, a2), (on s0 d).
  split; [done|]. split_and!; [done|by apply reach_step|done].
Qed.

End links.

(** Table whose clusters 2, 3, 4 form a ring, with a file in cluster 5. *)
Definition ring_disk : fat := disk_of [3; 4; 2; EOC_MARK].

Lemma ring_reach x : reach ring_disk (f_disk ring_disk) 2 x → x = 2 ∨ x = 3 ∨ x = 4.
Proof.
  induction 1 as [|y Hy IH Hin]; [by left|].
  destruct IH as [-> |[-> | ->]]; vm_compute; intuition.
Qed.

(** C16: freeing the clusters of a directory ends for every content of the
    allocation table whose links stay on the disk, cycles and cross-links
    included: exactly the clusters the links lead to become free, every other
    entry and all data are kept. *)
Theorem free_chain_terminates s c :
  geometry s → disk_ok s (f_disk s) → (∀ x, reach s (f_disk s) c x → valid s x) →
  ∃ s', free_chain c s = Some (tt, s') ∧
    (∀ x, reach s (f_disk s) c x → fat_read_entry x s' = Some (0, s')) ∧
    (∀ x, valid s x → ¬ reach s (f_disk s) c x →
      ∃ e, fat_read_entry x s = Some (e, s) ∧ fat_read_entry x s' = Some (e, s')) ∧
    (∀ lba, first_data_sector s ≤ lba → f_disk s' !! lba = f_disk s !! lba).
Proof.
  intros HG Hok Hv. destruct (free_chain_run s HG (f_disk s) c Hok Hv) as (d' & E & Hok' & H0 & Hsame & Hdata).
  rewrite on_self in E. exists (on s d'). split_and!; [done| | |done].
  - intros x Hx. rewrite (fat_read_entry_run s HG) by auto. by rewrite H0.
  - intros x Hx Hnr. exists (entry s (f_disk s) x). rewrite (fat_read_entry_run s HG) by done.
    rewrite Hsame by done. split; [|done]. rewrite <- (on_self s) at 1. rewrite (fat_read_entry_run s HG) by done.
    by rewrite on_self.
Qed.

Lemma free_chain_terminates_witness :
  ∃ s', free_chain 2 ring_disk = Some (tt, s') ∧ fat_read_entry 3 s' = Some (0, s') ∧
    ∃ e, fat_read_entry 5 ring_disk = Some (e, ring_disk) ∧ fat_read_entry 5 s' = Some (e, s').
Proof.
  destruct (free_chain_terminates ring_disk 2 (disk_of_geometry _) (disk_of_ok [3; 4; 2; EOC_MARK] ltac:(simpl; lia)))
    as (s' & E & H0 & Hs & _).
  - intros x [-> |[-> | ->]]%ring_reach; vm_compute; intuition congruence.
  - exists s'. split; [exact E|]. split.
    + apply H0. change 3 with (entry ring_disk (f_disk ring_disk) 2). apply reach_step; [apply reach_refl|reflexivity].
    + apply Hs; [vm_compute; intuition congruence|]. intros Hr. apply ring_reach in Hr. lia.
Defined.
