(* ===== verification/Tui.v ===== *)
(** * Tui: the windows of [src/userland/libc/tui.c]

    A window ([win]) is its [tui_win_s]; its cells and dirty flags are lists, and
    an access outside them has no result.  The windows of a program are found by
    address ([u_wins]): the screen context ([tui]) keeps the list of their
    addresses, bottom window first, and the program keeps pointers of its own, so
    a drawing call through a pointer changes the window the context paints.  A
    freed window leaves [u_wins] and an access to it has no result.

    The allocator is modelled by what it answers: a request for no bytes or fewer
    is refused, any other is granted or refused by the next element of [u_grants]
    (granted when there is none).  [u_out] is what went to descriptor 1 and [u_in]
    what the keyboard sends: bytes, and the moments ([Quiet]) at which [kbhit] finds
    nothing; [getchar] waits through those.  A [char] is its signed value. *)

From Stdlib Require Import ZArith Lia.
From stdpp Require Import gmap list prelude.
From S2P Require Import Prelude Libc LibcAlloc Stdio.

Open Scope Z_scope.

Definition TUI_COLS : Z := 80.
Definition TUI_ROWS : Z := 25.
Definition TUI_BLACK : Z := 0.
Definition TUI_WHITE : Z := 15.
Definition TUI_SCROLL : Z := 4.

Definition TUI_KEY_ESC : Z := 27.
Definition TUI_KEY_BS : Z := 127.
Definition TUI_KEY_ENTER : Z := 10.
Definition TUI_KEY_UP : Z := 300.
Definition TUI_KEY_HOME : Z := 304.
Definition TUI_KEY_END : Z := 305.
Definition TUI_KEY_PGUP : Z := 306.
Definition TUI_KEY_PGDN : Z := 307.
Definition TUI_KEY_INS : Z := 308.
Definition TUI_KEY_DEL : Z := 309.
Definition TUI_KEY_F1 : Z := 310.
Definition TUI_KEY_F5 : Z := 314.

(** ** State *)

Record cell_t := mkCell { ch : Z; attr : Z }.

#[export] Instance cell_t_eq_dec : EqDecision cell_t.
Proof. solve_decision. Defined.

Definition make_attr (fg bg : Z) : Z := u8 (Z.lor (Z.shiftl bg 4) fg).

Record win := mkWin {
  wx : Z; wy : Z; ww : Z; wh : Z;
  wflags : Z;
  wcx : Z; wcy : Z;
  wscroll_off : Z; wscroll_ok : Z;
  wfg : Z; wbg : Z; wbold : Z;
  wbuf : list cell_t;
  wdirty : list Z;
  wtitle : option (list Z) }.

Definition set_pos x y (s : win) := mkWin x y (ww s) (wh s) (wflags s) (wcx s) (wcy s) (wscroll_off s) (wscroll_ok s)
  (wfg s) (wbg s) (wbold s) (wbuf s) (wdirty s) (wtitle s).
Definition set_cursor cx cy (s : win) := mkWin (wx s) (wy s) (ww s) (wh s) (wflags s) cx cy (wscroll_off s) (wscroll_ok s)
  (wfg s) (wbg s) (wbold s) (wbuf s) (wdirty s) (wtitle s).
Definition set_scroll off ok (s : win) := mkWin (wx s) (wy s) (ww s) (wh s) (wflags s) (wcx s) (wcy s) off ok
  (wfg s) (wbg s) (wbold s) (wbuf s) (wdirty s) (wtitle s).
Definition set_pen fg bg bold (s : win) := mkWin (wx s) (wy s) (ww s) (wh s) (wflags s) (wcx s) (wcy s) (wscroll_off s)
  (wscroll_ok s) fg bg bold (wbuf s) (wdirty s) (wtitle s).
Definition set_buf b (s : win) := mkWin (wx s) (wy s) (ww s) (wh s) (wflags s) (wcx s) (wcy s) (wscroll_off s)
  (wscroll_ok s) (wfg s) (wbg s) (wbold s) b (wdirty s) (wtitle s).
Definition set_dirty d (s : win) := mkWin (wx s) (wy s) (ww s) (wh s) (wflags s) (wcx s) (wcy s) (wscroll_off s)
  (wscroll_ok s) (wfg s) (wbg s) (wbold s) (wbuf s) d (wtitle s).
Definition set_title t (s : win) := mkWin (wx s) (wy s) (ww s) (wh s) (wflags s) (wcx s) (wcy s) (wscroll_off s)
  (wscroll_ok s) (wfg s) (wbg s) (wbold s) (wbuf s) (wdirty s) t.

Record tui := mkTui {
  t_w : Z; t_h : Z;
  t_windows : list Z;
  t_cap : Z;
  t_composite : list cell_t;
  t_comp_dirty : list Z;
  t_phys : list cell_t }.

Definition set_windows l cap (t : tui) := mkTui (t_w t) (t_h t) l cap (t_composite t) (t_comp_dirty t) (t_phys t).
Definition set_composite c (t : tui) := mkTui (t_w t) (t_h t) (t_windows t) (t_cap t) c (t_comp_dirty t) (t_phys t).
Definition set_comp_dirty d (t : tui) := mkTui (t_w t) (t_h t) (t_windows t) (t_cap t) (t_composite t) d (t_phys t).
Definition set_phys p (t : tui) := mkTui (t_w t) (t_h t) (t_windows t) (t_cap t) (t_composite t) (t_comp_dirty t) p.

Inductive event := Key (c : Z) | Quiet.

(** [u_next] is the address of the next window.  [u_stale] is what reads of freed memory
    give, one value for each: with none left such a read is an invalid access and has no
    result. *)
Record world := mkWorld {
  u_tui : tui;
  u_wins : gmap Z win;
  u_next : Z;
  u_stale : list Z;
  u_grants : list bool;
  u_out : list Z;
  u_in : list event;
  u_lib : libc }.

Definition set_tui t (s : world) := mkWorld t (u_wins s) (u_next s) (u_stale s) (u_grants s) (u_out s) (u_in s) (u_lib s).
Definition set_wins m n (s : world) := mkWorld (u_tui s) m n (u_stale s) (u_grants s) (u_out s) (u_in s) (u_lib s).
Definition set_stale l (s : world) := mkWorld (u_tui s) (u_wins s) (u_next s) l (u_grants s) (u_out s) (u_in s) (u_lib s).
Definition set_grants g (s : world) := mkWorld (u_tui s) (u_wins s) (u_next s) (u_stale s) g (u_out s) (u_in s) (u_lib s).
Definition set_out o (s : world) := mkWorld (u_tui s) (u_wins s) (u_next s) (u_stale s) (u_grants s) o (u_in s) (u_lib s).
Definition set_in i (s : world) := mkWorld (u_tui s) (u_wins s) (u_next s) (u_stale s) (u_grants s) (u_out s) i (u_lib s).
Definition set_lib l (s : world) := mkWorld (u_tui s) (u_wins s) (u_next s) (u_stale s) (u_grants s) (u_out s) (u_in s) l.

Abbreviation W := (M win).
Abbreviation SC := (M tui).
Abbreviation T := (M world).

(** [a\[i\]] and [a\[i\] = v]. *)
Definition at_index {St A} (l : list A) (i : Z) : M St A := λ s,
  if 0 <=? i then match l !! Z.to_nat i with Some v => Some (v, s) | None => None end else None.
Definition updated {A} (l : list A) (i : Z) (v : A) : option (list A) :=
  if (0 <=? i) && (i <? Z.of_nat (length l)) then Some (<[Z.to_nat i := v]> l) else None.

(** The index of a cell of a buffer [w] cells wide. *)
Definition cell_at (w row col : Z) : Z := s32 (row * w + col).

(** The two nested loops [for (y = y0; y < y1; y++) for (x = x0; x < x1; x++)]. *)
Definition rect {St} (y0 y1 x0 x1 : Z) (body : Z → Z → M St unit) : M St unit :=
  for_up (Z.to_nat (y1 - y0)) y0 (λ y, for_up (Z.to_nat (x1 - x0)) x0 (λ x, body y x)).

Definition store_cell (i : Z) (c : cell_t) : W unit := λ s,
  match updated (wbuf s) i c with Some b => Some (tt, set_buf b s) | None => None end.
Definition load_cell (i : Z) : W cell_t := let! b := gets wbuf in at_index b i.
Definition store_ch (i c : Z) : W unit := let! old := load_cell i in store_cell i (mkCell c (attr old)).
Definition store_dirty (i : Z) : W unit := λ s,
  match updated (wdirty s) i 1 with Some d => Some (tt, set_dirty d s) | None => None end.

(** A space in the colours of the window. *)
Definition blank : W cell_t := gets (λ s, mkCell 32 (make_attr (wfg s) (wbg s))).
(** [for (int i = 0; i < w->h; i++) w->dirty\[i\] = 1;] *)
Definition all_dirty : W unit := let! h := gets wh in for_up (Z.to_nat h) 0 store_dirty.

(** ** Drawing in a window *)

Definition mark_line (y : Z) : W unit :=
  let! h := gets wh in
  if (0 <=? y) && (y <? h) then store_dirty y else skip.

Definition win_move (x y : Z) : W unit := modify (set_pos x y) ;! all_dirty.

Definition win_gotoxy (y x : Z) : W unit :=
  let! w := gets ww in
  let! h := gets wh in
  let x := if x <? 0 then 0 else x in
  let x := if w <=? x then w - 1 else x in
  let y := if y <? 0 then 0 else y in
  let y := if h <=? y then h - 1 else y in
  modify (set_cursor x y).

(** The body of [tui_win_addch] and [tui_win_addch_attr], which differ in the
    colours. *)
Definition put_at_cursor (c : Z) (a : Z) : W unit :=
  let! s := gets id in
  if (ww s <=? wcx s) || (wh s <=? wcy s) then skip else
  store_cell (cell_at (ww s) (wcy s) (wcx s)) (mkCell c a) ;!
  mark_line (wcy s) ;!
  modify (λ s, set_cursor (s32 (wcx s + 1)) (wcy s) s).

Definition win_addch (c : Z) : W unit := let! s := gets id in put_at_cursor c (make_attr (wfg s) (wbg s)).
Definition win_addch_attr (c fg bg : Z) : W unit := put_at_cursor c (make_attr fg bg).

Definition win_scroll (lines : Z) : W unit :=
  if lines <=? 0 then skip else
  let! w := gets ww in
  let! h := gets wh in
  let actual := if lines <? h then lines else h in
  rect actual h 0 w (λ y x,
    let! c := load_cell (cell_at w y x) in store_cell (cell_at w (y - actual) x) c) ;!
  let! b := blank in
  rect (h - actual) h 0 w (λ y x, store_cell (cell_at w y x) b) ;!
  all_dirty ;!
  let! ok := gets wscroll_ok in
  if nz ok then modify (λ s, set_scroll (s32 (wscroll_off s + actual)) (wscroll_ok s) s) else skip.

Definition next_line : W unit := modify (λ s, set_cursor 0 (s32 (wcy s + 1)) s).
Definition scroll_up : W unit := win_scroll 1 ;! modify (λ s, set_cursor (wcx s) (wh s - 1) s).

Definition end_line : W unit :=
  next_line ;!
  let! s := gets id in
  if (wh s <=? wcy s) && nz (wscroll_ok s) then scroll_up else skip.

Fixpoint win_addstr (str : list Z) : W unit :=
  match str with
  | [] => skip
  | c :: str' =>
      if c =? 10 then
        end_line ;!
        win_addstr str'
      else
        let! s := gets id in
        (if ww s <=? wcx s then next_line else skip) ;!
        let! s := gets id in
        if wh s <=? wcy s then
          if nz (wscroll_ok s) then scroll_up ;! win_addch c ;! win_addstr str' else skip
        else win_addch c ;! win_addstr str'
  end.

Definition win_color (fg bg : Z) : W unit := modify (λ s, set_pen (Z.land fg 15) (Z.land bg 15) (wbold s) s).
Definition win_bold (on : Z) : W unit := modify (λ s, set_pen (wfg s) (wbg s) on s).

Definition win_clear : W unit :=
  let! b := blank in
  let! s := gets id in
  for_up (Z.to_nat (s32 (ww s * wh s))) 0 (λ i, store_cell i b) ;!
  all_dirty ;!
  modify (λ s, set_scroll 0 (wscroll_ok s) (set_cursor 0 0 s)).

Definition win_clrtoeol : W unit :=
  let! s := gets id in
  if wh s <=? wcy s then skip else
  let! b := blank in
  for_up (Z.to_nat (ww s - wcx s)) (wcx s) (λ x, store_cell (cell_at (ww s) (wcy s) x) b) ;!
  mark_line (wcy s).

(** A row of the frame: [+---+]. *)
Definition box_row (w y : Z) : W unit :=
  store_ch (cell_at w y 0) 43 ;!
  for_up (Z.to_nat (w - 1 - 1)) 1 (λ x, store_ch (cell_at w y x) 45) ;!
  store_ch (cell_at w y (w - 1)) 43.

(** [title] is the empty string for a null pointer: both draw nothing. *)
Definition win_box (title : list Z) : W unit :=
  let! s := gets id in
  let w := ww s in
  let h := wh s in
  if (w <? 3) || (h <? 3) then skip else
  let! b := blank in
  box_row w 0 ;!
  box_row w (h - 1) ;!
  for_up (Z.to_nat (h - 1 - 1)) 1 (λ y, store_ch (cell_at w y 0) 124 ;! store_ch (cell_at w y (w - 1)) 124) ;!
  rect 1 (h - 1) 1 (w - 1) (λ y x, store_cell (cell_at w y x) b) ;!
  (let sl := Z.of_nat (length title) in
   let max := w - 3 in
   let sl := if max <? sl then max else sl in
   for_up (Z.to_nat sl) 0 (λ i, let! c := at_index title i in store_ch (cell_at w 0 (2 + i)) c)) ;!
  for_up (Z.to_nat h) 0 mark_line.

Definition win_fill (c : Z) : W unit :=
  let! s := gets id in
  for_up (Z.to_nat (s32 (ww s * wh s))) 0 (λ i, store_cell i (mkCell c (make_attr (wfg s) (wbg s)))) ;!
  all_dirty.

Definition win_scroll_ok (on : Z) : W unit := modify (λ s, set_scroll (wscroll_off s) on s).

(** ** The screen *)

Definition out (bytes : list Z) : T unit := modify (λ s, set_out (u_out s ++ bytes) s).

(** [malloc(n)], for an object of the library's heap: whether it was granted. *)
Definition granted (n : Z) : T bool := λ s,
  if s32 n <=? 0 then Some (false, s) else
  match u_grants s with
  | [] => Some (true, s)
  | g :: gs => Some (g, set_grants gs s)
  end.

Definition screen {A} (m : SC A) : T A := zoom u_tui set_tui m.

(** A function called with the pointer [p] of a window; [d] is what it returns
    for a null pointer. *)
Definition on_win {A} (p : Z) (d : A) (m : W A) : T A := λ s,
  if p =? 0 then Some (d, s) else
  match u_wins s !! p with
  | Some w => match m w with Some (a, w') => Some (a, set_wins (<[p := w']> (u_wins s)) (u_next s) s) | None => None end
  | None => None
  end.

Definition tui_win_move (p x y : Z) : T unit := on_win p tt (win_move x y).
Definition tui_win_gotoxy (p y x : Z) : T unit := on_win p tt (win_gotoxy y x).
Definition tui_win_addch (p c : Z) : T unit := on_win p tt (win_addch c).
Definition tui_win_addch_attr (p c fg bg : Z) : T unit := on_win p tt (win_addch_attr c fg bg).
Definition tui_win_addstr (p : Z) (str : list Z) : T unit := on_win p tt (win_addstr str).
Definition tui_win_color (p fg bg : Z) : T unit := on_win p tt (win_color fg bg).
Definition tui_win_bold (p on : Z) : T unit := on_win p tt (win_bold on).
Definition tui_win_clear (p : Z) : T unit := on_win p tt win_clear.
Definition tui_win_clrtoeol (p : Z) : T unit := on_win p tt win_clrtoeol.
Definition tui_win_box (p : Z) (title : list Z) : T unit := on_win p tt (win_box title).
Definition tui_win_fill (p c : Z) : T unit := on_win p tt (win_fill c).
Definition tui_win_scroll (p lines : Z) : T unit := on_win p tt (win_scroll lines).
Definition tui_win_scroll_ok (p on : Z) : T unit := on_win p tt (win_scroll_ok on).
Definition tui_win_width (p : Z) : T Z := on_win p 0 (gets ww).
Definition tui_win_height (p : Z) : T Z := on_win p 0 (gets wh).

(** [vsnprintf] into the 256 bytes of the local [buf], whose address is given. *)
Definition tui_win_vprintf (buf p fmt : Z) (ap : list Z) : T unit :=
  let! n := zoom u_lib set_lib (vsnprintf buf 256 fmt ap) in
  if 0 <? n then
    let! len := zoom u_lib set_lib (strlen buf) in
    let! text := zoom u_lib set_lib (load_bytes (Z.to_nat len) buf) in
    tui_win_addstr p (map schar text)
  else skip.

(** ** Windows *)

(** The bytes of [n] cells and of [n] flags. *)
Definition cells_size (n : Z) : Z := 2 * s32 n.
Definition flags_size (n : Z) : Z := 4 * n.
Definition WIN_SIZE : Z := 72.

Definition room (l : list Z) : T bool :=
  let! t := gets u_tui in
  if Z.of_nat (length l) <? t_cap t then ret true else
  let nc := if nz (t_cap t) then s32 (t_cap t * 2) else 8 in
  let! ok := granted (8 * nc) in
  (if ok : bool then screen (modify (set_windows l nc)) else skip) ;!
  ret ok.

(** The new window and its address, 0 when memory ran out. *)
Definition tui_win_new (x y w h flags : Z) : T Z :=
  if (w <? 1) || (h <? 1) then ret 0 else
  let! ok := granted WIN_SIZE in
  if negb ok then ret 0 else
  let! buf := granted (cells_size (w * h)) in
  let! dirty := granted (flags_size h) in
  if negb (buf && dirty) then ret 0 else
  let b := mkCell 32 (make_attr TUI_WHITE TUI_BLACK) in
  let win := mkWin x y w h flags 0 0 0 (if nz (Z.land flags TUI_SCROLL) then 1 else 0) TUI_WHITE TUI_BLACK 0
    (replicate (Z.to_nat (s32 (w * h))) b) (replicate (Z.to_nat h) 1) None in
  let! l := gets (λ s, t_windows (u_tui s)) in
  let! ok := room l in
  if negb ok then ret 0 else
  let! p := gets u_next in
  modify (λ s, set_wins (<[p := win]> (u_wins s)) (p + WIN_SIZE) s) ;!
  screen (modify (λ t, set_windows (l ++ [p]) (t_cap t) t)) ;!
  ret p.

(** The first index of the list whose window is [p]. *)
Fixpoint index_of (p : Z) (l : list Z) : option nat :=
  match l with
  | [] => None
  | q :: l' => if q =? p then Some O else S <$> index_of p l'
  end.

(** [for (int r = y; r < y + h && r < t->h; r++) if (r >= 0) t->comp_dirty\[r\] = 1;] *)
Definition dirty_rows (y h : Z) : SC unit :=
  let! t := gets id in
  for_up (Z.to_nat (Z.min (s32 (y + h)) (t_h t) - y)) y (λ r,
    if 0 <=? r then λ t, match updated (t_comp_dirty t) r 1 with
                         | Some d => Some (tt, set_comp_dirty d t) | None => None end
    else skip).

(** [t->windows\[i\] = t->windows\[--t->nwindows\];] *)
Definition swap_out (i : nat) (l : list Z) : list Z :=
  let l' := match last l with Some q => <[i := q]> l | None => l end in take (length l - 1) l'.

(** A read of a field of a structure that was freed. *)
Definition read_freed : T Z := λ s,
  match u_stale s with v :: l => Some (v, set_stale l s) | [] => None end.

(** [w->y] and [w->h] are read after [free(w)], here once each. *)
Definition tui_win_close (p : Z) : T unit :=
  if p =? 0 then skip else
  let! l := gets (λ s, t_windows (u_tui s)) in
  match index_of p l with
  | None => skip
  | Some i =>
      let! w := on_win p None (gets Some) in
      match w with
      | None => stuck
      | Some _ =>
          modify (λ s, set_wins (delete p (u_wins s)) (u_next s) s) ;!
          screen (modify (λ t, set_windows (swap_out i l) (t_cap t) t)) ;!
          let! y := read_freed in
          let! h := read_freed in
          screen (dirty_rows y h)
      end
  end.

Definition tui_win_resize (p nw nh : Z) : T unit :=
  if (p =? 0) || (nw <? 1) || (nh <? 1) then skip else
  let! nb := granted (cells_size (nw * nh)) in
  let! nd := granted (flags_size nh) in
  if negb (nb && nd) then skip else
  on_win p tt (
    let! b := blank in
    modify (λ s, mkWin (wx s) (wy s) nw nh (wflags s) 0 0 0 (wscroll_ok s) (wfg s) (wbg s) (wbold s)
      (replicate (Z.to_nat (s32 (nw * nh))) b) (replicate (Z.to_nat nh) 1) (wtitle s))).

(** [for (int j = i; j < n - 1; j++) l\[j\] = l\[j + 1\];] *)
Fixpoint shift_left (n : nat) (j : nat) (l : list Z) : list Z :=
  match n with
  | O => l
  | S n' => shift_left n' (j + 1) (match l !! (j + 1)%nat with Some q => <[j := q]> l | None => l end)
  end.

Definition tui_win_raise (p : Z) : T unit :=
  if p =? 0 then skip else
  let! l := gets (λ s, t_windows (u_tui s)) in
  match index_of p l with
  | None => skip
  | Some i =>
      let n := length l in
      screen (modify (λ t, set_windows (<[(n - 1)%nat := p]> (shift_left (n - 1 - i) i l)) (t_cap t) t)) ;!
      let! yh := on_win p (0, 0) (gets (λ w, (wy w, wh w))) in
      screen (dirty_rows (fst yh) (snd yh))
  end.

Definition tui_win_title (p : Z) (str : option (list Z)) : T unit :=
  if p =? 0 then skip else
  match str with
  | Some t =>
      let! ok := granted (Z.of_nat (length t) + 1) in
      on_win p tt (modify (set_title (if ok : bool then Some t else None)) ;! all_dirty)
  | None => on_win p tt (modify (set_title None) ;! all_dirty)
  end.

(** ** Painting *)

Definition screen_blank : cell_t := mkCell 32 (make_attr TUI_WHITE TUI_BLACK).

Definition store_comp (i : Z) (c : cell_t) : SC unit := λ t,
  match updated (t_composite t) i c with Some b => Some (tt, set_composite b t) | None => None end.
Definition store_phys (i : Z) (c : cell_t) : SC unit := λ t,
  match updated (t_phys t) i c with Some b => Some (tt, set_phys b t) | None => None end.
Definition comp_cell (i : Z) : SC cell_t := let! b := gets t_composite in at_index b i.
Definition phys_cell (i : Z) : SC cell_t := let! b := gets t_phys in at_index b i.

Definition paint_row (w : win) (row : Z) : SC unit :=
  let! t := gets id in
  let sy := s32 (wy w + row) in
  if (sy <? 0) || (t_h t <=? sy) then skip else
  for_up (Z.to_nat (ww w)) 0 (λ col,
    let sx := s32 (wx w + col) in
    if (sx <? 0) || (t_w t <=? sx) then skip else
    let! c := at_index (wbuf w) (cell_at (ww w) row col) in
    store_comp (cell_at (t_w t) sy sx) c).

Definition paint_win (w : win) : SC unit := for_up (Z.to_nat (wh w)) 0 (paint_row w).

Fixpoint paint (l : list Z) : T unit :=
  match l with
  | [] => skip
  | p :: l' =>
      let! w := (λ s, match u_wins s !! p with Some w => Some (w, s) | None => None end) in
      screen (paint_win w) ;!
      paint l'
  end.

Definition composite : T unit :=
  let! t := gets u_tui in
  screen (for_up (Z.to_nat (s32 (t_w t * t_h t))) 0 (λ i, store_comp i screen_blank)) ;!
  paint (t_windows t).

(** ** The terminal *)

(** [do { *t++ = '0' + n % 10; n /= 10; } while (n);]: the digits, last first. *)
Fixpoint int_digits (fuel : nat) (n : Z) (acc : list Z) : list Z :=
  match fuel with
  | O => acc
  | S fuel' =>
      let acc := (48 + Z.rem n 10) :: acc in
      if Z.quot n 10 =? 0 then acc else int_digits fuel' (Z.quot n 10) acc
  end.

Definition fmt_int (n : Z) : list Z := if n <? 0 then 45 :: int_digits 12 (s32 (- n)) [] else int_digits 12 n [].

Definition ansi_goto (y x : Z) : T unit := out ([27; 91] ++ fmt_int (s32 (y + 1)) ++ [59] ++ fmt_int (s32 (x + 1)) ++ [72]).

Definition ansi_attr (fg bg bold : Z) : T unit :=
  let ansi_fg := if nz (Z.land fg 8) then 90 + Z.land fg 7 else 30 + fg in
  let ansi_bg := if nz (Z.land bg 8) then 100 + Z.land bg 7 else 40 + bg in
  out ([27; 91] ++ (if nz bold then [49; 59] else []) ++ fmt_int ansi_fg ++ [59] ++ fmt_int ansi_bg ++ [109]).

Definition clear_eol : list Z := [27; 91; 75].

(** Whether one of the [n] cells from [col] of the row at [base] differs. *)
Fixpoint row_changed (n : nat) (base col : Z) : SC bool :=
  match n with
  | O => ret false
  | S n' =>
      let! c := comp_cell (base + col) in
      let! p := phys_cell (base + col) in
      if negb (ch c =? ch p) || negb (attr c =? attr p) then ret true else row_changed n' base (col + 1)
  end.

(** The last of the first [n] cells that is not a space, -1 if all are. *)
Fixpoint last_nonblank (n : nat) (base : Z) : SC Z :=
  match n with
  | O => ret (-1)
  | S n' =>
      let! c := comp_cell (base + Z.of_nat n') in
      if negb (ch c =? 32) then ret (Z.of_nat n') else last_nonblank n' base
  end.

(** The cells from [col], with the attribute that was last sent. *)
Fixpoint send_cells (n : nat) (base col : Z) (cur : Z * Z * Z) : T unit :=
  match n with
  | O => skip
  | S n' =>
      let! c := screen (comp_cell (base + col)) in
      let fg := Z.land (attr c) 15 in
      let bg := Z.land (Z.shiftr (attr c) 4) 15 in
      let bold := 0 in
      let '(cur_fg, cur_bg, cur_bold) := cur in
      (if negb (fg =? cur_fg) || negb (bg =? cur_bg) || negb (bold =? cur_bold) then ansi_attr fg bg bold else skip) ;!
      out [if (ch c <? 32) && negb (ch c =? 9) then 32 else ch c] ;!
      send_cells n' base (col + 1) (fg, bg, bold)
  end.

Definition copy_row (base w : Z) : SC unit :=
  for_up (Z.to_nat w) 0 (λ col, let! c := comp_cell (base + col) in store_phys (base + col) c).

Definition refresh_row (row : Z) : T unit :=
  let! t := gets u_tui in
  let w := t_w t in
  let base := s32 (row * w) in
  let! changed := screen (row_changed (Z.to_nat w) base 0) in
  if negb changed then skip else
  ansi_goto row 0 ;!
  let! last := screen (last_nonblank (Z.to_nat w) base) in
  if last <? 0 then out clear_eol ;! screen (copy_row base w) else
  send_cells (Z.to_nat (last + 1)) base 0 (-1, -1, -1) ;!
  (if last <? w - 1 then out clear_eol else skip) ;!
  screen (copy_row base w).

Definition tui_refresh : T unit :=
  composite ;!
  let! t := gets u_tui in
  for_up (Z.to_nat (t_h t)) 0 refresh_row.

(** [tui_init]: the context, [false] for a null pointer. *)
Definition TUI_SIZE : Z := 48.
Definition hide_clear : list Z := [27; 91; 63; 50; 53; 108; 27; 91; 50; 74].
Definition clear_show : list Z := [27; 91; 50; 74; 27; 91; 72; 27; 91; 63; 50; 53; 104].

Definition tui_init : T bool :=
  let! t := granted TUI_SIZE in
  if negb t then ret false else
  let n := TUI_COLS * TUI_ROWS in
  let! c := granted (cells_size n) in
  let! p := granted (cells_size n) in
  let! d := granted (flags_size TUI_ROWS) in
  if negb (c && p && d) then ret false else
  let cells := replicate (Z.to_nat n) screen_blank in
  out hide_clear ;!
  modify (set_tui (mkTui TUI_COLS TUI_ROWS [] 0 cells (replicate (Z.to_nat TUI_ROWS) 1)
    (<[O := mkCell 0 (attr screen_blank)]> cells))) ;!
  ret true.

(** The windows and the context are freed; the context is not used again. *)
Definition tui_end : T unit :=
  let! l := gets (λ s, t_windows (u_tui s)) in
  (fix go l := match l with
     | [] => skip
     | p :: l' => (λ s, match u_wins s !! p with
                        | Some _ => Some (tt, set_wins (delete p (u_wins s)) (u_next s) s) | None => None end) ;! go l'
     end) l ;!
  out clear_show.

Definition tui_width : T Z := gets (λ s, t_w (u_tui s)).
Definition tui_height : T Z := gets (λ s, t_h (u_tui s)).

(** ** The keyboard *)

(** [getchar] waits for a byte; with none to come it has no result. *)
Fixpoint next_key (l : list event) : option (Z * list event) :=
  match l with
  | [] => None
  | Key c :: l' => Some (c, l')
  | Quiet :: l' => next_key l'
  end.
Definition getchar : T Z := λ s,
  match next_key (u_in s) with Some (c, l) => Some (schar (u8 c), set_in l s) | None => None end.
Definition kbhit : T bool := λ s,
  match u_in s with
  | Key _ :: _ => Some (true, s)
  | Quiet :: l => Some (false, set_in l s)
  | [] => Some (false, s)
  end.

(** The rest of an escape sequence, at most five bytes; [None] on a pause. *)
Fixpoint read_sequence (room : nat) (seq : list Z) : T (option (list Z)) :=
  match room with
  | O => ret (Some seq)
  | S room' =>
      let! k := kbhit in
      if k : bool then
        let! c := getchar in
        if (64 <=? c) && (c <=? 126) then ret (Some (seq ++ [c])) else read_sequence room' (seq ++ [c])
      else ret None
  end.

Definition between (c lo hi : Z) : bool := (lo <=? c) && (c <=? hi).

(** The keys of [ESC \[ c], of [ESC O c] and of [ESC \[ c d ~]. *)
Definition key_csi (c : Z) : option Z :=
  if between c 65 68 then Some (TUI_KEY_UP + (c - 65))
  else if c =? 72 then Some TUI_KEY_HOME
  else if c =? 70 then Some TUI_KEY_END
  else None.
Definition key_ss3 (c : Z) : option Z :=
  match key_csi c with
  | Some k => Some k
  | None => if between c 80 83 then Some (TUI_KEY_F1 + (c - 80)) else None
  end.
Definition key_tilde (c d : Z) (e : option Z) : option Z :=
  if (c =? 50) && (d =? 126) then Some TUI_KEY_INS
  else if (c =? 51) && (d =? 126) then Some TUI_KEY_DEL
  else if (c =? 53) && (d =? 126) then Some TUI_KEY_PGUP
  else if (c =? 54) && (d =? 126) then Some TUI_KEY_PGDN
  else match e with
  | None => None
  | Some e =>
      if (c =? 49) && (d =? 53) && (e =? 126) then Some TUI_KEY_F5
      else if (c =? 49) && (d =? 55) && (e =? 126) then Some (TUI_KEY_F5 + 1)
      else if (c =? 49) && (d =? 56) && (e =? 126) then Some (TUI_KEY_F5 + 2)
      else if (c =? 49) && (d =? 57) && (e =? 126) then Some (TUI_KEY_F5 + 3)
      else if (c =? 50) && (d =? 48) && (e =? 126) then Some (TUI_KEY_F5 + 4)
      else if (c =? 50) && (d =? 49) && (e =? 126) then Some (TUI_KEY_F5 + 5)
      else if (c =? 50) && (d =? 51) && (e =? 126) then Some (TUI_KEY_F5 + 6)
      else if (c =? 50) && (d =? 52) && (e =? 126) then Some (TUI_KEY_F5 + 7)
      else None
  end.

(** [seq] from its second byte on: [c], [O] or [\[], and what follows. *)
Definition key_of_sequence (c : Z) (rest : list Z) : Z :=
  default TUI_KEY_ESC
    (match rest with
     | [a] => if c =? 91 then key_csi a else if c =? 79 then key_ss3 a else None
     | a :: b :: more => if c =? 91 then key_tilde a b (head more) else None
     | [] => None
     end).

Definition tui_parse_escape : T Z :=
  let! c := getchar in
  if negb (c =? 91) && negb (c =? 79) then ret TUI_KEY_ESC else
  let! r := read_sequence 5 [] in
  match r with
  | None => ret TUI_KEY_ESC
  | Some rest => ret (key_of_sequence c rest)
  end.

Definition tui_getch : T Z :=
  let! c := getchar in
  if negb (c =? 27) then ret (u8 c) else tui_parse_escape.

(** [Some k] is an event of type [TUI_EV_KEY] for the key [k]. *)
Definition tui_poll_event : T (option Z) :=
  let! k := kbhit in
  if k : bool then let! key := tui_getch in ret (Some key) else ret None.

(** ** Dialogs *)

(** A line of the message: at most [n] characters; the rest of the message. *)
Fixpoint message_line (w my : Z) (n : nat) (col : Z) (p : list Z) : T (list Z) :=
  match n, p with
  | S n', c :: p' =>
      if c =? 10 then ret p else
      tui_win_gotoxy w my (2 + col) ;!
      tui_win_addch w c ;!
      message_line w my n' (col + 1) p'
  | _, _ => ret p
  end.

Definition message_round (w bw bh : Z) : Z * list Z → T (Z * list Z + unit) := λ '(my, p),
  match p with
  | [] => ret (inr tt)
  | _ :: _ =>
      let! p := message_line w my (Z.to_nat (bw - 2)) 0 p in
      let p := match p with c :: p' => if c =? 10 then p' else p | [] => p end in
      if bh - 1 <=? my + 1 then ret (inr tt) else ret (inl (my + 1, p))
  end.

Definition width_of_box (w : Z) : Z :=
  let bw := Z.quot (w * 2) 3 in
  let bw := if bw <? 30 then 30 else bw in
  if w <? bw then w else bw.

(** [buttons] is [None] for a null pointer. *)
Definition tui_dialog (title msg : list Z) (buttons : option (list Z)) : T Z :=
  let! t := gets u_tui in
  let bw := width_of_box (t_w t) in
  let bh := 7 in
  let bx := Z.quot (t_w t - bw) 2 in
  let by_ := Z.quot (t_h t - bh) 2 in
  let! w := tui_win_new bx by_ bw bh 0 in
  if w =? 0 then ret (-1) else
  tui_win_box w title ;!
  tui_win_color w TUI_WHITE TUI_BLACK ;!
  while_ (message_round w bw bh) (1, msg) ;!
  (match buttons with
   | Some ((_ :: _) as b) =>
       let blen := Z.of_nat (length b) + 2 in
       let bstart := Z.quot (bw - blen) 2 in
       let bstart := if bstart <? 0 then 0 else bstart in
       tui_win_gotoxy w (bh - 1) bstart ;!
       tui_win_addch w 91 ;!
       tui_win_addstr w b ;!
       tui_win_addch w 93
   | _ => skip
   end) ;!
  tui_refresh ;!
  let! key := tui_getch in
  let bkey := match buttons with Some _ => if key =? TUI_KEY_ENTER then 0 else -1 | None => -1 end in
  tui_win_close w ;!
  tui_refresh ;!
  ret bkey.

Definition tui_msgbox (title msg : list Z) : T unit := tui_dialog title msg (Some [79; 75]) ;! ret tt.

(** The string of the first bytes of a buffer, up to its 0. *)
Fixpoint cstring (b : list Z) : list Z :=
  match b with [] => [] | c :: b' => if c =? 0 then [] else c :: cstring b' end.

Definition set_byte (b : list Z) (i c : Z) : T (list Z) := λ s,
  match updated b i c with Some b' => Some (b', s) | None => None end.

(** One round of the prompt: the buffer and the position. *)
Definition prompt_round (w : Z) (label : list Z) (max : Z) : list Z * Z → T (list Z * Z + list Z * Z) := λ '(buf, pos),
  tui_win_clear w ;!
  tui_win_box w label ;!
  tui_win_gotoxy w 2 2 ;!
  tui_win_addstr w (cstring buf) ;!
  tui_refresh ;!
  let! k := tui_getch in
  if k =? TUI_KEY_ENTER then ret (inr (buf, pos)) else
  if k =? TUI_KEY_ESC then let! buf := set_byte buf 0 0 in ret (inr (buf, 0)) else
  let! bp := (if ((k =? TUI_KEY_BS) || (k =? 127)) && (0 <? pos)
              then let! buf := set_byte buf (pos - 1) 0 in ret (buf, pos - 1) else ret (buf, pos)) in
  let '(buf, pos) := bp in
  if (32 <=? k) && (k <=? 126) && (pos <? max - 1) then
    let! buf := set_byte buf pos k in
    let! buf := set_byte buf (pos + 1) 0 in
    ret (inl (buf, pos + 1))
  else ret (inl (buf, pos)).

(** The result and the buffer; [max] bytes are the caller's. *)
Definition tui_prompt (label : list Z) (buf : list Z) (max : Z) : T (Z * list Z) :=
  if max <? 1 then ret (-1, buf) else
  let! t := gets u_tui in
  let pw := width_of_box (t_w t) in
  let ph := 5 in
  let px := Z.quot (t_w t - pw) 2 in
  let py := Z.quot (t_h t - ph) 2 in
  let! w := tui_win_new px py pw ph 0 in
  if w =? 0 then ret (-1, buf) else
  tui_win_box w label ;!
  tui_win_color w TUI_WHITE TUI_BLACK ;!
  tui_refresh ;!
  assert_ (max <=? Z.of_nat (length buf)) ;!
  let buf := replicate (Z.to_nat max) 0 ++ drop (Z.to_nat max) buf in
  let! bp := while_ (prompt_round w label max) (buf, 0) in
  let '(buf, pos) := bp in
  tui_win_close w ;!
  tui_refresh ;!
  ret (pos, buf).
