(* ===== verification/TuiProof.v ===== *)
(** * TuiProof: every drawing call stays inside its window

    [fit]: the buffers of a window have the size the window says; [like]: a window
    that differs in the contents of its buffers only.  The loops of [tui.c] over the
    cells of a window are proved against these; the calls that move the cursor keep
    [winv]. *)

From Stdlib Require Import ZArith Lia.
From stdpp Require Import gmap list prelude.
From S2P Require Import Prelude Libc LibcAlloc Stdio Tui.

Open Scope Z_scope.

(** ** Arrays *)

Lemma updated_in {A} (l : list A) i v :
  0 ≤ i < Z.of_nat (length l) → updated l i v = Some (<[Z.to_nat i := v]> l).
Proof. intros. unfold updated. by replace ((0 <=? i) && (i <? Z.of_nat (length l))) with true by lia. Qed.

Lemma at_index_in {St A} (l : list A) i (s : St) :
  0 ≤ i < Z.of_nat (length l) → ∃ v, l !! Z.to_nat i = Some v ∧ at_index l i s = Some (v, s).
Proof.
  intros Hi. destruct (lookup_lt_is_Some_2 l (Z.to_nat i)) as [v Hv]; [lia|]. exists v. split; [done|].
  unfold at_index. replace (0 <=? i) with true by lia. by rewrite Hv.
Qed.

Lemma cell_at_in w h r c :
  w * h ≤ 2 ^ 30 → 0 ≤ r < h → 0 ≤ c < w → cell_at w r c = r * w + c ∧ 0 ≤ r * w + c < w * h.
Proof.
  intros Hs Hr Hc. assert (0 ≤ r * w + c < w * h) by nia. split; [|done].
  unfold cell_at. apply s32_small. lia.
Qed.

Lemma cell_at_inj w r c r' c' : 0 ≤ c < w → 0 ≤ c' < w → r * w + c = r' * w + c' → r = r' ∧ c = c'.
Proof. intros. assert (r = r') by nia. subst. lia. Qed.

(** The cell of a row and a column; the default is never used below. *)
Definition px (w : Z) (b : list cell_t) (r c : Z) : cell_t := nth (Z.to_nat (r * w + c)) b (mkCell 0 0).

Lemma nth_lookup_default {A} (l : list A) n d v : l !! n = Some v → nth n l d = v.
Proof. intros H. by rewrite nth_lookup, H. Qed.

Lemma px_insert w h b r c v r' c' :
  length b = Z.to_nat (w * h) → 0 ≤ r < h → 0 ≤ c < w → 0 ≤ r' < h → 0 ≤ c' < w →
  px w (<[Z.to_nat (r * w + c) := v]> b) r' c' = if decide (r' = r ∧ c' = c) then v else px w b r' c'.
Proof.
  intros Hl Hr Hc Hr' Hc'. assert (0 ≤ r * w + c < w * h) by nia. unfold px. rewrite !nth_lookup. case_decide as H1.
  - destruct H1 as [-> ->]. by rewrite list_lookup_insert_eq by lia.
  - rewrite list_lookup_insert_ne; [done|]. intros E. apply H1. assert (0 ≤ r' * w + c') by nia.
    apply (cell_at_inj w); [done..|lia].
Qed.

Lemma px_lookup w h b r c :
  length b = Z.to_nat (w * h) → 0 ≤ r < h → 0 ≤ c < w → b !! Z.to_nat (r * w + c) = Some (px w b r c).
Proof.
  intros Hl Hr Hc. assert (0 ≤ r * w + c < w * h) by nia. unfold px.
  destruct (lookup_lt_is_Some_2 b (Z.to_nat (r * w + c))) as [v Hv]; [lia|]. by rewrite (nth_lookup_default _ _ _ v).
Qed.

(** A rectangle of a loop: [I y x] before the round of row [y] and column [x]. *)
Lemma wp_rect {St} (I : Z → Z → St → Prop) (body : Z → Z → M St unit) y0 y1 x0 x1 s :
  y0 ≤ y1 → x0 ≤ x1 → I y0 x0 s →
  (∀ y x s, y0 ≤ y < y1 → x0 ≤ x < x1 → I y x s → wp (body y x) s (λ _, I y (x + 1))) →
  (∀ y s, y0 ≤ y < y1 → I y x1 s → I (y + 1) x0 s) →
  wp (rect y0 y1 x0 x1 body) s (λ _, I y1 x0).
Proof.
  intros Hy Hx H0 Hb Hn. unfold rect. eapply wp_mono.
  - apply (wp_for_up (λ y, I y x0)); [done|]. intros y s1 Hr H1. eapply wp_mono.
    + apply (wp_for_up (λ x, I y x)); [done|]. intros x s2 Hc H2. apply Hb; [lia|lia|done].
    + intros [] s2 H2. apply Hn; [lia|]. by replace x1 with (x0 + Z.of_nat (Z.to_nat (x1 - x0))) by lia.
  - intros [] s1 H1. by replace y1 with (y0 + Z.of_nat (Z.to_nat (y1 - y0))) by lia.
Qed.

(** ** Windows *)

Record fit (s : win) : Prop := mkFit {
  fit_w : 1 ≤ ww s;
  fit_h : 1 ≤ wh s;
  fit_size : ww s * wh s ≤ 2 ^ 30;
  fit_buf : length (wbuf s) = Z.to_nat (ww s * wh s);
  fit_dirty : length (wdirty s) = Z.to_nat (wh s) }.

(** [s'] is [s] with other cells and flags. *)
Definition like (s s' : win) : Prop :=
  ∃ b d, s' = set_dirty d (set_buf b s) ∧ length b = length (wbuf s) ∧ length d = length (wdirty s).

Lemma like_refl s : like s s.
Proof. exists (wbuf s), (wdirty s). by destruct s. Qed.
Lemma like_trans s s1 s2 : like s s1 → like s1 s2 → like s s2.
Proof. intros (b & d & -> & Hb & Hd) (b' & d' & -> & Hb' & Hd'). exists b', d'. simpl in *. split; [done|]. lia. Qed.
Lemma fit_like s s' : fit s → like s s' → fit s'.
Proof. intros [] (b & d & -> & Hb & Hd). split; simpl; lia. Qed.
Lemma like_ww s s' : like s s' → ww s' = ww s.
Proof. by intros (b & d & -> & _). Qed.
Lemma like_wh s s' : like s s' → wh s' = wh s.
Proof. by intros (b & d & -> & _). Qed.

Lemma wp_load_cell s i Q : fit s → 0 ≤ i < ww s * wh s → (∀ c, Q c s) → wp (load_cell i) s Q.
Proof.
  intros F Hi HQ. destruct (at_index_in (wbuf s) i s) as (v & _ & E); [rewrite (fit_buf s F); lia|].
  unfold load_cell. wp_step. wp_step. by eapply wp_run.
Qed.

Lemma wp_store_cell s i c Q :
  fit s → 0 ≤ i < ww s * wh s → Q tt (set_buf (<[Z.to_nat i := c]> (wbuf s)) s) → wp (store_cell i c) s Q.
Proof.
  intros F Hi HQ. eapply wp_run; [|exact HQ]. unfold store_cell.
  by rewrite updated_in by (rewrite (fit_buf s F); lia).
Qed.

Lemma like_store_cell s s' i c : fit s → like s s' → 0 ≤ i < ww s * wh s → wp (store_cell i c) s' (λ _, like s).
Proof.
  intros F L Hi. apply wp_store_cell; [by apply (fit_like s)|by rewrite (like_ww s), (like_wh s)|].
  eapply like_trans; [done|]. exists (<[Z.to_nat i := c]> (wbuf s')), (wdirty s').
  rewrite length_insert. by destruct s'.
Qed.

Lemma like_load_cell s s' i (Q : cell_t → win → Prop) :
  fit s → like s s' → 0 ≤ i < ww s * wh s → (∀ c, Q c s') → wp (load_cell i) s' Q.
Proof. intros F L Hi HQ. apply wp_load_cell; [by apply (fit_like s)|by rewrite (like_ww s), (like_wh s)|done]. Qed.

Lemma like_store_ch s s' i c : fit s → like s s' → 0 ≤ i < ww s * wh s → wp (store_ch i c) s' (λ _, like s).
Proof.
  intros F L Hi. unfold store_ch. wp_step. apply (like_load_cell s); [done..|]. intros old. by apply like_store_cell.
Qed.

Lemma like_dirty s s' i : fit s → like s s' → 0 ≤ i < wh s → wp (store_dirty i) s' (λ _, like s).
Proof.
  intros F L Hi. destruct (fit_like s s' F L) as [_ _ _ _ Hd]. rewrite (like_wh s) in Hd by done.
  eapply wp_run; [unfold store_dirty; by rewrite updated_in by lia|].
  eapply like_trans; [done|]. exists (wbuf s'), (<[Z.to_nat i := 1]> (wdirty s')). rewrite length_insert. by destruct s'.
Qed.

Lemma like_for s s' n lo (body : Z → W unit) :
  like s s' → (∀ i s1, lo ≤ i < lo + Z.of_nat n → like s s1 → wp (body i) s1 (λ _, like s)) →
  wp (for_up n lo body) s' (λ _, like s).
Proof. intros L Hb. exact (wp_for_up (λ _, like s) body n lo s' L Hb). Qed.

Lemma like_rect s s' y0 y1 x0 x1 (body : Z → Z → W unit) :
  like s s' → (∀ y x s1, y0 ≤ y < y1 → x0 ≤ x < x1 → like s s1 → wp (body y x) s1 (λ _, like s)) →
  wp (rect y0 y1 x0 x1 body) s' (λ _, like s).
Proof. intros L Hb. apply like_for; [done|]. intros y s1 Hy L1. apply like_for; [done|]. intros. apply Hb; [lia|lia|done]. Qed.

Lemma like_all_dirty s s' : fit s → like s s' → wp all_dirty s' (λ _, like s).
Proof.
  intros F L. unfold all_dirty. wp_step. wp_step. rewrite (like_wh s) by done. apply like_for; [done|].
  intros. apply like_dirty; [done..|]. lia.
Qed.

Lemma like_mark_line s s' y : fit s → like s s' → wp (mark_line y) s' (λ _, like s).
Proof.
  intros F L. unfold mark_line. wp_step. wp_step. rewrite (like_wh s) by done.
  destruct ((0 <=? y) && (y <? wh s)) eqn:E; [apply like_dirty; [done..|lia]|by wp_step].
Qed.

Create HintDb tui.
#[export] Hint Resolve like_refl like_store_cell like_store_ch like_all_dirty like_mark_line : tui.

Lemma like_cell s r c : fit s → 0 ≤ r < wh s → 0 ≤ c < ww s → 0 ≤ cell_at (ww s) r c < ww s * wh s.
Proof. intros [? ? Hs ? ?] Hr Hc. destruct (cell_at_in (ww s) (wh s) r c Hs Hr Hc) as [-> ?]. done. Qed.

Lemma fit_area s : fit s → s32 (ww s * wh s) = ww s * wh s ∧ 0 ≤ ww s * wh s.
Proof. intros [? ? ? ? ?]. assert (0 ≤ ww s * wh s) by nia. split; [|done]. apply s32_small. lia. Qed.

(** Go on after a call that keeps the shape. *)
Ltac like_step := eapply wp_mono; [solve [eauto with tui]|intros [] ? ?].

Lemma like_box_row s s' y : fit s → like s s' → 2 ≤ ww s → 0 ≤ y < wh s → wp (box_row (ww s) y) s' (λ _, like s).
Proof.
  intros F L Hw Hy. assert (C : ∀ x, 0 ≤ x < ww s → 0 ≤ cell_at (ww s) y x < ww s * wh s) by (intros; by apply like_cell).
  unfold box_row. wp_step. eapply wp_mono; [apply like_store_ch; eauto; apply C; lia|]. intros [] s1 L1.
  wp_step. eapply wp_mono; [apply (like_for s); [done|]|].
  - intros x s2 Hx L2. apply like_store_ch; [done..|]. apply C. lia.
  - intros [] s2 L2. apply like_store_ch; [done..|]. apply C. lia.
Qed.

Lemma like_box s title : fit s → wp (win_box title) s (λ _, like s).
Proof.
  intros F. assert (C : ∀ y x, 0 ≤ y < wh s → 0 ≤ x < ww s → 0 ≤ cell_at (ww s) y x < ww s * wh s) by (intros; by apply like_cell).
  unfold win_box. do 2 wp_step. simpl. destruct ((ww s <? 3) || (wh s <? 3)) eqn:E; [wp_step; eauto with tui|].
  unfold blank. do 2 wp_step. set (b := mkCell _ _). wp_step.
  eapply wp_mono; [apply like_box_row; eauto with tui; lia|]. intros [] s1 L1.
  wp_step. eapply wp_mono; [apply like_box_row; eauto with tui; lia|]. intros [] s2 L2.
  wp_step. eapply wp_mono; [apply (like_for s); [done|]|].
  { intros y s3 Hy L3. wp_step. eapply wp_mono; [apply like_store_ch; eauto; apply C; lia|]. intros [] s4 L4.
    apply like_store_ch; [done..|]. apply C; lia. }
  intros [] s3 L3. wp_step. eapply wp_mono; [apply (like_rect s); [done|]|].
  { intros y x s4 Hy Hx L4. apply like_store_cell; [done..|]. apply C; lia. }
  intros [] s4 L4. wp_step. set (sl := if _ <? _ then _ else _). eapply wp_mono; [apply (like_for s); [done|]|].
  { intros i s5 Hi L5. assert (sl ≤ Z.of_nat (length title) ∧ sl ≤ ww s - 3) by (subst sl; destruct (Z.ltb_spec (ww s - 3) (Z.of_nat (length title))); lia).
    destruct (at_index_in title i s5) as (v & _ & Ev); [lia|]. wp_step. eapply wp_run; [exact Ev|].
    apply like_store_ch; [done..|]. apply C; lia. }
  intros [] s5 L5. apply like_for; [done|]. intros. by apply like_mark_line.
Qed.

(** ** Scrolling *)

(** [s'] is [s] with the cells of [b]. *)
Definition has_cells (s : win) (f : Z → Z → cell_t) (s' : win) : Prop :=
  ∃ b, s' = set_buf b s ∧ length b = length (wbuf s) ∧
    ∀ r c, 0 ≤ r < wh s → 0 ≤ c < ww s → px (ww s) b r c = f r c.

Lemma has_cells_ext s f g s' :
  (∀ r c, 0 ≤ r < wh s → 0 ≤ c < ww s → f r c = g r c) → has_cells s f s' → has_cells s g s'.
Proof. intros He (b & -> & Hl & H). exists b. split_and!; [done..|]. intros r c Hr Hc. rewrite H, He; done. Qed.

Lemma has_cells_self s : has_cells s (px (ww s) (wbuf s)) s.
Proof. exists (wbuf s). by destruct s. Qed.

Lemma has_cells_store s f s' r c v :
  fit s → has_cells s f s' → 0 ≤ r < wh s → 0 ≤ c < ww s →
  wp (store_cell (cell_at (ww s) r c) v) s' (λ _, has_cells s (λ r' c', if decide (r' = r ∧ c' = c) then v else f r' c')).
Proof.
  intros F (b & -> & Hl & Hb) Hr Hc. destruct (cell_at_in (ww s) (wh s) r c) as [E ?]; [apply F|done..|].
  apply wp_store_cell; [by destruct F; split; simpl; try lia|simpl; lia|].
  exists (<[Z.to_nat (r * ww s + c) := v]> b). simpl. rewrite E, length_insert. split_and!; [done..|].
  intros r' c' Hr' Hc'. rewrite (px_insert _ (wh s)) by (done || rewrite Hl; apply F).
  case_decide; [done|]. by apply Hb.
Qed.

Lemma has_cells_load s f s' r c (Q : cell_t → win → Prop) :
  fit s → has_cells s f s' → 0 ≤ r < wh s → 0 ≤ c < ww s → Q (f r c) s' → wp (load_cell (cell_at (ww s) r c)) s' Q.
Proof.
  intros F (b & -> & Hl & Hb) Hr Hc HQ. destruct (cell_at_in (ww s) (wh s) r c) as [E ?]; [apply F|done..|].
  unfold load_cell. wp_step. wp_step. rewrite E. eapply wp_run; [|exact HQ]. unfold at_index.
  replace (0 <=? _) with true by lia. simpl. rewrite (px_lookup _ (wh s)) by (done || rewrite Hl; apply F).
  by rewrite Hb.
Qed.

(** The cells of a window and the flags around it. *)
Lemma all_dirty_run s s' f :
  fit s → has_cells s f s' →
  wp all_dirty s' (λ _ s2, ∃ d, length d = length (wdirty s) ∧ has_cells (set_dirty d s) f s2).
Proof.
  intros F (b & -> & Hl & Hb). eapply wp_mono.
  - apply (wp_for_up (λ _ s2, ∃ d, s2 = set_dirty d (set_buf b s) ∧ length d = length (wdirty s))).
    + exists (wdirty s). by destruct s.
    + intros i ? Hi (d & -> & Hd). eapply wp_run.
      { unfold store_dirty. simpl. rewrite updated_in; [done|]. rewrite Hd, (fit_dirty s F). simpl in Hi. lia. }
      exists (<[Z.to_nat i := 1]> d). by rewrite length_insert.
  - intros [] s2 (d & -> & Hd). exists d. split; [done|]. exists b. split_and!; [by destruct s|done|done].
Qed.

(** [n] rows up, [n] blank rows at the bottom. *)
Definition shifted (s : win) (n : Z) (r c : Z) : cell_t :=
  if decide (r + n < wh s) then px (ww s) (wbuf s) (r + n) c else mkCell 32 (make_attr (wfg s) (wbg s)).

Lemma win_scroll_run s lines :
  fit s → 0 < lines →
  wp (win_scroll lines) s (λ _ s', ∃ d off, length d = length (wdirty s) ∧
    has_cells (set_scroll off (wscroll_ok s) (set_dirty d s)) (shifted s (Z.min lines (wh s))) s').
Proof.
  intros F Hl. unfold win_scroll. replace (lines <=? 0) with false by lia. do 4 wp_step.
  replace (if lines <? wh s then lines else wh s) with (Z.min lines (wh s)) by (destruct (Z.ltb_spec lines (wh s)); lia).
  set (a := Z.min lines (wh s)). pose proof (fit_h s F) as Hh. pose proof (fit_w s F) as Hw. assert (Ha : 1 ≤ a ≤ wh s) by lia. wp_step.
  set (f0 := px (ww s) (wbuf s)).
  set (f1 := λ y x r c, if decide (r + a < y ∨ r + a = y ∧ c < x) then f0 (r + a) c else f0 r c).
  eapply wp_mono; [apply (wp_rect (λ y x, has_cells s (f1 y x))); [lia|lia|..]|].
  { eapply has_cells_ext; [|apply has_cells_self]. intros. unfold f1. by rewrite decide_False by lia. }
  { intros y x s1 Hy Hx H1. wp_step. apply (has_cells_load s (f1 y x)); [done|done|lia|lia|].
    eapply wp_mono; [apply (has_cells_store s (f1 y x)); [done|done|lia|lia]|]. intros [] s2. apply has_cells_ext.
    intros r c Hr Hc. unfold f1. repeat case_decide; try lia; try done. match goal with H : _ = _ ∧ _ = _ |- _ => destruct H as [-> ->] end. f_equal; lia. }
  { intros y s1 Hy. apply has_cells_ext. intros r c Hr Hc. unfold f1. repeat case_decide; done || lia. }
  intros [] s1 H1. unfold blank. do 3 wp_step. set (b := mkCell 32 (make_attr (wfg s1) (wbg s1))).
  assert (Eb : b = mkCell 32 (make_attr (wfg s) (wbg s))) by (by destruct H1 as (? & -> & _)).
  set (f2 := λ y x r c, if decide (r < wh s - a) then f0 (r + a) c
    else if decide (r < y ∨ r = y ∧ c < x) then b else f1 (wh s) 0 r c).
  eapply wp_mono; [apply (wp_rect (λ y x, has_cells s (f2 y x))); [lia|lia|..]|].
  { eapply has_cells_ext; [|exact H1]. intros r c Hr Hc. unfold f2, f1. repeat case_decide; done || lia. }
  { intros y x s2 Hy Hx H2. eapply wp_mono; [apply (has_cells_store s (f2 y x)); [done|done|lia|lia]|].
    intros [] s3. apply has_cells_ext. intros r c Hr Hc. unfold f2. repeat case_decide; done || lia. }
  { intros y s2 Hy. apply has_cells_ext. intros r c Hr Hc. unfold f2. repeat case_decide; done || lia. }
  intros [] s2 H2. wp_step. eapply wp_mono; [exact (all_dirty_run s s2 _ F H2)|]. intros [] s3 (d & Hd & H3).
  wp_step. wp_step.
  assert (Hf : has_cells (set_dirty d s) (shifted s a) s3).
  { eapply has_cells_ext; [|exact H3]. intros r c Hr Hc. unfold f2, shifted, f0. simpl in *. repeat case_decide; done || lia. }
  clear H3 H2 H1. destruct Hf as (bf & -> & Hlen & Hf). destruct (nz _); wp_step.
  - exists d, (s32 (wscroll_off s + a)). split; [done|]. by exists bf.
  - exists d, (wscroll_off s). split; [done|]. exists bf. split_and!; [by destruct s|done|done].
Qed.

(** ** The cursor *)

(** [s'] is [s] with the cells [f] and other flags. *)
Definition drawn (s : win) (f : Z → Z → cell_t) (s' : win) : Prop :=
  like s s' ∧ ∀ r c, 0 ≤ r < wh s → 0 ≤ c < ww s → px (ww s) (wbuf s') r c = f r c.

Lemma drawn_self s : drawn s (px (ww s) (wbuf s)) s.
Proof. split; [apply like_refl|done]. Qed.

Lemma drawn_cells s d f s' : length d = length (wdirty s) → has_cells (set_dirty d s) f s' → drawn s f s'.
Proof. intros Hd (b & -> & Hl & Hb). split; [|exact Hb]. exists b, d. by destruct s. Qed.

Lemma drawn_store s f s' r c v :
  fit s → drawn s f s' → 0 ≤ r < wh s → 0 ≤ c < ww s →
  wp (store_cell (cell_at (ww s) r c) v) s' (λ _, drawn s (λ r' c', if decide (r' = r ∧ c' = c) then v else f r' c')).
Proof.
  intros F [L Hf] Hr Hc. destruct (cell_at_in (ww s) (wh s) r c) as [E ?]; [apply F|done..|].
  pose proof (fit_like s s' F L) as F'. assert (Hl : length (wbuf s') = Z.to_nat (ww s * wh s)).
  { rewrite (fit_buf _ F'). by rewrite (like_ww s s'), (like_wh s s'). }
  apply wp_store_cell; [done|rewrite (like_ww s s'), (like_wh s s'), E; done|]. split.
  - eapply like_trans; [done|]. exists (<[Z.to_nat (cell_at (ww s) r c) := v]> (wbuf s')), (wdirty s').
    rewrite length_insert. by destruct s'.
  - intros r' c' Hr' Hc'. simpl. rewrite E, (px_insert _ (wh s)) by done. case_decide; [done|]. by apply Hf.
Qed.

Lemma drawn_mark s f s' y : fit s → drawn s f s' → wp (mark_line y) s' (λ _, drawn s f).
Proof.
  intros F [L Hf]. pose proof (fit_like s s' F L) as F'. unfold mark_line. do 2 wp_step.
  destruct ((0 <=? y) && (y <? wh s')) eqn:E; [|by wp_step].
  eapply wp_run; [unfold store_dirty; by rewrite updated_in by (rewrite (fit_dirty _ F'); lia)|].
  split; [|exact Hf]. eapply like_trans; [done|]. exists (wbuf s'), (<[Z.to_nat y := 1]> (wdirty s')).
  rewrite length_insert. by destruct s'.
Qed.

Lemma put_run s c a :
  fit s → 0 ≤ wcx s < ww s → 0 ≤ wcy s < wh s →
  wp (put_at_cursor c a) s (λ _, drawn (set_cursor (wcx s + 1) (wcy s) s)
    (λ r' c', if decide (r' = wcy s ∧ c' = wcx s) then mkCell c a else px (ww s) (wbuf s) r' c')).
Proof.
  intros F Hx Hy. pose proof F as [? ? ? ? ?]. unfold put_at_cursor. do 2 wp_step. simpl.
  replace ((ww s <=? wcx s) || (wh s <=? wcy s)) with false by lia.
  wp_step. eapply wp_mono; [exact (drawn_store s _ s _ _ _ F (drawn_self s) Hy Hx)|]. intros [] s1 H1.
  wp_step. eapply wp_mono; [exact (drawn_mark s _ _ _ F H1)|]. intros [] s2 [(b & d & -> & Hb & Hd) Hf]. wp_step.
  split; [|exact Hf]. exists b, d. simpl in *. rewrite s32_small by nia. by destruct s.
Qed.

Lemma put_full s c a : ww s ≤ wcx s ∨ wh s ≤ wcy s → put_at_cursor c a s = Some (tt, s).
Proof.
  intros H. unfold put_at_cursor, bind, gets. simpl.
  by replace ((ww s <=? wcx s) || (wh s <=? wcy s)) with true by lia.
Qed.

Lemma drawn_like s f s' : drawn s f s' → like s s'.
Proof. by intros [? _]. Qed.

(** The window is sound and its cursor is at most [k] lines below it. *)
Record winv (k : Z) (s : win) : Prop := mkWinv {
  winv_fit : fit s;
  winv_cx : 0 ≤ wcx s ≤ ww s;
  winv_cy : 0 ≤ wcy s ≤ wh s + k;
  winv_x : - 2 ^ 30 ≤ wx s ≤ 2 ^ 30;
  winv_y : - 2 ^ 30 ≤ wy s ≤ 2 ^ 30 }.

Lemma winv_like k s s' : winv k s → like s s' → winv k s'.
Proof. intros [F ? ? ? ?] L. pose proof (fit_like s s' F L). destruct L as (b & d & -> & _ & _). by split. Qed.

Lemma winv_le k k' s : k ≤ k' → winv k s → winv k' s.
Proof. intros ? []. split; try done; lia. Qed.

(** A sound window with other fields than its sizes and buffers. *)
Ltac winv_set F := split; simpl; try done; try lia; by (destruct F; split).

(** ** Each call keeps the window sound *)

Lemma keeps_move k s x y :
  winv k s → - 2 ^ 30 ≤ x ≤ 2 ^ 30 → - 2 ^ 30 ≤ y ≤ 2 ^ 30 → wp (win_move x y) s (λ _, winv k).
Proof.
  intros [F ? ? ? ?] Hx Hy. unfold win_move. do 2 wp_step. assert (F' : fit (set_pos x y s)) by (by destruct F; split).
  eapply wp_mono; [apply (like_all_dirty (set_pos x y s)); [done|apply like_refl]|].
  intros [] s' L. apply (winv_like k (set_pos x y s)); [by split|done].
Qed.

Lemma keeps_gotoxy k s y x : 0 ≤ k → winv k s → wp (win_gotoxy y x) s (λ _, winv k).
Proof.
  intros Hk [F ? ? ? ?]. pose proof F as [? ? ? ? ?]. unfold win_gotoxy. do 4 wp_step. wp_step.
  set (x1 := if ww s <=? _ then _ else _). set (y1 := if wh s <=? _ then _ else _).
  assert (0 ≤ x1 < ww s) by (subst x1; destruct (Z.ltb_spec x 0); repeat case_match; lia).
  assert (0 ≤ y1 < wh s) by (subst y1; destruct (Z.ltb_spec y 0); repeat case_match; lia).
  winv_set F.
Qed.

Lemma keeps_put k s c a : winv k s → wp (put_at_cursor c a) s (λ _, winv k).
Proof.
  intros [F Hx Hy ? ?]. destruct (decide (ww s ≤ wcx s ∨ wh s ≤ wcy s)) as [Hfull|Hin].
  { eapply wp_run; [by apply put_full|]. by split. }
  eapply wp_mono; [apply put_run; [done|lia|lia]|]. intros [] s' [L _].
  apply (winv_like k (set_cursor (wcx s + 1) (wcy s) s)); [|done].
  winv_set F.
Qed.

Lemma keeps_scroll k s lines : winv k s → wp (win_scroll lines) s (λ _ s', winv k s' ∧ wh s' = wh s ∧ ww s' = ww s ∧
  wcx s' = wcx s ∧ wscroll_ok s' = wscroll_ok s).
Proof.
  intros [F Hx Hy ? ?]. destruct (decide (0 < lines)).
  - eapply wp_mono; [by apply win_scroll_run|]. intros [] s' (d & off & Hd & b & -> & Hl & _).
    split; [|done]. split; simpl in *; try done; try lia. destruct F. split; simpl in *; lia.
  - unfold win_scroll. replace (lines <=? 0) with true by lia. wp_step. split; [by split|done].
Qed.

Lemma keeps_scroll_up k s : 0 ≤ k → winv k s → wp scroll_up s (λ _ s', winv k s' ∧ wcy s' = wh s' - 1 ∧ wcx s' = wcx s).
Proof.
  intros Hk W. unfold scroll_up. wp_step. eapply wp_mono; [by apply keeps_scroll|].
  intros [] s' (W' & Hh & Hw & Hx & Ho). wp_step. destruct W' as [F' ? ? ? ?]. pose proof F' as [? ? ? ? ?].
  split; [|done]. winv_set F'.
Qed.

Lemma keeps_next_line k s : 0 ≤ k < 2 ^ 30 - 1 → winv k s → wp next_line s (λ _ s', winv (k + 1) s' ∧ wcx s' = 0 ∧
  wcy s' = wcy s + 1 ∧ wh s' = wh s ∧ ww s' = ww s).
Proof.
  intros Hk [F ? ? ? ?]. pose proof F as [? ? ? ? ?]. assert (wh s ≤ 2 ^ 30) by nia.
  unfold next_line. wp_step. simpl. rewrite s32_small by lia. split; [|done]. winv_set F.
Qed.

Lemma keeps_addch k s c : winv k s → wp (win_addch c) s (λ _, winv k).
Proof. intros W. unfold win_addch. do 2 wp_step. by apply keeps_put. Qed.

Lemma keeps_addstr str : ∀ k s, winv k s → 0 ≤ k → k + Z.of_nat (length str) < 2 ^ 30 →
  wp (win_addstr str) s (λ _, winv (k + Z.of_nat (length str))).
Proof.
  induction str as [|c str IH]; intros k s W Hk Hn; simpl win_addstr; simpl length in *.
  { wp_step. by apply (winv_le k); [lia|]. }
  assert (IH' : ∀ s', winv (k + 1) s' → wp (win_addstr str) s' (λ _, winv (k + Z.of_nat (S (length str))))).
  { intros s' W'. eapply wp_mono; [apply (IH (k + 1)); [done|lia|lia]|]. intros [] s2. by replace (k + 1 + Z.of_nat (length str))
      with (k + Z.of_nat (S (length str))) by lia. }
  assert (ADD : ∀ s', winv (k + 1) s' → wp (win_addch c ;! win_addstr str) s'
    (λ _, winv (k + Z.of_nat (S (length str))))).
  { intros s' W'. wp_step. eapply wp_mono; [by apply keeps_addch|]. intros [] s2. apply IH'. }
  destruct (c =? 10).
  - wp_step. unfold end_line. wp_step. eapply wp_mono; [apply (keeps_next_line k); [lia|done]|].
    intros [] s1 (W1 & _ & Hy & Hh & Hw). do 2 wp_step. unfold id.
    destruct ((wh s1 <=? wcy s1) && nz (wscroll_ok s1)).
    + eapply wp_mono; [apply (keeps_scroll_up (k + 1)); [lia|done]|]. intros [] s2 (W2 & _). by apply IH'.
    + wp_step. by apply IH'.
  - do 3 wp_step. unfold id. eapply (wp_mono _ _ (λ _ s1, winv (k + 1) s1)).
    { destruct (ww s <=? wcx s); [eapply wp_mono; [apply (keeps_next_line k); [lia|done]|]; by intros [] s1 (W1 & _)|].
      wp_step. by apply (winv_le k); [lia|]. }
    intros [] s1 W1. do 2 wp_step. unfold id. destruct (wh s1 <=? wcy s1); [|by apply ADD].
    destruct (nz _); [|wp_step; by apply (winv_le (k + 1)); [lia|]].
    wp_step. eapply wp_mono; [apply (keeps_scroll_up (k + 1)); [lia|done]|]. intros [] s2 (W2 & _). by apply ADD.
Qed.

Lemma keeps_color k s fg bg : winv k s → wp (win_color fg bg) s (λ _, winv k).
Proof. intros [F ? ? ? ?]. unfold win_color. wp_step. winv_set F. Qed.
Lemma keeps_bold k s on : winv k s → wp (win_bold on) s (λ _, winv k).
Proof. intros [F ? ? ? ?]. unfold win_bold. wp_step. winv_set F. Qed.
Lemma keeps_scroll_ok k s on : winv k s → wp (win_scroll_ok on) s (λ _, winv k).
Proof. intros [F ? ? ? ?]. unfold win_scroll_ok. wp_step. winv_set F. Qed.

Lemma keeps_box k s title : winv k s → wp (win_box title) s (λ _, winv k).
Proof. intros W. eapply wp_mono; [apply like_box, W|]. intros [] s' L. by apply (winv_like k s). Qed.

(** The loop over all cells of [tui_win_clear] and [tui_win_fill]. *)
Lemma like_fill_all s c : fit s → wp (for_up (Z.to_nat (s32 (ww s * wh s))) 0 (λ i, store_cell i c)) s (λ _, like s).
Proof.
  intros F. destruct (fit_area s F) as [-> Ha]. apply like_for; [apply like_refl|].
  intros i s1 Hi L1. apply like_store_cell; [done..|lia].
Qed.

Lemma keeps_fill k s c : winv k s → wp (win_fill c) s (λ _, winv k).
Proof.
  intros W. destruct (W) as [F ? ? ? ?]. unfold win_fill. do 3 wp_step. eapply wp_mono; [by apply like_fill_all|].
  intros [] s1 L1. eapply wp_mono; [by apply (like_all_dirty s)|]. intros [] s2 L2. by apply (winv_like k s).
Qed.

Lemma keeps_clear k s : 0 ≤ k → winv k s → wp win_clear s (λ _ s', winv k s').
Proof.
  intros Hk W. destruct (W) as [F ? ? ? ?]. pose proof F as [? ? ? ? ?]. unfold win_clear, blank. do 5 wp_step.
  eapply wp_mono; [by apply like_fill_all|].
  intros [] s1 L1. wp_step. eapply wp_mono; [by apply (like_all_dirty s)|]. intros [] s2 L2. wp_step.
  apply (winv_like k (set_scroll 0 (wscroll_ok s) (set_cursor 0 0 s))).
  - winv_set F.
  - destruct L2 as (b & d & -> & Hb & Hd). by exists b, d.
Qed.

Lemma keeps_clrtoeol k s : winv k s → wp win_clrtoeol s (λ _, winv k).
Proof.
  intros W. destruct (W) as [F ? ? ? ?]. unfold win_clrtoeol. do 2 wp_step. simpl.
  destruct (Z.leb_spec (wh s) (wcy s)); [by wp_step|]. unfold blank. do 3 wp_step.
  eapply wp_mono; [apply (like_for s); [apply like_refl|]|].
  - intros x s1 Hx L1. apply like_store_cell; [done..|]. apply like_cell; [done|lia|lia].
  - intros [] s1 L1. eapply wp_mono; [by apply (like_mark_line s)|]. intros [] s2 L2. by apply (winv_like k s).
Qed.

(** Memory is granted when nothing says otherwise. *)
Lemma granted_yes n s : u_grants s = [] → 0 < n < 2 ^ 31 → granted n s = Some (true, s).
Proof. intros Eg Hn. unfold granted. rewrite s32_small by lia. replace (n <=? 0) with false by lia. by rewrite Eg. Qed.
