(* ===== verification/TuiScreen.v ===== *)
(** * TuiScreen: painting, and a terminal that follows the screen

    [composite] paints at every place the cell of the topmost window there
    ([top_cell]).  [term] is a reference terminal that understands the sequences
    [tui.c] sends; fed with what [tui_refresh] sends, it shows what was painted
    ([shows]).  Every call keeps [uinv], so none of them reads or writes outside a
    buffer. *)

From Stdlib Require Import ZArith Lia.
From stdpp Require Import gmap list prelude.
From S2P Require Import Prelude Libc LibcAlloc Stdio Tui TuiProof.

Open Scope Z_scope.

(** ** The screen context *)

Record sized (t : tui) : Prop := mkSized {
  sz_w : t_w t = 80;
  sz_h : t_h t = 25;
  sz_comp : length (t_composite t) = Z.to_nat 2000;
  sz_phys : length (t_phys t) = Z.to_nat 2000;
  sz_dirty : length (t_comp_dirty t) = Z.to_nat 25 }.

Definition on_screen (r c : Z) : Prop := 0 ≤ r < 25 ∧ 0 ≤ c < 80.

(** The context with another composite, whose cells are [f]. *)
Definition painted (t : tui) (f : Z → Z → cell_t) (t' : tui) : Prop :=
  ∃ b, t' = set_composite b t ∧ length b = Z.to_nat 2000 ∧ ∀ r c, on_screen r c → px 80 b r c = f r c.

Lemma painted_ext t f g t' : (∀ r c, on_screen r c → f r c = g r c) → painted t f t' → painted t g t'.
Proof. intros He (b & -> & Hl & H). exists b. split_and!; [done..|]. intros r c Hrc. by rewrite H, He. Qed.

Lemma painted_self t : sized t → painted t (px 80 (t_composite t)) t.
Proof. intros Sz. exists (t_composite t). split_and!; [by destruct t|apply Sz|done]. Qed.

Lemma screen_index r c : on_screen r c → cell_at 80 r c = r * 80 + c ∧ 0 ≤ r * 80 + c < 2000.
Proof. intros [Hr Hc]. apply (cell_at_in 80 25); [lia|done..]. Qed.

Lemma px_screen b r c v r' c' : length b = Z.to_nat 2000 → on_screen r c → on_screen r' c' →
  px 80 (<[Z.to_nat (r * 80 + c) := v]> b) r' c' = if decide (r' = r ∧ c' = c) then v else px 80 b r' c'.
Proof. intros Hl [? ?] [? ?]. by apply (px_insert 80 25). Qed.

Lemma painted_store t f t' r c v :
  painted t f t' → on_screen r c →
  wp (store_comp (cell_at 80 r c) v) t' (λ _, painted t (λ r' c', if decide (r' = r ∧ c' = c) then v else f r' c')).
Proof.
  intros (b & -> & Hl & Hb) Hrc. destruct (screen_index r c Hrc) as [E Hi].
  eapply wp_run; [unfold store_comp; simpl; rewrite E, updated_in by (rewrite Hl; lia); done|].
  exists (<[Z.to_nat (r * 80 + c) := v]> b). rewrite length_insert. split_and!; [done..|].
  intros r' c' Hrc'. rewrite px_screen by done. case_decide; [done|]. by apply Hb.
Qed.

(** ** Painting *)

(** The window [w] has a cell at this place of the screen. *)
Definition covers (w : win) (r c : Z) : Prop := wy w ≤ r < wy w + wh w ∧ wx w ≤ c < wx w + ww w.
#[export] Instance covers_dec w r c : Decision (covers w r c).
Proof. unfold covers. apply _. Defined.

Definition cell_of (w : win) (r c : Z) : cell_t := px (ww w) (wbuf w) (r - wy w) (c - wx w).

(** Windows from the bottom to the top. *)
Definition top_cell (ws : list win) (r c : Z) : cell_t :=
  foldl (λ acc w, if decide (covers w r c) then cell_of w r c else acc) screen_blank ws.

Lemma win_index k w row : winv k w → 0 ≤ row < wh w → s32 (wy w + row) = wy w + row.
Proof. intros [F ? ? ? ?] ?. destruct F. apply s32_small. assert (wh w ≤ 2 ^ 30) by nia. lia. Qed.
Lemma win_index_x k w col : winv k w → 0 ≤ col < ww w → s32 (wx w + col) = wx w + col.
Proof. intros [F ? ? ? ?] ?. destruct F. apply s32_small. assert (ww w ≤ 2 ^ 30) by nia. lia. Qed.

Lemma paint_row_run k w t f t' row :
  winv k w → sized t → painted t f t' → 0 ≤ row < wh w →
  wp (paint_row w row) t' (λ _, painted t (λ r c, if decide (r = wy w + row ∧ covers w r c) then cell_of w r c else f r c)).
Proof.
  intros Wi Sz P Hrow. pose proof (winv_fit k w Wi) as F. assert (Et : t_w t' = 80 ∧ t_h t' = 25).
  { destruct P as (b & -> & _). destruct Sz. done. }
  destruct Et as [Ew Eh]. unfold paint_row. do 2 wp_step. unfold id. rewrite Ew, Eh, (win_index k) by done.
  destruct ((wy w + row <? 0) || (25 <=? wy w + row)) eqn:Out.
  { wp_step. eapply painted_ext; [|exact P]. intros r c [Hr Hc]. rewrite decide_False; [done|]. unfold covers. lia. }
  set (I := λ (j : Z) (t1 : tui), painted t (λ r c, if decide (r = wy w + row ∧ covers w r c ∧ c < wx w + j) then cell_of w r c else f r c) t1).
  eapply wp_mono; [apply (wp_for_up I)|].
  - eapply painted_ext; [|exact P]. intros r c _. rewrite decide_False; [done|]. unfold covers. lia.
  - intros col t1 Hcol P1. rewrite (win_index_x k) by (done || lia).
    destruct ((wx w + col <? 0) || (80 <=? wx w + col)) eqn:OutX.
    + wp_step. eapply painted_ext; [|exact P1]. intros r c [Hr Hc]. unfold covers. repeat case_decide; try done; lia.
    + destruct (cell_at_in (ww w) (wh w) row col) as [E Hi]; [apply F|done|lia|]. wp_step. eapply wp_run.
      { unfold at_index. rewrite E. replace (0 <=? _) with true by lia.
        rewrite (px_lookup _ (wh w)) by (apply F || lia). reflexivity. }
      eapply wp_mono; [apply (painted_store t _ t1 _ _ _ P1); split; lia|]. intros [] t2. apply painted_ext.
      intros r c [Hr Hc]. unfold covers. repeat case_decide; try lia; try done.
      unfold cell_of. f_equal; lia.
  - intros [] t1. unfold I. apply painted_ext. intros r c Hrc. unfold covers. repeat case_decide; done || lia.
Qed.

Lemma paint_win_run k w t f t' :
  winv k w → sized t → painted t f t' →
  wp (paint_win w) t' (λ _, painted t (λ r c, if decide (covers w r c) then cell_of w r c else f r c)).
Proof.
  intros Wi Sz P. pose proof (fit_h w (winv_fit k w Wi)).
  set (I := λ (j : Z) (t1 : tui), painted t (λ r c, if decide (covers w r c ∧ r < wy w + j) then cell_of w r c else f r c) t1).
  eapply wp_mono; [apply (wp_for_up I)|].
  - eapply painted_ext; [|exact P]. intros r c _. rewrite decide_False; [done|]. unfold covers. lia.
  - intros row t1 Hrow P1. eapply wp_mono; [apply (paint_row_run k w t _ t1 row Wi Sz P1); lia|].
    intros [] t2. apply painted_ext. intros r c _. unfold covers. repeat case_decide; done || lia.
  - intros [] t1. unfold I. apply painted_ext. intros r c _. unfold covers. repeat case_decide; done || lia.
Qed.

(** The windows of the context, in order. *)
Definition windows_of (s : world) (l : list Z) (ws : list win) : Prop :=
  Forall2 (λ p w, u_wins s !! p = Some w) l ws.

Lemma paint_run k l ws : ∀ s f t,
  windows_of s l ws → Forall (winv k) ws → sized t → painted t f (u_tui s) →
  wp (paint l) s (λ _ s', ∃ t', s' = set_tui t' s ∧
    painted t (λ r c, foldl (λ acc w, if decide (covers w r c) then cell_of w r c else acc) (f r c) ws) t').
Proof.
  revert ws. induction l as [|p l IH]; intros ws s f t Hw Hi Sz P; inversion Hw as [|? w ? ws' Hp Hw' E1 E2]; subst; simpl.
  - wp_step. exists (u_tui s). split; [by destruct s|exact P].
  - inversion Hi as [|? ? Hi1 Hi']; subst. wp_step. eapply wp_run; [by rewrite Hp|]. wp_step. unfold screen. wp_step.
    eapply wp_mono; [apply (paint_win_run k w t f (u_tui s)); done|]. intros [] t1 P1.
    eapply wp_mono; [apply (IH ws' _ (λ r c, if decide (covers w r c) then cell_of w r c else f r c) t); try done|].
    intros [] s2 (t2 & -> & P2). exists t2. by split.
Qed.

Lemma composite_run k s ws :
  windows_of s (t_windows (u_tui s)) ws → Forall (winv k) ws → sized (u_tui s) →
  wp composite s (λ _ s', ∃ t', s' = set_tui t' s ∧ painted (u_tui s) (top_cell ws) t').
Proof.
  intros Hw Hi Sz. pose proof Sz as [Ew Eh _ _ _]. unfold composite. do 3 wp_step. rewrite Ew, Eh.
  change (Z.to_nat (s32 (80 * 25))) with (Z.to_nat 2000). unfold screen. wp_step.
  set (I := λ (j : Z) t1, painted (u_tui s) (λ r c, if decide (r * 80 + c < j) then screen_blank else px 80 (t_composite (u_tui s)) r c) t1).
  eapply wp_mono; [apply (wp_for_up I)|].
  - eapply painted_ext; [|by apply painted_self]. intros r c [? ?]. by rewrite decide_False by lia.
  - intros i t1 Hi1 P1. assert (On : on_screen (i / 80) (i mod 80)) by (split; Z.div_mod_to_equations; lia).
    destruct (screen_index _ _ On) as [E _]. assert (Ei : i = cell_at 80 (i / 80) (i mod 80)) by (rewrite E; Z.div_mod_to_equations; lia).
    rewrite Ei at 1.
    eapply wp_mono; [apply (painted_store _ _ _ _ _ _ P1 On)|]. intros [] t2. apply painted_ext. intros r c [? ?].
    repeat case_decide; try done; Z.div_mod_to_equations; lia.
  - intros [] t1 P1. eapply wp_mono; [apply (paint_run k _ ws (set_tui t1 s) (λ _ _, screen_blank) (u_tui s)); try done|].
    + eapply painted_ext; [|exact P1]. intros r c [? ?]. by rewrite decide_True by lia.
    + intros [] s2 (t2 & -> & P2). exists t2. by split.
Qed.

(** A number between two others is one of a list. *)
Lemma seqZ_cases (P : Z → Prop) lo n : Forall P (seqZ lo n) → ∀ i, lo ≤ i < lo + n → P i.
Proof. intros H i Hi. rewrite Forall_forall in H. apply H. apply elem_of_seqZ. lia. Qed.

(** ** A terminal *)

Inductive parser := Ground | Escape | Csi (private : bool) (ps : list Z) (cur : Z).

(** A shown cell: its character and the numbers of its colours. *)
Definition shown_cell : Type := Z * Z * Z.

Record term := mkTerm {
  tm_cell : Z → Z → shown_cell;
  tm_row : Z; tm_col : Z;
  tm_fg : Z; tm_bg : Z;
  tm_in : parser }.

Definition tm_parse p (tm : term) := mkTerm (tm_cell tm) (tm_row tm) (tm_col tm) (tm_fg tm) (tm_bg tm) p.
Definition tm_goto r c (tm : term) := mkTerm (tm_cell tm) r c (tm_fg tm) (tm_bg tm) (tm_in tm).
Definition tm_pen fg bg (tm : term) := mkTerm (tm_cell tm) (tm_row tm) (tm_col tm) fg bg (tm_in tm).
Definition tm_cells f (tm : term) := mkTerm f (tm_row tm) (tm_col tm) (tm_fg tm) (tm_bg tm) (tm_in tm).

Section terminal.

(** The colours of an erased cell, from the current ones: terminals differ. *)
Context (erase : Z → Z → Z * Z).

Definition erased (tm : term) : shown_cell := (32, fst (erase (tm_fg tm) (tm_bg tm)), snd (erase (tm_fg tm) (tm_bg tm))).

Definition put (b : Z) (tm : term) : term :=
  if tm_col tm <? 80 then
    tm_goto (tm_row tm) (tm_col tm + 1)
      (tm_cells (λ r c, if decide (r = tm_row tm ∧ c = tm_col tm) then (b, tm_fg tm, tm_bg tm) else tm_cell tm r c) tm)
  else tm.

Definition sgr (tm : term) (p : Z) : term :=
  if between p 30 37 then tm_pen (p - 30) (tm_bg tm) tm
  else if between p 90 97 then tm_pen (p - 82) (tm_bg tm) tm
  else if between p 40 47 then tm_pen (tm_fg tm) (p - 40) tm
  else if between p 100 107 then tm_pen (tm_fg tm) (p - 92) tm
  else if p =? 0 then tm_pen 7 0 tm
  else tm.

Definition dispatch (private : bool) (ps : list Z) (b : Z) (tm : term) : term :=
  if private then tm
  else if b =? 72 then tm_goto (Z.max 1 (nth 0 ps 1) - 1) (Z.max 1 (nth 1 ps 1) - 1) tm
  else if b =? 75 then tm_cells (λ r c, if decide (r = tm_row tm ∧ tm_col tm ≤ c) then erased tm else tm_cell tm r c) tm
  else if (b =? 74) && (nth 0 ps 0 =? 2) then tm_cells (λ _ _, erased tm) tm
  else if b =? 109 then foldl sgr tm ps
  else tm.

Definition feed (tm : term) (b : Z) : term :=
  match tm_in tm with
  | Ground => if b =? 27 then tm_parse Escape tm else if between b 32 126 then put b tm else tm
  | Escape => if b =? 91 then tm_parse (Csi false [] 0) tm else tm_parse Ground tm
  | Csi p ps cur =>
      if between b 48 57 then tm_parse (Csi p ps (cur * 10 + (b - 48))) tm
      else if b =? 59 then tm_parse (Csi p (ps ++ [cur]) 0) tm
      else if b =? 63 then tm_parse (Csi true ps cur) tm
      else tm_parse Ground (dispatch p (ps ++ [cur]) b tm)
  end.

Definition feeds : term → list Z → term := foldl feed.

Lemma feeds_app tm a b : feeds tm (a ++ b) = feeds (feeds tm a) b.
Proof. apply foldl_app. Qed.

Definition goto_bytes (y x : Z) : list Z := [27; 91] ++ fmt_int (s32 (y + 1)) ++ [59] ++ fmt_int (s32 (x + 1)) ++ [72].
Definition attr_bytes (fg bg bold : Z) : list Z :=
  let ansi_fg := if nz (Z.land fg 8) then 90 + Z.land fg 7 else 30 + fg in
  let ansi_bg := if nz (Z.land bg 8) then 100 + Z.land bg 7 else 40 + bg in
  [27; 91] ++ (if nz bold then [49; 59] else []) ++ fmt_int ansi_fg ++ [59] ++ fmt_int ansi_bg ++ [109].

(** The text between [ESC \[] and the final letter, as the terminal reads it. *)
Definition numbers (bs : list Z) : option (list Z) :=
  match foldl (λ st b, match st with
    | Some (ps, cur) => if between b 48 57 then Some (ps, cur * 10 + (b - 48)) else if b =? 59 then Some (ps ++ [cur], 0) else None
    | None => None end) (Some ([], 0)) bs with
  | Some (ps, cur) => Some (ps ++ [cur])
  | None => None
  end.

Lemma feeds_numbers bs : ∀ tm ps cur ps' cur',
  tm_in tm = Csi false ps cur →
  foldl (λ st b, match st with
    | Some (ps, cur) => if between b 48 57 then Some (ps, cur * 10 + (b - 48)) else if b =? 59 then Some (ps ++ [cur], 0) else None
    | None => None end) (Some (ps, cur)) bs = Some (ps', cur') →
  feeds tm bs = tm_parse (Csi false ps' cur') tm.
Proof.
  induction bs as [|b bs IH]; intros tm ps cur ps' cur' Hin E; simpl in E.
  { injection E as <- <-. unfold feeds. simpl. rewrite <- Hin. by destruct tm. }
  change (feeds tm (b :: bs)) with (feeds (feed tm b) bs). unfold feed. rewrite Hin. destruct (between b 48 57) eqn:B.
  { exact (IH (tm_parse (Csi false ps (cur * 10 + (b - 48))) tm) _ _ ps' cur' eq_refl E). }
  destruct (b =? 59) eqn:B2; [exact (IH (tm_parse (Csi false (ps ++ [cur]) 0) tm) _ _ ps' cur' eq_refl E)|].
  exfalso. revert E. clear. induction bs; simpl; done.
Qed.

Lemma goto_numbers row : 0 ≤ row < 25 → numbers (fmt_int (s32 (row + 1)) ++ [59] ++ fmt_int (s32 (0 + 1))) = Some [row + 1; 1].
Proof. revert row. apply (seqZ_cases _ 0 25). apply (bool_decide_unpack _). by vm_compute. Qed.

(** The numbers of an attribute, and what the terminal makes of them. *)
Lemma attr_numbers fg bg : 0 ≤ fg < 16 → 0 ≤ bg < 16 →
  ∃ pf pb, numbers (fmt_int (if nz (Z.land fg 8) then 90 + Z.land fg 7 else 30 + fg) ++ [59] ++
    fmt_int (if nz (Z.land bg 8) then 100 + Z.land bg 7 else 40 + bg)) = Some [pf; pb] ∧
  ∀ tm, sgr (sgr tm pf) pb = tm_pen fg bg tm.
Proof.
  intros Hf Hb. exists (if nz (Z.land fg 8) then 90 + Z.land fg 7 else 30 + fg), (if nz (Z.land bg 8) then 100 + Z.land bg 7 else 40 + bg).
  split.
  - revert fg Hf. apply (seqZ_cases _ 0 16). revert bg Hb. apply (seqZ_cases _ 0 16). apply (bool_decide_unpack _). by vm_compute.
  - intros tm. revert fg Hf. apply (seqZ_cases _ 0 16). revert bg Hb. apply (seqZ_cases _ 0 16).
    repeat (apply Forall_cons; split; [repeat (apply Forall_cons; split; [reflexivity|]); apply Forall_nil_2|]). apply Forall_nil_2.
Qed.

Lemma sgr_parse p l : ∀ tm, tm_in tm = Ground → tm_parse Ground (foldl sgr (tm_parse p tm) l) = foldl sgr tm l.
Proof.
  induction l as [|n l IH]; intros tm Hin; simpl; [rewrite <- Hin; by destruct tm|].
  rewrite <- (IH (sgr tm n)) by (unfold sgr; repeat case_match; exact Hin). do 2 f_equal. unfold sgr. by repeat case_match.
Qed.

Lemma csi_assoc (a b : list Z) x : [27; 91] ++ [] ++ a ++ [59] ++ b ++ [x] = [27; 91] ++ (a ++ [59] ++ b) ++ [x].
Proof. by rewrite <- !app_assoc. Qed.

(** A whole sequence. *)
Lemma feeds_csi tm bs ps b :
  tm_in tm = Ground → numbers bs = Some ps → between b 64 126 = true →
  feeds tm ([27; 91] ++ bs ++ [b]) = dispatch false ps b tm.
Proof.
  intros Hin Hn Hb. rewrite !feeds_app. replace (feeds tm [27; 91]) with (tm_parse (Csi false [] 0) tm)
    by (unfold feeds, feed; simpl; by rewrite Hin).
  unfold numbers in Hn.
  destruct (foldl _ (Some ([], 0)) bs) as [[ps' cur']|] eqn:E; [|done]. injection Hn as <-.
  rewrite (feeds_numbers bs _ [] 0 ps' cur'); [|done|exact E]. unfold feeds. simpl. unfold feed. simpl.
  unfold between in *. replace ((48 <=? b) && (b <=? 57)) with false by lia.
  replace (b =? 59) with false by lia. replace (b =? 63) with false by lia.
  unfold dispatch. destruct tm as [cl r c fg bg st]. simpl in Hin. subst st. simpl.
  destruct (b =? 72); [done|]. destruct (b =? 75); [done|]. destruct (b =? 74), (nth 0 _ 0 =? 2), (b =? 109); try done; simpl.
  all: exact (sgr_parse (Csi false ps' cur') (ps' ++ [cur']) (mkTerm cl r c fg bg Ground) eq_refl).
Qed.

Lemma feeds_goto tm row : tm_in tm = Ground → 0 ≤ row < 25 → feeds tm (goto_bytes row 0) = tm_goto row 0 tm.
Proof.
  intros Hin Hrow. unfold goto_bytes. rewrite !(app_assoc _ _ [72]), <- (app_assoc [27; 91]).
  rewrite (feeds_csi tm _ [row + 1; 1] 72 Hin); [|by apply goto_numbers|done].
  unfold dispatch. simpl. by replace (Z.max 1 (row + 1) - 1) with row by lia.
Qed.

Lemma feeds_attr tm fg bg :
  tm_in tm = Ground → 0 ≤ fg < 16 → 0 ≤ bg < 16 → feeds tm (attr_bytes fg bg 0) = tm_pen fg bg tm.
Proof.
  intros Hin Hf Hb. destruct (attr_numbers fg bg Hf Hb) as (pf & pb & En & Hs). unfold attr_bytes. change (if nz 0 then _ else _) with (@nil Z).
  rewrite csi_assoc. rewrite (feeds_csi tm _ [pf; pb] 109 Hin En eq_refl). unfold dispatch. simpl. apply Hs.
Qed.

Lemma feeds_clear tm : tm_in tm = Ground →
  feeds tm clear_eol = tm_cells (λ r c, if decide (r = tm_row tm ∧ tm_col tm ≤ c) then erased tm else tm_cell tm r c) tm.
Proof. intros Hin. exact (feeds_csi tm [] [0] 75 Hin eq_refl eq_refl). Qed.

Lemma feeds_put tm b : tm_in tm = Ground → 32 ≤ b ≤ 126 → feeds tm [b] = put b tm.
Proof.
  intros Hin Hb. unfold feeds, feed. simpl. rewrite Hin. unfold between. replace (b =? 27) with false by lia.
  by replace ((32 <=? b) && (b <=? 126)) with true by lia.
Qed.

(** ** Sending a row *)

Definition glyph (c : Z) : Z := if (c <? 32) && negb (c =? 9) then 32 else c.
Definition colours (x : cell_t) : Z * Z := (Z.land (attr x) 15, Z.land (Z.shiftr (attr x) 4) 15).
(** A tab and DEL are not shown as one cell. *)
Definition plain (x : cell_t) : Prop := ch x < 127 ∧ ch x ≠ 9.

Lemma glyph_range x : plain x → 32 ≤ glyph (ch x) ≤ 126.
Proof. intros [? ?]. unfold glyph. destruct ((ch x <? 32) && negb (ch x =? 9)) eqn:E; lia. Qed.

Lemma nibble x : 0 ≤ Z.land x 15 < 16.
Proof. change 15 with (Z.ones 4). rewrite Z.land_ones by lia. apply Z.mod_pos_bound. lia. Qed.

Lemma comp_cell_run t row col :
  sized t → on_screen row col → comp_cell (row * 80 + col) t = Some (px 80 (t_composite t) row col, t).
Proof.
  intros Sz On. destruct (screen_index row col On) as [_ Hi]. destruct On. unfold comp_cell, bind, gets, at_index.
  replace (0 <=? _) with true by lia. by rewrite (px_lookup 80 25) by (done || apply Sz).
Qed.
Lemma phys_cell_run t row col :
  sized t → on_screen row col → phys_cell (row * 80 + col) t = Some (px 80 (t_phys t) row col, t).
Proof.
  intros Sz On. destruct (screen_index row col On) as [_ Hi]. destruct On. unfold phys_cell, bind, gets, at_index.
  replace (0 <=? _) with true by lia. by rewrite (px_lookup 80 25) by (done || apply Sz).
Qed.

Lemma row_changed_run t row n : ∀ col,
  sized t → 0 ≤ row < 25 → 0 ≤ col → col + Z.of_nat n ≤ 80 →
  ∃ b, row_changed n (row * 80) col t = Some (b, t) ∧
    (b = false → ∀ c, col ≤ c < col + Z.of_nat n → px 80 (t_composite t) row c = px 80 (t_phys t) row c) ∧
    (b = true → ∃ c, col ≤ c < col + Z.of_nat n ∧ px 80 (t_composite t) row c ≠ px 80 (t_phys t) row c).
Proof.
  induction n as [|n IH]; intros col Sz Hr Hc Hn; simpl row_changed.
  { exists false. split_and!; [done| |done]. intros _ c ?. lia. }
  unfold bind. rewrite comp_cell_run, phys_cell_run by (done || split; lia).
  set (x := px 80 (t_composite t) row col). set (y := px 80 (t_phys t) row col).
  destruct (negb (ch x =? ch y) || negb (attr x =? attr y)) eqn:E.
  - exists true. split_and!; [done..|]. intros _. exists col. split; [lia|]. fold x y. intros Exy. rewrite Exy in E. lia.
  - destruct (IH (col + 1) Sz Hr ltac:(lia) ltac:(lia)) as (b & -> & Hf & Ht). exists b. split; [done|]. split.
    + intros -> c Hc'. destruct (decide (c = col)) as [->|]; [|apply Hf; [done|lia]]. fold x y.
      destruct x, y. simpl in E. f_equal; lia.
    + intros ->. destruct (Ht eq_refl) as (c & ? & ?). exists c. split; [lia|done].
Qed.

Lemma last_nonblank_run t row n :
  sized t → 0 ≤ row < 25 → Z.of_nat n ≤ 80 →
  ∃ l, last_nonblank n (row * 80) t = Some (l, t) ∧ -1 ≤ l < Z.of_nat n ∧
    ∀ c, l < c < Z.of_nat n → ch (px 80 (t_composite t) row c) = 32.
Proof.
  intros Sz Hr. induction n as [|n IH]; intros Hn; simpl last_nonblank.
  { exists (-1). split_and!; [done|lia|lia|]. intros. lia. }
  unfold bind. rewrite comp_cell_run by (done || split; lia).
  destruct (Z.eqb_spec (ch (px 80 (t_composite t) row (Z.of_nat n))) 32) as [E|E]; simpl.
  - destruct (IH ltac:(lia)) as (l & -> & Hl & Hc). exists l. split_and!; [done|lia|lia|]. intros c Hc'.
    destruct (decide (c = Z.of_nat n)) as [->|]; [done|]. apply Hc. lia.
  - exists (Z.of_nat n). split_and!; [done|lia|lia|]. intros. lia.
Qed.

(** [s'] is [s] after the bytes [bs] were sent. *)
Definition sent (s : world) (bs : list Z) : world := set_out (u_out s ++ bs) s.

Lemma sent_sent s a b : sent (sent s a) b = sent s (a ++ b).
Proof. unfold sent. destruct s. simpl. by rewrite app_assoc. Qed.

(** The terminal [tm'] is [tm] after [n] cells of the row were written. *)
Definition wrote_row (tm : term) (f : Z → cell_t) (row col n : Z) (tm' : term) : Prop :=
  tm_in tm' = Ground ∧ tm_row tm' = row ∧ tm_col tm' = col + n ∧
  ∀ r c, tm_cell tm' r c = if decide (r = row ∧ col ≤ c < col + n) then (glyph (ch (f c)), fst (colours (f c)), snd (colours (f c)))
    else tm_cell tm r c.

Lemma put_wrote tm f row col b :
  tm_in tm = Ground → tm_row tm = row → tm_col tm = col → col < 80 →
  b = glyph (ch (f col)) → (tm_fg tm, tm_bg tm) = colours (f col) → wrote_row tm f row col 1 (put b tm).
Proof.
  intros Hin <- <- Hc -> E. unfold put. replace (tm_col tm <? 80) with true by lia. split_and!; [done..|].
  intros r c. cbn [tm_cell tm_goto tm_cells]. repeat case_decide; try done; try lia. destruct H as [-> ->]. by rewrite <- E.
Qed.

Lemma wrote_row_app tm tm1 tm2 tm3 f row col n :
  tm_cell tm1 = tm_cell tm → 0 ≤ n → wrote_row tm1 f row col 1 tm2 → wrote_row tm2 f row (col + 1) n tm3 →
  wrote_row tm f row col (n + 1) tm3.
Proof.
  intros Ec Hn (_ & _ & _ & H2) (G3 & R3 & C3 & H3). split_and!; [done|done|lia|]. intros r c.
  rewrite H3, H2, Ec. repeat case_decide; done || lia.
Qed.

(** The attribute is sent unless the terminal has it. *)
Lemma send_attr_run s tm x cur :
  tm_in tm = Ground → (cur = (-1, -1, -1) ∨ cur = (tm_fg tm, tm_bg tm, 0)) →
  ∃ bs, (let '(cur_fg, cur_bg, cur_bold) := cur in
      if negb (fst (colours x) =? cur_fg) || negb (snd (colours x) =? cur_bg) || negb (0 =? cur_bold)
      then ansi_attr (fst (colours x)) (snd (colours x)) 0 else skip) s = Some (tt, sent s bs) ∧
    feeds tm bs = tm_pen (fst (colours x)) (snd (colours x)) tm.
Proof.
  intros Hin Hcur. pose proof (nibble (attr x)) as Hf. pose proof (nibble (Z.shiftr (attr x) 4)) as Hb.
  destruct cur as [[cf cb] co]. destruct (negb (fst (colours x) =? cf) || negb (snd (colours x) =? cb) || negb (0 =? co)) eqn:E.
  - exists (attr_bytes (fst (colours x)) (snd (colours x)) 0). split; [done|]. by apply feeds_attr.
  - exists []. split; [unfold sent; rewrite app_nil_r; by destruct s|]. unfold feeds. simpl in *.
    destruct Hcur as [[= -> -> ->]|[= -> -> ->]]; [lia|].
    replace (Z.land (attr x) 15) with (tm_fg tm) by lia. replace (Z.land (Z.shiftr (attr x) 4) 15) with (tm_bg tm) by lia.
    by destruct tm.
Qed.

Lemma set_tui_self s : set_tui (u_tui s) s = s.
Proof. by destruct s. Qed.

Lemma send_cells_run row n : ∀ s col cur tm,
  sized (u_tui s) → 0 ≤ row < 25 → 0 ≤ col → col + Z.of_nat n ≤ 80 →
  (∀ c, 0 ≤ c < 80 → plain (px 80 (t_composite (u_tui s)) row c)) →
  tm_in tm = Ground → tm_row tm = row → tm_col tm = col → (cur = (-1, -1, -1) ∨ cur = (tm_fg tm, tm_bg tm, 0)) →
  ∃ bs, send_cells n (row * 80) col cur s = Some (tt, sent s bs) ∧
    wrote_row tm (px 80 (t_composite (u_tui s)) row) row col (Z.of_nat n) (feeds tm bs).
Proof.
  induction n as [|n IH]; intros s col cur tm Sz Hr Hc Hn Hp Hin Hrow Hcol Hcur; simpl send_cells.
  { exists []. split; [unfold sent; rewrite app_nil_r; by destruct s|]. split_and!; [done|done|simpl; lia|].
    intros r c. by rewrite decide_False by lia. }
  unfold bind at 1, screen, zoom. rewrite comp_cell_run by (done || split; lia). rewrite set_tui_self.
  set (f := px 80 (t_composite (u_tui s)) row). fold (glyph (ch (f col))).
  destruct (send_attr_run s tm (f col) cur Hin Hcur) as (pre & Epre & Ftm).
  set (tm1 := tm_pen (fst (colours (f col))) (snd (colours (f col))) tm) in *.
  set (tm2 := put (glyph (ch (f col))) tm1).
  assert (W : wrote_row tm1 f row col 1 tm2) by (apply put_wrote; try done; lia).
  assert (F2 : feeds tm1 [glyph (ch (f col))] = tm2) by (apply feeds_put; [done|apply glyph_range, Hp; lia]).
  destruct (IH (sent s (pre ++ [glyph (ch (f col))])) (col + 1) (fst (colours (f col)), snd (colours (f col)), 0) tm2)
    as (bs & E & W3); [done|done|lia|lia|done|apply W..| |].
  { right. unfold tm2, put. by destruct (tm_col tm1 <? 80). }
  exists (pre ++ [glyph (ch (f col))] ++ bs). split.
  - destruct cur as [[cf cb] co]. unfold bind at 1. unfold colours in Epre. simpl in Epre. rewrite Epre.
    unfold bind, out, modify. fold (sent (sent s pre) [glyph (ch (f col))]). rewrite app_assoc, <- (sent_sent s (pre ++ _) bs), (sent_sent s pre). exact E.
  - rewrite !feeds_app, Ftm, F2. replace (Z.of_nat (S n)) with (Z.of_nat n + 1) by lia.
    by apply (wrote_row_app tm tm1 tm2); [|lia|..].
Qed.

(** ** Refreshing *)

(** Some cell of the row from [c] on is not blank. *)
Definition lit (f : Z → Z → cell_t) (r c : Z) : Prop := ∃ c', c ≤ c' < 80 ∧ glyph (ch (f r c')) ≠ 32.

(** The terminal shows the characters of [f], and their colours as far as the last
    character of each row that is not blank. *)
Definition shows (tm : term) (f : Z → Z → cell_t) : Prop :=
  tm_in tm = Ground ∧ ∀ r c, on_screen r c →
    fst (fst (tm_cell tm r c)) = glyph (ch (f r c)) ∧
    (lit f r c → tm_cell tm r c = (glyph (ch (f r c)), fst (colours (f r c)), snd (colours (f r c)))).

Lemma shows_ext tm f g : (∀ r c, on_screen r c → f r c = g r c) → shows tm f → shows tm g.
Proof.
  intros He [G H]. split; [done|]. intros r c On. rewrite <- (He r c On). destruct (H r c On) as [H1 H2]. split; [done|].
  intros (c' & Hc' & Hg). apply H2. exists c'. split; [done|]. rewrite He; [done|]. destruct On. split; lia.
Qed.

(** Replace one row. *)
Definition with_row (f g : Z → Z → cell_t) (row r c : Z) : cell_t := if decide (r = row) then f r c else g r c.

Lemma shows_row tm tm' f g row :
  shows tm g → tm_in tm' = Ground →
  (∀ r c, r ≠ row → tm_cell tm' r c = tm_cell tm r c) →
  (∀ c, 0 ≤ c < 80 → fst (fst (tm_cell tm' row c)) = glyph (ch (f row c)) ∧
    (lit f row c → tm_cell tm' row c = (glyph (ch (f row c)), fst (colours (f row c)), snd (colours (f row c))))) →
  shows tm' (with_row f g row).
Proof.
  intros [_ H] G Hne Heq. split; [done|]. intros r c On. unfold lit, with_row. case_decide as Er.
  - subst r. apply Heq. apply On.
  - rewrite Hne by done. by apply H.
Qed.

Lemma copy_row_run t row :
  sized t → 0 ≤ row < 25 →
  ∃ p, copy_row (row * 80) 80 t = Some (tt, set_phys p t) ∧ length p = Z.to_nat 2000 ∧
    ∀ r c, on_screen r c → px 80 p r c = with_row (px 80 (t_composite t)) (px 80 (t_phys t)) row r c.
Proof.
  intros Sz Hr. unfold with_row.
  set (I := λ (j : Z) t1, ∃ p, t1 = set_phys p t ∧ length p = Z.to_nat 2000 ∧ ∀ r c, on_screen r c →
    px 80 p r c = if decide (r = row ∧ c < j) then px 80 (t_composite t) r c else px 80 (t_phys t) r c).
  assert (wp (copy_row (row * 80) 80) t (λ _, I 80)) as ([] & t' & E & p & -> & Hl & Hp).
  { apply (wp_for_up I _ 80 0).
    - exists (t_phys t). split_and!; [by destruct t|apply Sz|]. intros r c [? ?]. by rewrite decide_False by lia.
    - intros c t1 Hc (p & -> & Hl & Hp). wp_step. eapply wp_run.
      { apply (comp_cell_run (set_phys p t)); [by destruct Sz; split|split; lia]. }
      destruct (screen_index row c) as [_ Hi]; [split; lia|].
      eapply wp_run; [unfold store_phys; simpl; rewrite updated_in by (rewrite Hl; lia); done|].
      exists (<[Z.to_nat (row * 80 + c) := px 80 (t_composite t) row c]> p). rewrite length_insert. split_and!; [done..|].
      intros r' c' On. rewrite px_screen by (done || split; lia).
      repeat case_decide; try lia; try (by destruct H as [-> ->]); rewrite Hp by done; repeat case_decide; done || lia. }
  exists p. split_and!; [exact E|done|]. intros r c On. rewrite Hp by done. destruct On. repeat case_decide; done || lia.
Qed.

(** The row is shown, and the copy of the terminal has it. *)
Definition refreshed (s : world) (row : Z) (tm : term) (s' : world) : Prop :=
  ∃ bs p, s' = set_tui (set_phys p (u_tui s)) (sent s bs) ∧ length p = Z.to_nat 2000 ∧
    (∀ r c, on_screen r c → px 80 p r c = with_row (px 80 (t_composite (u_tui s))) (px 80 (t_phys (u_tui s))) row r c) ∧
    shows (feeds tm bs) (with_row (px 80 (t_composite (u_tui s))) (px 80 (t_phys (u_tui s))) row) ∧
    ((∀ c, 0 ≤ c < 80 → px 80 (t_composite (u_tui s)) row c = px 80 (t_phys (u_tui s)) row c) → bs = []).

Lemma copy_refreshed s row tm bs :
  sized (u_tui s) → 0 ≤ row < 25 →
  shows (feeds tm bs) (with_row (px 80 (t_composite (u_tui s))) (px 80 (t_phys (u_tui s))) row) →
  (∃ c, 0 ≤ c < 80 ∧ px 80 (t_composite (u_tui s)) row c ≠ px 80 (t_phys (u_tui s)) row c) →
  wp (screen (copy_row (row * 80) 80)) (sent s bs) (λ _, refreshed s row tm).
Proof.
  intros Sz Hr Hs (c & Hc & Hne). destruct (copy_row_run (u_tui s) row Sz Hr) as (p & E & Hl & Hp).
  unfold screen. wp_step. eapply wp_run; [exact E|]. exists bs, p. split_and!; [done..|].
  intros Heq. destruct Hne. by apply Heq.
Qed.

Lemma wp_out s bs (Q : unit → world → Prop) : Q tt (sent s bs) → wp (out bs) s Q.
Proof. intros. by eapply wp_run. Qed.

Lemma blank_row_shown tm f g row :
  shows tm g → 0 ≤ row < 25 → (∀ c, 0 ≤ c < 80 → ch (f row c) = 32) →
  shows (feeds tm (goto_bytes row 0 ++ clear_eol)) (with_row f g row).
Proof.
  intros Hs Hr Hb. pose proof Hs as [G _]. rewrite feeds_app, feeds_goto, feeds_clear by done.
  apply (shows_row tm); [done|done|..].
  - intros r c Hne. simpl. by rewrite decide_False by lia.
  - intros c Hc. simpl. rewrite decide_True by lia. rewrite Hb by done. split; [done|].
    intros (c' & Hc' & Hg). rewrite Hb in Hg by lia. done.
Qed.

Lemma text_row_shown tm f g row last bs :
  shows tm g → 0 ≤ row < 25 → 0 ≤ last < 80 → (∀ c, last < c < 80 → ch (f row c) = 32) →
  wrote_row (tm_goto row 0 tm) (f row) row 0 (last + 1) (feeds (tm_goto row 0 tm) bs) →
  shows (feeds tm ((goto_bytes row 0 ++ bs) ++ (if last <? 80 - 1 then clear_eol else []))) (with_row f g row).
Proof.
  intros Hs Hr Hl Hb (G & R & C & W). pose proof Hs as [G0 _]. rewrite !feeds_app, feeds_goto by done.
  set (tm2 := feeds (tm_goto row 0 tm) bs) in *.
  assert (LIT : ∀ c, lit f row c → c ≤ last).
  { intros c (c' & Hc' & Hg). destruct (decide (c' ≤ last)); [lia|]. rewrite Hb in Hg by lia. done. }
  destruct (Z.ltb_spec last (80 - 1)).
  - rewrite feeds_clear by done. apply (shows_row tm); [done|done|..].
    + intros r c Hne. simpl. rewrite R, C, decide_False, W, decide_False by lia. done.
    + intros c Hc. cbn [tm_cell tm_cells]. rewrite R, C. case_decide.
      * split; [simpl; by rewrite Hb by lia|]. intros L. apply LIT in L. lia.
      * rewrite W, decide_True by lia. done.
  - apply (shows_row tm); [done|done|..].
    + intros r c Hne. change (feeds tm2 []) with tm2. by rewrite W, decide_False by lia.
    + intros c Hc. change (feeds tm2 []) with tm2. by rewrite W, decide_True by lia.
Qed.

Lemma refresh_row_run s row tm :
  sized (u_tui s) → 0 ≤ row < 25 →
  (∀ c, 0 ≤ c < 80 → plain (px 80 (t_composite (u_tui s)) row c)) →
  shows tm (px 80 (t_phys (u_tui s))) → wp (refresh_row row) s (λ _, refreshed s row tm).
Proof.
  intros Sz Hr Hp Hs. pose proof Sz as [Ew Eh _ _ _]. pose proof Hs as [G _]. unfold refresh_row. do 2 wp_step. rewrite Ew.
  rewrite (s32_small (row * 80)) by lia. change (Z.to_nat 80) with 80%nat. wp_step. unfold screen at 1. wp_step.
  destruct (row_changed_run (u_tui s) row 80 0 Sz Hr) as (b & E & Hf & Ht); [lia|lia|]. eapply wp_run; [exact E|].
  rewrite set_tui_self. destruct b; simpl negb; cbv iota.
  2:{ wp_step. exists [], (t_phys (u_tui s)). split_and!; [unfold sent; rewrite app_nil_r; by destruct s as [[] ]|apply Sz| |..|done].
      - intros r c On. unfold with_row. case_decide; [subst; symmetry; apply Hf; [done|apply On]|done].
      - eapply shows_ext; [|exact Hs]. intros r c On. unfold with_row. case_decide; [subst; symmetry; apply Hf; [done|apply On]|done]. }
  specialize (Ht eq_refl). clear Hf E. wp_step. change (ansi_goto row 0) with (out (goto_bytes row 0)). apply wp_out.
  wp_step. unfold screen at 1. wp_step. destruct (last_nonblank_run (u_tui s) row 80 Sz Hr) as (l & E & Hl & Hb); [lia|].
  eapply wp_run; [exact E|]. change (set_tui (u_tui s) (sent s (goto_bytes row 0))) with (set_tui (u_tui (sent s (goto_bytes row 0))) (sent s (goto_bytes row 0))).
  rewrite set_tui_self. destruct (Z.ltb_spec l 0).
  - wp_step. apply wp_out. rewrite sent_sent. apply copy_refreshed; [done|done| |done]. apply blank_row_shown; [done..|].
    intros c Hc. apply Hb. lia.
  - destruct (send_cells_run row (Z.to_nat (l + 1)) (sent s (goto_bytes row 0)) 0 (-1, -1, -1) (tm_goto row 0 tm)) as (bs & Es & W);
      [done|done|lia|lia|done|done|done|done|by left|].
    wp_step. eapply wp_run; [exact Es|]. rewrite sent_sent. wp_step.
    rewrite Z2Nat.id in W by lia.
    eapply (wp_mono _ _ (λ _ s', s' = sent s ((goto_bytes row 0 ++ bs) ++ (if l <? 80 - 1 then clear_eol else [])))).
    { destruct (l <? 80 - 1); [apply wp_out; by rewrite sent_sent|wp_step; by rewrite app_nil_r]. }
    intros [] ? ->. apply copy_refreshed; [done|done| |done]. apply text_row_shown; try done; lia.
Qed.

(** The screen after [composite]: everything but the terminal's copy is as it was. *)
Lemma rows_refreshed s tm :
  sized (u_tui s) → (∀ r c, on_screen r c → plain (px 80 (t_composite (u_tui s)) r c)) →
  shows tm (px 80 (t_phys (u_tui s))) →
  wp (for_up 25 0 refresh_row) s (λ _ s', ∃ bs p, s' = set_tui (set_phys p (u_tui s)) (sent s bs) ∧ length p = Z.to_nat 2000 ∧
    (∀ r c, on_screen r c → px 80 p r c = px 80 (t_composite (u_tui s)) r c) ∧
    shows (feeds tm bs) (px 80 (t_composite (u_tui s))) ∧
    ((∀ r c, on_screen r c → px 80 (t_composite (u_tui s)) r c = px 80 (t_phys (u_tui s)) r c) → bs = [])).
Proof.
  intros Sz Hp Hs. set (f := px 80 (t_composite (u_tui s))) in *. set (g := px 80 (t_phys (u_tui s))) in *.
  set (h := λ (j r c : Z), if decide (r < j) then f r c else g r c).
  set (I := λ (j : Z) s', ∃ bs p, s' = set_tui (set_phys p (u_tui s)) (sent s bs) ∧ length p = Z.to_nat 2000 ∧
    (∀ r c, on_screen r c → px 80 p r c = h j r c) ∧ shows (feeds tm bs) (h j) ∧
    ((∀ r c, on_screen r c → f r c = g r c) → bs = [])).
  eapply wp_mono; [apply (wp_for_up I)|].
  - exists [], (t_phys (u_tui s)). split_and!; [unfold sent; rewrite app_nil_r; by destruct s as [[] ]|apply Sz| | |done].
    + intros r c [? ?]. unfold h. by rewrite decide_False by lia.
    + eapply shows_ext; [|exact Hs]. intros r c [? ?]. unfold h. by rewrite decide_False by lia.
  - intros row ? Hrow (bs & p & -> & Hl & Hpx & Hsh & Hid). simpl in Hrow.
    set (s1 := set_tui (set_phys p (u_tui s)) (sent s bs)).
    eapply wp_mono; [apply (refresh_row_run s1 row (feeds tm bs))|].
    + destruct Sz. by split.
    + lia.
    + intros c Hc. apply Hp. split; lia.
    + eapply shows_ext; [|exact Hsh]. intros r c On. by rewrite Hpx.
    + assert (Eh : ∀ r c, on_screen r c → with_row f (px 80 p) row r c = h (row + 1) r c).
      { intros r c On. unfold with_row. destruct (decide (r = row)) as [->|].
        - unfold h. by rewrite decide_True by lia.
        - rewrite Hpx by done. unfold h. repeat case_decide; done || lia. }
      intros [] s2 (bs' & p' & -> & Hl' & Hpx' & Hsh' & Hid'). exists (bs ++ bs'), p'. split_and!; [|done|..].
      * subst s1. destruct s as [[] ]. unfold sent, set_tui, set_out, set_phys. simpl. by rewrite app_assoc.
      * intros r c On. rewrite Hpx' by done. by apply Eh.
      * rewrite feeds_app. eapply shows_ext; [|exact Hsh']. exact Eh.
      * intros Heq. rewrite (Hid Heq), Hid'; [done|]. intros c Hc. change (f row c = px 80 p row c).
        rewrite Hpx by (split; lia). unfold h. rewrite decide_False by lia. apply Heq. split; lia.
  - intros [] s' (bs & p & -> & Hl & Hpx & Hsh & Hid).
    assert (Eh : ∀ r c, on_screen r c → h (0 + Z.of_nat 25) r c = f r c) by (intros r c [? ?]; unfold h; by rewrite decide_True by lia).
    exists bs, p. split_and!; [done|done| | |done].
    + intros r c On. by rewrite Hpx, Eh.
    + eapply shows_ext; [|exact Hsh]. exact Eh.
Qed.

Lemma tui_refresh_run k s ws tm :
  windows_of s (t_windows (u_tui s)) ws → Forall (winv k) ws → sized (u_tui s) →
  (∀ r c, on_screen r c → plain (top_cell ws r c)) → shows tm (px 80 (t_phys (u_tui s))) →
  wp tui_refresh s (λ _ s', ∃ bs b p, s' = set_tui (set_phys p (set_composite b (u_tui s))) (sent s bs) ∧
    length b = Z.to_nat 2000 ∧ length p = Z.to_nat 2000 ∧
    (∀ r c, on_screen r c → px 80 p r c = top_cell ws r c) ∧ shows (feeds tm bs) (top_cell ws) ∧
    ((∀ r c, on_screen r c → top_cell ws r c = px 80 (t_phys (u_tui s)) r c) → bs = [])).
Proof.
  intros Hw Hi Sz Hpl Hs. unfold tui_refresh. wp_step. eapply wp_mono; [by apply (composite_run k s ws)|].
  intros [] ? (t & -> & b & -> & Hl & Hb). do 2 wp_step. simpl u_tui. simpl t_h. rewrite (sz_h _ Sz).
  change (Z.to_nat 25) with 25%nat. set (s1 := set_tui (set_composite b (u_tui s)) s).
  eapply wp_mono; [apply (rows_refreshed s1 tm)|].
  - destruct Sz. by split.
  - intros r c On. change (plain (px 80 b r c)). rewrite Hb by done. by apply Hpl.
  - exact Hs.
  - intros [] ? (bs & p & -> & Hlp & Hp & Hsh & Hid). exists bs, b, p. split_and!; [done|done|done| | |].
    + intros r c On. rewrite Hp by done. by apply Hb.
    + eapply shows_ext; [|exact Hsh]. exact Hb.
    + intros Heq. apply Hid. intros r c On. change (px 80 b r c = px 80 (t_phys (u_tui s)) r c). rewrite Hb by done. by apply Heq.
Qed.
End terminal.
