(* ===== verification/TuiText.v ===== *)
(** * TuiText: the text of a window, the keyboard and the prompt of [tui.c]

    [layout] breaks a text into lines of a width; a scrolling window shows the last
    of them.  [typed] is the line a user edits.  The input of the theorems is the
    bytes of the keyboard. *)

From Stdlib Require Import ZArith Lia.
From stdpp Require Import gmap list prelude.
From S2P Require Import Prelude Libc LibcAlloc Stdio Tui TuiProof TuiScreen TuiSpec.

Open Scope Z_scope.

(** ** Lines *)

(** The lines already ended and the line being written. *)
Definition text : Type := list (list Z) * list Z.

Definition add_char (w : Z) (t : text) (c : Z) : text :=
  let '(done, cur) := t in
  if c =? 10 then (done ++ [cur], [])
  else if w <=? Z.of_nat (length cur) then (done ++ [cur], [c])
  else (done, cur ++ [c]).

Definition layout (w : Z) (str : list Z) : text := foldl (add_char w) ([], []) str.

(** The character at a row and a column of a window of [h] rows: the last line is
    never below the bottom row. *)
Definition first_line (h : Z) (t : text) : nat := (length (fst t) - Z.to_nat (h - 1))%nat.
Definition line_char (h : Z) (t : text) (r c : Z) : Z :=
  default 32 ((fst t ++ [snd t]) !! (first_line h t + Z.to_nat r)%nat ≫= λ l, l !! Z.to_nat c).

Record shows_text (s : win) (t : text) : Prop := mkShowsText {
  st_fit : fit s;
  st_ok : wscroll_ok s ≠ 0;
  st_cx : wcx s = Z.of_nat (length (snd t));
  st_cur : Z.of_nat (length (snd t)) ≤ ww s;
  st_cy : wcy s = Z.min (Z.of_nat (length (fst t))) (wh s - 1);
  st_cells : ∀ r c, 0 ≤ r < wh s → 0 ≤ c < ww s →
    px (ww s) (wbuf s) r c = mkCell (line_char (wh s) t r c) (make_attr (wfg s) (wbg s)) }.

(** What a call leaves alone while it writes. *)
Definition same_pen (s s' : win) : Prop :=
  ww s' = ww s ∧ wh s' = wh s ∧ wfg s' = wfg s ∧ wbg s' = wbg s ∧ wscroll_ok s' = wscroll_ok s.

Lemma same_pen_like s s' : like s s' → same_pen s s'.
Proof. by intros (b & d & -> & _ & _). Qed.
Lemma same_pen_trans s s1 s2 : same_pen s s1 → same_pen s1 s2 → same_pen s s2.
Proof. unfold same_pen. intros (? & ? & ? & ? & ?) (? & ? & ? & ? & ?). split_and!; congruence. Qed.

(** Ending a line above the bottom row does not move the text; below it, it moves
    up by one. *)
Lemma line_char_break_above h D l r c :
  Z.of_nat (length D) < h - 1 → 0 ≤ r < h → line_char h (D ++ [l], []) r c = line_char h (D, l) r c.
Proof.
  intros HD Hr. unfold line_char, first_line. simpl. rewrite length_app. simpl.
  replace (length D + 1 - Z.to_nat (h - 1))%nat with 0%nat by lia. replace (length D - Z.to_nat (h - 1))%nat with 0%nat by lia.
  simpl. destruct (decide (Z.to_nat r < length (D ++ [l]))%nat) as [Hlt|Hge].
  - by rewrite (lookup_app_l (D ++ [l])).
  - rewrite (lookup_ge_None_2 (D ++ [l])) by lia. rewrite (lookup_app_r (D ++ [l])) by lia.
    destruct (Z.to_nat r - length (D ++ [l]))%nat as [|n]; simpl; [by destruct (Z.to_nat c)|done].
Qed.

Lemma line_char_break_below h D l r c :
  1 ≤ h → h - 1 ≤ Z.of_nat (length D) → 0 ≤ r < h →
  line_char h (D ++ [l], []) r c = if decide (r + 1 < h) then line_char h (D, l) (r + 1) c else 32.
Proof.
  intros Hh HD Hr. unfold line_char, first_line. simpl. rewrite length_app. simpl.
  replace (length D + 1 - Z.to_nat (h - 1) + Z.to_nat r)%nat with (length D - Z.to_nat (h - 1) + Z.to_nat (r + 1))%nat by lia.
  case_decide as E.
  - rewrite (lookup_app_l (D ++ [l])) by (rewrite length_app; simpl; lia). done.
  - rewrite (lookup_app_r (D ++ [l])) by (rewrite length_app; simpl; lia). rewrite length_app. simpl.
    replace (length D - Z.to_nat (h - 1) + Z.to_nat (r + 1) - (length D + 1))%nat with 0%nat by lia. simpl. by destruct (Z.to_nat c).
Qed.

Lemma line_char_empty h r c : line_char h ([], []) r c = 32.
Proof. unfold line_char. destruct (first_line h ([], []) + Z.to_nat r)%nat; simpl; [by destruct (Z.to_nat c)|done]. Qed.

(** A character goes to the end of the last line. *)
Lemma line_char_add h D l b r c :
  1 ≤ h → 0 ≤ r < h → 0 ≤ c →
  line_char h (D, l ++ [b]) r c =
  if decide (r = Z.min (Z.of_nat (length D)) (h - 1) ∧ c = Z.of_nat (length l)) then b else line_char h (D, l) r c.
Proof.
  intros Hh Hr Hc. unfold line_char, first_line. simpl. set (i := (length D - Z.to_nat (h - 1) + Z.to_nat r)%nat).
  destruct (decide (i = length D)) as [Ei|Ei].
  - rewrite Ei, !list_lookup_middle by done. simpl.
    assert (Er : r = Z.min (Z.of_nat (length D)) (h - 1)) by lia. destruct (decide (c = Z.of_nat (length l))) as [Ec|Ec].
    + rewrite decide_True by done. rewrite Ec, Nat2Z.id. by rewrite list_lookup_middle.
    + rewrite decide_False by tauto. destruct (decide (Z.to_nat c < length l)%nat) as [Hlt|Hge].
      * by rewrite lookup_app_l.
      * rewrite !(lookup_ge_None_2); [done|lia|rewrite length_app; simpl; lia].
  - rewrite decide_False by lia. destruct (decide (i < length D)%nat) as [Hlt|Hge].
    + by rewrite !lookup_app_l.
    + rewrite !lookup_ge_None_2; [done|rewrite length_app; simpl; lia..].
Qed.

(** ** Writing *)

Lemma scroll_up_text s D l :
  shows_text s (D, l) → wh s - 1 ≤ Z.of_nat (length D) →
  wp scroll_up (set_cursor 0 (wh s) s) (λ _ s', shows_text s' (D ++ [l], []) ∧ same_pen s s').
Proof.
  intros [F Hok Hx Hcur Hy Hc] HD. pose proof (fit_h s F). unfold scroll_up. wp_step.
  eapply wp_mono; [apply win_scroll_run; [by destruct F; split|lia]|].
  intros [] ? (d & off & Hd & b & -> & Hl & Hb). wp_step. split; [|done]. simpl in *. split; simpl; try done; try lia.
  - destruct F. split; simpl; try done; lia.
  - rewrite length_app. simpl. lia.
  - intros r c Hr Hcc. rewrite Hb by done. unfold shifted. simpl. rewrite Z.min_l by lia.
    rewrite line_char_break_below by lia. case_decide; [|done]. by rewrite Hc by lia.
Qed.

Lemma next_line_run s t : shows_text s t → next_line s = Some (tt, set_cursor 0 (wcy s + 1) s).
Proof.
  intros [F _ _ _ Hy _]. pose proof F as [? ? ? ? ?]. assert (wh s ≤ 2 ^ 30) by nia.
  unfold next_line, modify. by rewrite s32_small by lia.
Qed.

Lemma next_line_text s D l :
  shows_text s (D, l) → wcy s + 1 < wh s → shows_text (set_cursor 0 (wcy s + 1) s) (D ++ [l], []).
Proof.
  intros [F Hok Hx Hcur Hy Hc] Hb. simpl in *. split; simpl; try done; try lia.
  - by destruct F; split.
  - rewrite length_app. simpl. lia.
  - intros r c Hr Hcc. rewrite Hc by done. by rewrite line_char_break_above by lia.
Qed.

(** The end of a line: [cx = 0; cy++], and the scroll at the bottom. *)
Lemma end_line_text s D l :
  shows_text s (D, l) → wp end_line s (λ _ s', shows_text s' (D ++ [l], []) ∧ same_pen s s').
Proof.
  intros T. pose proof T as [F Hok _ _ Hy _]. unfold end_line. wp_step. eapply wp_run; [by eapply next_line_run|].
  do 2 wp_step. unfold id. simpl. simpl in Hy. destruct (Z.leb_spec (wh s) (wcy s + 1)) as [Hb|Hb]; simpl.
  - replace (nz (wscroll_ok s)) with true by (symmetry; by apply nz_spec). replace (wcy s + 1) with (wh s) by lia.
    apply scroll_up_text; [done|lia].
  - wp_step. split; [|done]. by apply next_line_text.
Qed.

Lemma addch_text s D l b :
  shows_text s (D, l) → Z.of_nat (length l) < ww s →
  wp (win_addch b) s (λ _ s', shows_text s' (D, l ++ [b]) ∧ same_pen s s').
Proof.
  intros [F Hok Hx Hcur Hy Hc] Hl. pose proof (fit_h s F). simpl in *. unfold win_addch. do 2 wp_step. unfold id.
  eapply wp_mono; [apply put_run; [done|lia|lia]|]. intros [] s' [L Hf]. pose proof (fit_like (set_cursor (wcx s + 1) (wcy s) s) s') as F'.
  destruct L as (b' & d & -> & Hb & Hd). split; [|done]. simpl in *. split; simpl; try done.
  - apply F'; [by destruct F; split|]. by exists b', d.
  - rewrite length_app. simpl. lia.
  - rewrite length_app. simpl. lia.
  - intros r c Hr Hcc. rewrite Hf by done. rewrite line_char_add by lia. rewrite Hx, Hy. case_decide; [done|]. by apply Hc.
Qed.

Lemma addstr_text str : ∀ s t, shows_text s t →
  wp (win_addstr str) s (λ _ s', shows_text s' (foldl (add_char (ww s)) t str) ∧ same_pen s s').
Proof.
  induction str as [|b str IH]; intros s [D l] T; simpl win_addstr; simpl foldl.
  { wp_step. by split. }
  assert (REST : ∀ s1 t1, shows_text s1 t1 ∧ same_pen s s1 →
    wp (win_addstr str) s1 (λ _ s', shows_text s' (foldl (add_char (ww s)) t1 str) ∧ same_pen s s')).
  { intros s1 t1 [T1 P1]. eapply wp_mono; [by apply (IH s1)|]. intros [] s' [T' P']. pose proof P1 as (<- & _).
    split; [done|]. by apply (same_pen_trans s s1). }
  destruct (Z.eqb_spec b 10) as [->|Hb].
  - wp_step. eapply wp_mono; [by apply end_line_text|]. intros [] s1. apply REST.
  - replace (b =? 10) with false by lia. assert (ADD : ∀ s1 t1, shows_text s1 t1 ∧ same_pen s s1 → Z.of_nat (length (snd t1)) < ww s →
      wp (win_addch b ;! win_addstr str) s1
        (λ _ s', shows_text s' (foldl (add_char (ww s)) (fst t1, snd t1 ++ [b]) str) ∧ same_pen s s')).
    { intros s1 [D1 l1] [T1 P1] Hl. wp_step. eapply wp_mono; [apply (addch_text s1); [done|pose proof P1 as (-> & _); done]|].
      intros [] s2 [T2 P2]. apply REST. split; [done|]. by apply (same_pen_trans s s1). }
    pose proof T as [F Hok Hx Hcur Hy _]. pose proof (fit_w s F). pose proof (fit_h s F). simpl in *. do 3 wp_step. unfold id at 1 2.
    rewrite Hx. destruct (Z.leb_spec (ww s) (Z.of_nat (length l))) as [Hw|Hw].
    + eapply wp_run; [by eapply next_line_run|]. do 2 wp_step. unfold id. simpl.
      destruct (Z.leb_spec (wh s) (wcy s + 1)).
      * replace (nz (wscroll_ok s)) with true by (symmetry; by apply nz_spec). replace (wcy s + 1) with (wh s) by lia.
        wp_step. eapply wp_mono; [by apply (scroll_up_text s D l); [|lia]|]. intros [] s1 T1.
        apply (ADD s1 (D ++ [l], [])); [done|simpl; lia].
      * apply (ADD _ (D ++ [l], [])); [|simpl; lia]. split; [|done]. by apply next_line_text.
    + wp_step. do 2 wp_step. unfold id. replace (wh s <=? wcy s) with false by lia. apply (ADD s (D, l)); [by split|done].
Qed.

Lemma clear_text s : fit s → wscroll_ok s ≠ 0 → wp win_clear s (λ _ s', shows_text s' ([], []) ∧ same_pen s s').
Proof.
  intros F Hok. pose proof F as [? ? ? ? ?]. destruct (fit_area s F) as [Ea Ha]. unfold win_clear, blank. do 5 wp_step. unfold id. rewrite Ea.
  set (b := mkCell 32 (make_attr (wfg s) (wbg s))).
  set (I := λ (j : Z) s', like s s' ∧ ∀ i, 0 ≤ i < j → wbuf s' !! Z.to_nat i = Some b).
  eapply wp_mono; [apply (wp_for_up I)|].
  - split; [apply like_refl|]. intros. lia.
  - intros i s1 Hi [L Hb]. pose proof (fit_like s s1 F L) as F1. pose proof (like_ww s s1 L) as Ew. pose proof (like_wh s s1 L) as Eh.
    apply wp_store_cell; [done|rewrite Ew, Eh; lia|]. split.
    + eapply like_trans; [done|]. exists (<[Z.to_nat i := b]> (wbuf s1)), (wdirty s1). rewrite length_insert. by destruct s1.
    + intros i' Hi'. simpl. destruct (decide (i' = i)) as [->|].
      * apply list_lookup_insert_eq. rewrite (TuiProof.fit_buf _ F1), Ew, Eh. lia.
      * rewrite list_lookup_insert_ne by lia. apply Hb. lia.
  - intros [] s1 [L Hb]. pose proof (fit_like s s1 F L) as F1. wp_step.
    destruct (all_dirty_run s1 s1 _ F1 (has_cells_self s1)) as ([] & s2 & E2 & d & Hd & b2 & -> & Hl & Hp).
    eapply wp_run; [exact E2|]. wp_step. destruct L as (b1 & d1 & -> & Hb1 & Hd1). simpl in *. split; [|done]. split; simpl; try done; try lia.
    + split; simpl; try done; lia.
    + intros r c Hr Hc. rewrite Hp by done. assert (0 ≤ r * ww s + c < ww s * wh s) by nia.
      unfold px. rewrite nth_lookup, Hb by lia. simpl. by rewrite line_char_empty.
Qed.

(** (functional) what [tui_win_clear] and [tui_win_addstr] leave in a scrolling
    window: the text broken into lines at newlines and at the width of the window,
    the last lines of it, as many as the window has rows, in the window's colours;
    the cursor is after the last character. *)
Theorem addstr_shows_last_lines (s : win) (str : list Z) :
  fit s → wscroll_ok s ≠ 0 →
  ∃ s', (win_clear ;! win_addstr str) s = Some (tt, s') ∧
    let t := layout (ww s) str in
    (wcx s', wcy s') = (Z.of_nat (length (snd t)), Z.min (Z.of_nat (length (fst t))) (wh s - 1)) ∧
    ∀ r c, 0 ≤ r < wh s → 0 ≤ c < ww s →
      px (ww s) (wbuf s') r c = mkCell (line_char (wh s) t r c) (make_attr (wfg s) (wbg s)).
Proof.
  intros F Hok. destruct (clear_text s F Hok) as ([] & s1 & E1 & T1 & P1).
  destruct (addstr_text str s1 _ T1) as ([] & s2 & E2 & T2 & P2).
  exists s2. unfold bind. rewrite E1. split; [done|]. destruct P1 as (Ew1 & Eh1 & Ef1 & Eb1 & _), P2 as (Ew & Eh & Ef & Eb & _).
  rewrite Ew1 in T2. destruct T2 as [_ _ Hx _ Hy Hc]. rewrite Hx, Hy, Eh, Eh1. split; [done|].
  rewrite Ew, Ew1, Eh, Eh1, Ef, Ef1, Eb, Eb1 in Hc. exact Hc.
Qed.

(** Three rows of four columns: the first line is gone. *)
Definition demo_win : win :=
  mkWin 0 0 4 3 TUI_SCROLL 0 0 0 1 TUI_WHITE TUI_BLACK 0 (replicate 12 (mkCell 32 15)) (replicate 3 1) None.

Lemma addstr_shows_last_lines_witness :
  ∃ s', (win_clear ;! win_addstr [65; 10; 66; 67; 68; 69; 70; 10; 71]) demo_win = Some (tt, s') ∧
    let t := layout (ww demo_win) [65; 10; 66; 67; 68; 69; 70; 10; 71] in
    (wcx s', wcy s') = (Z.of_nat (length (snd t)), Z.min (Z.of_nat (length (fst t))) (wh demo_win - 1)) ∧
    ∀ r c, 0 ≤ r < wh demo_win → 0 ≤ c < ww demo_win →
      px (ww demo_win) (wbuf s') r c = mkCell (line_char (wh demo_win) t r c) (make_attr (wfg demo_win) (wbg demo_win)).
Proof. apply (addstr_shows_last_lines demo_win); [split; done|done]. Defined.

(** The text of the example is four lines; the window shows the last three. *)
Example demo_layout : layout 4 [65; 10; 66; 67; 68; 69; 70; 10; 71] = ([[65]; [66; 67; 68; 69]; [70]], [71]).
Proof. reflexivity. Qed.

(** ** The keyboard *)

(** The sequences of the special keys. *)
Definition key_table : list (Z * list Z) :=
  [(300, [27; 91; 65]); (301, [27; 91; 66]); (302, [27; 91; 67]); (303, [27; 91; 68]);
   (300, [27; 79; 65]); (301, [27; 79; 66]); (302, [27; 79; 67]); (303, [27; 79; 68]);
   (304, [27; 91; 72]); (304, [27; 79; 72]); (305, [27; 91; 70]); (305, [27; 79; 70]);
   (306, [27; 91; 53; 126]); (307, [27; 91; 54; 126]); (308, [27; 91; 50; 126]); (309, [27; 91; 51; 126]);
   (310, [27; 79; 80]); (311, [27; 79; 81]); (312, [27; 79; 82]); (313, [27; 79; 83]);
   (314, [27; 91; 49; 53; 126]); (315, [27; 91; 49; 55; 126]); (316, [27; 91; 49; 56; 126]); (317, [27; 91; 49; 57; 126]);
   (318, [27; 91; 50; 48; 126]); (319, [27; 91; 50; 49; 126]); (320, [27; 91; 50; 51; 126]); (321, [27; 91; 50; 52; 126])].

Lemma keys_decoded s k bs rest :
  (k, bs) ∈ key_table → u_in s = map Key bs ++ rest → tui_getch s = Some (k, set_in rest s).
Proof.
  intros Hin Ei. assert (Forall (λ '(k, bs), ∀ s, u_in s = map Key bs ++ rest → tui_getch s = Some (k, set_in rest s)) key_table) as H.
  { repeat (apply Forall_cons; split; [intros s' E; unfold tui_getch, getchar, bind; rewrite E; reflexivity|]). apply Forall_nil_2. }
  rewrite Forall_forall in H. exact (H (k, bs) Hin s Ei).
Qed.

Lemma getch_byte s c rest : u_in s = Key c :: rest → 0 ≤ c < 256 → c ≠ 27 → tui_getch s = Some (c, set_in rest s).
Proof.
  intros Ei Hc Hne. unfold tui_getch, getchar, bind. rewrite Ei. simpl. rewrite (u8_small c) by lia.
  assert (E : u8 (schar c) = c).
  { unfold schar, u8. destruct (Z.leb_spec 128 c); [|apply Z.mod_small; lia].
    replace (c - 256) with (c + (-1) * 256) by lia. change (2 ^ 8) with 256. rewrite Z_mod_plus_full. apply Z.mod_small. lia. }
  destruct (Z.eqb_spec (schar c) 27) as [E2|_]; simpl; [|unfold ret; by rewrite E].
  unfold schar in E2. destruct (Z.leb_spec 128 c); lia.
Qed.

(** The escape key alone waits for another key, and that key is lost. *)
Lemma escape_takes_a_key s c rest :
  u_in s = Key 27 :: Quiet :: Key c :: rest → 0 ≤ c < 128 → c ≠ 91 → c ≠ 79 →
  tui_getch s = Some (TUI_KEY_ESC, set_in rest s).
Proof.
  intros Ei Hc H1 H2. unfold tui_getch, tui_parse_escape, getchar, bind. rewrite Ei. simpl. rewrite (u8_small c) by lia.
  unfold schar. replace (128 <=? c) with false by lia.
  by replace (negb (c =? 91) && negb (c =? 79)) with true by lia.
Qed.

(** ** The prompt *)

Definition edit (max : Z) (t : list Z) (k : Z) : list Z :=
  if k =? 127 then take (length t - 1) t
  else if (32 <=? k) && (k <=? 126) && (Z.of_nat (length t) <? max - 1) then t ++ [k]
  else t.
Definition typed (max : Z) (ks : list Z) : list Z := foldl (edit max) [] ks.

(** The buffer holds the line [t]. *)
Definition holds (max : Z) (buf : list Z) (pos : Z) (t : list Z) : Prop :=
  pos = Z.of_nat (length t) ∧ pos ≤ max - 1 ∧ max ≤ Z.of_nat (length buf) ∧ Forall (λ c, 32 ≤ c ≤ 126) t ∧
  ∃ tail, buf = t ++ 0 :: tail.

Lemma cstring_line t tail : Forall (λ c, 32 ≤ c ≤ 126) t → cstring (t ++ 0 :: tail) = t.
Proof.
  induction 1 as [|c t Hc Ht IH]; simpl; [done|]. replace (c =? 0) with false by lia. by rewrite IH.
Qed.

Lemma set_byte_run (b1 b2 : list Z) x c (s : world) :
  set_byte (b1 ++ x :: b2) (Z.of_nat (length b1)) c s = Some (b1 ++ c :: b2, s).
Proof.
  unfold set_byte. rewrite updated_in by (rewrite length_app; simpl; lia).
  rewrite Nat2Z.id. by rewrite insert_app_r_alt, Nat.sub_diag by lia.
Qed.

Lemma holds_back max buf pos t s :
  holds max buf pos t → 0 < pos →
  ∃ buf', set_byte buf (pos - 1) 0 s = Some (buf', s) ∧ holds max buf' (pos - 1) (edit max t 127).
Proof.
  intros (-> & Hm & Hl & Ht & tail & ->) Hp. unfold edit. simpl. destruct t as [|c t _] using rev_ind; [simpl in Hp; lia|].
  rewrite length_app in *. simpl in *. replace (length t + 1 - 1)%nat with (length t) by lia. rewrite take_app_length.
  replace (Z.of_nat (length t + 1) - 1) with (Z.of_nat (length t)) by lia.
  exists (t ++ 0 :: 0 :: tail). rewrite <- app_assoc. simpl. rewrite set_byte_run. split; [done|].
  apply Forall_app in Ht as [Ht _]. split_and!; [done|lia|rewrite !length_app in *; simpl in *; lia|done|by exists (0 :: tail)].
Qed.

Lemma holds_add max buf pos t k s :
  holds max buf pos t → 32 ≤ k ≤ 126 → pos < max - 1 →
  ∃ buf1 buf2, set_byte buf pos k s = Some (buf1, s) ∧ set_byte buf1 (pos + 1) 0 s = Some (buf2, s) ∧
    holds max buf2 (pos + 1) (t ++ [k]).
Proof.
  intros (-> & Hm & Hl & Ht & tail & ->) Hk Hp. destruct tail as [|x tail]; [rewrite length_app in Hl; simpl in Hl; lia|].
  exists (t ++ k :: x :: tail), ((t ++ [k]) ++ 0 :: tail). rewrite set_byte_run. split; [done|].
  replace (t ++ k :: x :: tail) with ((t ++ [k]) ++ x :: tail) by (by rewrite <- app_assoc).
  replace (Z.of_nat (length t) + 1) with (Z.of_nat (length (t ++ [k]))) by (rewrite length_app; simpl; lia).
  rewrite set_byte_run. split; [done|]. split_and!; [done|rewrite length_app; simpl; lia|rewrite !length_app in *; simpl in *; lia| |by exists tail].
  apply Forall_app. split; [done|]. by apply Forall_singleton.
Qed.

(** A line without newlines leaves the cursor at most one row below the window. *)
Lemma keeps_addstr_line str : ∀ k s,
  0 ≤ k < 2 ^ 30 - 1 → winv k s → wcy s < wh s → Forall (λ c, c ≠ 10) str → wp (win_addstr str) s (λ _, winv k).
Proof.
  induction str as [|c str IH]; intros k s Hk Wi Hy Hs; simpl win_addstr; [by wp_step|].
  apply Forall_cons in Hs as [Hc Hs]. replace (c =? 10) with false by lia.
  assert (ADD : ∀ s', winv k s' → wcy s' < wh s' → wp (win_addch c ;! win_addstr str) s' (λ _, winv k)).
  { intros s' W' Hy'. wp_step. unfold win_addch. do 2 wp_step.
    eapply (wp_mono _ _ (λ _ s2, winv k s2 ∧ wcy s2 < wh s2)); [|intros [] s2 [? ?]; by apply IH].
    apply wp_and; [by apply keeps_put|]. destruct W' as [F' Hx' Hcy' _ _]. destruct (decide (ww s' ≤ wcx s')).
    - eapply wp_run; [apply put_full; by left|done].
    - eapply wp_mono; [apply put_run; [done|lia|lia]|]. by intros [] s2 [(b & d & -> & _) _]. }
  destruct Wi as [F Hx Hcy HX HY]. pose proof F as [? ? ? ? ?]. assert (wh s ≤ 2 ^ 30) by nia.
  do 3 wp_step. unfold id. destruct (Z.leb_spec (ww s) (wcx s)).
  - unfold next_line. wp_step. rewrite s32_small by lia. do 2 wp_step. unfold id. simpl.
    assert (W1 : winv k (set_cursor 0 (wcy s + 1) s)) by (split; simpl; try done; try lia; by destruct F; split).
    destruct (Z.leb_spec (wh s) (wcy s + 1)); [|apply ADD; [done|simpl; lia]].
    destruct (nz (wscroll_ok s)); [|wp_step; done]. wp_step. eapply wp_mono; [apply (keeps_scroll_up k); [lia|done]|].
    intros [] s2 (W2 & Hy2 & _). apply ADD; [done|lia].
  - wp_step. do 2 wp_step. unfold id. replace (wh s <=? wcy s) with false by lia. apply ADD; [by split|done].
Qed.

(** Between two keys: the windows are sound, [p] is live and satisfies [P]. *)
Record steady (k p : Z) (l : list Z) (i : list event) (P : win → Prop) (s : world) : Prop := mkSteady {
  sd_uinv : uinv k s;
  sd_list : t_windows (u_tui s) = l;
  sd_in : u_in s = i;
  sd_stale : readable s;
  sd_win : ∃ w, u_wins s !! p = Some w ∧ P w }.

Lemma steady_win k p l i (P P' : win → Prop) (m : W unit) s :
  steady k p l i P s → 0 < p → (∀ w, winv k w → P w → wp m w (λ _ w', winv k w' ∧ P' w')) →
  wp (on_win p tt m) s (λ _, steady k p l i P').
Proof.
  intros [U El Ei Hre (w & Ew & HP)] Hp Hm. destruct (ui_wins k s U p w Ew) as [Wi _].
  destruct (Hm w Wi HP) as ([] & w' & E & Wi' & HP').
  assert (R : on_win p tt m s = Some (tt, set_wins (<[p := w']> (u_wins s)) (u_next s) s)).
  { unfold on_win. replace (p =? 0) with false by lia. by rewrite Ew, E. }
  eapply wp_run; [exact R|]. split; simpl; try done.
  - destruct (on_win_keeps k k s p tt (λ _ : win, Some (tt, w')) U) as ([] & s' & E' & U'); [lia|by right; exists w|by intros; eexists _, _|].
    unfold on_win in E'. replace (p =? 0) with false in E' by lia. rewrite Ew in E'. by injection E' as <-.
  - exists w'. by rewrite lookup_insert_eq.
Qed.

Lemma steady_refresh k p l i P s : steady k p l i P s → wp tui_refresh s (λ _, steady k p l i P).
Proof.
  intros [U El Ei Hre HP]. eapply wp_mono; [by apply (refresh_safe k)|]. intros [] s' R.
  pose proof (uinv_repainted k s s' U R). destruct R as (bs & b & q & -> & _ & _). by split.
Qed.

Definition any : win → Prop := λ _, True.

(** The drawing of one round. *)
Lemma round_drawn k p l i label t s (m : T (list Z * Z + list Z * Z)) Q :
  0 ≤ k < 2 ^ 30 - 1 → 0 < p → Forall (λ c, c ≠ 10) t → steady k p l i any s →
  (∀ s', steady k p l i any s' → wp m s' Q) →
  wp (tui_win_clear p ;! tui_win_box p label ;! tui_win_gotoxy p 2 2 ;! tui_win_addstr p t ;! tui_refresh ;! m) s Q.
Proof.
  intros Hk Hp Ht S Hm. wp_step. eapply wp_mono.
  { apply (steady_win k p l i any any); [done|done|]. intros w Wi _. eapply wp_mono; [apply (keeps_clear k); [lia|done]|]. by intros [] w'. }
  intros [] s1 S1. wp_step. eapply wp_mono.
  { apply (steady_win k p l i any any); [done|done|]. intros w Wi _. eapply wp_mono; [by apply (keeps_box k)|]. by intros [] w'. }
  intros [] s2 S2. wp_step. eapply wp_mono.
  { apply (steady_win k p l i any (λ w, wcy w < wh w)); [done|done|]. intros w Wi _. apply wp_and; [apply keeps_gotoxy; [lia|done]|].
    unfold win_gotoxy. do 4 wp_step. wp_step. simpl. pose proof (fit_h w (winv_fit k w Wi)). destruct (Z.leb_spec (wh w) 2); lia. }
  intros [] s3 S3. wp_step. eapply wp_mono.
  { apply (steady_win k p l i (λ w, wcy w < wh w) any); [done|done|]. intros w Wi Hy.
    eapply wp_mono; [by apply (keeps_addstr_line t k)|]. by intros [] w'. }
  intros [] s4 S4. wp_step. eapply wp_mono; [by apply steady_refresh|]. intros [] s5 S5. by apply Hm.
Qed.

Lemma typed_range t : Forall (λ c, 32 ≤ c ≤ 126) t → Forall (λ c, c ≠ 10) t.
Proof. intros H. eapply Forall_impl; [exact H|]. intros c Hc ->. simpl in Hc. lia. Qed.

Lemma steady_in k p l i i' P s : steady k p l i P s → steady k p l i' P (set_in i' s).
Proof. intros [U ? ? ? ?]. split; try done. destruct U. by split. Qed.

(** One key of the prompt. *)
Lemma prompt_key k p l label max buf pos t c rest s :
  0 ≤ k < 2 ^ 30 - 1 → 0 < p → 1 ≤ max → 0 ≤ c < 256 → c ≠ 27 → c ≠ 10 →
  steady k p l (Key c :: rest) any s → holds max buf pos t →
  wp (prompt_round p label max (buf, pos)) s (λ r s', ∃ buf' pos', r = inl (buf', pos') ∧
    holds max buf' pos' (edit max t c) ∧ steady k p l rest any s').
Proof.
  intros Hk Hp Hmax Hc He Hn S H. pose proof H as (Hpos & Hm & Hl & Ht & tail & Hbuf). unfold prompt_round.
  replace (cstring buf) with t by (rewrite Hbuf; symmetry; by apply cstring_line). eapply round_drawn; [done|done|by apply typed_range|exact S|].
  intros s1 S1. wp_step. eapply wp_run; [apply (getch_byte s1 c rest); [apply S1|done|done]|].
  pose proof (steady_in k p l _ rest any s1 S1) as S2. unfold TUI_KEY_ENTER, TUI_KEY_ESC, TUI_KEY_BS.
  replace (c =? 10) with false by lia. replace (c =? 27) with false by lia.
  destruct (Z.eqb_spec c 127) as [->|H127]; simpl orb; cbv iota.
  - destruct (Z.ltb_spec 0 pos); simpl andb; cbv iota.
    + destruct (holds_back max buf pos t (set_in rest s1) H) as (buf' & E & H'); [done|]. do 2 wp_step.
      eapply wp_run; [exact E|]. wp_step. wp_step. by exists buf', (pos - 1).
    + do 2 wp_step. wp_step. exists buf, pos. split_and!; [done| |done]. destruct t as [|? ?]; [done|simpl in *; lia].
  - simpl andb. do 2 wp_step. unfold edit. replace (c =? 127) with false by lia. rewrite <- Hpos.
    destruct ((32 <=? c) && (c <=? 126) && (pos <? max - 1)) eqn:E; [|wp_step; by exists buf, pos].
    destruct (holds_add max buf pos t c (set_in rest s1) H) as (b1 & b2 & E1 & E2 & H'); [lia|lia|].
    wp_step. eapply wp_run; [exact E1|]. wp_step. eapply wp_run; [exact E2|]. wp_step. by exists b2, (pos + 1).
Qed.

Lemma prompt_enter k p l label max buf pos t rest s :
  0 ≤ k < 2 ^ 30 - 1 → 0 < p → steady k p l (Key 10 :: rest) any s → holds max buf pos t →
  wp (prompt_round p label max (buf, pos)) s (λ r s', r = inr (buf, pos) ∧ steady k p l rest any s').
Proof.
  intros Hk Hp S H. pose proof H as (Hpos & Hm & Hl & Ht & tail & Hbuf). unfold prompt_round.
  replace (cstring buf) with t by (rewrite Hbuf; symmetry; by apply cstring_line). eapply round_drawn; [done|done|by apply typed_range|exact S|].
  intros s1 S1. wp_step. eapply wp_run; [apply (getch_byte s1 10 rest); [apply S1|lia|done]|].
  simpl. wp_step. split; [done|]. by apply (steady_in k p l (Key 10 :: rest)).
Qed.

Lemma prompt_loop k p l label max ks buf pos t rest s :
  0 ≤ k < 2 ^ 30 - 1 → 0 < p → 1 ≤ max → Forall (λ c, 0 ≤ c < 256 ∧ c ≠ 27 ∧ c ≠ 10) ks → Z.of_nat (length ks) < 2 ^ 63 →
  steady k p l (map Key ks ++ Key 10 :: rest) any s → holds max buf pos t →
  wp (while_ (prompt_round p label max) (buf, pos)) s (λ r s',
    holds max (fst r) (snd r) (foldl (edit max) t ks) ∧ steady k p l rest any s').
Proof.
  intros Hk Hp Hmax Hks Hlen S H.
  set (I := λ (g : list Z * list Z) (a : list Z * Z) (s : world), Forall (λ c, 0 ≤ c < 256 ∧ c ≠ 27 ∧ c ≠ 10) (fst g) ∧
    foldl (edit max) (snd g) (fst g) = foldl (edit max) t ks ∧
    steady k p l (map Key (fst g) ++ Key 10 :: rest) any s ∧ holds max (fst a) (snd a) (snd g)).
  apply (wp_while_ghost I (λ g, Z.of_nat (length (fst g))) _ _) with (g := (ks, t)); [|done|simpl; lia].
  intros [[|c ks'] t'] [b q] s' (Hk' & Hf & S' & H'); simpl in *.
  - eapply wp_mono; [by eapply prompt_enter|]. intros r s2 [-> S2]. simpl. split; [by rewrite <- Hf|done].
  - apply Forall_cons in Hk' as [(Hc & H27 & H10) Hk'].
    eapply wp_mono; [by apply (prompt_key k p l label max b q t' c (map Key ks' ++ Key 10 :: rest))|].
    intros r s2 (b' & q' & -> & H2 & S2). exists (ks', edit max t' c). simpl. split; [|lia]. by split_and!.
Qed.

(** A window is made, with memory for it. *)
Lemma new_run k s x y w h fl :
  uinv k s → readable s → 0 ≤ k → u_grants s = [] → 0 ≤ t_cap (u_tui s) < 2 ^ 26 → near x → near y → 1 ≤ w → 1 ≤ h → w * h ≤ 2 ^ 20 →
  wp (tui_win_new x y w h fl) s (λ p s', p = u_next s ∧ steady k p (t_windows (u_tui s) ++ [p]) (u_in s) any s').
Proof.
  intros U Hre Hk Eg Hcap Hx Hy Hw Hh Ha. assert (1 ≤ w * h) by nia. assert (h ≤ 2 ^ 20) by nia.
  set (Q := λ p s', p = u_next s ∧ t_windows (u_tui s') = t_windows (u_tui s) ++ [p] ∧ u_in s' = u_in s ∧ readable s' ∧ is_Some (u_wins s' !! p)).
  enough (wp (tui_win_new x y w h fl) s Q) as HQ.
  { pose proof (wp_and _ _ _ _ (new_keeps k s x y w h fl U Hk ltac:(unfold fitting; lia) Hx Hy) HQ) as H1.
    eapply wp_mono; [exact H1|]. intros p s' (U' & -> & El & Ei & Hre' & [v Ev]). split; [done|]. split; try done. by exists v. }
  unfold tui_win_new. replace ((w <? 1) || (h <? 1)) with false by lia.
  wp_step. eapply wp_run; [by apply granted_yes; [|unfold WIN_SIZE]|]. simpl negb. cbv iota.
  wp_step. eapply wp_run; [apply granted_yes; [done|unfold cells_size; rewrite s32_small by lia; lia]|].
  wp_step. eapply wp_run; [apply granted_yes; [done|unfold flags_size; lia]|]. simpl negb. cbv iota zeta.
  do 2 wp_step. wp_step. unfold room. do 2 wp_step. eapply (wp_mono _ _ (λ b s', b = true ∧ ∃ c, s' = set_tui (set_windows (t_windows (u_tui s)) c (u_tui s)) s)).
  { destruct (Z.of_nat (length (t_windows (u_tui s))) <? t_cap (u_tui s)).
    - wp_step. split; [done|]. exists (t_cap (u_tui s)). by destruct s as [[] ].
    - wp_step. set (nc := if nz (t_cap (u_tui s)) then _ else _). assert (0 < nc ≤ 2 ^ 27).
      { subst nc. destruct (nz (t_cap (u_tui s))) eqn:En; [|lia]. apply nz_spec in En. rewrite s32_small by lia. lia. }
      eapply wp_run; [apply granted_yes; [done|lia]|]. wp_step. unfold screen. do 2 wp_step. wp_step. split; [done|]. by exists nc. }
  intros b s' [-> [c ->]]. simpl negb. cbv iota. do 3 wp_step. wp_step. unfold screen. do 2 wp_step. wp_step. wp_step.
  split_and!; try done. simpl. rewrite lookup_insert_eq. by eexists.
Qed.

Lemma near_box w bw : 0 ≤ w ≤ 100 → 0 ≤ bw ≤ 100 → near (Z.quot (w - bw) 2).
Proof. intros Hw Hb. unfold near. assert (-100 ≤ Z.quot (w - bw) 2 ≤ 100); [|lia]. Z.quot_rem_to_equations. lia. Qed.

(** (functional) [tui_prompt] on a keyboard that sends printable characters,
    backspaces and other bytes, then a newline: it returns the length of the edited
    line, the buffer holds that line and its terminating 0 and fits its size, the
    bytes after the newline are still there to be read, and the prompt's window is
    gone.  ([tui_win_close] reads two fields of the window it has freed; the theorem is
    for runs in which those reads give some value.) *)
Theorem prompt_returns_line (k : Z) (s : world) (label buf : list Z) (max : Z) (ks : list Z) (rest : list event) :
  uinv k s → readable s → 0 ≤ k < 2 ^ 30 - 1 → u_grants s = [] → 0 ≤ t_cap (u_tui s) < 2 ^ 26 →
  1 ≤ max ≤ Z.of_nat (length buf) → Forall (λ c, 0 ≤ c < 256 ∧ c ≠ 27 ∧ c ≠ 10) ks → Z.of_nat (length ks) < 2 ^ 63 →
  u_in s = map Key ks ++ Key 10 :: rest →
  ∃ tail s', tui_prompt label buf max s =
      Some ((Z.of_nat (length (typed max ks)), typed max ks ++ 0 :: tail), s') ∧
    Z.of_nat (length (typed max ks)) < max ∧
    u_in s' = rest ∧ t_windows (u_tui s') = t_windows (u_tui s) ∧ uinv k s'.
Proof.
  intros U Hre Hk Eg Hcap Hmax Hks Hlen Ei. set (Q := λ (r : Z * list Z) s', ∃ tail, r = (Z.of_nat (length (typed max ks)), typed max ks ++ 0 :: tail) ∧
    Z.of_nat (length (typed max ks)) < max ∧ u_in s' = rest ∧ t_windows (u_tui s') = t_windows (u_tui s) ∧ uinv k s').
  enough (wp (tui_prompt label buf max) s Q) as (r & s' & E & tail & -> & H) by (by exists tail, s').
  pose proof (ui_sized k s U) as [Ew Eh _ _ _]. unfold tui_prompt. replace (max <? 1) with false by lia. do 2 wp_step.
  rewrite Ew, Eh. change (width_of_box 80) with 53. wp_step.
  eapply wp_mono; [apply (new_run k); [done|done|lia|done|done|by apply near_box|by apply near_box|lia|lia|lia]|].
  intros p s1 [-> S1]. set (p := u_next s) in *. pose proof (ui_next k s U) as Hp. fold p in Hp.
  replace (p =? 0) with false by lia. rewrite Ei in S1. wp_step. eapply wp_mono.
  { refine (steady_win k p _ _ any any _ _ S1 Hp _). intros w Wi _. eapply wp_mono; [by apply (keeps_box k)|]. by intros [] w'. }
  intros [] s2 S2. wp_step. eapply wp_mono.
  { refine (steady_win k p _ _ any any _ _ S2 Hp _). intros w Wi _. eapply wp_mono; [by apply (keeps_color k)|]. by intros [] w'. }
  intros [] s3 S3. wp_step. eapply wp_mono; [exact (steady_refresh k p _ _ any s3 S3)|]. intros [] s4 S4.
  wp_step. apply wp_assert; [lia|]. wp_step. eapply wp_mono.
  { refine (prompt_loop k p _ label max ks _ 0 [] rest s4 Hk Hp _ Hks Hlen S4 _); [lia|]. split_and!; [done|lia| |done|].
    - rewrite length_app, length_replicate, length_drop. lia.
    - exists (replicate (Z.to_nat max - 1) 0 ++ drop (Z.to_nat max) buf). simpl.
      by replace (Z.to_nat max) with (S (Z.to_nat max - 1)) at 1 by lia. }
  intros [b q] s5 [H5 S5]. simpl in H5. fold (typed max ks) in H5. destruct H5 as (-> & Hq & _ & _ & tail & ->). wp_step.
  eapply wp_mono; [apply (close_run k); apply S5|]. intros [] s6 (U6 & Ein & El). wp_step.
  eapply wp_mono; [by apply (refresh_safe k)|]. intros [] s7 R. pose proof (uinv_repainted k s6 s7 U6 R) as U7. wp_step.
  destruct R as (bs & b & q & -> & _ & _). exists tail. split_and!; [done|lia|simpl; rewrite Ein; apply S5| |done].
  simpl. rewrite El. replace (p =? 0) with false by lia. rewrite (sd_list _ _ _ _ _ _ S5), index_of_in; [by rewrite swap_out_last|].
  intros Hin. apply (ui_live k s U) in Hin as [w Ew']. destruct (ui_wins k s U p w Ew'). lia.
Qed.

Definition prompt_demo0 : world := set_stale [5; 9] (set_in [Key 72; Key 105; Key 127; Key 10; Key 65] demo0).
Definition prompt_demo : world := end_of tui_init prompt_demo0.

Lemma prompt_demo_uinv : uinv 0 prompt_demo.
Proof. apply (init_uinv prompt_demo0); [done|done|]. vm_compute. reflexivity. Qed.

Lemma prompt_returns_line_witness :
  ∃ tail s', tui_prompt [76] (replicate 8 7) 8 prompt_demo = Some ((Z.of_nat (length (typed 8 [72; 105; 127])), typed 8 [72; 105; 127] ++ 0 :: tail), s') ∧
    Z.of_nat (length (typed 8 [72; 105; 127])) < 8 ∧
    u_in s' = [Key 65] ∧ t_windows (u_tui s') = t_windows (u_tui prompt_demo) ∧ uinv 0 s'.
Proof.
  apply (prompt_returns_line 0 prompt_demo [76] (replicate 8 7) 8 [72; 105; 127] [Key 65]);
    [exact prompt_demo_uinv|vm_compute; lia|lia|vm_compute; reflexivity|vm_compute; split; done|simpl; lia|repeat constructor; done|simpl; lia|vm_compute; reflexivity].
Defined.

(** ** What the code does not do *)

(** The colours of blank cells at the end of a row are not sent: a window filled
    with spaces on another background is not visible. *)
Example coloured_blanks_unsent :
  bool_decide (109 ∈ u_out (end_of tui_refresh (end_of (run_op (Fill 4096 32)) (end_of (run_op (Color 4096 15 4)) demo2)))) = false.
Proof. vm_compute. reflexivity. Qed.

(** Colour 1 is blue in [tui.h]; it is sent as 31, red. *)
Example blue_sent_as_red : u_out (end_of (ansi_attr 1 0 0) demo0) = [27; 91; 51; 49; 59; 52; 48; 109].
Proof. reflexivity. Qed.

(** The product of the sizes of a window wraps: the buffer of a window of 65537 by
    65537 cells has 131073 cells. *)
Example window_size_wraps : s32 (65537 * 65537) = 131073.
Proof. reflexivity. Qed.
