(* ===== verification/Graphy.v ===== *)
(** * Graphy: the text editor [src/userland/progs/graphy.c]

    The globals of the program are the fields of [ed]; it draws through [Tui].
    [e_buf] is the allocated block, [cap] bytes long (the empty list when the
    pointer is null), of which the first [e_sz] are the text; [lns], [undo_stack],
    [clip] have their declared sizes and an access outside any of them has no
    result.  [fname] and [msg] are their strings.  The second set of line tables and
    cursors of [swap_buf] is copied out and back in the same call and has no fields.
    [e_junk] is what a fresh byte of memory holds.  The files are a class. *)

From Stdlib Require Import ZArith Lia.
From stdpp Require Import gmap list prelude.
From S2P Require Import Prelude Libc LibcAlloc Stdio Tui.

Open Scope Z_scope.

Definition MAXLNS : Z := 4096.
Definition ROWS : Z := 23.
Definition COLS : Z := 80.
Definition TABW : Z := 4.
Definition UNDO_MAX : Z := 512.
Definition CLIP_MAX : Z := 4096.

Record ed := mkEd {
  e_buf : list Z;
  e_sz : Z;
  e_lns : list Z;
  e_nlns : Z;
  e_cx : Z;
  e_cy : Z;
  e_co : Z;
  e_top : Z;
  e_fname : list Z;
  e_mod : Z;
  e_overwrite : Z;
  e_msg : list Z;
  e_msg_age : Z;
  e_help : Z;
  e_linenos : Z;
  e_undo : list (Z * Z * Z);
  e_head : Z;
  e_count : Z;
  e_clip : list Z;
  e_clip_len : Z;
  e_buf2 : list Z;
  e_sz2 : Z;
  e_active : Z;
  e_junk : Z;
  w_text : Z;
  w_status : Z;
  w_help : Z }.

Definition set_text v0 v1 (s : ed) : ed := mkEd v0 v1 (e_lns s) (e_nlns s) (e_cx s) (e_cy s) (e_co s) (e_top s)
  (e_fname s) (e_mod s) (e_overwrite s) (e_msg s) (e_msg_age s) (e_help s) (e_linenos s) (e_undo s) (e_head s) (e_count
  s) (e_clip s) (e_clip_len s) (e_buf2 s) (e_sz2 s) (e_active s) (e_junk s) (w_text s) (w_status s) (w_help s).
Definition set_lines v0 v1 (s : ed) : ed := mkEd (e_buf s) (e_sz s) v0 v1 (e_cx s) (e_cy s) (e_co s) (e_top s)
  (e_fname s) (e_mod s) (e_overwrite s) (e_msg s) (e_msg_age s) (e_help s) (e_linenos s) (e_undo s) (e_head s) (e_count
  s) (e_clip s) (e_clip_len s) (e_buf2 s) (e_sz2 s) (e_active s) (e_junk s) (w_text s) (w_status s) (w_help s).
Definition set_xy v0 v1 (s : ed) : ed := mkEd (e_buf s) (e_sz s) (e_lns s) (e_nlns s) v0 v1 (e_co s) (e_top s)
  (e_fname s) (e_mod s) (e_overwrite s) (e_msg s) (e_msg_age s) (e_help s) (e_linenos s) (e_undo s) (e_head s) (e_count
  s) (e_clip s) (e_clip_len s) (e_buf2 s) (e_sz2 s) (e_active s) (e_junk s) (w_text s) (w_status s) (w_help s).
Definition set_co v0 (s : ed) : ed := mkEd (e_buf s) (e_sz s) (e_lns s) (e_nlns s) (e_cx s) (e_cy s) v0 (e_top s)
  (e_fname s) (e_mod s) (e_overwrite s) (e_msg s) (e_msg_age s) (e_help s) (e_linenos s) (e_undo s) (e_head s) (e_count
  s) (e_clip s) (e_clip_len s) (e_buf2 s) (e_sz2 s) (e_active s) (e_junk s) (w_text s) (w_status s) (w_help s).
Definition set_top v0 (s : ed) : ed := mkEd (e_buf s) (e_sz s) (e_lns s) (e_nlns s) (e_cx s) (e_cy s) (e_co s) v0
  (e_fname s) (e_mod s) (e_overwrite s) (e_msg s) (e_msg_age s) (e_help s) (e_linenos s) (e_undo s) (e_head s) (e_count
  s) (e_clip s) (e_clip_len s) (e_buf2 s) (e_sz2 s) (e_active s) (e_junk s) (w_text s) (w_status s) (w_help s).
Definition set_fname v0 (s : ed) : ed := mkEd (e_buf s) (e_sz s) (e_lns s) (e_nlns s) (e_cx s) (e_cy s) (e_co s)
  (e_top s) v0 (e_mod s) (e_overwrite s) (e_msg s) (e_msg_age s) (e_help s) (e_linenos s) (e_undo s) (e_head s) (e_count
  s) (e_clip s) (e_clip_len s) (e_buf2 s) (e_sz2 s) (e_active s) (e_junk s) (w_text s) (w_status s) (w_help s).
Definition set_mod v0 (s : ed) : ed := mkEd (e_buf s) (e_sz s) (e_lns s) (e_nlns s) (e_cx s) (e_cy s) (e_co s) (e_top
  s) (e_fname s) v0 (e_overwrite s) (e_msg s) (e_msg_age s) (e_help s) (e_linenos s) (e_undo s) (e_head s) (e_count s)
  (e_clip s) (e_clip_len s) (e_buf2 s) (e_sz2 s) (e_active s) (e_junk s) (w_text s) (w_status s) (w_help s).
Definition set_overwrite v0 (s : ed) : ed := mkEd (e_buf s) (e_sz s) (e_lns s) (e_nlns s) (e_cx s) (e_cy s) (e_co s)
  (e_top s) (e_fname s) (e_mod s) v0 (e_msg s) (e_msg_age s) (e_help s) (e_linenos s) (e_undo s) (e_head s) (e_count s)
  (e_clip s) (e_clip_len s) (e_buf2 s) (e_sz2 s) (e_active s) (e_junk s) (w_text s) (w_status s) (w_help s).
Definition set_msg v0 v1 (s : ed) : ed := mkEd (e_buf s) (e_sz s) (e_lns s) (e_nlns s) (e_cx s) (e_cy s) (e_co s)
  (e_top s) (e_fname s) (e_mod s) (e_overwrite s) v0 v1 (e_help s) (e_linenos s) (e_undo s) (e_head s) (e_count s)
  (e_clip s) (e_clip_len s) (e_buf2 s) (e_sz2 s) (e_active s) (e_junk s) (w_text s) (w_status s) (w_help s).
Definition set_help v0 (s : ed) : ed := mkEd (e_buf s) (e_sz s) (e_lns s) (e_nlns s) (e_cx s) (e_cy s) (e_co s) (e_top
  s) (e_fname s) (e_mod s) (e_overwrite s) (e_msg s) (e_msg_age s) v0 (e_linenos s) (e_undo s) (e_head s) (e_count s)
  (e_clip s) (e_clip_len s) (e_buf2 s) (e_sz2 s) (e_active s) (e_junk s) (w_text s) (w_status s) (w_help s).
Definition set_linenos v0 (s : ed) : ed := mkEd (e_buf s) (e_sz s) (e_lns s) (e_nlns s) (e_cx s) (e_cy s) (e_co s)
  (e_top s) (e_fname s) (e_mod s) (e_overwrite s) (e_msg s) (e_msg_age s) (e_help s) v0 (e_undo s) (e_head s) (e_count
  s) (e_clip s) (e_clip_len s) (e_buf2 s) (e_sz2 s) (e_active s) (e_junk s) (w_text s) (w_status s) (w_help s).
Definition set_undo v0 v1 v2 (s : ed) : ed := mkEd (e_buf s) (e_sz s) (e_lns s) (e_nlns s) (e_cx s) (e_cy s) (e_co s)
  (e_top s) (e_fname s) (e_mod s) (e_overwrite s) (e_msg s) (e_msg_age s) (e_help s) (e_linenos s) v0 v1 v2 (e_clip s)
  (e_clip_len s) (e_buf2 s) (e_sz2 s) (e_active s) (e_junk s) (w_text s) (w_status s) (w_help s).
Definition set_clip v0 v1 (s : ed) : ed := mkEd (e_buf s) (e_sz s) (e_lns s) (e_nlns s) (e_cx s) (e_cy s) (e_co s)
  (e_top s) (e_fname s) (e_mod s) (e_overwrite s) (e_msg s) (e_msg_age s) (e_help s) (e_linenos s) (e_undo s) (e_head s)
  (e_count s) v0 v1 (e_buf2 s) (e_sz2 s) (e_active s) (e_junk s) (w_text s) (w_status s) (w_help s).
Definition set_second v0 v1 (s : ed) : ed := mkEd (e_buf s) (e_sz s) (e_lns s) (e_nlns s) (e_cx s) (e_cy s) (e_co s)
  (e_top s) (e_fname s) (e_mod s) (e_overwrite s) (e_msg s) (e_msg_age s) (e_help s) (e_linenos s) (e_undo s) (e_head s)
  (e_count s) (e_clip s) (e_clip_len s) v0 v1 (e_active s) (e_junk s) (w_text s) (w_status s) (w_help s).
Definition set_active v0 (s : ed) : ed := mkEd (e_buf s) (e_sz s) (e_lns s) (e_nlns s) (e_cx s) (e_cy s) (e_co s)
  (e_top s) (e_fname s) (e_mod s) (e_overwrite s) (e_msg s) (e_msg_age s) (e_help s) (e_linenos s) (e_undo s) (e_head s)
  (e_count s) (e_clip s) (e_clip_len s) (e_buf2 s) (e_sz2 s) v0 (e_junk s) (w_text s) (w_status s) (w_help s).
Definition set_windows3 v0 v1 v2 (s : ed) : ed := mkEd (e_buf s) (e_sz s) (e_lns s) (e_nlns s) (e_cx s) (e_cy s) (e_co
  s) (e_top s) (e_fname s) (e_mod s) (e_overwrite s) (e_msg s) (e_msg_age s) (e_help s) (e_linenos s) (e_undo s) (e_head
  s) (e_count s) (e_clip s) (e_clip_len s) (e_buf2 s) (e_sz2 s) (e_active s) (e_junk s) v0 v1 v2.

(** The values the globals start with; fresh memory holds [junk]. *)
Definition globals (junk : Z) : ed :=
  mkEd [] 0 (replicate (Z.to_nat MAXLNS) 0) 0 0 0 0 0 [] 0 0 [] 0 0 1 (replicate (Z.to_nat UNDO_MAX) (0, 0, 0)) 0 0
    (replicate (Z.to_nat CLIP_MAX) 0) 0 [] 0 0 junk 0 0 0.

Abbreviation G := (M (ed * world)).

Definition on_ed {A} (m : M ed A) : G A := zoom fst (λ e s, (e, snd s)) m.
Definition on_tui {A} (m : T A) : G A := zoom snd (λ w s, (fst s, w)) m.
Definition eget {A} (f : ed → A) : G A := gets (λ s, f (fst s)).
Definition eset (f : ed → ed) : G unit := modify (λ s, (f (fst s), snd s)).

(** An array of the program. *)
Definition put_at {A} (get : ed → list A) (set : list A → ed → ed) (i : Z) (v : A) : M ed unit := λ e,
  match updated (get e) i v with Some l => Some (tt, set l e) | None => None end.

Definition rd (i : Z) : M ed Z := let! b := gets e_buf in at_index b i.
Definition wr (i c : Z) : M ed unit := put_at e_buf (λ b e, set_text b (e_sz e) e) i c.
Definition rd_ln (i : Z) : M ed Z := let! l := gets e_lns in at_index l i.
Definition wr_ln (i v : Z) : M ed unit := put_at e_lns (λ l e, set_lines l (e_nlns e) e) i v.

(** ** The text *)

(** [while (newcap < needed) { if (newcap > 0x3FFFFFFF) return -1; newcap *= 2; }] *)
Fixpoint new_capacity (fuel : nat) (newcap needed : Z) : option Z :=
  match fuel with
  | O => None
  | S fuel' =>
      if newcap <? needed then
        if 0x3FFFFFFF <? newcap then None else new_capacity fuel' (newcap * 2) needed
      else Some newcap
  end.

(** 0, or -1 without memory. *)
Definition grow (needed : Z) : G Z :=
  let! cap := eget (λ e, Z.of_nat (length (e_buf e))) in
  if needed <=? cap then ret 0 else
  match new_capacity 32 (if nz cap then cap else 4096) needed with
  | None => ret (-1)
  | Some newcap =>
      let! ok := on_tui (granted newcap) in
      if negb ok then ret (-1) else
      eset (λ e, set_text (e_buf e ++ replicate (Z.to_nat (newcap - cap)) (e_junk e)) (e_sz e) e) ;!
      ret 0
  end.

Definition push_undo (pos c is_ins : Z) : M ed unit :=
  let! e := gets id in
  if e_count e <? UNDO_MAX then
    let i := (e_head e + e_count e) mod UNDO_MAX in
    put_at e_undo (λ u e, set_undo u (e_head e) (e_count e) e) i (pos, c, is_ins) ;!
    modify (λ e, set_undo (e_undo e) (e_head e) (e_count e + 1) e)
  else
    modify (λ e, set_undo (e_undo e) ((e_head e + 1) mod UNDO_MAX) (e_count e) e) ;!
    let! e := gets id in
    let i := (e_head e + e_count e - 1) mod UNDO_MAX in
    put_at e_undo (λ u e, set_undo u (e_head e) (e_count e) e) i (pos, c, is_ins).

(** [for (i = n + off; i > off; i--) buf\[i\] = buf\[i - 1\];] *)
Fixpoint shift_right (n : nat) (off : Z) : M ed unit :=
  match n with
  | O => skip
  | S n' =>
      let i := off + Z.of_nat n in
      let! c := rd (i - 1) in
      wr i c ;!
      shift_right n' off
  end.

Definition set_size (f : Z → Z) : M ed unit := modify (λ e, set_text (e_buf e) (f (e_sz e)) e).

Definition ins (off c : Z) : G unit :=
  let! sz := eget e_sz in
  let! g := grow (sz + 1) in
  if g <? 0 then skip else
  on_ed (
    push_undo off c 1 ;!
    shift_right (Z.to_nat (sz - off)) off ;!
    wr off c ;!
    set_size (λ n, n + 1) ;!
    modify (set_mod 1)).

Definition del (off : Z) : M ed unit :=
  let! sz := gets e_sz in
  if (off <? 0) || (sz <=? off) then skip else
  let! c := rd off in
  push_undo off c 0 ;!
  for_up (Z.to_nat (sz - 1 - off)) off (λ i, let! c := rd (i + 1) in wr i c) ;!
  set_size (λ n, n - 1) ;!
  modify (set_mod 1).

Definition undo_one : G Z :=
  let! count := eget e_count in
  if count <=? 0 then ret 0 else
  eset (λ e, set_undo (e_undo e) (e_head e) (e_count e - 1) e) ;!
  let! e := eget id in
  let! u := at_index (e_undo e) ((e_head e + e_count e) mod UNDO_MAX) in
  let '(p, c, is_ins) := u in
  if nz is_ins then
    if (0 <=? p) && (p <=? e_sz e) then on_ed (del p) ;! ret 1 else ret 0
  else
    let! g := grow (e_sz e + 1) in
    if g =? 0 then
      on_ed (shift_right (Z.to_nat (e_sz e - p)) p ;! wr p c ;! set_size (λ n, n + 1)) ;!
      ret 1
    else ret 0.

Definition clip_set (str : list Z) (n : Z) : M ed unit :=
  let n := if 4095 <? n then 4095 else n in
  for_up (Z.to_nat n) 0 (λ i, let! c := at_index str i in put_at e_clip (λ l e, set_clip l (e_clip_len e) e) i c) ;!
  modify (λ e, set_clip (e_clip e) n e).

Definition sts (str : list Z) : M ed unit := modify (set_msg (take 79 str) 0).

(** [for (i = 0; i < sz; i++) if (buf\[i\] == '\n') { lns\[nlns++\] = i + 1; if (nlns >= MAXLNS) break; }] *)
Fixpoint scan_lines (n : nat) (i : Z) : M ed unit :=
  match n with
  | O => skip
  | S n' =>
      let! c := rd i in
      if c =? 10 then
        let! k := gets e_nlns in
        wr_ln k (i + 1) ;!
        modify (λ e, set_lines (e_lns e) (k + 1) e) ;!
        if MAXLNS <=? k + 1 then skip else scan_lines n' (i + 1)
      else scan_lines n' (i + 1)
  end.

Definition lns_build : M ed unit :=
  wr_ln 0 0 ;!
  modify (λ e, set_lines (e_lns e) 1 e) ;!
  let! sz := gets e_sz in
  scan_lines (Z.to_nat sz) 0.

(** The offset of the newline that ends line [i], or of the end of the text. *)
Definition line_end (i : Z) : M ed Z :=
  let! e := gets id in
  if i + 1 <? e_nlns e then let! v := rd_ln (i + 1) in ret (v - 1) else ret (e_sz e).

(** The line and the column of an offset: [(x, y)]. *)
Fixpoint find_line (n : nat) (i off : Z) : M ed (Z * Z) :=
  match n with
  | O => let! k := gets e_nlns in ret (0, k - 1)
  | S n' =>
      let! nl := line_end i in
      let! k := gets e_nlns in
      if (off <=? nl) || (k <=? i + 1) then let! st := rd_ln i in ret (off - st, i)
      else find_line n' (i + 1) off
  end.

Definition off_xy (off : Z) : M ed (Z * Z) :=
  let! e := gets id in
  let off := if off <? 0 then 0 else off in
  let off := if e_sz e <? off then e_sz e else off in
  find_line (Z.to_nat (e_nlns e)) 0 off.

Definition set_cursor_at (off : Z) : M ed unit := let! xy := off_xy off in modify (set_xy (fst xy) (snd xy)).

Definition xy_off (x y : Z) : M ed Z :=
  let! k := gets e_nlns in
  let y := if y <? 0 then 0 else y in
  let y := if k <=? y then k - 1 else y in
  let! st := rd_ln y in
  let! nl := line_end y in
  let o := st + x in
  let o := if nl <? o then nl else o in
  ret (if o <? st then st else o).

(** ** Searching *)

(** [buf\[i + j\] == q\[j\]] for all [j]: stops at the first that differs. *)
Fixpoint matches (i : Z) (q : list Z) : M ed bool :=
  match q with
  | [] => ret true
  | c :: q' => let! b := rd i in if b =? c then matches (i + 1) q' else ret false
  end.

(** [if (cy < top) top = cy; if (cy >= top + ROWS) top = cy - ROWS + 1;] *)
Definition follow_cursor : M ed unit :=
  modify (λ e, if e_cy e <? e_top e then set_top (e_cy e) e else e) ;!
  modify (λ e, if e_top e + ROWS <=? e_cy e then set_top (e_cy e - ROWS + 1) e else e).

Definition not_found : list Z := [78; 111; 116; 32; 102; 111; 117; 110; 100].

Fixpoint find_from (n : nat) (i : Z) (q : list Z) : M ed Z :=
  match n with
  | O => sts not_found ;! ret 0
  | S n' =>
      let! m := matches i q in
      if m : bool then
        modify (set_co i) ;!
        set_cursor_at i ;!
        follow_cursor ;!
        ret 1
      else find_from n' (i + 1) q
  end.

Definition find (q : list Z) (from : Z) : M ed Z :=
  match q with
  | [] => ret 0
  | _ => let! sz := gets e_sz in find_from (Z.to_nat (sz - Z.of_nat (length q) - from + 1)) from q
  end.

(** [for (j = 0; j < rl; j++) ins(i + j, r\[j\]);] *)
Fixpoint ins_all (i : Z) (r : list Z) : G unit :=
  match r with [] => skip | c :: r' => ins i c ;! ins_all (i + 1) r' end.

Definition replace_round (q r : list Z) : Z * Z → G (Z * Z + Z) := λ '(i, count),
  let! sz := eget e_sz in
  if i <=? sz - Z.of_nat (length q) then
    let! m := on_ed (matches i q) in
    if m : bool then
      on_ed (for_up (length q) 0 (λ _, del i)) ;!
      ins_all i r ;!
      eset (set_mod 1) ;!
      ret (inl (i + (Z.of_nat (length r) - 1) + 1, count + 1))
    else ret (inl (i + 1, count))
  else ret (inr count).

Definition replace (q r : list Z) : G Z :=
  match q with
  | [] => ret 0
  | _ =>
      let! count := while_ (replace_round q r) (0, 0) in
      on_ed lns_build ;!
      ret count
  end.

(** Spaces and tabs at the start of the [n] bytes from [i]. *)
Fixpoint indent_of (n : nat) (i acc : Z) : M ed Z :=
  match n with
  | O => ret acc
  | S n' =>
      let! c := rd i in
      if c =? 32 then indent_of n' (i + 1) (acc + 1)
      else if c =? 9 then indent_of n' (i + 1) (acc + TABW)
      else ret acc
  end.

Definition line_indent (line : Z) : M ed Z :=
  let! st := rd_ln line in
  let! en := line_end line in
  let! sz := gets e_sz in
  indent_of (Z.to_nat (Z.min en sz - st)) st 0.

Definition brackets (c : Z) : option (Z * Z * Z) :=
  if c =? 40 then Some (40, 41, 1)
  else if c =? 41 then Some (40, 41, -1)
  else if c =? 91 then Some (91, 93, 1)
  else if c =? 93 then Some (91, 93, -1)
  else if c =? 123 then Some (123, 125, 1)
  else if c =? 125 then Some (123, 125, -1)
  else None.

(** The loop of [find_match]; [n] bounds the places left. *)
Fixpoint seek_match (n : nat) (open close dir i depth : Z) : M ed Z :=
  match n with
  | O => ret (-1)
  | S n' =>
      let! sz := gets e_sz in
      if (0 <=? i) && (i <? sz) then
        let! c := rd i in
        let depth := if c =? open then depth + 1 else depth in
        let depth := if c =? close then depth - 1 else depth in
        if depth =? 0 then ret i else seek_match n' open close dir (i + dir) depth
      else ret (-1)
  end.

Definition find_match (pos : Z) : M ed Z :=
  let! sz := gets e_sz in
  if (pos <? 0) || (sz <=? pos) then ret (-1) else
  let! c := rd pos in
  match brackets c with
  | Some (open, close, dir) => seek_match (Z.to_nat sz + 1) open close dir (pos + dir) 1
  | None => ret (-1)
  end.

(** ** Drawing *)

Definition is_kw_start (c : Z) : bool := between c 97 122 || between c 65 90 || (c =? 95).
Definition is_kw_cont (c : Z) : bool := is_kw_start c || between c 48 57.

(** The words of the table, as they are written in the source. *)
Definition keywords : list (list Z) :=
  [[97; 117; 116; 111]; [98; 114; 101; 97; 107]; [99; 97; 115; 101]; [99; 104; 97; 114]; [99; 111; 110; 115; 116];
   [99; 111; 110; 116; 105; 110; 117; 101]; [100; 101; 102; 97; 117; 108; 116]; [100; 111]; [100; 111; 117; 98; 108; 101];
   [101; 108; 115; 101]; [101; 110; 117; 109]; [101; 120; 116; 101; 114; 110]; [102; 108; 111; 97; 116]; [102; 111; 114];
   [103; 111; 116; 111]; [105; 102]; [105; 110; 116]; [108; 111; 110; 103]; [114; 101; 103; 105; 115; 116; 101; 114];
   [114; 101; 116; 117; 114; 110]; [115; 104; 111; 114; 116]; [115; 105; 103; 110; 101; 100]; [115; 105; 122; 101; 111; 102];
   [115; 116; 97; 116; 105; 99]; [115; 116; 114; 117; 99; 116]; [115; 119; 105; 116; 99; 104]; [116; 121; 112; 101; 100; 101; 102];
   [117; 110; 105; 111; 110]; [117; 110; 115; 105; 103; 110; 101; 100]; [118; 111; 105; 100]; [118; 111; 108; 97; 116; 105; 108; 101];
   [119; 104; 105; 108; 101]; [35; 105; 110; 99; 108; 117; 100; 101]; [35; 100; 101; 102; 105; 110; 101]; [35; 105; 102; 100; 101; 102];
   [35; 105; 102; 110; 100; 101; 102]; [35; 101; 110; 100; 105; 102]; [35; 105; 102]; [35; 101; 108; 115; 101]; [35; 101; 108; 105; 102]].

(** [len] bytes of the text from [i]; reads of [strncmp] past the first difference
    are not made, so a word is read while it agrees. *)
Fixpoint kw_in (i len : Z) (ws : list (list Z)) : M ed bool :=
  match ws with
  | [] => ret false
  | w :: ws' =>
      if Z.of_nat (length w) =? len then
        let! m := matches i w in
        if m : bool then ret true else kw_in i len ws'
      else kw_in i len ws'
  end.
Definition is_c_keyword (i len : Z) : M ed bool := kw_in i len keywords.

Definition TUI_BLUE : Z := 1.
Definition TUI_GREEN : Z := 2.
Definition TUI_CYAN : Z := 3.
Definition TUI_RED : Z := 4.
Definition TUI_MAGENTA : Z := 5.
Definition TUI_LIGHT_GRAY : Z := 7.
Definition TUI_YELLOW : Z := 14.

Definition draw (c fg bg : Z) : G unit := let! w := eget w_text in on_tui (tui_win_addch_attr w c fg bg).

(** A do-while loop that divides by ten: the digits, last first. *)
Fixpoint rev_dec (fuel : nat) (n : Z) : list Z :=
  match fuel with
  | O => []
  | S fuel' => (48 + Z.rem n 10) :: (if Z.quot n 10 =? 0 then [] else rev_dec fuel' (Z.quot n 10))
  end.
Definition dec (n : Z) : list Z := rev (rev_dec 12 n).

Fixpoint draw_all (cs : list Z) (fg bg : Z) : G unit :=
  match cs with [] => skip | c :: cs' => draw c fg bg ;! draw_all cs' fg bg end.

(** The rest of a number: [i] is its last byte so far. *)
Fixpoint draw_number (n : nat) (i en col : Z) : G (Z * Z) :=
  match n with
  | O => ret (i, col)
  | S n' =>
      if (i + 1 <=? en) && (col <? COLS) then
        let! nc := on_ed (rd (i + 1)) in
        if between nc 48 57 || (nc =? 120) || (nc =? 88) || (nc =? 97) || (nc =? 102) || (nc =? 65) || (nc =? 70) then
          draw nc TUI_MAGENTA TUI_BLACK ;! draw_number n' (i + 1) en (col + 1)
        else ret (i, col)
      else ret (i, col)
  end.

(** The end of the word that starts at [ks]. *)
Fixpoint word_end (n : nat) (i ks en col : Z) : M ed Z :=
  match n with
  | O => ret i
  | S n' =>
      if i + 1 <=? en then
        let! c := rd (i + 1) in
        if is_kw_cont c && (col + (i - ks + 1) <? COLS) then word_end n' (i + 1) ks en col else ret i
      else ret i
  end.

(** [for (int j = 0; j < kwlen && col < COLS; j++)] *)
Fixpoint draw_word (n : nat) (i fg col : Z) : G Z :=
  match n with
  | O => ret col
  | S n' =>
      if col <? COLS then
        let! c := on_ed (rd i) in
        draw c fg TUI_BLACK ;! draw_word n' (i + 1) fg (col + 1)
      else ret col
  end.

(** [while (sp-- > 0 && col < COLS)] *)
Fixpoint draw_tab (n : nat) (col : Z) : G Z :=
  match n with
  | O => ret col
  | S n' => if col <? COLS then draw 32 TUI_WHITE TUI_BLACK ;! draw_tab n' (col + 1) else ret col
  end.

(** One character in a colour, and the next byte after it when the column is on the
    screen ([i] is advanced in both cases). *)
Definition draw_pair (c i col fg : Z) : G Z :=
  draw c fg TUI_BLACK ;!
  if col + 1 <? COLS then let! d := on_ed (rd (i + 1)) in draw d fg TUI_BLACK ;! ret (col + 2) else ret (col + 1).

(** [buf\[i + 1\]] is [d], tested after [i + 1 <= en]. *)
Definition next_is (i en d : Z) : G bool :=
  if i + 1 <=? en then let! c := on_ed (rd (i + 1)) in ret (c =? d) else ret false.

(** One round of the loop over a line: the byte [i], the column, the state of the
    highlighter (0 text, 1 string, 2 and 3 comments, 4 preprocessor). *)
Definition hl_round (en content_col : Z) : Z * Z * Z → G (Z * Z * Z + unit) := λ '(i, col, hl),
  if negb ((i <=? en) && (col <? COLS)) then ret (inr tt) else
  let! c := on_ed (rd i) in
  let one fg hl := draw c fg TUI_BLACK ;! ret (inl (i + 1, col + 1, hl)) in
  if c =? 9 then
    let! col := draw_tab (Z.to_nat (TABW - col mod TABW)) col in ret (inl (i + 1, col, hl))
  else if (hl =? 0) && (c =? 34) then one TUI_GREEN 1
  else if (hl =? 1) && (c =? 34) then one TUI_GREEN 0
  else if (hl =? 1) && (c =? 92) && (i + 1 <=? en) then
    let! col := draw_pair c i col TUI_GREEN in ret (inl (i + 2, col, hl))
  else if hl =? 1 then one TUI_GREEN hl
  else
  let! star := (if (hl =? 3) && (c =? 42) then next_is i en 47 else ret false) in
  if star : bool then
    let! col := draw_pair c i col TUI_RED in ret (inl (i + 2, col, 0))
  else if hl =? 3 then one TUI_RED hl
  else
  let! slash := (if c =? 47 then next_is i en 47 else ret false) in
  if slash : bool then one TUI_RED 2
  else
  let! opens := (if c =? 47 then next_is i en 42 else ret false) in
  if opens : bool then one TUI_RED 3
  else if hl =? 2 then one TUI_RED hl
  else if (c =? 35) && (col <=? content_col + 1) then one TUI_CYAN 4
  else if hl =? 4 then one TUI_CYAN hl
  else if between c 48 57 && negb (is_kw_start c) && (col <? COLS) then
    draw c TUI_MAGENTA TUI_BLACK ;!
    let! ic := draw_number (Z.to_nat COLS) i en (col + 1) in
    ret (inl (fst ic + 1, snd ic, hl))
  else if is_kw_start c then
    let! last := on_ed (word_end (Z.to_nat COLS) i i en col) in
    let kwlen := last - i + 1 in
    let! kw := on_ed (is_c_keyword i kwlen) in
    (* [C_KEYWORD] is two expressions: the value of the comma is the second. *)
    let fg := if kw : bool then TUI_BLACK else TUI_WHITE in
    let! col := draw_word (Z.to_nat kwlen) i fg col in
    ret (inl (last + 1, col, hl))
  else one TUI_WHITE hl.

Definition draw_line (r : Z) : G unit :=
  let! e := eget id in
  let li := e_top e + r in
  if e_nlns e <=? li then skip else
  let! st := on_ed (rd_ln li) in
  let! en := on_ed (line_end li) in
  on_tui (tui_win_gotoxy (w_text e) r 0) ;!
  let num := if nz (e_linenos e) then dec li ++ [32] else [] in
  draw_all num TUI_LIGHT_GRAY TUI_BLACK ;!
  let col := Z.of_nat (length num) in
  while_ (hl_round en col) (st, col, 0).

Definition gutter (e : ed) : Z :=
  if nz (e_linenos e) then Z.of_nat (length (dec (if 1 <? e_nlns e then e_nlns e else 1))) + 1 else 0.

(** A bracket in white on blue. *)
Definition draw_bracket (pos g : Z) : G unit :=
  let! xy := on_ed (off_xy pos) in
  let! e := eget id in
  let sr := snd xy - e_top e in
  if (0 <=? sr) && (sr <? ROWS) then
    on_tui (tui_win_gotoxy (w_text e) sr (fst xy + g)) ;!
    let! c := on_ed (rd pos) in
    draw c TUI_WHITE TUI_BLUE
  else skip.

(** ** The status line *)

(** [char sb\[COLS + 1\]]: what is written so far. *)
Definition sb_put (sb : list Z) (c : Z) : G (list Z) := assert_ (Z.of_nat (length sb) <? COLS + 1) ;! ret (sb ++ [c]).
Fixpoint sb_puts (sb cs : list Z) : G (list Z) :=
  match cs with [] => ret sb | c :: cs' => let! sb := sb_put sb c in sb_puts sb cs' end.
Definition room_left (sb : list Z) : bool := Z.of_nat (length sb) <? COLS.
(** [for (...; i >= 0 && l < COLS; i--)]: as many as fit. *)
Definition fitting_part (sb cs : list Z) : list Z := take (Z.to_nat (COLS - Z.of_nat (length sb))) cs.

Definition status_text : G (list Z) :=
  let! e := eget id in
  match e_msg e with
  | _ :: _ => ret (take (Z.to_nat COLS) (e_msg e))
  | [] =>
      let sb := take (Z.to_nat COLS) (e_fname e) in
      let! sb := (if nz (e_mod e) && room_left sb then sb_put sb 42 else ret sb) in
      let! sb := (if room_left sb then sb_put sb 32 else ret sb) in
      let! sb := sb_puts sb (fitting_part sb (dec (e_cx e + 1))) in
      let! sb := (if room_left sb then sb_put sb 47 else ret sb) in
      let! sb := sb_puts sb (fitting_part sb (dec (e_cy e + 1))) in
      let! sb := (if room_left sb then sb_puts sb [32; 76; 110] else ret sb) in
      let! sb := sb_puts sb (fitting_part sb (dec (e_nlns e))) in
      sb_put sb 0 ;!
      ret sb
  end.

Definition mode_text (e : ed) : list Z := if nz (e_overwrite e) then [32; 79; 86; 82] else [32; 73; 78; 83].

Definition help_short : list Z :=
  [94; 79; 32; 83; 97; 118; 101; 32; 32; 94; 88; 32; 69; 120; 105; 116; 32; 32; 94; 71; 32; 72; 101; 108; 112; 32; 32;
   94; 70; 32; 70; 105; 110; 100; 32; 32; 94; 67; 32; 67; 109; 100].
Definition help_long : list Z :=
  [94; 79; 32; 83; 97; 118; 101; 32; 32; 94; 88; 32; 69; 120; 105; 116; 32; 32; 94; 71; 32; 72; 101; 108; 112; 32; 32;
   94; 83; 32; 82; 101; 112; 108; 97; 99; 101; 32; 32; 94; 70; 32; 70; 105; 110; 100; 32; 32; 94; 67; 32; 67; 109; 100; 32; 32;
   94; 90; 32; 85; 110; 100; 111; 32; 32; 94; 74; 32; 71; 111; 76; 110; 32; 32; 94; 87; 32; 67; 117; 116; 32; 32;
   94; 89; 32; 80; 97; 115; 116; 101; 32; 32; 94; 75; 32; 75; 105; 108; 108; 32; 32; 70; 50; 32; 76; 110; 35].

Definition draw_status : G unit :=
  let! e := eget id in
  let w := w_status e in
  on_tui (tui_win_clear w ;! tui_win_color w TUI_WHITE TUI_BLUE) ;!
  let! sb := status_text in
  let sb := sb ++ replicate (Z.to_nat (COLS - Z.of_nat (length sb))) 32 in
  on_tui (
    tui_win_gotoxy w 0 0 ;!
    tui_win_addstr w sb ;!
    tui_win_gotoxy w 0 (COLS - 6) ;!
    tui_win_addstr w (mode_text e) ;!
    tui_win_fill (w_help e) 32 ;!
    tui_win_color (w_help e) TUI_WHITE TUI_BLACK ;!
    tui_win_gotoxy (w_help e) 0 0 ;!
    tui_win_addstr (w_help e) (if nz (e_help e) then help_long else help_short)).

(** The cursor: the row is sent in full, of the column one digit (the loop tests the
    other variable). *)
Definition cursor_bytes (e : ed) (g : Z) : list Z :=
  let sr := e_cy e - e_top e in
  let sr := if sr <? 0 then 0 else sr in
  let sr := if ROWS <=? sr then ROWS - 1 else sr in
  [27; 91] ++ dec (sr + 1) ++ [59] ++ [48 + Z.rem (e_cx e + g + 1) 10] ++ [72].

Definition screen : G unit :=
  let! e := eget id in
  on_tui (tui_win_clear (w_text e)) ;!
  let g := gutter e in
  let! m := on_ed (find_match (e_co e)) in
  for_up (Z.to_nat ROWS) 0 draw_line ;!
  (if 0 <=? m then draw_bracket (e_co e) g ;! draw_bracket m g else skip) ;!
  draw_status ;!
  on_tui (tui_refresh ;! out (cursor_bytes e g)).

(** ** Prompts, buffers, lines *)

(** The line typed at the prompt and the result: -1 after escape. *)
Definition ask_round (q : list Z) (max : Z) : list Z * Z → G (list Z * Z + list Z * Z) := λ '(buf, p),
  let! w := eget w_status in
  on_tui (
    tui_win_clear w ;!
    tui_win_color w TUI_WHITE TUI_BLUE ;!
    tui_win_gotoxy w 0 0 ;!
    tui_win_addstr w q ;!
    (if 0 <? p then tui_win_addstr w (cstring buf) else skip) ;!
    tui_refresh ;!
    let! k := tui_getch in
    if k =? TUI_KEY_ENTER then let! buf := set_byte buf p 0 in ret (inr (buf, p)) else
    if k =? TUI_KEY_ESC then let! buf := set_byte buf 0 0 in ret (inr (buf, -1)) else
    let! bp := (if ((k =? TUI_KEY_BS) || (k =? 127)) && (0 <? p)
                then let! buf := set_byte buf (p - 1) 0 in ret (buf, p - 1) else ret (buf, p)) in
    let '(buf, p) := bp in
    if (32 <=? k) && (k <=? 126) && (p <? max - 1) then
      let! buf := set_byte buf p k in
      let! buf := set_byte buf (p + 1) 0 in
      ret (inl (buf, p + 1))
    else ret (inl (buf, p))).

(** [prompt(q, out, max)] with an array of [size] bytes: the string and the result. *)
Definition prompt (q : list Z) (size max : Z) : G (list Z * Z) :=
  let! b := eget e_junk in
  let! r := while_ (ask_round q max) (replicate (Z.to_nat max) 0 ++ replicate (Z.to_nat (size - max)) b, 0) in
  ret (cstring (fst r), snd r).

Definition swap_buf : M ed unit :=
  modify (λ e, set_second (e_buf e) (e_sz e) (set_text (e_buf2 e) (e_sz2 e) e)).

(** [for (i = st; i <= en && i < sz && clip_len < 4095; i++) clip\[clip_len++\] = buf\[i\];] *)
Fixpoint copy_clip (n : nat) (i : Z) : M ed unit :=
  match n with
  | O => skip
  | S n' =>
      let! k := gets e_clip_len in
      if k <? 4095 then
        let! c := rd i in
        put_at e_clip (λ l e, set_clip l (e_clip_len e) e) k c ;!
        modify (λ e, set_clip (e_clip e) (k + 1) e) ;!
        copy_clip n' (i + 1)
      else skip
  end.
Definition cut (st n : Z) : M ed unit :=
  modify (λ e, set_clip (e_clip e) 0 e) ;!
  copy_clip (Z.to_nat n) st ;!
  let! k := gets e_clip_len in
  put_at e_clip (λ l e, set_clip l (e_clip_len e) e) k 0.

Definition kill_line : M ed unit :=
  let! e := gets id in
  if e_nlns e <=? e_cy e then skip else
  let! st := rd_ln (e_cy e) in
  let! en := line_end (e_cy e) in
  let sz := e_sz e in
  let len := Z.min (en + 1) sz - st in
  cut st len ;!
  for_up (Z.to_nat len) 0 (λ _, let! c := rd st in push_undo st c 0) ;!
  let n := en - st + 1 in
  let n := if sz <? n then sz else n in
  for_up (Z.to_nat (sz - n - st)) st (λ i, let! c := rd (i + n) in wr i c) ;!
  set_size (λ k, k - n) ;!
  modify (set_mod 1) ;!
  lns_build ;!
  let! co := xy_off (e_cx e) (e_cy e) in
  modify (λ e, set_co (if e_sz e <? co then e_sz e else co) e).

(** The longest front part of a list all of whose elements satisfy [p], and the rest. *)
Fixpoint span_while (p : Z → bool) (l : list Z) : list Z * list Z :=
  match l with
  | [] => ([], [])
  | c :: l' => if p c then let '(x, y) := span_while p l' in (c :: x, y) else ([], l)
  end.

(** ** Files *)

(** [fs_read] gives at most the asked number of bytes, [None] when the file cannot be
    opened; [fs_write] replaces a file. *)
Class Files := {
  fs : Type;
  fs_stat : list Z → fs → option Z;
  fs_read : list Z → Z → fs → option (list Z);
  fs_write : list Z → list Z → fs → option fs }.

Section program.
Context `{Files}.

Abbreviation P := (M (ed * world * fs)).
Definition ed_part {A} (m : G A) : P A := zoom fst (λ g s, (g, snd s)) m.
Definition ed_only {A} (m : M ed A) : P A := ed_part (on_ed m).

Definition empty_text : M ed unit := set_size (λ _, 0) ;! modify (set_mod 0) ;! lns_build.

Definition too_large : list Z := [70; 105; 108; 101; 32; 116; 111; 111; 32; 108; 97; 114; 103; 101].
Definition saved : list Z := [83; 97; 118; 101; 100].
Definition save_failed : list Z := [83; 97; 118; 101; 32; 102; 97; 105; 108; 101; 100].

Definition load (fn : list Z) : P unit :=
  ed_only (modify (set_fname (take 255 fn))) ;!
  let! f := gets snd in
  match fs_stat fn f with
  | None => ed_only empty_text
  | Some size =>
      if 0x3FFFFFFF <? size then ed_only (sts too_large ;! empty_text) else
      let! g := ed_part (grow (size + 4096)) in
      if g <? 0 then ed_only empty_text else
      ed_only (set_size (λ _, 0)) ;!
      let! cap := ed_part (eget (λ e, Z.of_nat (length (e_buf e)))) in
      (match fs_read fn (cap - 1) f with
       | None => skip
       | Some bs => ed_only (modify (λ e, set_text (bs ++ drop (length bs) (e_buf e)) (Z.of_nat (length bs)) e))
       end) ;!
      ed_only (modify (set_mod 0) ;! lns_build)
  end.

Definition save : P unit :=
  let! e := ed_part (eget id) in
  let! f := gets snd in
  match fs_write (e_fname e) (take (Z.to_nat (e_sz e)) (e_buf e)) f with
  | None => ed_only (sts save_failed)
  | Some f' => modify (λ s, (fst s, f')) ;! ed_only (modify (set_mod 0) ;! sts saved)
  end.

(** ** The keys *)

Definition ctrl (c : Z) : Z := c - 64.

Definition TUI_KEY_TAB : Z := 9.
Definition TUI_KEY_DOWN : Z := 301.
Definition TUI_KEY_LEFT : Z := 302.
Definition TUI_KEY_RIGHT : Z := 303.
Definition TUI_KEY_F2 : Z := 311.

(** [if (cx >= COLS) { cx = 0; cy++; }] *)
Definition wrap_cursor : M ed unit := modify (λ e, if COLS <=? e_cx e then set_xy 0 (e_cy e + 1) e else e).

Definition goto_xy : M ed unit :=
  let! e := gets id in
  let! o := xy_off (e_cx e) (e_cy e) in
  modify (set_co o).

(** [for (i = co; ...)]: the end of the word to cut. *)
Fixpoint skip_while (n : nat) (i : Z) (p : Z → bool) : M ed Z :=
  match n with
  | O => ret i
  | S n' => let! c := rd i in if p c then skip_while n' (i + 1) p else ret i
  end.

Definition cut_word : M ed unit :=
  let! e := gets id in
  if e_co e <? e_sz e then
    let! a := skip_while (Z.to_nat (e_sz e - e_co e)) (e_co e) (λ c, c =? 32) in
    let! b := skip_while (Z.to_nat (e_sz e - a)) a (λ c, negb (c =? 32) && negb (c =? 10)) in
    cut (e_co e) (b - e_co e) ;!
    for_up (Z.to_nat (b - e_co e)) 0 (λ _, del (e_co e)) ;!
    lns_build ;!
    set_cursor_at (e_co e)
  else skip.

(** [for (i = 0; i < clip_len; i++) ins(co + i, clip\[i\]);] *)
Definition paste : G unit :=
  let! e := eget id in
  for_up (Z.to_nat (e_clip_len e)) 0 (λ i,
    let! c := at_index (e_clip e) i in ins (e_co e + i) c) ;!
  on_ed (
    modify (λ s, set_xy (e_cx s + e_clip_len e) (e_cy s) (set_co (e_co s + e_clip_len e) s)) ;!
    lns_build ;!
    wrap_cursor).

Definition key_kill : M ed unit :=
  kill_line ;!
  modify (λ e, if (e_nlns e <=? e_cy e) && (0 <? e_cy e) then set_xy (e_cx e) (e_cy e - 1) e else e) ;!
  modify (λ e, if e_sz e <? e_co e then set_co (e_sz e) e else e).

Definition key_undo : G unit :=
  let! u := undo_one in
  if nz u then on_ed (lns_build ;! (let! co := gets e_co in set_cursor_at co) ;! sts [85; 110; 100; 111])
  else on_ed (sts [78; 111; 116; 104; 105; 110; 103; 32; 116; 111; 32; 117; 110; 100; 111]).

Definition key_enter : G unit :=
  let! e := eget id in
  ins (e_co e) 10 ;!
  let! ind := (if e_cy e + 1 <? e_nlns e then on_ed (line_indent (e_cy e)) else ret 0) in
  for_up (Z.to_nat ind) 0 (λ i, ins (e_co e + 1 + i) 32) ;!
  on_ed (lns_build ;! set_cursor_at (e_co e + 1 + ind) ;! follow_cursor).

Definition key_tab : G unit :=
  let! e := eget id in
  let sp := TABW - Z.rem (e_cx e) TABW in
  let sp := if sp <=? 0 then TABW else sp in
  for_up (Z.to_nat sp) 0 (λ i, ins (e_co e + i) 32) ;!
  on_ed (modify (λ e, set_xy (e_cx e + sp) (e_cy e) (set_co (e_co e + sp) e)) ;! wrap_cursor ;! lns_build).

Definition key_char (k : Z) : G unit :=
  let! e := eget id in
  let! over := (if nz (e_overwrite e) && (e_co e <? e_sz e) then let! c := on_ed (rd (e_co e)) in ret (negb (c =? 10)) else ret false) in
  (if over : bool then on_ed (wr (e_co e) k ;! modify (set_mod 1)) else ins (e_co e) k) ;!
  on_ed (
    modify (λ e, set_xy (e_cx e + 1) (e_cy e) (set_co (e_co e + 1) e)) ;!
    (if over then skip else lns_build) ;!
    wrap_cursor ;!
    follow_cursor).

(** The [switch] of the main loop. *)
Definition edit_key (k : Z) : G unit :=
  let! e := eget id in
  if k =? TUI_KEY_F2 then
    on_ed (modify (λ e, set_linenos (if nz (e_linenos e) then 0 else 1) e) ;!
      sts (if nz (e_linenos e) then [76; 105; 110; 101; 32; 110; 117; 109; 98; 101; 114; 115; 32; 111; 102; 102]
           else [76; 105; 110; 101; 32; 110; 117; 109; 98; 101; 114; 115; 32; 111; 110]))
  else if k =? TUI_KEY_INS then
    on_ed (modify (λ e, set_overwrite (if nz (e_overwrite e) then 0 else 1) e) ;!
      sts (if nz (e_overwrite e) then [73; 110; 115; 101; 114; 116] else [79; 118; 101; 114; 119; 114; 105; 116; 101]))
  else if k =? TUI_KEY_UP then
    if 0 <? e_cy e then on_ed (modify (set_xy (e_cx e) (e_cy e - 1)) ;! goto_xy) else skip
  else if k =? TUI_KEY_DOWN then
    if e_cy e + 1 <? e_nlns e then on_ed (modify (set_xy (e_cx e) (e_cy e + 1)) ;! goto_xy) else skip
  else if k =? TUI_KEY_LEFT then
    if 0 <? e_co e then on_ed (modify (set_co (e_co e - 1)) ;! set_cursor_at (e_co e - 1)) else skip
  else if k =? TUI_KEY_RIGHT then
    if e_co e <? e_sz e then on_ed (modify (set_co (e_co e + 1)) ;! set_cursor_at (e_co e + 1)) else skip
  else if k =? TUI_KEY_HOME then
    on_ed (let! o := rd_ln (e_cy e) in modify (λ e, set_co o (set_xy 0 (e_cy e) e)))
  else if k =? TUI_KEY_END then
    on_ed (
      let! nl := line_end (e_cy e) in
      let! st := rd_ln (e_cy e) in
      let o := if nl <? st then st else nl in
      modify (set_co o) ;! set_cursor_at o)
  else if k =? TUI_KEY_PGUP then
    let top := e_top e - ROWS in
    let cy := e_cy e - ROWS in
    on_ed (modify (λ e, set_top (if top <? 0 then 0 else top) (set_xy (e_cx e) (if cy <? 0 then 0 else cy) e)) ;! goto_xy)
  else if k =? TUI_KEY_PGDN then
    let top := e_top e + ROWS in
    let top := if e_nlns e <? top + ROWS then (if e_nlns e <? ROWS then 0 else e_nlns e - ROWS) else top in
    let top := if top <? 0 then 0 else top in
    let cy := e_cy e + ROWS in
    on_ed (modify (λ e, set_top top (set_xy (e_cx e) (if e_nlns e <=? cy then e_nlns e - 1 else cy) e)) ;! goto_xy)
  else if k =? TUI_KEY_DEL then
    if e_co e <? e_sz e then on_ed (del (e_co e) ;! lns_build ;! goto_xy) else skip
  else if k =? TUI_KEY_BS then
    if 0 <? e_co e then
      on_ed (del (e_co e - 1) ;! modify (set_co (e_co e - 1)) ;! lns_build ;! set_cursor_at (e_co e - 1))
    else skip
  else if k =? TUI_KEY_ENTER then key_enter
  else if k =? TUI_KEY_TAB then key_tab
  else if (32 <=? k) && (k <=? 126) then key_char k
  else skip.

(** [if (co > sz) co = sz; if (co < 0) co = 0;] *)
Definition clamp : M ed unit :=
  modify (λ e, if e_sz e <? e_co e then set_co (e_sz e) e else e) ;!
  modify (λ e, if e_co e <? 0 then set_co 0 e else e).

Definition key_replace : P unit :=
  let! q := ed_part (prompt [82; 101; 112; 108; 97; 99; 101; 58; 32] 128 127) in
  if snd q <=? 0 then skip else
  let! r := ed_part (prompt [87; 105; 116; 104; 58; 32] 128 127) in
  if 0 <? snd r then
    let! n := ed_part (replace (fst q) (fst r)) in
    ed_only (sts (dec n ++ [32; 114; 101; 112; 108; 97; 99; 101; 100]))
  else skip.

(** [atoi] of the line typed. *)
Definition atoi_text (q : list Z) : Z :=
  let q := snd (span_while (λ c, c =? 32) q) in
  let '(neg, q) := match q with c :: q' => if c =? 45 then (true, q') else if c =? 43 then (false, q') else (false, q) | [] => (false, q) end in
  let n := foldl (λ acc c, s32 (acc * 10 + (c - 48))) 0 (fst (span_while (λ c, between c 48 57) q)) in
  if neg : bool then s32 (- n) else n.

Definition key_goto : P unit :=
  let! q := ed_part (prompt [71; 111; 32; 108; 105; 110; 101; 58; 32] 16 15) in
  if 0 <? snd q then
    ed_only (
      let n := atoi_text (fst q) - 1 in
      let! k := gets e_nlns in
      let n := if n <? 0 then 0 else n in
      let n := if k <=? n then k - 1 else n in
      let! o := rd_ln n in
      modify (λ e, set_co o (set_xy 0 n e)) ;!
      follow_cursor)
  else skip.

Definition key_command : P bool :=
  let! q := ed_part (prompt [67; 109; 100; 58; 32] 128 127) in
  if 0 <? snd q then
    if bool_decide (fst q = [113]) then ret true else
    (if bool_decide (take 2 (fst q) = [119; 32]) then ed_only (modify (set_fname (take 255 (drop 2 (fst q))))) ;! save else skip) ;!
    ed_only (sts (fst q)) ;!
    ret false
  else ret false.

Definition key_find : P unit :=
  let! q := ed_part (prompt [70; 105; 110; 100; 58; 32] 128 127) in
  if 0 <? snd q then ed_only (let! co := gets e_co in find (fst q) co ;! skip) else skip.

Definition key_help : M ed unit :=
  let! h := gets e_help in
  modify (set_help (if nz h then 0 else 1)) ;!
  sts (if nz h then [] else [72; 101; 108; 112; 32; 115; 104; 111; 119; 110]).

Definition key_swap : M ed unit :=
  swap_buf ;!
  let! a := gets e_active in
  sts (if nz a then [66; 117; 102; 102; 101; 114; 32; 49] else [66; 117; 102; 102; 101; 114; 32; 50]) ;!
  modify (set_active (if nz a then 0 else 1)).

(** One round of the main loop: [inr] leaves it. *)
Definition main_round (_ : unit) : P (unit + unit) :=
  ed_part screen ;!
  let! k := ed_part (on_tui tui_getch) in
  ed_only (modify (λ e, set_msg (if 1000000 <? e_msg_age e + 1 then [] else e_msg e) (e_msg_age e + 1) e)) ;!
  let again (m : P unit) : P (unit + unit) := m ;! ret (inl tt) in
  if k =? ctrl 88 then ret (inr tt)
  else if k =? ctrl 71 then again (ed_only key_help)
  else if k =? ctrl 79 then again save
  else if k =? ctrl 70 then again key_find
  else if k =? ctrl 82 then again key_replace
  else if k =? ctrl 74 then again key_goto
  else if k =? ctrl 90 then again (ed_part key_undo)
  else if k =? ctrl 87 then again (ed_only cut_word)
  else if k =? ctrl 89 then again (ed_part paste)
  else if k =? ctrl 75 then again (ed_only key_kill)
  else if k =? ctrl 84 then again (ed_only key_swap)
  else if k =? ctrl 67 then
    let! q := key_command in
    if q : bool then ret (inr tt) else ret (inl tt)
  else again (ed_part (edit_key k) ;! ed_only clamp).

Definition new_file : list Z := [78; 101; 119; 32; 102; 105; 108; 101].

(** [main] with the name of a file or without; the result is the exit status. *)
Definition main (file : option (list Z)) : P Z :=
  let! ok := ed_part (on_tui tui_init) in
  if negb ok then ret 1 else
  let! wt := ed_part (on_tui (tui_win_new 0 0 80 23 0)) in
  let! ws := ed_part (on_tui (tui_win_new 0 23 80 1 0)) in
  let! wh := ed_part (on_tui (tui_win_new 0 24 80 1 0)) in
  ed_only (modify (set_windows3 wt ws wh)) ;!
  if (wt =? 0) || (ws =? 0) || (wh =? 0) then ed_part (on_tui tui_end) ;! ret 1 else
  ed_part (on_tui (out [27; 91; 63; 50; 53; 108])) ;!
  (match file with
   | Some fn => load fn
   | None => ed_only (set_size (λ _, 0) ;! lns_build ;! sts new_file)
   end) ;!
  ed_only (let! co := gets e_co in set_cursor_at co) ;!
  while_ main_round tt ;!
  ed_part (on_tui tui_end) ;!
  ret 0.
End program.
