(* ===== verification/GraphyProof.v ===== *)
(** * GraphyProof: the editing operations of [graphy.c]

    The text of the editor ([tx]) is the used part of its buffer; the operations on
    the buffer are proved against operations on lists, the circular undo stack
    against a list ([undos]), the line table against the starts of lines. *)

From Stdlib Require Import ZArith Lia.
From stdpp Require Import gmap list prelude.
From S2P Require Import Prelude Libc LibcAlloc Stdio Tui TuiProof Graphy.

Open Scope Z_scope.

(** ** The editor's state *)

Definition tx (e : ed) : list Z := take (Z.to_nat (e_sz e)) (e_buf e).

Record ewf (e : ed) : Prop := mkEwf {
  ewf_sz : 0 ≤ e_sz e ≤ Z.of_nat (length (e_buf e));
  ewf_lns : length (e_lns e) = Z.to_nat 4096;
  ewf_undo : length (e_undo e) = Z.to_nat 512;
  ewf_head : 0 ≤ e_head e < 512;
  ewf_count : 0 ≤ e_count e ≤ 512;
  ewf_clip : length (e_clip e) = Z.to_nat 4096 }.

Lemma tx_length e : ewf e → Z.of_nat (length (tx e)) = e_sz e.
Proof. intros [? _ _ _ _ _]. unfold tx. rewrite length_take. lia. Qed.

(** The buffer is the text and what follows it. *)
Lemma buf_split e : ewf e → ∃ rest, e_buf e = tx e ++ rest.
Proof. intros _. exists (drop (Z.to_nat (e_sz e)) (e_buf e)). unfold tx. by rewrite take_drop. Qed.

Lemma tx_app e t rest : ewf e → e_buf e = t ++ rest → e_sz e = Z.of_nat (length t) → tx e = t.
Proof. intros _ Eb Es. unfold tx. rewrite Es, Nat2Z.id, Eb. apply take_app_length. Qed.

Lemma at_index_mid {St A} (l1 l2 : list A) x i (s : St) :
  i = Z.of_nat (length l1) → at_index (l1 ++ x :: l2) i s = Some (x, s).
Proof.
  intros ->. unfold at_index. replace (0 <=? Z.of_nat (length l1)) with true by (symmetry; apply Z.leb_le; lia). rewrite Nat2Z.id. by rewrite list_lookup_middle.
Qed.

Lemma updated_mid {A} (l1 l2 : list A) x y i :
  i = Z.of_nat (length l1) → updated (l1 ++ x :: l2) i y = Some (l1 ++ y :: l2).
Proof.
  intros ->. rewrite updated_in by (rewrite length_app; simpl; lia). rewrite Nat2Z.id.
  by rewrite insert_app_r_alt, Nat.sub_diag by lia.
Qed.

Lemma rd_mid e b1 x b2 i : e_buf e = b1 ++ x :: b2 → i = Z.of_nat (length b1) → rd i e = Some (x, e).
Proof. intros Eb Ei. unfold rd, bind, gets. rewrite Eb. by apply at_index_mid. Qed.

Lemma wr_mid e b1 x b2 i c :
  e_buf e = b1 ++ x :: b2 → i = Z.of_nat (length b1) → wr i c e = Some (tt, set_text (b1 ++ c :: b2) (e_sz e) e).
Proof. intros Eb Ei. unfold wr, put_at. rewrite Eb. by rewrite (updated_mid b1 b2 x c i Ei). Qed.

Lemma shift_right_run t : ∀ e b1 x b3,
  e_buf e = b1 ++ t ++ x :: b3 →
  ∃ h, shift_right (length t) (Z.of_nat (length b1)) e = Some (tt, set_text (b1 ++ h :: t ++ b3) (e_sz e) e).
Proof.
  induction t as [|z t IH] using rev_ind; intros e b1 x b3 Eb; simpl in Eb.
  { exists x. simpl. unfold skip, ret. rewrite <- Eb. by destruct e. }
  rewrite length_app. simpl (length t + length [z])%nat. replace (length t + 1)%nat with (S (length t)) by lia.
  simpl shift_right. unfold bind.
  rewrite (rd_mid e (b1 ++ t) z (x :: b3)); [|by rewrite Eb, <- !app_assoc|rewrite length_app; lia].
  rewrite (wr_mid e (b1 ++ t ++ [z]) x b3); [|by rewrite Eb, <- !app_assoc|rewrite !length_app; simpl; lia].
  destruct (IH (set_text ((b1 ++ t ++ [z]) ++ z :: b3) (e_sz e) e) b1 z (z :: b3)) as [h E];
    [by rewrite <- !app_assoc|].
  exists h. rewrite E. simpl. by rewrite <- !app_assoc.
Qed.

Lemma shift_left_buf t : ∀ e b1 c b3,
  e_buf e = b1 ++ c :: t ++ b3 →
  ∃ h, for_up (length t) (Z.of_nat (length b1)) (λ i, let! c := rd (i + 1) in wr i c) e =
    Some (tt, set_text (b1 ++ t ++ h :: b3) (e_sz e) e).
Proof.
  induction t as [|d t IH]; intros e b1 c b3 Eb; simpl for_up.
  { exists c. simpl in *. unfold skip, ret. rewrite <- Eb. by destruct e. }
  unfold bind at 1 2. rewrite (rd_mid e (b1 ++ [c]) d (t ++ b3)); [|by rewrite Eb, <- app_assoc|rewrite length_app; simpl; lia].
  rewrite (wr_mid e b1 c ((d :: t) ++ b3)); [|done|done].
  destruct (IH (set_text (b1 ++ d :: (d :: t) ++ b3) (e_sz e) e) (b1 ++ [d]) d b3) as [h E]; [by rewrite <- app_assoc|].
  exists h. replace (Z.of_nat (length b1) + 1) with (Z.of_nat (length (b1 ++ [d]))) by (rewrite length_app; simpl; lia).
  rewrite E. simpl. by rewrite <- app_assoc.
Qed.

(** ** The undo stack *)

(** The entries, oldest first. *)
Definition undo_list (u : list (Z * Z * Z)) (h k : Z) : list (Z * Z * Z) :=
  map (λ i, nth (Z.to_nat ((h + i) mod 512)) u (0, 0, 0)) (seqZ 0 k).
Definition undos (e : ed) : list (Z * Z * Z) := undo_list (e_undo e) (e_head e) (e_count e).

Lemma undo_list_length u h k : 0 ≤ k → Z.of_nat (length (undo_list u h k)) = k.
Proof. intros. unfold undo_list. rewrite length_map, length_seqZ. lia. Qed.

Lemma undo_list_snoc u h k :
  0 ≤ k → undo_list u h (k + 1) = undo_list u h k ++ [nth (Z.to_nat ((h + k) mod 512)) u (0, 0, 0)].
Proof. intros Hk. unfold undo_list. rewrite seqZ_app by lia. by rewrite map_app, Z.add_0_l, (seqZ_cons k 1) by lia. Qed.

(** What an edit leaves alone: everything but text, size, modification and undo. *)
Definition edited (e : ed) (u : list (Z * Z * Z)) (h c : Z) (b : list Z) (sz : Z) : ed :=
  set_mod 1 (set_text b sz (set_undo u h c e)).

Lemma slot_other (n i j : Z) (A : Type) (l : list A) (x d : A) :
  0 ≤ i < 512 → 0 ≤ j < 512 → i ≠ j → length l = Z.to_nat 512 →
  nth (Z.to_nat i) (<[Z.to_nat j := x]> l) d = nth (Z.to_nat i) l d.
Proof. intros. rewrite !nth_lookup, list_lookup_insert_ne; [done|lia]. Qed.

Lemma push_undo_run e pos c ins :
  ewf e → ∃ u h k, push_undo pos c ins e = Some (tt, set_undo u h k e) ∧ ewf (set_undo u h k e) ∧
    0 < k ∧ undos (set_undo u h k e) = (if decide (e_count e < 512) then undos e else drop 1 (undos e)) ++ [(pos, c, ins)].
Proof.
  intros [Hs Hl Hu Hh Hk Hc]. unfold push_undo, bind, gets, id, UNDO_MAX.
  destruct (Z.ltb_spec (e_count e) 512) as [Hlt|Hge].
  - rewrite decide_True by done. set (j := (e_head e + e_count e) mod 512).
    assert (Hj : 0 ≤ j < 512) by (apply Z.mod_pos_bound; lia).
    unfold put_at, modify. rewrite updated_in by (rewrite Hu; lia). simpl.
    exists (<[Z.to_nat j := (pos, c, ins)]> (e_undo e)), (e_head e), (e_count e + 1). split; [done|].
    split; [split; simpl; rewrite ?length_insert; try done; lia|]. split; [lia|].
    unfold undos. simpl. rewrite undo_list_snoc by lia. f_equal.
    + apply map_ext_in. intros i Hi. apply list_elem_of_In, elem_of_seqZ in Hi.
      rewrite (slot_other 0); [done|apply Z.mod_pos_bound; lia|done| |done]. subst j. intros E.
      assert (e_head e + i = e_head e + e_count e ∨ e_head e + e_count e - (e_head e + i) = 512) as [|]; [|lia|lia].
      revert E. Z.div_mod_to_equations. nia.
    + f_equal. fold j. rewrite nth_lookup, list_lookup_insert_eq; [done|lia].
  - rewrite decide_False by lia. assert (Ek : e_count e = 512) by lia. unfold modify. simpl.
    set (h := (e_head e + 1) mod 512). assert (Hh' : 0 ≤ h < 512) by (apply Z.mod_pos_bound; lia).
    set (j := (h + e_count e - 1) mod 512). assert (Hj : 0 ≤ j < 512) by (apply Z.mod_pos_bound; lia).
    unfold put_at. simpl. rewrite updated_in by (rewrite Hu; lia).
    exists (<[Z.to_nat j := (pos, c, ins)]> (e_undo e)), h, (e_count e). split; [done|].
    split; [split; simpl; rewrite ?length_insert; try done; lia|]. split; [lia|].
    unfold undos. simpl. rewrite Ek. change 512 with (511 + 1) at 1. rewrite undo_list_snoc by lia. f_equal.
    + unfold undo_list. rewrite (seqZ_cons 0 512) by lia. cbn [map drop].
      change (Z.succ 0) with (1 + 0). change (Z.pred 512) with 511. rewrite <- (fmap_add_seqZ 1 0 511), map_map.
      apply map_ext_in. intros i Hi. apply list_elem_of_In, elem_of_seqZ in Hi.
      assert (Ei : (h + i) mod 512 = (e_head e + (1 + i)) mod 512) by (subst h; rewrite Zplus_mod_idemp_l; f_equal; lia).
      rewrite (slot_other 0); [by rewrite Ei|apply Z.mod_pos_bound; lia|done| |done].
      subst j. rewrite Ek. clear Ei. Z.div_mod_to_equations. lia.
    + f_equal. rewrite nth_lookup. replace ((h + 511) mod 512) with j by (subst j; rewrite Ek; f_equal; lia).
      rewrite list_lookup_insert_eq; [done|lia].
Qed.

(** ** Inserting and deleting *)

(** The stack after one more entry: the oldest is lost when it is full. *)
Definition kept (e : ed) : list (Z * Z * Z) := if decide (e_count e < 512) then undos e else drop 1 (undos e).
Definition pushed (e : ed) (x : Z * Z * Z) : list (Z * Z * Z) := kept e ++ [x].

(** [e'] differs from [e] in text, undo stack and modification only. *)
Definition same_place (e e' : ed) : Prop :=
  ∃ b sz u h k m, e' = set_mod m (set_text b sz (set_undo u h k e)).

Lemma same_place_refl e : same_place e e.
Proof. exists (e_buf e), (e_sz e), (e_undo e), (e_head e), (e_count e), (e_mod e). by destruct e. Qed.
Lemma same_place_trans e e1 e2 : same_place e e1 → same_place e1 e2 → same_place e e2.
Proof. intros (b & sz & u & h & k & m & ->) (b' & sz' & u' & h' & k' & m' & ->). by exists b', sz', u', h', k', m'. Qed.

Lemma del_run e t1 c t2 :
  ewf e → tx e = t1 ++ c :: t2 →
  ∃ e', del (Z.of_nat (length t1)) e = Some (tt, e') ∧ ewf e' ∧ tx e' = t1 ++ t2 ∧
    undos e' = pushed e (Z.of_nat (length t1), c, 0) ∧ same_place e e' ∧ e_count e' = Z.min (e_count e + 1) 512 ∧
    length (e_buf e') = length (e_buf e).
Proof.
  intros W Et. destruct (buf_split e W) as [rest Eb]. rewrite Et, <- app_assoc in Eb. simpl in Eb.
  pose proof (tx_length e W) as Hs. rewrite Et, length_app in Hs. simpl in Hs.
  unfold del, bind at 1, gets. replace ((Z.of_nat (length t1) <? 0) || (e_sz e <=? Z.of_nat (length t1))) with false by lia.
  unfold bind at 1. rewrite (rd_mid e t1 c (t2 ++ rest)) by done. unfold bind at 1.
  destruct (push_undo_run e (Z.of_nat (length t1)) c 0 W) as (u & h & k & -> & W1 & Hk & Eu).
  replace (Z.to_nat (e_sz e - 1 - Z.of_nat (length t1))) with (length t2) by lia. unfold bind at 1.
  destruct (shift_left_buf t2 (set_undo u h k e) t1 c rest Eb) as [y ->].
  unfold bind, set_size, modify. eexists. split; [reflexivity|]. destruct W1 as [Ws Wl Wu Wh Wk Wc]. simpl in *.
  assert (W' : ewf (set_mod 1 (set_text (t1 ++ t2 ++ y :: rest) (e_sz e - 1) (set_undo u h k e)))).
  { split; simpl; try done. rewrite !length_app. simpl. lia. }
  split_and!; [exact W'| |exact Eu| | |].
  - apply (tx_app _ _ (y :: rest) W'); simpl; [by rewrite <- app_assoc|rewrite length_app; lia].
  - by exists (t1 ++ t2 ++ y :: rest), (e_sz e - 1), u, h, k, 1.
  - pose proof (ewf_count e W) as Hc. apply (f_equal (λ l : list _, Z.of_nat (length l))) in Eu. rewrite length_app in Eu. simpl in Eu.
    unfold undos in Eu. simpl in Eu. rewrite undo_list_length in Eu by lia. simpl.
    case_decide; [pose proof (undo_list_length (e_undo e) (e_head e) (e_count e)); lia|].
    rewrite length_drop in Eu. pose proof (undo_list_length (e_undo e) (e_head e) (e_count e)). lia.
  - simpl. rewrite Eb, !length_app. simpl. rewrite length_app. lia.
Qed.

Lemma new_capacity_run n : ∀ cap needed,
  1 ≤ cap → needed ≤ 2 ^ 30 → needed ≤ cap * 2 ^ Z.of_nat n →
  ∃ r, new_capacity (S n) cap needed = Some r ∧ needed ≤ r ∧ cap ≤ r ∧ (cap < needed → r < 2 * needed).
Proof.
  induction n as [|n IH]; intros cap needed Hc Hn Hp.
  { exists cap. simpl. replace (cap <? needed) with false by lia. split_and!; done || lia. }
  change (new_capacity (S (S n)) cap needed) with
    (if cap <? needed then if 0x3FFFFFFF <? cap then None else new_capacity (S n) (cap * 2) needed else Some cap).
  destruct (Z.ltb_spec cap needed); [|by exists cap; split_and!; try lia].
  replace (0x3FFFFFFF <? cap) with false by lia.
  rewrite Nat2Z.inj_succ, Z.pow_succ_r in Hp by lia.
  destruct (IH (cap * 2) needed) as (r & E & H1 & H2 & H3); [lia|lia|lia|]. exists r. split_and!; [done|lia|lia|].
  intros _. destruct (decide (cap * 2 < needed)); [by apply H3|].
  destruct n; simpl in E; replace (cap * 2 <? needed) with false in E by lia; injection E as <-; lia.
Qed.

Lemma grow_run e w n :
  ewf e → u_grants w = [] → e_sz e < n ≤ 2 ^ 30 →
  ∃ ext, grow n (e, w) = Some (0, (set_text (e_buf e ++ ext) (e_sz e) e, w)) ∧ n ≤ Z.of_nat (length (e_buf e ++ ext)).
Proof.
  intros W Eg Hn. pose proof (ewf_sz e W). unfold grow, eget, gets, bind at 1. cbn [fst snd]. set (cap := Z.of_nat (length (e_buf e))) in *.
  destruct (Z.leb_spec n cap) as [Hle|Hgt].
  { exists []. rewrite app_nil_r. split; [by destruct e|done]. }
  set (c0 := if nz cap then cap else 4096). assert (H0 : 1 ≤ c0 ∧ (c0 = cap ∨ c0 = 4096)).
  { subst c0. destruct (nz cap) eqn:Ez; [apply nz_spec in Ez|]; lia. }
  destruct (new_capacity_run 31 c0 n) as (r & E & H1 & H2 & H3); [lia|lia| |].
  { change (2 ^ Z.of_nat 31) with 2147483648. change (2 ^ 30) with 1073741824 in Hn. lia. }
  assert (Hr : 0 < r < 2 ^ 31).
  { split; [lia|]. destruct (decide (c0 < n)) as [Hlt|Hge]; [specialize (H3 Hlt); lia|].
    assert (r = c0); [|lia]. change (new_capacity 32 c0 n) with
      (if c0 <? n then if 0x3FFFFFFF <? c0 then None else new_capacity 31 (c0 * 2) n else Some c0) in E.
    replace (c0 <? n) with false in E by lia. by injection E. }
  {
    rewrite E. unfold bind at 1, on_tui, zoom. cbn [fst snd]. rewrite (granted_yes r w) by done. cbn [fst snd negb].
    exists (replicate (Z.to_nat (r - cap)) (e_junk e)). split; [done|]. rewrite length_app, length_replicate. lia. }
Qed.

Lemma ins_run e w t1 c t2 :
  ewf e → u_grants w = [] → e_sz e < 2 ^ 30 → tx e = t1 ++ t2 →
  ∃ e', ins (Z.of_nat (length t1)) c (e, w) = Some (tt, (e', w)) ∧ ewf e' ∧ tx e' = t1 ++ c :: t2 ∧
    undos e' = pushed e (Z.of_nat (length t1), c, 1) ∧ same_place e e' ∧ e_count e' = Z.min (e_count e + 1) 512.
Proof.
  intros W Eg Hb Et. pose proof (tx_length e W) as Hs. rewrite Et, length_app in Hs.
  unfold ins, bind at 1, eget, gets. simpl.
  destruct (grow_run e w (e_sz e + 1) W Eg) as (ext & Eg' & Hext); [lia|]. unfold bind at 1. rewrite Eg'. simpl.
  set (e1 := set_text (e_buf e ++ ext) (e_sz e) e).
  assert (W1 : ewf e1) by (destruct W; split; simpl; try done; rewrite length_app in *; lia).
  destruct (push_undo_run e1 (Z.of_nat (length t1)) c 1 W1) as (u & h & k & Ep & W2 & Hk & Eu).
  destruct (buf_split e W) as [rest Eb]. rewrite Et in Eb.
  assert (exists x rest', rest ++ ext = x :: rest') as (x & rest' & Ex).
  { destruct (rest ++ ext) as [|x r] eqn:E; [|by eexists _, _]. rewrite Eb, <- app_assoc, E, app_nil_r, length_app in Hext. lia. }
  assert (Eb2 : e_buf (set_undo u h k e1) = t1 ++ t2 ++ x :: rest') by (simpl; by rewrite Eb, <- Ex, <- !app_assoc).
  destruct (shift_right_run t2 _ t1 x rest' Eb2) as [y Es].
  unfold on_ed, zoom, bind at 1. simpl. rewrite Ep. unfold bind at 1.
  replace (Z.to_nat (e_sz e - Z.of_nat (length t1))) with (length t2) by lia. rewrite Es. unfold bind at 1.
  rewrite (wr_mid _ t1 y (t2 ++ rest')) by done. unfold bind, set_size, modify. eexists. split; [reflexivity|].
  set (e' := set_mod 1 _). destruct W2 as [Ws Wl Wu Wh Wk Wc]. simpl in Ws, Wl, Wu, Wh, Wk, Wc.
  assert (W' : ewf e') by (split; simpl; try done; rewrite length_app; simpl; rewrite length_app; lia).
  split_and!; [exact W'| |exact Eu| |].
  - apply (tx_app e' _ rest' W'); simpl; [by rewrite <- app_assoc|rewrite length_app; simpl; lia].
  - by exists (t1 ++ c :: t2 ++ rest'), (e_sz e + 1), u, h, k, 1.
  - pose proof (ewf_count e W) as Hc. apply (f_equal (λ l : list _, Z.of_nat (length l))) in Eu. rewrite length_app in Eu. simpl in Eu.
    unfold undos in Eu. simpl in Eu. rewrite undo_list_length in Eu by lia. simpl.
    case_decide; [pose proof (undo_list_length (e_undo e) (e_head e) (e_count e)); lia|].
    rewrite length_drop in Eu. pose proof (undo_list_length (e_undo e) (e_head e) (e_count e)). lia.
Qed.

(** ** Undo *)

(** The newest entry and the stack without it. *)
Lemma pop_undo e us x :
  ewf e → undos e = us ++ [x] →
  0 < e_count e ∧ nth (Z.to_nat ((e_head e + (e_count e - 1)) mod 512)) (e_undo e) (0, 0, 0) = x ∧
  undos (set_undo (e_undo e) (e_head e) (e_count e - 1) e) = us.
Proof.
  intros W Eu. pose proof (ewf_count e W) as Hc. unfold undos in *. simpl.
  pose proof (undo_list_length (e_undo e) (e_head e) (e_count e)) as Hl. rewrite Eu, length_app in Hl. simpl in Hl.
  replace (e_count e) with (e_count e - 1 + 1) in Eu by lia. rewrite undo_list_snoc in Eu by lia.
  apply app_inj_tail in Eu as [-> ->]. split; [lia|done].
Qed.

Lemma undo_start e w us p c i :
  ewf e → undos e = us ++ [(p, c, i)] →
  undo_one (e, w) =
    (let e1 := set_undo (e_undo e) (e_head e) (e_count e - 1) e in
     if nz i then if (0 <=? p) && (p <=? e_sz e) then on_ed (del p) ;! ret 1 else ret 0
     else
       let! g := grow (e_sz e + 1) in
       if g =? 0 then
         on_ed (shift_right (Z.to_nat (e_sz e - p)) p ;! wr p c ;! set_size (λ n, n + 1)) ;!
         ret 1
       else ret 0) (set_undo (e_undo e) (e_head e) (e_count e - 1) e, w).
Proof.
  intros W Eu. destruct (pop_undo e us _ W Eu) as (Hc & Hx & _). destruct W as [_ _ Hu _ _ _].
  unfold undo_one, bind at 1, eget, gets. cbn [fst]. replace (e_count e <=? 0) with false by lia.
  unfold bind at 1, eset, modify. cbn [fst snd]. unfold bind at 1, id. cbn [fst snd]. unfold bind at 1.
  destruct (at_index_in (e_undo e) ((e_head e + (e_count e - 1)) mod 512) (set_undo (e_undo e) (e_head e) (e_count e - 1) e, w)) as (v & Hv & E).
  { pose proof (Z.mod_pos_bound (e_head e + (e_count e - 1)) 512). lia. }
  apply (nth_lookup_default _ _ (0, 0, 0)) in Hv. rewrite Hx in Hv. subst v.
  cbn [e_undo e_head e_count set_undo e_sz]. unfold UNDO_MAX. rewrite E. reflexivity.
Qed.

Lemma ewf_pop e : ewf e → 0 < e_count e → ewf (set_undo (e_undo e) (e_head e) (e_count e - 1) e).
Proof. intros [] ?. split; simpl; try done; lia. Qed.

(** Undoing an insertion deletes the character, and remembers the deletion. *)
Lemma undo_insert e w us p c c' t1 t2 :
  ewf e → undos e = us ++ [(p, c, 1)] → tx e = t1 ++ c' :: t2 → p = Z.of_nat (length t1) →
  ∃ e', undo_one (e, w) = Some (1, (e', w)) ∧ ewf e' ∧ tx e' = t1 ++ t2 ∧ undos e' = us ++ [(p, c', 0)] ∧ e_sz e' = e_sz e - 1.
Proof.
  intros W Eu Et ->. rewrite (undo_start e w us _ _ _ W Eu). destruct (pop_undo e us _ W Eu) as (Hc & _ & Eu1).
  pose proof (tx_length e W) as Hs. rewrite Et, length_app in Hs. simpl in Hs. change (nz 1) with true. cbv iota zeta.
  replace ((0 <=? Z.of_nat (length t1)) && (Z.of_nat (length t1) <=? e_sz e)) with true by lia.
  set (e1 := set_undo _ _ _ e) in *. pose proof (ewf_pop e W Hc : ewf e1) as W1.
  destruct (del_run e1 t1 c' t2 W1 Et) as (e' & E & W' & Et' & Eu' & _ & _ & _).
  exists e'. unfold on_ed, zoom, bind. cbn [fst snd]. rewrite E. split_and!; [done|done|done| |].
  - rewrite Eu'. unfold pushed, kept. rewrite Eu1. pose proof (ewf_count e W). by rewrite decide_True by (simpl; lia).
  - pose proof (tx_length e' W') as Hs'. rewrite Et', length_app in Hs'. lia.
Qed.

(** Undoing a deletion puts the character back. *)
Lemma undo_delete e w us p c t1 t2 :
  ewf e → u_grants w = [] → e_sz e < 2 ^ 30 → undos e = us ++ [(p, c, 0)] → tx e = t1 ++ t2 → p = Z.of_nat (length t1) →
  ∃ e', undo_one (e, w) = Some (1, (e', w)) ∧ ewf e' ∧ tx e' = t1 ++ c :: t2 ∧ undos e' = us.
Proof.
  intros W Eg Hb Eu Et ->. rewrite (undo_start e w us _ _ _ W Eu). destruct (pop_undo e us _ W Eu) as (Hc & _ & Eu1).
  pose proof (tx_length e W) as Hs. rewrite Et, length_app in Hs. change (nz 0) with false. cbv iota zeta.
  set (e1 := set_undo _ _ _ e) in *. pose proof (ewf_pop e W Hc : ewf e1) as W1.
  destruct (grow_run e1 w (e_sz e + 1) W1 Eg) as (ext & Eg' & Hext); [simpl; lia|].
  unfold bind at 1. rewrite Eg'. change (0 =? 0) with true. cbv iota.
  destruct (buf_split e W) as [rest Eb]. rewrite Et in Eb.
  assert (exists x rest', rest ++ ext = x :: rest') as (x & rest' & Ex).
  { destruct (rest ++ ext) as [|x r] eqn:E; [|by eexists _, _]. simpl in Hext. rewrite Eb, <- app_assoc, E, app_nil_r, length_app in Hext. lia. }
  set (e2 := set_text (e_buf e1 ++ ext) (e_sz e1) e1) in *.
  assert (Eb2 : e_buf e2 = t1 ++ t2 ++ x :: rest') by (simpl; by rewrite Eb, <- Ex, <- !app_assoc).
  destruct (shift_right_run t2 e2 t1 x rest' Eb2) as [y Es].
  unfold bind at 1, on_ed, zoom. cbn [fst snd]. unfold bind at 1.
  replace (Z.to_nat (e_sz e - Z.of_nat (length t1))) with (length t2) by lia. rewrite Es. unfold bind at 1.
  rewrite (wr_mid _ t1 y (t2 ++ rest')) by done. unfold set_size, modify. eexists. split; [reflexivity|].
  set (e' := set_text _ _ _). destruct W1 as [Ws Wl Wu Wh Wk Wc]. simpl in Ws, Wl, Wu, Wh, Wk, Wc.
  assert (W' : ewf e') by (split; simpl; try done; rewrite length_app; simpl; rewrite length_app; lia).
  split_and!; [exact W'| |exact Eu1].
  apply (tx_app e' _ rest' W'); simpl; [by rewrite <- app_assoc|rewrite length_app; simpl; lia].
Qed.

(** C33: (round trip) an insertion or a deletion anywhere in the text, followed by
    [undo_one], gives the text back.  With fewer than 512 entries on the undo stack
    ([kept e] is then the whole stack) the undo of a deletion also leaves the stack as it
    was, and the undo of an insertion leaves the deletion it made on top of it; with 512
    entries the edit has cost the oldest one, and the undo does not bring that back.
    The text is below [2 ^ 30 - 1] bytes and memory for it is there. *)
Theorem undo_restores (e : ed) (w : world) (t1 : list Z) (c : Z) (t2 : list Z) :
  ewf e → u_grants w = [] → e_sz e < 2 ^ 30 - 1 →
  (tx e = t1 ++ t2 → ∃ e', (ins (Z.of_nat (length t1)) c ;! undo_one) (e, w) = Some (1, (e', w)) ∧ ewf e' ∧
    tx e' = tx e ∧ undos e' = kept e ++ [(Z.of_nat (length t1), c, 0)]) ∧
  (tx e = t1 ++ c :: t2 → ∃ e', (on_ed (del (Z.of_nat (length t1))) ;! undo_one) (e, w) = Some (1, (e', w)) ∧ ewf e' ∧
    tx e' = tx e ∧ undos e' = kept e).
Proof.
  intros W Eg Hb. split; intros Et.
  - destruct (ins_run e w t1 c t2) as (e1 & E1 & W1 & Et1 & Eu1 & _ & _); [done|done|lia|done|].
    destruct (undo_insert e1 w _ _ c c t1 t2 W1 Eu1 Et1 eq_refl) as (e2 & E2 & W2 & Et2 & Eu2 & _).
    exists e2. unfold bind. rewrite E1. split_and!; [done|done|by rewrite Et2, Et|done].
  - destruct (del_run e t1 c t2 W Et) as (e1 & E1 & W1 & Et1 & Eu1 & _ & _ & _).
    pose proof (tx_length e W) as Hs. pose proof (tx_length e1 W1) as Hs1. rewrite Et, length_app in Hs. rewrite Et1, length_app in Hs1. simpl in Hs.
    destruct (undo_delete e1 w (kept e) (Z.of_nat (length t1)) c t1 t2 W1 Eg) as (e2 & E2 & W2 & Et2 & Eu2); [lia|done|done|done|].
    exists e2. unfold bind, on_ed, zoom. cbn [fst snd]. rewrite E1. split_and!; [done|done|by rewrite Et2, Et|done].
Qed.

(** An editor that holds the text [t], and the world around it. *)
Definition loaded (t : list Z) : ed := set_text (t ++ [0]) (Z.of_nat (length t)) (globals 0).
Definition idle : world := mkWorld (mkTui 0 0 [] 0 [] [] []) ∅ 4096 [] [] [] [] (mkLibc ∅ 0 0 0).

Lemma loaded_wf t : ewf (loaded t).
Proof. split; simpl; rewrite ?length_replicate, ?length_app; simpl; try lia; done. Qed.

Lemma undo_restores_witness :
  (tx (loaded [97; 98]) = [97] ++ [98] → ∃ e', (ins (Z.of_nat (length [97])) 98 ;! undo_one) (loaded [97; 98], idle) = Some (1, (e', idle)) ∧ ewf e' ∧
    tx e' = tx (loaded [97; 98]) ∧ undos e' = kept (loaded [97; 98]) ++ [(Z.of_nat (length [97]), 98, 0)]) ∧
  (tx (loaded [97; 98]) = [97] ++ 98 :: [] → ∃ e', (on_ed (del (Z.of_nat (length [97]))) ;! undo_one) (loaded [97; 98], idle) = Some (1, (e', idle)) ∧ ewf e' ∧
    tx e' = tx (loaded [97; 98]) ∧ undos e' = kept (loaded [97; 98])).
Proof.
  split; intros Et.
  - destruct (undo_restores (loaded [97; 98]) idle [97] 98 [98]) as [H _]; [apply loaded_wf|done|done|]. by apply H.
  - destruct (undo_restores (loaded [97; 98]) idle [97] 98 []) as [_ H]; [apply loaded_wf|done|done|]. by apply H.
Defined.

(** So a second undo after an insertion inserts the character again. *)
Lemma undo_twice_reinserts e w t1 c t2 :
  ewf e → u_grants w = [] → e_sz e < 2 ^ 30 - 1 → tx e = t1 ++ t2 →
  ∃ e', (ins (Z.of_nat (length t1)) c ;! undo_one ;! undo_one) (e, w) = Some (1, (e', w)) ∧
    tx e' = t1 ++ c :: t2 ∧ undos e' = kept e.
Proof.
  intros W Eg Hb Et. destruct (ins_run e w t1 c t2) as (e1 & E1 & W1 & Et1 & Eu1 & _ & _); [done|done|lia|done|].
  destruct (undo_insert e1 w _ _ c c t1 t2 W1 Eu1 Et1 eq_refl) as (e2 & E2 & W2 & Et2 & Eu2 & Es2).
  pose proof (tx_length e1 W1) as Hs. pose proof (tx_length e W) as Hs0. rewrite Et1, length_app in Hs. rewrite Et, length_app in Hs0. simpl in Hs.
  destruct (undo_delete e2 w (kept e) (Z.of_nat (length t1)) c t1 t2 W2 Eg) as (e3 & E3 & W3 & Et3 & Eu3); [lia|done|done|done|].
  exists e3. unfold bind. rewrite E1, E2. by split_and!.
Qed.
