(* ===== verification/GraphyText.v ===== *)
(** * GraphyText: lines, searching, replacing and brackets in [graphy.c]

    The line table holds the starts of the lines ([line_starts]); an offset and its
    line and column correspond ([position]); searching finds the first place,
    replacing is [replaced], brackets are matched by counting ([balance]). *)

From Stdlib Require Import ZArith Lia.
From stdpp Require Import gmap list prelude.
From S2P Require Import Prelude Libc LibcAlloc Stdio Tui TuiProof Graphy GraphyProof.

Open Scope Z_scope.

(** ** The line table *)

(** The offsets after the newlines of [t], which starts at offset [i]. *)
Fixpoint starts_from (i : Z) (t : list Z) : list Z :=
  match t with
  | [] => []
  | c :: t' => if c =? 10 then (i + 1) :: starts_from (i + 1) t' else starts_from (i + 1) t'
  end.
Definition line_starts (t : list Z) : list Z := 0 :: starts_from 0 t.

(** The first entries of the table are [l]. *)
Definition table (e : ed) (l : list Z) : Prop :=
  e_nlns e = Z.of_nat (length l) ∧ ∃ rest, e_lns e = l ++ rest.

Definition MAX : nat := Z.to_nat 4096.
Definition built (e : ed) : Prop := table e (take MAX (line_starts (tx e))).

Lemma wr_ln_run e l v x rest :
  e_lns e = l ++ x :: rest → wr_ln (Z.of_nat (length l)) v e = Some (tt, set_lines (l ++ v :: rest) (e_nlns e) e).
Proof. intros El. unfold wr_ln, put_at. rewrite El. by rewrite (updated_mid l rest x v). Qed.

Lemma scan_lines_run t : ∀ e pre rest l,
  e_buf e = pre ++ t ++ rest → length (e_lns e) = MAX → table e l → (length l < MAX)%nat →
  ∃ ls n, scan_lines (length t) (Z.of_nat (length pre)) e = Some (tt, set_lines ls n e) ∧ length ls = MAX ∧
    table (set_lines ls n e) (take MAX (l ++ starts_from (Z.of_nat (length pre)) t)).
Proof.
  induction t as [|c t IH]; intros e pre rest l Eb Hl [Hn (lr & El)] Hlt; simpl scan_lines; simpl starts_from.
  { exists (e_lns e), (e_nlns e). split; [by destruct e|]. split; [done|]. rewrite app_nil_r, take_ge by lia. split; [done|by exists lr]. }
  unfold bind at 1. rewrite (rd_mid e pre c (t ++ rest)) by done.
  assert (Ep : Z.of_nat (length pre) + 1 = Z.of_nat (length (pre ++ [c]))) by (rewrite length_app; simpl; lia).
  destruct (Z.eqb_spec c 10) as [->|Hc].
  - unfold bind at 1, gets. rewrite Hn. destruct lr as [|x lr]; [rewrite app_nil_r in El; rewrite El in Hl; lia|].
    unfold bind at 1. rewrite (wr_ln_run e l (Z.of_nat (length pre) + 1) x lr El).
    unfold bind at 1, modify. simpl (e_lns (set_lines _ _ _)).
    set (e1 := set_lines (l ++ (Z.of_nat (length pre) + 1) :: lr) (Z.of_nat (length l) + 1) e).
    assert (T1 : table e1 (l ++ [Z.of_nat (length pre) + 1])).
    { split; [simpl; rewrite length_app; simpl; lia|]. exists lr. simpl. by rewrite <- app_assoc. }
    assert (L1 : length (e_lns e1) = MAX) by (simpl; rewrite El in Hl; rewrite length_app in *; simpl in *; lia).
    unfold MAXLNS. destruct (Z.leb_spec 4096 (Z.of_nat (length l) + 1)) as [Hge|Hlt'].
    + exists (e_lns e1), (e_nlns e1). split; [done|]. split; [done|]. assert (Hm : length (l ++ [Z.of_nat (length pre) + 1]) = MAX).
      { rewrite length_app. simpl. unfold MAX in *. lia. }
      rewrite cons_middle, app_assoc, <- Hm, take_app_length. exact T1.
    + destruct (IH e1 (pre ++ [10]) rest (l ++ [Z.of_nat (length pre) + 1])) as (ls & n & E & H1 & H2).
      * simpl. by rewrite Eb, <- app_assoc.
      * done.
      * done.
      * rewrite length_app. simpl. unfold MAX in *. lia.
      * rewrite <- Ep in E, H2. rewrite <- app_assoc in H2. exists ls, n. split; [exact E|]. split; [done|exact H2].
  - destruct (IH e (pre ++ [c]) rest l) as (ls & n & E & H1 & H2); [by rewrite Eb, <- app_assoc|done|by split; [|exists lr]|done|].
    rewrite <- Ep in E, H2. by exists ls, n.
Qed.

Lemma lns_build_run e : ewf e → ∃ ls n, lns_build e = Some (tt, set_lines ls n e) ∧ ewf (set_lines ls n e) ∧ built (set_lines ls n e).
Proof.
  intros W. pose proof W as [Hs Hl Hu Hh Hk Hc]. destruct (buf_split e W) as [rest Eb]. pose proof (tx_length e W) as Ht.
  unfold lns_build. destruct (e_lns e) as [|x lr] eqn:El; [simpl in Hl; lia|].
  unfold bind at 1. change (wr_ln 0 0 e) with (wr_ln (Z.of_nat (length (@nil Z))) 0 e). rewrite (wr_ln_run e [] 0 x lr El). unfold bind at 1, modify. simpl (e_lns (set_lines _ _ _)).
  unfold bind at 1, gets. simpl (e_sz (set_lines _ _ _)). rewrite <- Ht, Nat2Z.id.
  destruct (scan_lines_run (tx e) (set_lines ([] ++ 0 :: lr) 1 e) [] rest [0]) as (ls & n & E & H1 & H2);
    [done|done|by split; [|exists lr]|unfold MAX; simpl; lia|].
  exists ls, n. split; [exact E|]. split; [by split|exact H2].
Qed.

(** ** Offsets and places *)

(** The column and the line of an offset of the text. *)
Fixpoint position (t : list Z) (off : nat) (x y : Z) : Z * Z :=
  match off, t with
  | S off', c :: t' => if c =? 10 then position t' off' 0 (y + 1) else position t' off' (x + 1) y
  | _, _ => (x, y)
  end.

Lemma rd_ln_run e l i v : table e l → l !! i = Some v → rd_ln (Z.of_nat i) e = Some (v, e).
Proof.
  intros [_ (rest & El)] Hi. unfold rd_ln, bind, gets, at_index. replace (0 <=? Z.of_nat i) with true by (symmetry; apply Z.leb_le; lia).
  rewrite El, Nat2Z.id. by rewrite (lookup_app_l_Some _ _ _ _ Hi).
Qed.

Lemma line_end_run e l i :
  table e l → line_end (Z.of_nat i) e = Some (match l !! (i + 1)%nat with Some v => v - 1 | None => e_sz e end, e).
Proof.
  intros T. pose proof T as [Hn _]. unfold line_end, bind at 1, gets, id. rewrite Hn.
  destruct (l !! (i + 1)%nat) as [v|] eqn:E.
  - apply lookup_lt_Some in E as Hlt. replace (Z.of_nat i + 1 <? Z.of_nat (length l)) with true by lia.
    unfold bind. replace (Z.of_nat i + 1) with (Z.of_nat (i + 1)) by lia. by rewrite (rd_ln_run e l _ v).
  - apply lookup_ge_None in E. by replace (Z.of_nat i + 1 <? Z.of_nat (length l)) with false by lia.
Qed.

(** The line found contains the offset. *)
Lemma find_line_run e l off n : ∀ i st,
  table e l → (i + n = length l)%nat → (0 < n)%nat → l !! i = Some st → st ≤ off →
  ∃ y sy, find_line n (Z.of_nat i) off e = Some ((off - sy, Z.of_nat y), e) ∧ l !! y = Some sy ∧ sy ≤ off ∧
    ∀ v, l !! (y + 1)%nat = Some v → off < v.
Proof.
  induction n as [|n IH]; intros i st T Hi Hn Hst Hle; [lia|]. simpl find_line. unfold bind at 1. rewrite (line_end_run e l i T).
  unfold bind at 1, gets. pose proof T as [En _]. rewrite En.
  destruct (l !! (i + 1)%nat) as [v|] eqn:E.
  - apply lookup_lt_Some in E as Hlt. replace (Z.of_nat (length l) <=? Z.of_nat i + 1) with false by lia. rewrite orb_false_r.
    destruct (Z.leb_spec off (v - 1)) as [Ho|Ho].
    + unfold bind. rewrite (rd_ln_run e l i st T Hst). exists i, st. split_and!; [done|done|done|]. intros v' Ev. rewrite E in Ev. injection Ev as <-. lia.
    + replace (Z.of_nat i + 1) with (Z.of_nat (i + 1)) by lia. apply (IH (i + 1)%nat v); [done|lia|lia|done|lia].
  - apply lookup_ge_None in E. replace (Z.of_nat (length l) <=? Z.of_nat i + 1) with true by lia. rewrite orb_true_r.
    unfold bind. rewrite (rd_ln_run e l i st T Hst). exists i, st. split_and!; [done|done|done|]. intros v' Ev.
    apply lookup_lt_Some in Ev. lia.
Qed.

Lemma xy_off_run e l y sy off :
  table e l → l !! y = Some sy → sy ≤ off ≤ e_sz e → (∀ v, l !! (y + 1)%nat = Some v → off < v) →
  xy_off (off - sy) (Z.of_nat y) e = Some (off, e).
Proof.
  intros T Hy Ho Hv. pose proof T as [En _]. apply lookup_lt_Some in Hy as Hlt. unfold xy_off, bind at 1, gets. rewrite En.
  replace (Z.of_nat y <? 0) with false by lia. replace (Z.of_nat (length l) <=? Z.of_nat y) with false by lia.
  unfold bind at 1. rewrite (rd_ln_run e l y sy T Hy). unfold bind at 1. rewrite (line_end_run e l y T).
  replace (sy + (off - sy)) with off by lia. unfold ret. destruct (l !! (y + 1)%nat) as [v|] eqn:E.
  - specialize (Hv v eq_refl). replace (v - 1 <? off) with false by lia. by replace (off <? sy) with false by lia.
  - replace (e_sz e <? off) with false by lia. by replace (off <? sy) with false by lia.
Qed.

(** ** The starts of lines, in order *)

Lemma starts_above t : ∀ i k v, starts_from i t !! k = Some v → i < v ≤ i + Z.of_nat (length t).
Proof.
  induction t as [|c t IH]; intros i k v; simpl; [by rewrite lookup_nil|]. destruct (c =? 10).
  - destruct k as [|k]; simpl; [intros [= <-]; lia|]. intros E. apply IH in E. lia.
  - intros E. apply IH in E. lia.
Qed.

Lemma starts_sorted t : ∀ i j k a b, starts_from i t !! j = Some a → starts_from i t !! k = Some b → (j < k)%nat → a < b.
Proof.
  induction t as [|c t IH]; intros i j k a b; simpl; [by rewrite lookup_nil|]. destruct (c =? 10); [|by apply IH].
  destruct k as [|k]; [lia|]. destruct j as [|j]; simpl.
  - intros [= <-] E _. apply starts_above in E. lia.
  - intros E1 E2 Hjk. apply (IH (i + 1) j k); [done|done|lia].
Qed.

Lemma line_starts_sorted t j k a b : line_starts t !! j = Some a → line_starts t !! k = Some b → (j < k)%nat → a < b.
Proof.
  unfold line_starts. destruct k as [|k]; [lia|]. destruct j as [|j]; simpl.
  - intros [= <-] E _. apply starts_above in E. lia.
  - intros E1 E2 Hjk. apply (starts_sorted t 0 j k); [done|done|lia].
Qed.

(** [position] in terms of the starts: [st] is the start of the line so far. *)
Lemma position_starts t : ∀ off i st y x' y',
  (off ≤ length t)%nat → position t off (i - st) y = (x', y') →
  ∃ k, y' = y + Z.of_nat k ∧ (st :: starts_from i t) !! k = Some (i + Z.of_nat off - x') ∧
    ∀ v, (st :: starts_from i t) !! (k + 1)%nat = Some v → i + Z.of_nat off < v.
Proof.
  induction t as [|c t IH]; intros [|off] i st y x' y' Ho; simpl in Ho; try lia; simpl position.
  - intros [= <- <-]. exists 0%nat. split_and!; [lia|simpl; f_equal; lia|]. by intros v.
  - intros [= <- <-]. exists 0%nat. split_and!; [lia|simpl; f_equal; lia|]. intros v E. apply (starts_above (c :: t)) in E. lia.
  - simpl starts_from. destruct (c =? 10).
    + replace 0 with (i + 1 - (i + 1)) at 1 by lia. intros E. destruct (IH off (i + 1) (i + 1) (y + 1) x' y' ltac:(lia) E) as (k & -> & E1 & E2).
      exists (S k). split_and!; [lia|simpl; rewrite E1; f_equal; lia|]. intros v Ev. apply E2 in Ev. lia.
    + replace (i - st + 1) with (i + 1 - st) by lia. intros E. destruct (IH off (i + 1) st y x' y' ltac:(lia) E) as (k & -> & E1 & E2).
      exists k. split_and!; [lia|rewrite E1; f_equal; lia|]. intros v Ev. apply E2 in Ev. lia.
Qed.

Lemma interval_unique (l : list Z) off j k a b :
  (∀ j k a b, l !! j = Some a → l !! k = Some b → (j < k)%nat → a < b) →
  l !! j = Some a → a ≤ off → (∀ v, l !! (j + 1)%nat = Some v → off < v) →
  l !! k = Some b → b ≤ off → (∀ v, l !! (k + 1)%nat = Some v → off < v) → j = k.
Proof.
  intros Hs Ha Hja Hj Hb Hkb Hk. destruct (Nat.lt_trichotomy j k) as [H|[H|H]]; [|done|]; exfalso.
  - destruct (lookup_lt_is_Some_2 l (j + 1)) as [v Hv]; [apply lookup_lt_Some in Hb; lia|]. specialize (Hj v Hv).
    destruct (decide (j + 1 = k)%nat) as [<-|]; [congruence || (rewrite Hb in Hv; injection Hv as <-; lia)|].
    pose proof (Hs _ _ _ _ Hv Hb ltac:(lia)). lia.
  - destruct (lookup_lt_is_Some_2 l (k + 1)) as [v Hv]; [apply lookup_lt_Some in Ha; lia|]. specialize (Hk v Hv).
    destruct (decide (k + 1 = j)%nat) as [<-|]; [rewrite Ha in Hv; injection Hv as <-; lia|].
    pose proof (Hs _ _ _ _ Hv Ha ltac:(lia)). lia.
Qed.

(** The editor with the text [t] and its lines, the cursor at the start. *)
Definition with_text (t : list Z) : ed := match lns_build (loaded t) with Some (_, e) => e | None => loaded t end.

(** [a(b)] and a second line. *)
Definition sample_text : list Z := [97; 40; 98; 41; 10; 97; 40].
Definition sample : ed := with_text sample_text.

Lemma with_text_run t : ∃ ls n, with_text t = set_lines ls n (loaded t) ∧ ewf (with_text t) ∧ built (with_text t) ∧ tx (with_text t) = t.
Proof.
  destruct (lns_build_run (loaded t) (loaded_wf t)) as (ls & n & E & W' & B). exists ls, n.
  assert (with_text t = set_lines ls n (loaded t)) as -> by (unfold with_text; by rewrite E).
  split_and!; [done|done|done|]. change (tx (loaded t) = t). by apply (tx_app (loaded t) t [0] (loaded_wf t)).
Qed.
Lemma sample_run : ewf sample ∧ built sample ∧ tx sample = sample_text.
Proof. by destruct (with_text_run sample_text) as (ls & n & _ & H). Qed.

(** On a table of all the lines [off_xy] gives the line and the column of an offset, and
    [xy_off] of these gives the offset back. *)
Lemma off_xy_place (e : ed) (off : Z) :
  ewf e → built e → 0 ≤ off ≤ e_sz e → (length (line_starts (tx e)) ≤ Z.to_nat 4096)%nat →
  off_xy off e = Some (position (tx e) (Z.to_nat off) 0 0, e) ∧
  xy_off (fst (position (tx e) (Z.to_nat off) 0 0)) (snd (position (tx e) (Z.to_nat off) 0 0)) e = Some (off, e).
Proof.
  intros W B Ho Hm. set (t := tx e) in *.
  pose proof (tx_length e W : Z.of_nat (length t) = e_sz e) as Ht.
  unfold built in B. fold t in B. rewrite take_ge in B by (unfold MAX; exact Hm).
  destruct (find_line_run e (line_starts t) off (length (line_starts t)) 0 0 B) as (y & sy & Ef & Hy & Hle & Hnext);
    [lia|simpl; lia|done|lia|].
  destruct (position t (Z.to_nat off) 0 0) as [x' y'] eqn:Ep.
  destruct (position_starts t (Z.to_nat off) 0 0 0 x' y') as (k & Hk & E1 & E2); [lia|done|].
  assert (Hx : 0 ≤ x').
  { assert (∀ l o a b c d, 0 ≤ a → position l o a b = (c, d) → 0 ≤ c) as Hpos.
    { clear. induction l as [|z l IH]; intros [|o] a b c d Ha; simpl; try (intros [= <- <-]; done).
      destruct (z =? 10); intros Hp; apply IH in Hp; lia. }
    by apply (Hpos _ _ _ _ _ _ (Z.le_refl 0) Ep). }
  assert (y = k) as ->.
  { apply (interval_unique (line_starts t) off y k sy (0 + Z.of_nat (Z.to_nat off) - x')); try done; [apply line_starts_sorted|lia|].
    intros v Hv. apply E2 in Hv. lia. }
  change ((0 :: starts_from 0 t) !! k) with (line_starts t !! k) in E1. rewrite Hy in E1. injection E1 as ->.
  assert (Ex : off - (0 + Z.of_nat (Z.to_nat off) - x') = x') by lia. rewrite Ex in Ef.
  replace y' with (Z.of_nat k) by lia. split.
  - unfold off_xy, bind, gets, id. replace (off <? 0) with false by lia. replace (e_sz e <? off) with false by lia.
    destruct B as [-> _]. rewrite Nat2Z.id. exact Ef.
  - simpl. rewrite <- Ex. apply (xy_off_run e (line_starts t)); [done|done|simpl; lia|done].
Qed.

(** (round trip) after [lns_build], for every offset of a text of at most 4096
    lines [off_xy] gives its line and its column, and [xy_off] of these gives the
    offset back. *)
Theorem offset_place_roundtrip (e : ed) (off : Z) :
  ewf e → 0 ≤ off ≤ e_sz e → (length (line_starts (tx e)) ≤ Z.to_nat 4096)%nat →
  ∃ e', lns_build e = Some (tt, e') ∧ tx e' = tx e ∧
    off_xy off e' = Some (position (tx e) (Z.to_nat off) 0 0, e') ∧
    xy_off (fst (position (tx e) (Z.to_nat off) 0 0)) (snd (position (tx e) (Z.to_nat off) 0 0)) e' = Some (off, e').
Proof.
  intros W Ho Hm. destruct (lns_build_run e W) as (ls & n & E & W' & B). exists (set_lines ls n e).
  split; [done|]. split; [done|]. by apply (off_xy_place (set_lines ls n e)).
Qed.

Lemma offset_place_roundtrip_witness :
  ∃ e', lns_build sample = Some (tt, e') ∧ tx e' = tx sample ∧
    off_xy 6 e' = Some (position (tx sample) (Z.to_nat 6) 0 0, e') ∧
    xy_off (fst (position (tx sample) (Z.to_nat 6) 0 0)) (snd (position (tx sample) (Z.to_nat 6) 0 0)) e' = Some (6, e').
Proof.
  apply (offset_place_roundtrip sample 6); [apply sample_run|vm_compute; done|].
  rewrite (proj2 (proj2 sample_run)). simpl. lia.
Defined.

(** ** Searching *)

(** The text starts with [q]. *)
Definition here (q t : list Z) : bool := bool_decide (take (length q) t = q).

Lemma here_cons c q b t : here (c :: q) (b :: t) = (b =? c) && here q t.
Proof.
  unfold here. simpl. destruct (Z.eqb_spec b c) as [->|Hne]; simpl.
  - apply bool_decide_ext. split; [by intros [= ?]|by intros ->].
  - apply bool_decide_eq_false. by intros [= ? ?].
Qed.

Lemma matches_run q : ∀ e pre t rest,
  e_buf e = pre ++ t ++ rest → (length q ≤ length t)%nat → matches (Z.of_nat (length pre)) q e = Some (here q t, e).
Proof.
  induction q as [|c q IH]; intros e pre t rest Eb Hl; simpl matches.
  { reflexivity. }
  destruct t as [|b t]; simpl in Hl; [lia|]. unfold bind. rewrite (rd_mid e pre b (t ++ rest)) by done. rewrite here_cons.
  destruct (b =? c); [|done]. replace (Z.of_nat (length pre) + 1) with (Z.of_nat (length (pre ++ [b]))) by (rewrite length_app; simpl; lia).
  apply (IH e (pre ++ [b]) t rest); [by rewrite Eb, <- app_assoc|lia].
Qed.

Lemma buf_at e i : ewf e → 0 ≤ i ≤ e_sz e →
  ∃ rest, e_buf e = take (Z.to_nat i) (tx e) ++ drop (Z.to_nat i) (tx e) ++ rest ∧ Z.of_nat (length (take (Z.to_nat i) (tx e))) = i.
Proof.
  intros W Hi. destruct (buf_split e W) as [rest Eb]. exists rest. pose proof (tx_length e W).
  rewrite app_assoc, take_drop. split; [done|]. rewrite length_take. lia.
Qed.

Lemma matches_at e q i :
  ewf e → 0 ≤ i → i + Z.of_nat (length q) ≤ e_sz e → matches i q e = Some (here q (drop (Z.to_nat i) (tx e)), e).
Proof.
  intros W Hi Hl. destruct (buf_at e i W) as (rest & Eb & Ei); [lia|]. pose proof (tx_length e W). rewrite <- Ei at 1.
  apply (matches_run q e _ _ rest Eb). rewrite length_drop. lia.
Qed.

Lemma set_cursor_at_run e off : ewf e → built e → 0 ≤ off ≤ e_sz e → ∃ x y, set_cursor_at off e = Some (tt, set_xy x y e).
Proof.
  intros W B Ho. unfold built in B. set (l := take MAX (line_starts (tx e))) in *.
  assert (Hl : l !! 0%nat = Some 0) by (subst l; rewrite lookup_take_lt by (unfold MAX; lia); done).
  destruct (find_line_run e l off (length l) 0 0 B) as (y & sy & Ef & _); [lia|apply lookup_lt_Some in Hl; lia|done|lia|].
  exists (off - sy), (Z.of_nat y). unfold set_cursor_at, off_xy, bind, gets, id.
  replace (off <? 0) with false by lia. replace (e_sz e <? off) with false by lia. destruct B as [-> _]. rewrite Nat2Z.id.
  change (Z.of_nat 0) with 0 in Ef. by rewrite Ef.
Qed.

Lemma follow_cursor_run e : ∃ v, follow_cursor e = Some (tt, set_top v e).
Proof.
  set (t := if e_cy e <? e_top e then e_cy e else e_top e).
  exists (if t + ROWS <=? e_cy e then e_cy e - ROWS + 1 else t). unfold follow_cursor, bind, modify. subst t.
  destruct e. simpl. destruct (_ <? _); simpl; by destruct (_ <=? _).
Qed.

Definition occurs (q t : list Z) (i : Z) : Prop := here q (drop (Z.to_nat i) t) = true.

Lemma find_from_run q n : ∀ e i,
  ewf e → built e → q ≠ [] → 0 ≤ i → (0 < n)%nat ∧ i + Z.of_nat n = e_sz e - Z.of_nat (length q) + 1 ∨ n = 0%nat ∧ e_sz e - Z.of_nat (length q) < i →
  ∃ r e', find_from n i q e = Some (r, e') ∧ tx e' = tx e ∧
    (r = 1 ∧ i ≤ e_co e' ∧ occurs q (tx e) (e_co e') ∧ (∀ j, i ≤ j < e_co e' → ¬ occurs q (tx e) j) ∨
     r = 0 ∧ e_co e' = e_co e ∧ ∀ j, i ≤ j ≤ e_sz e - Z.of_nat (length q) → ¬ occurs q (tx e) j).
Proof.
  induction n as [|n IH]; intros e i W B Hq Hi Hn; simpl find_from.
  { eexists 0, _. split; [reflexivity|]. split; [done|]. right. split_and!; [done..|]. intros j Hj. lia. }
  assert (Hin : i + Z.of_nat (length q) ≤ e_sz e) by lia.
  unfold bind at 1. rewrite matches_at by done. destruct (here q (drop (Z.to_nat i) (tx e))) eqn:Eh.
  - unfold bind at 1, modify. destruct (set_cursor_at_run (set_co i e) i) as (x & y & E); [by destruct W|done|simpl; lia|].
    unfold bind at 1. rewrite E. unfold bind at 1. destruct (follow_cursor_run (set_xy x y (set_co i e))) as [v ->].
    eexists 1, _. split; [reflexivity|]. split; [done|]. left. simpl. split_and!; [done|lia|done|]. intros j Hj. lia.
  - destruct (IH e (i + 1) W B Hq ltac:(lia) ltac:(lia)) as (r & e' & E & Et & Hr). exists r, e'. split; [done|]. split; [done|].
    assert (Hno : ¬ occurs q (tx e) i) by (unfold occurs; by rewrite Eh).
    destruct Hr as [(-> & H1 & H2 & H3)|(-> & H1 & H2)].
    + left. split_and!; [done|lia|done|]. intros j Hj. destruct (decide (j = i)) as [->|]; [done|]. apply H3. lia.
    + right. split_and!; [done|done|]. intros j Hj. destruct (decide (j = i)) as [->|]; [done|]. apply H2. lia.
Qed.

(** (functional) [find] puts the cursor at the first place at or after [from]
    where the text has the string, and returns 1; when there is no such place it
    returns 0 and leaves the cursor where it was. *)
Theorem find_first (e : ed) (q : list Z) (from : Z) :
  ewf e → built e → q ≠ [] → 0 ≤ from →
  ∃ r e', find q from e = Some (r, e') ∧ tx e' = tx e ∧
    (r = 1 ∧ from ≤ e_co e' ∧ occurs q (tx e) (e_co e') ∧ (∀ j, from ≤ j < e_co e' → ¬ occurs q (tx e) j) ∨
     r = 0 ∧ e_co e' = e_co e ∧ ∀ j, from ≤ j ≤ e_sz e - Z.of_nat (length q) → ¬ occurs q (tx e) j).
Proof.
  intros W B Hq Hf. unfold find. destruct q as [|c q]; [done|]. unfold bind, gets.
  apply find_from_run; [done|done|done|done|].
  destruct (decide (from ≤ e_sz e - Z.of_nat (length (c :: q)))); [left|right]; lia.
Qed.

Lemma find_first_witness :
  ∃ r e', find [97; 40] 1 sample = Some (r, e') ∧ tx e' = tx sample ∧
    (r = 1 ∧ 1 ≤ e_co e' ∧ occurs [97; 40] (tx sample) (e_co e') ∧ (∀ j, 1 ≤ j < e_co e' → ¬ occurs [97; 40] (tx sample) j) ∨
     r = 0 ∧ e_co e' = e_co sample ∧ ∀ j, 1 ≤ j ≤ e_sz sample - Z.of_nat (length [97; 40]) → ¬ occurs [97; 40] (tx sample) j).
Proof. apply (find_first sample [97; 40] 1); [apply sample_run|apply sample_run|done|lia]. Defined.

(** ** Replacing *)

Fixpoint replaced (n : nat) (q r t : list Z) : list Z :=
  match n, t with
  | S n', c :: t' => if here q t then r ++ replaced n' q r (drop (length q) t) else c :: replaced n' q r t'
  | _, _ => t
  end.
Fixpoint hits (n : nat) (q t : list Z) : Z :=
  match n, t with
  | S n', c :: t' => if here q t then 1 + hits n' q (drop (length q) t) else hits n' q t'
  | _, _ => 0
  end.

Lemma replaced_fuel q r n : ∀ m t, q ≠ [] → (length t ≤ n)%nat → (length t ≤ m)%nat →
  replaced n q r t = replaced m q r t ∧ hits n q t = hits m q t.
Proof.
  induction n as [|n IH]; intros [|m] [|c t] Hq H1 H2; simpl in H1, H2; try lia; try done.
  assert (1 ≤ length q)%nat by (destruct q; simpl; [done|lia]). simpl.
  destruct (here q (c :: t)).
  - destruct (IH m (drop (length q) (c :: t)) Hq) as [-> ->]; [rewrite length_drop; simpl; lia..|]. done.
  - destruct (IH m t Hq) as [-> ->]; [lia..|]. done.
Qed.

(** The rest of a text shorter than [q] stays. *)
Lemma replaced_short q r n t : q ≠ [] → (length t < length q)%nat → replaced n q r t = t ∧ hits n q t = 0.
Proof.
  revert t. induction n as [|n IH]; intros [|c t] Hq Hl; try done. simpl.
  assert (here q (c :: t) = false) as ->.
  { apply bool_decide_eq_false. intros E. apply (f_equal length) in E. rewrite length_take in E. lia. }
  destruct (IH t Hq) as [-> ->]; [simpl in Hl; lia|done].
Qed.

Lemma ins_all_run r : ∀ e w t1 t2,
  ewf e → u_grants w = [] → e_sz e + Z.of_nat (length r) ≤ 2 ^ 30 → tx e = t1 ++ t2 →
  ∃ e', ins_all (Z.of_nat (length t1)) r (e, w) = Some (tt, (e', w)) ∧ ewf e' ∧ tx e' = t1 ++ r ++ t2 ∧ same_place e e'.
Proof.
  induction r as [|c r IH]; intros e w t1 t2 W Eg Hb Et; simpl ins_all.
  { exists e. split_and!; [done|done|done|apply same_place_refl]. }
  simpl in Hb. destruct (ins_run e w t1 c t2 W Eg) as (e1 & E1 & W1 & Et1 & _ & P1 & _); [lia|done|].
  pose proof (tx_length e W) as Hs. pose proof (tx_length e1 W1) as Hs1. rewrite Et, length_app in Hs. rewrite Et1, length_app in Hs1. simpl in Hs1.
  destruct (IH e1 w (t1 ++ [c]) t2 W1 Eg) as (e2 & E2 & W2 & Et2 & P2); [lia|by rewrite Et1, <- app_assoc|].
  exists e2. unfold bind. rewrite E1. replace (Z.of_nat (length t1) + 1) with (Z.of_nat (length (t1 ++ [c]))) by (rewrite length_app; simpl; lia).
  split_and!; [done|done|by rewrite Et2, <- app_assoc|by apply (same_place_trans e e1)].
Qed.

Lemma del_all_run d : ∀ e t1 t2 lo,
  ewf e → tx e = t1 ++ d ++ t2 →
  ∃ e', for_up (length d) lo (λ _, del (Z.of_nat (length t1))) e = Some (tt, e') ∧ ewf e' ∧ tx e' = t1 ++ t2 ∧ same_place e e'.
Proof.
  induction d as [|c d IH]; intros e t1 t2 lo W Et; simpl for_up.
  { exists e. split_and!; [done|done|done|apply same_place_refl]. }
  destruct (del_run e t1 c (d ++ t2) W Et) as (e1 & E1 & W1 & Et1 & _ & P1 & _ & _).
  destruct (IH e1 t1 t2 (lo + 1) W1 Et1) as (e2 & E2 & W2 & Et2 & P2). exists e2. unfold bind. rewrite E1.
  split_and!; [done|done|done|by apply (same_place_trans e e1)].
Qed.

Section replace_loop.
Context (q r : list Z) (w : world) (Hq : q ≠ []) (Eg : u_grants w = []).

(** The part already done, the part still to do, and the size of the result. *)
Definition replacing (goal : list Z) (total : Z) (g : list Z * list Z) (a : Z * Z) (s : ed * world) : Prop :=
  ∃ e, s = (e, w) ∧ ewf e ∧ tx e = fst g ++ snd g ∧ fst a = Z.of_nat (length (fst g)) ∧
    goal = fst g ++ replaced (length (snd g)) q r (snd g) ∧ total = snd a + hits (length (snd g)) q (snd g) ∧
    Z.of_nat (length (fst g)) + Z.of_nat (length (snd g)) * (Z.of_nat (length r) + 1) ≤ 2 ^ 30.

Lemma replace_round_run goal total g a s :
  replacing goal total g a s →
  wp (replace_round q r a) s (λ b s', match b with
    | inl a' => ∃ g', replacing goal total g' a' s' ∧ 0 ≤ Z.of_nat (length (snd g')) < Z.of_nat (length (snd g))
    | inr n => n = total ∧ ∃ e, s' = (e, w) ∧ ewf e ∧ tx e = goal end).
Proof.
  intros (e & -> & W & Et & Ei & Hg & Hc & Hb). destruct g as [pre rest], a as [i count]. simpl in *. subst i.
  assert (Hql : (1 ≤ length q)%nat) by (destruct q; simpl; [done|lia]).
  pose proof (tx_length e W) as Hs. rewrite Et, length_app in Hs. unfold replace_round. unfold eget. do 2 wp_step. simpl.
  destruct (Z.leb_spec (Z.of_nat (length pre)) (e_sz e - Z.of_nat (length q))) as [Hle|Hgt].
  2:{ wp_step. destruct (replaced_short q r (length rest) rest Hq) as [Er Eh]; [lia|]. split; [lia|]. exists e. split_and!; [done|done|]. by rewrite Et, Hg, Er. }
  wp_step. unfold on_ed at 1. wp_step. simpl. eapply wp_run.
  { rewrite (matches_at e q (Z.of_nat (length pre)) W) by lia. reflexivity. }
  rewrite Nat2Z.id, Et, drop_app_length. destruct rest as [|c rest]; [simpl in Hs; lia|]. simpl in Hg, Hc, Hb.
  destruct (here q (c :: rest)) eqn:Eh; cbv iota in Hg, Hc.
  - assert (Er : c :: rest = q ++ drop (length q) (c :: rest)).
    { apply bool_decide_eq_true in Eh. rewrite <- Eh at 1. by rewrite take_drop. }
    set (rest' := drop (length q) (c :: rest)) in *. assert (Hl : (length rest' = S (length rest) - length q)%nat) by (subst rest'; by rewrite length_drop).
    wp_step. unfold on_ed at 1. wp_step. simpl. rewrite Er in Et.
    destruct (del_all_run q e pre rest' 0 W Et) as (e1 & E1 & W1 & Et1 & _). eapply wp_run; [exact E1|].
    pose proof (tx_length e1 W1) as Hs1. rewrite Et1, length_app in Hs1.
    destruct (ins_all_run r e1 w pre rest' W1 Eg) as (e2 & E2 & W2 & Et2 & _); [nia|done|].
    wp_step. eapply wp_run; [exact E2|]. wp_step. unfold eset. wp_step. wp_step. simpl.
    exists (pre ++ r, rest'). simpl. split; [|lia]. exists (set_mod 1 e2). split_and!; [done|by destruct W2| |simpl; rewrite length_app; lia| | |].
    + change (tx (set_mod 1 e2)) with (tx e2). cbn [fst snd]. by rewrite Et2, <- app_assoc.
    + cbn [fst snd]. rewrite Hg, <- app_assoc. do 2 f_equal. apply (replaced_fuel q r); [done|lia|lia].
    + simpl. rewrite Hc. destruct (replaced_fuel q r (length rest) (length rest') rest' Hq) as [_ ->]; lia.
    + simpl. rewrite length_app. nia.
  - wp_step. exists (pre ++ [c], rest). simpl. split; [|lia]. exists e. split_and!; [done|done|cbn [fst snd]; by rewrite Et, <- app_assoc|simpl; rewrite length_app; simpl; lia| |simpl; lia|simpl; rewrite length_app; simpl; nia].
    cbn [fst snd]. by rewrite Hg, <- app_assoc.
Qed.
End replace_loop.

(** C32: (equivalence) [replace], which deletes and inserts in place while it walks
    the text, gives the text with every occurrence of [q], from left to right and
    without overlap, replaced by [r], whatever the two strings have in common; it
    returns their number, and the line table is that of the new text. *)
Theorem replace_all (e : ed) (w : world) (q r : list Z) :
  ewf e → u_grants w = [] → q ≠ [] → e_sz e * (Z.of_nat (length r) + 1) ≤ 2 ^ 30 →
  ∃ e', replace q r (e, w) = Some (hits (length (tx e)) q (tx e), (e', w)) ∧
    tx e' = replaced (length (tx e)) q r (tx e) ∧ ewf e' ∧ built e'.
Proof.
  intros W Eg Hq Hb. set (goal := replaced (length (tx e)) q r (tx e)). set (total := hits (length (tx e)) q (tx e)).
  enough (wp (replace q r) (e, w) (λ n s', n = total ∧ ∃ e', s' = (e', w) ∧ tx e' = goal ∧ ewf e' ∧ built e'))
    as (n & s' & E & -> & e' & -> & H) by (by exists e').
  pose proof (tx_length e W) as Hs. unfold replace. destruct q as [|c q0] eqn:Eq; [done|]. rewrite <- Eq in *. wp_step.
  eapply wp_mono.
  { apply (wp_while_ghost (replacing q r w goal total) (λ g, Z.of_nat (length (snd g))) _ _) with (g := ([], tx e)).
    - intros g a s Hr. by apply replace_round_run.
    - exists e. cbn [fst snd app length]. split_and!; [done|done|done|done|by rewrite Eq|rewrite Eq; unfold total; lia|lia].
    - simpl. pose proof (ewf_sz e W). nia. }
  intros n s1 [-> (e1 & -> & W1 & Et1)]. destruct (lns_build_run e1 W1) as (ls & k & E & W2 & B).
  wp_step. unfold on_ed. wp_step. simpl. eapply wp_run; [exact E|]. wp_step. split; [done|].
  exists (set_lines ls k e1). by split_and!.
Qed.

(** [a] becomes [aa]: what was inserted is not replaced again. *)
Lemma replace_all_witness :
  ∃ e', replace [97] [97; 97] (sample, idle) = Some (hits (length (tx sample)) [97] (tx sample), (e', idle)) ∧
    tx e' = replaced (length (tx sample)) [97] [97; 97] (tx sample) ∧ ewf e' ∧ built e'.
Proof. apply (replace_all sample idle [97] [97; 97]); [apply sample_run|reflexivity|done|vm_compute; done]. Defined.

Example replaced_sample : replaced (length sample_text) [97] [97; 97] sample_text = [97; 97; 40; 98; 41; 10; 97; 97; 40].
Proof. reflexivity. Qed.

(** ** Brackets *)

(** Openings less closings. *)
Fixpoint balance (open close : Z) (t : list Z) : Z :=
  match t with
  | [] => 0
  | c :: t' => (if c =? open then 1 else 0) - (if c =? close then 1 else 0) + balance open close t'
  end.

(** The closing bracket that brings the depth from [d] to 0, after [t] characters. *)
Definition closes (open close d : Z) (t : list Z) (k : nat) : Prop :=
  t !! k = Some close ∧ balance open close (take k t) = 1 - d ∧
  ∀ j, (j ≤ k)%nat → 1 - d ≤ balance open close (take j t).

Lemma closes_cons open close d c t k :
  open ≠ close → 1 ≤ d → let d' := d + (if c =? open then 1 else 0) - (if c =? close then 1 else 0) in
  1 ≤ d' → closes open close d (c :: t) (S k) ↔ closes open close d' t k.
Proof.
  intros Hoc Hd d' Hd'. unfold closes. simpl. split; intros (H1 & H2 & H3); split_and!; try done; try (subst d'; lia).
  - intros j Hj. specialize (H3 (S j) ltac:(lia)). simpl in H3. subst d'. lia.
  - intros [|j] Hj; simpl; [lia|]. specialize (H3 j ltac:(lia)). subst d'. lia.
Qed.

Lemma seek_step n open close dir e pre c b2 d :
  e_buf e = pre ++ c :: b2 → Z.of_nat (length pre) < e_sz e →
  let d' := d + (if c =? open then 1 else 0) - (if c =? close then 1 else 0) in
  seek_match (S n) open close dir (Z.of_nat (length pre)) d e =
    if d' =? 0 then Some (Z.of_nat (length pre), e) else seek_match n open close dir (Z.of_nat (length pre) + dir) d' e.
Proof.
  intros Eb Hl d'. cbn [seek_match]. unfold bind, gets. replace (0 <=? Z.of_nat (length pre)) with true by (symmetry; apply Z.leb_le; lia).
  replace (Z.of_nat (length pre) <? e_sz e) with true by lia. cbn [andb]. cbv beta iota. rewrite (rd_mid e pre c b2) by done. cbv zeta.
  replace (if c =? close then (if c =? open then d + 1 else d) - 1 else if c =? open then d + 1 else d) with d'
    by (subst d'; destruct (c =? open), (c =? close); lia).
  by destruct (d' =? 0).
Qed.

Lemma seek_forward open close t : ∀ n e pre rest d,
  open ≠ close → e_buf e = pre ++ t ++ rest → e_sz e = Z.of_nat (length pre + length t) → 1 ≤ d → (length t < n)%nat →
  (∃ k, seek_match n open close 1 (Z.of_nat (length pre)) d e = Some (Z.of_nat (length pre + k), e) ∧ closes open close d t k) ∨
  (seek_match n open close 1 (Z.of_nat (length pre)) d e = Some (-1, e) ∧ ∀ k, ¬ closes open close d t k).
Proof.
  induction t as [|c t IH]; intros [|n] e pre rest d Hoc Eb Es Hd Hn; simpl in Hn; try lia.
  { right. cbn [seek_match]. unfold bind, gets. replace (Z.of_nat (length pre) <? e_sz e) with false by (simpl in Es; lia).
    rewrite andb_false_r. split; [done|]. by intros k [? _]. }
  simpl in Es. rewrite (seek_step n open close 1 e pre c (t ++ rest) d Eb) by lia. cbv zeta.
  set (d' := d + (if c =? open then 1 else 0) - (if c =? close then 1 else 0)).
  destruct (Z.eqb_spec d' 0) as [E0|E0].
  { left. exists 0%nat. rewrite Nat.add_0_r. split; [done|]. subst d'. destruct (Z.eqb_spec c close) as [->|]; [|destruct (c =? open); lia].
    replace (close =? open) with false in * by lia. split_and!; [done|simpl; lia|]. intros j Hj. replace j with 0%nat by lia. simpl. lia. }
  assert (Hd' : 1 ≤ d') by (subst d'; destruct (Z.eqb_spec c open), (Z.eqb_spec c close); lia).
  assert (Hz : ¬ closes open close d (c :: t) 0).
  { intros ([= ->] & H2 & _). simpl in H2. subst d'. replace (close =? open) with false in * by lia. rewrite Z.eqb_refl in *. lia. }
  replace (Z.of_nat (length pre) + 1) with (Z.of_nat (length (pre ++ [c]))) by (rewrite length_app; simpl; lia).
  destruct (IH n e (pre ++ [c]) rest d') as [(k & E & Hk)|[E Hk]]; [done|by rewrite Eb, <- app_assoc|rewrite length_app; simpl; lia|done|lia| |].
  - left. exists (S k). rewrite E. split; [do 2 f_equal; rewrite length_app; simpl; lia|]. by apply closes_cons.
  - right. split; [done|]. intros [|k] Hc; [done|]. apply closes_cons in Hc; [|done..]. by apply (Hk k).
Qed.

(** (functional) with the cursor on an opening bracket [find_match] gives the
    place of the closing bracket that balances it: the text between has as many
    openings as closings and no beginning of it has more closings; -1 when no
    bracket does. *)
Theorem opening_bracket_matched (e : ed) (t1 t2 : list Z) (c close : Z) :
  ewf e → tx e = t1 ++ c :: t2 → brackets c = Some (c, close, 1) →
  let place k := Z.of_nat (length t1) + 1 + Z.of_nat k in
  (∃ k, find_match (Z.of_nat (length t1)) e = Some (place k, e) ∧ closes c close 1 t2 k) ∨
  (find_match (Z.of_nat (length t1)) e = Some (-1, e) ∧ ∀ k, ¬ closes c close 1 t2 k).
Proof.
  intros W Et Hb place. destruct (buf_split e W) as [rest Eb]. pose proof (tx_length e W) as Hs. rewrite Et, length_app in Hs. simpl in Hs.
  assert (Hne : c ≠ close).
  { intros <-. revert Hb. unfold brackets. by repeat (case_match; [intros [=]; lia|]). }
  unfold find_match, bind, gets. replace (Z.of_nat (length t1) <? 0) with false by lia.
  replace (e_sz e <=? Z.of_nat (length t1)) with false by lia. cbn [orb]. cbv beta iota.
  rewrite (rd_mid e t1 c (t2 ++ rest)) by (rewrite ?Eb, ?Et, <- ?app_assoc; done). rewrite Hb.
  replace (Z.of_nat (length t1) + 1) with (Z.of_nat (length (t1 ++ [c]))) by (rewrite length_app; simpl; lia).
  destruct (seek_forward c close t2 (Z.to_nat (e_sz e) + 1) e (t1 ++ [c]) rest 1) as [(k & E & Hk)|[E Hk]];
    [done|by rewrite Eb, Et, <- !app_assoc|rewrite length_app; simpl; lia|done|lia| |].
  - left. exists k. rewrite E. split; [|done]. do 2 f_equal. subst place. rewrite length_app. simpl. lia.
  - right. by rewrite E.
Qed.

Lemma opening_bracket_matched_witness :
  (∃ k, find_match (Z.of_nat (length [97])) sample = Some (Z.of_nat (length [97]) + 1 + Z.of_nat k, sample) ∧
     closes 40 41 1 [98; 41; 10; 97; 40] k) ∨
  (find_match (Z.of_nat (length [97])) sample = Some (-1, sample) ∧ ∀ k, ¬ closes 40 41 1 [98; 41; 10; 97; 40] k).
Proof. apply (opening_bracket_matched sample [97] [98; 41; 10; 97; 40] 40 41); [apply sample_run|apply sample_run|reflexivity]. Defined.

Definition match_at (t : list Z) (pos : Z) : option Z := fst <$> find_match pos (loaded t).

(** A closing bracket is matched as if it were an opening one: looking back, an
    opening bracket goes deeper.  In [()] the second has no match; in [))] the second
    has the first. *)
Example closing_bracket_unmatched : match_at [40; 41] 0 = Some 1 ∧ match_at [40; 41] 1 = Some (-1) ∧ match_at [41; 41] 1 = Some 0.
Proof. split_and!; reflexivity. Qed.
