(* ===== verification/GraphyKeys.v ===== *)
(** * GraphyKeys: the editor's keys refine a text with a cursor

    A reader of the screen sees a text in two parts, before and after the cursor
    ([zed]); [zstep] is what typing, Backspace, Delete, the arrows and the Insert key
    mean there.  The main loop of [graphy.c], with its buffer, undo stack, line table
    and three cursor variables, implements it. *)

From Stdlib Require Import ZArith Lia.
From stdpp Require Import gmap list prelude.
From S2P Require Import Prelude Libc LibcAlloc Stdio Tui TuiProof Graphy GraphyProof GraphyText.

Open Scope Z_scope.

(** ** The specification *)

Inductive key := Char (c : Z) | Back | Left | Right | Insert | Numbers.

Definition code (k : key) : Z :=
  match k with
  | Char c => c | Back => TUI_KEY_BS | Left => TUI_KEY_LEFT | Right => TUI_KEY_RIGHT
  | Insert => TUI_KEY_INS | Numbers => TUI_KEY_F2
  end.

(** [before] is reversed: its head is the character left of the cursor. *)
Record zed := mkZed { before : list Z; after : list Z; over : bool }.

Definition zstep (z : zed) (k : key) : zed :=
  match k with
  | Char c =>
      match over z, after z with
      | true, d :: rest => mkZed (c :: before z) (if d =? 10 then after z else rest) true
      | _, _ => mkZed (c :: before z) (after z) (over z)
      end
  | Back => match before z with [] => z | _ :: b => mkZed b (after z) (over z) end
  | Left => match before z with [] => z | c :: b => mkZed b (c :: after z) (over z) end
  | Right => match after z with [] => z | c :: a => mkZed (c :: before z) a (over z) end
  | Insert => mkZed (before z) (after z) (negb (over z))
  | Numbers => z
  end.

(** The column and the line of the cursor. *)
Definition place (z : zed) : Z * Z := position (rev (before z) ++ after z) (length (before z)) 0 0.
(** The column and the line the editor keeps beside the offset: found anew when an arrow
    or Backspace has moved the cursor, counted on when a character is typed; one typed in
    the last of the 80 columns takes them to the start of the next line, although the
    line of the text goes on. *)
Definition cstep (z : zed) (k : key) (p : Z * Z) : Z * Z :=
  match k with
  | Char _ => if 80 <=? fst p + 1 then (0, snd p + 1) else (fst p + 1, snd p)
  | Back | Left => match before z with [] => p | _ => place (zstep z k) end
  | Right => match after z with [] => p | _ => place (zstep z k) end
  | Insert | Numbers => p
  end.
Definition zcstep (s : zed * (Z * Z)) (k : key) : zed * (Z * Z) := (zstep (fst s) k, cstep (fst s) k (snd s)).

(** Newlines, and texts of at most 4096 lines. *)
Definition newlines (t : list Z) : nat := length (filter (.= 10) t).
Definition few (z : zed) : Prop := (newlines (before z) + newlines (after z) < 4096)%nat.

Definition printable (k : key) : Prop := match k with Char c => 32 ≤ c ≤ 126 | _ => True end.

(** The end of the round of the main loop that [k] takes. *)
Definition press (k : key) : G unit := edit_key (code k) ;! on_ed clamp.
Fixpoint presses (ks : list key) : G unit := match ks with [] => skip | k :: ks' => press k ;! presses ks' end.

(** ** The relation *)

Definition zlen (z : zed) : Z := Z.of_nat (length (before z)).

Record holds (z : zed) (e : ed) : Prop := mkHolds {
  h_wf : ewf e;
  h_text : tx e = rev (before z) ++ after z;
  h_cursor : e_co e = zlen z;
  h_over : nz (e_overwrite e) = over z }.

Definition rep (z : zed) (e : ed) : Prop := holds z e ∧ built e.
Definition xy (e : ed) : Z * Z := (e_cx e, e_cy e).

Lemma starts_newlines t : ∀ i, length (starts_from i t) = newlines t.
Proof.
  unfold newlines. induction t as [|c t IH]; intros i; [done|]. simpl. rewrite filter_cons.
  destruct (Z.eqb_spec c 10); case_decide; try done; simpl; by rewrite IH.
Qed.
Lemma newlines_app t u : newlines (t ++ u) = (newlines t + newlines u)%nat.
Proof. unfold newlines. by rewrite filter_app, length_app. Qed.
Lemma newlines_rev t : newlines (rev t) = newlines t.
Proof. induction t as [|c t IH]; [done|]. simpl. rewrite newlines_app, IH. change (c :: t) with ([c] ++ t). rewrite newlines_app. lia. Qed.
Lemma newlines_cons c t : newlines (c :: t) = (newlines [c] + newlines t)%nat.
Proof. apply (newlines_app [c] t). Qed.
Lemma newlines_char c : 32 ≤ c → newlines [c] = 0%nat.
Proof. intros Hc. unfold newlines. rewrite filter_cons, decide_False by lia. done. Qed.

Lemma few_lines z e : few z → tx e = rev (before z) ++ after z → (length (line_starts (tx e)) ≤ Z.to_nat 4096)%nat.
Proof. intros Hf ->. unfold line_starts. cbn [length]. rewrite starts_newlines, newlines_app, newlines_rev. unfold few in Hf. lia. Qed.
Lemma few_step z k : few z → printable k → few (zstep z k).
Proof.
  unfold few. intros Hf Hk. destruct z as [b a o], k; simpl in *; try done.
  - pose proof (newlines_char c ltac:(lia)). destruct o; [destruct a as [|d a]|]; simpl in *; rewrite ?(newlines_cons c b) in *; try lia.
    case_match; rewrite (newlines_cons d a) in *; lia.
  - destruct b as [|c b]; simpl in *; [done|]. rewrite (newlines_cons c b) in Hf. lia.
  - destruct b as [|c b]; simpl in *; [done|]. rewrite (newlines_cons c b) in Hf. rewrite (newlines_cons c a). lia.
  - destruct a as [|c a]; simpl in *; [done|]. rewrite (newlines_cons c a) in Hf. rewrite (newlines_cons c b). lia.
Qed.

(** As long as no line is longer than the screen is wide, typing keeps the column and
    the line those of the cursor. *)
Lemma position_app t u : ∀ x y, position (t ++ u) (length t) x y = position t (length t) x y.
Proof. induction t as [|c t IH]; intros x y; simpl; [by destruct u|]. case_match; apply IH. Qed.
Lemma position_snoc t c : c ≠ 10 → ∀ x y,
  position (t ++ [c]) (length (t ++ [c])) x y = (fst (position t (length t) x y) + 1, snd (position t (length t) x y)).
Proof.
  intros Hc. induction t as [|d t IH]; intros x y; simpl; [by rewrite (proj2 (Z.eqb_neq c 10))|]. case_match; apply IH.
Qed.
Lemma place_typed z c : 32 ≤ c → fst (place z) < 79 → cstep z (Char c) (place z) = place (zstep z (Char c)).
Proof.
  intros Hc Hx. simpl. rewrite (proj2 (Z.leb_gt _ _)) by lia.
  assert (Hp : ∀ b a o, place (mkZed b a o) = position (rev b) (length (rev b)) 0 0).
  { intros b a o. unfold place. cbn [before after]. rewrite <- (length_rev b). apply position_app. }
  destruct z as [b a o]. cbn [before after over zstep].
  assert (Ht : ∀ a' o', (fst (place (mkZed b a o)) + 1, snd (place (mkZed b a o))) = place (mkZed (c :: b) a' o')).
  { intros a' o'. rewrite !Hp. simpl rev. by rewrite position_snoc by lia. }
  destruct o, a; apply Ht.
Qed.

Lemma holds_sz z e : holds z e → e_sz e = zlen z + Z.of_nat (length (after z)).
Proof. intros [W Et _ _]. rewrite <- (tx_length e W), Et, length_app, length_rev. unfold zlen. lia. Qed.

(** Setting what the relation does not speak of. *)
Lemma rep_xy z e x y : rep z e → rep z (set_xy x y e).
Proof. intros [[[] ? ? ?] B]. split; [by split|exact B]. Qed.
Lemma rep_top z e t : rep z e → rep z (set_top t e).
Proof. intros [[[] ? ? ?] B]. split; [by split|exact B]. Qed.
Lemma rep_msg z e m a : rep z e → rep z (set_msg m a e).
Proof. intros [[[] ? ? ?] B]. split; [by split|exact B]. Qed.
Lemma rep_linenos z e v : rep z e → rep z (set_linenos v e).
Proof. intros [[[] ? ? ?] B]. split; [by split|exact B]. Qed.

(** The parts of a key, each keeping the relation. *)
Lemma relines z e (Q : unit → ed → Prop) : holds z e → (∀ e', rep z e' → xy e' = xy e → Q tt e') → wp lns_build e Q.
Proof.
  intros [W Et Ec Eo] HQ. destruct (lns_build_run e W) as (ls & n & E & W' & B). eapply wp_run; [exact E|]. apply HQ; [|done].
  split; [by split|exact B].
Qed.

Lemma recursor z e (Q : unit → ed → Prop) :
  rep z e → few z → (∀ e', rep z e' → xy e' = place z → Q tt e') → wp (set_cursor_at (zlen z)) e Q.
Proof.
  intros R Hf HQ. pose proof R as [H B]. pose proof (holds_sz z e H). pose proof H as [W Et _ _].
  destruct (off_xy_place e (zlen z) W B) as [E _]; [unfold zlen in *; lia|by eapply few_lines|].
  rewrite Et in E. unfold zlen in E at 2. rewrite Nat2Z.id in E. unfold set_cursor_at. wp_step.
  eapply wp_run; [exact E|]. cbv beta. wp_step. apply HQ; [by apply rep_xy|]. unfold xy, place. simpl. by destruct (position _ _ _ _).
Qed.

Lemma rescroll z e (Q : unit → ed → Prop) :
  rep z e → (∀ e', rep z e' → xy e' = (if 80 <=? e_cx e then (0, e_cy e + 1) else xy e) → Q tt e') → wp (wrap_cursor ;! follow_cursor) e Q.
Proof.
  intros R HQ. unfold wrap_cursor. do 2 wp_step. set (e1 := if COLS <=? e_cx e then set_xy 0 (e_cy e + 1) e else e).
  assert (R1 : rep z e1) by (subst e1; destruct (_ <=? _); [by apply rep_xy|done]).
  destruct (follow_cursor_run e1) as [v E]. eapply wp_run; [exact E|]. apply HQ; [by apply rep_top|].
  subst e1. unfold COLS. by destruct (80 <=? e_cx e).
Qed.

Lemma clamped z e : rep z e → clamp e = Some (tt, e).
Proof.
  intros [H _]. pose proof (holds_sz z e H). pose proof (h_cursor z e H). assert (0 ≤ zlen z) by (unfold zlen; lia).
  unfold clamp, bind, modify. replace (e_sz e <? e_co e) with false by lia. by replace (e_co e <? 0) with false by lia.
Qed.

(** ** Typing *)

(** Replacing a character that is no newline by another moves no line. *)
Lemma starts_replace t1 c d t2 i : c ≠ 10 → d ≠ 10 → starts_from i (t1 ++ c :: t2) = starts_from i (t1 ++ d :: t2).
Proof.
  intros Hc Hd. revert i. induction t1 as [|x t1 IH]; intros i; simpl.
  - by replace (c =? 10) with false by lia; replace (d =? 10) with false by lia.
  - by rewrite IH.
Qed.

Lemma same_over e e' : same_place e e' → e_overwrite e' = e_overwrite e ∧ e_co e' = e_co e ∧ xy e' = xy e.
Proof. by intros (b & sz & u & h & k & m & ->). Qed.

Lemma typed_over z e c d rest (Q : unit → ed → Prop) :
  rep z e → after z = d :: rest → d ≠ 10 → c ≠ 10 →
  (∀ e', xy e' = xy e → rep (mkZed (c :: before z) rest (over z)) (set_xy (e_cx e') (e_cy e') (set_co (e_co e' + 1) e')) → Q tt e') →
  wp (wr (e_co e) c ;! modify (set_mod 1)) e Q.
Proof.
  intros [[W Et Ec Eo] B] Ea Hd Hc HQ. destruct (buf_split e W) as [r Eb]. rewrite Et, Ea, <- app_assoc in Eb. simpl in Eb.
  wp_step. eapply wp_run.
  { apply (wr_mid e (rev (before z)) d (rest ++ r)); [exact Eb|]. rewrite length_rev. exact Ec. }
  wp_step. apply HQ; [done|]. set (e1 := set_mod 1 _). pose proof (holds_sz z e (mkHolds z e W Et Ec Eo)) as Hs. rewrite Ea in Hs. simpl in Hs.
  assert (W1 : ewf e1).
  { destruct W as [Ws ? ? ? ? ?]. split; try done. simpl. rewrite Eb in Ws. rewrite length_app in *. simpl in *. lia. }
  assert (T1 : tx e1 = rev (before z) ++ c :: rest).
  { apply (tx_app e1 _ r W1); simpl; [by rewrite <- app_assoc|]. rewrite length_app, length_rev. simpl. unfold zlen in Hs. lia. }
  split; [split|].
  - by destruct W1.
  - change (tx e1 = rev (c :: before z) ++ rest). simpl. by rewrite T1, <- app_assoc.
  - simpl. rewrite Ec. unfold zlen. simpl. lia.
  - exact Eo.
  - change (table e (take MAX (line_starts (tx e1)))). unfold built in B. rewrite Et, Ea in B. rewrite T1.
    unfold line_starts in *. by rewrite (starts_replace _ c d).
Qed.

Lemma typed_in z e w c (Q : unit → ed * world → Prop) :
  rep z e → u_grants w = [] → e_sz e < 2 ^ 30 →
  (∀ e', e_co e' = zlen z → xy e' = xy e → holds (mkZed (c :: before z) (after z) (over z)) (set_co (e_co e' + 1) e') → Q tt (e', w)) →
  wp (ins (e_co e) c) (e, w) Q.
Proof.
  intros [[W Et Ec Eo] B] Eg Hb HQ. destruct (ins_run e w (rev (before z)) c (after z) W Eg Hb Et) as (e1 & E1 & W1 & Et1 & _ & P1 & _).
  apply same_over in P1 as (P1 & P2 & P3). eapply wp_run.
  { replace (e_co e) with (Z.of_nat (length (rev (before z)))) by (rewrite length_rev; symmetry; exact Ec). exact E1. }
  apply HQ; [by rewrite P2|done|]. split.
  - by destruct W1.
  - change (tx e1 = rev (c :: before z) ++ after z). simpl. by rewrite Et1, <- app_assoc.
  - simpl. rewrite P2, Ec. unfold zlen. simpl. lia.
  - simpl. by rewrite P1.
Qed.

Lemma holds_xy z e x y : holds z e → holds z (set_xy x y e).
Proof. intros [[] ? ? ?]. by split. Qed.

(** What every key is proved to do. *)
Definition does (k : key) (m : G unit) : Prop := ∀ z e w (Q : unit → ed * world → Prop),
  rep z e → few z → u_grants w = [] → e_sz e < 2 ^ 30 →
  (∀ e', rep (zstep z k) e' → xy e' = cstep z k (xy e) → Q tt (e', w)) → wp m (e, w) Q.

Lemma typed_char c : 32 ≤ c ≤ 126 → does (Char c) (key_char c).
Proof.
  intros Hc z e w Q R Hfew Eg Hb HQ. pose proof R as [H B]. pose proof (holds_sz z e H) as Hs. pose proof H as [W Et Ec Eo].
  unfold key_char. wp_step. unfold eget at 1. wp_step. unfold id. cbn [fst]. rewrite Eo.
  assert (Hin : over z = false ∨ after z = [] ∨ head (after z) = Some 10 → zstep z (Char c) = mkZed (c :: before z) (after z) (over z)).
  { intros Hz. simpl. destruct (over z); [|done]. destruct (after z) as [|d r]; [done|]. destruct Hz as [?|[?|[= ->]]]; done. }
  wp_step. apply (wp_mono _ _ (λ b s, s = (e, w) ∧ b = over z && match after z with d :: _ => negb (d =? 10) | [] => false end)).
  { destruct (over z); simpl; [|by wp_step].
    destruct (after z) as [|d r] eqn:Ea; simpl in Hs.
    - replace (e_co e <? e_sz e) with false by lia. by wp_step.
    - replace (e_co e <? e_sz e) with true by lia. wp_step. unfold on_ed. wp_step. destruct (buf_split e W) as [r' Eb].
      rewrite Et, <- app_assoc in Eb. eapply wp_run; [apply (rd_mid e (rev (before z)) d (r ++ r')); [exact Eb|by rewrite length_rev]|]. by wp_step. }
  intros b s [-> Hov]. destruct b; wp_step.
  - destruct (over z) eqn:Ez; [|done]. destruct (after z) as [|d r] eqn:Ea; [done|]. simpl in Hov. unfold on_ed at 1. wp_step. cbn [fst snd].
    apply (typed_over z e c d r); [done|done|lia|lia|]. intros e1 X1 R1. rewrite Ez in R1.
    assert (zstep z (Char c) = mkZed (c :: before z) r true) as Hz by (simpl; rewrite Ez, Ea; by replace (d =? 10) with false by lia). rewrite Hz in HQ.
    unfold on_ed. do 3 wp_step. cbn [fst]. wp_step. wp_step. eapply rescroll; [|intros e2 R2 X2; apply HQ; [done|]; rewrite X2; injection X1 as -> ->; done]. by apply (rep_xy _ _ (e_cx e1 + 1) (e_cy e1)) in R1.
  - rewrite Hin in HQ by (destruct (over z), (after z) as [|d r]; auto; simpl in Hov; destruct (Z.eqb_spec d 10) as [->|]; auto).
    apply (typed_in z); [done|done|done|]. intros e1 E1 X1 H1. unfold on_ed. do 3 wp_step. cbn [fst]. wp_step.
    eapply relines; [by apply (holds_xy _ _ (e_cx e1 + 1) (e_cy e1)) in H1|]. intros e2 R2 X2.
    eapply rescroll; [exact R2|]. intros e3 R3 X3. apply HQ; [done|]. rewrite X3, X2. injection X2 as -> ->. injection X1 as E2 E3. unfold xy. simpl. by rewrite E2, E3.
Qed.

(** ** Moving and deleting *)

(** The cursor one character to the left or to the right. *)
Lemma rep_move z z' e :
  rep z e → rev (before z') ++ after z' = rev (before z) ++ after z → over z' = over z → rep z' (set_co (zlen z') e).
Proof. intros [[W Et Ec Eo] B] Hr Ho. split; [|exact B]. split; [by destruct W|by rewrite Hr|done|by rewrite Ho]. Qed.

Lemma key_moves z z' e w (Q : unit → ed * world → Prop) :
  rep z e → rev (before z') ++ after z' = rev (before z) ++ after z → over z' = over z → few z' →
  (∀ e', rep z' e' → xy e' = place z' → Q tt (e', w)) →
  wp (on_ed (modify (set_co (zlen z')) ;! set_cursor_at (zlen z'))) (e, w) Q.
Proof.
  intros R Hr Ho Hf HQ. pose proof (rep_move z z' e R Hr Ho) as R'. unfold on_ed. do 3 wp_step.
  apply (recursor z'); [done|done|]. intros e' Re Xe. by apply HQ.
Qed.

Lemma pressed_left : does Left (edit_key TUI_KEY_LEFT).
Proof.
  intros z e w Q R Hfew _ _ HQ. pose proof R as [[W Et Ec Eo] B]. unfold edit_key. wp_step. unfold eget. wp_step. unfold id. cbn [fst].
  change (wp (if 0 <? e_co e then on_ed (modify (set_co (e_co e - 1)) ;! set_cursor_at (e_co e - 1)) else skip) (e, w) Q).
  simpl in HQ. rewrite Ec. unfold zlen. destruct z as [[|c b] a o]; simpl in *.
  { wp_step. by apply HQ. }
  pose proof (few_step _ Left Hfew I) as Hfew'.
  replace (Z.of_nat (S (length b)) - 1) with (zlen (mkZed b (c :: a) o)) by (unfold zlen; simpl; lia).
  apply (key_moves (mkZed (c :: b) a o)); [done|simpl; by rewrite <- app_assoc|done|done|done].
Qed.

Lemma pressed_right : does Right (edit_key TUI_KEY_RIGHT).
Proof.
  intros z e w Q R Hfew _ _ HQ. pose proof R as [H B]. pose proof (holds_sz z e H) as Hs. pose proof (h_cursor z e H) as Ec.
  unfold edit_key. wp_step. unfold eget. wp_step. unfold id. cbn [fst].
  change (wp (if e_co e <? e_sz e then on_ed (modify (set_co (e_co e + 1)) ;! set_cursor_at (e_co e + 1)) else skip) (e, w) Q).
  simpl in HQ. destruct z as [b [|c a] o]; simpl in *.
  { replace (e_co e <? e_sz e) with false by lia. wp_step. by apply HQ. }
  replace (e_co e <? e_sz e) with true by lia.
  replace (e_co e + 1) with (zlen (mkZed (c :: b) a o)) by (rewrite Ec; unfold zlen; simpl; lia).
  pose proof (few_step _ Right Hfew I) as Hfew'. apply (key_moves (mkZed b (c :: a) o)); [done|simpl; by rewrite <- app_assoc|done|done|done].
Qed.

Lemma pressed_back : does Back (edit_key TUI_KEY_BS).
Proof.
  intros z e w Q R Hfew _ _ HQ. pose proof R as [[W Et Ec Eo] B]. unfold edit_key. wp_step. unfold eget. wp_step. unfold id. cbn [fst].
  change (wp (if 0 <? e_co e then on_ed (del (e_co e - 1) ;! modify (set_co (e_co e - 1)) ;! lns_build ;! set_cursor_at (e_co e - 1)) else skip) (e, w) Q).
  simpl in HQ. rewrite Ec. unfold zlen. destruct z as [[|c b] a o]; simpl in *.
  { wp_step. by apply HQ. }
  rewrite <- app_assoc in Et. destruct (del_run e (rev b) c a W Et) as (e1 & E1 & W1 & Et1 & _ & P1 & _ & _).
  apply same_over in P1 as (P1 & P2 & P3). replace (Z.of_nat (S (length b)) - 1) with (Z.of_nat (length (rev b))) by (rewrite length_rev; lia).
  unfold on_ed. do 2 wp_step. cbn [fst snd]. eapply wp_run; [exact E1|]. do 2 wp_step.
  assert (H1 : holds (mkZed b a o) (set_co (Z.of_nat (length (rev b))) e1)).
  { split; [by destruct W1|done|simpl; by rewrite length_rev|simpl; by rewrite P1]. }
  wp_step. apply (relines _ _ _ H1). intros e2 R2 _. rewrite length_rev.
  apply (recursor (mkZed b a o)); [done|exact (few_step _ Back Hfew I)|done].
Qed.

Lemma pressed_insert : does Insert (edit_key TUI_KEY_INS).
Proof.
  intros z e w Q R Hfew _ _ HQ. pose proof R as [[W Et Ec Eo] B]. unfold edit_key. wp_step. unfold eget. wp_step. unfold id. cbn [fst].
  match goal with |- wp ?m _ _ => change m with (on_ed (modify (λ e, set_overwrite (if nz (e_overwrite e) then 0 else 1) e) ;!
      sts (if nz (e_overwrite e) then [73; 110; 115; 101; 114; 116] else [79; 118; 101; 114; 119; 114; 105; 116; 101]))) end.
  unfold on_ed, sts. do 4 wp_step. apply HQ; [|done]. apply rep_msg. split; [|exact B]. split; [by destruct W|exact Et|exact Ec|].
  simpl. rewrite Eo. by destruct (over z).
Qed.

Lemma pressed_numbers : does Numbers (edit_key TUI_KEY_F2).
Proof.
  intros z e w Q R Hfew _ _ HQ. unfold edit_key. wp_step. unfold eget. wp_step. unfold id. cbn [fst].
  match goal with |- wp ?m _ _ => let m' := eval cbv [TUI_KEY_F2 Z.eqb Pos.eqb] in m in change m with m' end. cbv iota.
  unfold on_ed, sts. do 4 wp_step. apply HQ; [by apply rep_msg, rep_linenos|done].
Qed.

Lemma pressed k : printable k → does k (edit_key (code k)).
Proof.
  destruct k as [c| | | | |]; simpl; intros Hk;
    [|apply pressed_back|apply pressed_left|apply pressed_right|apply pressed_insert|apply pressed_numbers].
  intros z e w Q R Hfew Eg Hb HQ. unfold edit_key. wp_step. unfold eget. wp_step.
  unfold TUI_KEY_F2, TUI_KEY_INS, TUI_KEY_UP, TUI_KEY_DOWN, TUI_KEY_LEFT, TUI_KEY_RIGHT, TUI_KEY_HOME, TUI_KEY_END, TUI_KEY_PGUP,
    TUI_KEY_PGDN, TUI_KEY_DEL, TUI_KEY_BS, TUI_KEY_ENTER, TUI_KEY_TAB.
  repeat match goal with |- context [c =? ?n] => replace (c =? n) with false by lia end.
  replace (32 <=? c) with true by lia. replace (c <=? 126) with true by lia. by apply (typed_char c Hk z e w Q).
Qed.

Lemma zstep_length z k : zlen (zstep z k) + Z.of_nat (length (after (zstep z k))) ≤ zlen z + Z.of_nat (length (after z)) + 1.
Proof. destruct z as [[|x b] [|y a] []], k; unfold zlen; simpl; try case_match; simpl; lia. Qed.

Lemma presses_run ks : ∀ z e w,
  rep z e → few z → u_grants w = [] → Forall printable ks → e_sz e + Z.of_nat (length ks) ≤ 2 ^ 30 →
  ∃ e', presses ks (e, w) = Some (tt, (e', w)) ∧ rep (foldl zcstep (z, xy e) ks).1 e' ∧ xy e' = (foldl zcstep (z, xy e) ks).2.
Proof.
  induction ks as [|k ks IH]; intros z e w R Hf Eg Hk Hb; [by exists e|]. apply Forall_cons in Hk as [Hk Hks]. cbn [length] in Hb.
  assert (wp (press k) (e, w) (λ _ s, ∃ e1, s = (e1, w) ∧ rep (zstep z k) e1 ∧ xy e1 = cstep z k (xy e))) as ([] & s1 & E1 & e1 & -> & R1 & X1).
  { unfold press. wp_step. apply (pressed k Hk z e w); [done|done|done|lia|]. intros e1 R1 X1. unfold on_ed. wp_step.
    eapply wp_run; [exact (clamped _ e1 R1)|]. by exists e1. }
  pose proof (holds_sz _ _ (proj1 R)). pose proof (holds_sz _ _ (proj1 R1)). pose proof (zstep_length z k).
  destruct (IH (zstep z k) e1 w R1 (few_step z k Hf Hk) Eg Hks) as (e2 & E2 & R2); [lia|].
  exists e2. simpl presses. unfold bind. rewrite E1. split; [done|]. rewrite X1 in R2. exact R2.
Qed.

(** C14: (refinement) after any sequence of the key codes of printable characters,
    Backspace, the left and right arrows, Insert and F2, while memory is granted and the
    text has at most 4096 lines, the editor's text, cursor and mode are those of a text
    split in two at the cursor: characters go before it (over the next one in overwrite
    mode, except at the end of a line), Backspace takes the one before it, the arrows
    move one across.  The offset of the cursor is the length of the first part; its
    column and line are found anew by an arrow or Backspace and counted on by a
    character, which in the last of the 80 columns moves to the start of the next line
    ([cstep]; [place_typed]: on shorter lines they are those of the offset).  No key of
    the sequence gets stuck, and the line table is that of the text. *)
Theorem keys_edit_text (ks : list key) (z : zed) (e : ed) (w : world) :
  rep z e → few z → u_grants w = [] → Forall printable ks → e_sz e + Z.of_nat (length ks) ≤ 2 ^ 30 →
  let '(z', p) := foldl zcstep (z, (e_cx e, e_cy e)) ks in
  ∃ e', presses ks (e, w) = Some (tt, (e', w)) ∧ built e' ∧ tx e' = rev (before z') ++ after z' ∧
    e_co e' = Z.of_nat (length (before z')) ∧ (e_cx e', e_cy e') = p ∧ nz (e_overwrite e') = over z'.
Proof.
  intros R Hf Eg Hk Hb. destruct (presses_run ks z e w R Hf Eg Hk Hb) as (e' & E & [[W Et Ec Eo] B] & X).
  unfold xy in *. destruct (foldl zcstep (z, (e_cx e, e_cy e)) ks) as [z' p]. by exists e'.
Qed.

(** ** Concrete runs *)

Lemma with_text_rep t : rep (mkZed [] t false) (with_text t).
Proof.
  destruct (with_text_run t) as (ls & n & E & W & B & Et). split; [|done]. split; [done|done| |]; by rewrite E.
Qed.

Lemma keys_edit_text_witness :
  let ks := [Char 72; Right; Back; Insert; Char 88; Left] in
  let '(z', p) := foldl zcstep (mkZed [] (tx sample) false, (e_cx sample, e_cy sample)) ks in
  ∃ e', presses ks (sample, idle) = Some (tt, (e', idle)) ∧ built e' ∧ tx e' = rev (before z') ++ after z' ∧
    e_co e' = Z.of_nat (length (before z')) ∧ (e_cx e', e_cy e') = p ∧ nz (e_overwrite e') = over z'.
Proof.
  apply (keys_edit_text [Char 72; Right; Back; Insert; Char 88; Left] (mkZed [] (tx sample) false) sample idle);
    [rewrite (proj2 (proj2 sample_run)); exact (with_text_rep sample_text)|rewrite (proj2 (proj2 sample_run)); vm_compute; lia|
     reflexivity|repeat constructor; vm_compute; done|vm_compute; done].
Defined.

(** ** Whole runs of the program *)

(** A disk with one file, of any name. *)
#[local] Instance one_file : Files := {|
  fs := list Z;
  fs_stat _ f := Some (Z.of_nat (length f));
  fs_read _ n f := Some (take (Z.to_nat n) f);
  fs_write _ bs _ := Some bs |}.

Definition typing (ks : list Z) : world := set_in (map Key ks) idle.
(** The exit status and the file at the end. *)
Definition session (file : option (list Z)) (disk ks : list Z) : option (Z * list Z) :=
  (λ r : Z * (ed * world * list Z), (fst r, snd (snd r))) <$> main file (globals 0, typing ks, disk).

(** Without a file the first screen reads the text through a null pointer. *)
Example no_file_no_text : session None [] [24] = None.
Proof. vm_compute. reflexivity. Qed.

(** The sequence of the left arrow, [ESC \[ D], is taken for the right one, and the
    other way round. *)
Example arrows_swapped :
  fst <$> tui_getch (typing [27; 91; 68]) = Some TUI_KEY_RIGHT ∧ fst <$> tui_getch (typing [27; 91; 67]) = Some TUI_KEY_LEFT.
Proof. split; reflexivity. Qed.

(** Enter has the code of ^J: the main loop takes it for "go to line" and its own case
    in the [switch] is not reached. *)
Lemma enter_goes_to_line (s : ed * world) (d : list Z) (ks : list event) e1 w1 :
  screen s = Some (tt, (e1, w1)) → u_in w1 = Key TUI_KEY_ENTER :: ks →
  main_round tt (s, d) =
    (key_goto ;! ret (inl tt)) (set_msg (if 1000000 <? e_msg_age e1 + 1 then [] else e_msg e1) (e_msg_age e1 + 1) e1, set_in ks w1, d).
Proof.
  intros Es Ei. unfold main_round, bind at 1, ed_part at 1, zoom. cbn [fst snd]. rewrite Es. unfold bind at 1, ed_part at 1, zoom at 1, on_tui, zoom at 1. cbn [fst snd].
  unfold tui_getch, bind at 1. replace (getchar w1) with (Some (10, set_in ks w1)) by (unfold getchar; by rewrite Ei). reflexivity.
Qed.
