(* ===== verification/MachO.v ===== *)
(** * MachO: the loader [OvsbMk/kernel/mach_o.c]

    A Mach-O image lies in kernel memory at [data]; its segments are copied to their
    addresses, in the identity mapping ([mach_o_load]) or into fresh 2 MB pages of
    another address space ([mach_o_load_into_pml4]).  Structure fields are read from
    memory again at every use, as a [uint8_t *] may alias them.  [max_va], which
    nothing reads, is left out, like the length argument and the messages. *)

From Stdlib Require Import ZArith Lia.
From stdpp Require Import gmap list prelude.
From S2P Require Import Prelude KHeap Buddy Slab Paging.

Open Scope Z_scope.

(** ** Bytes of the kernel's memory *)

Definition byte_of (w k : Z) : Z := Z.land (Z.shiftr w (8 * k)) 255.
Definition with_byte (w k v : Z) : Z := Z.lor (Z.ldiff w (Z.shiftl 255 (8 * k))) (Z.shiftl (u8 v) (8 * k)).

Definition byte (m : gmap Z Z) (a : Z) : Z := byte_of (ld m (8 * (a / 8))) (a mod 8).
Definition put_byte (m : gmap Z Z) (a v : Z) : gmap Z Z :=
  st m (8 * (a / 8)) (with_byte (ld m (8 * (a / 8))) (a mod 8) v).

(** The [n] bytes from [a], and the little-endian number they are. *)
Definition bytes_at (m : gmap Z Z) (a : Z) (n : nat) : list Z := (λ i, byte m (u64 (a + i))) <$> seqZ 0 (Z.of_nat n).
Definition field (m : gmap Z Z) (a : Z) (n : nat) : Z := le_value (bytes_at m a n).

Definition load8 (a : Z) : M heap Z := gets (λ h, byte (h_mem h) a).
Definition store8 (a v : Z) : M heap unit := modify (λ h, set_mem (put_byte (h_mem h) a v) h).
Definition rd32 (a : Z) : M heap Z := gets (λ h, field (h_mem h) a 4).
Definition rd64 (a : Z) : M heap Z := gets (λ h, field (h_mem h) a 8).

(** ** The format *)

Definition MH_MAGIC_64 : Z := 0xFEEDFACF.
Definition MH_CIGAM_64 : Z := 0xCFFAEDFE.
Definition FAT_MAGIC : Z := 0xCAFEBABE.
Definition FAT_CIGAM : Z := 0xBEBAFECA.
Definition LC_SEGMENT_64 : Z := 0x19.
Definition LC_MAIN : Z := 0x80000028.
Definition LC_UNIXTHREAD : Z := 0x05.

(** Offsets of the fields of [mach_header_64_t], [load_command_t],
    [segment_command_64_t] and [entry_point_command_t]. *)
Definition sizeof_header : Z := 32.
Definition off_ncmds : Z := 16.
Definition off_cmdsize : Z := 4.
Definition off_vmaddr : Z := 24.
Definition off_vmsize : Z := 32.
Definition off_fileoff : Z := 40.
Definition off_filesize : Z := 48.
Definition off_entryoff : Z := 8.
(** [((uint64_t * )((uint32_t * )(cmds + 16) + 8))\[0\]] *)
Definition off_thread_entry : Z := 48.

(** ** Loading in place *)

(** [for (j = 0; j < seg->filesize; j++) dst\[j\] = src\[j\];] *)
Definition copy_segment (cmds dst src : Z) : M heap unit :=
  while_ (λ j,
    let! fs := rd64 (cmds + off_filesize) in
    if j <? fs then
      let! c := load8 (u64 (src + j)) in
      store8 (u64 (dst + j)) c ;!
      ret (inl (j + 1))
    else ret (inr tt)) 0.

(** [for (j = seg->filesize; j < seg->vmsize; j++) dst\[j\] = 0;] *)
Definition clear_tail (cmds dst : Z) : M heap unit :=
  let! fs := rd64 (cmds + off_filesize) in
  while_ (λ j,
    let! vs := rd64 (cmds + off_vmsize) in
    if j <? vs then store8 (u64 (dst + j)) 0 ;! ret (inl (j + 1)) else ret (inr tt)) fs.

(** [for (addr = seg_end; addr < extra_end; addr++) *addr = 0;] *)
Definition clear_range (from to : Z) : M heap unit :=
  while_ (λ a, if a <? to then store8 a 0 ;! ret (inl (a + 1)) else ret (inr tt)) from.

(** [entry], [file_base] and [slide]. *)
Record loading := mkLoading { l_entry : Z; l_base : Z; l_slide : Z }.

(** The base and the slide after a segment. *)
Definition based (s : loading) (vmaddr : Z) : loading :=
  if l_base s =? 0 then mkLoading (l_entry s) vmaddr vmaddr else s.

Definition load_segment (data cmds : Z) (s : loading) : M heap loading :=
  let! fs := rd64 (cmds + off_filesize) in
  if 0 <? fs then
    let! va := rd64 (cmds + off_vmaddr) in
    let s := based s va in
    let dst := u64 (va - l_base s + l_slide s) in
    let! fo := rd64 (cmds + off_fileoff) in
    copy_segment cmds dst (u64 (data + fo)) ;!
    clear_tail cmds dst ;!
    let! vs := rd64 (cmds + off_vmsize) in
    let seg_end := u64 (dst + vs) in
    clear_range seg_end (Z.ldiff (u64 (seg_end + 0x1BFFF)) 0xFFF) ;!
    ret s
  else ret s.

(** The two commands that say where the program starts. *)
Definition entry_command (cmd cmds : Z) (s : loading) : M heap loading :=
  if cmd =? LC_MAIN then
    let! eo := rd64 (cmds + off_entryoff) in
    ret (mkLoading (u64 (l_slide s + eo)) (l_base s) (l_slide s))
  else if cmd =? LC_UNIXTHREAD then
    let! oe := rd64 (cmds + off_thread_entry) in
    ret (mkLoading (if nz (l_base s) then u64 (oe - l_base s + l_slide s) else oe) (l_base s) (l_slide s))
  else ret s.

(** One command: the next one and what is known. *)
Definition load_command (data : Z) : Z * Z * loading → M heap (Z * Z * loading + loading) := λ '(i, cmds, s),
  let! n := rd32 (data + off_ncmds) in
  if i <? n then
    let! cmd := rd32 cmds in
    let! s := (if cmd =? LC_SEGMENT_64 then load_segment data cmds s else entry_command cmd cmds s) in
    let! size := rd32 (cmds + off_cmdsize) in
    ret (inl (u32 (i + 1), u64 (cmds + size), s))
  else ret (inr s).

(** The entry point, 0 when there is none. *)
Definition mach_o_load (data : Z) : M heap Z :=
  let! magic := rd32 data in
  if (magic =? FAT_MAGIC) || (magic =? FAT_CIGAM) then ret 0 else
  if negb (magic =? MH_MAGIC_64) && negb (magic =? MH_CIGAM_64) then ret 0 else
  let! s := while_ (load_command data) (0, u64 (data + sizeof_header), mkLoading 0 0 0) in
  ret (l_entry s).

(** ** Address spaces of programs *)

(** The entry of a program's directory: 2 MB pages lose the user bit, entries that
    were split into tables are left out. *)
Definition hidden (e : Z) : Z := if huge e then Z.ldiff e 0x04 else 0.

(** The three new tables filled from the old ones. *)
Definition fill_clone (new_pd new_pdp new_pml4 old_pd old_pdp old_pml4 : Z) : M heap unit :=
  for_up 512 0 (λ i, let! e := entry old_pd i in set_entry new_pd i (hidden e)) ;!
  set_entry new_pdp 0 (Z.lor new_pd 0x07) ;!
  for_up 511 1 (λ i, let! e := entry old_pdp i in set_entry new_pdp i e) ;!
  set_entry new_pml4 0 (Z.lor new_pdp 0x07) ;!
  for_up 511 1 (λ i, let! e := entry old_pml4 i in set_entry new_pml4 i e).

Definition clone_identity_tables : M heap Z :=
  let! old_pml4 := pml4_get_current in
  let! new_pd := mmap_user 4096 in
  if new_pd =? 0 then ret 0 else
  let! new_pdp := mmap_user 4096 in
  if new_pdp =? 0 then ret 0 else
  let! new_pml4 := mmap_user 4096 in
  if new_pml4 =? 0 then ret 0 else
  let! e4 := entry old_pml4 0 in
  let! e3 := entry (table_of e4) 0 in
  fill_clone new_pd new_pdp new_pml4 (table_of e3) (table_of e4) old_pml4 ;!
  ret new_pml4.

Definition map_2mb_in_pml4 (pml4_pa virt phys : Z) : M heap Z :=
  let! e4 := entry pml4_pa (pml4_index virt) in
  if negb (present e4) then ret (-1) else
  let! e3 := entry (table_of e4) (pdpt_index virt) in
  if negb (present e3) then ret (-1) else
  set_entry (table_of e3) (pd_index virt) (Z.lor (Z.ldiff phys 0x1FFFFF) 0x87) ;!
  ret 0.

(** [for (off = 0; off < 0x200000; off++) phys\[off\] = 0;] *)
Definition clear_page (phys : Z) : M heap unit :=
  while_ (λ off, if off <? 0x200000 then store8 (u64 (phys + off)) 0 ;! ret (inl (off + 1)) else ret (inr tt)) 0.

(** [for (va = aligned_start; va < aligned_end; va += 0x200000)]: false when there
    is no memory or no table. *)
Definition load_pages (data cmds pml4 dst_va aligned_end : Z) : Z → M heap bool :=
  while_ (λ va,
    if va <? aligned_end then
      let! phys := mmap_user 0x200000 in
      if phys =? 0 then ret (inr false) else
      let! r := map_2mb_in_pml4 pml4 va phys in
      if r <? 0 then ret (inr false) else
      clear_page phys ;!
      (if va =? Z.ldiff dst_va 0x1FFFFF then
         let! fo := rd64 (cmds + off_fileoff) in
         copy_segment cmds (u64 (phys + Z.land dst_va 0x1FFFFF)) (u64 (data + fo))
       else skip) ;!
      ret (inl (u64 (va + 0x200000)))
    else ret (inr true)).

Definition load_segment_into (data pml4 cmds : Z) (s : loading) : M heap (option loading) :=
  let! fs := rd64 (cmds + off_filesize) in
  if 0 <? fs then
    let! va := rd64 (cmds + off_vmaddr) in
    let s := based s va in
    let dst_va := u64 (va - l_base s + l_slide s) in
    let! vs := rd64 (cmds + off_vmsize) in
    let seg_end := u64 (dst_va + vs) in
    let aligned_start := Z.ldiff dst_va 0x1FFFFF in
    let aligned_end := Z.ldiff (u64 (seg_end + 0x1FFFFF)) 0x1FFFFF in
    let! ok := load_pages data cmds pml4 dst_va aligned_end aligned_start in
    if ok : bool then ret (Some s) else ret None
  else ret (Some s).

Definition load_command_into (data pml4 : Z) : Z * Z * loading → M heap (Z * Z * loading + Z) := λ '(i, cmds, s),
  let! n := rd32 (data + off_ncmds) in
  if i <? n then
    let! cmd := rd32 cmds in
    let! r := (if cmd =? LC_SEGMENT_64 then load_segment_into data pml4 cmds s
               else let! s := entry_command cmd cmds s in ret (Some s)) in
    match r with
    | None => ret (inr 0)
    | Some s =>
        let! size := rd32 (cmds + off_cmdsize) in
        ret (inl (u32 (i + 1), u64 (cmds + size), s))
    end
  else ret (inr (l_entry s)).

Definition mach_o_load_into_pml4 (data pml4 : Z) : M heap Z :=
  let! magic := rd32 data in
  if negb (magic =? MH_MAGIC_64) && negb (magic =? MH_CIGAM_64) then ret 0 else
  if pml4 =? 0 then ret 0 else
  while_ (load_command_into data pml4) (0, u64 (data + sizeof_header), mkLoading 0 0 0).
