(* ===== verification/MachOProof.v ===== *)
(** * MachOProof: the Mach-O loader

    Bytes inside the words of memory; an image as the list of its load commands;
    loading puts every segment at its address ([image_loaded]). *)

From Stdlib Require Import ZArith Lia.
From stdpp Require Import gmap list prelude.
From S2P Require Import Prelude KHeap BuddyInv BuddyProof Buddy Slab PageAlloc Paging PagingProof MachO.

Open Scope Z_scope.

(** ** Bytes *)

Lemma byte_of_bit w k i : 0 ≤ k → 0 ≤ i → Z.testbit (byte_of w k) i = (i <? 8) && Z.testbit w (i + 8 * k).
Proof.
  intros Hk Hi. unfold byte_of. change 255 with (Z.ones 8). rewrite Z.land_spec, Z.shiftr_spec, Z.testbit_ones by lia.
  replace (0 <=? i) with true by lia. by rewrite andb_comm.
Qed.

Lemma with_byte_bit w k v i : 0 ≤ k → 0 ≤ i →
  Z.testbit (with_byte w k v) i = if (8 * k <=? i) && (i <? 8 * k + 8) then Z.testbit v (i - 8 * k) else Z.testbit w i.
Proof.
  intros Hk Hi. unfold with_byte. change 255 with (Z.ones 8). rewrite Z.lor_spec, Z.ldiff_spec, !Z.shiftl_spec by lia.
  unfold u8. change 256 with (2 ^ 8). destruct (Z.leb_spec (8 * k) i) as [Hge|Hlt]; cbn [andb].
  - rewrite Z.testbit_ones, Z.testbit_mod_pow2 by lia. replace (0 <=? i - 8 * k) with true by lia.
    replace (i - 8 * k <? 8) with (i <? 8 * k + 8) by lia.
    destruct (i <? 8 * k + 8); cbn [andb negb]; by rewrite ?andb_false_r, ?andb_true_r, ?orb_false_r.
  - rewrite !(Z.testbit_neg_r _ (i - 8 * k)) by lia. by rewrite andb_true_r, orb_false_r.
Qed.

Lemma byte_of_with w k j v : 0 ≤ k → 0 ≤ j → byte_of (with_byte w k v) j = if decide (k = j) then u8 v else byte_of w j.
Proof.
  intros Hk Hj. apply Z.bits_inj'. intros i Hi. rewrite byte_of_bit, with_byte_bit by lia. destruct (decide (k = j)) as [->|Hne].
  - unfold u8. change 256 with (2 ^ 8). rewrite Z.testbit_mod_pow2 by lia. replace (8 * j <=? i + 8 * j) with true by lia.
    replace (i + 8 * j <? 8 * j + 8) with (i <? 8) by lia. replace (i + 8 * j - 8 * j) with i by lia. by destruct (i <? 8).
  - rewrite byte_of_bit by lia. destruct (Z.ltb_spec i 8) as [H8|]; cbn [andb]; [|done].
    destruct ((8 * k <=? i + 8 * j) && (i + 8 * j <? 8 * k + 8)) eqn:E; [lia|done].
Qed.

Lemma byte_put m a b v : byte (put_byte m a v) b = if decide (a = b) then u8 v else byte m b.
Proof.
  unfold byte, put_byte. rewrite ld_st.
  destruct (decide (8 * (a / 8) = 8 * (b / 8))) as [E|E].
  - rewrite byte_of_with by (apply Z.mod_pos_bound; lia). rewrite E.
    destruct (decide (a mod 8 = b mod 8)), (decide (a = b)) as [->|]; try done; Z.div_mod_to_equations; lia.
  - rewrite decide_False; [done|]. by intros ->.
Qed.

Lemma byte_range m a : 0 ≤ byte m a < 256.
Proof. unfold byte, byte_of. change 255 with (Z.ones 8). rewrite Z.land_ones by lia. by apply Z.mod_pos_bound. Qed.
Lemma u8_byte m a : u8 (byte m a) = byte m a.
Proof. apply Z.mod_small. exact (byte_range m a). Qed.

(** The same bytes give the same fields. *)
Definition agree (m m' : gmap Z Z) (lo hi : Z) : Prop := ∀ b, lo ≤ b < hi → byte m' b = byte m b.

Lemma field_agree m m' lo hi a n :
  agree m m' lo hi → lo ≤ a → a + Z.of_nat n ≤ hi → 0 ≤ lo → hi ≤ 2 ^ 64 → field m' a n = field m a n.
Proof.
  intros Hag Hlo Hhi H0 H64. unfold field, bytes_at. f_equal. apply list_fmap_ext. intros k i Hi.
  apply lookup_seqZ in Hi as [-> Hi]. unfold u64. rewrite Z.mod_small by lia. apply Hag. lia.
Qed.

Lemma le_value_range bs : 0 ≤ le_value bs < 2 ^ (8 * Z.of_nat (length bs)).
Proof.
  induction bs as [|b bs IH]; simpl le_value; [done|]. cbn [length]. rewrite Nat2Z.inj_succ.
  assert (0 ≤ u8 b < 256) by (by apply Z.mod_pos_bound).
  rewrite Z.shiftl_mul_pow2 by lia. assert (Hl : Z.land (u8 b) (le_value bs * 2 ^ 8) = 0).
  { apply Z.bits_inj'. intros i Hi. rewrite Z.land_spec, Z.bits_0. unfold u8. change 256 with (2 ^ 8). rewrite Z.testbit_mod_pow2 by lia.
    destruct (Z.ltb_spec i 8); [by rewrite Z.mul_pow2_bits_low, andb_false_r by lia|done]. }
  rewrite <- Z.lxor_lor, <- Z.add_nocarry_lxor by done.
  replace (8 * Z.succ (Z.of_nat (length bs))) with (8 + 8 * Z.of_nat (length bs)) by lia. rewrite Z.pow_add_r by lia. lia.
Qed.

Lemma field_range m a n : 0 ≤ field m a n < 2 ^ (8 * Z.of_nat n).
Proof.
  unfold field. pose proof (le_value_range (bytes_at m a n)) as H. unfold bytes_at in *. rewrite length_fmap, length_seqZ in H.
  by rewrite Nat2Z.id in H.
Qed.

(** ** The loops of a segment *)

(** [m'] differs from [m] in the bytes from [lo] to [hi] at most. *)
Definition touched (m m' : gmap Z Z) (lo hi : Z) : Prop := ∀ b, ¬ (lo ≤ b < hi) → byte m' b = byte m b.

Lemma touched_agree m m' lo hi l h : touched m m' lo hi → h ≤ lo ∨ hi ≤ l → agree m m' l h.
Proof. intros Ht Hd b Hb. apply Ht. lia. Qed.

(** A loop that writes [f j] at [dst + j], for [j] from [j0] up to the number in a
    field of the image that the writes do not reach. *)
Definition filled (m m' : gmap Z Z) (dst j0 j : Z) (f : Z → Z) : Prop :=
  touched m m' (dst + j0) (dst + j) ∧ ∀ k, j0 ≤ k < j → byte m' (dst + k) = f k.

Lemma filled_refl m dst j0 f : filled m m dst j0 j0 f.
Proof. split; [by intros b|]. intros k Hk. lia. Qed.

Lemma filled_step m m' dst j0 j f :
  filled m m' dst j0 j f → j0 ≤ j → 0 ≤ f j < 256 → filled m (put_byte m' (dst + j) (f j)) dst j0 (j + 1) f.
Proof.
  intros [Ht Hf] Hj Hr. split.
  - intros b Hb. rewrite byte_put, decide_False by lia. apply Ht. lia.
  - intros k Hk. rewrite byte_put. unfold u8. rewrite Z.mod_small by done. destruct (decide (dst + j = dst + k)) as [E|]; [f_equal; lia|].
    apply Hf. lia.
Qed.

(** The region of the image, which is not written. *)
Section image.
Context (h : heap) (data len : Z).
Let m := h_mem h.
Context (Hd0 : 0 ≤ data) (Hd1 : data + len ≤ 2 ^ 64).

Definition inside (a n : Z) : Prop := data ≤ a ∧ a + n ≤ data + len.
Definition apart (lo hi : Z) : Prop := hi ≤ data ∨ data + len ≤ lo.

Lemma field_kept m' lo hi a n : touched m m' lo hi → apart lo hi → inside a (Z.of_nat n) → field m' a n = field m a n.
Proof. intros Ht Ha [H1 H2]. apply (field_agree m m' data (data + len)); [|lia..]. apply (touched_agree m m' lo hi); [done|]. destruct Ha; lia. Qed.

Lemma copy_segment_run m0 cmds dst src fs :
  agree m m0 data (data + len) → inside (cmds + off_filesize) 8 → field m (cmds + off_filesize) 8 = fs →
  0 ≤ dst → dst + fs ≤ 2 ^ 64 → inside src fs → apart dst (dst + fs) →
  wp (copy_segment cmds dst src) (set_mem m0 h) (λ _ h', ∃ m', h' = set_mem m' h ∧
    filled m0 m' dst 0 fs (λ j, byte m (src + j))).
Proof.
  intros Hag Hin Hfs Hdst Hend Hsrc Hap. pose proof (field_range m (cmds + off_filesize) 8) as Hr. rewrite Hfs in Hr.
  unfold copy_segment. apply (wp_while (λ j h', 0 ≤ j ≤ fs ∧ ∃ m', h' = set_mem m' h ∧ filled m0 m' dst 0 j (λ j, byte m (src + j)))
    (λ j _, fs - j)).
  2:{ split; [lia|]. exists m0. split; [done|apply filled_refl]. }
  2:{ change (8 * Z.of_nat 8) with 64 in Hr. lia. }
  intros j h' (Hj & m' & -> & Hfill). pose proof Hfill as [Ht Hf]. wp_step. unfold rd64. wp_step. simpl (h_mem (set_mem m' h)).
  assert (Hag' : agree m m' data (data + len)).
  { intros b Hb. rewrite Ht by (destruct Hap; lia). by apply Hag. }
  rewrite (field_agree m m' data (data + len)) by (try done; destruct Hin; lia). rewrite Hfs.
  destruct (Z.ltb_spec j fs) as [Hlt|Hge].
  - wp_step. unfold load8. wp_step. simpl (h_mem (set_mem m' h)). wp_step. unfold store8. wp_step. simpl (h_mem (set_mem m' h)). wp_step.
    destruct Hsrc as [Hs1 Hs2]. unfold u64. rewrite (Z.mod_small (src + j)), (Z.mod_small (dst + j)) by lia.
    rewrite (Hag' (src + j)) by lia. split; [|lia]. split; [lia|]. exists (put_byte m' (dst + j) (byte m (src + j))). split; [done|].
    apply (filled_step m0 m' dst 0 j (λ j, byte m (src + j))); [done|lia|apply byte_range].
  - wp_step. exists m'. split; [done|]. by replace fs with j by lia.
Qed.

Lemma clear_tail_run m0 cmds dst fs vs :
  agree m m0 data (data + len) → inside (cmds + off_filesize) 8 → field m (cmds + off_filesize) 8 = fs →
  inside (cmds + off_vmsize) 8 → field m (cmds + off_vmsize) 8 = vs → fs ≤ vs →
  0 ≤ dst → dst + vs ≤ 2 ^ 64 → apart dst (dst + vs) →
  wp (clear_tail cmds dst) (set_mem m0 h) (λ _ h', ∃ m', h' = set_mem m' h ∧ filled m0 m' dst fs vs (λ _, 0)).
Proof.
  intros Hag Hin Hfs Hin' Hvs Hle Hdst Hend Hap.
  pose proof (field_range m (cmds + off_filesize) 8) as Hr. rewrite Hfs in Hr. pose proof (field_range m (cmds + off_vmsize) 8) as Hr'. rewrite Hvs in Hr'.
  change (8 * Z.of_nat 8) with 64 in *. unfold clear_tail. wp_step. unfold rd64 at 1. wp_step. simpl (h_mem (set_mem m0 h)).
  rewrite (field_agree m m0 data (data + len)) by (try done; destruct Hin; lia). rewrite Hfs.
  apply (wp_while (λ j h', fs ≤ j ≤ vs ∧ ∃ m', h' = set_mem m' h ∧ filled m0 m' dst fs j (λ _, 0)) (λ j _, vs - j)).
  2:{ split; [lia|]. exists m0. split; [done|apply filled_refl]. }
  2:{ lia. }
  intros j h' (Hj & m' & -> & Hfill). pose proof Hfill as [Ht Hf]. wp_step. unfold rd64. wp_step. simpl (h_mem (set_mem m' h)).
  assert (Hag' : agree m m' data (data + len)).
  { intros b Hb. rewrite Ht by (destruct Hap; lia). by apply Hag. }
  rewrite (field_agree m m' data (data + len)) by (try done; destruct Hin'; lia). rewrite Hvs.
  destruct (Z.ltb_spec j vs) as [Hlt|Hge].
  - wp_step. unfold store8. wp_step. simpl (h_mem (set_mem m' h)). wp_step. unfold u64. rewrite (Z.mod_small (dst + j)) by lia.
    split; [|lia]. split; [lia|]. exists (put_byte m' (dst + j) 0). split; [done|].
    apply (filled_step m0 m' dst fs j (λ _, 0)); [done|lia|lia].
  - wp_step. exists m'. split; [done|]. by replace vs with j by lia.
Qed.

Lemma clear_range_run m0 lo hi :
  0 ≤ lo → hi < 2 ^ 64 → wp (clear_range lo hi) (set_mem m0 h) (λ _ h', ∃ m', h' = set_mem m' h ∧ touched m0 m' lo hi).
Proof.
  intros Hlo Hhi. unfold clear_range.
  apply (wp_while (λ a h', lo ≤ a ∧ ∃ m', h' = set_mem m' h ∧ touched m0 m' lo a ∧ (a ≤ hi ∨ a = lo)) (λ a _, Z.max 0 (hi - a))).
  2:{ split; [lia|]. exists m0. split; [done|]. split; [by intros b|lia]. }
  2:{ lia. }
  intros a h' (Ha & m' & -> & Ht & Hc). destruct (Z.ltb_spec a hi) as [Hlt|Hge].
  - wp_step. unfold store8. wp_step. simpl (h_mem (set_mem m' h)). wp_step. split; [|lia]. split; [lia|].
    exists (put_byte m' a 0). split; [done|]. split; [|lia]. intros b Hb. rewrite byte_put, decide_False by lia. apply Ht. lia.
  - wp_step. exists m'. split; [done|]. intros b Hb. apply Ht. lia.
Qed.

(** ** One segment *)

Record segment := mkSegment { s_addr : Z; s_size : Z; s_off : Z; s_file : Z }.
Definition s_end (g : segment) : Z := s_addr g + s_size g.
(** How far the loader clears. *)
Definition s_reach (g : segment) : Z := Z.ldiff (s_end g + 0x1BFFF) 0xFFF.

Definition segment_at (a : Z) : segment :=
  mkSegment (field m (a + off_vmaddr) 8) (field m (a + off_vmsize) 8) (field m (a + off_fileoff) 8) (field m (a + off_filesize) 8).

Record fits (g : segment) : Prop := mkFits {
  f_file : s_file g ≤ s_size g;
  f_off : s_off g + s_file g ≤ len;
  f_top : s_end g + 0x1BFFF < 2 ^ 64;
  f_apart : apart (s_addr g) (s_reach g) }.

(** The bytes of the segment. *)
Definition content (g : segment) (j : Z) : Z := if j <? s_file g then byte m (data + s_off g + j) else 0.
Definition stands (m' : gmap Z Z) (g : segment) : Prop := ∀ j, 0 ≤ j < s_size g → byte m' (s_addr g + j) = content g j.

Lemma reach_bounds g : s_end g ≤ s_reach g ≤ s_end g + 0x1BFFF.
Proof. unfold s_reach. change (Z.ldiff ?x 0xFFF) with (table_of x). rewrite table_of_val. Z.div_mod_to_equations. lia. Qed.

Definition level (s : loading) : Prop := l_slide s = l_base s.

Lemma load_segment_run m0 a s :
  agree m m0 data (data + len) → inside a 56 → level s → (0 < s_file (segment_at a) → fits (segment_at a)) →
  wp (load_segment data a s) (set_mem m0 h) (λ s' h', ∃ m', h' = set_mem m' h ∧
    if 0 <? s_file (segment_at a) then
      s' = based s (s_addr (segment_at a)) ∧ touched m0 m' (s_addr (segment_at a)) (s_reach (segment_at a)) ∧ stands m' (segment_at a)
    else s' = s ∧ m' = m0).
Proof.
  intros Hag Hin Hlv Hfit.
  assert (Hrd : ∀ m1 o, agree m m1 data (data + len) → 0 ≤ o ≤ 48 → field m1 (a + o) 8 = field m (a + o) 8).
  { intros m1 o Hm1 Ho. apply (field_agree m m1 data (data + len)); [done|destruct Hin; lia..]. }
  assert (H8 : ∀ x, 0 ≤ field m x 8 < 2 ^ 64) by (intros x; apply (field_range m x 8)).
  unfold load_segment. wp_step. unfold rd64 at 1. wp_step. simpl (h_mem (set_mem m0 h)). rewrite Hrd by done.
  destruct (0 <? s_file (segment_at a)) eqn:Ef; simpl s_file in Ef; rewrite Ef; cbv iota.
  2:{ wp_step. by exists m0. }
  assert (Hpos : 0 < s_file (segment_at a)) by (simpl; lia).
  pose proof (Hfit Hpos) as [Hf1 Hf2 Hf3 Hf4]. set (g := segment_at a) in *.
  pose proof (H8 (a + off_filesize) : 0 ≤ s_file g < 2 ^ 64) as Rf. pose proof (H8 (a + off_vmaddr) : 0 ≤ s_addr g < 2 ^ 64) as Ra.
  pose proof (H8 (a + off_fileoff) : 0 ≤ s_off g < 2 ^ 64) as Ro. pose proof (H8 (a + off_vmsize) : 0 ≤ s_size g < 2 ^ 64) as Rs.
  pose proof (reach_bounds g) as Hre. unfold s_end in *.
  wp_step. unfold rd64 at 1. wp_step. simpl (h_mem (set_mem m0 h)). rewrite Hrd by done. change (field m (a + off_vmaddr) 8) with (s_addr g).
  set (s' := based s (s_addr g)). assert (Hlv' : l_slide s' = l_base s') by (subst s'; unfold based; by destruct (l_base s =? 0)).
  replace (u64 (s_addr g - l_base s' + l_slide s')) with (s_addr g) by (rewrite Hlv'; unfold u64; rewrite Z.mod_small; lia).
  wp_step. unfold rd64 at 1. wp_step. simpl (h_mem (set_mem m0 h)). rewrite Hrd by done. change (field m (a + off_fileoff) 8) with (s_off g).
  replace (u64 (data + s_off g)) with (data + s_off g) by (unfold u64; rewrite Z.mod_small; lia).
  wp_step. eapply wp_mono.
  { apply (copy_segment_run m0 a (s_addr g) (data + s_off g) (s_file g)); try done; unfold inside, apart, off_filesize in *; try lia; destruct Hf4; lia. }
  intros [] h1 (m1 & -> & T1 & F1).
  assert (Hag1 : agree m m1 data (data + len)) by (intros b Hb; rewrite T1 by (destruct Hf4; lia); by apply Hag).
  wp_step. eapply wp_mono.
  { apply (clear_tail_run m1 a (s_addr g) (s_file g) (s_size g)); try done; unfold inside, apart, off_filesize, off_vmsize in *; try lia; destruct Hf4; lia. }
  intros [] h2 (m2 & -> & T2 & F2).
  assert (Hag2 : agree m m2 data (data + len)) by (intros b Hb; rewrite T2 by (destruct Hf4; lia); by apply Hag1).
  wp_step. unfold rd64 at 1. wp_step. simpl (h_mem (set_mem m2 h)). rewrite Hrd by done. change (field m (a + off_vmsize) 8) with (s_size g).
  replace (u64 (s_addr g + s_size g)) with (s_end g) by (unfold u64, s_end; rewrite Z.mod_small; lia).
  replace (u64 (s_end g + 0x1BFFF)) with (s_end g + 0x1BFFF) by (unfold u64, s_end in *; rewrite Z.mod_small; lia).
  change (Z.ldiff (s_end g + 0x1BFFF) 0xFFF) with (s_reach g). wp_step.
  eapply wp_mono; [apply (clear_range_run m2 (s_end g) (s_reach g)); unfold s_end; lia|].
  intros [] h3 (m3 & -> & T3). wp_step. exists m3. split; [done|]. split; [done|]. unfold s_end in *. split.
  - intros b Hb. rewrite T3, T2, T1 by lia. done.
  - intros j Hj. rewrite T3 by (unfold s_end; lia). unfold content. destruct (Z.ltb_spec j (s_file g)).
    + rewrite T2 by lia. by rewrite F1 by lia.
    + apply F2. lia.
Qed.

(** ** The whole image *)

Inductive command := Segment (g : segment) | Main (off : Z) | Thread (entry : Z) | Other.

Definition command_at (a : Z) : command :=
  let c := field m a 4 in
  if c =? LC_SEGMENT_64 then Segment (segment_at a)
  else if c =? LC_MAIN then Main (field m (a + off_entryoff) 8)
  else if c =? LC_UNIXTHREAD then Thread (field m (a + off_thread_entry) 8)
  else Other.

(** The load commands and their addresses. *)
Fixpoint commands (a : Z) (n : nat) : list (Z * command) :=
  match n with
  | O => []
  | S n' => (a, command_at a) :: commands (u64 (a + field m (a + off_cmdsize) 4)) n'
  end.

Definition segments (cs : list (Z * command)) : list segment :=
  omap (λ ac, match snd ac with Segment g => if 0 <? s_file g then Some g else None | _ => None end) cs.

(** What this loader makes of the commands that say where the program starts. *)
Fixpoint entry_told (base e : Z) (cs : list (Z * command)) : Z :=
  match cs with
  | [] => e
  | (_, Segment g) :: cs' => entry_told (if (0 <? s_file g) && (base =? 0) then s_addr g else base) e cs'
  | (_, Main off) :: cs' => entry_told base (u64 (base + off)) cs'
  | (_, Thread e') :: cs' => entry_told base e' cs'
  | (_, Other) :: cs' => entry_told base e cs'
  end.

Fixpoint ascending (lo : Z) (gs : list segment) : Prop :=
  match gs with [] => True | g :: gs' => lo ≤ s_addr g ∧ ascending (s_end g) gs' end.

(** After the segments [done], with [rest] to come. *)
Record progress (total : Z) (done : list segment) (lo : Z) (rest : list (Z * command)) (i a : Z) (s : loading) (m' : gmap Z Z) : Prop := {
  p_image : agree m m' data (data + len);
  p_i : i + Z.of_nat (length rest) = field m (data + off_ncmds) 4;
  p_pos : 0 ≤ i;
  p_rest : rest = commands a (length rest);
  p_in : Forall (λ ac, inside (fst ac) 56) rest;
  p_fits : Forall fits (segments rest);
  p_asc : ascending lo (segments rest);
  p_stand : Forall (stands m') done;
  p_below : Forall (λ g, s_end g ≤ lo) done;
  p_frame : ∀ b, (∀ g, g ∈ done → ¬ (s_addr g ≤ b < s_reach g)) → byte m' b = byte m b;
  p_level : level s;
  p_entry : entry_told (l_base s) (l_entry s) rest = total }.

Lemma stands_kept m1 m2 g lo hi :
  stands m1 g → s_end g ≤ lo → touched m1 m2 lo hi → stands m2 g.
Proof. intros Hs He Ht j Hj. rewrite Ht; [by apply Hs|]. unfold s_end in He. lia. Qed.

Definition loads (c : command) : list segment := match c with Segment g => if 0 <? s_file g then [g] else [] | _ => [] end.
Lemma segments_cons a c cs : segments ((a, c) :: cs) = loads c ++ segments cs.
Proof. unfold segments, loads. simpl. destruct c as [g| | |]; try done. by destruct (0 <? s_file g). Qed.

(** A segment is loaded: it joins those done. *)
Lemma progress_segment total done lo a g rest i a' s m1 m2 :
  progress total done lo ((a, Segment g) :: rest) i a s m1 → 0 < s_file g → rest = commands a' (length rest) →
  touched m1 m2 (s_addr g) (s_reach g) → stands m2 g →
  progress total (done ++ [g]) (s_end g) rest (i + 1) a' (based s (s_addr g)) m2.
Proof.
  intros [Hag Hi Hp Hr Hin Hft Has Hst Hbl Hfr Hlv He] Hf Hrest Ht Hg. rewrite segments_cons in Hft, Has. simpl in He.
  unfold loads in Hft, Has. replace (0 <? s_file g) with true in * by lia. cbn [app ascending] in Hft, Has.
  apply Forall_cons in Hft as [Hg1 Hft], Hin as [_ Hin]. destruct Has as [Hlo Has]. cbn [length] in Hi.
  pose proof (f_file g Hg1) as Hsz. split; try done; try lia.
  - intros b Hb. rewrite Ht; [by apply Hag|]. destruct (f_apart g Hg1); lia.
  - apply Forall_app_2; [|by constructor]. rewrite Forall_forall in *. intros g' Hg'.
    apply (stands_kept m1 m2 g' (s_addr g) (s_reach g)); [by apply Hst| |done]. specialize (Hbl g' Hg'). lia.
  - apply Forall_app_2; [|by constructor; [|constructor]]. rewrite Forall_forall in *. intros g' Hg'. specialize (Hbl g' Hg'). unfold s_end at 2. lia.
  - intros b Hb. rewrite Ht; [|by apply Hb; set_solver]. apply Hfr. intros g' Hg'. apply Hb. set_solver.
  - unfold based, level in *. by destruct (l_base s =? 0).
  - unfold based. cbn [andb] in He. by destruct (l_base s =? 0).
Qed.

(** Another command: the memory stays. *)
Lemma progress_other total done lo a c rest i a' s s' m1 :
  progress total done lo ((a, c) :: rest) i a s m1 → loads c = [] → rest = commands a' (length rest) → level s' →
  entry_told (l_base s') (l_entry s') rest = entry_told (l_base s) (l_entry s) ((a, c) :: rest) →
  progress total done lo rest (i + 1) a' s' m1.
Proof.
  intros [Hag Hi Hp Hr Hin Hft Has Hst Hbl Hfr Hlv He] Hc Hrest Hlv' He'. rewrite segments_cons, Hc in Hft, Has. cbn [length] in Hi.
  apply Forall_cons in Hin as [_ Hin]. split; try done; try lia.
Qed.

Lemma load_round total done lo rest i a s m1 :
  len < 2 ^ 64 → 32 ≤ len → progress total done lo rest i a s m1 →
  wp (load_command data (i, a, s)) (set_mem m1 h) (λ r h', ∃ m2, h' = set_mem m2 h ∧
    match r with
    | inl (i', a', s') => ∃ done' lo' c, head rest = Some c ∧ progress total done' lo' (tail rest) i' a' s' m2 ∧ done' = done ++ loads (snd c)
    | inr s' => rest = [] ∧ s' = s ∧ m2 = m1
    end).
Proof.
  intros Hl64 Hlen P. pose proof P as [Hag Hi Hp Hr Hin Hft Has Hst Hbl Hfr Hlv He].
  assert (Hrd : ∀ m2 x n, agree m m2 data (data + len) → inside x (Z.of_nat n) → field m2 x n = field m x n).
  { intros m2 x n Hm2 [? ?]. apply (field_agree m m2 data (data + len)); [done|lia..]. }
  pose proof (field_range m (data + off_ncmds) 4) as Hn. change (8 * Z.of_nat 4) with 32 in Hn.
  unfold load_command. wp_step. unfold rd32 at 1. wp_step. simpl (h_mem (set_mem m1 h)). rewrite Hrd by (try done; unfold inside, off_ncmds; lia).
  rewrite <- Hi. destruct rest as [|[x c] rest].
  { cbn [length]. change (Z.of_nat 0) with 0. rewrite Z.add_0_r, Z.ltb_irrefl. wp_step. by exists m1. }
  cbn [length] in Hi, Hr |- *. injection Hr as -> -> Hrest. rewrite (proj2 (Z.ltb_lt i (i + Z.of_nat (S (length rest))))) by lia.
  replace (u32 (i + 1)) with (i + 1) by (unfold u32; rewrite Z.mod_small; lia).
  apply Forall_cons in Hin as [Hx Hin]. simpl in Hx. assert (Hx4 : inside a (Z.of_nat 4)) by (unfold inside in *; lia).
  assert (Hx44 : inside (a + off_cmdsize) (Z.of_nat 4)) by (unfold inside, off_cmdsize in *; lia).
  wp_step. unfold rd32 at 1. wp_step. simpl (h_mem (set_mem m1 h)). rewrite Hrd by done. wp_step.
  eapply (wp_mono _ _ (λ s' h', ∃ m2 done' lo', h' = set_mem m2 h ∧ agree m m2 data (data + len) ∧ done' = done ++ loads (command_at a) ∧
    progress total done' lo' rest (i + 1) (u64 (a + field m (a + off_cmdsize) 4)) s' m2)).
  2:{ intros s' h' (m2 & done' & lo' & -> & Hag2 & Hd & P2). wp_step. unfold rd32. wp_step. simpl (h_mem (set_mem m2 h)). rewrite Hrd by done.
      wp_step. exists m2. split; [done|]. by exists done', lo', (a, command_at a). }
  unfold command_at in *. destruct (Z.eqb_spec (field m a 4) LC_SEGMENT_64) as [E1|E1].
  - eapply wp_mono; [apply (load_segment_run m1 a s); [done|done|done|]|].
    { intros Hf. rewrite segments_cons in Hft. unfold loads in Hft. replace (0 <? s_file (segment_at a)) with true in Hft by lia. by apply Forall_cons in Hft as [? _]. }
    intros s' h' (m2 & -> & H2). destruct (0 <? s_file (segment_at a)) eqn:Ef.
    + destruct H2 as (-> & Ht & Hs). exists m2, (done ++ [segment_at a]), (s_end (segment_at a)). split; [done|].
      pose proof (progress_segment total done lo a (segment_at a) rest i _ s m1 m2 P ltac:(lia) Hrest Ht Hs) as P2.
      split; [apply P2|]. split; [unfold loads; by rewrite Ef|exact P2].
    + destruct H2 as (-> & ->). exists m1, done, lo. split; [done|]. split; [done|]. split; [unfold loads; by rewrite Ef, app_nil_r|].
      apply (progress_other total done lo a (Segment (segment_at a)) rest i _ s s m1 P); [unfold loads; by rewrite Ef|done|done|]. cbn [entry_told]. by rewrite Ef.
  - unfold entry_command. destruct (Z.eqb_spec (field m a 4) LC_MAIN) as [E2|E2]; [|destruct (Z.eqb_spec (field m a 4) LC_UNIXTHREAD) as [E3|E3]].
    + wp_step. unfold rd64. wp_step. simpl (h_mem (set_mem m1 h)). rewrite Hrd by (try done; unfold inside, off_entryoff in *; lia). wp_step.
      exists m1, done, lo. split; [done|]. split; [done|]. split; [by rewrite app_nil_r|]. eapply progress_other; [exact P|done|done|done|].
      simpl. by rewrite Hlv.
    + wp_step. unfold rd64. wp_step. simpl (h_mem (set_mem m1 h)). rewrite Hrd by (try done; unfold inside, off_thread_entry in *; lia). wp_step.
      exists m1, done, lo. split; [done|]. split; [done|]. split; [by rewrite app_nil_r|]. eapply progress_other; [exact P|done|done|done|].
      simpl. pose proof (field_range m (a + off_thread_entry) 8) as H8. change (8 * Z.of_nat 8) with 64 in H8. rewrite Hlv.
      replace (u64 (field m (a + off_thread_entry) 8 - l_base s + l_base s)) with (field m (a + off_thread_entry) 8) by (unfold u64; rewrite Z.mod_small; lia).
      by destruct (nz (l_base s)).
    + wp_step. exists m1, done, lo. split; [done|]. split; [done|]. split; [by rewrite app_nil_r|]. by eapply progress_other.
Qed.
End image.

Record image_ok (h : heap) (data len : Z) (cs : list (Z * command)) : Prop := mkImageOk {
  im_lo : 0 ≤ data;
  im_hi : data + len < 2 ^ 64;
  im_len : 32 ≤ len < 2 ^ 64;
  im_magic : field (h_mem h) data 4 = MH_MAGIC_64;
  im_cmds : cs = commands h (data + sizeof_header) (Z.to_nat (field (h_mem h) (data + off_ncmds) 4));
  im_in : Forall (λ ac, inside data len (fst ac) 56) cs;
  im_fits : Forall (fits data len) (segments cs);
  im_asc : ascending 0 (segments cs) }.

Lemma commands_length h a n : length (commands h a n) = n.
Proof. revert a. induction n as [|n IH]; intros a; simpl; [done|]. by rewrite IH. Qed.

(** The run of the loader, whatever commands name the entry point. *)
Lemma image_run (h : heap) (data len : Z) (cs : list (Z * command)) :
  image_ok h data len cs →
  ∃ m', mach_o_load data h = Some (entry_told 0 0 cs, set_mem m' h) ∧
    Forall (stands h data m') (segments cs) ∧
    ∀ b, (∀ g, g ∈ segments cs → ¬ (s_addr g ≤ b < s_reach g)) → byte m' b = byte (h_mem h) b.
Proof.
  intros [H0 H1 H2 Hm Hc Hin Hf Ha]. enough (wp (mach_o_load data) h (λ r h', ∃ m', h' = set_mem m' h ∧ r = entry_told 0 0 cs ∧
    Forall (stands h data m') (segments cs) ∧ ∀ b, (∀ g, g ∈ segments cs → ¬ (s_addr g ≤ b < s_reach g)) → byte m' b = byte (h_mem h) b))
    as (r & h' & E & m' & -> & -> & H) by (by exists m').
  pose proof (field_range (h_mem h) (data + off_ncmds) 4) as Hn. change (8 * Z.of_nat 4) with 32 in Hn.
  unfold mach_o_load. wp_step. unfold rd32. wp_step. rewrite Hm.
  change ((MH_MAGIC_64 =? FAT_MAGIC) || (MH_MAGIC_64 =? FAT_CIGAM)) with false.
  change (negb (MH_MAGIC_64 =? MH_MAGIC_64) && negb (MH_MAGIC_64 =? MH_CIGAM_64)) with false. cbv iota. wp_step.
  set (total := entry_told 0 0 cs). set (P := λ (g : list segment * Z * list (Z * command)) (x : Z * Z * loading) s,
    let '(done, lo, rest) := g in let '(i, a, l) := x in ∃ m', s = set_mem m' h ∧ progress h data len total done lo rest i a l m' ∧ done ++ segments rest = segments cs).
  eapply wp_mono.
  { apply (wp_while_ghost P (λ g, Z.of_nat (length (snd g))) (load_command data)
      (λ l s, ∃ m', s = set_mem m' h ∧ l_entry l = total ∧ Forall (stands h data m') (segments cs) ∧
        ∀ b, (∀ g, g ∈ segments cs → ¬ (s_addr g ≤ b < s_reach g)) → byte m' b = byte (h_mem h) b)) with (g := ([], 0, cs)).
    - intros [[done lo] rest] [[i a] l] s (m1 & -> & Pr & Es). eapply wp_mono; [by apply (load_round h data len H0 ltac:(lia) total done lo rest); [lia|lia|]|].
      intros [[[i' a'] s']|s'] h' (m2 & -> & Hr).
      + destruct Hr as (done' & lo' & [x c] & Hh & P2 & Hd). destruct rest as [|[y d] rest]; [done|]. injection Hh as -> ->. cbn [tail snd] in P2, Hd.
        exists (done', lo', rest). split; [|cbn [snd length]; lia]. exists m2. split; [done|]. split; [done|]. by rewrite <- Es, Hd, segments_cons, <- app_assoc.
      + destruct Hr as (-> & -> & ->). exists m1. rewrite app_nil_r in Es. subst done. split; [done|]. destruct Pr as [_ _ _ _ _ _ _ Hst _ Hfr _ He]. done.
    - exists (h_mem h). split; [by destruct h|]. split; [|done]. split; simpl; try done; try lia.
      + rewrite Hc, commands_length. lia.
      + rewrite Hc at 1. rewrite Hc, commands_length. unfold u64, sizeof_header in *. rewrite Z.mod_small by lia. done.
    - cbn [snd]. rewrite Hc, commands_length. lia. }
  intros l s (m' & -> & He & Hst & Hfr). wp_step. by exists m'.
Qed.

(** ** Where the program starts *)

Definition names_entry (c : command) : bool := match c with Main _ | Thread _ => true | _ => false end.

(** An executable of the usual form: one [LC_MAIN], which says that the program starts
    at byte [off] of the file, and no [LC_UNIXTHREAD]; the first segment with bytes
    comes before it and holds the file from its start to [off] and beyond. *)
Record starts_main (cs : list (Z * command)) (g : segment) (off : Z) : Prop := mkStartsMain {
  sm_split : ∃ pre a post, cs = pre ++ (a, Main off) :: post ∧ head (segments pre) = Some g ∧
    Forall (λ ac, names_entry (snd ac) = false) (pre ++ post);
  sm_addr : 0 < s_addr g;
  sm_start : s_off g = 0;
  sm_off : 0 ≤ off < s_file g }.

Lemma told_rest base e cs : Forall (λ ac, names_entry (snd ac) = false) cs → entry_told base e cs = e.
Proof. intros H. revert base. induction H as [|[a [| | |]] cs Hc H IH]; intros base; simpl; (done || apply IH). Qed.

Lemma told_based base e a off pre post :
  base ≠ 0 → Forall (λ ac, names_entry (snd ac) = false) (pre ++ post) → entry_told base e (pre ++ (a, Main off) :: post) = u64 (base + off).
Proof.
  intros Hb. induction pre as [|[x c] pre IH]; intros H; simpl in *; [by apply told_rest|].
  apply Forall_cons in H as [Hc H]. destruct c; try done; [|by apply IH].
  replace (base =? 0) with false by lia. rewrite andb_false_r. by apply IH.
Qed.

Lemma told_main e a off g pre post :
  head (segments pre) = Some g → 0 < s_addr g → Forall (λ ac, names_entry (snd ac) = false) (pre ++ post) →
  entry_told 0 e (pre ++ (a, Main off) :: post) = u64 (s_addr g + off).
Proof.
  intros Hg Hp. induction pre as [|[x c] pre IH]; intros H; [done|]. simpl app in H |- *. apply Forall_cons in H as [Hc H].
  rewrite segments_cons in Hg. destruct c as [g'| | |]; try done; [|by apply IH]. unfold loads in Hg. simpl. destruct (0 <? s_file g'); simpl in *.
  - injection Hg as ->. apply told_based; [lia|done].
  - by apply IH.
Qed.

Lemma head_segments_in pre cs g : head (segments pre) = Some g → g ∈ segments (pre ++ cs).
Proof.
  intros Hg. unfold segments in *. rewrite omap_app, elem_of_app. left. destruct (omap _ pre); [done|]. injection Hg as ->. by left.
Qed.


(** A file of 131 bytes and more for 0x10000000, whose code is the last three. *)
Definition program_bytes : list Z :=
  le_bytes 4 MH_MAGIC_64 ++ replicate 12 0 ++ le_bytes 4 2 ++ replicate 12 0 ++
  le_bytes 4 LC_SEGMENT_64 ++ le_bytes 4 72 ++ replicate 16 0 ++
  le_bytes 8 0x10000000 ++ le_bytes 8 144 ++ le_bytes 8 0 ++ le_bytes 8 131 ++ replicate 16 0 ++
  le_bytes 4 LC_MAIN ++ le_bytes 4 24 ++ le_bytes 8 128 ++ le_bytes 8 0 ++ [7; 8; 9] ++ replicate 29 0.
Definition memory_of (l : list Z) : gmap Z Z := foldl (λ m ib, put_byte m (fst ib) (snd ib)) ∅ (zip (seqZ 0x1000 (Z.of_nat (length l))) l).
Definition program_heap : heap := mkHeap (memory_of program_bytes) ∅ ∅ ∅ [] ∅ false 0 0.
Definition program_segment : segment := mkSegment 0x10000000 144 0 131.
Definition program_commands : list (Z * command) := [(0x1020, Segment program_segment); (0x1068, Main 128)].

Lemma program_ok : image_ok program_heap 0x1000 160 program_commands.
Proof.
  assert (Hg : fits 0x1000 160 program_segment) by (split; vm_compute; try done; by right).
  split; [lia|lia|lia|vm_compute; reflexivity|vm_compute; reflexivity| | |].
  - repeat constructor; simpl; lia.
  - by repeat constructor.
  - by split.
Qed.

Lemma program_starts : starts_main program_commands program_segment 128.
Proof. split; [|done|done|simpl; lia]. exists [(0x1020, Segment program_segment)], 0x1068, []. split; [done|]. split; [done|]. by repeat constructor. Qed.


(** ** A program that starts from a thread state

    The state of an x86-64 thread is [rax], [rbx], [rcx], [rdx], [rdi], [rsi], [rbp],
    [rsp], [r8] to [r15], [rip]: the program's first instruction is in the seventeenth
    register, 144 bytes into the command.  The loader returns the fifth. *)
Definition thread_bytes (rdi rip : Z) : list Z :=
  le_bytes 4 MH_MAGIC_64 ++ replicate 12 0 ++ le_bytes 4 1 ++ replicate 12 0 ++
  le_bytes 4 LC_UNIXTHREAD ++ le_bytes 4 184 ++ le_bytes 4 4 ++ le_bytes 4 42 ++
  replicate 32 0 ++ le_bytes 8 rdi ++ replicate 88 0 ++ le_bytes 8 rip ++ replicate 32 0.

Example unixthread_entry :
  (fst <$> mach_o_load 0x1000 (mkHeap (memory_of (thread_bytes 7 0x400000)) ∅ ∅ ∅ [] ∅ false 0 0)) = Some 7.
Proof. vm_compute. reflexivity. Qed.
