(* ===== verification/MachOSpace.v ===== *)
(** * MachOSpace: the address spaces [mach_o.c] makes for programs

    A clone of the kernel's tables maps what the kernel's 2 MB pages map, but not for
    user mode, and nothing else below 1 GB ([clone_hides_kernel]); a 2 MB page mapped
    into it is reached by the walk ([map_2mb_reached]). *)

From Stdlib Require Import ZArith Lia.
From stdpp Require Import gmap list prelude.
From S2P Require Import Prelude KHeap BuddyInv BuddyProof Buddy Slab PageAlloc Paging PagingProof FaultProof MachO.

Open Scope Z_scope.

(** ** Copying a table *)

Definition words (t : Z) (lo hi : Z) (a : Z) : Prop := ∃ i, lo ≤ i < hi ∧ a = t + 8 * i.

Lemma copy_table_spec h old t (g : Z → Z) n lo :
  (∀ i, lo ≤ i < lo + Z.of_nat n → ¬ words t lo (lo + Z.of_nat n) (old + 8 * i)) →
  wp (for_up n lo (λ i, let! e := entry old i in set_entry t i (g e))) h (λ _ h', ∃ m, h' = set_mem m h ∧
    (∀ i, lo ≤ i < lo + Z.of_nat n → ld m (t + 8 * i) = g (ld (h_mem h) (old + 8 * i))) ∧
    (∀ b, ¬ words t lo (lo + Z.of_nat n) b → ld m b = ld (h_mem h) b)).
Proof.
  intros Hd. eapply wp_mono; [apply (wp_for_up (λ k h', ∃ m, h' = set_mem m h ∧
    (∀ i, lo ≤ i < k → ld m (t + 8 * i) = g (ld (h_mem h) (old + 8 * i))) ∧ (∀ b, ¬ words t lo k b → ld m b = ld (h_mem h) b)))|].
  - exists (h_mem h). split_and!; [by destruct h|lia|done].
  - intros k ? Hk (m & -> & Hf & Ho). wp_step. unfold entry. apply wp_load. unfold set_entry. apply wp_store. eexists. split; [reflexivity|].
    cbn [h_mem set_mem]. rewrite Ho by (intros (i & Hi & E); apply (Hd k Hk); exists i; split; [lia|done]). split.
    + intros i Hi. rewrite ld_st. case_decide; [replace i with k by lia; done|]. apply Hf. lia.
    + intros b Hb. rewrite ld_st_ne; [|intros <-; apply Hb; exists k; split; [lia|done]]. apply Ho. intros (i & Hi & ->). apply Hb. exists i. split; [lia|done].
  - intros [] ? (m & -> & H). by exists m.
Qed.

(** ** The clone *)

Lemma hidden_bit e k : 0 ≤ k → huge e = true → Z.testbit (hidden e) k = Z.testbit e k && negb (k =? 2).
Proof.
  intros Hk He. unfold hidden. rewrite He, Z.ldiff_spec. change 4 with (2 ^ 2). rewrite Z.pow2_bits_eqb by lia.
  by rewrite Z.eqb_sym.
Qed.

Lemma hidden_frame e : huge e = true → hidden e / 2 ^ 21 = e / 2 ^ 21.
Proof.
  intros He. rewrite <- !Z.shiftr_div_pow2 by lia. apply Z.bits_inj'. intros k Hk. rewrite !Z.shiftr_spec by lia.
  rewrite hidden_bit by (lia || done). replace (k + 21 =? 2) with false by lia. by rewrite andb_true_r.
Qed.

(** The tables the processor uses now, down to the directory of the first 1 GB. *)
Record kernel_tables (h : heap) (L : pa_state) (pdp pd : Z) : Prop := mkTables {
  kt_pdp : table_of (ld (h_mem h) (h_cr3 h)) = pdp;
  kt_pd : table_of (ld (h_mem h) pdp) = pd;
  kt_s4 : ∀ i, 0 ≤ i < 512 → stable L (h_cr3 h + 8 * i);
  kt_s3 : ∀ i, 0 ≤ i < 512 → stable L (pdp + 8 * i);
  kt_s2 : ∀ i, 0 ≤ i < 512 → stable L (pd + 8 * i) }.

(** What the clone looks like in memory. *)
Record cloned (h : heap) (L : pa_state) (pd : Z) (i1 i2 i3 : Z) (m : gmap Z Z) : Prop := mkCloned {
  cl_r1 : 0 ≤ i1 < 16384; cl_r2 : 0 ≤ i2 < 16384; cl_r3 : 0 ≤ i3 < 16384;
  cl_dir : ∀ i, 0 ≤ i < 512 → ld m (fa i1 + 8 * i) = hidden (ld (h_mem h) (pd + 8 * i));
  cl_pdp : ld m (fa i2) = Z.lor (fa i1) 0x07;
  cl_pml4 : ld m (fa i3) = Z.lor (fa i2) 0x07;
  cl_kept : ∀ a, stable L a → ld m a = ld (h_mem h) a }.

Lemma page_words_apart i j p lo hi : i ≠ j → 0 ≤ lo → hi ≤ 512 → 0 ≤ p < 512 → ¬ words (fa j) lo hi (fa i + 8 * p).
Proof. intros Hij Hlo Hhi Hp (q & Hq & E). unfold fa in E. lia. Qed.
Lemma old_words_apart L i a lo hi : 0 ≤ i < 16384 → ¬ live_frame L i → stable L a → 0 ≤ lo → hi ≤ 512 → ¬ words (fa i) lo hi a.
Proof. intros Hi Hn Hs Hlo Hhi (q & Hq & ->). apply (stable_not_fresh _ _ _ Hi Hn Hs). lia. Qed.

(** A page more: what is fresh stays fresh. *)
Lemma not_live_insert L i j o u : ¬ live_frame (<[i := (o, u)]> L) j → L !! i = None → ¬ live_frame L j.
Proof. intros Hn Hi (k & p & v & Hk & Hr). apply Hn. exists k, p, v. split; [|done]. rewrite lookup_insert_ne; congruence. Qed.
Lemma not_live_self L i j : ¬ live_frame (<[i := (0, true)]> L) j → i ≠ j.
Proof. intros Hn ->. apply Hn. exists j, 0, true. split; [apply lookup_insert_eq|]. change (2 ^ 0) with 1. lia. Qed.

Lemma fill_clone_run h h0 L pdp pd i1 i2 i3 :
  kernel_tables h0 L pdp pd → (∀ a, stable L a → ld (h_mem h) a = ld (h_mem h0) a) →
  0 ≤ i1 < 16384 → 0 ≤ i2 < 16384 → 0 ≤ i3 < 16384 → ¬ live_frame L i1 → ¬ live_frame L i2 → ¬ live_frame L i3 →
  i1 ≠ i2 → i1 ≠ i3 → i2 ≠ i3 →
  wp (fill_clone (fa i1) (fa i2) (fa i3) pd pdp (h_cr3 h0)) h (λ _ h', ∃ m, h' = set_mem m h ∧ cloned h0 L pd i1 i2 i3 m ∧
    ∀ b, ¬ words (fa i1) 0 512 b → ¬ words (fa i2) 0 512 b → ¬ words (fa i3) 0 512 b → ld m b = ld (h_mem h) b).
Proof.
  intros [E3 E2 S4 S3 S2] Hk R1 R2 R3 N1 N2 N3 D12 D13 D23. unfold fill_clone.
  assert (Hold : ∀ a lo hi, stable L a → 0 ≤ lo → hi ≤ 512 → ¬ words (fa i1) lo hi a ∧ ¬ words (fa i2) lo hi a ∧ ¬ words (fa i3) lo hi a).
  { intros a lo hi Ha Hlo Hhi. split_and!; by apply (old_words_apart L). }
  wp_step. eapply wp_mono; [apply (copy_table_spec h pd (fa i1) hidden 512 0); intros i Hi; by apply (Hold (pd + 8 * i)); [apply S2|..]|].
  intros [] ? (m1 & -> & F1 & O1). wp_step. unfold set_entry at 1. apply wp_store. cbn [h_mem set_mem]. rewrite Z.mul_0_r, Z.add_0_r.
  set (m2 := st m1 (fa i2) (Z.lor (fa i1) 0x07)). wp_step.
  eapply wp_mono; [apply (copy_table_spec _ pdp (fa i2) (λ e, e) 511 1); intros i Hi; apply (Hold (pdp + 8 * i)); [apply S3; lia|lia|lia]|].
  intros [] ? (m3 & -> & F3 & O3). cbn [h_mem set_mem] in O3. wp_step. unfold set_entry at 1. apply wp_store. cbn [h_mem set_mem]. rewrite Z.mul_0_r, Z.add_0_r.
  set (m4 := st m3 (fa i3) (Z.lor (fa i2) 0x07)).
  eapply wp_mono; [apply (copy_table_spec _ (h_cr3 h0) (fa i3) (λ e, e) 511 1); intros i Hi; apply (Hold (h_cr3 h0 + 8 * i)); [apply S4; lia|lia|lia]|].
  intros [] ? (m5 & -> & F5 & O5). cbn [h_mem set_mem] in O5. exists m5. split; [done|]. change (1 + Z.of_nat 511) with 512 in *.
  assert (Hne : ∀ b i, (∀ lo hi, 0 ≤ lo → hi ≤ 512 → ¬ words (fa i) lo hi b) → fa i ≠ b).
  { intros b i H <-. apply (H 0 512); [lia|lia|]. exists 0. split; lia. }
  split; [split; try done|].
  - intros i Hi. assert (A2 : ∀ lo hi, 0 ≤ lo → hi ≤ 512 → ¬ words (fa i2) lo hi (fa i1 + 8 * i)) by (intros; by apply page_words_apart).
    assert (A3 : ∀ lo hi, 0 ≤ lo → hi ≤ 512 → ¬ words (fa i3) lo hi (fa i1 + 8 * i)) by (intros; by apply page_words_apart).
    rewrite O5 by (by apply A3). subst m4. rewrite ld_st_ne by (by apply Hne). rewrite O3 by (by apply A2). subst m2. rewrite ld_st_ne by (by apply Hne).
    rewrite F1 by lia. by rewrite Hk by (by apply S2).
  - rewrite O5 by (intros (q & Hq & E); unfold fa in E; lia). subst m4. rewrite ld_st_ne by (unfold fa; lia).
    rewrite O3 by (intros (q & Hq & E); lia). apply ld_st_eq.
  - rewrite O5 by (intros (q & Hq & E); lia). apply ld_st_eq.
  - intros a Ha. assert (A : ∀ lo hi, 0 ≤ lo → hi ≤ 512 → ¬ words (fa i1) lo hi a ∧ ¬ words (fa i2) lo hi a ∧ ¬ words (fa i3) lo hi a) by (intros; by apply Hold).
    rewrite O5 by (by apply A). subst m4. rewrite ld_st_ne by (apply Hne; intros; by apply A). rewrite O3 by (by apply A).
    subst m2. rewrite ld_st_ne by (apply Hne; intros; by apply A). rewrite O1 by (by apply A). by apply Hk.
  - intros b B1 B2 B3. assert (B3' : ¬ words (fa i3) 1 512 b) by (intros (q & Hq & E); apply B3; exists q; split; [lia|done]).
    assert (B2' : ¬ words (fa i2) 1 512 b) by (intros (q & Hq & E); apply B2; exists q; split; [lia|done]).
    rewrite O5 by done. subst m4. rewrite ld_st_ne by (intros <-; apply B3; exists 0; split; lia). rewrite O3 by done.
    subst m2. rewrite ld_st_ne by (intros <-; apply B2; exists 0; split; lia). by apply O1.
Qed.

(** No memory for three pages: at most two more were taken. *)
Definition short_of_pages (h : heap) (L : pa_state) (n : nat) : Prop :=
  ∃ L', pa_rel h L' ∧ (∀ idx, ¬ free_run L' idx 0) ∧ (size L' ≤ size L + n)%nat.

Lemma clone_run h L pdp pd :
  pa_rel h L → kernel_tables h L pdp pd →
  wp clone_identity_tables h (λ r h', (∀ a, stable L a → ld (h_mem h') a = ld (h_mem h) a) ∧
    (r = 0 ∧ short_of_pages h' L 2 ∨
     ∃ i1 i2 i3, r = fa i3 ∧ cloned h L pd i1 i2 i3 (h_mem h') ∧ ∃ L', pa_rel h' L' ∧ ∀ a, stable L a → stable L' a)).
Proof.
  intros HR HT. pose proof HT as [E3 E2 S4 S3 S2]. unfold clone_identity_tables, pml4_get_current. do 2 wp_step. wp_step.
  change (mmap_user 4096) with table_page. eapply wp_mono; [by apply table_page_spec|].
  intros r1 h1 [(-> & HR1 & K1 & Hno)|(i1 & -> & R1 & N1 & HR1 & _ & K1)].
  { rewrite Z.eqb_refl. wp_step. split; [done|]. left. split; [done|]. exists L. split_and!; [done|done|lia]. }
  rewrite (proj2 (Z.eqb_neq (fa i1) 0)) by (unfold fa, HEAP_PHYS; lia). pose proof (fresh_not_in _ _ _ HR R1 N1) as F1.
  set (L1 := <[i1 := (0, true)]> L) in *. assert (St1 : ∀ a, stable L a → stable L1 a) by (intros; by apply stable_insert).
  wp_step. eapply wp_mono; [by apply table_page_spec|].
  intros r2 h2 [(-> & HR2 & K2 & Hno)|(i2 & -> & R2 & N2 & HR2 & _ & K2)].
  { rewrite Z.eqb_refl. wp_step. split; [intros a Ha; rewrite K2 by (by apply St1); by apply K1|]. left. split; [done|]. exists L1.
    split_and!; [done|done|]. subst L1. rewrite map_size_insert_None by done. lia. }
  rewrite (proj2 (Z.eqb_neq (fa i2) 0)) by (unfold fa, HEAP_PHYS; lia). pose proof (fresh_not_in _ _ _ HR1 R2 N2) as F2.
  set (L2 := <[i2 := (0, true)]> L1) in *. assert (St2 : ∀ a, stable L a → stable L2 a) by (intros; apply stable_insert; [done|by apply St1]).
  wp_step. eapply wp_mono; [by apply table_page_spec|].
  intros r3 h3 [(-> & HR3 & K3 & Hno)|(i3 & -> & R3 & N3 & HR3 & _ & K3)].
  { rewrite Z.eqb_refl. wp_step. split; [intros a Ha; rewrite K3 by (by apply St2); rewrite K2 by (by apply St1); by apply K1|]. left. split; [done|]. exists L2.
    split_and!; [done|done|]. subst L2 L1. rewrite !map_size_insert_None by done. lia. }
  rewrite (proj2 (Z.eqb_neq (fa i3) 0)) by (unfold fa, HEAP_PHYS; lia). pose proof (fresh_not_in _ _ _ HR2 R3 N3) as F3.
  assert (K : ∀ a, stable L a → ld (h_mem h3) a = ld (h_mem h) a).
  { intros a Ha. rewrite K3 by (by apply St2). rewrite K2 by (by apply St1). by apply K1. }
  pose proof (not_live_self _ _ _ N2) as D12. pose proof (not_live_self _ _ _ N3) as D23.
  pose proof (not_live_insert _ _ _ _ _ N3 F2) as N3'. pose proof (not_live_self _ _ _ N3') as D13.
  pose proof (not_live_insert _ _ _ _ _ N3' F1) as N3''. pose proof (not_live_insert _ _ _ _ _ N2 F1) as N2'.
  wp_step. unfold entry at 1. rewrite Z.mul_0_r, Z.add_0_r. apply wp_load. rewrite K by (rewrite <- (Z.add_0_r (h_cr3 h)), <- (Z.mul_0_r 8); apply S4; lia).
  rewrite E3. wp_step. unfold entry at 1. rewrite Z.mul_0_r, Z.add_0_r. apply wp_load. rewrite K by (rewrite <- (Z.add_0_r pdp), <- (Z.mul_0_r 8); apply S3; lia).
  rewrite E2. wp_step. eapply wp_mono; [exact (fill_clone_run h3 h L pdp pd i1 i2 i3 HT K R1 R2 R3 N1 N2' N3'' D12 D13 D23)|].
  intros [] ? (m & -> & C & Hout). wp_step. split; [by apply (cl_kept _ _ _ _ _ _ _ C)|]. right. exists i1, i2, i3. split; [done|]. split; [done|].
  exists (<[i3 := (0, true)]> L2). split; [|intros a Ha; apply stable_insert; [done|by apply St2]].
  apply pa_rel_mem; [done|]. intros a Ha.
  assert (Hl : ∀ i, live_frame (<[i3 := (0, true)]> L2) i → ¬ words (fa i) 0 512 a).
  { intros i Hi (q & Hq & ->). apply Ha. apply (stable_in _ i); [done|lia]. }
  apply Hout; apply Hl; unfold live_frame.
  - exists i1, 0, true. split; [|change (2 ^ 0) with 1; lia]. subst L2 L1. rewrite !lookup_insert_ne by lia. apply lookup_insert_eq.
  - exists i2, 0, true. split; [|change (2 ^ 0) with 1; lia]. subst L2. rewrite lookup_insert_ne by lia. apply lookup_insert_eq.
  - exists i3, 0, true. split; [apply lookup_insert_eq|change (2 ^ 0) with 1; lia].
Qed.

(** ** What the processor sees *)

(** A directory entry, seen from the clone. *)
Definition supervisor_view (e va : Z) : option (Z * (bool * bool)) :=
  if present e && huge e then Some (e / 2 ^ 21 mod 2 ^ 31 * 2 ^ 21 + va mod 2 ^ 21, (Z.testbit e 1, false)) else None.

Lemma index_low va n : 0 ≤ va < 2 ^ 30 → 30 ≤ n → Z.land (Z.shiftr va n) 0x1FF = 0.
Proof.
  intros Hva Hn. rewrite Z.shiftr_div_pow2 by lia. rewrite Z.div_small; [done|]. assert (2 ^ 30 ≤ 2 ^ n) by (by apply Z.pow_le_mono_r; lia). lia.
Qed.

Lemma fa_range i : 0 ≤ i < 16384 → 0 ≤ Z.lor (fa i) 0x07 < 2 ^ 52.
Proof.
  intros Hi. replace (fa i) with ((2560 + i) * 2 ^ 12) by (unfold fa, HEAP_PHYS; lia). rewrite entry_lor by lia. lia.
Qed.

Lemma walk_cloned h L pd i1 i2 i3 m va :
  cloned h L pd i1 i2 i3 m → 0 ≤ va < 2 ^ 30 →
  walk m (fa i3) va = supervisor_view (ld (h_mem h) (pd + 8 * pd_index va)) va.
Proof.
  intros [R1 R2 R3 Hd Hp H4 _] Hva. destruct (linked_entry i2 R2) as (P4 & _ & _ & T4 & W4 & U4). destruct (linked_entry i1 R1) as (P3 & H3 & _ & T3 & W3 & U3).
  rewrite (walk_to_pd m (fa i3) va (Z.lor (fa i2) 7) (Z.lor (fa i1) 7)); try done; try (by apply fa_range).
  2:{ unfold pml4_index. rewrite index_low by lia. by rewrite Z.mul_0_r, Z.add_0_r. }
  2:{ unfold pdpt_index. rewrite index_low by lia. rewrite T4. by rewrite Z.mul_0_r, Z.add_0_r. }
  rewrite T3, Hd by (apply index_range; lia). set (e := ld (h_mem h) (pd + 8 * pd_index va)). unfold walk_pd, supervisor_view.
  destruct (huge e) eqn:Eh.
  - rewrite present_bit, huge_bit, !hidden_bit by (lia || done). rewrite <- present_bit, <- huge_bit, Eh. simpl (negb (0 =? 2)). simpl (negb (7 =? 2)).
    rewrite !andb_true_r. destruct (present e); [|done]. cbn [negb]. rewrite hidden_frame by done. unfold perms. cbn [app forallb].
    rewrite !hidden_bit, W4, W3, U4, U3 by (lia || done). simpl. by rewrite !andb_true_r, !andb_false_r.
  - unfold hidden. rewrite Eh, andb_false_r. done.
Qed.

(** C19: (safety) [clone_identity_tables] leaves the kernel's own tables, and all memory
    in use, as they were.  In the address space it returns, every address below 1 GB
    that a 2 MB page of the kernel maps is mapped to the same place with the same write
    permission but not for user mode, and no other address below 1 GB is mapped.  It
    returns 0 only when the memory has no three free pages. *)
Theorem clone_hides_kernel (h : heap) (L : pa_state) (pdp pd : Z) :
  pa_rel h L → kernel_tables h L pdp pd →
  ∃ r h', clone_identity_tables h = Some (r, h') ∧ (∀ a, stable L a → ld (h_mem h') a = ld (h_mem h) a) ∧
    (r = 0 → short_of_pages h' L 2) ∧
    (r ≠ 0 → ∀ va, 0 ≤ va < 2 ^ 30 → walk (h_mem h') r va = supervisor_view (ld (h_mem h) (pd + 8 * pd_index va)) va).
Proof.
  intros HR HT. destruct (clone_run h L pdp pd HR HT) as (r & h' & E & K & Hr). exists r, h'. split; [done|]. split; [done|].
  destruct Hr as [[-> Hs]|(i1 & i2 & i3 & -> & C & _)]; [done|]. split.
  - pose proof (cl_r3 _ _ _ _ _ _ _ C). unfold fa, HEAP_PHYS. lia.
  - intros _ va Hva. by apply (walk_cloned h L pd i1 i2 i3).
Qed.

(** ** Pages of a program *)

Lemma huge_entry phys : 0 ≤ phys →
  let e := Z.lor (Z.ldiff phys 0x1FFFFF) 0x87 in
  present e = true ∧ huge e = true ∧ Z.testbit e 1 = true ∧ Z.testbit e 2 = true ∧ e / 2 ^ 21 = phys / 2 ^ 21.
Proof.
  intros Hp e. assert (Hb : ∀ k, 0 ≤ k < 21 → Z.testbit e k = Z.testbit 0x87 k).
  { intros k Hk. subst e. rewrite Z.lor_spec, Z.ldiff_spec. change 0x1FFFFF with (Z.ones 21). rewrite Z.testbit_ones by lia.
    replace (0 <=? k) with true by lia. replace (k <? 21) with true by lia. by rewrite andb_false_r. }
  rewrite present_bit, huge_bit, !Hb by lia. split_and!; try done.
  rewrite <- !Z.shiftr_div_pow2 by lia. apply Z.bits_inj'. intros k Hk. subst e. rewrite !Z.shiftr_spec, Z.lor_spec, Z.ldiff_spec by lia.
  change 0x1FFFFF with (Z.ones 21). rewrite Z.testbit_ones by lia. replace (k + 21 <? 21) with false by lia.
  rewrite andb_false_r, andb_true_r. rewrite (Z.bits_above_log2 0x87) by (simpl; lia). by rewrite orb_false_r.
Qed.

(** After [map_2mb_in_pml4] the whole 2 MB region of [virt] leads to the page, writable
    and for user mode as far as the upper tables allow it. *)
Lemma map_2mb_reached h L pml4 virt phys e4 e3 :
  pd_path (h_mem h) L pml4 virt e4 e3 → 0 ≤ phys →
  ∃ h', map_2mb_in_pml4 pml4 virt phys h = Some (0, h') ∧ ∀ va, va / 2 ^ 21 = virt / 2 ^ 21 →
    walk (h_mem h') pml4 va = Some (phys / 2 ^ 21 mod 2 ^ 31 * 2 ^ 21 + va mod 2 ^ 21,
      (Z.testbit e4 1 && Z.testbit e3 1, Z.testbit e4 2 && Z.testbit e3 2)).
Proof.
  intros [E4 E3 R4 R3 P4 P3 H3 _ _ _ N4 N3] Hp. destruct (huge_entry phys Hp) as (Pe & He & We & Ue & Fe). set (e := Z.lor _ 0x87) in *.
  exists (set_mem (st (h_mem h) (table_of e3 + 8 * pd_index virt) e) h). split.
  { unfold map_2mb_in_pml4, entry, load, bind, gets. rewrite E4, P4. cbn [negb]. by rewrite E3, P3. }
  intros va Hva. cbn [h_mem set_mem]. rewrite (walk_to_pd _ pml4 virt e4 e3); try done.
  - rewrite ld_st_eq. unfold walk_pd. rewrite Pe, He, Fe. cbn [negb]. unfold perms. cbn [app forallb]. by rewrite We, Ue, !andb_true_r.
  - rewrite ld_st_ne by congruence. exact E4.
  - rewrite ld_st_ne by congruence. exact E3.
Qed.

Lemma clone_hides_kernel_witness :
  ∃ r h', clone_identity_tables fault_heap = Some (r, h') ∧ (∀ a, stable ∅ a → ld (h_mem h') a = ld (h_mem fault_heap) a) ∧
    (r = 0 → short_of_pages h' ∅ 2) ∧
    (r ≠ 0 → ∀ va, 0 ≤ va < 2 ^ 30 → walk (h_mem h') r va = supervisor_view (ld (h_mem fault_heap) (0x3000 + 8 * pd_index va)) va).
Proof.
  apply (clone_hides_kernel fault_heap ∅ 0x2000 0x3000); [exact fault_rel|]. destruct fault_slots as [E4 E3].
  split; [by change (h_cr3 fault_heap) with 0x1000; rewrite E4|by rewrite E3|..]; intros i Hi; apply outside_stable; change (h_cr3 fault_heap) with 0x1000; unfold HEAP_PHYS; lia.
Defined.
