(* ===== verification/Shell.v ===== *)
(** * Shell: the command line of the kernel, [OvsbMk/kernel/shell.c]

    [shell_input] edits the line in [cmd_buf]; [execute] cuts it at semicolons and
    newlines, [execute_one] finds the command.  What a command does outside the
    console (running a program, the file systems, the demonstrations, the network
    card) is the class [ShellOps], for which [ShellExec] has an instance; of [cmd_exec],
    the arguments and the name of the file are here ([exec_argv], [exec_name]).  A string
    is the list of its characters; [cmd_buf] is the array.  [reboot] does not come back. *)

From Stdlib Require Import ZArith Lia.
From stdpp Require Import gmap list prelude.
From S2P Require Import Prelude KHeap Process Console.

Open Scope Z_scope.

Definition MAX_CMD : Z := 256.

(** What the shell calls: [vfs_stat_size(name) == 0], [cmd_exec], [fat32_list_dir],
    [cmd_cd], [owt_demo], [e1000_send]; the byte at an address, and [width], [height],
    [bpp], [addr] and [pitch] of [g_fb]. *)
Class ShellOps (W : Type) := {
  op_stat : list Z → M (console * W) bool;
  op_exec : list Z → M (console * W) unit;
  op_ls : M (console * W) unit;
  op_cd : list Z → M (console * W) unit;
  op_owt : M (console * W) unit;
  op_send : list Z → M (console * W) unit;
  op_byte : Z → M (console * W) Z;
  op_fb : M (console * W) (Z * Z * Z * Z * Z) }.

(** ** Strings *)

Definition blank (c : Z) : bool := (c =? 32) || (c =? 9) || (c =? 13) || (c =? 10).
Definition gap (c : Z) : bool := (c =? 32) || (c =? 9).
Definition space (c : Z) : bool := c =? 32.

Fixpoint skip_over (p : Z → bool) (s : list Z) : list Z :=
  match s with c :: s' => if p c then skip_over p s' else s | [] => [] end.

(** From the front, and then from the end of the string. *)
Definition trim (text : list Z) : list Z := rev (skip_over blank (rev (skip_over blank text))).

(** [a\[i\]] and [b\[i\]] for [i < n]; a string is followed by its 0. *)
Fixpoint strieq (a b : list Z) (n : nat) : bool :=
  match n with
  | O => true
  | S n' =>
      let x := default 0 (head a) in
      if negb (x =? default 0 (head b)) then false
      else if x =? 0 then true
      else strieq (tail a) (tail b) n'
  end.

(** The characters before the first that [p] holds of, and the rest. *)
Fixpoint break_at (p : Z → bool) (s : list Z) : list Z * list Z :=
  match s with
  | [] => ([], [])
  | c :: s' => if p c then ([], s) else let '(w, r) := break_at p s' in (c :: w, r)
  end.

(** ** The arguments of [exec] *)

(** [while ( *p && argc < 8)]: the words between spaces, cut to 63 characters. *)
Fixpoint exec_words (argc : nat) (p : list Z) : list (list Z) :=
  match argc with
  | O => []
  | S argc' =>
      match skip_over space p with
      | [] => []
      | p' =>
          let '(w, rest) := break_at space p' in
          take 63 w :: exec_words argc' rest
      end
  end.

(** [argv] and whether a last [&] asks for the background; [None] when nothing is
    left to run. *)
Definition exec_argv (args : list Z) : option (list (list Z) * bool) :=
  let argv := exec_words 8 args in
  if bool_decide (last argv = Some [38]) then
    match removelast argv with [] => None | argv' => Some (argv', true) end
  else Some (argv, false).

(** A name without a slash in front is looked for in [/bin]. *)
Definition exec_name (fname : list Z) : list Z :=
  if default 0 (head fname) =? 47 then fname else [47; 98; 105; 110; 47] ++ take 120 fname.

(** ** The commands *)

Section shell.
Context {W : Type} `{ShellOps W}.

Abbreviation SW := (M (console * W)).
Definition on_con {A} (m : C A) : SW A := zoom fst (λ c s, (c, snd s)) m.
Definition put (s : list Z) : SW unit := on_con (console_write s).
Definition printf (fmt : list Z) (args : list parg) : SW unit := on_con (console_printf fmt args).

Definition prompt_text : list Z :=
  [111; 118; 115; 98; 62; 32].
Definition prompt : SW unit := put prompt_text.

Definition help_text : list (list Z) :=
  [[67; 111; 109; 97; 110; 100; 111; 115; 58; 10];
   [32; 32; 104; 101; 108; 112; 32; 32; 32; 32; 32; 32; 32; 32; 32; 32; 32; 32; 32; 32; 32; 32; 32; 32; 77; 111;
    115; 116; 114; 97; 32; 101; 115; 116; 97; 32; 97; 106; 117; 100; 97; 10];
   [32; 32; 99; 108; 101; 97; 114; 32; 32; 32; 32; 32; 32; 32; 32; 32; 32; 32; 32; 32; 32; 32; 32; 32; 76; 105;
    109; 112; 97; 32; 97; 32; 116; 101; 108; 97; 10];
   [32; 32; 101; 99; 104; 111; 32; 60; 116; 101; 120; 116; 111; 62; 32; 32; 32; 32; 32; 32; 32; 32; 32; 32; 73;
    109; 112; 114; 105; 109; 101; 32; 111; 32; 116; 101; 120; 116; 111; 10];
   [32; 32; 105; 110; 102; 111; 32; 32; 32; 32; 32; 32; 32; 32; 32; 32; 32; 32; 32; 32; 32; 32; 32; 32; 73; 110;
    102; 111; 32; 100; 111; 32; 115; 105; 115; 116; 101; 109; 97; 32; 40; 86; 69; 83; 65; 44; 32; 104; 101; 97;
    112; 41; 10];
   [32; 32; 104; 101; 120; 100; 117; 109; 112; 32; 60; 97; 100; 100; 114; 62; 32; 32; 32; 32; 32; 32; 32; 32; 69;
    120; 105; 98; 101; 32; 54; 52; 32; 98; 121; 116; 101; 115; 32; 100; 111; 32; 101; 110; 100; 101; 114; 101; 99;
    111; 10];
   [32; 32; 114; 117; 110; 32; 32; 32; 32; 32; 32; 32; 32; 32; 32; 32; 32; 32; 32; 32; 32; 32; 32; 32; 69; 120;
    101; 99; 117; 116; 97; 32; 112; 114; 111; 103; 114; 97; 109; 97; 32; 114; 105; 110; 103; 32; 51; 32; 40; 101;
    109; 98; 117; 116; 105; 100; 111; 41; 10];
   [32; 32; 101; 120; 101; 99; 32; 60; 97; 114; 113; 117; 105; 118; 111; 62; 32; 32; 32; 32; 32; 32; 32; 32; 67;
    97; 114; 114; 101; 103; 97; 32; 101; 32; 101; 120; 101; 99; 117; 116; 97; 32; 77; 97; 99; 104; 45; 79; 32;
    100; 111; 32; 70; 65; 84; 51; 50; 10];
   [32; 32; 108; 115; 32; 32; 32; 32; 32; 32; 32; 32; 32; 32; 32; 32; 32; 32; 32; 32; 32; 32; 32; 32; 76; 105;
    115; 116; 97; 32; 100; 105; 114; 101; 116; 111; 114; 105; 111; 32; 70; 65; 84; 51; 50; 10];
   [32; 32; 99; 100; 32; 60; 100; 105; 114; 62; 32; 32; 32; 32; 32; 32; 32; 32; 32; 32; 32; 32; 32; 32; 77; 117;
    100; 97; 32; 100; 105; 114; 101; 116; 111; 114; 105; 111; 32; 70; 65; 84; 51; 50; 10];
   [32; 32; 111; 119; 116; 32; 32; 32; 32; 32; 32; 32; 32; 32; 32; 32; 32; 32; 32; 32; 32; 32; 32; 32; 68; 101;
    109; 111; 32; 100; 111; 32; 79; 87; 84; 32; 40; 119; 105; 100; 103; 101; 116; 32; 116; 111; 111; 108; 107;
    105; 116; 41; 10];
   [32; 32; 114; 101; 98; 111; 111; 116; 32; 32; 32; 32; 32; 32; 32; 32; 32; 32; 32; 32; 32; 32; 32; 32; 82; 101;
    105; 110; 105; 99; 105; 97; 32; 111; 32; 115; 105; 115; 116; 101; 109; 97; 10]].
Definition cmd_help : SW unit := foldr (λ t k, put t ;! k) skip help_text.

Definition cmd_clear : SW unit := on_con console_clear.

Definition cmd_echo (args : list Z) : SW unit := put args ;! put [10].

Definition fmt_vesa : list Z :=
  [86; 69; 83; 65; 58; 32; 37; 100; 120; 37; 100; 32; 37; 100; 98; 112; 112; 10].
Definition fmt_fb : list Z :=
  [70; 114; 97; 109; 101; 98; 117; 102; 102; 101; 114; 58; 32; 48; 120; 37; 120; 10].
Definition fmt_pitch : list Z :=
  [80; 105; 116; 99; 104; 58; 32; 37; 100; 10].
Definition text_heap : list Z :=
  [72; 101; 97; 112; 58; 32; 54; 52; 77; 66; 32; 98; 117; 109; 112; 32; 97; 108; 108; 111; 99; 97; 116; 111; 114;
   10].
Definition cmd_info : SW unit :=
  let! fb := op_fb in
  let '(w, h, bpp, addr, pitch) := fb in
  printf fmt_vesa [PInt w; PInt h; PInt bpp] ;!
  printf fmt_fb [PInt (u32 addr)] ;!
  printf fmt_pitch [PInt pitch] ;!
  printf text_heap [].

(** The digits before a space or any other character. *)
Fixpoint hex_addr (args : list Z) (addr : Z) : Z :=
  match args with
  | [] => addr
  | c :: args' =>
      if c =? 32 then addr
      else if (48 <=? c) && (c <=? 57) then hex_addr args' (u32 (addr * 16 + (c - 48)))
      else if (97 <=? c) && (c <=? 102) then hex_addr args' (u32 (addr * 16 + (c - 97 + 10)))
      else if (65 <=? c) && (c <=? 70) then hex_addr args' (u32 (addr * 16 + (c - 65 + 10)))
      else addr
  end.

Definition hexdump_usage : list Z :=
  [117; 115; 111; 58; 32; 104; 101; 120; 100; 117; 109; 112; 32; 60; 97; 100; 100; 114; 95; 104; 101; 120; 62;
   10].
Definition fmt_row : list Z :=
  [37; 120; 58; 32].
(** A digit of ["0123456789abcdef"]. *)
Definition hex_digit (v : Z) : Z := if v <? 10 then 48 + v else 87 + v.

Definition hexdump_row (addr row : Z) : SW unit :=
  printf fmt_row [PInt (u32 (addr + row * 16))] ;!
  for_up 16 0 (λ i,
    let! b := op_byte (addr + (row * 16 + i)) in
    put [hex_digit (Z.shiftr b 4); hex_digit (Z.land b 0xF); 32]) ;!
  put [32; 124] ;!
  for_up 16 0 (λ i,
    let! b := op_byte (addr + (row * 16 + i)) in
    on_con (console_putchar (if (32 <=? b) && (b <? 127) then b else 46))) ;!
  put [124; 10].

Definition cmd_hexdump (args : list Z) : SW unit :=
  match args with
  | [] => put hexdump_usage
  | _ => for_up 4 0 (hexdump_row (hex_addr args 0))
  end.

Definition desktop_bin : list Z :=
  [68; 69; 83; 75; 84; 79; 80; 46; 66; 73; 78].
Definition cmd_desktop : SW unit := op_exec desktop_bin.

Definition rebooting : list Z :=
  [82; 101; 105; 110; 105; 99; 105; 97; 110; 100; 111; 46; 46; 46; 10].
(** [outb(0x64, 0xFE); for(;;);] *)
Definition cmd_reboot : SW unit := put rebooting ;! stuck.

Definition owt_ok : list Z :=
  [79; 87; 84; 32; 111; 107; 10].
Definition packet : list Z :=
  [255; 255; 255; 255; 255; 255; 82; 84; 0; 18; 52; 86; 8; 6; 0; 1; 8; 0; 6; 4; 0; 1; 82; 84; 0; 18; 52; 86; 10; 0; 2; 2; 0; 0; 0; 0; 0; 0; 10; 0; 2; 1].
Definition packet_sent : list Z :=
  [80; 97; 99; 111; 116; 101; 32; 101; 110; 118; 105; 97; 100; 111; 33; 10].
Definition not_found : list Z :=
  [99; 111; 109; 97; 110; 100; 111; 32; 110; 97; 111; 32; 101; 110; 99; 111; 110; 116; 114; 97; 100; 111; 58; 32].

(** ** Finding the command *)

Definition is_cmd (cmd : list Z) (cmd_len : nat) (name : list Z) : bool :=
  strieq cmd name (length name) && (cmd_len =? length name)%nat.

Definition fallback (cmd : list Z) : SW unit :=
  let line := take 255 cmd in
  let! found := op_stat line in
  if found : bool then op_exec line else put not_found ;! put cmd ;! put [10].

Definition execute_one (cmd : list Z) : SW unit :=
  let cmd := trim cmd in
  match cmd with
  | [] => skip
  | _ =>
      let '(word, rest) := break_at gap cmd in
      let cmd_len := length word in
      let args := skip_over gap rest in
      if is_cmd cmd cmd_len [104; 101; 108; 112] then cmd_help
      else if is_cmd cmd cmd_len [99; 108; 101; 97; 114] then cmd_clear
      else if is_cmd cmd cmd_len [101; 99; 104; 111] then cmd_echo args
      else if is_cmd cmd cmd_len [105; 110; 102; 111] then cmd_info
      else if is_cmd cmd cmd_len [104; 101; 120; 100; 117; 109; 112] then cmd_hexdump args
      else if is_cmd cmd cmd_len [101; 120; 101; 99] then op_exec args
      else if is_cmd cmd cmd_len [108; 115] then op_ls
      else if is_cmd cmd cmd_len [99; 100] then op_cd args
      else if is_cmd cmd cmd_len [100; 101; 115; 107; 116; 111; 112] then cmd_desktop
      else if is_cmd cmd cmd_len [111; 119; 116] then (op_owt ;! put owt_ok)
      else if is_cmd cmd cmd_len [115; 101; 110; 100; 112; 97; 99; 107; 101; 116] then (op_send packet ;! put packet_sent)
      else if is_cmd cmd cmd_len [114; 101; 98; 111; 111; 116] then cmd_reboot
      else fallback cmd
  end.

(** [segment] is what was collected since the last separator. *)
Fixpoint execute_from (cmd segment : list Z) : SW unit :=
  match cmd with
  | [] => execute_one segment
  | c :: cmd' =>
      if (c =? 59) || (c =? 10) then execute_one segment ;! execute_from cmd' []
      else if Z.of_nat (length segment) <? MAX_CMD - 1 then execute_from cmd' (segment ++ [c])
      else execute_from cmd' segment
  end.

Definition execute (cmd : list Z) : SW unit := execute_from cmd [].

(** The system call: the command runs with its output in the caller's buffer; the number
    of characters and the buffer.  [None] is a null pointer. *)
Definition SYS_shell_cmd (cmd : option (list Z)) (outbuf : option (gmap Z Z)) (outsize : Z) : SW (Z * option (gmap Z Z)) :=
  match cmd, outbuf with
  | Some (c :: cs), Some b =>
      if outsize <=? 0 then ret (-1, outbuf) else
      on_con (console_set_output_buffer (Some b) (Some 0) outsize) ;!
      execute (c :: cs) ;!
      let! con := gets fst in
      on_con (console_set_output_buffer None None 0) ;!
      match term_out_len con with Some n => ret (n, term_out_buf con) | None => stuck end
  | _, _ => ret (-1, outbuf)
  end.

(** ** The line *)

Record shell := mkShell { cmd_buf : list Z; cmd_pos : Z; sh_rest : console * W }.

Abbreviation SH := (M shell).
Definition outside {A} (m : SW A) : SH A := zoom sh_rest (λ r s, mkShell (cmd_buf s) (cmd_pos s) r) m.
Definition set_pos (v : Z) : SH unit := modify (λ s, mkShell (cmd_buf s) v (sh_rest s)).
(** [cmd_buf\[i\] = c;] *)
Definition put_buf (i c : Z) : SH unit := λ s,
  if (0 <=? i) && (i <? Z.of_nat (length (cmd_buf s))) then Some (tt, mkShell (<[Z.to_nat i := c]> (cmd_buf s)) (cmd_pos s) (sh_rest s))
  else None.

Definition shell_input (c : Z) : SH unit :=
  let! pos := gets cmd_pos in
  if c =? 10 then
    put_buf pos 0 ;!
    outside (put [10]) ;!
    let! buf := gets cmd_buf in
    outside (execute (cstr buf)) ;!
    set_pos 0 ;!
    outside prompt
  else if c =? 8 then
    if 0 <? pos then set_pos (pos - 1) ;! outside (put [8; 32; 8]) else skip
  else
    if pos <? MAX_CMD - 1 then
      put_buf pos c ;!
      set_pos (pos + 1) ;!
      outside (on_con (console_putchar c))
    else skip.

Definition banner : list Z :=
  [79; 118; 115; 98; 77; 107; 77; 32; 75; 101; 114; 110; 101; 108; 32; 67; 111; 110; 115; 111; 108; 101; 10].
Definition hello : list Z :=
  [47; 98; 105; 110; 47; 72; 69; 76; 76; 79].
Definition ttest : list Z :=
  [47; 98; 105; 110; 47; 84; 84; 69; 83; 84].
Definition shell_init : SH unit :=
  set_pos 0 ;!
  outside (put banner ;! op_exec hello ;! op_exec ttest ;! prompt).

Fixpoint inputs (cs : list Z) : SH unit := match cs with [] => skip | c :: cs' => shell_input c ;! inputs cs' end.
End shell.
Arguments shell W : clear implicits.
