(* ===== verification/ShellProof.v ===== *)
(** * ShellProof: the shell reads lines and runs their commands

    A reference shell keeps the line as a list, cuts it at the separators and looks the
    first word of each piece up in a table ([ref_inputs]); [shell_input] with its array
    and its chain of comparisons does the same ([shell_runs_lines]).  The arguments of
    [exec] are the first eight words ([exec_words_split]). *)

From Stdlib Require Import ZArith Lia.
From stdpp Require Import gmap list prelude.
From S2P Require Import Prelude KHeap Process Console Shell.

Open Scope Z_scope.

(** ** Trimming *)

Lemma skip_over_split p s : ∃ a, s = a ++ skip_over p s ∧ Forall (λ c, p c = true) a.
Proof.
  induction s as [|c s [a [E Ha]]]; simpl; [by exists []|]. destruct (p c) eqn:Ep; [|by exists []].
  exists (c :: a). split; [by rewrite E at 1|by constructor].
Qed.
Lemma skip_over_head p s c s' : skip_over p s = c :: s' → p c = false.
Proof. induction s as [|d s IH]; simpl; [done|]. destruct (p d) eqn:E; [done|]. by intros [= <- <-]. Qed.

(** [trim] takes blanks off both ends, and all of them. *)
Lemma trim_spec s :
  ∃ a b, s = a ++ trim s ++ b ∧ Forall (λ c, blank c = true) a ∧ Forall (λ c, blank c = true) b ∧
    (∀ c, head (trim s) = Some c ∨ last (trim s) = Some c → blank c = false).
Proof.
  destruct (skip_over_split blank s) as (a & Ea & Ha). set (t := skip_over blank s) in *.
  destruct (skip_over_split blank (rev t)) as (b & Eb & Hb). set (u := skip_over blank (rev t)) in *.
  assert (Et : t = rev u ++ rev b) by (rewrite <- rev_app_distr, <- Eb; by rewrite rev_involutive).
  assert (Hu : trim s = rev u) by done. exists a, (rev b). rewrite Hu. split_and!; [by rewrite Ea, Et|done|by apply Forall_rev|].
  intros c [Hc|Hc].
  - destruct (rev u) as [|d r] eqn:E; [done|]. injection Hc as ->. simpl in Et. by apply (skip_over_head blank s c (r ++ rev b)).
  - destruct u as [|d r] eqn:E; [done|]. simpl in Hc. rewrite last_snoc in Hc. injection Hc as ->. by apply (skip_over_head blank (rev t) c r).
Qed.

(** ** Words *)

Lemma break_at_spec p s : s = fst (break_at p s) ++ snd (break_at p s) ∧ Forall (λ c, p c = false) (fst (break_at p s)).
Proof.
  induction s as [|c s [IH1 IH2]]; simpl; [done|]. destruct (p c) eqn:E; [done|]. destruct (break_at p s) as [w r]; simpl in *.
  split; [by f_equal|by constructor].
Qed.
Lemma break_at_head p s c r : snd (break_at p s) = c :: r → p c = true.
Proof. induction s as [|d s IH]; simpl; [done|]. destruct (p d) eqn:E; simpl; [by intros [= <- <-]|]. by destruct (break_at p s). Qed.

(** The comparison of a whole word. *)
Lemma strieq_prefix name : ∀ cmd, Forall (λ c, c ≠ 0) name → strieq cmd name (length name) = bool_decide (take (length name) cmd = name).
Proof.
  induction name as [|n name IH]; intros cmd Hn; [done|]. apply Forall_cons in Hn as [H0 Hn].
  destruct cmd as [|c cmd]; cbn [length strieq head tail].
  - change (default 0 (@None Z)) with 0. change (default 0 (Some n)) with n. rewrite (proj2 (Z.eqb_neq 0 n)) by done. by rewrite bool_decide_eq_false_2.
  - change (default 0 (Some n)) with n. change (default 0 (Some c)) with c.
    destruct (Z.eqb_spec c n) as [->|Hne]; cbn [negb]; [|by rewrite bool_decide_eq_false_2 by (simpl; congruence)].
    rewrite (proj2 (Z.eqb_neq n 0)) by done. rewrite IH by done. apply bool_decide_ext. simpl. split; [by intros ->|by intros [= ?]].
Qed.

Lemma is_cmd_word name cmd :
  Forall (λ c, c ≠ 0) name → is_cmd cmd (length (fst (break_at gap cmd))) name = bool_decide (fst (break_at gap cmd) = name).
Proof.
  intros Hn. destruct (break_at_spec gap cmd) as [E _]. set (w := fst (break_at gap cmd)) in *. unfold is_cmd. rewrite strieq_prefix by done.
  destruct (Nat.eqb_spec (length w) (length name)) as [El|Hl].
  - rewrite andb_true_r. apply bool_decide_ext. rewrite E, <- El, take_app_length. done.
  - rewrite andb_false_r. symmetry. apply bool_decide_eq_false_2. congruence.
Qed.

(** The words between spaces, of any number. *)
Fixpoint all_words (fuel : nat) (s : list Z) : list (list Z) :=
  match fuel with
  | O => []
  | S f => match skip_over space s with [] => [] | s' => fst (break_at space s') :: all_words f (snd (break_at space s')) end
  end.

Lemma words_shrink s c s' : skip_over space s = c :: s' → (length (snd (break_at space (c :: s'))) < length s)%nat.
Proof.
  intros E. destruct (skip_over_split space s) as (a & Ea & _). rewrite E in Ea. pose proof (skip_over_head _ _ _ _ E) as Hc.
  apply (f_equal length) in Ea. rewrite length_app in Ea. cbn [length] in Ea. cbn [break_at]. rewrite Hc.
  destruct (break_at_spec space s') as [E' _]. apply (f_equal length) in E'. rewrite length_app in E'.
  destruct (break_at space s') as [w r]. cbn [fst snd] in *. lia.
Qed.

Lemma all_words_fuel f : ∀ g s, (length s < f)%nat → (length s < g)%nat → all_words f s = all_words g s.
Proof.
  induction f as [|f IH]; intros [|g] s Hf Hg; try lia. cbn [all_words]. destruct (skip_over space s) as [|c s'] eqn:E; [done|].
  f_equal. pose proof (words_shrink s c s' E). apply IH; lia.
Qed.
Definition words (s : list Z) : list (list Z) := all_words (S (length s)) s.

Lemma exec_words_split n : ∀ s, exec_words n s = take n (map (take 63) (words s)).
Proof.
  induction n as [|n IH]; intros s; [done|]. unfold words. cbn [exec_words all_words]. destruct (skip_over space s) as [|c s'] eqn:E; [done|].
  pose proof (words_shrink s c s' E) as Hl. destruct (break_at space (c :: s')) as [w r] eqn:Eb. cbn [fst snd map take] in *. f_equal.
  rewrite IH. unfold words. by rewrite (all_words_fuel (length s) (S (length r)) r) by lia.
Qed.

(** ** The reference shell *)

Section reference.
Context {W : Type} `{ShellOps W}.
Abbreviation SW := (M (console * W)).

(** The commands by name. *)
Definition table : list (list Z * (list Z → SW unit)) :=
  [([104; 101; 108; 112], λ _, cmd_help); ([99; 108; 101; 97; 114], λ _, cmd_clear); ([101; 99; 104; 111], cmd_echo);
   ([105; 110; 102; 111], λ _, cmd_info); ([104; 101; 120; 100; 117; 109; 112], cmd_hexdump); ([101; 120; 101; 99], op_exec);
   ([108; 115], λ _, op_ls); ([99; 100], op_cd); ([100; 101; 115; 107; 116; 111; 112], λ _, cmd_desktop);
   ([111; 119; 116], λ _, op_owt ;! put owt_ok);
   ([115; 101; 110; 100; 112; 97; 99; 107; 101; 116], λ _, op_send packet ;! put packet_sent);
   ([114; 101; 98; 111; 111; 116], λ _, cmd_reboot)].

Fixpoint find_command (word : list Z) (t : list (list Z * (list Z → SW unit))) : option (list Z → SW unit) :=
  match t with
  | [] => None
  | (name, f) :: t' => if bool_decide (word = name) then Some f else find_command word t'
  end.

(** One command: its first word names it, the rest after the gap is its argument. *)
Definition ref_command (piece : list Z) : SW unit :=
  let cmd := trim piece in
  let '(word, rest) := break_at gap cmd in
  if bool_decide (cmd = []) then skip else
  match find_command word table with
  | Some f => f (skip_over gap rest)
  | None => fallback cmd
  end.

Definition separator (c : Z) : bool := (c =? 59) || (c =? 10).
(** The pieces between the separators: always one more than there are separators. *)
Fixpoint pieces (s : list Z) : list (list Z) :=
  match s with
  | [] => [[]]
  | c :: s' =>
      if separator c then [] :: pieces s'
      else match pieces s' with p :: ps => (c :: p) :: ps | [] => [[c]] end
  end.

Fixpoint in_turn (ms : list (SW unit)) : SW unit := match ms with [] => skip | [m] => m | m :: ms' => m ;! in_turn ms' end.
Definition ref_execute (line : list Z) : SW unit := in_turn (map (λ p, ref_command (take 255 p)) (pieces line)).

(** A character at the end of the line [l]; the line that follows. *)
Definition ref_input (c : Z) (l : list Z) : SW (list Z) :=
  if c =? 10 then put [10] ;! ref_execute (cstr l) ;! prompt ;! ret []
  else if c =? 8 then if bool_decide (l = []) then ret [] else put [8; 32; 8] ;! ret (removelast l)
  else if Z.of_nat (length l) <? 255 then on_con (console_putchar c) ;! ret (l ++ [c])
  else ret l.

Fixpoint ref_inputs (cs l : list Z) : SW (list Z) :=
  match cs with [] => ret l | c :: cs' => let! l := ref_input c l in ref_inputs cs' l end.

(** ** Commands *)

Lemma names_ok : Forall (λ nf, Forall (λ c, c ≠ 0) (fst nf)) table.
Proof. repeat constructor; done. Qed.

Lemma execute_one_ref piece s : execute_one piece s = ref_command piece s.
Proof.
  unfold execute_one, ref_command. destruct (trim piece) as [|c t] eqn:E; [done|]. set (cmd := c :: t).
  rewrite (bool_decide_eq_false_2 (cmd = [])) by done. pose proof (is_cmd_word) as Hw. destruct (break_at gap cmd) as [word rest] eqn:Eb.
  assert (Hn : ∀ name f, (name, f) ∈ table → is_cmd cmd (length word) name = bool_decide (word = name)).
  { intros name f Hin. specialize (Hw name cmd). rewrite Eb in Hw. apply Hw. pose proof names_ok as Hall. rewrite Forall_forall in Hall. apply (Hall _ Hin). }
  unfold find_command, table. repeat (erewrite Hn; [|unfold table; repeat (apply list_elem_of_here || apply list_elem_of_further)]; match goal with |- context [bool_decide (word = ?n)] => destruct (bool_decide (word = n)); [done|] end).
  done.
Qed.

Lemma pieces_cons s : ∃ p ps, pieces s = p :: ps.
Proof. destruct s as [|c s]; simpl; [by eexists _, _|]. destruct (separator c); [by eexists _, _|]. destruct (pieces s); by eexists _, _. Qed.

Lemma in_turn_cons m ms s : ms ≠ [] → in_turn (m :: ms) s = (m ;! in_turn ms) s.
Proof. by destruct ms. Qed.

(** What is collected so far, in front of the first piece. *)
Lemma execute_from_ref cmd : ∀ seg s p ps,
  (length seg ≤ 255)%nat → pieces cmd = p :: ps →
  execute_from cmd seg s = in_turn (map (λ q, ref_command (take 255 q)) ((seg ++ p) :: ps)) s.
Proof.
  induction cmd as [|c cmd IH]; intros seg s p ps Hl Ep; simpl in Ep.
  { injection Ep as <- <-. simpl. rewrite app_nil_r, take_ge by lia. apply execute_one_ref. }
  cbn [execute_from]. fold (separator c). destruct (separator c) eqn:Es; destruct (pieces_cons cmd) as (q & qs & Eq); rewrite Eq in Ep.
  - injection Ep as <- <-. rewrite app_nil_r. cbn [map]. rewrite in_turn_cons by done. rewrite take_ge by lia.
    unfold bind. rewrite execute_one_ref. destruct (ref_command seg s) as [[[] s1]|]; [|done]. rewrite (IH [] s1 q qs); [done|simpl; lia|done].
  - injection Ep as <- <-. unfold MAX_CMD. destruct (Z.ltb_spec (Z.of_nat (length seg)) (256 - 1)) as [Hlt|Hge].
    + rewrite (IH (seg ++ [c]) s q qs); [|rewrite length_app; simpl; lia|done]. by rewrite <- app_assoc.
    + rewrite (IH seg s q qs) by done. assert (length seg = 255)%nat as E255 by lia. cbn [map].
      replace (take 255 (seg ++ q)) with seg by (rewrite <- E255; by rewrite take_app_length).
      by replace (take 255 (seg ++ c :: q)) with seg by (rewrite <- E255; by rewrite take_app_length).
Qed.

Lemma execute_ref line s : execute line s = ref_execute line s.
Proof.
  unfold execute, ref_execute. destruct (pieces_cons line) as (p & ps & E). rewrite (execute_from_ref line [] s p ps); [by rewrite E|simpl; lia|done].
Qed.

(** ** The line in the array *)

Definition holds (s : shell W) (l : list Z) : Prop :=
  (length l ≤ 255)%nat ∧ length (cmd_buf s) = 256%nat ∧ cmd_pos s = Z.of_nat (length l) ∧ ∃ rest, cmd_buf s = l ++ rest.

(** The two shells from related states: both stop without a result, or both go on. *)
Definition agrees (m : M (shell W) unit) (r : SW (list Z)) (s : shell W) : Prop :=
  match r (sh_rest s) with
  | Some (l, rest) => ∃ s', m s = Some (tt, s') ∧ sh_rest s' = rest ∧ holds s' l
  | None => m s = None
  end.

Lemma cstr_end l rest : cstr (l ++ 0 :: rest) = cstr l.
Proof. induction l as [|c l IH]; simpl; [done|]. destruct (c =? 0); [done|]. by rewrite IH. Qed.

Lemma put_buf_end l x rest pos (w : console * W) c :
  pos = Z.of_nat (length l) → put_buf pos c (mkShell (l ++ x :: rest) pos w) = Some (tt, mkShell (l ++ c :: rest) pos w).
Proof.
  intros ->. unfold put_buf. simpl. rewrite length_app. cbn [length]. rewrite (proj2 (Z.leb_le 0 (Z.of_nat (length l)))) by lia.
  rewrite (proj2 (Z.ltb_lt (Z.of_nat (length l)) (Z.of_nat (length l + S (length rest))))) by lia.
  cbn [andb]. rewrite Nat2Z.id, insert_app_r_alt, Nat.sub_diag by lia. done.
Qed.

Lemma input_agrees c s l : holds s l → agrees (shell_input c) (ref_input c l) s.
Proof.
  intros (Hl & Hb & Hp & rest & Er). destruct s as [buf pos w]. simpl in *. subst buf pos.
  destruct rest as [|x rest]; [rewrite app_nil_r in Hb; lia|]. unfold agrees, shell_input, ref_input, bind, gets. cbn [sh_rest cmd_pos].
  destruct (Z.eqb_spec c 10) as [->|H10].
  { rewrite (put_buf_end l x rest) by done. unfold outside, zoom. cbn [sh_rest cmd_buf cmd_pos].
    destruct (put [10] w) as [[[] w1]|]; [|done]. cbn [sh_rest cmd_buf cmd_pos]. rewrite cstr_end, execute_ref.
    destruct (ref_execute (cstr l) w1) as [[[] w2]|]; [|done]. cbn [sh_rest cmd_buf cmd_pos set_pos modify]. unfold set_pos, modify. cbn [sh_rest cmd_buf cmd_pos].
    destruct (prompt w2) as [[[] w3]|]; [|done]. unfold ret. eexists. split; [reflexivity|]. split; [done|]. split_and!; [simpl; lia| |done|by eexists].
    simpl. rewrite length_app in *. simpl in *. lia. }
  destruct (Z.eqb_spec c 8) as [->|H8].
  { destruct l as [|y l] using rev_ind.
    - simpl. eexists. split; [reflexivity|]. split; [done|]. split_and!; [simpl; lia|done|done|by eexists].
    - rewrite bool_decide_eq_false_2 by (by destruct l). rewrite removelast_last. rewrite length_app in *. cbn [length] in *.
      rewrite (proj2 (Z.ltb_lt 0 (Z.of_nat (length l + 1)))) by lia. unfold set_pos, modify, outside, zoom. cbn [sh_rest cmd_buf cmd_pos].
      destruct (put [8; 32; 8] w) as [[[] w1]|]; [|done]. unfold ret. eexists. split; [reflexivity|]. split; [done|].
      split_and!; [lia|cbn [cmd_buf]; rewrite !length_app in *; simpl in *; lia|cbn [cmd_pos]; lia|]. exists (y :: x :: rest). simpl. by rewrite <- app_assoc. }
  unfold MAX_CMD. change (256 - 1) with 255. destruct (Z.ltb_spec (Z.of_nat (length l)) 255) as [Hlt|Hge].
  - rewrite (put_buf_end l x rest) by done. unfold set_pos, modify, outside, zoom. cbn [sh_rest cmd_buf cmd_pos].
    destruct (on_con (console_putchar c) w) as [[[] w1]|]; [|done]. unfold ret. eexists. split; [reflexivity|]. split; [done|].
    split_and!; [rewrite length_app; simpl; lia|cbn [cmd_buf]; rewrite !length_app in *; simpl in *; lia|cbn [cmd_pos]; rewrite length_app; simpl; lia|].
    exists rest. simpl. by rewrite <- app_assoc.
  - unfold ret. eexists. split; [reflexivity|]. split; [done|]. split_and!; [lia|done|done|by eexists].
Qed.

Lemma inputs_agree cs : ∀ s l, holds s l → agrees (inputs cs) (ref_inputs cs l) s.
Proof.
  induction cs as [|c cs IH]; intros s l Hs; [by exists s|]. unfold agrees. cbn [inputs ref_inputs]. unfold bind.
  pose proof (input_agrees c s l Hs) as Hi. unfold agrees in Hi. destruct (ref_input c l (sh_rest s)) as [[l1 r1]|].
  - destruct Hi as (s1 & E1 & <- & H1). rewrite E1. exact (IH s1 l1 H1).
  - by rewrite Hi.
Qed.

(** C21: (equivalence) whatever is typed, the shell with its array [cmd_buf], its
    segments and its chain of comparisons behaves like the reference shell: the line is
    a list of at most 255 characters that Backspace shortens; Enter runs its pieces
    between semicolons in turn, each cut to 255 characters; blanks around a piece do
    not count; its first word is looked up in the table of commands and what follows
    the gap is its argument; any other word is tried as a program.  Both give the same
    console and the same world, or both never come back. *)
Theorem shell_runs_lines (cs : list Z) (s : shell W) :
  length (cmd_buf s) = Z.to_nat 256 → cmd_pos s = 0 →
  match ref_inputs cs [] (sh_rest s) with
  | Some (l, rest) => ∃ s', inputs cs s = Some (tt, s') ∧ sh_rest s' = rest ∧ take (length l) (cmd_buf s') = l ∧ cmd_pos s' = Z.of_nat (length l)
  | None => inputs cs s = None
  end.
Proof.
  intros Hb Hp. assert (Hs : holds s []) by (split_and!; [simpl; lia|done|done|by exists (cmd_buf s)]).
  pose proof (inputs_agree cs s [] Hs) as Hi. unfold agrees in Hi. destruct (ref_inputs cs [] (sh_rest s)) as [[l rest]|]; [|done].
  destruct Hi as (s' & E & Er & Hl & Hb' & Hp' & r & Eb). exists s'. split_and!; [done|done|by rewrite Eb, take_app_length|done].
Qed.
End reference.

(** A shell whose programs are a log of what was run. *)
#[local] Instance logging : ShellOps (list (list Z)) := {|
  op_stat name := ret (bool_decide (name = [120]));
  op_exec args := modify (λ s, (fst s, snd s ++ [args]));
  op_ls := skip; op_cd _ := skip; op_owt := skip; op_send _ := skip; op_byte _ := ret 0; op_fb := ret (0, 0, 0, 0, 0) |}.

(** Output is redirected to a buffer without room; the serial line still gets it. *)
Definition quiet_console : console := mkConsole ∅ 0 0 0 0 0 0 (Some ∅) (Some 0) 0 ∅ 0 [].
(** [exec a ;x], a character taken back, and Enter. *)
Definition typed_line : list Z := [101; 120; 101; 99; 32; 97; 32; 59; 120; 121; 8; 10].

Lemma shell_runs_lines_witness :
  match ref_inputs typed_line [] (quiet_console, []) with
  | Some (l, rest) => ∃ s', inputs typed_line (mkShell (replicate 256 0) 0 (quiet_console, [])) = Some (tt, s') ∧ sh_rest s' = rest ∧
      take (length l) (cmd_buf s') = l ∧ cmd_pos s' = Z.of_nat (length l)
  | None => inputs typed_line (mkShell (replicate 256 0) 0 (quiet_console, [])) = None
  end.
Proof. apply (shell_runs_lines typed_line (mkShell (replicate 256 0) 0 (quiet_console, []))); [reflexivity|reflexivity]. Defined.

(** The two programs of the line, in order; the line is empty again. *)
Example programs_run :
  (λ r : list Z * (console * list (list Z)), (fst r, snd (snd r))) <$> ref_inputs typed_line [] (quiet_console, []) = Some ([], [[97]; [120]]).
Proof. vm_compute. reflexivity. Qed.

(** ["echo ab; echo c"] by the system call: the output, cut to the size of the buffer. *)
Definition two_echoes : list Z := [101; 99; 104; 111; 32; 97; 98; 59; 32; 101; 99; 104; 111; 32; 99].
Definition zeros : gmap Z Z := list_to_map (zip (seqZ 0 100) (replicate 100 0)).
Example shell_cmd_output :
  (λ r, (fst (fst r), map (λ i, default 0 (default ∅ (snd (fst r)) !! i)) (seqZ 0 6))) <$>
    SYS_shell_cmd (Some two_echoes) (Some zeros) 100 (quiet_console, []) = Some (5, [97; 98; 10; 99; 10; 0]) ∧
  (λ r, (fst (fst r), map (λ i, default 0 (default ∅ (snd (fst r)) !! i)) (seqZ 0 6))) <$>
    SYS_shell_cmd (Some two_echoes) (Some zeros) 4 (quiet_console, []) = Some (3, [97; 98; 10; 0; 0; 0]).
Proof. vm_compute. split; reflexivity. Qed.
