(* ===== verification/SysProc.v ===== *)
(** * SysProc: the system calls of processes, time and identity

    Cases of [syscall_handler] in [OvsbMk/kernel/syscall.c] that work on the process
    table, the clock and a few static variables: exit and exit_group, wait4, brk,
    arch_prctl, futex, the identifiers, the clocks, uname, getrandom and umask.  A
    result is [ret] as a signed number.  A call that ends in [hlt], or gives the
    processor away before it looks again, yields the switch.  User memory is written
    through the translation of the current CR3, byte by byte; a page fault has no
    result.  [timer_ticks], [cur_umask] and the state [x] of the generator are fields. *)

From Stdlib Require Import ZArith Lia.
From stdpp Require Import gmap list prelude.
From S2P Require Import Prelude KHeap Buddy Slab Paging VmMap Fds Process Fork MachO.

Open Scope Z_scope.

(** ** User memory *)

Definition user_store8 (va v : Z) : M heap unit :=
  let! cr3 := pml4_get_current in
  let! tr := gets (λ h, walk (h_mem h) cr3 va) in
  match tr with Some (pa, _) => store8 pa v | None => stuck end.
Definition user_load8 (va : Z) : M heap Z :=
  let! cr3 := pml4_get_current in
  let! tr := gets (λ h, walk (h_mem h) cr3 va) in
  match tr with Some (pa, _) => load8 pa | None => stuck end.

Fixpoint user_put (va : Z) (bs : list Z) : M heap unit :=
  match bs with [] => skip | b :: bs' => user_store8 va b ;! user_put (u64 (va + 1)) bs' end.
Fixpoint user_get (va : Z) (n : nat) : M heap (list Z) :=
  match n with O => ret [] | S n' => let! b := user_load8 va in let! bs := user_get (u64 (va + 1)) n' in ret (b :: bs) end.

(** Words of 64 bits in a row. *)
Definition words64 (ws : list Z) : list Z := concat (map (le_bytes 8) ws).

(** ** State and results *)

Record psys (F : Type) := mkPsys { y_k : kstate F; y_ticks : Z; y_umask : Z; y_rng : Z }.
Arguments mkPsys {F}.
Arguments y_k {F}.
Arguments y_ticks {F}.
Arguments y_umask {F}.
Arguments y_rng {F}.

(** The call returns, or it returns when the processor is back from a switch, or the
    processor is switched away for good, or the call looks again when it is back. *)
Inductive outcome :=
  | Returns (v : Z)
  | ReturnsAfter (sw : option switch) (v : Z)
  | Gone (sw : option switch)
  | Again (sw : option switch).

Section calls.
Context {F : Type} `{FileOps F}.

Abbreviation Y := (M (psys F)).
Definition on_k {A} (m : M (kstate F) A) : Y A := zoom y_k (λ k s, mkPsys k (y_ticks s) (y_umask s) (y_rng s)) m.
Definition on_user {A} (m : M heap A) : Y A := on_k (on_heap m).
Definition done (v : Z) : Y outcome := ret (Returns v).

(** [if (p) *p = ...]: nothing for a null pointer. *)
Definition put_out (p : Z) (bs : list Z) : Y unit := if nz p then on_user (user_put p bs) else skip.

(** ** Exit and wait *)

Definition SYS_exit (a1 : Z) : Y outcome :=
  let! me := on_k process_current in
  let! th := (if me <? 0 then ret (-1) else let! p := on_k (pcb_get me) in ret (th_parent_pid p)) in
  let! sw := on_k (if (0 <=? me) && (0 <=? th) then proc_thread_exit (s32 a1) else process_exit_current (s32 a1)) in
  ret (Gone sw).

(** [for (i = 0; i < MAX_PROC; i++) if (state != EMPTY && pid != me->pid && pml4 == me->pml4) state = EMPTY;] *)
Definition end_sibling (mypid mypml4 : Z) (p : pcb) : pcb :=
  if negb (state p =? PROC_EMPTY) && negb (pid p =? mypid) && (pml4 p =? mypml4) then with_state PROC_EMPTY p else p.
Definition end_siblings (me : Z) : M (kstate F) unit :=
  for_up 64 0 (λ i,
    let! m := pcb_get me in
    pcb_upd i (end_sibling (pid m) (pml4 m))).

Definition SYS_exit_group (a1 : Z) : Y outcome :=
  let! me := on_k process_current in
  let! th := (if me <? 0 then ret (-1) else let! p := on_k (pcb_get me) in ret (th_parent_pid p)) in
  if (0 <=? me) && (0 <=? th) then let! sw := on_k (proc_thread_exit (s32 a1)) in ret (Gone sw) else
  (if 0 <=? me then on_k (end_siblings me) else skip) ;!
  let! sw := on_k (process_exit_current (s32 a1)) in
  ret (Gone sw).

Definition SYS_wait4 (a1 a2 : Z) : Y outcome :=
  let! r := on_k (proc_waitpid_round (s32 a1)) in
  match r with
  | WNone => done (-1)
  | WReaped p code => (if 0 <=? p then put_out a2 (le_bytes 4 code) else skip) ;! done p
  | WAgain sw => ret (Again sw)
  end.

(** ** Memory *)

(** [for (va = start; va < end; va += 0x1000) if (map_user_4kb(pml4, va) < 0) ...] *)
Definition map_range (pml4 start end_ : Z) : M heap bool :=
  while_ (λ va,
    if va <? end_ then
      let! r := map_user_4kb pml4 va in
      if r <? 0 then ret (inr false) else ret (inl (u64 (va + 0x1000)))
    else ret (inr true)) start.

Definition page_up (a : Z) : Z := Z.ldiff (u64 (a + 0xFFF)) 0xFFF.

Definition SYS_brk (a1 : Z) : Y outcome :=
  let! me := on_k process_current in
  if me <? 0 then done (-1) else
  let! p := on_k (pcb_get me) in
  if a1 =? 0 then done (program_break p)
  else if program_break p <? a1 then
    let! ok := on_user (map_range (pml4 p) (page_up (program_break p)) (page_up a1)) in
    if ok : bool then on_k (pcb_upd me (with_program_break a1)) ;! done a1
    else done (program_break p)
  else on_k (pcb_upd me (with_program_break a1)) ;! done a1.

(** The register FS.base follows [fs_base]. *)
Definition SYS_arch_prctl (a1 a2 : Z) : Y outcome :=
  let! me := on_k process_current in
  if me <? 0 then done (-1) else
  let code := s32 a1 in
  if code =? 0x1002 then on_k (pcb_upd me (with_fs_base a2)) ;! done 0
  else if code =? 0x1003 then let! p := on_k (pcb_get me) in put_out a2 (le_bytes 8 (fs_base p)) ;! done 0
  else if code =? 0x1001 then done 0
  else if code =? 0x1004 then done 0
  else done (-1).

(** ** Futex: one look at the word, after [spins] looks *)

Definition SYS_futex (a1 a2 a3 spins : Z) : Y outcome :=
  let op := Z.land (s32 a2) 0x7F in
  if (op =? 0) && nz a1 then
    let! bs := on_user (user_get a1 4) in
    if le_value bs =? u32 a3 then
      let! sw := on_k schedule in
      if 4000000 <? spins + 1 then ret (ReturnsAfter sw 0) else ret (Again sw)
    else done 0
  else done 0.

(** ** Identity *)

Definition SYS_gettid : Y outcome := let! p := on_k process_current_pid in done p.
Definition SYS_set_tid_address : Y outcome := let! p := on_k process_current_pid in done p.

Definition SYS_getppid : Y outcome :=
  let! me := on_k process_current in
  if me <? 0 then done 1 else let! p := on_k (pcb_get me) in done (parent_pid p).
Definition SYS_getpgid : Y outcome :=
  let! me := on_k process_current in
  if me <? 0 then done 0 else let! p := on_k (pcb_get me) in done (pid p).

Definition SYS_umask (a1 : Z) : Y outcome :=
  let! old := gets y_umask in
  modify (λ s, mkPsys (y_k s) (y_ticks s) (Z.land (s32 a1) 0x1FF) (y_rng s)) ;!
  done old.

(** kill, tgkill, rt_sigprocmask, rt_sigreturn, sigaltstack, prctl, set_robust_list,
    rseq, nanosleep. *)
Definition SYS_accepted : Y outcome := done 0.
Definition SYS_get_robust_list (a2 : Z) : Y outcome := put_out a2 (le_bytes 8 0) ;! done 0.

(** ** Time *)

Definition SYS_clock_gettime (a2 : Z) : Y outcome :=
  let! t := gets y_ticks in
  put_out a2 (words64 [t / 100; u64 (t mod 100 * 10000000)]) ;!
  done 0.
Definition SYS_clock_getres (a2 : Z) : Y outcome := put_out a2 (words64 [0; 10000000]) ;! done 0.
Definition SYS_getrusage (a2 : Z) : Y outcome := put_out a2 (replicate 144 0) ;! done 0.
Definition SYS_times (a1 : Z) : Y outcome :=
  let! t := gets y_ticks in
  put_out a1 (words64 [t; 0; 0; 0]) ;!
  done t.
Definition SYS_sysinfo (a1 : Z) : Y outcome :=
  let! t := gets y_ticks in
  put_out a1 (words64 [t / 100; 0; 0; 0; 64 * 1024 * 1024; 32 * 1024 * 1024; 0; 0; 0; 0]) ;!
  done 0.

(** ** uname *)

Definition uts_fields : list (list Z) :=
  [[76; 105; 110; 117; 120]; [116; 105; 112; 111; 115]; [54; 46; 49; 45; 116; 105; 112; 111; 115];
   [84; 105; 112; 79; 83; 32; 49; 46; 48]; [120; 56; 54; 95; 54; 52]; [40; 110; 111; 110; 101; 41]].

(** Field [f] goes to [uts + f * 65], at most 64 characters and a 0. *)
Fixpoint put_fields (uts : Z) (fs : list (list Z)) : M heap unit :=
  match fs with [] => skip | s :: fs' => user_put uts (take 64 s ++ [0]) ;! put_fields (u64 (uts + 65)) fs' end.

Definition SYS_uname (a1 : Z) : Y outcome :=
  if a1 =? 0 then done (-1) else on_user (put_fields a1 uts_fields) ;! done 0.

(** ** getrandom *)

(** [x ^= x << 13; x ^= x >> 7; x ^= x << 17;] on 64 bits. *)
Definition shift_left_xor (k x : Z) : Z := Z.lxor x (u64 (Z.shiftl x k)).
Definition shift_right_xor (k x : Z) : Z := Z.lxor x (Z.shiftr x k).
Definition xorshift (x : Z) : Z := shift_left_xor 17 (shift_right_xor 7 (shift_left_xor 13 x)).

Fixpoint random_bytes (n : nat) (x : Z) : list Z * Z :=
  match n with O => ([], x) | S n' => let x := xorshift x in let '(bs, x') := random_bytes n' x in (u8 x :: bs, x') end.

Definition SYS_getrandom (a1 a2 : Z) : Y outcome :=
  if (a1 =? 0) || (a2 =? 0) then done 0 else
  let! x := gets y_rng in
  let '(bs, x') := random_bytes (Z.to_nat a2) x in
  on_user (user_put a1 bs) ;!
  modify (λ s, mkPsys (y_k s) (y_ticks s) (y_umask s) x') ;!
  done (s32 a2).
End calls.
