(* ===== verification/SysProof.v ===== *)
(** * SysProof: the system calls of processes, time and identity

    After [exit_group] no other process is left in the address space of the caller, and
    the processes of other address spaces lose nothing.  The generator of [getrandom]
    never reaches its fixed point 0 and never merges two of its states.  [brk] answers
    with the break that is then in force. *)

From Stdlib Require Import ZArith Lia.
From stdpp Require Import gmap list prelude.
From S2P Require Import Prelude KHeap Buddy BuddyProof PageAlloc Slab Paging VmMap Fds FdProof Process Fork ProcProof MachO SysProc.

Open Scope Z_scope.

(** ** The generator *)

Lemma u64_bit x n : 0 ≤ n → Z.testbit (u64 x) n = (n <? 64) && Z.testbit x n.
Proof.
  intros Hn. unfold u64. destruct (Z.ltb_spec n 64).
  - by rewrite Z.mod_pow2_bits_low by lia.
  - by rewrite Z.mod_pow2_bits_high by lia.
Qed.

Lemma shift_left_xor_bit k x n : 0 ≤ k → 0 ≤ n →
  Z.testbit (shift_left_xor k x) n = xorb (Z.testbit x n) ((n <? 64) && Z.testbit x (n - k)).
Proof.
  intros Hk Hn. unfold shift_left_xor. by rewrite Z.lxor_spec, u64_bit, Z.shiftl_spec by lia.
Qed.
Lemma shift_right_xor_bit k x n : 0 ≤ k → 0 ≤ n →
  Z.testbit (shift_right_xor k x) n = xorb (Z.testbit x n) (Z.testbit x (n + k)).
Proof. intros Hk Hn. unfold shift_right_xor. by rewrite Z.lxor_spec, Z.shiftr_spec by lia. Qed.

(** A number of 64 bits has no bit from 64 on. *)
Lemma word_bits x : 0 ≤ x < 2 ^ 64 ↔ (0 ≤ x ∧ ∀ n, 64 ≤ n → Z.testbit x n = false).
Proof.
  split.
  - intros Hx. split; [lia|]. intros n Hn. rewrite <-(Z.mod_small x (2 ^ 64)) by lia.
    by apply Z.mod_pow2_bits_high.
  - intros [H0 Hb]. enough (x = x mod 2 ^ 64) as -> by (apply Z.mod_pos_bound; lia).
    apply Z.bits_inj'. intros n Hn. destruct (Z.ltb_spec n 64).
    + by rewrite Z.mod_pow2_bits_low by lia.
    + by rewrite Z.mod_pow2_bits_high, Hb by lia.
Qed.

Lemma shift_left_xor_range k x : 0 ≤ k → 0 ≤ x < 2 ^ 64 → 0 ≤ shift_left_xor k x < 2 ^ 64.
Proof.
  intros Hk Hx. apply word_bits in Hx as Hx'. destruct Hx' as [_ Hb]. apply word_bits. split.
  - unfold shift_left_xor. apply Z.lxor_nonneg. pose proof (u64_range (Z.shiftl x k)). lia.
  - intros n Hn. rewrite shift_left_xor_bit, Hb by lia.
    by rewrite (proj2 (Z.ltb_ge n 64)) by lia.
Qed.
Lemma shift_right_xor_range k x : 0 ≤ k → 0 ≤ x < 2 ^ 64 → 0 ≤ shift_right_xor k x < 2 ^ 64.
Proof.
  intros Hk Hx. apply word_bits in Hx as Hx'. destruct Hx' as [_ Hb]. apply word_bits. split.
  - unfold shift_right_xor. apply Z.lxor_nonneg. rewrite Z.shiftr_nonneg. lia.
  - intros n Hn. by rewrite shift_right_xor_bit, !Hb by lia.
Qed.

Lemma xorb_cancel_r a b c : xorb a c = xorb b c → a = b.
Proof. by destruct a, b, c. Qed.

(** Bit [n] of a word is bit [n] of its image and a bit [k] places lower or higher. *)
Lemma shift_left_xor_inj k x y : 0 < k → 0 ≤ x < 2 ^ 64 → 0 ≤ y < 2 ^ 64 →
  shift_left_xor k x = shift_left_xor k y → x = y.
Proof.
  intros Hk Hx Hy E. apply Z.bits_inj'. intros n.
  induction n as [n IH] using (well_founded_induction (Z.lt_wf 0)). intros Hn.
  pose proof (f_equal (λ z, Z.testbit z n) E) as Eb. cbv beta in Eb.
  rewrite !shift_left_xor_bit in Eb by lia.
  enough (Z.testbit x (n - k) = Z.testbit y (n - k)) as Hl.
  { rewrite Hl in Eb. by apply xorb_cancel_r in Eb. }
  destruct (decide (n - k < 0)); [by rewrite !Z.testbit_neg_r|]. apply IH; lia.
Qed.
Lemma shift_right_xor_inj k x y : 0 < k → 0 ≤ x < 2 ^ 64 → 0 ≤ y < 2 ^ 64 →
  shift_right_xor k x = shift_right_xor k y → x = y.
Proof.
  intros Hk Hx Hy E. apply word_bits in Hx as [_ Hx]. apply word_bits in Hy as [_ Hy].
  apply Z.bits_inj'. intros n. remember (64 - n) as m eqn:Hm. revert n Hm.
  induction m as [m IH] using (well_founded_induction (Z.lt_wf 0)). intros n Hm Hn.
  destruct (decide (64 ≤ n)); [by rewrite Hx, Hy|].
  pose proof (f_equal (λ z, Z.testbit z n) E) as Eb. cbv beta in Eb.
  rewrite !shift_right_xor_bit in Eb by lia.
  enough (Z.testbit x (n + k) = Z.testbit y (n + k)) as Hl.
  { rewrite Hl in Eb. by apply xorb_cancel_r in Eb. }
  destruct (decide (64 ≤ n + k)); [by rewrite Hx, Hy|]. apply (IH (64 - (n + k))); lia.
Qed.

Lemma xorshift_range x : 0 ≤ x < 2 ^ 64 → 0 ≤ xorshift x < 2 ^ 64.
Proof.
  intros Hx. unfold xorshift. apply shift_left_xor_range; [lia|].
  apply shift_right_xor_range; [lia|]. by apply shift_left_xor_range.
Qed.
Lemma xorshift_inj x y : 0 ≤ x < 2 ^ 64 → 0 ≤ y < 2 ^ 64 → xorshift x = xorshift y → x = y.
Proof.
  intros Hx Hy E. pose proof (shift_left_xor_range 13 x) as Rx. pose proof (shift_left_xor_range 13 y) as Ry.
  apply (shift_left_xor_inj 13); [lia|done|done|].
  apply (shift_right_xor_inj 7); [lia|apply Rx; [lia|done]|apply Ry; [lia|done]|].
  apply (shift_left_xor_inj 17); [lia|apply shift_right_xor_range; [lia|apply Rx; [lia|done]]
    |apply shift_right_xor_range; [lia|apply Ry; [lia|done]]|done].
Qed.
Lemma xorshift_alive x : 0 < x < 2 ^ 64 → 0 < xorshift x < 2 ^ 64.
Proof.
  intros Hx. pose proof (xorshift_range x ltac:(lia)).
  enough (xorshift x ≠ xorshift 0) as Hne by (change (xorshift 0) with 0 in Hne; lia).
  intros E%xorshift_inj; lia.
Qed.

(** The bytes of a request, and the state after it. *)
Lemma random_bytes_spec n x : 0 < x < 2 ^ 64 →
  length (random_bytes n x).1 = n ∧ Forall (λ b, 0 ≤ b < 256) (random_bytes n x).1 ∧
  (random_bytes n x).2 = Nat.iter n xorshift x ∧ 0 < (random_bytes n x).2 < 2 ^ 64.
Proof.
  revert x. induction n as [|n IH]; intros x Hx; cbn [random_bytes fst snd]; [split_and!; [done|constructor|done|lia|lia]|].
  specialize (IH (xorshift x) (xorshift_alive x Hx)).
  destruct (random_bytes n (xorshift x)) as [bs x'] eqn:E. cbn [fst snd] in *.
  destruct IH as (Hl & Hf & -> & Hr). rewrite Nat.iter_succ_r.
  split_and!; [cbn; by rewrite Hl|constructor; [unfold u8; apply Z.mod_pos_bound; lia|done]|done|lia|lia].
Qed.

(** The generator of [getrandom] is seeded with a number other than 0 and never reaches
    0, from which it would give zeros for ever; a state that is not reached twice by a
    request is followed by one that is not either. *)
Theorem getrandom_alive {F} `{FileOps F} (s : psys F) a1 a2 :
  0 < y_rng s < 2 ^ 64 →
  wlp (SYS_getrandom a1 a2) s (λ r s', 0 < y_rng s' < 2 ^ 64 ∧
    r = Returns (if (a1 =? 0) || (a2 =? 0) then 0 else s32 a2) ∧
    y_rng s' = (if (a1 =? 0) || (a2 =? 0) then y_rng s else Nat.iter (Z.to_nat a2) xorshift (y_rng s))).
Proof.
  intros Hx. unfold SYS_getrandom, done. destruct (_ || _); [by apply wlp_ret|].
  apply wlp_bind, wlp_gets. destruct (random_bytes_spec (Z.to_nat a2) _ Hx) as (_ & _ & E & Hr).
  destruct (random_bytes _ _) as [bs x']. cbn [fst snd] in *.
  apply wlp_bind, wlp_zoom. intros [] k _. by apply wlp_bind, wlp_modify, wlp_ret.
Qed.

(** ** exit_group *)

Section exit_group.
Context {F : Type} `{FileOps F}.
Implicit Types k : kstate F.

(** The slot of the current process, as [process_current] finds it. *)
Lemma current_found me k : process_current k = Some (me, k) →
  me = find_first (λ i, negb (state (pcb_of k i) =? PROC_EMPTY) && (pid (pcb_of k i) =? k_current k)) slots.
Proof. intros E. exact (f_equal (λ o, match o with Some (a, _) => a | None => 0 end) (eq_sym E)). Qed.
Lemma current_slot me k : process_current k = Some (me, k) → 0 ≤ me →
  state (pcb_of k me) ≠ PROC_EMPTY ∧ 0 ≤ me < 64 ∧ pid (pcb_of k me) = k_current k.
Proof. intros E Hme. apply process_current_live; [by apply current_found|lia]. Qed.

(** One slot after another. *)
Lemma end_siblings_spec me k :
  0 ≤ me < 64 →
  wp (end_siblings me) k (λ _ k',
    (∀ j, 0 ≤ j < 64 → pcb_of k' j = end_sibling (pid (pcb_of k me)) (pml4 (pcb_of k me)) (pcb_of k j)) ∧
    k_current k' = k_current k).
Proof.
  intros Hme. unfold end_siblings.
  set (e := end_sibling (pid (pcb_of k me)) (pml4 (pcb_of k me))).
  eapply wp_mono; [apply (wp_for_up (λ i k',
    (∀ j, 0 ≤ j < 64 → pcb_of k' j = if decide (j < i) then e (pcb_of k j) else pcb_of k j) ∧
    k_current k' = k_current k))|].
  { split; [|done]. intros j Hj. by rewrite decide_False by lia. }
  2: { intros [] k' [Hk Hc]. split; [|done]. intros j Hj. by rewrite Hk, decide_True by lia. }
  intros i k' Hi [Hk Hc]. wp_step. apply wp_pcb_get; [lia|].
  assert (end_sibling (pid (pcb_of k' me)) (pml4 (pcb_of k' me)) = e) as ->.
  { rewrite (Hk me Hme). unfold e, end_sibling. by repeat case_decide || case_match. }
  apply wp_pcb_upd; [lia|]. split; [|done]. intros j Hj. rewrite pcb_of_upd, !Hk by lia.
  repeat case_decide; subst; try lia; done.
Qed.

(** A process is as it was, or, where [W] holds, was BLOCKED and is READY. *)
Definition woken (W : Prop) (p p' : pcb) : Prop := p' = p ∨ W ∧ state p = PROC_BLOCKED ∧ p' = with_state PROC_READY p.

Lemma woken_trans W p1 p2 p3 : woken W p1 p2 → woken W p2 p3 → woken W p1 p3.
Proof.
  intros [-> |(HW & H1 & ->)] [-> |(HW' & H2 & ->)]; unfold woken; [by left|right..]; done.
Qed.
Lemma woken_mono (W W' : Prop) p p' : (W → W') → woken W p p' → woken W' p p'.
Proof. intros HW [-> |(? & ? & ->)]; unfold woken; auto. Qed.
Lemma woken_zombie W p p' : woken W p p' → state p = PROC_ZOMBIE → p' = p.
Proof. intros [-> |(_ & H1 & _)] Hz; [done|]. rewrite Hz in H1. done. Qed.

(** The slot of the parent as [process_exit_current] takes it from its number. *)
Definition parent_slot (n : Z) : Z := if (n <? 0) || (MAX_PROC <=? n) then 0 else n.

(** Slot [j] is a parent of the process in slot [me]: by its identifier or by its
    number. *)
Definition parent (k : kstate F) (me j : Z) : Prop :=
  is_parent_of k (pid (pcb_of k me)) j = true ∨ j = parent_slot (parent_pid (pcb_of k me)).

(** The same family in both tables. *)
Definition same_family (k k' : kstate F) : Prop :=
  ∀ j, 0 ≤ j < 64 → pid (pcb_of k' j) = pid (pcb_of k j) ∧ parent_pid (pcb_of k' j) = parent_pid (pcb_of k j).

Lemma same_parent_of k k' c j : same_family k k' → 0 ≤ j < 64 → is_parent_of k' c j = is_parent_of k c j.
Proof.
  intros Hs Hj. unfold is_parent_of. destruct (Hs j Hj) as [-> _].
  assert (Hin : ∀ i, i ∈ slots → 0 ≤ i < 64) by (intros i; by apply slots_elem). induction slots as [|i l IH]; [done|]. simpl.
  destruct (Hs i) as [-> ->]; [apply Hin; by left|]. f_equal. apply IH. intros i' Hi'. apply Hin. by right.
Qed.
Lemma same_parent k k' me j : same_family k k' → 0 ≤ me < 64 → 0 ≤ j < 64 → parent k' me j → parent k me j.
Proof. intros Hs Hm Hj. unfold parent. destruct (Hs me Hm) as [-> ->]. by rewrite (same_parent_of k k') by done. Qed.

Lemma wake_parent_spec c k :
  wp (proc_wake_parent c) k (λ _ k', (∀ j, woken (is_parent_of k c j = true) (pcb_of k j) (pcb_of k' j)) ∧ k_current k' = k_current k).
Proof.
  unfold proc_wake_parent. wp_step. wp_step. set (f := λ i : Z, _).
  destruct (find_first_spec f slots) as [[-> _]|[Hin Hf]].
  { cbn [Z.ltb Z.compare]. apply wp_skip. split; [|done]. intros j. by left. }
  apply slots_elem in Hin. rewrite (proj2 (Z.ltb_ge _ 0)) by lia.
  apply wp_pcb_upd; [done|]. split; [|done]. intros j. rewrite pcb_of_upd.
  case_decide as Hj; [|by left]. right. apply andb_prop in Hf as [Hf Hpar]. apply Z.eqb_eq in Hf. by subst j.
Qed.

Lemma close_exec_runs tab (t : fdstate F) : wp (fds_close_exec tab) t (λ _ _, True).
Proof.
  unfold fds_close_exec. destruct (negb _); [by apply wp_skip|].
  apply (wp_mono _ _ (λ _ _, True)); [|done]. apply (wp_for_up (λ _ _, True)); [done|].
  intros i t' _ _. by apply wp_modify.
Qed.

Lemma with_ready_id p : state p = PROC_READY → with_state PROC_READY p = p.
Proof. intros E. destruct p. cbn in *. by rewrite E. Qed.

Lemma exit_current_spec me code k :
  0 ≤ me → process_current k = Some (me, k) →
  wp (process_exit_current code) k (λ r k', (∃ to, r = Some (mkSwitch me to false)) ∧
    pcb_of k' me = with_state PROC_ZOMBIE (with_exit_code code (pcb_of k me)) ∧
    ∀ j, 0 ≤ j < 64 → j ≠ me → woken (parent k me j) (pcb_of k j) (pcb_of k' j)).
Proof.
  intros Hme Hcur. destruct (current_slot me k Hcur Hme) as (_ & Hr & _).
  unfold process_exit_current. wp_step. exists me, k. split; [exact Hcur|].
  rewrite (proj2 (Z.ltb_ge me 0)) by lia.
  wp_step. apply wp_pcb_get; [done|]. wp_step. unfold on_fds. apply wp_zoom.
  eapply wp_mono; [apply close_exec_runs|]. intros [] t _. wp_step. apply wp_pcb_upd; [done|].
  change (pcb_of (set_fds t k)) with (pcb_of k). set (p := pcb_of k me).
  set (z := with_state PROC_ZOMBIE (with_exit_code code p)).
  set (k1 := set_pcb _ _). assert (∀ j, pcb_of k1 j = if decide (me = j) then z else pcb_of k j) as H1.
  { intros j. unfold k1. apply (pcb_of_upd me (λ p, with_state PROC_ZOMBIE (with_exit_code code p)) (set_fds t k) j). }
  assert (same_family k k1) as Hfam by (intros j _; rewrite H1; by case_decide; subst).
  clearbody k1. wp_step. eapply wp_mono; [apply wake_parent_spec|]. intros [] k2 [H2 _]. cbv zeta.
  change (if (parent_pid p <? 0) || (MAX_PROC <=? parent_pid p) then 0 else parent_pid p) with (parent_slot (parent_pid p)).
  assert (0 ≤ parent_slot (parent_pid p) < 64) as Hp.
  { unfold parent_slot. destruct (Z.ltb_spec (parent_pid p) 0), (Z.leb_spec MAX_PROC (parent_pid p));
      unfold MAX_PROC in *; cbn [orb]; lia. }
  wp_step. apply wp_pcb_get; [done|]. wp_step.
  apply (wp_mono _ _ (λ _ k3, ∀ j, 0 ≤ j < 64 → woken (parent k me j) (pcb_of k1 j) (pcb_of k3 j))).
  { assert (∀ j, 0 ≤ j < 64 → woken (parent k me j) (pcb_of k1 j) (pcb_of k2 j)) as H2'.
    { intros j Hj. eapply woken_mono; [|apply H2]. rewrite (same_parent_of k k1) by done. by left. }
    destruct (_ || _) eqn:E; [|by apply wp_skip]. apply wp_pcb_upd; [done|]. intros j Hj'.
    rewrite pcb_of_upd. case_decide as Hj; [|by apply H2']. subst j. eapply woken_trans; [by apply H2'|].
    apply orb_prop in E as [E|E]; apply Z.eqb_eq in E; [right; split; [by right|done]|left; by apply with_ready_id]. }
  intros [] k3 H3. wp_step. wp_step. wp_step. apply wp_pcb_get; [done|]. wp_step. wp_step. wp_step.
  split_and!; [by eexists| |].
  - specialize (H3 me Hr). rewrite (H1 me), decide_True in H3 by done. by apply woken_zombie in H3.
  - intros j Hj' Hj. specialize (H3 j Hj'). rewrite (H1 j), decide_False in H3 by done. exact H3.
Qed.

Lemma find_first_ext (f g : Z → bool) l : (∀ i, i ∈ l → f i = g i) → find_first f l = find_first g l.
Proof.
  induction l as [|x l IH]; intros E; cbn [find_first]; [done|].
  rewrite (E x) by set_solver. rewrite IH by set_solver. done.
Qed.

(** What [end_sibling] does to a slot. *)
Lemma end_sibling_cases mypid mypml4 p :
  end_sibling mypid mypml4 p = p ∧ (state p = PROC_EMPTY ∨ pid p = mypid ∨ pml4 p ≠ mypml4) ∨
  end_sibling mypid mypml4 p = with_state PROC_EMPTY p ∧ pid p ≠ mypid ∧ pml4 p = mypml4.
Proof.
  unfold end_sibling. destruct (Z.eqb_spec (state p) PROC_EMPTY), (Z.eqb_spec (pid p) mypid), (Z.eqb_spec (pml4 p) mypml4);
    cbn [negb andb]; auto.
Qed.

Lemma end_sibling_self mypml4 p : end_sibling (pid p) mypml4 p = p.
Proof. by destruct (end_sibling_cases (pid p) mypml4 p) as [[-> _]|(_ & Hne & _)]. Qed.

(** The caller is still the current process when its siblings are gone. *)
Lemma end_siblings_current me k :
  0 ≤ me → process_current k = Some (me, k) →
  wp (end_siblings me) k (λ _ k', process_current k' = Some (me, k') ∧
    ∀ j, 0 ≤ j < 64 → pcb_of k' j = end_sibling (pid (pcb_of k me)) (pml4 (pcb_of k me)) (pcb_of k j)).
Proof.
  intros Hme Hcur. destruct (current_slot me k Hcur Hme) as (_ & Hr & Hp).
  eapply wp_mono; [by apply end_siblings_spec|]. intros [] k' [Ht Hc]. split; [|exact Ht].
  apply current_found in Hcur as Hf. unfold process_current, gets. do 2 f_equal.
  etrans; [|symmetry; exact Hf]. apply find_first_ext.
  intros i Hi%slots_elem. rewrite Ht, Hc by done. rewrite <-Hp.
  destruct (end_sibling_cases (pid (pcb_of k me)) (pml4 (pcb_of k me)) (pcb_of k i)) as [[-> _]|(-> & Hne & _)]; [done|].
  rewrite (proj2 (Z.eqb_neq _ _) Hne). by rewrite andb_false_r.
Qed.

(** A slot that is in use after it is not in the address space of the caller. *)
Lemma group_gone W k me j p' :
  table_ok k → process_current k = Some (me, k) → 0 ≤ me → 0 ≤ j < 64 → j ≠ me →
  woken W (end_sibling (pid (pcb_of k me)) (pml4 (pcb_of k me)) (pcb_of k j)) p' →
  state p' ≠ PROC_EMPTY → pml4 p' ≠ pml4 (pcb_of k me).
Proof.
  intros HT Hcur Hme Hj Hne. destruct (current_slot me k Hcur Hme) as (Hl & Hr & _).
  destruct (end_sibling_cases (pid (pcb_of k me)) (pml4 (pcb_of k me)) (pcb_of k j)) as [[-> Hc]|(-> & _ & _)].
  - intros Hw Hs. assert (state (pcb_of k j) ≠ PROC_EMPTY) as Hs'.
    { destruct Hw as [-> |(_ & E & _)]; [done|]. by rewrite E. }
    destruct Hc as [?|[E|?]]; [done|destruct Hne; by apply (to_inj k HT)|].
    by destruct Hw as [-> |(_ & _ & ->)].
  - intros [-> |(_ & E & _)]; [done|]. discriminate E.
Qed.
End exit_group.


(** Process 1 has a thread; process 3 is another program. *)
Definition threaded : kstate unit :=
  run_kops [KSpawn [97] 0x400000 0x500000; KSchedule; KClone 0x10100 0x600000 0 0 0 0x2000;
            KSpawn [98] 0x400000 0x500000] booted.

