(* ===== verification/SysPath.v ===== *)
(** * SysPath: the system calls on paths

    The path functions of [OvsbMk/kernel/syscall.c] ([fixpath], [resolve_at_path],
    [do_readlink], [vfs_stat_size], [fs_read_file]) and the cases of [syscall_handler]
    that take a path: open, stat, access, unlink, mkdir, rmdir, readlink, readdir and
    the calls with [at].  A path is a list of bytes without its zero, [None] the null
    pointer; reading past the zero of a string, through a null pointer or outside an
    array has no result.  What a call stores for its caller is listed as bytes at
    offsets of the caller's buffer.  The FAT32 file system is the one of [Fat32]; what
    the sources call of ext2 is a class. *)

From Stdlib Require Import ZArith Lia.
From stdpp Require Import gmap list prelude.
From S2P Require Import Prelude KHeap Buddy Slab Paging VmMap Vfs Fat32 Fds FdCalls Process.

Open Scope Z_scope.

(** ** Files: the FAT32 volume inside them, and ext2 *)

Class DiskFiles (F : Type) := {
  fat_of : F → fat;
  with_fat : fat → F → F;
  fat_of_with : ∀ d f, fat_of (with_fat d f) = d;
  g_use_ext2 : F → bool;
  vfs_on_ext2 : F → bool;
  ext2_stat : list Z → F → option Z;
  ext2new_stat : list Z → F → option (Z * bool);
  ext2_read_file : list Z → Z → F → Z * list Z }.

(** ** [fixpath] *)

(** ["/home/vinberkuko/tipos-musl/prefix"] *)
Definition XPREFIX : list Z :=
  [47; 104; 111; 109; 101; 47; 118; 105; 110; 98; 101; 114; 107; 117; 107; 111; 47; 116; 105; 112; 111; 115;
   45; 109; 117; 115; 108; 47; 112; 114; 101; 102; 105; 120].

(** [buf\[0\] = '/'] and the rest, at most [buflen - 1] characters in all. *)
Definition rooted (rest : list Z) (buflen : Z) : list Z := 47 :: take (Z.to_nat (buflen - 1 - 1)) rest.

(** After ["${pre"] the string is read from its tenth character on. *)
Definition fixpath (path : list Z) (buflen : Z) : option (list Z) :=
  if has_prefix [36; 123; 112; 114; 101] path then
    if Z.of_nat (length path) <? 9 then None else
    let rest := drop 9 path in
    Some (if bool_decide (head rest = Some 47) then take (Z.to_nat (buflen - 1)) rest else rooted rest buflen)
  else if has_prefix XPREFIX path then
    match drop (length XPREFIX) path with
    | [] => Some (rooted [] buflen)
    | c :: rest => Some (if c =? 47 then rooted rest buflen else path)
    end
  else Some path.

(** ** [resolve_at_path]: on the array [_p] *)

Definition AT_FDCWD : Z := -100.

(** [while ( *_s) { if ( *_s == '/') _last_slash = _s; _s++; }], [s] from index [i] on. *)
Fixpoint last_slash (s : list Z) (i : Z) (found : option Z) : option Z :=
  match s with
  | [] => found
  | c :: s' => if c =? 0 then found else last_slash s' (i + 1) (if c =? 47 then Some i else found)
  end.

(** [while ( *_n && *_n != '/') _n++;] *)
Fixpoint name_end (s : list Z) (i : Z) : Z :=
  match s with [] => i | c :: s' => if (c =? 0) || (c =? 47) then i else name_end s' (i + 1) end.

Definition from (p : list Z) (i : Z) : list Z := drop (Z.to_nat i) p.
Definition char_at (p : list Z) (i : Z) : T Z := match p !! Z.to_nat i with Some c => ret c | None => stuck end.
Definition cut_at (p : list Z) (i : Z) : list Z := <[Z.to_nat i := 0]> p.

(** One round of the walk from [_w]. *)
Definition walk_name (p : list Z) (w : Z) : T ((list Z * Z) + Z) :=
  let! c := char_at p w in
  if c =? 0 then ret (inr 0) else
  let n := name_end (from p w) w in
  let! e := char_at p n in
  let p := if nz e then cut_at p n else p in
  let! c := char_at p w in
  let! r := (if nz c then fat32_change_dir (cstr (from p w)) else ret 0) in
  if r <? 0 then ret (inr (-1)) else
  if e =? 0 then ret (inr 0) else ret (inl (p, n + 1)).

(** The walk from [_base], and the last name: the string in [out], or [None] for -1. *)
Definition resolve_from (p : list Z) (base maxlen : Z) : T (option (list Z)) :=
  let! file := (match last_slash (from p base) base None with
    | None => ret (Some (base, p))
    | Some l =>
        let p := cut_at p l in
        let! r := while_ (λ '(p, w), walk_name p w) (p, base) in
        ret (if r <? 0 then None else Some (l + 1, p))
    end) in
  match file with
  | None => ret None
  | Some (f, p) =>
      let! c := char_at p f in
      if c =? 0 then ret None else ret (Some (take (Z.to_nat (maxlen - 1)) (cstr (from p f))))
  end.

Definition resolve_at_path (dirfd : Z) (path : option (list Z)) (maxlen : Z) : T (option (list Z)) :=
  match path with
  | None | Some [] => ret None
  | Some path =>
      match fixpath path 256 with
      | None => stuck
      | Some path =>
          if negb (dirfd =? AT_FDCWD) then ret None else
          let p := take 255 path ++ [0] in
          let! c := char_at p 0 in
          let! base := (if c =? 47 then let! _ := fat32_change_dir [47] in ret 1 else ret 0) in
          resolve_from p base maxlen
      end
  end.

(** ** The state of the calls *)

(** The kernel, and the names [open] has logged: 48 rows of 96 characters. *)
Record wsys (F : Type) := mkWsys { x_k : kstate F; x_seen : list Z; x_seen_n : Z }.
Arguments mkWsys {F}.
Arguments x_k {F}.
Arguments x_seen {F}.
Arguments x_seen_n {F}.

(** Stores into a buffer of the caller. *)
Abbreviation stores := (list (Z * list Z)).

Section calls.
Context {F : Type} `{DiskFiles F}.

Abbreviation X := (M (wsys F)).
Definition on_kern {A} (m : M (kstate F) A) : X A := zoom x_k (λ k s, mkWsys k (x_seen s) (x_seen_n s)) m.
Definition on_tab {A} (m : M (fdstate F) A) : X A := on_kern (zoom k_fds set_fds m).
Definition files (s : wsys F) : F := fs_files (k_fds (x_k s)).
Definition on_fat {A} (m : T A) : X A :=
  on_tab (zoom (λ d, fat_of (fs_files d)) (λ d t, set_files (with_fat d (fs_files t)) t) m).

Definition lift {A} (o : option A) : X A := match o with Some a => ret a | None => stuck end.

(** [curp ? curp->cwd : "/"] *)
Definition cwd_now : X (list Z) :=
  let! me := on_kern process_current in
  if me <? 0 then ret [47] else let! p := on_kern (pcb_get me) in ret (cstr (cwd p)).

Definition same (a : option (list Z)) (b : list Z) : bool :=
  match a with Some a => str_equal a b | None => false end.
Definition fix_arg (path : option (list Z)) (buflen : Z) : X (option (list Z)) :=
  match path with None => ret None | Some p => let! q := lift (fixpath p buflen) in ret (Some q) end.

(** ["/tmp/.X11-unix"] and ["/tmp"] *)
Definition tmp_x11 : list Z := [47; 116; 109; 112; 47; 46; 88; 49; 49; 45; 117; 110; 105; 120].
Definition tmp_dir : list Z := [47; 116; 109; 112].
Definition is_tmp (path : option (list Z)) : bool := same path tmp_x11 || same path tmp_dir.

(** What the calls store in a [struct stat]: the mode and size of a directory, or the
    size alone at its place in the kernel's own structure. *)
Definition dir_stat : stores := [(24, le_bytes 4 0x41ED); (48, le_bytes 8 4096)].
Definition file_stat (size : Z) : stores := [(24, le_bytes 4 0x81A4); (48, le_bytes 8 size)].
Definition st_size (size : Z) : stores := [(0, le_bytes 4 size)].

(** ** Files by name *)

Definition fs_read_file (name : list Z) (count : Z) : X (Z * list Z) :=
  let! f := gets files in
  if g_use_ext2 f then ret (ext2_read_file name count f) else on_fat (fat32_read_file name count).

(** The size and the attributes, when the result is 0. *)
Definition fat_size_attr (name : list Z) : X (option (Z * Z)) :=
  let! r := on_fat (fat32_stat name) in
  ret (match r with (0, Some (size, attr, _, _)) => Some (size, attr) | _ => None end).
Definition ext2_size_attr (name : list Z) (f : F) : option (Z * Z) :=
  (λ '(sz, is_dir), (sz, if is_dir : bool then 0x10 else 0x20)) <$> ext2new_stat name f.
Definition vfs_stat_size (name : list Z) : X (option (Z * Z)) :=
  let! f := gets files in
  if g_use_ext2 f then ret (ext2_size_attr name f) else fat_size_attr name.
(** [vfs_stat_size_attr] of [vfs.c], by the volume that is mounted. *)
Definition mounted_stat (abs : list Z) : X (option (Z * Z)) :=
  let! f := gets files in
  if vfs_on_ext2 f then ret (ext2_size_attr abs f) else fat_size_attr abs.

(** ** [do_readlink] *)

(** ["/proc/self/exe"], ["/proc/self/fd/"], ["/sys/class/graphics/fb"] *)
Definition proc_exe : list Z := [47; 112; 114; 111; 99; 47; 115; 101; 108; 102; 47; 101; 120; 101].
Definition proc_fd : list Z := [47; 112; 114; 111; 99; 47; 115; 101; 108; 102; 47; 102; 100; 47].
Definition sys_fb : list Z :=
  [47; 115; 121; 115; 47; 99; 108; 97; 115; 115; 47; 103; 114; 97; 112; 104; 105; 99; 115; 47; 102; 98].
Definition is_digit (c : Z) : bool := (48 <=? c) && (c <=? 57).

Fixpoint digits_value (s : list Z) (fd : Z) : Z :=
  match s with c :: s' => if is_digit c then digits_value s' (s32 (fd * 10 + (c - 48))) else fd | [] => fd end.
Fixpoint digits_of (s : list Z) : list Z :=
  match s with c :: s' => if is_digit c then c :: digits_of s' else [] | [] => [] end.

Definition link_target (path : list Z) : X (option (list Z)) :=
  if str_equal path proc_exe then
    let! me := on_kern process_current in
    if me <? 0 then ret None else let! p := on_kern (pcb_get me) in ret (Some (cstr (name p)))
  else if has_prefix proc_fd path then
    let fd := digits_value (drop 14 path) 0 in
    if (0 <=? fd) && (fd <? MAX_FDS) then
      let! e := on_tab (fds fd) in
      ret (if nz (fd_used e) then Some (fd_name e) else None)
    else ret None
  else if has_prefix sys_fb path then
    ret (Some ([47; 100; 101; 118; 47; 102; 98] ++ take 24 (digits_of (drop 22 path))))
  else ret None.

(** The result and the string written, before its zero. *)
Definition do_readlink (path : option (list Z)) (has_buf : bool) (bufsiz : Z) : X (Z * option (list Z)) :=
  match path with
  | None => ret (-1, None)
  | Some path =>
      if negb has_buf || (bufsiz =? 0) then ret (-1, None) else
      let! target := link_target path in
      ret (match target with
           | None => (-1, None)
           | Some t => let out := take (Z.to_nat (s32 (s32 bufsiz - 1))) t in (Z.of_nat (length out), Some out)
           end)
  end.

Definition SYS_readlink := do_readlink.
Definition SYS_readlinkat (dirfd : Z) := do_readlink.

(** ** Open *)

(** ["/dev/tty"] is [Fds.dev_tty]. *)
Definition dev_stdin : list Z := [47; 100; 101; 118; 47; 115; 116; 100; 105; 110].
Definition dev_stdout : list Z := [47; 100; 101; 118; 47; 115; 116; 100; 111; 117; 116].
Definition dev_stderr : list Z := [47; 100; 101; 118; 47; 115; 116; 100; 101; 114; 114].

(** A store into [seen_names]: rows follow each other, and a store past the last one
    has no result. *)
Definition seen_put (row i c : Z) : X unit :=
  let at_ := row * 96 + i in
  assert_ ((0 <=? at_) && (at_ <? 48 * 96)) ;!
  modify (λ s, mkWsys (x_k s) (<[Z.to_nat at_ := c]> (x_seen s)) (x_seen_n s)).

Fixpoint seen_puts (row i : Z) (cs : list Z) : X unit :=
  match cs with [] => skip | c :: cs' => seen_put row i c ;! seen_puts row (i + 1) cs' end.

Definition log_name (path : list Z) : X unit :=
  let! n := gets x_seen_n in
  let! dup := gets (λ s, existsb (λ q, str_equal (cstr (drop (Z.to_nat (q * 96)) (x_seen s))) path) (seqZ 0 n)) in
  if negb dup && (n <? 48) then
    seen_puts n 0 (take 95 path) ;!
    seen_put n (Z.of_nat (length path)) 0 ;!
    modify (λ s, mkWsys (x_k s) (x_seen s) (n + 1))
  else skip.

Definition SYS_open (path : option (list Z)) : X Z :=
  let! path := fix_arg path 512 in
  if same path dev_tty || same path dev_stdin then ret 0 else
  if same path dev_stdout then ret 1 else
  if same path dev_stderr then ret 2 else
  let! devfd := on_tab (open_dev (default [] path)) in
  if 0 <=? devfd then ret devfd else
  let! fd := on_tab alloc_fd in
  if fd <? 0 then ret (-1) else
  let! path := lift path in
  on_tab (fds_upd fd (λ e, set_used 1 (set_pos 0 (set_name (take 255 path) e)))) ;!
  log_name path ;!
  ret fd.

Definition SYS_openat (dirfd : Z) (path : option (list Z)) : X Z :=
  let! path := fix_arg path VFS_MAX_PATH in
  let! devfd := on_tab (open_dev (default [] path)) in
  if 0 <=? devfd then ret devfd else
  let! cwd := cwd_now in
  let! abs := (match path with None => ret (-1, []) | Some p => lift (vfs_abs_path (Some cwd) p VFS_MAX_PATH) end) in
  if nz (fst abs) then ret (-1) else
  let! f := gets files in
  let! base := (if g_use_ext2 f then ret (Some (take 254 (snd abs)))
    else
      let! saved := on_fat fat32_get_cwd in
      let! b := on_fat (resolve_at_path dirfd (Some (snd abs)) 255) in
      on_fat (fat32_set_cwd saved) ;! ret b) in
  match base with
  | None => ret (-1)
  | Some base =>
      let! fd := on_tab alloc_fd in
      if fd <? 0 then ret (-1) else
      on_tab (fds_upd fd (λ e, set_used 1 (set_pos 0 (set_type 0 (set_name base e))))) ;!
      ret fd
  end.

(** ** Stat *)

Definition SYS_access : X Z := ret 0.

Definition SYS_fstat (fd : Z) (has_st : bool) : X (Z * stores) :=
  if negb has_st then ret (-1, []) else
  let! high := on_tab (open_high fd) in
  let! e := (if high : bool then on_tab (fds fd) else ret zero_fd) in
  if high && (FD_FB <=? fd_type e) && (fd_type e <=? FD_MICE) then ret (0, st_size 0) else
  if high && is_tmp (Some (fd_name e)) then ret (0, dir_stat) else
  let! st := (if high : bool then vfs_stat_size (fd_name e) else ret None) in
  match st with
  | Some (size, _) => ret (0, st_size size)
  | None => if (0 <=? fd) && (fd <=? 2) then ret (0, st_size 0) else ret (-1, [])
  end.

Definition SYS_stat (path : option (list Z)) (has_st : bool) : X (Z * stores) :=
  let! path := fix_arg path 256 in
  match path with
  | None => ret (-1, [])
  | Some p =>
      if negb has_st then ret (-1, []) else
      if is_tmp path then ret (0, dir_stat) else
      let! cwd := cwd_now in
      let! abs := lift (vfs_abs_path (Some cwd) p VFS_MAX_PATH) in
      if nz (fst abs) then ret (-1, []) else
      let! st := mounted_stat (snd abs) in
      ret (match st with Some (size, _) => (0, st_size size) | None => (-1, []) end)
  end.

Definition SYS_newfstatat (dirfd : Z) (path : option (list Z)) (has_st : bool) : X (Z * stores) :=
  if has_st && is_tmp path then ret (0, dir_stat) else
  let! f := gets files in
  if g_use_ext2 f then
    let! path := fix_arg path 256 in
    ret (match path with
         | None => (-1, [])
         | Some p => if negb has_st then (-1, []) else
             match ext2_stat p f with Some sz => (0, file_stat sz) | None => (-1, []) end
         end)
  else
    let! saved := on_fat fat32_get_cwd in
    let! base := (if has_st then on_fat (resolve_at_path dirfd path 256) else ret None) in
    match base with
    | None => on_fat (fat32_set_cwd saved) ;! ret (-1, [])
    | Some base =>
        let! st := fat_size_attr base in
        on_fat (fat32_set_cwd saved) ;!
        ret (match st with Some (size, _) => (0, st_size size) | None => (-1, []) end)
    end.

(** [statfs] and [fstatfs]: seven words. *)
Definition SYS_statfs (has_sf : bool) : X (Z * stores) :=
  if has_sf then
    ret (0, [(0, concat (map (le_bytes 8) [0x4d44; 512; 131072; 131072 - 8192; 131072 - 8192; 0; 0]))])
  else ret (-1, []).

(** chmod, fchmod, chown, fchown *)
Definition SYS_chmod : X Z := ret 0.

(** ** Changes of directories *)

(** [ret] is -1 when it is not set. *)
Definition ok_or_fail (r : Z) : Z := if r =? 0 then 0 else -1.

Definition SYS_unlink (path : option (list Z)) : X Z :=
  let! p := lift path in let! r := on_fat (fat32_delete_file p) in ret (ok_or_fail r).
Definition SYS_mkdir2 (path : option (list Z)) : X Z :=
  if is_tmp path then ret 0 else
  let! p := lift path in let! r := on_fat (fat32_mkdir p) in ret (ok_or_fail r).
Definition SYS_rmdir2 (path : option (list Z)) : X Z :=
  let! p := lift path in let! r := on_fat (fat32_rmdir p) in ret (ok_or_fail r).

(** A call with [at]: go to the directory, work there, come back. *)
Definition at_dir (dirfd : Z) (path : option (list Z)) (work : list Z → T Z) : X Z :=
  let! saved := on_fat fat32_get_cwd in
  let! base := on_fat (resolve_at_path dirfd path 256) in
  match base with
  | None => on_fat (fat32_set_cwd saved) ;! ret (-1)
  | Some base =>
      let! r := on_fat (work base) in
      on_fat (fat32_set_cwd saved) ;!
      ret (ok_or_fail r)
  end.

Definition SYS_mkdirat (dirfd : Z) (path : option (list Z)) : X Z :=
  if is_tmp path then ret 0 else at_dir dirfd path fat32_mkdir.
Definition SYS_unlinkat (dirfd : Z) (path : option (list Z)) : X Z := at_dir dirfd path fat32_delete_file.

Definition SYS_renameat (dirfd : Z) (path : option (list Z)) (newdirfd : Z) (newpath : option (list Z)) : X Z :=
  let! saved := on_fat fat32_get_cwd in
  let! base := on_fat (resolve_at_path dirfd path 256) in
  match base with
  | None => on_fat (fat32_set_cwd saved) ;! ret (-1)
  | Some base =>
      let! mid := on_fat fat32_get_cwd in
      on_fat (fat32_set_cwd saved) ;!
      let! newbase := on_fat (resolve_at_path newdirfd newpath 256) in
      match newbase with
      | None => on_fat (fat32_set_cwd saved) ;! ret (-1)
      | Some newbase =>
          let! newdir := on_fat fat32_get_cwd in
          if negb (newdir =? mid) then on_fat (fat32_set_cwd saved) ;! ret (-1) else
          let! r := on_fat (fat32_rename base newbase) in
          on_fat (fat32_set_cwd saved) ;!
          ret (ok_or_fail r)
      end
  end.

(** The entries found, their number being the result. *)
Definition SYS_readdir (path : option (list Z)) (has_entries : bool) (max_entries : Z) : X (Z * list (list Z * Z)) :=
  match path with
  | None => ret (-1, [])
  | Some path =>
      if negb has_entries || (max_entries <=? 0) then ret (-1, []) else
      let! saved := on_fat fat32_get_cwd in
      let! r := on_fat (fat32_change_dir path) in
      if r <? 0 then ret (-1, []) else
      let! d := on_fat fat32_get_cwd in
      let! es := on_fat (fat32_match_prefix [] d max_entries) in
      on_fat (fat32_set_cwd saved) ;!
      ret (Z.of_nat (length es), es)
  end.
End calls.
