(* ===== verification/SysPathProof.v ===== *)
(** * SysPathProof: the system calls on paths

    [resolve_at_path], which walks an array it cuts into names, is the walk along the
    parts of the path.  The calls with [at] leave the directory of the volume as it was.
    [fixpath] maps the prefix of the build to the root.  What [open] leaves from the last
    use of a descriptor, and where [openat] and [readdir] lose a directory. *)

From Stdlib Require Import ZArith Lia.
From stdpp Require Import gmap list prelude.
From S2P Require Import Prelude KHeap Buddy BuddyProof PageAlloc Slab Paging VmMap Vfs Fat32 Fat32Proof Fds FdCalls FdProof Process Fork ProcProof SysPath.

Open Scope Z_scope.

(** ** Parts of a path *)

Definition no_zero (l : list Z) : Prop := Forall (.≠ 0) l.
Definition no_slash (l : list Z) : Prop := Forall (.≠ 47) l.

Lemma parts_plain d : no_slash d → parts d = [d].
Proof.
  induction 1 as [|c d Hc Hd IH]; [done|]. cbn [parts]. rewrite (proj2 (Z.eqb_neq c 47)) by done. by rewrite IH.
Qed.
Lemma parts_cons d s : no_slash d → parts (d ++ 47 :: s) = d :: parts s.
Proof.
  induction 1 as [|c d Hc Hd IH]; [done|]. cbn [parts app]. rewrite (proj2 (Z.eqb_neq c 47)) by done. by rewrite IH.
Qed.
Lemma parts_nonnil s : parts s ≠ [].
Proof. destruct s as [|c s]; [done|]. cbn [parts]. destruct (c =? 47); [done|]. by destruct (parts s). Qed.
Lemma parts_snoc s f : no_slash f → parts (s ++ 47 :: f) = parts s ++ [f].
Proof.
  intros Hf. induction s as [|c s IH]; cbn [parts app].
  - by rewrite (parts_plain f).
  - destruct (c =? 47); [by rewrite IH|]. rewrite IH. destruct (parts s) as [|p ps] eqn:E; [by destruct (parts_nonnil s)|done].
Qed.

(** The first name, and what follows it. *)
Lemma first_name s : ∃ d r, s = d ++ r ∧ no_slash d ∧ (r = [] ∨ ∃ s2, r = 47 :: s2).
Proof.
  induction s as [|c s (d & r & -> & Hd & Hr)].
  - exists [], []. split_and!; [done|constructor|by left].
  - destruct (decide (c = 47)) as [-> |Hc].
    + exists [], (47 :: d ++ r). split_and!; [done|constructor|right; by eexists].
    + exists (c :: d), r. split_and!; [done|by constructor|done].
Qed.
(** The last name, and what precedes it. *)
Lemma last_name s : no_slash s ∨ ∃ d f, s = d ++ 47 :: f ∧ no_slash f.
Proof.
  induction s as [|c s [IH|(d & f & -> & Hf)]]; [left; constructor| |right; by exists (c :: d), f].
  destruct (decide (c = 47)) as [-> |Hc]; [right; by exists [], s|left; by constructor].
Qed.

Lemma cstr_zero l r : no_zero l → cstr (l ++ 0 :: r) = l.
Proof.
  induction 1 as [|c l Hc Hl IH]; [done|]. cbn [cstr app]. rewrite (proj2 (Z.eqb_neq c 0)) by done. by rewrite IH.
Qed.

(** ** The loops over the array *)

Lemma last_slash_none s i acc tl : no_zero s → no_slash s → last_slash (s ++ 0 :: tl) i acc = acc.
Proof.
  intros Hz Hs. revert i acc. induction s as [|c s IH]; intros i acc; [done|].
  inversion_clear Hz. inversion_clear Hs. cbn [last_slash app].
  rewrite (proj2 (Z.eqb_neq c 0)), (proj2 (Z.eqb_neq c 47)) by done. by apply IH.
Qed.
Lemma last_slash_found d f i acc tl : no_zero d → no_zero f → no_slash f →
  last_slash (d ++ 47 :: f ++ 0 :: tl) i acc = Some (i + Z.of_nat (length d)).
Proof.
  intros Hd Hf Hs. revert i acc. induction d as [|c d IH]; intros i acc; cbn [last_slash app].
  - change (47 =? 0) with false. cbv iota. rewrite last_slash_none by done. f_equal. cbn. lia.
  - inversion_clear Hd. rewrite (proj2 (Z.eqb_neq c 0)) by done. rewrite IH by done. f_equal. cbn [length]. lia.
Qed.
Lemma name_end_at d c r i : no_zero d → no_slash d → (c = 0 ∨ c = 47) →
  name_end (d ++ c :: r) i = i + Z.of_nat (length d).
Proof.
  intros Hz Hs Hc. revert i. induction d as [|x d IH]; intros i; cbn [name_end app].
  - replace ((c =? 0) || (c =? 47)) with true by (destruct Hc as [-> | ->]; done). cbn. lia.
  - inversion_clear Hz. inversion_clear Hs.
    rewrite (proj2 (Z.eqb_neq x 0)), (proj2 (Z.eqb_neq x 47)) by done. cbn [orb]. rewrite IH by done. cbn [length]. lia.
Qed.

(** Positions in an array of which a tail is known. *)
Lemma char_from p w l c r : 0 ≤ w → from p w = l ++ c :: r → p !! Z.to_nat (w + Z.of_nat (length l)) = Some c.
Proof.
  intros Hw E. rewrite Z2Nat.inj_add, Nat2Z.id by lia. unfold from in E.
  rewrite <-lookup_drop, E. rewrite lookup_app_r by lia. by rewrite Nat.sub_diag.
Qed.
Lemma from_from p w k : 0 ≤ w → 0 ≤ k → from p (w + k) = from (from p w) k.
Proof. intros Hw Hk. unfold from. rewrite drop_drop. f_equal. lia. Qed.
Lemma cut_from p w l c r : 0 ≤ w → from p w = l ++ c :: r →
  from (cut_at p (w + Z.of_nat (length l))) w = l ++ 0 :: r.
Proof.
  intros Hw E. unfold from, cut_at in *. rewrite Z2Nat.inj_add, Nat2Z.id by lia.
  rewrite drop_insert_ge, E by lia. replace (Z.to_nat w + length l - Z.to_nat w)%nat with (length l + 0)%nat by lia.
  by rewrite insert_app_r.
Qed.
Lemma cut_after p w l c r : 0 ≤ w → from p w = l ++ c :: r →
  from (cut_at p (w + Z.of_nat (length l))) (w + Z.of_nat (length l) + 1) = r.
Proof.
  intros Hw E. rewrite <-Z.add_assoc, from_from, (cut_from p w l c r) by (done || lia).
  unfold from. replace (Z.to_nat (Z.of_nat (length l) + 1)) with (length l + 1)%nat by lia.
  rewrite drop_app_add. done.
Qed.

(** Enter the directories of a list of names, the empty names aside. *)
Fixpoint enter (ps : list (list Z)) : T Z :=
  match ps with
  | [] => ret 0
  | d :: ps' =>
      if bool_decide (d = []) then enter ps' else
      let! r := fat32_change_dir d in
      if r <? 0 then ret (-1) else enter ps'
  end.

(** One round, by the first name. *)
Lemma walk_last p w d tl st : 0 ≤ w → from p w = d ++ 0 :: tl → no_zero d → no_slash d →
  ends (λ '(p, w), walk_name p w) (enter (parts d) st) 1 (p, w) st.
Proof.
  intros Hw E Hz Hs. rewrite parts_plain by done. destruct d as [|c d].
  { eapply ends_last; [|done]. unfold walk_name, char_at, bind.
    pose proof (char_from p w [] 0 tl Hw E) as Hc. rewrite Z.add_0_r in Hc. by rewrite Hc. }
  pose proof (char_from p w [] c (d ++ 0 :: tl) Hw E) as Hc. rewrite Z.add_0_r in Hc.
  assert (c ≠ 0) as Hc0 by by inversion Hz.
  assert (walk_name p w st = (let! r := fat32_change_dir (c :: d) in if r <? 0 then ret (inr (-1)) else ret (inr 0)) st) as Ew.
  { unfold walk_name. rewrite E, name_end_at by auto. unfold char_at, bind, ret. rewrite Hc. cbv beta iota.
    rewrite (proj2 (Z.eqb_neq c 0)) by done. rewrite (char_from p w (c :: d) 0 tl) by done.
    cbv beta iota. change (nz 0) with false. cbv beta iota zeta. rewrite Hc. cbv beta iota.
    rewrite (proj2 (nz_spec c)) by done. rewrite E, cstr_zero by done. done. }
  cbn [enter]. rewrite bool_decide_false by done. unfold bind in *. unfold ret in *.
  destruct (fat32_change_dir (c :: d) st) as [[r st']|] eqn:Ed; [|by apply ends_stuck].
  destruct (r <? 0); by eapply ends_last.
Qed.

(** The round before a slash: the array is cut there, and the walk goes on after it. *)
Lemma walk_more p w d s tl st : 0 ≤ w → from p w = d ++ 47 :: s ++ 0 :: tl → no_zero d → no_slash d →
  let p' := cut_at p (w + Z.of_nat (length d)) in
  walk_name p w st = (if bool_decide (d = []) then ret (inl (p', w + Z.of_nat (length d) + 1)) else
    let! r := fat32_change_dir d in
    if r <? 0 then ret (inr (-1)) else ret (inl (p', w + Z.of_nat (length d) + 1))) st.
Proof.
  intros Hw E Hz Hs p'. pose proof (cut_from p w d 47 _ Hw E) as E'. fold p' in E'.
  unfold walk_name. rewrite E, name_end_at by auto. unfold char_at, bind, ret.
  pose proof (char_from p w d 47 _ Hw E) as Hn. destruct d as [|c d].
  - assert (cut_at p w = p') as Ep by (unfold p'; cbn [length]; by rewrite Z.add_0_r).
    cbn [length] in *. rewrite Z.add_0_r in *. rewrite Hn. cbv beta iota.
    change (47 =? 0) with false. change (nz 47) with true. cbv beta iota zeta. rewrite !Ep.
    pose proof (char_from p' w [] 0 _ Hw E') as Hc. rewrite Z.add_0_r in Hc. rewrite Hc. done.
  - pose proof (char_from p w [] c _ Hw E) as Hc. rewrite Z.add_0_r in Hc. rewrite Hc. cbv beta iota.
    assert (c ≠ 0) as Hc0 by by inversion Hz. rewrite (proj2 (Z.eqb_neq c 0)) by done. rewrite Hn. cbv beta iota.
    change (nz 47) with true. cbv beta iota zeta. fold p'.
    pose proof (char_from p' w [] c _ Hw E') as Hc'. rewrite Z.add_0_r in Hc'. rewrite Hc'. cbv beta iota.
    rewrite (proj2 (nz_spec c)) by done. rewrite E', cstr_zero by done. rewrite bool_decide_false by done. done.
Qed.

Lemma walk_all s p w tl st : 0 ≤ w → from p w = s ++ 0 :: tl → no_zero s →
  ∃ k, (k ≤ S (length s))%nat ∧ ends (λ '(p, w), walk_name p w) (enter (parts s) st) k (p, w) st.
Proof.
  remember (length s) as n eqn:Hn. revert s p w st Hn.
  induction n as [n IH] using lt_wf_ind. intros s p w st Hn Hw E Hz.
  destruct (first_name s) as (d & r & -> & Hd & [-> |(s2 & ->)]).
  { rewrite app_nil_r in *. exists 1%nat. split; [lia|]. by eapply walk_last. }
  apply Forall_app in Hz as [Hzd Hz]. apply Forall_cons in Hz as [_ Hz2]. rewrite parts_cons by done.
  rewrite <-app_assoc in E. rewrite length_app in Hn. cbn [app length] in *.
  pose proof (walk_more p w d s2 tl st Hw E Hzd Hd) as Ew. cbv zeta in Ew.
  pose proof (cut_after p w d 47 _ Hw E) as E2. set (p' := cut_at _ _) in *.
  assert (∀ st', ∃ k, (k ≤ S (length s2))%nat ∧
    ends (λ '(p, w), walk_name p w) (enter (parts s2) st') k (p', w + Z.of_nat (length d) + 1) st') as IH2.
  { intros st'. apply (IH (length s2)); try done; lia. }
  cbn [enter]. destruct (bool_decide (d = [])).
  - destruct (IH2 st) as (k & Hk & He). exists (S k). split; [lia|]. by eapply ends_more.
  - unfold bind, ret in *. destruct (fat32_change_dir d st) as [[r st']|].
    2: { exists 1%nat. split; [lia|]. by apply ends_stuck. }
    destruct (r <? 0).
    + exists 1%nat. split; [lia|]. by eapply ends_last.
    + destruct (IH2 st') as (k & Hk & He). exists (S k). split; [lia|]. by eapply ends_more.
Qed.

Lemma walk_enters s p w tl st : 0 ≤ w → from p w = s ++ 0 :: tl → no_zero s → (length s < 256)%nat →
  while_ (λ '(p, w), walk_name p w) (p, w) st = enter (parts s) st.
Proof.
  intros Hw E Hz Hl. destruct (walk_all s p w tl st Hw E Hz) as (k & Hk & He).
  apply (ends_while _ _ k); [done|]. transitivity 256; [lia|done].
Qed.

(** ** The reference: the path in parts *)

Definition walk_parts (cur : list Z) (maxlen : Z) : T (option (list Z)) :=
  let! r := enter (removelast (parts cur)) in
  ret (if r <? 0 then None else
       match last (parts cur) with
       | None | Some [] => None
       | Some f => Some (take (Z.to_nat (maxlen - 1)) f)
       end).

Definition resolve_parts (dirfd : Z) (path : option (list Z)) (maxlen : Z) : T (option (list Z)) :=
  match path with
  | None | Some [] => ret None
  | Some path =>
      match fixpath path 256 with
      | None => stuck
      | Some path =>
          if negb (dirfd =? AT_FDCWD) then ret None else
          let p := take 255 path in
          if bool_decide (head p = Some 47)
          then let! _ := fat32_change_dir [47] in walk_parts (tail p) maxlen
          else walk_parts p maxlen
      end
  end.

(** The array is cut in the walk, but the last name is read where it was. *)
Lemma resolve_from_parts p base cur maxlen st : 0 ≤ base → from p base = cur ++ [0] → no_zero cur → (length cur < 256)%nat →
  resolve_from p base maxlen st = walk_parts cur maxlen st.
Proof.
  intros Hb E Hz Hl. unfold resolve_from, walk_parts. rewrite E.
  destruct (last_name cur) as [Hs|(d & f & -> & Hs)].
  - rewrite last_slash_none, parts_plain by done. cbn [removelast enter last].
    unfold char_at, bind, ret. cbv beta iota. destruct cur as [|c cur].
    + pose proof (char_from p base [] 0 [] Hb E) as Hc. rewrite Z.add_0_r in Hc. by rewrite Hc.
    + pose proof (char_from p base [] c (cur ++ [0]) Hb E) as Hc. rewrite Z.add_0_r in Hc. rewrite Hc. cbv beta iota.
      assert (c ≠ 0) by by inversion Hz. rewrite (proj2 (Z.eqb_neq c 0)) by done. by rewrite E, cstr_zero by done.
  - apply Forall_app in Hz as [Hzd Hz]. apply Forall_cons in Hz as [_ Hzf]. rewrite length_app in Hl. cbn [length] in Hl.
    rewrite <-app_assoc in *. cbn [app] in *. rewrite last_slash_found, parts_snoc by done. rewrite removelast_last, last_snoc.
    cbv zeta. pose proof (cut_from p base d 47 _ Hb E) as E1. pose proof (cut_after p base d 47 _ Hb E) as E2.
    set (p' := cut_at _ _) in *. set (n := base + Z.of_nat (length d) + 1) in *. unfold bind at 1 2 3.
    rewrite (walk_enters d p' base _ st Hb E1 Hzd) by lia. unfold bind, ret.
    destruct (enter (parts d) st) as [[r st']|]; [|done]. destruct (r <? 0); [done|]. cbv beta iota.
    unfold char_at. destruct f as [|c f].
    + pose proof (char_from p' n [] 0 [] ltac:(lia) E2) as Hc. rewrite Z.add_0_r in Hc. by rewrite Hc.
    + pose proof (char_from p' n [] c _ ltac:(lia) E2) as Hc. rewrite Z.add_0_r in Hc. rewrite Hc. unfold ret. cbv beta iota.
      assert (c ≠ 0) by by inversion Hzf. rewrite (proj2 (Z.eqb_neq c 0)) by done. by rewrite E2, cstr_zero by done.
Qed.

Lemma no_zero_take n l : no_zero l → no_zero (take n l).
Proof. apply Forall_take. Qed.
Lemma rooted_no_zero l n : no_zero l → no_zero (rooted l n).
Proof. intros Hl. constructor; [done|by apply no_zero_take]. Qed.

Lemma fixpath_no_zero path n q : no_zero path → fixpath path n = Some q → no_zero q.
Proof.
  intros Hz. unfold fixpath. destruct (has_prefix _ path).
  - destruct (_ <? 9); [done|]. intros [= <-]. assert (no_zero (drop 9 path)) by by apply Forall_drop.
    case_bool_decide; [by apply no_zero_take|by apply rooted_no_zero].
  - destruct (has_prefix XPREFIX path); [|by intros [= <-]].
    assert (no_zero (drop (length XPREFIX) path)) as Hd by by apply Forall_drop.
    destruct (drop _ path) as [|c rest]; intros [= <-]; [by apply rooted_no_zero|].
    destruct (c =? 47); [|done]. apply rooted_no_zero. by inversion Hd.
Qed.

Lemma resolve_walks dirfd path maxlen st :
  match path with Some p => no_zero p | None => True end →
  resolve_at_path dirfd path maxlen st = resolve_parts dirfd path maxlen st.
Proof.
  destruct path as [[|c path]|]; [done| |done]. intros Hz. unfold resolve_at_path, resolve_parts.
  destruct (fixpath (c :: path) 256) as [q|] eqn:Ef; [|done]. apply fixpath_no_zero in Ef; [|done].
  destruct (negb _); [done|]. assert (no_zero (take 255 q)) as Hq by by apply no_zero_take.
  assert (length (take 255 q) < 256)%nat as Hl by (rewrite length_take; lia).
  assert (∀ x l st, char_at (x :: l) 0 st = Some (x, st)) as Hc by done.
  destruct (take 255 q) as [|x cur]; cbv zeta; cbn [app head tail length] in *; unfold bind; rewrite Hc; cbv beta iota.
  - by apply resolve_from_parts.
  - destruct (Z.eqb_spec x 47) as [-> |Hx].
    + rewrite bool_decide_true by done. destruct (fat32_change_dir [47] st) as [[r st']|]; [|done]. unfold ret.
      apply resolve_from_parts; [lia|done|by inversion Hq|lia].
    + rewrite bool_decide_false by congruence. unfold ret.
      apply (resolve_from_parts _ 0 (x :: cur)); [lia|done|done|cbn; lia].
Qed.

(** C23: [resolve_at_path] cuts an array of 256 characters into names as it walks; it does
    what the walk along the parts of the path does: from the root if the path begins with
    a slash, into every part but the last that is not empty, until one cannot be entered;
    then the last part is the name, and a path that ends in a slash has none. *)
Theorem resolve_walks_parts dirfd path maxlen st :
  match path with Some p => no_zero p | None => True end →
  resolve_at_path dirfd path maxlen st = resolve_parts dirfd path maxlen st.
Proof. apply resolve_walks. Qed.

(** ** [fixpath] *)

Lemma has_prefix_app p r : has_prefix p (p ++ r) = true.
Proof. induction p as [|x p IH]; [done|]. cbn [has_prefix app]. by rewrite Z.eqb_refl, IH. Qed.

(** A path under the prefix of the build is served from the root, cut to the buffer; what
    is written to the buffer fits with its zero; any other path is left as it is. *)
Theorem fixpath_maps_prefix rest buflen :
  fixpath (XPREFIX ++ 47 :: rest) buflen = Some (47 :: take (Z.to_nat (buflen - 2)) rest).
Proof.
  unfold fixpath. rewrite has_prefix_app. change (has_prefix [36; 123; 112; 114; 101] (XPREFIX ++ 47 :: rest)) with false.
  cbv iota. rewrite drop_app_length. change (47 =? 47) with true. cbv iota. unfold rooted.
  by replace (buflen - 1 - 1) with (buflen - 2) by lia.
Qed.
Theorem fixpath_fits path buflen q :
  2 ≤ buflen → fixpath path buflen = Some q → q = path ∨ Z.of_nat (length q) < buflen.
Proof.
  intros Hb. assert (∀ r, Z.of_nat (length (rooted r buflen)) < buflen) as Hr.
  { intros r. unfold rooted. cbn [length]. rewrite length_take. lia. }
  unfold fixpath. destruct (has_prefix _ path).
  - destruct (_ <? 9); [done|]. intros [= <-]. right. case_bool_decide; [rewrite length_take; lia|apply Hr].
  - destruct (has_prefix XPREFIX path); [|intros [= <-]; by left].
    destruct (drop _ path) as [|c rest]; intros [= <-]; [right; apply Hr|].
    destruct (c =? 47); [right; apply Hr|by left].
Qed.

(** ** The characters of a path made absolute are those of the path and the directory *)

Lemma vfs_component_no_zero comps cur comps' :
  Forall no_zero comps → no_zero cur → vfs_component comps cur = Some comps' → Forall no_zero comps'.
Proof.
  intros Hcs Hcz. unfold vfs_component, vfs_push. destruct (negb _); [done|]. destruct (_ || _); [by intros [= <-]|]. destruct (bool_decide _).
  - intros [= <-]. destruct comps as [|x cs _] using rev_ind; [done|]. rewrite removelast_last. by apply Forall_app in Hcs as [? _].
  - destruct (_ <? 32); [|by intros [= <-]]. destruct (_ && _); [|done]. intros [= <-]. apply Forall_app. split; [done|by constructor].
Qed.
Lemma vfs_split_no_zero base comps cur comps' :
  no_zero base → Forall no_zero comps → no_zero cur → vfs_split base comps cur = Some comps' → Forall no_zero comps'.
Proof.
  intros Hb. revert comps cur. induction Hb as [|c base Hc0 Hb IH]; intros comps cur Hcs Hcur; cbn [vfs_split]; [by apply vfs_component_no_zero|].
  destruct (c =? SLASH).
  - destruct (vfs_component comps cur) as [cs|] eqn:Ec; [|done]. apply IH; [by eapply vfs_component_no_zero|constructor].
  - unfold vfs_char. destruct (_ <? 63); [|by apply IH]. destruct (within _ _); [|done]. apply IH; [done|].
    apply Forall_app. split; [done|by constructor].
Qed.
Lemma vfs_join_no_zero n out comps : no_zero out → Forall no_zero comps → no_zero (vfs_join n out comps).
Proof.
  assert (∀ out c, no_zero out → c ≠ 0 → no_zero (vfs_put n out c)) as Hp.
  { intros o c Ho Hc. unfold vfs_put. destruct (_ <? _); [|done]. apply Forall_app. split; [done|by constructor]. }
  assert (∀ c out, no_zero out → no_zero c → no_zero (foldl (vfs_put n) out c)) as Hf.
  { intros c. induction c as [|x c IH]; intros o Ho Hc; [done|]. inversion_clear Hc. apply IH; [by apply Hp|done]. }
  intros Ho Hcs. revert out Ho. induction Hcs as [|c comps Hc Hcs IH]; intros out Ho; [done|]. cbn [vfs_join].
  destruct comps as [|c' comps]; [by apply Hf|]. apply IH, Hp; [by apply Hf|done].
Qed.
Lemma vfs_abs_no_zero cwd path n r q : no_zero cwd → no_zero path → vfs_abs_path (Some cwd) path n = Some (r, q) → no_zero q.
Proof.
  intros Hc Hp. unfold vfs_abs_path. case_bool_decide; [intros [= <- <-]; constructor|]. cbv zeta.
  destruct (VFS_MAX_PATH <=? _); [done|]. destruct (vfs_split _ _ _) as [comps|] eqn:Ecs; [|done]. destruct (n <=? _); [done|]. intros [= <- <-].
  assert (no_zero (vfs_base (Some cwd) path)) as Hb.
  { unfold vfs_base. case_bool_decide; [by apply Forall_take|]. cbn [default]. cbv zeta. apply Forall_app. split; [|by apply Forall_take].
    destruct (_ && _); [|by apply Forall_take]. apply Forall_app. split; [by apply Forall_take|by repeat constructor]. }
  assert (no_zero (vfs_join n [SLASH] comps)) as Hj.
  { apply vfs_join_no_zero; [by repeat constructor|]. eapply vfs_split_no_zero; [exact Hb|constructor|constructor|exact Ecs]. }
  destruct (_ =? 1); [|done]. apply Forall_app. split; [done|by repeat constructor].
Qed.

(** ** The calls *)

Section calls.
Context {F : Type} `{DiskFiles F}.
Implicit Types s : wsys F.

Definition fat_now s : fat := fat_of (files s).
Definition cwd_cluster s : Z := current_dir_cluster (fat_now s).
(** Entry [fd] of the current table. *)
Definition fd_now s (fd : Z) : fdent := fd_of (k_fds (x_k s)) (fs_fdtab (k_fds (x_k s))) fd.

Lemma wlp_on_fat {A} (m : T A) s (Q : A → wsys F → Prop) :
  (∀ a d s', m (fat_now s) = Some (a, d) → fat_now s' = d → (∀ fd, fd_now s' fd = fd_now s fd) → Q a s') →
  wlp (on_fat m) s Q.
Proof.
  intros HQ. unfold on_fat, on_tab, on_kern, zoom, wlp. intros a s'.
  destruct (m _) as [[b d]|] eqn:E; [|done]. intros [= <- <-]. apply (HQ b d); [done| |done].
  unfold fat_now, files. cbn. apply fat_of_with.
Qed.

Lemma wlp_on_tab {A} (m : M (fdstate F) A) s (Q : A → wsys F → Prop) :
  (∀ a t, m (k_fds (x_k s)) = Some (a, t) → Q a (mkWsys (set_fds t (x_k s)) (x_seen s) (x_seen_n s))) →
  wlp (on_tab m) s Q.
Proof.
  intros HQ. unfold on_tab, on_kern, zoom, wlp. intros a s'.
  destruct (m _) as [[b t]|] eqn:E; [|done]. intros [= <- <-]. by apply HQ.
Qed.

(** A computation that ends where the directory was saved. *)
Lemma wlp_restore c s (Q : unit → wsys F → Prop) :
  (∀ s', cwd_cluster s' = c → Q tt s') → wlp (on_fat (fat32_set_cwd c)) s Q.
Proof.
  intros HQ. apply wlp_on_fat. intros [] d s' [= <-] Hd _. apply HQ. unfold cwd_cluster. by rewrite Hd.
Qed.
Lemma wlp_saved s (Q : Z → wsys F → Prop) : (∀ s', cwd_cluster s' = cwd_cluster s → (∀ fd, fd_now s' fd = fd_now s fd) → Q (cwd_cluster s) s') → wlp (on_fat fat32_get_cwd) s Q.
Proof.
  intros HQ. apply wlp_on_fat. intros a d s' [= <- <-] Hd Hf. apply HQ; [|done]. unfold cwd_cluster. by rewrite Hd.
Qed.

Lemma wlp_lift {A} (o : option A) s (Q : A → wsys F → Prop) : (∀ a, o = Some a → Q a s) → wlp (lift o) s Q.
Proof. intros HQ. destruct o as [a|]; [by apply wlp_ret, HQ|done]. Qed.

(** Looking up names and processes changes nothing. *)
Lemma wlp_fix_arg path n s (Q : option (list Z) → wsys F → Prop) : (∀ a, Q a s) → wlp (fix_arg path n) s Q.
Proof.
  intros HQ. destruct path as [p|]; [|by apply wlp_ret]. apply wlp_bind, wlp_lift. intros q _. by apply wlp_ret.
Qed.
Lemma cstr_no_zero l : no_zero (cstr l).
Proof. induction l as [|c l IH]; cbn [cstr]; [constructor|]. destruct (Z.eqb_spec c 0); [constructor|by constructor]. Qed.
Lemma wlp_cwd_now s (Q : list Z → wsys F → Prop) : (∀ a, no_zero a → Q a s) → wlp cwd_now s Q.
Proof.
  intros HQ. unfold cwd_now, wlp. intros a s'. unfold bind, on_kern, zoom, process_current, gets.
  destruct (_ <? 0); unfold ret.
  - intros [= <- <-]. destruct s. apply HQ. by repeat constructor.
  - unfold pcb_get, assert_, bind. destruct (_ && _); [|done]. unfold skip, ret, gets. intros [= <- <-].
    destruct s. apply HQ, cstr_no_zero.
Qed.

Lemma wlp_stat name s (Q : option (Z * Z) → wsys F → Prop) :
  (∀ a s', cwd_cluster s' = cwd_cluster s → Q a s') → wlp (fat_size_attr name) s Q.
Proof.
  intros HQ. assert (wlp (fat32_stat name) (fat_now s) (λ _ d, current_dir_cluster d = cwd_cluster s)) as Hk.
  { unfold fat32_stat. apply wlp_bind, wlp_gets, wlp_bind. intros b d1 _. destruct b as [b|].
    - apply wlp_bind, wlp_gets, wlp_bind. intros r d2 _. apply wlp_bind, wlp_modify. by destruct (_ <? 0); apply wlp_ret.
    - by apply wlp_bind, wlp_modify, wlp_ret. }
  unfold fat_size_attr. apply wlp_bind, wlp_on_fat. intros r d s' E Hd _. apply wlp_ret, HQ.
  unfold cwd_cluster at 1. rewrite Hd. by apply (Hk r).
Qed.

Lemma at_dir_cwd dirfd path work s : wlp (at_dir dirfd path work) s (λ _ s', cwd_cluster s' = cwd_cluster s).
Proof.
  unfold at_dir. apply wlp_bind, wlp_saved. intros s1 _ _. apply wlp_bind. intros b s2 _. destruct b as [b|].
  - apply wlp_bind. intros r s3 _. apply wlp_bind, wlp_restore. intros s4 E. by apply wlp_ret.
  - apply wlp_bind, wlp_restore. intros s4 E. by apply wlp_ret.
Qed.

(** The calls that name a file, without their result. *)
Inductive path_call :=
  | COpenat (dirfd : Z) (p : option (list Z)) | CMkdirat (dirfd : Z) (p : option (list Z))
  | CUnlinkat (dirfd : Z) (p : option (list Z))
  | CRenameat (dirfd : Z) (p : option (list Z)) (newdirfd : Z) (q : option (list Z))
  | CFstatat (dirfd : Z) (p : option (list Z)) (has_st : bool) | CStat (p : option (list Z)) (has_st : bool).

Definition run_path (c : path_call) : M (wsys F) Z :=
  match c with
  | COpenat d p => SYS_openat d p
  | CMkdirat d p => SYS_mkdirat d p
  | CUnlinkat d p => SYS_unlinkat d p
  | CRenameat d p d' q => SYS_renameat d p d' q
  | CFstatat d p b => let! r := SYS_newfstatat d p b in ret (fst r)
  | CStat p b => let! r := SYS_stat p b in ret (fst r)
  end.

(** The calls on the table do not reach the files. *)
Lemma wlp_keeps_files {A} (m : M (fdstate F) A) s (Q : A → wsys F → Prop) :
  (∀ t, wlp m t (λ _ t', fs_files t' = fs_files t)) →
  (∀ a s', cwd_cluster s' = cwd_cluster s → Q a s') → wlp (on_tab m) s Q.
Proof.
  intros Hm HQ. apply wlp_on_tab. intros a t E. apply HQ. unfold cwd_cluster, fat_now, files.
  cbn [x_k k_fds set_fds]. by rewrite (Hm _ _ _ E).
Qed.
Lemma fds_upd_files fd f (t : fdstate F) : wlp (fds_upd fd f) t (λ _ t', fs_files t' = fs_files t).
Proof. unfold fds_upd. apply wlp_bind, wlp_assert. intros _. by apply wlp_modify. Qed.
Lemma open_dev_files p (t : fdstate F) : wlp (open_dev p) t (λ _ t', fs_files t' = fs_files t).
Proof.
  unfold open_dev. destruct p as [|c p]; [by apply wlp_ret|]. cbv zeta. destruct (_ <? 0); [by apply wlp_ret|].
  apply wlp_bind, wlp_gets. destruct (_ <? 0); [by apply wlp_ret|]. apply wlp_bind.
  eapply wlp_mono; [apply fds_upd_files|]. intros [] t' E. by apply wlp_ret.
Qed.
Lemma alloc_fd_files (t : fdstate F) : wlp alloc_fd t (λ _ t', fs_files t' = fs_files t).
Proof. by apply wlp_gets. Qed.

Lemma openat_cwd d p s : wlp (SYS_openat d p) s (λ _ s', cwd_cluster s' = cwd_cluster s).
Proof.
  unfold SYS_openat. apply wlp_bind, wlp_fix_arg. intros q.
  apply wlp_bind, wlp_keeps_files; [apply open_dev_files|]. intros devfd s1 <-.
  destruct (0 <=? devfd); [by apply wlp_ret|]. apply wlp_bind, wlp_cwd_now. intros cwd _. apply wlp_bind.
  apply (wlp_mono _ _ (λ _ s', s' = s1)).
  { destruct q as [q|]; [apply wlp_lift; done|by apply wlp_ret]. }
  intros abs s2 ->. destruct (nz _); [by apply wlp_ret|]. apply wlp_bind, wlp_gets, wlp_bind.
  apply (wlp_mono _ _ (λ _ s', cwd_cluster s' = cwd_cluster s1)).
  { destruct (g_use_ext2 _); [by apply wlp_ret|]. apply wlp_bind, wlp_saved. intros s2 _ _.
    apply wlp_bind. intros b s3 _. apply wlp_bind, wlp_restore. intros s4 E. by apply wlp_ret. }
  intros base s2 <-. destruct base as [base|]; [|by apply wlp_ret].
  apply wlp_bind, wlp_keeps_files; [apply alloc_fd_files|]. intros fd s3 <-. destruct (fd <? 0); [by apply wlp_ret|].
  apply wlp_bind, wlp_keeps_files; [intros t; apply fds_upd_files|]. intros [] s4 E. by apply wlp_ret.
Qed.

Lemma renameat_cwd d p d' q s : wlp (SYS_renameat d p d' q) s (λ _ s', cwd_cluster s' = cwd_cluster s).
Proof.
  assert (∀ (a : Z) s1, wlp (on_fat (fat32_set_cwd (cwd_cluster s)) ;! ret a) s1 (λ _ s', cwd_cluster s' = cwd_cluster s)) as Hr.
  { intros a s1. apply wlp_bind, wlp_restore. intros s2 E. by apply wlp_ret. }
  unfold SYS_renameat. apply wlp_bind, wlp_saved. intros s1 _ _. apply wlp_bind. intros b s2 _.
  destruct b as [b|]; [|apply Hr]. apply wlp_bind. intros mid s3 _. apply wlp_bind. intros [] s4 _.
  apply wlp_bind. intros nb s5 _. destruct nb as [nb|]; [|apply Hr]. apply wlp_bind. intros nd s6 _.
  destruct (negb _); [apply Hr|]. apply wlp_bind. intros r s7 _. apply Hr.
Qed.

Lemma fstatat_cwd d p b s : wlp (SYS_newfstatat d p b) s (λ _ s', cwd_cluster s' = cwd_cluster s).
Proof.
  unfold SYS_newfstatat. destruct (_ && _); [by apply wlp_ret|]. apply wlp_bind, wlp_gets.
  destruct (g_use_ext2 _); [apply wlp_bind, wlp_fix_arg; intros a; by apply wlp_ret|].
  apply wlp_bind, wlp_saved. intros s1 _ _. apply wlp_bind. intros base s2 _. destruct base as [base|].
  - apply wlp_bind. intros st s3 _. apply wlp_bind, wlp_restore. intros s4 E. by apply wlp_ret.
  - apply wlp_bind, wlp_restore. intros s4 E. by apply wlp_ret.
Qed.

Lemma stat_cwd p b s : wlp (SYS_stat p b) s (λ _ s', cwd_cluster s' = cwd_cluster s).
Proof.
  unfold SYS_stat. apply wlp_bind, wlp_fix_arg. intros [q|]; [|by apply wlp_ret].
  destruct (negb b); [by apply wlp_ret|]. destruct (is_tmp _); [by apply wlp_ret|].
  apply wlp_bind, wlp_cwd_now. intros cwd _. apply wlp_bind, wlp_lift. intros abs _.
  destruct (nz _); [by apply wlp_ret|]. apply wlp_bind. unfold mounted_stat. apply wlp_bind, wlp_gets.
  destruct (vfs_on_ext2 _); [by apply wlp_ret, wlp_ret|]. apply wlp_stat. intros a s1 E. by apply wlp_ret.
Qed.

(** ** Names in descriptors *)

Lemma last_part_no_slash l f : last (parts l) = Some f → no_slash f.
Proof.
  destruct (last_name l) as [Hs|(d & g & -> & Hg)].
  - rewrite parts_plain by done. by intros [= <-].
  - rewrite parts_snoc, last_snoc by done. by intros [= <-].
Qed.
Lemma walk_parts_no_slash cur maxlen st : wlp (walk_parts cur maxlen) st (λ o _, ∀ f, o = Some f → no_slash f).
Proof.
  unfold walk_parts. apply wlp_bind. intros r st' _. apply wlp_ret. intros f. destruct (r <? 0); [done|].
  destruct (last (parts cur)) as [[|c g]|] eqn:E; try done. intros [= <-]. by apply Forall_take, (last_part_no_slash cur).
Qed.
Lemma resolve_no_slash dirfd path maxlen st : match path with Some p => no_zero p | None => True end →
  wlp (resolve_at_path dirfd path maxlen) st (λ o _, ∀ f, o = Some f → no_slash f).
Proof.
  intros Hz o st' E. rewrite resolve_walks in E by done. revert o st' E.
  change (wlp (resolve_parts dirfd path maxlen) st (λ o _, ∀ f, o = Some f → no_slash f)).
  unfold resolve_parts. destruct path as [[|c p]|]; [by apply wlp_ret| |by apply wlp_ret].
  destruct (fixpath _ _) as [q|]; [|done]. destruct (negb _); [by apply wlp_ret|]. cbv zeta.
  destruct (bool_decide _); [|apply walk_parts_no_slash]. apply wlp_bind. intros r st1 _. apply walk_parts_no_slash.
Qed.

(** The entry after an update of the table. *)
Lemma fd_after_upd fd f s : 0 ≤ fd < 16 →
  ∃ s', on_tab (fds_upd fd f) s = Some (tt, s') ∧ fd_now s' fd = f (fd_now s fd) ∧ x_seen s' = x_seen s ∧ x_seen_n s' = x_seen_n s.
Proof.
  intros Hfd. unfold on_tab, on_kern, zoom, fds_upd, bind, assert_, MAX_FDS.
  rewrite (proj2 (Z.leb_le 0 fd)), (proj2 (Z.ltb_lt fd 16)) by lia. cbn [andb]. unfold skip, ret, modify.
  eexists. split; [reflexivity|]. split; [|done]. unfold fd_now. cbn [x_k k_fds set_fds].
  set (t := k_fds (x_k s)). unfold upd_fd. unfold fd_of at 1, tab_of at 1. cbn [fs_tables fs_fdtab set_tables].
  rewrite lookup_insert_eq. cbn [default]. unfold id. by rewrite lookup_insert_eq.
Qed.

Lemma alloc_fd_range (t : fdstate F) fd t' : alloc_fd t = Some (fd, t') → t' = t ∧ (fd = -1 ∨ 3 ≤ fd < 16).
Proof.
  unfold alloc_fd, gets. intros [= <- <-]. split; [done|]. cbn [fd_candidates find_first].
  repeat (destruct (_ =? 0); [lia|]). lia.
Qed.
Lemma wlp_alloc s (Q : Z → wsys F → Prop) :
  (∀ fd, fd = -1 ∨ 3 ≤ fd < 16 → Q fd s) → wlp (on_tab alloc_fd) s Q.
Proof.
  intros HQ. apply wlp_on_tab. intros fd t E. apply alloc_fd_range in E as [-> Hr].
  destruct s as [k ? ?]. destruct k. by apply HQ.
Qed.

(** A path that is not a device. *)
Lemma wlp_no_dev p s (Q : Z → wsys F → Prop) : dev_type p < 0 → Q (-1) s → wlp (on_tab (open_dev p)) s Q.
Proof.
  intros Hdev HQ. apply wlp_on_tab. intros devfd t Ed.
  assert (devfd = -1 ∧ t = k_fds (x_k s)) as [-> ->].
  { unfold open_dev in Ed. destruct p as [|c p]; [by injection Ed as <- <-|]. cbv zeta in Ed.
    rewrite (proj2 (Z.ltb_lt _ 0)) in Ed by exact Hdev. by injection Ed as <- <-. }
  destruct s as [k ? ?]. by destruct k.
Qed.

(** The rows of [seen_names] and the table are apart. *)
Lemma seen_put_table row i c s : wlp (seen_put row i c) s (λ _ s', x_k s' = x_k s).
Proof. unfold seen_put. cbv zeta. apply wlp_bind, wlp_assert. intros _. by apply wlp_modify. Qed.
Lemma log_name_table path s : wlp (log_name path) s (λ _ s', x_k s' = x_k s).
Proof.
  assert (∀ row i cs s1, wlp (seen_puts row i cs) s1 (λ _ s', x_k s' = x_k s1)) as Hp.
  { intros row i cs. revert i. induction cs as [|c cs IH]; intros i s1; [by apply wlp_ret|]. cbn [seen_puts].
    apply wlp_bind. eapply wlp_mono; [apply seen_put_table|]. intros [] s2 <-. apply IH. }
  unfold log_name. apply wlp_bind, wlp_gets, wlp_bind, wlp_gets. destruct (_ && _); [|by apply wlp_ret].
  apply wlp_bind. eapply wlp_mono; [apply Hp|]. intros [] s1 <-. apply wlp_bind.
  eapply wlp_mono; [apply seen_put_table|]. intros [] s2 <-. by apply wlp_modify.
Qed.
End calls.

(** C24: a call that goes to the directory of a path comes back: whatever the path and
    the outcome, openat, mkdirat, unlinkat, renameat, newfstatat and stat leave the
    current directory of the volume, which all processes share, as it was. *)
Theorem path_calls_keep_cwd {F} `{DiskFiles F} (c : path_call) (s : wsys F) r s' :
  run_path c s = Some (r, s') → cwd_cluster s' = cwd_cluster s.
Proof.
  revert r s'. change (wlp (run_path c) s (λ _ s', cwd_cluster s' = cwd_cluster s)).
  destruct c as [d p|d p|d p|d p d' q|d p b|p b]; cbn [run_path].
  - apply openat_cwd.
  - unfold SYS_mkdirat. destruct (is_tmp p); [by apply wlp_ret|apply at_dir_cwd].
  - apply at_dir_cwd.
  - apply renameat_cwd.
  - apply wlp_bind. eapply wlp_mono; [apply fstatat_cwd|]. intros a s1 E. by apply wlp_ret.
  - apply wlp_bind. eapply wlp_mono; [apply stat_cwd|]. intros a s1 E. by apply wlp_ret.
Qed.

(** A descriptor that [openat] makes for a file of the FAT32 volume names the file by its
    last part alone: its directory is gone, and later calls look for the name elsewhere. *)
Theorem openat_forgets_directory {F} `{DiskFiles F} (s : wsys F) dirfd path fd s' :
  g_use_ext2 (files s) = false → no_zero path → dev_type (default [] (fixpath path VFS_MAX_PATH)) < 0 →
  SYS_openat dirfd (Some path) s = Some (fd, s') → 0 ≤ fd → no_slash (fd_name (fd_now s' fd)).
Proof.
  intros He Hz Hdev Hrun Hfd. revert Hrun.
  enough (wlp (SYS_openat dirfd (Some path)) s (λ fd s', 0 ≤ fd → no_slash (fd_name (fd_now s' fd)))) as Hw
    by (intros Hrun; by apply (Hw _ _ Hrun)).
  unfold SYS_openat. apply wlp_bind. unfold fix_arg. apply wlp_bind, wlp_lift. intros q Eq. apply wlp_ret.
  rewrite Eq in Hdev. cbn [default] in *. apply wlp_bind, wlp_no_dev; [done|]. change (0 <=? -1) with false. cbv iota.
  apply wlp_bind, wlp_cwd_now. intros cwd Hc. apply wlp_bind, wlp_lift. intros [r abs] Ea.
  apply vfs_abs_no_zero in Ea; [|done|exact (fixpath_no_zero path VFS_MAX_PATH q Hz Eq)]. cbn [fst snd].
  destruct (nz r); [apply wlp_ret; lia|]. apply wlp_bind, wlp_gets. rewrite He. apply wlp_bind.
  apply (wlp_mono _ _ (λ o _, ∀ f, o = Some f → no_slash f)).
  { apply wlp_bind, wlp_saved. intros s1 _ _. apply wlp_bind, wlp_on_fat. intros o d s2 Er _ _.
    apply wlp_bind. intros [] s3 _. apply wlp_ret. by eapply (resolve_no_slash dirfd (Some abs)). }
  intros base s1 Hb. destruct base as [base|]; [|apply wlp_ret; lia]. specialize (Hb base eq_refl).
  apply wlp_bind, wlp_alloc. intros fd' Hr. destruct (Z.ltb_spec fd' 0); [apply wlp_ret; lia|]. apply wlp_bind.
  destruct (fd_after_upd fd' (λ e, set_used 1 (set_pos 0 (set_type 0 (set_name base e)))) s1) as (s2 & E2 & Hn & _); [lia|].
  intros [] s3 E3. rewrite E2 in E3. injection E3 as <-. apply wlp_ret. intros _. by rewrite Hn.
Qed.

(** [open] takes a free descriptor as its last user left it: its type and its flags are
    those of the socket, pipe or device it was. *)
Theorem open_keeps_type {F} `{DiskFiles F} (s : wsys F) path fd s' :
  dev_type (default [] (fixpath path 512)) < 0 →
  SYS_open (Some path) s = Some (fd, s') → 3 ≤ fd →
  fd_type (fd_now s' fd) = fd_type (fd_now s fd) ∧ fd_pipe (fd_now s' fd) = fd_pipe (fd_now s fd) ∧
  fd_used (fd_now s' fd) = 1.
Proof.
  intros Hdev Hrun Hfd. revert Hrun.
  enough (wlp (SYS_open (Some path)) s (λ fd s', 3 ≤ fd → fd_type (fd_now s' fd) = fd_type (fd_now s fd) ∧
    fd_pipe (fd_now s' fd) = fd_pipe (fd_now s fd) ∧ fd_used (fd_now s' fd) = 1)) as Hw by (intros Hrun; by apply (Hw _ _ Hrun)).
  unfold SYS_open. apply wlp_bind. unfold fix_arg. apply wlp_bind, wlp_lift. intros q Eq. apply wlp_ret. rewrite Eq in Hdev. cbn [default] in *.
  destruct (same _ _ || _); [apply wlp_ret; lia|]. do 2 (destruct (same _ _); [apply wlp_ret; lia|]).
  apply wlp_bind, wlp_no_dev; [done|]. change (0 <=? -1) with false. cbv iota.
  apply wlp_bind, wlp_alloc. intros fd' Hr. destruct (Z.ltb_spec fd' 0); [apply wlp_ret; lia|].
  apply wlp_bind, wlp_ret, wlp_bind. destruct (fd_after_upd fd' (λ e, set_used 1 (set_pos 0 (set_name (take 255 q) e))) s) as (s1 & E1 & Hn & _); [lia|].
  intros [] s2 E2. rewrite E1 in E2. injection E2 as <-. apply wlp_bind.
  eapply wlp_mono; [apply log_name_table|]. intros [] s3 E3. apply wlp_ret. intros _.
  assert (fd_now s3 fd' = fd_now s1 fd') as -> by (unfold fd_now; by rewrite E3). by rewrite Hn.
Qed.

(** The 48th name that [open] logs is written past the end of [seen_names] when it has 96
    characters or more. *)
Theorem open_overruns_log {F} `{DiskFiles F} (s : wsys F) path :
  x_seen_n s = 47 → 96 ≤ Z.of_nat (length path) →
  existsb (λ q, str_equal (cstr (drop (Z.to_nat (q * 96)) (x_seen s))) path) (seqZ 0 47) = false →
  log_name path s = None.
Proof.
  intros Hn Hl Hd. destruct (log_name path s) as [[[] s']|] eqn:E; [exfalso|done]. revert E.
  enough (wlp (log_name path) s (λ _ _, False)) as Hw by apply Hw.
  unfold log_name. apply wlp_bind, wlp_gets, wlp_bind, wlp_gets. rewrite Hn, Hd. cbn [negb andb].
  change (47 <? 48) with true. cbv iota. apply wlp_bind. intros [] s1 _. apply wlp_bind. unfold seen_put. cbv zeta.
  apply wlp_bind, wlp_assert. intros Ha. apply andb_prop in Ha as [_ Ha]. apply Z.ltb_lt in Ha. lia.
Qed.

(** ** A volume with one directory *)

#[export] Instance fat_files : DiskFiles fat := {|
  fat_of := λ f, f;
  with_fat := λ d _, d;
  fat_of_with := λ d f, eq_refl;
  g_use_ext2 := λ _, false;
  vfs_on_ext2 := λ _, false;
  ext2_stat := λ _ _, None;
  ext2new_stat := λ _ _, None;
  ext2_read_file := λ _ _ _, (-1, []) |}.

(** The root is cluster 2 and lists the directory A, cluster 3; we are in A. *)
Definition volume : fat :=
  let d := disk_of [EOC_MARK; EOC_MARK] in
  mkFat (<[2 := put_cluster 0 3 (put_attr 0 0x10 (put_name 0 (name_to_83 [65]) (replicate 512 0)))]> (f_disk d))
    6 2 2 1 3 1.

Definition small_system : wsys fat :=
  mkWsys (mkK boot_heap (mkFdState ∅ 65 ∅ ∅ [] [] [] [] volume) ∅ 0 0 0 0 false) (replicate (48 * 96) 0) 0.

(** ["/A//b"] *)
Lemma resolve_walks_parts_witness :
  resolve_at_path AT_FDCWD (Some [47; 65; 47; 47; 98]) 256 (set_cwd 2 volume) = Some (Some [98], volume).
Proof.
  rewrite (resolve_walks_parts AT_FDCWD (Some [47; 65; 47; 47; 98]) 256 (set_cwd 2 volume)).
  - vm_compute. reflexivity.
  - repeat constructor; discriminate.
Defined.

Lemma path_calls_keep_cwd_witness :
  ∃ r s', run_path (CUnlinkat AT_FDCWD (Some [47; 98])) small_system = Some (r, s') ∧ cwd_cluster s' = 3.
Proof.
  assert (Hs : match run_path (CUnlinkat AT_FDCWD (Some [47; 98])) small_system with Some _ => true | None => false end = true)
    by (vm_compute; reflexivity).
  assert (Hc : cwd_cluster small_system = 3) by (vm_compute; reflexivity).
  generalize dependent small_system. intros s Hs Hc.
  destruct (run_path (CUnlinkat AT_FDCWD (Some [47; 98])) s) as [[r s']|] eqn:E; [|discriminate Hs].
  exists r, s'. split; [reflexivity|]. rewrite <-Hc. exact (path_calls_keep_cwd _ s r s' E).
Defined.

Lemma after_result {S A} (m : M S A) (s : S) r :
  match m s with Some (a, _) => Some a | None => None end = Some r → m s = Some (r, after m s).
Proof. unfold after. destruct (m s) as [[a s']|]; [by intros [= <-]|done]. Qed.

(** [readdir] does not come back when the directory is not there: in directory A, listing
    ["/B"] fails and leaves the volume in the root. *)
Theorem readdir_loses_directory : ∃ (s : wsys fat) path s',
  SYS_readdir (Some path) true 8 s = Some ((-1, []), s') ∧ cwd_cluster s = 3 ∧ cwd_cluster s' = 2.
Proof.
  exists small_system, [47; 66].
  exists (after (SYS_readdir (Some [47; 66]) true 8) small_system).
  split; [apply after_result; vm_compute; reflexivity|]. split; vm_compute; reflexivity.
Qed.
