(* ===== verification/Gfx.v ===== *)
(** * Gfx: [OvsbMk/lib/gui/vesa.c], [lib/owt/owt_draw.c] and [lib/wm/wm.c]

    Pixels.  A surface is an array of 32-bit words: the framebuffer or a buffer in
    memory; a store outside it has no result.  The index of a pixel is computed in 32
    bits, as [y * stride + x] with an unsigned [stride].  Texts are lists of characters
    (signed) without their zero. *)

From Stdlib Require Import ZArith Lia.
From stdpp Require Import gmap list prelude.
From S2P Require Import Prelude KHeap Paging.

Open Scope Z_scope.

(** ** Surfaces *)

Record surface := mkSurface { sf_px : gmap Z Z; sf_len : Z }.

Definition px (b : surface) (i : Z) : Z := default 0 (sf_px b !! i).
Definition in_surface (b : surface) (i : Z) : bool := (0 <=? i) && (i <? sf_len b).
Definition put_px (i v : Z) (b : surface) : surface := mkSurface (<[i := v]> (sf_px b)) (sf_len b).

(** ** The font: [font8x8] of [vesa.c], [font] of [owt_draw.c] *)

Definition font8x8 : list (list Z) :=
  [[0; 0; 0; 0; 0; 0; 0; 0]; [24; 60; 60; 24; 24; 0; 24; 0]; [54; 54; 0; 0; 0; 0; 0; 0];
   [54; 54; 127; 54; 127; 54; 54; 0]; [12; 62; 3; 30; 48; 31; 12; 0]; [0; 99; 51; 24; 12; 102; 99; 0];
   [28; 54; 28; 110; 59; 51; 110; 0]; [6; 6; 3; 0; 0; 0; 0; 0]; [24; 12; 6; 6; 6; 12; 24; 0];
   [6; 12; 24; 24; 24; 12; 6; 0]; [0; 102; 60; 255; 60; 102; 0; 0]; [0; 12; 12; 63; 12; 12; 0; 0];
   [0; 0; 0; 0; 0; 12; 12; 6]; [0; 0; 0; 63; 0; 0; 0; 0]; [0; 0; 0; 0; 0; 12; 12; 0];
   [96; 48; 24; 12; 6; 3; 1; 0]; [62; 99; 115; 123; 111; 103; 62; 0]; [12; 14; 12; 12; 12; 12; 63; 0];
   [30; 51; 48; 28; 6; 51; 63; 0]; [30; 51; 48; 28; 48; 51; 30; 0]; [56; 60; 54; 51; 127; 48; 120; 0];
   [63; 3; 31; 48; 48; 51; 30; 0]; [28; 6; 3; 31; 51; 51; 30; 0]; [63; 51; 48; 24; 12; 12; 12; 0];
   [30; 51; 51; 30; 51; 51; 30; 0]; [30; 51; 51; 62; 48; 24; 14; 0]; [0; 12; 12; 0; 0; 12; 12; 0];
   [0; 12; 12; 0; 0; 12; 12; 6]; [24; 12; 6; 3; 6; 12; 24; 0]; [0; 0; 63; 0; 0; 63; 0; 0];
   [6; 12; 24; 48; 24; 12; 6; 0]; [30; 51; 48; 24; 12; 0; 12; 0]; [62; 99; 123; 123; 123; 3; 30; 0];
   [12; 30; 51; 51; 63; 51; 51; 0]; [63; 102; 102; 62; 102; 102; 63; 0]; [60; 102; 3; 3; 3; 102; 60; 0];
   [31; 54; 102; 102; 102; 54; 31; 0]; [127; 70; 22; 30; 22; 70; 127; 0]; [127; 70; 22; 30; 22; 6; 15; 0];
   [60; 102; 3; 3; 115; 102; 124; 0]; [51; 51; 51; 63; 51; 51; 51; 0]; [30; 12; 12; 12; 12; 12; 30; 0];
   [120; 48; 48; 48; 51; 51; 30; 0]; [103; 102; 54; 30; 54; 102; 103; 0]; [15; 6; 6; 6; 70; 102; 127; 0];
   [99; 119; 127; 127; 107; 99; 99; 0]; [99; 103; 111; 123; 115; 99; 99; 0]; [28; 54; 99; 99; 99; 54; 28; 0];
   [63; 102; 102; 62; 6; 6; 15; 0]; [30; 51; 51; 51; 59; 30; 56; 0]; [63; 102; 102; 62; 54; 102; 103; 0];
   [30; 51; 7; 14; 56; 51; 30; 0]; [63; 45; 12; 12; 12; 12; 30; 0]; [51; 51; 51; 51; 51; 51; 63; 0];
   [51; 51; 51; 51; 51; 30; 12; 0]; [99; 99; 99; 107; 127; 119; 99; 0]; [99; 99; 54; 28; 28; 54; 99; 0];
   [51; 51; 51; 30; 12; 12; 30; 0]; [127; 99; 49; 24; 76; 102; 127; 0]; [30; 6; 6; 6; 6; 6; 30; 0];
   [3; 6; 12; 24; 48; 96; 64; 0]; [30; 24; 24; 24; 24; 24; 30; 0]; [8; 28; 54; 99; 0; 0; 0; 0];
   [0; 0; 0; 0; 0; 0; 0; 255]; [12; 12; 24; 0; 0; 0; 0; 0]; [0; 0; 30; 48; 62; 51; 110; 0];
   [7; 6; 6; 62; 102; 102; 59; 0]; [0; 0; 30; 51; 3; 51; 30; 0]; [56; 48; 48; 62; 51; 51; 110; 0];
   [0; 0; 30; 51; 63; 3; 30; 0]; [28; 54; 6; 15; 6; 6; 15; 0]; [0; 0; 110; 51; 51; 62; 48; 31];
   [7; 6; 54; 110; 102; 102; 103; 0]; [12; 0; 14; 12; 12; 12; 30; 0]; [48; 0; 48; 48; 48; 51; 51; 30];
   [7; 6; 102; 54; 30; 54; 103; 0]; [14; 12; 12; 12; 12; 12; 30; 0]; [0; 0; 51; 127; 127; 107; 99; 0];
   [0; 0; 31; 51; 51; 51; 51; 0]; [0; 0; 30; 51; 51; 51; 30; 0]; [0; 0; 59; 102; 102; 62; 6; 15];
   [0; 0; 110; 51; 51; 62; 48; 120]; [0; 0; 59; 110; 102; 6; 15; 0]; [0; 0; 62; 3; 30; 48; 31; 0];
   [8; 12; 62; 12; 12; 44; 24; 0]; [0; 0; 51; 51; 51; 51; 110; 0]; [0; 0; 51; 51; 51; 30; 12; 0];
   [0; 0; 99; 107; 127; 127; 54; 0]; [0; 0; 99; 54; 28; 54; 99; 0]; [0; 0; 51; 51; 51; 62; 48; 31];
   [0; 0; 63; 25; 12; 38; 63; 0]; [56; 12; 12; 7; 12; 12; 56; 0]; [24; 24; 24; 0; 24; 24; 24; 0];
   [7; 12; 12; 56; 12; 12; 7; 0]; [110; 59; 0; 0; 0; 0; 0; 0]].
Definition font : list (list Z) := font8x8.

(** The rows of a character from 32 to 126. *)
Definition glyph (c : Z) : list Z := default [] (font8x8 !! Z.to_nat (c - 32)).

(** ** vesa.c *)

(** [g_fb] and what it points to, the framebuffer, and [g_backbuffer]. *)
Record vesa := mkVesa {
  g_fb : bool; fb_pitch : Z; fb_width : Z; fb_height : Z; fb_front : surface; g_backbuffer : option surface }.

Definition set_front (b : surface) (s : vesa) : vesa :=
  mkVesa (g_fb s) (fb_pitch s) (fb_width s) (fb_height s) b (g_backbuffer s).
Definition set_back (b : option surface) (s : vesa) : vesa :=
  mkVesa (g_fb s) (fb_pitch s) (fb_width s) (fb_height s) (fb_front s) b.

Abbreviation V := (M vesa).

(** The framebuffer of the boot loader is mapped at its own address. *)
Definition vesa_init (addr pitch width height : Z) (front : surface) : M (heap * vesa) Z :=
  modify (λ '(h, s), (h, mkVesa true pitch width height front (g_backbuffer s))) ;!
  zoom fst (λ h s, (h, s.2))
    (let! pml4 := pml4_get_current in
     let fb_size := u32 (pitch * height) in
     let fb_size := Z.ldiff (u64 (fb_size + 0x1FFFFF)) 0x1FFFFF in
     pml4_map_phys pml4 addr addr fb_size true).

Definition vesa_set_backbuffer (buf : option surface) : V unit := modify (set_back buf).
Definition vesa_has_backbuffer : V bool := gets (λ s, match g_backbuffer s with Some _ => true | None => false end).

(** [fb_target()] *)
Definition fb_target (s : vesa) : surface := match g_backbuffer s with Some b => b | None => fb_front s end.
Definition set_target (b : surface) (s : vesa) : vesa :=
  match g_backbuffer s with Some _ => set_back (Some b) s | None => set_front b s end.
Definition fb_put (i v : Z) : V unit :=
  let! b := gets fb_target in
  assert_ (in_surface b i) ;!
  modify (set_target (put_px i v b)).

Definition stride (s : vesa) : Z := fb_pitch s / 4.

(** [rep movsq] with the number of pixels for the count: two words at a time. *)
Definition fast_memcpy32 (n : Z) : V unit :=
  for_up (2 * Z.to_nat n) 0 (λ i,
    let! s := gets id in
    match g_backbuffer s with
    | None => stuck
    | Some b =>
        assert_ (in_surface b i && in_surface (fb_front s) i) ;!
        modify (set_front (put_px i (px b i) (fb_front s)))
    end).
Definition vesa_flush : V unit :=
  let! s := gets id in
  match g_fb s, g_backbuffer s with
  | true, Some _ => fast_memcpy32 (fb_pitch s * fb_height s / 4)
  | _, _ => skip
  end.

Definition vesa_draw_pixel (x y color : Z) : V unit :=
  let! s := gets id in
  if negb (g_fb s) then skip else
  if (x <? 0) || (y <? 0) || (fb_width s <=? x) || (fb_height s <=? y) then skip else
  fb_put (u32 (y * stride s + x)) color.

(** Eight pixels at a time. *)
Definition vesa_fill_screen (color : Z) : V unit :=
  let! s := gets id in
  if negb (g_fb s) then skip else
  for_up (Z.to_nat (fb_height s)) 0 (λ y,
    for_up (Z.to_nat ((fb_width s + 7) / 8)) 0 (λ k,
      for_up 8 0 (λ j, fb_put (u32 (y * stride s) + u32 (8 * k + j)) color))).

Definition vesa_draw_rect (x y w h color : Z) : V unit :=
  let! s := gets id in
  if negb (g_fb s) then skip else
  if (w <=? 0) || (h <=? 0) then skip else
  let x0 := if x <? 0 then 0 else x in
  let y0 := if y <? 0 then 0 else y in
  let x1 := s32 (x + w) in
  let y1 := s32 (y + h) in
  let x1 := if s32 (fb_width s) <? x1 then s32 (fb_width s) else x1 in
  let y1 := if s32 (fb_height s) <? y1 then s32 (fb_height s) else y1 in
  for_up (Z.to_nat (y1 - y0)) y0 (λ py,
    for_up (Z.to_nat (x1 - x0)) x0 (λ px_, fb_put (u32 (py * stride s + px_)) color)).

Definition vesa_draw_char (x y c color : Z) : V unit :=
  let! s := gets id in
  if negb (g_fb s) then skip else
  if (c <? 32) || (126 <? c) then skip else
  for_up 8 0 (λ row,
    let bits := default 0 (glyph c !! Z.to_nat row) in
    for_up 8 0 (λ col,
      if Z.testbit bits col then
        let px_ := s32 (x + col) in
        let py := s32 (y + row * 2) in
        vesa_draw_pixel px_ py color ;!
        vesa_draw_pixel px_ (s32 (py + 1)) color
      else skip)).

(** [cell\[r\]\[cl\]] after its two loops. *)
Definition cell_px (c fg bg r cl : Z) : Z :=
  if (32 <=? c) && (c <=? 126) && Z.testbit (default 0 (glyph c !! Z.to_nat (r / 2))) cl then fg else bg.

Definition vesa_draw_cell (x y c fg bg : Z) : V unit :=
  let! s := gets id in
  if negb (g_fb s) then skip else
  for_up 16 0 (λ r,
    for_up 8 0 (λ cl, fb_put (u32 (s32 (y + r) * stride s + x) + cl) (cell_px c fg bg r cl))).

Fixpoint draw_text_from (x cx cy : Z) (text : list Z) (color : Z) : V unit :=
  match text with
  | [] => skip
  | c :: text' =>
      if c =? 10 then draw_text_from x x (s32 (cy + 16)) text' color
      else vesa_draw_char cx cy c color ;! draw_text_from x (s32 (cx + 8)) cy text' color
  end.
Definition vesa_draw_text (x y : Z) (text : list Z) (color : Z) : V unit := draw_text_from x x y text color.

(** ** wm.c *)

(** [backbuf], [framebuf] with the memory behind it, and the dimensions. *)
Record wm := mkWm { backbuf : option surface; framebuf : surface; scr_w : Z; scr_h : Z; wm_stride : Z }.

Definition set_backbuf (b : option surface) (s : wm) : wm := mkWm b (framebuf s) (scr_w s) (scr_h s) (wm_stride s).
Definition set_framebuf (b : surface) (s : wm) : wm := mkWm (backbuf s) b (scr_w s) (scr_h s) (wm_stride s).

Abbreviation W := (M wm).

(** [got]: [kmalloc] gave memory. *)
Definition wm_init (got : bool) (fb : surface) (w h st : Z) : W unit :=
  modify (λ _, mkWm (if got then Some (mkSurface ∅ (w * h)) else None) fb w h st) ;!
  if got then
    for_up (Z.to_nat (s32 (w * h))) 0 (λ i,
      let! s := gets id in
      match backbuf s with
      | None => stuck
      | Some b => assert_ (in_surface b i) ;! modify (set_backbuf (Some (put_px i 0xFF1A1A2E b)))
      end)
  else skip.

Definition wm_get_stride (s : wm) : Z := u32 (wm_stride s).

Definition wm_flush : W unit :=
  let! s := gets id in
  match backbuf s with
  | None => skip
  | Some b =>
      for_up (Z.to_nat (scr_h s)) 0 (λ y,
        for_up (Z.to_nat (scr_w s)) 0 (λ x,
          let! s := gets id in
          let from := u32 (y * u32 (scr_w s) + x) in
          let to := s32 (y * wm_stride s + x) in
          assert_ (in_surface b from && in_surface (framebuf s) to) ;!
          modify (set_framebuf (put_px to (px b from) (framebuf s)))))
  end.

(** ** owt_draw.c *)

Definition owt_draw_pixel (x y color : Z) : W unit :=
  let! s := gets id in
  match backbuf s with
  | None => skip
  | Some bb =>
      if (x <? 0) || (y <? 0) || (scr_w s <=? x) || (scr_h s <=? y) then skip else
      let i := u32 (y * wm_get_stride s + x) in
      assert_ (in_surface bb i) ;!
      modify (set_backbuf (Some (put_px i color bb)))
  end.

Definition owt_draw_rect (x y w h color : Z) : W unit :=
  for_up (Z.to_nat (s32 (y + h) - y)) y (λ py,
    for_up (Z.to_nat (s32 (x + w) - x)) x (λ px_, owt_draw_pixel px_ py color)).

Definition owt_draw_char (x y c color : Z) : W unit :=
  if (c <? 32) || (126 <? c) then skip else
  let g := default [] (font !! Z.to_nat (c - 32)) in
  for_up 8 0 (λ r,
    let bits := default 0 (g !! Z.to_nat r) in
    for_up 8 0 (λ cl,
      if Z.testbit bits cl then
        owt_draw_pixel (s32 (x + cl)) (s32 (y + r * 2)) color ;!
        owt_draw_pixel (s32 (x + cl)) (s32 (y + r * 2 + 1)) color
      else skip)).

Fixpoint owt_draw_text (x y : Z) (text : list Z) (color : Z) : W unit :=
  match text with [] => skip | c :: text' => owt_draw_char x y c color ;! owt_draw_text (s32 (x + 8)) y text' color end.
