(* ===== verification/GfxProof.v ===== *)
(** * GfxProof: what is drawn

    An interface of canvases: a pixel is stored or clipped.  Against it, rectangles,
    characters and texts paint exactly the points they should; [vesa.c] and [owt_draw.c]
    are two canvases.  [wm_flush] shows the back buffer.  Where buffers are overrun. *)

From Stdlib Require Import ZArith Lia.
From stdpp Require Import gmap list prelude.
From S2P Require Import Prelude Gfx.

Open Scope Z_scope.

(** Equality of two tests on integers. *)
Ltac test_lia :=
  apply eq_bool_prop_intro; rewrite !Is_true_true; repeat (rewrite andb_true_iff || rewrite orb_true_iff);
  rewrite ?Z.leb_le, ?Z.ltb_lt, ?Z.eqb_eq; lia.

(** ** Canvases *)

(** Width, height and stride. *)
Record geometry := mkGeometry { gw : Z; gh : Z; gs : Z }.

Definition visible (g : geometry) (x y : Z) : bool := (0 <=? x) && (x <? gw g) && (0 <=? y) && (y <? gh g).
Definition stored (g : geometry) (x y : Z) : Prop := 0 ≤ x < gs g ∧ 0 ≤ y < gh g.

(** From [s] to [s'] the visible points of [P] got the colour and no other stored point
    changed. *)
Definition painted_by {S} (ok : S → Prop) (geom : S → geometry) (pt : S → Z → Z → Z)
    (P : Z → Z → bool) (color : Z) (s s' : S) : Prop :=
  ok s' ∧ geom s' = geom s ∧
  ∀ x y, stored (geom s) x y → pt s' x y = if P x y && visible (geom s) x y then color else pt s x y.

Class Canvas (S : Type) := {
  cv_ok : S → Prop;
  cv_geom : S → geometry;
  cv_pt : S → Z → Z → Z;
  cv_pixel : Z → Z → Z → M S unit;
  cv_pixel_spec s x y color : cv_ok s →
    wp (cv_pixel x y color) s (λ _ s', painted_by cv_ok cv_geom cv_pt (λ x' y', (x' =? x) && (y' =? y)) color s s') }.

Definition painted {S} `{Canvas S} := painted_by cv_ok cv_geom cv_pt.

Section canvas.
Context {S : Type} `{Canvas S}.
Implicit Types s : S.

Lemma painted_nothing color s : cv_ok s → painted (λ _ _, false) color s s.
Proof. done. Qed.

Lemma painting_ext P Q color s s' : (∀ x y, P x y = Q x y) → painted P color s s' → painted Q color s s'.
Proof. intros E (Hok & Hg & Hp). split_and!; [done..|]. intros x y Hs. by rewrite <-E, Hp. Qed.

Lemma painted_trans P Q color s1 s2 s3 :
  painted P color s1 s2 → painted Q color s2 s3 → painted (λ x y, P x y || Q x y) color s1 s3.
Proof.
  intros (Hok1 & Hg1 & Hp1) (Hok2 & Hg2 & Hp2). split_and!; [done|congruence|]. intros x y Hs.
  rewrite Hp2 by (by rewrite Hg1). rewrite Hg1, Hp1 by done. by destruct (P x y), (Q x y), (visible _ x y).
Qed.

Lemma wp_skip_paint color s : cv_ok s → wp skip s (λ _ s', painted (λ _ _, false) color s s').
Proof. intros Hok. apply wp_skip. by apply painted_nothing. Qed.

Lemma wp_seq_paint P Q color (m1 m2 : M S unit) s :
  wp m1 s (λ _ s', painted P color s s') →
  (∀ s1, cv_ok s1 → wp m2 s1 (λ _ s', painted Q color s1 s')) →
  wp (m1 ;! m2) s (λ _ s', painted (λ x y, P x y || Q x y) color s s').
Proof.
  intros H1 H2. apply wp_bind. eapply wp_mono; [exact H1|]. intros [] s1 Hp.
  eapply wp_mono; [apply H2, Hp|]. intros [] s2 Hq. by eapply painted_trans.
Qed.

(** A loop paints what one of its rounds paints. *)
Lemma wp_for_geom (P : Z → Z → Z → bool) color body g n lo s :
  cv_ok s → cv_geom s = g →
  (∀ i s1, lo ≤ i < lo + Z.of_nat n → cv_ok s1 → cv_geom s1 = g → wp (body i) s1 (λ _ s', painted (P i) color s1 s')) →
  wp (for_up n lo body) s (λ _ s', painted (λ x y, existsb (λ i, P i x y) (seqZ lo (Z.of_nat n))) color s s').
Proof.
  revert lo s. induction n as [|n IH]; intros lo s Hok Hg Hb; cbn [for_up].
  - by apply wp_skip_paint.
  - apply wp_bind. eapply wp_mono; [apply Hb; [lia|done|done]|]. intros [] s1 Hp. pose proof Hp as (Hok1 & Hg1 & _).
    eapply wp_mono; [apply (IH (lo + 1) s1); [done|congruence|intros i s2 Hi; apply Hb; lia]|].
    intros [] s' Hq. eapply painting_ext; [|exact (painted_trans _ _ _ _ _ _ Hp Hq)]. intros x y.
    rewrite (seqZ_cons lo (Z.of_nat (Datatypes.S n))) by lia. cbn [existsb].
    by replace (Z.pred (Z.of_nat (Datatypes.S n))) with (Z.of_nat n) by lia.
Qed.
Lemma wp_for_paint (P : Z → Z → Z → bool) color body n lo s :
  cv_ok s → (∀ i s1, lo ≤ i < lo + Z.of_nat n → cv_ok s1 → wp (body i) s1 (λ _ s', painted (P i) color s1 s')) →
  wp (for_up n lo body) s (λ _ s', painted (λ x y, existsb (λ i, P i x y) (seqZ lo (Z.of_nat n))) color s s').
Proof. intros Hok Hb. apply (wp_for_geom P color body (cv_geom s)); auto. Qed.

Lemma existsb_range (f : Z → bool) lo n : existsb f (seqZ lo n) = true ↔ ∃ i, lo ≤ i < lo + n ∧ f i = true.
Proof.
  rewrite existsb_exists. split; intros (i & Hi & Hf); exists i; (split; [|done]).
  - by apply list_elem_of_In, elem_of_seqZ in Hi.
  - by apply list_elem_of_In, elem_of_seqZ.
Qed.

(** ** Characters and texts *)

(** Bit [dx], [dy] of a character of 8 by 16 points, each row of the font twice. *)
Definition char_bit (c dx dy : Z) : bool :=
  (32 <=? c) && (c <=? 126) && (0 <=? dx) && (dx <? 8) && (0 <=? dy) && (dy <? 16) &&
  Z.testbit (default 0 (glyph c !! Z.to_nat (dy / 2))) dx.

(** Drawing a character on a canvas: a row of bits gives two rows of points. *)
Definition char_rows (x y : Z) (g : list Z) (color : Z) : M S unit :=
  for_up 8 0 (λ r,
    let bits := default 0 (g !! Z.to_nat r) in
    for_up 8 0 (λ cl,
      if Z.testbit bits cl then cv_pixel (x + cl) (y + r * 2) color ;! cv_pixel (x + cl) (y + r * 2 + 1) color
      else skip)).

Lemma char_rows_spec x y c color s : 32 ≤ c ≤ 126 → cv_ok s →
  wp (char_rows x y (glyph c) color) s (λ _ s', painted (λ x' y', char_bit c (x' - x) (y' - y)) color s s').
Proof.
  intros Hc Hok. set (bits r := default 0 (glyph c !! Z.to_nat r)).
  set (P (r cl x' y' : Z) := Z.testbit (bits r) cl && ((x' =? x + cl) && ((y' =? y + r * 2) || (y' =? y + r * 2 + 1)))).
  eapply wp_mono; [apply (wp_for_paint (λ r x' y', existsb (λ cl, P r cl x' y') (seqZ 0 8)))|].
  - done.
  - intros r s1 Hr Hok1. cbv zeta. fold (bits r). apply (wp_for_paint (P r)); [done|]. intros cl s2 Hcl Hok2.
    unfold P. destruct (Z.testbit (bits r) cl); [|by apply wp_skip_paint].
    eapply wp_mono; [apply wp_seq_paint; [by apply cv_pixel_spec|intros s3 Hok3; by apply cv_pixel_spec]|].
    intros [] s4 Hp. eapply painting_ext; [|exact Hp]. intros x' y'. cbv beta. by destruct (x' =? x + cl).
  - intros [] s' Hp. eapply painting_ext; [|exact Hp]. intros x' y'. cbv beta. apply eq_bool_prop_intro.
    rewrite !Is_true_true, existsb_range. unfold char_bit.
    assert ((32 <=? c) && (c <=? 126) = true) as -> by lia. cbn [andb]. split.
    + intros (r & Hr & Hex). apply existsb_range in Hex as (cl & Hcl & HP). unfold P in HP.
      apply andb_prop in HP as [Hbit HP]. apply andb_prop in HP as [Hx HP]. apply Z.eqb_eq in Hx.
      assert ((y' - y) / 2 = r) as Hy.
      { apply orb_prop in HP as [E|E]; apply Z.eqb_eq in E; subst y'.
        - replace (y + r * 2 - y) with (r * 2) by lia. by apply Z.div_mul.
        - replace (y + r * 2 + 1 - y) with (1 + r * 2) by lia. by rewrite Z.div_add. }
      rewrite Hy. replace (x' - x) with cl by lia. fold (bits r). rewrite Hbit.
      assert (0 ≤ y' - y < 16) by (apply orb_prop in HP as [E|E]; apply Z.eqb_eq in E; lia). lia.
    + intros Hb. apply andb_prop in Hb as [Hb Hbit]. set (r := (y' - y) / 2) in *. exists r.
      assert (0 ≤ y' - y < 16 ∧ 0 ≤ x' - x < 8) as [Hy Hx] by lia.
      pose proof (Z.div_mod (y' - y) 2 ltac:(lia)) as Hdm. fold r in Hdm.
      pose proof (Z.mod_pos_bound (y' - y) 2 ltac:(lia)). split; [lia|]. apply existsb_range.
      exists (x' - x). split; [lia|]. unfold P. fold (bits r) in Hbit. rewrite Hbit. cbn [andb].
      apply andb_true_intro. split; [lia|]. lia.
Qed.
End canvas.

(** ** vesa.c is a canvas *)

Definition screen_geom (s : vesa) : geometry := mkGeometry (fb_width s) (fb_height s) (stride s).
Definition screen_pt (s : vesa) (x y : Z) : Z := px (fb_target s) (y * stride s + x).

(** The framebuffer is there, its rows are as long as the screen is wide or longer, and
    the buffer that is drawn to has all of them. *)
Record screen_ok (s : vesa) : Prop := {
  so_on : g_fb s = true;
  so_width : 0 ≤ fb_width s ≤ stride s;
  so_height : 0 ≤ fb_height s;
  so_len : stride s * fb_height s ≤ sf_len (fb_target s);
  so_fits : stride s * fb_height s ≤ 2 ^ 32 }.

Lemma row_index (st h x y : Z) : 0 ≤ x < st → 0 ≤ y < h → 0 ≤ y * st + x < st * h.
Proof. intros Hx Hy. nia. Qed.
Lemma row_inj (st x y x' y' : Z) : 0 ≤ x < st → 0 ≤ x' < st → y * st + x = y' * st + x' → x = x' ∧ y = y'.
Proof. intros Hx Hx' E. assert (y = y') as -> by nia. lia. Qed.

Lemma px_put b i v j : px (put_px i v b) j = if decide (i = j) then v else px b j.
Proof.
  unfold px, put_px. cbn [sf_px]. case_decide as Hij; [subst; by rewrite lookup_insert_eq|by rewrite lookup_insert_ne].
Qed.
Lemma target_set b s : fb_target (set_target b s) = b ∧ screen_geom (set_target b s) = screen_geom s ∧
  g_fb (set_target b s) = g_fb s.
Proof. destruct s as [? ? ? ? ? []]; repeat split. Qed.

(** One store inside the buffer. *)
Lemma fb_put_spec x y color s : screen_ok s → stored (screen_geom s) x y →
  wp (fb_put (u32 (y * stride s + x)) color) s (λ _ s', screen_ok s' ∧ screen_geom s' = screen_geom s ∧
    ∀ x' y', stored (screen_geom s) x' y' → screen_pt s' x' y' = if (x' =? x) && (y' =? y) then color else screen_pt s x' y').
Proof.
  intros [Hon Hw Hh Hl Hf] [Hx Hy]. cbn [gs gh screen_geom] in *. pose proof (row_index _ _ x y Hx Hy) as Hi.
  rewrite u32_small by lia. unfold fb_put. wp_step. apply wp_gets. wp_step. apply wp_assert; [unfold in_surface; lia|].
  apply wp_modify. set (b := put_px _ _ _). destruct (target_set b s) as (Ht & Hg & Ho).
  pose proof Hg as Hg'. injection Hg' as Ew Eh Es. split; [split; rewrite ?Ew, ?Eh, ?Es, ?Ht, ?Ho; done|].
  split; [exact Hg|].
  intros x' y' [Hx' Hy']. cbn [gs gh screen_geom] in *. unfold screen_pt. rewrite Ht, Es. unfold b. rewrite px_put.
  case_decide as E.
  - apply (row_inj (stride s)) in E as [-> ->]; [|done..]. by rewrite !Z.eqb_refl.
  - destruct (Z.eqb_spec x' x) as [-> |]; [|done]. destruct (Z.eqb_spec y' y) as [-> |]; done.
Qed.

Lemma vesa_pixel_spec s x y color : screen_ok s →
  wp (vesa_draw_pixel x y color) s (λ _ s',
    painted_by screen_ok screen_geom screen_pt (λ x' y', (x' =? x) && (y' =? y)) color s s').
Proof.
  intros Hok. pose proof Hok as [Hon Hw Hh Hl Hf]. unfold vesa_draw_pixel. wp_step. apply wp_gets. cbv beta. unfold id. rewrite Hon.
  cbn [negb]. destruct (_ || _) eqn:E.
  - apply wp_skip. split_and!; [done..|]. intros x' y' Hs. unfold visible. cbn [gw gh screen_geom].
    destruct (Z.eqb_spec x' x) as [-> |]; [|done]. destruct (Z.eqb_spec y' y) as [-> |]; [|done]. cbn [andb].
    replace (_ && _ && _ && _) with false by lia. done.
  - eapply wp_mono; [apply fb_put_spec; [done|]|].
    + split; cbn [gs gh screen_geom]; lia.
    + intros [] s' (Hok' & Hg & Hp). split_and!; [done..|]. intros x' y' Hs. rewrite Hp by done.
      destruct (Z.eqb_spec x' x) as [-> |]; [|done]. destruct (Z.eqb_spec y' y) as [-> |]; [|done].
      unfold visible. cbn [gw gh screen_geom andb]. replace (_ && _ && _ && _) with true by lia. done.
Qed.

#[export] Instance vesa_canvas : Canvas vesa := {|
  cv_ok := screen_ok; cv_geom := screen_geom; cv_pt := screen_pt; cv_pixel := vesa_draw_pixel;
  cv_pixel_spec := vesa_pixel_spec |}.

(** ** owt_draw.c is a canvas *)

Definition wm_geom (s : wm) : geometry := mkGeometry (scr_w s) (scr_h s) (scr_w s).
Definition wm_pt (s : wm) (x y : Z) : Z := match backbuf s with Some b => px b (y * scr_w s + x) | None => 0 end.

(** The back buffer was allocated, its rows are as long as those of the framebuffer, and
    the framebuffer holds the screen.  ([wm_init] takes width and stride separately and
    allocates width times height: a longer stride is the case of
    [owt_overruns_back_buffer] below.) *)
Record wm_ok (s : wm) : Prop := {
  wo_back : ∃ b, backbuf s = Some b ∧ sf_len b = scr_w s * scr_h s;
  wo_stride : wm_stride s = scr_w s;
  wo_dims : 0 ≤ scr_w s ∧ 0 ≤ scr_h s;
  wo_fits : scr_w s * scr_h s < 2 ^ 31;
  wo_front : scr_w s * scr_h s ≤ sf_len (framebuf s) }.

Lemma wm_pixel_spec s x y color : wm_ok s →
  wp (owt_draw_pixel x y color) s (λ _ s',
    painted_by wm_ok wm_geom wm_pt (λ x' y', (x' =? x) && (y' =? y)) color s s').
Proof.
  intros Hok. pose proof Hok as [(b & Hb & Hl) Hst [Hw Hh] Hf Hfr]. unfold owt_draw_pixel. wp_step. apply wp_gets. cbv beta.
  unfold id. rewrite Hb. destruct (_ || _) eqn:E.
  - apply wp_skip. split_and!; [done..|]. intros x' y' Hs. unfold visible. cbn [gw gh wm_geom].
    destruct (Z.eqb_spec x' x) as [-> |]; [|done]. destruct (Z.eqb_spec y' y) as [-> |]; [|done]. cbn [andb].
    replace (_ && _ && _ && _) with false by lia. done.
  - pose proof (row_index (scr_w s) (scr_h s) x y ltac:(lia) ltac:(lia)) as Hi.
    assert (scr_w s < 2 ^ 31) by nia. unfold wm_get_stride. rewrite Hst, (u32_small (scr_w s)), u32_small by lia.
    cbv zeta. wp_step. apply wp_assert; [unfold in_surface; lia|]. apply wp_modify. split; [|split; [done|]].
    { split; [by eexists|done..]. }
    intros x' y' [Hx' Hy']. cbn [gs gh wm_geom] in *. unfold wm_pt. cbn [backbuf set_backbuf scr_w]. rewrite Hb, px_put.
    unfold visible. cbn [gw gh wm_geom]. case_decide as Eij.
    + apply (row_inj (scr_w s)) in Eij as [-> ->]; [|lia..]. rewrite !Z.eqb_refl. cbn [andb].
      replace (_ && _ && _ && _) with true by lia. done.
    + destruct (Z.eqb_spec x' x) as [-> |]; [|done]. destruct (Z.eqb_spec y' y) as [-> |]; done.
Qed.

#[export] Instance wm_canvas : Canvas wm := {|
  cv_ok := wm_ok; cv_geom := wm_geom; cv_pt := wm_pt; cv_pixel := owt_draw_pixel; cv_pixel_spec := wm_pixel_spec |}.

(** ** Rectangles *)

Definition in_rect (x y w h x' y' : Z) : bool := (x <=? x') && (x' <? x + w) && (y <=? y') && (y' <? y + h).

(** The rows and columns of two loops. *)
Lemma loops_rect x0 y0 nx ny x' y' :
  existsb (λ i, existsb (λ j, (x' =? j) && (y' =? i)) (seqZ x0 nx)) (seqZ y0 ny) = in_rect x0 y0 nx ny x' y'.
Proof.
  apply eq_bool_prop_intro. rewrite !Is_true_true, existsb_range. unfold in_rect. split.
  - intros (i & Hi & Hex). apply existsb_range in Hex as (j & Hj & E). lia.
  - intros Hin. exists y'. split; [lia|]. apply existsb_range. exists x'. lia.
Qed.

Definition small (z : Z) : Prop := - 2 ^ 30 ≤ z < 2 ^ 30.

(** The values of [int], and rectangles whose ends are among them. *)
Definition int32 (z : Z) : Prop := - 2 ^ 31 ≤ z < 2 ^ 31.
Definition ends_fit (x y w h : Z) : bool := (x + w <? 2 ^ 31) && (y + h <? 2 ^ 31).

Lemma vesa_rect_fits x y w h color s : screen_ok s → fb_width s < 2 ^ 31 → fb_height s < 2 ^ 31 →
  int32 x → int32 y → x + w < 2 ^ 31 → y + h < 2 ^ 31 →
  wp (vesa_draw_rect x y w h color) s (λ _ s', painted (in_rect x y w h) color s s').
Proof.
  intros Hok Hbw Hbh Hx Hy Hw Hh. unfold int32 in *. pose proof Hok as [Hon Hsw Hsh Hl Hf].
  unfold vesa_draw_rect. wp_step. apply wp_gets. cbv beta. unfold id. rewrite Hon. cbn [negb].
  destruct (_ || _) eqn:Ez.
  { eapply wp_mono; [by apply (wp_skip_paint color)|]. intros [] s' Hp. eapply painting_ext; [|exact Hp].
    intros x' y'. unfold in_rect. lia. }
  assert (0 < w ∧ 0 < h) as [Hw0 Hh0] by lia.
  rewrite !(s32_small (x + w)), !(s32_small (y + h)), (s32_small (fb_width s)), (s32_small (fb_height s)) by lia. cbv zeta.
  set (x0 := if x <? 0 then 0 else x). set (y0 := if y <? 0 then 0 else y).
  set (x1 := if fb_width s <? x + w then fb_width s else x + w). set (y1 := if fb_height s <? y + h then fb_height s else y + h).
  assert (0 ≤ x0 ∧ 0 ≤ y0 ∧ x1 ≤ fb_width s ∧ y1 ≤ fb_height s) as (Hx0 & Hy0 & Hx1 & Hy1)
    by (unfold x0, y0, x1, y1; repeat case_match; lia).
  eapply wp_mono.
  - apply (wp_for_geom (λ py x' y', existsb (λ j, (x' =? j) && (y' =? py)) (seqZ x0 (Z.of_nat (Z.to_nat (x1 - x0))))) color _ (screen_geom s)); [done|done|].
    intros py s1 Hpy Hok1 Hg1. apply (wp_for_geom (λ j x' y', (x' =? j) && (y' =? py)) color _ (screen_geom s)); [done|done|].
    intros j s2 Hj Hok2 Hg2. pose proof Hg2 as Hg2'. injection Hg2' as Ew Eh Es. rewrite <-Es.
    eapply wp_mono; [apply fb_put_spec; [done|split; cbn [gs gh screen_geom]; lia]|].
    intros [] s3 (Hok3 & Hg3 & Hp). split_and!; [done|done|]. intros x' y' Hs. cbn [cv_pt vesa_canvas]. rewrite Hp by done.
    destruct (Z.eqb_spec x' j) as [-> |]; [|done]. destruct (Z.eqb_spec y' py) as [-> |]; [|done].
    unfold visible. cbn [cv_geom vesa_canvas gw gh screen_geom andb]. replace (_ && _ && _ && _) with true by lia. done.
  - intros [] s' (Hok' & Hg & Hp). split_and!; [done|done|]. intros x' y' Hs. rewrite Hp by done. rewrite loops_rect.
    assert (in_rect x0 y0 (Z.of_nat (Z.to_nat (x1 - x0))) (Z.of_nat (Z.to_nat (y1 - y0))) x' y' && visible (screen_geom s) x' y' =
      in_rect x y w h x' y' && visible (screen_geom s) x' y') as E; [|cbn [cv_geom vesa_canvas]; by rewrite E].
    unfold in_rect, visible. cbn [gw gh screen_geom]. clear Hp Hs. apply eq_bool_prop_intro. rewrite !Is_true_true, !andb_true_iff, !Z.leb_le, !Z.ltb_lt. apply orb_false_iff in Ez as [Ez1 Ez2]. apply Z.leb_gt in Ez1, Ez2.
    subst x0 y0 x1 y1. destruct (Z.ltb_spec x 0), (Z.ltb_spec y 0), (Z.ltb_spec (fb_width s) (x + w)), (Z.ltb_spec (fb_height s) (y + h)); lia.
Qed.

(** An end that is no [int] wraps and is left of, or above, the screen: nothing is drawn. *)
Lemma s32_wraps z : 2 ^ 31 ≤ z < 2 ^ 32 → s32 z < 0.
Proof.
  intros Hz. unfold s32. replace (z + 2 ^ 31) with (z - 2 ^ 31 + 1 * 2 ^ 32) by lia. rewrite Z.mod_add, Z.mod_small by lia. lia.
Qed.

Lemma vesa_rect_wraps x y w h color s : screen_ok s →
  int32 x → int32 y → int32 w → int32 h → ends_fit x y w h = false →
  wp (vesa_draw_rect x y w h color) s (λ _ s', painted (λ _ _, false) color s s').
Proof.
  intros Hok Hx Hy Hw Hh Hno. unfold int32, ends_fit in *. unfold vesa_draw_rect. wp_step. apply wp_gets. cbv beta. unfold id.
  rewrite (so_on s Hok). cbn [negb]. destruct (_ || _) eqn:Ez; [by apply (wp_skip_paint color)|]. cbv zeta.
  set (x0 := if x <? 0 then 0 else x). set (y0 := if y <? 0 then 0 else y).
  set (x1 := if _ <? s32 (x + w) then _ else _). set (y1 := if _ <? s32 (y + h) then _ else _).
  assert (x1 ≤ s32 (x + w) ∧ y1 ≤ s32 (y + h) ∧ 0 ≤ x0 ∧ 0 ≤ y0) as (H1 & H2 & H3 & H4) by (subst x0 y0 x1 y1; repeat case_match; lia).
  clearbody x0 y0 x1 y1. destruct (Z.ltb_spec (x + w) (2 ^ 31)); cbn [andb] in Hno.
  - assert (s32 (y + h) < 0) by (apply s32_wraps; lia). replace (Z.to_nat (y1 - y0)) with O by lia. by apply (wp_skip_paint color).
  - assert (s32 (x + w) < 0) by (apply s32_wraps; lia). replace (Z.to_nat (x1 - x0)) with O by lia. eapply wp_mono.
    + apply (wp_for_paint (λ _ _ _, false) color); [done|]. intros i s1 _ Hok1. by apply (wp_skip_paint color).
    + intros [] s' Hp. eapply painting_ext; [|exact Hp]. intros x' y'. generalize (seqZ y0 (Z.of_nat (Z.to_nat (y1 - y0)))).
      by intros l; induction l.
Qed.

Lemma vesa_rect_run x y w h color s : screen_ok s → fb_width s < 2 ^ 31 → fb_height s < 2 ^ 31 →
  int32 x → int32 y → int32 w → int32 h →
  wp (vesa_draw_rect x y w h color) s (λ _ s', painted (λ x' y', ends_fit x y w h && in_rect x y w h x' y') color s s').
Proof.
  intros Hok Hbw Hbh Hx Hy Hw Hh. destruct (ends_fit x y w h) eqn:Ef; cbn [andb]; [|by apply vesa_rect_wraps].
  unfold ends_fit in Ef. apply vesa_rect_fits; try done; lia.
Qed.

Lemma owt_rect_run x y w h color s : wm_ok s → small x → small y → small w → small h →
  wp (owt_draw_rect x y w h color) s (λ _ s', painted (in_rect x y w h) color s s').
Proof.
  intros Hok Hx Hy Hw Hh. unfold small in *. unfold owt_draw_rect. rewrite !s32_small by lia.
  eapply wp_mono.
  - apply (wp_for_paint (λ py x' y', existsb (λ j, (x' =? j) && (y' =? py)) (seqZ x (Z.of_nat (Z.to_nat (x + w - x))))) color); [done|].
    intros py s1 _ Hok1. apply (wp_for_paint (λ j x' y', (x' =? j) && (y' =? py)) color); [done|].
    intros j s2 _ Hok2. exact (cv_pixel_spec s2 j py color Hok2).
  - intros [] s' Hp. eapply painting_ext; [|exact Hp]. intros x' y'. cbv beta. rewrite loops_rect. unfold in_rect. test_lia.
Qed.

(** ** Texts *)

Lemma char_bit_range c dx dy : ¬ 32 ≤ c ≤ 126 → char_bit c dx dy = false.
Proof. intros Hc. unfold char_bit. replace ((32 <=? c) && (c <=? 126)) with false by lia. done. Qed.

(** Loops with the same rounds. *)
Lemma for_up_ext {S} (f g : Z → M S unit) n lo : (∀ i, lo ≤ i < lo + Z.of_nat n → ∀ s, f i s = g i s) →
  ∀ s, for_up n lo f s = for_up n lo g s.
Proof.
  revert lo. induction n as [|n IH]; intros lo E s; [done|]. cbn [for_up]. unfold bind. rewrite (E lo) by lia.
  destruct (g lo s) as [[[] s1]|]; [|done]. apply IH. intros i Hi. apply E. lia.
Qed.
Lemma wp_ext {S A} (m m' : M S A) s Q : m s = m' s → wp m' s Q → wp m s Q.
Proof. intros E (a & s' & Hm & HQ). exists a, s'. by rewrite E. Qed.

Lemma vesa_char_run x y c color s : screen_ok s → small x → small y →
  wp (vesa_draw_char x y c color) s (λ _ s', painted (λ x' y', char_bit c (x' - x) (y' - y)) color s s').
Proof.
  intros Hok Hx Hy. unfold small in *. unfold vesa_draw_char. wp_step. apply wp_gets. cbv beta. unfold id.
  rewrite (so_on s Hok). cbn [negb]. destruct (_ || _) eqn:Ec.
  { eapply wp_mono; [by apply (wp_skip_paint color)|]. intros [] s' Hp. eapply painting_ext; [|exact Hp].
    intros x' y'. rewrite char_bit_range; [done|lia]. }
  eapply wp_ext; [|apply (char_rows_spec x y c color); [lia|done]]. apply for_up_ext. intros r Hr s1. cbv zeta.
  apply for_up_ext. intros cl Hcl s2. destruct (Z.testbit _ cl); [|done].
  rewrite (s32_small (x + cl)), (s32_small (y + r * 2)), (s32_small (y + r * 2 + 1)) by lia. done.
Qed.
Lemma owt_char_run x y c color s : wm_ok s → small x → small y →
  wp (owt_draw_char x y c color) s (λ _ s', painted (λ x' y', char_bit c (x' - x) (y' - y)) color s s').
Proof.
  intros Hok Hx Hy. unfold small in *. unfold owt_draw_char. destruct (_ || _) eqn:Ec.
  { eapply wp_mono; [by apply (wp_skip_paint color)|]. intros [] s' Hp. eapply painting_ext; [|exact Hp].
    intros x' y'. rewrite char_bit_range; [done|lia]. }
  cbv zeta. eapply wp_ext; [|apply (char_rows_spec x y c color); [lia|done]]. apply for_up_ext. intros r Hr s1. cbv zeta.
  apply for_up_ext. intros cl Hcl s2. unfold glyph, font. destruct (Z.testbit _ cl); [|done].
  rewrite (s32_small (x + cl)), (s32_small (y + r * 2)), (s32_small (y + r * 2 + 1)) by lia. done.
Qed.

(** The points of a text: characters 8 apart, and for [vesa_draw_text] lines 16 apart. *)
Fixpoint text_bit (text : list Z) (dx dy : Z) : bool :=
  match text with [] => false | c :: text' => char_bit c dx dy || text_bit text' (dx - 8) dy end.
Fixpoint lines_bit (col : Z) (text : list Z) (dx dy : Z) : bool :=
  match text with
  | [] => false
  | c :: text' =>
      if c =? 10 then lines_bit 0 text' dx (dy - 16)
      else char_bit c (dx - 8 * col) dy || lines_bit (col + 1) text' dx dy
  end.

Lemma owt_text_run text x y color s : wm_ok s → small x → small y → small (x + 8 * Z.of_nat (length text)) →
  wp (owt_draw_text x y text color) s (λ _ s', painted (λ x' y', text_bit text (x' - x) (y' - y)) color s s').
Proof.
  revert x s. induction text as [|c text IH]; intros x s Hok Hx Hy Hl; cbn [owt_draw_text text_bit length] in *.
  - by apply (wp_skip_paint color).
  - unfold small in *. rewrite s32_small by lia.
    eapply wp_mono; [apply wp_seq_paint; [by apply owt_char_run|intros s1 Hok1; apply IH; [done|unfold small; lia..]]|].
    intros [] s' Hp. eapply painting_ext; [|exact Hp]. intros x' y'. cbv beta. f_equal. f_equal; lia.
Qed.
Lemma vesa_text_run text x col y color s : screen_ok s → 0 ≤ col → small x → small y →
  small (x + 8 * (col + Z.of_nat (length text))) → small (y + 16 * Z.of_nat (length text)) →
  wp (draw_text_from x (x + 8 * col) y text color) s (λ _ s', painted (λ x' y', lines_bit col text (x' - x) (y' - y)) color s s').
Proof.
  revert col y s. induction text as [|c text IH]; intros col y s Hok Hcol Hx Hy Hl Hh; cbn [draw_text_from lines_bit length] in *.
  - by apply (wp_skip_paint color).
  - unfold small in *. destruct (c =? 10).
    + rewrite s32_small by lia. replace x with (x + 8 * 0) at 2 by lia.
      eapply wp_mono; [apply (IH 0 (y + 16)); unfold small; [done|lia..]|].
      intros [] s' Hp. eapply painting_ext; [|exact Hp]. intros x' y'. cbv beta. f_equal; lia.
    + rewrite s32_small by lia. replace (x + 8 * col + 8) with (x + 8 * (col + 1)) by lia.
      eapply wp_mono; [apply wp_seq_paint; [apply vesa_char_run; unfold small; [done|lia..]|intros s1 Hok1; apply IH; unfold small; [done|lia..]]|].
      intros [] s' Hp. eapply painting_ext; [|exact Hp]. intros x' y'. cbv beta. f_equal. f_equal; lia.
Qed.

(** C29: drawing on the framebuffer is exact.  Take a screen whose buffer holds its rows,
    any rectangle of [int]s in one colour and then a text in another, whose characters
    all lie within [2 ^ 30] of the origin.  The two calls return without a store outside
    the buffer.  Each point of the buffer, the ends of the rows included, has the colour
    of the text if it is on the screen and the font sets it for a character at its place
    in its line; else that of the rectangle if it is on the screen and inside it; else
    what it had before.  A rectangle with an end beyond the largest [int] is not drawn
    at all. *)
Theorem vesa_draws_exactly (s : vesa) x y w h bg tx ty text fg :
  screen_ok s → fb_width s < 2 ^ 31 → fb_height s < 2 ^ 31 →
  int32 x → int32 y → int32 w → int32 h →
  small tx → small ty → small (tx + 8 * Z.of_nat (length text)) → small (ty + 16 * Z.of_nat (length text)) →
  ∃ s', (vesa_draw_rect x y w h bg ;! vesa_draw_text tx ty text fg) s = Some (tt, s') ∧ screen_ok s' ∧
    ∀ x' y', stored (screen_geom s) x' y' → screen_pt s' x' y' =
      if visible (screen_geom s) x' y' && lines_bit 0 text (x' - tx) (y' - ty) then fg
      else if visible (screen_geom s) x' y' && (ends_fit x y w h && in_rect x y w h x' y') then bg
      else screen_pt s x' y'.
Proof.
  intros Hok Hbw Hbh Hx Hy Hw Hh Htx Hty Hlx Hly.
  destruct (vesa_rect_run x y w h bg s Hok Hbw Hbh Hx Hy Hw Hh) as ([] & s1 & E1 & Hok1 & Hg1 & Hp1).
  destruct (vesa_text_run text tx 0 ty fg s1 Hok1) as ([] & s2 & E2 & Hok2 & Hg2 & Hp2); [done..|].
  rewrite Z.add_0_r in E2. exists s2. unfold bind. rewrite E1. split_and!; [exact E2|done|]. intros x' y' Hst.
  cbn [cv_pt cv_geom vesa_canvas] in *. rewrite Hp2, Hg1, Hp1 by (by rewrite ?Hg1). rewrite !(andb_comm (visible _ _ _)). done.
Qed.

(** A screen of 16 by 16 points in rows of 20. *)
Definition small_screen : vesa := mkVesa true 80 16 16 (mkSurface ∅ 320) None.

Lemma vesa_draws_exactly_witness :
  ∃ s', (vesa_draw_rect 1 0 5 5 3 ;! vesa_draw_text 2 (-1) [72; 10; 105] 7) small_screen = Some (tt, s') ∧
    screen_pt s' 2 0 = 7 ∧ screen_pt s' 1 0 = 3 ∧ screen_pt s' 16 0 = 0.
Proof.
  assert (screen_ok small_screen) as Hok by (split; vm_compute; try split; congruence).
  destruct (vesa_draws_exactly small_screen 1 0 5 5 3 2 (-1) [72; 10; 105] 7 Hok) as (s' & E & _ & Hp);
    try (vm_compute; try split; congruence).
  exists s'. split; [exact E|]. split_and!; (etrans; [apply Hp; split; vm_compute; try split; congruence|]); vm_compute; reflexivity.
Defined.

(** A rectangle from 10 over the rest of the numbers is not drawn. *)
Example wide_rect_not_drawn :
  (λ r, screen_pt (snd r) 12 3) <$> vesa_draw_rect 10 0 (2 ^ 31 - 1) 16 7 small_screen = Some 0.
Proof. vm_compute. reflexivity. Qed.

(** ** The window manager's buffers *)

Definition front_pt (s : wm) (x y : Z) : Z := px (framebuf s) (y * scr_w s + x).

Lemma flush_point b (s : wm) x y : backbuf s = Some b → wm_ok s →
  0 ≤ x < scr_w s → 0 ≤ y < scr_h s →
  wp (let! s := gets id in
      let from := u32 (y * u32 (scr_w s) + x) in
      let to := s32 (y * wm_stride s + x) in
      assert_ (in_surface b from && in_surface (framebuf s) to) ;!
      modify (set_framebuf (put_px to (px b from) (framebuf s)))) s
    (λ _ s', s' = set_framebuf (put_px (y * scr_w s + x) (wm_pt s x y) (framebuf s)) s).
Proof.
  intros Hb [(b' & Hb' & Hl) Hst [Hw Hh] Hf Hlen] Hx Hy. rewrite Hb in Hb'. injection Hb' as <-.
  pose proof (row_index (scr_w s) (scr_h s) x y Hx Hy) as Hi. assert (scr_w s < 2 ^ 31) by nia.
  wp_step. apply wp_gets. unfold id. cbv zeta. rewrite Hst, (u32_small (scr_w s)), u32_small, s32_small by lia.
  wp_step. apply wp_assert; [unfold in_surface; lia|]. apply wp_modify. unfold wm_pt. by rewrite Hb.
Qed.

(** What the rows and points copied so far leave in the framebuffer. *)
Definition flushed (s : wm) (done_ : Z → Z → bool) (s' : wm) : Prop :=
  ∃ f, s' = set_framebuf f s ∧ sf_len f = sf_len (framebuf s) ∧
  ∀ x y, 0 ≤ x < scr_w s → 0 ≤ y < scr_h s → px f (y * scr_w s + x) = if done_ x y then wm_pt s x y else front_pt s x y.

Lemma wm_flush_run s : wm_ok s →
  wp wm_flush s (λ _ s', wm_ok s' ∧ wm_geom s' = wm_geom s ∧
    ∀ x y, visible (wm_geom s) x y = true → front_pt s' x y = wm_pt s x y).
Proof.
  intros Hok. pose proof Hok as [(b & Hb & Hl) Hst [Hw Hh] Hf Hlen]. unfold wm_flush. wp_step. apply wp_gets. unfold id. rewrite Hb.
  assert (∀ s' f, s' = set_framebuf f s → sf_len f = sf_len (framebuf s) →
    backbuf s' = Some b ∧ wm_ok s' ∧ scr_w s' = scr_w s ∧ scr_h s' = scr_h s) as Hsame.
  { intros s' f -> Ef. split_and!; [done| |done|done]. split; [by eexists|done..|by cbn; rewrite Ef]. }
  eapply wp_mono; [apply (wp_for_up (λ y s', flushed s (λ x' y', y' <? y) s'))|].
  - exists (framebuf s). split; [by destruct s|]. split; [done|]. intros x y Hx Hy.
    rewrite (proj2 (Z.ltb_ge y 0)) by lia. done.
  - intros y s1 Hy H1. eapply wp_mono; [apply (wp_for_up (λ x s', flushed s (λ x' y', (y' <? y) || ((y' =? y) && (x' <? x))) s'))|].
    + destruct H1 as (f & -> & Hfl & Hp). exists f. split_and!; [done..|]. intros x' y' Hx' Hy'. rewrite Hp by done.
      rewrite (proj2 (Z.ltb_ge x' 0)) by lia. by rewrite andb_false_r, orb_false_r.
    + intros x s2 Hx (f & E2 & Hfl & Hp). destruct (Hsame s2 f E2 Hfl) as (Hb2 & Hok2 & Ew & Eh).
      eapply wp_mono; [apply flush_point; [done|done|lia|lia]|].
      intros [] s3 ->. exists (put_px (y * scr_w s + x) (wm_pt s x y) f). subst s2. split_and!; [done|done|].
      intros x' y' Hx' Hy'. rewrite px_put, Hp by done. case_decide as E.
      * apply (row_inj (scr_w s)) in E as [<- <-]; [|lia..]. replace (_ || _) with true by test_lia. done.
      * assert (¬ (x' = x ∧ y' = y)) by (intros [-> ->]; done).
        replace ((y' <? y) || (y' =? y) && (x' <? x + 1)) with ((y' <? y) || (y' =? y) && (x' <? x)) by test_lia. done.
    + intros [] s2 (f & -> & Hfl & Hp). exists f. split_and!; [done..|]. intros x' y' Hx' Hy'. rewrite Hp by done.
      replace ((y' <? y) || (y' =? y) && (x' <? 0 + Z.of_nat (Z.to_nat (scr_w s)))) with (y' <? y + 1) by test_lia. done.
  - intros [] s' (f & E & Hfl & Hp). destruct (Hsame s' f E Hfl) as (_ & Hok' & Ew & Eh). subst s'. split_and!; [done|done|].
    intros x y Hv. unfold visible in Hv. cbn [gw gh wm_geom] in Hv. unfold front_pt. cbn [framebuf set_framebuf scr_w].
    rewrite Hp by lia. rewrite (proj2 (Z.ltb_lt y _)) by lia. done.
Qed.

(** What the window toolkit draws is what the screen shows: a rectangle, a text over
    it and [wm_flush] leave in the framebuffer the colour of the text at the points of its
    characters, the colour of the rectangle at its other points, and elsewhere what the
    back buffer held; everything is clipped to the screen and nothing is stored outside
    the two buffers, if the rows of the framebuffer are as long as the screen is wide. *)
Theorem owt_shows (s : wm) x y w h rc tx ty text tc :
  wm_ok s → small x → small y → small w → small h → small tx → small ty → small (tx + 8 * Z.of_nat (length text)) →
  ∃ s', (owt_draw_rect x y w h rc ;! owt_draw_text tx ty text tc ;! wm_flush) s = Some (tt, s') ∧
    ∀ x' y', visible (wm_geom s) x' y' = true →
      front_pt s' x' y' = if text_bit text (x' - tx) (y' - ty) then tc
                          else if in_rect x y w h x' y' then rc else wm_pt s x' y'.
Proof.
  intros Hok Hx Hy Hw Hh Htx Hty Htl.
  assert (wp (owt_draw_rect x y w h rc ;! owt_draw_text tx ty text tc ;! wm_flush) s (λ _ s', ∀ x' y', visible (wm_geom s) x' y' = true →
    front_pt s' x' y' = if text_bit text (x' - tx) (y' - ty) then tc else if in_rect x y w h x' y' then rc else wm_pt s x' y'))
    as ([] & s' & E & Hq); [|by exists s'].
  apply wp_bind. eapply wp_mono; [by apply owt_rect_run|]. intros [] s1 (Hok1 & Hg1 & Hp1). cbn [cv_ok cv_geom cv_pt wm_canvas] in *.
  apply wp_bind. eapply wp_mono; [by apply owt_text_run|]. intros [] s2 (Hok2 & Hg2 & Hp2). cbn [cv_ok cv_geom cv_pt wm_canvas] in *.
  eapply wp_mono; [by apply wm_flush_run|]. intros [] s3 (_ & _ & Hp3) x' y' Hv.
  assert (stored (wm_geom s) x' y') as Hs by (unfold visible, stored in *; cbn [gw gh gs wm_geom] in *; lia).
  rewrite Hp3 by (by rewrite Hg2, Hg1). rewrite Hp2 by (by rewrite Hg1). rewrite Hg1, Hp1, Hv, !andb_true_r by done. done.
Qed.

(** A screen of 16 by 16 points after [wm_init]. *)
Definition small_wm : wm := mkWm (Some (mkSurface ∅ 256)) (mkSurface ∅ 256) 16 16 16.

Lemma owt_shows_witness :
  ∃ s', (owt_draw_rect 0 0 16 4 5 ;! owt_draw_text 2 2 [72] 7 ;! wm_flush) small_wm = Some (tt, s') ∧
    front_pt s' 2 2 = 7 ∧ front_pt s' 0 0 = 5 ∧ front_pt s' 0 10 = 0.
Proof.
  assert (wm_ok small_wm) as Hok.
  { split; [eexists; split; [reflexivity|reflexivity]|reflexivity|vm_compute; split; congruence|reflexivity|vm_compute; congruence]. }
  destruct (owt_shows small_wm 0 0 16 4 5 2 2 [72] 7 Hok) as (s' & E & Hp); try (vm_compute; split; congruence).
  exists s'. split; [exact E|]. split_and!; (etrans; [apply Hp; reflexivity|]); vm_compute; reflexivity.
Defined.

(** Rows of the framebuffer that are longer than the screen is wide put the last points
    of the screen outside the back buffer, which is allocated without them. *)
Theorem owt_overruns_back_buffer (s : wm) b color :
  backbuf s = Some b → sf_len b = scr_w s * scr_h s → 1 ≤ scr_w s < wm_stride s → 2 ≤ scr_h s →
  wm_stride s * scr_h s < 2 ^ 32 → owt_draw_pixel (scr_w s - 1) (scr_h s - 1) color s = None.
Proof.
  intros Hb Hl Hw Hh Hf. unfold owt_draw_pixel, bind, gets, id. rewrite Hb.
  replace (_ || _) with false by test_lia. cbv zeta. unfold wm_get_stride. assert (wm_stride s < 2 ^ 32) by nia.
  rewrite (u32_small (wm_stride s)), u32_small by nia. unfold assert_, in_surface. rewrite Hl.
  replace (_ && _) with false; [done|]. symmetry. apply andb_false_iff. right. apply Z.ltb_ge. nia.
Qed.

(** [vesa_flush] copies two words for every pixel: it never ends inside a framebuffer
    that is as large as its rows. *)
Theorem vesa_flush_overruns (s : vesa) b :
  g_fb s = true → g_backbuffer s = Some b → sf_len (fb_front s) = fb_pitch s * fb_height s / 4 →
  0 < sf_len (fb_front s) → vesa_flush s = None.
Proof.
  intros Hon Hb Hl Hpos. unfold vesa_flush, bind, gets, id. rewrite Hon, Hb. rewrite <-Hl.
  set (n := sf_len (fb_front s)) in *. destruct (fast_memcpy32 n s) as [[[] s']|] eqn:E; [exfalso|done]. revert E.
  enough (wlp (fast_memcpy32 n) s (λ _ _, False)) as Hw by apply Hw. unfold fast_memcpy32.
  eapply wlp_mono; [apply (wlp_for_up (λ i s1, sf_len (fb_front s1) = n ∧ g_backbuffer s1 = Some b ∧ i ≤ n))|].
  - split_and!; [done|done|lia].
  - intros i s1 Hi (Hn & Hb1 & Hle). apply wlp_bind, wlp_gets. unfold id. rewrite Hb1. apply wlp_bind, wlp_assert.
    intros Ha. apply wlp_modify. unfold in_surface in Ha. cbn [fb_front set_front sf_len put_px g_backbuffer]. split_and!; [done|done|lia].
  - intros [] s1 (_ & _ & Hle). lia.
Qed.
