(* ===== verification/Owt.v ===== *)
(** * Owt: the window toolkit, [OvsbMk/lib/owt/]

    Widgets are records in a store by address; what each file adds to the base widget is
    a case of [kind], which also stands for the function pointer [draw] its constructor
    sets.  A constructor takes the address [kmalloc] gave, 0 if none, and what the block
    held where the code does not set it.  Callbacks of the application are events in a
    list.  Arrays of strings are lists of strings, the buffer of a text box is an array of
    256 characters.  Drawing is on the window manager of [Gfx]. *)

From Stdlib Require Import ZArith Lia.
From stdpp Require Import gmap list prelude.
From S2P Require Import Prelude Gfx.

Open Scope Z_scope.

(** ** Themes *)

Record theme := mkTheme {
  bg_primary : Z; bg_secondary : Z; bg_button : Z; bg_button_hover : Z; bg_button_pressed : Z;
  text_primary : Z; text_secondary : Z; accent : Z; border : Z; border_radius : Z }.

Definition THEME_DARK : theme :=
  mkTheme 0xFF1A1A2E 0xFF16213E 0xFF0F3460 0xFF1A5276 0xFF0A2647 0xFFFFFFFF 0xFFCCCCCC 0xFF533483 0xFF333366 6.
Definition THEME_LIGHT : theme :=
  mkTheme 0xFFF0F0F0 0xFFE0E0E0 0xFFD0D0D0 0xFFC0C0C0 0xFFB0B0B0 0xFF000000 0xFF333333 0xFF0044AA 0xFF999999 6.

(** ** Widgets *)

Inductive kind :=
  | Window (title : list Z) (content : Z)
  | Button (text : list Z) (is_pressed is_hovered : Z) (on_click : bool)
  | Textbox (buffer : list Z) (cursor_pos max_length : Z) (on_enter : bool)
  | Combobox (items : list (list Z)) (selected_index is_open : Z) (on_select : bool)
  | Listview (items : list (list Z)) (selected_index scroll_offset : Z) (on_select : bool)
  | Menu (items : list (list Z)) (hover_index is_open : Z) (on_action : bool)
  | Statusbar (text : list Z)
  | Label (text : list Z).

(** [children] are the first [child_count] entries of the array. *)
Record widget := mkWidget {
  wx : Z; wy : Z; ww : Z; wh : Z; wvisible : Z; enabled : Z; parent : Z; children : list Z; wkind : kind }.

Definition with_kind (k : kind) (w : widget) : widget :=
  mkWidget (wx w) (wy w) (ww w) (wh w) (wvisible w) (enabled w) (parent w) (children w) k.
Definition with_parent (p : Z) (w : widget) : widget :=
  mkWidget (wx w) (wy w) (ww w) (wh w) (wvisible w) (enabled w) p (children w) (wkind w).
Definition with_children (c : list Z) (w : widget) : widget :=
  mkWidget (wx w) (wy w) (ww w) (wh w) (wvisible w) (enabled w) (parent w) c (wkind w).

(** A callback: the widget, and the index or -1. *)
Record call := mkCall { call_widget : Z; call_index : Z }.

Record owt := mkOwt { o_wm : wm; o_theme : theme; o_widgets : gmap Z widget; o_calls : list call }.

Definition set_wm (v : wm) (s : owt) : owt := mkOwt v (o_theme s) (o_widgets s) (o_calls s).
Definition set_widgets (v : gmap Z widget) (s : owt) : owt := mkOwt (o_wm s) (o_theme s) v (o_calls s).

Abbreviation O := (M owt).

Definition owt_theme_set (t : theme) : O unit := modify (λ s, mkOwt (o_wm s) t (o_widgets s) (o_calls s)).
Definition owt_theme_get : O theme := gets o_theme.

(** An access through a pointer. *)
Definition widget_at (p : Z) : O widget :=
  let! w := gets (λ s, o_widgets s !! p) in match w with Some w => ret w | None => stuck end.
Definition widget_set (p : Z) (w : widget) : O unit := modify (λ s, set_widgets (<[p := w]> (o_widgets s)) s).
Definition callback (set : bool) (p i : Z) : O unit :=
  if set then modify (λ s, mkOwt (o_wm s) (o_theme s) (o_widgets s) (o_calls s ++ [mkCall p i])) else skip.

(** ** owt_base.c *)

Definition OWT_MAX_CHILDREN : Z := 16.

Definition owt_widget_alloc (p x y w h : Z) (k : kind) : O Z :=
  if p =? 0 then ret 0 else widget_set p (mkWidget x y w h 1 1 0 [] k) ;! ret p.

Definition owt_widget_add_child (p child : Z) : O unit :=
  let! w := widget_at p in
  if Z.of_nat (length (children w)) <? OWT_MAX_CHILDREN then
    widget_set p (with_children (children w ++ [child]) w) ;!
    let! c := widget_at child in
    widget_set child (with_parent p c)
  else skip.

(** ** Drawing *)

Definition rect (x y w h color : Z) : O unit := zoom o_wm set_wm (owt_draw_rect (s32 x) (s32 y) (s32 w) (s32 h) color).
Definition text_at (x y : Z) (text : list Z) (color : Z) : O unit :=
  zoom o_wm set_wm (owt_draw_text (s32 x) (s32 y) text color).

Fixpoint each_ {A} (l : list A) (i : Z) (f : Z → A → O unit) : O unit :=
  match l with [] => skip | a :: l' => f i a ;! each_ l' (i + 1) f end.

(** Four lines around a box of 24 points. *)
Definition box24 (w : widget) (t : theme) : O unit :=
  rect (wx w) (wy w) (ww w) 24 (bg_secondary t) ;!
  rect (wx w) (wy w) (ww w) 1 (border t) ;!
  rect (wx w) (wy w + 23) (ww w) 1 (border t) ;!
  rect (wx w) (wy w) 1 24 (border t) ;!
  rect (wx w + ww w - 1) (wy w) 1 24 (border t).

(** The part of [window_draw] before the content. *)
Definition window_frame (w : widget) (title : list Z) : O unit :=
  let! t := owt_theme_get in
  rect (wx w) (wy w) (ww w) (wh w) (bg_primary t) ;!
  rect (wx w) (wy w) (ww w) 24 (accent t) ;!
  text_at (wx w + 8) (wy w + 4) title (text_primary t) ;!
  rect (wx w + ww w - 20) (wy w + 4) 16 16 0xFFCC2222 ;!
  text_at (wx w + ww w - 16) (wy w + 3) [120] (text_primary t).

Definition button_draw (w : widget) (text : list Z) (is_pressed is_hovered : Z) : O unit :=
  let! t := owt_theme_get in
  let bg := if nz is_pressed then bg_button_pressed t else if nz is_hovered then bg_button_hover t else bg_button t in
  rect (wx w) (wy w) (ww w) (wh w) bg ;!
  rect (wx w) (wy w) (ww w) 1 (border t) ;!
  rect (wx w) (wy w + wh w - 1) (ww w) 1 (border t) ;!
  rect (wx w) (wy w) 1 (wh w) (border t) ;!
  rect (wx w + ww w - 1) (wy w) 1 (wh w) (border t) ;!
  let text_w := 8 * Z.of_nat (length text) in
  text_at (wx w + Z.quot (s32 (ww w - text_w)) 2) (wy w + Z.quot (s32 (wh w - 16)) 2) text (text_primary t).

(** The string in the array. *)
Fixpoint string_in (l : list Z) : list Z := match l with [] => [] | c :: l' => if c =? 0 then [] else c :: string_in l' end.

Definition textbox_draw (w : widget) (buffer : list Z) (cursor_pos : Z) : O unit :=
  let! t := owt_theme_get in
  box24 w t ;!
  text_at (wx w + 4) (wy w + 4) (string_in buffer) (text_primary t) ;!
  rect (wx w + 4 + cursor_pos * 8) (wy w + 4) 8 16 (accent t).

(** ["Selecione..."] *)
Definition selecione : list Z := [83; 101; 108; 101; 99; 105; 111; 110; 101; 46; 46; 46].

Definition combobox_draw (w : widget) (items : list (list Z)) (selected_index is_open : Z) : O unit :=
  let! t := owt_theme_get in
  let count := Z.of_nat (length items) in
  box24 w t ;!
  text_at (wx w + ww w - 20) (wy w + 4) [118] (text_primary t) ;!
  (if (0 <=? selected_index) && (selected_index <? count)
   then text_at (wx w + 4) (wy w + 4) (default [] (items !! Z.to_nat selected_index)) (text_primary t)
   else text_at (wx w + 4) (wy w + 4) selecione (text_secondary t)) ;!
  if nz is_open then
    rect (wx w) (wy w + 24) (ww w) (count * 24) (bg_primary t) ;!
    each_ items 0 (λ i item,
      rect (wx w) (wy w + 24 + i * 24) (ww w) 24 (if i =? selected_index then accent t else bg_secondary t) ;!
      text_at (wx w + 4) (wy w + 28 + i * 24) item (text_primary t))
  else skip.

(** Items from [scroll_offset] on, [visible] at most; a negative index is outside the
    array. *)
Fixpoint list_rows (n : nat) (i : Z) (w : widget) (items : list (list Z)) (selected scroll : Z) : O unit :=
  match n with
  | Datatypes.O => skip
  | Datatypes.S n' =>
      let idx := s32 (i + scroll) in
      if idx <? Z.of_nat (length items) then
        assert_ (0 <=? idx) ;!
        let! t := owt_theme_get in
        let item := default [] (items !! Z.to_nat idx) in
        let y := wy w + 2 + i * 20 in
        (if idx =? selected then
           rect (wx w + 2) y (ww w - 4) 18 (accent t) ;!
           text_at (wx w + 6) (y + 2) item (text_primary t)
         else text_at (wx w + 6) (y + 2) item (text_secondary t)) ;!
        list_rows n' (i + 1) w items selected scroll
      else skip
  end.
Definition listview_draw (w : widget) (items : list (list Z)) (selected scroll : Z) : O unit :=
  let! t := owt_theme_get in
  rect (wx w) (wy w) (ww w) (wh w) (bg_secondary t) ;!
  list_rows (Z.to_nat (Z.quot (s32 (wh w - 4)) 20)) 0 w items selected scroll.

(** The labels in a row: [cx] moves on. *)
Fixpoint menu_bar (cx : Z) (w : widget) (items : list (list Z)) (color : Z) : O unit :=
  match items with
  | [] => skip
  | item :: items' =>
      if bool_decide (head item = Some 45) then menu_bar (s32 (cx + 16)) w items' color
      else text_at cx (wy w + 3) item color ;!
           menu_bar (s32 (cx + (Z.of_nat (length item) * 8 + 16))) w items' color
  end.
Definition menu_draw (w : widget) (items : list (list Z)) (hover_index is_open : Z) : O unit :=
  let! t := owt_theme_get in
  rect (wx w) (wy w) (ww w) 22 (bg_secondary t) ;!
  rect (wx w) (wy w + 21) (ww w) 1 (border t) ;!
  menu_bar (s32 (wx w + 4)) w items (text_primary t) ;!
  if nz is_open then
    rect (wx w) (wy w + 22) 150 (Z.of_nat (length items) * 22) (bg_primary t) ;!
    each_ items 0 (λ i item,
      rect (wx w) (wy w + 22 + i * 22) 150 22 (if i =? hover_index then accent t else bg_primary t) ;!
      text_at (wx w + 4) (wy w + 25 + i * 22) item (text_primary t))
  else skip.

Definition statusbar_draw (w : widget) (text : list Z) : O unit :=
  let! t := owt_theme_get in
  rect (wx w) (wy w) (ww w) 20 (bg_secondary t) ;!
  rect (wx w) (wy w) (ww w) 1 (border t) ;!
  text_at (wx w + 4) (wy w + 3) text (text_secondary t).
Definition label_draw (w : widget) (text : list Z) : O unit :=
  let! t := owt_theme_get in text_at (wx w) (wy w) text (text_primary t).

(** [owt_widget_draw], [n] calls deep at most. *)
Fixpoint owt_widget_draw (n : nat) (p : Z) : O unit :=
  match n with
  | Datatypes.O => stuck
  | Datatypes.S n' =>
      if p =? 0 then skip else
      let! w := widget_at p in
      if negb (nz (wvisible w)) then skip else
      (match wkind w with
       | Window title content => window_frame w title ;! (if nz content then owt_widget_draw n' content else skip)
       | Button text pressed hovered _ => button_draw w text pressed hovered
       | Textbox buffer cursor _ _ => textbox_draw w buffer cursor
       | Combobox items selected is_open _ => combobox_draw w items selected is_open
       | Listview items selected scroll _ => listview_draw w items selected scroll
       | Menu items hover is_open _ => menu_draw w items hover is_open
       | Statusbar text => statusbar_draw w text
       | Label text => label_draw w text
       end) ;!
      (fix kids (l : list Z) : O unit := match l with [] => skip | c :: l' => owt_widget_draw n' c ;! kids l' end) (children w)
  end.

(** ** Windows, labels, status bars *)

Definition owt_window_create (p held : Z) (title : list Z) (x y w h : Z) : O Z :=
  owt_widget_alloc p x y w h (Window (take 127 title) held).
Definition owt_window_set_content (win content : Z) : O unit :=
  if (win =? 0) || (content =? 0) then skip else
  let! w := widget_at win in
  match wkind w with
  | Window title _ =>
      widget_set win (with_kind (Window title content) w) ;!
      let! c := widget_at content in
      widget_set content (with_parent win c)
  | _ => stuck
  end.
Definition owt_window_draw (n : nat) (win : Z) : O unit := owt_widget_draw n win.

Definition owt_label_create (p : Z) (text : list Z) (x y : Z) : O Z := owt_widget_alloc p x y 200 20 (Label (take 255 text)).
Definition owt_label_set_text (p : Z) (text : list Z) : O unit :=
  let! w := widget_at p in
  match wkind w with Label _ => widget_set p (with_kind (Label (take 255 text)) w) | _ => stuck end.

(** ["Pronto"] *)
Definition owt_statusbar_create (p x y w : Z) : O Z := owt_widget_alloc p x y w 20 (Statusbar [80; 114; 111; 110; 116; 111]).
Definition owt_statusbar_set_text (p : Z) (text : list Z) : O unit :=
  let! w := widget_at p in
  match wkind w with Statusbar _ => widget_set p (with_kind (Statusbar (take 255 text)) w) | _ => stuck end.

(** ** Buttons *)

Definition owt_button_create (p : Z) (text : list Z) (x y w h : Z) : O Z :=
  owt_widget_alloc p x y w h (Button (take 127 text) 0 0 false).
Definition owt_button_set_text (p : Z) (text : list Z) : O unit :=
  let! w := widget_at p in
  match wkind w with Button _ a b c => widget_set p (with_kind (Button (take 127 text) a b c) w) | _ => stuck end.
Definition owt_button_is_hovered (p mx my : Z) : O bool :=
  let! w := widget_at p in
  ret ((wx w <=? mx) && (mx <? s32 (wx w + ww w)) && (wy w <=? my) && (my <? s32 (wy w + wh w))).
Definition owt_button_click (p : Z) : O unit :=
  let! w := widget_at p in
  match wkind w with Button _ _ _ cb => callback cb p (-1) | _ => stuck end.

(** ** Text boxes *)

(** [junk]: what the 256 characters were. *)
Definition owt_textbox_create (p : Z) (junk : list Z) (x y w : Z) : O Z :=
  owt_widget_alloc p x y w 24 (Textbox (<[0%nat := 0]> junk) 0 30 false).

Definition owt_textbox_set_text (p : Z) (text : list Z) : O unit :=
  let! w := widget_at p in
  match wkind w with
  | Textbox b _ m cb =>
      let t := take 255 text in
      widget_set p (with_kind (Textbox (t ++ 0 :: drop (S (length t)) b) (Z.of_nat (length t)) m cb) w)
  | _ => stuck
  end.
Definition owt_textbox_get_text (p : Z) : O (list Z) :=
  let! w := widget_at p in match wkind w with Textbox b _ _ _ => ret (string_in b) | _ => stuck end.

(** [for (i = cursor; i < 256; i++) buffer\[i-1\] = buffer\[i\];] *)
Fixpoint shift_down (n i : nat) (b : list Z) : list Z :=
  match n with
  | Datatypes.O => b
  | Datatypes.S n' => shift_down n' (S i) (<[(i - 1)%nat := default 0 (b !! i)]> b)
  end.
(** [for (i = len + 1; i > cursor; i--) buffer\[i\] = buffer\[i-1\];] *)
Fixpoint shift_up (n i : nat) (b : list Z) : list Z :=
  match n with
  | Datatypes.O => b
  | Datatypes.S n' => shift_up n' (i - 1) (<[i := default 0 (b !! (i - 1)%nat)]> b)
  end.

Definition owt_textbox_key (p key : Z) : O unit :=
  let! w := widget_at p in
  match wkind w with
  | Textbox b cursor m cb =>
      if key =? 8 then
        if 0 <? cursor then
          let i := Z.to_nat cursor in
          widget_set p (with_kind (Textbox (shift_down (256 - i) i b) (cursor - 1) m cb) w)
        else skip
      else if key =? 10 then callback cb p (-1)
      else if 32 <=? key then
        let len := length (string_in b) in
        assert_ (Z.of_nat len <? 256) ;!
        if Z.of_nat len <? m then
          assert_ ((Z.of_nat len + 1 <? 256) && (0 <=? cursor) && (cursor <? 256)) ;!
          let i := Z.to_nat cursor in
          widget_set p (with_kind (Textbox (<[i := key]> (shift_up (S len - i) (S len) b)) (cursor + 1) m cb) w)
        else skip
      else skip
  | _ => stuck
  end.

(** ** Combo boxes, lists and menus *)

(** A new string in the array of [max] rows of 64 characters. *)
Definition add_row (max : Z) (items : list (list Z)) (item : list Z) : list (list Z) :=
  if max <=? Z.of_nat (length items) then items else items ++ [take 63 item].

Definition owt_combobox_create (p x y w : Z) : O Z := owt_widget_alloc p x y w 24 (Combobox [] (-1) 0 false).
Definition owt_combobox_add_item (p : Z) (item : list Z) : O unit :=
  let! w := widget_at p in
  match wkind w with Combobox l a b c => widget_set p (with_kind (Combobox (add_row 16 l item) a b c) w) | _ => stuck end.

(** The string of the row that is selected, or null. *)
Definition selected_row (items : list (list Z)) (i : Z) : option (list Z) :=
  if (0 <=? i) && (i <? Z.of_nat (length items)) then items !! Z.to_nat i else None.
Definition owt_combobox_get_selected (p : Z) : O (option (list Z)) :=
  let! w := widget_at p in match wkind w with Combobox l i _ _ => ret (selected_row l i) | _ => stuck end.

Definition owt_combobox_click (p mouse_y : Z) : O unit :=
  let! w := widget_at p in
  match wkind w with
  | Combobox l sel is_open cb =>
      if negb (nz is_open) then widget_set p (with_kind (Combobox l sel 1 cb) w) else
      let index := Z.quot (s32 (mouse_y - wy w - 24)) 24 in
      let hit := (0 <=? index) && (index <? Z.of_nat (length l)) in
      let sel := if hit then index else sel in
      widget_set p (with_kind (Combobox l sel is_open cb) w) ;!
      (if hit then callback cb p index else skip) ;!
      widget_set p (with_kind (Combobox l sel 0 cb) w)
  | _ => stuck
  end.

Definition owt_listview_create (p x y w h : Z) : O Z := owt_widget_alloc p x y w h (Listview [] (-1) 0 false).
Definition owt_listview_add_item (p : Z) (item : list Z) : O unit :=
  let! w := widget_at p in
  match wkind w with Listview l a b c => widget_set p (with_kind (Listview (add_row 32 l item) a b c) w) | _ => stuck end.
Definition owt_listview_clear (p : Z) : O unit :=
  let! w := widget_at p in
  match wkind w with Listview _ _ b c => widget_set p (with_kind (Listview [] (-1) b c) w) | _ => stuck end.
Definition owt_listview_get_selected (p : Z) : O (option (list Z)) :=
  let! w := widget_at p in match wkind w with Listview l i _ _ => ret (selected_row l i) | _ => stuck end.
Definition owt_listview_click (p mouse_y : Z) : O unit :=
  let! w := widget_at p in
  match wkind w with
  | Listview l sel scroll cb =>
      let index := s32 (Z.quot (s32 (mouse_y - wy w - 2)) 20 + scroll) in
      if (0 <=? index) && (index <? Z.of_nat (length l)) then
        widget_set p (with_kind (Listview l index scroll cb) w) ;! callback cb p index
      else skip
  | _ => stuck
  end.

Definition owt_menu_create (p x y w : Z) : O Z := owt_widget_alloc p x y w 22 (Menu [] (-1) 0 false).
Definition owt_menu_add_item (p : Z) (label : list Z) : O unit :=
  let! w := widget_at p in
  match wkind w with Menu l a b c => widget_set p (with_kind (Menu (add_row 16 l label) a b c) w) | _ => stuck end.
Definition owt_menu_add_separator (p : Z) : O unit :=
  let! w := widget_at p in
  match wkind w with Menu l a b c => widget_set p (with_kind (Menu (add_row 16 l [45]) a b c) w) | _ => stuck end.
Definition owt_menu_click (p mouse_y : Z) : O unit :=
  let! w := widget_at p in
  match wkind w with
  | Menu l hover is_open cb =>
      if negb (nz is_open) then widget_set p (with_kind (Menu l hover 1 cb) w) else
      let index := Z.quot (s32 (mouse_y - wy w - 22)) 22 in
      (if (0 <=? index) && (index <? Z.of_nat (length l)) then callback cb p index else skip) ;!
      widget_set p (with_kind (Menu l hover 0 cb) w)
  | _ => stuck
  end.

(** ** Dialogs *)

(** The part the two dialogs share. *)
Definition dialog_frame (title message : list Z) (dx dy : Z) : O unit :=
  let! t := owt_theme_get in
  let! s := gets o_wm in
  rect 0 0 (scr_w s) (scr_h s) 0x80000000 ;!
  rect dx dy 350 150 (bg_primary t) ;!
  rect dx dy 350 28 (accent t) ;!
  text_at (dx + 10) (dy + 6) title (text_primary t) ;!
  text_at (dx + 10) (dy + 45) message (text_secondary t).

Definition dialog_x : O Z := let! s := gets o_wm in ret (Z.quot (s32 (scr_w s - 350)) 2).
Definition dialog_y : O Z := let! s := gets o_wm in ret (Z.quot (s32 (scr_h s - 150)) 2).

Definition owt_dialog_message (title message : list Z) : O unit :=
  let! dx := dialog_x in
  let! dy := dialog_y in
  dialog_frame title message dx dy ;!
  let! t := owt_theme_get in
  let bx := dx + 350 / 2 - 40 in
  let by_ := dy + 150 - 45 in
  rect bx by_ 80 30 (accent t) ;!
  text_at (bx + 25) (by_ + 8) [79; 75] (text_primary t).

Definition owt_dialog_confirm (title message : list Z) : O Z :=
  let! dx := dialog_x in
  let! dy := dialog_y in
  dialog_frame title message dx dy ;!
  let! t := owt_theme_get in
  rect (dx + 50) (dy + 150 - 45) 80 30 (accent t) ;!
  text_at (dx + 70) (dy + 150 - 37) [83; 105; 109] (text_primary t) ;!
  rect (dx + 350 - 130) (dy + 150 - 45) 80 30 (bg_secondary t) ;!
  text_at (dx + 350 - 105) (dy + 150 - 37) [78; 97; 111] (text_primary t) ;!
  ret 1.

(** ** owt_app.c: the demonstration, with the addresses of five blocks; its line on the
    console is left out *)

Definition owt_demo (n : nat) (win lbl btn input sb held : Z) (junk : list Z) : O unit :=
  let! t := owt_theme_get in
  let! s := gets o_wm in
  rect 0 0 (scr_w s) (scr_h s) (bg_primary t) ;!
  let! win := owt_window_create win held [79; 87; 84; 32; 68; 101; 109; 111] 50 50 400 300 in
  let! lbl := owt_label_create lbl [66; 101; 109; 45; 118; 105; 110; 100; 111; 32; 97; 111; 32; 79; 87; 84; 33] 80 40 in
  let! btn := owt_button_create btn [67; 108; 105; 113; 117; 101; 32; 65; 113; 117; 105] 120 100 150 35 in
  let! input := owt_textbox_create input junk 50 160 300 in
  let! sb := owt_statusbar_create sb 0 280 400 in
  owt_window_set_content win lbl ;!
  owt_widget_add_child win btn ;!
  owt_widget_add_child win input ;!
  owt_widget_add_child win sb ;!
  owt_window_draw n win ;!
  zoom o_wm set_wm wm_flush.
