(* ===== verification/OwtProof.v ===== *)
(** * OwtProof: the window toolkit

    A text box edits a text at a cursor.  A tree of widgets is drawn completely and only
    inside the buffer.  What a click selects, and a click above the items. *)

From Stdlib Require Import ZArith Lia.
From stdpp Require Import gmap list prelude.
From S2P Require Import Prelude Gfx GfxProof Owt.

Open Scope Z_scope.

(** ** The array of a text box *)

Lemma shift_down_spec n i b : (0 < i)%nat → (i + n = length b)%nat →
  shift_down n i b = take (i - 1) b ++ drop i b ++ drop (length b - 1) b.
Proof.
  revert i b. induction n as [|n IH]; intros i b Hi Hn; cbn [shift_down].
  - replace (length b) with i by lia. rewrite drop_ge by lia. cbn [app]. by rewrite take_drop.
  - rewrite IH by (rewrite ?length_insert; lia). rewrite length_insert.
    destruct (lookup_lt_is_Some_2 b i) as [c Hc]; [lia|]. rewrite Hc. cbn [default].
    rewrite drop_insert_lt by lia. replace (drop (length b - 1) (<[(i - 1)%nat:=c]> b)) with (drop (length b - 1) b)
      by (rewrite drop_insert_lt by lia; done).
    replace (S i - 1)%nat with (S (i - 1)) by lia. rewrite (take_S_r _ _ c) by (rewrite list_lookup_insert_eq by lia; done).
    rewrite take_insert_ge by lia. rewrite (drop_S b c i) by done. by rewrite <-app_assoc.
Qed.

Lemma shift_up_insert pre mid e rest k :
  <[length pre := k]> (shift_up (length mid) (length pre + length mid) (pre ++ mid ++ e :: rest)) = pre ++ k :: mid ++ rest.
Proof.
  revert e rest. induction mid as [|z mid IH] using rev_ind; intros e rest.
  - cbn [length shift_up app]. rewrite <-(Nat.add_0_r (length pre)) at 1. by rewrite insert_app_r.
  - replace (length (mid ++ [z])) with (S (length mid)) by (rewrite length_app; cbn; lia). cbn [shift_up].
    replace (length pre + S (length mid) - 1)%nat with (length pre + length mid)%nat by lia.
    rewrite <-!app_assoc. cbn [app]. rewrite app_assoc.
    rewrite lookup_app_r by (rewrite length_app; lia). rewrite length_app, Nat.sub_diag. cbn [lookup list_lookup default].
    replace (length pre + S (length mid))%nat with (length (pre ++ mid) + 1)%nat by (rewrite length_app; lia).
    rewrite insert_app_r. cbn [insert list_insert]. rewrite <-app_assoc. unfold id. rewrite (IH z (z :: rest)). done.
Qed.

(** ** Editing at a cursor *)

(** The text before and after the cursor. *)
Record editor := mkEditor { before : list Z; after_ : list Z }.

Definition edit (max : Z) (e : editor) (key : Z) : editor :=
  if key =? 8 then mkEditor (removelast (before e)) (after_ e)
  else if key =? 10 then e
  else if (32 <=? key) && (Z.of_nat (length (before e) + length (after_ e)) <? max)
  then mkEditor (before e ++ [key]) (after_ e) else e.

(** The array and the cursor hold them. *)
Definition holds (b : list Z) (cursor : Z) (e : editor) : Prop :=
  cursor = Z.of_nat (length (before e)) ∧ Forall (.≠ 0) (before e) ∧ Forall (.≠ 0) (after_ e) ∧ length b = 256%nat ∧
  ∃ rest, b = before e ++ after_ e ++ 0 :: rest.

Lemma string_in_zero l r : Forall (.≠ 0) l → string_in (l ++ 0 :: r) = l.
Proof.
  induction 1 as [|c l Hc Hl IH]; [done|]. cbn [string_in app]. rewrite (proj2 (Z.eqb_neq c 0)) by done. by rewrite IH.
Qed.
Lemma holds_text b cursor e : holds b cursor e → string_in b = before e ++ after_ e.
Proof. intros (_ & Hb & Ha & _ & rest & ->). rewrite app_assoc. apply string_in_zero. by apply Forall_app. Qed.

Lemma holds_backspace b cursor e : holds b cursor e → 0 < cursor →
  holds (shift_down (256 - Z.to_nat cursor) (Z.to_nat cursor) b) (cursor - 1) (mkEditor (removelast (before e)) (after_ e)).
Proof.
  intros (Hc & Hb & Ha & Hl & rest & Eb) Hpos. destruct e as [bf af]. cbn [before after_] in *.
  destruct bf as [|c bf _] using rev_ind; [cbn in Hc; lia|]. rewrite removelast_last.
  apply Forall_app in Hb as [Hb _]. rewrite length_app in Hc. cbn [length] in Hc.
  replace (Z.to_nat cursor) with (S (length bf)) by lia.
  assert (S (length bf) ≤ 256)%nat by (rewrite <-Hl, Eb, !length_app; cbn; lia).
  rewrite shift_down_spec by lia. set (tl := drop (length b - 1) b). assert (length tl = 1%nat) as Htl by (unfold tl; rewrite length_drop; lia).
  clearbody tl. replace (S (length bf) - 1)%nat with (length bf) by lia. subst b. rewrite <-app_assoc in *. cbn [app] in *.
  rewrite take_app_length. replace (drop (S (length bf)) (bf ++ c :: af ++ 0 :: rest)) with (af ++ 0 :: rest)
    by (replace (S (length bf)) with (length bf + 1)%nat by lia; by rewrite drop_app_add).
  split; [cbn; lia|]. split; [done|]. split; [done|]. split.
  - rewrite !length_app in *. cbn [length] in *. rewrite !length_app in *. cbn [length] in *. lia.
  - exists (rest ++ tl). rewrite <-app_assoc. done.
Qed.

Lemma holds_insert b cursor e key : holds b cursor e → key ≠ 0 → Z.of_nat (length (before e) + length (after_ e)) ≤ 254 →
  let len := (length (before e) + length (after_ e))%nat in
  holds (<[Z.to_nat cursor := key]> (shift_up (S len - Z.to_nat cursor) (S len) b)) (cursor + 1) (mkEditor (before e ++ [key]) (after_ e)).
Proof.
  intros (Hc & Hb & Ha & Hl & rest & Eb) Hk Hlen len. destruct e as [bf af]. cbn [before after_] in *.
  assert (0 < length rest)%nat as Hr by (rewrite Eb, !length_app in Hl; cbn [length] in Hl; lia).
  destruct rest as [|e rest]; [cbn in Hr; lia|].
  assert (Z.to_nat cursor = length bf) as Ec by lia. rewrite Ec. subst b.
  replace (S len - length bf)%nat with (length (af ++ [0%Z])) by (rewrite length_app; cbn [length]; unfold len; lia).
  replace (S len) with (length bf + length (af ++ [0%Z]))%nat by (rewrite length_app; cbn [length]; unfold len; lia).
  replace (bf ++ af ++ 0 :: e :: rest) with (bf ++ (af ++ [0]) ++ e :: rest) by (by rewrite <-!app_assoc).
  rewrite shift_up_insert. split; [cbn [before]; rewrite length_app; cbn [length]; lia|].
  split; [cbn [before]; apply Forall_app; split; [done|by constructor]|]. split; [done|]. split.
  - rewrite !length_app in *. cbn [length] in *. rewrite !length_app in *. cbn [length] in *. lia.
  - exists rest. cbn [before after_]. by rewrite <-!app_assoc.
Qed.

(** A key that changes neither the text nor the cursor. *)
Definition key_done (p key m : Z) (cb : bool) (w : widget) (e : editor) (s s' : owt) : Prop :=
  ∃ b' cursor', o_widgets s' = <[p := with_kind (Textbox b' cursor' m cb) w]> (o_widgets s) ∧ holds b' cursor' (edit m e key) ∧
    o_calls s' = o_calls s ++ (if (key =? 10) && cb then [mkCall p (-1)] else []).

(** One key, on the widget at [p]. *)
Lemma textbox_key_run p key s w b cursor m cb e :
  o_widgets s !! p = Some w → wkind w = Textbox b cursor m cb → holds b cursor e → m ≤ 255 →
  wp (owt_textbox_key p key) s (λ _ s', key_done p key m cb w e s s').
Proof.
  intros Hw Hk He Hm. pose proof He as (Hc & Hb & Ha & Hl & rest & Eb).
  assert (∀ s', o_widgets s' = o_widgets s → edit m e key = e → o_calls s' = o_calls s ++ (if (key =? 10) && cb then [mkCall p (-1)] else []) →
    key_done p key m cb w e s s') as Hsame.
  { intros s' E1 E2 E3. exists b, cursor. rewrite E1, E2. split_and!; [|done|done]. symmetry. rewrite <-Hk. apply insert_id.
    rewrite Hw. by destruct w. }
  unfold owt_textbox_key, widget_at. apply wp_bind, wp_bind, wp_gets. rewrite Hw. apply wp_ret. rewrite Hk.
  destruct (Z.eqb_spec key 8) as [-> |N8].
  { destruct (Z.ltb_spec 0 cursor) as [Hp|Hp].
    - apply wp_modify. eexists _, _. split; [reflexivity|]. split; [by apply holds_backspace|]. cbn. by rewrite app_nil_r.
    - apply wp_skip, Hsame; [done| |by rewrite app_nil_r]. unfold edit. cbn. destruct e as [[] ?]; [done|cbn in *; lia]. }
  destruct (Z.eqb_spec key 10) as [-> |N10].
  { unfold callback. destruct cb; [apply wp_modify|apply wp_skip]; apply Hsame; try done. by rewrite app_nil_r. }
  assert (o_calls s = o_calls s ++ (if (key =? 10) && cb then [mkCall p (-1)] else [])) as Hcalls.
  { rewrite (proj2 (Z.eqb_neq key 10)) by done. by rewrite app_nil_r. }
  assert (string_in b = before e ++ after_ e) as Es by (by eapply holds_text).
  destruct (Z.leb_spec 32 key) as [Hkey|Hkey].
  2: { apply wp_skip, Hsame; [done| |by rewrite app_nil_r]. unfold edit. rewrite (proj2 (Z.eqb_neq key 8)), (proj2 (Z.eqb_neq key 10)), (proj2 (Z.leb_gt 32 key)) by done. done. }
  cbv zeta. rewrite Es, length_app. assert (length (before e) + length (after_ e) < 256)%nat.
  { rewrite <-Hl, Eb, !length_app. cbn. lia. }
  apply wp_bind, wp_assert; [apply Z.ltb_lt; lia|]. destruct (Z.ltb_spec (Z.of_nat (length (before e) + length (after_ e))) m) as [Hlt|Hge].
  - apply wp_bind, wp_assert; [rewrite !andb_true_iff, !Z.ltb_lt, Z.leb_le; lia|]. apply wp_modify. eexists _, _. split; [reflexivity|]. split; [|exact Hcalls].
    unfold edit. rewrite (proj2 (Z.eqb_neq key 8)), (proj2 (Z.eqb_neq key 10)), (proj2 (Z.leb_le 32 key)), (proj2 (Z.ltb_lt _ m)) by done.
    apply (holds_insert b cursor e key); [done|lia|lia].
  - apply wp_skip, Hsame; [done| |by rewrite app_nil_r]. unfold edit.
    rewrite (proj2 (Z.eqb_neq key 8)), (proj2 (Z.eqb_neq key 10)), (proj2 (Z.leb_le 32 key)), (proj2 (Z.ltb_ge _ m)) by done. done.
Qed.

(** Keys in their order. *)
Fixpoint type_keys (p : Z) (keys : list Z) : O unit :=
  match keys with [] => skip | k :: keys' => owt_textbox_key p k ;! type_keys p keys' end.

(** The callbacks of the keys: one for each Enter. *)
Definition enters (p : Z) (cb : bool) (keys : list Z) : list call :=
  keys ≫= λ k, if (k =? 10) && cb then [mkCall p (-1)] else [].

Definition box_holds (p m : Z) (cb : bool) (w : widget) (e : editor) (s : owt) : Prop :=
  ∃ b cursor, o_widgets s !! p = Some (with_kind (Textbox b cursor m cb) w) ∧ holds b cursor e.

Lemma type_keys_run p m cb w keys e s : box_holds p m cb w e s → m ≤ 255 →
  wp (type_keys p keys) s (λ _ s', box_holds p m cb w (foldl (edit m) e keys) s' ∧
    o_calls s' = o_calls s ++ enters p cb keys ∧ ∀ q, q ≠ p → o_widgets s' !! q = o_widgets s !! q).
Proof.
  revert e s. induction keys as [|k keys IH]; intros e s Hs Hm; cbn [type_keys].
  - apply wp_skip. split_and!; [done| |done]. by rewrite app_nil_r.
  - apply wp_bind. destruct Hs as (b & cursor & Hw & He).
    eapply wp_mono; [by eapply textbox_key_run|]. intros [] s1 (b1 & c1 & E1 & H1 & Ec). cbn [with_kind] in E1.
    eapply wp_mono; [apply IH; [|done]|].
    { exists b1, c1. split; [rewrite E1; apply lookup_insert_eq|exact H1]. }
    intros [] s2 (H2 & Ec2 & Hq). split_and!; [exact H2| |].
    + rewrite Ec2, Ec, <-app_assoc. done.
    + intros q Hne. rewrite Hq, E1 by done. by apply lookup_insert_ne.
Qed.

Lemma get_text_run p m cb w e s : box_holds p m cb w e s →
  wp (owt_textbox_get_text p) s (λ r s', s' = s ∧ r = before e ++ after_ e).
Proof.
  intros (b & cursor & Hw & He). unfold owt_textbox_get_text, widget_at. apply wp_bind, wp_bind, wp_gets.
  rewrite Hw. apply wp_ret. cbn [wkind with_kind]. apply wp_ret. split; [done|by eapply holds_text].
Qed.

Lemma set_text_run p text s w b cursor m cb :
  o_widgets s !! p = Some w → wkind w = Textbox b cursor m cb → length b = 256%nat → Forall (.≠ 0) text →
  wp (owt_textbox_set_text p text) s (λ _ s', box_holds p m cb w (mkEditor (take 255 text) []) s' ∧
    o_calls s' = o_calls s ∧ ∀ q, q ≠ p → o_widgets s' !! q = o_widgets s !! q).
Proof.
  intros Hw Hk Hl Ht. unfold owt_textbox_set_text, widget_at. apply wp_bind, wp_bind, wp_gets. rewrite Hw. apply wp_ret.
  rewrite Hk. apply wp_modify. split_and!; [|done|intros q Hq; by apply lookup_insert_ne].
  eexists _, _. split; [apply lookup_insert_eq|]. cbn [holds before after_]. split; [done|]. cbn [before after_].
  split; [by apply Forall_take|]. split; [constructor|]. split; [|by eexists].
  rewrite length_app. cbn [length]. rewrite length_drop, length_take. lia.
Qed.

(** C30: A text box is a text with a cursor.  After [owt_textbox_set_text] and any keys,
    [owt_textbox_get_text] gives what an editor that inserts and deletes at its cursor
    makes of them, with no more than [max_length] characters typed; [on_enter] is called
    once for each Enter, and no other widget changes.  Nothing is stored outside the
    array of 256. *)
Theorem textbox_edits p text keys s w b cursor m cb :
  o_widgets s !! p = Some w → wkind w = Textbox b cursor m cb → length b = 256%nat → m ≤ 255 → Forall (.≠ 0) text →
  wp (owt_textbox_set_text p text ;! type_keys p keys ;! owt_textbox_get_text p) s (λ r s',
    let e := foldl (edit m) (mkEditor (take 255 text) []) keys in
    r = before e ++ after_ e ∧ box_holds p m cb w e s' ∧ o_calls s' = o_calls s ++ enters p cb keys ∧
    ∀ q, q ≠ p → o_widgets s' !! q = o_widgets s !! q).
Proof.
  intros Hw Hk Hl Hm Ht. apply wp_bind. eapply wp_mono; [by eapply set_text_run|]. intros [] s1 (H1 & Ec1 & Hq1).
  apply wp_bind. eapply wp_mono; [by apply type_keys_run|]. intros [] s2 (H2 & Ec2 & Hq2).
  eapply wp_mono; [by eapply get_text_run|]. intros r ? [-> ->]. split_and!; [done|done| |].
  - by rewrite Ec2, Ec1.
  - intros q Hq. rewrite Hq2, Hq1 by done. done.
Qed.

(** A box as it is created, in memory that held 7s. *)
Definition new_box : widget := mkWidget 0 0 100 24 1 1 0 [] (Textbox (0 :: replicate 255 7) 0 30 true).
Definition one_box : owt := mkOwt small_wm THEME_DARK {[ 4096 := new_box ]} [].

Lemma textbox_edits_witness :
  ∃ s', (owt_textbox_set_text 4096 [72; 105] ;! type_keys 4096 [8; 97; 10; 98] ;! owt_textbox_get_text 4096) one_box =
    Some ([72; 97; 98], s') ∧ o_calls s' = [mkCall 4096 (-1)].
Proof.
  destruct (textbox_edits 4096 [72; 105] [8; 97; 10; 98] one_box new_box (0 :: replicate 255 7) 0 30 true)
    as (r & s' & E & Hr & _ & Hc & _); [reflexivity|reflexivity|reflexivity|lia|repeat constructor; lia|].
  exists s'. rewrite E. split; [|exact Hc]. vm_compute in Hr. by rewrite Hr.
Defined.

(** ** Drawing *)

(** Only pixels change. *)
Definition drawn (s s' : owt) : Prop :=
  wm_ok (o_wm s') ∧ wm_geom (o_wm s') = wm_geom (o_wm s) ∧
  o_theme s' = o_theme s ∧ o_widgets s' = o_widgets s ∧ o_calls s' = o_calls s.

(** Code that draws, from any window manager with its buffers. *)
Definition draws (m : O unit) : Prop := ∀ s, wm_ok (o_wm s) → wp m s (λ _ s', drawn s s').

Lemma drawn_refl s : wm_ok (o_wm s) → drawn s s.
Proof. by unfold drawn. Qed.
Lemma drawn_trans s1 s2 s3 : drawn s1 s2 → drawn s2 s3 → drawn s1 s3.
Proof. intros (_ & ? & ? & ? & ?) (? & ? & ? & ? & ?). split_and!; congruence. Qed.

Lemma draws_skip : draws skip.
Proof. intros s Hs. by apply wp_skip, drawn_refl. Qed.
Lemma draws_seq m1 m2 : draws m1 → draws m2 → draws (m1 ;! m2).
Proof.
  intros H1 H2 s Hs. apply wp_bind. eapply wp_mono; [by apply H1|]. intros [] s1 D1.
  eapply wp_mono; [by apply H2, D1|]. intros [] s2 D2. by eapply drawn_trans.
Qed.
Lemma draws_get {A} (f : owt → A) k : (∀ a, draws (k a)) → draws (let! a := gets f in k a).
Proof. intros Hk s Hs. apply wp_bind, wp_gets. by apply Hk. Qed.
Lemma draws_if (b : bool) m1 m2 : draws m1 → draws m2 → draws (if b then m1 else m2).
Proof. by destruct b. Qed.

(** On the window manager alone. *)
Definition paints (m : W unit) : Prop := ∀ s, wm_ok s → wp m s (λ _ s', wm_ok s' ∧ wm_geom s' = wm_geom s).

Lemma paints_pixel x y color : paints (owt_draw_pixel x y color).
Proof. intros s Hs. eapply wp_mono; [by apply wm_pixel_spec|]. by intros [] s' (? & ? & _). Qed.
Lemma paints_skip : paints skip.
Proof. intros s Hs. by apply wp_skip. Qed.
Lemma paints_seq m1 m2 : paints m1 → paints m2 → paints (m1 ;! m2).
Proof.
  intros H1 H2 s Hs. apply wp_bind. eapply wp_mono; [by apply H1|]. intros [] s1 [D1 E1].
  eapply wp_mono; [by apply H2|]. intros [] s2 [D2 E2]. split; [done|congruence].
Qed.
Lemma paints_for body n lo : (∀ i, paints (body i)) → paints (for_up n lo body).
Proof.
  intros Hb s Hs. apply (wp_for_up (λ _ s', wm_ok s' ∧ wm_geom s' = wm_geom s)); [done|].
  intros i s' _ [H' E']. eapply wp_mono; [by apply Hb|]. intros [] s'' [? ?]. split; [done|congruence].
Qed.
Lemma paints_rect x y w h color : paints (owt_draw_rect x y w h color).
Proof. apply paints_for. intros i. apply paints_for. intros j. apply paints_pixel. Qed.
Lemma paints_char x y c color : paints (owt_draw_char x y c color).
Proof.
  unfold owt_draw_char. destruct (_ || _); [apply paints_skip|]. cbv zeta. apply paints_for. intros r. apply paints_for.
  intros cl. destruct (Z.testbit _ _); [apply paints_seq; apply paints_pixel|apply paints_skip].
Qed.
Lemma paints_text text x y color : paints (owt_draw_text x y text color).
Proof.
  revert x. induction text as [|c text IH]; intros x; cbn [owt_draw_text]; [apply paints_skip|].
  apply paints_seq; [apply paints_char|apply IH].
Qed.

Lemma draws_zoom m : paints m → draws (zoom o_wm set_wm m).
Proof. intros Hm s Hs. apply wp_zoom. eapply wp_mono; [by apply Hm|]. by intros [] t [? ?]. Qed.
Lemma draws_rect x y w h color : draws (rect x y w h color).
Proof. apply draws_zoom, paints_rect. Qed.
Lemma draws_text x y text color : draws (text_at x y text color).
Proof. apply draws_zoom, paints_text. Qed.
Lemma draws_each {A} (l : list A) i f : (∀ j a, draws (f j a)) → draws (each_ l i f).
Proof.
  intros Hf. revert i. induction l as [|a l IH]; intros i; cbn [each_]; [apply draws_skip|]. apply draws_seq; [apply Hf|apply IH].
Qed.

(** Straight code that draws. *)
Ltac draw := repeat match goal with
  | |- draws skip => apply draws_skip
  | |- draws (rect _ _ _ _ _) => apply draws_rect
  | |- draws (text_at _ _ _ _) => apply draws_text
  | |- draws (let! _ := gets _ in _) => apply draws_get; intros ?
  | |- draws (let! _ := owt_theme_get in _) => apply draws_get; intros ?
  | |- draws (_ ;! _) => apply draws_seq
  | |- draws (if _ then _ else _) => apply draws_if
  | |- draws (each_ _ _ _) => apply draws_each; intros ? ?
  | |- draws (let _ := _ in _) => cbv zeta
  end.

Lemma draws_rows n i w items selected scroll : 0 ≤ scroll → 0 ≤ i → i + Z.of_nat n + scroll < 2 ^ 31 →
  draws (list_rows n i w items selected scroll).
Proof.
  intros Hs. revert i. induction n as [|n IH]; intros i Hi Hn; cbn [list_rows]; [apply draws_skip|]. cbv zeta.
  apply draws_if; [|apply draws_skip]. intros s Hok. apply wp_bind, wp_assert; [rewrite s32_small by lia; lia|].
  revert s Hok. apply draws_get. intros t. apply draws_seq; [draw|]. apply IH; lia.
Qed.
Lemma draws_bar w items cx color : draws (menu_bar cx w items color).
Proof. revert cx. induction items as [|l items IH]; intros cx; cbn [menu_bar]; draw; [apply IH|apply IH]. Qed.

(** A widget's own drawing. *)
Definition kind_ok (k : kind) : Prop := match k with Listview _ _ scroll _ => 0 ≤ scroll < 2 ^ 30 | _ => True end.

(** The widgets under [p] form a tree of [n] levels at most. *)
Fixpoint drawable (ws : gmap Z widget) (n : nat) (p : Z) : Prop :=
  match n with
  | Datatypes.O => False
  | Datatypes.S n' =>
      p = 0 ∨ ∃ w, ws !! p = Some w ∧ (wvisible w = 0 ∨
        kind_ok (wkind w) ∧ (∀ title content, wkind w = Window title content → content ≠ 0 → drawable ws n' content) ∧
        Forall (drawable ws n') (children w))
  end.

Lemma quot_rows h : - 2 ^ 31 ≤ h < 2 ^ 31 → Z.of_nat (Z.to_nat (Z.quot h 20)) ≤ 2 ^ 27.
Proof. intros Hh. pose proof (Z.quot_rem' h 20). pose proof (Z.rem_bound_abs h 20 ltac:(lia)). lia. Qed.

Lemma draws_list w items selected scroll : 0 ≤ scroll < 2 ^ 30 → draws (listview_draw w items selected scroll).
Proof.
  intros Hs. unfold listview_draw. apply draws_get. intros t. apply draws_seq; [apply draws_rect|].
  pose proof (quot_rows (s32 (wh w - 4)) (s32_range _)). apply draws_rows; lia.
Qed.

(** From a state where the widgets are [ws]. *)
Definition draws_in (ws : gmap Z widget) (m : O unit) : Prop :=
  ∀ s, wm_ok (o_wm s) → o_widgets s = ws → wp m s (λ _ s', drawn s s').
Lemma draws_draws_in ws m : draws m → draws_in ws m.
Proof. intros Hm s Hs _. by apply Hm. Qed.
Lemma draws_in_seq ws m1 m2 : draws_in ws m1 → draws_in ws m2 → draws_in ws (m1 ;! m2).
Proof.
  intros H1 H2 s Hs Hw. apply wp_bind. eapply wp_mono; [by apply H1|]. intros [] s1 D1.
  pose proof D1 as (Hok & _ & _ & E & _). eapply wp_mono; [apply H2; [done|congruence]|]. intros [] s2 D2. by eapply drawn_trans.
Qed.

Lemma draws_kids ws n l : (∀ c, c ∈ l → draws_in ws (owt_widget_draw n c)) →
  draws_in ws ((fix kids (l : list Z) : O unit := match l with [] => skip | c :: l' => owt_widget_draw n c ;! kids l' end) l).
Proof.
  induction l as [|c l IH]; intros Hl; [apply draws_draws_in, draws_skip|].
  apply draws_in_seq; [apply Hl; left|]. apply IH. intros c' Hc. apply Hl. by right.
Qed.

Lemma widget_draws ws n p : drawable ws n p → draws_in ws (owt_widget_draw n p).
Proof.
  revert p. induction n as [|n IH]; intros p; [done|]. cbn [drawable owt_widget_draw]. intros Hp s Hs Es.
  destruct (Z.eqb_spec p 0) as [-> |Np]; [by apply wp_skip, drawn_refl|]. destruct Hp as [|(w & Hw & Hv)]; [done|].
  unfold widget_at. apply wp_bind, wp_bind, wp_gets. rewrite Es, Hw. apply wp_ret.
  destruct (nz (wvisible w)) eqn:Nv; cbn [negb]; [|by apply wp_skip, drawn_refl].
  destruct Hv as [Hv|(Hk & Hc & Hch)]; [rewrite Hv in Nv; done|].
  revert s Hs Es. apply draws_in_seq.
  2: { apply draws_kids. intros c Hin. apply IH. rewrite Forall_forall in Hch. by apply Hch. }
  destruct (wkind w) eqn:Ek.
  { apply draws_in_seq; [apply draws_draws_in; unfold window_frame; draw|]. destruct (Z.eqb_spec content 0) as [-> |Nc].
    - apply draws_draws_in, draws_skip.
    - replace (nz content) with true by (unfold nz; lia). eapply IH, Hc; done. }
  all: apply draws_draws_in.
  all: unfold button_draw, textbox_draw, combobox_draw, menu_draw, statusbar_draw, label_draw, box24; draw.
  - by apply draws_list.
  - apply draws_bar.
Qed.

(** C31: take a screen whose stride is its width, with a back buffer of width times height
    pixels ([wm_ok]; with a longer stride the code stores outside that buffer, see
    [owt_overruns_back_buffer]), and a tree of widgets, whatever their positions, sizes
    and texts, whose lists are scrolled by at least 0 and less than [2 ^ 30] rows.
    [owt_widget_draw] ends, stores nothing outside the back buffer, and changes nothing
    but its pixels: no widget, no theme, no callback, and the window manager keeps its
    dimensions and buffers.  The depth of the tree bounds the recursion. *)
Theorem tree_drawn (s : owt) (n : nat) p :
  wm_ok (o_wm s) → drawable (o_widgets s) n p →
  wp (owt_widget_draw n p) s (λ _ s', wm_ok (o_wm s') ∧ wm_geom (o_wm s') = wm_geom (o_wm s) ∧
    o_theme s' = o_theme s ∧ o_widgets s' = o_widgets s ∧ o_calls s' = o_calls s).
Proof. intros Hs Hd. by apply (widget_draws (o_widgets s)). Qed.

(** A window with a label for its content, a list and a button. *)
Definition a_window : widget := mkWidget 1 (-5) 12 30 1 1 0 [12288; 16384] (Window [79; 75] 8192).
Definition a_label : widget := mkWidget (2 ^ 31 - 1) 4 20 20 1 1 4096 [] (Label [72; 105]).
Definition a_list : widget := mkWidget 0 0 8 50 1 1 4096 [] (Listview [[65]; [66]] 1 0 false).
Definition a_button : widget := mkWidget 3 3 9 9 1 1 4096 [] (Button [75] 0 1 true).
Definition small_tree : gmap Z widget :=
  list_to_map [(4096, a_window); (8192, a_label); (12288, a_list); (16384, a_button)].
Definition small_desk : owt := mkOwt small_wm THEME_LIGHT small_tree [].

Lemma leaf_drawable ws n p w : ws !! p = Some w → kind_ok (wkind w) → children w = [] →
  match wkind w with Window _ _ => False | _ => True end → drawable ws (S n) p.
Proof. intros Hw Hk Hc Hl. right. exists w. split; [done|]. right. rewrite Hc. split_and!; [done| |done]. intros ?? E. by rewrite E in Hl. Qed.
Lemma small_tree_drawable : drawable small_tree 2 4096.
Proof.
  right. exists a_window. split; [reflexivity|]. right. split_and!; [done| |].
  - intros title content [= <- <-] _. by apply (leaf_drawable _ _ _ a_label).
  - apply Forall_cons. split; [by apply (leaf_drawable _ _ _ a_list)|].
    apply Forall_cons. split; [by apply (leaf_drawable _ _ _ a_button)|constructor].
Qed.
Lemma small_wm_ok : wm_ok small_wm.
Proof. split; [by eexists|done|cbn; lia..]. Qed.

Lemma tree_drawn_witness : ∃ s', owt_widget_draw 2 4096 small_desk = Some (tt, s') ∧ o_widgets s' = small_tree.
Proof.
  destruct (tree_drawn small_desk 2 4096) as ([] & s' & E & _ & _ & _ & Hw & _);
    [exact small_wm_ok|exact small_tree_drawable|]. exists s'. split; [exact E|exact Hw].
Defined.

(** ** Clicks *)

(** A click on an open combo box below its header selects the item under the mouse, calls
    back and closes the box; so does a click on the header itself, where the division
    rounds towards zero: it selects the first item. *)
Theorem combo_click (s : owt) p w items sel cb my i : o_widgets s !! p = Some w → wkind w = Combobox items sel 1 cb →
  0 ≤ i < Z.of_nat (length items) → let d := my - wy w - 24 in
  small d → 24 * i ≤ d < 24 * i + 24 ∨ i = 0 ∧ -24 < d < 0 →
  wp (owt_combobox_click p my) s (λ _ s', o_widgets s' = <[p := with_kind (Combobox items i 0 cb) w]> (o_widgets s) ∧
    o_calls s' = o_calls s ++ (if cb then [mkCall p i] else [])).
Proof.
  intros Hw Hk Hi d Hd Hrow. unfold owt_combobox_click, widget_at. apply wp_bind, wp_bind, wp_gets. rewrite Hw. apply wp_ret.
  rewrite Hk. cbn [nz negb Z.eqb]. unfold small in Hd. fold d. rewrite s32_small by lia.
  assert (Z.quot d 24 = i) as ->.
  { destruct Hrow as [Hr|[-> Hr]]; [rewrite Z.quot_div_nonneg by lia; symmetry; apply (Z.div_unique d 24 i (d - 24 * i)); lia|].
    pose proof (Z.quot_rem' d 24). pose proof (Z.rem_bound_abs d 24 ltac:(lia)). pose proof (Z.rem_sign_nz d 24). lia. }
  cbv zeta. replace ((0 <=? i) && (i <? Z.of_nat (length items))) with true by lia.
  apply wp_bind, wp_modify. unfold callback.
  destruct cb; (apply wp_bind; first [apply wp_modify|apply wp_skip]); apply wp_modify; cbn;
    rewrite ?insert_insert_eq, ?app_nil_r; done.
Qed.
