(* ===== verification/SysIo.v ===== *)
(** * SysIo: the system calls of waiting, devices and memory maps

    Cases of [syscall_handler] in [OvsbMk/kernel/syscall.c]: poll, ppoll, select, readv,
    ioctl, mmap and its relatives, the display, the mouse and the keyboard, fork and
    clone.  What a call stores at a pointer of the caller is a list of offsets and bytes
    ([stores]), or goes through the page tables where the model has them.  The
    framebuffer and the caller's back buffer are the surfaces of [Gfx]; the flush of the
    virtio driver and the log output are left out. *)

From Stdlib Require Import ZArith Lia.
From stdpp Require Import gmap list prelude.
From S2P Require Import Prelude KHeap Buddy Slab Paging VmMap Fds FdCalls Process Fork SysProc Gfx.

Open Scope Z_scope.

Abbreviation stores := (list (Z * list Z)).

(** ** The state *)

(** [g_fb], [g_fb_active], [g_virtio_active] and the pixels. *)
Record screen := mkScreen {
  f_addr : Z; f_pitch : Z; f_width : Z; f_height : Z; f_bpp : Z; f_active : bool; f_virtio : bool; f_front : surface }.
Definition set_pixels (b : surface) (f : screen) : screen :=
  mkScreen (f_addr f) (f_pitch f) (f_width f) (f_height f) (f_bpp f) (f_active f) (f_virtio f) b.

(** [mouse_x], [mouse_y], [mouse_buttons] and the position last reported. *)
Record mouse := mkMouse { mouse_x : Z; mouse_y : Z; mouse_buttons : Z; last_x : Z; last_y : Z }.

Record iosys (F : Type) := mkIo { i_y : psys F; i_fb : screen; shift_pressed : Z; ctrl_pressed : Z; i_mouse : mouse }.
Arguments mkIo {F}.
Arguments i_y {F}.
Arguments i_fb {F}.
Arguments shift_pressed {F}.
Arguments ctrl_pressed {F}.
Arguments i_mouse {F}.

(** ** ioctl *)

Definition le16 : Z → list Z := le_bytes 2.
Definition le32 : Z → list Z := le_bytes 4.
Definition words32 (ws : list Z) : list Z := concat (map le32 ws).

(** [if (!v) v = d;] *)
Definition or_else (v d : Z) : Z := if v =? 0 then d else v.

(** The 36 words of [FBIOGET_VSCREENINFO]; none where the clock divides by zero. *)
Definition vscreeninfo (f : screen) : option (list Z) :=
  let W := f_width f in
  let H := f_height f in
  let lm := or_else (u32 (W * 24) / 1024) 24 in
  let rm := or_else (u32 (W * 160) / 1024) 160 in
  let hs := or_else (u32 (W * 136) / 1024) 136 in
  let um := or_else (u32 (H * 3) / 768) 3 in
  let bmm := or_else (u32 (H * 29) / 768) 29 in
  let vs := or_else (u32 (H * 6) / 768) 6 in
  let htotal := u32 (W + lm + rm + hs) in
  let vtotal := u32 (H + um + bmm + vs) in
  let d := u64 (60 * htotal * vtotal) in
  if d =? 0 then None else
  Some [W; H; W; H; 0; 0; 16; 0; 11; 5; 0; 5; 6; 0; 0; 5; 0; 0; 0; 0; 0; 0;
        u32 (W * 304) / 1024; u32 (H * 228) / 768; 0; u32 (1000000000000 / d); lm; rm; um; bmm; hs; vs; 0; 0; 0; 0].

(** ["TipOS fb"] *)
Definition fb_id : list Z := [84; 105; 112; 79; 83; 32; 102; 98].

(** The stores of [FBIOGET_FSCREENINFO], in their order. *)
Definition fscreeninfo (f : screen) : stores :=
  [(0, replicate 16 0); (0, fb_id);
   (16, le_bytes 8 (f_addr f)); (24, le32 (u32 (f_pitch f * f_height f))); (28, le32 0); (32, le32 0); (36, le32 2);
   (40, le16 0); (42, le16 0); (44, le16 0); (46, le32 (f_pitch f)); (48, le_bytes 8 0); (56, le32 0); (60, le32 0); (64, le16 0)].

(** [argp]: the pointer is not null. *)
Definition SYS_ioctl (f : screen) (req : Z) (argp : bool) : option (Z * stores) :=
  let out st := Some (0, if argp then st else []) in
  if req =? 0x5604 then out [(0, le32 1)] else
  if req =? 0x5603 then out [(0, le16 1); (2, le16 0); (4, le16 0)] else
  if req =? 0x5601 then out [(0, [0]); (1, [0]); (2, [0]); (3, [0]); (4, [0])] else
  if (req =? 0x5602) || (req =? 0x5606) || (req =? 0x5607) then Some (0, []) else
  if (req =? 0x4B3A) || (req =? 0x4B3B) then (if req =? 0x4B3B then out [(0, le32 0)] else Some (0, [])) else
  if req =? 0x4B44 then out [(0, le32 1)] else
  if req =? 0x4B45 then Some (0, []) else
  if (req =? 0x4B31) || (req =? 0x4B32) then (if req =? 0x4B31 then out [(0, le32 0)] else Some (0, [])) else
  if (req =? 0x5410) || (req =? 0x540F) then Some (0, []) else
  if req =? 0x4600 then
    (if argp then ws ← vscreeninfo f; Some (0, [(0, words32 ws)]) else Some (-1, [])) else
  if req =? 0x4601 then Some (0, []) else
  if req =? 0x4602 then (if argp then Some (0, fscreeninfo f) else Some (-1, [])) else
  if req =? 0x5413 then out [(0, le16 45); (2, le16 80); (4, le16 640); (6, le16 720)] else
  if req =? 0x5401 then out [(0, words32 [0x5FD; 0; 0; 0; 0; 0; 0; 0x7F; 0; 0; 1])] else
  if (req =? 0x5402) || (req =? 0x5403) || (req =? 0x5404) then Some (0, []) else
  Some (0, []).

Section calls.
Context {F : Type} `{FileOps F}.

(** ** Waiting: poll, ppoll and select *)

Abbreviation FM := (M (fdstate F)).

Definition keyboard_avail : FM bool := gets (λ s, negb (bool_decide (fs_kbd s = []))).
Definition kbd_raw_avail : FM bool := gets (λ s, negb (bool_decide (fs_kbd_raw s = []))).
Definition mice_avail : FM bool := gets (λ s, negb (bool_decide (fs_mice s = []))).

(** One entry: [revents], and how often [ready] is incremented. *)
Definition poll_entry (fd : Z) : FM (Z * Z) :=
  let! a := (if fd =? 0 then keyboard_avail else ret false) in
  let! b := (if (3 <=? fd) && (fd <? MAX_FDS) then
               let! e := fds fd in ret (nz (fd_used e) && (fd_type e =? 1) && (0 <? fd_counter e))
             else ret false) in
  let! c := fd_readable fd in
  ret (if a || b || c then 1 else 0, Z.b2z a + Z.b2z b + Z.b2z c).

(** The entries in their order; their [revents]. *)
Fixpoint poll_loop (l : list Z) (ready : Z) (revents : list Z) : FM (Z * list Z) :=
  match l with
  | [] => ret (ready, revents)
  | fd :: l' => let! r := poll_entry fd in poll_loop l' (ready + r.2) (revents ++ [r.1])
  end.

(** [entries]: the descriptors of the array at [fds_arr]; the call looks at the first
    [nfds], 16 at most. *)
Definition SYS_poll (entries : list Z) (nfds : Z) : FM (Z * list Z) :=
  let n := Z.to_nat (Z.min nfds 16) in
  assert_ (n <=? length entries)%nat ;!
  poll_loop (take n entries) 0 [].
Definition SYS_ppoll (entries : list Z) (nfds : Z) : FM (Z * list Z) := SYS_poll entries nfds.

(** [rd_set\[i >> 3\] |= 1 << (i & 7)] *)
Definition set_bit (i : Z) (rd : list Z) : list Z :=
  alter (λ b, Z.lor b (Z.shiftl 1 (Z.land i 7))) (Z.to_nat (Z.shiftr i 3)) rd.

(** From [i] on. *)
Fixpoint select_loop (l : list Z) (nfds ready : Z) (rd : list Z) : FM (Z * list Z) :=
  match l with
  | [] => ret (ready, rd)
  | i :: l' =>
      if nfds <=? i then ret (ready, rd) else
      let! e := fds i in
      if negb (nz (fd_used e)) then select_loop l' nfds ready rd else
      let! readable :=
        (if fd_type e =? FD_TTY then kbd_raw_avail
         else if fd_type e =? FD_MICE then mice_avail
         else fd_readable i) in
      if readable : bool then select_loop l' nfds (ready + 1) (set_bit i rd) else select_loop l' nfds ready rd
  end.
(** The result and the set afterwards. *)
Definition SYS_select (nfds : Z) (rd_set : option (list Z)) : FM (Z * option (list Z)) :=
  match rd_set with
  | None => ret (0, None)
  | Some rd =>
      let! a := keyboard_avail in
      let! r := select_loop fd_candidates nfds (Z.b2z a) (if a then set_bit 0 rd else rd) in
      ret (r.1, Some r.2)
  end.

(** ** readv *)

(** Each buffer is its length, 0 for a null pointer; the bytes stored in each. *)
Fixpoint readv_pipe (p : Z) (iov : list Z) (tot : Z) (got : list (list Z)) : FM (Z * list (list Z)) :=
  match iov with
  | [] => ret (tot, got)
  | len :: iov' =>
      if len =? 0 then readv_pipe p iov' tot (got ++ [[]]) else
      let! q := pipe_at p in
      let '(bs, r) := ring_pop (Z.to_nat len) (p_ring q) in
      pipe_set p (mkPipe (p_used q) r) ;!
      let n := Z.of_nat (length bs) in
      if n <? len then ret (tot + n, got ++ [bs]) else readv_pipe p iov' (tot + n) (got ++ [bs])
  end.
Fixpoint readv_file (fd : Z) (iov : list Z) (tot : Z) (got : list (list Z)) : FM (Z * list (list Z)) :=
  match iov with
  | [] => ret (tot, got)
  | len :: iov' =>
      if len =? 0 then readv_file fd iov' tot (got ++ [[]]) else
      let! e := fds fd in
      let! st := gets fs_files in
      let '(r, bs) := read_at (fd_name e) (u32 len) (fd_pos e) st in
      if r <? 0 then ret (-1, got) else
      fds_upd fd (set_pos (u32 (fd_pos e + r))) ;!
      if r <? len then ret (tot + r, got ++ [bs]) else readv_file fd iov' (tot + r) (got ++ [bs])
  end.
Definition SYS_readv (fd : Z) (iov : option (list Z)) : FM (Z * list (list Z)) :=
  match iov with
  | None => ret (-1, [])
  | Some iov =>
      if (Z.of_nat (length iov) <=? 0) || (16 <? Z.of_nat (length iov)) then ret (-1, []) else
      let! high := open_high fd in
      if negb high then ret (-1, []) else
      let! e := fds fd in
      if fd_type e =? 3 then
        let p := fd_pipe e in
        if (p <? 0) || (MAX_PIPES <=? p) then ret (-1, []) else
        let! q := pipe_at p in
        if negb (nz (p_used q)) then ret (-1, []) else
        readv_pipe p iov 0 []
      else readv_file fd iov 0 []
  end.

(** ** Memory maps *)

Abbreviation I := (M (iosys F)).
Definition on_y {A} (m : M (psys F) A) : I A := zoom i_y (λ y s, mkIo y (i_fb s) (shift_pressed s) (ctrl_pressed s) (i_mouse s)) m.
Definition on_kst {A} (m : M (kstate F) A) : I A := on_y (on_k m).
Definition on_mem {A} (m : M heap A) : I A := on_kst (on_heap m).
Definition on_desc {A} (m : FM A) : I A := on_kst (on_fds m).

(** The map and the page table of the current process. *)
Definition current_space : I (option (Z * Z)) :=
  let! me := on_kst process_current in
  if me <? 0 then ret None else let! p := on_kst (pcb_get me) in ret (Some (vm_map p, pml4 p)).

(** The size of the framebuffer in whole 2 MB pages. *)
Definition fb_bytes (f : screen) : Z := Z.ldiff (u64 (f_pitch f * f_height f + 0x1FFFFF)) 0x1FFFFF.

Definition SYS_mmap (hint len prot flags mfd : Z) : I Z :=
  let! dev := (if negb (nz (Z.land flags 0x20)) then
                 on_desc (let! high := open_high mfd in
                          if high : bool then let! e := fds mfd in ret (fd_type e =? FD_FB) else ret false)
               else ret false) in
  let! cur := current_space in
  if dev : bool then
    match cur with
    | None => ret (-1)
    | Some (_, pml4) =>
        let! f := gets i_fb in
        let! r := on_mem (pml4_map_phys pml4 (f_addr f) (f_addr f) (fb_bytes f) true) in
        ret (if r <? 0 then -1 else f_addr f)
    end
  else
    let len := if len <? 0x1000 then 0x1000 else len in
    let flags := if negb (nz (Z.land flags MAP_ANON)) then Z.lor flags MAP_ANON else flags in
    let! r := on_mem (vm_mmap cur hint len prot flags) in
    ret (if r.1 <? 0 then -1 else r.2).

Definition SYS_munmap (addr size : Z) : I Z := let! cur := current_space in on_mem (vm_munmap cur addr size).
Definition SYS_mprotect (addr size prot : Z) : I Z := let! cur := current_space in on_mem (vm_mprotect cur addr size prot).
Definition SYS_madvise : I Z := ret 0.
Definition SYS_msync : I Z := ret 0.
Definition SYS_mremap : I Z := ret (-1).

(** ** Keyboard, identity, time *)

Definition SYS_kbhit : I Z := let! a := on_desc keyboard_avail in ret (Z.b2z a).
Definition SYS_getpid : I Z := on_kst process_current_pid.
Definition SYS_getuid : I Z := ret 0.
Definition SYS_epoll_ctl : I Z := ret 0.
Definition SYS_epoll_wait : I Z := ret 0.
Definition SYS_sigaction : I Z := ret 0.

Definition SYS_gettimeofday (a1 : Z) : I Z :=
  let! t := on_y (gets y_ticks) in
  on_y (put_out a1 (words64 [t / 100; (t mod 100) * 10000])) ;!
  ret 0.

Definition SYS_kb_mod : I Z :=
  let! s := gets id in
  ret (Z.lor (if nz (shift_pressed s) then 1 else 0) (if nz (ctrl_pressed s) then 2 else 0)).

(** ** Display and mouse *)

Definition USER_FB : Z := 0xFFFFFFFF80000000.

Definition SYS_disp_get_fb (a1 a2 a3 a4 : Z) : I Z :=
  let! f := gets i_fb in
  if negb (f_active f) || negb (f_bpp f =? 32) then ret (-1) else
  if (f_width f =? 0) || (f_height f =? 0) then ret (-1) else
  let! cur := current_space in
  match cur with
  | None => stuck
  | Some (_, pml4) =>
      let! r := on_mem (pml4_map_phys pml4 USER_FB (f_addr f) (fb_bytes f) true) in
      if r <? 0 then ret (-1) else
      on_y (put_out a1 (le_bytes 8 USER_FB)) ;!
      on_y (put_out a2 (le32 (f_width f))) ;!
      on_y (put_out a3 (le32 (f_height f))) ;!
      on_y (put_out a4 (le32 (f_pitch f))) ;!
      ret 0
  end.

Definition set_fb (f : screen) (s : iosys F) : iosys F := mkIo (i_y s) f (shift_pressed s) (ctrl_pressed s) (i_mouse s).

(** [rep movsl]: [n] words from index [from] of the caller's buffer to index [to]. *)
Definition movsl (back : surface) (to from : Z) (n : nat) : I unit :=
  for_up n 0 (λ k,
    let! f := gets i_fb in
    assert_ (in_surface back (from + k) && in_surface (f_front f) (to + k)) ;!
    modify (set_fb (set_pixels (put_px (to + k) (px back (from + k)) (f_front f)) f))).

Definition SYS_disp_flush (back : option surface) : I Z :=
  let! f := gets i_fb in
  match back with
  | Some back =>
      if negb (f_active f) then ret (-1) else
      movsl back 0 0 (Z.to_nat (f_pitch f * f_height f / 4)) ;! ret 0
  | None => ret (-1)
  end.

(** [a2] holds x and y, [a3] the width and the height, 16 bits each. *)
Definition SYS_disp_flush_rect (back : option surface) (a2 a3 : Z) : I Z :=
  let! f := gets i_fb in
  let x := Z.land a2 0xFFFF in
  let y := Z.land (Z.shiftr a2 16) 0xFFFF in
  let w := Z.land a3 0xFFFF in
  let h := Z.land (Z.shiftr a3 16) 0xFFFF in
  match back with
  | Some back =>
      if negb (f_active f) || (w <=? 0) || (h <=? 0) then ret (-1) else
      let stride_px := f_pitch f / 4 in
      let start := u32 (y * stride_px) + x in
      for_up (Z.to_nat h) 0 (λ row, movsl back (start + row * stride_px) (start + row * stride_px) (Z.to_nat w)) ;!
      ret 0
  | None => ret (-1)
  end.

(** The three words [mouse_read_delta] stores. *)
Definition SYS_mouse_read (a1 a2 a3 : Z) : I Z :=
  let! m := gets i_mouse in
  on_y (on_user (user_put a1 (le32 (u32 (mouse_x m - last_x m))))) ;!
  on_y (on_user (user_put a2 (le32 (u32 (mouse_y m - last_y m))))) ;!
  on_y (on_user (user_put a3 (le32 (u32 (mouse_buttons m))))) ;!
  modify (λ s, mkIo (i_y s) (i_fb s) (shift_pressed s) (ctrl_pressed s)
                 (mkMouse (mouse_x m) (mouse_y m) (mouse_buttons m) (mouse_x m) (mouse_y m))) ;!
  ret 0.

(** ** Fork and clone *)

(** The frame of the call, the user stack pointer and the FS base it was made with. *)
Definition SYS_fork_real (kframe user_rsp fs : Z) : I Z :=
  let! cpid := on_kst (proc_fork kframe user_rsp fs) in
  ret (if cpid <? 0 then -1 else cpid).
Definition SYS_clone (flags newsp ptid tls ctid kframe : Z) : I Z :=
  let! cpid := on_kst (proc_clone_thread flags newsp ptid ctid tls kframe) in
  ret (if cpid <? 0 then -1 else cpid).
End calls.
