(* ===== verification/SysIoProof.v ===== *)
(** * SysIoProof: waiting and the display

    poll tells which descriptors have input and how many; select adds bits to the set of
    the caller, and takes none away.  [disp_flush_rect] copies a rectangle, clipped by
    nothing.  The length of a row that [FBIOGET_FSCREENINFO] stores is overwritten. *)

From Stdlib Require Import ZArith Lia Sorted.
From stdpp Require Import gmap list prelude.
From S2P Require Import Prelude Fds FdCalls FdProof Process ProcProof SysProc Gfx GfxProof SysIo.

Open Scope Z_scope.

Section waiting.
Context {F : Type} `{FileOps F}.
Implicit Types s : fdstate F.

(** ** Input *)

Definition current_fd s (fd : Z) : fdent := fd_of s (fs_fdtab s) fd.
Definition high_fd (fd : Z) : bool := (3 <=? fd) && (fd <? MAX_FDS).

(** Input for a terminal, a mouse or a socket. *)
Definition device_input s (fd : Z) : bool :=
  let e := current_fd s fd in
  high_fd fd && nz (fd_used e) &&
  if fd_type e =? FD_TTY then negb (bool_decide (fs_kbd_raw s = []))
  else if fd_type e =? FD_MICE then negb (bool_decide (fs_mice s = []))
  else if fd_type e =? 4 then
    (0 <=? fd_sock e) && (fd_sock e <? MAX_SOCKS) &&
    let k := default zero_sock (fs_socks s !! fd_sock e) in
    negb (r_rpos (s_ring k) =? r_wpos (s_ring k)) || (0 <? Z.of_nat (length (s_pending k)))
  else false.
(** A counter above zero. *)
Definition event_input s (fd : Z) : bool :=
  let e := current_fd s fd in high_fd fd && nz (fd_used e) && (fd_type e =? 1) && (0 <? fd_counter e).
Definition keyboard_input s : bool := negb (bool_decide (fs_kbd s = [])).

(** What poll looks for. *)
Definition has_input s (fd : Z) : bool :=
  ((fd =? 0) && keyboard_input s) || event_input s fd || device_input s fd.

Lemma high_in_table fd : high_fd fd = true → (0 <=? fd) && (fd <? MAX_FDS) = true.
Proof. unfold high_fd, MAX_FDS. lia. Qed.
Lemma fds_high fd s : high_fd fd = true → fds fd s = Some (current_fd s fd, s).
Proof. intros Hh. unfold fds, bind, assert_. by rewrite high_in_table. Qed.

Lemma readable_input fd s : fd_readable fd s = Some (device_input s fd, s).
Proof.
  unfold fd_readable, device_input. fold (high_fd fd). destruct (high_fd fd) eqn:Hh; [|done]. unfold bind. rewrite fds_high by done.
  destruct (nz (fd_used _)); [|done]. cbn [negb andb]. destruct (_ =? FD_TTY); [done|]. destruct (_ =? FD_MICE); [done|].
  destruct (_ =? 4); [|done].
  cbv zeta. destruct ((0 <=? _) && _) eqn:Es; [|done]. unfold sock_at, bind, assert_. rewrite Es. done.
Qed.

Lemma event_not_device s fd : event_input s fd = true → device_input s fd = false.
Proof.
  unfold event_input, device_input. cbv zeta. destruct (high_fd fd && nz (fd_used (current_fd s fd))); [|done]. cbn [andb].
  destruct (Z.eqb_spec (fd_type (current_fd s fd)) 1) as [-> |]; done.
Qed.

Lemma poll_entry_spec fd s : poll_entry fd s = Some ((Z.b2z (has_input s fd), Z.b2z (has_input s fd)), s).
Proof.
  unfold poll_entry, bind, keyboard_avail, gets, ret. fold (high_fd fd). unfold has_input.
  destruct (Z.eqb_spec fd 0) as [-> |N0].
  - change (high_fd 0) with false. cbv beta iota. rewrite readable_input. change (event_input s 0) with false.
    change (device_input s 0) with false. fold (keyboard_input s). by destruct (keyboard_input s).
  - cbn [andb orb]. destruct (high_fd fd) eqn:Hh; cbv beta iota.
    + rewrite fds_high, readable_input by done. fold (event_input s fd).
      replace (nz (fd_used (current_fd s fd)) && (fd_type (current_fd s fd) =? 1) && (0 <? fd_counter (current_fd s fd)))
        with (event_input s fd) by (unfold event_input; by rewrite Hh).
      destruct (event_input s fd) eqn:Ee; [by rewrite event_not_device|]. by destruct (device_input s fd).
    + rewrite readable_input. unfold event_input, device_input. rewrite Hh. done.
Qed.

(** How many of a list. *)
Definition count (f : Z → bool) (l : list Z) : Z := Z.of_nat (length (List.filter f l)).
Lemma count_cons f i l : count f (i :: l) = Z.b2z (f i) + count f l.
Proof. unfold count. cbn [List.filter]. destruct (f i); cbn [length Z.b2z]; lia. Qed.

Lemma poll_loop_spec s l ready revents :
  poll_loop l ready revents s = Some ((ready + count (has_input s) l, revents ++ map (λ fd, Z.b2z (has_input s fd)) l), s).
Proof.
  revert ready revents. induction l as [|fd l IH]; intros ready revents; cbn [poll_loop map].
  - unfold count. cbn. by rewrite Z.add_0_r, app_nil_r.
  - unfold bind. rewrite poll_entry_spec. cbn [fst snd]. rewrite IH, count_cons, <-app_assoc, Z.add_assoc. done.
Qed.

(** C28: [poll] changes nothing; it stores 1 in [revents] of exactly those of the first
    [nfds] entries (16 at most) that have input: descriptor 0 when the keyboard has a
    character, a counter above zero, a terminal or mouse with bytes, a socket with bytes
    or a connection; and it returns their number. *)
Theorem poll_tells entries nfds s :
  let l := take (Z.to_nat (Z.min nfds 16)) entries in
  Z.min nfds 16 ≤ Z.of_nat (length entries) →
  SYS_poll entries nfds s = Some ((count (has_input s) l, map (λ fd, Z.b2z (has_input s fd)) l), s).
Proof.
  intros l Hl. unfold SYS_poll, bind, assert_. cbv zeta. rewrite (proj2 (Nat.leb_le _ _)) by lia. unfold skip, ret.
  cbv beta iota. fold l. by rewrite poll_loop_spec.
Qed.

(** ** select *)

Definition bit_of (rd : list Z) (i : Z) : bool := Z.testbit (default 0 (rd !! Z.to_nat (Z.shiftr i 3))) (Z.land i 7).

Lemma set_bit_length i rd : length (set_bit i rd) = length rd.
Proof. unfold set_bit. by rewrite length_alter. Qed.
Lemma set_bit_spec i j rd : 0 ≤ i < 8 * Z.of_nat (length rd) → 0 ≤ j →
  bit_of (set_bit i rd) j = (j =? i) || bit_of rd j.
Proof.
  intros Hi Hj. unfold bit_of, set_bit. pose proof (Z.land_ones i 3 ltac:(lia)) as Ei. pose proof (Z.land_ones j 3 ltac:(lia)) as Ej.
  change (Z.ones 3) with 7 in *. rewrite Ei, Ej, !Z.shiftr_div_pow2 by lia. change (2 ^ 3) with 8.
  pose proof (Z.div_mod i 8 ltac:(lia)). pose proof (Z.div_mod j 8 ltac:(lia)). pose proof (Z.mod_pos_bound i 8 ltac:(lia)).
  pose proof (Z.mod_pos_bound j 8 ltac:(lia)).
  assert (0 ≤ i / 8 < Z.of_nat (length rd)) by lia.
  destruct (decide (i / 8 = j / 8)) as [E|E].
  - rewrite E. rewrite list_lookup_alter_eq. destruct (lookup_lt_is_Some_2 rd (Z.to_nat (j / 8))) as [b Hb]; [lia|].
    rewrite Hb. cbn [fmap option_fmap option_map default id]. rewrite Z.lor_spec, Z.shiftl_1_l, Z.pow2_bits_eqb by lia. rewrite orb_comm. f_equal. lia.
  - rewrite list_lookup_alter_ne by lia. replace (j =? i) with false by (symmetry; apply Z.eqb_neq; congruence). done.
Qed.

(** What select looks for: counters are not asked. *)
Definition select_input s nfds (i : Z) : bool := (i <? nfds) && device_input s i.

Lemma select_asks s i : high_fd i = true → nz (fd_used (current_fd s i)) = true →
  (if fd_type (current_fd s i) =? FD_TTY then kbd_raw_avail
   else if fd_type (current_fd s i) =? FD_MICE then mice_avail else fd_readable i) s = Some (device_input s i, s).
Proof.
  intros Hh Hu. pose proof (readable_input i s) as Hr. unfold device_input in *. rewrite Hh, Hu in *. cbn [andb] in *.
  destruct (_ =? FD_TTY); [done|]. by destruct (_ =? FD_MICE).
Qed.

(** No descriptor of the list is below [nfds]. *)
Lemma select_stops s nfds i l : nfds ≤ i → Forall (Z.le i) l →
  count (select_input s nfds) (i :: l) = 0 ∧ ∀ j, existsb (λ k, (j =? k) && select_input s nfds k) (i :: l) = false.
Proof.
  intros Hn Hall. assert (∀ k, In k (i :: l) → select_input s nfds k = false) as Hno.
  { intros k Hk. unfold select_input. rewrite (proj2 (Z.ltb_ge k nfds)); [done|].
    destruct Hk as [<- |Hk]; [done|]. rewrite Forall_forall in Hall. specialize (Hall k (proj2 (list_elem_of_In _ _) Hk)). lia. }
  split.
  - unfold count. destruct (List.filter _ _) as [|k f] eqn:E; [done|]. assert (In k (k :: f)) as Hk by (by left).
    rewrite <-E in Hk. apply filter_In in Hk as [Hk E']. by rewrite Hno in E'.
  - intros j. destruct (existsb _ _) eqn:E; [|done]. apply existsb_exists in E as (k & Hk & E).
    by rewrite Hno, andb_false_r in E.
Qed.

Lemma select_loop_spec s nfds l ready rd : Forall (λ i, 3 ≤ i < 16) l → StronglySorted Z.le l → (2 ≤ length rd)%nat →
  ∃ rd', select_loop l nfds ready rd s = Some ((ready + count (select_input s nfds) l, rd'), s) ∧ length rd' = length rd ∧
    ∀ j, 0 ≤ j → bit_of rd' j = bit_of rd j || existsb (λ i, (j =? i) && select_input s nfds i) l.
Proof.
  intros Hl Hs. revert ready rd. induction l as [|i l IH]; intros ready rd Hr; cbn [select_loop].
  { exists rd. split; [by rewrite Z.add_0_r|]. split; [done|]. intros j _. cbn. by rewrite orb_false_r. }
  apply Forall_cons in Hl as [Hi Hl]. apply StronglySorted_inv in Hs as [Hs Hall]. specialize (IH Hl Hs).
  assert (high_fd i = true) as Hh by (unfold high_fd, MAX_FDS; lia).
  destruct (Z.leb_spec nfds i) as [Hn|Hn].
  { destruct (select_stops s nfds i l Hn Hall) as [-> Hex]. exists rd. split; [by rewrite Z.add_0_r|]. split; [done|].
    intros j _. by rewrite Hex, orb_false_r. }
  assert (select_input s nfds i = device_input s i) as Ei by (unfold select_input; by rewrite (proj2 (Z.ltb_lt i nfds))).
  rewrite count_cons, Ei. cbn [existsb]. rewrite Ei. unfold bind. rewrite fds_high by done.
  destruct (nz (fd_used (current_fd s i))) eqn:Hu; cbn [negb]; cbv beta iota.
  - rewrite select_asks by done. destruct (device_input s i); cbn [Z.b2z].
    + destruct (IH (ready + 1) (set_bit i rd)) as (rd' & E & El & Hb); [by rewrite set_bit_length|].
      exists rd'. split; [by rewrite E, Z.add_assoc|]. split; [by rewrite El, set_bit_length|]. intros j Hj.
      rewrite Hb, set_bit_spec by lia. rewrite andb_true_r. destruct (j =? i), (bit_of rd j); done.
    + destruct (IH ready rd Hr) as (rd' & E & El & Hb). exists rd'. split; [done|]. split; [done|]. intros j Hj.
      by rewrite Hb, andb_false_r.
  - assert (device_input s i = false) as -> by (unfold device_input; by rewrite Hh, Hu).
    destruct (IH ready rd Hr) as (rd' & E & El & Hb). exists rd'. split; [done|]. split; [done|]. intros j Hj.
    by rewrite Hb, andb_false_r.
Qed.

(** [select] changes nothing of the kernel.  In the set of the caller it adds the bits of
    descriptor 0 when the keyboard has a character and of the terminals, mice and sockets
    below [nfds] with input, asked for or not; it takes no bit away; and it returns how
    many it found. *)
Theorem select_adds nfds rd s : (2 ≤ length rd)%nat →
  ∃ rd', SYS_select nfds (Some rd) s =
      Some ((Z.b2z (keyboard_input s) + count (select_input s nfds) fd_candidates, Some rd'), s) ∧ length rd' = length rd ∧
    ∀ j, 0 ≤ j → bit_of rd' j = bit_of rd j || ((j =? 0) && keyboard_input s) || (bool_decide (j ∈ fd_candidates) && select_input s nfds j).
Proof.
  intros Hr. unfold SYS_select, bind, keyboard_avail, gets, ret. fold (keyboard_input s). set (rd0 := if keyboard_input s then _ else _).
  assert (length rd0 = length rd) as El0 by (unfold rd0; destruct (keyboard_input s); [apply set_bit_length|done]).
  destruct (select_loop_spec s nfds fd_candidates (Z.b2z (keyboard_input s)) rd0) as (rd' & E & El & Hb).
  { unfold fd_candidates. repeat constructor; lia. }
  { unfold fd_candidates. repeat constructor; lia. }
  { lia. }
  exists rd'. rewrite E. split; [done|]. split; [lia|]. intros j Hj. rewrite Hb by done. f_equal.
  - unfold rd0. destruct (keyboard_input s); [|by rewrite andb_false_r, orb_false_r]. rewrite set_bit_spec by lia.
    rewrite andb_true_r. apply orb_comm.
  - apply eq_true_iff_eq. rewrite existsb_exists, andb_true_iff, bool_decide_eq_true, list_elem_of_In. split.
    + intros (k & Hk & E'). apply andb_true_iff in E' as [->%Z.eqb_eq E']. done.
    + intros [Hk E']. exists j. by rewrite Z.eqb_refl.
Qed.
End waiting.

Section display.
Context {F : Type} `{FileOps F}.
Implicit Types s : iosys F.

(** ** The display *)

(** [s'] is [s] with other pixels: [f] of them. *)
Definition pixels_now s (f : Z → Z) s' : Prop :=
  ∃ b, s' = set_fb (set_pixels b (i_fb s)) s ∧ sf_len b = sf_len (f_front (i_fb s)) ∧ ∀ j, px b j = f j.

Lemma pixels_same s : pixels_now s (px (f_front (i_fb s))) s.
Proof. exists (f_front (i_fb s)). by destruct s as [? [] ? ? ?]. Qed.
Lemma pixels_ext s f g s' : (∀ j, f j = g j) → pixels_now s f s' → pixels_now s g s'.
Proof. intros E (b & ? & ? & Hb). exists b. split_and!; [done..|]. intros j. by rewrite Hb. Qed.

(** The words of one row. *)
Lemma movsl_run back at_ (n : nat) s f s1 : pixels_now s f s1 → 0 ≤ at_ →
  at_ + Z.of_nat n ≤ sf_len back → at_ + Z.of_nat n ≤ sf_len (f_front (i_fb s)) →
  wp (movsl back at_ at_ n) s1 (λ _ s', pixels_now s (λ j, if (at_ <=? j) && (j <? at_ + Z.of_nat n) then px back j else f j) s').
Proof.
  intros Hs Hat Hb Hf. eapply wp_mono; [apply (wp_for_up (λ k s', pixels_now s (λ j, if (at_ <=? j) && (j <? at_ + k) then px back j else f j) s'))|].
  - eapply pixels_ext; [|exact Hs]. intros j. cbn beta. replace (_ && _) with false by lia. done.
  - intros k s' Hk (b & -> & El & Hp). wp_step. apply wp_gets. cbv beta. cbn [i_fb set_fb f_front set_pixels].
    apply wp_bind, wp_assert; [unfold in_surface; lia|]. apply wp_modify. eexists. split; [reflexivity|]. split; [done|].
    intros j. rewrite px_put, Hp. case_decide as Ej.
    + subst j. replace ((at_ <=? at_ + k) && (at_ + k <? at_ + (k + 1))) with true by lia. done.
    + replace ((at_ <=? j) && (j <? at_ + (k + 1))) with ((at_ <=? j) && (j <? at_ + k)) by test_lia. done.
  - intros [] s' Hs'. by rewrite Z.add_0_l in Hs'.
Qed.

(** A rectangle of a screen with rows of [st] words: the indices of its first [n] rows. *)
Definition in_rows (start st w n j : Z) : bool := existsb (λ row, (start + row * st <=? j) && (j <? start + row * st + w)) (seqZ 0 n).

Lemma in_rows_next start st w n j : 0 ≤ n →
  in_rows start st w (n + 1) j = in_rows start st w n j || ((start + n * st <=? j) && (j <? start + n * st + w)).
Proof.
  intros Hn. unfold in_rows. rewrite seqZ_app by lia. rewrite existsb_app, Z.add_0_l, (seqZ_cons n), (seqZ_nil (Z.succ n)) by lia.
  cbn [existsb]. by rewrite orb_false_r.
Qed.

Lemma in_rows_rect st x y w h x' y' : 0 ≤ x → x + w ≤ st → 0 ≤ x' < st → 0 ≤ w → 0 ≤ h →
  in_rows (y * st + x) st w h (y' * st + x') = in_rect x y w h x' y'.
Proof.
  intros Hx Hw Hx' Hw0 Hh0. unfold in_rect. apply eq_true_iff_eq. unfold in_rows. rewrite existsb_range. split.
  - intros (row & Hrow & E). assert (y' * st + x' = (y + row) * st + (x + (y' * st + x' - ((y + row) * st + x)))) as Eq by lia.
    apply row_inj in Eq as [? ?]; [lia|lia|lia].
  - intros E. exists (y' - y). split; [lia|]. lia.
Qed.

Definition xy (x y : Z) : Z := x + 65536 * y.
Lemma xy_parts x y : 0 ≤ x < 65536 → 0 ≤ y < 65536 →
  Z.land (xy x y) 0xFFFF = x ∧ Z.land (Z.shiftr (xy x y) 16) 0xFFFF = y.
Proof.
  intros Hx Hy. unfold xy. change 0xFFFF with (Z.ones 16). rewrite !Z.land_ones, Z.shiftr_div_pow2 by lia.
  change (2 ^ 16) with 65536. rewrite <-(Z.div_unique (x + 65536 * y) 65536 y x) by lia. split.
  - symmetry. apply (Z.mod_unique _ _ y); lia.
  - by apply Z.mod_small.
Qed.

(** [disp_flush_rect] on a rectangle inside the screen returns 0; the points of the
    rectangle show the back buffer, all others what they showed, and nothing else
    changes. *)
Theorem flush_rect_copies s back x y w h : let f := i_fb s in let st := f_pitch f / 4 in
  f_active f = true → 0 ≤ x → 0 ≤ y → 0 < w < 65536 → 0 < h < 65536 → x + w ≤ st → y + h ≤ f_height f → x < 65536 → y < 65536 →
  st * f_height f ≤ sf_len (f_front f) → st * f_height f ≤ sf_len back → st * f_height f < 2 ^ 32 →
  wp (SYS_disp_flush_rect (Some back) (xy x y) (xy w h)) s (λ r s', r = 0 ∧
    ∃ b, s' = set_fb (set_pixels b f) s ∧ ∀ x' y', 0 ≤ x' < st → 0 ≤ y' < f_height f →
      px b (y' * st + x') = if in_rect x y w h x' y' then px back (y' * st + x') else px (f_front f) (y' * st + x')).
Proof.
  intros f st Ha Hx Hy Hw Hh Hxw Hyh Hx2 Hy2 Hfr Hbk Hst. unfold SYS_disp_flush_rect. wp_step. apply wp_gets.
  destruct (xy_parts x y) as [-> ->]; [lia|lia|]. destruct (xy_parts w h) as [-> ->]; [lia|lia|]. fold f. rewrite Ha.
  replace (_ || _) with false by lia. cbv zeta. fold st. rewrite u32_small by nia. apply wp_bind.
  eapply wp_mono; [apply (wp_for_up (λ row s', pixels_now s (λ j, if in_rows (y * st + x) st w row j then px back j else px (f_front f) j) s'))|].
  - eapply pixels_ext; [|apply pixels_same]. done.
  - intros row s1 Hrow H1. assert ((y + row + 1) * st ≤ f_height f * st) by (apply Z.mul_le_mono_nonneg_r; lia).
    eapply wp_mono; [apply (movsl_run back _ _ s _ s1 H1); [nia|rewrite Z2Nat.id by lia; fold f; lia..]|].
    intros [] s2 H2. eapply pixels_ext; [|exact H2]. intros j. cbv beta. rewrite Z2Nat.id, in_rows_next by lia.
    destruct ((y * st + x + row * st <=? j) && _); [by rewrite orb_true_r|by rewrite orb_false_r].
  - intros [] s' (b & -> & El & Hp). apply wp_ret. split; [done|]. exists b. split; [done|]. intros x' y' Hx' Hy'.
    rewrite Hp, Z.add_0_l, Z2Nat.id, in_rows_rect by lia. done.
Qed.

(** A rectangle that starts below the screen is stored after the framebuffer: nothing
    checks it. *)
Theorem flush_rect_overruns s back x y w h : let f := i_fb s in let st := f_pitch f / 4 in
  f_active f = true → 0 ≤ x < 65536 → 0 ≤ st → 0 ≤ f_height f → f_height f ≤ y < 65536 → 0 < w < 65536 → 0 < h < 65536 →
  sf_len (f_front f) = st * f_height f → y * st < 2 ^ 32 →
  SYS_disp_flush_rect (Some back) (xy x y) (xy w h) s = None.
Proof.
  intros f st Ha Hx Hst Hf Hy Hw Hh Hl Hy2. unfold SYS_disp_flush_rect, bind, gets.
  destruct (xy_parts x y) as [-> ->]; [lia|lia|]. destruct (xy_parts w h) as [-> ->]; [lia|lia|]. fold f. rewrite Ha.
  replace (_ || _) with false by lia. cbv zeta. fold st. rewrite u32_small by nia. replace (Z.to_nat h) with (Datatypes.S (Z.to_nat (h - 1))) by lia. cbn [for_up].
  unfold bind, movsl. replace (Z.to_nat w) with (Datatypes.S (Z.to_nat (w - 1))) by lia. cbn [for_up].
  unfold bind, gets, assert_. fold f. replace (in_surface (f_front f) _) with false; [by rewrite andb_false_r|].
  symmetry. unfold in_surface. nia.
Qed.
End display.

(** A terminal with a byte on descriptor 3, a counter at 2 on 4, at 0 on 5. *)
Definition some_fds : fdstate unit :=
  mkFdState {[ BOOT_FDS := list_to_map [(3, mkFd 1 FD_TTY 0 0 0 [] 0 0 0); (4, mkFd 1 1 0 0 0 [] 0 0 2); (5, mkFd 1 1 0 0 0 [] 0 0 0)] ]}
    BOOT_FDS ∅ ∅ [65] [30] [] [] tt.

Lemma poll_tells_witness : SYS_poll [5; 3; 0; 4; -1] 5 some_fds = Some ((3, [0; 1; 1; 1; 0]), some_fds).
Proof. rewrite (poll_tells [5; 3; 0; 4; -1] 5 some_fds); [vm_compute; reflexivity|cbn; lia]. Defined.

(** A screen of 4 by 3 points. *)
Definition tiny_screen : screen := mkScreen 0xE0000000 16 4 3 32 true false (mkSurface ∅ 12).
Definition io_booted : iosys unit := mkIo (mkPsys booted 0 0 1) tiny_screen 0 0 (mkMouse 0 0 0 0 0).
Definition tiny_back : surface := mkSurface {[ 5 := 7; 6 := 8; 0 := 9 ]} 12.

Lemma flush_rect_copies_witness :
  ∃ s', SYS_disp_flush_rect (Some tiny_back) (xy 1 1) (xy 2 2) io_booted = Some (0, s').
Proof.
  destruct (flush_rect_copies io_booted tiny_back 1 1 2 2) as (r & s' & E & -> & _);
    [reflexivity|(repeat split; vm_compute; first [reflexivity|discriminate])..|exists s'; exact E].
Defined.

(** ** The length of a row *)

(** The bytes after some stores. *)
Fixpoint store_at (o : Z) (bs : list Z) (m : gmap Z Z) : gmap Z Z :=
  match bs with [] => m | b :: bs' => store_at (o + 1) bs' (<[o := b]> m) end.
Definition after_stores (st : stores) (m : gmap Z Z) : gmap Z Z := foldl (λ m '(o, bs), store_at o bs m) m st.

Lemma store_at_lookup o bs m j :
  store_at o bs m !! j = if (o <=? j) && (j <? o + Z.of_nat (length bs)) then bs !! Z.to_nat (j - o) else m !! j.
Proof.
  revert o m. induction bs as [|b bs IH]; intros o m; cbn [store_at length].
  - destruct (Z.leb_spec o j), (Z.ltb_spec j (o + Z.of_nat 0)); by try lia.
  - rewrite IH. destruct (decide (j = o)) as [-> |Hne].
    + rewrite (proj2 (Z.leb_gt (o + 1) o)), (proj2 (Z.leb_le o o)), (proj2 (Z.ltb_lt o (o + Z.of_nat (Datatypes.S (length bs))))) by lia.
      cbn [andb]. by rewrite lookup_insert_eq, Z.sub_diag.
    + rewrite lookup_insert_ne by done. destruct (Z.leb_spec o j), (Z.leb_spec (o + 1) j); try lia; [|done].
      destruct (Z.ltb_spec j (o + 1 + Z.of_nat (length bs))), (Z.ltb_spec j (o + Z.of_nat (Datatypes.S (length bs)))); try lia; [|done].
      cbn [andb]. by replace (Z.to_nat (j - o)) with (Datatypes.S (Z.to_nat (j - (o + 1)))) by lia.
Qed.

(** [FBIOGET_FSCREENINFO] stores the length of a row at 46 and then zeros from 48 on: of
    the length two bytes are left, and nothing of it where a program looks for it, at 48. *)
Theorem row_length_lost (f : screen) (m : gmap Z Z) :
  let m' := after_stores (fscreeninfo f) m in
  [m' !! 46; m' !! 47] = [Some (u8 (f_pitch f)); Some (u8 (Z.shiftr (f_pitch f) 8))] ∧
  [m' !! 48; m' !! 49; m' !! 50; m' !! 51] = [Some 0; Some 0; Some 0; Some 0].
Proof.
  unfold after_stores, fscreeninfo. cbn [foldl]. rewrite !store_at_lookup. split; reflexivity.
Qed.

(** ** readv *)

Lemma ring_pop_add n m r :
  ring_pop (n + m) r = ((ring_pop n r).1 ++ (ring_pop m (ring_pop n r).2).1, (ring_pop m (ring_pop n r).2).2).
Proof.
  revert r. induction n as [|n IH]; intros r; [cbn; by destruct (ring_pop m r)|]. cbn [ring_pop Nat.add].
  destruct (_ =? _) eqn:E; cbn [fst snd].
  - destruct m; cbn [ring_pop]; [done|by rewrite E].
  - rewrite IH. destruct (ring_pop n _) as [bs r']. done.
Qed.
(** Fewer bytes than asked for: the ring is empty. *)
Lemma ring_pop_short n r : (length (ring_pop n r).1 < n)%nat → (r_rpos (ring_pop n r).2 =? r_wpos (ring_pop n r).2) = true.
Proof.
  revert r. induction n as [|n IH]; intros r; cbn [ring_pop]; [cbn; lia|]. destruct (_ =? _) eqn:E; [done|].
  specialize (IH (mkRing (r_buf r) (u32 (r_rpos r + 1)) (r_wpos r))). destruct (ring_pop n _) as [bs r']. cbn in *. lia.
Qed.
Lemma ring_pop_empty n r : (r_rpos r =? r_wpos r) = true → ring_pop n r = ([], r).
Proof. intros E. destruct n; cbn [ring_pop]; [done|]. by rewrite E. Qed.

Section readv.
Context {F : Type} `{FileOps F}.

Definition total (iov : list Z) : nat := foldr (λ len n, Z.to_nat len + n)%nat O iov.

Lemma readv_pipe_run p iov tot got (s : fdstate F) q : 0 ≤ p < MAX_PIPES → Forall (Z.le 0) iov → fs_pipes s !! p = Some q →
  let '(bs, r) := ring_pop (total iov) (p_ring q) in
  ∃ got', readv_pipe p iov tot got s = Some ((tot + Z.of_nat (length bs), got ++ got'),
      set_pipes (<[p := mkPipe (p_used q) r]> (fs_pipes s)) s) ∧ concat got' = bs.
Proof.
  intros Hp. revert tot got s q. induction iov as [|len iov IH]; intros tot got s q Hall Hq; cbn [readv_pipe total foldr].
  { exists []. cbn. rewrite Z.add_0_r, app_nil_r. split; [|done]. do 2 f_equal. rewrite insert_id by (by destruct q). by destruct s. }
  apply Forall_cons in Hall as [Hlen Hall]. fold (total iov). destruct (Z.eqb_spec len 0) as [-> |Nz].
  { specialize (IH tot (got ++ [[]]) s q Hall Hq). cbn [Z.to_nat Nat.add]. destruct (ring_pop _ _) as [bs r].
    destruct IH as (got' & E & Ec). exists ([] :: got'). rewrite E, <-app_assoc. done. }
  rewrite ring_pop_add. unfold bind, pipe_at, pipe_set, bind, assert_, gets, modify. rewrite !(proj2 (andb_true_iff _ _)) by lia.
  unfold skip, ret. rewrite Hq. cbn [default id].
  pose proof (ring_pop_short (Z.to_nat len) (p_ring q)) as Hshort. destruct (ring_pop (Z.to_nat len) (p_ring q)) as [bs r] eqn:Er.
  cbn [fst snd] in *. destruct (Z.ltb_spec (Z.of_nat (length bs)) len) as [Hlt|Hge].
  - rewrite ring_pop_empty by (apply Hshort; lia). cbn [fst snd]. exists [bs]. rewrite app_nil_r. split; [done|]. cbn. by rewrite app_nil_r.
  - specialize (IH (tot + Z.of_nat (length bs)) (got ++ [bs]) (set_pipes (<[p := mkPipe (p_used q) r]> (fs_pipes s)) s)
      (mkPipe (p_used q) r) Hall (lookup_insert_eq _ _ _)). cbn [p_ring p_used fs_pipes set_pipes] in IH.
    destruct (ring_pop (total iov) r) as [bs2 r2]. destruct IH as (got' & E & Ec). exists (bs :: got'). cbn [fst snd].
    rewrite E, length_app, Nat2Z.inj_add, Z.add_assoc, <-app_assoc. split; [|cbn; by rewrite Ec]. do 2 f_equal. by rewrite insert_insert_eq.
Qed.

(** [readv] on a pipe is one read of the sum of the lengths: it returns as many bytes and
    leaves the pipe the same, and the buffers in their order hold the same bytes. *)
Theorem readv_as_read fd iov (s : fdstate F) p q : high_fd fd = true →
  nz (fd_used (current_fd s fd)) = true → fd_type (current_fd s fd) = 3 → fd_pipe (current_fd s fd) = p →
  0 ≤ p < MAX_PIPES → fs_pipes s !! p = Some q → nz (p_used q) = true →
  (0 < length iov ≤ 16)%nat → Forall (Z.le 0) iov →
  let '(bs, r) := ring_pop (total iov) (p_ring q) in
  ∃ got, SYS_readv fd (Some iov) s = Some ((Z.of_nat (length bs), got), set_pipes (<[p := mkPipe (p_used q) r]> (fs_pipes s)) s) ∧
    concat got = bs.
Proof.
  intros Hh Hfu Ht Hfp Hp Hq Hu Hn Hall. pose proof (readv_pipe_run p iov 0 [] s q Hp Hall Hq) as Hr.
  destruct (ring_pop (total iov) (p_ring q)) as [bs r]. destruct Hr as (got & E & Ec). exists got. split; [|done].
  unfold SYS_readv. replace (_ || _) with false by lia. unfold bind, open_high. fold (high_fd fd). rewrite Hh. unfold bind.
  rewrite fds_high by done. unfold ret. rewrite Hfu. cbn [negb]. rewrite fds_high, Ht, Hfp by done. cbn [Z.eqb Pos.eqb].
  replace (_ || _) with false by lia. unfold pipe_at, bind, assert_, gets. rewrite (proj2 (andb_true_iff _ _)) by lia. unfold skip, ret.
  rewrite Hq. cbn [default id]. rewrite Hu. cbn [negb]. rewrite E. done.
Qed.
End readv.
