(* ===== verification/SysExec.v ===== *)
(** * SysExec: execve, spawn and spawn_shared

    The three cases of [syscall_handler] in [OvsbMk/kernel/syscall.c] that start a
    program.  They read the file into a block of the kernel's heap, build an address
    space, load the program into it and make or change a process.  The ELF loader, which
    is written in Zig, is a class; so is the stack of a Linux program on the kernel's
    memory, which [UserStack] has on a memory of bytes.  The caller's strings are lists.
    Log output is left out. *)

From Stdlib Require Import ZArith Lia.
From stdpp Require Import gmap list prelude.
From S2P Require Import Prelude KHeap Buddy Slab Paging VmMap Vfs Fat32 Fds FdCalls Process MachO SysPath.

Open Scope Z_scope.

(** [elf64_find_interp] gives the length of the path, or a number below 1, and the path.
    [user_stack]: the top, phdr, phent, phnum, base, and the two vectors. *)
Class Loader := {
  elf64_load_into_pml4 : Z → Z → Z → M heap Z;
  elf64_load_at : Z → Z → Z → Z → M heap Z;
  elf64_find_interp : Z → Z → M heap (Z * list Z);
  elf64_pie_base : Z;
  user_stack : Z → Z → Z → Z → Z → list (list Z) → list (list Z) → M heap Z }.

(** ** The image in memory *)

Fixpoint put_bytes (a : Z) (bs : list Z) : M heap unit :=
  match bs with [] => skip | b :: bs' => store8 a b ;! put_bytes (a + 1) bs' end.

Definition rd16 (a : Z) : M heap Z := gets (λ h, field (h_mem h) a 2).

(** [Elf64_Ehdr] and [Elf64_Phdr]. *)
Definition e_type (ehdr : Z) : M heap Z := rd16 (ehdr + 16).
Definition e_phoff (ehdr : Z) : M heap Z := rd64 (ehdr + 32).
Definition e_phentsize (ehdr : Z) : M heap Z := rd16 (ehdr + 54).
Definition e_phnum (ehdr : Z) : M heap Z := rd16 (ehdr + 56).
Definition p_type (pp : Z) : M heap Z := rd32 pp.
Definition p_offset (pp : Z) : M heap Z := rd64 (pp + 8).
Definition p_vaddr (pp : Z) : M heap Z := rd64 (pp + 16).
Definition p_memsz (pp : Z) : M heap Z := rd64 (pp + 40).
Definition PT_LOAD : Z := 1.

(** ["\x7fELF"] *)
Definition elf_magic (buf : Z) : M heap bool :=
  let! a := load8 buf in let! b := load8 (buf + 1) in let! c := load8 (buf + 2) in let! d := load8 (buf + 3) in
  ret ((a =? 0x7F) && (b =? 69) && (c =? 76) && (d =? 70)).

Definition page_of_2mb (a : Z) : Z := Z.ldiff a 0x1FFFFF.
(** [for (va = from; va < to; va += 0x200000) pml4_add_user(pml4, va);] *)
Definition add_user_range (pml4 from to : Z) : M heap unit :=
  while_ (λ va,
    if va <? to then let! _ := pml4_add_user pml4 va in ret (inl (u64 (va + 0x200000))) else ret (inr tt)) from.

(** The loop over the program headers of execve and spawn: [elf_phdr] and the end of the
    last segment; [seg] is done for each segment. *)
Fixpoint scan_phdrs (n : nat) (pp phent phoff base phdr bss : Z) (seg : Z → Z → M heap unit) : M heap (Z * Z) :=
  match n with
  | O => ret (phdr, bss)
  | S n' =>
      let! ty := p_type pp in
      if ty =? PT_LOAD then
        let! off := p_offset pp in
        let! va := p_vaddr pp in
        let! msz := p_memsz pp in
        let phdr := if phdr =? 0 then u64 (base + va + (phoff - off)) else phdr in
        let seg_end := u64 (base + va + msz) in
        let bss := if bss <? seg_end then seg_end else bss in
        seg va msz ;!
        scan_phdrs n' (pp + phent) phent phoff base phdr bss seg
      else scan_phdrs n' (pp + phent) phent phoff base phdr bss seg
  end.
(** That of spawn_shared stops at the first segment. *)
Fixpoint first_phdr (n : nat) (pp phent phoff base : Z) : M heap Z :=
  match n with
  | O => ret 0
  | S n' =>
      let! ty := p_type pp in
      if ty =? PT_LOAD then
        let! off := p_offset pp in
        let! va := p_vaddr pp in
        ret (u64 (base + va + (phoff - off)))
      else first_phdr n' (pp + phent) phent phoff base
  end.
Definition page_end (a : Z) : Z := Z.ldiff (u64 (a + 0xFFF)) 0xFFF.

Section exec.
Context {F : Type} `{FileOps F} `{DiskFiles F} `{Loader}.

Abbreviation X := (M (wsys F)).
Definition on_mem {A} (m : M heap A) : X A := on_kern (on_heap m).

(** ** execve *)

(** Step 2: absolute, or under /bin. *)
Definition exec_path (kpath : list Z) : X (list Z) :=
  let! cwd := cwd_now in
  let! abs := lift (vfs_abs_path (Some cwd) (take (Z.to_nat (VFS_MAX_PATH - 1)) kpath) VFS_MAX_PATH) in
  let kpath := if fst abs =? 0 then take 511 (snd abs) else kpath in
  ret (if bool_decide (head kpath = Some 47) then kpath else [47; 98; 105; 110; 47] ++ take 120 kpath).

(** Step 3: the block with the file and its size. *)
Definition exec_read (kpath : list Z) : X (option (Z * Z)) :=
  let! st := vfs_stat_size kpath in
  match st with
  | None => ret None
  | Some (fsize, _) =>
      if fsize <? 64 then ret None else
      let! buf := on_mem (kmalloc (u32 (fsize + 1))) in
      if buf =? 0 then ret None else
      let! f := gets files in
      let '(r, bs) := read_at kpath fsize 0 f in
      on_mem (put_bytes buf bs) ;!
      let! elf := on_mem (elf_magic buf) in
      if (r <? 0) || negb elf then on_mem (kfree buf) ;! ret None else ret (Some (buf, fsize))
  end.

(** Steps 4 and 5: the address space, the entry point, [elf_phdr], [elf_bss_end],
    [elf_base] and the stack. *)
Record image := mkImage { im_pml4 : Z; im_entry : Z; im_phdr : Z; im_bss : Z; im_base : Z; im_stack : Z }.

Definition EXECVE_STACK_SIZE : Z := 65536.

Definition exec_load (buf fsize : Z) : M heap (option image) :=
  let! child := clone_identity_tables in
  if child =? 0 then kfree buf ;! ret None else
  let! ty := e_type buf in
  let base := if ty =? 3 then elf64_pie_base else 0 in
  let! phoff := e_phoff buf in
  let! phnum := e_phnum buf in
  let! phent := e_phentsize buf in
  let! r := scan_phdrs (Z.to_nat phnum) (buf + phoff) phent phoff base 0 0 (λ va msz,
    add_user_range child (page_of_2mb (u64 (base + va))) (page_of_2mb (u64 (base + u64 (va + msz) + 0x1FFFFF)))) in
  let! entry := elf64_load_into_pml4 buf fsize child in
  let! i := elf64_find_interp buf fsize in
  if (entry =? 0) || (0 <? fst i) then kfree buf ;! pml4_destroy child ;! ret None else
  kfree buf ;!
  let! ustack := kmalloc EXECVE_STACK_SIZE in
  if ustack =? 0 then pml4_destroy child ;! ret None else
  add_user_range child (page_of_2mb ustack) (ustack + EXECVE_STACK_SIZE) ;!
  ret (Some (mkImage child entry (fst r) (page_end (snd r)) base ustack)).

(** Step 6: the process. *)
Definition exec_process (me : Z) (im : image) : X Z :=
  let! old := (if me <? 0 then ret 0 else
    let! p := on_kern (pcb_get me) in
    on_kern (pcb_upd me (λ p, with_fs_base 0
      ((if nz (im_bss im) then with_program_break (im_bss im) else λ p, p) (with_pml4 (im_pml4 im) p)))) ;!
    ret (pml4 p)) in
  on_tab fds_cleanup ;!
  ret old.

(** Step 9: the frame [regs] the call returns with. *)
Definition exec_frame (regs entry rsp : Z) : M heap unit :=
  for_up 14 1 (λ i, store (regs + 8 * i) 0) ;!
  store (regs + 8 * 15) entry ;!
  store (regs + 8 * 16) 0x1B ;!
  store (regs + 8 * 17) 0x202 ;!
  store (regs + 8 * 18) rsp ;!
  store (regs + 8 * 19) 0x23.

Definition SYS_execve (upath : option (list Z)) (kargv kenvp : list (list Z)) (regs : Z) : X Z :=
  match upath with
  | None | Some [] => ret (-1)
  | Some upath =>
      let! me := on_kern process_current in
      let! kpath := exec_path (take 511 upath) in
      let! file := exec_read kpath in
      match file with
      | None => ret (-1)
      | Some (buf, fsize) =>
          let! im := on_mem (exec_load buf fsize) in
          match im with
          | None => ret (-1)
          | Some im =>
              let! old := exec_process me im in
              on_mem (
                pml4_load (im_pml4 im) ;!
                let! phent := e_phentsize buf in
                let! phnum := e_phnum buf in
                let! rsp := user_stack (im_stack im + EXECVE_STACK_SIZE) (im_phdr im) phent phnum (im_base im) kargv kenvp in
                (if nz old then pml4_destroy old else skip) ;!
                exec_frame regs (im_entry im) rsp) ;!
              ret 0
          end
      end
  end.

(** ** spawn *)

(** The file in a block, in the current directory. *)
Definition spawn_read (fname : list Z) : X (option (Z * Z)) :=
  let! st := on_fat (fat32_stat fname) in
  match st with
  | (r, Some (fsize, _, _, _)) =>
      if r <? 0 then ret None else
      let! buf := on_mem (kmalloc (u32 (fsize + 1))) in
      if buf =? 0 then ret None else
      let! f := on_fat (fat32_read_file fname fsize) in
      on_mem (put_bytes buf (snd f)) ;!
      if fst f <? 0 then on_mem (kfree buf) ;! ret None else ret (Some (buf, fsize))
  | (_, None) => ret None
  end.

Definition is_elf (buf fsize : Z) : M heap bool := if 4 <=? fsize then elf_magic buf else ret false.

Definition INTERP_BASE : Z := 0x60000000.
Definition INTERP_SIZE : Z := 4 * 1024 * 1024.

(** The interpreter of a dynamic program: its entry point, or 0. *)
Definition load_interp (buf fsize child : Z) : X Z :=
  let! i := on_mem (elf64_find_interp buf fsize) in
  if fst i <=? 0 then ret 0 else
  let! idata := on_mem (kmalloc INTERP_SIZE) in
  if idata =? 0 then ret 0 else
  let! f := gets files in
  let '(r, bs) := read_at (snd i) INTERP_SIZE 0 f in
  on_mem (put_bytes idata bs) ;!
  let! ie := (if 0 <? r then on_mem (elf64_load_at idata INTERP_SIZE child INTERP_BASE) else ret 0) in
  on_mem (kfree idata) ;!
  ret ie.

(** The ELF part of a new process: phdr, phent, phnum, bss, base, the interpreter. *)
Record elf := mkElf { l_phdr : Z; l_phent : Z; l_phnum : Z; l_bss : Z; l_base : Z; l_interp : Z }.

Definition spawn_elf (buf fsize child : Z) : X (Z * elf) :=
  let! phent := on_mem (e_phentsize buf) in
  let! phnum := on_mem (e_phnum buf) in
  let! ty := on_mem (e_type buf) in
  let! phoff := on_mem (e_phoff buf) in
  let base := if ty =? 3 then elf64_pie_base else 0 in
  let! r := on_mem (scan_phdrs (Z.to_nat phnum) (buf + phoff) phent phoff base 0 0 (λ _ _, skip)) in
  let! entry := on_mem (elf64_load_into_pml4 buf fsize child) in
  let! ie := load_interp buf fsize child in
  ret (entry, mkElf (fst r) phent phnum (if nz phnum then page_end (snd r) else 0) base ie).

(** The new address space and stack of every slot with the new identifier. *)
Definition adopt (child : Z) (l : option elf) (i : Z) : M (kstate F) unit :=
  let! p := pcb_get i in
  on_heap (pml4_destroy (pml4 p)) ;!
  pcb_upd i (with_pml4 child) ;!
  match l with
  | None => skip
  | Some l =>
      (if nz (l_bss l) then pcb_upd i (with_program_break (l_bss l)) else skip) ;!
      let! p := pcb_get i in
      on_heap (
        let kframe := kernel_rsp p in
        let! old_rsp := load (kframe + 8 * 18) in
        let! rsp := user_stack old_rsp (l_phdr l) (l_phent l) (l_phnum l) (if nz (l_interp l) then l_interp l else l_base l) [] [] in
        store (kframe + 8 * 18) rsp)
  end.

Definition SYS_spawn (fname : option (list Z)) : X Z :=
  match fname with
  | None | Some [] => ret (-1)
  | Some fname =>
      let! file := spawn_read fname in
      match file with
      | None => ret (-1)
      | Some (buf, fsize) =>
          let! child := on_mem clone_identity_tables in
          if child =? 0 then on_mem (kfree buf) ;! ret (-1) else
          let! el := on_mem (is_elf buf fsize) in
          let! r := (if el : bool then let! r := spawn_elf buf fsize child in ret (fst r, Some (snd r))
                     else let! e := on_mem (mach_o_load_into_pml4 buf child) in ret (e, None)) in
          on_mem (kfree buf) ;!
          let '(entry, l) := r in
          if entry =? 0 then ret (-1) else
          let entry := match l with Some l => if nz (l_interp l) then l_interp l else entry | None => entry end in
          let! stack := on_mem (kmalloc 65536) in
          if stack =? 0 then ret (-1) else
          on_mem (add_user_range child (page_of_2mb stack) (stack + 65536)) ;!
          let! np := on_kern (proc_spawn fname entry (stack + 65536)) in
          if np <? 0 then on_mem (kfree stack) ;! ret (-1) else
          on_kern (for_up 64 0 (λ i, let! p := pcb_get i in if pid p =? np then adopt child l i else skip)) ;!
          ret np
      end
  end.

(** ** spawn_shared *)

(** The walk to the directory and the name of the file.  [ret] is unsigned, so that
    [if (ret < 0)] never holds: a directory that is missing ends the walk, not the call. *)
Definition shared_from (p : list Z) (base : Z) : T (list Z) :=
  match last_slash (from p base) base None with
  | None => ret (cstr (from p base))
  | Some l =>
      let p := cut_at p l in
      let! _ := while_ (λ '(p, w), walk_name p w) (p, base) in
      ret (cstr (from p (l + 1)))
  end.
Definition shared_name (fname : list Z) : T (list Z) :=
  let p := take 255 fname ++ [0] in
  let! c := char_at p 0 in
  let! base := (if c =? 47 then let! _ := fat32_change_dir [47] in ret 1 else ret 0) in
  shared_from p base.

Definition shared_entry (buf fsize child : Z) : M heap (Z * option elf) :=
  let! el := is_elf buf fsize in
  if el : bool then
    let! phent := e_phentsize buf in
    let! phnum := e_phnum buf in
    let! ty := e_type buf in
    let! phoff := e_phoff buf in
    let base := if ty =? 3 then elf64_pie_base else 0 in
    let! phdr := first_phdr (Z.to_nat phnum) (buf + phoff) phent phoff base in
    let! entry := elf64_load_into_pml4 buf fsize child in
    ret (entry, Some (mkElf phdr phent phnum 0 base 0))
  else let! e := mach_o_load_into_pml4 buf child in ret (e, None).

Definition SYS_spawn_shared (fname : option (list Z)) : X Z :=
  match fname with
  | None | Some [] => ret (-1)
  | Some fname =>
      let! saved := on_fat fat32_get_cwd in
      let! file := on_fat (shared_name fname) in
      let! f := spawn_read file in
      on_fat (fat32_set_cwd saved) ;!
      match f with
      | None => ret (-1)
      | Some (buf, fsize) =>
          let! child := on_mem clone_identity_tables in
          if child =? 0 then on_mem (kfree buf) ;! ret (-1) else
          let! r := on_mem (shared_entry buf fsize child) in
          on_mem (kfree buf) ;!
          let '(entry, l) := r in
          if entry =? 0 then ret (-1) else
          let! stack := on_mem (kmalloc 65536) in
          if stack =? 0 then ret (-1) else
          on_mem (
            let! _ := pml4_add_user child 0x500000 in
            let! _ := pml4_add_user child 0xA00000 in
            let! _ := pml4_add_user child 0x6000000 in
            let! _ := pml4_add_user child 0xE00000 in skip) ;!
          let! np := on_kern (proc_spawn fname entry (stack + 65536)) in
          if np <? 0 then on_mem (kfree stack) ;! ret (-1) else
          on_kern (let! i := gets (λ s, find_first (λ i, pid (pcb_of s i) =? np) slots) in
                   if 0 <=? i then adopt child l i else skip) ;!
          ret np
      end
  end.
End exec.
