(* ===== verification/SysExecProof.v ===== *)
(** * SysExecProof: starting programs

    Where spawn_shared looks for its file: a directory that is missing does not stop it.
    execve that fails leaves the processes and their descriptors as they were; one that
    succeeds has built an image and enters it. *)

From Stdlib Require Import ZArith Lia.
From stdpp Require Import gmap list prelude.
From S2P Require Import Prelude KHeap Buddy BuddyProof PageAlloc Slab Paging VmMap Vfs Fat32 Fds FdCalls Process MachO FdProof ProcProof SysPath SysPathProof SysExec.

Open Scope Z_scope.

(** ** spawn_shared *)

(** By parts: the directories, whatever becomes of them, and the last part. *)
Definition shared_parts (cur : list Z) : T (list Z) := let! _ := enter (removelast (parts cur)) in ret (default [] (last (parts cur))).

Lemma shared_from_parts p base cur st : 0 ≤ base → from p base = cur ++ [0] → no_zero cur → (length cur < 256)%nat →
  shared_from p base st = shared_parts cur st.
Proof.
  intros Hb E Hz Hl. unfold shared_from, shared_parts. rewrite E. destruct (last_name cur) as [Hs|(d & f & -> & Hs)].
  - rewrite last_slash_none, parts_plain by done. cbn [removelast enter last default id]. unfold bind, ret. by rewrite cstr_zero.
  - apply Forall_app in Hz as [Hzd Hz]. apply Forall_cons in Hz as [_ Hzf]. rewrite length_app in Hl. cbn [length] in Hl.
    rewrite <-app_assoc in *. cbn [app] in *. rewrite last_slash_found, parts_snoc by done. rewrite removelast_last, last_snoc.
    cbv zeta. pose proof (cut_from p base d 47 _ Hb E) as E1. pose proof (cut_after p base d 47 _ Hb E) as E2.
    set (p' := cut_at _ _) in *. unfold bind. rewrite (walk_enters d p' base _ st Hb E1 Hzd) by lia.
    destruct (enter (parts d) st) as [[r st']|]; [|done]. rewrite E2, cstr_zero by done. done.
Qed.

(** spawn_shared walks through the directories of the path and looks for the last part
    where the walk ended, also where it ended because a directory is missing: the test of
    the result is of an unsigned number. *)
Theorem missing_directory_ignored path st : no_zero path → path ≠ [] →
  shared_name path st =
    (let p := take 255 path in
     if bool_decide (head p = Some 47) then let! _ := fat32_change_dir [47] in shared_parts (tail p) else shared_parts p) st.
Proof.
  intros Hz Hne. unfold shared_name. cbv zeta. destruct path as [|c path]; [done|]. set (p := take 255 (c :: path)).
  assert (∃ q, p = c :: q ∧ (length q < 255)%nat) as (q & Ep & Hq).
  { exists (take 254 path). split; [done|]. rewrite length_take. lia. }
  assert (no_zero p) as Hp by (by apply no_zero_take). rewrite Ep in *. clear p Ep. apply Forall_cons in Hp as [Hc Hp].
  assert (((c :: q) ++ [0]) !! Z.to_nat 0 = Some c) as E0 by done. unfold char_at, bind. rewrite E0. unfold ret. cbv beta iota.
  cbn [app head tail]. destruct (Z.eqb_spec c 47) as [-> |Nc].
  - rewrite bool_decide_true by done. destruct (fat32_change_dir [47] st) as [[r st1]|]; [|done].
    apply shared_from_parts; [lia|done|done|lia].
  - rewrite bool_decide_false by congruence. apply (shared_from_parts _ 0 (c :: q)); [lia|done|by constructor|cbn; lia].
Qed.

(** ** execve *)

Section execve.
Context {F : Type} `{FileOps F} `{DiskFiles F} `{Loader}.
Implicit Types s : wsys F.

(** The processes and their descriptors. *)
Definition untouched s s' : Prop :=
  k_pcb (x_k s') = k_pcb (x_k s) ∧ k_current (x_k s') = k_current (x_k s) ∧
  fs_tables (k_fds (x_k s')) = fs_tables (k_fds (x_k s)) ∧ fs_fdtab (k_fds (x_k s')) = fs_fdtab (k_fds (x_k s)).

Lemma untouched_refl s : untouched s s.
Proof. done. Qed.
Lemma untouched_trans s1 s2 s3 : untouched s1 s2 → untouched s2 s3 → untouched s1 s3.
Proof. intros (? & ? & ? & ?) (? & ? & ? & ?). split_and!; congruence. Qed.

(** Code that leaves them alone. *)
Definition calm {A} (m : M (wsys F) A) : Prop := ∀ s, wlp m s (λ _ s', untouched s s').

Lemma calm_bind {A B} (m : M (wsys F) A) (k : A → M (wsys F) B) : calm m → (∀ a, calm (k a)) → calm (let! a := m in k a).
Proof.
  intros Hm Hk s. apply wlp_bind. eapply wlp_mono; [apply Hm|]. intros a s1 U1. eapply wlp_mono; [apply Hk|].
  intros b s2 U2. exact (untouched_trans _ _ _ U1 U2).
Qed.
Lemma calm_ret {A} (a : A) : calm (ret a).
Proof. intros s. by apply wlp_ret. Qed.
Lemma calm_gets {A} (f : wsys F → A) : calm (gets f).
Proof. intros s. by apply wlp_gets. Qed.
Lemma calm_if {A} (b : bool) (m1 m2 : M (wsys F) A) : calm m1 → calm m2 → calm (if b then m1 else m2).
Proof. by destruct b. Qed.
Lemma calm_mem {A} (m : M heap A) : calm (on_mem m).
Proof.
  intros s a s'. unfold on_mem, on_kern, on_heap, zoom. destruct (m _) as [[b h]|]; [|done]. by intros [= <- <-].
Qed.
Lemma calm_fat {A} (m : T A) : calm (on_fat m).
Proof.
  intros s a s'. unfold on_fat, on_tab, on_kern, zoom. destruct (m _) as [[b d]|]; [|done]. by intros [= <- <-].
Qed.
Lemma calm_lift {A} (o : option A) : calm (lift o).
Proof. destruct o; [apply calm_ret|done]. Qed.
Lemma calm_cwd : calm cwd_now.
Proof. intros s. by apply wlp_cwd_now. Qed.

Ltac calm := repeat match goal with
  | |- calm (bind _ _) => apply calm_bind; [|intros ?]
  | |- calm (ret _) => apply calm_ret
  | |- calm (gets _) => apply calm_gets
  | |- calm (on_mem _) => apply calm_mem
  | |- calm (on_fat _) => apply calm_fat
  | |- calm (lift _) => apply calm_lift
  | |- calm cwd_now => apply calm_cwd
  | |- calm (if _ then _ else _) => apply calm_if
  | |- calm (match ?x with _ => _ end) => destruct x
  end.

Lemma calm_stat name : calm (vfs_stat_size name).
Proof. unfold vfs_stat_size, fat_size_attr. calm. Qed.
Lemma calm_path kpath : calm (exec_path kpath).
Proof. unfold exec_path. calm. Qed.
Lemma calm_read kpath : calm (exec_read kpath).
Proof. unfold exec_read. apply calm_bind; [apply calm_stat|]. intros st. calm. Qed.

(** Descriptors from 3 on are closed, the first three stay. *)
Definition closed_high (t t' : fdstate F) : Prop :=
  fs_fdtab t' = fs_fdtab t ∧ ∀ fd, fd_of t' (fs_fdtab t) fd =
    (if (3 <=? fd) && (fd <? 16) then set_used 0 (fd_of t (fs_fdtab t) fd) else fd_of t (fs_fdtab t) fd).

Lemma cleanup_closes (t : fdstate F) : wp fds_cleanup t (λ _ t', closed_high t t').
Proof.
  unfold fds_cleanup. eapply wp_mono; [apply (wp_for_up (λ i t', fs_fdtab t' = fs_fdtab t ∧ ∀ fd, fd_of t' (fs_fdtab t) fd =
    (if (3 <=? fd) && (fd <? i) then set_used 0 (fd_of t (fs_fdtab t) fd) else fd_of t (fs_fdtab t) fd)))|].
  - split; [done|]. intros fd. destruct (Z.leb_spec 3 fd), (Z.ltb_spec fd 3); try lia; done.
  - intros i t1 Hi [Et Hfd]. unfold fds_upd. apply wp_bind, wp_assert; [unfold MAX_FDS; lia|]. apply wp_modify.
    rewrite Et. split; [done|]. intros fd. rewrite fd_of_upd, !Hfd. case_decide as E.
    + destruct E as [_ ->]. destruct (Z.leb_spec 3 fd), (Z.ltb_spec fd fd), (Z.ltb_spec fd (fd + 1)); try lia; done.
    + assert (fd ≠ i) by (intros ->; by apply E). destruct (Z.leb_spec 3 fd), (Z.ltb_spec fd i), (Z.ltb_spec fd (i + 1)); try lia; done.
  - intros [] t' Ht. exact Ht.
Qed.

(** The process after execve. *)
Definition renewed (im : image) (p : pcb) : pcb :=
  with_fs_base 0 ((if nz (im_bss im) then with_program_break (im_bss im) else λ p, p) (with_pml4 (im_pml4 im) p)).
Definition replaced (im : image) s s' : Prop :=
  closed_high (k_fds (x_k s)) (k_fds (x_k s')) ∧ k_current (x_k s') = k_current (x_k s) ∧
  ∀ me j, process_current (x_k s) = Some (me, x_k s) →
    pcb_of (x_k s') j = if bool_decide (0 ≤ me ∧ j = me) then renewed im (pcb_of (x_k s) j) else pcb_of (x_k s) j.

Lemma untouched_pcb s s' j : untouched s s' → pcb_of (x_k s') j = pcb_of (x_k s) j.
Proof. intros (Ep & _). unfold pcb_of. by rewrite Ep. Qed.
Lemma untouched_current s s' me : untouched s s' →
  process_current (x_k s) = Some (me, x_k s) → process_current (x_k s') = Some (me, x_k s').
Proof.
  intros (Ep & Ec & _). unfold process_current, gets, pcb_of. rewrite Ep, Ec.
  match goal with |- Some (?x, _) = _ → _ => generalize x end. by intros x [= ->].
Qed.
Lemma untouched_fd s s' t fd : untouched s s' → fd_of (k_fds (x_k s')) t fd = fd_of (k_fds (x_k s)) t fd.
Proof. intros (_ & _ & Et & _). unfold fd_of, tab_of. by rewrite Et. Qed.

Lemma replaced_between im s s1 s2 s3 : untouched s s1 → replaced im s1 s2 → untouched s2 s3 → replaced im s s3.
Proof.
  intros U1 (Hc & Ec & Hp) U3. pose proof U1 as (_ & Ec1 & _ & Ef1). pose proof U3 as (_ & Ec3 & _ & Ef3).
  destruct Hc as [Ef Hfd]. split; [split; [congruence|]|split; [congruence|]].
  - intros fd. rewrite (untouched_fd _ _ _ _ U3). rewrite <-!(untouched_fd _ _ _ _ U1), <-Ef1. apply Hfd.
  - intros me j Hme. rewrite (untouched_pcb _ _ _ U3), (Hp me j) by (by eapply untouched_current).
    by rewrite (untouched_pcb _ _ _ U1).
Qed.

Lemma exec_process_spec me im s : process_current (x_k s) = Some (me, x_k s) → wlp (exec_process me im) s (λ _ s', replaced im s s').
Proof.
  intros Hme. unfold exec_process. apply wlp_bind.
  assert (∀ s1, (∀ j, pcb_of (x_k s1) j = if bool_decide (0 ≤ me ∧ j = me) then renewed im (pcb_of (x_k s) j) else pcb_of (x_k s) j) →
    k_fds (x_k s1) = k_fds (x_k s) → k_current (x_k s1) = k_current (x_k s) → ∀ old : Z,
    wlp (on_tab fds_cleanup ;! ret old) s1 (λ _ s', replaced im s s')) as Hclose.
  { intros s1 Hp Ef Ec old. apply wlp_bind, wlp_on_tab. intros [] t Et. apply wlp_ret. rewrite Ef in Et.
    destruct (cleanup_closes (k_fds (x_k s))) as ([] & t' & Et' & Hc). rewrite Et in Et'. injection Et' as <-.
    split; [exact Hc|]. split; [exact Ec|]. intros me' j Hme'. rewrite Hme in Hme'. injection Hme' as <-. apply Hp. }
  destruct (Z.ltb_spec me 0) as [Hneg|Hpos].
  - apply wlp_ret, Hclose; [|done..]. intros j. rewrite bool_decide_false by lia. done.
  - apply wlp_bind. unfold on_kern at 1. apply wlp_zoom. intros p k. unfold pcb_get, bind, assert_, gets.
    destruct (_ && _); [|done]. intros [= <- <-]. apply wlp_bind. unfold on_kern. apply wlp_zoom. intros [] k.
    unfold pcb_upd, bind, assert_, modify. destruct (_ && _); [|done]. intros [= <-]. apply wlp_ret, Hclose; [|done..].
    intros j. cbn [x_k]. etransitivity; [apply (pcb_of_upd me (renewed im) (x_k s) j)|]. destruct (decide (me = j)) as [E|E].
    + subst j. by rewrite bool_decide_true by done.
    + rewrite bool_decide_false by (intros [_ ->]; done). done.
Qed.

(** The image that the file in the block [buf] becomes, with [h] the memory before: a
    copy of the kernel's address space, the entry point for which the ELF loader has
    loaded the program there, and 64 KB for the stack. *)
Record built (buf fsize : Z) (h : heap) (im : image) : Prop := mkBuilt {
  b_space : im_pml4 im ≠ 0 ∧ ∃ h1, clone_identity_tables h = Some (im_pml4 im, h1);
  b_program : im_entry im ≠ 0 ∧ ∃ h1 h2, elf64_load_into_pml4 buf fsize (im_pml4 im) h1 = Some (im_entry im, h2);
  b_stack : im_stack im ≠ 0 ∧ ∃ h1 h2, kmalloc EXECVE_STACK_SIZE h1 = Some (im_stack im, h2) }.

Lemma exec_load_built buf fsize h :
  wlp (exec_load buf fsize) h (λ r _, match r with Some im => built buf fsize h im | None => True end).
Proof.
  unfold exec_load. apply wlp_bind. intros child h1 E1. destruct (Z.eqb_spec child 0) as [|Hc].
  { apply wlp_bind. intros [] h2 _. by apply wlp_ret. }
  apply wlp_bind. intros ty h2 _. cbv zeta. apply wlp_bind. intros phoff h3 _. apply wlp_bind. intros phnum h4 _.
  apply wlp_bind. intros phent h5 _. apply wlp_bind. intros r h6 _. apply wlp_bind. intros entry h7 E7.
  apply wlp_bind. intros i h8 _. destruct (Z.eqb_spec entry 0) as [|He]; cbn [orb]; [|destruct (0 <? fst i)].
  1-2: (apply wlp_bind; intros [] h9 _; apply wlp_bind; intros [] h10 _; by apply wlp_ret).
  apply wlp_bind. intros [] h9 _. apply wlp_bind. intros stack h10 E10. destruct (Z.eqb_spec stack 0) as [|Hs].
  { apply wlp_bind. intros [] h11 _. by apply wlp_ret. }
  apply wlp_bind. intros [] h11 _. apply wlp_ret. split; cbn [im_pml4 im_entry im_stack]; (split; [done|eauto]).
Qed.

(** The call returns into the program: the frame at [regs] has its entry point, the
    stack pointer that [user_stack] gives for its arguments and environment, the user's
    segments, and 0 in the general registers after the first. *)
Definition entered (regs : Z) (im : image) (kargv kenvp : list (list Z)) (h : heap) : Prop :=
  let frame i := ld (h_mem h) (regs + 8 * i) in
  (∀ i, 1 ≤ i < 15 → frame i = 0) ∧ frame 15 = im_entry im ∧ frame 16 = 0x1B ∧ frame 17 = 0x202 ∧ frame 19 = 0x23 ∧
  ∃ phent phnum h1 h2, user_stack (im_stack im + EXECVE_STACK_SIZE) (im_phdr im) phent phnum (im_base im) kargv kenvp h1 = Some (frame 18, h2).

Lemma exec_frame_set regs entry rsp h :
  wlp (exec_frame regs entry rsp) h (λ _ h', let frame i := ld (h_mem h') (regs + 8 * i) in
    (∀ i, 1 ≤ i < 15 → frame i = 0) ∧ frame 15 = entry ∧ frame 16 = 0x1B ∧ frame 17 = 0x202 ∧ frame 19 = 0x23 ∧ frame 18 = rsp).
Proof.
  unfold exec_frame. apply wlp_bind.
  eapply wlp_mono; [apply (wlp_for_up (λ n h', ∀ i, 1 ≤ i < n → ld (h_mem h') (regs + 8 * i) = 0))|].
  - intros i Hi. lia.
  - intros n h' Hn IH. apply wlp_modify. intros i Hi. simpl. rewrite ld_st. case_decide; [done|]. apply IH. lia.
  - intros [] h1 Hz. cbv beta in Hz. do 4 (apply wlp_bind, wlp_modify). apply wlp_modify. simpl.
    split_and!; [intros i Hi|..]; rewrite !ld_st; repeat case_decide; try lia; try done. apply Hz. lia.
Qed.

(** The second half of a call that succeeds. *)
Definition exec_enter (regs buf old : Z) (im : image) (kargv kenvp : list (list Z)) : M heap unit :=
  pml4_load (im_pml4 im) ;!
  let! phent := e_phentsize buf in
  let! phnum := e_phnum buf in
  let! rsp := user_stack (im_stack im + EXECVE_STACK_SIZE) (im_phdr im) phent phnum (im_base im) kargv kenvp in
  (if nz old then pml4_destroy old else skip) ;!
  exec_frame regs (im_entry im) rsp.

Lemma exec_enter_spec regs buf old im kargv kenvp h :
  wlp (exec_enter regs buf old im kargv kenvp) h (λ _, entered regs im kargv kenvp).
Proof.
  unfold exec_enter. apply wlp_bind. intros [] h1 _. apply wlp_bind. intros phent h2 _. apply wlp_bind. intros phnum h3 _.
  apply wlp_bind. intros rsp h4 E4. apply wlp_bind. intros [] h5 _. eapply wlp_mono; [apply exec_frame_set|].
  intros [] h6 (F0 & F1 & F2 & F3 & F4 & F5). split_and!; try done. exists phent, phnum, h3, h4. cbv beta. by rewrite F5.
Qed.

(** The file was not found or not read, or no image could be made of it. *)
Definition not_loaded kpath s s' : Prop :=
  (∃ s1 p, exec_path kpath s = Some (p, s1) ∧ exec_read p s1 = Some (None, s')) ∨
  (∃ s1 p s2 buf fsize h, exec_path kpath s = Some (p, s1) ∧ exec_read p s1 = Some (Some (buf, fsize), s2) ∧
    exec_load buf fsize (k_heap (x_k s2)) = Some (None, h) ∧ k_heap (x_k s') = h).

(** C26: execve is all or nothing, whenever it comes back.  Either it returns -1: the path
    was missing or empty, or the file could not be read or no image was made of it; then
    every process control block, the running process and all descriptor tables are as
    they were.  Or it returns 0: then an image was built (a copy of the kernel's address
    space, the program loaded there, a fresh stack); the caller has exactly that address
    space, the end of the program as its break where one is known, and no TLS; its
    descriptors from 3 on are closed and the first three as they were; no other process
    has changed; and the frame the call returns with enters the program at its entry
    point on the stack made for it.  Of memory, only that frame is described. *)
Theorem execve_all_or_nothing upath kargv kenvp regs s r s' :
  SYS_execve upath kargv kenvp regs s = Some (r, s') →
  (r = -1 ∧ untouched s s' ∧ (default [] upath = [] ∧ s' = s ∨ not_loaded (take 511 (default [] upath)) s s')) ∨
  (r = 0 ∧ ∃ buf fsize h im, built buf fsize h im ∧ replaced im s s' ∧ entered regs im kargv kenvp (k_heap (x_k s'))).
Proof.
  unfold SYS_execve. destruct upath as [[|c upath]|]; [intros [= <- <-]; left; split_and!; [done|done|by left]| |intros [= <- <-]; left; split_and!; [done|done|by left]].
  cbn [default id from_option]. set (p := take 511 (c :: upath)). revert r s'.
  enough (wlp (SYS_execve (Some (c :: upath)) kargv kenvp regs) s (λ r s', (r = -1 ∧ untouched s s' ∧ not_loaded p s s') ∨
    (r = 0 ∧ ∃ buf fsize h im, built buf fsize h im ∧ replaced im s s' ∧ entered regs im kargv kenvp (k_heap (x_k s'))))) as Hw.
  { intros r s' E. destruct (Hw r s' E) as [(? & ? & ?)|?]; [left; auto|by right]. }
  unfold SYS_execve. fold p. apply wlp_bind. unfold on_kern at 1. apply wlp_zoom. intros me k Hme. assert (k = x_k s) as ->.
  { revert Hme. unfold process_current, gets. match goal with |- Some (?x, _) = _ → _ => generalize x end. by intros x [= _ <-]. }
  replace (mkWsys (x_k s) (x_seen s) (x_seen_n s)) with s by (by destruct s).
  apply wlp_bind. intros kpath s1 E1. pose proof (calm_path _ _ _ _ E1) as U1.
  apply wlp_bind. intros file s2 E2. pose proof (untouched_trans _ _ _ U1 (calm_read _ _ _ _ E2)) as U12.
  destruct file as [[buf fsize]|]; [|apply wlp_ret; left; split_and!; [done|done|left; eauto]].
  apply wlp_bind. intros im s3 E3. pose proof (untouched_trans _ _ _ U12 (calm_mem _ _ _ _ E3)) as U13.
  unfold on_mem, on_kern, on_heap, zoom in E3. destruct (exec_load buf fsize _) as [[im' h]|] eqn:El; [|done]. injection E3 as -> <-.
  destruct im as [im|]; [|apply wlp_ret; left; split_and!; [done|done|right; by eexists _, _, _, _, _, _]].
  apply wlp_bind. eapply wlp_mono; [eapply (exec_process_spec me im); by eapply untouched_current|]. intros old s4 Hr.
  apply wlp_bind. intros [] s5 E5. apply wlp_ret. right. split; [done|]. exists buf, fsize, (k_heap (x_k s2)), im.
  split; [exact (exec_load_built _ _ _ _ _ El)|]. split; [exact (replaced_between im s _ s4 s5 U13 Hr (calm_mem _ _ _ _ E5))|].
  change (on_mem (exec_enter regs buf old im kargv kenvp) s4 = Some (tt, s5)) in E5. revert E5. unfold on_mem, on_kern, on_heap, zoom.
  destruct (exec_enter regs buf old im kargv kenvp _) as [[[] h5]|] eqn:E6; [|done]. intros [= <-].
  exact (exec_enter_spec regs buf old im kargv kenvp _ tt h5 E6).
Qed.
End execve.

(** ** An example: one file, a loader that gives an entry point *)

Record one_file := mkOne { of_fat : fat }.
(** The first bytes of an ELF file without segments. *)
Definition empty_elf : list Z := [0x7F; 69; 76; 70] ++ replicate 60 0.
#[export] Instance one_file_ops : FileOps one_file := {|
  use_ext2 := λ _, true; stat_size := λ _ _, Some 64; create_file := λ _ f, (-1, f); write_at := λ _ _ _ f, (-1, f);
  read_at := λ _ _ _ _, (64, empty_elf); fat_create := λ _ f, (-1, f); fat_write := λ _ _ f, (-1, f) |}.
#[export] Instance one_file_disk : DiskFiles one_file := {|
  fat_of := of_fat; with_fat := λ d _, mkOne d; fat_of_with := λ d f, eq_refl; g_use_ext2 := λ _, true; vfs_on_ext2 := λ _, true;
  ext2_stat := λ _ _, Some 64; ext2new_stat := λ _ _, Some (64, false); ext2_read_file := λ _ _ _, (64, empty_elf) |}.
#[export] Instance fixed_loader : Loader := {|
  elf64_load_into_pml4 := λ _ _ _, ret 0x400000; elf64_load_at := λ _ _ _ _, ret 0; elf64_find_interp := λ _ _, ret (-1, []);
  elf64_pie_base := 0x40000000; user_stack := λ top _ _ _ _ _ _, ret (top - 16) |}.

Definition running : pcb := with_state PROC_RUNNING (with_pid 5 zero_pcb).
Definition one_process : wsys one_file :=
  mkWsys (mkK boot_heap (mkFdState ∅ 65 ∅ ∅ [] [] [] [] (mkOne volume)) {[ 2 := running ]} 5 3 6 0 false) [] 0.

Lemma execve_all_or_nothing_witness :
  ∃ s', SYS_execve (Some [47; 120]) [] [] 0x7000 one_process = Some (0, s') ∧
    ∃ buf fsize h im, built buf fsize h im ∧ replaced im one_process s' ∧ entered 0x7000 im [] [] (k_heap (x_k s')).
Proof.
  assert (Hr : match SYS_execve (Some [47; 120]) [] [] 0x7000 one_process with Some (r, _) => r =? 0 | None => false end = true)
    by (vm_compute; reflexivity).
  generalize dependent one_process. intros s Hr.
  destruct (SYS_execve (Some [47; 120]) [] [] 0x7000 s) as [[r s']|] eqn:E; [|discriminate Hr].
  destruct (execve_all_or_nothing (Some [47; 120]) [] [] 0x7000 s r s' E) as [(-> & _)|[-> Hi]]; [discriminate Hr|].
  exists s'. split; [reflexivity|exact Hi].
Defined.
