(* ===== verification/Ports.v ===== *)
(** * Ports: the drivers that talk through I/O ports

    [OvsbMk/drivers/ata.c], [pci.c] and [pci.h], and [OvsbMk/kernel/serial.c], [rtc.c],
    [pit.c] and [pic.c].  A device is a parameter: the class [Ports] has the six port
    instructions as computations on its state.  Delays that only count are left out, and
    so are the messages of [ata_init]. *)

From Stdlib Require Import ZArith Lia.
From stdpp Require Import gmap list prelude.
From S2P Require Import Prelude.

Open Scope Z_scope.

(** The instructions [in] and [out] for 8, 16 and 32 bits. *)
Class Ports (D : Type) := {
  inb : Z → M D Z;
  outb : Z → Z → M D unit;
  inw : Z → M D Z;
  outw : Z → Z → M D unit;
  inl_ : Z → M D Z;
  outl : Z → Z → M D unit }.

Section drivers.
Context {D : Type} `{Ports D}.

(** ** ata.c *)

Definition ATA_DATA : Z := 0x1F0.
Definition ATA_SECTORS : Z := 0x1F2.
Definition ATA_LBA_LOW : Z := 0x1F3.
Definition ATA_LBA_MID : Z := 0x1F4.
Definition ATA_LBA_HIGH : Z := 0x1F5.
Definition ATA_DRIVE : Z := 0x1F6.
Definition ATA_COMMAND : Z := 0x1F7.
Definition ATA_STATUS : Z := 0x1F7.

Definition ata_wait : M D Z :=
  while_ (λ timeout,
    if timeout <? 100000 then
      let! s := inb ATA_STATUS in
      if negb (nz (Z.land s 0x80)) then ret (inr 0) else ret (inl (timeout + 1))
    else ret (inr (-1))) 0.

(** The words of the data port. *)
Fixpoint read_words (n : nat) : M D (list Z) :=
  match n with
  | O => ret []
  | S n' =>
      let! d := inw ATA_DATA in
      let! bs := read_words n' in
      ret (Z.land d 0xFF :: Z.land (Z.shiftr d 8) 0xFF :: bs)
  end.
Fixpoint write_words (n : nat) (buffer : list Z) : M D unit :=
  match n, buffer with
  | O, _ => skip
  | S n', lo :: hi :: buffer' => outw ATA_DATA (Z.lor lo (Z.shiftl hi 8)) ;! write_words n' buffer'
  | S _, _ => stuck
  end.

Definition ata_init : M D unit :=
  outb ATA_DRIVE 0xE0 ;!
  let! r := ata_wait in
  if nz r then skip else
  outb ATA_COMMAND 0xEC ;!
  let! r := ata_wait in
  if nz r then skip else
  let! _ := read_words 256 in skip.

(** The part the two calls share, up to the command and with the wait for it. *)
Definition ata_issue (lba cmd : Z) : M D unit :=
  let! _ := ata_wait in
  outb ATA_DRIVE (Z.lor 0xE0 (Z.land (Z.shiftr lba 24) 0x0F)) ;!
  outb ATA_SECTORS 1 ;!
  outb ATA_LBA_LOW (Z.land lba 0xFF) ;!
  outb ATA_LBA_MID (Z.land (Z.shiftr lba 8) 0xFF) ;!
  outb ATA_LBA_HIGH (Z.land (Z.shiftr lba 16) 0xFF) ;!
  outb ATA_COMMAND cmd.
Definition ata_command (lba cmd : Z) : M D Z := ata_issue lba cmd ;! ata_wait.

(** The result and the 512 bytes stored in the buffer, none after an error. *)
Definition ata_read_sector (lba : Z) : M D (Z * list Z) :=
  let! r := ata_command lba 0x20 in
  if nz r then ret (-1, []) else
  let! bs := read_words 256 in
  ret (0, bs).

Definition ata_write_sector (lba : Z) (buffer : list Z) : M D Z :=
  let! r := ata_command lba 0x30 in
  if nz r then ret (-1) else
  write_words 256 buffer ;!
  let! _ := ata_wait in
  ret 0.

(** ** pci.h and pci.c *)

Definition pci_address (bus dev func reg : Z) : Z :=
  Z.lor (Z.lor (Z.lor (Z.lor 0x80000000 (Z.shiftl (u8 bus) 16)) (Z.shiftl (u8 dev) 11)) (Z.shiftl (u8 func) 8)) (Z.land reg 0xFC).
Definition pci_read32 (bus dev func reg : Z) : M D Z := outl 0xCF8 (pci_address bus dev func reg) ;! inl_ 0xCFC.
Definition pci_write32 (bus dev func reg val : Z) : M D unit := outl 0xCF8 (pci_address bus dev func reg) ;! outl 0xCFC val.
Definition pci_read8 (bus dev func reg : Z) : M D Z :=
  let! v := pci_read32 bus dev func (Z.land reg 0xFC) in ret (u8 (Z.shiftr v (Z.land reg 3 * 8))).
Definition pci_read16 (bus dev func reg : Z) : M D Z :=
  let! v := pci_read32 bus dev func (Z.land reg 0xFC) in ret (u16 (Z.shiftr v (Z.land reg 2 * 8))).

Definition PCI_BAR0 : Z := 0x10.
Definition pci_bar0_io (bus dev func : Z) : M D Z :=
  let! v := pci_read32 bus dev func PCI_BAR0 in ret (u16 (Z.land v 0xFFFC)).
(** The capabilities form a list in the configuration space. *)
Definition pci_find_cap (bus dev func cap_id : Z) : M D Z :=
  let! p := pci_read16 bus dev func 0x34 in
  while_ (λ cap_ptr,
    if nz cap_ptr then
      let! id := pci_read8 bus dev func cap_ptr in
      if id =? cap_id then ret (inr cap_ptr) else
      let! next := pci_read8 bus dev func (u8 (cap_ptr + 1)) in ret (inl next)
    else ret (inr 0)) (u8 (Z.land p 0xFF)).

(** The devices of a bus, and the buses, in turn. *)
Fixpoint find_dev (n : nat) (dev bus vendor device : Z) : M D (option Z) :=
  match n with
  | O => ret None
  | S n' =>
      let! id := pci_read32 bus dev 0 0 in
      let v := Z.land id 0xFFFF in
      let d := Z.land (Z.shiftr id 16) 0xFFFF in
      if v =? 0xFFFF then find_dev n' (dev + 1) bus vendor device else
      if (v =? vendor) && (d =? device) then ret (Some dev) else find_dev n' (dev + 1) bus vendor device
  end.
Fixpoint find_bus (n : nat) (bus vendor device : Z) : M D (option (Z * Z)) :=
  match n with
  | O => ret None
  | S n' =>
      let! r := find_dev 32 0 bus vendor device in
      match r with Some dev => ret (Some (bus, dev)) | None => find_bus n' (bus + 1) vendor device end
  end.
(** The place, its function being 0, or -1. *)
Definition pci_find (vendor device : Z) : M D (Z * option (Z * Z)) :=
  let! r := find_bus 256 0 vendor device in
  ret (match r with Some p => (0, Some p) | None => (-1, None) end).

(** ** serial.c *)

Definition COM1 : Z := 0x3F8.
Definition serial_init : M D unit :=
  outb (COM1 + 1) 0x00 ;! outb (COM1 + 3) 0x80 ;!
  outb (COM1 + 0) 0x03 ;! outb (COM1 + 1) 0x00 ;!
  outb (COM1 + 3) 0x03 ;! outb (COM1 + 2) 0xC7 ;!
  outb (COM1 + 4) 0x0B.
Definition serial_is_transmit_empty : M D bool := let! s := inb (COM1 + 5) in ret (nz (Z.land s 0x20)).
Definition serial_putc (c : Z) : M D unit :=
  while_ (λ _ : unit, let! e := serial_is_transmit_empty in ret (if e then inr tt else inl tt)) tt ;!
  outb COM1 c.
Fixpoint serial_puts (s : list Z) : M D unit :=
  match s with
  | [] => skip
  | c :: s' => (if c =? 10 then serial_putc 13 else skip) ;! serial_putc c ;! serial_puts s'
  end.
(** ["0123456789ABCDEF"] *)
Definition hex : list Z := [48; 49; 50; 51; 52; 53; 54; 55; 56; 57; 65; 66; 67; 68; 69; 70].
(** [for (i = 28; i >= 0; i -= 4)] *)
Fixpoint put_digits (n : nat) (v : Z) : M D unit :=
  match n with
  | O => skip
  | S n' => serial_putc (default 0 (hex !! Z.to_nat (Z.land (Z.shiftr v (4 * Z.of_nat n')) 0xF))) ;! put_digits n' v
  end.
Definition serial_puthex (v : Z) : M D unit := serial_puts [48; 120] ;! put_digits 8 v.

(** ** rtc.c *)

Record rtc_time := mkTime { t_yr : Z; t_mo : Z; t_dy : Z; t_h : Z; t_m : Z; t_s : Z }.

Definition read_cmos (reg : Z) : M D Z := outb 0x70 reg ;! inb 0x71.
Definition bcd_to_dec (v : Z) : Z := Z.land v 0x0F + Z.shiftr v 4 * 10.
Definition rtc_read : M D rtc_time :=
  let! s := read_cmos 0x00 in
  let! m := read_cmos 0x02 in
  let! h := read_cmos 0x04 in
  let! dy := read_cmos 0x07 in
  let! mo := read_cmos 0x08 in
  let! yr := read_cmos 0x09 in
  ret (mkTime (u16 (bcd_to_dec yr + 2000)) (u8 (bcd_to_dec mo)) (u8 (bcd_to_dec dy)) (u8 (bcd_to_dec h))
         (u8 (bcd_to_dec m)) (u8 (bcd_to_dec s))).

(** ** pit.c and pic.c *)

(** [timer_ticks] and [need_sched], beside the device. *)
Record ticker := mkTicker { t_dev : D; timer_ticks : Z; need_sched : Z }.
Definition on_dev {A} (m : M D A) : M ticker A := zoom t_dev (λ d t, mkTicker d (timer_ticks t) (need_sched t)) m.
Definition timer_tick_handler : M ticker unit :=
  modify (λ t, mkTicker (t_dev t) (u64 (timer_ticks t + 1)) (need_sched t)) ;!
  on_dev (outb 0x20 0x20) ;!
  modify (λ t, mkTicker (t_dev t) (timer_ticks t) 1).

Definition pit_init : M D unit :=
  let div := 1193182 / 100 in
  outb 0x43 0x36 ;! outb 0x40 (Z.land div 0xFF) ;! outb 0x40 (Z.land (Z.shiftr div 8) 0xFF) ;!
  let! m := inb 0x21 in
  outb 0x21 (Z.ldiff m 0x01).

Definition PIC1_COMMAND : Z := 0x20.
Definition PIC1_DATA : Z := 0x21.
Definition PIC2_COMMAND : Z := 0xA0.
Definition PIC2_DATA : Z := 0xA1.
Definition pic_init : M D unit :=
  let! mask1 := inb PIC1_DATA in
  let! mask2 := inb PIC2_DATA in
  outb PIC1_COMMAND 0x11 ;! outb PIC2_COMMAND 0x11 ;!
  outb PIC1_DATA 0x20 ;! outb PIC2_DATA 0x28 ;!
  outb PIC1_DATA 0x04 ;! outb PIC2_DATA 0x02 ;!
  outb PIC1_DATA 0x01 ;! outb PIC2_DATA 0x01 ;!
  outb PIC1_DATA mask1 ;! outb PIC2_DATA mask2 ;!
  let! m := inb PIC1_DATA in
  outb PIC1_DATA (Z.ldiff m 0x04).
End drivers.
