(* ===== verification/PortsProof.v ===== *)
(** * PortsProof: the disk driver implements the file system's sectors

    The drive is what the ATA standard documents of it for single-sector transfers in
    28-bit LBA mode, as the class [AtaDisk]: which registers a write sets, what the two
    commands start, what the data port gives and takes, and that the busy bit is right
    once the status is settled.  How long a command takes is left open.  The driver reads
    the status at once where the standard asks for a wait of 400 ns, so it relies on
    more: that the status is settled at the first read (the class [StatusAtOnce]).  The
    theorems say that on such a drive [ata_read_sector] and [ata_write_sector] are the
    [read_sector] and [write_sector] that [Fat32] is written against unless the command
    takes longer than the driver's patience, and what the driver does not notice.
    [pdisk] is a drive that has all of it; on [ldisk], whose status settles late, a read
    gives wrong bytes.  Smaller theorems cover the other drivers. *)

From Stdlib Require Import ZArith Lia.
From stdpp Require Import gmap list prelude.
From S2P Require Import Prelude Ports Fat32.

Open Scope Z_scope.

(** ** The documented drive *)

Inductive phase :=
  | Idle
  | Reading (ws : list Z)
  | Writing (lba : Z) (ws : list Z)
  | Refused.

Record drive := mkDrive {
  v_drive : Z; v_count : Z; v_low : Z; v_mid : Z; v_high : Z;
  v_phase : phase;
  v_disk : gmap Z (list Z) }.

Definition set_phase (p : phase) (v : drive) : drive :=
  mkDrive (v_drive v) (v_count v) (v_low v) (v_mid v) (v_high v) p (v_disk v).

(** A task-file register. *)
Definition set_reg (r x : Z) (v : drive) : drive :=
  mkDrive (if r =? 0x1F6 then x else v_drive v) (if r =? 0x1F2 then x else v_count v)
    (if r =? 0x1F3 then x else v_low v) (if r =? 0x1F4 then x else v_mid v)
    (if r =? 0x1F5 then x else v_high v) (v_phase v) (v_disk v).

(** The sector the registers name in LBA mode. *)
Definition lba_of (v : drive) : Z :=
  v_low v + 2 ^ 8 * v_mid v + 2 ^ 16 * v_high v + 2 ^ 24 * Z.land (v_drive v) 0x0F.

(** A sector's bytes as the words of the data port, low byte first, and back. *)
Fixpoint words_of (bs : list Z) : list Z :=
  match bs with lo :: hi :: bs' => (lo + 2 ^ 8 * hi) :: words_of bs' | _ => [] end.
Fixpoint bytes_of (ws : list Z) : list Z :=
  match ws with [] => [] | w :: ws' => w mod 2 ^ 8 :: w / 2 ^ 8 :: bytes_of ws' end.

(** READ SECTORS and WRITE SECTORS. *)
Definition start (cmd : Z) (v : drive) : drive :=
  match v_disk v !! lba_of v with
  | None => set_phase Refused v
  | Some bs => set_phase (if cmd =? 0x20 then Reading (words_of bs) else Writing (lba_of v) []) v
  end.

(** A word taken from the data port, and one given to it: the 256th stores the sector. *)
Definition taken (ws : list Z) (v : drive) : drive :=
  set_phase (match ws with [] => Idle | _ => Reading ws end) v.
Definition given (lba : Z) (ws : list Z) (v : drive) : drive :=
  if (length ws =? 256)%nat then
    mkDrive (v_drive v) (v_count v) (v_low v) (v_mid v) (v_high v) Idle (<[lba := bytes_of ws]> (v_disk v))
  else set_phase (Writing lba ws) v.

Definition task_file (r : Z) : Prop := r = 0x1F2 ∨ r = 0x1F3 ∨ r = 0x1F4 ∨ r = 0x1F5 ∨ r = 0x1F6.
(** One sector of drive 0 in LBA mode. *)
Definition addressed (v : drive) : Prop :=
  v_count v = 1 ∧ Z.testbit (v_drive v) 6 = true ∧ Z.testbit (v_drive v) 4 = false.

(** [polls d] is the number of reads of the status for which the drive stays busy;
    [settled d] says that the status register is valid, which the standard promises 400
    ns after a command was written or a sector's last word was given. *)
Class AtaDisk (D : Type) `{Ports D} := {
  view : D → drive;
  polls : D → Z;
  settled : D → Prop;
  polls_pos d : 0 ≤ polls d;
  status_read d : settled d → wp (inb 0x1F7) d (λ s d',
    view d' = view d ∧ polls d' = Z.max 0 (polls d - 1) ∧ Z.testbit s 7 = (0 <? polls d) ∧ settled d');
  register_set r x d : task_file r → polls d = 0 → settled d →
    wp (outb r x) d (λ _ d', view d' = set_reg r x (view d) ∧ polls d' = 0 ∧ settled d');
  command_started cmd d : cmd = 0x20 ∨ cmd = 0x30 → polls d = 0 → settled d → addressed (view d) →
    wp (outb 0x1F7 cmd) d (λ _ d', view d' = start cmd (view d));
  word_taken d w ws : polls d = 0 → settled d → v_phase (view d) = Reading (w :: ws) →
    wp (inw 0x1F0) d (λ w' d', w' = w ∧ view d' = taken ws (view d) ∧ polls d' = 0 ∧ settled d');
  word_refused d : polls d = 0 → settled d → v_phase (view d) = Refused →
    wp (inw 0x1F0) d (λ _ d', view d' = view d ∧ polls d' = 0 ∧ settled d');
  word_given d w lba ws : polls d = 0 → settled d → v_phase (view d) = Writing lba ws → (length ws < 256)%nat →
    wp (outw 0x1F0 w) d (λ _ d', view d' = given lba (ws ++ [w]) (view d) ∧
      ((length ws < 255)%nat → polls d' = 0 ∧ settled d')) }.

(** What the driver relies on beyond the standard: no wait is needed before the status
    is read. *)
Class StatusAtOnce (D : Type) `{AtaDisk D} := {
  command_settled cmd d : cmd = 0x20 ∨ cmd = 0x30 → polls d = 0 → settled d → wp (outb 0x1F7 cmd) d (λ _, settled);
  word_settled w d : polls d = 0 → settled d → wp (outw 0x1F0 w) d (λ _, settled) }.

Definition sector_ok (bs : list Z) : Prop := length bs = 512%nat ∧ Forall (λ b, 0 ≤ b < 256) bs.
Definition disk_ok (k : gmap Z (list Z)) : Prop := map_Forall (λ _ bs, sector_ok bs) k.

(** ** Words and bytes *)

Lemma pairs_ind (P : list Z → Prop) : P [] → (∀ x y l, P l → P (x :: y :: l)) → ∀ n l, length l = (2 * n)%nat → P l.
Proof.
  intros P0 P2 n. induction n as [|n IH]; intros l Hl; [by destruct l|].
  destruct l as [|x [|y l]]; simpl in *; try lia. apply P2, IH. lia.
Qed.

Lemma sector_words_length n bs : length bs = (2 * n)%nat → length (words_of bs) = n.
Proof.
  revert bs. induction n as [|n IH]; intros bs Hl; [by destruct bs|].
  destruct bs as [|x [|y l]]; simpl in *; try lia. f_equal. apply IH. lia.
Qed.

Lemma low_byte lo hi : 0 ≤ lo < 256 → 0 ≤ hi → Z.land (lo + 2 ^ 8 * hi) 0xFF = lo.
Proof. intros. change 0xFF with (Z.ones 8). rewrite Z.land_ones by lia. change (2 ^ 8) with 256. Z.div_mod_to_equations. lia. Qed.
Lemma high_byte lo hi : 0 ≤ lo < 256 → 0 ≤ hi < 256 → Z.land (Z.shiftr (lo + 2 ^ 8 * hi) 8) 0xFF = hi.
Proof.
  intros. change 0xFF with (Z.ones 8). rewrite Z.land_ones, Z.shiftr_div_pow2 by lia.
  change (2 ^ 8) with 256. Z.div_mod_to_equations. lia.
Qed.
Lemma word_lor lo hi : 0 ≤ lo < 256 → 0 ≤ hi → Z.lor lo (Z.shiftl hi 8) = lo + 2 ^ 8 * hi.
Proof.
  intros. rewrite Z.shiftl_mul_pow2 by lia. rewrite <- Z.add_nocarry_lor; [lia|].
  apply Z.bits_inj'. intros i Hi. rewrite Z.land_spec, Z.bits_0.
  destruct (Z.ltb_spec i 8); [by rewrite Z.mul_pow2_bits_low, andb_false_r by lia|].
  rewrite (Z.bits_above_log2 lo i), andb_false_l; [done|lia|].
  destruct (Z.eq_dec lo 0) as [->|]; [simpl; lia|]. apply Z.log2_lt_pow2; [lia|].
  assert (2 ^ 8 ≤ 2 ^ i) by (apply Z.pow_le_mono_r; lia). lia.
Qed.

Lemma bytes_words n bs : length bs = (2 * n)%nat → Forall (λ b, 0 ≤ b < 256) bs → bytes_of (words_of bs) = bs.
Proof.
  intros Hl. pattern bs. revert n bs Hl. refine (pairs_ind _ _ _); [done|].
  intros x y l IH Hb. apply Forall_cons in Hb as [Hx Hb]. apply Forall_cons in Hb as [Hy Hb].
  simpl words_of. simpl bytes_of. rewrite IH by done. repeat f_equal; change (2 ^ 8) with 256 in *;
    change (Z.pow_pos 2 8) with 256 in *; Z.div_mod_to_equations; lia.
Qed.

(** ** The driver on such a drive *)

Section disk.
Context {D : Type} `{StatusAtOnce D}.

(** The drive is idle within the driver's patience, which is 100000 reads. *)
Definition ready (d : D) : Prop := settled d ∧ polls d < 100000.

Lemma busy_bit s : Z.land s 0x80 = if Z.testbit s 7 then 0x80 else 0.
Proof.
  apply Z.bits_inj'. intros i Hi. rewrite Z.land_spec. change 0x80 with (2 ^ 7).
  rewrite Z.pow2_bits_eqb by lia. destruct (Z.eqb_spec 7 i) as [<-|].
  - rewrite andb_true_r. destruct (Z.testbit s 7); [by rewrite Z.pow2_bits_true|by rewrite Z.bits_0].
  - rewrite andb_false_r. destruct (Z.testbit s 7); [by rewrite Z.pow2_bits_false by lia|by rewrite Z.bits_0].
Qed.

(** The wait ends in any case, with 0 exactly when the drive became idle in time. *)
Lemma wait_run (d : D) : settled d →
  wp ata_wait d (λ r d', r = (if polls d <? 100000 then 0 else -1) ∧ view d' = view d ∧ settled d' ∧
    polls d' = Z.max 0 (polls d - 100000)).
Proof.
  intros Hs. unfold ata_wait. pose proof (polls_pos d) as Hpd.
  apply (wp_while (λ t e, 0 ≤ t ≤ 100000 ∧ t ≤ polls d ∧ view e = view d ∧ settled e ∧ polls e = polls d - t) (λ t _, 100000 - t)).
  2: { split_and!; done || lia. } 2: lia.
  intros t e (Ht & Hle & Ev & Se & Ep). destruct (Z.ltb_spec t 100000) as [Hlt|Hge].
  - wp_step. eapply wp_mono; [by apply status_read|]. intros s e' (Ev' & Ep' & Eb & Se'). rewrite busy_bit, Eb.
    destruct (Z.ltb_spec 0 (polls e)); simpl; wp_step; rewrite Ev', Ev, Ep', Ep.
    + split_and!; done || lia.
    + destruct (Z.ltb_spec (polls d) 100000); split_and!; done || lia.
  - wp_step. rewrite Ev, Ep. destruct (Z.ltb_spec (polls d) 100000); split_and!; done || lia.
Qed.

Lemma wait_ready (d : D) : ready d → wp ata_wait d (λ r d', r = 0 ∧ view d' = view d ∧ polls d' = 0 ∧ settled d').
Proof.
  intros [Hs Hp]. eapply wp_mono; [by apply wait_run|]. intros r d' (-> & Ev & Sd & Ep).
  rewrite (proj2 (Z.ltb_lt _ _)) by done. split_and!; try done. lia.
Qed.

(** The registers hold the low 28 bits of the sector's number. *)
Definition named (lba : Z) (v : drive) : drive :=
  mkDrive (Z.lor 0xE0 (Z.land (Z.shiftr lba 24) 0x0F)) 1 (Z.land lba 0xFF) (Z.land (Z.shiftr lba 8) 0xFF)
    (Z.land (Z.shiftr lba 16) 0xFF) (v_phase v) (v_disk v).

Lemma lba_named lba v : 0 ≤ lba < 2 ^ 32 → lba_of (named lba v) = lba mod 2 ^ 28.
Proof.
  intros. unfold lba_of, named. simpl v_low. simpl v_mid. simpl v_high. simpl v_drive.
  rewrite Z.land_lor_distr_l. change (Z.land 0xE0 0x0F) with 0. rewrite Z.lor_0_l, <- Z.land_assoc, Z.land_diag.
  change 0xFF with (Z.ones 8). change 0x0F with (Z.ones 4). rewrite !Z.land_ones, !Z.shiftr_div_pow2 by lia.
  change (2 ^ 28) with (2 ^ 8 * (2 ^ 8 * (2 ^ 8 * 2 ^ 4))). rewrite !Z.rem_mul_r, !Z.div_div by lia.
  change (2 ^ 8 * 2 ^ 8) with (2 ^ 16). change (2 ^ 16 * 2 ^ 8) with (2 ^ 24). lia.
Qed.

Lemma named_addressed lba v : addressed (named lba v).
Proof.
  unfold addressed, named. simpl v_count. simpl v_drive. rewrite !Z.lor_spec, !Z.land_spec.
  split_and!; [done|done|]. change (Z.testbit 15 4) with false. by rewrite andb_false_r.
Qed.

Lemma register_step r x (d : D) Q :
  task_file r → polls d = 0 → settled d →
  (∀ d', view d' = set_reg r x (view d) → polls d' = 0 → settled d' → Q tt d') → wp (outb r x) d Q.
Proof. intros Hr Hp Hs HQ. eapply wp_mono; [by apply register_set|]. intros [] d' (E & ? & ?). by apply HQ. Qed.

(** The command that is shared: it starts on the low 28 bits of the number. *)
Lemma issue_run lba cmd (d : D) :
  cmd = 0x20 ∨ cmd = 0x30 → ready d →
  wp (ata_issue lba cmd) d (λ _ d', view d' = start cmd (named lba (view d)) ∧ settled d').
Proof.
  intros Hc Hp. unfold ata_issue. wp_step. eapply wp_mono; [by apply wait_ready|]. intros _ e0 (_ & E0 & P0 & S0).
  wp_step. apply register_step; [unfold task_file; tauto|done|done|]. intros e1 E1 P1 S1.
  wp_step. apply register_step; [unfold task_file; tauto|done|done|]. intros e2 E2 P2 S2.
  wp_step. apply register_step; [unfold task_file; tauto|done|done|]. intros e3 E3 P3 S3.
  wp_step. apply register_step; [unfold task_file; tauto|done|done|]. intros e4 E4 P4 S4.
  wp_step. apply register_step; [unfold task_file; tauto|done|done|]. intros e5 E5 P5 S5.
  assert (view e5 = named lba (view d)) as E by by rewrite E5, E4, E3, E2, E1, E0.
  apply wp_and; [|by apply command_settled]. rewrite <- E. apply command_started; try done. rewrite E. apply named_addressed.
Qed.

(** What is said of a call: [Q] when the command is done in time, and [Z] otherwise. *)
Definition in_time {A} lba cmd (d : D) (m : M D A) (Q Z : A → D → Prop) : Prop :=
  ∃ d1 r d', ata_issue lba cmd d = Some (tt, d1) ∧ m d = Some (r, d') ∧
    if decide (polls d1 < 100000) then Q r d' else Z r d'.

Lemma command_run {A} lba cmd (d : D) (f : Z → M D A) (Q Z : A → D → Prop) :
  cmd = 0x20 ∨ cmd = 0x30 → ready d →
  (∀ e, view e = start cmd (named lba (view d)) → polls e = 0 → settled e → wp (f 0) e Q) →
  (∀ e, view e = start cmd (named lba (view d)) → settled e → wp (f (-1)) e Z) →
  in_time lba cmd d (let! r := ata_command lba cmd in f r) Q Z.
Proof.
  intros Hc Hr HQ HZ. destruct (issue_run lba cmd d Hc Hr) as ([] & d1 & E1 & V1 & S1).
  destruct (wait_run d1 S1) as (r & d2 & E2 & -> & V2 & S2 & P2). pose proof (polls_pos d1).
  unfold in_time, ata_command, bind. rewrite E1, E2. exists d1. destruct (Z.ltb_spec (polls d1) 100000).
  - destruct (HQ d2) as (r & d' & E & HQ'); [by rewrite V2|lia|done|]. exists r, d'. by rewrite decide_True.
  - destruct (HZ d2) as (r & d' & E & HZ'); [by rewrite V2|done|]. exists r, d'. by rewrite decide_False by lia.
Qed.

Lemma read_words_taken n bs (d : D) :
  length bs = (2 * n)%nat → Forall (λ b, 0 ≤ b < 256) bs → polls d = 0 → settled d → n ≠ O →
  v_phase (view d) = Reading (words_of bs) →
  wp (read_words n) d (λ r d', r = bs ∧ view d' = set_phase Idle (view d) ∧ polls d' = 0 ∧ settled d').
Proof.
  revert bs d. induction n as [|n IH]; intros bs d Hl Hb Hp Hs Hn Hw; [done|].
  destruct bs as [|x [|y l]]; simpl in Hl; [lia..|].
  apply Forall_cons in Hb as [Hx Hb]. apply Forall_cons in Hb as [Hy Hb].
  simpl read_words. wp_step. eapply wp_mono; [apply (word_taken d (x + 2 ^ 8 * y) (words_of l) Hp Hs Hw)|]. intros w e (-> & Ev & Ep & Es).
  wp_step. destruct n as [|n].
  - simpl read_words. wp_steps. rewrite low_byte, high_byte by lia. destruct l; [|simpl in Hl; lia]. by split_and!.
  - eapply wp_mono; [apply (IH l); [lia|done|done|done|done|]|].
    { rewrite Ev. unfold taken. simpl. pose proof (sector_words_length (S n) l ltac:(lia)). by destruct (words_of l). }
    intros r e' (-> & Ev' & Ep' & Es'). wp_step. rewrite low_byte, high_byte by lia.
    split_and!; [done| |done|done]. by rewrite Ev', Ev.
Qed.

Lemma read_words_refused n (d : D) :
  polls d = 0 → settled d → v_phase (view d) = Refused →
  wp (read_words n) d (λ _ d', view d' = view d ∧ polls d' = 0 ∧ settled d').
Proof.
  revert d. induction n as [|n IH]; intros d Hp Hs Hw; [by apply wp_ret|].
  simpl read_words. wp_step. eapply wp_mono; [by apply word_refused|]. intros w e (Ev & Ep & Es).
  wp_step. eapply wp_mono; [apply IH; [done|done|by rewrite Ev]|]. intros bs e' (Ev' & Ep' & Es'). wp_step.
  split_and!; [by rewrite Ev', Ev|done|done].
Qed.

Lemma write_words_given n bs lba ws (d : D) :
  length bs = (2 * n)%nat → Forall (λ b, 0 ≤ b < 256) bs → polls d = 0 → settled d → n ≠ O →
  v_phase (view d) = Writing lba ws → (length ws + n = 256)%nat →
  wp (write_words n bs) d (λ _ d', view d' = given lba (ws ++ words_of bs) (view d) ∧ settled d').
Proof.
  revert bs ws d. induction n as [|n IH]; intros bs ws d Hl Hb Hp Hs Hn Hw Hws; [done|].
  destruct bs as [|x [|y l]]; simpl in Hl; [lia..|].
  apply Forall_cons in Hb as [Hx Hb]. apply Forall_cons in Hb as [Hy Hb].
  simpl write_words. rewrite word_lor by lia. wp_step.
  eapply wp_mono; [apply wp_and; [apply (word_given d _ lba ws Hp Hs Hw); lia|by apply word_settled]|].
  intros _ e [[Ev Ep0] Es].
  destruct n as [|n].
  - destruct l; [|simpl in Hl; lia]. by apply wp_skip.
  - assert (view e = set_phase (Writing lba (ws ++ [x + 2 ^ 8 * y])) (view d)) as Ev1.
    { rewrite Ev. unfold given. rewrite length_app. simpl length. by rewrite (proj2 (Nat.eqb_neq _ _)) by lia. }
    eapply wp_mono; [apply (IH l (ws ++ [x + 2 ^ 8 * y])); [lia|done|apply Ep0; lia|done|done|by rewrite Ev1|]|].
    { rewrite length_app. simpl. lia. }
    intros _ e' [Ev' ?]. split; [|done]. rewrite Ev', Ev1, <- app_assoc. unfold given. simpl.
    by destruct (length _ =? 256)%nat.
Qed.

Lemma started_on lba cmd bs v e :
  0 ≤ lba < 2 ^ 32 → v_disk v !! (lba mod 2 ^ 28) = Some bs → view e = start cmd (named lba v) →
  v_phase (view e) = (if cmd =? 0x20 then Reading (words_of bs) else Writing (lba mod 2 ^ 28) []) ∧ v_disk (view e) = v_disk v.
Proof.
  intros Hl Hd ->. unfold start. rewrite lba_named by done. change (v_disk (named lba v)) with (v_disk v). by rewrite Hd.
Qed.

Lemma start_keeps cmd v : v_disk (start cmd v) = v_disk v.
Proof. unfold start. by destruct (v_disk v !! lba_of v). Qed.

Lemma sector_read lba bs (d : D) :
  ready d → 0 ≤ lba < 2 ^ 32 → v_disk (view d) !! (lba mod 2 ^ 28) = Some bs → sector_ok bs →
  in_time lba 0x20 d (ata_read_sector lba)
    (λ r d', r = (0, bs) ∧ v_disk (view d') = v_disk (view d) ∧ ready d')
    (λ r d', r = (-1, []) ∧ v_disk (view d') = v_disk (view d)).
Proof.
  intros Hr Hl Hd [Hn Hb]. apply command_run; [by left|done| |].
  - intros e Ev Ep Es. destruct (started_on lba 0x20 bs (view d) e Hl Hd Ev) as [Ef Ed]. change (nz 0) with false. cbv iota. wp_step.
    eapply wp_mono; [apply (read_words_taken 256 bs); [done..|exact Ef]|].
    intros r e' (-> & Ev' & Ep' & Es'). wp_step. split_and!; [done|by rewrite Ev'|]. split; [done|lia].
  - intros e Ev _. change (nz (-1)) with true. cbv iota. wp_step. split; [done|]. by rewrite Ev, start_keeps.
Qed.

Lemma sector_written lba bs buf (d : D) :
  ready d → 0 ≤ lba < 2 ^ 32 → v_disk (view d) !! (lba mod 2 ^ 28) = Some bs → sector_ok buf →
  in_time lba 0x30 d (ata_write_sector lba buf)
    (λ r d', r = 0 ∧ v_disk (view d') = <[lba mod 2 ^ 28 := buf]> (v_disk (view d)))
    (λ r d', r = -1 ∧ v_disk (view d') = v_disk (view d)).
Proof.
  intros Hr Hl Hd [Hn Hb]. apply command_run; [by right|done| |].
  - intros e Ev Ep Es. destruct (started_on lba 0x30 bs (view d) e Hl Hd Ev) as [Ef Ed]. change (nz 0) with false. cbv iota. wp_step.
    eapply wp_mono; [apply (write_words_given 256 buf (lba mod 2 ^ 28) []); [done..|exact Ef|done]|].
    intros _ e' (Ev' & Es'). wp_step. eapply wp_mono; [by apply wait_run|]. intros r e'' (_ & Ev'' & _). wp_step.
    rewrite app_nil_l in Ev'. unfold given in Ev'. rewrite (sector_words_length 256 buf Hn) in Ev'.
    rewrite (bytes_words 256 buf Hn Hb) in Ev'. change (256 =? 256)%nat with true in Ev'. cbv beta iota in Ev'.
    split; [done|]. rewrite Ev'', Ev'. simpl. by rewrite Ed.
  - intros e Ev _. change (nz (-1)) with true. cbv iota. wp_step. split; [done|]. by rewrite Ev, start_keeps.
Qed.

(** The drive and the file system's view of it. *)
Definition drive_of (s : fat) (d : D) : Prop := f_disk s = v_disk (view d) ∧ disk_ok (f_disk s).


(** A number of more than 28 bits is cut: the call returns 0 with the bytes of another
    sector, and a write overwrites that one. *)
Theorem high_bits_dropped lba bs buf (d : D) :
  ready d → 2 ^ 28 ≤ lba < 2 ^ 32 → v_disk (view d) !! (lba mod 2 ^ 28) = Some bs →
  sector_ok bs → sector_ok buf →
  in_time lba 0x20 d (ata_read_sector lba) (λ r _, r = (0, bs)) (λ r _, r = (-1, [])) ∧
  in_time lba 0x30 d (ata_write_sector lba buf)
    (λ r d', r = 0 ∧ v_disk (view d') = <[lba mod 2 ^ 28 := buf]> (v_disk (view d))) (λ r _, r = -1).
Proof.
  intros Hp Hl Hd Hbs Hbuf. split.
  - destruct (sector_read lba bs d Hp ltac:(lia) Hd Hbs) as (d1 & r & d' & E1 & E & Ho). exists d1, r, d'. split_and!; [done|done|].
    destruct (decide _); apply Ho.
  - destruct (sector_written lba bs buf d Hp ltac:(lia) Hd Hbuf) as (d1 & r & d' & E1 & E & Ho). exists d1, r, d'. split_and!; [done|done|].
    destruct (decide _); [exact Ho|apply Ho].
Qed.

(** The error bit is never looked at: a read that the drive refuses, the sector being
    past its end, still returns 0, whatever the data port then gives. *)
Theorem refused_read_succeeds lba (d : D) :
  ready d → 0 ≤ lba < 2 ^ 28 → v_disk (view d) !! lba = None →
  in_time lba 0x20 d (ata_read_sector lba) (λ r d', r.1 = 0 ∧ v_disk (view d') = v_disk (view d)) (λ r _, r = (-1, [])).
Proof.
  intros Hr Hl Hd. apply command_run; [by left|done| |].
  - intros e Ev Ep Es. change (nz 0) with false. cbv iota. wp_step.
    unfold start in Ev. rewrite lba_named, Z.mod_small in Ev by lia. change (v_disk (named lba (view d))) with (v_disk (view d)) in Ev.
    rewrite Hd in Ev. eapply wp_mono; [apply (read_words_refused 256); [done|done|by rewrite Ev]|].
    intros bs e' (Ev' & _). wp_step. split; [done|]. by rewrite Ev', Ev.
  - intros e Ev _. change (nz (-1)) with true. cbv iota. by wp_step.
Qed.
End disk.

(** ** A drive *)

Record pdisk := mkPdisk { p_view : drive; p_busy : nat }.

#[export] Instance pdisk_ports : Ports pdisk := {
  inb p := λ d,
    if p =? 0x1F7 then
      Some (if (0 <? p_busy d)%nat then 0x80 else match v_phase (p_view d) with Refused => 0x41 | Idle => 0x40 | _ => 0x48 end,
            mkPdisk (p_view d) (pred (p_busy d)))
    else Some (0xFF, d);
  outb p x := λ d,
    if negb (p_busy d =? 0)%nat then Some (tt, d)
    else if p =? 0x1F7 then Some (tt, mkPdisk (start x (p_view d)) 3)
    else Some (tt, mkPdisk (set_reg p x (p_view d)) 0);
  inw p := λ d,
    match v_phase (p_view d) with
    | Reading (w :: ws) => Some (w, mkPdisk (taken ws (p_view d)) (p_busy d))
    | _ => Some (0xFFFF, d)
    end;
  outw p x := λ d,
    match v_phase (p_view d) with
    | Writing lba ws => Some (tt, mkPdisk (given lba (ws ++ [x]) (p_view d)) (if (length ws =? 255)%nat then 2 else 0))
    | _ => Some (tt, d)
    end;
  inl_ p := λ d, Some (0xFFFFFFFF, d);
  outl p x := λ d, Some (tt, d) }.

#[local] Obligation Tactic := idtac.
#[export] Program Instance pdisk_ata : AtaDisk pdisk := {
  view := p_view;
  polls d := Z.of_nat (p_busy d);
  settled _ := True }.
Next Obligation. intros d. cbv beta. lia. Qed.
Next Obligation.
  intros d _. eexists _, _. split; [reflexivity|]. split_and!; [done|simpl; lia| |done].
  destruct (Nat.ltb_spec 0 (p_busy d)); [by rewrite (proj2 (Z.ltb_lt _ _)) by lia|].
  rewrite (proj2 (Z.ltb_ge _ _)) by lia. by destruct (v_phase (p_view d)).
Qed.
Next Obligation.
  intros r x [v b] Hr Hp _. simpl in Hp. assert (b = 0%nat) as -> by lia. unfold wp. simpl.
  rewrite (proj2 (Z.eqb_neq r 503)) by (unfold task_file in Hr; lia). by eexists _, _.
Qed.
Next Obligation.
  intros cmd [v b] _ Hp _ _. simpl in Hp. assert (b = 0%nat) as -> by lia. by eexists _, _.
Qed.
Next Obligation. intros [v b] w ws Hp _ Hv. unfold wp. simpl in *. rewrite Hv. by eexists _, _. Qed.
Next Obligation. intros [v b] Hp _ Hv. unfold wp. simpl in *. rewrite Hv. by eexists _, _. Qed.
Next Obligation.
  intros [v b] w lba ws Hp _ Hv Hl. unfold wp. simpl in *. rewrite Hv. eexists _, _. split; [reflexivity|]. simpl.
  destruct (Nat.eqb_spec (length ws) 255); split_and!; done || lia.
Qed.

#[export] Program Instance pdisk_at_once : StatusAtOnce pdisk.
Next Obligation. intros cmd d _ _ _. unfold wp. simpl. destruct (negb _); by eexists _, _. Qed.
Next Obligation. intros w d _ _. unfold wp. simpl. destruct (v_phase (p_view d)); by eexists _, _. Qed.

(** Three sectors; the file system over them. *)
Definition some_disk : gmap Z (list Z) :=
  list_to_map [(0, repeat 0xEB 512); (1, repeat 7 512); (2 ^ 27 + 5, repeat 9 512)].
Definition some_drive : pdisk := mkPdisk (mkDrive 0 0 0 0 0 Idle some_disk) 2.
Definition some_fat : fat := mkFat some_disk 3 2 1 1 2 1.

Lemma repeat_sector_ok b : 0 ≤ b < 256 → sector_ok (repeat b 512).
Proof. intros. split; [apply repeat_length|]. by apply List.Forall_forall; intros x ->%repeat_spec. Qed.

Lemma some_drive_of : drive_of some_fat some_drive.
Proof.
  split; [done|].
  by apply map_Forall_insert_2; [apply repeat_sector_ok|apply map_Forall_insert_2; [apply repeat_sector_ok|
    apply map_Forall_insert_2; [apply repeat_sector_ok|apply map_Forall_empty]]].
Qed.


(** A drive whose status settles late: the first read after a command does not show the
    busy bit yet, and the data port floats while the drive is busy. *)
Record ldisk := mkLdisk { l_disk : pdisk; l_late : bool }.

#[export] Instance ldisk_ports : Ports ldisk := {
  inb p := λ d, if l_late d then Some (0x40, mkLdisk (l_disk d) false)
                else inb p (l_disk d) ≫= λ '(x, e), Some (x, mkLdisk e false);
  outb p x := λ d, outb p x (l_disk d) ≫= λ '(_, e), Some (tt, mkLdisk e (p =? 0x1F7));
  inw p := λ d, if (0 <? p_busy (l_disk d))%nat then Some (0xFFFF, d)
                else inw p (l_disk d) ≫= λ '(x, e), Some (x, mkLdisk e (l_late d));
  outw p x := λ d, outw p x (l_disk d) ≫= λ '(_, e), Some (tt, mkLdisk e (l_late d));
  inl_ p := λ d, Some (0xFFFFFFFF, d);
  outl p x := λ d, Some (tt, d) }.

(** The driver takes such a drive for done: sector 1 holds 7s, the call returns 0 and 255s. *)
Example late_status_misread :
  v_disk (p_view some_drive) !! 1 = Some (repeat 7 512) ∧
  fst <$> ata_read_sector 1 (mkLdisk some_drive false) = Some (0, repeat 255 512).
Proof. split; vm_compute; reflexivity. Qed.

Section no_drive.
Context {D : Type} `{Ports D} (R : D → Prop).
(** Nothing answers: the status reads with the busy bit set, as a floating bus does. *)
Context (floating : ∀ d, R d → wp (inb 0x1F7) d (λ s d', s = 0xFF ∧ R d')).
Context (ignored : ∀ r x d, R d → wp (outb r x) d (λ _ d', R d')).

Lemma wait_gives_up d : R d → wp ata_wait d (λ r d', r = -1 ∧ R d').
Proof.
  intros HR. unfold ata_wait. apply (wp_while (λ t e, R e ∧ 0 ≤ t ≤ 100000) (λ t _, 100000 - t)); [|split; [done|lia]|lia].
  intros t e [He Ht]. destruct (Z.ltb_spec t 100000); [|by wp_step].
  wp_step. eapply wp_mono; [by apply floating|]. intros s e' [-> He']. change (negb (nz (Z.land 0xFF 0x80))) with false. cbv iota. wp_step. split_and!; [done|lia..].
Qed.

Lemma command_fails lba cmd d : R d → wp (ata_command lba cmd) d (λ r d', r = -1 ∧ R d').
Proof.
  intros HR. unfold ata_command. wp_step. eapply (wp_mono _ _ (λ _, R)); [|intros [] e He; by apply wait_gives_up].
  unfold ata_issue. wp_step. eapply wp_mono; [by apply wait_gives_up|]. intros _ e [_ He].
  do 5 (wp_step; eapply wp_mono; [by apply ignored|]; clear e He; intros [] e He; cbv beta in He). by apply ignored.
Qed.

(** Without a drive both calls end, with -1, and store nothing in the buffer. *)
Theorem no_drive_fails lba buf d : R d →
  wp (ata_read_sector lba) d (λ r _, r = (-1, [])) ∧ wp (ata_write_sector lba buf) d (λ r _, r = -1).
Proof.
  intros HR. split.
  - unfold ata_read_sector. wp_step. eapply wp_mono; [by apply command_fails|]. intros r e [-> _]. by apply wp_ret.
  - unfold ata_write_sector. wp_step. eapply wp_mono; [by apply command_fails|]. intros r e [-> _]. by apply wp_ret.
Qed.
End no_drive.

(** ** The serial line *)

(** A UART: bit 5 of the line status once it can take a byte. *)
Class SerialLine (D : Type) `{Ports D} := {
  sent : D → list Z;
  sending : D → Z;
  sending_range d : 0 ≤ sending d < 2 ^ 64;
  line_status d : wp (inb 0x3FD) d (λ s d',
    sent d' = sent d ∧ sending d' = Z.max 0 (sending d - 1) ∧ nz (Z.land s 0x20) = (sending d =? 0));
  byte_sent c d : sending d = 0 → wp (outb 0x3F8 c) d (λ _ d', sent d' = sent d ++ [c]) }.

(** Lines end in CR LF. *)
Definition crlf (s : list Z) : list Z := concat (map (λ c, if c =? 10 then [13; 10] else [c]) s).

Section serial.
Context {D : Type} `{SerialLine D}.

Lemma putc_sends c (d : D) : wp (serial_putc c) d (λ _ d', sent d' = sent d ++ [c]).
Proof.
  unfold serial_putc. wp_step.
  apply (wp_while (λ _ e, sent e = sent d) (λ _ e, sending e)); [|done|apply sending_range].
  intros [] e He. unfold serial_is_transmit_empty. wp_steps. eapply wp_mono; [apply line_status|].
  intros s e' (Es & Ew & Eb). wp_steps. rewrite Eb. pose proof (sending_range e).
  destruct (Z.eqb_spec (sending e) 0).
  - eapply wp_mono; [apply byte_sent; lia|]. intros _ e'' ->. by rewrite Es, He.
  - split; [by rewrite Es|lia].
Qed.

Lemma puts_sends s (d : D) : wp (serial_puts s) d (λ _ d', sent d' = sent d ++ crlf s).
Proof.
  revert d. induction s as [|c s IH]; intros d; simpl serial_puts; [apply wp_skip; by rewrite app_nil_r|].
  wp_step. eapply (wp_mono _ _ (λ _ e, sent e = sent d ++ if c =? 10 then [13] else [])).
  { destruct (c =? 10); [apply putc_sends|apply wp_skip; by rewrite app_nil_r]. }
  intros [] e Ee. cbv beta in Ee. wp_step. eapply wp_mono; [apply putc_sends|]. intros [] e' Ee'. cbv beta in Ee'.
  eapply wp_mono; [apply IH|]. intros _ e'' ->. rewrite Ee', Ee, <- !app_assoc. f_equal.
  unfold crlf. simpl. destruct (Z.eqb_spec c 10) as [->|]; done.
Qed.

(** What [serial_puthex] sends: [0x] and the eight hexadecimal digits, most significant
    first. *)
Fixpoint hex_digits (n : nat) (v : Z) : list Z :=
  match n with
  | O => []
  | S n' => default 0 (hex !! Z.to_nat ((v / 16 ^ Z.of_nat n') mod 16)) :: hex_digits n' v
  end.

Theorem puthex_sends v (d : D) : 0 ≤ v →
  wp (serial_puthex v) d (λ _ d', sent d' = sent d ++ [48; 120] ++ hex_digits 8 v).
Proof.
  intros Hv. unfold serial_puthex. wp_step. eapply wp_mono; [apply puts_sends|]. intros [] e Ee. cbv beta in Ee.
  change (crlf [48; 120]) with [48; 120] in Ee. rewrite app_assoc, <- Ee. clear Ee d. generalize 8%nat as n.
  intros n. revert e. induction n as [|n IH]; intros e; simpl; [apply wp_skip; by rewrite app_nil_r|].
  wp_step. eapply wp_mono; [apply putc_sends|]. intros [] e' Ee. cbv beta in Ee. eapply wp_mono; [apply IH|]. intros _ e'' ->.
  rewrite Ee, <- app_assoc. change 0xF with (Z.ones 4). rewrite Z.land_ones, Z.shiftr_div_pow2 by lia.
  rewrite Z.pow_mul_r by lia. done.
Qed.
End serial.

(** ** The PCI bus *)

(** The configuration space, read through its two ports. *)
Class PciBus (D : Type) `{Ports D} := {
  config : D → Z → Z;
  config_read a d : wp (outl 0xCF8 a ;! inl_ 0xCFC) d (λ v d', v = config d a ∧ config d' = config d) }.

Section pci.
Context {D : Type} `{PciBus D}.
Variables vendor device : Z.

Definition id_of (d : D) (bus dev : Z) : Z := config d (pci_address bus dev 0 0).
(** The device's first function answers with the two numbers. *)
Definition matches (d : D) (bus dev : Z) : bool :=
  let v := Z.land (id_of d bus dev) 0xFFFF in
  negb (v =? 0xFFFF) && ((v =? vendor) && (Z.land (Z.shiftr (id_of d bus dev) 16) 0xFFFF =? device)).

Lemma find_dev_first n dev bus (d : D) :
  wp (find_dev n dev bus vendor device) d (λ r d', config d' = config d ∧
    match r with
    | Some k => dev ≤ k < dev + Z.of_nat n ∧ matches d bus k = true ∧ ∀ j, dev ≤ j < k → matches d bus j = false
    | None => ∀ j, dev ≤ j < dev + Z.of_nat n → matches d bus j = false
    end).
Proof.
  revert dev d. induction n as [|n IH]; intros dev d; simpl find_dev; [wp_step; split; [done|intros; lia]|].
  wp_step. eapply wp_mono; [apply config_read|]. intros id e [-> Ec].
  change (config d (pci_address bus dev 0 0)) with (id_of d bus dev).
  assert (matches d bus dev = false → wp (find_dev n (dev + 1) bus vendor device) e (λ r d', config d' = config d ∧
    match r with
    | Some k => dev ≤ k < dev + Z.of_nat (S n) ∧ matches d bus k = true ∧ ∀ j, dev ≤ j < k → matches d bus j = false
    | None => ∀ j, dev ≤ j < dev + Z.of_nat (S n) → matches d bus j = false
    end)) as Hnext.
  { intros Hd. eapply wp_mono; [apply IH|]. intros r e' [Ec' Hr]. split; [by rewrite Ec'|].
    unfold matches, id_of in *. rewrite Ec in Hr. destruct r as [k|].
    - destruct Hr as (? & ? & Hj). split_and!; [lia..|done|]. intros j ?. destruct (Z.eq_dec j dev) as [->|]; [done|]. apply Hj. lia.
    - intros j ?. destruct (Z.eq_dec j dev) as [->|]; [done|]. apply Hr. lia. }
  unfold matches in Hnext at 1. destruct (_ =? 0xFFFF) eqn:Ev; cbv iota; [by apply Hnext|].
  destruct ((_ =? vendor) && _) eqn:Em; cbv iota; [|by apply Hnext].
  wp_step. split; [done|]. split_and!; [lia|lia| |intros; lia]. unfold matches. by rewrite Ev, Em.
Qed.

Lemma find_bus_first n bus (d : D) :
  wp (find_bus n bus vendor device) d (λ r d', config d' = config d ∧
    match r with
    | Some (b, k) => bus ≤ b < bus + Z.of_nat n ∧ 0 ≤ k < 32 ∧ matches d b k = true ∧
        ∀ c j, bus ≤ c → 0 ≤ j < 32 → c < b ∨ c = b ∧ j < k → matches d c j = false
    | None => ∀ c j, bus ≤ c < bus + Z.of_nat n → 0 ≤ j < 32 → matches d c j = false
    end).
Proof.
  revert bus d. induction n as [|n IH]; intros bus d; cbn [find_bus]; [wp_step; split; [done|intros; lia]|].
  wp_step. eapply wp_mono; [apply find_dev_first|]. intros r e [Ec Hr]. destruct r as [k|].
  - wp_step. destruct Hr as (? & ? & Hj). split; [done|]. split_and!; [lia..|done|].
    intros c j ?? [?|[-> ?]]; [lia|]. apply Hj. lia.
  - eapply wp_mono; [apply IH|]. intros r' e' [Ec' Hr']. split; [by rewrite Ec'|].
    unfold matches, id_of in *. rewrite Ec in Hr'. destruct r' as [[b k]|].
    + destruct Hr' as (? & ? & ? & Hj). split_and!; [lia..|done|]. intros c j Hc Hjr Hlt.
      destruct (Z.eq_dec c bus) as [->|]; [by apply Hr|]. apply Hj; [lia|done|done].
    + intros c j Hc Hjr. destruct (Z.eq_dec c bus) as [->|]; [by apply Hr|]. apply Hr'; [lia|done].
Qed.

(** [pci_find] gives the first device, by bus and then by slot, whose first function has
    the two numbers, and -1 when no slot of the 256 buses does. *)
Theorem pci_find_first (d : D) :
  wp (pci_find vendor device) d (λ r _, match r.2 with
    | Some (b, k) => r.1 = 0 ∧ 0 ≤ b < 256 ∧ 0 ≤ k < 32 ∧ matches d b k = true ∧
        ∀ c j, 0 ≤ c → 0 ≤ j < 32 → c < b ∨ c = b ∧ j < k → matches d c j = false
    | None => r.1 = -1 ∧ ∀ c j, 0 ≤ c < 256 → 0 ≤ j < 32 → matches d c j = false
    end).
Proof.
  unfold pci_find. wp_step. eapply wp_mono; [apply find_bus_first|]. intros r e [_ Hr]. wp_step.
  by destruct r as [[b k]|].
Qed.
End pci.

(** ** The clock and the timer *)

(** Two decimal digits in a byte are read back. *)
Theorem bcd_round_trip n : 0 ≤ n < 100 → bcd_to_dec (Z.lor (Z.shiftl (n / 10) 4) (n mod 10)) = n.
Proof.
  intros Hn. unfold bcd_to_dec. rewrite (Z.lor_comm _ (n mod 10)), Z.land_lor_distr_l, Z.shiftr_lor.
  rewrite Z.shiftr_shiftl_l, Z.shiftl_0_r by lia.
  assert (Z.land (Z.shiftl (n / 10) 4) 0x0F = 0) as ->.
  { change 0x0F with (Z.ones 4). rewrite Z.land_ones, Z.shiftl_mul_pow2 by lia. by apply Z.mod_mul. }
  change 0x0F with (Z.ones 4). rewrite Z.land_ones, Z.lor_0_r, Z.shiftr_div_pow2 by lia. change (2 ^ 4) with 16.
  pose proof (Z.mod_pos_bound n 10 ltac:(lia)).
  rewrite (Z.div_small (n mod 10) 16), (Z.mod_small (n mod 10) 16), Z.lor_0_l by lia. pose proof (Z.div_mod n 10). lia.
Qed.

(** Every tick is counted, acknowledged at the interrupt controller and asks for the
    scheduler. *)
Theorem tick_counted {D} `{Ports D} (t : ticker) d' :
  outb 0x20 0x20 (t_dev t) = Some (tt, d') →
  timer_tick_handler t = Some (tt, mkTicker d' (u64 (timer_ticks t + 1)) 1).
Proof. intros E. unfold timer_tick_handler, on_dev, zoom, modify, bind. simpl. by rewrite E. Qed.
