(* ===== verification/ShellExec.v ===== *)
(** * ShellExec: [cmd_exec], [cmd_cd] and [cmd_ls] of [OvsbMk/kernel/shell.c]

    The command [exec] reads a file into the heap, loads it as an ELF or a Mach-O
    program, makes a process and switches to it.  [Shell] has the arguments, [SysExec]
    the loading of ELF files into an address space.  What runs until the kernel is
    switched back to this flow is the class [Resume], with the address of the static
    buffer [idata].  Serial output is left out, and so are the colours of a listing. *)

From Stdlib Require Import ZArith Lia.
From stdpp Require Import gmap list prelude.
From S2P Require Import Prelude KHeap Buddy Slab Paging VmMap Vfs Fat32 Fds FdCalls Process MachO SysPath SysExec Console Shell.

Open Scope Z_scope.

Class Resume (F : Type) := {
  resume : option switch → M (wsys F) unit;
  idata : Z }.

(** The kernel, and the two static variables of [shell.c]. *)
Record world (F : Type) := mkWorld { w_sys : wsys F; dyn_interp_entry : Z; dyn_is_dynamic : Z }.
Arguments mkWorld {F}.
Arguments w_sys {F}.
Arguments dyn_interp_entry {F}.
Arguments dyn_is_dynamic {F}.

(** ** The messages *)

(** ["uso: exec <arquivo> [args...]\n"] *)
Definition m_usage : list Z :=
  [117; 115; 111; 58; 32; 101; 120; 101; 99; 32; 60; 97; 114; 113; 117; 105; 118; 111; 62; 32; 91; 97; 114; 103;
   115; 46; 46; 46; 93; 10].
(** ["uso: exec <arquivo> [args...] &\n"] *)
Definition m_usage_bg : list Z :=
  [117; 115; 111; 58; 32; 101; 120; 101; 99; 32; 60; 97; 114; 113; 117; 105; 118; 111; 62; 32; 91; 97; 114; 103;
   115; 46; 46; 46; 93; 32; 38; 10].
(** ["exec: arquivo nao encontrado\n"] *)
Definition m_absent : list Z :=
  [101; 120; 101; 99; 58; 32; 97; 114; 113; 117; 105; 118; 111; 32; 110; 97; 111; 32; 101; 110; 99; 111; 110;
   116; 114; 97; 100; 111; 10].
(** ["exec: arquivo muito pequeno\n"] *)
Definition m_small : list Z :=
  [101; 120; 101; 99; 58; 32; 97; 114; 113; 117; 105; 118; 111; 32; 109; 117; 105; 116; 111; 32; 112; 101; 113;
   117; 101; 110; 111; 10].
(** ["exec: sem memoria\n"] *)
Definition m_memory : list Z :=
  [101; 120; 101; 99; 58; 32; 115; 101; 109; 32; 109; 101; 109; 111; 114; 105; 97; 10].
(** ["exec: erro de leitura\n"] *)
Definition m_read : list Z :=
  [101; 120; 101; 99; 58; 32; 101; 114; 114; 111; 32; 100; 101; 32; 108; 101; 105; 116; 117; 114; 97; 10].
(** ["exec: carregando %s (%d bytes)\n"] *)
Definition f_loading : list Z :=
  [101; 120; 101; 99; 58; 32; 99; 97; 114; 114; 101; 103; 97; 110; 100; 111; 32; 37; 115; 32; 40; 37; 100; 32;
   98; 121; 116; 101; 115; 41; 10].
(** ["exec: pml4 falhou\n"] *)
Definition m_pml4 : list Z :=
  [101; 120; 101; 99; 58; 32; 112; 109; 108; 52; 32; 102; 97; 108; 104; 111; 117; 10].
(** ["exec: falha ao mapear interpretador\n"] *)
Definition m_interp_map : list Z :=
  [101; 120; 101; 99; 58; 32; 102; 97; 108; 104; 97; 32; 97; 111; 32; 109; 97; 112; 101; 97; 114; 32; 105; 110;
   116; 101; 114; 112; 114; 101; 116; 97; 100; 111; 114; 10].
(** ["exec: interpretador não lido\n"] *)
Definition m_interp_read : list Z :=
  [101; 120; 101; 99; 58; 32; 105; 110; 116; 101; 114; 112; 114; 101; 116; 97; 100; 111; 114; 32; 110; 195; 163;
   111; 32; 108; 105; 100; 111; 10].
(** ["exec: ELF invalido\n"] *)
Definition m_elf : list Z :=
  [101; 120; 101; 99; 58; 32; 69; 76; 70; 32; 105; 110; 118; 97; 108; 105; 100; 111; 10].
(** ["exec: entry=%x\n"] *)
Definition f_entry : list Z :=
  [101; 120; 101; 99; 58; 32; 101; 110; 116; 114; 121; 61; 37; 120; 10].
(** ["exec: sem stack\n"] *)
Definition m_stack : list Z :=
  [101; 120; 101; 99; 58; 32; 115; 101; 109; 32; 115; 116; 97; 99; 107; 10].
(** ["exec: spawn falhou\n"] *)
Definition m_spawn : list Z :=
  [101; 120; 101; 99; 58; 32; 115; 112; 97; 119; 110; 32; 102; 97; 108; 104; 111; 117; 10].
(** ["exec: PID %d rodando\n"] *)
Definition f_running : list Z :=
  [101; 120; 101; 99; 58; 32; 80; 73; 68; 32; 37; 100; 32; 114; 111; 100; 97; 110; 100; 111; 10].
(** ["exec: PID %d em background (&)\n"] *)
Definition f_bg : list Z :=
  [101; 120; 101; 99; 58; 32; 80; 73; 68; 32; 37; 100; 32; 101; 109; 32; 98; 97; 99; 107; 103; 114; 111; 117;
   110; 100; 32; 40; 38; 41; 10].
(** ["exec: processo encerrou (exit code %d)\n"] *)
Definition f_ended : list Z :=
  [101; 120; 101; 99; 58; 32; 112; 114; 111; 99; 101; 115; 115; 111; 32; 101; 110; 99; 101; 114; 114; 111; 117;
   32; 40; 101; 120; 105; 116; 32; 99; 111; 100; 101; 32; 37; 100; 41; 10].
(** ["exec: formato Mach-O invalido\n"] *)
Definition m_macho : list Z :=
  [101; 120; 101; 99; 58; 32; 102; 111; 114; 109; 97; 116; 111; 32; 77; 97; 99; 104; 45; 79; 32; 105; 110; 118;
   97; 108; 105; 100; 111; 10].
(** ["exec: sem memoria para pilha\n"] *)
Definition m_stack_memory : list Z :=
  [101; 120; 101; 99; 58; 32; 115; 101; 109; 32; 109; 101; 109; 111; 114; 105; 97; 32; 112; 97; 114; 97; 32; 112;
   105; 108; 104; 97; 10].
(** ["exec: erro ao criar processo\n"] *)
Definition m_create : list Z :=
  [101; 120; 101; 99; 58; 32; 101; 114; 114; 111; 32; 97; 111; 32; 99; 114; 105; 97; 114; 32; 112; 114; 111; 99;
   101; 115; 115; 111; 10].

(** ** The command *)

Section exec.
Context {F : Type} `{FileOps F} `{DiskFiles F} `{Loader} `{Resume F}.

Abbreviation E := (M (console * world F)).
Definition on_sys {A} (m : M (wsys F) A) : E A :=
  zoom (λ s, w_sys (snd s)) (λ x s, (fst s, mkWorld x (dyn_interp_entry (snd s)) (dyn_is_dynamic (snd s)))) m.
Definition in_heap {A} (m : M heap A) : E A := on_sys (on_mem m).
Definition in_kern {A} (m : M (kstate F) A) : E A := on_sys (on_kern m).
Definition set_dyn (entry : Z) : E unit := modify (λ s, (fst s, mkWorld (w_sys (snd s)) entry 1)).

Definition EXEC_USER_STACK_SIZE : Z := 65536.

(** The absolute path of the file. *)
Definition exec_file (argv0 : list Z) : E (list Z) :=
  let fname := exec_name argv0 in
  let! cwd := on_sys cwd_now in
  let! abs := on_sys (lift (vfs_abs_path (Some cwd) (take (Z.to_nat (VFS_MAX_PATH - 1)) fname) VFS_MAX_PATH)) in
  ret (if fst abs =? 0 then snd abs else fname).

(** The block with the file and its size. *)
Definition exec_fetch (fname : list Z) : E (option (Z * Z)) :=
  let! st := on_sys (vfs_stat_size fname) in
  match st with
  | None => put m_absent ;! ret None
  | Some (fsize, _) =>
      if fsize <? 32 then put m_small ;! ret None else
      let! buf := in_heap (kmalloc (u32 (fsize + 1))) in
      if buf =? 0 then put m_memory ;! ret None else
      let! f := on_sys (gets files) in
      let '(r, bs) := read_at fname fsize 0 f in
      in_heap (put_bytes buf bs) ;!
      if r <? 0 then put m_read ;! in_heap (kfree buf) ;! ret None else
      printf f_loading [PStr fname; PInt fsize] ;!
      ret (Some (buf, fsize))
  end.

(** The entry point and what the stack tells of the program. *)
Definition exec_elf_load (buf fsize child : Z) : M heap (Z * elf) :=
  let! ty := e_type buf in
  let base := if ty =? 3 then elf64_pie_base else 0 in
  let! phent := e_phentsize buf in
  let! phnum := e_phnum buf in
  let! phoff := e_phoff buf in
  let! r := scan_phdrs (Z.to_nat phnum) (buf + phoff) phent phoff base 0 0 (λ va msz,
    add_user_range child (page_of_2mb (u64 (base + va))) (page_of_2mb (u64 (base + u64 (va + msz) + 0x1FFFFF)))) in
  let! entry := elf64_load_into_pml4 buf fsize child in
  ret (entry, mkElf (fst r) phent phnum (if nz phnum then page_end (snd r) else 0) base 0).

(** [sizeof(idata)] *)
Definition IDATA_SIZE : Z := 2 * 1024 * 1024.

(** The interpreter.  Without an entry point the block is freed here. *)
Definition exec_interp (buf fsize child entry : Z) : E unit :=
  let! i := in_heap (elf64_find_interp buf fsize) in
  (if entry =? 0 then in_heap (kfree buf) else skip) ;!
  if fst i <=? 0 then skip else
  let! f := on_sys (gets files) in
  let '(r, bs) := read_at (snd i) IDATA_SIZE 0 f in
  in_heap (put_bytes idata bs) ;!
  if 0 <? r then
    let! ientry := in_heap (elf64_load_at idata IDATA_SIZE child INTERP_BASE) in
    if nz ientry then set_dyn INTERP_BASE else put m_interp_map
  else put m_interp_read.

(** Where the program starts, if it can. *)
Definition exec_entry (entry : Z) : E (option Z) :=
  let! w := gets snd in
  if (entry =? 0) && (dyn_is_dynamic w =? 0) then put m_elf ;! ret None else
  ret (Some (if nz (dyn_is_dynamic w) then dyn_interp_entry w else entry)).

(** The slot of the new process gets the address space, the break and the stack. *)
Definition exec_adopt (child atbase : Z) (l : elf) (argv : list (list Z)) (i : Z) : M (kstate F) unit :=
  let! p := pcb_get i in
  on_heap (pml4_destroy (pml4 p)) ;!
  pcb_upd i (with_pml4 child) ;!
  (if nz (l_bss l) then pcb_upd i (with_program_break (l_bss l)) else skip) ;!
  let! p := pcb_get i in
  on_heap (
    let kframe := kernel_rsp p in
    let! old_rsp := load (kframe + 8 * 18) in
    let! rsp := user_stack old_rsp (l_phdr l) (l_phent l) (l_phnum l) atbase argv [] in
    store (kframe + 8 * 18) rsp).

(** The process and its stack. *)
Definition exec_spawn (fname : list Z) (argv : list (list Z)) (child entry : Z) (l : elf) : E (option (Z * Z)) :=
  printf f_entry [PInt (u32 entry)] ;!
  let! ustack := in_heap (kmalloc EXEC_USER_STACK_SIZE) in
  if ustack =? 0 then put m_stack ;! ret None else
  in_heap (add_user_range child (page_of_2mb ustack) (ustack + EXEC_USER_STACK_SIZE)) ;!
  let! np := in_kern (proc_spawn fname entry (ustack + EXEC_USER_STACK_SIZE)) in
  if np <? 0 then put m_spawn ;! in_heap (kfree ustack) ;! ret None else
  let! w := gets snd in
  in_kern (let! i := gets (λ s, find_first (λ i, pid (pcb_of s i) =? np) slots) in
           if 0 <=? i then exec_adopt child (if nz (dyn_is_dynamic w) then dyn_interp_entry w else l_base l) l argv i
           else skip) ;!
  printf f_running [PInt np] ;!
  ret (Some (np, ustack)).

Definition exec_elf (fname : list Z) (argv : list (list Z)) (buf fsize : Z) : E (option (Z * Z)) :=
  let! child := in_heap clone_identity_tables in
  if child =? 0 then in_heap (kfree buf) ;! put m_pml4 ;! ret None else
  let! r := in_heap (exec_elf_load buf fsize child) in
  let '(entry, l) := r in
  exec_interp buf fsize child entry ;!
  in_heap (kfree buf) ;!
  let! e := exec_entry entry in
  match e with
  | None => ret None
  | Some entry => exec_spawn fname argv child entry l
  end.

(** The end of the program: its exit code and the stack. *)
Definition exec_wait (np ustack : Z) : E unit :=
  let! sw := in_kern (process_switch_to np) in
  on_sys (resume sw) ;!
  let! code := in_kern (let! i := gets (λ s, find_first (λ i, pid (pcb_of s i) =? np) slots) in
    if 0 <=? i then let! p := pcb_get i in ret (exit_code p) else ret (-1)) in
  in_heap (kfree ustack) ;!
  printf f_ended [PInt code].

Definition exec_macho (args : list Z) (buf : Z) : E (option (Z * Z)) :=
  let! entry := in_heap (mach_o_load buf) in
  if entry =? 0 then put m_macho ;! in_heap (kfree buf) ;! ret None else
  let! ustack := in_heap (kmalloc EXEC_USER_STACK_SIZE) in
  if ustack =? 0 then put m_stack_memory ;! in_heap (kfree buf) ;! ret None else
  printf f_entry [PInt (u32 entry)] ;!
  let! np := in_kern (process_create_user args entry ustack EXEC_USER_STACK_SIZE) in
  if np <? 0 then put m_create ;! in_heap (kfree buf) ;! in_heap (kfree ustack) ;! ret None else
  in_heap (kfree buf) ;!
  printf f_running [PInt np] ;!
  ret (Some (np, ustack)).

(** Up to the message that the process runs: its number and its stack, and whether it
    was given to the background; an ELF program alone can be.  Arguments that are only
    spaces leave a null pointer as the name. *)
Definition exec_prepare (args : list Z) : E (option (Z * Z * bool)) :=
  match args with
  | [] => put m_usage ;! ret None
  | _ =>
      match exec_argv args with
      | None => put m_usage_bg ;! ret None
      | Some ([], _) => stuck
      | Some ((argv0 :: _) as argv, bg) =>
          let! fname := exec_file argv0 in
          let! file := exec_fetch fname in
          match file with
          | None => ret None
          | Some (buf, fsize) =>
              let! el := in_heap (is_elf buf fsize) in
              if el : bool then
                let! r := exec_elf fname argv buf fsize in ret ((λ r, (r, bg)) <$> r)
              else let! r := exec_macho args buf in ret ((λ r, (r, false)) <$> r)
          end
      end
  end.

Definition cmd_exec (args : list Z) : E unit :=
  let! r := exec_prepare args in
  match r with
  | None => skip
  | Some (np, ustack, bg) =>
      if bg : bool then
        printf f_bg [PInt np] ;!
        let! sw := in_kern proc_yield in
        on_sys (resume sw)
      else exec_wait np ustack
  end.

(** ** Directories *)

Definition cmd_ls : E unit := let! r := on_sys (on_fat fat32_list_dir) in put (snd r).

Definition chdir_isdir (abs : list Z) : M (wsys F) bool :=
  let! st := mounted_stat abs in
  let! f := gets files in
  ret (match st with None => false | Some (_, at_) => if vfs_on_ext2 f then true else nz (Z.land at_ 0x10) end).

(** The directory of the process: at most 254 characters and the 0. *)
Definition cd_process (args : list Z) : M (wsys F) unit :=
  let! me := on_kern process_current in
  if me <? 0 then skip else
  let! p := on_kern (pcb_get me) in
  let! abs := lift (vfs_abs_path (Some (cstr (cwd p))) args VFS_MAX_PATH) in
  if negb (fst abs =? 0) then skip else
  let! dir := chdir_isdir (snd abs) in
  if dir : bool then on_kern (pcb_upd me (λ p, with_cwd (overlay (take 254 (snd abs) ++ [0]) (cwd p)) p)) else skip.

Definition cmd_cd (args : list Z) : E unit :=
  match args with
  | [] => on_sys (on_fat (let! _ := fat32_change_dir [46; 46] in skip))
  | _ =>
      on_sys (cd_process args) ;!
      let! name := on_sys (on_fat (fat32_get_cwd_name 256)) in
      put name ;!
      put [10]
  end.
End exec.

(** ** The shell over the kernel *)

(** The demonstration of the toolkit, the network card and the framebuffer. *)
Class Outside (F : Type) := {
  out_owt : M (console * world F) unit;
  out_send : list Z → M (console * world F) unit;
  out_fb : M (console * world F) (Z * Z * Z * Z * Z) }.

#[export] Instance kernel_shell {F} `{FileOps F} `{DiskFiles F} `{Loader} `{Resume F} `{Outside F} : ShellOps (world F) := {
  op_stat name := let! st := on_sys (vfs_stat_size name) in ret (bool_decide (is_Some st));
  op_exec := cmd_exec;
  op_ls := cmd_ls;
  op_cd := cmd_cd;
  op_owt := out_owt;
  op_send := out_send;
  op_byte a := in_heap (load8 a);
  op_fb := out_fb }.
