(* ===== verification/ShellExecProof.v ===== *)
(** * ShellExecProof: what the command [exec] does to the processes

    Preparing a program changes no process or makes exactly one, with the next
    identifier, in a free slot.  Then what the static variables of [shell.c] do to later
    programs, a block that is freed twice, and what [cd] does not do. *)

From Stdlib Require Import ZArith Lia.
From stdpp Require Import gmap list prelude.
From S2P Require Import Prelude KHeap Buddy BuddyProof PageAlloc Slab Paging VmMap Vfs Fat32 Fds FdCalls Process MachO FdProof ProcProof SysPath SysPathProof SysExec SysExecProof Console Shell ShellExec.

Open Scope Z_scope.

Section exec.
Context {F : Type} `{FileOps F} `{DiskFiles F} `{Loader} `{Resume F}.
Implicit Types k : kstate F.

(** Only the heap and the files have changed. *)
Definition kept k k' : Prop := ∃ h f, k' = set_heap h (set_fds (set_files f (k_fds k)) k).

#[local] Instance kept_preorder : PreOrder kept.
Proof.
  split.
  - intros k. exists (k_heap k), (fs_files (k_fds k)). by destruct k as [? [] ? ? ? ? ? ?].
  - intros k1 k2 k3 (h & f & ->) (h' & f' & ->). by exists h', f'.
Qed.

(** ** Code that changes no more, on a state [S] that has the kernel in it *)

Section calm.
Context {S : Type} (kern : S → kstate F).
Definition calmly {A} (m : M S A) : Prop := ∀ s, wlp m s (λ _ s', kept (kern s) (kern s')).

Lemma calmly_bind {A B} (m : M S A) (n : A → M S B) : calmly m → (∀ a, calmly (n a)) → calmly (let! a := m in n a).
Proof.
  intros Hm Hn s. apply wlp_bind. eapply wlp_mono; [apply Hm|]. intros a s1 U1. eapply wlp_mono; [apply Hn|].
  intros b s2 U2. exact (PreOrder_Transitive _ _ _ U1 U2).
Qed.
Lemma calmly_ret {A} (a : A) : calmly (ret a).
Proof. intros s. by apply wlp_ret. Qed.
Lemma calmly_stuck {A} : calmly (stuck : M S A).
Proof. done. Qed.
Lemma calmly_gets {A} (f : S → A) : calmly (gets f).
Proof. intros s. by apply wlp_gets. Qed.
End calm.

Definition kern (s : console * world F) : kstate F := x_k (w_sys (snd s)).
Definition still {A} (m : M (console * world F) A) : Prop := calmly kern m.

Lemma calmly_mem {A} (m : M heap A) : calmly x_k (on_mem m).
Proof.
  intros s a s'. unfold on_mem, on_kern, on_heap, zoom. destruct (m _) as [[b h]|]; [|done]. intros [= <- <-].
  exists h, (fs_files (k_fds (x_k s))). by destruct s as [[? [] ? ? ? ? ? ?] ? ?].
Qed.
Lemma calmly_fat {A} (m : T A) : calmly x_k (on_fat m).
Proof.
  intros s a s'. unfold on_fat, on_tab, on_kern, zoom. destruct (m _) as [[b d]|]; [|done]. intros [= <- <-].
  exists (k_heap (x_k s)), (with_fat d (fs_files (k_fds (x_k s)))). by destruct s as [[? [] ? ? ? ? ? ?] ? ?].
Qed.
Lemma calmly_lift {A} (o : option A) : calmly x_k (lift o).
Proof. destruct o; [apply calmly_ret|done]. Qed.
Lemma calmly_cwd : calmly x_k cwd_now.
Proof. intros s. by apply wlp_cwd_now. Qed.
Lemma still_sys {A} (m : M (wsys F) A) : calmly x_k m → still (on_sys m).
Proof. intros Hm s. apply wlp_zoom. intros a x Ex. exact (Hm _ _ _ Ex). Qed.
Lemma still_con {A} (m : C A) : still (on_con m).
Proof. intros s. apply wlp_zoom. by intros. Qed.
Lemma still_dyn e : still (set_dyn e).
Proof. intros s. by apply wlp_modify. Qed.

Ltac still := repeat match goal with
  | |- still _ => unfold still
  | |- calmly _ (bind _ _) => apply calmly_bind; [|intros ?]
  | |- calmly _ (ret _) => apply calmly_ret
  | |- calmly _ skip => apply calmly_ret
  | |- calmly _ stuck => apply calmly_stuck
  | |- calmly _ (gets _) => apply calmly_gets
  | |- calmly _ (on_mem _) => apply calmly_mem
  | |- calmly _ (on_fat _) => apply calmly_fat
  | |- calmly _ (lift _) => apply calmly_lift
  | |- calmly _ cwd_now => apply calmly_cwd
  | |- calmly kern (in_heap _) => apply still_sys
  | |- calmly kern (on_sys _) => apply still_sys
  | |- calmly kern (put _) => apply still_con
  | |- calmly kern (printf _ _) => apply still_con
  | |- calmly kern (set_dyn _) => apply still_dyn
  | |- calmly _ (match ?x with _ => _ end) => destruct x
  end.

Lemma still_stat name : calmly x_k (vfs_stat_size name).
Proof. unfold vfs_stat_size, fat_size_attr. still. Qed.
Lemma still_file argv0 : still (exec_file argv0).
Proof. unfold exec_file. still. Qed.
Lemma still_fetch fname : still (exec_fetch fname).
Proof. unfold exec_fetch. apply calmly_bind; [apply still_sys, still_stat|]. intros st. still. Qed.
Lemma still_interp buf fsize child entry : still (exec_interp buf fsize child entry).
Proof. unfold exec_interp. still. Qed.
Lemma still_entry entry : still (exec_entry entry).
Proof. unfold exec_entry. still. Qed.

(** ** Making the process *)

Definition quietly {A} (m : M (kstate F) A) : Prop := ∀ k, wlp m k (λ _ k', k_current k' = k_current k ∧ k_fds k' = k_fds k).

Lemma quietly_bind {A B} (m : M (kstate F) A) (n : A → M (kstate F) B) :
  quietly m → (∀ a, quietly (n a)) → quietly (let! a := m in n a).
Proof.
  intros Hm Hn k. apply wlp_bind. eapply wlp_mono; [apply Hm|]. intros a k1 [E1 E2]. eapply wlp_mono; [apply Hn|].
  intros b k2 [E3 E4]. split; congruence.
Qed.
Lemma quietly_ret {A} (a : A) : quietly (ret a).
Proof. intros k. by apply wlp_ret. Qed.
Lemma quietly_gets {A} (f : kstate F → A) : quietly (gets f).
Proof. intros k. by apply wlp_gets. Qed.
Lemma quietly_heap {A} (m : M heap A) : quietly (on_heap m).
Proof. intros k. apply wlp_zoom. by intros. Qed.
Lemma quietly_get i : quietly (pcb_get i).
Proof. intros k. by apply wlp_pcb_get. Qed.
Lemma quietly_upd i f : quietly (pcb_upd i f).
Proof. intros k. by apply wlp_pcb_upd. Qed.
Lemma quietly_count v : quietly (modify (set_count v)).
Proof. intros k. by apply wlp_modify. Qed.
Lemma quietly_pid : quietly take_pid.
Proof. unfold take_pid. apply quietly_bind; [apply quietly_gets|]. intros p k. unfold bind, modify, ret. by intros a k' [= <- <-]. Qed.

Ltac quiet := repeat match goal with
  | |- quietly (bind _ _) => apply quietly_bind; [|intros ?]
  | |- quietly (ret _) => apply quietly_ret
  | |- quietly skip => apply quietly_ret
  | |- quietly (gets _) => apply quietly_gets
  | |- quietly (on_heap _) => apply quietly_heap
  | |- quietly (pcb_get _) => apply quietly_get
  | |- quietly (pcb_upd _ _) => apply quietly_upd
  | |- quietly (modify (set_count _)) => apply quietly_count
  | |- quietly take_pid => apply quietly_pid
  | |- quietly (if _ then _ else _) => case_match
  end.

Lemma quietly_spawn n e u : quietly (proc_spawn n e u).
Proof. unfold proc_spawn, free_slot, raise_count. quiet. Qed.
Lemma quietly_create n e u z : quietly (process_create_user n e u z).
Proof. unfold process_create_user, alloc_pcb, setup_user_stack. quiet. Qed.
Lemma quietly_adopt child atbase l argv i : quietly (exec_adopt child atbase l argv i).
Proof. unfold exec_adopt. quiet. Qed.

(** No process has changed, nor which one runs, nor any descriptor. *)
Definition unmoved k k' : Prop :=
  k_pcb k' = k_pcb k ∧ k_current k' = k_current k ∧ ∃ f, k_fds k' = set_files f (k_fds k).
(** One process is new: its slot was EMPTY, it is READY and has the next identifier; the
    other slots, the running process and the descriptors are as they were.  [fit] is
    what else is known of its slot. *)
Definition newborn (fit : Z → kstate F → Prop) k (np : Z) k' : Prop :=
  np = k_next_pid k ∧ (∃ i, 0 ≤ i < 64 ∧ state (pcb_of k i) = PROC_EMPTY ∧ making k i k' ∧ fit i k') ∧
  k_current k' = k_current k ∧ ∃ f, k_fds k' = set_files f (k_fds k).
(** Identifiers that were given out, also those of slots that are EMPTY again. *)
Definition table_fresh k : Prop :=
  table_ok k ∧ k_next_pid k < 2 ^ 31 - 1 ∧ ∀ i, 0 ≤ i < 64 → pid (pcb_of k i) < k_next_pid k.

Lemma unmoved_kept k1 k2 k3 : unmoved k1 k2 → kept k2 k3 → unmoved k1 k3.
Proof. intros (E1 & E2 & f & E3) (h & f' & ->). split_and!; [done..|]. exists f'. simpl. by rewrite E3. Qed.
Lemma kept_unmoved k1 k2 : kept k1 k2 → unmoved k1 k2.
Proof. intros (h & f & ->). split_and!; [done..|]. by exists f. Qed.
Lemma newborn_mono (P Q : Z → kstate F → Prop) k np k' : (∀ i, P i k' → Q i k') → newborn P k np k' → newborn Q k np k'.
Proof. intros HPQ (E1 & (i & ? & ? & ? & ?) & E2). split_and!; [done|exists i; auto|apply E2..]. Qed.
Lemma fresh_kept k k' : table_fresh k → kept k k' → table_fresh k'.
Proof. intros (HT & Hn & Hb) (h & f & ->). split_and!; [|done..]. by apply table_ok_heap, table_ok_fds. Qed.

(** The result of a preparation. *)
Definition prepared {A} (fit : A → Z → kstate F → Prop) (k : kstate F) (pid_of : A → Z) (r : option A) (k' : kstate F) : Prop :=
  match r with None => unmoved k k' | Some a => newborn (fit a) k (pid_of a) k' end.

(** The 64 KB a process gets for its stack. *)
Definition stacked (ustack : Z) : Prop := ustack ≠ 0 ∧ ∃ h h1, kmalloc EXEC_USER_STACK_SIZE h = Some (ustack, h1).
(** The slot of an ELF program: its address space is a copy of the kernel's made for it,
    and the frame it starts with has the stack pointer that [user_stack] gave for its
    arguments. *)
Definition elf_fit (argv : list (list Z)) (x : Z * Z) (i : Z) k : Prop :=
  stacked (snd x) ∧
  (pml4 (pcb_of k i) ≠ 0 ∧ ∃ h h1, clone_identity_tables h = Some (pml4 (pcb_of k i), h1)) ∧
  ∃ top phdr phent phnum base h h1, user_stack top phdr phent phnum base argv [] h =
    Some (ld (h_mem (k_heap k)) (kernel_rsp (pcb_of k i) + 8 * 18), h1).
(** A Mach-O program was loaded in place and has an entry point. *)
Definition macho_fit (buf : Z) (x : Z * Z) (i : Z) k : Prop :=
  stacked (snd x) ∧ ∃ h entry h1, entry ≠ 0 ∧ mach_o_load buf h = Some (entry, h1).

(** A new process has the only slot with its identifier. *)
Lemma slot_of_new k i k' : table_fresh k → 0 ≤ i < 64 → making k i k' →
  find_first (λ j, pid (pcb_of k' j) =? k_next_pid k) slots = i.
Proof.
  intros (_ & _ & Hb) Hi (Ho & _ & Hp & _).
  destruct (find_first_spec (λ j, pid (pcb_of k' j) =? k_next_pid k) slots) as [[_ Hno]|[Hin Hf]].
  - exfalso. specialize (Hno i (proj2 (slots_elem i) Hi)). simpl in Hno. rewrite Hp, Z.eqb_refl in Hno. done.
  - set (j := find_first _ _) in *. destruct (decide (j = i)) as [|Hne]; [done|]. exfalso.
    apply Z.eqb_eq in Hf. rewrite Ho in Hf by done. apply slots_elem in Hin. specialize (Hb j Hin). lia.
Qed.

Lemma adopt_makes child atbase l argv k0 i k : making k0 i k → wlp (exec_adopt child atbase l argv i) k (λ _ k', making k0 i k').
Proof.
  intros Hm. unfold exec_adopt. wlp_step. apply wlp_pcb_get. intros _. wlp_step.
  eapply wlp_making_heap; [done|]. intros _ k1 Hm1 _. wlp_step. eapply wlp_making_upd; [done..|]. intros k2 Hm2 _.
  wlp_step. eapply (wlp_mono _ _ (λ _ k', making k0 i k')).
  { destruct (nz (l_bss l)); [eapply wlp_making_upd; [done..|]; by intros|by apply wlp_skip]. }
  intros [] k3 Hm3. wlp_step. apply wlp_pcb_get. intros _. eapply wlp_making_heap; [exact Hm3|]. by intros.
Qed.

(** What the new slot has afterwards. *)
Lemma adopt_fits child atbase l argv i k : wlp (exec_adopt child atbase l argv i) k (λ _ k', pml4 (pcb_of k' i) = child ∧
  ∃ top phdr phent phnum base h h1, user_stack top phdr phent phnum base argv [] h =
    Some (ld (h_mem (k_heap k')) (kernel_rsp (pcb_of k' i) + 8 * 18), h1)).
Proof.
  unfold exec_adopt. wlp_step. apply wlp_pcb_get. intros Hi. wlp_step. apply wlp_zoom. intros [] h0 _.
  wlp_step. apply wlp_pcb_upd_abs. intros k1 Hk1 _ _.
  assert (pml4 (pcb_of k1 i) = child) as P1 by (by rewrite Hk1, decide_True).
  wlp_step. eapply (wlp_mono _ _ (λ _ k2, pml4 (pcb_of k2 i) = child)).
  { destruct (nz (l_bss l)); [|by apply wlp_skip]. apply wlp_pcb_upd_abs. intros k2 Hk2 _ _. by rewrite Hk2, decide_True. }
  intros [] k2 P2. cbv beta in P2. wlp_step. apply wlp_pcb_get. intros _. apply wlp_zoom. intros [] h2.
  set (a := kernel_rsp (pcb_of k2 i) + 8 * 18). revert h2.
  enough (wlp (let! old_rsp := load a in let! rsp := user_stack old_rsp (l_phdr l) (l_phent l) (l_phnum l) atbase argv [] in store a rsp)
    (k_heap k2) (λ _ h2, ∃ top phdr phent phnum base h h1, user_stack top phdr phent phnum base argv [] h = Some (ld (h_mem h2) a, h1))) as Hw.
  { intros h2 E2. split; [exact P2|]. exact (Hw tt h2 E2). }
  apply wlp_bind, wlp_gets, wlp_bind. intros rsp h1 E1. apply wlp_modify. eexists _, _, _, _, _, _, _. simpl.
  rewrite ld_st, decide_True by done. exact E1.
Qed.

(** A step that leaves the processes alone, and then the rest. *)
Lemma wlp_still {A B} (m : M (console * world F) A) (n : A → M (console * world F) B) s k (Q : B → console * world F → Prop) :
  kept k (kern s) → still m → (∀ a s', kept k (kern s') → wlp (n a) s' Q) → wlp (let! a := m in n a) s Q.
Proof.
  intros Hk Hm Hn. apply wlp_bind. eapply wlp_mono; [apply Hm|]. intros a s' Hs. apply Hn. exact (PreOrder_Transitive _ _ _ Hk Hs).
Qed.
(** The last steps of a preparation that failed, or succeeded. *)
Lemma wlp_fail {A B} (m : M (console * world F) A) fit (f : B → Z) s k :
  unmoved k (kern s) → still m → wlp (m ;! ret None) s (λ r s', prepared fit k f r (kern s')).
Proof.
  intros Hk Hm. apply wlp_bind. eapply wlp_mono; [apply Hm|]. intros a s' Hs. apply wlp_ret. by eapply unmoved_kept.
Qed.
Lemma wlp_told {B} fmt args fit (f : B → Z) (b : B) s k :
  newborn (fit b) k (f b) (kern s) → wlp (printf fmt args ;! ret (Some b)) s (λ r s', prepared fit k f r (kern s')).
Proof. intros Hk. apply wlp_bind. unfold printf, on_con. apply wlp_zoom. intros [] c _. by apply wlp_ret. Qed.

Lemma in_heap_run {A} (m : M heap A) s a s' : in_heap m s = Some (a, s') →
  ∃ h, m (k_heap (kern s)) = Some (a, h) ∧ k_heap (kern s') = h.
Proof.
  unfold in_heap, on_sys, on_mem, on_kern, on_heap, zoom, kern. destruct (m _) as [[b h]|] eqn:E; [|done].
  intros [= <- <-]. by exists h.
Qed.
(** A step on the heap, with its run, and then the rest. *)
Lemma wlp_heap {A B} (m : M heap A) (n : A → M (console * world F) B) s k (Q : B → console * world F → Prop) :
  kept k (kern s) → (∀ a s', kept k (kern s') → (∃ h h', m h = Some (a, h')) → wlp (n a) s' Q) → wlp (let! a := in_heap m in n a) s Q.
Proof.
  intros Hk Hn. apply wlp_bind. intros a s' E. destruct (in_heap_run m s a s' E) as (h & Eh & _). apply Hn; [|by eexists _, _].
  refine (PreOrder_Transitive _ _ _ Hk _). exact (still_sys (on_mem m) (calmly_mem m) _ _ _ E).
Qed.

Lemma wlp_in_kern {A} (m : M (kstate F) A) s (Q : A → console * world F → Prop) :
  wlp m (kern s) (λ a k, ∀ s', kern s' = k → Q a s') → wlp (in_kern m) s Q.
Proof. intros Hm. unfold in_kern. apply wlp_zoom. intros a x. unfold on_kern, zoom. destruct (m _) as [[b k]|] eqn:E; [|done]. intros [= <- <-]. by apply (Hm b k E). Qed.

(** A new process, by one call or the other. *)
Lemma wlp_create (m : M (kstate F) Z) s k (Q : Z → console * world F → Prop) :
  kept k (kern s) → table_fresh k → wlp m (kern s) (creates (kern s)) → quietly m →
  (∀ s', unmoved k (kern s') → Q (-1) s') →
  (∀ np s' i, np = k_next_pid k → 0 ≤ np → 0 ≤ i < 64 → state (pcb_of k i) = PROC_EMPTY → making k i (kern s') →
     k_current (kern s') = k_current k → (∃ f, k_fds (kern s') = set_files f (k_fds k)) → Q np s') →
  wlp (in_kern m) s Q.
Proof.
  intros Hk HT Hc Hq Hno Hyes. apply wlp_in_kern. intros r k' E s' Es. destruct (Hq _ _ _ E) as [E1 E2].
  destruct Hk as (h & f & Ek). rewrite Ek in *. pose proof (to_next _ (proj1 HT)).
  destruct (Hc _ _ E) as [(-> & Ep & _)|(-> & i & Hi & He & Hm & _)].
  - apply Hno. rewrite Es. split_and!; [done..|]. exists f. by rewrite E2.
  - apply (Hyes _ s' i); rewrite ?Es; try done; [simpl; lia|]. exists f. by rewrite E2.
Qed.

Lemma spawn_prepares fname argv child entry l s k : kept k (kern s) → table_fresh k →
  child ≠ 0 → (∃ h h1, clone_identity_tables h = Some (child, h1)) →
  wlp (exec_spawn fname argv child entry l) s (λ r s', prepared (elf_fit argv) k fst r (kern s')).
Proof.
  intros Hk HT Hc0 Hcl. unfold exec_spawn. apply (wlp_still _ _ _ k); [done|still|]. intros ? s1 K1.
  apply (wlp_heap _ _ _ k); [done|]. intros ustack s2 K2 Hu. destruct (Z.eqb_spec ustack 0) as [|Hu0]; [apply wlp_fail; [by apply kept_unmoved|still]|].
  apply (wlp_still _ _ _ k); [done|still|]. intros ? s3 K3. apply wlp_bind.
  pose proof (fresh_kept _ _ HT K3) as (HT3 & Hn3 & _).
  apply (wlp_create _ s3 k); [done|done|by apply spawn_creates|apply quietly_spawn| |].
  { intros s4 U4. cbn [Z.ltb Z.compare]. apply wlp_bind. eapply wlp_mono; [apply still_con|]. intros ? s5 K5.
    apply wlp_fail; [by eapply unmoved_kept|still]. }
  intros np s4 i Hnp H0p Hi He Hm Hc Hf. rewrite (proj2 (Z.ltb_ge _ _)) by done. wlp_step. wlp_step. apply wlp_bind.
  apply wlp_in_kern. wlp_step. wlp_step. rewrite Hnp, (slot_of_new k i) by done. rewrite (proj2 (Z.leb_le 0 i)) by lia.
  intros [] k5 E5 s5 Es5. apply wlp_told. destruct (quietly_adopt _ _ _ _ _ _ _ _ E5) as [E1 E2].
  destruct (adopt_fits _ _ _ _ _ _ _ _ E5) as [Ep Est].
  rewrite Es5. split_and!; [done| |by rewrite E1|by rewrite E2]. exists i. split_and!; [lia..|done|by apply (adopt_makes _ _ _ _ _ _ _ Hm _ _ E5)|].
  split_and!; [done|by rewrite Ep|by rewrite Ep|done].
Qed.

Lemma elf_prepares fname argv buf fsize s k : kept k (kern s) → table_fresh k →
  wlp (exec_elf fname argv buf fsize) s (λ r s', prepared (elf_fit argv) k fst r (kern s')).
Proof.
  intros Hk HT. unfold exec_elf. apply (wlp_heap _ _ _ k); [done|]. intros child s1 K1 Hcl. destruct (Z.eqb_spec child 0) as [|Hc0].
  { apply (wlp_still _ _ _ k); [done|still|]; intros ? s2 K2; apply wlp_fail; [by apply kept_unmoved|still]. }
  apply (wlp_still _ _ _ k); [done|still|]. intros [entry l] s2 K2.
  apply (wlp_still _ _ _ k); [done|apply still_interp|]. intros ? s3 K3.
  apply (wlp_still _ _ _ k); [done|still|]. intros ? s4 K4.
  apply (wlp_still _ _ _ k); [done|apply still_entry|]. intros [e|] s5 K5; [by apply spawn_prepares|].
  apply wlp_ret. by apply kept_unmoved.
Qed.

Lemma macho_prepares args buf s k : kept k (kern s) → table_fresh k →
  wlp (exec_macho args buf) s (λ r s', prepared (macho_fit buf) k fst r (kern s')).
Proof.
  intros Hk HT. unfold exec_macho. apply (wlp_heap _ _ _ k); [done|]. intros entry s1 K1 Hen. destruct (Z.eqb_spec entry 0) as [|He0].
  { apply (wlp_still _ _ _ k); [done|still|]; intros ? s2 K2; apply wlp_fail; [by apply kept_unmoved|still]. }
  apply (wlp_heap _ _ _ k); [done|]. intros ustack s2 K2 Hu. destruct (Z.eqb_spec ustack 0) as [|Hu0].
  { apply (wlp_still _ _ _ k); [done|still|]; intros ? s3 K3; apply wlp_fail; [by apply kept_unmoved|still]. }
  apply (wlp_still _ _ _ k); [done|still|]. intros ? s3 K3. apply wlp_bind.
  pose proof (fresh_kept _ _ HT K3) as (HT3 & Hn3 & _).
  apply (wlp_create _ s3 k); [done|done|by apply create_creates|apply quietly_create| |].
  { intros s4 U4. cbn [Z.ltb Z.compare]. apply wlp_bind. eapply wlp_mono; [apply still_con|]. intros ? s5 K5.
    apply wlp_bind. eapply wlp_mono; [apply still_sys, calmly_mem|]. intros ? s6 K6.
    apply wlp_fail; [|still]. exact (unmoved_kept _ _ _ (unmoved_kept _ _ _ U4 K5) K6). }
  intros np s4 i Hnp H0p Hi He Hm Hc (f & Hf). rewrite (proj2 (Z.ltb_ge _ _)) by done.
  apply wlp_bind. eapply wlp_mono; [apply still_sys, calmly_mem|]. intros ? s5 (h & f' & K5). apply wlp_told. rewrite K5.
  split_and!; [done| |done|exists f'; simpl; by rewrite Hf]. exists i. split_and!; [lia..|done|done|]. destruct Hen as (h0 & h1 & Hen).
  split; [done|by exists h0, entry, h1].
Qed.

(** The arguments of the command line, whether it asks for the background, and the file
    in the block [buf] of the heap of [s2]. *)
Definition fetched (args : list Z) s (argv : list (list Z)) (bg : bool) (buf fsize : Z) (s2 : console * world F) : Prop :=
  exec_argv args = Some (argv, bg) ∧
  ∃ fname s1, exec_file (default [] (head argv)) s = Some (fname, s1) ∧ exec_fetch fname s1 = Some (Some (buf, fsize), s2).

(** The new process runs the file that was asked for. *)
Definition runs_file (args : list Z) s : Z * Z * bool → Z → kstate F → Prop := λ '(np, u, b) i k,
  ∃ argv bg buf fsize s2, fetched args s argv bg buf fsize s2 ∧
    (fst <$> is_elf buf fsize (k_heap (kern s2)) = Some true ∧ b = bg ∧ elf_fit argv (np, u) i k ∨
     fst <$> is_elf buf fsize (k_heap (kern s2)) = Some false ∧ b = false ∧ macho_fit buf (np, u) i k).


(** ** A dynamic program changes those after it *)

(** The static variables after the interpreter was loaded once. *)
Definition dynamic (s : console * world F) : Prop := dyn_is_dynamic (snd s) = 1 ∧ dyn_interp_entry (snd s) = INTERP_BASE.
Definition sticky {A} (m : M (console * world F) A) : Prop := ∀ s, dynamic s → wlp m s (λ _ s', dynamic s').

Lemma sticky_bind {A B} (m : M (console * world F) A) (n : A → M (console * world F) B) :
  sticky m → (∀ a, sticky (n a)) → sticky (let! a := m in n a).
Proof. intros Hm Hn s Hs. apply wlp_bind. eapply wlp_mono; [by apply Hm|]. intros a s' Hs'. by apply Hn. Qed.
Lemma sticky_ret {A} (a : A) : sticky (ret a).
Proof. intros s Hs. by apply wlp_ret. Qed.
Lemma sticky_gets {A} (f : console * world F → A) : sticky (gets f).
Proof. intros s Hs. by apply wlp_gets. Qed.
Lemma sticky_sys {A} (m : M (wsys F) A) : sticky (on_sys m).
Proof. intros s Hs. apply wlp_zoom. by intros. Qed.
Lemma sticky_con {A} (m : C A) : sticky (on_con m).
Proof. intros s Hs. apply wlp_zoom. by intros. Qed.
Lemma sticky_dyn : sticky (set_dyn INTERP_BASE).
Proof. intros s Hs. by apply wlp_modify. Qed.
Lemma sticky_stuck {A} : sticky (stuck : M (console * world F) A).
Proof. done. Qed.

Ltac sticky := repeat match goal with
  | |- sticky (bind _ _) => apply sticky_bind; [|intros ?]
  | |- sticky (ret _) => apply sticky_ret
  | |- sticky skip => apply sticky_ret
  | |- sticky (gets _) => apply sticky_gets
  | |- sticky stuck => apply sticky_stuck
  | |- sticky (on_sys _) => apply sticky_sys
  | |- sticky (in_heap _) => apply sticky_sys
  | |- sticky (in_kern _) => apply sticky_sys
  | |- sticky (put _) => apply sticky_con
  | |- sticky (printf _ _) => apply sticky_con
  | |- sticky (set_dyn _) => apply sticky_dyn
  | |- sticky (match ?x with _ => _ end) => destruct x
  end.

Lemma sticky_elf fname argv buf fsize : sticky (exec_elf fname argv buf fsize).
Proof. unfold exec_elf, exec_interp, exec_entry, exec_spawn. sticky. Qed.
Lemma sticky_macho args buf : sticky (exec_macho args buf).
Proof. unfold exec_macho. sticky. Qed.
Lemma sticky_prepare args : sticky (exec_prepare args).
Proof.
  unfold exec_prepare, exec_file, exec_fetch. sticky; solve [apply sticky_elf|apply sticky_macho].
Qed.

(** Once a program with an interpreter was loaded, the variables are never reset: every
    later ELF program, static ones and those the loader refused too, is entered at the
    address where the interpreter of the first would have been loaded. *)
Theorem dynamic_sticks args s s' :
  dynamic s → cmd_exec args s = Some (tt, s') → dynamic s' ∧ ∀ entry, exec_entry entry s' = Some (Some INTERP_BASE, s').
Proof.
  intros Hs E. assert (dynamic s') as Hs'.
  { assert (sticky (cmd_exec args)) as Hc; [|exact (Hc s Hs tt s' E)].
    unfold cmd_exec, exec_wait. apply sticky_bind; [apply sticky_prepare|]. intros r. sticky. }
  split; [done|]. intros entry. destruct Hs' as [E1 E2]. unfold exec_entry, bind, gets. rewrite E1, E2.
  by rewrite andb_false_r.
Qed.

(** ** [cd] *)

(** Code that only reads. *)
Definition reads {S A} (m : M S A) : Prop := ∀ s, wlp m s (λ _ s', s' = s).

Lemma reads_bind {S A B} (m : M S A) (n : A → M S B) : reads m → (∀ a, reads (n a)) → reads (let! a := m in n a).
Proof. intros Hm Hn s. apply wlp_bind. eapply wlp_mono; [apply Hm|]. intros a s' ->. apply Hn. Qed.
Lemma reads_ret {S A} (a : A) : reads (ret a : M S A).
Proof. intros s. by apply wlp_ret. Qed.
Lemma reads_gets {S A} (f : S → A) : reads (gets f).
Proof. intros s. by apply wlp_gets. Qed.
Lemma reads_assert {S} b : reads (assert_ b : M S unit).
Proof. intros s. by apply wlp_assert. Qed.
Lemma reads_loop {S A B} (body : A → M S (A + B)) : (∀ a, reads (body a)) → ∀ n a, reads (loop_pow n body a).
Proof.
  intros Hb n. induction n as [|n IH]; intros a; [apply Hb|]. cbn [loop_pow]. apply reads_bind; [apply IH|].
  intros [a'|b]; [apply IH|apply reads_ret].
Qed.
Lemma reads_while {S A B} (body : A → M S (A + B)) a : (∀ a, reads (body a)) → reads (while_ body a).
Proof. intros Hb. unfold while_. apply reads_bind; [by apply reads_loop|]. intros [a'|b]; [done|apply reads_ret]. Qed.
Lemma reads_each {A B} xs (body : Z → A → T (A + B)) a : (∀ x a, reads (body x a)) → reads (each xs body a).
Proof.
  intros Hb. revert a. induction xs as [|x xs IH]; intros a; cbn [each]; [apply reads_ret|].
  apply reads_bind; [apply Hb|]. intros [a'|b]; [apply IH|apply reads_ret].
Qed.

Ltac reads := repeat match goal with
  | |- reads (bind _ _) => apply reads_bind; [|intros ?]
  | |- reads (ret _) => apply reads_ret
  | |- reads (gets _) => apply reads_gets
  | |- reads (assert_ _) => apply reads_assert
  | |- reads (while_ _ _) => apply reads_while; intros ?
  | |- reads (each _ _ _) => apply reads_each; intros ? ?
  | |- reads (match ?x with _ => _ end) => destruct x
  end.

Lemma get_cwd_name_reads n : reads (fat32_get_cwd_name n).
Proof. unfold fat32_get_cwd_name, parent_of, name_in, fat_read_entry, cluster_to_sector, read_sector. reads. Qed.

Lemma cd_process_cluster args (x : wsys F) : wlp (cd_process args) x (λ _ x', cwd_cluster x' = cwd_cluster x).
Proof.
  unfold cd_process. apply wlp_bind, wlp_zoom. intros me k [= _ <-].
  destruct (me <? 0); [by apply wlp_skip|]. apply wlp_bind, wlp_zoom. intros p k Ep.
  assert (k = x_k x) as -> by by apply (wlp_pcb_get me (x_k x) (λ _ k, k = x_k x) (λ _, eq_refl) p k Ep).
  apply wlp_bind, wlp_lift. intros abs _. destruct (negb _); [by apply wlp_skip|].
  apply wlp_bind. eapply (wlp_mono _ _ (λ _ x', cwd_cluster x' = cwd_cluster x)).
  { unfold chdir_isdir, mounted_stat. apply wlp_bind, wlp_bind, wlp_gets.
    destruct (vfs_on_ext2 _); [by apply wlp_ret, wlp_bind, wlp_gets, wlp_ret|].
    apply wlp_stat. intros st x' E. by apply wlp_bind, wlp_gets, wlp_ret. }
  intros [] x' E; [|by apply wlp_skip]. apply wlp_zoom. intros [] k' Ek. rewrite <- E.
  unfold cwd_cluster, fat_now, files. cbn [x_k]. by rewrite (proj2 (quietly_upd _ _ _ _ _ Ek)).
Qed.

(** With an argument [cd] does not change the directory of the FAT volume, which is the
    one it prints and the one [ls] lists. *)
Theorem cd_leaves_volume c args s s' :
  cmd_cd (c :: args) s = Some (tt, s') → cwd_cluster (w_sys (snd s')) = cwd_cluster (w_sys (snd s)).
Proof.
  revert s'. enough (wlp (cmd_cd (c :: args)) s (λ _ s', cwd_cluster (w_sys (snd s')) = cwd_cluster (w_sys (snd s)))) as Hw.
  { intros s' E. exact (Hw tt s' E). }
  unfold cmd_cd. apply wlp_bind, wlp_zoom. intros [] x1 E1. pose proof (cd_process_cluster _ _ _ _ E1) as C1.
  apply wlp_bind, wlp_zoom. intros name x2 E2.
  assert (cwd_cluster x2 = cwd_cluster x1) as C2.
  { apply (wlp_on_fat (fat32_get_cwd_name 256) x1 (λ _ x2, cwd_cluster x2 = cwd_cluster x1)) with (a := name); [|exact E2].
    intros a d x' Ea Ed _. unfold cwd_cluster. by rewrite Ed, (get_cwd_name_reads _ _ _ _ Ea). }
  apply wlp_bind, wlp_zoom. intros [] con1 _. apply wlp_zoom. intros [] con2 _. cbn. congruence.
Qed.
End exec.

(** ** Examples: the process and the file of [SysExecProof] *)

(** A console whose output goes into an empty buffer; nothing runs in between. *)
Definition muted : console := mkConsole ∅ 0 0 0 0 0 0 (Some ∅) (Some 0) 0 ∅ 0 [].
#[export] Instance nothing_runs : Resume one_file := {| resume := λ _, skip; idata := 0x600000 |}.
Definition at_prompt : console * world one_file := (muted, mkWorld one_process 0 0).
(** ["/x"] *)
Definition line_x : list Z := [47; 120].

Lemma at_prompt_slots i : pcb_of (kern at_prompt) i = if decide (i = 2) then running else zero_pcb.
Proof.
  unfold pcb_of, kern. change (k_pcb (x_k (w_sys (snd at_prompt)))) with ({[ 2 := running ]} : gmap Z pcb).
  case_decide as E; [subst; by rewrite lookup_singleton_eq|by rewrite lookup_singleton_ne].
Qed.
Lemma at_prompt_fresh : table_fresh (kern at_prompt).
Proof.
  split_and!; [split| |]; try done.
  - intros i Hi. change (k_count (kern at_prompt)) with 3 in Hi. rewrite at_prompt_slots, decide_False by lia. done.
  - intros i Hi. rewrite at_prompt_slots. by case_decide.
  - intros i j Hi Hj. rewrite !at_prompt_slots. repeat case_decide; subst; done.
  - intros i Hi. rewrite at_prompt_slots. by case_decide.
Qed.


(** The address at which the process in slot 0 is entered. *)
Definition entry_of_new (r : option (option (Z * Z * bool) * (console * world one_file))) : option Z :=
  match r with
  | Some (Some _, s) => fst <$> load (kernel_rsp (pcb_of (kern s) 0) + 8 * 15) (k_heap (kern s))
  | _ => None
  end.

(** The loader gives 0x400000 for the static program of the example. *)
Example static_entered : entry_of_new (exec_prepare line_x at_prompt) = Some 0x400000.
Proof. vm_compute. reflexivity. Qed.
Example static_after_dynamic : entry_of_new (exec_prepare line_x (muted, mkWorld one_process INTERP_BASE 1)) = Some 0x60000000.
Proof. vm_compute. reflexivity. Qed.

(** A loader that refuses the program, one without an interpreter. *)
Definition refusing : Loader := {|
  elf64_load_into_pml4 := λ _ _ _, ret 0; elf64_load_at := λ _ _ _ _, ret 0; elf64_find_interp := λ _ _, ret (-1, []);
  elf64_pie_base := 0x40000000; user_stack := λ top _ _ _ _ _ _, ret (top - 16) |}.

(** The block of a refused program is freed twice, so that it is handed out twice. *)
Example refused_block_twice :
  match @exec_prepare _ _ _ refusing _ line_x at_prompt with
  | Some (None, s) => fst <$> (let! a := kmalloc 65 in let! b := kmalloc 65 in ret (nz a && (a =? b))) (k_heap (kern s))
  | _ => None
  end = Some true.
Proof. vm_compute. reflexivity. Qed.
